(* ===== verification/_CoqProject ===== *)
-Q . S2P
Prelude.v
MathUtils.v
OrderedDict.v
KVBlock.v
FreeQueue.v
BlockHash.v
BlockMap.v
Request.v
BlockHasher.v
BlockHashList.v
BlockPool.v
PrefixCache.v
Ownership.v
KVSpecs.v
KVMerge.v
KVPlan.v
PlanSearch.v
PlanGroups.v
PlanCover.v
PlanLayout.v
PlanTheorems.v
PlanCapacity.v
CacheHit.v
SingleType.v
ManagerFacts.v
Coordinator.v
CoordFacts.v
HybridHit.v
KVManager.v
SlotFacts.v
EagleMamba.v
EncoderCache.v
Heapq.v
RequestQueue.v
SchedUtils.v
SchedState.v
Schedule.v
EncoderStep.v
SchedUpdate.v
Engine.v
Termination.v
SchedFrame.v
SchedFacts.v
SchedWaiting.v
SchedTheorems.v
EngineInv.v
EngineReach.v
Ngram.v
Detokenizer.v
Outputs.v
OutputProcessor.v
OutputFacts.v
OffloadPolicy.v
Offload.v
OffloadFacts.v
Tiering.v
TieringFacts.v
Rejection.v
RejectionFacts.v
RejectionTheorems.v
SpecMetadata.v
BlockTable.v
BlockTableFacts.v
SlotMapping.v
BatchUpdate.v
BatchUpdateFacts.v
LogitsFacts.v
MinPFacts.v
InputBatch.v
InputBatchRows.v
InputBatchFacts.v
InputBatchOps.v
InputBatchCondense.v
InputBatchMetadata.v
InputBatchFrames.v
InputBatchStep.v
InputReorder.v
BatchFindings.v
SchedFindings.v
PlanFindings.v
