(* ===== verification/Prelude.v ===== *)
(** * Scheduling and KV-cache management of a language-model server

    This library models and verifies the core of the vLLM v1 engine: the code
    that decides, step by step, which tokens of which requests a model computes,
    and that manages the memory blocks holding their attention state (the KV
    cache), the planning of the cache's memory at start-up, the engine loop
    around them, the drafting of tokens by prompt lookup and their verification by
    the rejection sampler, the batch a worker keeps from step to step with its
    block tables and logits processors, the offloading of cache blocks to the CPU
    and to further tiers, and the front end that turns the engine's outputs into
    text.
    The sources are the Python files under [src/vllm/v1/core], with the request
    class, the cache specifications, the engine core, the n-gram proposer, the
    rejection sampler, the block tables and the input batch of
    [src/vllm/v1/worker], the logits processors of
    [src/vllm/v1/sample/logits_processor], [src/vllm/v1/kv_offload], the output side of
    [src/vllm/v1/engine] and the helpers they use.

    ** The program

    A server receives requests (prompts).  The scheduler keeps them in a waiting
    queue or in the running list.  In every step it gives tokens to the running
    requests, preempting some of them when memory runs out, admits waiting ones
    while the token budget lasts, and hands the plan to the workers; afterwards
    it appends the sampled tokens and retires the requests that stop.  It asks
    the KV-cache manager for block slots; the manager asks a coordinator, which
    goes through one single-type manager per group of layers (full attention,
    sliding window, chunked local, Mamba, cross attention); these take blocks
    from and give them back to one block pool.  Full blocks are hashed and kept
    in the pool's hash map, so that later requests with the same prefix find
    them.  Outputs of multimodal encoders have a cache of their own.

    Before the first request the engine plans the cache: the layers of all workers
    are put into groups with one page size, the model length may be fitted to
    the memory, every worker lays its tensors out, and all of them are cut to
    the number of blocks of the smallest one, which the scheduler then uses.
    The engine core adds and aborts requests, and in every step runs the
    scheduler, the model and the processing of the model's output.  Draft tokens
    for speculative decoding may come from the n-gram proposer, which looks for
    an earlier occurrence of the end of a request's tokens.  The model then
    computes logits for the last tokens of every request, and the rejection
    sampler decides, request by request, how many of its drafts to keep and which
    token follows them.

    A worker keeps its requests at indices of arrays that survive from step to
    step: tokens, counts, block tables and sampling parameters.  In a step, requests
    that finished leave holes, new ones fill them, the last ones move down into the
    rest, and the attention backend may have decodes sorted before prefills.  The
    moves are recorded, and logits processors, which keep state by index, replay the
    record.  From the block tables a kernel computes the slot of the cache every
    token is written to.

    Blocks may be offloaded: a manager on the scheduler's side keeps track of
    which blocks are in CPU memory, reserves places for new ones, evicts idle ones
    by a replacement policy, and counts the transfers that use each.  With several
    tiers, blocks stored on the CPU are passed on to secondary tiers and brought
    back from there by jobs that finish later.

    The front end keeps a table of the requests it has sent.  For every output of
    the engine core it turns the new tokens into text, looks for stop strings,
    makes an output (for a request with several samples, from those of its
    children) and hands it to the consumer through a collector, which merges
    outputs the consumer has not taken yet.

    ** Files and what they model

    - [Prelude]: exceptions and the [result] monad, loops, lists, integers,
      tactics.  [MathUtils]: [utils/math_utils.py].  [OrderedDict]: Python
      dictionaries with their insertion order.
    - [KVBlock], [FreeQueue], [BlockHash], [BlockHashList]: the block objects, the
      doubly linked free queue, hash keys and coarser hash lists of
      [kv_cache_utils.py].  [BlockHasher]: [request_block_hasher] and the extra
      keys of the same file.
    - [Request]: [v1/request.py].
    - [BlockMap], [BlockPool], with the facts of [PrefixCache] and [Ownership]:
      [block_pool.py].
    - [KVSpecs], [KVMerge]: [kv_cache_interface.py] and the built-in entries of
      [kv_cache_spec_registry.py]: the formats of layers, their page sizes and
      memory bounds; merging, copies and the uniform-type wrapper.
    - [KVPlan]: the configuration planning of [kv_cache_utils.py].  Facts:
      [PlanSearch] (searches), [PlanGroups] and [PlanCover] (grouping),
      [PlanLayout] (tensors and slots), [PlanTheorems] (the plan as a whole),
      [PlanCapacity] (room for a request).
    - [CacheHit] (prefix lookups) and [SingleType] (the managers), with
      [ManagerFacts]: [single_type_kv_cache_manager.py].
    - [Coordinator], with [CoordFacts], [HybridHit] and [EagleMamba]:
      [kv_cache_coordinator.py].
    - [KVManager], with [SlotFacts]: [kv_cache_manager.py].
    - [EncoderCache]: [encoder_cache_manager.py].
    - [Heapq] (the algorithms of the [heapq] module) and [RequestQueue]:
      [sched/request_queue.py].  [SchedUtils]: [sched/utils.py].
    - [SchedState], [Schedule], [SchedUpdate]: [sched/scheduler.py] with the
      overrides of [sched/async_scheduler.py] and the records of
      [sched/output.py]: the scheduler's state and elementary operations, one
      scheduling step, the processing of the model's output.  Facts:
      [EncoderStep], [Termination], [SchedFrame], [SchedFacts], [SchedWaiting],
      [SchedTheorems].
    - [Engine]: the request handling, step, pause and cache resets of
      [engine/core.py].  Facts: [EngineInv] (every operation keeps the invariant
      of the scheduler's state), [EngineReach] (reachable states).
    - [Ngram]: [spec_decode/ngram_proposer.py].
    - [Rejection], with [RejectionFacts] and [RejectionTheorems]:
      [sample/rejection_sampler.py], its kernels on flat buffers; and, with
      [SpecMetadata], [spec_decode/metadata.py] and the computation of its arrays
      in [worker/gpu_model_runner.py].
    - [BlockTable], with [BlockTableFacts] and [SlotMapping]: [worker/block_table.py].
    - [BatchUpdate], with [BatchUpdateFacts], [LogitsFacts] and [MinPFacts]:
      [state.py], [interface.py] and [builtin.py] of [sample/logits_processor].
    - [InputBatch]: [worker/gpu_input_batch.py] with the helpers and metadata records
      it uses.  Facts: [InputBatchRows] (the data of one index), [InputBatchFacts]
      (sets, adapters and the record of a step), [InputBatchOps] and
      [InputBatchCondense] (each operation),
      [InputBatchMetadata] (what the sampler reads), [InputBatchFrames] (what
      operations leave alone), [InputBatchStep] (a step as a whole).
      [InputReorder]: the reordering of [attention/backends/utils.py].
    - [OffloadPolicy], [Offload], with [OffloadFacts]: keys ([kv_offload/base.py]),
      the policies of [kv_offload/cpu/policies] and [kv_offload/cpu/manager.py].
      [Tiering], with [TieringFacts]: [kv_offload/tiering/base.py], [manager.py]
      and [example/manager.py].
    - [Detokenizer]: [engine/detokenizer.py] and [tokenizers/detokenizer_utils.py].
      [Outputs]: [outputs.py], the collector of [engine/output_processor.py] and
      [engine/parallel_sampling.py].  [OutputProcessor], with [OutputFacts]: the
      rest of [engine/output_processor.py] and the registration of requests in
      [engine/llm_engine.py] and [engine/async_llm.py].
    - [SchedFindings], [PlanFindings], [BatchFindings], [EagleMamba]: concrete runs
      that show a defect.

    Function names are those of the source, with a prefix where two classes use
    one name ([km_], [coord_], [enc_], [ed_], [sched_], [op_], [any_], [off_],
    [tm_], [ex_], [lru_], [arc_], [bt_], [mg_], [lb_], [mt_], [minp_], [md_]).

    ** How the code is modelled

    Python integers are [Z]; bytes are lists of [Z]; a call that may raise returns
    [result]; a method takes the state of its object and returns the new one.  An
    exception ends the run: the state in which it was raised is not looked at
    again.  Block objects are shared by reference, so they live in a store
    indexed by [bref]; a request object is identified by its id, and queues,
    which compare objects by identity, use its address.  Fractions (pool usage,
    watermark, the target size of the adaptive policy, probabilities, sampling
    parameters) are exact rationals where Python has floats; where a worker stores
    them in 32 bits the rounding is a parameter.  The output tokens of a request are
    a list shared by the request, the batch and the logits processors, so they live
    in a store of their own.  C and 32-bit integers wrap around
    ([c_int]): counters, cumulative sums, block ids stored into a table and the
    starts of rows of the sampling kernels.  The row offset of the slot-mapping
    kernel is an exception: it stays below 2^31 for any table that fits in
    memory, and is not wrapped.  Device memory is a flat list, and an access outside a buffer an
    error; the programs of a kernel launch run one after the other, and what is
    proved about a launch holds for every order.  Hash functions, the
    block hasher, the structured-output manager, the results of the model, the
    tokenizer with its decode stream, the arg-max, the softmax and the random
    numbers of the tensor library, secondary tiers and the iteration order of
    sets are parameters.  Specifications of layers are values:
    where the source changes a specification in place, no other layer is
    taken to share the object, as each layer builds its own.

    Loops over lists are folds.  The other loops carry fuel, and using it up is
    the exception [OutOfFuel]; the bounds are the source's own: the length of a
    heap for its sifting loops, the length of a hit for its alignment, the
    candidate length (plus two) for the fixed point of the hybrid coordinator,
    the number of running requests (plus one) for the passes over them and for
    preemption, the number of queued requests (plus one) for admission, the bit
    length of the interval (plus one) for the search of a model length, twice the
    number of tokens (plus one) for the n-gram search, the number of holes (plus one)
    for condensing a batch, the number of indices out of place (plus one) for each
    cycle of a reordering.  That
    they suffice is proved: [HybridHit.hybrid_hit_correct],
    [SchedTheorems.schedule_terminates], [PlanSearch.auto_fit_longest],
    [Ngram.ngram_draft_exact], [InputBatchStep.batch_step_exact] and
    [InputReorder.reorder_splits_batch], and, for heaps, as part of the refinement of
    [RequestQueue].  An abort of a parent calls itself once for the children, so
    it has two levels.

    ** What is shown

    - Free queue and pool: the linked queue implements a list; through every
      sequence of operations the free list holds exactly the unreferenced blocks
      and hash map and block hashes agree; each operation does what it says.
    - Hashing: for requests the hasher has run over, two block hashes are equal
      exactly when the prefixes and their extra keys are (for a collision-free
      hash); incremental hashing computes the reference chain, unless tokens are
      appended while two inputs share the block that is not full yet.
    - Lookups: each manager's lookup returns an aligned run of cached blocks where
      the next token can look; the hybrid fixed point terminates with one length
      on which all groups agree (with at most one kind of full attention and no
      lookahead drop for Mamba groups); the sliding-window mask keeps exactly the blocks
      a lookup can use.
    - Managers and slots: reference counts are the occurrences in block tables;
      the predicted number of blocks is exact; [allocate_slots] refuses exactly
      when the blocks do not suffice, and then takes none, or covers all tokens
      and leaves the reserve.  These are about full-attention, sliding-window and
      chunked-local groups.
    - Encoder cache: capacity and bookkeeping invariants, exact admission test,
      allocation after it, release of every reference.
    - Queues and helpers: both queues implement a list kept in service order; the
      stop conditions and the repetition test are exact.
    - Scheduling step: the assertions at its end hold, no request is lost, moved
      to two places or given a wrong status, scheduled tokens stay within the
      budget; every image needed by scheduled tokens is cached and pinned; the
      step terminates.
    - Engine: in every state reached by adding, aborting, stepping, pausing and
      resuming, the next step ends and the assertions of the scheduler hold; for
      synchronous scheduling, requests that are no resumable sessions and whose
      minimum of tokens fits the model, and a runner that returns at most the
      drafts and one token.
    - Planning: groups are well formed and cover the layers; unified pages are
      equal; in every worker's plan each layer has one group and one tensor, and
      packed slots do not overlap; all workers and the scheduler have the
      number of blocks of the smallest worker, which fits in the memory (unless it
      is overridden) and serves a request of the
      maximum length (for layouts that are not packed); the fitted model length
      is the largest; group sizes minimise padding; block sizes divide.
    - Drafting: the n-gram search returns what an exhaustive search returns, and
      every request of a batch gets its own draft.
    - Verification of drafts: a batch returns for every request what a direct
      definition gives; greedy verification returns what decoding without drafts
      returns; sampling keeps the target distribution; recovered tokens are those
      of an exhaustive search; the index arrays select the intended rows; each
      token gets the value of its request and the outputs before it; conditional
      acceptance rates multiply to the configured ones.  For requests that sample,
      the rows must start below 2^31 entries.
    - Batch of a worker: a step always returns, and afterwards the batch holds exactly
      its requests on adjacent indices, each with its own data; logits processors and
      sampling metadata agree with the requests at each index; reordering sorts the
      batch by region.  The slot-mapping kernel writes every token to its place, on
      one rank, also when blocks are split, if the runs of tokens a rank takes
      divide the block of the kernels; biases and masks of stop tokens are
      applied to the logits of their own request only.
    - Offloading: CPU blocks are conserved and the counters exact under any policy,
      blocks in use are kept, stores succeed or refuse cleanly (a store threshold
      can cost a cached key of the call its block), the lists of the
      adaptive policy stay disjoint and bounded; with several tiers every
      reference count is the number of transfers and no assertion fails, for
      tiers that report each job once.
    - Front end: unless the decoder fails, streamed text is never taken back within
      one input and no stop string after the minimum of tokens is missed; a
      collector loses nothing; the completions of a parallel request come back
      complete and in order; the tables of the output processor stay in step.
    - Defects found on the way are theorems too: each finding names the one that
      exhibits it on a concrete run.

    Interfaces between components are type classes: [RequestQueue] with its laws
    [QueueRefines] for the queues, [Decoder] with its laws [DecoderLaws] for the
    two detokenizers, [CachePolicy] with [PolicyLaws] for the replacement
    policies, [SecondaryTier] with [TierLaws] for the tiers.

    ** Not modelled

    External KV and encoder transfer by the scheduler (connectors), the
    file-system and object-store tiers and the transfer workers of offloading,
    custom logits processors and thinking budgets, penalties and top-k/top-p filters
    of the sampler, routed-experts capture,
    statistics, log probabilities and event publishing of the scheduler; the
    log messages of the planning and the capacity in tokens it reports as a
    float; the batch queue, data parallelism, utility calls and sockets of the
    engine core; log probabilities, statistics and tracing of the front end, and
    the processing of its inputs; the rest of the workers, kernels and models, which
    are tensor code and input/output.  The masks of allowed tokens are modelled but
    not part of what is shown of the batch, since [BatchFindings.swap_loses_mask] and
    [BatchFindings.condense_leaves_mask] show that they can be wrong; the theorems on
    the batch are about models that generate, not about pooling models.  Capacity is not claimed for
    packed layouts, where [PlanFindings.stage_underestimated] shows that it fails.  The
    other conditions named above are needed as well:
    [BlockHasher.first_image_not_hashed], [EagleMamba.eagle_mamba_hit_mismatch],
    [EagleMamba.second_full_group_not_cut], [SchedFindings.preempted_session_lost],
    [SchedFindings.min_tokens_stuck], [RejectionTheorems.row_index_wraps],
    [SlotMapping.long_runs_collide], [OffloadFacts.threshold_evicts_own_key] and
    [OutputFacts.session_text_retracted] are runs outside of them. *)


From stdpp Require Export base numbers countable functions gmap strings list.

#[local] Open Scope Z_scope.

(** ** Python exceptions and fallible computations *)

Inductive exn :=
  | ValueError | AssertionError | RuntimeError | IndexError | KeyError
  | OverflowError | TypeError | NotImplementedError | StopIteration
  | ZeroDivisionError | AttributeError | OutOfFuel.

#[export] Instance exn_eq_dec : EqDecision exn.
Proof. solve_decision. Defined.

(** A Python call either returns a value or raises. *)
Inductive result (A : Type) :=
  | Ok (a : A)
  | Raise (e : exn).
Arguments Ok {A} a.
Arguments Raise {A} e.

#[export] Instance result_ret : MRet result := λ A a, Ok a.
#[export] Instance result_bind : MBind result := λ A B k m,
  match m with Ok a => k a | Raise e => Raise e end.

(** [assert b] and [raise] as statements. *)
Definition py_assert (b : bool) : result unit :=
  if b then Ok tt else Raise AssertionError.

(** A [for] loop threading a state through a body that may raise. *)
Fixpoint mfold {S A} (f : S → A → result S) (s : S) (l : list A) : result S :=
  match l with
  | [] => Ok s
  | a :: l => s' ← f s a; mfold f s' l
  end.

(** A [for] loop whose body may [return] a value. *)
Fixpoint mfind {A B} (f : A → result (option B)) (l : list A) : result (option B) :=
  match l with
  | [] => Ok None
  | a :: l => o ← f a; match o with Some b => Ok (Some b) | None => mfind f l end
  end.

(** [len(l)] as a Python integer. *)
Definition zlen {A} (l : list A) : Z := Z.of_nat (length l).

Create HintDb kv.

Lemma mfold_app {S A} (f : S → A → result S) s l1 l2 :
  mfold f s (l1 ++ l2) = (s' ← mfold f s l1; mfold f s' l2).
Proof.
  revert s. induction l1 as [|a l1 IH]; intros s; simpl; [done|].
  destruct (f s a); simpl; [apply IH|done].
Qed.

(** Inversion of a computation that returned. *)
Lemma bind_Ok {A B} (m : result A) (k : A → result B) b :
  (m ≫= k) = Ok b ↔ ∃ a, m = Ok a ∧ k a = Ok b.
Proof. destruct m; simpl; [naive_solver|]. split; [done|]. by intros (a & ? & _). Qed.

Lemma py_assert_Ok b u : py_assert b = Ok u ↔ b = true.
Proof. destruct b, u; simpl; naive_solver. Qed.

(** [bind_inv H as x E]: the first call of [H] returned [x]. *)
Tactic Notation "bind_inv" hyp(H) "as" simple_intropattern(x) ident(E) :=
  apply bind_Ok in H as (x & E & H); cbv beta iota in H.

(** [case_inv H as E]: which branch [H] took. *)
Tactic Notation "case_inv" hyp(H) "as" simple_intropattern(E) :=
  match type of H with (if ?b then _ else _) = _ => destruct b eqn:E end.

(** Loops preserve what their body preserves. *)
Lemma mfold_inv {S A} (P : S → Prop) (f : S → A → result S) l s s' :
  (∀ s a s', a ∈ l → P s → f s a = Ok s' → P s') → P s → mfold f s l = Ok s' → P s'.
Proof.
  revert s. induction l as [|a l IH]; intros s Hf Hs H; simpl in H; [by simplify_eq|].
  bind_inv H as s1 E. apply (IH s1); [|by apply (Hf s a); [left|..]|done].
  intros s2 b s3 Hb. apply Hf. by right.
Qed.

(** ** Lists *)

Lemma NoDup_mid {A} (l1 l2 : list A) x :
  NoDup (l1 ++ x :: l2) ↔ x ∉ l1 ++ l2 ∧ NoDup (l1 ++ l2).
Proof. by rewrite <-Permutation_middle, NoDup_cons. Qed.

Lemma zlen_nil {A} : zlen (@nil A) = 0.
Proof. done. Qed.

Lemma zlen_cons {A} (x : A) l : zlen (x :: l) = zlen l + 1.
Proof. unfold zlen. simpl. lia. Qed.

Lemma zlen_app {A} (l1 l2 : list A) : zlen (l1 ++ l2) = zlen l1 + zlen l2.
Proof. unfold zlen. rewrite length_app. lia. Qed.

Lemma zlen_nonneg {A} (l : list A) : 0 ≤ zlen l.
Proof. unfold zlen. lia. Qed.

Lemma zlen_fmap {A B} (f : A → B) l : zlen (f <$> l) = zlen l.
Proof. unfold zlen. by rewrite length_fmap. Qed.

#[export] Hint Rewrite @zlen_nil @zlen_cons @zlen_app @zlen_fmap : kv.

Lemma filter_all {A} (P : A → Prop) `{!∀ x, Decision (P x)} (l : list A) :
  (∀ x, x ∈ l → P x) → filter P l = l.
Proof.
  induction l as [|x l IH]; intros Hl; [done|].
  rewrite filter_cons_True, IH; [done| |]; intros; apply Hl; set_solver.
Qed.

Lemma filter_none {A} (P : A → Prop) `{!∀ x, Decision (P x)} (l : list A) :
  (∀ x, x ∈ l → ¬ P x) → filter P l = [].
Proof.
  induction l as [|x l IH]; intros Hl; [done|].
  rewrite filter_cons_False by (apply Hl; set_solver). apply IH. set_solver.
Qed.

(** [l[a:b]] for non-negative indices (a larger bound is clipped). *)
Definition py_slice {A} (l : list A) (a b : Z) : list A :=
  take (Z.to_nat b - Z.to_nat a) (drop (Z.to_nat a) l).

(** [l[i]] for a non-negative index. *)
Definition py_index {A} (l : list A) (i : Z) : result A :=
  match l !! Z.to_nat i with Some x => Ok x | None => Raise IndexError end.

(** [l[-n]] for a positive [n]. *)
Definition py_index_back {A} (l : list A) (n : Z) : result A :=
  if n <=? zlen l then py_index l (zlen l - n) else Raise IndexError.

(** [range(a, b)] *)
Definition py_range (a b : Z) : list Z := (λ i, a + Z.of_nat i) <$> seq 0 (Z.to_nat (b - a)).

Lemma py_slice_length {A} (l : list A) a b :
  0 ≤ a → a ≤ b → b ≤ zlen l → zlen (py_slice l a b) = b - a.
Proof. unfold py_slice, zlen. intros. rewrite length_take, length_drop. lia. Qed.

Lemma py_slice_app_l {A} (l1 l2 : list A) a b :
  b ≤ zlen l1 → py_slice (l1 ++ l2) a b = py_slice l1 a b.
Proof.
  unfold py_slice, zlen. intros Hb.
  destruct (decide (Z.to_nat a ≤ length l1)%nat) as [Ha|Ha].
  - rewrite drop_app_le by done. rewrite take_app_le; [done|]. rewrite length_drop. lia.
  - replace (Z.to_nat b - Z.to_nat a)%nat with 0%nat by lia. done.
Qed.

Lemma elem_of_py_range a b i : i ∈ py_range a b ↔ a ≤ i < b.
Proof.
  unfold py_range. rewrite list_elem_of_fmap. setoid_rewrite elem_of_seq. split; [intros (k & -> & ?); lia|].
  intros ?. exists (Z.to_nat (i - a)). lia.
Qed.

(** A loop that returns the constant [b] at the first item that fails a test. *)
Lemma mfind_test {A B} (P : A → Prop) `{!∀ x, Decision (P x)} (f : A → result (option B)) (b : B) l :
  (∀ x, x ∈ l → f x = Ok (if decide (P x) then None else Some b)) →
  mfind f l = Ok (if decide (Forall P l) then None else Some b).
Proof.
  induction l as [|x l IH]; intros Hf; simpl; [done|].
  rewrite Hf by by left. simpl. destruct (decide (P x)) as [Hx|Hx].
  - rewrite IH by (intros; apply Hf; by right).
    destruct (decide (Forall P l)); [rewrite decide_True by by constructor|rewrite decide_False]; [done..|].
    by inversion 1.
  - rewrite decide_False; [done|]. by inversion 1.
Qed.

Lemma py_range_nil a b : b ≤ a → py_range a b = [].
Proof. unfold py_range. intros. by replace (Z.to_nat (b - a)) with 0%nat by lia. Qed.

Lemma py_range_cons a b : a < b → py_range a b = a :: py_range (a + 1) b.
Proof.
  unfold py_range. intros. replace (Z.to_nat (b - a)) with (S (Z.to_nat (b - (a + 1)))) by lia.
  cbn [seq fmap list_fmap]. rewrite Z.add_0_r. f_equal. rewrite <-fmap_S_seq, <-list_fmap_compose.
  apply list_fmap_ext. intros ? x _. simpl. lia.
Qed.

Lemma py_range_app a b c : a ≤ b → b ≤ c → py_range a c = py_range a b ++ py_range b c.
Proof.
  intros Hab Hbc. unfold py_range. replace (Z.to_nat (c - a)) with (Z.to_nat (b - a) + Z.to_nat (c - b))%nat by lia.
  rewrite seq_app, fmap_app. f_equal. replace (0 + Z.to_nat (b - a))%nat with (Z.to_nat (b - a) + 0)%nat by lia.
  rewrite <-fmap_add_seq, <-list_fmap_compose. apply list_fmap_ext. intros ? x _. simpl. lia.
Qed.

Lemma py_index_back_total {A} `{!Inhabited A} (l : list A) n :
  1 ≤ n ≤ zlen l → py_index_back l n = Ok (l !!! (length l - Z.to_nat n)%nat).
Proof.
  unfold py_index_back, py_index, zlen. intros Hn. rewrite (proj2 (Z.leb_le _ _)) by lia.
  replace (Z.to_nat (Z.of_nat (length l) - n)) with (length l - Z.to_nat n)%nat by lia.
  by rewrite list_lookup_lookup_total_lt by lia.
Qed.

(** [max(l)] and [min(l)] of a non-empty list of integers *)
Definition py_max (l : list Z) : result Z :=
  match l with [] => Raise ValueError | x :: l => Ok (foldr Z.max x l) end.
Definition py_min (l : list Z) : result Z :=
  match l with [] => Raise ValueError | x :: l => Ok (foldr Z.min x l) end.

(** The maximum of a list is one of its values and bounds them. *)
Lemma py_max_Ok l m : py_max l = Ok m ↔ m ∈ l ∧ ∀ x, x ∈ l → x ≤ m.
Proof.
  assert (Hf : ∀ x0 l, foldr Z.max x0 l ∈ x0 :: l ∧ ∀ x, x ∈ x0 :: l → x ≤ foldr Z.max x0 l).
  { clear. intros x0 l. induction l as [|y l [IH1 IH2]]; simpl.
    - split; [left|]. intros x ->%list_elem_of_singleton. lia.
    - split.
      + destruct (Z.max_spec y (foldr Z.max x0 l)) as [[_ ->]|[_ ->]]; set_solver.
      + intros x Hx. rewrite !elem_of_cons in Hx. destruct Hx as [->|[->|Hx]]; [|lia|].
        * specialize (IH2 x0 (list_elem_of_here _ _)). lia.
        * specialize (IH2 x (list_elem_of_further _ _ _ Hx)). lia. }
  destruct l as [|x0 l]; simpl.
  - split; [done|]. intros [H _]. by apply elem_of_nil in H.
  - destruct (Hf x0 l) as [H1 H2]. split.
    + intros [= <-]. done.
    + intros [Hm Hb]. f_equal. apply Z.le_antisymm; [by apply Hb|by apply H2].
Qed.

Lemma py_min_Ok l m : py_min l = Ok m → m ∈ l ∧ ∀ x, x ∈ l → m ≤ x.
Proof.
  assert (Hf : ∀ x0 l, foldr Z.min x0 l ∈ x0 :: l ∧ ∀ x, x ∈ x0 :: l → foldr Z.min x0 l ≤ x).
  { clear. intros x0 l. induction l as [|y l [IH1 IH2]]; simpl.
    - split; [left|]. intros x ->%list_elem_of_singleton. lia.
    - split.
      + destruct (Z.min_spec y (foldr Z.min x0 l)) as [[_ ->]|[_ ->]]; set_solver.
      + intros x Hx. rewrite !elem_of_cons in Hx. destruct Hx as [->|[->|Hx]]; [|lia|].
        * specialize (IH2 x0 (list_elem_of_here _ _)). lia.
        * specialize (IH2 x (list_elem_of_further _ _ _ Hx)). lia. }
  destruct l as [|x0 l]; simpl; [done|]. intros [= <-]. apply Hf.
Qed.

Lemma py_max_total l : l ≠ [] → ∃ m, py_max l = Ok m.
Proof. destruct l; [done|]. eauto. Qed.

Lemma py_min_total l : l ≠ [] → ∃ m, py_min l = Ok m.
Proof. destruct l; [done|]. eauto. Qed.

(** A list comprehension over a call that may raise. *)
Fixpoint mmap {A B} (f : A → result B) (l : list A) : result (list B) :=
  match l with
  | [] => Ok []
  | a :: l => b ← f a; bs ← mmap f l; Ok (b :: bs)
  end.

Lemma mmap_Ok {A B} (f : A → result B) l bs : mmap f l = Ok bs ↔ Forall2 (λ a b, f a = Ok b) l bs.
Proof.
  induction l as [|a l IH] in bs |- *; simpl.
  - split; [intros [= <-]; constructor|by inversion 1].
  - rewrite bind_Ok. split.
    + intros (b & Hb & H). bind_inv H as bs' E. injection H as <-. constructor; [done|by apply IH].
    + inversion 1; subst. eexists; split; [done|]. rewrite bind_Ok. eexists; split; [by apply IH|done].
Qed.

Lemma mmap_length {A B} (f : A → result B) l bs : mmap f l = Ok bs → length bs = length l.
Proof. intros H%mmap_Ok. symmetry. by eapply Forall2_length. Qed.

(** Two comprehensions of calls that agree. *)
Lemma mmap_ext {A B} (f g : A → result B) l : (∀ a, a ∈ l → f a = g a) → mmap f l = mmap g l.
Proof.
  induction l as [|a l IH]; intros H; [done|]. simpl. rewrite H by left. rewrite IH; [done|].
  intros a' Ha. apply H. by right.
Qed.

Lemma mmap_fmap {A B C} (f : B → result C) (g : A → B) l : mmap f (g <$> l) = mmap (f ∘ g) l.
Proof. induction l as [|a l IH]; [done|]. cbn. by rewrite IH. Qed.

(** A signed C integer of [w] bits keeps the low bits of what is assigned. *)
Definition c_int (w z : Z) : Z := (z + 2 ^ (w - 1)) mod 2 ^ w - 2 ^ (w - 1).

Lemma c_int_id w z : 1 ≤ w → - 2 ^ (w - 1) ≤ z < 2 ^ (w - 1) → c_int w z = z.
Proof.
  intros Hw Hz. unfold c_int. replace (2 ^ w) with (2 * 2 ^ (w - 1)).
  - rewrite Z.mod_small; lia.
  - replace w with (Z.succ (w - 1)) at 2 by lia. rewrite Z.pow_succ_r; lia.
Qed.

(** ** Consecutive ranges *)

(** Where the [i]-th of consecutive ranges of these lengths starts. *)
Definition offset_of (ns : list nat) (i : nat) : nat := sum_list (take i ns).

Lemma offset_of_S ns i n : ns !! i = Some n → offset_of ns (S i) = (offset_of ns i + n)%nat.
Proof. intros H. unfold offset_of. rewrite (take_S_r _ _ _ H), sum_list_with_app. cbn. lia. Qed.

Lemma offset_of_mono ns i j : (i ≤ j)%nat → (offset_of ns i ≤ offset_of ns j)%nat.
Proof.
  intros H. unfold offset_of. rewrite <-(take_drop i (take j ns)), take_take, sum_list_with_app.
  replace (i `min` j)%nat with i by lia. lia.
Qed.

Lemma offset_of_unique ns i j k l ni nj : ns !! i = Some ni → ns !! j = Some nj → (k < ni)%nat → (l < nj)%nat →
  (offset_of ns i + k = offset_of ns j + l)%nat → i = j ∧ k = l.
Proof.
  intros Hi Hj Hk Hl E. pose proof (offset_of_S ns i ni Hi). pose proof (offset_of_S ns j nj Hj).
  destruct (decide (i < j)%nat) as [Hij|Hij]; [pose proof (offset_of_mono ns (S i) j); lia|].
  destruct (decide (j < i)%nat) as [Hji|Hji]; [pose proof (offset_of_mono ns (S j) i); lia|]. split; [lia|].
  assert (i = j) as -> by lia. lia.
Qed.

Lemma offset_of_total ns i n : ns !! i = Some n → (offset_of ns i + n ≤ sum_list ns)%nat.
Proof.
  intros H. rewrite <-(offset_of_S ns i n H). unfold offset_of. rewrite <-(take_drop (S i) ns) at 2. rewrite sum_list_with_app. lia.
Qed.
