(* ===== verification/MathUtils.v ===== *)
(** * Integer helpers of [vllm/utils/math_utils.py]

    Python integers are unbounded, so they are [Z].  Python's [//] and [%] are
    floor division and its remainder, which is what [Z.div] and [Z.modulo] are
    for a non-zero divisor; a zero divisor (which raises in Python) is excluded
    by the hypotheses of the theorems. *)

From S2P Require Import Prelude.

#[local] Open Scope Z_scope.

(** [cdiv(a, b) = -(a // -b)] *)
Definition cdiv (a b : Z) : Z := - (a / - b).

(** [int.bit_length] on the values the source applies it to. *)
Definition bit_length (n : Z) : Z :=
  if n =? 0 then 0 else Z.log2 (Z.abs n) + 1.

Definition next_power_of_2 (n : Z) : Z :=
  if n <? 1 then 1 else Z.shiftl 1 (bit_length (n - 1)).

Definition round_up (x y : Z) : Z := ((x + y - 1) / y) * y.

Definition round_down (x y : Z) : Z := (x / y) * y.

Definition largest_power_of_2_divisor (n : Z) : Z := Z.land n (- n).

(** ** Ceiling division *)

Lemma cdiv_bounds a b : 0 < b → (cdiv a b - 1) * b < a ≤ cdiv a b * b.
Proof.
  intros Hb. unfold cdiv.
  pose proof (Z.mod_neg_bound a (- b) ltac:(lia)) as Hm.
  pose proof (Z.div_mod a (- b) ltac:(lia)) as Hd. nia.
Qed.

Lemma cdiv_le_iff a b k : 0 < b → cdiv a b ≤ k ↔ a ≤ k * b.
Proof. intros Hb. pose proof (cdiv_bounds a b Hb). split; nia. Qed.

Lemma cdiv_nonneg a b : 0 < b → 0 ≤ a → 0 ≤ cdiv a b.
Proof. intros Hb Ha. pose proof (cdiv_bounds a b Hb). nia. Qed.

Lemma cdiv_mono a a' b : 0 < b → a ≤ a' → cdiv a b ≤ cdiv a' b.
Proof. intros Hb Ha. apply cdiv_le_iff; [done|]. pose proof (cdiv_bounds a' b Hb). lia. Qed.

Lemma cdiv_mul k b : 0 < b → cdiv (k * b) b = k.
Proof. intros Hb. pose proof (cdiv_bounds (k * b) b Hb). nia. Qed.

Lemma cdiv_floor a b : 0 < b → cdiv a b = (a + b - 1) / b.
Proof.
  intros Hb. pose proof (cdiv_bounds a b Hb).
  apply (Z.div_unique_pos _ _ _ (a + b - 1 - cdiv a b * b)); nia.
Qed.

Lemma div_le_cdiv a b : 0 < b → a / b ≤ cdiv a b.
Proof.
  intros Hb. pose proof (cdiv_bounds a b Hb). apply Z.div_le_upper_bound; nia.
Qed.

(** ** Rounding *)

Lemma round_up_cdiv x y : 0 < y → round_up x y = cdiv x y * y.
Proof. intros. unfold round_up. by rewrite cdiv_floor. Qed.

Lemma round_down_bounds x y : 0 < y → round_down x y ≤ x < round_down x y + y.
Proof.
  intros Hy. unfold round_down.
  pose proof (Z.div_mod x y ltac:(lia)). pose proof (Z.mod_pos_bound x y Hy). lia.
Qed.

Lemma round_down_mod x y : 0 < y → round_down x y mod y = 0.
Proof. intros. unfold round_down. by rewrite Z.mod_mul by lia. Qed.

Lemma round_down_id x y : 0 < y → x mod y = 0 → round_down x y = x.
Proof.
  intros Hy Hm. unfold round_down. pose proof (Z.div_mod x y ltac:(lia)). lia.
Qed.

Lemma round_down_nonneg x y : 0 < y → 0 ≤ x → 0 ≤ round_down x y.
Proof. intros Hy Hx. unfold round_down. pose proof (Z.div_pos x y Hx Hy). nia. Qed.

(** ** Powers of two *)

Lemma bit_length_nonneg n : 0 ≤ n → 0 ≤ bit_length n.
Proof.
  intros Hn. unfold bit_length. destruct (Z.eqb_spec n 0); [lia|].
  pose proof (Z.log2_nonneg (Z.abs n)). lia.
Qed.

Lemma bit_length_bounds n : 0 ≤ n → n < 2 ^ bit_length n ∧ (0 < n → 2 ^ (bit_length n - 1) ≤ n).
Proof.
  intros Hn. unfold bit_length. destruct (Z.eqb_spec n 0) as [->|Hz]; [split; [done|lia]|].
  rewrite Z.abs_eq by done. pose proof (Z.log2_spec n ltac:(lia)) as [Hl Hu].
  rewrite <- Z.add_1_r in Hu. split; [done|]. intros _. by replace (_ + 1 - 1) with (Z.log2 n) by lia.
Qed.

Lemma next_power_of_2_spec n :
  1 ≤ n → ∃ k, 0 ≤ k ∧ next_power_of_2 n = 2 ^ k ∧ n ≤ 2 ^ k < 2 * n.
Proof.
  intros Hn. unfold next_power_of_2. destruct (Z.ltb_spec n 1); [lia|].
  exists (bit_length (n - 1)). pose proof (bit_length_nonneg (n - 1) ltac:(lia)) as H0.
  rewrite Z.shiftl_1_l. repeat split; [done| |].
  - pose proof (bit_length_bounds (n - 1) ltac:(lia)) as [Hlt _]. lia.
  - destruct (Z.eq_dec n 1) as [->|Hne]; [done|].
    pose proof (bit_length_bounds (n - 1) ltac:(lia)) as [_ Hle].
    specialize (Hle ltac:(lia)).
    assert (1 ≤ bit_length (n - 1)).
    { unfold bit_length. destruct (Z.eqb_spec (n - 1) 0); [lia|].
      pose proof (Z.log2_nonneg (Z.abs (n - 1))). lia. }
    replace (bit_length (n - 1)) with (1 + (bit_length (n - 1) - 1)) by lia.
    rewrite Z.pow_add_r by lia. lia.
Qed.
