(* ===== verification/OrderedDict.v ===== *)
(** * Insertion-ordered dictionaries

    Python's [dict] and [OrderedDict] where the iteration order matters: an
    association list in insertion order, one entry per key.  Assigning to an
    existing key keeps its position. *)

From S2P Require Import Prelude.

Section odict.
Context {K V : Type} `{EqDecision K}.
Implicit Types (d : list (K * V)) (k : K) (v : V).

(** [d.get(k)] *)
Fixpoint od_get d k : option V :=
  match d with
  | [] => None
  | (k', v) :: d => if decide (k = k') then Some v else od_get d k
  end.

(** [d[k] = v] *)
Fixpoint od_set d k v : list (K * V) :=
  match d with
  | [] => [(k, v)]
  | (k', v') :: d => if decide (k = k') then (k, v) :: d else (k', v') :: od_set d k v
  end.

(** [d.pop(k, None)], the dictionary without [k] *)
Definition od_del d k : list (K * V) := filter (λ p, p.1 ≠ k) d.

Lemma od_get_elem d k v : NoDup d.*1 → od_get d k = Some v ↔ (k, v) ∈ d.
Proof.
  induction d as [|[k' v'] d IH]; simpl; [set_solver|].
  rewrite NoDup_cons. intros [Hk Hd]. case_decide as E; subst.
  - rewrite elem_of_cons. split; [intros [= ->]; by left|].
    intros [[= ->]|Hin]; [done|]. destruct Hk. apply list_elem_of_fmap. by exists (k', v).
  - rewrite IH, elem_of_cons by done. naive_solver.
Qed.

Lemma od_get_None d k : od_get d k = None ↔ k ∉ d.*1.
Proof. induction d as [|[k' v'] d IH]; simpl; [set_solver|]. case_decide; set_solver. Qed.

Lemma od_set_keys d k v : (od_set d k v).*1 = if decide (k ∈ d.*1) then d.*1 else d.*1 ++ [k].
Proof.
  induction d as [|[k' v'] d IH]; csimpl; [done|].
  destruct (decide (k = k')) as [->|Hne]; csimpl.
  - by rewrite decide_True by set_solver.
  - rewrite IH. repeat case_decide; set_solver.
Qed.

Lemma od_set_fresh d k v : k ∉ d.*1 → od_set d k v = d ++ [(k, v)].
Proof.
  induction d as [|[k' v'] d IH]; simpl; [done|]. intros Hk.
  rewrite decide_False, IH by set_solver. done.
Qed.

Lemma od_set_nodup d k v : NoDup d.*1 → NoDup (od_set d k v).*1.
Proof.
  intros Hd. rewrite od_set_keys. case_decide; [done|].
  rewrite <-Permutation_cons_append. by apply NoDup_cons.
Qed.

Lemma od_set_nonempty d k v : od_set d k v ≠ [].
Proof. destruct d as [|[k' v'] d]; simpl; [done|]. by case_decide. Qed.

Lemma od_get_set d k k' v :
  od_get (od_set d k v) k' = if decide (k' = k) then Some v else od_get d k'.
Proof.
  induction d as [|[k0 v0] d IH]; simpl; [by repeat case_decide|].
  destruct (decide (k = k0)) as [->|Hne]; simpl; [by repeat case_decide|].
  rewrite IH. repeat case_decide; congruence.
Qed.

Lemma od_del_keys d k : (od_del d k).*1 = filter (λ x, x ≠ k) d.*1.
Proof.
  unfold od_del. induction d as [|[k' v'] d IH]; [done|].
  destruct (decide (k' = k)) as [->|Hne].
  - rewrite (filter_cons_False _ (k, v')) by (simpl; tauto). rewrite fmap_cons. simpl.
    by rewrite (filter_cons_False _ k) by tauto.
  - rewrite (filter_cons_True _ (k', v')) by done. rewrite !fmap_cons. simpl.
    by rewrite (filter_cons_True _ k'), IH.
Qed.

Lemma od_del_nodup d k : NoDup d.*1 → NoDup (od_del d k).*1.
Proof. intros. rewrite od_del_keys. by apply NoDup_filter. Qed.

Lemma od_del_absent d k : k ∉ d.*1 → od_del d k = d.
Proof.
  intros Hk. apply filter_all. intros [k' v'] Hin. simpl. intros ->. apply Hk.
  apply list_elem_of_fmap. by exists (k, v').
Qed.

Lemma od_get_del d k k' :
  NoDup d.*1 → od_get (od_del d k) k' = if decide (k' = k) then None else od_get d k'.
Proof.
  intros Hnd. case_decide as E; [subst; apply od_get_None; rewrite od_del_keys, list_elem_of_filter; tauto|].
  destruct (od_get d k') as [v|] eqn:Ev.
  - apply od_get_elem; [by apply od_del_nodup|]. apply od_get_elem in Ev; [|done].
    unfold od_del. apply list_elem_of_filter. by split.
  - apply od_get_None. apply od_get_None in Ev. rewrite od_del_keys, list_elem_of_filter. tauto.
Qed.

(** A dictionary is any of its entries and the rest. *)
Lemma od_del_perm d k v : NoDup d.*1 → od_get d k = Some v → d ≡ₚ (k, v) :: od_del d k.
Proof.
  induction d as [|[k' v'] d IH]; [done|]. cbn [od_get]. rewrite fmap_cons, NoDup_cons. intros [Hk Hd].
  destruct (decide (k = k')) as [<-|Hne]; intros H.
  - injection H as ->. unfold od_del. rewrite filter_cons_False by (simpl; tauto).
    change (filter _ d) with (od_del d k). by rewrite od_del_absent.
  - unfold od_del. rewrite filter_cons_True by (simpl; congruence). change (filter _ d) with (od_del d k).
    rewrite (IH Hd H) at 1. apply perm_swap.
Qed.

Lemma od_set_perm d k v : NoDup d.*1 → od_set d k v ≡ₚ (k, v) :: od_del d k.
Proof.
  induction d as [|[k' v'] d IH]; [done|]. cbn [od_set]. rewrite fmap_cons, NoDup_cons. intros [Hk Hd].
  destruct (decide (k = k')) as [<-|Hne].
  - unfold od_del. rewrite filter_cons_False by (simpl; tauto). change (filter _ d) with (od_del d k).
    by rewrite od_del_absent.
  - unfold od_del. rewrite filter_cons_True by (simpl; congruence). change (filter _ d) with (od_del d k).
    rewrite (IH Hd). apply perm_swap.
Qed.
End odict.
