(* ===== verification/KVBlock.v ===== *)
(** * KV-cache block metadata and the object store

    [KVCacheBlock] of [vllm/v1/core/kv_cache_utils.py].  The block objects are
    mutable and shared: the free queue links them, the prefix cache maps hashes
    to them and every request's block table points at them.  They therefore
    live in a store indexed by references, and every component works on
    references.  A Python reference always denotes an object, so the store is a
    total function. *)

From S2P Require Import Prelude.

#[local] Open Scope Z_scope.

(** A bytes object: each element is a byte, [0 <= b < 256]. *)
Abbreviation bytes := (list Z).

(** [BlockHashWithGroupId]: the key of the prefix cache. *)
Abbreviation hash_key := (list Z).

(** A reference to a block object: the two sentinels of the free list, or the
    block the pool created for index [n] (whose [block_id] is [n]). *)
Inductive bref := BHead | BTail | BId (n : nat).

#[export] Instance bref_eq_dec : EqDecision bref.
Proof. solve_decision. Defined.

#[export] Instance BId_inj : Inj (=) (=) BId.
Proof. by intros ?? [=]. Qed.

Record KVCacheBlock := mkKVCacheBlock {
  block_id : Z;
  ref_cnt : Z;
  block_hash : option hash_key;
  prev_free_block : option bref;
  next_free_block : option bref;
  is_null : bool;
}.

(** [KVCacheBlock(block_id=i)] with the dataclass defaults. *)
Definition new_block (i : Z) : KVCacheBlock :=
  mkKVCacheBlock i 0 None None None false.

Definition set_ref_cnt (v : Z) (b : KVCacheBlock) : KVCacheBlock :=
  mkKVCacheBlock (block_id b) v (block_hash b) (prev_free_block b) (next_free_block b) (is_null b).
Definition set_hash (v : option hash_key) (b : KVCacheBlock) : KVCacheBlock :=
  mkKVCacheBlock (block_id b) (ref_cnt b) v (prev_free_block b) (next_free_block b) (is_null b).
Definition set_prev (v : option bref) (b : KVCacheBlock) : KVCacheBlock :=
  mkKVCacheBlock (block_id b) (ref_cnt b) (block_hash b) v (next_free_block b) (is_null b).
Definition set_next (v : option bref) (b : KVCacheBlock) : KVCacheBlock :=
  mkKVCacheBlock (block_id b) (ref_cnt b) (block_hash b) (prev_free_block b) v (is_null b).
Definition set_is_null (v : bool) (b : KVCacheBlock) : KVCacheBlock :=
  mkKVCacheBlock (block_id b) (ref_cnt b) (block_hash b) (prev_free_block b) (next_free_block b) v.

(** The [block_hash] setter: a block that already has a hash is a bug. *)
Definition block_hash_setter (k : hash_key) (b : KVCacheBlock) : result KVCacheBlock :=
  _ ← py_assert (bool_decide (block_hash b = None));
  Ok (set_hash (Some k) b).

Definition reset_hash (b : KVCacheBlock) : KVCacheBlock := set_hash None b.

(** [x.prev_free_block = x.next_free_block = None] *)
Definition clear_links (b : KVCacheBlock) : KVCacheBlock := set_next None (set_prev None b).

(** ** The store *)

Definition heap := bref → KVCacheBlock.

(** Mutate the object at [r]. *)
Definition hmod (h : heap) (r : bref) (f : KVCacheBlock → KVCacheBlock) : heap :=
  λ r', if decide (r' = r) then f (h r') else h r'.

Lemma hmod_eq h r f : hmod h r f r = f (h r).
Proof. unfold hmod. by rewrite decide_True. Qed.

Lemma hmod_ne h r r' f : r' ≠ r → hmod h r f r' = h r'.
Proof. intros. unfold hmod. by rewrite decide_False. Qed.

(** The store keeps everything but the links: what a free-list operation may
    not touch. *)
Definition same_meta (h h' : heap) : Prop := ∀ r,
  block_id (h' r) = block_id (h r) ∧ ref_cnt (h' r) = ref_cnt (h r) ∧
  block_hash (h' r) = block_hash (h r) ∧ is_null (h' r) = is_null (h r).

(** The store keeps the links: what everything but the free list may not touch. *)
Definition same_links (h h' : heap) : Prop := ∀ r,
  prev_free_block (h' r) = prev_free_block (h r) ∧
  next_free_block (h' r) = next_free_block (h r).

#[export] Instance same_meta_refl : Reflexive same_meta.
Proof. intros h r. done. Qed.
#[export] Instance same_meta_trans : Transitive same_meta.
Proof. intros h1 h2 h3 H1 H2 r. specialize (H1 r). specialize (H2 r). intuition congruence. Qed.
#[export] Instance same_links_refl : Reflexive same_links.
Proof. intros h r. done. Qed.
#[export] Instance same_links_trans : Transitive same_links.
Proof. intros h1 h2 h3 H1 H2 r. specialize (H1 r). specialize (H2 r). intuition congruence. Qed.

Lemma hmod_same_meta h r f :
  (∀ b, block_id (f b) = block_id b ∧ ref_cnt (f b) = ref_cnt b ∧
        block_hash (f b) = block_hash b ∧ is_null (f b) = is_null b) →
  same_meta h (hmod h r f).
Proof. intros Hf r'. unfold hmod. case_decide; [apply Hf|done]. Qed.

Lemma hmod_same_links h r f :
  (∀ b, prev_free_block (f b) = prev_free_block b ∧ next_free_block (f b) = next_free_block b) →
  same_links h (hmod h r f).
Proof. intros Hf r'. unfold hmod. case_decide; [apply Hf|done]. Qed.

#[export] Hint Extern 1 (same_meta _ (hmod _ _ _)) =>
  apply hmod_same_meta; intros [?????]; simpl; done : kv.
#[export] Hint Extern 1 (same_links _ (hmod _ _ _)) =>
  apply hmod_same_links; intros [?????]; simpl; done : kv.

(** Evaluate the store at a reference compared with the mutated one. *)
Ltac hsimp :=
  repeat (rewrite ?hmod_eq in *; simpl in *;
          match goal with
          | |- context [hmod _ ?r _ ?r'] => rewrite (hmod_ne _ r r') by congruence
          end); rewrite ?hmod_eq in *; simpl in *.
