(* ===== verification/FreeQueue.v ===== *)
(** * The free-block queue

    [FreeKVCacheBlockQueue] of [vllm/v1/core/kv_cache_utils.py]: an intrusive
    doubly linked list through the blocks' [prev_free_block] and
    [next_free_block] fields, between two sentinels, with the number of free
    blocks kept beside it.  The abstract queue is a duplicate-free list of block
    indices ([queue_repr]); every operation is shown to implement the obvious
    list operation, to keep the counter in step and to leave the rest of every
    block alone. *)

From S2P Require Import Prelude KVBlock.

#[local] Open Scope Z_scope.

Record FreeKVCacheBlockQueue := mkQueue {
  q_heap : heap;                (* the block objects, sentinels included *)
  num_free_blocks : Z;
}.

(** ** Operations *)

(** One iteration of the constructor's loop over [range(num_free_blocks)]. *)
Definition init_link (blocks : list bref) (h : heap) (i : nat) : heap :=
  match blocks !! i with
  | None => h
  | Some b =>
      let h := if (0 <? i)%nat then hmod h b (set_prev (blocks !! (i - 1)%nat)) else h in
      if (i <? length blocks - 1)%nat then hmod h b (set_next (blocks !! (i + 1)%nat)) else h
  end.

(** The constructor, over the store [h] in which [blocks] live. *)
Definition init_queue (h : heap) (blocks : list bref) : FreeKVCacheBlockQueue :=
  let h := foldl (init_link blocks) h (seq 0 (length blocks)) in
  let h := hmod h BHead (λ _, new_block (-1)) in
  let h := hmod h BTail (λ _, new_block (-1)) in
  match blocks !! 0%nat, last blocks with
  | Some first, Some lst =>
      let h := hmod h BHead (set_next (Some first)) in
      let h := hmod h first (set_prev (Some BHead)) in
      let h := hmod h BTail (set_prev (Some lst)) in
      mkQueue (hmod h lst (set_next (Some BTail))) (zlen blocks)
  | _, _ =>
      let h := hmod h BHead (set_next (Some BTail)) in
      mkQueue (hmod h BTail (set_prev (Some BHead))) (zlen blocks)
  end.

Definition popleft (q : FreeKVCacheBlockQueue) : result (bref * FreeKVCacheBlockQueue) :=
  let h := q_heap q in
  match next_free_block (h BHead) with
  | None | Some BTail =>
      _ ← py_assert (num_free_blocks q =? 0);
      Raise ValueError
  | Some first =>
      match next_free_block (h first) with
      | None => Raise RuntimeError
      | Some nxt =>
          let h := hmod h BHead (set_next (Some nxt)) in
          let h := hmod h nxt (set_prev (Some BHead)) in
          let h := hmod h first clear_links in
          Ok (first, mkQueue h (num_free_blocks q - 1))
      end
  end.

(** The [for _ in range(n)] loop of [popleft_n]. *)
Fixpoint popleft_n_loop (n : nat) (h : heap) (curr : option bref) (ret : list bref)
    : result (heap * option bref * list bref) :=
  match n with
  | O => Ok (h, curr, ret)
  | S n =>
      match curr with
      | None => Raise AssertionError
      | Some c => popleft_n_loop n (hmod h c clear_links) (next_free_block (h c)) (ret ++ [c])
      end
  end.

Definition popleft_n (q : FreeKVCacheBlockQueue) (n : Z)
    : result (list bref * FreeKVCacheBlockQueue) :=
  if n =? 0 then Ok ([], q) else
  _ ← py_assert (n <=? num_free_blocks q);
  '(h, curr, ret) ← popleft_n_loop (Z.to_nat n) (q_heap q) (next_free_block (q_heap q BHead)) [];
  let h := match curr with
           | Some c => hmod (hmod h BHead (set_next (Some c))) c (set_prev (Some BHead))
           | None => h
           end in
  Ok (ret, mkQueue h (num_free_blocks q - n)).

Definition remove (q : FreeKVCacheBlockQueue) (b : bref) : result FreeKVCacheBlockQueue :=
  let h := q_heap q in
  match prev_free_block (h b), next_free_block (h b) with
  | Some p, Some n =>
      let h := hmod h p (set_next (Some n)) in
      let h := hmod h n (set_prev (Some p)) in
      Ok (mkQueue (hmod h b clear_links) (num_free_blocks q - 1))
  | _, _ => Raise RuntimeError
  end.

Definition append (q : FreeKVCacheBlockQueue) (b : bref) : result FreeKVCacheBlockQueue :=
  let h := q_heap q in
  match prev_free_block (h BTail) with
  | None => Raise RuntimeError
  | Some lst =>
      let h := hmod h lst (set_next (Some b)) in
      let h := hmod h b (set_prev (Some lst)) in
      let h := hmod h b (set_next (Some BTail)) in
      let h := hmod h BTail (set_prev (Some b)) in
      Ok (mkQueue h (num_free_blocks q + 1))
  end.

(** The loop shared by [prepend_n] and [append_n]: chain [blocks] after [lst];
    returns the last block of the chain. *)
Fixpoint chain_blocks (h : heap) (lst : bref) (blocks : list bref) : heap * bref :=
  match blocks with
  | [] => (h, lst)
  | b :: blocks =>
      chain_blocks (hmod (hmod h b (set_prev (Some lst))) lst (set_next (Some b))) b blocks
  end.

Definition prepend_n (q : FreeKVCacheBlockQueue) (blocks : list bref)
    : result FreeKVCacheBlockQueue :=
  match blocks with
  | [] => Ok q
  | _ =>
      match next_free_block (q_heap q BHead) with
      | None => Raise AssertionError
      | Some first =>
          let '(h, prev) := chain_blocks (q_heap q) BHead blocks in
          let h := hmod h prev (set_next (Some first)) in
          let h := hmod h first (set_prev (Some prev)) in
          Ok (mkQueue h (num_free_blocks q + zlen blocks))
      end
  end.

Definition append_n (q : FreeKVCacheBlockQueue) (blocks : list bref)
    : result FreeKVCacheBlockQueue :=
  match blocks with
  | [] => Ok q
  | _ =>
      match prev_free_block (q_heap q BTail) with
      | None => Raise AssertionError
      | Some lst =>
          let '(h, lst) := chain_blocks (q_heap q) lst blocks in
          let h := hmod h lst (set_next (Some BTail)) in
          let h := hmod h BTail (set_prev (Some lst)) in
          Ok (mkQueue h (num_free_blocks q + zlen blocks))
      end
  end.

(** The [while curr_block.next_free_block is not None] loop. *)
Fixpoint walk (fuel : nat) (h : heap) (curr : bref) (ret : list bref) : result (list bref) :=
  match fuel with
  | O => Raise OutOfFuel
  | S fuel =>
      match next_free_block (h curr) with
      | None => Ok ret
      | Some nxt => walk fuel h nxt (ret ++ [curr])
      end
  end.

Definition get_all_free_blocks (fuel : nat) (q : FreeKVCacheBlockQueue) : result (list bref) :=
  match next_free_block (q_heap q BHead) with
  | None => Raise RuntimeError
  | Some first => walk fuel (q_heap q) first []
  end.

(** ** Segments of the doubly linked list *)

(** [dseg h a xs b]: following [next] from [a] goes through exactly [xs] and
    arrives at [b], and [prev] leads back. *)
Fixpoint dseg (h : heap) (a : bref) (xs : list bref) (b : bref) : Prop :=
  match xs with
  | [] => next_free_block (h a) = Some b ∧ prev_free_block (h b) = Some a
  | x :: xs =>
      next_free_block (h a) = Some x ∧ prev_free_block (h x) = Some a ∧ dseg h x xs b
  end.

Lemma dseg_app h a xs y ys b :
  dseg h a (xs ++ y :: ys) b ↔ dseg h a xs y ∧ dseg h y ys b.
Proof.
  revert a. induction xs as [|x xs IH]; intros a; simpl; [tauto|].
  rewrite IH. tauto.
Qed.

Lemma dseg_frame h h' a xs b :
  (∀ r, r = a ∨ r ∈ xs → next_free_block (h' r) = next_free_block (h r)) →
  (∀ r, r ∈ xs ∨ r = b → prev_free_block (h' r) = prev_free_block (h r)) →
  dseg h a xs b → dseg h' a xs b.
Proof.
  revert a. induction xs as [|x xs IH]; intros a Hn Hp; simpl.
  - rewrite Hn, Hp by set_solver. done.
  - rewrite (Hn a), (Hp x) by set_solver. intros (? & ? & ?). split_and!; [done..|].
    apply IH; [| |done]; intros; [apply Hn|apply Hp]; set_solver.
Qed.

Lemma dseg_same_links h h' a xs b : same_links h h' → dseg h a xs b → dseg h' a xs b.
Proof. intros Hl. apply dseg_frame; intros r _; apply Hl. Qed.

(** ** The abstraction relation *)

Record queue_repr (q : FreeKVCacheBlockQueue) (l : list nat) : Prop := {
  repr_count : num_free_blocks q = zlen l;
  repr_nodup : NoDup l;
  repr_seg : dseg (q_heap q) BHead (BId <$> l) BTail;
  repr_tail : next_free_block (q_heap q BTail) = None;
  repr_out : ∀ n, n ∉ l → prev_free_block (q_heap q (BId n)) = None ∧
                          next_free_block (q_heap q (BId n)) = None;
}.

Lemma nodes_nodup (l : list nat) : NoDup l → NoDup (BHead :: (BId <$> l) ++ [BTail]).
Proof.
  intros Hl. apply NoDup_cons. split.
  - rewrite elem_of_app, list_elem_of_fmap, list_elem_of_singleton. naive_solver.
  - apply NoDup_app. split_and!; [by apply NoDup_fmap_2; [apply _|] | | apply NoDup_singleton].
    intros r. rewrite list_elem_of_fmap, list_elem_of_singleton. naive_solver.
Qed.

Lemma dseg_first h a xs b : dseg h a xs b → next_free_block (h a) = Some (default b (head xs)).
Proof. destruct xs; simpl; tauto. Qed.

Lemma dseg_last h a xs b : dseg h a xs b → prev_free_block (h b) = Some (default a (last xs)).
Proof.
  destruct xs as [|y xs _] using rev_ind; [simpl; tauto|].
  rewrite dseg_app, last_snoc. simpl. tauto.
Qed.

(** Unlinking the first node of a segment. *)
Lemma dseg_unlink_first h p x ys b :
  NoDup (p :: x :: ys ++ [b]) → dseg h p (x :: ys) b →
  let n := default b (head ys) in
  next_free_block (h x) = Some n ∧
  dseg (hmod (hmod (hmod h p (set_next (Some n))) n (set_prev (Some p))) x clear_links) p ys b.
Proof.
  rewrite !NoDup_cons. intros (Hp & Hx & Hnd) (_ & _ & Hs).
  destruct ys as [|n ys]; simpl in *.
  - split; [apply Hs|]. assert (p ≠ x ∧ p ≠ b ∧ x ≠ b) as (? & ? & ?) by set_solver.
    split; hsimp; done.
  - destruct Hs as (Hn & _ & Hs). split; [done|].
    apply NoDup_cons in Hnd as [Hnn _].
    assert (p ≠ x ∧ p ≠ n ∧ x ≠ n) as (? & ? & ?) by set_solver.
    split_and!; [hsimp; done..|]. revert Hs. apply dseg_frame; intros r Hr.
    + rewrite hmod_ne by set_solver. destruct (decide (r = n)) as [->|].
      * rewrite hmod_eq. simpl. by rewrite hmod_ne by done.
      * by rewrite !hmod_ne by set_solver.
    + by rewrite !hmod_ne by set_solver.
Qed.

(** Unlinking any node of a segment. *)
Lemma dseg_unlink h a xs x ys b :
  NoDup (a :: (xs ++ x :: ys) ++ [b]) → dseg h a (xs ++ x :: ys) b →
  let p := default a (last xs) in
  let n := default b (head ys) in
  prev_free_block (h x) = Some p ∧ next_free_block (h x) = Some n ∧
  dseg (hmod (hmod (hmod h p (set_next (Some n))) n (set_prev (Some p))) x clear_links)
    a (xs ++ ys) b.
Proof.
  intros Hnd Hs p n. split; [apply dseg_app in Hs as [Hs _]; apply (dseg_last _ _ _ _ Hs)|].
  destruct xs as [|y xs _] using rev_ind.
  - apply dseg_unlink_first; [by rewrite app_comm_cons in Hnd|done].
  - subst p. rewrite last_snoc in *. simpl.
    rewrite <-app_assoc in *. simpl in *. apply dseg_app in Hs as [Hs1 Hs2].
    rewrite <-app_assoc, <-app_comm_cons in Hnd.
    assert (NoDup (y :: x :: ys ++ [b])) as Hnd2 by (apply NoDup_cons in Hnd as [_ Hnd]; apply NoDup_app in Hnd; tauto).
    destruct (dseg_unlink_first h y x ys b Hnd2 Hs2) as [Hn Hseg]. fold n in Hn, Hseg.
    split; [done|]. apply dseg_app. split; [|done].
    assert (n ∈ ys ++ [b]) as Hin by (subst n; destruct ys; set_solver).
    rewrite NoDup_cons, NoDup_app in Hnd. destruct Hnd as (Ha & Hxs & Hdis & _).
    assert (∀ r, r ∈ xs → r ≠ y ∧ r ≠ x ∧ r ≠ n) as Hr by (intros r Hr; specialize (Hdis r Hr); set_solver).
    apply NoDup_cons in Hnd2 as [Hy Hnd2].
    revert Hs1. apply dseg_frame.
    + intros r [->|Hr']; [|by rewrite !hmod_ne by naive_solver].
      assert (a ≠ y ∧ a ≠ x ∧ a ≠ n) as (? & ? & ?) by (clear -Ha Hin; set_solver).
      by rewrite !hmod_ne by done.
    + intros r [Hr'| ->]; [by rewrite !hmod_ne by naive_solver|].
      rewrite (hmod_ne _ x), (hmod_ne _ n) by set_solver. by rewrite hmod_eq.
Qed.

Lemma queue_repr_nodup q l : queue_repr q l → NoDup (BHead :: (BId <$> l) ++ [BTail]).
Proof. intros []. by apply nodes_nodup. Qed.

(** A change that keeps the links keeps the abstract queue. *)
Lemma queue_repr_same_links q h' l :
  queue_repr q l → same_links (q_heap q) h' → queue_repr (mkQueue h' (num_free_blocks q)) l.
Proof.
  intros [Hc Hn Hs Ht Ho] Hl. split; simpl; [done|done| | |].
  - by eapply dseg_same_links.
  - by rewrite (proj2 (Hl BTail)).
  - intros n Hin. destruct (Hl (BId n)) as [-> ->]. by apply Ho.
Qed.

(** The counter is the only part of the queue outside the store. *)
Lemma queue_head q l :
  queue_repr q l → next_free_block (q_heap q BHead) = Some (default BTail (BId <$> head l)).
Proof. intros [_ _ Hs _ _]. rewrite (dseg_first _ _ _ _ Hs). by destruct l. Qed.

(** ** [remove] and [popleft] *)

Lemma remove_repr q l1 x l2 :
  queue_repr q (l1 ++ x :: l2) →
  ∃ q', remove q (BId x) = Ok q' ∧ queue_repr q' (l1 ++ l2) ∧ same_meta (q_heap q) (q_heap q').
Proof.
  intros Hq. pose proof (queue_repr_nodup _ _ Hq) as Hnd. destruct Hq as [Hc Hn Hs Ht Ho].
  rewrite fmap_app, fmap_cons in Hs, Hnd.
  destruct (dseg_unlink _ _ _ _ _ _ Hnd Hs) as (Hp & Hx & Hs').
  set (p := default BHead _) in *. set (n := default BTail _) in *.
  unfold remove. rewrite Hp, Hx. eexists. split; [done|]. split.
  2: { simpl. do 3 (etransitivity; [|solve [eauto with kv]]). done. }
  assert (p ≠ BTail ∧ n ≠ BHead) as [Hpt Hnh].
  { subst p n. clear. split.
    - destruct l1 as [|y l1 _] using rev_ind; [done|]. by rewrite fmap_snoc, last_snoc.
    - by destruct l2. }
  assert (∀ m, m ∉ l1 ++ x :: l2 → p ≠ BId m ∧ n ≠ BId m) as Hout.
  { subst p n. clear. intros m Hm. split.
    - destruct l1 as [|y l1 _] using rev_ind; [done|]. rewrite fmap_snoc, last_snoc. set_solver.
    - destruct l2; [done|]. set_solver. }
  split; simpl.
  - rewrite Hc. autorewrite with kv. lia.
  - by apply NoDup_mid in Hn as [_ ?].
  - by rewrite fmap_app.
  - rewrite hmod_ne by done. destruct (decide (n = BTail)) as [->|]; [|by rewrite !hmod_ne by congruence].
    rewrite hmod_eq. simpl. by rewrite hmod_ne by congruence.
  - intros m Hm. destruct (decide (m = x)) as [->|Hmx]; [by rewrite hmod_eq|].
    assert (m ∉ l1 ++ x :: l2) as Hm' by set_solver. destruct (Hout m Hm').
    rewrite !hmod_ne by congruence. by apply Ho.
Qed.

(** [remove] of a block that is not queued raises, whatever the links of the
    other blocks are. *)
Lemma remove_not_queued q l x :
  queue_repr q l → x ∉ l → remove q (BId x) = Raise RuntimeError.
Proof. intros [_ _ _ _ Ho] Hx. unfold remove. by destruct (Ho x Hx) as [-> _]. Qed.

Lemma popleft_cons q x l :
  queue_repr q (x :: l) →
  ∃ q', popleft q = Ok (BId x, q') ∧ queue_repr q' l ∧ same_meta (q_heap q) (q_heap q').
Proof.
  intros Hq. destruct (remove_repr q [] x l Hq) as (q' & Hrem & Hq' & Hm).
  exists q'. split; [|done]. unfold popleft. rewrite (queue_head _ _ Hq). simpl.
  destruct Hq as [_ _ (_ & Hp & _) _ _]. unfold remove in Hrem. rewrite Hp in Hrem.
  destruct (next_free_block (q_heap q (BId x))) as [nxt|]; by simplify_eq.
Qed.

Lemma popleft_nil q : queue_repr q [] → popleft q = Raise ValueError.
Proof.
  intros Hq. unfold popleft. rewrite (queue_head _ _ Hq). simpl.
  destruct Hq as [-> _ _ _ _]. done.
Qed.

(** ** [popleft_n] *)

(** The store after the links of [xs] have been cleared. *)
Definition clear_all (h : heap) (xs : list bref) : heap :=
  λ r, if decide (r ∈ xs) then clear_links (h r) else h r.

Lemma clear_all_in h xs r : r ∈ xs → clear_all h xs r = clear_links (h r).
Proof. intros. unfold clear_all. by rewrite decide_True. Qed.

Lemma clear_all_out h xs r : r ∉ xs → clear_all h xs r = h r.
Proof. intros. unfold clear_all. by rewrite decide_False. Qed.

Lemma clear_all_meta h xs : same_meta h (clear_all h xs).
Proof. intros r. unfold clear_all. by case_decide. Qed.

(** [next] leads through [xs] and then to [e]. *)
Fixpoint fwd (h : heap) (xs : list bref) (e : bref) : Prop :=
  match xs with
  | [] => True
  | x :: xs => next_free_block (h x) = Some (default e (head xs)) ∧ fwd h xs e
  end.

Lemma fwd_frame h h' xs e : (∀ r, r ∈ xs → h' r = h r) → fwd h xs e → fwd h' xs e.
Proof.
  induction xs as [|x xs IH]; simpl; [done|]. intros Hh [Hx Hs].
  rewrite Hh by set_solver. split; [done|]. apply IH; [|done]. intros. apply Hh. set_solver.
Qed.

Lemma dseg_fwd h a xs ys b : dseg h a (xs ++ ys) b → fwd h xs (default b (head ys)).
Proof.
  revert a. induction xs as [|x xs IH]; intros a; simpl; [done|].
  intros (_ & _ & Hs). split; [|by apply (IH x)]. rewrite (dseg_first _ _ _ _ Hs). by destruct xs.
Qed.

Lemma popleft_n_loop_spec h xs e ret :
  NoDup xs → fwd h xs e →
  ∃ h', popleft_n_loop (length xs) h (Some (default e (head xs))) ret = Ok (h', Some e, ret ++ xs) ∧
        (∀ r, h' r = clear_all h xs r).
Proof.
  revert h ret. induction xs as [|x xs IH]; intros h ret Hnd Hs; simpl.
  - exists h. rewrite app_nil_r. split; [done|]. intros r. by rewrite clear_all_out by set_solver.
  - apply NoDup_cons in Hnd as [Hx Hnd]. destruct Hs as [-> Hs].
    destruct (IH (hmod h x clear_links) (ret ++ [x]) Hnd) as (h' & -> & Hh').
    { revert Hs. apply fwd_frame. intros r Hr. by rewrite hmod_ne by set_solver. }
    exists h'. rewrite <-app_assoc. split; [done|]. intros r. rewrite Hh'.
    destruct (decide (r = x)) as [->|Hne].
    + by rewrite clear_all_out, hmod_eq, clear_all_in by set_solver.
    + unfold clear_all. rewrite hmod_ne by done. repeat case_decide; set_solver.
Qed.

(** Dropping a prefix of the queue and reconnecting the head to the rest. *)
Lemma queue_repr_drop q xs ys h' :
  queue_repr q (xs ++ ys) →
  (∀ r, h' r = clear_all (q_heap q) (BId <$> xs) r) →
  let e := default BTail (head (BId <$> ys)) in
  queue_repr (mkQueue (hmod (hmod h' BHead (set_next (Some e))) e (set_prev (Some BHead)))
                (num_free_blocks q - zlen xs)) ys.
Proof.
  intros [Hc Hl Hs Ht Ho] Hh' e. apply NoDup_app in Hl as (Hxs & Hd & Hys).
  assert (∀ r, r ∉ BId <$> xs → h' r = q_heap q r) as Hkeep.
  { intros r Hr. by rewrite Hh', clear_all_out. }
  assert (BTail ∉ BId <$> xs) as HT by (rewrite list_elem_of_fmap; naive_solver).
  assert (∀ y, y ∈ ys → BId y ∉ BId <$> xs) as HY.
  { intros y Hy. rewrite list_elem_of_fmap. intros (x & [= ->] & Hx). by apply (Hd x). }
  split; simpl; [rewrite Hc; autorewrite with kv; lia|done|..].
  - subst e. rewrite fmap_app in Hs. destruct ys as [|y ys]; simpl in *; [split; by hsimp|].
    apply dseg_app in Hs as [_ Hs]. split_and!; [by hsimp..|].
    assert (∀ r, r ∈ BId <$> ys ∨ r = BTail → r ∉ BId <$> xs ∧ r ≠ BHead ∧ r ≠ BId y) as Hr.
    { apply NoDup_cons in Hys as [Hy _].
      intros r [(z & -> & Hz)%list_elem_of_fmap| ->]; [|done].
      split_and!; [apply HY; set_solver|done|intros [= ->]; done]. }
    revert Hs. apply dseg_frame; intros r Hin.
    + destruct Hin as [->|Hin].
      * rewrite hmod_eq. simpl. rewrite hmod_ne by done. by rewrite Hkeep by (apply HY; set_solver).
      * destruct (Hr r) as (? & ? & ?); [by left|]. by rewrite !hmod_ne, Hkeep by done.
    + destruct (Hr r) as (? & ? & ?); [done|]. by rewrite !hmod_ne, Hkeep by done.
  - assert (BTail ≠ BHead) by done. destruct (decide (e = BTail)) as [->|].
    + rewrite hmod_eq. simpl. by rewrite hmod_ne, Hkeep by done.
    + by rewrite !hmod_ne, Hkeep by done.
  - intros n Hn. assert (e ≠ BId n) as He by (subst e; destruct ys; set_solver).
    rewrite !hmod_ne, Hh' by done. destruct (decide (n ∈ xs)) as [Hx|Hx].
    + by rewrite clear_all_in by (by apply list_elem_of_fmap_2).
    + rewrite clear_all_out by (rewrite list_elem_of_fmap; naive_solver). apply Ho. set_solver.
Qed.

Lemma popleft_n_repr q l (n : nat) :
  queue_repr q l → (n ≤ length l)%nat →
  ∃ q', popleft_n q (Z.of_nat n) = Ok (BId <$> take n l, q') ∧
        queue_repr q' (drop n l) ∧ same_meta (q_heap q) (q_heap q').
Proof.
  intros Hq Hn. unfold popleft_n. destruct (Z.eqb_spec (Z.of_nat n) 0) as [Hz|Hz].
  { assert (n = 0%nat) as -> by lia. exists q. by rewrite take_0, drop_0. }
  rewrite (repr_count _ _ Hq), (proj2 (Z.leb_le _ _)) by (unfold zlen; lia). simpl.
  rewrite Nat2Z.id. set (xs := take n l). set (ys := drop n l).
  assert (l = xs ++ ys) as El by (symmetry; apply take_drop).
  assert (length xs = n) as Hlen by (apply length_take_le; lia).
  set (e := default BTail (head (BId <$> ys))).
  destruct (popleft_n_loop_spec (q_heap q) (BId <$> xs) e []) as (h' & Hloop & Hh').
  { apply NoDup_fmap_2; [apply _|]. pose proof (repr_nodup _ _ Hq) as Hl.
    rewrite El in Hl. by apply NoDup_app in Hl as [? _]. }
  { pose proof (repr_seg _ _ Hq) as Hs. rewrite El, fmap_app in Hs. by eapply dseg_fwd. }
  rewrite length_fmap, Hlen in Hloop.
  replace (next_free_block (q_heap q BHead)) with (Some (default e (head (BId <$> xs)))).
  2: { rewrite (queue_head _ _ Hq), El. subst e. by destruct xs; [destruct ys|]. }
  rewrite Hloop. simpl. eexists. split; [done|]. split.
  - rewrite <-(repr_count _ _ Hq). replace (Z.of_nat n) with (zlen xs) by (unfold zlen; lia).
    apply queue_repr_drop; [by rewrite <-El|done].
  - simpl. do 2 (etransitivity; [|solve [eauto with kv]]).
    intros r. rewrite Hh'. apply clear_all_meta.
Qed.

(** ** [prepend_n], [append_n] and [append] *)

Lemma chain_blocks_last h a bs : (chain_blocks h a bs).2 = default a (last bs).
Proof.
  revert h a. induction bs as [|b bs IH]; intros h a; simpl; [done|].
  rewrite IH. destruct bs as [|c bs]; [done|]. simpl. by destruct (last (c :: bs)) eqn:E; [|apply last_None in E].
Qed.

Lemma chain_blocks_meta h a bs : same_meta h (chain_blocks h a bs).1.
Proof.
  revert h a. induction bs as [|b bs IH]; intros h a; simpl; [done|].
  etransitivity; [|apply IH]. do 2 (etransitivity; [|solve [eauto with kv]]). done.
Qed.

Lemma chain_blocks_out h a bs r :
  r ∉ a :: bs → (chain_blocks h a bs).1 r = h r.
Proof.
  revert h a. induction bs as [|b bs IH]; intros h a Hr; simpl; [done|].
  rewrite IH by set_solver. by rewrite !hmod_ne by set_solver.
Qed.

Lemma chain_blocks_start h a bs :
  a ∉ bs → prev_free_block ((chain_blocks h a bs).1 a) = prev_free_block (h a) ∧
           (bs ≠ [] → next_free_block ((chain_blocks h a bs).1 a) = head bs).
Proof.
  destruct bs as [|b bs]; intros Ha; simpl; [done|].
  rewrite chain_blocks_out by set_solver. assert (a ≠ b) by set_solver. by hsimp.
Qed.

(** The chain, once its end is connected to [e], is a segment. *)
Lemma chain_blocks_dseg h a bs e :
  NoDup (a :: bs ++ [e]) →
  let h' := (chain_blocks h a bs).1 in
  let z := (chain_blocks h a bs).2 in
  dseg (hmod (hmod h' z (set_next (Some e))) e (set_prev (Some z))) a bs e.
Proof.
  revert h a. induction bs as [|b bs IH]; intros h a Hnd.
  - simpl. apply NoDup_cons in Hnd as [Ha _]. assert (a ≠ e) by set_solver. split; by hsimp.
  - apply NoDup_cons in Hnd as [Ha Hnd].
    assert (a ≠ e ∧ b ≠ e ∧ b ∉ bs) as (Hae & Hbe & Hb) by (apply NoDup_cons in Hnd; set_solver).
    simpl. specialize (IH (hmod (hmod h b (set_prev (Some a))) a (set_next (Some b))) b Hnd).
    set (h0 := hmod (hmod _ _ _) _ _) in *.
    set (h' := (chain_blocks h0 b bs).1) in *. set (z := (chain_blocks h0 b bs).2) in *.
    assert (z ≠ a) as Hza.
    { subst z. rewrite chain_blocks_last. destruct bs as [|c bs _] using rev_ind; [set_solver|].
      rewrite last_snoc. set_solver. }
    split_and!; [| |done].
    + rewrite !hmod_ne by done. subst h'. rewrite chain_blocks_out by set_solver. subst h0. by hsimp.
    + assert (prev_free_block (h' b) = Some a) as Hp.
      { subst h'. rewrite (proj1 (chain_blocks_start _ _ _ Hb)). subst h0.
        assert (b ≠ a) by set_solver. by hsimp. }
      rewrite hmod_ne by done. destruct (decide (b = z)) as [<-|]; [by rewrite hmod_eq|by rewrite hmod_ne].
Qed.

(** Inserting the segment [bs] between two neighbours of a segment. *)
Lemma dseg_insert h H a xs bs ys b :
  NoDup (a :: (xs ++ bs ++ ys) ++ [b]) →
  let p := default a (last xs) in
  let e := default b (head ys) in
  dseg h a (xs ++ ys) b → dseg H p bs e →
  (∀ r, r ∉ bs → r ≠ p → next_free_block (H r) = next_free_block (h r)) →
  (∀ r, r ∉ bs → r ≠ e → prev_free_block (H r) = prev_free_block (h r)) →
  dseg H a (xs ++ bs ++ ys) b.
Proof.
  intros Hnd p e Hs Hb Hnext Hprev.
  assert (dseg h p ys b → NoDup (p :: (bs ++ ys) ++ [b]) → dseg H p (bs ++ ys) b) as Hright.
  { clear Hs Hnd. intros Hs Hnd. subst e. destruct ys as [|y ys]; [by rewrite app_nil_r|].
    simpl in *. apply dseg_app. split; [done|]. destruct Hs as (_ & _ & Hs).
    apply NoDup_cons in Hnd as [Hp Hnd]. rewrite <-app_assoc in Hnd.
    apply NoDup_app in Hnd as (_ & Hdis & Hnd). simpl in Hnd. apply NoDup_cons in Hnd as [Hy Hnd].
    assert (∀ r, r ∈ y :: ys ++ [b] → r ∉ bs) as Hdis' by (intros r ?? ; by eapply Hdis).
    revert Hs. apply dseg_frame; intros r Hr.
    - apply Hnext; [apply Hdis'; set_solver|intros ->; set_solver].
    - apply Hprev; [apply Hdis'; set_solver|intros ->; set_solver]. }
  subst p. destruct xs as [|x xs _] using rev_ind; [by apply Hright|].
  rewrite last_snoc in *. simpl in *. rewrite <-app_assoc in *. simpl in *.
  rewrite <-app_assoc in Hnd. apply dseg_app in Hs as [Hs1 Hs2].
  apply NoDup_cons in Hnd as [Ha Hnd]. apply NoDup_app in Hnd as (Hxs & Hdis & Hnd).
  apply dseg_app. split; [|apply Hright; [done|by rewrite <-app_assoc in Hnd]].
  assert (e ∈ ys ++ [b]) as He by (subst e; destruct ys; set_solver).
  simpl in Hnd. apply NoDup_cons in Hnd as [Hx Hnd]. rewrite <-app_assoc in *.
  revert Hs1. apply dseg_frame; intros r Hr.
  - apply Hnext; destruct Hr as [->|Hr]; [clear -Ha; set_solver|..].
    + specialize (Hdis r Hr). clear -Hdis. set_solver.
    + clear -Ha. set_solver.
    + intros ->. apply (Hdis x Hr). clear. set_solver.
  - apply Hprev; destruct Hr as [Hr| ->].
    + specialize (Hdis r Hr). clear -Hdis. set_solver.
    + clear -Hx. set_solver.
    + intros ->. apply (Hdis e Hr). clear -He. set_solver.
    + intros ->. apply Hx. clear -He. set_solver.
Qed.

Lemma last_BId (l : list nat) (a : bref) :
  default a (last (BId <$> l)) = a ∨ ∃ y, y ∈ l ∧ default a (last (BId <$> l)) = BId y.
Proof.
  destruct l as [|y l _] using rev_ind; [by left|]. right. exists y.
  rewrite fmap_snoc, last_snoc. split; [set_solver|done].
Qed.

Lemma head_BId (l : list nat) (a : bref) :
  default a (head (BId <$> l)) = a ∨ ∃ y, y ∈ l ∧ default a (head (BId <$> l)) = BId y.
Proof. destruct l as [|y l]; [by left|]. right. exists y. split; [set_solver|done]. Qed.

Lemma BId_elem (n : nat) (l : list nat) : BId n ∈ BId <$> l ↔ n ∈ l.
Proof. rewrite list_elem_of_fmap. naive_solver. Qed.

Lemma sentinel_nelem (l : list nat) : BHead ∉ BId <$> l ∧ BTail ∉ BId <$> l.
Proof. split; rewrite list_elem_of_fmap; intros (? & [=] & _). Qed.

(** The links a splice of [bs] between [p] and [e] leaves alone. *)
Lemma splice_links h p bs e :
  p ∉ bs → bs ≠ [] →
  let c := chain_blocks h p bs in
  let H := hmod (hmod c.1 c.2 (set_next (Some e))) e (set_prev (Some c.2)) in
  (∀ r, r ∉ bs → r ≠ p → next_free_block (H r) = next_free_block (h r)) ∧
  (∀ r, r ∉ bs → r ≠ e → prev_free_block (H r) = prev_free_block (h r)).
Proof.
  intros Hp Hne c. cbn zeta.
  assert (c.2 ∈ bs) as Hc2.
  { subst c. rewrite chain_blocks_last. destruct bs as [|y bs _] using rev_ind; [done|].
    rewrite last_snoc. set_solver. }
  split; intros r Hr Hrp.
  - assert (r ≠ c.2) by set_solver.
    assert (c.1 r = h r) as <- by (apply chain_blocks_out; set_solver).
    destruct (decide (r = e)) as [->|]; [rewrite hmod_eq; simpl|]; by rewrite !hmod_ne.
  - rewrite !hmod_ne by set_solver.
    destruct (decide (r = p)) as [->|]; [by apply chain_blocks_start|].
    unfold c. by rewrite chain_blocks_out by set_solver.
Qed.

(** Splicing a chain of new blocks into the queue. *)
Lemma queue_repr_splice q l1 l2 bs :
  queue_repr q (l1 ++ l2) → NoDup (l1 ++ bs ++ l2) → bs ≠ [] →
  let e := default BTail (head (BId <$> l2)) in
  let c := chain_blocks (q_heap q) (default BHead (last (BId <$> l1))) (BId <$> bs) in
  queue_repr (mkQueue (hmod (hmod c.1 c.2 (set_next (Some e))) e (set_prev (Some c.2)))
                (num_free_blocks q + zlen bs)) (l1 ++ bs ++ l2).
Proof.
  intros [Hc Hl Hs Ht Ho] Hnd Hne e. set (p := default BHead _).
  pose proof (last_BId l1 BHead) as Hp. pose proof (head_BId l2 BTail) as He.
  fold p in Hp. fold e in He. cbn zeta.
  pose proof Hnd as (_ & Hd1 & (Hnb & Hd2 & _)%NoDup_app)%NoDup_app.
  assert (p ∉ BId <$> bs) as Hpb.
  { destruct Hp as [->|(y & Hy & ->)]; [apply sentinel_nelem|].
    rewrite BId_elem. intros Hb. apply (Hd1 y Hy), elem_of_app. by left. }
  assert (e ∉ BId <$> bs) as Heb.
  { destruct He as [->|(y & Hy & ->)]; [apply sentinel_nelem|].
    rewrite BId_elem. intros Hb. by apply (Hd2 y). }
  assert (p ≠ e) as Hpe.
  { destruct Hp as [->|(y & Hy & ->)], He as [->|(y' & Hy' & ->)]; try done.
    intros [= <-]. apply (Hd1 y Hy), elem_of_app. by right. }
  destruct (splice_links (q_heap q) p (BId <$> bs) e) as [Hnext Hprev]; [done|by destruct bs|].
  set (c := chain_blocks _ _ _) in *. set (H := hmod (hmod _ _ _) _ _) in *.
  split; simpl; [rewrite Hc; autorewrite with kv; lia|done|..].
  - rewrite !fmap_app. apply (dseg_insert (q_heap q)); [|by rewrite <-fmap_app| |done|done].
    + rewrite <-!fmap_app. by apply nodes_nodup.
    + apply chain_blocks_dseg, NoDup_cons. fold p e.
      rewrite elem_of_app, list_elem_of_singleton. split; [tauto|].
      apply NoDup_app. split_and!; [by apply NoDup_fmap_2; [apply _|]| |apply NoDup_singleton].
      intros r Hr. rewrite list_elem_of_singleton. by intros ->.
  - rewrite Hnext; [done|apply sentinel_nelem|].
    destruct Hp as [->|(y & _ & ->)]; done.
  - intros n Hn.
    assert (n ∉ l1 ∧ n ∉ bs ∧ n ∉ l2) as (Hn1 & Hnbs & Hn2) by set_solver.
    rewrite Hnext, Hprev; [apply Ho; set_solver|by rewrite BId_elem..| |by rewrite BId_elem|].
    + by destruct He as [->|(y & Hy & ->)]; [|intros [= ->]].
    + by destruct Hp as [->|(y & Hy & ->)]; [|intros [= ->]].
Qed.

Lemma splice_meta h p bs e :
  let c := chain_blocks h p bs in
  same_meta h (hmod (hmod c.1 c.2 (set_next (Some e))) e (set_prev (Some c.2))).
Proof. cbn zeta. do 2 (etransitivity; [|solve [eauto with kv]]). apply chain_blocks_meta. Qed.

Lemma prepend_n_repr q l bs :
  queue_repr q l → NoDup (bs ++ l) →
  ∃ q', prepend_n q (BId <$> bs) = Ok q' ∧ queue_repr q' (bs ++ l) ∧
        same_meta (q_heap q) (q_heap q').
Proof.
  intros Hq Hnd. destruct bs as [|b bs]; [by exists q|].
  pose proof (queue_repr_splice q [] l (b :: bs) Hq Hnd ltac:(done)) as Hq'.
  pose proof (splice_meta (q_heap q) BHead (BId <$> b :: bs) (default BTail (head (BId <$> l)))) as Hm.
  unfold prepend_n. rewrite fmap_cons, (queue_head _ _ Hq). rewrite <-fmap_cons.
  replace (BId <$> head l) with (head (BId <$> l)) by (by destruct l).
  cbn zeta in Hq', Hm. simpl last in Hq'. rewrite zlen_fmap. simpl default in Hq'.
  destruct (chain_blocks _ _ _) as [h z]. eauto.
Qed.

Lemma append_n_repr q l bs :
  queue_repr q l → NoDup (l ++ bs) →
  ∃ q', append_n q (BId <$> bs) = Ok q' ∧ queue_repr q' (l ++ bs) ∧
        same_meta (q_heap q) (q_heap q').
Proof.
  intros Hq Hnd. destruct bs as [|b bs]; [rewrite app_nil_r; by exists q|].
  pose proof (queue_repr_splice q l [] (b :: bs)) as Hq'. rewrite !app_nil_r in Hq'.
  specialize (Hq' Hq Hnd ltac:(done)).
  pose proof (splice_meta (q_heap q) (default BHead (last (BId <$> l))) (BId <$> b :: bs) BTail) as Hm.
  unfold append_n. rewrite fmap_cons, (dseg_last _ _ _ _ (repr_seg _ _ Hq)), <-fmap_cons.
  cbn zeta in Hq', Hm. simpl head in Hq'. simpl default in Hq' at 1. rewrite zlen_fmap.
  destruct (chain_blocks _ _ _) as [h z]. eauto.
Qed.

Lemma queue_repr_ext h h' n l :
  (∀ r, h' r = h r) → queue_repr (mkQueue h n) l → queue_repr (mkQueue h' n) l.
Proof.
  intros Hh Hq. apply (queue_repr_same_links _ h' _ Hq). intros r. by rewrite Hh.
Qed.

Lemma append_repr q l x :
  queue_repr q l → x ∉ l →
  ∃ q', append q (BId x) = Ok q' ∧ queue_repr q' (l ++ [x]) ∧ same_meta (q_heap q) (q_heap q').
Proof.
  intros Hq Hx. destruct (append_n_repr q l [x] Hq) as (q' & Hap & Hq' & Hm).
  { rewrite <-Permutation_cons_append, NoDup_cons. split; [done|apply (repr_nodup _ _ Hq)]. }
  unfold append_n in Hap. unfold append. simpl in Hap.
  pose proof (dseg_last _ _ _ _ (repr_seg _ _ Hq)) as Hl. rewrite Hl in *.
  assert (default BHead (last (BId <$> l)) ≠ BId x) as Hne.
  { destruct (last_BId l BHead) as [->|(y & Hy & ->)]; [done|]. by intros [= ->]. }
  set (z := default BHead _) in *. simplify_eq. eexists. split; [done|].
  assert (∀ r, hmod (hmod (hmod (hmod (q_heap q) z (set_next (Some (BId x)))) (BId x)
                 (set_prev (Some z))) (BId x) (set_next (Some BTail))) BTail
                 (set_prev (Some (BId x))) r =
               hmod (hmod (hmod (hmod (q_heap q) (BId x) (set_prev (Some z))) z
                 (set_next (Some (BId x)))) (BId x) (set_next (Some BTail))) BTail
                 (set_prev (Some (BId x))) r) as Heq.
  { intros r. unfold hmod. repeat case_decide; congruence. }
  split; [by eapply queue_repr_ext|]. intros r. simpl. rewrite Heq. apply Hm.
Qed.

(** ** [get_all_free_blocks]: the walk terminates and lists the queue *)

Lemma walk_fwd h xs e ret k :
  fwd h xs e → next_free_block (h e) = None →
  walk (length xs + S k) h (default e (head xs)) ret = Ok (ret ++ xs).
Proof.
  intros Hs He. revert ret Hs. induction xs as [|x xs IH]; intros ret Hs; simpl.
  - by rewrite He, app_nil_r.
  - destruct Hs as [-> Hs]. rewrite IH by done. by rewrite <-app_assoc.
Qed.

Lemma get_all_free_blocks_repr q l k :
  queue_repr q l → (length l < k)%nat → get_all_free_blocks k q = Ok (BId <$> l).
Proof.
  intros Hq Hk. unfold get_all_free_blocks. rewrite (queue_head _ _ Hq).
  destruct Hq as [_ _ Hs Ht _].
  replace k with (length (BId <$> l) + S (k - length l - 1))%nat by (rewrite length_fmap; lia).
  rewrite <-(app_nil_r (BId <$> l)) in Hs. apply dseg_fwd in Hs.
  replace (BId <$> head l) with (head (BId <$> l)) by (by destruct l).
  by apply walk_fwd.
Qed.

(** ** The constructor *)

(** Pairwise links make a segment. *)
Lemma dseg_pairwise h a xs b :
  (∀ i x y, (a :: xs ++ [b]) !! i = Some x → (a :: xs ++ [b]) !! S i = Some y →
            next_free_block (h x) = Some y ∧ prev_free_block (h y) = Some x) →
  dseg h a xs b.
Proof.
  revert a. induction xs as [|x xs IH]; intros a H; simpl.
  - by apply (H 0%nat).
  - split_and!; [by apply (H 0%nat)..|]. apply IH. intros i y z Hy Hz. by apply (H (S i)).
Qed.

Definition linked (blocks : list bref) (k i : nat) (b b' : KVCacheBlock) : Prop :=
  prev_free_block b' = (if decide (i < k ∧ 0 < i)%nat then blocks !! (i - 1)%nat else prev_free_block b) ∧
  next_free_block b' = (if decide (i < k ∧ i < length blocks - 1)%nat then blocks !! (i + 1)%nat
                        else next_free_block b).

Lemma init_link_loop blocks h k :
  NoDup blocks → (k ≤ length blocks)%nat →
  let h' := foldl (init_link blocks) h (seq 0 k) in
  same_meta h h' ∧ (∀ r, r ∉ blocks → h' r = h r) ∧
  (∀ i b, blocks !! i = Some b → linked blocks k i (h b) (h' b)).
Proof.
  intros Hnd. induction k as [|k IH]; intros Hk; cbn zeta.
  { split_and!; [done..|]. intros i b _. split; by rewrite decide_False by lia. }
  destruct (IH ltac:(lia)) as (Hm & Ho & Hl). rewrite seq_S, foldl_app. simpl.
  set (h' := foldl _ _ _) in *. unfold init_link.
  destruct (lookup_lt_is_Some_2 blocks k ltac:(lia)) as [c Hc]. rewrite Hc.
  assert (same_meta h' (init_link blocks h' k)) as Hm'.
  { unfold init_link. rewrite Hc. destruct (0 <? k)%nat, (k <? _)%nat; [|eauto with kv..|done].
    etransitivity; [|solve [eauto with kv]]. eauto with kv. }
  unfold init_link in Hm'. rewrite Hc in Hm'. split; [by etransitivity|]. split.
  - intros r Hr. assert (r ≠ c) by (intros ->; apply Hr; by eapply list_elem_of_lookup_2).
    rewrite <-(Ho r Hr). destruct (0 <? k)%nat, (k <? _)%nat; by rewrite ?hmod_ne.
  - intros i b Hb. specialize (Hl i b Hb) as [Hp Hn]. unfold linked.
    destruct (decide (i = k)) as [->|Hik].
    + assert (c = b) as -> by congruence. rewrite decide_False in Hp by lia. rewrite decide_False in Hn by lia.
      destruct (Nat.ltb_spec 0 k), (Nat.ltb_spec k (length blocks - 1));
        rewrite ?hmod_eq; simpl; rewrite ?Hp, ?Hn; split;
        first [by rewrite decide_True by lia | by rewrite decide_False by lia].
    + assert (b ≠ c) as Hbc by (intros ->; apply Hik; by eapply NoDup_lookup).
      assert ((i < S k)%nat ↔ (i < k)%nat) as Hlt by lia.
      destruct (0 <? k)%nat, (k <? _)%nat; rewrite ?hmod_ne by done; rewrite Hp, Hn;
        split; repeat case_decide; done || lia.
Qed.

(** The links the constructor leaves. *)
Lemma init_queue_links h (l : list nat) :
  NoDup l → l ≠ [] →
  let blocks := BId <$> l in
  let H := q_heap (init_queue h blocks) in
  next_free_block (H BHead) = head blocks ∧ prev_free_block (H BTail) = last blocks ∧
  next_free_block (H BTail) = None ∧ (∀ n, n ∉ l → H (BId n) = h (BId n)) ∧
  (∀ n, block_id (H (BId n)) = block_id (h (BId n)) ∧ ref_cnt (H (BId n)) = ref_cnt (h (BId n)) ∧
        block_hash (H (BId n)) = block_hash (h (BId n)) ∧ is_null (H (BId n)) = is_null (h (BId n))) ∧
  (∀ i b, blocks !! i = Some b →
     prev_free_block (H b) = (if decide (i = 0%nat) then Some BHead else blocks !! (i - 1)%nat) ∧
     next_free_block (H b) = (if decide (i = length blocks - 1)%nat then Some BTail
                              else blocks !! (i + 1)%nat)).
Proof.
  intros Hnd Hne. cbn zeta.
  assert (NoDup (BId <$> l)) as Hndb by (by apply NoDup_fmap_2; [apply _|]).
  pose proof (init_link_loop (BId <$> l) h (length (BId <$> l)) Hndb ltac:(lia)) as (Hm & Ho & Hl).
  unfold init_queue. set (h0 := foldl _ _ _) in *.
  assert (∃ f, head l = Some f) as [f Hf] by (destruct l; [done|by eexists]).
  destruct (last l) as [z|] eqn:Hz; [|by apply last_None in Hz].
  assert (head (BId <$> l) = Some (BId f)) as Ef by (by destruct l; simplify_eq/=).
  assert (last (BId <$> l) = Some (BId z)) as Ez.
  { rewrite last_lookup in Hz. rewrite last_lookup. by rewrite length_fmap, list_lookup_fmap, Hz. }
  assert (f ∈ l ∧ z ∈ l) as [Hfl Hzl].
  { split; [destruct l; simplify_eq/=; set_solver|]. rewrite last_lookup in Hz.
    by eapply list_elem_of_lookup_2. }
  rewrite Ef, Ez, <-head_lookup, Ef. simpl. rewrite last_lookup in Ez.
  rewrite head_lookup in Ef. split_and!; [by hsimp..| | |].
  - intros n Hn. rewrite !hmod_ne by naive_solver. apply Ho. by rewrite BId_elem.
  - intros n. destruct (Hm (BId n)) as (<- & <- & <- & <-).
    unfold hmod. by repeat case_decide.
  - intros i b Hb. destruct (Hl i b Hb) as [Hp Hn].
    assert (b = BId f ↔ i = 0%nat) as Hbf.
    { split; [intros ->; by eapply NoDup_lookup|intros ->; congruence]. }
    assert (b = BId z ↔ i = (length (BId <$> l) - 1)%nat) as Hbz.
    { rewrite Nat.sub_1_r. split; [intros ->; by eapply NoDup_lookup|intros ->; congruence]. }
    apply lookup_lt_Some in Hb as Hi.
    assert (b ≠ BHead ∧ b ≠ BTail) as [Hb1 Hb2].
    { rewrite list_lookup_fmap in Hb. by destruct (l !! i); simplify_eq/=. }
    unfold hmod. destruct (decide (b = BHead)), (decide (b = BTail)); [done..|].
    destruct (decide (b = BId f)) as [E1|E1], (decide (b = BId z)) as [E2|E2];
      rewrite Hbf in E1; rewrite Hbz in E2; simpl; rewrite ?Hp, ?Hn; split;
      repeat case_decide; try done; exfalso; lia.
Qed.

Lemma init_queue_repr h (l : list nat) :
  NoDup l →
  (∀ n, n ∉ l → prev_free_block (h (BId n)) = None ∧ next_free_block (h (BId n)) = None) →
  queue_repr (init_queue h (BId <$> l)) l.
Proof.
  intros Hnd Hout. destruct (decide (l = [])) as [->|Hne].
  { split; [done..| |done|].
    - split; done.
    - intros n Hn. simpl. rewrite !hmod_ne by done. by apply Hout. }
  destruct (init_queue_links h l Hnd Hne) as (Hh & Ht & Htn & Ho & _ & Hl).
  set (H := q_heap _) in *. split; [|done| |done|].
  - unfold init_queue. destruct (_ !! 0%nat), (last _); simpl; by rewrite zlen_fmap.
  - fold H. apply dseg_pairwise. intros [|i] x y Hx Hy.
    + simpl in *. simplify_eq. rewrite Hh, <-head_lookup in *.
      destruct l as [|f l]; [done|]. simpl in Hy. simplify_eq.
      split; [done|]. by destruct (Hl 0%nat (BId f) eq_refl) as [-> _].
    + rewrite !lookup_cons in Hx, Hy.
      assert (i < length (BId <$> l))%nat as Hi.
      { apply lookup_lt_Some in Hy. rewrite length_app in Hy. simpl in Hy. lia. }
      rewrite lookup_app_l in Hx by done. destruct (Hl i x Hx) as [_ Hn].
      destruct (decide (S i < length (BId <$> l))%nat) as [Hsi|Hsi].
      * rewrite lookup_app_l in Hy by done. destruct (Hl (S i) y Hy) as [Hp _].
        rewrite Hn, Hp, !decide_False by lia. by rewrite Nat.add_1_r, Nat.sub_1_r.
      * rewrite lookup_app_r in Hy by lia. replace (S i - _)%nat with 0%nat in Hy by lia.
        simpl in Hy. simplify_eq. rewrite Hn, Ht, decide_True, last_lookup by lia.
        split; [done|]. rewrite <-Hx. f_equal. lia.
  - intros n Hn. fold H. rewrite Ho by done. by apply Hout.
Qed.

(** ** Refinement: any legal sequence of operations behaves like a list *)

Inductive queue_op :=
  | OpPopleft
  | OpPopleftN (n : nat)
  | OpRemove (b : nat)
  | OpAppend (b : nat)
  | OpPrependN (bs : list nat)
  | OpAppendN (bs : list nat).

(** The operation on the linked list, with the blocks it returns. *)
Definition run_op (q : FreeKVCacheBlockQueue) (op : queue_op)
    : result (list bref * FreeKVCacheBlockQueue) :=
  match op with
  | OpPopleft => '(b, q) ← popleft q; Ok ([b], q)
  | OpPopleftN n => popleft_n q (Z.of_nat n)
  | OpRemove b => q ← remove q (BId b); Ok ([], q)
  | OpAppend b => q ← append q (BId b); Ok ([], q)
  | OpPrependN bs => q ← prepend_n q (BId <$> bs); Ok ([], q)
  | OpAppendN bs => q ← append_n q (BId <$> bs); Ok ([], q)
  end.

(** The operation on the abstract list; [None] when the caller breaks the
    protocol (pops more than there is, removes a block that is not queued, or
    queues a block twice). *)
Definition spec_op (l : list nat) (op : queue_op) : option (list nat * list nat) :=
  match op with
  | OpPopleft => match l with [] => None | x :: l => Some ([x], l) end
  | OpPopleftN n => if decide (n ≤ length l)%nat then Some (take n l, drop n l) else None
  | OpRemove b => if decide (b ∈ l) then Some ([], filter (λ x, x ≠ b) l) else None
  | OpAppend b => if decide (b ∉ l) then Some ([], l ++ [b]) else None
  | OpPrependN bs => if decide (NoDup (bs ++ l)) then Some ([], bs ++ l) else None
  | OpAppendN bs => if decide (NoDup (l ++ bs)) then Some ([], l ++ bs) else None
  end.

Fixpoint run_ops (q : FreeKVCacheBlockQueue) (ops : list queue_op)
    : result (list bref * FreeKVCacheBlockQueue) :=
  match ops with
  | [] => Ok ([], q)
  | op :: ops => '(o1, q) ← run_op q op; '(o2, q) ← run_ops q ops; Ok (o1 ++ o2, q)
  end.

Fixpoint spec_ops (l : list nat) (ops : list queue_op) : option (list nat * list nat) :=
  match ops with
  | [] => Some ([], l)
  | op :: ops => '(o1, l) ← spec_op l op; '(o2, l) ← spec_ops l ops; Some (o1 ++ o2, l)
  end.

Lemma filter_ne_mid (l1 l2 : list nat) x :
  x ∉ l1 ++ l2 → filter (λ y, y ≠ x) (l1 ++ x :: l2) = l1 ++ l2.
Proof.
  intros Hx. rewrite filter_app, filter_cons_False by (intros H; by apply H).
  rewrite <-filter_app. apply filter_all. by intros y Hy ->.
Qed.

Lemma remove_repr_filter q l x :
  queue_repr q l → x ∈ l →
  ∃ q', remove q (BId x) = Ok q' ∧ queue_repr q' (filter (λ y, y ≠ x) l) ∧
        same_meta (q_heap q) (q_heap q').
Proof.
  intros Hq (l1 & l2 & ->)%list_elem_of_split.
  pose proof (repr_nodup _ _ Hq) as [Hx _]%NoDup_mid.
  rewrite filter_ne_mid by done. by apply remove_repr.
Qed.

Lemma run_op_simulates q l op out l' :
  queue_repr q l → spec_op l op = Some (out, l') →
  ∃ q', run_op q op = Ok (BId <$> out, q') ∧ queue_repr q' l' ∧ same_meta (q_heap q) (q_heap q').
Proof.
  intros Hq. destruct op as [|n|b|b|bs|bs]; simpl.
  - destruct l as [|x l]; [done|]. intros [= <- <-].
    destruct (popleft_cons _ _ _ Hq) as (q' & -> & ?). by exists q'.
  - case_decide; [|done]. intros [= <- <-]. by apply popleft_n_repr.
  - case_decide as Hb; [|done]. intros [= <- <-].
    destruct (remove_repr_filter _ _ _ Hq Hb) as (q' & -> & ?). by exists q'.
  - case_decide as Hb; [|done]. intros [= <- <-].
    destruct (append_repr _ _ _ Hq Hb) as (q' & -> & ?). by exists q'.
  - case_decide as Hb; [|done]. intros [= <- <-].
    destruct (prepend_n_repr _ _ _ Hq Hb) as (q' & -> & ?). by exists q'.
  - case_decide as Hb; [|done]. intros [= <- <-].
    destruct (append_n_repr _ _ _ Hq Hb) as (q' & -> & ?). by exists q'.
Qed.

Lemma run_ops_simulates q l ops out l' :
  queue_repr q l → spec_ops l ops = Some (out, l') →
  ∃ q', run_ops q ops = Ok (BId <$> out, q') ∧ queue_repr q' l' ∧ same_meta (q_heap q) (q_heap q').
Proof.
  revert q l out. induction ops as [|op ops IH]; intros q l out Hq; simpl.
  { intros [= <- <-]. by exists q. }
  destruct (spec_op l op) as [[o1 l1]|] eqn:E1; [|done]. simpl.
  destruct (spec_ops l1 ops) as [[o2 l2]|] eqn:E2; [|done]. simpl. intros [= <- <-].
  destruct (run_op_simulates _ _ _ _ _ Hq E1) as (q1 & -> & Hq1 & Hm1). simpl.
  destruct (IH _ _ _ Hq1 E2) as (q2 & -> & Hq2 & Hm2). simpl. exists q2.
  rewrite fmap_app. split_and!; [done..|]. by etransitivity.
Qed.

(** ** Properties *)

(** C33: the linked queue refines a plain list.  From the constructor, every
    sequence of operations a list allows returns the blocks the list returns, in
    that order; afterwards walking the links gives the list, the counter is its
    length, and only links have changed. *)
Theorem free_queue_refines_list h l ops out l' :
  NoDup l →
  (∀ n, n ∉ l → prev_free_block (h (BId n)) = None ∧ next_free_block (h (BId n)) = None) →
  spec_ops l ops = Some (out, l') →
  let q0 := init_queue h (BId <$> l) in
  ∃ q, run_ops q0 ops = Ok (BId <$> out, q) ∧
    get_all_free_blocks (S (length l')) q = Ok (BId <$> l') ∧ num_free_blocks q = zlen l' ∧
    same_meta (q_heap q0) (q_heap q).
Proof.
  intros Hnd Hh Hspec q0.
  destruct (run_ops_simulates q0 l ops out l') as (q & Hrun & Hq & Hm); [by apply init_queue_repr|done|].
  exists q. split_and!; [done| |apply (repr_count _ _ Hq)|done].
  apply get_all_free_blocks_repr; [done|lia].
Qed.

Lemma free_queue_refines_list_witness :
  ∃ q, run_ops (init_queue (λ _, new_block 0) (BId <$> [0; 1; 2; 3]%nat))
         [OpPopleft; OpRemove 2; OpPrependN [0]%nat; OpAppend 2; OpPopleftN 2] =
         Ok (BId <$> [0; 0; 1]%nat, q) ∧
    get_all_free_blocks 3 q = Ok (BId <$> [3; 2]%nat) ∧ num_free_blocks q = 2 ∧
    same_meta (q_heap (init_queue (λ _, new_block 0) (BId <$> [0; 1; 2; 3]%nat))) (q_heap q).
Proof.
  apply (free_queue_refines_list (λ _, new_block 0) [0; 1; 2; 3]%nat
    [OpPopleft; OpRemove 2; OpPrependN [0]%nat; OpAppend 2; OpPopleftN 2] [0; 0; 1]%nat [3; 2]%nat).
  - apply (bool_decide_unpack _). vm_compute. exact I.
  - done.
  - vm_compute. reflexivity.
Defined.

(** Misuse of the queue is detected: popping from an empty queue raises
    [ValueError], removing a block that is not queued raises [RuntimeError]. *)
Theorem free_queue_errors q l :
  queue_repr q l →
  (l = [] → popleft q = Raise ValueError) ∧
  (∀ x, x ∉ l → remove q (BId x) = Raise RuntimeError).
Proof.
  intros Hq. split; [intros ->; by apply popleft_nil|]. intros x. by apply remove_not_queued.
Qed.

Lemma free_queue_errors_witness :
  let q := init_queue (λ _, new_block 0) [] in
  (@nil nat = [] → popleft q = Raise ValueError) ∧
  (∀ x, x ∉ @nil nat → remove q (BId x) = Raise RuntimeError).
Proof.
  apply free_queue_errors. apply (init_queue_repr _ []); [constructor|done].
Defined.
