(* ===== verification/BlockHash.v ===== *)
(** * Block hashes and prefix-cache keys

    The packing helpers of [vllm/v1/core/kv_cache_utils.py]: a prefix-cache key
    is the block's hash followed by the KV-cache group id in four big-endian
    bytes. *)

From S2P Require Import Prelude KVBlock.

#[local] Open Scope Z_scope.

(** ** [int.to_bytes] and [int.from_bytes], big endian, unsigned *)

Fixpoint be_bytes (k : nat) (n : Z) : bytes :=
  match k with
  | O => []
  | S k => be_bytes k (n / 256) ++ [n mod 256]
  end.

(** [n.to_bytes(k, "big", signed=False)] *)
Definition to_bytes (k : nat) (n : Z) : result bytes :=
  if (0 <=? n) && (n <? 256 ^ Z.of_nat k) then Ok (be_bytes k n) else Raise OverflowError.

(** [int.from_bytes(b, "big", signed=False)] *)
Definition from_bytes (b : bytes) : Z := foldl (λ a x, a * 256 + x) 0 b.

(** ** Keys *)

Definition make_block_hash_with_group_id (block_hash : bytes) (group_id : Z) : result hash_key :=
  g ← to_bytes 4 group_id; Ok (block_hash ++ g).

(** [key[:-4]] *)
Definition get_block_hash (k : hash_key) : bytes := take (length k - 4) k.

(** [int.from_bytes(key[-4:], "big", signed=False)] *)
Definition get_group_id (k : hash_key) : Z := from_bytes (drop (length k - 4) k).

(** The hash as external consumers see it: the bytes, or their low 64 bits. *)
Inductive ExternalBlockHash := ExtBytes (b : bytes) | ExtInt (n : Z).

Definition maybe_convert_block_hash (use_int_block_hashes : bool) (hash_bytes : bytes)
    : ExternalBlockHash :=
  if negb use_int_block_hashes then ExtBytes hash_bytes
  else ExtInt (Z.land (from_bytes hash_bytes) (Z.shiftl 1 64 - 1)).

(** ** Facts *)

Lemma be_bytes_length k n : length (be_bytes k n) = k.
Proof. revert n. induction k as [|k IH]; intros n; simpl; [done|]. rewrite length_app, IH. simpl. lia. Qed.

Lemma be_bytes_range k n : Forall (λ b, 0 ≤ b < 256) (be_bytes k n).
Proof.
  revert n. induction k as [|k IH]; intros n; simpl; [done|].
  apply Forall_app. split; [apply IH|]. apply Forall_singleton, Z.mod_pos_bound. lia.
Qed.

Lemma from_bytes_snoc b x : from_bytes (b ++ [x]) = from_bytes b * 256 + x.
Proof. unfold from_bytes. by rewrite foldl_app. Qed.

Lemma from_be_bytes k n : 0 ≤ n < 256 ^ Z.of_nat k → from_bytes (be_bytes k n) = n.
Proof.
  revert n. induction k as [|k IH]; intros n Hn; [simpl in *; unfold from_bytes; simpl; lia|].
  cbn [be_bytes]. rewrite from_bytes_snoc, IH.
  - pose proof (Z.div_mod n 256 ltac:(lia)). lia.
  - rewrite Nat2Z.inj_succ, Z.pow_succ_r in Hn by lia. split; [apply Z.div_pos; lia|].
    apply Z.div_lt_upper_bound; lia.
Qed.

Lemma to_bytes_Ok k n b : to_bytes k n = Ok b → 0 ≤ n < 256 ^ Z.of_nat k ∧ b = be_bytes k n.
Proof.
  unfold to_bytes. destruct (Z.leb_spec 0 n), (Z.ltb_spec n (256 ^ Z.of_nat k)); simpl; try done.
  by intros [= <-].
Qed.

Lemma make_key_Ok h g k :
  make_block_hash_with_group_id h g = Ok k → 0 ≤ g < 2 ^ 32 ∧ k = h ++ be_bytes 4 g.
Proof.
  unfold make_block_hash_with_group_id. destruct (to_bytes 4 g) as [b|] eqn:E; [|done].
  simpl. intros [= <-]. apply to_bytes_Ok in E as [? ->]. done.
Qed.

Lemma make_key_valid h g :
  0 ≤ g < 2 ^ 32 → make_block_hash_with_group_id h g = Ok (h ++ be_bytes 4 g).
Proof.
  intros Hg. unfold make_block_hash_with_group_id, to_bytes.
  rewrite (proj2 (Z.leb_le 0 g)), (proj2 (Z.ltb_lt g _)) by (simpl; lia). done.
Qed.

Lemma split_key h g : get_block_hash (h ++ be_bytes 4 g) = h ∧
                      drop (length (h ++ be_bytes 4 g) - 4) (h ++ be_bytes 4 g) = be_bytes 4 g.
Proof.
  assert (length (h ++ be_bytes 4 g) - 4 = length h)%nat as Hlen.
  { rewrite length_app, be_bytes_length. lia. }
  unfold get_block_hash. by rewrite Hlen, take_app_length, drop_app_length.
Qed.

(** Packing is injective: two keys coincide only for the same hash and group. *)
Lemma make_key_inj h1 g1 h2 g2 k :
  make_block_hash_with_group_id h1 g1 = Ok k → make_block_hash_with_group_id h2 g2 = Ok k →
  h1 = h2 ∧ g1 = g2.
Proof.
  intros [H1 ->]%make_key_Ok [H2 E]%make_key_Ok.
  destruct (split_key h1 g1) as [Ha Hb], (split_key h2 g2) as [Hc Hd].
  rewrite E in Ha, Hb. rewrite Ha in Hc. rewrite Hb in Hd. split; [done|].
  rewrite <-(from_be_bytes 4 g1), <-(from_be_bytes 4 g2) by done. by rewrite Hd.
Qed.

(** C38: a prefix-cache key packs a block hash and a 32-bit group id without
    loss: both are recovered from the key, two keys are equal only for equal
    hash and group, and other group ids raise [OverflowError]. *)
Theorem block_hash_key_roundtrip h g :
  if decide (0 ≤ g < 2 ^ 32) then
    ∃ k, make_block_hash_with_group_id h g = Ok k ∧ get_block_hash k = h ∧ get_group_id k = g ∧
         ∀ h' g', make_block_hash_with_group_id h' g' = Ok k → h' = h ∧ g' = g
  else make_block_hash_with_group_id h g = Raise OverflowError.
Proof.
  case_decide as Hg.
  - exists (h ++ be_bytes 4 g). destruct (split_key h g) as [Hh Hgr].
    split_and!; [by apply make_key_valid|done| |].
    + unfold get_group_id. rewrite Hgr. by apply from_be_bytes.
    + intros h' g' E. eapply make_key_inj; [done|]. by apply make_key_valid.
  - unfold make_block_hash_with_group_id, to_bytes.
    destruct (Z.leb_spec 0 g), (Z.ltb_spec g (256 ^ Z.of_nat 4)); simpl; try done. simpl in *. lia.
Qed.
