(* ===== verification/BlockMap.v ===== *)
(** * The prefix-cache hash map

    [BlockHashToBlockMap] of [vllm/v1/core/block_pool.py].  A key maps to a
    single block, or, once two blocks share a hash, to a dictionary from block
    id to block.  [map_blocks] is the abstract content: the blocks cached under
    a key, oldest first. *)

From S2P Require Import Prelude OrderedDict KVBlock.

#[local] Open Scope Z_scope.

(** [KVCacheBlock | dict[int, KVCacheBlock]] *)
Inductive cached_blocks :=
  | OneBlock (b : bref)
  | BlockDict (d : list (Z * bref)).

Record BlockHashToBlockMap := mkBlockMap { _cache : gmap hash_key cached_blocks }.

Definition empty_block_map : BlockHashToBlockMap := mkBlockMap ∅.

(** [next(iter(d.values()))] raises on an empty dictionary. *)
Definition get_one_block (m : BlockHashToBlockMap) (k : hash_key) : result (option bref) :=
  match _cache m !! k with
  | None => Ok None
  | Some (OneBlock b) => Ok (Some b)
  | Some (BlockDict d) => match d with [] => Raise StopIteration | (_, b) :: _ => Ok (Some b) end
  end.

(** Block ids are read from the block objects, hence the store [h]. *)
Definition map_insert (h : heap) (m : BlockHashToBlockMap) (k : hash_key) (b : bref)
    : BlockHashToBlockMap :=
  match _cache m !! k with
  | None => mkBlockMap (<[k := OneBlock b]> (_cache m))
  | Some (OneBlock b0) =>
      mkBlockMap (<[k := BlockDict (od_set (od_set [] (block_id (h b0)) b0) (block_id (h b)) b)]>
                    (_cache m))
  | Some (BlockDict d) => mkBlockMap (<[k := BlockDict (od_set d (block_id (h b)) b)]> (_cache m))
  end.

Definition map_pop (h : heap) (m : BlockHashToBlockMap) (k : hash_key) (id : Z)
    : option bref * BlockHashToBlockMap :=
  match _cache m !! k with
  | None => (None, m)
  | Some (OneBlock b) =>
      if block_id (h b) =? id then (Some b, mkBlockMap (delete k (_cache m)))
      else (None, mkBlockMap (<[k := OneBlock b]> (delete k (_cache m))))
  | Some (BlockDict d) =>
      let d' := od_del d id in
      let m' := delete k (_cache m) in
      (od_get d id,
       if 0 <? zlen d' then mkBlockMap (<[k := BlockDict d']> m') else mkBlockMap m')
  end.

Definition map_len (m : BlockHashToBlockMap) : Z := Z.of_nat (size (_cache m)).

(** ** Abstract content *)

Definition entry_blocks (e : cached_blocks) : list bref :=
  match e with OneBlock b => [b] | BlockDict d => d.*2 end.

Definition map_blocks (m : BlockHashToBlockMap) (k : hash_key) : list bref :=
  match _cache m !! k with None => [] | Some e => entry_blocks e end.

(** Every block of the map is a pool block filed under its own id, and no
    dictionary is empty. *)
Definition entry_wf (h : heap) (e : cached_blocks) : Prop :=
  match e with
  | OneBlock b => ∃ n, b = BId n ∧ block_id (h b) = Z.of_nat n
  | BlockDict d => d ≠ [] ∧ NoDup d.*1 ∧
      ∀ i b, (i, b) ∈ d → ∃ n, b = BId n ∧ block_id (h b) = Z.of_nat n ∧ i = Z.of_nat n
  end.

Definition map_wf (h : heap) (m : BlockHashToBlockMap) : Prop :=
  ∀ k e, _cache m !! k = Some e → entry_wf h e.

Lemma map_wf_ids h h' m :
  (∀ r, block_id (h' r) = block_id (h r)) → map_wf h m → map_wf h' m.
Proof.
  intros Hid Hwf k e He. specialize (Hwf k e He). destruct e as [b|d]; simpl in *.
  - by setoid_rewrite Hid.
  - by setoid_rewrite Hid.
Qed.

Lemma empty_map_wf h : map_wf h empty_block_map.
Proof. intros k e. simpl. by rewrite lookup_empty. Qed.

Lemma map_blocks_wf h m k b :
  map_wf h m → b ∈ map_blocks m k → ∃ n, b = BId n ∧ block_id (h b) = Z.of_nat n.
Proof.
  intros Hwf. unfold map_blocks. destruct (_cache m !! k) as [e|] eqn:E; [|set_solver].
  specialize (Hwf k e E). destruct e as [b0|d]; simpl in *.
  - intros ->%list_elem_of_singleton. done.
  - destruct Hwf as (_ & _ & Hd). intros ([i b'] & -> & Hin)%list_elem_of_fmap. naive_solver.
Qed.

Lemma map_blocks_nodup h m k : map_wf h m → NoDup (map_blocks m k).
Proof.
  intros Hwf. unfold map_blocks. destruct (_cache m !! k) as [e|] eqn:E; [|apply NoDup_nil_2].
  specialize (Hwf k e E). destruct e as [b0|d]; simpl in *; [apply NoDup_singleton|].
  destruct Hwf as (_ & Hnd & Hd). clear E. induction d as [|[i b] d IH]; csimpl in *; [apply NoDup_nil_2|].
  apply NoDup_cons in Hnd as [Hi Hnd]. apply NoDup_cons. split; [|apply IH; [done|set_solver]].
  intros ([i' b'] & -> & Hin)%list_elem_of_fmap. apply Hi, list_elem_of_fmap. exists (i', b').
  split; [|done]. destruct (Hd i b') as (n & -> & _ & ->); [set_solver|].
  destruct (Hd i' (BId n)) as (n' & [= ->] & _ & ->); [set_solver|]. done.
Qed.

(** ** Operations against the abstract content *)

Lemma get_one_block_spec h m k :
  map_wf h m → get_one_block m k = Ok (head (map_blocks m k)).
Proof.
  intros Hwf. unfold get_one_block, map_blocks. destruct (_cache m !! k) as [e|] eqn:E; [|done].
  specialize (Hwf k e E). destruct e as [b|[|[i b] d]]; simpl in *; [done|naive_solver|done].
Qed.

Lemma map_insert_update m k e :
  ∀ k', map_blocks (mkBlockMap (<[k := e]> (_cache m))) k' =
        if decide (k' = k) then entry_blocks e else map_blocks m k'.
Proof.
  intros k'. unfold map_blocks. simpl. case_decide as Hk; [subst; by rewrite lookup_insert_eq|].
  by rewrite lookup_insert_ne.
Qed.

Lemma map_wf_update h m k e : map_wf h m → entry_wf h e → map_wf h (mkBlockMap (<[k := e]> (_cache m))).
Proof.
  intros Hwf He k' e'. simpl. destruct (decide (k = k')) as [->|].
  - rewrite lookup_insert_eq. by intros [= <-].
  - rewrite lookup_insert_ne by done. apply Hwf.
Qed.

Lemma map_wf_delete h m k : map_wf h m → map_wf h (mkBlockMap (delete k (_cache m))).
Proof. intros Hwf k' e'. simpl. intros [_ ?]%lookup_delete_Some. by eapply Hwf. Qed.

Lemma map_blocks_delete m k k' :
  map_blocks (mkBlockMap (delete k (_cache m))) k' =
  if decide (k' = k) then [] else map_blocks m k'.
Proof.
  unfold map_blocks. simpl. case_decide as Hk; [subst; by rewrite lookup_delete_eq|].
  by rewrite lookup_delete_ne.
Qed.

(** The dictionary entry for one more block. *)
Lemma dict_insert_wf h d n :
  NoDup d.*1 → block_id (h (BId n)) = Z.of_nat n → BId n ∉ d.*2 →
  (∀ i b, (i, b) ∈ d → ∃ n, b = BId n ∧ block_id (h b) = Z.of_nat n ∧ i = Z.of_nat n) →
  od_set d (block_id (h (BId n))) (BId n) = d ++ [(Z.of_nat n, BId n)] ∧
  entry_wf h (BlockDict (d ++ [(Z.of_nat n, BId n)])).
Proof.
  intros Hnd Hid Hn Hd. rewrite Hid.
  assert (Z.of_nat n ∉ d.*1) as Hk.
  { intros ([i b] & E & Hin)%list_elem_of_fmap. simpl in E. subst i.
    destruct (Hd _ _ Hin) as (n' & -> & _ & ->%Nat2Z.inj). apply Hn, list_elem_of_fmap.
    by exists (Z.of_nat n', BId n'). }
  split; [by apply od_set_fresh|]. split_and!.
  - by destruct d.
  - rewrite fmap_app. csimpl. rewrite <-Permutation_cons_append. by apply NoDup_cons.
  - intros i b [Hin|[= -> ->]%list_elem_of_singleton]%elem_of_app; [by apply Hd|by exists n].
Qed.

Lemma map_insert_spec h m k n :
  map_wf h m → block_id (h (BId n)) = Z.of_nat n → BId n ∉ map_blocks m k →
  map_wf h (map_insert h m k (BId n)) ∧
  ∀ k', map_blocks (map_insert h m k (BId n)) k' =
        if decide (k' = k) then map_blocks m k ++ [BId n] else map_blocks m k'.
Proof.
  intros Hwf Hid Hn. unfold map_insert. unfold map_blocks in Hn.
  destruct (_cache m !! k) as [[b0|d]|] eqn:E.
  - destruct (Hwf k _ E) as (n0 & -> & Hid0). simpl in Hn.
    destruct (dict_insert_wf h [(Z.of_nat n0, BId n0)] n) as [Hset Hwf'].
    { apply NoDup_singleton. }
    { done. } { set_solver. }
    { intros i b [= -> ->]%list_elem_of_singleton. by exists n0. }
    rewrite Hid0. change (od_set [] (Z.of_nat n0) (BId n0)) with [(Z.of_nat n0, BId n0)].
    rewrite Hset. split; [by apply map_wf_update|].
    intros k'. rewrite map_insert_update. case_decide; [|done]. unfold map_blocks. by rewrite E.
  - destruct (Hwf k _ E) as (Hne & Hnd & Hd). simpl in Hn.
    destruct (dict_insert_wf h d n) as [-> Hwf']; [done..|]. split; [by apply map_wf_update|].
    intros k'. rewrite map_insert_update. case_decide; [|done]. unfold map_blocks. rewrite E.
    simpl. by rewrite fmap_app.
  - split; [apply map_wf_update; [done|by exists n]|].
    intros k'. rewrite map_insert_update. case_decide; [|done]. unfold map_blocks. by rewrite E.
Qed.

(** Removing the block filed under an id from a dictionary. *)
Lemma dict_pop h d n :
  entry_wf h (BlockDict d) →
  od_get d (Z.of_nat n) = (if decide (BId n ∈ d.*2) then Some (BId n) else None) ∧
  (od_del d (Z.of_nat n)).*2 = filter (λ b, b ≠ BId n) d.*2 ∧
  (od_del d (Z.of_nat n) ≠ [] → entry_wf h (BlockDict (od_del d (Z.of_nat n)))).
Proof.
  intros (Hne & Hnd & Hd). split_and!.
  - case_decide as Hin.
    + apply od_get_elem; [done|]. apply list_elem_of_fmap in Hin as ([i b] & Eb & Hin).
      simpl in Eb. subst b. by destruct (Hd _ _ Hin) as (n' & [= ->] & _ & ->).
    + apply od_get_None. intros ([i b] & E & Hi)%list_elem_of_fmap. simpl in E. subst i.
      destruct (Hd _ _ Hi) as (n' & -> & _ & ->%Nat2Z.inj). apply Hin, list_elem_of_fmap.
      by exists (Z.of_nat n', BId n').
  - clear Hne Hnd. unfold od_del. induction d as [|[i b] d IH]; [done|].
    destruct (Hd i b) as (n' & -> & _ & ->); [set_solver|]. rewrite fmap_cons. simpl snd.
    destruct (decide (n' = n)) as [->|Hne].
    + rewrite (filter_cons_False _ (_, _)), (filter_cons_False _ (BId n)) by (simpl; tauto).
      apply IH. set_solver.
    + rewrite (filter_cons_True _ (_, _)) by (simpl; lia).
      rewrite (filter_cons_True _ (BId n')) by congruence. rewrite fmap_cons, IH; set_solver.
  - intros Hne'. split_and!; [done|by apply od_del_nodup|].
    intros i b [_ Hin]%list_elem_of_filter. by apply Hd.
Qed.

(** [pop]: the block is returned iff it was cached under the key, and exactly
    it leaves the map. *)
Lemma map_pop_spec h m k n :
  map_wf h m → block_id (h (BId n)) = Z.of_nat n →
  ∃ m', map_pop h m k (Z.of_nat n) =
          (if decide (BId n ∈ map_blocks m k) then Some (BId n) else None, m') ∧
        map_wf h m' ∧
        ∀ k', map_blocks m' k' =
              if decide (k' = k) then filter (λ b, b ≠ BId n) (map_blocks m k) else map_blocks m k'.
Proof.
  intros Hwf Hid. unfold map_pop.
  assert (map_blocks m k = match _cache m !! k with Some e => entry_blocks e | None => [] end) as Eb.
  { unfold map_blocks. by destruct (_cache m !! k). }
  destruct (_cache m !! k) as [[b|d]|] eqn:E; rewrite Eb; simpl.
  - destruct (Hwf k _ E) as (n0 & -> & Hid0). rewrite Hid0.
    destruct (Z.eqb_spec (Z.of_nat n0) (Z.of_nat n)) as [->%Nat2Z.inj|Hne].
    + rewrite decide_True by set_solver. eexists. split; [done|].
      split; [by apply map_wf_delete|]. intros k'. rewrite map_blocks_delete.
      by rewrite filter_cons_False by tauto.
    + rewrite decide_False by set_solver. eexists. split; [done|]. rewrite insert_delete_eq.
      split; [apply map_wf_update; [done|by exists n0]|]. intros k'. rewrite map_insert_update.
      simpl. rewrite filter_cons_True by congruence. done.
  - destruct (dict_pop h d n (Hwf k _ E)) as (Hget & Hdel & Hwf'). rewrite Hget, <-Hdel.
    eexists. split; [done|]. destruct (Z.ltb_spec 0 (zlen (od_del d (Z.of_nat n)))) as [Hlt|Hge].
    + rewrite insert_delete_eq.
      split; [apply map_wf_update; [done|apply Hwf'; intros E'; by rewrite E' in Hlt]|].
      intros k'. by rewrite map_insert_update.
    + split; [by apply map_wf_delete|]. intros k'. rewrite map_blocks_delete.
      destruct (od_del _ _); [done|]. rewrite zlen_cons in Hge. pose proof (zlen_nonneg l). lia.
  - exists m. split; [done|]. split; [done|].
    intros k'. case_decide; [|done]. subst. by rewrite Eb.
Qed.
