(* ===== verification/Request.v ===== *)
(** * Requests

    [Request] and [RequestStatus] of [vllm/v1/request.py], with the parts of the
    sampling parameters, the multi-modal inputs and the LoRA adapter that the
    scheduler core reads.  Arrival times and object identities are only
    compared, so they are integers; statistics, traces and grammar objects are
    left out. *)

From S2P Require Import Prelude KVBlock.

#[local] Open Scope Z_scope.

(** ** Status *)

Inductive RequestStatus :=
  | WAITING
  | WAITING_FOR_STRUCTURED_OUTPUT_GRAMMAR
  | WAITING_FOR_REMOTE_KVS
  | WAITING_FOR_STREAMING_REQ
  | RUNNING
  | PREEMPTED
  | FINISHED_STOPPED
  | FINISHED_LENGTH_CAPPED
  | FINISHED_ABORTED
  | FINISHED_IGNORED
  | FINISHED_ERROR
  | FINISHED_REPETITION.

#[export] Instance RequestStatus_eq_dec : EqDecision RequestStatus.
Proof. solve_decision. Defined.

(** The [IntEnum] value ([enum.auto()] counts from one). *)
Definition status_value (s : RequestStatus) : Z :=
  match s with
  | WAITING => 1
  | WAITING_FOR_STRUCTURED_OUTPUT_GRAMMAR => 2
  | WAITING_FOR_REMOTE_KVS => 3
  | WAITING_FOR_STREAMING_REQ => 4
  | RUNNING => 5
  | PREEMPTED => 6
  | FINISHED_STOPPED => 7
  | FINISHED_LENGTH_CAPPED => 8
  | FINISHED_ABORTED => 9
  | FINISHED_IGNORED => 10
  | FINISHED_ERROR => 11
  | FINISHED_REPETITION => 12
  end.

(** [RequestStatus.is_finished]: [status > RequestStatus.PREEMPTED] *)
Definition status_is_finished (s : RequestStatus) : bool :=
  status_value PREEMPTED <? status_value s.

Inductive FinishReason := STOP | LENGTH | ABORT | ERROR | REPETITION.

(** [_FINISHED_REASON_MAP.get(status)] *)
Definition status_finished_reason (s : RequestStatus) : option FinishReason :=
  match s with
  | FINISHED_STOPPED => Some STOP
  | FINISHED_LENGTH_CAPPED => Some LENGTH
  | FINISHED_ABORTED => Some ABORT
  | FINISHED_IGNORED => Some LENGTH
  | FINISHED_ERROR => Some ERROR
  | WAITING_FOR_STREAMING_REQ => Some STOP
  | FINISHED_REPETITION => Some REPETITION
  | _ => None
  end.

(** ** Parameters *)

Record RepetitionDetectionParams := mkRepetition {
  max_pattern_size : Z;
  min_pattern_size : Z;
  min_count : Z;
}.

Record SamplingParams := mkSampling {
  sp_max_tokens : option Z;
  min_tokens : Z;
  eos_token_id : option Z;
  stop_token_ids : list Z;
  repetition_detection : option RepetitionDetectionParams;
  sp_skip_reading_prefix_cache : option bool;
}.

Record PoolingParams := mkPooling { pp_skip_reading_prefix_cache : option bool }.

Record LoRARequest := mkLoRA { lora_name : string; adapter_id : Z }.

(** [PlaceholderRange] of [vllm/multimodal/inputs.py]. *)
Record PlaceholderRange := mkPlaceholder {
  pr_offset : Z;
  pr_length : Z;
  is_embed : option (list bool);
}.

(** [embeds_cumsum]: the running count of embedding positions. *)
Definition embeds_cumsum (p : PlaceholderRange) : option (list Z) :=
  (λ m, (foldl (λ '(acc, n) (b : bool), let n := if b then n + 1 else n in (acc ++ [n], n))
           ([], 0) m).1) <$> is_embed p.

Definition get_num_embeds (p : PlaceholderRange) : Z :=
  match embeds_cumsum p with
  | None => pr_length p
  | Some c => default 0 (last c)
  end.

Record MultiModalFeatureSpec := mkMMFeature {
  identifier : string;
  mm_position : PlaceholderRange;
}.

Inductive StopReason := StopToken (t : Z) | StopText (s : string).

(** ** The request *)

Record Request := mkRequest {
  request_id : string;
  obj_addr : Z;  (* [id(self)], the identity of the object *)
  client_index : Z;
  priority : Z;
  arrival_time : Z;
  sampling_params : option SamplingParams;
  pooling_params : option PoolingParams;
  lora_request : option LoRARequest;
  has_structured_output : bool;  (* [structured_output_request is not None] *)
  status : RequestStatus;
  stop_reason : option StopReason;
  max_tokens : Z;
  prompt_token_ids : option (list Z);
  prompt_embeds : option (list bytes);  (* one row of bytes per position *)
  prompt_embeds_hashes : gmap (Z * Z) bytes;  (* [_prompt_embeds_per_block_hashes] *)
  num_prompt_tokens : Z;
  output_token_ids : list Z;
  all_token_ids : list Z;
  num_output_placeholders : Z;
  async_tokens_to_discard : Z;
  next_decode_eligible_step : Z;
  last_sched_seq : Z;
  spec_token_ids : list Z;
  num_computed_tokens : Z;
  cache_salt : option string;
  mm_features : list MultiModalFeatureSpec;
  is_prefill_chunk : bool;
  num_preemptions : Z;
  block_hashes : list bytes;
  skip_reading_prefix_cache : bool;
  resumable : bool;
  abort_immediately : bool;
}.

(** Attribute assignments. *)
Definition set_status (v : RequestStatus) (r : Request) : Request :=
  mkRequest (request_id r) (obj_addr r) (client_index r) (priority r) (arrival_time r)
    (sampling_params r) (pooling_params r) (lora_request r) (has_structured_output r) v
    (stop_reason r) (max_tokens r) (prompt_token_ids r) (prompt_embeds r)
    (prompt_embeds_hashes r) (num_prompt_tokens r) (output_token_ids r) (all_token_ids r)
    (num_output_placeholders r) (async_tokens_to_discard r) (next_decode_eligible_step r)
    (last_sched_seq r) (spec_token_ids r) (num_computed_tokens r) (cache_salt r) (mm_features r)
    (is_prefill_chunk r) (num_preemptions r) (block_hashes r) (skip_reading_prefix_cache r)
    (resumable r) (abort_immediately r).
Definition set_stop_reason (v : option StopReason) (r : Request) : Request :=
  mkRequest (request_id r) (obj_addr r) (client_index r) (priority r) (arrival_time r)
    (sampling_params r) (pooling_params r) (lora_request r) (has_structured_output r) (status r)
    v (max_tokens r) (prompt_token_ids r) (prompt_embeds r) (prompt_embeds_hashes r)
    (num_prompt_tokens r) (output_token_ids r) (all_token_ids r) (num_output_placeholders r)
    (async_tokens_to_discard r) (next_decode_eligible_step r) (last_sched_seq r)
    (spec_token_ids r) (num_computed_tokens r) (cache_salt r) (mm_features r)
    (is_prefill_chunk r) (num_preemptions r) (block_hashes r) (skip_reading_prefix_cache r)
    (resumable r) (abort_immediately r).
Definition set_prompt_embeds_hashes (v : gmap (Z * Z) bytes) (r : Request) : Request :=
  mkRequest (request_id r) (obj_addr r) (client_index r) (priority r) (arrival_time r)
    (sampling_params r) (pooling_params r) (lora_request r) (has_structured_output r) (status r)
    (stop_reason r) (max_tokens r) (prompt_token_ids r) (prompt_embeds r) v
    (num_prompt_tokens r) (output_token_ids r) (all_token_ids r) (num_output_placeholders r)
    (async_tokens_to_discard r) (next_decode_eligible_step r) (last_sched_seq r)
    (spec_token_ids r) (num_computed_tokens r) (cache_salt r) (mm_features r)
    (is_prefill_chunk r) (num_preemptions r) (block_hashes r) (skip_reading_prefix_cache r)
    (resumable r) (abort_immediately r).
Definition set_output_token_ids (v : list Z) (r : Request) : Request :=
  mkRequest (request_id r) (obj_addr r) (client_index r) (priority r) (arrival_time r)
    (sampling_params r) (pooling_params r) (lora_request r) (has_structured_output r) (status r)
    (stop_reason r) (max_tokens r) (prompt_token_ids r) (prompt_embeds r)
    (prompt_embeds_hashes r) (num_prompt_tokens r) v (all_token_ids r)
    (num_output_placeholders r) (async_tokens_to_discard r) (next_decode_eligible_step r)
    (last_sched_seq r) (spec_token_ids r) (num_computed_tokens r) (cache_salt r) (mm_features r)
    (is_prefill_chunk r) (num_preemptions r) (block_hashes r) (skip_reading_prefix_cache r)
    (resumable r) (abort_immediately r).
Definition set_all_token_ids (v : list Z) (r : Request) : Request :=
  mkRequest (request_id r) (obj_addr r) (client_index r) (priority r) (arrival_time r)
    (sampling_params r) (pooling_params r) (lora_request r) (has_structured_output r) (status r)
    (stop_reason r) (max_tokens r) (prompt_token_ids r) (prompt_embeds r)
    (prompt_embeds_hashes r) (num_prompt_tokens r) (output_token_ids r) v
    (num_output_placeholders r) (async_tokens_to_discard r) (next_decode_eligible_step r)
    (last_sched_seq r) (spec_token_ids r) (num_computed_tokens r) (cache_salt r) (mm_features r)
    (is_prefill_chunk r) (num_preemptions r) (block_hashes r) (skip_reading_prefix_cache r)
    (resumable r) (abort_immediately r).
Definition set_num_output_placeholders (v : Z) (r : Request) : Request :=
  mkRequest (request_id r) (obj_addr r) (client_index r) (priority r) (arrival_time r)
    (sampling_params r) (pooling_params r) (lora_request r) (has_structured_output r) (status r)
    (stop_reason r) (max_tokens r) (prompt_token_ids r) (prompt_embeds r)
    (prompt_embeds_hashes r) (num_prompt_tokens r) (output_token_ids r) (all_token_ids r) v
    (async_tokens_to_discard r) (next_decode_eligible_step r) (last_sched_seq r)
    (spec_token_ids r) (num_computed_tokens r) (cache_salt r) (mm_features r)
    (is_prefill_chunk r) (num_preemptions r) (block_hashes r) (skip_reading_prefix_cache r)
    (resumable r) (abort_immediately r).
Definition set_async_tokens_to_discard (v : Z) (r : Request) : Request :=
  mkRequest (request_id r) (obj_addr r) (client_index r) (priority r) (arrival_time r)
    (sampling_params r) (pooling_params r) (lora_request r) (has_structured_output r) (status r)
    (stop_reason r) (max_tokens r) (prompt_token_ids r) (prompt_embeds r)
    (prompt_embeds_hashes r) (num_prompt_tokens r) (output_token_ids r) (all_token_ids r)
    (num_output_placeholders r) v (next_decode_eligible_step r) (last_sched_seq r)
    (spec_token_ids r) (num_computed_tokens r) (cache_salt r) (mm_features r)
    (is_prefill_chunk r) (num_preemptions r) (block_hashes r) (skip_reading_prefix_cache r)
    (resumable r) (abort_immediately r).
Definition set_next_decode_eligible_step (v : Z) (r : Request) : Request :=
  mkRequest (request_id r) (obj_addr r) (client_index r) (priority r) (arrival_time r)
    (sampling_params r) (pooling_params r) (lora_request r) (has_structured_output r) (status r)
    (stop_reason r) (max_tokens r) (prompt_token_ids r) (prompt_embeds r)
    (prompt_embeds_hashes r) (num_prompt_tokens r) (output_token_ids r) (all_token_ids r)
    (num_output_placeholders r) (async_tokens_to_discard r) v (last_sched_seq r)
    (spec_token_ids r) (num_computed_tokens r) (cache_salt r) (mm_features r)
    (is_prefill_chunk r) (num_preemptions r) (block_hashes r) (skip_reading_prefix_cache r)
    (resumable r) (abort_immediately r).
Definition set_last_sched_seq (v : Z) (r : Request) : Request :=
  mkRequest (request_id r) (obj_addr r) (client_index r) (priority r) (arrival_time r)
    (sampling_params r) (pooling_params r) (lora_request r) (has_structured_output r) (status r)
    (stop_reason r) (max_tokens r) (prompt_token_ids r) (prompt_embeds r)
    (prompt_embeds_hashes r) (num_prompt_tokens r) (output_token_ids r) (all_token_ids r)
    (num_output_placeholders r) (async_tokens_to_discard r) (next_decode_eligible_step r) v
    (spec_token_ids r) (num_computed_tokens r) (cache_salt r) (mm_features r)
    (is_prefill_chunk r) (num_preemptions r) (block_hashes r) (skip_reading_prefix_cache r)
    (resumable r) (abort_immediately r).
Definition set_spec_token_ids (v : list Z) (r : Request) : Request :=
  mkRequest (request_id r) (obj_addr r) (client_index r) (priority r) (arrival_time r)
    (sampling_params r) (pooling_params r) (lora_request r) (has_structured_output r) (status r)
    (stop_reason r) (max_tokens r) (prompt_token_ids r) (prompt_embeds r)
    (prompt_embeds_hashes r) (num_prompt_tokens r) (output_token_ids r) (all_token_ids r)
    (num_output_placeholders r) (async_tokens_to_discard r) (next_decode_eligible_step r)
    (last_sched_seq r) v (num_computed_tokens r) (cache_salt r) (mm_features r)
    (is_prefill_chunk r) (num_preemptions r) (block_hashes r) (skip_reading_prefix_cache r)
    (resumable r) (abort_immediately r).
Definition set_num_computed_tokens (v : Z) (r : Request) : Request :=
  mkRequest (request_id r) (obj_addr r) (client_index r) (priority r) (arrival_time r)
    (sampling_params r) (pooling_params r) (lora_request r) (has_structured_output r) (status r)
    (stop_reason r) (max_tokens r) (prompt_token_ids r) (prompt_embeds r)
    (prompt_embeds_hashes r) (num_prompt_tokens r) (output_token_ids r) (all_token_ids r)
    (num_output_placeholders r) (async_tokens_to_discard r) (next_decode_eligible_step r)
    (last_sched_seq r) (spec_token_ids r) v (cache_salt r) (mm_features r) (is_prefill_chunk r)
    (num_preemptions r) (block_hashes r) (skip_reading_prefix_cache r) (resumable r)
    (abort_immediately r).
Definition set_is_prefill_chunk (v : bool) (r : Request) : Request :=
  mkRequest (request_id r) (obj_addr r) (client_index r) (priority r) (arrival_time r)
    (sampling_params r) (pooling_params r) (lora_request r) (has_structured_output r) (status r)
    (stop_reason r) (max_tokens r) (prompt_token_ids r) (prompt_embeds r)
    (prompt_embeds_hashes r) (num_prompt_tokens r) (output_token_ids r) (all_token_ids r)
    (num_output_placeholders r) (async_tokens_to_discard r) (next_decode_eligible_step r)
    (last_sched_seq r) (spec_token_ids r) (num_computed_tokens r) (cache_salt r) (mm_features r)
    v (num_preemptions r) (block_hashes r) (skip_reading_prefix_cache r) (resumable r)
    (abort_immediately r).
Definition set_num_preemptions (v : Z) (r : Request) : Request :=
  mkRequest (request_id r) (obj_addr r) (client_index r) (priority r) (arrival_time r)
    (sampling_params r) (pooling_params r) (lora_request r) (has_structured_output r) (status r)
    (stop_reason r) (max_tokens r) (prompt_token_ids r) (prompt_embeds r)
    (prompt_embeds_hashes r) (num_prompt_tokens r) (output_token_ids r) (all_token_ids r)
    (num_output_placeholders r) (async_tokens_to_discard r) (next_decode_eligible_step r)
    (last_sched_seq r) (spec_token_ids r) (num_computed_tokens r) (cache_salt r) (mm_features r)
    (is_prefill_chunk r) v (block_hashes r) (skip_reading_prefix_cache r) (resumable r)
    (abort_immediately r).
Definition set_block_hashes (v : list bytes) (r : Request) : Request :=
  mkRequest (request_id r) (obj_addr r) (client_index r) (priority r) (arrival_time r)
    (sampling_params r) (pooling_params r) (lora_request r) (has_structured_output r) (status r)
    (stop_reason r) (max_tokens r) (prompt_token_ids r) (prompt_embeds r)
    (prompt_embeds_hashes r) (num_prompt_tokens r) (output_token_ids r) (all_token_ids r)
    (num_output_placeholders r) (async_tokens_to_discard r) (next_decode_eligible_step r)
    (last_sched_seq r) (spec_token_ids r) (num_computed_tokens r) (cache_salt r) (mm_features r)
    (is_prefill_chunk r) (num_preemptions r) v (skip_reading_prefix_cache r) (resumable r)
    (abort_immediately r).

(** Properties. *)
Definition num_tokens (r : Request) : Z := zlen (all_token_ids r).
Definition num_tokens_with_spec (r : Request) : Z := zlen (all_token_ids r) + zlen (spec_token_ids r).
Definition num_output_tokens (r : Request) : Z := zlen (output_token_ids r).
Definition num_encoder_inputs (r : Request) : Z := zlen (mm_features r).
Definition has_encoder_inputs (r : Request) : bool := 0 <? num_encoder_inputs r.
Definition use_structured_output (r : Request) : bool := has_structured_output r.
Definition is_finished (r : Request) : bool := status_is_finished (status r).
Definition get_finished_reason (r : Request) : option FinishReason := status_finished_reason (status r).

(** [assert input_id < len(self.mm_features)], then the embedding count of that
    input. *)
Definition get_num_encoder_embeds (r : Request) (input_id : nat) : result Z :=
  match mm_features r !! input_id with
  | None => Raise AssertionError
  | Some f => Ok (get_num_embeds (mm_position f))
  end.

Definition get_skip_reading_prefix_cache (sp : option SamplingParams) (pp : option PoolingParams) : bool :=
  match sp ≫= sp_skip_reading_prefix_cache with
  | Some b => b
  | None => match pp ≫= pp_skip_reading_prefix_cache with Some b => b | None => false end
  end.

(** [length_from_prompt_token_ids_or_embeds] of [vllm/utils/__init__.py]. *)
Definition length_from_prompt_token_ids_or_embeds
    (tokens : option (list Z)) (embeds : option (list bytes)) : result Z :=
  match tokens, embeds with
  | None, None => Raise ValueError
  | None, Some e => Ok (zlen e)
  | Some t, None => Ok (zlen t)
  | Some t, Some e => if zlen e =? zlen t then Ok (zlen t) else Raise ValueError
  end.

(** The block hasher reads the request and may fill its embedding-hash memo, so
    it returns the request with the new hashes. *)
Definition block_hasher := Request → result (list bytes * Request).

Definition update_block_hashes (hasher : option block_hasher) (r : Request) : result Request :=
  match hasher with
  | None => Ok r
  | Some f => '(hs, r) ← f r; Ok (set_block_hashes (block_hashes r ++ hs) r)
  end.

Definition append_output_token_ids (hasher : option block_hasher) (token_ids : list Z) (r : Request)
    : result Request :=
  let r := set_output_token_ids (output_token_ids r ++ token_ids) r in
  let r := set_all_token_ids (all_token_ids r ++ token_ids) r in
  update_block_hashes hasher r.

(** The constructor. *)
Definition new_request (hasher : option block_hasher)
    (id : string) (addr : Z) (prompt : option (list Z)) (sp : option SamplingParams)
    (pp : option PoolingParams) (client : Z) (arrival : Z) (embeds : option (list bytes))
    (mm : list MultiModalFeatureSpec) (lora : option LoRARequest) (salt : option string)
    (prio : Z) (structured : bool) (resum abort : bool) : result Request :=
  '(maxt, st) ←
    match pp, sp with
    | Some _, _ => Ok (1, WAITING)
    | None, Some sp =>
        match sp_max_tokens sp with
        | None => Raise AssertionError
        | Some m => Ok (m, if structured then WAITING_FOR_STRUCTURED_OUTPUT_GRAMMAR else WAITING)
        end
    | None, None => Raise ValueError
    end;
  n ← length_from_prompt_token_ids_or_embeds prompt embeds;
  let all := match prompt with Some t => t | None => replicate (Z.to_nat n) 0 end in
  let r := mkRequest id addr client prio arrival sp pp lora structured st None maxt prompt embeds ∅
             n [] all 0 0 0 0 [] 0 salt mm false 0 [] false resum abort in
  r ← update_block_hashes hasher r;
  Ok (mkRequest (request_id r) (obj_addr r) (client_index r) (priority r) (arrival_time r)
        (sampling_params r) (pooling_params r) (lora_request r) (has_structured_output r) (status r)
        (stop_reason r) (max_tokens r) (prompt_token_ids r) (prompt_embeds r)
        (prompt_embeds_hashes r) (num_prompt_tokens r) (output_token_ids r) (all_token_ids r)
        (num_output_placeholders r) (async_tokens_to_discard r) (next_decode_eligible_step r)
        (last_sched_seq r) (spec_token_ids r) (num_computed_tokens r) (cache_salt r)
        (mm_features r) (is_prefill_chunk r) (num_preemptions r) (block_hashes r)
        (get_skip_reading_prefix_cache sp pp) (resumable r) (abort_immediately r)).

(** [Request.__lt__] *)
Definition request_lt (a b : Request) : bool :=
  if negb (priority a =? priority b) then priority a <? priority b
  else if negb (arrival_time a =? arrival_time b) then arrival_time a <? arrival_time b
  else if negb (String.eqb (request_id a) (request_id b))
       then String.ltb (request_id a) (request_id b)
  else obj_addr a <? obj_addr b.

(** ** The scheduling order is a strict total order on request objects *)

Lemma string_ltb_le s1 s2 : String.ltb s1 s2 = true ↔ ¬ String.le s2 s1.
Proof.
  unfold String.le, String.ltb, String.leb. rewrite (String.compare_antisym s2 s1).
  destruct (String.compare s1 s2); simpl; naive_solver.
Qed.

Lemma string_ltb_irrefl s : String.ltb s s = false.
Proof.
  destruct (String.ltb s s) eqn:E; [|done].
  apply string_ltb_le in E. by destruct E.
Qed.

Lemma string_ltb_trans s1 s2 s3 :
  String.ltb s1 s2 = true → String.ltb s2 s3 = true → String.ltb s1 s3 = true.
Proof.
  rewrite !string_ltb_le. intros H12 H23 H31. apply H23.
  destruct (total String.le s2 s3) as [?|?]; [|done]. destruct H12. by trans s3.
Qed.

Lemma string_ltb_total s1 s2 : s1 ≠ s2 → String.ltb s1 s2 = true ∨ String.ltb s2 s1 = true.
Proof.
  intros Hne. rewrite !string_ltb_le.
  destruct (total String.le s1 s2) as [H|H]; [left|right]; intros H'; apply Hne;
    by apply (anti_symm String.le).
Qed.

(** The key a request is compared by. *)
Definition lt_key (a b : Request) : Prop :=
  priority a < priority b ∨ priority a = priority b ∧
  (arrival_time a < arrival_time b ∨ arrival_time a = arrival_time b ∧
   (String.ltb (request_id a) (request_id b) = true ∨
    request_id a = request_id b ∧ obj_addr a < obj_addr b)).

Lemma request_lt_key a b : request_lt a b = true ↔ lt_key a b.
Proof.
  unfold request_lt, lt_key.
  destruct (Z.eqb_spec (priority a) (priority b)) as [->|]; simpl; [|rewrite Z.ltb_lt; lia].
  destruct (Z.eqb_spec (arrival_time a) (arrival_time b)) as [->|]; simpl; [|rewrite Z.ltb_lt; lia].
  destruct (String.eqb_spec (request_id a) (request_id b)) as [->|Hne]; simpl.
  - rewrite Z.ltb_lt, string_ltb_irrefl. intuition (done || lia).
  - intuition (done || lia).
Qed.

Lemma request_lt_irrefl a : request_lt a a = false.
Proof.
  destruct (request_lt a a) eqn:E; [|done]. apply request_lt_key in E.
  unfold lt_key in E. rewrite string_ltb_irrefl in E. intuition (done || lia).
Qed.

Lemma request_lt_trans a b c :
  request_lt a b = true → request_lt b c = true → request_lt a c = true.
Proof.
  rewrite !request_lt_key. unfold lt_key.
  intros [?|[E1 [?|[E2 [?|[E3 ?]]]]]] [?|[F1 [?|[F2 [?|[F3 ?]]]]]]; try (left; lia);
    right; (split; [lia|]); try (left; lia); right; (split; [lia|]);
    first [left; by eapply string_ltb_trans | left; congruence | right; split; [congruence|lia]].
Qed.

Lemma request_lt_total a b :
  obj_addr a ≠ obj_addr b → request_lt a b = true ∨ request_lt b a = true.
Proof.
  intros Hne. rewrite !request_lt_key. unfold lt_key.
  destruct (Z.lt_trichotomy (priority a) (priority b)) as [|[Hp|]]; [by left; left| |by right; left].
  destruct (Z.lt_trichotomy (arrival_time a) (arrival_time b)) as [|[Ht|]]; [naive_solver| |naive_solver].
  destruct (decide (request_id a = request_id b)) as [E|E].
  - assert (obj_addr a < obj_addr b ∨ obj_addr b < obj_addr a) by lia. naive_solver.
  - pose proof (string_ltb_total _ _ E). naive_solver.
Qed.
