(* ===== verification/BlockHasher.v ===== *)
(** * Block hashing

    The request block hasher of [vllm/v1/core/kv_cache_utils.py]: the hash of a
    full block covers the parent block's hash, the block's tokens and the extra
    keys (LoRA, multi-modal inputs, cache salt, prompt embeddings).  The hash
    functions are third-party code, hence parameters. *)

From stdpp Require Import sorting.
From S2P Require Import Prelude KVBlock Request BlockHash.

#[local] Open Scope Z_scope.

Inductive extra_key :=
  | KeyStr (s : string)             (* LoRA name or cache salt *)
  | KeyMM (id : string) (off : Z)   (* [(mm_feature.identifier, offset)] *)
  | KeyBytes (b : bytes).           (* prompt-embedding hash *)

#[export] Instance extra_key_eq_dec : EqDecision extra_key.
Proof. solve_decision. Defined.

(** What the hash function is applied to. *)
Abbreviation hash_input := (bytes * list Z * option (list extra_key))%type.

Definition need_extra_keys (r : Request) : bool :=
  bool_decide (mm_features r ≠ []) || bool_decide (is_Some (lora_request r))
  || bool_decide (is_Some (cache_salt r)).

(** ** Multi-modal keys *)

(** The [while mm_features and curr_mm_idx < len(mm_features)] loop.  Every
    iteration advances the index or leaves. *)
Fixpoint mm_keys_loop (fuel : nat) (mm : list MultiModalFeatureSpec) (start_tok end_tok : Z)
    (idx : Z) (keys : list extra_key) : result (list extra_key * Z) :=
  match fuel with
  | O => Raise OutOfFuel
  | S fuel =>
      if negb (idx <? zlen mm) then Ok (keys, idx) else
      f ← py_index mm idx;
      let offset := pr_offset (mm_position f) in
      let length := pr_length (mm_position f) in
      if offset <? end_tok then
        if offset + length <=? start_tok then
          mm_keys_loop fuel mm start_tok end_tok (idx + 1) keys
        else
          let keys := keys ++ [KeyMM (identifier f) (offset - start_tok)] in
          if offset + length <=? end_tok then
            mm_keys_loop fuel mm start_tok end_tok (idx + 1) keys
          else Ok (keys, idx)
      else Ok (keys, idx)
  end.

Definition _gen_mm_extra_hash_keys (r : Request) (start_tok end_tok start_mm_idx : Z)
    : result (list extra_key * Z) :=
  let mm := mm_features r in
  match last mm with
  | None => Ok ([], start_mm_idx)
  | Some lst =>
      let last_pos := mm_position lst in
      if pr_offset last_pos + pr_length last_pos <=? start_tok then Ok ([], start_mm_idx) else
      idx ← (if start_mm_idx <? 0 then
               _ ← py_assert (- start_mm_idx <=? zlen mm); Ok (zlen mm + start_mm_idx)
             else Ok start_mm_idx);
      mm_keys_loop (S (length mm)) mm start_tok end_tok idx []
  end.

(** ** LoRA, salt and embedding keys *)

Definition _gen_lora_extra_hash_keys (r : Request) : list extra_key :=
  match lora_request r with None => [] | Some l => [KeyStr (lora_name l)] end.

(** [[request.cache_salt] if (start_token_idx == 0 and request.cache_salt) else []]
    (the empty salt is falsy). *)
Definition cache_salt_keys (r : Request) (start_tok : Z) : list extra_key :=
  match cache_salt r with
  | Some s => if (start_tok =? 0) && negb (String.eqb s "") then [KeyStr s] else []
  | None => []
  end.

(** ** What the multi-modal keys of a block should be *)

Definition mm_end (f : MultiModalFeatureSpec) : Z := pr_offset (mm_position f) + pr_length (mm_position f).

(** The input has a placeholder among tokens [s, e). *)
Definition mm_overlaps (s e : Z) (f : MultiModalFeatureSpec) : Prop :=
  pr_offset (mm_position f) < e ∧ s < mm_end f.

#[export] Instance mm_overlaps_dec s e f : Decision (mm_overlaps s e f).
Proof. unfold mm_overlaps. apply _. Defined.

Definition mm_key (s : Z) (f : MultiModalFeatureSpec) : extra_key :=
  KeyMM (identifier f) (pr_offset (mm_position f) - s).

Definition mm_block_keys (mm : list MultiModalFeatureSpec) (s e : Z) : list extra_key :=
  mm_key s <$> filter (mm_overlaps s e) mm.

(** Inputs come in prompt order and do not overlap. *)
Definition mm_before (f g : MultiModalFeatureSpec) : Prop := mm_end f ≤ pr_offset (mm_position g).
Definition mm_sorted (mm : list MultiModalFeatureSpec) : Prop :=
  Forall (λ f, 0 ≤ pr_length (mm_position f)) mm ∧ StronglySorted mm_before mm.

(** The inputs skipped by a start index all end before the block. *)
Definition norm_idx (mm : list MultiModalFeatureSpec) (idx : Z) : Z :=
  if idx <? 0 then zlen mm + idx else idx.
Definition idx_ok (mm : list MultiModalFeatureSpec) (idx s : Z) : Prop :=
  (mm ≠ [] → 0 ≤ norm_idx mm idx) ∧
  ∀ f, f ∈ take (Z.to_nat (norm_idx mm idx)) mm → mm_end f ≤ s.

Lemma mm_no_overlap_after s e f suf :
  0 ≤ pr_length (mm_position f) → Forall (mm_before f) suf → e ≤ mm_end f →
  filter (mm_overlaps s e) suf = [].
Proof.
  intros Hl Hs He. apply filter_none. intros g Hg [Ho _].
  rewrite Forall_forall in Hs. specialize (Hs g Hg). unfold mm_before in Hs. lia.
Qed.

Lemma mm_keys_loop_spec fuel mm s e pre suf keys :
  mm = pre ++ suf → mm_sorted suf → (length suf < fuel)%nat →
  Forall (λ f, mm_end f ≤ e) pre → s ≤ e →
  ∃ pre' suf', mm = pre' ++ suf' ∧ Forall (λ f, mm_end f ≤ e) pre' ∧
    mm_keys_loop fuel mm s e (zlen pre) keys = Ok (keys ++ mm_block_keys suf s e, zlen pre').
Proof.
  revert pre suf keys. induction fuel as [|fuel IH]; intros pre suf keys -> Hs Hf Hpre Hse; [lia|].
  cbn [mm_keys_loop]. destruct suf as [|f suf].
  { rewrite app_nil_r, Z.ltb_irrefl. simpl. exists pre, []. rewrite !app_nil_r. done. }
  destruct Hs as [[Hl Hls]%Forall_cons [Hss Hfs]%StronglySorted_inv].
  rewrite zlen_app, zlen_cons. rewrite (proj2 (Z.ltb_lt _ _)) by (pose proof (zlen_nonneg suf); lia).
  simpl. unfold py_index. replace (Z.to_nat (zlen pre)) with (length pre) by (unfold zlen; lia).
  rewrite list_lookup_middle by done. simpl.
  assert (∀ keys', mm_end f ≤ e → ∃ pre' suf', pre ++ f :: suf = pre' ++ suf' ∧
    Forall (λ f, mm_end f ≤ e) pre' ∧
    mm_keys_loop fuel (pre ++ f :: suf) s e (zlen pre + 1) keys' =
      Ok (keys' ++ mm_block_keys suf s e, zlen pre')) as Hgo.
  { intros keys' He. destruct (IH (pre ++ [f]) suf keys') as (p' & s' & E1 & E2 & E3); [..|done|].
    - by rewrite <-app_assoc.
    - done.
    - simpl in Hf. lia.
    - by apply Forall_app_2, Forall_singleton.
    - exists p', s'. split_and!; [done..|].
      rewrite zlen_app, zlen_cons in E3. exact E3. }
  unfold mm_block_keys. rewrite filter_cons.
  fold (mm_end f).
  destruct (Z.ltb_spec (pr_offset (mm_position f)) e) as [Ho|Ho].
  - destruct (Z.leb_spec (mm_end f) s) as [Hs'|Hs'].
    + rewrite decide_False by (unfold mm_overlaps; lia). apply Hgo. lia.
    + rewrite decide_True by (unfold mm_overlaps; lia). csimpl.
      destruct (Z.leb_spec (mm_end f) e) as [He|He].
      * destruct (Hgo (keys ++ [mm_key s f]) He) as (p' & s' & E1 & E2 & E3).
        exists p', s'. split_and!; [done..|]. by rewrite <-app_assoc in E3.
      * rewrite (mm_no_overlap_after s e f suf) by (done || lia).
        exists pre, (f :: suf). done.
  - rewrite decide_False by (unfold mm_overlaps; lia).
    rewrite (mm_no_overlap_after s e f suf) by (unfold mm_end; done || lia).
    exists pre, (f :: suf). rewrite app_nil_r. done.
Qed.

Lemma mm_sorted_drop mm n : mm_sorted mm → mm_sorted (drop n mm).
Proof.
  intros [Hl Hs]. split; [by apply Forall_drop|].
  revert n. induction Hs as [|f mm Hs IH Hf]; intros [|n]; simpl; try constructor; try done.
  apply IH. by apply Forall_cons in Hl as [_ ?].
Qed.

Lemma mm_sorted_last mm lst f :
  mm_sorted mm → last mm = Some lst → f ∈ mm → mm_end f ≤ mm_end lst.
Proof.
  intros [Hl Hs]. induction Hs as [|g mm Hs IH Hg]; [done|].
  apply Forall_cons in Hl as [Hl0 Hl]. intros Hlast [->|Hf]%elem_of_cons.
  - destruct mm as [|g' mm]; [simpl in Hlast; simplify_eq; lia|].
    change (last (g' :: mm) = Some lst) in Hlast.
    apply last_Some_elem_of in Hlast. rewrite Forall_forall in Hg. specialize (Hg _ Hlast).
    rewrite Forall_forall in Hl. specialize (Hl _ Hlast). unfold mm_before, mm_end in *. lia.
  - destruct mm as [|g' mm]; [set_solver|]. by apply IH.
Qed.

Section hasher.
(** [hashlib.sha256] over the rows of an embedding slice, the configured block
    hash function, and the seed of every chain. *)
Context (sha256 : list bytes → bytes).
Context (hash_function : hash_input → bytes).
Context (NONE_HASH : bytes).

Definition _gen_prompt_embeds_extra_hash_keys (r : Request) (start_tok end_tok : Z)
    : list extra_key * Request :=
  match prompt_embeds r with
  | None => ([], r)
  | Some embeds =>
      match prompt_embeds_hashes r !! (start_tok, end_tok) with
      | Some h => ([KeyBytes h], r)
      | None =>
          let h := sha256 (py_slice embeds start_tok end_tok) in
          ([KeyBytes h],
           set_prompt_embeds_hashes (<[(start_tok, end_tok) := h]> (prompt_embeds_hashes r)) r)
      end
  end.

Definition generate_block_hash_extra_keys (r : Request) (start_tok end_tok start_mm_idx : Z)
    : result (option (list extra_key) * Z * Request) :=
  '(mm_keys, new_idx) ← _gen_mm_extra_hash_keys r start_tok end_tok start_mm_idx;
  let lora_keys := _gen_lora_extra_hash_keys r in
  let salt_keys := cache_salt_keys r start_tok in
  let '(embed_keys, r) := _gen_prompt_embeds_extra_hash_keys r start_tok end_tok in
  match lora_keys ++ mm_keys ++ salt_keys ++ embed_keys with
  | [] => Ok (None, new_idx, r)
  | keys => Ok (Some keys, new_idx, r)
  end.

(** [not parent_block_hash] also holds of the empty bytes. *)
Definition hash_block_tokens (parent : option bytes) (tokens : list Z)
    (keys : option (list extra_key)) : bytes :=
  let parent := match parent with None | Some [] => NONE_HASH | Some p => p end in
  hash_function (parent, tokens, keys).

(** The [while True] loop of [request_block_hasher]. *)
Fixpoint hasher_loop (fuel : nat) (block_size : Z) (r : Request) (start_tok curr_mm_idx : Z)
    (prev : option bytes) (acc : list bytes) : result (list bytes * Request) :=
  match fuel with
  | O => Raise OutOfFuel
  | S fuel =>
      let end_tok := start_tok + block_size in
      if num_tokens r <? end_tok then Ok (acc, r) else
      '(keys, curr_mm_idx, r) ← generate_block_hash_extra_keys r start_tok end_tok curr_mm_idx;
      let h := hash_block_tokens prev (py_slice (all_token_ids r) start_tok end_tok) keys in
      hasher_loop fuel block_size r (start_tok + block_size) curr_mm_idx (Some h) (acc ++ [h])
  end.

(** [get_request_block_hasher(block_size, hash_function)] *)
Definition request_block_hasher (block_size : Z) : block_hasher := λ r,
  let start_tok := zlen (block_hashes r) * block_size in
  if num_tokens r <? start_tok + block_size then Ok ([], r) else
  let curr_mm_idx := if 0 <? start_tok then -1 else 0 in
  hasher_loop (S (Z.to_nat (num_tokens r - start_tok))) block_size r start_tok curr_mm_idx
    (last (block_hashes r)) [].

(** ** The reference: one chain over all full blocks *)

(** The keys of a block: the adapter, the inputs with a placeholder in it, the
    salt and the embeddings. *)
Definition block_keys (r : Request) (start_tok end_tok : Z) : option (list extra_key) :=
  match _gen_lora_extra_hash_keys r ++ mm_block_keys (mm_features r) start_tok end_tok ++
        cache_salt_keys r start_tok ++
        (match prompt_embeds r with
         | None => []
         | Some e => [KeyBytes (sha256 (py_slice e start_tok end_tok))]
         end) with
  | [] => None
  | keys => Some keys
  end.

(** Hashes of blocks [i .. i + n - 1], given the hash before them. *)
Fixpoint chain_from (bs : Z) (r : Request) (prev : option bytes) (i n : nat) : list bytes :=
  match n with
  | O => []
  | S n =>
      let s := Z.of_nat i * bs in
      let h := hash_block_tokens prev (py_slice (all_token_ids r) s (s + bs))
                 (block_keys r s (s + bs)) in
      h :: chain_from bs r (Some h) (S i) n
  end.

(** The hashes of all full blocks of the request. *)
Definition full_chain (bs : Z) (r : Request) : list bytes :=
  chain_from bs r None 0 (Z.to_nat (num_tokens r / bs)).

(** The memo only holds hashes of the request's own embedding slices. *)
Definition memo_ok (r : Request) : Prop := ∀ a b h,
  prompt_embeds_hashes r !! (a, b) = Some h →
  ∃ e, prompt_embeds r = Some e ∧ h = sha256 (py_slice e a b).

(** Equal up to the memo. *)
Definition same_but_memo (r r' : Request) : Prop :=
  set_prompt_embeds_hashes ∅ r' = set_prompt_embeds_hashes ∅ r.

Lemma same_but_memo_fields r r' :
  same_but_memo r r' →
  all_token_ids r' = all_token_ids r ∧ block_hashes r' = block_hashes r ∧
  lora_request r' = lora_request r ∧ cache_salt r' = cache_salt r ∧
  prompt_embeds r' = prompt_embeds r ∧ mm_features r' = mm_features r.
Proof.
  unfold same_but_memo, set_prompt_embeds_hashes. destruct r, r'. simpl. intros H.
  injection H. intros; subst. done.
Qed.

Lemma block_keys_ext r r' s e :
  lora_request r' = lora_request r → cache_salt r' = cache_salt r →
  prompt_embeds r' = prompt_embeds r → mm_features r' = mm_features r →
  block_keys r' s e = block_keys r s e.
Proof.
  intros Hl Hs He Hm. unfold block_keys, _gen_lora_extra_hash_keys, cache_salt_keys.
  by rewrite Hl, Hs, He, Hm.
Qed.

Lemma chain_from_ext bs r r' prev i n :
  (∀ s e, block_keys r' s e = block_keys r s e) →
  (∀ j, (i ≤ j < i + n)%nat → py_slice (all_token_ids r') (Z.of_nat j * bs) (Z.of_nat j * bs + bs) =
                              py_slice (all_token_ids r) (Z.of_nat j * bs) (Z.of_nat j * bs + bs)) →
  chain_from bs r' prev i n = chain_from bs r prev i n.
Proof.
  intros Hk. revert prev i. induction n as [|n IH]; intros prev i Ht; simpl; [done|].
  rewrite Hk, Ht by lia. f_equal. apply IH. intros j Hj. apply Ht. lia.
Qed.

Lemma chain_from_length bs r prev i n : length (chain_from bs r prev i n) = n.
Proof. revert prev i. induction n as [|n IH]; intros; simpl; [done|]. by rewrite IH. Qed.

Lemma chain_from_app bs r prev i n m :
  chain_from bs r prev i (n + m) =
  chain_from bs r prev i n ++
  chain_from bs r (match last (chain_from bs r prev i n) with Some h => Some h | None => prev end)
    (i + n) m.
Proof.
  revert prev i. induction n as [|n IH]; intros prev i; [simpl; by rewrite Nat.add_0_r|].
  cbn [chain_from Nat.add app]. f_equal. rewrite IH. f_equal.
  rewrite Nat.add_succ_comm. f_equal. rewrite last_cons.
  by destruct (last (chain_from _ _ _ _ _)).
Qed.

Lemma gen_mm_keys_spec r s e idx :
  mm_sorted (mm_features r) → idx_ok (mm_features r) idx s → s ≤ e →
  ∃ idx', _gen_mm_extra_hash_keys r s e idx = Ok (mm_block_keys (mm_features r) s e, idx') ∧
          idx_ok (mm_features r) idx' e.
Proof.
  intros Hs [Hi Hpre] Hse. unfold _gen_mm_extra_hash_keys.
  destruct (last (mm_features r)) as [lst|] eqn:El.
  2:{ apply last_None in El. exists idx. rewrite El in *. split; [done|]. split; [done|]. intros f. rewrite take_nil. set_solver. }
  assert (mm_features r ≠ []) as Hne by (by intros E; rewrite E in El).
  specialize (Hi Hne). fold (mm_end lst).
  destruct (Z.leb_spec (mm_end lst) s) as [Hle|Hlt].
  { exists idx. split.
    - unfold mm_block_keys. rewrite filter_none; [done|]. intros f Hf [_ ?].
      pose proof (mm_sorted_last _ _ _ Hs El Hf). lia.
    - split; [done|]. intros f Hf. specialize (Hpre f Hf). lia. }
  assert ((if idx <? 0 then _ ← py_assert (- idx <=? zlen (mm_features r));
             Ok (zlen (mm_features r) + idx) else Ok idx)
          = Ok (norm_idx (mm_features r) idx)) as ->.
  { unfold norm_idx in *. destruct (Z.ltb_spec idx 0); [|done].
    rewrite (proj2 (Z.leb_le _ _)) by lia. done. }
  cbn [mbind result_bind]. set (i := norm_idx (mm_features r) idx) in *.
  destruct (decide (i ≤ zlen (mm_features r))) as [Hin|Hout].
  - destruct (mm_keys_loop_spec (S (length (mm_features r))) (mm_features r) s e
      (take (Z.to_nat i) (mm_features r)) (drop (Z.to_nat i) (mm_features r)) [])
      as (pre' & suf' & E1 & E2 & E3); [|by apply mm_sorted_drop| | |done|].
    + by rewrite take_drop.
    + rewrite length_drop. lia.
    + apply Forall_forall. intros f Hf. specialize (Hpre f Hf). lia.
    + exists (zlen pre'). split.
      * assert (zlen (take (Z.to_nat i) (mm_features r)) = i) as Hz.
        { unfold zlen in *. rewrite length_take. lia. }
        rewrite Hz in E3. rewrite E3. f_equal. f_equal. unfold mm_block_keys.
        rewrite <-(take_drop (Z.to_nat i) (mm_features r)) at 2.
        rewrite filter_app, (filter_none _ (take _ _)); [done|].
        intros f Hf [_ ?]. specialize (Hpre f Hf). lia.
      * unfold idx_ok, norm_idx. pose proof (zlen_nonneg pre').
        rewrite (proj2 (Z.ltb_ge _ _)) by lia. split; [done|].
        rewrite E1. unfold zlen. rewrite Nat2Z.id, take_app_length.
        by apply Forall_forall.
  - exfalso. rewrite take_ge in Hpre by (unfold zlen in *; lia).
    apply last_Some_elem_of in El. specialize (Hpre _ El). lia.
Qed.

Lemma generate_keys_spec r s e idx :
  mm_sorted (mm_features r) → idx_ok (mm_features r) idx s → s ≤ e → memo_ok r →
  ∃ idx' r', generate_block_hash_extra_keys r s e idx = Ok (block_keys r s e, idx', r') ∧
        idx_ok (mm_features r) idx' e ∧ same_but_memo r r' ∧ memo_ok r'.
Proof.
  intros Hmm Hi Hse Hmemo. unfold generate_block_hash_extra_keys.
  destruct (gen_mm_keys_spec r s e idx Hmm Hi Hse) as (idx' & -> & Hi'). simpl.
  exists idx'. unfold block_keys, _gen_prompt_embeds_extra_hash_keys.
  destruct (prompt_embeds r) as [em|] eqn:He.
  2:{ exists r. by destruct (_ ++ _). }
  destruct (prompt_embeds_hashes r !! (s, e)) as [h|] eqn:Hh.
  - destruct (Hmemo _ _ _ Hh) as (em' & Hem & ->). simplify_eq.
    exists r. by destruct (_ ++ _).
  - eexists. split; [by destruct (_ ++ _)|]. split; [done|]. split; [by destruct r|].
    intros a b h. simpl. intros Hab.
    destruct (decide ((s, e) = (a, b))) as [[= -> ->]|Hne].
    + rewrite lookup_insert_eq in Hab. simplify_eq. eauto.
    + rewrite lookup_insert_ne in Hab by done. by apply Hmemo.
Qed.

#[local] Instance same_but_memo_refl : Reflexive same_but_memo.
Proof. by intros r. Qed.
#[local] Instance same_but_memo_trans : Transitive same_but_memo.
Proof. unfold same_but_memo. intros r1 r2 r3 H1 H2. congruence. Qed.

Lemma chain_from_memo bs r r' prev i n :
  same_but_memo r r' → chain_from bs r' prev i n = chain_from bs r prev i n.
Proof.
  intros (Ht & _ & Hl & Hs & He & Hm)%same_but_memo_fields.
  apply chain_from_ext; [intros; by apply block_keys_ext|]. intros. by rewrite Ht.
Qed.

Lemma hasher_loop_spec fuel bs r (i : nat) idx prev acc :
  0 < bs → mm_sorted (mm_features r) → memo_ok r → idx_ok (mm_features r) idx (Z.of_nat i * bs) →
  num_tokens r - Z.of_nat i * bs < Z.of_nat fuel → (0 < fuel)%nat →
  ∃ r', hasher_loop fuel bs r (Z.of_nat i * bs) idx prev acc =
          Ok (acc ++ chain_from bs r prev i (Z.to_nat (num_tokens r / bs) - i), r') ∧
        same_but_memo r r' ∧ memo_ok r'.
Proof.
  intros Hbs. revert r i idx prev acc.
  induction fuel as [|fuel IH]; intros r i idx prev acc Hmm Hmemo Hi Hf Hf0; [lia|].
  cbn [hasher_loop]. destruct (Z.ltb_spec (num_tokens r) (Z.of_nat i * bs + bs)) as [Hlt|Hge].
  - exists r. assert (Z.to_nat (num_tokens r / bs) - i = 0)%nat as ->.
    { enough (num_tokens r / bs < Z.of_nat i + 1) by lia. apply Z.div_lt_upper_bound; lia. }
    simpl. rewrite app_nil_r. done.
  - destruct (generate_keys_spec r (Z.of_nat i * bs) (Z.of_nat i * bs + bs) idx)
      as (idx' & r1 & -> & Hi' & Hsame & Hmemo1); [done..|lia|done|]. simpl.
    pose proof (same_but_memo_fields _ _ Hsame) as (Ht & _ & _ & _ & _ & Hm).
    replace (Z.of_nat i * bs + bs) with (Z.of_nat (S i) * bs) in * by lia.
    assert (num_tokens r1 = num_tokens r) as Hn by (unfold num_tokens; by rewrite Ht).
    edestruct (IH r1 (S i) idx') as (r2 & -> & Hs2 & Hm2);
      [by rewrite Hm|done|by rewrite Hm|rewrite Hn; lia|lia|].
    exists r2. split_and!; [|by trans r1|done].
    rewrite Hn, (chain_from_memo _ _ _ _ _ _ Hsame).
    assert (Z.of_nat (S i) ≤ num_tokens r / bs) by (apply Z.div_le_lower_bound; lia).
    replace (Z.to_nat (num_tokens r / bs) - i)%nat
      with (S (Z.to_nat (num_tokens r / bs) - S i)) by lia.
    cbn [chain_from]. rewrite <-app_assoc. simpl.
    replace (Z.of_nat i * bs + bs) with (Z.of_nat (S i) * bs) by lia. by rewrite Ht.
Qed.

(** ** Updating a request's hashes *)

(** All inputs but the last end within the blocks already hashed. *)
Definition mm_settled (bs : Z) (r : Request) : Prop :=
  ∀ f, f ∈ take (length (mm_features r) - 1) (mm_features r) →
       mm_end f ≤ zlen (block_hashes r) * bs.

Lemma same_but_memo_set r r' :
  same_but_memo r r' → r' = set_prompt_embeds_hashes (prompt_embeds_hashes r') r.
Proof.
  unfold same_but_memo, set_prompt_embeds_hashes. destruct r, r'. simpl. intros H.
  injection H. intros; subst. done.
Qed.

Lemma update_block_hashes_spec bs r k :
  0 < bs → mm_sorted (mm_features r) → memo_ok r →
  block_hashes r = chain_from bs r None 0 k → Z.of_nat k ≤ num_tokens r / bs →
  (k ≠ 0%nat → mm_settled bs r) →
  ∃ m, update_block_hashes (Some (request_block_hasher bs)) r =
         Ok (set_block_hashes (full_chain bs r) (set_prompt_embeds_hashes m r)) ∧
       memo_ok (set_prompt_embeds_hashes m r).
Proof.
  intros Hbs Hmm Hmemo Hk Hkn Hset. cbn [update_block_hashes]. unfold request_block_hasher.
  assert (length (block_hashes r) = k) as Hlen by (by rewrite Hk, chain_from_length).
  assert (zlen (block_hashes r) = Z.of_nat k) as Hz by (unfold zlen; by rewrite Hlen).
  rewrite Hz. destruct (Z.ltb_spec (num_tokens r) (Z.of_nat k * bs + bs)) as [Hlt|Hge].
  - exists (prompt_embeds_hashes r). simpl. rewrite app_nil_r.
    assert (num_tokens r / bs < Z.of_nat k + 1) by (apply Z.div_lt_upper_bound; lia).
    unfold full_chain. replace (Z.to_nat (num_tokens r / bs)) with k by lia.
    rewrite <-Hk. by destruct r.
  - edestruct (hasher_loop_spec (S (Z.to_nat (num_tokens r - Z.of_nat k * bs))) bs r k
      (if 0 <? Z.of_nat k * bs then -1 else 0) (last (block_hashes r)) [])
      as (r' & -> & Hs & Hm); [done..| |lia|lia|].
    + destruct k as [|k]; [simpl|rewrite (proj2 (Z.ltb_lt _ _)) by lia].
      * split; [done|]. intros f. rewrite take_0. set_solver.
      * specialize (Hset ltac:(done)). split.
        -- intros Hne. unfold norm_idx. simpl. destruct (mm_features r); [done|].
           rewrite zlen_cons. pose proof (zlen_nonneg l). lia.
        -- intros f. unfold norm_idx. simpl. intros Hf. rewrite <-Hz. apply Hset.
           replace (length (mm_features r) - 1)%nat with (Z.to_nat (zlen (mm_features r) + -1))
             by (unfold zlen; lia). done.
    + exists (prompt_embeds_hashes r'). apply same_but_memo_set in Hs as E.
      rewrite <-E. split; [|done]. simpl. f_equal. f_equal.
      apply same_but_memo_fields in Hs as (_ & -> & _). rewrite Hk. unfold full_chain.
      replace (Z.to_nat (num_tokens r / bs)) with (k + (Z.to_nat (num_tokens r / bs) - k))%nat at 2 by lia.
      rewrite chain_from_app. f_equal. simpl. by destruct (last _).
Qed.

(** Appending tokens keeps the full blocks and their hashes. *)
Lemma full_chain_append bs r r' k :
  0 < bs → (∀ s e, block_keys r' s e = block_keys r s e) →
  all_token_ids r `prefix_of` all_token_ids r' → Z.of_nat k ≤ num_tokens r / bs →
  chain_from bs r' None 0 k = chain_from bs r None 0 k.
Proof.
  intros Hbs Hk [l Ht] Hle. apply chain_from_ext; [done|]. intros j Hj.
  rewrite Ht, py_slice_app_l; [done|]. change (zlen (all_token_ids r)) with (num_tokens r).
  pose proof (Z.mul_div_le (num_tokens r) bs Hbs).
  assert (bs * (Z.of_nat j + 1) ≤ bs * (num_tokens r / bs)) by (apply Z.mul_le_mono_nonneg_l; lia).
  lia.
Qed.

(** The hash of block [j], by recursion on its position. *)
Fixpoint hash_at (bs : Z) (r : Request) (j : nat) : bytes :=
  let s := Z.of_nat j * bs in
  hash_block_tokens (match j with O => None | S j => Some (hash_at bs r j) end)
    (py_slice (all_token_ids r) s (s + bs)) (block_keys r s (s + bs)).

Lemma chain_from_hash_at bs r i n :
  chain_from bs r (match i with O => None | S j => Some (hash_at bs r j) end) i n =
  hash_at bs r <$> seq i n.
Proof.
  revert i. induction n as [|n IH]; intros i; [done|]. cbn [chain_from seq]. csimpl.
  rewrite <-IH. f_equal; destruct i; reflexivity.
Qed.

Lemma full_chain_lookup bs r j h :
  full_chain bs r !! j = Some h ↔ (j < Z.to_nat (num_tokens r / bs))%nat ∧ h = hash_at bs r j.
Proof.
  unfold full_chain. rewrite (chain_from_hash_at bs r 0), list_lookup_fmap, fmap_Some.
  setoid_rewrite lookup_seq. naive_solver.
Qed.

Section collision_free.
Context `{!Inj (=) (=) hash_function}.
Context (Hnonempty : ∀ x, hash_function x ≠ []).
Context (Hseed : ∀ x, hash_function x ≠ NONE_HASH).

Lemma hash_block_tokens_inj p1 p2 t1 t2 k1 k2 :
  (∀ p, p1 = Some p → ∃ x, p = hash_function x) → (∀ p, p2 = Some p → ∃ x, p = hash_function x) →
  hash_block_tokens p1 t1 k1 = hash_block_tokens p2 t2 k2 → p1 = p2 ∧ t1 = t2 ∧ k1 = k2.
Proof.
  intros Hp1 Hp2. unfold hash_block_tokens. intros E%(inj hash_function). simplify_eq.
  split; [|done].
  destruct p1 as [q1|], p2 as [q2|]; try done;
    (try destruct (Hp1 _ eq_refl) as [x1 E1]); (try destruct (Hp2 _ eq_refl) as [x2 E2]);
    (try pose proof (Hnonempty x1)); (try pose proof (Hnonempty x2));
    (try pose proof (Hseed x1)); (try pose proof (Hseed x2));
    (try destruct q1 as [|??]); (try destruct q2 as [|??]); congruence.
Qed.

Lemma hash_at_ext bs r1 r2 i :
  (∀ b, (b ≤ i)%nat →
    let s := Z.of_nat b * bs in
    py_slice (all_token_ids r1) s (s + bs) = py_slice (all_token_ids r2) s (s + bs) ∧
    block_keys r1 s (s + bs) = block_keys r2 s (s + bs)) →
  hash_at bs r1 i = hash_at bs r2 i.
Proof.
  induction i as [|i IH]; intros Hall; cbn [hash_at];
    edestruct Hall as [-> ->]; [done| |done|]; [done|].
  by rewrite IH by (intros; apply Hall; lia).
Qed.

Lemma hash_at_is_hash bs r j : ∃ x, hash_at bs r j = hash_function x.
Proof. destruct j; eexists; reflexivity. Qed.

Lemma hash_at_inj bs r1 r2 i j :
  hash_at bs r1 i = hash_at bs r2 j →
  i = j ∧ ∀ b, (b ≤ i)%nat →
    let s := Z.of_nat b * bs in
    py_slice (all_token_ids r1) s (s + bs) = py_slice (all_token_ids r2) s (s + bs) ∧
    block_keys r1 s (s + bs) = block_keys r2 s (s + bs).
Proof.
  revert j. induction i as [|i IH]; intros j E;
    (destruct j as [|j]; cbn [hash_at] in E; apply hash_block_tokens_inj in E as (Hp & Ht & Hk);
     try (intros ? [=]; subst; apply hash_at_is_hash)).
  all: try done.
  - split; [done|]. intros b Hb. assert (b = 0%nat) as -> by lia. done.
  - simplify_eq. destruct (IH j Hp) as [-> Hall]. split; [done|]. intros b Hb.
    destruct (decide (b = S j)) as [->|]; [done|]. apply Hall. lia.
Qed.
End collision_free.
End hasher.

(** ** The hashes of a request *)

(** The request's hash list is the reference chain of all its full blocks. *)
Definition hashed (sha256 : list bytes → bytes) (hash_function : hash_input → bytes)
    (NONE_HASH : bytes) (bs : Z) (r : Request) : Prop :=
  memo_ok sha256 r ∧ block_hashes r = full_chain sha256 hash_function NONE_HASH bs r.

Lemma take_slices (l1 l2 : list Z) (bs : Z) (n : nat) :
  0 < bs →
  (∀ b, (b < n)%nat → py_slice l1 (Z.of_nat b * bs) (Z.of_nat b * bs + bs) =
                      py_slice l2 (Z.of_nat b * bs) (Z.of_nat b * bs + bs)) →
  take (n * Z.to_nat bs) l1 = take (n * Z.to_nat bs) l2.
Proof.
  intros Hbs. induction n as [|n IH]; intros Hs; [done|].
  replace (S n * Z.to_nat bs)%nat with (n * Z.to_nat bs + Z.to_nat bs)%nat by lia.
  rewrite <-!take_take_drop, IH by (intros; apply Hs; lia). f_equal.
  specialize (Hs n ltac:(lia)). unfold py_slice in Hs.
  replace (Z.to_nat (Z.of_nat n * bs + bs) - Z.to_nat (Z.of_nat n * bs))%nat
    with (Z.to_nat bs) in Hs by lia.
  replace (Z.to_nat (Z.of_nat n * bs)) with (n * Z.to_nat bs)%nat in Hs by lia. done.
Qed.

Lemma py_slice_take (l : list Z) (b e n : Z) : 0 ≤ e ≤ n → py_slice (take (Z.to_nat n) l) b e = py_slice l b e.
Proof. intros He. unfold py_slice. rewrite skipn_firstn_comm, take_take. f_equal. lia. Qed.

(** A collision-free block hash: the bits of an encoding of the input. *)
Module ToyHash.
Fixpoint bits (p : positive) : bytes :=
  match p with xH => [1] | xO p => 0 :: bits p | xI p => 1 :: bits p end.

Definition extra_key_code (k : extra_key) : string + string * Z + bytes :=
  match k with KeyStr s => inl (inl s) | KeyMM i o => inl (inr (i, o)) | KeyBytes b => inr b end.

Definition hash (x : hash_input) : bytes :=
  bits (encode (x.1.1, x.1.2, fmap (M:=option) (fmap extra_key_code) x.2)).

Lemma bits_nonempty p : bits p ≠ [].
Proof. by destruct p. Qed.

Lemma bits_inj p q : bits p = bits q → p = q.
Proof.
  revert q. induction p as [p IH|p IH|]; intros [q|q|]; simpl; intros E; simplify_eq; try done.
  - f_equal. by apply IH.
  - by destruct (bits_nonempty p).
  - f_equal. by apply IH.
  - by destruct (bits_nonempty q).
Qed.

Lemma bits_last p : bits p ≠ [0].
Proof. destruct p as [p|p|]; simpl; intros E; simplify_eq. by destruct (bits_nonempty p). Qed.

#[export] Instance extra_key_code_inj : Inj (=) (=) extra_key_code.
Proof. intros [] [] E; simpl in E; by simplify_eq. Qed.

#[export] Instance hash_inj : Inj (=) (=) hash.
Proof.
  intros [[p1 t1] k1] [[p2 t2] k2] E. apply bits_inj, (inj encode) in E. simpl in E.
  injection E as -> -> E.
  assert (Inj (=) (=) (fmap (M:=option) (fmap (M:=list) extra_key_code))) by apply _.
  by apply (inj (fmap (M:=option) (fmap (M:=list) extra_key_code))) in E as ->.
Qed.
End ToyHash.

(** Constructing a request computes the hash of every full block of its
    prompt: for inputs in prompt order the hash list is the reference chain, in
    which each block's keys name exactly the inputs with a placeholder in the
    block. *)
Theorem new_request_hashed sha256 hf seed bs id addr prompt sp pp client arrival embeds mm lora salt
    prio structured resum abort r0 :
  0 < bs → mm_sorted mm →
  new_request None id addr prompt sp pp client arrival embeds mm lora salt prio structured resum abort
    = Ok r0 →
  ∃ r, new_request (Some (request_block_hasher sha256 hf seed bs)) id addr prompt sp pp client arrival
         embeds mm lora salt prio structured resum abort = Ok r ∧
       hashed sha256 hf seed bs r ∧ all_token_ids r = all_token_ids r0 ∧
       block_keys sha256 r = block_keys sha256 r0 ∧ mm_features r = mm.
Proof.
  intros Hbs Hmm. unfold new_request.
  destruct (match pp with Some _ => _ | None => _ end) as [[maxt st]|]; [|done]. cbn [mbind result_bind].
  destruct (length_from_prompt_token_ids_or_embeds prompt embeds) as [n|]; [|done].
  cbn [mbind result_bind]. intros [= <-].
  set (r1 := mkRequest _ _ _ _ _ _ _ _ _ _ _ _ _ _ _ _ _ _ _ _ _ _ _ _ _ _ _ _ _ _ _ _).
  destruct (update_block_hashes_spec sha256 hf seed bs r1 0) as (m & -> & Hm); try done.
  { apply Z.div_pos; [|done]. apply zlen_nonneg. }
  cbn [mbind result_bind]. eexists. split; [reflexivity|]. split; [|done]. split.
  - intros a b h. apply Hm.
  - cbn [block_hashes set_block_hashes]. unfold full_chain.
    change (num_tokens (mkRequest _ _ _ _ _ _ _ _ _ _ _ _ _ _ _ _ _ _ _ _ _ _ _ _ _ _ _ _ _ _ _ _))
      with (num_tokens r1).
    symmetry. apply chain_from_ext; done.
Qed.

(** Appending generated tokens hashes the newly completed blocks only, and
    the result is what hashing the whole sequence from scratch gives, as long as
    no block was hashed before or every multi-modal input but the last ends
    within the blocks hashed before; the hashes computed earlier stay. *)
Theorem append_output_hashed sha256 hf seed bs r toks :
  0 < bs → mm_sorted (mm_features r) → hashed sha256 hf seed bs r →
  (block_hashes r ≠ [] → mm_settled bs r) →
  ∃ r', append_output_token_ids (Some (request_block_hasher sha256 hf seed bs)) toks r = Ok r' ∧
        hashed sha256 hf seed bs r' ∧ all_token_ids r' = all_token_ids r ++ toks ∧
        block_hashes r `prefix_of` block_hashes r' ∧ mm_features r' = mm_features r.
Proof.
  intros Hbs Hmm [Hmemo Hh] Hset. unfold append_output_token_ids.
  set (r1 := set_all_token_ids _ _).
  assert (Z.of_nat (Z.to_nat (num_tokens r / bs)) ≤ num_tokens r1 / bs) as Hle.
  { pose proof (Z.div_pos (num_tokens r) bs (zlen_nonneg _) Hbs). rewrite Z2Nat.id by lia.
    apply Z.div_le_mono; [done|]. unfold num_tokens. simpl. rewrite zlen_app.
    pose proof (zlen_nonneg toks). lia. }
  assert (chain_from sha256 hf seed bs r1 None 0 (Z.to_nat (num_tokens r / bs)) = block_hashes r) as Hpre.
  { rewrite Hh. apply full_chain_append; [done|done|by apply prefix_app_r|].
    rewrite Z2Nat.id; [done|]. apply Z.div_pos; [apply zlen_nonneg|done]. }
  destruct (update_block_hashes_spec sha256 hf seed bs r1 (Z.to_nat (num_tokens r / bs)))
    as (m & -> & Hm); try done.
  { intros Hk. apply Hset. rewrite Hh. intros E%(f_equal length). unfold full_chain in E.
    rewrite chain_from_length in E. done. }
  exists (set_block_hashes (full_chain sha256 hf seed bs r1) (set_prompt_embeds_hashes m r1)).
  split; [done|]. split; [split|split; [done|split; [|done]]].
  - intros a b h. apply Hm.
  - symmetry. apply chain_from_ext; done.
  - simpl. rewrite <-Hpre. unfold full_chain.
    replace (Z.to_nat (num_tokens r1 / bs)) with
      (Z.to_nat (num_tokens r / bs) + (Z.to_nat (num_tokens r1 / bs) - Z.to_nat (num_tokens r / bs)))%nat
      by lia.
    rewrite chain_from_app. by apply prefix_app_r.
Qed.

(** The fields of a request the hasher reads or writes. *)
Definition hash_fields (r : Request) :=
  (all_token_ids r, block_hashes r, prompt_embeds_hashes r,
   (lora_request r, cache_salt r, prompt_embeds r, mm_features r)).

(** The requests the code can get to with the hasher installed: a request is
    constructed from inputs in prompt order, generated tokens are appended, and
    any other field may change in between.  Tokens are appended before the first
    block is full or once all inputs but the last lie in hashed blocks. *)
Inductive hasher_run (hasher : block_hasher) (bs : Z) : Request → Prop :=
  | run_new id addr prompt sp pp client arrival embeds mm lora salt prio structured resum abort r :
      mm_sorted mm →
      new_request (Some hasher) id addr prompt sp pp client arrival embeds mm lora salt prio structured
        resum abort = Ok r →
      hasher_run hasher bs r
  | run_append r toks r' :
      hasher_run hasher bs r → (block_hashes r ≠ [] → mm_settled bs r) →
      append_output_token_ids (Some hasher) toks r = Ok r' →
      hasher_run hasher bs r'
  | run_other r r' :
      hasher_run hasher bs r → hash_fields r' = hash_fields r → hasher_run hasher bs r'.

Lemma new_request_base hasher id addr prompt sp pp client arrival embeds mm lora salt prio structured
    resum abort r :
  new_request (Some hasher) id addr prompt sp pp client arrival embeds mm lora salt prio structured
    resum abort = Ok r →
  ∃ r0, new_request None id addr prompt sp pp client arrival embeds mm lora salt prio structured
          resum abort = Ok r0.
Proof.
  unfold new_request. destruct (match pp with Some _ => _ | None => _ end) as [[maxt st]|]; [|done].
  cbn [mbind result_bind].
  destruct (length_from_prompt_token_ids_or_embeds prompt embeds) as [n|]; [|done].
  cbn [mbind result_bind]. eauto.
Qed.

Lemma hashed_fields sha256 hf seed bs r r' :
  hash_fields r' = hash_fields r → hashed sha256 hf seed bs r → hashed sha256 hf seed bs r'.
Proof.
  unfold hash_fields. intros E [Hm Hh]. injection E as Et Eh Em El Es Ee Ef. split.
  - intros a b h. rewrite Em, Ee. apply Hm.
  - rewrite Eh, Hh. symmetry. unfold full_chain, num_tokens. rewrite Et.
    apply chain_from_ext; [intros; by apply block_keys_ext|]. intros. by rewrite Et.
Qed.

Section runs.
Context (sha256 : list bytes → bytes) (hf : hash_input → bytes) (seed : bytes) (bs : Z).
Context (Hbs : 0 < bs).
Abbreviation hasher := (request_block_hasher sha256 hf seed bs).

Lemma hasher_run_hashed r :
  hasher_run hasher bs r → hashed sha256 hf seed bs r ∧ mm_sorted (mm_features r).
Proof.
  induction 1 as [id addr prompt sp pp client arrival embeds mm lora salt prio structured resum abort r Hmm E
    |r toks r' _ [Hh Hmm] Hset E|r r' _ [Hh Hmm] E].
  - destruct (new_request_base _ _ _ _ _ _ _ _ _ _ _ _ _ _ _ _ _ E) as [r0 E0].
    edestruct (new_request_hashed sha256 hf seed bs) as (r' & E' & Hh & _ & _ & Hf);
      [exact Hbs|exact Hmm|exact E0|].
    rewrite E in E'. injection E' as <-. by rewrite Hf.
  - edestruct (append_output_hashed sha256 hf seed bs r toks) as (r1 & E' & Hh1 & _ & _ & Hf); [done..|].
    rewrite E in E'. injection E' as <-. by rewrite Hf.
  - split; [by eapply hashed_fields|]. by injection E as _ _ _ _ _ _ ->.
Qed.
End runs.

(** C35: take requests the hasher has run over with inputs in prompt order:
    constructed, then extended with generated tokens any number of times, each
    time either before the first block is full or with every multi-modal input
    but the last inside the blocks already hashed (otherwise an input can be
    missing from a hash, see [first_image_not_hashed]; a streaming session's next
    prompt is not such an extension).  Every full block of such a request has a
    hash, appending never fails, and with a collision-free hash function (whose
    values are neither empty nor the seed of the chain) two block hashes are equal exactly when the blocks have the same position, the
    same tokens up to their end and the same extra keys (adapter, salt,
    multi-modal inputs, embeddings) in every block of that prefix. *)
Theorem block_hash_identifies_prefix sha256 hf seed bs r1 r2 :
  let hasher := request_block_hasher sha256 hf seed bs in
  0 < bs → Inj (=) (=) hf → (∀ x, hf x ≠ []) → (∀ x, hf x ≠ seed) →
  hasher_run hasher bs r1 → hasher_run hasher bs r2 →
  zlen (block_hashes r1) = num_tokens r1 / bs ∧
  (∀ toks, (block_hashes r1 ≠ [] → mm_settled bs r1) →
     ∃ r, append_output_token_ids (Some hasher) toks r1 = Ok r ∧
          block_hashes r1 `prefix_of` block_hashes r) ∧
  ∀ i j h1 h2, block_hashes r1 !! i = Some h1 → block_hashes r2 !! j = Some h2 →
    h1 = h2 ↔
    i = j ∧
    take ((i + 1) * Z.to_nat bs) (all_token_ids r1) = take ((i + 1) * Z.to_nat bs) (all_token_ids r2) ∧
    ∀ b, (b ≤ i)%nat → block_keys sha256 r1 (Z.of_nat b * bs) (Z.of_nat b * bs + bs) =
                       block_keys sha256 r2 (Z.of_nat b * bs) (Z.of_nat b * bs + bs).
Proof.
  intros hasher Hbs Hinj Hne Hseed R1 R2.
  destruct (hasher_run_hashed _ _ _ _ Hbs _ R1) as [[Hm1 H1] Hs1].
  destruct (hasher_run_hashed _ _ _ _ Hbs _ R2) as [[_ H2] _]. split_and!.
  - rewrite H1. unfold full_chain, zlen. rewrite chain_from_length, Z2Nat.id; [done|].
    apply Z.div_pos; [apply zlen_nonneg|done].
  - intros toks Hset. edestruct (append_output_hashed sha256 hf seed bs r1 toks)
      as (r & E & _ & _ & Hp & _); [done..|]. eauto.
  - intros i j h1 h2. rewrite H1, H2, !full_chain_lookup. intros [_ ->] [_ ->]. split.
    + intros E. destruct (hash_at_inj sha256 hf seed Hne Hseed _ _ _ _ _ E) as [-> Hall].
      split; [done|]. split; [|intros b Hb; by apply Hall].
      apply take_slices; [done|]. intros b Hb. apply Hall. lia.
    + intros (<- & Ht & Hk). apply hash_at_ext. intros b Hb. split; [|by apply Hk].
      replace ((i + 1) * Z.to_nat bs)%nat with (Z.to_nat ((Z.of_nat i + 1) * bs)) in Ht by lia.
      rewrite <-(py_slice_take (all_token_ids r1) _ _ ((Z.of_nat i + 1) * bs)), Ht by nia.
      apply py_slice_take. nia.
Qed.

(** A request whose second block holds two one-token images, [a] and ["B"]; the
    block is completed by two generated tokens. *)
Definition two_image_request (hasher : block_hasher) (a : string) : result Request :=
  new_request (Some hasher) "r" 0 (Some [1; 2; 3; 4; 9; 9])
    (Some (mkSampling (Some 16) 0 None [] None None)) None 0 0 None
    [mkMMFeature a (mkPlaceholder 4 1 None); mkMMFeature "B" (mkPlaceholder 5 1 None)]
    None None 0 false false false.

(** When the partly filled last prompt block holds two inputs, completing it
    with generated tokens leaves the first input out of its hash: two requests
    with different images get the same block hashes whatever the hash function,
    although the keys of the block differ. *)
Theorem first_image_not_hashed sha256 hf seed :
  let hasher := request_block_hasher sha256 hf seed 4 in
  ∃ ra rc,
    (r ← two_image_request hasher "A"; append_output_token_ids (Some hasher) [7; 7] r) = Ok ra ∧
    (r ← two_image_request hasher "C"; append_output_token_ids (Some hasher) [7; 7] r) = Ok rc ∧
    block_hashes ra = block_hashes rc ∧ length (block_hashes ra) = 2%nat ∧
    block_keys sha256 ra 4 8 ≠ block_keys sha256 rc 4 8.
Proof. vm_compute. do 2 eexists. do 4 (split; [reflexivity|]). intros E. discriminate E. Qed.

(** ** Concrete instances *)

Definition demo_sampling : SamplingParams := mkSampling (Some 16) 0 None [] None None.

Definition demo_base : Request :=
  mkRequest "r" 0 0 0 0 (Some demo_sampling) None None false WAITING None 16 (Some [1; 2; 3; 4; 9])
    None ∅ 5 [] [1; 2; 3; 4; 9] 0 0 0 0 [] 0 (Some "salt"%string)
    [mkMMFeature "A" (mkPlaceholder 1 1 None); mkMMFeature "B" (mkPlaceholder 4 1 None)]
    false 0 [] false false false.

Definition demo_sha : list bytes → bytes := λ rows, concat rows.

Definition demo_request : Request :=
  set_block_hashes (full_chain demo_sha ToyHash.hash [0] 2 demo_base) demo_base.

Lemma demo_mm_sorted : mm_sorted (mm_features demo_base).
Proof. split; repeat constructor; unfold mm_before; vm_compute; done. Qed.

Lemma demo_hashed : hashed demo_sha ToyHash.hash [0] 2 demo_request.
Proof. split; [by intros a b h|]. symmetry. by apply chain_from_ext. Qed.

Lemma new_request_hashed_witness :
  ∃ r0, new_request None "r" 0 (Some [1; 2; 3; 4; 9]) (Some demo_sampling) None 0 0 None
          (mm_features demo_base) None (Some "salt"%string) 0 false false false = Ok r0 ∧
  ∃ r, new_request (Some (request_block_hasher demo_sha ToyHash.hash [0] 2)) "r" 0
         (Some [1; 2; 3; 4; 9]) (Some demo_sampling) None 0 0 None
         (mm_features demo_base) None (Some "salt"%string) 0 false false false = Ok r ∧
       hashed demo_sha ToyHash.hash [0] 2 r ∧ all_token_ids r = all_token_ids r0 ∧
       block_keys demo_sha r = block_keys demo_sha r0 ∧ mm_features r = mm_features demo_base.
Proof.
  eexists. split; [reflexivity|].
  apply new_request_hashed; [lia|apply demo_mm_sorted|reflexivity].
Defined.

Lemma append_output_hashed_witness :
  ∃ r', append_output_token_ids (Some (request_block_hasher demo_sha ToyHash.hash [0] 2)) [7; 8]
          demo_request = Ok r' ∧
        hashed demo_sha ToyHash.hash [0] 2 r' ∧ all_token_ids r' = all_token_ids demo_request ++ [7; 8] ∧
        block_hashes demo_request `prefix_of` block_hashes r' ∧
        mm_features r' = mm_features demo_request.
Proof.
  apply append_output_hashed; [lia|apply demo_mm_sorted|apply demo_hashed|].
  intros _ f Hf. apply list_elem_of_singleton in Hf. subst f. vm_compute. discriminate.
Defined.


Abbreviation demo_hasher := (request_block_hasher demo_sha ToyHash.hash [0] 2).

(** A request with the salt and the images of [demo_base], the first one [a]. *)
Definition demo_new (a : string) (prompt : list Z) : result Request :=
  new_request (Some demo_hasher) "r" 0 (Some prompt)
    (Some demo_sampling) None 0 0 None
    [mkMMFeature a (mkPlaceholder 1 1 None); mkMMFeature "B" (mkPlaceholder 4 1 None)]
    None (Some "salt"%string) 0 false false false.

Lemma demo_new_run a prompt r : demo_new a prompt = Ok r → hasher_run demo_hasher 2 r.
Proof. apply run_new. split; repeat constructor; unfold mm_before; vm_compute; done. Qed.

Definition demo_extended : result Request :=
  r ← demo_new "A" [1; 2; 3; 4; 9]; append_output_token_ids (Some demo_hasher) [7; 8] r.

Definition hash_nth (res : result Request) (i : nat) : option bytes :=
  match res with Ok r => block_hashes r !! i | Raise _ => None end.

Lemma demo_extended_run r : demo_extended = Ok r → hasher_run demo_hasher 2 r.
Proof.
  unfold demo_extended. destruct (demo_new "A" [1; 2; 3; 4; 9]) as [r0|] eqn:E0; [|done].
  cbn [mbind result_bind]. intros E. apply (run_append _ _ r0 [7; 8] r); [by eapply demo_new_run| |done].
  intros _ f Hf.
  assert (match demo_new "A" [1; 2; 3; 4; 9] with
          | Ok r => bool_decide (Forall (λ f, mm_end f ≤ zlen (block_hashes r) * 2)
                      (take (length (mm_features r) - 1) (mm_features r)))
          | Raise _ => true end = true) as H by (vm_compute; reflexivity).
  rewrite E0 in H. apply bool_decide_eq_true in H. by apply (proj1 (Forall_forall _ _) H).
Qed.

(** The third block of a request whose last tokens were generated has the hash
    it gets in a prompt with the same tokens and images; another first image
    gives the first block another hash. *)
Lemma block_hash_identifies_prefix_witness :
  ∃ r1 r2 r3 h h1 h3,
    demo_extended = Ok r1 ∧ demo_new "A" [1; 2; 3; 4; 9; 7] = Ok r2 ∧
    demo_new "C" [1; 2; 3; 4; 9; 7] = Ok r3 ∧
    block_hashes r1 !! 2%nat = Some h ∧ block_hashes r2 !! 2%nat = Some h ∧
    take 6 (all_token_ids r1) = take 6 (all_token_ids r2) ∧
    block_keys demo_sha r1 0 2 = block_keys demo_sha r2 0 2 ∧
    block_hashes r1 !! 0%nat = Some h1 ∧ block_hashes r3 !! 0%nat = Some h3 ∧ h1 ≠ h3.
Proof.
  assert (bool_decide (hash_nth demo_extended 2 = hash_nth (demo_new "A" [1; 2; 3; 4; 9; 7]) 2 ∧
            is_Some (hash_nth demo_extended 2) ∧ is_Some (hash_nth demo_extended 0) ∧
            is_Some (hash_nth (demo_new "C" [1; 2; 3; 4; 9; 7]) 0)) = true) as H
    by (vm_compute; reflexivity).
  apply bool_decide_eq_true in H as (Heq & [h Hh] & [h1 Hh1] & [h3 Hh3]).
  assert (match demo_extended, demo_new "C" [1; 2; 3; 4; 9; 7] with
          | Ok r1, Ok r3 => bool_decide (block_keys demo_sha r1 0 2 = block_keys demo_sha r3 0 2)
          | _, _ => true end = false) as Hk by (vm_compute; reflexivity).
  destruct demo_extended as [r1|] eqn:E1; [|discriminate Hh].
  destruct (demo_new "A" [1; 2; 3; 4; 9; 7]) as [r2|] eqn:E2; [|rewrite Hh in Heq; discriminate Heq].
  destruct (demo_new "C" [1; 2; 3; 4; 9; 7]) as [r3|] eqn:E3; [|discriminate Hh3].
  cbn [hash_nth] in *. rewrite Hh in Heq. apply bool_decide_eq_false in Hk.
  pose proof (block_hash_identifies_prefix demo_sha ToyHash.hash [0] 2 r1 r2 ltac:(lia) ToyHash.hash_inj
    ltac:(intros x; apply ToyHash.bits_nonempty) ltac:(intros x; apply ToyHash.bits_last)
    (demo_extended_run _ E1) (demo_new_run _ _ _ E2)) as (_ & _ & H12).
  pose proof (block_hash_identifies_prefix demo_sha ToyHash.hash [0] 2 r1 r3 ltac:(lia) ToyHash.hash_inj
    ltac:(intros x; apply ToyHash.bits_nonempty) ltac:(intros x; apply ToyHash.bits_last)
    (demo_extended_run _ E1) (demo_new_run _ _ _ E3)) as (_ & _ & H13).
  destruct (proj1 (H12 2%nat 2%nat h h Hh (eq_sym Heq)) eq_refl) as (_ & Ht & Hkeys).
  exists r1, r2, r3, h, h1, h3. split_and!; [done..|exact Ht|exact (Hkeys 0%nat ltac:(lia))|done|done|].
  intros E. apply Hk. destruct (proj1 (H13 0%nat 0%nat h1 h3 Hh1 Hh3) E) as (_ & _ & Hkeys3).
  exact (Hkeys3 0%nat ltac:(lia)).
Defined.
