(* ===== verification/BlockHashList.v ===== *)
(** * Hash lists at a coarser block size

    [BlockHashListWithBlockSize] of [vllm/v1/core/kv_cache_utils.py]: hashes
    computed every [hash_block_size] tokens, read as the hashes of blocks of
    [target_block_size] tokens by joining consecutive ones.  [BlockHashList] is
    either a plain list or such a view. *)

From S2P Require Import Prelude KVBlock.

#[local] Open Scope Z_scope.

Inductive BlockHashList :=
  | PlainHashes (l : list bytes)
  | ScaledHashes (l : list bytes) (scale_factor : Z).

(** The constructor; Python's [%] by zero raises. *)
Definition BlockHashListWithBlockSize (l : list bytes) (hash_block_size target_block_size : Z)
    : result BlockHashList :=
  if hash_block_size =? 0 then Raise ZeroDivisionError else
  _ ← py_assert (target_block_size mod hash_block_size =? 0);
  Ok (ScaledHashes l (target_block_size / hash_block_size)).

(** [b"".join(self.block_hashes[base:end])]: never raises, a view past the end
    gives a shorter join. *)
Definition _get_value_at (l : list bytes) (scale idx : Z) : bytes :=
  let base := idx * scale in
  concat (py_slice l base (base + scale)).

Definition bhl_len (hs : BlockHashList) : Z :=
  match hs with PlainHashes l => zlen l | ScaledHashes l s => zlen l / s end.

(** [hs[idx]] for a non-negative index. *)
Definition bhl_get (hs : BlockHashList) (idx : Z) : result bytes :=
  match hs with
  | PlainHashes l => py_index l idx
  | ScaledHashes l s => Ok (_get_value_at l s idx)
  end.

(** [hs[start:]] for a non-negative start; [slice.indices] clips it to the length. *)
Definition bhl_from (hs : BlockHashList) (start : Z) : list bytes :=
  match hs with
  | PlainHashes l => drop (Z.to_nat start) l
  | ScaledHashes l s => _get_value_at l s <$> py_range (Z.min start (bhl_len hs)) (bhl_len hs)
  end.

(** [iter(hs)] *)
Definition bhl_list (hs : BlockHashList) : list bytes := bhl_from hs 0.

(** ** Facts *)

Lemma py_range_lookup a b i :
  py_range a b !! i = if decide (Z.of_nat i < b - a) then Some (a + Z.of_nat i) else None.
Proof.
  unfold py_range. rewrite list_lookup_fmap. case_decide.
  - by rewrite lookup_seq_lt by lia.
  - by rewrite lookup_seq_ge by lia.
Qed.

(** A slice reads the same hashes as single accesses. *)
Lemma bhl_from_lookup hs a i h :
  0 ≤ a → bhl_from hs a !! i = Some h →
  a + Z.of_nat i < bhl_len hs ∧ bhl_get hs (a + Z.of_nat i) = Ok h.
Proof.
  intros Ha. destruct hs as [l|l s]; simpl.
  - rewrite lookup_drop. intros Hl. unfold py_index.
    replace (Z.to_nat (a + Z.of_nat i)) with (Z.to_nat a + i)%nat by lia. rewrite Hl.
    apply lookup_lt_Some in Hl. unfold zlen. split; [lia|done].
  - rewrite list_lookup_fmap, py_range_lookup. case_decide as Hi; [|done].
    simpl. intros [= <-]. destruct (decide (a ≤ zlen l / s)).
    + rewrite Z.min_l in Hi |- * by done. split; [lia|done].
    + rewrite Z.min_r in Hi by lia. lia.
Qed.

Lemma bhl_from_is_Some hs a (i : nat) :
  0 ≤ a → a + Z.of_nat i < bhl_len hs → is_Some (bhl_from hs a !! i).
Proof.
  intros Ha Hi. destruct hs as [l|l s]; simpl in *.
  - rewrite lookup_drop. apply lookup_lt_is_Some. unfold zlen in Hi. lia.
  - rewrite list_lookup_fmap, py_range_lookup, Z.min_l by lia. by rewrite decide_True by lia.
Qed.

(** Joining hashes of one length loses nothing. *)
Lemma concat_inj_length (n : nat) (l1 l2 : list bytes) :
  Forall (λ h, length h = n) l1 → Forall (λ h, length h = n) l2 → length l1 = length l2 →
  concat l1 = concat l2 → l1 = l2.
Proof.
  revert l2. induction l1 as [|h1 l1 IH]; intros [|h2 l2]; try done.
  intros [Hh1 H1]%Forall_cons [Hh2 H2]%Forall_cons [= Hl] [= E]. simpl in E.
  apply app_inj_1 in E as [-> E]; [|by rewrite Hh1]. f_equal. by apply IH.
Qed.

(** The coarse view is consistent and loses nothing: for full blocks, two
    hashes of one digest length at the target block size are equal exactly when
    all the fine-grained hashes they join are equal. *)
Theorem scaled_hash_injective (n : nat) l1 l2 hbs tbs hs1 hs2 i j :
  0 < hbs → 0 < tbs →
  Forall (λ h, length h = n) l1 → Forall (λ h, length h = n) l2 →
  BlockHashListWithBlockSize l1 hbs tbs = Ok hs1 → BlockHashListWithBlockSize l2 hbs tbs = Ok hs2 →
  0 ≤ i < bhl_len hs1 → 0 ≤ j < bhl_len hs2 →
  bhl_get hs1 i = bhl_get hs2 j ↔
  py_slice l1 (i * (tbs / hbs)) (i * (tbs / hbs) + tbs / hbs) =
  py_slice l2 (j * (tbs / hbs)) (j * (tbs / hbs) + tbs / hbs).
Proof.
  intros Hh Ht H1 H2. unfold BlockHashListWithBlockSize.
  rewrite (proj2 (Z.eqb_neq hbs 0)) by lia.
  destruct (Z.eqb_spec (tbs mod hbs) 0) as [Hm|]; [|done]. simpl. intros [= <-] [= <-]. simpl.
  set (s := tbs / hbs). intros Hi Hj.
  assert (0 < s) as Hs.
  { apply Z.mod_divide in Hm as [q ->]; [|lia]. unfold s. rewrite Z.div_mul by lia. nia. }
  assert (∀ (l : list bytes) k, 0 ≤ k < zlen l / s → 0 ≤ k * s ∧ k * s + s ≤ zlen l) as Hb.
  { intros l k Hk. pose proof (Z.mul_div_le (zlen l) s Hs). nia. }
  unfold _get_value_at. split; [|by intros ->].
  intros [= E]. apply (concat_inj_length n) in E; [done| | |].
  - by apply Forall_take, Forall_drop.
  - by apply Forall_take, Forall_drop.
  - apply Nat2Z.inj. change (zlen (py_slice l1 (i * s) (i * s + s)) =
      zlen (py_slice l2 (j * s) (j * s + s))).
    pose proof (Hb l1 i Hi). pose proof (Hb l2 j Hj). rewrite !py_slice_length by lia. lia.
Qed.

Lemma scaled_hash_injective_witness :
  bhl_get (ScaledHashes [[1]; [2]; [3]; [4]] 2) 1 = bhl_get (ScaledHashes [[3]; [4]] 2) 0 ↔
  py_slice [[1]; [2]; [3]; [4]] 2 4 = py_slice [[3]; [4]] 0 2.
Proof.
  apply (scaled_hash_injective 1 [[1]; [2]; [3]; [4]] [[3]; [4]] 16 32); try (vm_compute; done).
  - by repeat constructor.
  - by repeat constructor.
Defined.
