(* ===== verification/BlockPool.v ===== *)
(** * The block pool

    [BlockPool] of [vllm/v1/core/block_pool.py]: allocation, reference counts,
    the free queue and the prefix cache over one set of block objects.  The
    residency metrics collector is left out (it only observes). *)

From Stdlib Require Import QArith.
From S2P Require Import Prelude OrderedDict KVBlock FreeQueue BlockHash BlockMap Request BlockHasher BlockHashList.

#[local] Open Scope Z_scope.

(** ** Events *)

Inductive KVCacheEvent :=
  | BlockStored (block_hashes : list ExternalBlockHash) (parent_block_hash : option ExternalBlockHash)
      (token_ids : list Z) (block_size : Z) (lora_id : option Z) (lora_name : option string)
      (extra_keys : option (list (option (list extra_key)))) (group_idx : Z)
  | BlockRemoved (block_hashes : list ExternalBlockHash) (group_idx : Z)
  | AllBlocksCleared.

(** ** State *)

Record BlockPool := mkPool {
  num_gpu_blocks : Z;
  enable_caching : bool;
  hash_block_size : Z;
  blocks : list bref;
  free_block_queue : FreeKVCacheBlockQueue;  (* holds the block objects *)
  cached_block_hash_to_block : BlockHashToBlockMap;
  null_block : bref;
  enable_kv_cache_events : bool;
  kv_event_queue : list KVCacheEvent;
  use_int_block_hashes : bool;  (* [VLLM_KV_EVENTS_USE_INT_BLOCK_HASHES] *)
}.

Definition pool_heap (p : BlockPool) : heap := q_heap (free_block_queue p).

Definition set_queue (q : FreeKVCacheBlockQueue) (p : BlockPool) : BlockPool :=
  mkPool (num_gpu_blocks p) (enable_caching p) (hash_block_size p) (blocks p) q
    (cached_block_hash_to_block p) (null_block p) (enable_kv_cache_events p) (kv_event_queue p)
    (use_int_block_hashes p).
Definition set_pool_heap (h : heap) (p : BlockPool) : BlockPool :=
  set_queue (mkQueue h (num_free_blocks (free_block_queue p))) p.
Definition set_map (m : BlockHashToBlockMap) (p : BlockPool) : BlockPool :=
  mkPool (num_gpu_blocks p) (enable_caching p) (hash_block_size p) (blocks p) (free_block_queue p)
    m (null_block p) (enable_kv_cache_events p) (kv_event_queue p) (use_int_block_hashes p).
Definition set_events (ev : list KVCacheEvent) (p : BlockPool) : BlockPool :=
  mkPool (num_gpu_blocks p) (enable_caching p) (hash_block_size p) (blocks p) (free_block_queue p)
    (cached_block_hash_to_block p) (null_block p) (enable_kv_cache_events p) ev
    (use_int_block_hashes p).

(** Mutate one block object of the pool. *)
Definition bmod (p : BlockPool) (b : bref) (f : KVCacheBlock → KVCacheBlock) : BlockPool :=
  set_pool_heap (hmod (pool_heap p) b f) p.

(** [self.kv_event_queue.append(ev)] *)
Definition emit (ev : KVCacheEvent) (p : BlockPool) : BlockPool :=
  set_events (kv_event_queue p ++ [ev]) p.

(** ** Operations *)

(** The constructor.  The store it allocates the blocks in is fresh: block
    [i] is [KVCacheBlock(i)]. *)
Definition fresh_heap : heap := λ r,
  match r with BId n => new_block (Z.of_nat n) | _ => new_block (-1) end.

Definition init_pool (num_gpu_blocks : Z) (enable_caching : bool) (hash_block_size : Z)
    (enable_kv_cache_events int_hashes : bool) : result BlockPool :=
  _ ← py_assert (0 <? num_gpu_blocks);
  let blks := BId <$> seq 0 (Z.to_nat num_gpu_blocks) in
  let q := init_queue fresh_heap blks in
  '(nb, q) ← popleft q;
  let q := mkQueue (hmod (q_heap q) nb (set_is_null true)) (num_free_blocks q) in
  Ok (mkPool num_gpu_blocks enable_caching hash_block_size blks q empty_block_map nb
        enable_kv_cache_events [] int_hashes).

Definition get_num_free_blocks (p : BlockPool) : Z := num_free_blocks (free_block_queue p).

(** [None] on a miss of any group. *)
Fixpoint get_cached_loop (p : BlockPool) (block_hash : bytes) (gids : list Z) (acc : list bref)
    : result (option (list bref)) :=
  match gids with
  | [] => Ok (Some acc)
  | g :: gids =>
      k ← make_block_hash_with_group_id block_hash g;
      b ← get_one_block (cached_block_hash_to_block p) k;
      match b with
      | None => Ok None
      | Some b => get_cached_loop p block_hash gids (acc ++ [b])
      end
  end.

Definition get_cached_block (p : BlockPool) (block_hash : bytes) (kv_cache_group_ids : list Z)
    : result (option (list bref)) :=
  get_cached_loop p block_hash kv_cache_group_ids [].

Definition _maybe_evict_cached_block (p : BlockPool) (b : bref) : bool * BlockPool :=
  match block_hash (pool_heap p b) with
  | None => (false, p)
  | Some k =>
      let '(popped, m) := map_pop (pool_heap p) (cached_block_hash_to_block p) k
                            (block_id (pool_heap p b)) in
      let p := set_map m p in
      match popped with
      | None => (false, p)
      | Some _ =>
          let p := bmod p b reset_hash in
          (true,
           if enable_kv_cache_events p then
             emit (BlockRemoved [maybe_convert_block_hash (use_int_block_hashes p) (get_block_hash k)]
                     (get_group_id k)) p
           else p)
      end
  end.

(** [assert block.ref_cnt == 0; block.ref_cnt += 1] *)
Definition first_ref (p : BlockPool) (b : bref) : result BlockPool :=
  _ ← py_assert (ref_cnt (pool_heap p b) =? 0);
  Ok (bmod p b (λ x, set_ref_cnt (ref_cnt x + 1) x)).

Definition get_new_blocks (p : BlockPool) (num_blocks : Z) : result (list bref * BlockPool) :=
  if get_num_free_blocks p <? num_blocks then Raise ValueError else
  '(ret, q) ← popleft_n (free_block_queue p) num_blocks;
  let p := set_queue q p in
  p ← (if enable_caching p then
         mfold (λ p b, first_ref (_maybe_evict_cached_block p b).2 b) p ret
       else mfold first_ref p ret);
  Ok (ret, p).

Definition touch_one (p : BlockPool) (b : bref) : result BlockPool :=
  let x := pool_heap p b in
  p ← (if (ref_cnt x =? 0) && negb (is_null x) then
         q ← remove (free_block_queue p) b; Ok (set_queue q p)
       else Ok p);
  Ok (bmod p b (λ x, set_ref_cnt (ref_cnt x + 1) x)).

Definition touch (p : BlockPool) (bs : list bref) : result BlockPool := mfold touch_one p bs.

(** The loop of [free_blocks]: decrement, and sort the blocks that became free. *)
Fixpoint free_loop (h : heap) (bs with_hash without_hash : list bref)
    : heap * list bref * list bref :=
  match bs with
  | [] => (h, with_hash, without_hash)
  | b :: bs =>
      let h := hmod h b (λ x, set_ref_cnt (ref_cnt x - 1) x) in
      if (ref_cnt (h b) =? 0) && negb (is_null (h b)) then
        match block_hash (h b) with
        | None => free_loop h bs with_hash (without_hash ++ [b])
        | Some _ => free_loop h bs (with_hash ++ [b]) without_hash
        end
      else free_loop h bs with_hash without_hash
  end.

Definition free_blocks (p : BlockPool) (ordered_blocks : list bref) : result BlockPool :=
  let '(h, with_hash, without_hash) := free_loop (pool_heap p) ordered_blocks [] [] in
  let p := set_pool_heap h p in
  q ← prepend_n (free_block_queue p) without_hash;
  q ← append_n q with_hash;
  Ok (set_queue q p).

(** [block_ids] in the set's iteration order. *)
Definition evict_blocks (p : BlockPool) (block_ids : list Z) : result BlockPool :=
  mfold (λ p i,
    _ ← py_assert (i <? zlen (blocks p));
    b ← py_index (blocks p) i;
    Ok (_maybe_evict_cached_block p b).2) p block_ids.

Definition reset_prefix_cache (p : BlockPool) : bool * BlockPool :=
  let num_used_blocks := num_gpu_blocks p - get_num_free_blocks p in
  if negb (num_used_blocks =? 1) then (false, p) else
  let p := set_map empty_block_map p in
  let p := foldl (λ p b, bmod p b reset_hash) p (blocks p) in
  (true, if enable_kv_cache_events p then emit AllBlocksCleared p else p).

(** The exact value of [1.0 - free / total] (Python computes it in floats). *)
Definition get_usage (p : BlockPool) : Q :=
  let total := num_gpu_blocks p - 1 in
  if total =? 0 then 0%Q
  else (1 - inject_Z (get_num_free_blocks p) / inject_Z total)%Q.

Definition take_events (p : BlockPool) : list KVCacheEvent * BlockPool :=
  if negb (enable_kv_cache_events p) then ([], p)
  else (kv_event_queue p, set_events [] p).

(** *** [cache_full_blocks] *)

(** [block_mask is not None and not block_mask[i]] *)
Definition masked_out (mask : option (list bool)) (i : nat) : result bool :=
  match mask with
  | None => Ok false
  | Some m => b ← py_index m (Z.of_nat i); Ok (negb b)
  end.

(** The loop over [enumerate(new_full_blocks)] from index [i]; [new_hashes] is
    only used when events are on. *)
Fixpoint cache_loop (p : BlockPool) (bs : list bref) (i : nat) (mask : option (list bool))
    (hashes : list bytes) (gid : Z) (new_hashes : list ExternalBlockHash)
    : result (BlockPool * list ExternalBlockHash) :=
  match bs with
  | [] => Ok (p, new_hashes)
  | b :: bs =>
      skip ← (if is_null (pool_heap p b) then Ok true else masked_out mask i);
      if (skip : bool) then cache_loop p bs (S i) mask hashes gid new_hashes else
      _ ← py_assert (bool_decide (block_hash (pool_heap p b) = None));
      bh ← py_index hashes (Z.of_nat i);
      k ← make_block_hash_with_group_id bh gid;
      x ← block_hash_setter k (pool_heap p b);
      let p := bmod p b (λ _, x) in
      let p := set_map (map_insert (pool_heap p) (cached_block_hash_to_block p) k b) p in
      cache_loop p bs (S i) mask hashes gid
        (new_hashes ++ [maybe_convert_block_hash (use_int_block_hashes p) bh])
  end.

(** The keys reported with the stored blocks, for indices [i ..]. *)
Fixpoint stored_keys_loop (sha256 : list bytes → bytes) (p : BlockPool) (bs : list bref)
    (mask : option (list bool)) (num_cached block_size : Z) (idxs : list Z) (curr_mm_idx : Z)
    (acc : list (option (list extra_key))) (r : Request)
    : result (list (option (list extra_key)) * Request) :=
  match idxs with
  | [] => Ok (acc, r)
  | i :: idxs =>
      b ← py_index bs i;
      skip ← (if is_null (pool_heap p b) then Ok true else masked_out mask (Z.to_nat (i - num_cached)));
      if (skip : bool) then
        stored_keys_loop sha256 p bs mask num_cached block_size idxs curr_mm_idx acc r
      else
        let block_start := i * block_size in
        '(keys, curr_mm_idx, r) ←
          generate_block_hash_extra_keys sha256 r block_start (block_start + block_size) curr_mm_idx;
        stored_keys_loop sha256 p bs mask num_cached block_size idxs curr_mm_idx (acc ++ [keys]) r
  end.

Definition cache_full_blocks (sha256 : list bytes → bytes) (p : BlockPool) (r : Request)
    (bs : list bref) (num_cached_blocks num_full_blocks block_size kv_cache_group_id : Z)
    (block_mask : option (list bool)) : result (BlockPool * Request) :=
  if num_full_blocks <=? num_cached_blocks then Ok (p, r) else
  let new_full_blocks := py_slice bs num_cached_blocks num_full_blocks in
  _ ← py_assert (num_full_blocks <=? zlen (block_hashes r));
  _ ← py_assert (match block_mask with None => true | Some m => zlen m =? zlen new_full_blocks end);
  hashes ← (if block_size =? hash_block_size p then Ok (PlainHashes (block_hashes r))
            else if hash_block_size p =? 0 then Raise ZeroDivisionError
            else
              _ ← py_assert (block_size mod hash_block_size p =? 0);
              BlockHashListWithBlockSize (block_hashes r) (hash_block_size p) block_size);
  '(p, new_hashes) ← cache_loop p new_full_blocks 0 block_mask (bhl_from hashes num_cached_blocks)
                       kv_cache_group_id [];
  if negb (enable_kv_cache_events p) then Ok (p, r) else
  parent ← (if num_cached_blocks =? 0 then Ok None
            else h ← bhl_get hashes (num_cached_blocks - 1);
                 Ok (Some (maybe_convert_block_hash (use_int_block_hashes p) h)));
  '(keys, r) ← stored_keys_loop sha256 p bs block_mask num_cached_blocks block_size
                 (py_range num_cached_blocks num_full_blocks) 0 [] r;
  Ok (emit (BlockStored new_hashes parent
              (py_slice (all_token_ids r) (num_cached_blocks * block_size)
                 (num_full_blocks * block_size))
              block_size (adapter_id <$> lora_request r) (lora_name <$> lora_request r)
              (match keys with [] => None | _ => Some keys end) kv_cache_group_id) p, r).

(** ** The pool invariant *)

(** Consistency of the block objects [h] and the prefix cache [m] of a pool of
    [N] blocks, whose queue holds [l].  [pend] are blocks no request holds that
    are not in the queue, either just taken from it or about to be put back;
    between operations there are none. *)
Record pool_ok (N : nat) (h : heap) (m : BlockHashToBlockMap) (l pend : list nat) : Prop := {
  ok_ids : ∀ n, (n < N)%nat → block_id (h (BId n)) = Z.of_nat n;
  ok_null : ∀ n, (n < N)%nat → is_null (h (BId n)) = bool_decide (n = 0%nat);
  ok_range : ∀ n, n ∈ l ∨ n ∈ pend → (0 < n < N)%nat;
  ok_disj : ∀ n, n ∈ pend → n ∉ l;
  ok_ref : ∀ n, (0 < n < N)%nat →
    0 ≤ ref_cnt (h (BId n)) ∧ (ref_cnt (h (BId n)) = 0 ↔ n ∈ l ∨ n ∈ pend);
  ok_map_wf : map_wf h m;
  ok_map : ∀ k b, b ∈ map_blocks m k ↔
    ∃ n, (0 < n < N)%nat ∧ b = BId n ∧ block_hash (h b) = Some k;
  ok_null_hash : block_hash (h (BId 0)) = None;
}.

(** Number of blocks of the pool. *)
Definition pool_size (p : BlockPool) : nat := Z.to_nat (num_gpu_blocks p).

Record pool_st (p : BlockPool) (l pend : list nat) : Prop := {
  inv_size : 0 < num_gpu_blocks p;
  inv_blocks : blocks p = BId <$> seq 0 (pool_size p);
  inv_null : null_block p = BId 0;
  inv_queue : queue_repr (free_block_queue p) l;
  inv_ok : pool_ok (pool_size p) (pool_heap p) (cached_block_hash_to_block p) l pend;
}.

(** The invariant between operations. *)
Definition pool_inv (p : BlockPool) (l : list nat) : Prop := pool_st p l [].

(** What no operation changes. *)
Definition same_config (p p' : BlockPool) : Prop :=
  num_gpu_blocks p' = num_gpu_blocks p ∧ enable_caching p' = enable_caching p ∧
  hash_block_size p' = hash_block_size p ∧ blocks p' = blocks p ∧ null_block p' = null_block p ∧
  enable_kv_cache_events p' = enable_kv_cache_events p ∧
  use_int_block_hashes p' = use_int_block_hashes p.

#[export] Instance same_config_refl : Reflexive same_config.
Proof. by intros p. Qed.
#[export] Instance same_config_trans : Transitive same_config.
Proof. unfold same_config. intros p1 p2 p3 ??. intuition congruence. Qed.

Lemma pool_ok_same_meta N h h' m l pend :
  same_meta h h' → pool_ok N h m l pend → pool_ok N h' m l pend.
Proof.
  intros Hm [Hid Hnull Hr Hd Href Hwf Hmap Hnh].
  split; try setoid_rewrite (proj1 (proj2 (proj2 (proj2 (Hm _)))));
    try done.
  - intros n Hn. destruct (Hm (BId n)) as (-> & _). by apply Hid.
  - intros n Hn. destruct (Hm (BId n)) as (_ & _ & _ & ->). by apply Hnull.
  - intros n Hn. destruct (Hm (BId n)) as (_ & -> & _). by apply Href.
  - eapply map_wf_ids; [|done]. intros r. apply Hm.
  - intros k b. destruct (Hm b) as (_ & _ & -> & _). apply Hmap.
  - destruct (Hm (BId 0)) as (_ & _ & -> & _). done.
Qed.

(** Membership is all that matters of the two lists. *)
Lemma pool_ok_lists N h m l pend l' pend' :
  (∀ n, n ∈ l ∨ n ∈ pend ↔ n ∈ l' ∨ n ∈ pend') → (∀ n, n ∈ pend' → n ∉ l') →
  pool_ok N h m l pend → pool_ok N h m l' pend'.
Proof.
  intros Hiff Hdisj [Hid Hnull Hr Hd Href Hwf Hmap Hnh]. split; try done.
  - intros n Hn. apply Hr, Hiff, Hn.
  - intros n Hn. rewrite <-Hiff. by apply Href.
Qed.

(** [block.ref_cnt += d] *)
Definition add_ref (d : Z) (b : KVCacheBlock) : KVCacheBlock := set_ref_cnt (ref_cnt b + d) b.

(** Changing a reference count, with the lists adjusted to match. *)
Lemma pool_ok_ref N h m l pend x d l' pend' :
  (x < N)%nat →
  (x ≠ 0%nat → 0 ≤ ref_cnt (h (BId x)) + d ∧ (ref_cnt (h (BId x)) + d = 0 ↔ x ∈ l' ∨ x ∈ pend')) →
  (∀ n, n ≠ x → n ∈ l ∨ n ∈ pend ↔ n ∈ l' ∨ n ∈ pend') →
  (x = 0%nat → x ∉ l' ∧ x ∉ pend') → (∀ n, n ∈ pend' → n ∉ l') →
  pool_ok N h m l pend → pool_ok N (hmod h (BId x) (add_ref d)) m l' pend'.
Proof.
  intros Hx Hc Hiff H0 Hdisj [Hid Hnull Hr Hd Href Hwf Hmap Hnh].
  assert (∀ r, let b := hmod h (BId x) (add_ref d) r in
    block_id b = block_id (h r) ∧ is_null b = is_null (h r) ∧ block_hash b = block_hash (h r)) as Hsame.
  { intros r. unfold hmod. by case_decide. }
  split.
  - intros n Hn. destruct (Hsame (BId n)) as (-> & _). by apply Hid.
  - intros n Hn. destruct (Hsame (BId n)) as (_ & -> & _). by apply Hnull.
  - intros n Hn. destruct (decide (n = x)) as [->|Hne]; [|by apply Hr, Hiff].
    destruct (decide (x = 0%nat)) as [E|]; [|lia]. apply H0 in E. tauto.
  - done.
  - intros n Hn. destruct (decide (n = x)) as [->|Hne].
    + rewrite hmod_eq. simpl. apply Hc. lia.
    + rewrite hmod_ne by congruence. rewrite <-Hiff by done. by apply Href.
  - eapply map_wf_ids; [|done]. intros r. apply Hsame.
  - intros k b. destruct (Hsame b) as (_ & _ & ->). apply Hmap.
  - destruct (Hsame (BId 0)) as (_ & _ & ->). done.
Qed.

(** Uncaching a block: its hash is reset and it leaves the map. *)
Lemma pool_ok_uncache N h m m' l pend x k :
  (x < N)%nat → block_hash (h (BId x)) = Some k →
  map_wf h m' →
  (∀ k', map_blocks m' k' = if decide (k' = k) then filter (λ b, b ≠ BId x) (map_blocks m k)
                            else map_blocks m k') →
  pool_ok N h m l pend → pool_ok N (hmod h (BId x) reset_hash) m' l pend.
Proof.
  intros Hx Hk Hwf' Hm' [Hid Hnull Hr Hd Href Hwf Hmap Hnh].
  assert (∀ r, let b := hmod h (BId x) reset_hash r in
    block_id b = block_id (h r) ∧ is_null b = is_null (h r) ∧ ref_cnt b = ref_cnt (h r)) as Hsame.
  { intros r. unfold hmod. by case_decide. }
  split; try done.
  - intros n Hn. destruct (Hsame (BId n)) as (-> & _). by apply Hid.
  - intros n Hn. destruct (Hsame (BId n)) as (_ & -> & _). by apply Hnull.
  - intros n Hn. destruct (Hsame (BId n)) as (_ & _ & ->). by apply Href.
  - eapply map_wf_ids; [|done]. intros r. apply Hsame.
  - intros k' b. rewrite Hm'.
    assert (b ∈ (if decide (k' = k) then filter (λ b, b ≠ BId x) (map_blocks m k) else map_blocks m k')
            ↔ b ∈ map_blocks m k' ∧ b ≠ BId x) as ->.
    { case_decide as E; [subst k'; rewrite list_elem_of_filter; tauto|].
      split; [|tauto]. intros Hb. split; [done|]. intros ->.
      apply Hmap in Hb as (n & _ & [= <-] & Hb). congruence. }
    rewrite Hmap. split.
    + intros [(n & Hn & -> & Hb) Hne]. exists n. rewrite hmod_ne by done. done.
    + intros (n & Hn & -> & Hb). destruct (decide (n = x)) as [->|Hne]; [by rewrite hmod_eq in Hb|].
      rewrite hmod_ne in Hb by congruence. split; [by exists n|congruence].
  - unfold hmod. by case_decide.
Qed.

(** Caching an unhashed block under [k]. *)
Lemma pool_ok_cache N h m l pend x k :
  (0 < x < N)%nat → block_hash (h (BId x)) = None →
  let h' := hmod h (BId x) (λ _, set_hash (Some k) (h (BId x))) in
  pool_ok N h m l pend →
  pool_ok N h' (map_insert h' m k (BId x)) l pend ∧
  ∀ k', map_blocks (map_insert h' m k (BId x)) k' =
        if decide (k' = k) then map_blocks m k ++ [BId x] else map_blocks m k'.
Proof.
  intros Hx Hk h' [Hid Hnull Hr Hd Href Hwf Hmap Hnh].
  assert (∀ r, block_id (h' r) = block_id (h r) ∧ is_null (h' r) = is_null (h r) ∧
    ref_cnt (h' r) = ref_cnt (h r)) as Hsame.
  { intros r. unfold h', hmod. case_decide; subst; done. }
  destruct (map_insert_spec h' m k x) as [Hwf' Hblocks].
  { eapply map_wf_ids; [|done]. intros r. apply Hsame. }
  { destruct (Hsame (BId x)) as (-> & _). apply Hid. lia. }
  { intros Hin. apply Hmap in Hin as (n & _ & [= <-] & Hb). congruence. }
  split; [|done]. split; try done.
  - intros n Hn. destruct (Hsame (BId n)) as (-> & _). by apply Hid.
  - intros n Hn. destruct (Hsame (BId n)) as (_ & -> & _). by apply Hnull.
  - intros n Hn. destruct (Hsame (BId n)) as (_ & _ & ->). by apply Href.
  - intros k' b. rewrite Hblocks.
    assert (b ∈ (if decide (k' = k) then map_blocks m k ++ [BId x] else map_blocks m k')
            ↔ b ∈ map_blocks m k' ∨ b = BId x ∧ k' = k) as ->.
    { case_decide as E; [subst k'; set_solver|]. set_solver. }
    rewrite Hmap. split.
    + intros [(n & Hn & -> & Hb)|[-> ->]].
      * exists n. split; [done|]. split; [done|]. unfold h'. rewrite hmod_ne; [done|].
        congruence.
      * exists x. split; [done|]. split; [done|]. unfold h'. by rewrite hmod_eq.
    + intros (n & Hn & -> & Hb). unfold h' in Hb. destruct (decide (n = x)) as [->|Hne].
      * rewrite hmod_eq in Hb. simpl in Hb. right. by simplify_eq.
      * rewrite hmod_ne in Hb by congruence. left. by exists n.
  - unfold h'. rewrite hmod_ne; [done|]. intros [= <-]. lia.
Qed.

(** ** One block at a time *)

Lemma bmod_heap p b f : pool_heap (bmod p b f) = hmod (pool_heap p) b f.
Proof. done. Qed.

Lemma bmod_config p b f : same_config p (bmod p b f).
Proof. done. Qed.

(** A change of one block that keeps its links keeps the queue. *)
Lemma bmod_queue p b f l :
  queue_repr (free_block_queue p) l →
  (∀ x, prev_free_block (f x) = prev_free_block x ∧ next_free_block (f x) = next_free_block x) →
  queue_repr (free_block_queue (bmod p b f)) l.
Proof. intros Hq Hf. apply queue_repr_same_links; [done|]. by apply hmod_same_links. Qed.

(** Lists of pool blocks that a request may hold. *)
Definition in_pool (p : BlockPool) (bs : list nat) : Prop := ∀ n, n ∈ bs → (n < pool_size p)%nat.

(** The events an eviction of a block with hash [k] emits. *)
Definition removed_events (p : BlockPool) (k : option hash_key) : list KVCacheEvent :=
  match k with
  | Some k => if enable_kv_cache_events p then
      [BlockRemoved [maybe_convert_block_hash (use_int_block_hashes p) (get_block_hash k)]
         (get_group_id k)] else []
  | None => []
  end.

Lemma evict_spec p l pend x :
  pool_st p l pend → (x < pool_size p)%nat →
  ∃ p', _maybe_evict_cached_block p (BId x) =
          (bool_decide (is_Some (block_hash (pool_heap p (BId x)))), p') ∧
    pool_st p' l pend ∧ same_config p p' ∧
    (∀ r, pool_heap p' r = hmod (pool_heap p) (BId x) reset_hash r) ∧
    (∀ k, map_blocks (cached_block_hash_to_block p') k =
          filter (λ b, b ≠ BId x) (map_blocks (cached_block_hash_to_block p) k)) ∧
    kv_event_queue p' = kv_event_queue p ++ removed_events p (block_hash (pool_heap p (BId x))).
Proof.
  intros [Hs Hb Hn Hq Hok] Hx. unfold _maybe_evict_cached_block.
  destruct (block_hash (pool_heap p (BId x))) as [k|] eqn:Hk.
  - rewrite (ok_ids _ _ _ _ _ Hok) by done.
    destruct (map_pop_spec (pool_heap p) (cached_block_hash_to_block p) k x) as (m' & -> & Hwf & Hm).
    { apply (ok_map_wf _ _ _ _ _ Hok). } { by apply (ok_ids _ _ _ _ _ Hok). }
    assert (x ≠ 0%nat) as Hx0 by (intros ->; by rewrite (ok_null_hash _ _ _ _ _ Hok) in Hk).
    rewrite decide_True by (apply (ok_map _ _ _ _ _ Hok); exists x; split; [lia|done]).
    rewrite bool_decide_eq_true_2 by done.
    set (p1 := bmod (set_map m' p) (BId x) reset_hash).
    assert (pool_st p1 l pend) as Hp1.
    { split; try done; [by apply (bmod_queue p)|].
      by apply (pool_ok_uncache _ _ (cached_block_hash_to_block p) _ _ _ _ k). }
    exists (if enable_kv_cache_events p1 then emit (BlockRemoved [maybe_convert_block_hash
      (use_int_block_hashes p1) (get_block_hash k)] (get_group_id k)) p1 else p1).
    change (enable_kv_cache_events p1) with (enable_kv_cache_events p). unfold removed_events.
    assert (∀ k', map_blocks m' k' = filter (λ b, b ≠ BId x) (map_blocks (cached_block_hash_to_block p) k'))
      as Hm'.
    { intros k'. rewrite Hm. case_decide as E; [by subst|]. symmetry. apply filter_all.
      intros b Hb' ->. apply (ok_map _ _ _ _ _ Hok) in Hb' as (n & _ & [= <-] & Hb').
      congruence. }
    destruct (enable_kv_cache_events p); (split; [done|]); (split; [by destruct Hp1|]).
    + done.
    + split; [done|]. split; [done|]. split; [done|]. simpl. by rewrite app_nil_r.
  - exists p. split; [done|]. split; [done|]. split; [done|]. split_and!.
    + intros r. unfold hmod. case_decide; [|done]. subst r. unfold reset_hash, set_hash.
      destruct (pool_heap p (BId x)); simpl in *; by subst.
    + intros k. symmetry. apply filter_all. intros b Hb' ->.
      apply (ok_map _ _ _ _ _ Hok) in Hb' as (n & _ & [= <-] & Hb'). congruence.
    + simpl. by rewrite app_nil_r.
Qed.

Lemma first_ref_spec p l x pend :
  pool_st p l (x :: pend) → x ∉ pend →
  first_ref p (BId x) = Ok (bmod p (BId x) (add_ref 1)) ∧
  pool_st (bmod p (BId x) (add_ref 1)) l pend.
Proof.
  intros [Hs Hb Hn Hq Hok] Hx. unfold first_ref.
  assert (0 < x < pool_size p)%nat as Hxr by (apply (ok_range _ _ _ _ _ Hok); set_solver).
  assert (ref_cnt (pool_heap p (BId x)) = 0) as H0.
  { apply (ok_ref _ _ _ _ _ Hok); [done|]. set_solver. }
  rewrite H0. split; [done|]. split; try done; [by apply bmod_queue|].
  pose proof (ok_disj _ _ _ _ _ Hok) as Hd.
  eapply pool_ok_ref; [exact (proj2 Hxr)| | | | |apply Hok]; [|set_solver|lia|set_solver].
  rewrite H0. intros _. split; [done|]. split; [done|].
  intros [Hl|Hp]; [|done]. exfalso. apply (Hd x); set_solver.
Qed.

(** A pool operation's effect on one block's reference count and hash. *)
Definition alloc_block (caching : bool) (b : KVCacheBlock) : KVCacheBlock :=
  add_ref 1 (if caching then reset_hash b else b).

Definition alloc_events (p : BlockPool) (xs : list nat) : list KVCacheEvent :=
  if enable_caching p then concat ((λ x, removed_events p (block_hash (pool_heap p (BId x)))) <$> xs)
  else [].

Lemma removed_events_config p p' k : same_config p p' → removed_events p' k = removed_events p k.
Proof. intros (_ & _ & _ & _ & _ & He & Hi). unfold removed_events. by rewrite He, Hi. Qed.

(** The loop of [get_new_blocks] over the blocks taken from the queue. *)
Definition alloc_step (p : BlockPool) (b : bref) : result BlockPool :=
  first_ref (if enable_caching p then (_maybe_evict_cached_block p b).2 else p) b.

Lemma alloc_loop_spec p l xs :
  pool_st p l xs → NoDup xs →
  ∃ p', mfold alloc_step p (BId <$> xs) = Ok p' ∧ pool_inv p' l ∧ same_config p p' ∧
    (∀ r, pool_heap p' r = if decide (r ∈ BId <$> xs) then alloc_block (enable_caching p) (pool_heap p r)
                           else pool_heap p r) ∧
    (∀ k, map_blocks (cached_block_hash_to_block p') k =
          if enable_caching p then filter (λ b, b ∉ BId <$> xs) (map_blocks (cached_block_hash_to_block p) k)
          else map_blocks (cached_block_hash_to_block p) k) ∧
    kv_event_queue p' = kv_event_queue p ++ alloc_events p xs.
Proof.
  revert p. induction xs as [|x xs IH]; intros p Hp Hnd.
  { exists p. split; [done|]. split; [done|]. split; [done|]. split; [done|]. split.
    - intros k. destruct (enable_caching p); [|done]. symmetry. apply filter_all. set_solver.
    - unfold alloc_events. destruct (enable_caching p); simpl; by rewrite app_nil_r. }
  apply NoDup_cons in Hnd as [Hx Hnd].
  assert (x < pool_size p)%nat as Hxr by (eapply ok_range; [apply Hp|set_solver]).
  set (p1 := if enable_caching p then (_maybe_evict_cached_block p (BId x)).2 else p).
  assert (pool_st p1 l (x :: xs) ∧ same_config p p1 ∧
    (∀ r, pool_heap p1 r = if enable_caching p then hmod (pool_heap p) (BId x) reset_hash r
                           else pool_heap p r) ∧
    (∀ k, map_blocks (cached_block_hash_to_block p1) k =
          if enable_caching p then filter (λ b, b ≠ BId x) (map_blocks (cached_block_hash_to_block p) k)
          else map_blocks (cached_block_hash_to_block p) k) ∧
    kv_event_queue p1 = kv_event_queue p ++ (if enable_caching p then
      removed_events p (block_hash (pool_heap p (BId x))) else [])) as (Hp1 & Hc1 & Hh1 & Hm1 & He1).
  { unfold p1. destruct (enable_caching p).
    - destruct (evict_spec p l (x :: xs) x Hp Hxr) as (p' & -> & ? & ? & ? & ? & ?). done.
    - rewrite app_nil_r. done. }
  destruct (first_ref_spec p1 l x xs Hp1 Hx) as [Hf Hp2].
  destruct (IH _ Hp2 Hnd) as (p' & Hrun & Hinv & Hc & Hh & Hm & He).
  assert (enable_caching (bmod p1 (BId x) (add_ref 1)) = enable_caching p) as Hcache by apply Hc1.
  exists p'. change (alloc_step p (BId x) = Ok (bmod p1 (BId x) (add_ref 1))) in Hf.
  rewrite fmap_cons. cbn [mfold]. rewrite Hf. split; [done|].
  split; [done|]. split; [by trans p1|]. rewrite Hcache in *. split; [|split].
  - intros r. rewrite Hh, bmod_heap. destruct (decide (r = BId x)) as [->|Hne].
    + rewrite decide_False by (rewrite list_elem_of_fmap; naive_solver).
      rewrite decide_True by set_solver. rewrite hmod_eq, Hh1. unfold alloc_block.
      destruct (enable_caching p); [by rewrite hmod_eq|done].
    + rewrite hmod_ne by done.
      assert (pool_heap p1 r = pool_heap p r) as ->.
      { rewrite Hh1. destruct (enable_caching p); [by rewrite hmod_ne|done]. }
      destruct (decide (r ∈ BId <$> xs)); [rewrite decide_True by set_solver|
        rewrite decide_False by set_solver]; done.
  - intros k. rewrite Hm. simpl. destruct (enable_caching p); rewrite Hm1; [|done].
    rewrite list_filter_filter. apply list_filter_iff. intros b. set_solver.
  - rewrite He. simpl. rewrite He1, <-app_assoc. f_equal. unfold alloc_events. rewrite Hcache.
    destruct (enable_caching p) eqn:Ec; [|done]. csimpl. f_equal. f_equal.
    apply list_fmap_ext. intros i y Hy. apply list_elem_of_lookup_2 in Hy.
    rewrite (removed_events_config p (bmod p1 (BId x) (add_ref 1)) _ Hc1). f_equal. rewrite bmod_heap.
    rewrite hmod_ne by naive_solver. rewrite Hh1, hmod_ne by naive_solver. done.
Qed.

Lemma first_ref_config p b p' : first_ref p b = Ok p' → same_config p p'.
Proof. unfold first_ref. destruct (_ =? 0); simpl; [|done]. by intros [= <-]. Qed.

Lemma evict_config p b : same_config p (_maybe_evict_cached_block p b).2.
Proof.
  unfold _maybe_evict_cached_block. destruct (block_hash _); [|done].
  destruct (map_pop _ _ _ _) as [[?|] m]; simpl; [|done].
  by destruct (enable_kv_cache_events p).
Qed.

Lemma alloc_loop_step p xs :
  mfold alloc_step p xs =
  if enable_caching p then mfold (λ p b, first_ref (_maybe_evict_cached_block p b).2 b) p xs
  else mfold first_ref p xs.
Proof.
  revert p. induction xs as [|b xs IH]; intros p; [by destruct (enable_caching p)|].
  simpl. destruct (alloc_step p b) as [p1|] eqn:E; unfold alloc_step in E.
  - simpl. rewrite IH. pose proof (first_ref_config _ _ _ E) as Hc.
    pose proof (evict_config p b) as Hc'.
    assert (enable_caching p1 = enable_caching p) as ->.
    { destruct Hc as (_ & -> & _). destruct (enable_caching p) eqn:Ec; [|done].
      rewrite <-Ec. apply Hc'. }
    destruct (enable_caching p); by rewrite E.
  - destruct (enable_caching p); by rewrite E.
Qed.

(** ** Operations on the whole pool *)

Lemma get_new_blocks_spec p l (n : nat) :
  pool_inv p l → (n ≤ length l)%nat →
  ∃ p', get_new_blocks p (Z.of_nat n) = Ok (BId <$> take n l, p') ∧
    pool_inv p' (drop n l) ∧ same_config p p' ∧
    (∀ x, ref_cnt (pool_heap p' (BId x)) =
            (if decide (x ∈ take n l) then 1 else ref_cnt (pool_heap p (BId x))) ∧
          block_hash (pool_heap p' (BId x)) =
            (if decide (x ∈ take n l ∧ enable_caching p = true) then None
             else block_hash (pool_heap p (BId x)))) ∧
    (∀ k, map_blocks (cached_block_hash_to_block p') k =
          if enable_caching p
          then filter (λ b, b ∉ BId <$> take n l) (map_blocks (cached_block_hash_to_block p) k)
          else map_blocks (cached_block_hash_to_block p) k) ∧
    kv_event_queue p' = kv_event_queue p ++ alloc_events p (take n l).
Proof.
  intros [Hs Hb Hn Hq Hok] Hle. unfold get_new_blocks, get_num_free_blocks.
  rewrite (repr_count _ _ Hq), (proj2 (Z.ltb_ge _ _)) by (unfold zlen; lia).
  destruct (popleft_n_repr _ _ n Hq Hle) as (q' & -> & Hq' & Hmeta). simpl.
  pose proof (repr_nodup _ _ Hq) as Hnd. rewrite <-(take_drop n l) in Hnd.
  apply NoDup_app in Hnd as (Hnd1 & Hnd12 & _).
  assert (pool_st (set_queue q' p) (drop n l) (take n l)) as Hst.
  { split; try done. eapply pool_ok_same_meta; [done|].
    eapply pool_ok_lists; [| |apply Hok]; [|done].
    intros x. rewrite <-(take_drop n l) at 1. set_solver. }
  destruct (alloc_loop_spec _ _ _ Hst Hnd1) as (p' & Hrun & Hinv & Hc & Hh & Hm & He).
  rewrite alloc_loop_step in Hrun. change (enable_caching p) with (enable_caching (set_queue q' p)) at 1.
  rewrite Hrun. simpl. exists p'. split; [done|]. split; [done|]. split; [done|]. split_and!.
  - intros x. rewrite Hh. change (pool_heap (set_queue q' p)) with (q_heap q').
    destruct (Hmeta (BId x)) as (_ & Hr & Hbh & _). fold (pool_heap p) in Hr, Hbh.
    destruct (decide (x ∈ take n l)) as [Hin|Hout].
    + rewrite decide_True by (by apply BId_elem). unfold alloc_block. simpl.
      assert (ref_cnt (pool_heap p (BId x)) = 0) as H0.
      { assert (x ∈ l) by (rewrite <-(take_drop n l); set_solver).
        apply (ok_ref _ _ _ _ _ Hok); [|by left]. apply (ok_range _ _ _ _ _ Hok). by left. }
      destruct (enable_caching p); simpl; rewrite Hr, H0; (split; [done|]).
      * by rewrite decide_True.
      * rewrite decide_False by naive_solver. done.
    + rewrite decide_False by (by rewrite BId_elem). rewrite decide_False by tauto. done.
  - done.
  - rewrite He. f_equal. unfold alloc_events. simpl. destruct (enable_caching p); [|done].
    f_equal. apply list_fmap_ext. intros i y _.
    change (pool_heap (set_queue q' p)) with (q_heap q').
    destruct (Hmeta (BId y)) as (_ & _ & -> & _). done.
Qed.

Lemma get_new_blocks_fail p l n :
  pool_inv p l → zlen l < n → get_new_blocks p n = Raise ValueError.
Proof.
  intros [_ _ _ Hq _] Hlt. unfold get_new_blocks, get_num_free_blocks.
  rewrite (repr_count _ _ Hq). by rewrite (proj2 (Z.ltb_lt _ _)).
Qed.

(** *** [touch] *)

(** How often a block occurs. *)
Definition count (x : nat) (bs : list nat) : Z := zlen (filter (λ y, y = x) bs).

Lemma count_cons x y bs : count x (y :: bs) = (if decide (y = x) then 1 else 0) + count x bs.
Proof. unfold count. rewrite filter_cons. case_decide; rewrite ?zlen_cons; lia. Qed.

Lemma count_nonneg x bs : 0 ≤ count x bs.
Proof. apply zlen_nonneg. Qed.

(** Counting one more reference, once the block is out of the queue. *)
Lemma count_reference p l x q' l' :
  pool_inv p l → (x < pool_size p)%nat → queue_repr q' l' → same_meta (pool_heap p) (q_heap q') →
  (x ≠ 0%nat → ref_cnt (pool_heap p (BId x)) + 1 ≠ 0) → (∀ y, y ∈ l' ↔ y ∈ l ∧ y ≠ x) →
  let p' := bmod (set_queue q' p) (BId x) (λ b, set_ref_cnt (ref_cnt b + 1) b) in
  pool_inv p' l' ∧
  (∀ y, ref_cnt (pool_heap p' (BId y)) = ref_cnt (pool_heap p (BId y)) + (if decide (x = y) then 1 else 0)) ∧
  (∀ r, block_hash (pool_heap p' r) = block_hash (pool_heap p r)).
Proof.
  intros [Hs Hb Hn Hq Hok] Hx Hq' Hmeta Hpos Hl' p'. split; [|split].
  - split; try done; [by apply bmod_queue|].
    apply (pool_ok_ref _ (q_heap q') _ l [] x 1); [done| | | | |by eapply pool_ok_same_meta].
    + intros Hx0. destruct (Hmeta (BId x)) as (_ & -> & _).
      destruct (ok_ref _ _ _ _ _ Hok x) as [? _]; [lia|]. rewrite Hl'.
      specialize (Hpos Hx0). split; [unfold pool_heap in *; lia|]. set_solver.
    + intros y Hy. rewrite Hl'. set_solver.
    + intros ->. rewrite Hl'. set_solver.
    + set_solver.
  - intros y. destruct (Hmeta (BId y)) as (_ & Hr & _). fold (pool_heap p) in Hr.
    unfold p'. rewrite bmod_heap. change (pool_heap (set_queue q' p)) with (q_heap q').
    case_decide; [subst; rewrite hmod_eq; simpl; lia|]. rewrite hmod_ne by congruence. lia.
  - intros r. destruct (Hmeta r) as (_ & _ & Hbh & _). fold (pool_heap p) in Hbh.
    rewrite <-Hbh. unfold p'. rewrite bmod_heap. unfold hmod. by case_decide.
Qed.

Lemma touch_one_spec p l x :
  pool_inv p l → (x < pool_size p)%nat →
  ∃ p', touch_one p (BId x) = Ok p' ∧ pool_inv p' (filter (λ y, y ≠ x) l) ∧ same_config p p' ∧
    cached_block_hash_to_block p' = cached_block_hash_to_block p ∧
    kv_event_queue p' = kv_event_queue p ∧
    (∀ y, ref_cnt (pool_heap p' (BId y)) = ref_cnt (pool_heap p (BId y)) + (if decide (x = y) then 1 else 0)) ∧
    (∀ r, block_hash (pool_heap p' r) = block_hash (pool_heap p r)).
Proof.
  intros Hp Hx. pose proof Hp as [_ _ _ Hq Hok]. unfold touch_one.
  rewrite (ok_null _ _ _ _ _ Hok) by done.
  destruct (Z.eqb_spec (ref_cnt (pool_heap p (BId x))) 0) as [H0|H0];
    [destruct (decide (x = 0%nat)) as [E0|E0]|]; simpl.
  - subst x. rewrite bool_decide_eq_true_2 by done. simpl.
    assert (0%nat ∉ l) as H0l by (intros ?; pose proof (ok_range _ _ _ _ _ Hok 0%nat); naive_solver lia).
    assert (filter (λ y, y ≠ 0%nat) l = l) as -> by (apply filter_all; by intros y Hy ->).
    destruct (count_reference p l 0%nat (free_block_queue p) l Hp Hx Hq) as (?&?&?); [done|done| |].
    { intros y. split; [|tauto]. intros Hy. split; [done|]. by intros ->. }
    destruct p; simpl in *. eexists; split_and!; done.
  - rewrite bool_decide_eq_false_2 by done. simpl.
    assert (x ∈ l) as Hin.
    { destruct (ok_ref _ _ _ _ _ Hok x) as [_ Hiff]; [lia|]. apply Hiff in H0. set_solver. }
    destruct (remove_repr_filter _ _ _ Hq Hin) as (q' & -> & Hq' & Hmeta). simpl.
    destruct (count_reference p l x q' _ Hp Hx Hq' Hmeta) as (?&?&?); [lia| |].
    { intros y. rewrite list_elem_of_filter. tauto. }
    eexists; split_and!; done.
  - assert (x ∉ l) as Hxl.
    { intros Hin. destruct (ok_ref _ _ _ _ _ Hok x) as [_ Hiff].
      - apply (ok_range _ _ _ _ _ Hok). by left.
      - apply H0, Hiff. by left. }
    assert (filter (λ y, y ≠ x) l = l) as -> by (apply filter_all; by intros y Hy ->).
    destruct (count_reference p l x (free_block_queue p) l Hp Hx Hq) as (?&?&?); [done| | |].
    { intros Hx0. destruct (ok_ref _ _ _ _ _ Hok x); [lia|]. lia. }
    { intros y. split; [|tauto]. intros Hy. split; [done|]. by intros ->. }
    destruct p; simpl in *. eexists; split_and!; done.
Qed.

Lemma touch_spec p l bs :
  pool_inv p l → in_pool p bs →
  ∃ p', touch p (BId <$> bs) = Ok p' ∧ pool_inv p' (filter (λ y, y ∉ bs) l) ∧ same_config p p' ∧
    cached_block_hash_to_block p' = cached_block_hash_to_block p ∧
    kv_event_queue p' = kv_event_queue p ∧
    (∀ y, ref_cnt (pool_heap p' (BId y)) = ref_cnt (pool_heap p (BId y)) + count y bs) ∧
    (∀ r, block_hash (pool_heap p' r) = block_hash (pool_heap p r)).
Proof.
  unfold touch. revert p l. induction bs as [|x bs IH]; intros p l Hp Hin.
  { exists p. rewrite filter_all by set_solver. split_and!; try done.
    intros y. change (count y []) with 0. lia. }
  destruct (touch_one_spec p l x Hp) as (p1 & H1 & Hp1 & Hc1 & Hm1 & He1 & Hr1 & Hb1);
    [apply Hin; set_solver|].
  destruct (IH p1 _ Hp1) as (p2 & H2 & Hp2 & Hc2 & Hm2 & He2 & Hr2 & Hb2).
  { intros n Hn. unfold pool_size. destruct Hc1 as (-> & _). apply Hin. set_solver. }
  exists p2. csimpl. rewrite H1. simpl. split; [done|]. split.
  { rewrite list_filter_filter in Hp2. erewrite list_filter_iff; [done|]. set_solver. }
  split; [by trans p1|]. split_and!; [congruence..| |].
  - intros y. rewrite Hr2, Hr1, count_cons. lia.
  - intros r. by rewrite Hb2.
Qed.

(** *** [free_blocks] *)

(** The blocks of [bs] nobody holds once [bs] is freed, in order. *)
Definition freed (h : heap) (bs : list nat) : list nat :=
  filter (λ x, x ≠ 0%nat ∧ ref_cnt (h (BId x)) = 1) bs.

Definition hashed_block (h : heap) (x : nat) : Prop := is_Some (block_hash (h (BId x))).

(** The blocks may be freed: they are held, and listed once (the null block,
    whose count is not maintained, may occur any number of times). *)
Definition may_free (p : BlockPool) (bs : list nat) : Prop :=
  in_pool p bs ∧ NoDup (filter (λ x, x ≠ 0%nat) bs) ∧
  ∀ x, x ∈ bs → x ≠ 0%nat → 0 < ref_cnt (pool_heap p (BId x)).

Lemma freed_ext h h' bs :
  (∀ x, x ∈ bs → x ≠ 0%nat → ref_cnt (h' (BId x)) = ref_cnt (h (BId x))) →
  freed h' bs = freed h bs.
Proof.
  intros Hh. unfold freed. induction bs as [|x bs IH]; [done|].
  rewrite !filter_cons, IH by set_solver.
  destruct (decide (x = 0%nat)) as [->|Hx].
  - by rewrite !decide_False by tauto.
  - rewrite Hh by set_solver. done.
Qed.

(** One round of the loop: the block is released, and listed when it becomes free. *)
Lemma free_loop_cons h x bs wh woh :
  is_null (h (BId x)) = bool_decide (x = 0%nat) →
  free_loop h (BId <$> x :: bs) wh woh =
    free_loop (hmod h (BId x) (add_ref (-1))) (BId <$> bs)
      (wh ++ (BId <$> filter (hashed_block h) (freed h [x])))
      (woh ++ (BId <$> filter (λ x, ¬ hashed_block h x) (freed h [x]))).
Proof.
  intros Hnull. rewrite fmap_cons. cbn [free_loop]. fold (add_ref (-1)).
  change (λ x0, set_ref_cnt (ref_cnt x0 - 1) x0) with (add_ref (-1)). rewrite hmod_eq.
  change (ref_cnt (add_ref (-1) (h (BId x)))) with (ref_cnt (h (BId x)) - 1).
  change (is_null (add_ref (-1) (h (BId x)))) with (is_null (h (BId x))).
  change (block_hash (add_ref (-1) (h (BId x)))) with (block_hash (h (BId x))). rewrite Hnull.
  destruct (decide (x ≠ 0%nat ∧ ref_cnt (h (BId x)) = 1)) as [[Hx0 Hx1]|Hx].
  - rewrite Hx1, bool_decide_eq_false_2 by done. simpl.
    assert (freed h [x] = [x]) as -> by (unfold freed; by rewrite filter_cons_True). unfold hashed_block.
    destruct (block_hash (h (BId x))) eqn:Hbh.
    + rewrite (filter_cons_True _ x), (filter_cons_False _ x) by (rewrite Hbh; eauto). csimpl.
      by rewrite app_nil_r.
    + rewrite (filter_cons_False _ x), (filter_cons_True _ x)
        by (rewrite Hbh; rewrite is_Some_alt; auto). csimpl. by rewrite app_nil_r.
  - assert (freed h [x] = []) as -> by (unfold freed; by rewrite filter_cons_False). csimpl. rewrite !app_nil_r.
    destruct (Z.eqb_spec (ref_cnt (h (BId x)) - 1) 0); [|done]. simpl.
    rewrite bool_decide_eq_true_2; [done|]. destruct (decide (x = 0%nat)); [done|]. destruct Hx. split; [done|lia].
Qed.

Lemma release_ok N h m l pend x :
  pool_ok N h m l pend → (x < N)%nat → (x ≠ 0%nat → 0 < ref_cnt (h (BId x))) →
  pool_ok N (hmod h (BId x) (add_ref (-1))) m l (pend ++ freed h [x]).
Proof.
  intros Hok HxN Href. unfold freed. destruct (decide (x ≠ 0%nat ∧ ref_cnt (h (BId x)) = 1)) as [[Hx0 Hx1]|Hx].
  - rewrite filter_cons_True, filter_nil by done. eapply pool_ok_ref; [done| | | | |done].
    + rewrite Hx1. intros _. split; [done|]. split; [set_solver|done].
    + set_solver.
    + done.
    + intros y [Hy|Hy]%elem_of_app; [by apply (ok_disj _ _ _ _ _ Hok)|].
      apply list_elem_of_singleton in Hy as ->. intros Hl.
      destruct (ok_ref _ _ _ _ _ Hok x) as [_ Hiff]; [lia|].
      assert (ref_cnt (h (BId x)) = 0) by (apply Hiff; by left). lia.
  - rewrite filter_cons_False, filter_nil, app_nil_r by done.
    eapply pool_ok_ref; [done| |done| |apply (ok_disj _ _ _ _ _ Hok)|done].
    + intros Hx0. destruct (ok_ref _ _ _ _ _ Hok x) as [Hge Hiff]; [lia|]. specialize (Href Hx0).
      assert (ref_cnt (h (BId x)) ≠ 1) by tauto. split; [lia|].
      split; [lia|]. intros Hl. apply Hiff in Hl. lia.
    + intros ->. pose proof (ok_range _ _ _ _ _ Hok 0%nat) as Hr0.
      split; intros ?; destruct Hr0; auto; lia.
Qed.

Lemma free_loop_spec N h m l pend bs wh woh :
  pool_ok N h m l pend → (∀ x, x ∈ bs → (x < N)%nat) → NoDup (filter (λ x, x ≠ 0%nat) bs) →
  (∀ x, x ∈ bs → x ≠ 0%nat → 0 < ref_cnt (h (BId x))) →
  ∃ h', free_loop h (BId <$> bs) wh woh =
          (h', wh ++ (BId <$> filter (hashed_block h) (freed h bs)),
               woh ++ (BId <$> filter (λ x, ¬ hashed_block h x) (freed h bs))) ∧
    pool_ok N h' m l (pend ++ freed h bs) ∧ same_links h h' ∧
    (∀ x, x ≠ 0%nat → ref_cnt (h' (BId x)) =
          ref_cnt (h (BId x)) - (if decide (x ∈ bs) then 1 else 0)) ∧
    (∀ r, block_hash (h' r) = block_hash (h r)).
Proof.
  revert h pend wh woh. induction bs as [|x bs IH]; intros h pend wh woh Hok Hin Hnd Href.
  { exists h. simpl. rewrite !app_nil_r. split_and!; try done. intros. lia. }
  assert (x < N)%nat as HxN by (apply Hin; set_solver).
  rewrite free_loop_cons by (by apply (ok_null _ _ _ _ _ Hok)).
  pose proof (release_ok _ _ _ _ _ _ Hok HxN ltac:(apply Href; set_solver)) as Hok1.
  set (h1 := hmod h (BId x) (add_ref (-1))) in *.
  assert (∀ r, block_hash (h1 r) = block_hash (h r)) as Hb1 by (intros r; unfold h1, hmod; by case_decide).
  assert (same_links h h1) as Hl1 by (apply hmod_same_links; done).
  assert (∀ y, y ≠ x → ref_cnt (h1 (BId y)) = ref_cnt (h (BId y))) as Hr1.
  { intros y Hy. unfold h1. by rewrite hmod_ne by congruence. }
  assert (ref_cnt (h1 (BId x)) = ref_cnt (h (BId x)) - 1) as Hrx by (unfold h1; by rewrite hmod_eq).
  assert (∀ y, y ∈ bs → y ≠ 0%nat → y ≠ x) as Hbsx.
  { intros y Hy Hy0 ->. rewrite filter_cons_True in Hnd by done.
    apply NoDup_cons in Hnd as [Hnd _]. apply Hnd. by apply list_elem_of_filter. }
  assert (freed h (x :: bs) = freed h [x] ++ freed h1 bs) as ->.
  { change (x :: bs) with ([x] ++ bs). rewrite (freed_ext h h1 bs) by (intros; apply Hr1; auto).
    unfold freed. by rewrite filter_app. }
  edestruct (λ wh woh, IH h1 _ wh woh Hok1) as (h' & Hrun & Hok2 & Hl2 & Hr2 & Hb2); [set_solver| | |].
  { rewrite filter_cons in Hnd. case_decide; [by apply NoDup_cons in Hnd as [_ ?]|done]. }
  { intros y Hy Hy0. rewrite Hr1 by auto. apply Href; set_solver. }
  exists h'. rewrite Hrun. split; [|split; [by rewrite app_assoc|split; [by trans h1|split]]].
  - assert (∀ y, hashed_block h1 y ↔ hashed_block h y) as Hhb by (intros y; unfold hashed_block; by rewrite Hb1).
    rewrite !filter_app, !fmap_app, !app_assoc, (list_filter_iff (hashed_block h1) (hashed_block h)) by done.
    rewrite (list_filter_iff (λ y, ¬ hashed_block h1 y) (λ y, ¬ hashed_block h y)); [done|].
    intros y. by rewrite Hhb.
  - intros y Hy0. rewrite Hr2 by done. destruct (decide (y = x)) as [->|Hne].
    + rewrite Hrx. rewrite decide_False, decide_True by set_solver. lia.
    + rewrite Hr1 by done. assert (y ∈ bs ↔ y ∈ x :: bs) by set_solver. repeat case_decide; (lia || tauto).
  - intros r. by rewrite Hb2.
Qed.

(** The free list after [bs] is freed: blocks without a hash go to the front
    (they can never be hit again), hashed ones to the back. *)
Definition after_free (h : heap) (l bs : list nat) : list nat :=
  filter (λ x, ¬ hashed_block h x) (freed h bs) ++ l ++ filter (hashed_block h) (freed h bs).

Lemma freed_nodup h bs : NoDup (filter (λ x, x ≠ 0%nat) bs) → NoDup (freed h bs).
Proof.
  intros Hnd. apply (NoDup_filter (λ x, ref_cnt (h (BId x)) = 1)) in Hnd.
  rewrite list_filter_filter in Hnd. unfold freed. erewrite list_filter_iff; [done|].
  simpl. tauto.
Qed.

Lemma split_nodup (P : nat → Prop) `{!∀ x, Decision (P x)} (l : list nat) :
  NoDup l → NoDup (filter (λ x, ¬ P x) l ++ filter P l).
Proof.
  intros Hl. apply NoDup_app. split_and!; try by apply NoDup_filter.
  intros x. rewrite !list_elem_of_filter. tauto.
Qed.

Lemma free_blocks_spec p l bs :
  pool_inv p l → may_free p bs →
  ∃ p', free_blocks p (BId <$> bs) = Ok p' ∧ pool_inv p' (after_free (pool_heap p) l bs) ∧
    same_config p p' ∧ cached_block_hash_to_block p' = cached_block_hash_to_block p ∧
    kv_event_queue p' = kv_event_queue p ∧
    (∀ x, x ≠ 0%nat → ref_cnt (pool_heap p' (BId x)) =
          ref_cnt (pool_heap p (BId x)) - (if decide (x ∈ bs) then 1 else 0)) ∧
    (∀ r, block_hash (pool_heap p' r) = block_hash (pool_heap p r)).
Proof.
  intros [Hs Hb Hn Hq Hok] (Hin & Hnd & Href). unfold free_blocks.
  destruct (free_loop_spec _ _ _ _ _ bs [] [] Hok Hin Hnd Href) as (h' & -> & Hok' & Hl & Hr & Hbh).
  simpl app in *.
  pose proof (queue_repr_same_links _ h' _ Hq Hl) as Hq1.
  pose proof (freed_nodup (pool_heap p) bs Hnd) as Hfnd.
  assert (∀ x, x ∈ freed (pool_heap p) bs → x ∉ l) as Hfl by apply (ok_disj _ _ _ _ _ Hok').
  set (u := filter (λ x, ¬ hashed_block (pool_heap p) x) (freed (pool_heap p) bs)) in *.
  set (w := filter (hashed_block (pool_heap p)) (freed (pool_heap p) bs)) in *.
  assert (NoDup (u ++ w)) as Hsplit by by apply split_nodup.
  assert (∀ x, x ∈ u ∨ x ∈ w ↔ x ∈ freed (pool_heap p) bs) as Huw.
  { intros x. unfold u, w. rewrite !list_elem_of_filter. destruct (decide (hashed_block (pool_heap p) x)); tauto. }
  assert (NoDup ((u ++ l) ++ w)) as Hall.
  { rewrite <-app_assoc, (Permutation_app_comm l w), app_assoc. apply NoDup_app.
    split_and!; [done| |apply (repr_nodup _ _ Hq)].
    intros x Hx. apply Hfl, Huw. by apply elem_of_app. }
  destruct (prepend_n_repr (free_block_queue (set_pool_heap h' p)) l u Hq1) as (q1 & Hpre & Hr1 & Hm1).
  { by apply NoDup_app in Hall as (? & _). }
  rewrite Hpre. cbn [mbind result_bind].
  destruct (append_n_repr q1 (u ++ l) w Hr1 Hall) as (q2 & Happ & Hr2 & Hm2).
  rewrite Happ. cbn [mbind result_bind].
  assert (same_meta h' (q_heap q2)) as Hm by (etransitivity; [apply Hm1|done]).
  eexists. split; [done|]. split_and!; try done.
  - split; try done; [unfold after_free; by rewrite app_assoc|].
    eapply pool_ok_same_meta; [apply Hm|]. eapply pool_ok_lists; [| |apply Hok']; [|set_solver].
    intros x. unfold after_free. fold u w. rewrite !elem_of_app. specialize (Huw x). set_solver.
  - intros x Hx0. destruct (Hm (BId x)) as (_ & E & _). change (pool_heap (set_queue q2 (set_pool_heap h' p))) with (q_heap q2).
    rewrite E. by apply Hr.
  - intros r. destruct (Hm r) as (_ & _ & E & _). change (pool_heap (set_queue q2 (set_pool_heap h' p))) with (q_heap q2).
    rewrite E. by apply Hbh.
Qed.

(** *** The constructor *)

Lemma init_pool_spec n caching hbs ev ih :
  0 < n →
  ∃ p, init_pool n caching hbs ev ih = Ok p ∧ pool_inv p (seq 1 (Z.to_nat n - 1)) ∧
       num_gpu_blocks p = n ∧ enable_caching p = caching ∧ hash_block_size p = hbs ∧
       enable_kv_cache_events p = ev ∧
       (∀ k, map_blocks (cached_block_hash_to_block p) k = []) ∧ kv_event_queue p = [].
Proof.
  intros Hn. unfold init_pool. rewrite (proj2 (Z.ltb_lt _ _)) by done. simpl.
  set (q := init_queue fresh_heap (BId <$> seq 0 (Z.to_nat n))).
  assert (queue_repr q (0%nat :: seq 1 (Z.to_nat n - 1))) as Hq.
  { change (0%nat :: seq 1 (Z.to_nat n - 1)) with (seq 0 (S (Z.to_nat n - 1))).
    replace (S (Z.to_nat n - 1)) with (Z.to_nat n) by lia.
    apply init_queue_repr; [apply NoDup_seq|done]. }
  assert (∀ i, let b := q_heap q (BId i) in block_id b = Z.of_nat i ∧ ref_cnt b = 0 ∧
    block_hash b = None ∧ is_null b = false) as Hmeta.
  { intros i. destruct (init_queue_links fresh_heap (seq 0 (Z.to_nat n))) as (_ & _ & _ & _ & Hm & _).
    - apply NoDup_seq.
    - destruct (Z.to_nat n) eqn:E; [lia|done].
    - exact (Hm i). }
  destruct (popleft_cons _ _ _ Hq) as (q1 & Hpop & Hq1 & Hm1). fold q. rewrite Hpop. simpl.
  eexists. split; [done|]. split_and!; try done.
  assert (∀ i, let b := hmod (q_heap q1) (BId 0) (set_is_null true) (BId i) in
    block_id b = Z.of_nat i ∧ ref_cnt b = 0 ∧ block_hash b = None ∧ is_null b = bool_decide (i = 0%nat)) as Hm.
  { intros i. destruct (Hm1 (BId i)) as (E1 & E2 & E3 & E4). destruct (Hmeta i) as (F1 & F2 & F3 & F4).
    unfold hmod. case_decide as E; simpl.
    - injection E as ->. rewrite bool_decide_eq_true_2 by done. split_and!; congruence.
    - rewrite bool_decide_eq_false_2 by congruence. split_and!; congruence. }
  split; try done.
  - apply queue_repr_same_links; [done|]. by apply hmod_same_links.
  - unfold pool_size, pool_heap. simpl. split; simpl.
    + intros i _. by destruct (Hm i) as (? & _).
    + intros i _. by destruct (Hm i) as (_ & _ & _ & ?).
    + intros i [Hi|Hi]; [apply elem_of_seq in Hi; lia|by apply elem_of_nil in Hi].
    + intros i Hi. by apply elem_of_nil in Hi.
    + intros i Hi. destruct (Hm i) as (_ & -> & _). split; [done|]. split; [|done].
      intros _. left. apply elem_of_seq. lia.
    + apply empty_map_wf.
    + intros k b. split; [by intros ?%elem_of_nil|].
      intros (i & _ & -> & Hb). destruct (Hm i) as (_ & _ & E & _). congruence.
    + by destruct (Hm 0%nat) as (_ & _ & ? & _).
Qed.

(** *** Lookup and eviction *)

(** The key of a hash in a group. *)
Definition group_key (h : bytes) (g : Z) : hash_key := h ++ be_bytes 4 g.

Definition valid_group (g : Z) : Prop := 0 ≤ g < 2 ^ 32.

(** The oldest cached block of every group, if each group has one. *)
Definition lookup_groups (p : BlockPool) (h : bytes) (gids : list Z) : option (list bref) :=
  mapM (λ g, head (map_blocks (cached_block_hash_to_block p) (group_key h g))) gids.

Lemma get_cached_block_spec p l h gids :
  pool_inv p l → Forall valid_group gids →
  get_cached_block p h gids = Ok (lookup_groups p h gids).
Proof.
  intros [_ _ _ _ Hok] Hg. unfold get_cached_block, lookup_groups.
  assert (∀ acc, get_cached_loop p h gids acc =
    Ok (app acc <$> mapM (λ g, head (map_blocks (cached_block_hash_to_block p) (group_key h g))) gids)) as ->.
  2:{ f_equal. by destruct (mapM _ gids). }
  induction gids as [|g gids IH]; intros acc; cbn [get_cached_loop mapM]; [simpl; by rewrite app_nil_r|].
  apply Forall_cons in Hg as [Hg Hgs]. rewrite make_key_valid by done. cbn [mbind result_bind].
  rewrite (get_one_block_spec (pool_heap p)) by apply Hok. cbn [mbind result_bind].
  fold (group_key h g).
  destruct (head (map_blocks _ (group_key h g))) as [b|]; [|done].
  rewrite IH by done. simpl. destruct (mapM _ gids); simpl; [|done]. by rewrite <-app_assoc.
Qed.

(** A hit is a block of the pool carrying the very key that was asked for. *)
Lemma lookup_groups_hit p l h gids bs :
  pool_inv p l → lookup_groups p h gids = Some bs →
  Forall2 (λ g b, ∃ n, (0 < n < pool_size p)%nat ∧ b = BId n ∧
                       block_hash (pool_heap p b) = Some (group_key h g)) gids bs.
Proof.
  intros [_ _ _ _ Hok] Hl. apply mapM_Some in Hl. eapply Forall2_impl; [done|].
  intros g b Hb. apply (ok_map _ _ _ _ _ Hok). by apply head_Some_elem_of in Hb.
Qed.

Lemma evict_blocks_spec p l xs :
  pool_inv p l → in_pool p xs →
  ∃ p', evict_blocks p (Z.of_nat <$> xs) = Ok p' ∧ pool_inv p' l ∧ same_config p p' ∧
    (∀ x, ref_cnt (pool_heap p' (BId x)) = ref_cnt (pool_heap p (BId x)) ∧
          block_hash (pool_heap p' (BId x)) =
            if decide (x ∈ xs) then None else block_hash (pool_heap p (BId x))) ∧
    (∀ k, map_blocks (cached_block_hash_to_block p') k =
          filter (λ b, b ∉ BId <$> xs) (map_blocks (cached_block_hash_to_block p) k)).
Proof.
  unfold evict_blocks. revert p. induction xs as [|x xs IH]; intros p Hp Hin.
  { exists p. split_and!; try done. intros k. symmetry. apply filter_all. set_solver. }
  assert (x < pool_size p)%nat as Hx by (apply Hin; set_solver).
  destruct (evict_spec p l [] x Hp Hx) as (p1 & He & Hp1 & Hc1 & Hh1 & Hm1 & _).
  destruct (IH p1 Hp1) as (p' & Hrun & Hp' & Hc & Hh & Hm).
  { intros n Hn. unfold pool_size. destruct Hc1 as (-> & _). apply Hin. set_solver. }
  exists p'. csimpl.
  assert (blocks p = BId <$> seq 0 (pool_size p)) as -> by apply Hp.
  rewrite zlen_fmap, (proj2 (Z.ltb_lt _ _)) by (unfold zlen; rewrite length_seq; lia). simpl.
  unfold py_index. rewrite Nat2Z.id, list_lookup_fmap, lookup_seq_lt by done. simpl. rewrite He. simpl.
  split; [done|]. split; [done|]. split; [by trans p1|]. split.
  - intros y. destruct (Hh y) as [-> ->]. rewrite Hh1. unfold hmod.
    destruct (decide (BId y = BId x)) as [[= ->]|Hne]; simpl.
    + split; [done|]. rewrite (decide_True (P := x ∈ x :: xs)) by set_solver. by case_decide.
    + split; [done|]. assert (y ∈ xs ↔ y ∈ x :: xs) by set_solver.
      repeat case_decide; (done || tauto).
  - intros k. rewrite Hm, Hm1, list_filter_filter. apply list_filter_iff. set_solver.
Qed.

(** *** [reset_prefix_cache] *)

Lemma reset_loop p bs :
  let p' := foldl (λ p b, bmod p b reset_hash) p bs in
  same_config p p' ∧ cached_block_hash_to_block p' = cached_block_hash_to_block p ∧
  kv_event_queue p' = kv_event_queue p ∧
  num_free_blocks (free_block_queue p') = num_free_blocks (free_block_queue p) ∧
  ∀ r, pool_heap p' r = if decide (r ∈ bs) then reset_hash (pool_heap p r) else pool_heap p r.
Proof.
  revert p. induction bs as [|b bs IH]; intros p; [done|]. simpl.
  destruct (IH (bmod p b reset_hash)) as (Hc & Hm & He & Hn & Hh).
  split; [done|]. split; [done|]. split; [done|]. split; [done|]. intros r.
  rewrite Hh, bmod_heap. unfold hmod.
  destruct (decide (r = b)) as [->|Hne].
  - rewrite (decide_True (P := b ∈ b :: bs)) by set_solver. by case_decide.
  - assert (r ∈ bs ↔ r ∈ b :: bs) by set_solver. repeat case_decide; (done || tauto).
Qed.

Lemma reset_prefix_cache_spec p l :
  pool_inv p l →
  ∃ p', reset_prefix_cache p = (bool_decide (length l = (pool_size p - 1)%nat), p') ∧
    pool_inv p' l ∧ same_config p p' ∧
    (∀ x, ref_cnt (pool_heap p' (BId x)) = ref_cnt (pool_heap p (BId x))) ∧
    if decide (length l = (pool_size p - 1)%nat) then
      (∀ k, map_blocks (cached_block_hash_to_block p') k = []) ∧
      (∀ x, (x < pool_size p)%nat → block_hash (pool_heap p' (BId x)) = None)
    else p' = p.
Proof.
  intros Hp. pose proof Hp as [Hs Hb Hn Hq Hok]. unfold reset_prefix_cache, get_num_free_blocks.
  rewrite (repr_count _ _ Hq).
  destruct (decide (length l = (pool_size p - 1)%nat)) as [E|E].
  2:{ rewrite bool_decide_eq_false_2 by done. exists p.
      rewrite (proj2 (Z.eqb_neq _ _)) by (unfold zlen, pool_size in *; lia). done. }
  rewrite bool_decide_eq_true_2 by done.
  rewrite (proj2 (Z.eqb_eq _ _)) by (unfold zlen, pool_size in *; lia). simpl.
  set (p1 := set_map empty_block_map p). change (blocks p) with (blocks p1).
  destruct (reset_loop p1 (blocks p1)) as (Hc & Hm & He & Hnf & Hh).
  set (p2 := foldl _ p1 _) in *.
  assert (∀ r, r ∈ blocks p1 ↔ ∃ n, r = BId n ∧ (n < pool_size p)%nat) as Hin.
  { intros r. change (blocks p1) with (blocks p). rewrite Hb, list_elem_of_fmap.
    setoid_rewrite elem_of_seq. naive_solver lia. }
  assert (∀ x, (x < pool_size p)%nat → pool_heap p2 (BId x) = reset_hash (pool_heap p (BId x))) as Hr.
  { intros x Hx. rewrite Hh, decide_True; [done|]. apply Hin. eauto. }
  assert (pool_inv p2 l) as Hp2.
  { destruct Hc as (Ec1 & Ec2 & Ec3 & Ec4 & Ec5 & _). split.
    - by rewrite Ec1.
    - rewrite Ec4. unfold pool_size. by rewrite Ec1.
    - by rewrite Ec5.
    - assert (free_block_queue p2 = mkQueue (pool_heap p2) (num_free_blocks (free_block_queue p2))) as ->.
      { unfold pool_heap. by destruct (free_block_queue p2). }
      rewrite Hnf. apply (queue_repr_same_links _ _ _ Hq). intros r. rewrite Hh. by case_decide.
    - unfold pool_size. rewrite Ec1. fold (pool_size p). rewrite Hm. split; try done.
      + intros n Hn'. rewrite Hr by done. by apply (ok_ids _ _ _ _ _ Hok).
      + intros n Hn'. rewrite Hr by done. by apply (ok_null _ _ _ _ _ Hok).
      + apply (ok_range _ _ _ _ _ Hok).
      + set_solver.
      + intros n Hn'. rewrite Hr by apply Hn'. by apply (ok_ref _ _ _ _ _ Hok).
      + intros k b. split; [by intros ?%elem_of_nil|]. intros (n & Hn' & -> & Hbh).
        by rewrite Hr in Hbh by apply Hn'.
      + rewrite Hr; [done|]. unfold pool_size. lia. }
  assert (∀ x, ref_cnt (pool_heap p2 (BId x)) = ref_cnt (pool_heap p (BId x))) as Href.
  { intros x. rewrite Hh. by case_decide. }
  assert (∀ k, map_blocks (cached_block_hash_to_block p2) k = []) as Hmb by (intros k; by rewrite Hm).
  eexists. split; [done|].
  destruct (enable_kv_cache_events p2); (split; [by destruct Hp2|]); (split; [done|]);
    (split; [done|]); (split; [done|]); intros x Hx; simpl;
    change (pool_heap (emit AllBlocksCleared p2)) with (pool_heap p2); by rewrite Hr.
Qed.

(** ** Properties of the operations *)

(** Allocating [n] blocks takes exactly the [n] oldest of the free list in
    order, each with reference count one, without a hash when caching is on and
    gone from the hash map; nothing else changes, and asking for more than is
    free raises [ValueError]. *)
Theorem get_new_blocks_correct p l n :
  pool_inv p l → 0 ≤ n →
  if decide (n ≤ zlen l) then
    ∃ p', get_new_blocks p n = Ok (BId <$> take (Z.to_nat n) l, p') ∧
      pool_inv p' (drop (Z.to_nat n) l) ∧
      (∀ x, ref_cnt (pool_heap p' (BId x)) =
              (if decide (x ∈ take (Z.to_nat n) l) then 1 else ref_cnt (pool_heap p (BId x))) ∧
            block_hash (pool_heap p' (BId x)) =
              (if decide (x ∈ take (Z.to_nat n) l ∧ enable_caching p = true) then None
               else block_hash (pool_heap p (BId x)))) ∧
      (∀ k, map_blocks (cached_block_hash_to_block p') k =
            if enable_caching p
            then filter (λ b, b ∉ BId <$> take (Z.to_nat n) l) (map_blocks (cached_block_hash_to_block p) k)
            else map_blocks (cached_block_hash_to_block p) k)
  else get_new_blocks p n = Raise ValueError.
Proof.
  intros Hp Hn. case_decide as Hle; [|apply (get_new_blocks_fail p l); [done|lia]].
  destruct (get_new_blocks_spec p l (Z.to_nat n) Hp) as (p' & H & Hp' & _ & Hx & Hk & _);
    [unfold zlen in Hle; lia|].
  rewrite Z2Nat.id in H by done. eauto 6.
Qed.

(** Freeing blocks decrements each count once and returns the blocks nobody
    holds any more to the free list, unhashed ones at the front and hashed ones
    at the back in the given order, so that unhashed blocks are reused before
    any cached block is evicted; hashes and the hash map are untouched. *)
Theorem free_blocks_correct p l bs :
  pool_inv p l → may_free p bs →
  ∃ p', free_blocks p (BId <$> bs) = Ok p' ∧
    pool_inv p' (filter (λ x, ¬ hashed_block (pool_heap p) x) (freed (pool_heap p) bs) ++ l ++
                 filter (hashed_block (pool_heap p)) (freed (pool_heap p) bs)) ∧
    cached_block_hash_to_block p' = cached_block_hash_to_block p ∧
    (∀ x, x ≠ 0%nat → ref_cnt (pool_heap p' (BId x)) =
          ref_cnt (pool_heap p (BId x)) - (if decide (x ∈ bs) then 1 else 0)) ∧
    (∀ r, block_hash (pool_heap p' r) = block_hash (pool_heap p r)).
Proof.
  intros Hp Hb. destruct (free_blocks_spec p l bs Hp Hb) as (p' & H & Hp' & _ & Hm & _ & Hr & Hh).
  eauto 8.
Qed.

(** Touching blocks takes the free ones among them out of the free list,
    keeping the order of the rest, and adds one reference per occurrence;
    hashes and the hash map are untouched. *)
Theorem touch_correct p l bs :
  pool_inv p l → in_pool p bs →
  ∃ p', touch p (BId <$> bs) = Ok p' ∧ pool_inv p' (filter (λ y, y ∉ bs) l) ∧
    cached_block_hash_to_block p' = cached_block_hash_to_block p ∧
    (∀ y, ref_cnt (pool_heap p' (BId y)) = ref_cnt (pool_heap p (BId y)) + count y bs) ∧
    (∀ r, block_hash (pool_heap p' r) = block_hash (pool_heap p r)).
Proof.
  intros Hp Hb. destruct (touch_spec p l bs Hp Hb) as (p' & H & Hp' & _ & Hm & _ & Hr & Hh).
  eauto 8.
Qed.

(** A prefix-cache lookup never raises; a hit returns one block per group,
    each carrying exactly the key that was asked for (so its contents are those
    the key stands for), and it is a miss iff some group has no block with its
    key. *)
Theorem get_cached_block_sound p l h gids :
  pool_inv p l → Forall valid_group gids →
  (∃ bs, get_cached_block p h gids = Ok (Some bs) ∧
     Forall2 (λ g b, ∃ x, (0 < x < pool_size p)%nat ∧ b = BId x ∧
                          block_hash (pool_heap p b) = Some (group_key h g)) gids bs) ∨
  (get_cached_block p h gids = Ok None ∧
   ∃ g, g ∈ gids ∧ ∀ x, (0 < x < pool_size p)%nat → block_hash (pool_heap p (BId x)) ≠ Some (group_key h g)).
Proof.
  intros Hp Hg. rewrite (get_cached_block_spec p l) by done.
  destruct (lookup_groups p h gids) as [bs|] eqn:E.
  - left. exists bs. split; [done|]. by eapply lookup_groups_hit.
  - right. split; [done|]. apply mapM_None in E. apply Exists_exists in E as (g & Hgin & E).
    exists g. split; [done|]. intros x Hx Hb.
    assert (BId x ∈ map_blocks (cached_block_hash_to_block p) (group_key h g)) as Hin.
    { apply (ok_map _ _ _ _ _ (inv_ok _ _ _ Hp)). eauto. }
    destruct (map_blocks _ _); [by apply elem_of_nil in Hin|done].
Qed.

(** Evicting blocks by id removes exactly them from the prefix cache,
    whether or not they are in use, and frees nothing. *)
Theorem evict_blocks_correct p l xs :
  pool_inv p l → in_pool p xs →
  ∃ p', evict_blocks p (Z.of_nat <$> xs) = Ok p' ∧ pool_inv p' l ∧
    (∀ x, ref_cnt (pool_heap p' (BId x)) = ref_cnt (pool_heap p (BId x)) ∧
          block_hash (pool_heap p' (BId x)) =
            if decide (x ∈ xs) then None else block_hash (pool_heap p (BId x))) ∧
    (∀ k, map_blocks (cached_block_hash_to_block p') k =
          filter (λ b, b ∉ BId <$> xs) (map_blocks (cached_block_hash_to_block p) k)).
Proof.
  intros Hp Hb. destruct (evict_blocks_spec p l xs Hp Hb) as (p' & ? & ? & _ & ? & ?). eauto.
Qed.

(** ** Concrete instances *)

(** A pool of four blocks of two tokens with caching on. *)
Definition demo_pool : BlockPool :=
  match init_pool 4 true 2 true false with
  | Ok p => p
  | Raise _ => mkPool 0 true 2 [] (mkQueue fresh_heap 0) empty_block_map BHead true [] false
  end.

Lemma demo_pool_init : init_pool 4 true 2 true false = Ok demo_pool.
Proof. reflexivity. Qed.

Lemma demo_pool_inv : pool_inv demo_pool [1; 2; 3]%nat.
Proof.
  destruct (init_pool_spec 4 true 2 true false) as (p & H & Hp & _); [lia|].
  rewrite demo_pool_init in H. injection H as <-. exact Hp.
Qed.

(** The same pool with blocks 1 and 2 handed out. *)
Definition demo_used : BlockPool :=
  match get_new_blocks demo_pool 2 with Ok (_, p) => p | Raise _ => demo_pool end.

Lemma demo_used_all :
  get_new_blocks demo_pool 2 = Ok (BId <$> [1; 2]%nat, demo_used) ∧
  pool_inv demo_used [3]%nat ∧ same_config demo_pool demo_used ∧
  ref_cnt (pool_heap demo_used (BId 1)) = 1 ∧ ref_cnt (pool_heap demo_used (BId 2)) = 1 ∧
  block_hash (pool_heap demo_used (BId 1)) = None ∧ block_hash (pool_heap demo_used (BId 2)) = None.
Proof.
  destruct (get_new_blocks_spec demo_pool [1; 2; 3]%nat 2 demo_pool_inv) as (p & H & Hp & Hc & Hx & _);
    [simpl; lia|].
  unfold demo_used. change (get_new_blocks demo_pool (Z.of_nat 2)) with (get_new_blocks demo_pool 2) in H.
  rewrite H. split; [done|]. split; [exact Hp|]. split; [done|].
  destruct (Hx 1%nat) as [-> ->], (Hx 2%nat) as [-> ->]. done.
Qed.

Lemma demo_used_run : get_new_blocks demo_pool 2 = Ok (BId <$> [1; 2]%nat, demo_used).
Proof. apply demo_used_all. Qed.

Lemma demo_used_inv : pool_inv demo_used [3]%nat.
Proof. apply demo_used_all. Qed.

Lemma demo_used_config : same_config demo_pool demo_used.
Proof. apply demo_used_all. Qed.

Lemma demo_used_size : pool_size demo_used = 4%nat.
Proof. unfold pool_size. by destruct demo_used_config as (-> & _). Qed.

#[local] Opaque demo_used.

Lemma demo_may_free : may_free demo_used [2; 0; 1]%nat.
Proof.
  split; [|split].
  - intros n Hn. rewrite demo_used_size.
    repeat (apply elem_of_cons in Hn as [->|Hn]; [lia|]). by apply elem_of_nil in Hn.
  - apply (bool_decide_unpack _). vm_compute. exact I.
  - destruct demo_used_all as (_ & _ & _ & H1 & H2 & _). intros x Hx Hx0.
    repeat (apply elem_of_cons in Hx as [->|Hx]; [lia|]). by apply elem_of_nil in Hx.
Qed.

Lemma get_new_blocks_correct_witness :
  if decide (2 ≤ zlen [1; 2; 3]%nat) then
    ∃ p', get_new_blocks demo_pool 2 = Ok (BId <$> take (Z.to_nat 2) [1; 2; 3]%nat, p') ∧
      pool_inv p' (drop (Z.to_nat 2) [1; 2; 3]%nat) ∧
      (∀ x, ref_cnt (pool_heap p' (BId x)) =
              (if decide (x ∈ take (Z.to_nat 2) [1; 2; 3]%nat) then 1 else ref_cnt (pool_heap demo_pool (BId x))) ∧
            block_hash (pool_heap p' (BId x)) =
              (if decide (x ∈ take (Z.to_nat 2) [1; 2; 3]%nat ∧ enable_caching demo_pool = true) then None
               else block_hash (pool_heap demo_pool (BId x)))) ∧
      (∀ k, map_blocks (cached_block_hash_to_block p') k =
            if enable_caching demo_pool
            then filter (λ b, b ∉ BId <$> take (Z.to_nat 2) [1; 2; 3]%nat)
                   (map_blocks (cached_block_hash_to_block demo_pool) k)
            else map_blocks (cached_block_hash_to_block demo_pool) k)
  else get_new_blocks demo_pool 2 = Raise ValueError.
Proof. apply (get_new_blocks_correct demo_pool [1; 2; 3]%nat 2); [apply demo_pool_inv|lia]. Defined.

Lemma free_blocks_correct_witness :
  ∃ p', free_blocks demo_used (BId <$> [2; 0; 1]%nat) = Ok p' ∧
    pool_inv p' (filter (λ x, ¬ hashed_block (pool_heap demo_used) x) (freed (pool_heap demo_used) [2; 0; 1]%nat)
                 ++ [3]%nat ++
                 filter (hashed_block (pool_heap demo_used)) (freed (pool_heap demo_used) [2; 0; 1]%nat)) ∧
    cached_block_hash_to_block p' = cached_block_hash_to_block demo_used ∧
    (∀ x, x ≠ 0%nat → ref_cnt (pool_heap p' (BId x)) =
          ref_cnt (pool_heap demo_used (BId x)) - (if decide (x ∈ [2; 0; 1]%nat) then 1 else 0)) ∧
    (∀ r, block_hash (pool_heap p' r) = block_hash (pool_heap demo_used r)).
Proof. apply free_blocks_correct; [apply demo_used_inv|apply demo_may_free]. Defined.

Lemma touch_correct_witness :
  ∃ p', touch demo_used (BId <$> [2; 0; 1]%nat) = Ok p' ∧
    pool_inv p' (filter (λ y, y ∉ [2; 0; 1]%nat) [3]%nat) ∧
    cached_block_hash_to_block p' = cached_block_hash_to_block demo_used ∧
    (∀ y, ref_cnt (pool_heap p' (BId y)) = ref_cnt (pool_heap demo_used (BId y)) + count y [2; 0; 1]%nat) ∧
    (∀ r, block_hash (pool_heap p' r) = block_hash (pool_heap demo_used r)).
Proof. apply touch_correct; [apply demo_used_inv|apply demo_may_free]. Defined.

Lemma get_cached_block_sound_witness :
  (∃ bs, get_cached_block demo_pool [7] [0; 1] = Ok (Some bs) ∧
     Forall2 (λ g b, ∃ x, (0 < x < pool_size demo_pool)%nat ∧ b = BId x ∧
                          block_hash (pool_heap demo_pool b) = Some (group_key [7] g)) [0; 1] bs) ∨
  (get_cached_block demo_pool [7] [0; 1] = Ok None ∧
   ∃ g, g ∈ [0; 1] ∧ ∀ x, (0 < x < pool_size demo_pool)%nat →
     block_hash (pool_heap demo_pool (BId x)) ≠ Some (group_key [7] g)).
Proof.
  apply (get_cached_block_sound demo_pool [1; 2; 3]%nat); [apply demo_pool_inv|].
  repeat constructor; unfold valid_group; lia.
Defined.

Lemma evict_blocks_correct_witness :
  ∃ p', evict_blocks demo_used (Z.of_nat <$> [2; 0; 1]%nat) = Ok p' ∧ pool_inv p' [3]%nat ∧
    (∀ x, ref_cnt (pool_heap p' (BId x)) = ref_cnt (pool_heap demo_used (BId x)) ∧
          block_hash (pool_heap p' (BId x)) =
            if decide (x ∈ [2; 0; 1]%nat) then None else block_hash (pool_heap demo_used (BId x))) ∧
    (∀ k, map_blocks (cached_block_hash_to_block p') k =
          filter (λ b, b ∉ BId <$> [2; 0; 1]%nat) (map_blocks (cached_block_hash_to_block demo_used) k)).
Proof. apply evict_blocks_correct; [apply demo_used_inv|apply demo_may_free]. Defined.
