(* ===== verification/PrefixCache.v ===== *)
(** * The prefix cache of the block pool

    What [BlockPool.cache_full_blocks] leaves behind, and the main theorems on
    the block pool: conservation of blocks, reference counts, eviction order,
    and the agreement of the hash map with the blocks' own hashes. *)

From Stdlib Require Import QArith.
From stdpp Require Import sorting.
From S2P Require Import Prelude OrderedDict KVBlock FreeQueue BlockHash BlockMap Request BlockHasher BlockHashList BlockPool.

#[local] Open Scope Z_scope.

(** ** Caching full blocks *)

(** The mask keeps index [i]. *)
Definition mask_on (mask : option (list bool)) (i : nat) : bool :=
  match mask with None => true | Some m => default false (m !! i) end.

(** The blocks [cache_full_blocks] caches, with their keys: those of [xs] (from
    index [i] of the new blocks) that are neither null nor masked out. *)
Fixpoint to_cache (xs : list nat) (i : nat) (mask : option (list bool)) (hashes : list bytes) (gid : Z)
    : list (nat * hash_key) :=
  match xs with
  | [] => []
  | x :: xs =>
      if bool_decide (x ≠ 0%nat) && mask_on mask i then
        (x, group_key (default [] (hashes !! i)) gid) :: to_cache xs (S i) mask hashes gid
      else to_cache xs (S i) mask hashes gid
  end.

(** The loop's requirements: every block to cache is of the pool, has no hash
    yet and is listed once, and its hash is known. *)
Definition cacheable (p : BlockPool) (xs : list nat) (i : nat) (mask : option (list bool))
    (hashes : list bytes) (gid : Z) : Prop :=
  in_pool p xs ∧ NoDup (to_cache xs i mask hashes gid).*1 ∧
  (∀ x k, (x, k) ∈ to_cache xs i mask hashes gid → block_hash (pool_heap p (BId x)) = None) ∧
  (length xs + i ≤ length hashes)%nat ∧
  (∀ m, mask = Some m → (length xs + i ≤ length m)%nat).

(** [p'] is [p] with the blocks of [cs] cached under their keys. *)
Definition cached_as (p p' : BlockPool) (cs : list (nat * hash_key)) : Prop :=
  (∀ x, ref_cnt (pool_heap p' (BId x)) = ref_cnt (pool_heap p (BId x)) ∧
        is_null (pool_heap p' (BId x)) = is_null (pool_heap p (BId x)) ∧
        block_hash (pool_heap p' (BId x)) =
          match od_get cs x with Some k => Some k | None => block_hash (pool_heap p (BId x)) end) ∧
  (∀ k, map_blocks (cached_block_hash_to_block p') k =
        map_blocks (cached_block_hash_to_block p) k ++ (BId <$> (filter (λ c, c.2 = k) cs).*1)).

Lemma cached_as_nil p : cached_as p p [].
Proof. split; [done|]. intros k. simpl. by rewrite app_nil_r. Qed.

Lemma cache_one_spec p l x k :
  pool_inv p l → (0 < x < pool_size p)%nat → block_hash (pool_heap p (BId x)) = None →
  let p1 := bmod p (BId x) (λ _, set_hash (Some k) (pool_heap p (BId x))) in
  let p2 := set_map (map_insert (pool_heap p1) (cached_block_hash_to_block p1) k (BId x)) p1 in
  pool_inv p2 l ∧ same_config p p2 ∧ cached_as p p2 [(x, k)] ∧ kv_event_queue p2 = kv_event_queue p.
Proof.
  intros [Hs Hb Hn Hq Hok] Hx Hh p1 p2.
  destruct (pool_ok_cache _ _ _ _ _ x k Hx Hh Hok) as [Hok' Hm]. split; [|split; [done|split; [split|done]]].
  - split; try done. apply (queue_repr_same_links _ _ _ Hq). intros r.
    unfold hmod. by case_decide; subst.
  - intros y. change (pool_heap p2) with (hmod (pool_heap p) (BId x) (λ _, set_hash (Some k) (pool_heap p (BId x)))).
    simpl. destruct (decide (y = x)) as [->|Hne]; [by rewrite hmod_eq|by rewrite hmod_ne by congruence].
  - intros k'. specialize (Hm k'). etransitivity; [apply Hm|].
    destruct (decide (k' = k)) as [->|Hne].
    + by rewrite filter_cons_True.
    + rewrite filter_cons_False by (simpl; congruence). simpl. by rewrite app_nil_r.
Qed.

Lemma cached_as_cons p1 p2 p3 x k cs :
  cached_as p1 p2 [(x, k)] → cached_as p2 p3 cs → x ∉ cs.*1 → cached_as p1 p3 ((x, k) :: cs).
Proof.
  intros [H1 M1] [H2 M2] Hx. split.
  - intros y. destruct (H1 y) as (E1 & E2 & E3), (H2 y) as (-> & -> & ->).
    rewrite E1, E2, E3. simpl. split; [done|]. split; [done|].
    destruct (decide (y = x)) as [->|Hne]; [|done]. apply od_get_None in Hx. by rewrite Hx.
  - intros k'. rewrite M2, M1, <-app_assoc. f_equal. rewrite <-fmap_app, <-fmap_app. do 2 f_equal.
    change ((x, k) :: cs) with ([(x, k)] ++ cs). by rewrite filter_app.
Qed.

Lemma cache_loop_spec p l xs i mask hashes gid nh :
  pool_inv p l → valid_group gid → cacheable p xs i mask hashes gid →
  ∃ p' nh', cache_loop p (BId <$> xs) i mask hashes gid nh = Ok (p', nh') ∧ pool_inv p' l ∧
    same_config p p' ∧ cached_as p p' (to_cache xs i mask hashes gid) ∧
    kv_event_queue p' = kv_event_queue p ∧
    nh' = nh ++ ((λ c, maybe_convert_block_hash (use_int_block_hashes p) (get_block_hash c.2)) <$>
                 to_cache xs i mask hashes gid).
Proof.
  intros Hp Hg. revert p i nh Hp. induction xs as [|x xs IH]; intros p i nh Hp (Hin & Hnd & Hun & Hlen & Hmask).
  { exists p, nh. csimpl. rewrite app_nil_r. split; [done|]. split; [done|]. split; [done|].
    split; [apply cached_as_nil|done]. }
  assert (x < pool_size p)%nat as Hx by (apply Hin; set_solver).
  rewrite fmap_cons. cbn [cache_loop to_cache] in *.
  rewrite (ok_null _ _ _ _ _ (inv_ok _ _ _ Hp)) by done.
  assert ((if bool_decide (x = 0%nat) then Ok true else masked_out mask i) =
          Ok (negb (bool_decide (x ≠ 0%nat) && mask_on mask i))) as ->.
  { destruct (decide (x = 0%nat)) as [->|Hx0].
    - done.
    - rewrite bool_decide_eq_false_2, bool_decide_eq_true_2 by done. simpl.
      destruct mask as [m|]; [|done]. simpl. unfold py_index. rewrite Nat2Z.id.
      specialize (Hmask m eq_refl). simpl in Hmask.
      destruct (m !! i) as [b|] eqn:E; [by destruct b|]. apply lookup_ge_None in E. lia. }
  cbn [mbind result_bind].
  destruct (bool_decide (x ≠ 0%nat) && mask_on mask i) eqn:Hsel.
  2:{ simpl. apply IH; [done|]. split_and!; try done.
      - intros n Hn. apply Hin. set_solver.
      - simpl in Hlen. lia.
      - intros m Hm. specialize (Hmask m Hm). simpl in Hmask. lia. }
  apply andb_prop in Hsel as [Hx0%bool_decide_eq_true _].
  simpl negb. csimpl in *. apply NoDup_cons in Hnd as [Hxn Hnd].
  assert (block_hash (pool_heap p (BId x)) = None) as Hnone by (eapply Hun, list_elem_of_here).
  rewrite bool_decide_eq_true_2 by done. simpl.
  destruct (hashes !! i) as [bh|] eqn:Ebh; [|apply lookup_ge_None in Ebh; simpl in Hlen; lia].
  unfold py_index. rewrite Nat2Z.id, Ebh. simpl. rewrite make_key_valid by done. simpl.
  unfold block_hash_setter. rewrite bool_decide_eq_true_2 by done. simpl. fold (group_key bh gid).
  destruct (cache_one_spec p l x (group_key bh gid) Hp ltac:(lia) Hnone) as (Hp2 & Hc2 & Hca & He2).
  set (p2 := set_map _ _) in *.
  edestruct (IH p2 (S i)) as (p' & nh' & Hrun & Hp' & Hc & Hca' & He & Hnh); [done| |].
  { split_and!.
    - intros n Hn. unfold pool_size. destruct Hc2 as (-> & _). apply Hin. set_solver.
    - done.
    - intros y k Hy. destruct Hca as [Hb _]. destruct (Hb y) as (_ & _ & ->). simpl.
      rewrite decide_False; [by eapply Hun, list_elem_of_further|]. intros ->. apply Hxn, list_elem_of_fmap.
      by exists (x, k).
    - simpl in Hlen. lia.
    - intros m Hm. specialize (Hmask m Hm). simpl in Hmask. lia. }
  exists p', nh'. split; [exact Hrun|]. split; [done|]. split; [by trans p2|].
  split; [by eapply cached_as_cons|]. split; [congruence|]. rewrite Hnh, <-app_assoc. f_equal. csimpl.
  unfold group_key at 1. by rewrite (proj1 (split_key bh gid)).
Qed.

(** *** The keys reported with the stored blocks *)

Lemma idx_ok_mono mm idx s s' : idx_ok mm idx s → s ≤ s' → idx_ok mm idx s'.
Proof. intros [H1 H2] Hs. split; [done|]. intros f Hf. specialize (H2 f Hf). lia. Qed.

(** The block at table index [i] is reported: neither null nor masked out. *)
Definition reported (tbl : list nat) (mask : option (list bool)) (a i : Z) : Prop :=
  tbl !! Z.to_nat i ≠ Some 0%nat ∧ mask_on mask (Z.to_nat (i - a)) = true.

#[export] Instance reported_dec tbl mask a i : Decision (reported tbl mask a i).
Proof. unfold reported. apply _. Defined.

Lemma stored_keys_loop_spec sha p tbl mask a bsz idxs idx acc r :
  (∀ n, n ∈ tbl → is_null (pool_heap p (BId n)) = bool_decide (n = 0%nat)) →
  0 ≤ bsz → 0 ≤ a → StronglySorted Z.lt idxs → (∀ i, i ∈ idxs → a ≤ i < zlen tbl) →
  (∀ m, mask = Some m → ∀ i, i ∈ idxs → i - a < zlen m) →
  mm_sorted (mm_features r) → memo_ok sha r →
  (∀ i, i ∈ idxs → idx_ok (mm_features r) idx (i * bsz)) →
  ∃ r', stored_keys_loop sha p (BId <$> tbl) mask a bsz idxs idx acc r =
          Ok (acc ++ ((λ i, block_keys sha r (i * bsz) (i * bsz + bsz)) <$> filter (reported tbl mask a) idxs), r') ∧
        same_but_memo r r' ∧ memo_ok sha r'.
Proof.
  intros Hnull Hb Ha Hso. revert idx acc r.
  induction Hso as [|i idxs Hso IH Hi]; intros idx acc r Hr Hm Hmm Hmemo Hidx.
  { exists r. simpl. by rewrite app_nil_r. }
  cbn [stored_keys_loop]. destruct (Hr i) as [Hi1 Hi2]; [set_solver|].
  destruct (tbl !! Z.to_nat i) as [x|] eqn:Ex; [|apply lookup_ge_None in Ex; unfold zlen in Hi2; lia].
  unfold py_index at 1. rewrite list_lookup_fmap, Ex. cbn [fmap option_fmap option_map mbind result_bind].
  rewrite Hnull by (by eapply list_elem_of_lookup_2).
  assert (reported tbl mask a i ↔ x ≠ 0%nat ∧ mask_on mask (Z.to_nat (i - a)) = true) as Hrep.
  { unfold reported. rewrite Ex. naive_solver. }
  assert ((if bool_decide (x = 0%nat) then Ok true else masked_out mask (Z.to_nat (i - a))) =
          Ok (negb (bool_decide (reported tbl mask a i)))) as ->.
  { rewrite (bool_decide_ext _ _ Hrep). destruct (decide (x = 0%nat)) as [->|Hx0].
    - rewrite bool_decide_eq_true_2, bool_decide_eq_false_2 by naive_solver. done.
    - rewrite bool_decide_eq_false_2 by done. unfold masked_out, mask_on. destruct mask as [m|].
      + unfold py_index. rewrite Nat2Z.id. specialize (Hm m eq_refl i ltac:(set_solver)).
        destruct (m !! Z.to_nat (i - a)) as [[]|] eqn:Eb; simpl.
        * by rewrite bool_decide_eq_true_2.
        * by rewrite bool_decide_eq_false_2 by naive_solver.
        * apply lookup_ge_None in Eb. unfold zlen in Hm. lia.
      + by rewrite bool_decide_eq_true_2. }
  cbn [mbind result_bind]. rewrite Forall_forall in Hi. rewrite filter_cons.
  destruct (decide (reported tbl mask a i)) as [Hsel|Hsel].
  2:{ rewrite bool_decide_eq_false_2 by done. simpl. apply IH; set_solver. }
  rewrite bool_decide_eq_true_2 by done. simpl negb. cbn match.
  destruct (generate_keys_spec sha r (i * bsz) (i * bsz + bsz) idx)
    as (idx' & r1 & -> & Hi' & Hs1 & Hm1); [done|apply Hidx; set_solver|lia|done|].
  cbn [mbind result_bind].
  pose proof (same_but_memo_fields _ _ Hs1) as (_ & _ & Hl & Hsa & He & Hf).
  edestruct (IH idx' (acc ++ [block_keys sha r (i * bsz) (i * bsz + bsz)]) r1) as (r2 & -> & Hs2 & Hm2).
  - set_solver.
  - set_solver.
  - by rewrite Hf.
  - done.
  - intros j Hj. rewrite Hf. eapply idx_ok_mono; [done|]. specialize (Hi j Hj). nia.
  - exists r2. split_and!; [|unfold same_but_memo in *; congruence|done].
    rewrite <-app_assoc. csimpl. do 4 f_equal.
    apply list_fmap_ext. intros ???. by apply block_keys_ext.
Qed.

Lemma py_range_sorted a b : StronglySorted Z.lt (py_range a b).
Proof.
  unfold py_range. generalize 0%nat at 1. induction (Z.to_nat (b - a)) as [|n IH]; intros k; csimpl;
    [constructor|]. constructor; [apply IH|]. apply Forall_forall.
  intros x (j & -> & [Hj _]%elem_of_seq)%list_elem_of_fmap. lia.
Qed.

(** *** The whole operation *)

(** The hashes at the granularity of the group. *)
Definition group_hashes (p : BlockPool) (r : Request) (bsz : Z) : BlockHashList :=
  if bsz =? hash_block_size p then PlainHashes (block_hashes r)
  else ScaledHashes (block_hashes r) (bsz / hash_block_size p).

(** The new full blocks of the table [tbl], and what is cached of them. *)
Definition newly_cached (p : BlockPool) (r : Request) (tbl : list nat) (a b bsz gid : Z)
    (mask : option (list bool)) : list (nat * hash_key) :=
  to_cache (py_slice tbl a b) 0 mask (bhl_from (group_hashes p r bsz) a) gid.

Record cache_pre (sha : list bytes → bytes) (p : BlockPool) (r : Request) (tbl : list nat)
    (a b bsz gid : Z) (mask : option (list bool)) : Prop := {
  pre_range : 0 ≤ a ≤ b ∧ b ≤ zlen tbl;
  pre_size : 0 < bsz ∧ 0 < hash_block_size p ∧ bsz mod hash_block_size p = 0;
  pre_hashes : b ≤ bhl_len (group_hashes p r bsz);
  pre_mask : ∀ m, mask = Some m → zlen m = b - a;
  pre_group : valid_group gid;
  pre_pool : in_pool p tbl;
  pre_nodup : NoDup (newly_cached p r tbl a b bsz gid mask).*1;
  pre_unhashed : ∀ x k, (x, k) ∈ newly_cached p r tbl a b bsz gid mask →
    block_hash (pool_heap p (BId x)) = None;
  pre_events : enable_kv_cache_events p = true → mm_sorted (mm_features r) ∧ memo_ok sha r;
}.

Lemma group_hashes_len p r bsz :
  0 < bsz → 0 < hash_block_size p → bsz mod hash_block_size p = 0 →
  bhl_len (group_hashes p r bsz) ≤ zlen (block_hashes r).
Proof.
  intros Hb Hh Hm. unfold group_hashes. destruct (Z.eqb_spec bsz (hash_block_size p)); simpl; [lia|].
  pose proof (zlen_nonneg (block_hashes r)).
  assert (0 < bsz / hash_block_size p) as Hs.
  { apply Z.mod_divide in Hm as [q ->]; [|lia]. rewrite Z.div_mul by lia. nia. }
  apply Z.div_le_upper_bound; nia.
Qed.

Lemma group_hashes_Ok p r bsz :
  0 < hash_block_size p → bsz mod hash_block_size p = 0 →
  (if bsz =? hash_block_size p then Ok (PlainHashes (block_hashes r))
   else if hash_block_size p =? 0 then Raise ZeroDivisionError
   else _ ← py_assert (bsz mod hash_block_size p =? 0);
     BlockHashListWithBlockSize (block_hashes r) (hash_block_size p) bsz)
  = Ok (group_hashes p r bsz).
Proof.
  intros Hp Hm. unfold group_hashes, BlockHashListWithBlockSize. destruct (bsz =? hash_block_size p); [done|].
  rewrite (proj2 (Z.eqb_neq _ _)), Hm by lia. done.
Qed.

(** The hash before the first new block, for the event. *)
Lemma parent_hash_Ok (hs : BlockHashList) a b use_int :
  0 ≤ a < b → b ≤ bhl_len hs →
  ∃ par, (if a =? 0 then Ok None else h ← bhl_get hs (a - 1); Ok (Some (maybe_convert_block_hash use_int h))) = Ok par.
Proof.
  intros Ha Hb. destruct (Z.eqb_spec a 0); [by eexists|].
  destruct (bhl_from_is_Some hs (a - 1) 0) as [h Hh']; [lia..|].
  apply bhl_from_lookup in Hh' as [_ Hh']; [|lia]. rewrite Z.add_0_r in Hh'. rewrite Hh'. by eexists.
Qed.

Lemma cache_full_blocks_spec sha p l r tbl a b bsz gid mask :
  pool_inv p l → cache_pre sha p r tbl a b bsz gid mask →
  ∃ p' r', cache_full_blocks sha p r (BId <$> tbl) a b bsz gid mask = Ok (p', r') ∧
    pool_inv p' l ∧ same_config p p' ∧ same_but_memo r r' ∧
    cached_as p p' (newly_cached p r tbl a b bsz gid mask) ∧
    (enable_kv_cache_events p = false → kv_event_queue p' = kv_event_queue p).
Proof.
  intros Hp [[Ha Hb] (Hs1 & Hs2 & Hs3) Hh Hm Hg Hin Hnd Hun Hev]. unfold cache_full_blocks.
  destruct (Z.leb_spec b a) as [Hle|Hlt].
  { exists p, r. split; [done|]. split; [done|]. split; [done|]. split; [done|]. split; [|done].
    assert (newly_cached p r tbl a b bsz gid mask = []) as ->; [|apply cached_as_nil].
    unfold newly_cached, py_slice. by replace (Z.to_nat b - Z.to_nat a)%nat with 0%nat by lia. }
  pose proof (group_hashes_len p r bsz Hs1 Hs2 Hs3).
  rewrite (proj2 (Z.leb_le _ _)) by lia. cbn [py_assert mbind result_bind].
  assert (py_slice (BId <$> tbl) a b = BId <$> py_slice tbl a b) as ->.
  { unfold py_slice. by rewrite fmap_take, fmap_drop. }
  assert (zlen (py_slice tbl a b) = b - a) as Hlen by (apply py_slice_length; lia).
  rewrite zlen_fmap, Hlen.
  assert ((match mask with None => true | Some m => zlen m =? b - a end) = true) as ->.
  { destruct mask as [m|]; [|done]. by apply Z.eqb_eq, Hm. }
  cbn [py_assert mbind result_bind].
  rewrite (group_hashes_Ok p r bsz Hs2 Hs3).
  cbn [mbind result_bind].
  destruct (cache_loop_spec p l (py_slice tbl a b) 0 mask (bhl_from (group_hashes p r bsz) a) gid [])
    as (p1 & nh & -> & Hp1 & Hc1 & Hca & He1 & _); [done|done| |].
  { split_and!; try done.
    - intros n Hn. apply Hin. unfold py_slice in Hn. by apply subseteq_take, subseteq_drop in Hn.
    - rewrite Nat.add_0_r. unfold zlen in Hlen.
      destruct (bhl_from_is_Some (group_hashes p r bsz) a (Z.to_nat (b - a) - 1)) as [h Hh']; [lia..|].
      apply lookup_lt_Some in Hh'. lia.
    - intros m Hm'. specialize (Hm m Hm'). unfold zlen in *. lia. }
  cbn [mbind result_bind]. assert (enable_kv_cache_events p1 = enable_kv_cache_events p) as ->.
  { by destruct Hc1 as (_ & _ & _ & _ & _ & ? & _). }
  destruct (enable_kv_cache_events p) eqn:Eev; simpl negb; cbn match.
  2:{ exists p1, r. done. }
  destruct (parent_hash_Ok (group_hashes p r bsz) a b (use_int_block_hashes p1)) as [par ->]; [lia|done|].
  destruct (Hev eq_refl) as [Hmm Hmemo]. cbn [mbind result_bind].
  destruct (stored_keys_loop_spec sha p1 tbl mask a bsz (py_range a b) 0 [] r)
    as (r' & -> & Hsame & _); try done; [|lia|lia|apply py_range_sorted|..].
  - intros n Hn. apply (ok_null _ _ _ _ _ (inv_ok _ _ _ Hp1)). unfold pool_size.
    destruct Hc1 as (-> & _). by apply Hin.
  - intros i Hi%elem_of_py_range. lia.
  - intros m Hm' i Hi%elem_of_py_range. specialize (Hm m Hm'). lia.
  - intros i Hi. split; [done|]. intros f. simpl. rewrite take_0. by intros ?%elem_of_nil.
  - cbn [mbind result_bind]. do 2 eexists. split; [done|].
    split; [by destruct Hp1|]. split; [done|]. split; [done|]. split; [|done].
    destruct Hca as [Hca1 Hca2]. split; [exact Hca1|exact Hca2].
Qed.

(** ** The pool as a state machine *)

(** The calls a client makes, with what each relies on. *)
Inductive pool_step (sha : list bytes → bytes) : BlockPool → BlockPool → Prop :=
  | step_alloc p n bs p' : 0 ≤ n → get_new_blocks p n = Ok (bs, p') → pool_step sha p p'
  | step_touch p bs p' : in_pool p bs → touch p (BId <$> bs) = Ok p' → pool_step sha p p'
  | step_free p bs p' : may_free p bs → free_blocks p (BId <$> bs) = Ok p' → pool_step sha p p'
  | step_evict p ids p' : in_pool p ids → evict_blocks p (Z.of_nat <$> ids) = Ok p' → pool_step sha p p'
  | step_reset p : pool_step sha p (reset_prefix_cache p).2
  | step_cache p r tbl a b bsz gid mask p' r' :
      cache_pre sha p r tbl a b bsz gid mask →
      cache_full_blocks sha p r (BId <$> tbl) a b bsz gid mask = Ok (p', r') → pool_step sha p p'
  | step_events p : pool_step sha p (take_events p).2.

Inductive pool_reachable (sha : list bytes → bytes) (n : Z) (caching : bool) (hbs : Z) (ev ih : bool)
    : BlockPool → Prop :=
  | reach_init p : init_pool n caching hbs ev ih = Ok p → pool_reachable sha n caching hbs ev ih p
  | reach_step p p' : pool_reachable sha n caching hbs ev ih p → pool_step sha p p' →
      pool_reachable sha n caching hbs ev ih p'.

Lemma pool_step_inv sha p p' l :
  pool_inv p l → pool_step sha p p' → same_config p p' ∧ ∃ l', pool_inv p' l'.
Proof.
  intros Hp Hstep. destruct Hstep as [p n bs p' Hn H|p bs p' Hb H|p bs p' Hb H|p ids p' Hb H|p|
    p r tbl a b bsz gid mask p' r' Hpre H|p].
  - destruct (decide (n ≤ zlen l)) as [Hle|Hgt]; [|rewrite (get_new_blocks_fail p l) in H by (done || lia); done].
    rewrite <-(Z2Nat.id n) in H by done.
    destruct (get_new_blocks_spec p l (Z.to_nat n) Hp) as (p1 & H1 & Hp1 & Hc & _);
      [unfold zlen in Hle; lia|]. rewrite H1 in H. simplify_eq. split; [done|by eexists].
  - destruct (touch_spec p l bs Hp Hb) as (p1 & H1 & Hp1 & Hc & _). rewrite H1 in H. simplify_eq. split; [done|by eexists].
  - destruct (free_blocks_spec p l bs Hp Hb) as (p1 & H1 & Hp1 & Hc & _). rewrite H1 in H. simplify_eq. split; [done|by eexists].
  - destruct (evict_blocks_spec p l ids Hp Hb) as (p1 & H1 & Hp1 & Hc & _). rewrite H1 in H. simplify_eq. split; [done|by eexists].
  - destruct (reset_prefix_cache_spec p l Hp) as (p1 & -> & Hp1 & Hc & _). split; [done|by eexists].
  - destruct (cache_full_blocks_spec _ _ _ _ _ _ _ _ _ _ Hp Hpre) as (p1 & r1 & H1 & Hp1 & Hc & _).
    rewrite H1 in H. simplify_eq. split; [done|by eexists].
  - unfold take_events. destruct (enable_kv_cache_events p); simpl; [|split; [done|by eexists]].
    split; [done|]. exists l. by destruct Hp.
Qed.

Lemma pool_reachable_inv sha n caching hbs ev ih p :
  0 < n → pool_reachable sha n caching hbs ev ih p → num_gpu_blocks p = n ∧ ∃ l, pool_inv p l.
Proof.
  intros Hn Hr. induction Hr as [p Hi|p p' Hr [IH1 [l IH2]] Hs].
  - destruct (init_pool_spec n caching hbs ev ih Hn) as (p0 & H0 & Hp0 & Hn0 & _).
    rewrite H0 in Hi. simplify_eq. eauto.
  - destruct (pool_step_inv _ _ _ _ IH2 Hs) as [(-> & _) ?]. done.
Qed.

(** The blocks requests hold. *)
Definition held (p : BlockPool) : list nat :=
  filter (λ x, ref_cnt (pool_heap p (BId x)) ≠ 0) (seq 1 (pool_size p - 1)).

Lemma free_list_perm p l :
  pool_inv p l → l ≡ₚ filter (λ x, ref_cnt (pool_heap p (BId x)) = 0) (seq 1 (pool_size p - 1)).
Proof.
  intros [_ _ _ Hq Hok]. apply NoDup_Permutation.
  - apply (repr_nodup _ _ Hq).
  - apply NoDup_filter, NoDup_seq.
  - intros x. rewrite list_elem_of_filter, elem_of_seq. split.
    + intros Hx. pose proof (ok_range _ _ _ _ _ Hok x (or_introl Hx)) as Hr.
      split; [|lia]. apply (ok_ref _ _ _ _ _ Hok); [done|by left].
    + intros [H0 Hr]. apply (ok_ref _ _ _ _ _ Hok) in H0; [|lia].
      destruct H0 as [?|?%elem_of_nil]; done.
Qed.

Lemma filter_length_split {A} (P : A → Prop) `{!∀ x, Decision (P x)} (l : list A) :
  zlen (filter P l) + zlen (filter (λ x, ¬ P x) l) = zlen l.
Proof.
  induction l as [|x l IH]; [done|]. rewrite !filter_cons, zlen_cons.
  repeat case_decide; rewrite ?zlen_cons; (tauto || lia).
Qed.

Lemma held_count p l : pool_inv p l → zlen l + zlen (held p) = num_gpu_blocks p - 1.
Proof.
  intros Hp. pose proof (free_list_perm p l Hp) as Hperm. pose proof (inv_size _ _ _ Hp).
  unfold zlen at 1. rewrite Hperm. fold (zlen (filter (λ x, ref_cnt (pool_heap p (BId x)) = 0)
    (seq 1 (pool_size p - 1)))). unfold held. rewrite filter_length_split. unfold zlen, pool_size.
  rewrite length_seq. lia.
Qed.

Lemma zlen_zero {A} (l : list A) : zlen l = 0 ↔ l = [].
Proof. unfold zlen. rewrite <-length_zero_iff_nil. lia. Qed.

(** ** Properties of the block pool *)

(** C2: in every state a client can bring a pool to, the free queue is a
    duplicate-free enumeration of exactly the blocks nobody holds (never the
    null block), the free counter is its length, free and held blocks add up to
    all blocks but the null one, and the hash map holds a block under a key iff
    the block carries that key. *)
Theorem pool_conservation sha n caching hbs ev ih p :
  0 < n → pool_reachable sha n caching hbs ev ih p →
  ∃ l, get_all_free_blocks (S (Z.to_nat n)) (free_block_queue p) = Ok (BId <$> l) ∧ NoDup l ∧
    (∀ x, x ∈ l ↔ (0 < x < Z.to_nat n)%nat ∧ ref_cnt (pool_heap p (BId x)) = 0) ∧
    get_num_free_blocks p = zlen l ∧
    get_num_free_blocks p + zlen (held p) = n - 1 ∧
    (∀ k b, b ∈ map_blocks (cached_block_hash_to_block p) k ↔
       ∃ x, (0 < x < Z.to_nat n)%nat ∧ b = BId x ∧ block_hash (pool_heap p b) = Some k).
Proof.
  intros Hn Hr. destruct (pool_reachable_inv _ _ _ _ _ _ _ Hn Hr) as [Hsz [l Hp]].
  assert (pool_size p = Z.to_nat n) as Hps by (unfold pool_size; by rewrite Hsz).
  pose proof (free_list_perm p l Hp) as Hperm. pose proof Hp as [_ _ _ Hq Hok].
  pose proof (held_count p l Hp) as Hcons. rewrite Hsz in Hcons.
  exists l. split_and!.
  - apply get_all_free_blocks_repr; [done|]. pose proof (zlen_nonneg (held p)). unfold zlen in *. lia.
  - apply (repr_nodup _ _ Hq).
  - intros x. rewrite Hperm, list_elem_of_filter, elem_of_seq, Hps. split; intros [??]; split; (done || lia).
  - apply (repr_count _ _ Hq).
  - unfold get_num_free_blocks. by rewrite (repr_count _ _ Hq).
  - rewrite <-Hps. apply (ok_map _ _ _ _ _ Hok).
Qed.

(** Caching the full blocks of a request's table succeeds, changes no
    reference count and no queue, gives each non-null unmasked new block the key
    of its hash and group, and makes every one of these hashes hit from then on,
    older blocks with the same key first. *)
Theorem cache_full_blocks_correct sha p l r tbl a b bsz gid mask :
  pool_inv p l → cache_pre sha p r tbl a b bsz gid mask →
  ∃ p' r', cache_full_blocks sha p r (BId <$> tbl) a b bsz gid mask = Ok (p', r') ∧ pool_inv p' l ∧
    (∀ x, ref_cnt (pool_heap p' (BId x)) = ref_cnt (pool_heap p (BId x)) ∧
          block_hash (pool_heap p' (BId x)) =
            match od_get (newly_cached p r tbl a b bsz gid mask) x with
            | Some k => Some k
            | None => block_hash (pool_heap p (BId x))
            end) ∧
    (∀ h, get_cached_block p' h [gid] =
       Ok ((λ b, [b]) <$> head (map_blocks (cached_block_hash_to_block p) (group_key h gid) ++
         (BId <$> (filter (λ c, c.2 = group_key h gid) (newly_cached p r tbl a b bsz gid mask)).*1)))).
Proof.
  intros Hp Hpre.
  destruct (cache_full_blocks_spec _ _ _ _ _ _ _ _ _ _ Hp Hpre)
    as (p' & r' & Hrun & Hp' & _ & _ & [Hx Hk] & _).
  exists p', r'. split; [done|]. split; [done|]. split.
  - intros x. destruct (Hx x) as (? & _ & ?). done.
  - intros h. rewrite (get_cached_block_spec p' l); [|done|apply Forall_singleton, Hpre].
    unfold lookup_groups. simpl. rewrite Hk. by destruct (head _).
Qed.

(** Resetting the prefix cache succeeds exactly when no request holds a
    block; then no block has a hash and every lookup misses, otherwise the pool
    is unchanged. *)
Theorem reset_prefix_cache_correct p l :
  pool_inv p l →
  ∃ p', reset_prefix_cache p = (bool_decide (held p = []), p') ∧ pool_inv p' l ∧
    if decide (held p = []) then
      (∀ h gids, Forall valid_group gids → gids ≠ [] → get_cached_block p' h gids = Ok None) ∧
      (∀ x, (x < pool_size p)%nat → block_hash (pool_heap p' (BId x)) = None)
    else p' = p.
Proof.
  intros Hp. destruct (reset_prefix_cache_spec p l Hp) as (p' & Hr & Hp' & _ & _ & Hif).
  assert (length l = (pool_size p - 1)%nat ↔ held p = []) as Hiff.
  { pose proof (held_count p l Hp) as Hs. pose proof (inv_size _ _ _ Hp).
    rewrite <-zlen_zero. unfold pool_size. unfold zlen in *. lia. }
  exists p'. rewrite (bool_decide_ext _ _ Hiff) in Hr. split; [done|]. split; [done|].
  destruct (decide (length l = (pool_size p - 1)%nat)) as [E|E]; rewrite Hiff in E.
  - rewrite decide_True by done. destruct Hif as [Hm Hb]. split; [|done]. intros h gids Hg Hne.
    rewrite (get_cached_block_spec p' l) by done. destruct gids as [|g gids]; [done|].
    unfold lookup_groups. simpl. by rewrite Hm.
  - by rewrite decide_False.
Qed.

(** The reported usage lies between zero and one, is zero exactly when no
    block is held and one exactly when none is free (for a pool of more than the
    null block). *)
Theorem get_usage_bounds p l :
  pool_inv p l → 1 < num_gpu_blocks p →
  (0 <= get_usage p <= 1)%Q ∧ (get_usage p == 0 ↔ held p = [])%Q ∧ (get_usage p == 1 ↔ l = [])%Q.
Proof.
  intros Hp Hn. unfold get_usage, get_num_free_blocks. rewrite (proj2 (Z.eqb_neq _ _)) by lia.
  rewrite (repr_count _ _ (inv_queue _ _ _ Hp)).
  pose proof (held_count p l Hp) as Hsum. set (T := num_gpu_blocks p - 1) in *.
  assert (0 < T) as HT by (unfold T; lia).
  pose proof (zlen_nonneg l). pose proof (zlen_nonneg (held p)).
  assert (held p = [] ↔ zlen l = T) as -> by (rewrite <-zlen_zero; lia).
  rewrite <-zlen_zero.
  clearbody T. clear -HT Hsum H H0.
  destruct T as [|t|t]; [lia| |lia].
  unfold Qle, Qeq, Qminus, Qplus, Qopp, Qdiv, Qmult, Qinv, inject_Z. simpl. lia.
Qed.

(** ** Concrete instances *)

#[local] Opaque demo_used.

Lemma pool_conservation_witness :
  ∃ l, get_all_free_blocks 5 (free_block_queue demo_used) = Ok (BId <$> l) ∧ NoDup l ∧
    (∀ x, x ∈ l ↔ (0 < x < 4)%nat ∧ ref_cnt (pool_heap demo_used (BId x)) = 0) ∧
    get_num_free_blocks demo_used = zlen l ∧
    get_num_free_blocks demo_used + zlen (held demo_used) = 4 - 1 ∧
    (∀ k b, b ∈ map_blocks (cached_block_hash_to_block demo_used) k ↔
       ∃ x, (0 < x < 4)%nat ∧ b = BId x ∧ block_hash (pool_heap demo_used b) = Some k).
Proof.
  apply (pool_conservation (λ _, []) 4 true 2 true false demo_used); [lia|].
  eapply reach_step; [by apply reach_init|].
  eapply step_alloc; [|exact demo_used_run]. lia.
Defined.

(** Two full blocks of the demo request are cached, with the event on. *)
Lemma demo_cache_pre : cache_pre demo_sha demo_used demo_request [1; 2]%nat 0 2 2 0 (Some [true; true]).
Proof.
  destruct demo_used_all as (_ & _ & (_ & _ & Eh & _) & _ & _ & H1 & H2).
  assert ((newly_cached demo_used demo_request [1; 2]%nat 0 2 2 0 (Some [true; true])).*1 = [1; 2]%nat)
    as Enew by reflexivity.
  split.
  - by vm_compute.
  - by rewrite Eh.
  - unfold group_hashes. rewrite Eh. by vm_compute.
  - by intros m [= <-].
  - by vm_compute.
  - intros n Hn. apply (proj1 demo_may_free). set_solver.
  - rewrite Enew. apply (bool_decide_unpack _). vm_compute. exact I.
  - intros x k Hx. apply (list_elem_of_fmap_2 fst) in Hx. rewrite Enew in Hx. simpl in Hx.
    repeat (apply elem_of_cons in Hx as [->|Hx]; [done|]). by apply elem_of_nil in Hx.
  - intros _. split; [apply demo_mm_sorted|]. by intros a b h.
Qed.

Lemma cache_full_blocks_correct_witness :
  ∃ p' r', cache_full_blocks demo_sha demo_used demo_request (BId <$> [1; 2]%nat) 0 2 2 0
             (Some [true; true]) = Ok (p', r') ∧ pool_inv p' [3]%nat ∧
    (∀ x, ref_cnt (pool_heap p' (BId x)) = ref_cnt (pool_heap demo_used (BId x)) ∧
          block_hash (pool_heap p' (BId x)) =
            match od_get (newly_cached demo_used demo_request [1; 2]%nat 0 2 2 0 (Some [true; true])) x with
            | Some k => Some k
            | None => block_hash (pool_heap demo_used (BId x))
            end) ∧
    (∀ h, get_cached_block p' h [0] =
       Ok ((λ b, [b]) <$> head (map_blocks (cached_block_hash_to_block demo_used) (group_key h 0) ++
         (BId <$> (filter (λ c, c.2 = group_key h 0)
            (newly_cached demo_used demo_request [1; 2]%nat 0 2 2 0 (Some [true; true]))).*1)))).
Proof. apply cache_full_blocks_correct; [apply demo_used_inv|apply demo_cache_pre]. Defined.

Lemma reset_prefix_cache_correct_witness :
  ∃ p', reset_prefix_cache demo_pool = (bool_decide (held demo_pool = []), p') ∧ pool_inv p' [1; 2; 3]%nat ∧
    if decide (held demo_pool = []) then
      (∀ h gids, Forall valid_group gids → gids ≠ [] → get_cached_block p' h gids = Ok None) ∧
      (∀ x, (x < pool_size demo_pool)%nat → block_hash (pool_heap p' (BId x)) = None)
    else p' = demo_pool.
Proof. apply reset_prefix_cache_correct, demo_pool_inv. Defined.

Lemma get_usage_bounds_witness :
  (0 <= get_usage demo_used <= 1)%Q ∧ (get_usage demo_used == 0 ↔ held demo_used = [])%Q ∧
  (get_usage demo_used == 1 ↔ [3]%nat = [])%Q.
Proof. apply get_usage_bounds; [apply demo_used_inv|]. by destruct demo_used_config as (-> & _). Defined.
