(* ===== verification/Ownership.v ===== *)
(** * Block ownership

    Every reference a block counts is an occurrence of the block in some
    request's block table.  [owns p l t ext] says so for a pool [p] with free
    list [l], the block tables [t] of one KV-cache group and [ext x] references
    to block [x] from elsewhere (the other groups).  The lemmas here say how the
    pool operations change the tables; the managers' theorems are built from
    them. *)

From S2P Require Import Prelude KVBlock FreeQueue BlockMap BlockPool.

#[local] Open Scope Z_scope.

Abbreviation tables := (gmap string (list bref)).

(** Occurrences of block [x] in a table and in all tables. *)
Definition bcount (x : nat) (bs : list bref) : Z := zlen (filter (λ b, b = BId x) bs).

Definition tcount (x : nat) (t : tables) : Z := map_fold (λ _ bs a, bcount x bs + a) 0 t.

Lemma bcount_nonneg x bs : 0 ≤ bcount x bs.
Proof. apply zlen_nonneg. Qed.

Lemma bcount_app x bs1 bs2 : bcount x (bs1 ++ bs2) = bcount x bs1 + bcount x bs2.
Proof. unfold bcount. by rewrite filter_app, zlen_app. Qed.

Lemma bcount_fmap x xs : bcount x (BId <$> xs) = count x xs.
Proof.
  unfold bcount, count. induction xs as [|y xs IH]; [done|]. rewrite fmap_cons, !filter_cons.
  destruct (decide (y = x)) as [->|Hne].
  - rewrite decide_True by done. rewrite !zlen_cons. lia.
  - rewrite decide_False by congruence. done.
Qed.

Lemma bcount_zero x bs : BId x ∉ bs → bcount x bs = 0.
Proof.
  intros Hx. unfold bcount. induction bs as [|b bs IH]; [done|].
  rewrite filter_cons_False by set_solver. apply IH. set_solver.
Qed.

Lemma bcount_pos x bs : BId x ∈ bs → 0 < bcount x bs.
Proof.
  intros Hx. unfold bcount. assert (BId x ∈ filter (λ b, b = BId x) bs) as Hf by (by apply list_elem_of_filter).
  destruct (filter _ bs); [by apply elem_of_nil in Hf|]. rewrite zlen_cons. pose proof (zlen_nonneg l). lia.
Qed.

Lemma count_nodup x xs : NoDup xs → count x xs = if decide (x ∈ xs) then 1 else 0.
Proof.
  induction xs as [|y xs IH]; intros Hnd; [done|]. apply NoDup_cons in Hnd as [Hy Hnd].
  rewrite count_cons, IH by done. repeat case_decide; subst; set_solver.
Qed.

(** Only non-null blocks are counted, so repeated null blocks do not matter. *)
Lemma count_nonnull x xs : x ≠ 0%nat → count x (filter (λ y, y ≠ 0%nat) xs) = count x xs.
Proof.
  intros Hx. induction xs as [|y xs IH]; [done|]. rewrite filter_cons. case_decide as Hy.
  - rewrite !count_cons, IH. done.
  - rewrite count_cons, IH. rewrite decide_False by (intros ->; tauto). lia.
Qed.

Lemma count_may x xs :
  x ≠ 0%nat → NoDup (filter (λ y, y ≠ 0%nat) xs) → count x xs = if decide (x ∈ xs) then 1 else 0.
Proof.
  intros Hx Hnd. rewrite <-count_nonnull, count_nodup by done.
  assert (x ∈ filter (λ y, y ≠ 0%nat) xs ↔ x ∈ xs) by (rewrite list_elem_of_filter; tauto).
  repeat case_decide; tauto.
Qed.

Lemma tcount_empty x : tcount x ∅ = 0.
Proof. apply map_fold_empty. Qed.

Lemma tcount_delete x (t : tables) id bs :
  t !! id = Some bs → tcount x t = bcount x bs + tcount x (delete id t).
Proof.
  intros H. unfold tcount. rewrite (map_fold_delete_L _ _ id bs t); [done| |done].
  intros. lia.
Qed.

Lemma tcount_insert x (t : tables) id bs :
  tcount x (<[id := bs]> t) = tcount x t - bcount x (default [] (t !! id)) + bcount x bs.
Proof.
  rewrite (tcount_delete x (<[id := bs]> t) id bs) by apply lookup_insert_eq.
  rewrite delete_insert_eq. destruct (t !! id) as [bs0|] eqn:E; simpl.
  - rewrite (tcount_delete x t id bs0) by done. lia.
  - rewrite delete_id by done. change (bcount x []) with 0. lia.
Qed.

Lemma tcount_nonneg x t : 0 ≤ tcount x t.
Proof.
  unfold tcount. apply (map_fold_weak_ind (λ a _, 0 ≤ a)); [done|].
  intros ??? a _ Ha. pose proof (bcount_nonneg x x0). lia.
Qed.

Lemma tcount_ge x (t : tables) id bs : t !! id = Some bs → bcount x bs ≤ tcount x t.
Proof. intros H. rewrite (tcount_delete _ _ _ _ H). pose proof (tcount_nonneg x (delete id t)). lia. Qed.

Lemma tcount_pos_inv x t : tcount x t ≠ 0 → ∃ id bs, t !! id = Some bs ∧ BId x ∈ bs.
Proof.
  unfold tcount. apply (map_fold_weak_ind (λ a t, a ≠ 0 → ∃ id bs, t !! id = Some bs ∧ BId x ∈ bs)); [done|].
  intros id bs t' a Hid IH Hne. destruct (decide (BId x ∈ bs)) as [Hin|Hnin].
  - exists id, bs. by rewrite lookup_insert_eq.
  - rewrite bcount_zero in Hne by done. destruct IH as (id' & bs' & Hid' & Hin); [lia|].
    exists id', bs'. split; [|done]. rewrite lookup_insert_ne by congruence. done.
Qed.

(** ** The invariant *)

(** A block table: pool blocks, each at most once apart from the null block. *)
Definition table_ok (p : BlockPool) (bs : list bref) : Prop :=
  ∃ xs, bs = BId <$> xs ∧ in_pool p xs ∧ NoDup (filter (λ x, x ≠ 0%nat) xs).

Record owns (p : BlockPool) (l : list nat) (t : tables) (ext : nat → Z) : Prop := {
  own_pool : pool_inv p l;
  own_ext : ∀ x, 0 ≤ ext x;
  own_ref : ∀ x, (0 < x < pool_size p)%nat → ref_cnt (pool_heap p (BId x)) = tcount x t + ext x;
  own_tables : ∀ id bs, t !! id = Some bs → table_ok p bs;
}.

Lemma same_config_size p p' : same_config p p' → pool_size p' = pool_size p.
Proof. intros (E & _). unfold pool_size. by rewrite E. Qed.

Lemma table_ok_config p p' bs : same_config p p' → table_ok p bs → table_ok p' bs.
Proof.
  intros Hc (xs & -> & Hin & Hnd). exists xs. split; [done|]. split; [|done].
  intros n Hn. rewrite (same_config_size p p' Hc). by apply Hin.
Qed.

(** Building [owns] after a pool operation that replaced one table. *)
Lemma owns_update p p' l l' t id bs ext (d : nat → Z) :
  owns p l t ext → pool_inv p' l' → same_config p p' → table_ok p bs →
  (∀ x, (0 < x < pool_size p)%nat →
     ref_cnt (pool_heap p' (BId x)) = ref_cnt (pool_heap p (BId x)) + d x ∧
     bcount x bs = bcount x (default [] (t !! id)) + d x) →
  owns p' l' (<[id := bs]> t) ext.
Proof.
  intros [Hp He Hr Ht] Hp' Hc Hbs Hd. pose proof (same_config_size _ _ Hc) as Hsz. split; try done.
  - intros x Hx. rewrite Hsz in Hx. destruct (Hd x Hx) as [-> E]. rewrite (Hr x Hx), tcount_insert. lia.
  - intros id' bs'. destruct (decide (id = id')) as [->|Hne].
    + rewrite lookup_insert_eq. intros [= <-]. by eapply table_ok_config.
    + rewrite lookup_insert_ne by done. intros Hl. eapply table_ok_config; [done|]. by eapply Ht.
Qed.

(** The table of a request, empty if it has none. *)
Lemma owns_default p l t ext id : owns p l t ext → table_ok p (default [] (t !! id)).
Proof.
  intros Ho. destruct (t !! id) as [bs|] eqn:E; simpl; [by eapply (own_tables _ _ _ _ Ho)|].
  exists []. split; [done|]. split; [by intros n ?%elem_of_nil|]. constructor.
Qed.

(** Creating an empty entry changes nothing. *)
Lemma owns_touch_entry p l t ext id :
  owns p l t ext → owns p l (<[id := default [] (t !! id)]> t) ext.
Proof.
  intros Ho. eapply (owns_update p p l l t id _ ext (λ _, 0)); [done|apply Ho|done| |].
  - by eapply owns_default.
  - intros x _. lia.
Qed.

(** A free block is in no table. *)
Lemma owns_free_absent p l t ext x id :
  owns p l t ext → x ∈ l → BId x ∉ default [] (t !! id).
Proof.
  intros Ho Hx Hin. pose proof (inv_ok _ _ _ (own_pool _ _ _ _ Ho)) as Hok.
  pose proof (ok_range _ _ _ _ _ Hok x (or_introl Hx)) as Hr.
  assert (ref_cnt (pool_heap p (BId x)) = 0) as H0 by (apply (ok_ref _ _ _ _ _ Hok); [done|by left]).
  rewrite (own_ref _ _ _ _ Ho x Hr) in H0. pose proof (own_ext _ _ _ _ Ho x).
  destruct (t !! id) as [bs|] eqn:E; simpl in Hin; [|by apply elem_of_nil in Hin].
  pose proof (tcount_ge x t id bs E). pose proof (bcount_pos x bs Hin). lia.
Qed.

Lemma filter_nonnull_app (xs ys : list nat) :
  filter (λ x, x ≠ 0%nat) (xs ++ ys) = filter (λ x, x ≠ 0%nat) xs ++ filter (λ x, x ≠ 0%nat) ys.
Proof. apply filter_app. Qed.

(** Appending newly allocated blocks to a table. *)
Lemma owns_extend p l t ext id (n : nat) :
  owns p l t ext → (n ≤ length l)%nat →
  ∃ p', get_new_blocks p (Z.of_nat n) = Ok (BId <$> take n l, p') ∧ same_config p p' ∧
    owns p' (drop n l) (<[id := default [] (t !! id) ++ (BId <$> take n l)]> t) ext.
Proof.
  intros Ho Hn. pose proof (own_pool _ _ _ _ Ho) as Hp.
  destruct (get_new_blocks_spec p l n Hp Hn) as (p' & Hrun & Hp' & Hc & Hx & _).
  exists p'. split; [done|]. split; [done|].
  assert (NoDup (take n l)) as Hnd.
  { pose proof (repr_nodup _ _ (inv_queue _ _ _ Hp)) as Hnd. rewrite <-(take_drop n l) in Hnd.
    by apply NoDup_app in Hnd as (? & _). }
  assert (∀ x, x ∈ take n l → x ∈ l) as Hsub by (intros x; apply subseteq_take).
  pose proof (inv_ok _ _ _ Hp) as Hok.
  destruct (owns_default _ _ _ _ id Ho) as (xs & Exs & Hin & Hxs).
  eapply (owns_update p p' l _ t id _ ext (λ x, if decide (x ∈ take n l) then 1 else 0)); [done|done|done| |].
  - exists (xs ++ take n l). rewrite fmap_app, <-Exs. split; [done|]. split.
    + intros y [Hy|Hy]%elem_of_app; [by apply Hin|]. apply Hsub in Hy.
      apply (ok_range _ _ _ _ _ Hok). by left.
    + rewrite filter_nonnull_app. apply NoDup_app. split; [done|]. split; [|by apply NoDup_filter].
      intros y [_ Hy]%list_elem_of_filter [_ Hy']%list_elem_of_filter.
      apply (owns_free_absent _ _ _ _ y id Ho); [by apply Hsub|]. rewrite Exs. by apply list_elem_of_fmap_2.
  - intros x Hxr. destruct (Hx x) as [-> _]. split.
    + destruct (decide (x ∈ take n l)) as [Hxt|Hxt]; [|lia].
      assert (ref_cnt (pool_heap p (BId x)) = 0) as H0; [|lia].
      apply (ok_ref _ _ _ _ _ Hok); [done|]. left. by apply Hsub.
    + rewrite bcount_app, bcount_fmap, (count_nodup x) by done. done.
Qed.

(** Adding prefix-cache hits, behind null blocks, to an empty table. *)
Lemma owns_hits p l t ext id (k : nat) xs :
  owns p l t ext → default [] (t !! id) = [] → in_pool p xs → NoDup (filter (λ x, x ≠ 0%nat) xs) →
  ∃ p', touch p (BId <$> xs) = Ok p' ∧ same_config p p' ∧
    owns p' (filter (λ y, y ∉ xs) l) (<[id := replicate k (BId 0) ++ (BId <$> xs)]> t) ext.
Proof.
  intros Ho Hempty Hin Hnd.
  destruct (touch_spec p l xs (own_pool _ _ _ _ Ho) Hin) as (p' & Hrun & Hp' & Hc & _ & _ & Hr & _).
  exists p'. split; [done|]. split; [done|].
  assert (0 < pool_size p)%nat as Hpos.
  { unfold pool_size. pose proof (inv_size _ _ _ (own_pool _ _ _ _ Ho)). lia. }
  eapply (owns_update p p' l _ t id _ ext (λ x, count x xs)); [done|done|done| |].
  - exists (replicate k 0%nat ++ xs). rewrite fmap_app, fmap_replicate. split; [done|]. split.
    + intros y [Hy|Hy]%elem_of_app; [|by apply Hin]. by apply elem_of_replicate in Hy as [-> _].
    + rewrite filter_nonnull_app. replace (filter (λ x, x ≠ 0%nat) (replicate k 0%nat)) with (@nil nat); [done|].
      symmetry. induction k as [|k IH]; [done|]. simpl. by rewrite filter_cons_False by tauto.
  - intros x Hxr. split; [by rewrite Hr|]. rewrite Hempty, bcount_app, bcount_fmap.
    change (bcount x []) with 0. rewrite (bcount_zero x (replicate k _)); [lia|].
    intros Hx%elem_of_replicate. destruct Hx as [[= ->] _]. lia.
Qed.

(** What a request owns may be freed. *)
Lemma owns_may_free p l t ext id bs xs ys :
  owns p l t ext → t !! id = Some bs → bs = BId <$> xs → in_pool p xs →
  NoDup (filter (λ x, x ≠ 0%nat) xs) → ys ⊆ xs → NoDup (filter (λ x, x ≠ 0%nat) ys) → may_free p ys.
Proof.
  intros Ho Hid -> Hin Hnd Hsub Hnd'. split; [intros n Hn; by apply Hin, Hsub|]. split; [done|].
  intros x Hx Hx0. assert (x ∈ xs) as Hxs by by apply Hsub.
  rewrite (own_ref _ _ _ _ Ho x) by (specialize (Hin x Hxs); lia).
  pose proof (own_ext _ _ _ _ Ho x). pose proof (tcount_ge x t id _ Hid).
  pose proof (bcount_pos x (BId <$> xs) ltac:(by apply list_elem_of_fmap_2)). lia.
Qed.

(** Freeing part of a table: the blocks [ys] are replaced, everything else of
    the table stays. *)
Lemma owns_release p l t ext id xs xs' ys :
  owns p l t ext → t !! id = Some (BId <$> xs) → in_pool p xs' → NoDup (filter (λ x, x ≠ 0%nat) xs') →
  ys ⊆ xs → NoDup (filter (λ x, x ≠ 0%nat) ys) →
  (∀ x, x ≠ 0%nat → count x xs = count x xs' + count x ys) →
  ∃ p', free_blocks p (BId <$> ys) = Ok p' ∧ same_config p p' ∧
    owns p' (after_free (pool_heap p) l ys) (<[id := BId <$> xs']> t) ext.
Proof.
  intros Ho Hid Hin' Hnd' Hsub Hys Hcount.
  destruct (own_tables _ _ _ _ Ho _ _ Hid) as (xs0 & E & Hin & Hnd).
  apply (inj (fmap BId)) in E as <-.
  assert (may_free p ys) as Hmf by (by eapply owns_may_free).
  destruct (free_blocks_spec p l ys (own_pool _ _ _ _ Ho) Hmf) as (p' & Hrun & Hp' & Hc & _ & _ & Hr & _).
  exists p'. split; [done|]. split; [done|].
  eapply (owns_update p p' l _ t id _ ext (λ x, - count x ys)); [done|done|done| |].
  - by exists xs'.
  - intros x Hxr. rewrite Hr by lia. rewrite (count_may x ys) by (done || lia). split; [lia|].
    rewrite Hid. simpl. rewrite !bcount_fmap, Hcount, (count_may x ys) by (done || lia). lia.
Qed.

(** An operation that changes neither reference counts nor tables. *)
Lemma owns_same_refs p p' l l' t ext :
  owns p l t ext → pool_inv p' l' → same_config p p' →
  (∀ x, ref_cnt (pool_heap p' (BId x)) = ref_cnt (pool_heap p (BId x))) → owns p' l' t ext.
Proof.
  intros [Hp He Hr Ht] Hp' Hc Hx. pose proof (same_config_size _ _ Hc) as Hsz. split; try done.
  - intros x Hxr. rewrite Hsz in Hxr. rewrite Hx. by apply Hr.
  - intros id bs Hid. eapply table_ok_config; [done|]. by eapply Ht.
Qed.

(** Dropping an empty table. *)
Lemma owns_delete_empty p l t ext id : owns p l (<[id := []]> t) ext → owns p l (delete id t) ext.
Proof.
  intros [Hp He Hr Ht]. split; try done.
  - intros x Hx. rewrite (Hr x Hx), (tcount_delete x _ id []) by apply lookup_insert_eq.
    by rewrite delete_insert_eq.
  - intros id' bs [Hne Hl]%lookup_delete_Some. apply (Ht id'). by rewrite lookup_insert_ne.
Qed.

(** Freeing a whole table, tail first. *)
Lemma owns_free_table p l t ext id :
  owns p l t ext →
  ∃ p' xs, default [] (t !! id) = BId <$> xs ∧
    free_blocks p (reverse (default [] (t !! id))) = Ok p' ∧ same_config p p' ∧
    owns p' (after_free (pool_heap p) l (reverse xs)) (delete id t) ext.
Proof.
  intros Ho. pose proof (owns_touch_entry _ _ _ _ id Ho) as Ho'.
  destruct (owns_default _ _ _ _ id Ho) as (xs & E & Hin & Hnd).
  rewrite E in *. rewrite <-fmap_reverse.
  assert (filter (λ x, x ≠ 0%nat) (reverse xs) ≡ₚ filter (λ x, x ≠ 0%nat) xs) as Hperm.
  { apply filter_Permutation, reverse_Permutation. }
  destruct (owns_release p l (<[id := BId <$> xs]> t) ext id xs [] (reverse xs) Ho')
    as (p' & Hrun & Hc & Hown).
  - apply lookup_insert_eq.
  - by intros n ?%elem_of_nil.
  - constructor.
  - intros x Hx. by rewrite elem_of_reverse in Hx.
  - by rewrite Hperm.
  - intros x Hx. change (count x []) with 0. rewrite !count_may; [|done|by rewrite Hperm|done|done].
    assert (x ∈ reverse xs ↔ x ∈ xs) as Hrev by apply elem_of_reverse. repeat case_decide; (lia || tauto).
  - exists p', xs. split; [done|]. split; [done|]. split; [done|].
    rewrite insert_insert_eq in Hown. by apply owns_delete_empty.
Qed.

(** ** Blocks outside the attention window *)

(** Nulling the blocks before index [n], from the right until one is null. *)
Definition nulled (n k : nat) (xs : list nat) : list nat :=
  take k xs ++ replicate (n - k) 0%nat ++ drop n xs.
Definition removed (n k : nat) (xs : list nat) : list nat := reverse (take (n - k) (drop k xs)).

Lemma split3 (n k : nat) (xs : list nat) :
  (k ≤ n ≤ length xs)%nat → xs = take k xs ++ take (n - k) (drop k xs) ++ drop n xs.
Proof.
  intros H. rewrite <-(take_drop k xs) at 1. f_equal. rewrite <-(take_drop (n - k) (drop k xs)) at 1.
  f_equal. rewrite drop_drop. f_equal. lia.
Qed.

Lemma filter_replicate_null k : filter (λ x, x ≠ 0%nat) (replicate k 0%nat) = [].
Proof. induction k as [|k IH]; [done|]. simpl. by rewrite filter_cons_False by tauto. Qed.

Lemma count_filter_app x xs ys : count x (xs ++ ys) = count x xs + count x ys.
Proof. unfold count. by rewrite filter_app, zlen_app. Qed.

Lemma count_reverse x xs : count x (reverse xs) = count x xs.
Proof.
  unfold count, zlen. f_equal. apply Permutation_length, filter_Permutation, reverse_Permutation.
Qed.

(** Replacing the removed part of a table by null blocks and freeing it. *)
Lemma owns_remove p l t ext id xs n k :
  owns p l t ext → t !! id = Some (BId <$> xs) → (k ≤ n ≤ length xs)%nat →
  ∃ p', free_blocks p (BId <$> removed n k xs) = Ok p' ∧ same_config p p' ∧
    owns p' (after_free (pool_heap p) l (removed n k xs)) (<[id := BId <$> nulled n k xs]> t) ext.
Proof.
  intros Ho Hid Hk. destruct (own_tables _ _ _ _ Ho _ _ Hid) as (xs0 & E & Hin & Hnd).
  apply (inj (fmap BId)) in E as <-. pose proof (split3 n k xs Hk) as Hsplit.
  assert (0 < pool_size p)%nat as Hpos.
  { unfold pool_size. pose proof (inv_size _ _ _ (own_pool _ _ _ _ Ho)). lia. }
  apply (owns_release p l t ext id xs); [done|done| | | | |].
  - intros y Hy. unfold nulled in Hy. rewrite !elem_of_app in Hy.
    destruct Hy as [Hy|[Hy|Hy]]; [|by apply elem_of_replicate in Hy as [-> _]|];
      apply Hin; [by apply subseteq_take in Hy|by apply subseteq_drop in Hy].
  - unfold nulled. rewrite !filter_nonnull_app, filter_replicate_null. simpl.
    rewrite Hsplit, !filter_nonnull_app in Hnd.
    apply NoDup_app in Hnd as (H1 & H12 & (_ & _ & H3)%NoDup_app). apply NoDup_app.
    split; [done|]. split; [|done]. intros x Hx Hx'. apply (H12 x Hx). apply elem_of_app. by right.
  - intros y Hy. unfold removed in Hy. rewrite elem_of_reverse in Hy.
    by apply subseteq_take, subseteq_drop in Hy.
  - unfold removed. rewrite (filter_Permutation _ _ _ (reverse_Permutation _)).
    rewrite Hsplit, !filter_nonnull_app in Hnd. by apply NoDup_app in Hnd as (_ & _ & (? & _)%NoDup_app).
  - intros x Hx. unfold nulled, removed. rewrite count_reverse. rewrite Hsplit at 1.
    rewrite !count_filter_app.
    assert (count x (replicate (n - k) 0%nat) = 0) as ->; [|lia].
    rewrite <-count_nonnull, filter_replicate_null by done. done.
Qed.
