(* ===== verification/KVSpecs.v ===== *)
(** * KV-cache specifications

    The layer specifications of [vllm/v1/kv_cache_interface.py]: one constructor
    per concrete class, with the page sizes, the memory bounds and the
    per-request admission caps.  A data type is its name and element size.
    Merging and [UniformTypeKVCacheSpecs] (layers of several page sizes) are in
    [KVMerge]. *)

From S2P Require Import Prelude MathUtils.

#[local] Open Scope Z_scope.

Inductive KVQuantMode := QNone | FP8_PER_TENSOR | INT8_PER_TOKEN_HEAD | FP8_PER_TOKEN_HEAD | NVFP4.

#[export] Instance KVQuantMode_eq_dec : EqDecision KVQuantMode.
Proof. solve_decision. Defined.

Definition is_per_token_head (m : KVQuantMode) : bool :=
  match m with INT8_PER_TOKEN_HEAD | FP8_PER_TOKEN_HEAD => true | _ => false end.
Definition is_nvfp4 (m : KVQuantMode) : bool :=
  match m with NVFP4 => true | _ => false end.

(** [s.startswith("fp8")] *)
Definition get_kv_quant_mode (kv_cache_dtype : string) : KVQuantMode :=
  if String.eqb kv_cache_dtype "int8_per_token_head" then INT8_PER_TOKEN_HEAD
  else if String.eqb kv_cache_dtype "fp8_per_token_head" then FP8_PER_TOKEN_HEAD
  else if String.eqb kv_cache_dtype "nvfp4" then NVFP4
  else if String.prefix "fp8" kv_cache_dtype then FP8_PER_TENSOR
  else QNone.

Definition is_quantized_kv_cache (kv_cache_dtype : string) : bool :=
  negb (bool_decide (get_kv_quant_mode kv_cache_dtype = QNone)).

Definition kv_cache_uses_per_token_head_scales (kv_cache_dtype : string) : bool :=
  is_per_token_head (get_kv_quant_mode kv_cache_dtype).

Record torch_dtype := mkDtype { dtype_name : string; get_dtype_size : Z }.

#[export] Instance torch_dtype_eq_dec : EqDecision torch_dtype.
Proof. solve_decision. Defined.

(** The fields of [AttentionSpec]. *)
Record AttentionFields := mkAttn {
  attn_block_size : Z;
  num_kv_heads : Z;
  head_size : Z;
  attn_dtype : torch_dtype;
  kv_quant_mode : KVQuantMode;
  attn_page_size_padded : option Z;
  indexes_kv_by_block_stride : bool;
}.

#[export] Instance AttentionFields_eq_dec : EqDecision AttentionFields.
Proof. solve_decision. Defined.

(** The fields [FullAttentionSpec] adds. *)
Record FullFields := mkFull {
  full_head_size_v : Z;
  full_sliding_window : option Z;
  full_attention_chunk_size : option Z;
  non_causal : bool;
}.

#[export] Instance FullFields_eq_dec : EqDecision FullFields.
Proof. solve_decision. Defined.

(** The fields [MLAAttentionSpec] and [SlidingWindowMLASpec] add. *)
Record MLAFields := mkMLA {
  cache_dtype_str : option string;
  mla_alignment : option Z;
  compress_ratio : Z;
  model_version : option string;
}.

#[export] Instance MLAFields_eq_dec : EqDecision MLAFields.
Proof. solve_decision. Defined.

Inductive mamba_mode := MambaNone | MambaAll | MambaAlign.

#[export] Instance mamba_mode_eq_dec : EqDecision mamba_mode.
Proof. solve_decision. Defined.

Record MambaFields := mkMamba {
  mamba_block_size : Z;
  shapes : list (list Z);
  dtypes : list torch_dtype;
  mamba_page_size_padded : option Z;
  mamba_type : string;
  mamba_cache_mode : mamba_mode;
  num_speculative_blocks : Z;
}.

#[export] Instance MambaFields_eq_dec : EqDecision MambaFields.
Proof. solve_decision. Defined.

Inductive KVCacheSpec :=
  | FullAttentionSpec (a : AttentionFields) (f : FullFields)
  | TQFullAttentionSpec (a : AttentionFields) (f : FullFields) (tq_slot_size : Z)
  | MLAAttentionSpec (a : AttentionFields) (f : FullFields) (m : MLAFields)
  | HiddenStateCacheSpec (a : AttentionFields) (f : FullFields) (m : MLAFields)
  | SinkFullAttentionSpec (a : AttentionFields) (f : FullFields) (sink_len : option Z)
  | ChunkedLocalAttentionSpec (a : AttentionFields) (attention_chunk_size : Z)
  | SlidingWindowSpec (a : AttentionFields) (sliding_window head_size_v : Z)
  | SlidingWindowMLASpec (a : AttentionFields) (sliding_window : Z) (m : MLAFields)
  | MambaSpec (m : MambaFields)
  | EncoderOnlyAttentionSpec (a : AttentionFields)
  | CrossAttentionSpec (a : AttentionFields).

#[export] Instance KVCacheSpec_eq_dec : EqDecision KVCacheSpec.
Proof. solve_decision. Defined.

Definition attn_of (s : KVCacheSpec) : option AttentionFields :=
  match s with
  | FullAttentionSpec a _ | TQFullAttentionSpec a _ _ | MLAAttentionSpec a _ _
  | HiddenStateCacheSpec a _ _ | SinkFullAttentionSpec a _ _ | ChunkedLocalAttentionSpec a _
  | SlidingWindowSpec a _ _ | SlidingWindowMLASpec a _ _ | EncoderOnlyAttentionSpec a
  | CrossAttentionSpec a => Some a
  | MambaSpec _ => None
  end.

Definition block_size (s : KVCacheSpec) : Z :=
  match s with
  | MambaSpec m => mamba_block_size m
  | _ => match attn_of s with Some a => attn_block_size a | None => 0 end
  end.

(** [isinstance] tests, following the class hierarchy. *)
Definition is_full_attention_spec (s : KVCacheSpec) : bool :=
  match s with
  | FullAttentionSpec _ _ | TQFullAttentionSpec _ _ _ | MLAAttentionSpec _ _ _
  | HiddenStateCacheSpec _ _ _ | SinkFullAttentionSpec _ _ _ => true
  | _ => false
  end.
Definition is_sliding_window_spec (s : KVCacheSpec) : bool :=
  match s with SlidingWindowSpec _ _ _ | SlidingWindowMLASpec _ _ _ => true | _ => false end.
Definition is_chunked_local_spec (s : KVCacheSpec) : bool :=
  match s with ChunkedLocalAttentionSpec _ _ => true | _ => false end.
Definition is_mamba_spec (s : KVCacheSpec) : bool :=
  match s with MambaSpec _ => true | _ => false end.

(** ** Page sizes *)

Definition nvfp4_kv_cache_full_dim (head_size : Z) : Z := head_size / 2 + head_size / 16.

Definition storage_block_size (s : KVCacheSpec) : Z :=
  match s with
  | MLAAttentionSpec a _ m | HiddenStateCacheSpec a _ m | SlidingWindowMLASpec a _ m =>
      attn_block_size a / compress_ratio m
  | _ => block_size s
  end.

(** [AttentionSpec.real_page_size_bytes] *)
Definition attn_real_page_size (a : AttentionFields) : Z :=
  if is_nvfp4 (kv_quant_mode a) then
    2 * attn_block_size a * num_kv_heads a * nvfp4_kv_cache_full_dim (head_size a) *
    get_dtype_size (attn_dtype a)
  else 2 * attn_block_size a * num_kv_heads a * head_size a * get_dtype_size (attn_dtype a).

(** [FullAttentionSpec.real_page_size_bytes], and that of [SlidingWindowSpec]. *)
Definition full_real_page_size (a : AttentionFields) (head_size_v : Z) : Z :=
  if is_nvfp4 (kv_quant_mode a) then
    attn_block_size a * num_kv_heads a *
    (nvfp4_kv_cache_full_dim (head_size a) + nvfp4_kv_cache_full_dim head_size_v) *
    get_dtype_size (attn_dtype a)
  else attn_block_size a * num_kv_heads a * (head_size a + head_size_v) * get_dtype_size (attn_dtype a).

Definition mla_real_page_size (a : AttentionFields) (m : MLAFields) : Z :=
  let storage := attn_block_size a / compress_ratio m in
  if bool_decide (cache_dtype_str m = Some "fp8_ds_mla"%string) then
    if bool_decide (model_version m = Some "deepseek_v4"%string) then storage * 584
    else attn_block_size a * 656
  else storage * num_kv_heads a * head_size a * get_dtype_size (attn_dtype a).

Definition swmla_real_page_size (a : AttentionFields) (m : MLAFields) : result Z :=
  let storage := attn_block_size a / compress_ratio m in
  if bool_decide (model_version m = Some "deepseek_v4"%string) &&
     bool_decide (cache_dtype_str m = Some "fp8_ds_mla"%string) then Ok (storage * 584)
  else
    _ ← py_assert (bool_decide (model_version m = None) ||
                   bool_decide (model_version m = Some "deepseek_v4"%string));
    Ok (storage * num_kv_heads a * head_size a * get_dtype_size (attn_dtype a)).

Definition real_page_size_bytes (s : KVCacheSpec) : result Z :=
  match s with
  | FullAttentionSpec a f | SinkFullAttentionSpec a f _ => Ok (full_real_page_size a (full_head_size_v f))
  | TQFullAttentionSpec a f tq =>
      Ok (if 0 <? tq then attn_block_size a * num_kv_heads a * tq
          else full_real_page_size a (full_head_size_v f))
  | MLAAttentionSpec a _ m | HiddenStateCacheSpec a _ m => Ok (mla_real_page_size a m)
  | SlidingWindowSpec a _ hv => Ok (full_real_page_size a hv)
  | SlidingWindowMLASpec a _ m => swmla_real_page_size a m
  | ChunkedLocalAttentionSpec a _ | EncoderOnlyAttentionSpec a | CrossAttentionSpec a =>
      Ok (attn_real_page_size a)
  | MambaSpec m =>
      Ok (foldr Z.add 0 (zip_with (λ sh d, foldr Z.mul 1 sh * get_dtype_size d) (shapes m) (dtypes m)))
  end.

(** The padded page: [AttentionSpec.page_size_bytes] and [MambaSpec.page_size_bytes]. *)
Definition page_size_bytes (s : KVCacheSpec) : result Z :=
  real ← real_page_size_bytes s;
  let '(real, padded) :=
    match attn_of s with
    | Some a => (if is_per_token_head (kv_quant_mode a)
                 then real + 2 * attn_block_size a * num_kv_heads a * 4 else real,
                 attn_page_size_padded a)
    | None => (real, match s with MambaSpec m => mamba_page_size_padded m | _ => None end)
    end in
  match padded with
  | None => Ok real
  | Some pad => _ ← py_assert (real <=? pad); Ok pad
  end.

(** ** Memory bounds *)

(** What the specs read of [VllmConfig]. *)
Record SpecConfig := mkSpecConfig {
  cfg_max_model_len : Z;
  decode_context_parallel_size : Z;
  prefill_context_parallel_size : Z;
  cfg_max_num_batched_tokens : Z;
  max_num_encoder_input_tokens : Z;
  cfg_mamba_cache_mode : mamba_mode;
}.

(** [max_admission_blocks_per_request] of the two recycling specs. *)
Definition sw_max_admission_blocks (block_size window max_num_batched_tokens max_model_len : Z) : Z :=
  cdiv (Z.min (window - 1 + max_num_batched_tokens) max_model_len) block_size + 1.

Definition chunked_max_admission_blocks (block_size chunk max_num_batched_tokens max_model_len : Z) : Z :=
  cdiv (Z.min (chunk + max_num_batched_tokens) max_model_len) block_size.

Definition max_admission_blocks_per_request (s : KVCacheSpec) (max_num_batched_tokens max_model_len : Z)
    : option Z :=
  match s with
  | SlidingWindowSpec a w _ | SlidingWindowMLASpec a w _ =>
      Some (sw_max_admission_blocks (attn_block_size a) w max_num_batched_tokens max_model_len)
  | ChunkedLocalAttentionSpec a c =>
      Some (chunked_max_admission_blocks (attn_block_size a) c max_num_batched_tokens max_model_len)
  | _ => None
  end.

Definition max_memory_usage_bytes (c : SpecConfig) (s : KVCacheSpec) : result Z :=
  match s with
  | FullAttentionSpec _ _ | TQFullAttentionSpec _ _ _ | MLAAttentionSpec _ _ _
  | HiddenStateCacheSpec _ _ _ | SinkFullAttentionSpec _ _ _ =>
      let ws := decode_context_parallel_size c * prefill_context_parallel_size c in
      let len := if 1 <? ws then cdiv (cfg_max_model_len c) ws else cfg_max_model_len c in
      pg ← page_size_bytes s; Ok (cdiv len (block_size s) * pg)
  | SlidingWindowSpec a w _ | SlidingWindowMLASpec a w _ =>
      _ ← py_assert (decode_context_parallel_size c =? 1);
      pg ← page_size_bytes s;
      Ok (sw_max_admission_blocks (attn_block_size a) w (cfg_max_num_batched_tokens c)
            (cfg_max_model_len c) * pg)
  | ChunkedLocalAttentionSpec a ch =>
      pg ← page_size_bytes s;
      Ok (chunked_max_admission_blocks (attn_block_size a) ch (cfg_max_num_batched_tokens c)
            (cfg_max_model_len c) * pg)
  | MambaSpec m =>
      pg ← page_size_bytes s;
      Ok (match cfg_mamba_cache_mode c with
          | MambaAll => (cdiv (cfg_max_model_len c) (mamba_block_size m) + num_speculative_blocks m) * pg
          | MambaAlign => pg * (2 + num_speculative_blocks m)
          | MambaNone => pg * (1 + num_speculative_blocks m)
          end)
  | EncoderOnlyAttentionSpec _ => Ok 0
  | CrossAttentionSpec _ =>
      pg ← page_size_bytes s; Ok (cdiv (max_num_encoder_input_tokens c) (block_size s) * pg)
  end.

(** ** Kinds and groups *)

Inductive KVCacheSpecKind :=
  | FULL_ATTENTION | MLA_ATTENTION | SLIDING_WINDOW | SLIDING_WINDOW_MLA | MAMBA
  | CHUNKED_LOCAL_ATTENTION | SINK_FULL_ATTENTION | ENCODER_ONLY_ATTENTION | CROSS_ATTENTION | UNKNOWN.

#[export] Instance KVCacheSpecKind_eq_dec : EqDecision KVCacheSpecKind.
Proof. solve_decision. Defined.

Definition get_kv_cache_spec_kind (s : KVCacheSpec) : KVCacheSpecKind :=
  match s with
  | SlidingWindowMLASpec _ _ _ => SLIDING_WINDOW_MLA
  | MLAAttentionSpec _ _ _ | HiddenStateCacheSpec _ _ _ => MLA_ATTENTION
  | SinkFullAttentionSpec _ _ _ => SINK_FULL_ATTENTION
  | FullAttentionSpec _ _ | TQFullAttentionSpec _ _ _ => FULL_ATTENTION
  | ChunkedLocalAttentionSpec _ _ => CHUNKED_LOCAL_ATTENTION
  | SlidingWindowSpec _ _ _ => SLIDING_WINDOW
  | MambaSpec _ => MAMBA
  | EncoderOnlyAttentionSpec _ => ENCODER_ONLY_ATTENTION
  | CrossAttentionSpec _ => CROSS_ATTENTION
  end.

Definition get_kv_cache_spec_sliding_window (s : KVCacheSpec) : option Z :=
  match s with SlidingWindowSpec _ w _ | SlidingWindowMLASpec _ w _ => Some w | _ => None end.

Record KVCacheGroupSpec := mkGroup {
  layer_names : list string;
  kv_cache_spec : KVCacheSpec;
  is_eagle_group : bool;
}.

Record KVCacheConfig := mkKVConfig {
  num_blocks : Z;
  kv_cache_groups : list KVCacheGroupSpec;
}.

Definition has_mamba_layers (c : KVCacheConfig) : bool :=
  existsb (λ g, is_mamba_spec (kv_cache_spec g)) (kv_cache_groups c).

Definition needs_kv_cache_zeroing (c : KVCacheConfig) : bool := has_mamba_layers c.

(** ** The admission caps bound what a request holds *)

(** Blocks holding tokens [s, n), when blocks wholly before [s] are dropped. *)
Definition window_blocks (bs s n : Z) : Z := cdiv n bs - s / bs.

Lemma window_blocks_bound bs s n :
  0 < bs → window_blocks bs s n ≤ cdiv (n - s) bs + 1.
Proof.
  intros Hbs. unfold window_blocks.
  pose proof (cdiv_bounds n bs Hbs). pose proof (cdiv_bounds (n - s) bs Hbs).
  pose proof (Z.div_mod s bs ltac:(lia)). pose proof (Z.mod_pos_bound s bs Hbs). nia.
Qed.

Lemma window_blocks_aligned bs s n :
  0 < bs → (bs | s) → window_blocks bs s n = cdiv (n - s) bs.
Proof.
  intros Hbs [q ->]. unfold window_blocks. rewrite Z.div_mul by lia.
  pose proof (cdiv_bounds n bs Hbs). pose proof (cdiv_bounds (n - q * bs) bs Hbs). nia.
Qed.

(** The admission cap of a sliding-window layer bounds what a request holds:
    with [c] tokens computed and at most a batch of new ones, the blocks that
    are not wholly outside the window number at most
    [max_admission_blocks_per_request]. *)
Theorem sw_admission_cap_bounds_held a window head_v max_batched max_len c new :
  0 < attn_block_size a → 0 < window → 0 ≤ c → 0 ≤ new ≤ max_batched → c + new ≤ max_len →
  ∃ cap, max_admission_blocks_per_request (SlidingWindowSpec a window head_v) max_batched max_len = Some cap ∧
    window_blocks (attn_block_size a) (Z.max 0 (c - window + 1)) (c + new) ≤ cap.
Proof.
  intros Hbs Hw Hc Hn Hl. eexists. split; [done|]. unfold sw_max_admission_blocks.
  etransitivity; [by apply window_blocks_bound|].
  enough (cdiv (c + new - Z.max 0 (c - window + 1)) (attn_block_size a) ≤
          cdiv (Z.min (window - 1 + max_batched) max_len) (attn_block_size a)) by lia.
  apply cdiv_mono; [done|]. lia.
Qed.

Lemma sw_admission_cap_bounds_held_witness :
  ∃ cap, max_admission_blocks_per_request
           (SlidingWindowSpec (mkAttn 4 1 8 (mkDtype "bfloat16" 2) QNone None false) 6 8) 8 100 = Some cap ∧
    window_blocks 4 (Z.max 0 (17 - 6 + 1)) (17 + 8) ≤ cap.
Proof.
  apply (sw_admission_cap_bounds_held (mkAttn 4 1 8 (mkDtype "bfloat16" 2) QNone None false) 6 8 8 100 17 8);
    simpl; lia.
Defined.

(** The admission cap of a chunked-local layer bounds what a request holds
    when the chunk is a multiple of the block size. *)
Theorem chunked_admission_cap_bounds_held a chunk max_batched max_len c new :
  0 < attn_block_size a → 0 < chunk → (attn_block_size a | chunk) → 0 ≤ c → 0 ≤ new ≤ max_batched →
  c + new ≤ max_len →
  ∃ cap, max_admission_blocks_per_request (ChunkedLocalAttentionSpec a chunk) max_batched max_len = Some cap ∧
    window_blocks (attn_block_size a) (c / chunk * chunk) (c + new) ≤ cap.
Proof.
  intros Hbs Hch Hd Hc Hn Hl. eexists. split; [done|]. unfold chunked_max_admission_blocks.
  rewrite window_blocks_aligned; [|done|by apply Z.divide_mul_r].
  apply cdiv_mono; [done|]. pose proof (Z.div_mod c chunk ltac:(lia)).
  pose proof (Z.mod_pos_bound c chunk Hch). pose proof (Z.div_pos c chunk). nia.
Qed.

Lemma chunked_admission_cap_bounds_held_witness :
  ∃ cap, max_admission_blocks_per_request
           (ChunkedLocalAttentionSpec (mkAttn 4 1 8 (mkDtype "bfloat16" 2) QNone None false) 8) 6 100 = Some cap ∧
    window_blocks 4 (13 / 8 * 8) (13 + 6) ≤ cap.
Proof.
  apply (chunked_admission_cap_bounds_held (mkAttn 4 1 8 (mkDtype "bfloat16" 2) QNone None false) 8 6 100 13 6);
    simpl; try lia. by exists 2.
Defined.
