(* ===== verification/KVMerge.v ===== *)
(** * Merging layer specifications

    The [merge] methods of [vllm/v1/kv_cache_interface.py], which decide whether
    layers can share a KV-cache group, the construction-time padding, and
    [UniformTypeKVCacheSpecs], the specification of layers of one type with
    several page sizes.  Layers are in an insertion-ordered dictionary by name. *)

From S2P Require Import Prelude MathUtils OrderedDict KVSpecs.

#[local] Open Scope Z_scope.

Notation spec_dict := (list (string * KVCacheSpec)).

(** ** Python helpers *)

(** [a // b], [cdiv(a, b)] and [a % b] *)
Definition py_floordiv (a b : Z) : result Z := if b =? 0 then Raise ZeroDivisionError else Ok (a / b).
Definition py_cdiv (a b : Z) : result Z := if b =? 0 then Raise ZeroDivisionError else Ok (cdiv a b).
Definition py_mod (a b : Z) : result Z := if b =? 0 then Raise ZeroDivisionError else Ok (a mod b).

(** ** Construction *)

Definition is_mla_attention_spec (s : KVCacheSpec) : bool :=
  match s with MLAAttentionSpec _ _ _ | HiddenStateCacheSpec _ _ _ => true | _ => false end.
Definition is_sliding_window_mla_spec (s : KVCacheSpec) : bool :=
  match s with SlidingWindowMLASpec _ _ _ => true | _ => false end.
Definition is_hidden_state_spec (s : KVCacheSpec) : bool :=
  match s with HiddenStateCacheSpec _ _ _ => true | _ => false end.

Definition full_of (s : KVCacheSpec) : option (AttentionFields * FullFields) :=
  match s with
  | FullAttentionSpec a f | TQFullAttentionSpec a f _ | MLAAttentionSpec a f _
  | HiddenStateCacheSpec a f _ | SinkFullAttentionSpec a f _ => Some (a, f)
  | _ => None
  end.

(** The fields of the two MLA formats; a window is only kept by the second. *)
Definition mla_of (s : KVCacheSpec) : option MLAFields :=
  match s with
  | MLAAttentionSpec _ _ m | HiddenStateCacheSpec _ _ m | SlidingWindowMLASpec _ _ m => Some m
  | _ => None
  end.

Definition with_attn (g : AttentionFields → AttentionFields) (s : KVCacheSpec) : KVCacheSpec :=
  match s with
  | FullAttentionSpec a f => FullAttentionSpec (g a) f
  | TQFullAttentionSpec a f t => TQFullAttentionSpec (g a) f t
  | MLAAttentionSpec a f m => MLAAttentionSpec (g a) f m
  | HiddenStateCacheSpec a f m => HiddenStateCacheSpec (g a) f m
  | SinkFullAttentionSpec a f k => SinkFullAttentionSpec (g a) f k
  | ChunkedLocalAttentionSpec a c => ChunkedLocalAttentionSpec (g a) c
  | SlidingWindowSpec a w h => SlidingWindowSpec (g a) w h
  | SlidingWindowMLASpec a w m => SlidingWindowMLASpec (g a) w m
  | EncoderOnlyAttentionSpec a => EncoderOnlyAttentionSpec (g a)
  | CrossAttentionSpec a => CrossAttentionSpec (g a)
  | MambaSpec m => MambaSpec m
  end.

Definition attn_set_padded (p : option Z) (a : AttentionFields) : AttentionFields :=
  mkAttn (attn_block_size a) (num_kv_heads a) (head_size a) (attn_dtype a) (kv_quant_mode a) p
    (indexes_kv_by_block_stride a).
Definition attn_set_block_size (n : Z) (a : AttentionFields) : AttentionFields :=
  mkAttn n (num_kv_heads a) (head_size a) (attn_dtype a) (kv_quant_mode a) (attn_page_size_padded a)
    (indexes_kv_by_block_stride a).

(** [object.__setattr__(spec, "page_size_padded", p)], and the same field in
    [replace] *)
Definition set_page_size_padded (p : Z) (s : KVCacheSpec) : KVCacheSpec := with_attn (attn_set_padded (Some p)) s.

Definition set_block_size (n : Z) (s : KVCacheSpec) : KVCacheSpec :=
  match s with
  | MambaSpec m => MambaSpec (mkMamba n (shapes m) (dtypes m) (mamba_page_size_padded m) (mamba_type m)
                     (mamba_cache_mode m) (num_speculative_blocks m))
  | _ => with_attn (attn_set_block_size n) s
  end.

Definition _apply_alignment_padding (s : KVCacheSpec) : result KVCacheSpec :=
  match mla_of s with
  | None => Ok s
  | Some m =>
      match mla_alignment m with
      | None => Ok s
      | Some alignment =>
          actual_page_size ← real_page_size_bytes s;
          let padded_page_size := round_up actual_page_size alignment in
          Ok (if padded_page_size =? actual_page_size then s else set_page_size_padded padded_page_size s)
      end
  end.

(** [__post_init__]: only the MLA formats have an alignment. *)
Definition post_init (s : KVCacheSpec) : result KVCacheSpec := _apply_alignment_padding s.

(** [dataclasses.replace] runs the constructor again. *)
Definition copy_with_new_block_size (n : Z) (s : KVCacheSpec) : result KVCacheSpec := post_init (set_block_size n s).
Definition replace_page_size_padded (p : Z) (s : KVCacheSpec) : result KVCacheSpec :=
  post_init (set_page_size_padded p s).

(** ** Merging *)

(** [set(x for ...)], as the list of distinct values *)
Definition py_set {A} `{EqDecision A} (l : list A) : list A := remove_dups l.

Definition merge_window_sizes (window_sizes : list Z) : result (option Z) :=
  match py_set window_sizes with
  | [] => Ok None
  | [w] => Ok (Some w)
  | _ => Raise ValueError
  end.

(** The common part of [FullAttentionSpec.merge] and [SinkFullAttentionSpec.merge]. *)
Definition merge_full (first : KVCacheSpec) (specs : list KVCacheSpec) : result (AttentionFields * FullFields) :=
  _ ← py_assert (forallb is_full_attention_spec specs);
  let fulls := omap full_of specs in
  _ ← py_assert (negb (existsb is_mla_attention_spec specs));
  match full_of first with
  | None => Raise AttributeError
  | Some (a, f) =>
      sliding_window ← merge_window_sizes (omap (λ p, full_sliding_window p.2) fulls);
      attention_chunk_size ← merge_window_sizes (omap (λ p, full_attention_chunk_size p.2) fulls);
      _ ← py_assert (forallb (λ p, bool_decide (p.1 = a)) fulls);
      _ ← py_assert (negb (bool_decide (is_Some sliding_window) && bool_decide (is_Some attention_chunk_size)));
      Ok (a, mkFull (full_head_size_v f) sliding_window attention_chunk_size (existsb (λ p, non_causal p.2) fulls))
  end.

Definition tq_slot_size_of (s : KVCacheSpec) : result Z :=
  match s with TQFullAttentionSpec _ _ t => Ok t | _ => Raise AttributeError end.

(** [all(s.tq_slot_size == t for s in specs)] stops at the first difference. *)
Fixpoint all_tq_slot_size (t : Z) (specs : list KVCacheSpec) : result bool :=
  match specs with
  | [] => Ok true
  | s :: specs => t' ← tq_slot_size_of s; if t' =? t then all_tq_slot_size t specs else Ok false
  end.

Definition one_value {A} `{EqDecision A} (l : list A) : bool := bool_decide (length (py_set l) = 1%nat).

(** The test that the MLA fields agree. *)
Definition mla_agree (specs : list KVCacheSpec) : bool :=
  let ms := omap mla_of specs in
  one_value (cache_dtype_str <$> ms) && one_value (compress_ratio <$> ms) && one_value (model_version <$> ms)
  && one_value (indexes_kv_by_block_stride <$> omap attn_of specs).

(** The merged MLA fields: the alignment is not passed on. *)
Definition merged_mla (m : MLAFields) : MLAFields :=
  mkMLA (cache_dtype_str m) None (compress_ratio m) (model_version m).

Definition merge_mla (specs : list KVCacheSpec) (a : AttentionFields) (m : MLAFields)
    : result (AttentionFields * FullFields * MLAFields) :=
  _ ← py_assert (forallb is_mla_attention_spec specs);
  _ ← py_assert (mla_agree specs);
  Ok (a, mkFull (head_size a) None None false, merged_mla m).

(** [specs[0].merge(specs)] *)
Definition merge (specs : list KVCacheSpec) : result KVCacheSpec :=
  match specs with
  | [] => Raise IndexError
  | first :: rest =>
      match first with
      | FullAttentionSpec _ _ => '(a, f) ← merge_full first specs; Ok (FullAttentionSpec a f)
      | TQFullAttentionSpec _ _ t =>
          '(a, f) ← merge_full first specs;
          same ← all_tq_slot_size t specs;
          _ ← py_assert same;
          Ok (TQFullAttentionSpec a f t)
      | SinkFullAttentionSpec _ _ sink => '(a, f) ← merge_full first specs; Ok (SinkFullAttentionSpec a f sink)
      | MLAAttentionSpec a _ m => '(a, f, m) ← merge_mla specs a m; post_init (MLAAttentionSpec a f m)
      | HiddenStateCacheSpec a _ m => '(a, f, m) ← merge_mla specs a m; post_init (HiddenStateCacheSpec a f m)
      | SlidingWindowMLASpec a w m =>
          _ ← py_assert (forallb is_sliding_window_mla_spec specs);
          _ ← py_assert (mla_agree specs && one_value (omap get_kv_cache_spec_sliding_window specs));
          post_init (SlidingWindowMLASpec
            (mkAttn (attn_block_size a) (num_kv_heads a) (head_size a) (attn_dtype a) QNone (attn_page_size_padded a)
               (indexes_kv_by_block_stride a)) w (merged_mla m))
      | _ =>
          _ ← py_assert (forallb (λ s, bool_decide (s = first)) rest);
          Ok first
      end
  end.

(** ** Layers of one type *)

(** [KVCacheSpecRegistry.get_uniform_type_base_spec] over the built-in
    registrations, with the [isinstance] test on the class it returns. *)
Definition get_uniform_type_base_spec (s : KVCacheSpec) : option (KVCacheSpec → bool) :=
  match s with
  | FullAttentionSpec _ _ | TQFullAttentionSpec _ _ _ | MLAAttentionSpec _ _ _
  | HiddenStateCacheSpec _ _ _ | SinkFullAttentionSpec _ _ _ => Some is_full_attention_spec
  | SlidingWindowMLASpec _ _ _ => Some is_sliding_window_mla_spec
  | SlidingWindowSpec _ _ _ => Some is_sliding_window_spec
  | MambaSpec _ => Some is_mamba_spec
  | ChunkedLocalAttentionSpec _ _ => Some is_chunked_local_spec
  | CrossAttentionSpec _ => Some (λ s, match s with CrossAttentionSpec _ => true | _ => false end)
  | EncoderOnlyAttentionSpec _ => None
  end.

Definition check_kv_cache_spec_registry (d : spec_dict) : result unit :=
  if forallb (λ p, bool_decide (is_Some (get_uniform_type_base_spec p.2))) d then Ok tt else Raise ValueError.

Definition is_uniform_with_collection (self : KVCacheSpec) (specs : list KVCacheSpec) : result bool :=
  match self with
  | ChunkedLocalAttentionSpec _ c =>
      Ok (forallb (λ s, match s with ChunkedLocalAttentionSpec _ c' => c' =? c | _ => false end) specs)
  | SlidingWindowSpec _ w _ =>
      Ok (forallb (λ s, bool_decide (get_kv_cache_spec_sliding_window s = Some w)) specs)
  | SlidingWindowMLASpec _ w _ =>
      Ok (forallb (λ s, match s with SlidingWindowMLASpec _ w' _ => w' =? w | _ => false end) specs)
  | MambaSpec m =>
      Ok (forallb (λ s, match s with
                        | MambaSpec m' => num_speculative_blocks m' =? num_speculative_blocks m
                        | _ => false
                        end) specs)
  | _ =>
      match get_uniform_type_base_spec self with
      | None => Raise AssertionError
      | Some is_instance => Ok (forallb is_instance specs)
      end
  end.

Record UniformTypeKVCacheSpecs := mkUniform {
  ut_block_size : Z;
  ut_specs : spec_dict;
}.

Definition is_uniform_type (d : spec_dict) : result bool :=
  if (1 <? length (py_set (block_size <$> d.*2)))%nat then Ok false else
  match d with
  | [] => Raise StopIteration
  | (_, first) :: _ => is_uniform_with_collection first d.*2
  end.

Definition from_specs (d : spec_dict) : result (option UniformTypeKVCacheSpecs) :=
  uniform ← is_uniform_type d;
  Ok (match d with
      | (_, first) :: _ => if (uniform : bool) then Some (mkUniform (block_size first) d) else None
      | [] => None
      end).

Definition sum_list (l : list Z) : Z := foldr Z.add 0 l.

Definition uniform_page_sizes (u : UniformTypeKVCacheSpecs) : result (list Z) := mmap page_size_bytes (ut_specs u).*2.

Definition uniform_page_size_bytes (u : UniformTypeKVCacheSpecs) : result Z :=
  pages ← uniform_page_sizes u; Ok (sum_list pages).

Definition max_memory_usage_pages (c : SpecConfig) (u : UniformTypeKVCacheSpecs) : result Z :=
  pages ← mmap (λ s, m ← max_memory_usage_bytes c s; p ← page_size_bytes s; py_cdiv m p) (ut_specs u).*2;
  py_max pages.

Definition uniform_max_memory_usage_bytes (c : SpecConfig) (u : UniformTypeKVCacheSpecs) : result Z :=
  n ← max_memory_usage_pages c u; p ← uniform_page_size_bytes u; Ok (n * p).

Definition get_page_sizes (u : UniformTypeKVCacheSpecs) : result (list Z) :=
  pages ← uniform_page_sizes u; Ok (py_set pages).

(** [Counter(l).most_common(1)[0][1]] *)
Definition get_num_layer_tuples (u : UniformTypeKVCacheSpecs) : result Z :=
  pages ← uniform_page_sizes u;
  match pages with
  | [] => Raise IndexError
  | _ => py_max ((λ p, Z.of_nat (length (filter (λ q, q = p) pages))) <$> pages)
  end.

(** The kind and window of such a specification: those of its layers, if they agree. *)
Definition uniform_spec_kind (u : UniformTypeKVCacheSpecs) : KVCacheSpecKind :=
  match py_set (get_kv_cache_spec_kind <$> (ut_specs u).*2) with [k] => k | _ => UNKNOWN end.

Definition uniform_spec_sliding_window (u : UniformTypeKVCacheSpecs) : option Z :=
  match py_set (get_kv_cache_spec_sliding_window <$> (ut_specs u).*2) with [w] => w | _ => None end.

Lemma sum_list_cons x l : sum_list (x :: l) = x + sum_list l.
Proof. done. Qed.

Lemma sum_list_app l1 l2 : sum_list (l1 ++ l2) = sum_list l1 + sum_list l2.
Proof. induction l1 as [|x l1 IH]; [done|]. rewrite <-app_comm_cons, !sum_list_cons, IH. lia. Qed.

Lemma sum_list_nonneg l : Forall (λ x, 0 ≤ x) l → 0 ≤ sum_list l.
Proof. induction 1; [done|]. rewrite sum_list_cons. lia. Qed.

Lemma sum_list_mono l l' : Forall2 Z.le l l' → sum_list l ≤ sum_list l'.
Proof. induction 1; [done|]. rewrite !sum_list_cons. lia. Qed.

Lemma sum_list_mul k l : sum_list ((λ x, k * x) <$> l) = k * sum_list l.
Proof. induction l as [|x l IH]; [cbn; lia|]. rewrite fmap_cons, !sum_list_cons, IH. lia. Qed.

#[export] Instance sum_list_perm : Proper ((≡ₚ) ==> eq) sum_list.
Proof. intros l l' H. induction H; rewrite ?sum_list_cons; try lia. Qed.

Lemma py_max_mono l l' m m' : Forall2 Z.le l l' → py_max l = Ok m → py_max l' = Ok m' → m ≤ m'.
Proof.
  intros HF [Hm _]%py_max_Ok [_ Hb]%py_max_Ok.
  apply list_elem_of_lookup_1 in Hm as [i Hi].
  destruct (Forall2_lookup_l _ _ _ _ _ HF Hi) as (y & Hy & Hle).
  apply list_elem_of_lookup_2 in Hy. specialize (Hb _ Hy). lia.
Qed.

(** A list with one distinct value. *)
Lemma py_set_one {A} `{EqDecision A} (l : list A) x : py_set l = [x] ↔ l ≠ [] ∧ Forall (eq x) l.
Proof.
  unfold py_set. split.
  - intros H. split; [intros ->; by inversion H|]. apply Forall_forall. intros y Hy.
    apply elem_of_remove_dups in Hy. rewrite H in Hy. by apply list_elem_of_singleton in Hy.
  - intros [Hn HF]. pose proof (NoDup_remove_dups l) as Hd.
    assert (Hall : ∀ y, y ∈ remove_dups l → y = x).
    { intros y Hy. rewrite elem_of_remove_dups in Hy. rewrite Forall_forall in HF. by rewrite (HF y Hy). }
    destruct (remove_dups l) as [|y [|z l']] eqn:E.
    + destruct l as [|y l]; [done|]. exfalso.
      assert (Hy : y ∈ remove_dups (y :: l)) by (apply elem_of_remove_dups; left). rewrite E in Hy. set_solver.
    + f_equal. apply Hall. left.
    + apply NoDup_cons in Hd as [Hd _]. rewrite (Hall y), (Hall z) in Hd by set_solver. set_solver.
Qed.
