(* ===== verification/KVPlan.v ===== *)
(** * Planning the KV cache

    [vllm/v1/core/kv_cache_utils.py], from the layer specifications of every
    worker to the KV-cache configuration of every worker and of the scheduler:
    the layers are put into groups that share a block table, the memory a
    request of the maximum length needs is compared with the memory there is,
    and the tensors of every worker are laid out.

    A layer's specification is an object of its own, so that the in-place padding
    of [_get_kv_cache_groups_uniform_groups] changes the one dictionary entry.
    Sizes and lengths are Python integers.  Log messages are left out; what a
    message computes and may raise is kept. *)

From S2P Require Import Prelude MathUtils OrderedDict KVSpecs KVMerge.

#[local] Open Scope Z_scope.

(** ** Configuration and results *)

(** What planning reads of [VllmConfig] and of the environment. *)
Record VllmConfig := mkVllm {
  spec_cfg : SpecConfig;
  original_max_model_len : Z;
  num_gpu_blocks_override : option Z;
  disable_hybrid_kv_cache_manager : bool;
  spec_use_eagle : bool;
  VLLM_USE_PACKED_HMA_KV_CACHE : bool;
  cache_block_size : Z;
  cache_hash_block_size : option Z;
  cache_enable_prefix_caching : bool;
  kv_connector_enabled : bool;
}.

Definition with_max_model_len (n : Z) (c : SpecConfig) : SpecConfig :=
  mkSpecConfig n (decode_context_parallel_size c) (prefill_context_parallel_size c)
    (cfg_max_num_batched_tokens c) (max_num_encoder_input_tokens c) (cfg_mamba_cache_mode c).

Definition set_spec_cfg (s : SpecConfig) (v : VllmConfig) : VllmConfig :=
  mkVllm s (original_max_model_len v) (num_gpu_blocks_override v) (disable_hybrid_kv_cache_manager v)
    (spec_use_eagle v) (VLLM_USE_PACKED_HMA_KV_CACHE v) (cache_block_size v) (cache_hash_block_size v)
    (cache_enable_prefix_caching v) (kv_connector_enabled v).

(** The specification of a group: one for all layers, or one per layer. *)
Inductive GroupSpec :=
  | Plain (s : KVCacheSpec)
  | UniformType (u : UniformTypeKVCacheSpecs).

Record WorkerGroup := mkWorkerGroup {
  wg_layer_names : list string;
  wg_spec : GroupSpec;
  wg_is_eagle : bool;
}.

Record KVCacheTensor := mkTensor {
  tensor_size : Z;
  shared_by : list string;
  tensor_offset : Z;
  block_stride : Z;
}.

Record WorkerConfig := mkWorkerConfig {
  wc_num_blocks : Z;
  wc_tensors : list KVCacheTensor;
  wc_groups : list WorkerGroup;
}.

Definition is_uniform_group (g : WorkerGroup) : bool :=
  match wg_spec g with UniformType _ => true | Plain _ => false end.

Definition gspec_page_size_bytes (g : GroupSpec) : result Z :=
  match g with Plain s => page_size_bytes s | UniformType u => uniform_page_size_bytes u end.

Definition gspec_max_memory_usage_bytes (c : SpecConfig) (g : GroupSpec) : result Z :=
  match g with Plain s => max_memory_usage_bytes c s | UniformType u => uniform_max_memory_usage_bytes c u end.

(** [max_memory_usage_bytes(vllm_config, kv_cache_specs)] of [kv_cache_utils] *)
Definition total_max_memory_usage_bytes (c : SpecConfig) (specs : list GroupSpec) : result Z :=
  usages ← mmap (gspec_max_memory_usage_bytes c) specs; Ok (sum_list usages).

(** ** Memory *)

(** The loop [while left <= right] of the two estimates. *)
Fixpoint search_max_len (fits : Z → result bool) (fuel : nat) (left right best : Z) : result Z :=
  match fuel with
  | O => Raise OutOfFuel
  | S fuel =>
      if right <? left then Ok best else
      let mid := (left + right) / 2 in
      ok ← fits mid;
      if (ok : bool) then search_max_len fits fuel (mid + 1) right mid
      else search_max_len fits fuel left (mid - 1) best
  end.

Definition search_fuel (right : Z) : nat := Z.to_nat (bit_length (Z.max 0 right) + 1).

Definition largest_fitting (fits : Z → result bool) (original_max : Z) : result Z :=
  ok ← fits 1;
  if negb ok then Ok 0 else search_max_len fits (search_fuel original_max) 1 original_max 1.

(** The estimates set [max_model_len] for the time of a call and restore it. *)
Definition estimate_max_model_len (c : SpecConfig) (d : spec_dict) (available_memory : Z) : result Z :=
  largest_fitting (λ model_len,
      memory_needed ← total_max_memory_usage_bytes (with_max_model_len model_len c) (Plain <$> d.*2);
      Ok (memory_needed <=? available_memory)) (cfg_max_model_len c).

Definition _check_enough_kv_cache_memory (available_memory : Z) (get_needed_memory : result Z)
    (estimate : Z → result Z) : result unit :=
  if available_memory <=? 0 then Raise ValueError else
  needed_memory ← get_needed_memory;
  if available_memory <? needed_memory then _ ← estimate available_memory; Raise ValueError
  else Ok tt.

Definition check_enough_kv_cache_memory (c : SpecConfig) (d : spec_dict) (available_memory : Z) : result unit :=
  match d with
  | [] => Ok tt
  | _ => _check_enough_kv_cache_memory available_memory (total_max_memory_usage_bytes c (Plain <$> d.*2))
           (estimate_max_model_len c d)
  end.

(** ** Groups *)

Definition get_layer (d : spec_dict) (name : string) : result KVCacheSpec :=
  match od_get d name with Some s => Ok s | None => Raise KeyError end.

Definition create_kv_cache_group_specs (d : spec_dict) (grouped_layer_names : list (list string))
    : result (list WorkerGroup) :=
  mmap (λ names,
    layer_specs ← mmap (get_layer d) names;
    merged_layer_spec ← merge layer_specs;
    Ok (mkWorkerGroup names (Plain merged_layer_spec) false)) grouped_layer_names.

Definition is_kv_cache_spec_uniform (d : spec_dict) : result bool :=
  match d with
  | [] => Ok true
  | _ =>
      match merge d.*2 with
      | Ok _ => Ok true
      | Raise AssertionError => Ok false
      | Raise e => Raise e
      end
  end.

Definition get_uniform_page_size (specs : list GroupSpec) : result Z :=
  pages ← mmap gspec_page_size_bytes specs;
  match py_set pages with
  | [page] => Ok page
  | _ => Raise AssertionError
  end.

Definition _get_kv_cache_groups_uniform_spec (d : spec_dict) : result (list WorkerGroup) :=
  create_kv_cache_group_specs d [d.*1].

Definition _get_kv_cache_groups_uniform_type (u : UniformTypeKVCacheSpecs) : list WorkerGroup :=
  [mkWorkerGroup (ut_specs u).*1 (UniformType u) false].

Definition is_kv_cache_page_size_uniform (d : spec_dict) : result bool :=
  pages ← mmap page_size_bytes d.*2; Ok (bool_decide (length (py_set pages) = 1%nat)).

(** One layer of the loop in [unify_kv_cache_spec_page_size]. *)
Definition unify_layer (max_page_size : Z) (layer_spec : KVCacheSpec) : result KVCacheSpec :=
  layer_page_size ← page_size_bytes layer_spec;
  if layer_page_size =? max_page_size then Ok layer_spec else
  rest ← py_mod max_page_size layer_page_size;
  new_spec ←
    (if rest =? 0 then
       copy_with_new_block_size (block_size layer_spec * (max_page_size / layer_page_size)) layer_spec
     else if match attn_of layer_spec with Some a => indexes_kv_by_block_stride a | None => false end then
       replace_page_size_padded max_page_size layer_spec
     else Raise NotImplementedError);
  new_page ← page_size_bytes new_spec;
  _ ← py_assert (new_page =? max_page_size);
  Ok new_spec.

Definition unify_kv_cache_spec_page_size (d : spec_dict) : result spec_dict :=
  pages ← mmap page_size_bytes d.*2;
  if (length (py_set pages) <=? 1)%nat then Ok d else
  max_page_size ← py_max pages;
  mmap (λ p, new_spec ← unify_layer max_page_size p.2; Ok (p.1, new_spec)) d.

Definition is_kv_cache_type_attention_free (d : spec_dict) : bool :=
  match d with [] => true | _ => false end.

(** [dict[key].append(x)] of a [defaultdict(list)] *)
Definition od_append {K V} `{EqDecision K} (d : list (K * list V)) (k : K) (v : V) : list (K * list V) :=
  od_set d k (default [] (od_get d k) ++ [v]).

(** [layers[i::n]] *)
Definition py_stride {A} (layers : list A) (i n : Z) : list A :=
  omap (λ p : nat * A, if (i <=? Z.of_nat p.1) && ((Z.of_nat p.1 - i) mod n =? 0) then Some p.2 else None)
    (zip (seq 0 (length layers)) layers).

Definition group_by_spec (d : spec_dict) : list (KVCacheSpec * list string) :=
  foldl (λ acc p, od_append acc p.2 p.1) [] d.

(** [max_num_layers < min_num_layers * 1.5] *)
Definition choose_group_size (min_num_layers max_num_layers : Z) : Z :=
  if 2 * max_num_layers <? 3 * min_num_layers then max_num_layers else min_num_layers.

Definition split_layers {A} (group_size : Z) (layers : list A) : list (list A) :=
  let num_groups := cdiv (zlen layers) group_size in
  (λ i, py_stride layers i num_groups) <$> py_range 0 num_groups.

Definition _get_kv_cache_groups_uniform_page_size (d : spec_dict) : result (list WorkerGroup) :=
  let same_type_layers := (group_by_spec d).*2 in
  min_num_layers ← py_min (zlen <$> same_type_layers);
  max_num_layers ← py_max (zlen <$> same_type_layers);
  let group_size := choose_group_size min_num_layers max_num_layers in
  create_kv_cache_group_specs d (concat (split_layers group_size <$> same_type_layers)).

(** ** Hybrid models without the hybrid manager *)

Definition is_uniform (d : spec_dict) : result bool :=
  same ← is_kv_cache_spec_uniform d; if (same : bool) then Ok true else is_uniform_type d.

(** One layer of the conversion to full attention. *)
Definition to_full_attention (uniform_block_size : option Z) (s : KVCacheSpec) : result KVCacheSpec :=
  match s with
  | SlidingWindowMLASpec a w m =>
      post_init (MLAAttentionSpec
        (mkAttn (default (attn_block_size a) uniform_block_size) (num_kv_heads a) (head_size a) (attn_dtype a)
           QNone (attn_page_size_padded a) false)
        (mkFull (head_size a) None None false) m)
  | SlidingWindowSpec a w head_size_v =>
      Ok (FullAttentionSpec
        (mkAttn (attn_block_size a) (num_kv_heads a) (head_size a) (attn_dtype a) (kv_quant_mode a)
           (attn_page_size_padded a) false)
        (mkFull head_size_v (Some w) None false))
  | ChunkedLocalAttentionSpec a chunk =>
      Ok (FullAttentionSpec
        (mkAttn (attn_block_size a) (num_kv_heads a) (head_size a) (attn_dtype a) QNone
           (attn_page_size_padded a) false)
        (mkFull (head_size a) None (Some chunk) false))
  | _ => Ok s
  end.

(** The dictionary it leaves in [kv_cache_spec]. *)
Definition unify_hybrid_kv_cache_specs (d : spec_dict) : result spec_dict :=
  uniform ← is_uniform d;
  if (uniform : bool) then Ok d else
  let has_full_attention := existsb is_full_attention_spec d.*2 in
  let has_sliding_window := existsb is_sliding_window_spec d.*2 in
  let has_chunked_local_attention := existsb is_chunked_local_spec d.*2 in
  let has_swa_mla := existsb is_sliding_window_mla_spec d.*2 in
  uniform_block_size ←
    (if has_swa_mla then
       match filter (λ s, is_full_attention_spec s) d.*2 with
       | [] => Raise AssertionError
       | any_full_spec :: _ => Ok (Some (block_size any_full_spec))
       end
     else Ok None);
  d ← (if has_full_attention && (has_sliding_window || has_chunked_local_attention) then
         mmap (λ p, s ← to_full_attention uniform_block_size p.2; Ok (p.1, s)) d
       else Ok d);
  uniform ← is_uniform d;
  if (uniform : bool) then Ok d else Raise ValueError.

(** ** Multi-head latent attention with sliding windows *)

(** [from_specs], asserted to succeed *)
Definition uniform_of_specs (specs : spec_dict) : result UniformTypeKVCacheSpecs :=
  u ← from_specs specs; match u with Some u => Ok u | None => Raise AssertionError end.

(** The sliding-window layers by block size and window. *)
Definition grouped_swa_mla_specs (d : spec_dict) : list (Z * Z * spec_dict) :=
  foldl (λ acc p, match p.2 with
                  | SlidingWindowMLASpec a w _ => od_append acc (attn_block_size a, w) p
                  | _ => acc
                  end) [] d.

Definition group_and_unify_kv_cache_specs (d : spec_dict) : result (option (list UniformTypeKVCacheSpecs)) :=
  if negb (existsb is_sliding_window_mla_spec d.*2) then Ok None else
  let mla_specs := filter (λ p, is_mla_attention_spec p.2) d in
  _ ← py_assert (0 <? zlen mla_specs);
  mla_uniform_spec ← uniform_of_specs mla_specs;
  swa_uniform_specs ← mmap uniform_of_specs (grouped_swa_mla_specs d).*2;
  Ok (Some (mla_uniform_spec :: swa_uniform_specs)).

(** The padding of all values up to multiples of [d]. *)
Definition total_pad (values : list Z) (d : Z) : Z := sum_list ((λ x, (d - x mod d) mod d) <$> values).

Definition gcd_step (values : list Z) (best : Z * option Z) (d : Z) : Z * option Z :=
  let '(best_d, best_pad) := best in
  let pad := total_pad values d in
  match best_pad with
  | None => (d, Some pad)
  | Some bp => if (pad <? bp) || ((pad =? bp) && (best_d <? d)) then (d, Some pad) else best
  end.

Definition _approximate_gcd (values : list Z) (lower_bound : option Z) : result Z :=
  if bool_decide (values = []) then Raise ValueError else
  if existsb (λ x, x <=? 0) values then Raise ValueError else
  let min_d := Z.max 1 (default 1 lower_bound) in
  max_d ← py_max values;
  if max_d <? min_d then Ok min_d else
  Ok (foldl (gcd_step values) (min_d, None) (py_range min_d (max_d + 1))).1.

(** [zip( *ls)] *)
Fixpoint py_zip_star {A} (ls : list (list A)) : list (list A) :=
  match ls with
  | [] => []
  | [l] => (λ x, [x]) <$> l
  | l :: ls => zip_with cons l (py_zip_star ls)
  end.

(** The layers of one sliding-window specification, padded to the page sizes of
    the full-attention group: the padded layers and their names by page size. *)
Definition pad_layers (size_to_candidate : list (Z * Z)) (specs : spec_dict)
    : result (spec_dict * list (Z * list string)) :=
  mfold (λ '(done, layers_per_size) p,
    current_size ← page_size_bytes p.2;
    candidate ← match od_get size_to_candidate current_size with Some c => Ok c | None => Raise KeyError end;
    let layer_spec := if current_size <? candidate then set_page_size_padded candidate p.2 else p.2 in
    Ok (done ++ [(p.1, layer_spec)], od_append layers_per_size candidate p.1)) ([], []) specs.

(** A sub-group of the given layers. *)
Definition make_tuple_group (specs : spec_dict) (group_layer_names : list string) : result WorkerGroup :=
  group_layer_specs ← mmap (λ name, s ← get_layer specs name; Ok (name, s)) group_layer_names;
  sub_sm_spec ← from_specs group_layer_specs;
  match sub_sm_spec with
  | None => Raise AssertionError
  | Some u => Ok (mkWorkerGroup group_layer_names (UniformType u) false)
  end.

Definition split_swa_group (num_layer_tuples : Z) (all_page_sizes : list Z) (sm_spec : UniformTypeKVCacheSpecs)
    : result (list WorkerGroup) :=
  sm_page_sizes ← get_page_sizes sm_spec;
  max_sm ← py_max sm_page_sizes;
  max_all ← py_max all_page_sizes;
  _ ← py_assert (max_sm <=? max_all);
  size_to_candidate ← mmap (λ ps, c ← py_min (filter (λ x, ps ≤ x) all_page_sizes); Ok (ps, c)) sm_page_sizes;
  '(specs, layers_per_size) ← pad_layers size_to_candidate (ut_specs sm_spec);
  match layers_per_size.*2 with
  | [] => Raise AssertionError
  | first :: _ =>
      _ ← py_assert (one_value (length <$> layers_per_size.*2));
      let num_tuple_groups := cdiv (zlen first) num_layer_tuples in
      let layer_tuples := py_zip_star layers_per_size.*2 in
      mmap (λ i, make_tuple_group specs (concat (py_stride layer_tuples i num_tuple_groups)))
        (py_range 0 num_tuple_groups)
  end.

Definition _get_kv_cache_groups_uniform_groups (grouped_specs : list UniformTypeKVCacheSpecs)
    : result (list WorkerGroup) :=
  match grouped_specs with
  | [] => Raise AssertionError
  | full_mla_spec :: swa_mla_specs =>
      _ ← py_assert (forallb is_mla_attention_spec (ut_specs full_mla_spec).*2);
      num_layer_tuples_per_group ← mmap get_num_layer_tuples grouped_specs;
      num_layer_tuples ← _approximate_gcd num_layer_tuples_per_group (head num_layer_tuples_per_group);
      _ ← py_assert (forallb (λ u, forallb is_sliding_window_mla_spec (ut_specs u).*2) swa_mla_specs);
      all_page_sizes ← get_page_sizes full_mla_spec;
      swa_mla_groups ← mmap (split_swa_group num_layer_tuples all_page_sizes) swa_mla_specs;
      Ok (mkWorkerGroup (ut_specs full_mla_spec).*1 (UniformType full_mla_spec) false :: concat swa_mla_groups)
  end.

(** The first group that holds the layer is flagged. *)
Fixpoint flag_eagle_group (last_layer : string) (groups : list WorkerGroup) : list WorkerGroup :=
  match groups with
  | [] => []
  | g :: groups =>
      if bool_decide (last_layer ∈ wg_layer_names g) then mkWorkerGroup (wg_layer_names g) (wg_spec g) true :: groups
      else g :: flag_eagle_group last_layer groups
  end.

Definition is_deepseek_v4 (s : KVCacheSpec) : bool :=
  match mla_of s with Some m => bool_decide (model_version m = Some "deepseek_v4"%string) | None => false end.

Definition _annotate_eagle_groups_deepseek_v4 (v : VllmConfig) (d : spec_dict) (groups : list WorkerGroup)
    : list WorkerGroup :=
  if negb (spec_use_eagle v) then groups else
  if negb (existsb is_deepseek_v4 d.*2) then groups else
  match last d.*1 with
  | Some last_layer => flag_eagle_group last_layer groups
  | None => groups
  end.

(** A hidden-state layer put back as a group of its own. *)
Definition hidden_state_group (common_page : Z) (p : string * KVCacheSpec) : result WorkerGroup :=
  match p.2 with
  | HiddenStateCacheSpec a _ _ =>
      q ← py_floordiv common_page (num_kv_heads a * head_size a * get_dtype_size (attn_dtype a));
      aligned ← post_init (set_page_size_padded common_page (set_block_size (Z.max q 1) p.2));
      Ok (mkWorkerGroup [p.1] (Plain aligned) false)
  | _ => Raise TypeError
  end.

Definition hybrid_groups (d : spec_dict) : result (list WorkerGroup) :=
  let hidden_specs := filter (λ p, is_hidden_state_spec p.2) d in
  let filtered_spec := filter (λ p, negb (is_hidden_state_spec p.2)) d in
  filtered_spec ← unify_kv_cache_spec_page_size filtered_spec;
  groups ← _get_kv_cache_groups_uniform_page_size filtered_spec;
  match hidden_specs with
  | [] => Ok groups
  | _ =>
      common_page ← get_uniform_page_size (wg_spec <$> groups);
      hidden_groups ← mmap (hidden_state_group common_page) hidden_specs;
      Ok (groups ++ hidden_groups)
  end.

Definition get_kv_cache_groups (v : VllmConfig) (d : spec_dict) : result (list WorkerGroup) :=
  d ← (if disable_hybrid_kv_cache_manager v then unify_hybrid_kv_cache_specs d else Ok d);
  if is_kv_cache_type_attention_free d then Ok [] else
  same ← is_kv_cache_spec_uniform d;
  if (same : bool) then _get_kv_cache_groups_uniform_spec d else
  uniform_spec ← from_specs d;
  match uniform_spec with
  | Some u => Ok (_get_kv_cache_groups_uniform_type u)
  | None =>
      grouped_specs ← group_and_unify_kv_cache_specs d;
      match grouped_specs with
      | Some grouped_specs =>
          groups ← _get_kv_cache_groups_uniform_groups grouped_specs;
          Ok (_annotate_eagle_groups_deepseek_v4 v d groups)
      | None => hybrid_groups d
      end
  end.

(** ** Tensors *)

Definition layer_page_size (g : GroupSpec) (name : string) : result Z :=
  match g with
  | UniformType u => s ← get_layer (ut_specs u) name; page_size_bytes s
  | Plain s => page_size_bytes s
  end.

Notation buckets := (list (Z * list (list string))).

(** One layer of the loop: it joins the next slot of its page size. *)
Definition bucket_layer (spec : GroupSpec) (st : buckets * list (Z * nat)) (layer_name : string)
    : result (buckets * list (Z * nat)) :=
  let '(b, slot_count) := st in
  ps ← layer_page_size spec layer_name;
  let slot_idx := default O (od_get slot_count ps) in
  let slots := default [] (od_get b ps) in
  let slots := if (slot_idx =? length slots)%nat then slots ++ [[]] else slots in
  match slots !! slot_idx with
  | None => Raise IndexError
  | Some slot => Ok (od_set b ps (<[slot_idx := slot ++ [layer_name]]> slots), od_set slot_count ps (S slot_idx))
  end.

Definition _bucket_layers_by_page_size (groups : list WorkerGroup) : result buckets :=
  mfold (λ b g, st ← mfold (bucket_layer (wg_spec g)) (b, []) (wg_layer_names g); Ok st.1) [] groups.

Definition _use_packed_kv_cache_groups (v : VllmConfig) (groups : list WorkerGroup) : bool :=
  forallb is_uniform_group groups || (VLLM_USE_PACKED_HMA_KV_CACHE v && (1 <? zlen groups)).

(** [sum(ps * len(slots) for ps, slots in buckets.items())] *)
Definition bytes_per_block (b : buckets) : Z := sum_list ((λ p, p.1 * zlen p.2) <$> b).

Definition may_override_num_blocks (v : VllmConfig) (num_blocks : Z) : Z :=
  default num_blocks (num_gpu_blocks_override v).

(** One tensor per slot, one after the other within a block. *)
Definition slot_tensors (total_size stride : Z) (b : buckets) : list KVCacheTensor * Z :=
  foldl (λ st p, foldl (λ '(ts, byte_offset) slot,
            (ts ++ [mkTensor total_size slot byte_offset stride], byte_offset + p.1)) st p.2)
    ([], 0) b.

Definition _get_kv_cache_config_packed (v : VllmConfig) (groups : list WorkerGroup) (available_memory : Z)
    : result (Z * list KVCacheTensor) :=
  b ← _bucket_layers_by_page_size groups;
  let total_num_bytes_per_block := bytes_per_block b in
  num_blocks ← py_floordiv available_memory total_num_bytes_per_block;
  let num_blocks := may_override_num_blocks v num_blocks in
  Ok (num_blocks, (slot_tensors (total_num_bytes_per_block * num_blocks) total_num_bytes_per_block b).1).

Definition get_num_blocks (v : VllmConfig) (num_layers available_memory page_size : Z) : result Z :=
  q ← py_floordiv available_memory page_size;
  q ← py_floordiv q num_layers;
  Ok (may_override_num_blocks v (Z.max q 0)).

Definition get_group_size (groups : list WorkerGroup) : result Z := py_max ((λ g, zlen (wg_layer_names g)) <$> groups).

(** The [i]-th layer of every group that has one. *)
Definition pool_layers (groups : list WorkerGroup) (i : nat) : list string :=
  omap (λ g, wg_layer_names g !! i) groups.

Definition get_kv_cache_config_from_groups (v : VllmConfig) (groups : list WorkerGroup) (available_memory : Z)
    : result WorkerConfig :=
  match groups with
  | [] => Ok (mkWorkerConfig 1 [] [])
  | [mkWorkerGroup names (UniformType u) _] =>
      page ← uniform_page_size_bytes u;
      num_blocks ← py_floordiv available_memory page;
      let num_blocks := may_override_num_blocks v num_blocks in
      kv_cache_tensors ← mmap (λ name,
        s ← get_layer (ut_specs u) name; p ← page_size_bytes s;
        Ok (mkTensor (p * num_blocks) [name] 0 0)) names;
      Ok (mkWorkerConfig num_blocks kv_cache_tensors groups)
  | _ =>
      if _use_packed_kv_cache_groups v groups then
        '(num_blocks, kv_cache_tensors) ← _get_kv_cache_config_packed v groups available_memory;
        Ok (mkWorkerConfig num_blocks kv_cache_tensors groups)
      else
        group_size ← get_group_size groups;
        page_size ← get_uniform_page_size (wg_spec <$> groups);
        _ ← py_assert (0 <? group_size);
        num_blocks ← get_num_blocks v group_size available_memory page_size;
        Ok (mkWorkerConfig num_blocks
              ((λ i, mkTensor (page_size * num_blocks) (pool_layers groups i) 0 0) <$> seq 0 (Z.to_nat group_size))
              groups)
  end.

Definition _pool_bytes_per_block (v : VllmConfig) (groups : list WorkerGroup) : result Z :=
  match groups with
  | [mkWorkerGroup _ (UniformType u) _] => uniform_page_size_bytes u
  | _ =>
      if _use_packed_kv_cache_groups v groups then
        b ← _bucket_layers_by_page_size groups; Ok (bytes_per_block b)
      else
        group_size ← get_group_size groups;
        page_size ← get_uniform_page_size (wg_spec <$> groups);
        Ok (page_size * group_size)
  end.

(** ** The memory a request of the maximum length needs *)

(** The groups are all of [UniformTypeKVCacheSpecs]. *)
Definition layer_tuple_usage (c : SpecConfig) (full_mla_spec : UniformTypeKVCacheSpecs)
    (specs : list UniformTypeKVCacheSpecs) : result Z :=
  pages ← get_page_sizes full_mla_spec;
  let layer_tuple_bytes := sum_list pages in
  counts ← mmap get_num_layer_tuples specs;
  num_layer_tuples ← py_max counts;
  usages ← mmap (λ u, n ← max_memory_usage_pages c u; Ok (num_layer_tuples * n * layer_tuple_bytes)) specs;
  Ok (sum_list usages).

Definition uniform_of_group (g : WorkerGroup) : option UniformTypeKVCacheSpecs :=
  match wg_spec g with UniformType u => Some u | Plain _ => None end.

(** The blocks a request needs of every group. *)
Definition blocks_needed (c : SpecConfig) (page_size : Z) (groups : list WorkerGroup) : result Z :=
  blocks ← mmap (λ g, m ← gspec_max_memory_usage_bytes c (wg_spec g); py_cdiv m page_size) groups;
  Ok (sum_list blocks).

(** [group_size] pools, each shared by one layer per group *)
Definition pooled_usage (c : SpecConfig) (groups : list WorkerGroup) : result Z :=
  group_size ← get_group_size groups;
  page_size ← get_uniform_page_size (wg_spec <$> groups);
  n ← blocks_needed c page_size groups;
  Ok (group_size * page_size * n).

Definition _max_memory_usage_bytes_from_groups (c : SpecConfig) (groups : list WorkerGroup) : result Z :=
  match groups with
  | [] => Ok 0
  | [mkWorkerGroup _ (UniformType u) _] =>
      usages ← mmap (max_memory_usage_bytes c) (ut_specs u).*2; Ok (sum_list usages)
  | g :: _ =>
      match uniform_of_group g with
      | Some full_mla_spec =>
          if forallb is_uniform_group groups then layer_tuple_usage c full_mla_spec (omap uniform_of_group groups)
          else pooled_usage c groups
      | None => pooled_usage c groups
      end
  end.

Definition _estimate_max_model_len_from_groups (c : SpecConfig) (groups : list WorkerGroup)
    (available_memory : Z) : result Z :=
  largest_fitting (λ model_len,
      m ← _max_memory_usage_bytes_from_groups (with_max_model_len model_len c) groups;
      Ok (m <=? available_memory)) (cfg_max_model_len c).

Definition no_groups (groups : list WorkerGroup) : bool := match groups with [] => true | _ => false end.

(** One worker of the loop in [_auto_fit_max_model_len]. *)
Definition fit_step (c : SpecConfig) (auto_fit_max : Z) (w : list WorkerGroup * Z) : result Z :=
  let '(groups, avail_mem) := w in
  if no_groups groups then Ok auto_fit_max else
  worker_max ← _estimate_max_model_len_from_groups c groups avail_mem;
  Ok (if worker_max <? auto_fit_max then worker_max else auto_fit_max).

Definition _auto_fit_max_model_len (c : SpecConfig) (projected_groups_per_worker : list (list WorkerGroup))
    (available_memory : list Z) : result SpecConfig :=
  let original_max := cfg_max_model_len c in
  if forallb no_groups projected_groups_per_worker then Ok c else
  match available_memory with
  | [] => Raise IndexError
  | _ =>
      auto_fit_max ← mfold (fit_step c) original_max (zip projected_groups_per_worker available_memory);
      if auto_fit_max <=? 0 then Raise ValueError else
      Ok (if original_max <=? auto_fit_max then c else with_max_model_len auto_fit_max c)
  end.

(** ** Workers *)

Definition project_group (worker_spec : spec_dict) (g : WorkerGroup) : result WorkerGroup :=
  let worker_layer_names := filter (λ name, name ∈ worker_spec.*1) (wg_layer_names g) in
  let nonempty := negb (bool_decide (worker_layer_names = [])) in
  group_spec ←
    match wg_spec g with
    | UniformType u =>
        if nonempty then
          specs ← mmap (λ name, s ← get_layer (ut_specs u) name; Ok (name, s)) worker_layer_names;
          Ok (UniformType (mkUniform (ut_block_size u) specs))
        else Ok (wg_spec g)
    | Plain _ => Ok (wg_spec g)
    end;
  Ok (mkWorkerGroup worker_layer_names group_spec (wg_is_eagle g && nonempty)).

Definition _project_kv_cache_groups_to_worker (global : list WorkerGroup) (worker_spec : spec_dict)
    : result (list WorkerGroup) :=
  mmap (project_group worker_spec) global.

(** The ratio [num_blocks / num_block_per_request], as its two integers. *)
Definition get_max_concurrency_for_kv_cache_config (c : SpecConfig) (cfg : WorkerConfig) : result (Z * Z) :=
  num_layer_per_group ← get_group_size (wc_groups cfg);
  usage ← total_max_memory_usage_bytes c (wg_spec <$> wc_groups cfg);
  match wc_groups cfg with
  | [] => Raise IndexError
  | g :: _ =>
      page ← gspec_page_size_bytes (wg_spec g);
      num_block_per_request ← py_cdiv (num_layer_per_group * usage) (page * num_layer_per_group);
      if num_block_per_request =? 0 then Raise ZeroDivisionError
      else Ok (wc_num_blocks cfg, num_block_per_request)
  end.

Definition merge_worker_specs (kv_cache_specs : list spec_dict) : result spec_dict :=
  mfold (λ merged '(layer_name, layer_spec),
      match od_get merged layer_name with
      | None => Ok (od_set merged layer_name layer_spec)
      | Some s => _ ← py_assert (bool_decide (s = layer_spec)); Ok merged
      end) [] (concat kv_cache_specs).

(** The memory of [override] blocks, for the workers that have groups. *)
Definition adjust_memory (v : VllmConfig) (override : Z) (workers : list (list WorkerGroup * Z)) : result (list Z) :=
  mmap (λ '(groups, avail_mem),
    if no_groups groups then Ok avail_mem else
    bytes_per_block ← _pool_bytes_per_block v groups;
    _ ← py_floordiv avail_mem bytes_per_block;
    Ok (override * bytes_per_block)) workers.

(** The tensors shrink with the number of blocks. *)
Definition shrink_config (c : SpecConfig) (min_num_blocks : Z) (cfg : WorkerConfig) : result WorkerConfig :=
  tensors ← mmap (λ t,
      rest ← py_mod (tensor_size t) (wc_num_blocks cfg);
      _ ← py_assert (rest =? 0);
      Ok (mkTensor (tensor_size t / wc_num_blocks cfg * min_num_blocks) (shared_by t) (tensor_offset t)
            (block_stride t))) (wc_tensors cfg);
  let cfg := mkWorkerConfig min_num_blocks tensors (wc_groups cfg) in
  _ ← (if no_groups (wc_groups cfg) then Ok tt else _ ← get_max_concurrency_for_kv_cache_config c cfg; Ok tt);
  Ok cfg.

Definition check_worker (c : SpecConfig) (w : list WorkerGroup * Z) : result unit :=
  if no_groups w.1 then Ok tt else
  _check_enough_kv_cache_memory w.2 (_max_memory_usage_bytes_from_groups c w.1)
    (_estimate_max_model_len_from_groups c w.1).

Definition worker_config (v : VllmConfig) (w : list WorkerGroup * spec_dict * Z) : result WorkerConfig :=
  let '(groups, worker_spec, avail_mem) := w in
  _ ← py_assert (sum_list ((λ g, zlen (wg_layer_names g)) <$> groups) =? zlen worker_spec);
  get_kv_cache_config_from_groups v groups avail_mem.

(** The workers' configurations, with the configuration they were made for: the
    maximum model length may have been reduced. *)
Definition get_kv_cache_configs (v : VllmConfig) (kv_cache_specs : list spec_dict) (available_memory : list Z)
    : result (VllmConfig * list WorkerConfig) :=
  merged ← merge_worker_specs kv_cache_specs;
  _ ← check_kv_cache_spec_registry merged;
  global_kv_cache_groups ← get_kv_cache_groups v merged;
  projected ← mmap (_project_kv_cache_groups_to_worker global_kv_cache_groups) kv_cache_specs;
  available_memory ← (match num_gpu_blocks_override v with
                      | None => Ok available_memory
                      | Some override => adjust_memory v override (zip projected available_memory)
                      end);
  c ← (if original_max_model_len v =? -1 then _auto_fit_max_model_len (spec_cfg v) projected available_memory
       else Ok (spec_cfg v));
  let v := set_spec_cfg c v in
  _ ← mmap (check_worker c) (zip projected available_memory);
  configs ← mmap (worker_config v) (zip (zip projected kv_cache_specs) available_memory);
  min_num_blocks ← py_min (wc_num_blocks <$> configs);
  configs ← mmap (shrink_config c min_num_blocks) configs;
  Ok (v, configs).

(** ** The scheduler's configuration *)

Definition scheduler_group (g : WorkerGroup) : result KVCacheGroupSpec :=
  match wg_spec g with
  | Plain s => Ok (mkGroup (wg_layer_names g) s (wg_is_eagle g))
  | UniformType u =>
      match (ut_specs u).*2 with
      | [] => Raise StopIteration
      | s :: _ => Ok (mkGroup (wg_layer_names g) s (wg_is_eagle g))
      end
  end.

Definition generate_scheduler_kv_cache_config (configs : list WorkerConfig) : result KVCacheConfig :=
  match configs with
  | [] => Raise IndexError
  | first :: _ =>
      _ ← py_assert (forallb (λ cfg, wc_num_blocks cfg =? wc_num_blocks first) configs);
      groups ← mmap scheduler_group (wc_groups first);
      Ok (mkKVConfig (wc_num_blocks first) groups)
  end.

(** [any(bs % hash_block_size != 0 for bs in group_block_sizes)] *)
Fixpoint any_not_divisible (hash_block_size : Z) (sizes : list Z) : result bool :=
  match sizes with
  | [] => Ok false
  | bs :: sizes =>
      rest ← py_mod bs hash_block_size;
      if rest =? 0 then any_not_divisible hash_block_size sizes else Ok true
  end.

Definition resolve_kv_cache_block_sizes (cfg : KVCacheConfig) (v : VllmConfig) : result (Z * Z) :=
  let dcp := decode_context_parallel_size (spec_cfg v) in
  let pcp := prefill_context_parallel_size (spec_cfg v) in
  let groups := kv_cache_groups cfg in
  if zlen groups <=? 1 then
    let bs := cache_block_size v * dcp * pcp in Ok (bs, bs)
  else if negb ((dcp =? 1) && (pcp =? 1)) then Raise ValueError else
  let group_block_sizes := (λ g, block_size (kv_cache_spec g)) <$> groups in
  let scheduler_block_size := foldr Z.lcm 1 group_block_sizes in
  if negb (cache_enable_prefix_caching v || kv_connector_enabled v) then
    Ok (scheduler_block_size, scheduler_block_size)
  else if existsb (λ g, is_mamba_spec (kv_cache_spec g) &&
                        negb (block_size (kv_cache_spec g) =? cache_block_size v)) groups then
    Ok (scheduler_block_size, scheduler_block_size)
  else
    let hash_block_size := default (foldr Z.gcd 0 group_block_sizes) (cache_hash_block_size v) in
    bad ← any_not_divisible hash_block_size group_block_sizes;
    if (bad : bool) then Raise ValueError else Ok (scheduler_block_size, hash_block_size).
