(* ===== verification/PlanSearch.v ===== *)
(** * Searching while planning the KV cache

    The binary search for the longest model length that fits ([KVPlan]'s
    [largest_fitting]), which needs the memory usage of every layer to grow with
    the length, the fit over all workers, and the chunk size that pads least. *)

From S2P Require Import Prelude MathUtils OrderedDict KVSpecs KVMerge KVPlan.

#[local] Open Scope Z_scope.

(** ** The binary search *)

Section search.
  Context (fits : Z → result bool) (f : Z → bool) (bound : Z).
  Hypothesis fits_total : ∀ n, 1 ≤ n ≤ bound → fits n = Ok (f n).
  Hypothesis fits_down : ∀ n m, 1 ≤ n ≤ m → m ≤ bound → f m = true → f n = true.

  (** The best length so far is the last one tested below [left], and nothing
      above [right] fits. *)
Lemma search_max_len_spec fuel left right best :
  1 ≤ left → right ≤ bound → right - left + 1 < 2 ^ (Z.of_nat fuel - 1) → (1 ≤ fuel)%nat →
  1 ≤ best ≤ bound → left - 1 ≤ best → f best = true → (∀ n, right < n ≤ bound → f n = false) →
  ∃ r, search_max_len fits fuel left right best = Ok r ∧ 1 ≤ r ≤ bound ∧ f r = true ∧
    ∀ n, r < n ≤ bound → f n = false.
Proof using fits_total fits_down.
  revert left right best. induction fuel as [|fuel IH]; intros left right best Hl Hr Hf H1 Hb Hlb Hfb Hab; [lia|].
  cbn [search_max_len]. destruct (Z.ltb_spec right left) as [Hlt|Hle].
  { exists best. split; [done|]. split; [done|]. split; [done|]. intros n Hn. apply Hab. lia. }
  assert (Hmid : left ≤ (left + right) / 2 ≤ right).
  { split; [apply Z.div_le_lower_bound|apply Z.div_le_upper_bound]; lia. }
  assert (Hfuel : (1 ≤ fuel)%nat).
  { destruct fuel; [|lia]. replace (Z.of_nat 1 - 1) with 0 in Hf by lia. lia. }
  replace (Z.of_nat (S fuel) - 1) with (Z.succ (Z.of_nat fuel - 1)) in Hf by lia.
  rewrite Z.pow_succ_r in Hf by lia.
  pose proof (Z.div_mod (left + right) 2 ltac:(lia)). pose proof (Z.mod_pos_bound (left + right) 2 ltac:(lia)).
  rewrite fits_total by lia. cbn [mbind result_bind].
  destruct (f ((left + right) / 2)) eqn:Hfm; apply IH; try done; try lia.
  intros n Hn. destruct (f n) eqn:Hfn; [|done]. rewrite <-Hfm. symmetry.
  apply (fits_down _ n); [lia|lia|done].
Qed.

  (** Enough fuel: the search returns the largest length that fits. *)
Lemma largest_fitting_spec :
  1 ≤ bound →
  ∃ r, largest_fitting fits bound = Ok r ∧ 0 ≤ r ≤ bound ∧ (1 ≤ r → f r = true) ∧
    ∀ n, 1 ≤ n ≤ bound → r < n → f n = false.
Proof using fits_total fits_down.
  intros Hb. unfold largest_fitting. rewrite fits_total by lia. cbn [mbind result_bind].
  destruct (f 1) eqn:H1; cbn [negb].
  - destruct (search_max_len_spec (search_fuel bound) 1 bound 1) as (r & -> & Hr & Hfr & Hn); try lia; try done.
    + unfold search_fuel. rewrite Z.max_r by lia. pose proof (bit_length_nonneg bound ltac:(lia)).
      replace (Z.of_nat (Z.to_nat (bit_length bound + 1)) - 1) with (bit_length bound) by lia.
      pose proof (bit_length_bounds bound ltac:(lia)) as [Hlt _]. lia.
    + unfold search_fuel. pose proof (bit_length_nonneg (Z.max 0 bound) ltac:(lia)). lia.
    + exists r. split; [done|]. split; [lia|]. split; [done|]. intros n Hn1 Hlt. apply Hn. lia.
  - exists 0. split; [done|]. split; [lia|]. split; [lia|]. intros n Hn _.
    destruct (f n) eqn:Hfn; [|done]. rewrite <-H1. symmetry. apply (fits_down 1 n); [lia|lia|done].
Qed.
End search.

(** ** Memory usage grows with the model length *)

(** A computation over a length that always raises the same error or is total
    and monotone. *)
Definition len_mono (F : Z → result Z) : Prop :=
  (∃ e, ∀ n, F n = Raise e) ∨ ∃ g, (∀ n, F n = Ok (g n)) ∧ ∀ n m, n ≤ m → g n ≤ g m.

Definition len_mono_list (F : Z → result (list Z)) : Prop :=
  (∃ e, ∀ n, F n = Raise e) ∨ ∃ g, (∀ n, F n = Ok (g n)) ∧ ∀ n m, n ≤ m → Forall2 Z.le (g n) (g m).

Lemma len_mono_ext F G : (∀ n, F n = G n) → len_mono G → len_mono F.
Proof.
  intros E [[e H]|(g & H & Hm)]; [left; exists e|right; exists g; split; [|done]]; intros n; by rewrite E.
Qed.

Lemma len_mono_Ok g : (∀ n m, n ≤ m → g n ≤ g m) → len_mono (λ n, Ok (g n)).
Proof. intros H. right. by exists g. Qed.

Lemma len_mono_const (r : result Z) : len_mono (λ _, r).
Proof. destruct r as [x|e]; [by apply len_mono_Ok|left; by exists e]. Qed.

Lemma len_mono_bind {A} (r : result A) (F : A → Z → result Z) :
  (∀ a, r = Ok a → len_mono (F a)) → len_mono (λ n, r ≫= λ a, F a n).
Proof. destruct r as [a|e]; intros H; [by apply H|left; by exists e]. Qed.

(** A step that does not depend on the length. *)
Tactic Notation "len_step" constr(E) "as" ident(x) ident(H) :=
  destruct E as [x|] eqn:H; [|left; by eexists]; cbn [mbind result_bind].

(** A step that depends on what was computed for the length. *)
Lemma len_mono_then F (h : Z → result Z) (k : Z → Z) :
  len_mono F → (∀ x, h x = Ok (k x)) → (∀ x y, x ≤ y → k x ≤ k y) → len_mono (λ n, F n ≫= h).
Proof.
  intros [[e H]|(g & H & Hm)] Hh Hk.
  - left. exists e. intros n. by rewrite H.
  - right. exists (λ n, k (g n)). split; [intros n; rewrite H; apply Hh|]. auto.
Qed.

Lemma len_mono_list_sum F : len_mono_list F → len_mono (λ n, xs ← F n; Ok (sum_list xs)).
Proof.
  intros [[e H]|(g & H & Hm)]; [left; exists e; intros n; by rewrite H|].
  right. exists (λ n, sum_list (g n)). split; [intros n; by rewrite H|]. intros. by apply sum_list_mono, Hm.
Qed.

Lemma len_mono_list_max F : len_mono_list F → len_mono (λ n, xs ← F n; py_max xs).
Proof.
  intros [[e H]|(g & H & Hm)]; [left; exists e; intros n; by rewrite H|].
  destruct (g 0) as [|x0 l0] eqn:E0.
  - left. exists ValueError. intros n. rewrite H. cbn.
    assert (length (g n) = 0%nat) as ->%nil_length_inv; [|done].
    transitivity (length (g 0)); [|by rewrite E0].
    destruct (Z.le_ge_cases n 0) as [Hle|Hle]; [|symmetry]; by eapply Forall2_length, Hm.
  - right. assert (Hne : ∀ n, g n ≠ []).
    { intros n Hn. assert (length (g n) = length (g 0)) as Hlen.
      { destruct (Z.le_ge_cases n 0) as [Hle|Hle]; [|symmetry]; by eapply Forall2_length, Hm. }
      rewrite Hn, E0 in Hlen. done. }
    exists (λ n, match py_max (g n) with Ok m => m | Raise _ => 0 end). split.
    + intros n. rewrite H. cbn. by destruct (py_max_total (g n) (Hne n)) as [m ->].
    + intros n m Hnm. destruct (py_max_total (g n) (Hne n)) as [a Ha], (py_max_total (g m) (Hne m)) as [b Hb].
      rewrite Ha, Hb. by eapply py_max_mono; [apply Hm| |].
Qed.

Lemma len_mono_mmap {A} (f : Z → A → result Z) l :
  Forall (λ a, len_mono (λ n, f n a)) l → len_mono_list (λ n, mmap (f n) l).
Proof.
  induction 1 as [|a l Ha Hl IH]; [right; by exists (λ _, [])|]. cbn [mmap].
  destruct Ha as [[e H]|(g & H & Hm)]; [left; exists e; intros n; by rewrite H|].
  destruct IH as [[e H']|(gs & H' & Hm')]; [left; exists e; intros n; by rewrite H, H'|].
  right. exists (λ n, g n :: gs n). split; [intros n; by rewrite H, H'|]. intros n m Hnm.
  constructor; auto.
Qed.

(** A layer with a usable format: a positive block size and page. *)
Definition layer_ok (s : KVCacheSpec) : bool :=
  (0 <? block_size s) && match page_size_bytes s with Ok p => 0 <? p | Raise _ => true end.

Lemma layer_ok_page s p : layer_ok s = true → page_size_bytes s = Ok p → 0 < block_size s ∧ 0 < p.
Proof. unfold layer_ok. intros H E. rewrite E in H. lia. Qed.

(** A usage of a number of pages that grows with the length. *)
Lemma pages_mono s (k : Z → Z) :
  layer_ok s = true → (0 < block_size s → ∀ n m, n ≤ m → k n ≤ k m) →
  len_mono (λ n, pg ← page_size_bytes s; Ok (k n * pg)).
Proof.
  intros Hok Hk. apply (len_mono_bind _ (λ pg n, Ok (k n * pg))). intros pg Hp.
  destruct (layer_ok_page _ _ Hok Hp). apply len_mono_Ok. intros n m Hnm.
  apply Z.mul_le_mono_nonneg_r; [lia|]. by apply Hk.
Qed.

(** The usage of a layer as a function of the length. *)
Lemma layer_usage_mono c s :
  layer_ok s = true → len_mono (λ n, max_memory_usage_bytes (with_max_model_len n c) s).
Proof.
  intros Hok.
  destruct s as [a f|a f t|a f m|a f m|a f k|a ch|a w h|a w m|m|a|a];
    cbn [max_memory_usage_bytes with_max_model_len cfg_max_model_len decode_context_parallel_size
      prefill_context_parallel_size cfg_max_num_batched_tokens cfg_mamba_cache_mode max_num_encoder_input_tokens];
    try apply len_mono_const.
  1-5: eapply (pages_mono _ (λ n, cdiv _ _)); [done|]; intros Hb n n' Hn; apply cdiv_mono; [done|];
    case_match; [apply cdiv_mono; lia|done].
  - eapply (pages_mono _ (λ n, chunked_max_admission_blocks _ _ _ _)); [done|]. intros Hb n n' Hn.
    apply cdiv_mono; [done|lia].
  - apply (len_mono_bind (py_assert _) (λ _ n, pg ← page_size_bytes _; Ok (sw_max_admission_blocks _ _ _ _ * pg))).
    intros _ _. eapply (pages_mono _ (λ n, sw_max_admission_blocks _ _ _ _)); [done|]. intros Hb n n' Hn.
    apply Z.add_le_mono_r, cdiv_mono; [done|lia].
  - apply (len_mono_bind (py_assert _) (λ _ n, pg ← page_size_bytes _; Ok (sw_max_admission_blocks _ _ _ _ * pg))).
    intros _ _. eapply (pages_mono _ (λ n, sw_max_admission_blocks _ _ _ _)); [done|]. intros Hb n n' Hn.
    apply Z.add_le_mono_r, cdiv_mono; [done|lia].
  - destruct (cfg_mamba_cache_mode c); try apply len_mono_const.
    eapply (pages_mono _ (λ n, cdiv _ _ + _)); [done|]. intros Hb n n' Hn.
    apply Z.add_le_mono_r, cdiv_mono; [done|lia].
Qed.

(** The layer formats of a group. *)
Definition gspec_layers (g : GroupSpec) : list KVCacheSpec :=
  match g with Plain s => [s] | UniformType u => (ut_specs u).*2 end.

Definition groups_ok (groups : list WorkerGroup) : Prop :=
  Forall (λ g, Forall (λ s, layer_ok s = true) (gspec_layers (wg_spec g))) groups.

Lemma cdiv_then F p : len_mono F → 0 ≤ p → len_mono (λ n, m ← F n; py_cdiv m p).
Proof.
  intros HF Hp. destruct (decide (p = 0)) as [->|Hne].
  - destruct HF as [[e H]|(g & H & _)]; left; [exists e|exists ZeroDivisionError]; intros n; by rewrite H.
  - apply (len_mono_then _ _ (λ m, cdiv m p)); [done| |intros; apply cdiv_mono; lia].
    intros x. unfold py_cdiv. by destruct (Z.eqb_spec p 0).
Qed.

Lemma mul_then F k : len_mono F → 0 ≤ k → len_mono (λ n, m ← F n; Ok (k * m)).
Proof. intros HF Hk. apply (len_mono_then _ _ (λ m, k * m)); [done|done|]. intros. nia. Qed.

Lemma layer_page_nonneg s p : layer_ok s = true → page_size_bytes s = Ok p → 0 ≤ p.
Proof. intros H E. destruct (layer_ok_page _ _ H E). lia. Qed.

Lemma pages_nonneg l ps : Forall (λ s, layer_ok s = true) l → mmap page_size_bytes l = Ok ps → Forall (λ p, 0 ≤ p) ps.
Proof.
  intros Hok E%mmap_Ok. induction E as [|s p l ps Hp _ IH]; [done|]. inversion Hok; subst.
  constructor; [by eapply layer_page_nonneg|auto].
Qed.

Lemma gspec_page_nonneg g p :
  Forall (λ s, layer_ok s = true) (gspec_layers g) → gspec_page_size_bytes g = Ok p → 0 ≤ p.
Proof.
  intros Hok H. destruct g as [s|u]; cbn in *.
  - inversion Hok; subst. by eapply layer_page_nonneg.
  - unfold uniform_page_size_bytes in H. bind_inv H as ps E. injection H as <-.
    eapply sum_list_nonneg, pages_nonneg; [exact Hok|exact E].
Qed.

Lemma usage_pages_mono c u :
  Forall (λ s, layer_ok s = true) (ut_specs u).*2 → len_mono (λ n, max_memory_usage_pages (with_max_model_len n c) u).
Proof.
  intros Hok. apply len_mono_list_max, len_mono_mmap. eapply Forall_impl; [exact Hok|]. intros s Hs.
  destruct (page_size_bytes s) as [p|e] eqn:Hp.
  - apply (cdiv_then _ p); [by apply layer_usage_mono|exact (layer_page_nonneg s p Hs Hp)].
  - destruct (layer_usage_mono c s Hs) as [[e' H]|(g & H & _)]; left;
      [exists e'|exists e]; intros n; by rewrite H.
Qed.

Lemma gspec_usage_mono c g :
  Forall (λ s, layer_ok s = true) (gspec_layers g) →
  len_mono (λ n, gspec_max_memory_usage_bytes (with_max_model_len n c) g).
Proof.
  intros Hok. destruct g as [s|u]; cbn in *.
  - inversion Hok; subst. by apply layer_usage_mono.
  - pose proof (gspec_page_nonneg (UniformType u)) as Hpg. cbn in Hpg. unfold uniform_max_memory_usage_bytes.
    destruct (uniform_page_size_bytes u) as [p|e].
    + apply (len_mono_then _ _ (λ m, m * p)); [by apply usage_pages_mono|done|].
      intros. specialize (Hpg p Hok eq_refl). nia.
    + destruct (usage_pages_mono c u Hok) as [[e' H]|(g & H & _)]; left;
        [exists e'|exists e]; intros n; by rewrite H.
Qed.

Lemma blocks_needed_mono c page groups :
  groups_ok groups → 0 ≤ page → len_mono (λ n, blocks_needed (with_max_model_len n c) page groups).
Proof.
  intros Hok Hp. apply len_mono_list_sum, len_mono_mmap. eapply Forall_impl; [exact Hok|]. intros g Hg.
  apply cdiv_then; [by apply gspec_usage_mono|done].
Qed.

(** The groups have one page size. *)
Lemma uniform_page_Ok gs page :
  get_uniform_page_size gs = Ok page ↔ gs ≠ [] ∧ Forall (λ g, gspec_page_size_bytes g = Ok page) gs.
Proof.
  unfold get_uniform_page_size. rewrite bind_Ok. split.
  - intros (ps & E%mmap_Ok & H). destruct (py_set ps) as [|p [|? ?]] eqn:Ep; try done. injection H as ->.
    apply py_set_one in Ep as [Hne HF]. split; [intros ->; by inversion E; subst|].
    clear Hne. induction E as [|g p gs ps Hg _ IH]; [done|]. inversion HF; subst. constructor; auto.
  - intros [Hne HF]. exists (replicate (length gs) page).
    assert (E : mmap gspec_page_size_bytes gs = Ok (replicate (length gs) page)).
    { apply mmap_Ok. clear Hne. induction HF as [|g gs Hg _ IH]; cbn; constructor; auto. }
    split; [done|]. assert (py_set (replicate (length gs) page) = [page]) as ->; [|done].
    apply py_set_one. split; [by destruct gs|]. by apply Forall_replicate.
Qed.

Lemma uniform_page_nonneg groups page :
  groups_ok groups → get_uniform_page_size (wg_spec <$> groups) = Ok page → 0 ≤ page.
Proof.
  intros Hok [Hne HF]%uniform_page_Ok. destruct groups as [|g groups]; [done|].
  inversion Hok; subst. inversion HF; subst. by eapply gspec_page_nonneg.
Qed.

Lemma group_size_nonneg groups n : get_group_size groups = Ok n → 0 ≤ n.
Proof.
  intros [Hin _]%py_max_Ok. apply list_elem_of_fmap in Hin as (g & -> & _). apply zlen_nonneg.
Qed.

Lemma pooled_usage_mono c groups :
  groups_ok groups → len_mono (λ n, pooled_usage (with_max_model_len n c) groups).
Proof.
  intros Hok. unfold pooled_usage. len_step (get_group_size groups) as gsz Hg.
  len_step (get_uniform_page_size (wg_spec <$> groups)) as page Hp. apply mul_then; [apply blocks_needed_mono; [done|]|];
    pose proof (uniform_page_nonneg _ _ Hok Hp); [done|]. pose proof (group_size_nonneg _ _ Hg). nia.
Qed.

Lemma layer_tuples_nonneg u n : get_num_layer_tuples u = Ok n → 0 ≤ n.
Proof.
  unfold get_num_layer_tuples. intros H. bind_inv H as ps E. destruct ps as [|p ps]; [done|].
  apply py_max_Ok in H as [Hin _]. apply list_elem_of_fmap in Hin as (q & -> & _). lia.
Qed.

Lemma page_sizes_nonneg u ps :
  Forall (λ s, layer_ok s = true) (ut_specs u).*2 → get_page_sizes u = Ok ps → Forall (λ p, 0 ≤ p) ps.
Proof.
  intros Hok H. unfold get_page_sizes in H. bind_inv H as qs E. injection H as <-.
  pose proof (pages_nonneg _ _ Hok E) as Hq. rewrite Forall_forall in Hq |- *. intros x Hx. apply Hq.
  by rewrite <-elem_of_remove_dups.
Qed.

Lemma layer_tuple_usage_mono c full us :
  Forall (λ s, layer_ok s = true) (ut_specs full).*2 →
  Forall (λ u, Forall (λ s, layer_ok s = true) (ut_specs u).*2) us →
  len_mono (λ n, layer_tuple_usage (with_max_model_len n c) full us).
Proof.
  intros Hfull Hus. unfold layer_tuple_usage.
  len_step (get_page_sizes full) as ps Hps. len_step (mmap get_num_layer_tuples us) as cs Hcs.
  len_step (py_max cs) as k Hk. apply py_max_Ok in Hk as [Hk _]. apply len_mono_list_sum, len_mono_mmap. eapply Forall_impl; [exact Hus|]. intros u Hu.
  apply (len_mono_then _ _ (λ m, k * m * sum_list ps)); [by apply usage_pages_mono|done|].
  pose proof (sum_list_nonneg _ (page_sizes_nonneg _ _ Hfull Hps)).
  assert (0 ≤ k).
  { apply mmap_Ok in Hcs. apply list_elem_of_lookup_1 in Hk as [i Hi].
    destruct (Forall2_lookup_r _ _ _ _ _ Hcs Hi) as (u' & _ & Hu'). by eapply layer_tuples_nonneg. }
  intros x y Hxy. apply Z.mul_le_mono_nonneg_r; [done|]. by apply Z.mul_le_mono_nonneg_l.
Qed.

(** Memory usage of the groups of a worker. *)
Lemma groups_usage_mono c groups :
  groups_ok groups → len_mono (λ n, _max_memory_usage_bytes_from_groups (with_max_model_len n c) groups).
Proof.
  intros Hok. pose proof (pooled_usage_mono c groups Hok) as Hpool.
  destruct groups as [|[names [s|u] eagle] rest]; cbn; [apply len_mono_const|by destruct rest|].
  inversion Hok as [|? ? Hu Hrest]; subst. destruct rest as [|g rest].
  - apply len_mono_list_sum, len_mono_mmap. eapply Forall_impl; [exact Hu|]. intros s. apply layer_usage_mono.
  - cbn [uniform_of_group wg_spec]. case_match; [|done]. apply layer_tuple_usage_mono; [done|].
    constructor; [done|]. apply Forall_forall. intros u' Hu'. apply list_elem_of_omap in Hu' as (g' & Hg' & Hu').
    pose proof (proj1 (Forall_forall _ _) Hrest _ Hg') as Hl. unfold uniform_of_group in Hu'.
    cbn beta in Hl. by destruct (wg_spec g'); simplify_eq.
Qed.

(** ** The longest length that fits *)

(** A request of [n] tokens fits in the memory of a worker. *)
Definition fits_worker (c : SpecConfig) (groups : list WorkerGroup) (available_memory n : Z) : Prop :=
  ∃ m, _max_memory_usage_bytes_from_groups (with_max_model_len n c) groups = Ok m ∧ m ≤ available_memory.

Lemma with_own_len c : with_max_model_len (cfg_max_model_len c) c = c.
Proof. by destruct c. Qed.

Lemma estimate_spec c groups avail m :
  groups_ok groups → 1 ≤ cfg_max_model_len c → _max_memory_usage_bytes_from_groups c groups = Ok m →
  ∃ r, _estimate_max_model_len_from_groups c groups avail = Ok r ∧ 0 ≤ r ≤ cfg_max_model_len c ∧
    ∀ n, 1 ≤ n ≤ cfg_max_model_len c → fits_worker c groups avail n ↔ n ≤ r.
Proof.
  intros Hok Hlen Hm. destruct (groups_usage_mono c groups Hok) as [[e He]|(g & Hg & Hmono)].
  { specialize (He (cfg_max_model_len c)). rewrite with_own_len in He. congruence. }
  destruct (largest_fitting_spec
    (λ n, m ← _max_memory_usage_bytes_from_groups (with_max_model_len n c) groups; Ok (m <=? avail))
    (λ n, g n <=? avail) (cfg_max_model_len c)) as (r & Hr & Hrb & Hfit & Hno); [| |done|].
  { intros n _. by rewrite Hg. }
  { intros n k Hn _ Hk. specialize (Hmono n k ltac:(lia)). lia. }
  exists r. split; [done|]. split; [done|]. intros n Hn. unfold fits_worker. rewrite Hg. split.
  - intros (? & [= <-] & Hle). destruct (Z.le_gt_cases n r); [done|]. specialize (Hno n Hn ltac:(lia)). lia.
  - intros Hle. exists (g n). split; [done|]. specialize (Hfit ltac:(lia)). specialize (Hmono n r Hle). lia.
Qed.

(** Every worker that has groups holds a request of [n] tokens. *)
Definition fits_workers (c : SpecConfig) (workers : list (list WorkerGroup * Z)) (n : Z) : Prop :=
  Forall (λ w, no_groups w.1 = false → fits_worker c w.1 w.2 n) workers.

(** What the search needs of a worker: usable layers whose usage is defined. *)
Definition worker_ok (c : SpecConfig) (w : list WorkerGroup * Z) : Prop :=
  groups_ok w.1 ∧ ∃ m, _max_memory_usage_bytes_from_groups c w.1 = Ok m.

Lemma fit_fold_spec c workers acc :
  1 ≤ cfg_max_model_len c → Forall (worker_ok c) workers → 0 ≤ acc ≤ cfg_max_model_len c →
  ∃ r, mfold (fit_step c) acc workers = Ok r ∧ 0 ≤ r ≤ acc ∧
    ∀ n, 1 ≤ n ≤ cfg_max_model_len c → n ≤ r ↔ n ≤ acc ∧ fits_workers c workers n.
Proof.
  intros Hlen Hok. revert acc. induction Hok as [|[groups avail] workers [Hg [m Hm]] _ IH]; intros acc Hacc.
  { exists acc. split; [done|]. split; [lia|]. intros n Hn. split; [|tauto]. intros; split; [done|constructor]. }
  cbn [mfold fit_step]. destruct (no_groups groups) eqn:Hno.
  - destruct (IH acc Hacc) as (r & Hr & Hb & Hn). exists r. split; [exact Hr|]. split; [done|].
    intros n Hn'. rewrite Hn by done. unfold fits_workers. rewrite Forall_cons. cbn. rewrite Hno. naive_solver.
  - destruct (estimate_spec c groups avail m Hg Hlen Hm) as (wmax & -> & Hwb & Hw). cbn [mbind result_bind].
    destruct (IH (if wmax <? acc then wmax else acc)) as (r & Hr & Hb & Hn); [case_match; lia|].
    exists r. split; [exact Hr|]. split; [case_match; lia|].
    intros n Hn'. rewrite Hn by done. unfold fits_workers. rewrite Forall_cons. cbn. rewrite Hno, Hw by done.
    destruct (Z.ltb_spec wmax acc); naive_solver lia.
Qed.

Lemma fits_workers_none c workers n : forallb no_groups workers.*1 = true → fits_workers c workers n.
Proof.
  intros H. apply Forall_forall. intros w Hw Hno. rewrite forallb_forall in H.
  assert (no_groups w.1 = true); [|congruence]. apply H, list_elem_of_In, list_elem_of_fmap. eauto.
Qed.

(** Fitting the model length to memory: the length becomes the largest one, up to
    the configured maximum, for which every worker holds a request, after which
    the memory check of every worker with memory passes; when no length fits,
    the call raises [ValueError]. *)
Theorem auto_fit_longest c projected avail :
  1 ≤ cfg_max_model_len c → length projected = length avail →
  Forall (worker_ok c) (zip projected avail) →
  ∃ L, 0 ≤ L ≤ cfg_max_model_len c ∧
    (∀ n, 1 ≤ n ≤ cfg_max_model_len c → fits_workers c (zip projected avail) n ↔ n ≤ L) ∧
    _auto_fit_max_model_len c projected avail =
      (if 1 <=? L then Ok (with_max_model_len L c) else Raise ValueError) ∧
    (1 ≤ L → Forall (λ w, 0 < w.2 → check_worker (with_max_model_len L c) w = Ok tt) (zip projected avail)).
Proof.
  intros Hlen Hl Hok. set (workers := zip projected avail) in *.
  assert (Hfst : workers.*1 = projected) by (apply fst_zip; lia).
  assert (Hcheck : ∀ L, fits_workers c workers L →
            Forall (λ w, 0 < w.2 → check_worker (with_max_model_len L c) w = Ok tt) workers).
  { intros L HL. eapply Forall_impl; [exact HL|]. intros w Hw Hpos. unfold check_worker.
    destruct (no_groups w.1) eqn:Hno; [done|]. destruct (Hw Hno) as (m & Hm & Hle).
    unfold _check_enough_kv_cache_memory. rewrite (proj2 (Z.leb_gt _ _)), Hm by lia. cbn.
    by rewrite (proj2 (Z.ltb_ge _ _)) by lia. }
  unfold _auto_fit_max_model_len. destruct (forallb no_groups projected) eqn:Hall.
  - exists (cfg_max_model_len c). rewrite (proj2 (Z.leb_le _ _)), with_own_len by lia.
    assert (Hfit : ∀ n, fits_workers c workers n) by (intros n; apply fits_workers_none; by rewrite Hfst).
    split; [lia|]. split; [intros n Hn; split; [lia|by intros _]|]. split; [done|]. intros _.
    specialize (Hcheck _ (Hfit (cfg_max_model_len c))). by rewrite with_own_len in Hcheck.
  - destruct (fit_fold_spec c workers (cfg_max_model_len c) Hlen Hok) as (L & HL & Hb & Hn); [lia|].
    assert (Hfits : ∀ n, 1 ≤ n ≤ cfg_max_model_len c → fits_workers c workers n ↔ n ≤ L)
      by (intros n Hr; rewrite Hn by done; naive_solver lia).
    exists L. split; [done|]. split; [done|]. split; [|intros HL1; apply Hcheck, Hfits; lia].
    destruct avail as [|a0 avail0]; [by destruct projected|]. fold workers. rewrite HL. cbn [mbind result_bind].
    destruct (Z.leb_spec L 0), (Z.leb_spec 1 L); try lia; [done|].
    destruct (Z.leb_spec (cfg_max_model_len c) L); [|done].
    replace L with (cfg_max_model_len c) by lia. by rewrite with_own_len.
Qed.

(** Two layers of a model: full attention and a window of 32 tokens. *)
Definition plan_attn : AttentionFields := mkAttn 16 1 4 (mkDtype "bfloat16" 2) QNone None false.
Definition demo_full : KVCacheSpec := FullAttentionSpec plan_attn (mkFull 4 None None false).
Definition demo_sw : KVCacheSpec := SlidingWindowSpec plan_attn 32 4.
Definition demo_groups : list WorkerGroup :=
  [mkWorkerGroup ["full.0"%string] (Plain demo_full) false; mkWorkerGroup ["sw.0"%string] (Plain demo_sw) false].
Definition demo_spec_config : SpecConfig := mkSpecConfig 1000 1 1 64 0 MambaNone.

Lemma auto_fit_longest_witness :
  ∃ L, 0 ≤ L ≤ 1000 ∧
    (∀ n, 1 ≤ n ≤ 1000 → fits_workers demo_spec_config (zip [demo_groups; []] [5120; 0]) n ↔ n ≤ L) ∧
    _auto_fit_max_model_len demo_spec_config [demo_groups; []] [5120; 0] =
      (if 1 <=? L then Ok (with_max_model_len L demo_spec_config) else Raise ValueError) ∧
    (1 ≤ L → Forall (λ w, 0 < w.2 → check_worker (with_max_model_len L demo_spec_config) w = Ok tt)
               (zip [demo_groups; []] [5120; 0])).
Proof.
  apply (auto_fit_longest demo_spec_config [demo_groups; []] [5120; 0]); [simpl; lia|reflexivity|].
  repeat constructor; try (by vm_compute); by eexists.
Defined.

(** ** The least padding *)

Lemma pad_round_up x d : 0 < d → (d - x mod d) mod d = cdiv x d * d - x.
Proof.
  intros Hd. pose proof (Z.mod_pos_bound x d Hd). pose proof (Z.div_mod x d ltac:(lia)).
  pose proof (cdiv_bounds x d Hd). destruct (decide (x mod d = 0)) as [E|E].
  - rewrite E, Z.sub_0_r, Z.mod_same by lia. rewrite E in *. replace x with (x / d * d) at 2 by lia.
    replace x with (x / d * d) at 1 by lia. rewrite cdiv_mul by done. lia.
  - rewrite Z.mod_small by lia. assert (cdiv x d = x / d + 1) as -> by nia. lia.
Qed.

(** The documented padding: every value rounded up to a multiple of [d]. *)
Definition padding (values : list Z) (d : Z) : Z := sum_list ((λ x, cdiv x d * d - x) <$> values).

Lemma total_pad_padding values d : 0 < d → total_pad values d = padding values d.
Proof.
  intros Hd. unfold total_pad, padding. f_equal. apply list_fmap_ext. intros i x _. by apply pad_round_up.
Qed.

(** [d] is the best of a set of candidates: least padding, then largest. *)
Definition best_chunk (values : list Z) (lo hi d : Z) : Prop :=
  lo ≤ d ≤ hi ∧ ∀ d', lo ≤ d' ≤ hi →
    total_pad values d ≤ total_pad values d' ∧ (total_pad values d' = total_pad values d → d' ≤ d).

Lemma gcd_fold_best values lo mid hi d :
  mid ≤ hi → best_chunk values lo mid d →
  ∃ d', foldl (gcd_step values) (d, Some (total_pad values d)) (py_range (mid + 1) (hi + 1)) =
    (d', Some (total_pad values d')) ∧ best_chunk values lo hi d'.
Proof.
  intros Hle. remember (Z.to_nat (hi - mid)) as k eqn:Hk. revert mid d Hle Hk.
  induction k as [|k IH]; intros mid d Hle Hk [Hd Hbest].
  - rewrite py_range_nil by lia. exists d. split; [done|]. replace hi with mid by lia. by split.
  - rewrite py_range_cons by lia. cbn [foldl gcd_step].
    assert (Hstep : ∀ e, best_chunk values lo (mid + 1) e → ∃ d',
      foldl (gcd_step values) (e, Some (total_pad values e)) (py_range (mid + 1 + 1) (hi + 1)) =
      (d', Some (total_pad values d')) ∧ best_chunk values lo hi d') by (intros e He; apply (IH (mid + 1)); [lia|lia|done]).
    assert (Hcase : ∀ d', lo ≤ d' ≤ mid + 1 → d' ≤ mid ∨ d' = mid + 1) by lia.
    destruct (Z.ltb_spec (total_pad values (mid + 1)) (total_pad values d)); cbn [orb].
    + apply Hstep. split; [lia|]. intros d' Hd'. destruct (Hcase d' Hd') as [Hle'| ->]; [|lia].
      specialize (Hbest d' ltac:(lia)). lia.
    + destruct (Z.eqb_spec (total_pad values (mid + 1)) (total_pad values d)) as [E|E]; cbn [andb].
      * rewrite (proj2 (Z.ltb_lt _ _)) by lia. apply Hstep. split; [lia|]. intros d' Hd'.
        destruct (Hcase d' Hd') as [Hle'| ->]; [|lia]. specialize (Hbest d' ltac:(lia)). lia.
      * apply Hstep. split; [lia|]. intros d' Hd'. destruct (Hcase d' Hd') as [Hle'| ->]; [|lia].
        apply Hbest; lia.
Qed.

(** The number of layer tuples per group minimises the documented padding:
    among all sizes from the lower bound to the largest value, the one returned
    pads the values least and is the largest such; a lower bound above every
    value is returned itself, and an empty list or a value that is not positive
    raises [ValueError]. *)
Theorem approximate_gcd_optimal values lower :
  let lo := Z.max 1 (default 1 lower) in
  if bool_decide (values = []) || existsb (λ x, x <=? 0) values
  then _approximate_gcd values lower = Raise ValueError
  else ∃ hi d, py_max values = Ok hi ∧ _approximate_gcd values lower = Ok d ∧
    if hi <? lo then d = lo
    else lo ≤ d ≤ hi ∧ ∀ d', lo ≤ d' ≤ hi →
      padding values d ≤ padding values d' ∧ (padding values d' = padding values d → d' ≤ d).
Proof.
  intros lo. unfold _approximate_gcd. case_bool_decide as Hne; [done|]. cbn [orb].
  destruct (existsb _ values); [done|]. destruct (py_max_total values Hne) as [hi Hhi].
  rewrite Hhi. cbn [mbind result_bind]. fold lo. exists hi. destruct (Z.ltb_spec hi lo); [by exists lo|].
  rewrite py_range_cons by lia. cbn [foldl gcd_step].
  destruct (gcd_fold_best values lo lo hi lo) as (d & -> & Hd & Hbest); [lia|split; [lia|]|].
  { intros d' Hd'. replace d' with lo by lia. lia. }
  exists d. split; [done|]. split; [done|]. split; [done|]. intros d' Hd'.
  rewrite <-!total_pad_padding by lia. by apply Hbest.
Qed.
