(* ===== verification/PlanGroups.v ===== *)
(** * The layers of the KV-cache groups

    Every way [KVPlan] groups layers puts each layer into at most one group, and
    into exactly one except where the latent-attention path leaves out layers of
    other types.  In the path of hybrid models, layers of equal format are split
    into groups of bounded and balanced size that all have one page size. *)

From S2P Require Import Prelude MathUtils OrderedDict KVSpecs KVMerge KVPlan PlanSearch.

#[local] Open Scope Z_scope.

(** ** Strided slices *)

Lemma py_stride_snoc {A} (l : list A) x i n :
  py_stride (l ++ [x]) i n =
  py_stride l i n ++ (if (i <=? zlen l) && ((zlen l - i) mod n =? 0) then [x] else []).
Proof.
  unfold py_stride, zlen. rewrite length_app. cbn [length]. rewrite seq_app, zip_with_app by by rewrite length_seq.
  rewrite omap_app. f_equal. cbn [seq zip_with omap list_omap]. cbn [fst snd]. rewrite Nat.add_0_l. by destruct ((i <=? _) && _).
Qed.

(** An element goes to the slice of its index modulo the number of slices. *)
Lemma stride_slot (k i n : Z) :
  0 ≤ k → 0 ≤ i < n → (i <=? k) && ((k - i) mod n =? 0) = bool_decide (i = k mod n).
Proof.
  intros Hk Hi. pose proof (Z.div_mod k n ltac:(lia)). pose proof (Z.mod_pos_bound k n ltac:(lia)).
  pose proof (Z.div_pos k n ltac:(lia) ltac:(lia)).
  case_bool_decide as E.
  - rewrite E. rewrite (proj2 (Z.leb_le _ _)) by nia. cbn. rewrite Z.eqb_eq.
    replace (k - k mod n) with (k / n * n) by lia. by rewrite Z.mod_mul by lia.
  - destruct (Z.leb_spec i k); [|done]. cbn. apply Z.eqb_neq. intros E'. apply E.
    rewrite <-(Z.mod_small i n) by lia. apply Z.div_exact in E'; [|lia].
    replace k with (i + (k - i) / n * n) by lia. by rewrite Z.mod_add by lia.
Qed.

Lemma NoDup_py_range a b : NoDup (py_range a b).
Proof. apply NoDup_fmap_2; [|apply NoDup_seq]. intros x y. lia. Qed.

(** Adding an element to one of the lists of a concatenation. *)
Lemma concat_snoc_perm {A B} `{EqDecision A} (f : A → list B) (ks : list A) k0 x :
  NoDup ks → k0 ∈ ks →
  concat ((λ k, f k ++ (if bool_decide (k = k0) then [x] else [])) <$> ks) ≡ₚ x :: concat (f <$> ks).
Proof.
  induction 1 as [|k ks Hk Hnd IH]; intros Hin; [by apply elem_of_nil in Hin|]. cbn.
  apply elem_of_cons in Hin as [->|Hin].
  - rewrite bool_decide_eq_true_2 by done.
    assert (((λ k', f k' ++ (if bool_decide (k' = k) then [x] else [])) <$> ks) = f <$> ks) as ->.
    { apply list_fmap_ext. intros i k' Hk'%list_elem_of_lookup_2. rewrite bool_decide_eq_false_2 by set_solver.
      apply app_nil_r. }
    rewrite <-app_assoc. symmetry. apply Permutation_middle.
  - rewrite bool_decide_eq_false_2 by set_solver. rewrite app_nil_r. etransitivity.
    + by apply Permutation_app_head, IH.
    + symmetry. apply Permutation_middle.
Qed.

(** The slices [layers[i::n]] are a partition. *)
Lemma stride_partition {A} (l : list A) n :
  0 < n → concat ((λ i, py_stride l i n) <$> py_range 0 n) ≡ₚ l.
Proof.
  intros Hn. induction l as [|x l IH] using rev_ind.
  - induction (py_range 0 n) as [|i ks IHi]; [done|]. cbn. exact IHi.
  - etransitivity; [|apply Permutation_cons_append]. etransitivity; [|apply perm_skip, IH].
    rewrite <-(concat_snoc_perm (λ i, py_stride l i n) (py_range 0 n) (zlen l mod n) x).
    + apply Permutation_refl'. f_equal. apply list_fmap_ext.
      intros k i Hi%list_elem_of_lookup_2%elem_of_py_range.
      by rewrite py_stride_snoc, stride_slot by (pose proof (zlen_nonneg l); lia).
    + apply NoDup_py_range.
    + apply elem_of_py_range. by apply Z.mod_pos_bound.
Qed.

Lemma cdiv_succ k n : 0 < n → cdiv (k + 1) n = cdiv k n + (if k mod n =? 0 then 1 else 0).
Proof.
  intros Hn. pose proof (cdiv_bounds k n Hn). pose proof (cdiv_bounds (k + 1) n Hn).
  pose proof (Z.div_mod k n ltac:(lia)). pose proof (Z.mod_pos_bound k n Hn).
  destruct (Z.eqb_spec (k mod n) 0) as [E|E].
  - assert (cdiv k n = k / n) by nia. nia.
  - assert (cdiv k n = k / n + 1) by nia. nia.
Qed.

(** The slices are as even as they can be. *)
Lemma stride_length {A} (l : list A) i n :
  0 ≤ i < n → zlen (py_stride l i n) = cdiv (zlen l - i) n.
Proof.
  intros Hi. induction l as [|x l IH] using rev_ind.
  - cbn. pose proof (cdiv_bounds (zlen (@nil A) - i) n ltac:(lia)). unfold zlen in *. cbn in *. nia.
  - rewrite py_stride_snoc, !zlen_app, IH. replace (zlen l + zlen [x] - i) with (zlen l - i + 1) by (rewrite zlen_cons, zlen_nil; lia).
    rewrite cdiv_succ by lia. pose proof (zlen_nonneg l). destruct (Z.leb_spec i (zlen l)); cbn [andb].
    + by case_match.
    + destruct (Z.eqb_spec ((zlen l - i) mod n) 0) as [E|E]; [|done].
      exfalso. apply Z.div_exact in E; [|lia]. assert ((zlen l - i) / n = -1) by nia. nia.
Qed.

(** Splitting into groups of at most [group_size] layers. *)
Lemma split_layers_partition {A} size (l : list A) :
  0 < size → concat (split_layers size l) ≡ₚ l ∧
  Forall (λ g, 1 ≤ zlen g ≤ size) (split_layers size l).
Proof.
  intros Hs. unfold split_layers. set (n := cdiv (zlen l) size).
  pose proof (cdiv_bounds (zlen l) size Hs) as Hb. fold n in Hb. pose proof (zlen_nonneg l).
  split.
  - destruct (decide (n = 0)) as [E|E].
    + rewrite E, py_range_nil by lia. cbn. destruct l; [done|]. rewrite E, zlen_cons in *. pose proof (zlen_nonneg l). lia.
    + apply stride_partition. nia.
  - apply Forall_fmap, Forall_forall. intros i Hi%elem_of_py_range. cbn. rewrite stride_length by lia.
    pose proof (cdiv_bounds (zlen l - i) n ltac:(lia)). nia.
Qed.

(** ** Collecting by key *)

Section collect.
  Context {K V : Type} `{EqDecision K}.
  Implicit Types d : list (K * list V).

Lemma od_append_cons k' vs d k v :
  od_append ((k', vs) :: d) k v = if decide (k = k') then (k, vs ++ [v]) :: d else (k', vs) :: od_append d k v.
Proof. unfold od_append. cbn. by destruct (decide (k = k')). Qed.

Lemma od_append_perm d k v : concat (od_append d k v).*2 ≡ₚ v :: concat d.*2.
Proof.
  induction d as [|[k' vs] d IH]; [done|]. rewrite od_append_cons. case_decide; cbn.
  - rewrite <-app_assoc. symmetry. apply Permutation_middle.
  - rewrite IH. symmetry. apply Permutation_middle.
Qed.

Lemma od_append_Forall (P : K → list V → Prop) d k v :
  P k [v] → (∀ vs, P k vs → P k (vs ++ [v])) → Forall (λ p, P p.1 p.2) d → Forall (λ p, P p.1 p.2) (od_append d k v).
Proof.
  intros H1 H2. induction 1 as [|[k' vs] d Hp Hd IH]; [by constructor|].
  rewrite od_append_cons. cbn in Hp. case_decide as E; [subst; constructor; [by apply H2|done]|by constructor].
Qed.

  (** Collecting a list of values under the keys [key] gives them. *)
Lemma collect_perm {A} (key : A → option K) (val : A → V) (l : list A) :
  concat (foldl (λ acc a, match key a with Some k => od_append acc k (val a) | None => acc end) [] l).*2 ≡ₚ
  omap (λ a, (λ _, val a) <$> key a) l.
Proof.
  assert (H : ∀ acc, concat (foldl (λ acc a, match key a with Some k => od_append acc k (val a) | None => acc end)
    acc l).*2 ≡ₚ concat acc.*2 ++ omap (λ a, (λ _, val a) <$> key a) l); [|apply (H [])].
  induction l as [|a l IH]; intros acc; cbn [foldl]; [cbn; by rewrite app_nil_r|]. rewrite IH. cbn [omap list_omap].
  destruct (key a) as [k|]; cbn [fmap option_fmap option_map]; [|done].
  rewrite od_append_perm. cbn. apply Permutation_middle.
Qed.

Lemma collect_Forall {A} (key : A → option K) (val : A → V) (P : K → V → Prop) (l : list A) :
  (∀ a k, a ∈ l → key a = Some k → P k (val a)) →
  Forall (λ p, p.2 ≠ [] ∧ Forall (P p.1) p.2)
    (foldl (λ acc a, match key a with Some k => od_append acc k (val a) | None => acc end) [] l).
Proof.
  intros HP. assert (H : ∀ acc, Forall (λ p, p.2 ≠ [] ∧ Forall (P p.1) p.2) acc →
    Forall (λ p, p.2 ≠ [] ∧ Forall (P p.1) p.2)
      (foldl (λ acc a, match key a with Some k => od_append acc k (val a) | None => acc end) acc l)); [|by apply H].
  induction l as [|a l IH]; intros acc Hacc; [done|]. cbn. apply IH; [intros; apply HP; [by right|done]|].
  destruct (key a) as [k|] eqn:Hk; [|done].
  apply (od_append_Forall (λ k vs, vs ≠ [] ∧ Forall (P k) vs)); [| |done].
  - split; [done|]. constructor; [|done]. apply HP; [left|done].
  - intros vs [_ Hvs]. split; [by destruct vs|]. apply Forall_app. split; [done|]. constructor; [|done].
    apply HP; [left|done].
Qed.
End collect.

Lemma group_by_spec_perm d : concat (group_by_spec d).*2 ≡ₚ d.*1.
Proof.
  unfold group_by_spec. pose proof (collect_perm (λ p : string * KVCacheSpec, Some p.2) fst d) as H.
  etransitivity; [exact H|]. clear H. induction d as [|p d IH]; [done|]. cbn. by rewrite IH.
Qed.

Lemma group_by_spec_same d :
  Forall (λ p, p.2 ≠ [] ∧ Forall (λ name, (name, p.1) ∈ d) p.2) (group_by_spec d).
Proof.
  apply (collect_Forall (λ p : string * KVCacheSpec, Some p.2) fst (λ s name, (name, s) ∈ d)).
  by intros [name s] k Hin [= <-].
Qed.

(** ** Merging layers of equal format *)

(** A format that can be merged with itself. *)
Definition mergeable (s : KVCacheSpec) : bool :=
  match full_of s with
  | Some (_, f) => negb (bool_decide (is_Some (full_sliding_window f)) && bool_decide (is_Some (full_attention_chunk_size f)))
                   || is_mla_attention_spec s
  | None => true
  end.

Lemma py_set_replicate {A} `{EqDecision A} n (x : A) : py_set (replicate (S n) x) = [x].
Proof. apply py_set_one. split; [done|]. by apply Forall_replicate. Qed.

Lemma one_value_replicate {A} `{EqDecision A} n (x : A) : one_value (replicate (S n) x) = true.
Proof. unfold one_value. by rewrite py_set_replicate. Qed.

Lemma omap_replicate {A B} (f : A → option B) n x :
  omap f (replicate n x) = match f x with Some y => replicate n y | None => [] end.
Proof.
  induction n as [|n IH]; [by destruct (f x)|]. cbn in IH |- *. rewrite IH. by destruct (f x).
Qed.

Lemma forallb_replicate {A} (f : A → bool) n x : f x = true → forallb f (replicate n x) = true.
Proof. intros H. induction n as [|n IH]; [done|]. cbn. by rewrite H. Qed.

Lemma existsb_replicate {A} (f : A → bool) n x : existsb f (replicate (S n) x) = f x.
Proof. induction n as [|n IH]; cbn in *; [by rewrite orb_false_r|]. rewrite IH. by destruct (f x). Qed.

(** Merging equal full-attention formats changes nothing but the order of the
    checks. *)
Lemma merge_full_same n s a f :
  full_of s = Some (a, f) → is_mla_attention_spec s = false →
  merge_full s (replicate (S n) s) =
    if bool_decide (is_Some (full_sliding_window f)) && bool_decide (is_Some (full_attention_chunk_size f))
    then Raise AssertionError else Ok (a, f).
Proof.
  intros Hf Hm. unfold merge_full.
  rewrite forallb_replicate by (by destruct s). rewrite existsb_replicate, Hm. cbn [py_assert negb mbind result_bind].
  rewrite omap_replicate, Hf. rewrite !omap_replicate. cbn [fst snd].
  assert (Hw : ∀ o, merge_window_sizes (match o with Some y => replicate (S n) y | None => [] end) = Ok o).
  { intros [w|]; [|done]. unfold merge_window_sizes. by rewrite py_set_replicate. }
  rewrite !Hw. cbn [mbind result_bind]. rewrite forallb_replicate by by apply bool_decide_eq_true_2.
  cbn [py_assert mbind result_bind]. rewrite existsb_replicate.
  destruct (bool_decide _ && bool_decide _); [done|]. cbn. by destruct f.
Qed.

Lemma mla_agree_replicate n s a m :
  attn_of s = Some a → mla_of s = Some m → mla_agree (replicate (S n) s) = true.
Proof.
  intros Ha Hm. unfold mla_agree. rewrite !omap_replicate, Ha, Hm, !fmap_replicate. by rewrite !one_value_replicate.
Qed.

Lemma all_tq_replicate n a f t : all_tq_slot_size t (replicate n (TQFullAttentionSpec a f t)) = Ok true.
Proof. induction n as [|n IH]; [done|]. cbn. by rewrite Z.eqb_refl. Qed.

(** The format of a group keeps the block and page sizes of its layers. *)
Lemma merge_same n s :
  mergeable s = true → is_sliding_window_mla_spec s = false →
  ∃ s', merge (replicate (S n) s) = Ok s' ∧ page_size_bytes s' = page_size_bytes s ∧ block_size s' = block_size s.
Proof.
  intros Hm Hsw. unfold merge. cbn [replicate].
  destruct s as [a f|a f t|a f m|a f m|a f k|a ch|a w h|a w m|m|a|a]; try done;
    change (?s :: replicate n ?s) with (replicate (S n) s).
  1,2,5: (erewrite merge_full_same by done; cbn in Hm; rewrite orb_false_r, negb_true_iff in Hm; rewrite Hm;
    cbn [mbind result_bind]); try (rewrite all_tq_replicate; cbn [mbind result_bind py_assert]); by eexists.
  1,2: unfold merge_mla; rewrite forallb_replicate by done; erewrite mla_agree_replicate by done;
    cbn [py_assert mbind result_bind]; unfold post_init, _apply_alignment_padding; cbn [mla_of merged_mla mla_alignment];
    by eexists.
  all: rewrite forallb_replicate by (by apply bool_decide_eq_true_2); by eexists.
Qed.

(** ** Groups of layers of equal format *)

Lemma get_layer_Ok d name s : NoDup d.*1 → get_layer d name = Ok s ↔ (name, s) ∈ d.
Proof.
  intros Hd. rewrite <-od_get_elem by done. unfold get_layer. destruct (od_get d name); naive_solver.
Qed.

Lemma create_groups_names d grouped gs :
  create_kv_cache_group_specs d grouped = Ok gs → wg_layer_names <$> gs = grouped.
Proof.
  intros H%mmap_Ok. induction H as [|names g grouped gs Hg _ IH]; [done|]. cbn. rewrite IH. f_equal.
  bind_inv Hg as specs E. bind_inv Hg as s E'. by injection Hg as <-.
Qed.

(** The layers of a group all have the format [s]; the group has its page and
    block sizes. *)
Definition same_format (d : spec_dict) (g : WorkerGroup) : Prop :=
  ∃ s s', Forall (λ name, (name, s) ∈ d) (wg_layer_names g) ∧ wg_spec g = Plain s' ∧ wg_is_eagle g = false ∧
    page_size_bytes s' = page_size_bytes s ∧ block_size s' = block_size s.

Lemma create_groups_same d grouped :
  NoDup d.*1 → Forall (λ p, mergeable p.2 = true ∧ is_sliding_window_mla_spec p.2 = false) d →
  Forall (λ names, names ≠ [] ∧ ∃ s, Forall (λ name, (name, s) ∈ d) names) grouped →
  ∃ gs, create_kv_cache_group_specs d grouped = Ok gs ∧ Forall (same_format d) gs.
Proof.
  intros Hd Hm. induction 1 as [|names grouped [Hne [s Hs]] _ (gs & IH & Hgs)]; [by exists []|].
  unfold create_kv_cache_group_specs in *. cbn [mmap].
  assert (E : mmap (get_layer d) names = Ok (replicate (length names) s)).
  { apply mmap_Ok. clear Hne. induction Hs as [|name names Hname _ IH']; cbn; constructor; [|done].
    by apply get_layer_Ok. }
  destruct names as [|name names]; [done|]. rewrite E. cbn [mbind result_bind length].
  assert (Hin : (name, s) ∈ d) by (by inversion Hs).
  destruct (proj1 (Forall_forall _ _) Hm _ Hin) as [Hmg Hsw].
  destruct (merge_same (length names) s Hmg Hsw) as (s' & Hs' & Hpg & Hbs). cbn [length replicate] in Hs'.
  cbn [replicate]. rewrite Hs'. cbn [mbind result_bind]. rewrite IH. eexists. split; [done|].
  constructor; [|done]. by exists s, s'.
Qed.

Lemma concat_fmap_perm {A B} (f : A → list (list B)) (g : A → list B) l :
  Forall (λ a, concat (f a) ≡ₚ g a) l → concat (concat (f <$> l)) ≡ₚ concat (g <$> l).
Proof. induction 1 as [|a l Ha _ IH]; [done|]. cbn. rewrite concat_app, Ha, IH. done. Qed.

Lemma choose_group_size_bounds lo hi : 1 ≤ lo ≤ hi → lo ≤ choose_group_size lo hi ≤ hi.
Proof. intros H. unfold choose_group_size. case_match; lia. Qed.

(** Layers of one format. *)
Definition one_format (d : spec_dict) (names : list string) : Prop :=
  names ≠ [] ∧ ∃ s, Forall (λ name, (name, s) ∈ d) names.

Lemma classes_one_format d : Forall (one_format d) (group_by_spec d).*2.
Proof.
  apply Forall_fmap. eapply Forall_impl; [apply group_by_spec_same|]. cbn. intros [s names] [H1 H2].
  split; [done|]. by exists s.
Qed.

Lemma class_size_pos (classes : list (list string)) lo hi :
  Forall (λ names, names ≠ []) classes → py_min (zlen <$> classes) = Ok lo → py_max (zlen <$> classes) = Ok hi →
  0 < choose_group_size lo hi.
Proof.
  intros Hne [Hl _]%py_min_Ok [_ Hhi]%py_max_Ok. specialize (Hhi _ Hl).
  apply list_elem_of_fmap in Hl as (names & -> & Hl). pose proof (proj1 (Forall_forall _ _) Hne _ Hl) as Hn.
  destruct names as [|x names]; [done|]. rewrite zlen_cons in *. pose proof (zlen_nonneg names).
  pose proof (choose_group_size_bounds (zlen names + 1) hi). lia.
Qed.

Lemma split_one_format d size names :
  0 < size → one_format d names → Forall (λ g, 1 ≤ zlen g ≤ size ∧ one_format d g) (split_layers size names).
Proof.
  intros Hsize [_ [s Hs]]. destruct (split_layers_partition size names Hsize) as [Hp Hb].
  apply Forall_forall. intros g Hg. pose proof (proj1 (Forall_forall _ _) Hb _ Hg) as Hgb. cbn in Hgb.
  split; [done|]. split; [intros ->; rewrite zlen_nil in Hgb; lia|]. exists s. apply Forall_forall. intros name Hname.
  apply (proj1 (Forall_forall _ _) Hs). rewrite <-Hp, list_elem_of_In, in_concat.
  exists g. by rewrite <-!list_elem_of_In.
Qed.

(** Grouping the layers of a hybrid model succeeds: the groups partition the
    layers, a group holds layers of one format and has its page and block size,
    and no group is larger than the chosen size, which lies between the smallest
    and the largest number of layers of one format. *)
Theorem uniform_page_groups_correct d :
  d ≠ [] → NoDup d.*1 → Forall (λ p, mergeable p.2 = true ∧ is_sliding_window_mla_spec p.2 = false) d →
  ∃ gs lo hi, _get_kv_cache_groups_uniform_page_size d = Ok gs ∧
    concat (wg_layer_names <$> gs) ≡ₚ d.*1 ∧ Forall (same_format d) gs ∧
    py_min (zlen <$> (group_by_spec d).*2) = Ok lo ∧ py_max (zlen <$> (group_by_spec d).*2) = Ok hi ∧
    Forall (λ g, 1 ≤ zlen (wg_layer_names g) ≤ choose_group_size lo hi) gs ∧
    lo ≤ choose_group_size lo hi ≤ hi.
Proof.
  intros Hne Hd Hm. unfold _get_kv_cache_groups_uniform_page_size. pose proof (classes_one_format d) as Hclass.
  pose proof (group_by_spec_perm d) as Hperm. set (classes := (group_by_spec d).*2) in *.
  assert (Hcl : classes ≠ []).
  { intros E. rewrite E in Hperm. destruct d; [done|]. by apply Permutation_nil_cons in Hperm. }
  destruct (py_min_total (zlen <$> classes)) as [lo Hlo]; [by destruct classes|].
  destruct (py_max_total (zlen <$> classes)) as [hi Hhi]; [by destruct classes|].
  rewrite Hlo, Hhi. cbn [mbind result_bind].
  assert (Hsize : 0 < choose_group_size lo hi).
  { eapply class_size_pos; [|done|done]. eapply Forall_impl; [exact Hclass|]. by intros names [? _]. }
  set (size := choose_group_size lo hi) in *.
  assert (Hsplit : Forall (λ names, 1 ≤ zlen names ≤ size ∧ one_format d names) (concat (split_layers size <$> classes))).
  { apply Forall_concat, Forall_fmap. eapply Forall_impl; [exact Hclass|]. intros l. by apply split_one_format. }
  destruct (create_groups_same d (concat (split_layers size <$> classes))) as (gs & Hgs & Hsame); [done|done| |].
  { eapply Forall_impl; [exact Hsplit|]. by intros names [_ H]. }
  pose proof (create_groups_names _ _ _ Hgs) as Hnames.
  exists gs, lo, hi. split; [done|]. split.
  { rewrite Hnames. rewrite <-Hperm. etransitivity; [apply (concat_fmap_perm _ id)|by rewrite list_fmap_id].
    apply Forall_forall. intros l _. by apply split_layers_partition. }
  split; [done|]. split; [done|]. split; [done|]. split.
  - rewrite <-Hnames in Hsplit. apply Forall_fmap in Hsplit. eapply Forall_impl; [exact Hsplit|]. by intros g [H _].
  - apply choose_group_size_bounds. pose proof (proj1 (py_min_Ok _ _ Hlo)) as Hl.
    split; [|by apply (proj1 (py_max_Ok _ _) Hhi)]. apply list_elem_of_fmap in Hl as (l & -> & Hl).
    destruct (proj1 (Forall_forall _ _) Hclass _ Hl) as [Hl' _]. destruct l; [done|]. rewrite zlen_cons.
    pose proof (zlen_nonneg l). lia.
Qed.

Lemma uniform_page_groups_correct_witness :
  let d := [("full.0", demo_full); ("sw.0", demo_sw); ("sw.1", demo_sw); ("full.1", demo_full); ("sw.2", demo_sw);
            ("sw.3", demo_sw)]%string in
  ∃ gs lo hi, _get_kv_cache_groups_uniform_page_size d = Ok gs ∧
    concat (wg_layer_names <$> gs) ≡ₚ d.*1 ∧ Forall (same_format d) gs ∧
    py_min (zlen <$> (group_by_spec d).*2) = Ok lo ∧ py_max (zlen <$> (group_by_spec d).*2) = Ok hi ∧
    Forall (λ g, 1 ≤ zlen (wg_layer_names g) ≤ choose_group_size lo hi) gs ∧ lo ≤ choose_group_size lo hi ≤ hi.
Proof.
  intros d. apply (uniform_page_groups_correct d); [done| |].
  - apply (bool_decide_unpack _). by vm_compute.
  - repeat constructor.
Defined.

(** ** One page size for all layers *)

(** An attention format without padding: its page grows with its block size. *)
Definition scalable (s : KVCacheSpec) : bool :=
  match attn_of s with
  | None => false
  | Some a =>
      bool_decide (attn_page_size_padded a = None) &&
      match mla_of s with
      | None => true
      | Some m => bool_decide (mla_alignment m = None) && (0 <? compress_ratio m) &&
                  (attn_block_size a mod compress_ratio m =? 0)
      end
  end.

Lemma post_init_plain s : match mla_of s with Some m => mla_alignment m | None => None end = None → post_init s = Ok s.
Proof. unfold post_init, _apply_alignment_padding. destruct (mla_of s) as [m|]; [intros ->|]; done. Qed.

Lemma scalable_align s :
  scalable s = true → match mla_of s with Some m => mla_alignment m | None => None end = None.
Proof.
  unfold scalable. destruct (attn_of s); [|done]. destruct (mla_of s) as [m|]; [|done].
  rewrite !andb_true_iff, !bool_decide_eq_true. tauto.
Qed.

Lemma mla_of_with_attn g s : mla_of (with_attn g s) = mla_of s.
Proof. by destruct s. Qed.

Lemma div_scale b c k : 0 < c → b mod c = 0 → b * k / c = b / c * k.
Proof. intros Hc Hm. apply Z.div_exact in Hm; [|lia]. rewrite Hm at 1. rewrite <-Z.mul_assoc, Z.mul_comm, Z.div_mul by lia. lia. Qed.

Lemma scalable_mla a m s :
  scalable s = true → attn_of s = Some a → mla_of s = Some m →
  0 < compress_ratio m ∧ attn_block_size a mod compress_ratio m = 0.
Proof. unfold scalable. intros H Ha Hm. rewrite Ha, Hm in H. lia. Qed.

(** The page grows by the factor of the block size. *)
Lemma real_page_scale s k p :
  scalable s = true → real_page_size_bytes s = Ok p →
  real_page_size_bytes (set_block_size (block_size s * k) s) = Ok (p * k).
Proof.
  intros Hs Hp. pose proof (λ a m, scalable_mla a m s Hs) as Hmla.
  destruct s as [a f|a f t|a f m|a f m|a f k'|a ch|a w h|a w m|m|a|a]; try done;
    unfold real_page_size_bytes, full_real_page_size, attn_real_page_size, mla_real_page_size,
      swmla_real_page_size in *; cbn in Hp, Hmla |- *;
    try (destruct (Hmla _ _ eq_refl eq_refl) as [Hc Hm]; rewrite (div_scale _ _ k Hc Hm)).
  1-7,9-10: injection Hp as <-; f_equal; repeat case_match; ring.
  case_match; [injection Hp as <-; f_equal; ring|]. bind_inv Hp as u E. rewrite E. cbn.
  injection Hp as <-. f_equal. ring.
Qed.

Lemma scalable_unpadded s a : scalable s = true → attn_of s = Some a → attn_page_size_padded a = None.
Proof. unfold scalable. intros H Ha. rewrite Ha in H. apply andb_true_iff in H as [H _]. by apply bool_decide_eq_true in H. Qed.

Lemma attn_of_with_attn g s : attn_of (with_attn g s) = g <$> attn_of s.
Proof. by destruct s. Qed.

Lemma set_block_size_attn n s a : attn_of s = Some a → set_block_size n s = with_attn (attn_set_block_size n) s.
Proof. by destruct s. Qed.

Lemma page_scale s k p :
  scalable s = true → page_size_bytes s = Ok p →
  ∃ s', copy_with_new_block_size (block_size s * k) s = Ok s' ∧ page_size_bytes s' = Ok (p * k) ∧
    block_size s' = block_size s * k.
Proof.
  intros Hs Hp. exists (set_block_size (block_size s * k) s).
  assert (∃ a, attn_of s = Some a) as [a Ha].
  { unfold scalable in Hs. destruct (attn_of s); [eauto|done]. }
  split; [apply post_init_plain; rewrite (set_block_size_attn _ _ a Ha), mla_of_with_attn; by apply scalable_align|].
  split; [|by destruct s]. unfold page_size_bytes in *. bind_inv Hp as r Er.
  rewrite (real_page_scale s k r Hs Er). cbn [mbind result_bind].
  rewrite Ha in Hp. rewrite (set_block_size_attn _ _ a Ha), attn_of_with_attn, Ha. cbn in Hp |- *.
  rewrite (scalable_unpadded s a Hs Ha) in *. injection Hp as <-. f_equal.
  assert (attn_block_size a = block_size s) as -> by (destruct s; naive_solver).
  case_match; [ring|done].
Qed.

Lemma page_pad s m p :
  scalable s = true → page_size_bytes s = Ok p → p ≤ m →
  ∃ s', replace_page_size_padded m s = Ok s' ∧ page_size_bytes s' = Ok m ∧ block_size s' = block_size s.
Proof.
  intros Hs Hp Hle. exists (set_page_size_padded m s).
  assert (∃ a, attn_of s = Some a) as [a Ha].
  { unfold scalable in Hs. destruct (attn_of s); [eauto|done]. }
  split; [apply post_init_plain; unfold set_page_size_padded; rewrite mla_of_with_attn; by apply scalable_align|].
  split; [|by destruct s]. unfold page_size_bytes in *. bind_inv Hp as r Er.
  assert (real_page_size_bytes (set_page_size_padded m s) = Ok r) as -> by (rewrite <-Er; by destruct s).
  cbn [mbind result_bind]. rewrite Ha in Hp. unfold set_page_size_padded. rewrite attn_of_with_attn, Ha. cbn in Hp |- *.
  rewrite (scalable_unpadded s a Hs Ha) in Hp. injection Hp as <-.
  rewrite (proj2 (Z.leb_le _ _)) by (cbn in Hle |- *; lia). done.
Qed.

(** A layer that can be brought to the page size [m]: it has it, or it is
    unpadded and its page divides [m] or may be padded. *)
Definition unifiable (m : Z) (s : KVCacheSpec) : Prop :=
  ∃ p, page_size_bytes s = Ok p ∧ 0 < p ∧
    (p = m ∨ scalable s = true ∧
      (m mod p = 0 ∨ ∃ a, attn_of s = Some a ∧ indexes_kv_by_block_stride a = true)).

(** The layer with its new page: its block size is unchanged, or grown so that
    the bytes per token stay the same. *)
Definition unified (m : Z) (s s' : KVCacheSpec) : Prop :=
  page_size_bytes s' = Ok m ∧
  (block_size s' = block_size s ∨ ∃ p, page_size_bytes s = Ok p ∧ block_size s' * p = block_size s * m).

Lemma unify_layer_page m s s' : unify_layer m s = Ok s' → page_size_bytes s' = Ok m.
Proof.
  unfold unify_layer. intros H. bind_inv H as p Ep. destruct (Z.eqb_spec p m) as [->|]; [by injection H as <-|].
  bind_inv H as r Er. bind_inv H as s1 E1. bind_inv H as q Eq. bind_inv H as u Eu.
  apply py_assert_Ok in Eu. injection H as <-. rewrite Eq. f_equal. lia.
Qed.

Lemma unify_layer_total m s p :
  page_size_bytes s = Ok p → p ≤ m → unifiable m s → ∃ s', unify_layer m s = Ok s' ∧ unified m s s'.
Proof.
  intros Hp Hle (p' & Hp' & Hpos & Hcase). rewrite Hp in Hp'. injection Hp' as <-.
  unfold unify_layer. rewrite Hp. cbn [mbind result_bind].
  destruct (Z.eqb_spec p m) as [->|Hne]; [exists s; split; [done|]; split; [done|by left]|].
  destruct Hcase as [|[Hs Hcase]]; [done|]. unfold py_mod. rewrite (proj2 (Z.eqb_neq _ _)) by lia.
  cbn [mbind result_bind]. destruct (Z.eqb_spec (m mod p) 0) as [E|E].
  - destruct (page_scale s (m / p) p Hs Hp) as (s' & -> & Hpg & Hbs). cbn [mbind result_bind]. rewrite Hpg.
    apply Z.div_exact in E; [|lia]. rewrite <-E. cbn [mbind result_bind]. rewrite Z.eqb_refl. cbn.
    exists s'. split; [done|]. split; [by rewrite Hpg, <-E|]. right. exists p. split; [done|]. rewrite Hbs. lia.
  - destruct Hcase as [|(a & Ha & Hidx)]; [done|]. rewrite Ha, Hidx.
    destruct (page_pad s m p Hs Hp Hle) as (s' & -> & Hpg & Hbs). cbn [mbind result_bind]. rewrite Hpg.
    cbn [mbind result_bind]. rewrite Z.eqb_refl. cbn. exists s'. split; [done|]. split; [done|]. by left.
Qed.

(** A single page size is the largest one. *)
Lemma one_page d pages m :
  Forall2 (λ p pg, page_size_bytes p.2 = Ok pg) d pages → m ∈ pages → (length (py_set pages) ≤ 1)%nat →
  Forall (λ p : string * KVCacheSpec, page_size_bytes p.2 = Ok m) d.
Proof.
  intros Hlen Hin Hone.
  assert (Hset : ∀ x, x ∈ pages → x = m).
  { intros x Hx. rewrite <-elem_of_remove_dups in Hx, Hin. unfold py_set in Hone.
    destruct (remove_dups pages) as [|y [|? ?]]; cbn in Hone; [by apply elem_of_nil in Hx| |lia].
    by apply list_elem_of_singleton in Hx as ->, Hin as ->. }
  clear -Hlen Hset. induction Hlen as [|p pg d pages Hp _ IH]; constructor; [|apply IH; set_solver].
  rewrite Hp. f_equal. apply Hset. left.
Qed.

Lemma unify_pages d d' pages m :
  mmap page_size_bytes d.*2 = Ok pages → py_max pages = Ok m → unify_kv_cache_spec_page_size d = Ok d' →
  d'.*1 = d.*1 ∧ Forall (λ p, page_size_bytes p.2 = Ok m) d'.
Proof.
  intros Hpages Hmax. unfold unify_kv_cache_spec_page_size. rewrite Hpages. cbn [mbind result_bind].
  apply mmap_Ok, Forall2_fmap_l in Hpages.
  destruct (Nat.leb_spec (length (py_set pages)) 1) as [Hone|Hmany].
  - intros [= <-]. split; [done|]. eapply one_page; [done|by apply py_max_Ok in Hmax as [? _]|lia].
  - rewrite Hmax. cbn [mbind result_bind]. intros H%mmap_Ok. clear -H.
    induction H as [|p p' d d' Hp _ [IH1 IH2]]; [done|].
    bind_inv Hp as s' E. injection Hp as <-. apply unify_layer_page in E. cbn. rewrite IH1. by split; [|constructor].
Qed.

Lemma unify_total d pages m :
  mmap page_size_bytes d.*2 = Ok pages → py_max pages = Ok m → Forall (λ p, unifiable m p.2) d →
  ∃ d', unify_kv_cache_spec_page_size d = Ok d' ∧ Forall2 (λ p p', p'.1 = p.1 ∧ unified m p.2 p'.2) d d'.
Proof.
  intros Hpages Hmax Hu. unfold unify_kv_cache_spec_page_size. rewrite Hpages. cbn [mbind result_bind].
  apply mmap_Ok, Forall2_fmap_l in Hpages. pose proof (proj1 (py_max_Ok _ _) Hmax) as [Hin Hb].
  destruct (Nat.leb_spec (length (py_set pages)) 1) as [Hone|Hmany].
  - exists d. split; [done|]. pose proof (one_page _ _ _ Hpages Hin ltac:(lia)) as Hall. clear -Hall.
    induction Hall as [|p d Hp _ IH]; constructor; [|done]. split; [done|]. split; [done|by left].
  - rewrite Hmax. cbn [mbind result_bind]. assert (Hle : Forall (λ pg, pg ≤ m) pages) by (by apply Forall_forall).
    clear -Hpages Hle Hu. induction Hpages as [|p pg d pages Hp _ IH]; [by exists []|].
    inversion Hu; subst. inversion Hle; subst. destruct IH as (d' & Hd' & HF); [done|done|].
    edestruct unify_layer_total as (s' & Hs' & Hun); [exact Hp|done|done|].
    exists ((p.1, s') :: d'). cbn [mmap]. rewrite Hs'. cbn [mbind result_bind]. rewrite Hd'. split; [done|].
    constructor; [|done]. by split.
Qed.

(** Unifying page sizes: whatever it returns has the same layers, all with the
    largest page size; and it returns when every smaller layer is an unpadded
    attention format whose page divides the largest one or whose backend reads
    padded pages, keeping the block size or the bytes per token of every layer. *)
Theorem unify_page_size_correct d pages m :
  mmap page_size_bytes d.*2 = Ok pages → py_max pages = Ok m →
  (∀ d', unify_kv_cache_spec_page_size d = Ok d' →
     d'.*1 = d.*1 ∧ Forall (λ p, page_size_bytes p.2 = Ok m) d') ∧
  (Forall (λ p, unifiable m p.2) d →
     ∃ d', unify_kv_cache_spec_page_size d = Ok d' ∧ Forall2 (λ p p', p'.1 = p.1 ∧ unified m p.2 p'.2) d d').
Proof.
  intros Hpages Hmax. split; [intros d'; by eapply unify_pages|by eapply unify_total].
Qed.

(** Layers with pages of 256, 512 and 384 bytes; the last may be padded. *)
Definition demo_pages : spec_dict :=
  let spec heads idx := FullAttentionSpec (mkAttn 16 heads 4 (mkDtype "bfloat16" 2) QNone None idx)
                          (mkFull 4 None None false) in
  [("a", spec 1 false); ("b", spec 2 false);
   ("c", SlidingWindowSpec (mkAttn 16 1 6 (mkDtype "bfloat16" 2) QNone None true) 32 6)]%string.

Lemma unify_page_size_correct_witness :
  mmap page_size_bytes demo_pages.*2 = Ok [256; 512; 384] ∧
  (∀ d', unify_kv_cache_spec_page_size demo_pages = Ok d' →
     d'.*1 = demo_pages.*1 ∧ Forall (λ p, page_size_bytes p.2 = Ok 512) d') ∧
  ∃ d', unify_kv_cache_spec_page_size demo_pages = Ok d' ∧
        Forall2 (λ p p', p'.1 = p.1 ∧ unified 512 p.2 p'.2) demo_pages d'.
Proof.
  split; [reflexivity|].
  destruct (unify_page_size_correct demo_pages [256; 512; 384] 512) as [H1 H2]; [reflexivity|reflexivity|].
  split; [exact H1|]. apply H2. constructor; [|constructor; [|constructor; [|constructor]]].
  - exists 256. split; [reflexivity|]. split; [lia|]. right. split; [reflexivity|]. left. reflexivity.
  - exists 512. split; [reflexivity|]. split; [lia|]. by left.
  - exists 384. split; [reflexivity|]. split; [lia|]. right. split; [reflexivity|]. right. eexists. by split.
Defined.
