(* ===== verification/PlanCover.v ===== *)
(** * No layer is in two groups

    Whichever way [KVPlan.get_kv_cache_groups] takes, the layer names of its
    groups are layers of the model, each at most once. *)

From S2P Require Import Prelude MathUtils OrderedDict KVSpecs KVMerge KVPlan PlanSearch PlanGroups.

#[local] Open Scope Z_scope.

Notation layers_of gs := (concat (wg_layer_names <$> gs)).

(** ** Lists *)

#[export] Instance concat_perm {A} : Proper ((≡ₚ) ==> (≡ₚ)) (@concat A).
Proof.
  intros l l' H. induction H as [|x l l' _ IH|x y l|l l' l'' _ IH1 _ IH2]; cbn; [done|by rewrite IH| |by rewrite IH1].
  rewrite !app_assoc. apply Permutation_app_tail, Permutation_app_comm.
Qed.

Lemma concat_concat {A} (l : list (list (list A))) : concat (@concat A <$> l) = concat (concat l).
Proof. induction l as [|x l IH]; [done|]. cbn. by rewrite IH, concat_app. Qed.

Lemma concat_zip_cons {A} (l : list A) (ls : list (list A)) :
  length l = length ls → concat (zip_with cons l ls) ≡ₚ l ++ concat ls.
Proof.
  revert ls. induction l as [|x l IH]; intros [|y ls] Hlen; try done. cbn. injection Hlen as Hlen.
  constructor. rewrite IH by done. rewrite !app_assoc. apply Permutation_app_tail, Permutation_app_comm.
Qed.

Lemma py_zip_star_spec {A} k (ls : list (list A)) :
  Forall (λ l, length l = k) ls → concat (py_zip_star ls) ≡ₚ concat ls ∧ (ls ≠ [] → length (py_zip_star ls) = k).
Proof.
  induction 1 as [|l ls Hl Hls [IH1 IH2]]; [done|]. destruct ls as [|l' ls].
  - cbn. rewrite app_nil_r, length_fmap. split; [|done]. clear Hl. induction l as [|x l IHl]; [done|]. cbn. by rewrite IHl.
  - change (py_zip_star (l :: l' :: ls)) with (zip_with cons l (py_zip_star (l' :: ls))).
    specialize (IH2 ltac:(done)). split.
    + rewrite concat_zip_cons by lia. cbn [concat]. by rewrite IH1.
    + intros _. rewrite length_zip_with. lia.
Qed.

Lemma one_value_eq {A} `{EqDecision A} (l : list A) : one_value l = true → ∃ x, Forall (eq x) l.
Proof.
  unfold one_value. rewrite bool_decide_eq_true. intros H. destruct (py_set l) as [|x [|? ?]] eqn:E; try done.
  exists x. by apply py_set_one in E as [_ ?].
Qed.

Lemma mmap_keys {A B} (f : string * A → result B) (d : list (string * A)) d' :
  mmap (λ p, s ← f p; Ok (p.1, s)) d = Ok d' → d'.*1 = d.*1.
Proof.
  intros H%mmap_Ok. induction H as [|p p' d d' Hp _ IH]; [done|]. bind_inv Hp as s E. injection Hp as <-.
  cbn. by rewrite IH.
Qed.

Lemma filter_keys_submseteq {A} (P : string * A → Prop) `{!∀ p, Decision (P p)} (d : list (string * A)) :
  (filter P d).*1 ⊆+ d.*1.
Proof. apply fmap_submseteq, sublist_submseteq, sublist_filter. Qed.

Lemma submseteq_nodup {A} (l l' : list A) : l ⊆+ l' → NoDup l' → NoDup l.
Proof. intros [k ->]%submseteq_Permutation [H _]%NoDup_app. done. Qed.

(** ** Every path *)

Lemma unify_hybrid_keys d d' : unify_hybrid_kv_cache_specs d = Ok d' → d'.*1 = d.*1.
Proof.
  unfold unify_hybrid_kv_cache_specs. intros H. bind_inv H as b Eb. destruct b; [by injection H as <-|].
  bind_inv H as o Eo. bind_inv H as d1 E1. bind_inv H as b' Eb'. destruct b'; [|done]. injection H as <-.
  case_match; [|by injection E1 as <-]. by eapply (mmap_keys (λ p, to_full_attention o p.2)).
Qed.

Lemma uniform_page_groups_layers d gs :
  _get_kv_cache_groups_uniform_page_size d = Ok gs → layers_of gs ≡ₚ d.*1.
Proof.
  unfold _get_kv_cache_groups_uniform_page_size. intros H. bind_inv H as lo Elo. bind_inv H as hi Ehi.
  rewrite (create_groups_names _ _ _ H). rewrite <-group_by_spec_perm.
  etransitivity; [apply (concat_fmap_perm _ id)|by rewrite list_fmap_id].
  apply Forall_forall. intros l _. apply split_layers_partition. eapply class_size_pos; [|done|done].
  eapply Forall_impl; [apply classes_one_format|]. by intros names [? _].
Qed.

Lemma hidden_groups_layers page hs gs :
  mmap (hidden_state_group page) hs = Ok gs → layers_of gs = hs.*1.
Proof.
  intros H%mmap_Ok. induction H as [|p g hs gs Hp _ IH]; [done|]. cbn. rewrite IH. f_equal.
  unfold hidden_state_group in Hp. destruct p as [name s]. cbn in Hp. destruct s; try done.
  bind_inv Hp as q Eq. bind_inv Hp as s' Es. by injection Hp as <-.
Qed.

Lemma unify_keys d d' : unify_kv_cache_spec_page_size d = Ok d' → d'.*1 = d.*1.
Proof.
  unfold unify_kv_cache_spec_page_size. intros H. bind_inv H as ps E. case_match; [by injection H as <-|].
  bind_inv H as m Em. by eapply (mmap_keys (λ p, unify_layer m p.2)).
Qed.

Lemma hybrid_groups_layers d gs : hybrid_groups d = Ok gs → layers_of gs ≡ₚ d.*1.
Proof.
  unfold hybrid_groups. intros H. bind_inv H as d' Ed. bind_inv H as gs' Egs.
  apply unify_keys in Ed. apply uniform_page_groups_layers in Egs. rewrite Ed in Egs.
  assert (Hsplit : (filter (λ p, negb (is_hidden_state_spec p.2)) d).*1 ++
                   (filter (λ p, is_hidden_state_spec p.2) d).*1 ≡ₚ d.*1).
  { clear. induction d as [|p d IH]; [done|]. rewrite !filter_cons.
    destruct (is_hidden_state_spec p.2) eqn:E; cbn; rewrite <-IH; [|done]. symmetry. apply Permutation_middle. }
  destruct (filter (λ p, is_hidden_state_spec p.2) d) as [|h hs] eqn:Eh.
  - injection H as <-. rewrite app_nil_r in Hsplit. by rewrite Egs.
  - bind_inv H as page Ep. bind_inv H as hgs Ehg. injection H as <-.
    apply hidden_groups_layers in Ehg. rewrite fmap_app, concat_app, Ehg, Egs. done.
Qed.

(** ** Latent attention *)

Lemma from_specs_Ok d u : from_specs d = Ok (Some u) → ut_specs u = d.
Proof.
  unfold from_specs. intros H. bind_inv H as b Eb. destruct d as [|[name s] d]; [done|].
  destruct b; [|done]. by injection H as <-.
Qed.

Lemma pad_layers_keys cand specs st :
  pad_layers cand specs = Ok st → st.1.*1 = specs.*1 ∧ concat st.2.*2 ≡ₚ specs.*1.
Proof.
  unfold pad_layers. set (body := λ '(done, layers_per_size) p, _).
  assert (H : ∀ specs st0 st, mfold body st0 specs = Ok st →
            st.1.*1 = st0.1.*1 ++ specs.*1 ∧ concat st.2.*2 ≡ₚ concat st0.2.*2 ++ specs.*1).
  { clear. intros specs. induction specs as [|p specs IH]; intros [dn lps] st H.
    - injection H as <-. cbn. by rewrite !app_nil_r.
    - cbn [mfold] in H. bind_inv H as st1 E1. destruct (IH _ _ H) as [IH1 IH2].
      unfold body in E1. bind_inv E1 as cs Ecs. bind_inv E1 as c Ec. injection E1 as <-. cbn in IH1, IH2 |- *.
      rewrite IH1, fmap_app, <-app_assoc. split; [done|]. rewrite IH2, od_append_perm. cbn.
      apply Permutation_middle. }
  intros E. by apply (H specs ([], []) st).
Qed.

Lemma make_tuple_group_names specs names g : make_tuple_group specs names = Ok g → wg_layer_names g = names.
Proof.
  unfold make_tuple_group. intros H. bind_inv H as ss Ess. bind_inv H as o Eo. destruct o; [|done].
  by injection H as <-.
Qed.

Lemma mmap_names {A} (f : A → result WorkerGroup) (names : A → list string) l gs :
  (∀ a g, f a = Ok g → wg_layer_names g = names a) → mmap f l = Ok gs → wg_layer_names <$> gs = names <$> l.
Proof.
  intros Hf H%mmap_Ok. induction H as [|a g l gs Hg _ IH]; [done|]. cbn. by rewrite IH, (Hf a g Hg).
Qed.

Lemma split_swa_layers n pages sm gs : split_swa_group n pages sm = Ok gs → layers_of gs ⊆+ (ut_specs sm).*1.
Proof.
  unfold split_swa_group. intros H. bind_inv H as ps E1. bind_inv H as m1 E2. bind_inv H as m2 E3.
  bind_inv H as u4 E4. bind_inv H as cand E5. bind_inv H as [specs lps] E6.
  apply pad_layers_keys in E6 as [_ Hlps]. cbn in Hlps.
  destruct (lps.*2) as [|first rest] eqn:Elps; [done|]. bind_inv H as u7 E7.
  apply py_assert_Ok, one_value_eq in E7 as [k Hk]. set (ng := cdiv (zlen first) n) in *.
  apply (mmap_names _ (λ i, concat (py_stride (py_zip_star (first :: rest)) i ng))) in H;
    [|intros i g; apply make_tuple_group_names].
  rewrite H. destruct (decide (ng ≤ 0)); [rewrite py_range_nil by lia; apply submseteq_nil_l|].
  apply Permutation_submseteq.
  rewrite (list_fmap_compose (λ i, py_stride (py_zip_star (first :: rest)) i ng) (@concat string)), concat_concat.
  rewrite stride_partition by lia. rewrite <-Hlps. apply (py_zip_star_spec k).
  rewrite Forall_fmap in Hk. eapply Forall_impl; [exact Hk|]. intros l Hl. by rewrite Hl.
Qed.

Lemma concat_submseteq {A B} (f g : A → list B) l :
  (∀ a, a ∈ l → f a ⊆+ g a) → concat (f <$> l) ⊆+ concat (g <$> l).
Proof.
  induction l as [|a l IH]; intros H; [done|]. cbn. apply submseteq_app; [apply H; left|].
  apply IH. intros a' Ha. apply H. by right.
Qed.

Lemma uniform_groups_layers us gs :
  _get_kv_cache_groups_uniform_groups us = Ok gs → layers_of gs ⊆+ concat ((λ u, (ut_specs u).*1) <$> us).
Proof.
  unfold _get_kv_cache_groups_uniform_groups. destruct us as [|full swas]; [done|]. intros H.
  bind_inv H as u1 E1. bind_inv H as cs E2. bind_inv H as n E3. bind_inv H as u4 E4.
  bind_inv H as ps E5. bind_inv H as sg E6. injection H as <-. cbn. apply submseteq_app; [done|].
  apply mmap_Ok in E6. clear -E6. induction E6 as [|sm g swas sg Hg _ IH]; [done|].
  cbn. rewrite fmap_app, concat_app. apply submseteq_app; [by eapply split_swa_layers|done].
Qed.

Lemma uniform_of_specs_Ok specs u : uniform_of_specs specs = Ok u → ut_specs u = specs.
Proof.
  unfold uniform_of_specs. intros H. bind_inv H as o E. destruct o; [|done]. injection H as <-. by apply from_specs_Ok.
Qed.

Lemma grouped_swa_perm d :
  concat (grouped_swa_mla_specs d).*2 ≡ₚ filter (λ p, is_sliding_window_mla_spec p.2) d.
Proof.
  pose proof (collect_perm (λ p : string * KVCacheSpec,
    match p.2 with SlidingWindowMLASpec a w _ => Some (attn_block_size a, w) | _ => None end) id d) as Hc.
  etransitivity; [etransitivity; [|exact Hc]|].
  - apply Permutation_refl'. unfold grouped_swa_mla_specs. do 2 f_equal. clear.
    generalize (@nil (Z * Z * list (string * KVCacheSpec))).
    induction d as [|[name s] d IH]; intros acc; [done|]. cbn. rewrite IH. by destruct s.
  - clear. induction d as [|[name s] d IH]; [done|]. destruct s; cbn; try exact IH. by constructor.
Qed.

Lemma group_and_unify_layers d us :
  group_and_unify_kv_cache_specs d = Ok (Some us) → concat ((λ u, (ut_specs u).*1) <$> us) ⊆+ d.*1.
Proof.
  unfold group_and_unify_kv_cache_specs. intros H. case_match; [done|].
  bind_inv H as u1 E1. bind_inv H as mu E2. bind_inv H as su E3.
  injection H as <-. apply uniform_of_specs_Ok in E2. cbn. rewrite E2.
  assert (Hsu : ut_specs <$> su = (grouped_swa_mla_specs d).*2).
  { apply mmap_Ok in E3. clear -E3. induction E3 as [|a b l l' Hab _ IH]; [done|].
    cbn. by rewrite IH, (uniform_of_specs_Ok a b Hab). }
  assert (Hsw : concat ((λ u, (ut_specs u).*1) <$> su) ≡ₚ (filter (λ p, is_sliding_window_mla_spec p.2) d).*1).
  { rewrite <-grouped_swa_perm, <-Hsu. clear. induction su as [|u su IH]; [done|]. cbn. by rewrite fmap_app, IH. }
  rewrite Hsw. clear. induction d as [|[name s] d IH]; [done|].
  destruct s; cbn; try (by apply submseteq_cons); try (by apply submseteq_skip).
  etransitivity; [apply Permutation_submseteq; symmetry; apply Permutation_middle|by apply submseteq_skip].
Qed.

(** ** The groups of a model *)

Lemma flag_eagle_names layer gs : wg_layer_names <$> flag_eagle_group layer gs = wg_layer_names <$> gs.
Proof. induction gs as [|g gs IH]; [done|]. cbn. case_match; cbn; [done|by rewrite IH]. Qed.

Lemma annotate_names v d gs : wg_layer_names <$> _annotate_eagle_groups_deepseek_v4 v d gs = wg_layer_names <$> gs.
Proof.
  unfold _annotate_eagle_groups_deepseek_v4. do 2 (case_match; [done|]). case_match; [apply flag_eagle_names|done].
Qed.

Lemma groups_layers v d gs : get_kv_cache_groups v d = Ok gs → layers_of gs ⊆+ d.*1.
Proof.
  unfold get_kv_cache_groups. intros H. bind_inv H as d1 E1.
  assert (Hk : d1.*1 = d.*1) by (destruct (disable_hybrid_kv_cache_manager v); [by apply unify_hybrid_keys|by injection E1 as <-]).
  rewrite <-Hk. clear Hk E1. case_match; [injection H as <-; apply submseteq_nil_l|].
  bind_inv H as same Es. destruct same.
  { apply create_groups_names in H. rewrite H. cbn. by rewrite app_nil_r. }
  bind_inv H as ou Eu. destruct ou as [u|].
  { apply from_specs_Ok in Eu. injection H as <-. cbn. by rewrite app_nil_r, Eu. }
  bind_inv H as og Eg. destruct og as [us|].
  - bind_inv H as gs' Egs. injection H as <-. rewrite annotate_names.
    etransitivity; [by eapply uniform_groups_layers|by apply group_and_unify_layers].
  - by apply Permutation_submseteq, hybrid_groups_layers.
Qed.

(** ** Well-formed groups *)

(** A group has layers; with one specification per layer, these are the
    specifications of its layers, of one type and with the group's block size. *)
Definition wf_group (g : WorkerGroup) : Prop :=
  wg_layer_names g ≠ [] ∧
  match wg_spec g with
  | Plain _ => True
  | UniformType u =>
      (ut_specs u).*1 = wg_layer_names g ∧ is_uniform_type (ut_specs u) = Ok true ∧
      Forall (λ p, block_size p.2 = ut_block_size u) (ut_specs u)
  end.

Lemma from_specs_wf d u eagle :
  from_specs d = Ok (Some u) → wf_group (mkWorkerGroup d.*1 (UniformType u) eagle).
Proof.
  intros H. pose proof (from_specs_Ok _ _ H) as Hu. unfold from_specs in H. bind_inv H as b Eb.
  destruct d as [|[name s] d]; [done|]. destruct b; [|done]. injection H as <-. split; [done|]. split; [done|].
  cbn [ut_specs ut_block_size]. split; [done|]. unfold is_uniform_type in Eb.
  destruct (1 <? length (py_set (block_size <$> ((name, s) :: d).*2)))%nat eqn:E1; [done|].
  apply Nat.ltb_ge in E1. apply Forall_forall. intros p Hp.
  assert (H1 : block_size s ∈ py_set (block_size <$> ((name, s) :: d).*2)) by (apply elem_of_remove_dups; left).
  assert (H2 : block_size p.2 ∈ py_set (block_size <$> ((name, s) :: d).*2)).
  { apply elem_of_remove_dups, list_elem_of_fmap. exists p.2. split; [done|]. by apply list_elem_of_fmap_2. }
  destruct (py_set _) as [|x [|? ?]]; cbn in E1; [by apply elem_of_nil in H1| |lia].
  by apply list_elem_of_singleton in H1 as ->, H2 as ->.
Qed.

Lemma create_groups_wf d grouped gs : create_kv_cache_group_specs d grouped = Ok gs → Forall wf_group gs.
Proof.
  intros H%mmap_Ok. induction H as [|names g grouped gs Hg _ IH]; constructor; [|done].
  bind_inv Hg as specs E. bind_inv Hg as s E'. injection Hg as <-. split; [|done]. cbn. intros ->.
  injection E as <-. done.
Qed.

Lemma get_layers_keys d names specs :
  mmap (λ name, s ← get_layer d name; Ok (name, s)) names = Ok specs → specs.*1 = names.
Proof.
  intros H%mmap_Ok. induction H as [|a b l l' Hab _ IH]; [done|]. bind_inv Hab as s Es. injection Hab as <-.
  cbn. by rewrite IH.
Qed.

Lemma make_tuple_group_wf specs names g : make_tuple_group specs names = Ok g → wf_group g.
Proof.
  unfold make_tuple_group. intros H. bind_inv H as ss Ess. bind_inv H as o Eo. destruct o as [u|]; [|done].
  injection H as <-. apply get_layers_keys in Ess as <-. by apply from_specs_wf.
Qed.

Lemma split_swa_wf n pages sm gs : split_swa_group n pages sm = Ok gs → Forall wf_group gs.
Proof.
  unfold split_swa_group. intros H. bind_inv H as ps E1. bind_inv H as m1 E2. bind_inv H as m2 E3.
  bind_inv H as u4 E4. bind_inv H as cand E5. bind_inv H as [specs lps] E6.
  destruct (lps.*2) as [|first rest]; [done|]. bind_inv H as u7 E7. apply mmap_Ok in H.
  clear -H. induction H as [|i g is' gs Hg _ IH]; constructor; [by eapply make_tuple_group_wf|done].
Qed.

Lemma uniform_groups_wf d us gs :
  group_and_unify_kv_cache_specs d = Ok (Some us) → _get_kv_cache_groups_uniform_groups us = Ok gs → Forall wf_group gs.
Proof.
  unfold group_and_unify_kv_cache_specs, _get_kv_cache_groups_uniform_groups. intros H Hg.
  destruct (negb (existsb _ _)); [done|].
  bind_inv H as u1 E1. bind_inv H as mu E2. bind_inv H as su E3. injection H as <-.
  bind_inv Hg as u4 E4. bind_inv Hg as cs E5. bind_inv Hg as n E6. bind_inv Hg as u7 E7.
  bind_inv Hg as ps E8. bind_inv Hg as sg E9. injection Hg as <-. constructor.
  - unfold uniform_of_specs in E2. bind_inv E2 as o Eo. destruct o as [u|]; [|done]. injection E2 as <-.
    rewrite (from_specs_Ok _ _ Eo). by apply from_specs_wf.
  - apply mmap_Ok in E9. clear -E9. apply Forall_concat.
    induction E9 as [|sm g swas sg Hg _ IH]; constructor; [by eapply split_swa_wf|done].
Qed.

Lemma hybrid_groups_wf d gs : hybrid_groups d = Ok gs → Forall wf_group gs.
Proof.
  unfold hybrid_groups. intros H. bind_inv H as d' Ed. bind_inv H as gs' Egs.
  assert (Hgs : Forall wf_group gs').
  { unfold _get_kv_cache_groups_uniform_page_size in Egs. bind_inv Egs as lo Elo. bind_inv Egs as hi Ehi.
    by eapply create_groups_wf. }
  case_match; [by injection H as <-|]. bind_inv H as page Ep. bind_inv H as hgs Ehg. injection H as <-.
  apply Forall_app. split; [done|]. apply mmap_Ok in Ehg. clear -Ehg.
  induction Ehg as [|[name s] g hs gs Hg _ IH]; constructor; [|done].
  unfold hidden_state_group in Hg. cbn in Hg. destruct s; try done.
  bind_inv Hg as q Eq. bind_inv Hg as s' Es. by injection Hg as <-.
Qed.

Lemma annotate_wf v d gs : Forall wf_group gs → Forall wf_group (_annotate_eagle_groups_deepseek_v4 v d gs).
Proof.
  intros H. unfold _annotate_eagle_groups_deepseek_v4. do 2 (case_match; [done|]). case_match; [|done].
  induction H as [|g gs Hg Hgs IH]; [done|]. cbn. case_match; by constructor.
Qed.

Lemma groups_wf v d gs : get_kv_cache_groups v d = Ok gs → Forall wf_group gs.
Proof.
  unfold get_kv_cache_groups. intros H. bind_inv H as d1 E1. clear E1.
  destruct (is_kv_cache_type_attention_free d1); [by injection H as <-|].
  bind_inv H as same Es. destruct same; [by eapply create_groups_wf|].
  bind_inv H as ou Eu. destruct ou as [u|].
  { injection H as <-. constructor; [|done]. rewrite (from_specs_Ok _ _ Eu). by apply from_specs_wf. }
  bind_inv H as og Eg. destruct og as [us|]; [|by eapply hybrid_groups_wf].
  bind_inv H as gs' Egs. injection H as <-. by eapply annotate_wf, uniform_groups_wf.
Qed.

(** C37: The groups are well formed, whichever way the layers are grouped: every group has
    layers, all of them layers of the model; no layer is in two groups or twice
    in one; and a group with one specification per layer has those of exactly
    its layers, all of one type and with the group's block size. *)
Theorem groups_well_formed v d gs :
  NoDup d.*1 → get_kv_cache_groups v d = Ok gs →
  Forall wf_group gs ∧ NoDup (layers_of gs) ∧ ∀ name, name ∈ layers_of gs → name ∈ d.*1.
Proof.
  intros Hd Hgs. split; [by eapply groups_wf|]. apply groups_layers in Hgs.
  split; [by eapply submseteq_nodup|]. intros name Hn. by eapply elem_of_submseteq.
Qed.

(** A latent-attention model: two full layers and three window layers. *)
Definition demo_latent : spec_dict :=
  let attn bs := mkAttn bs 1 8 (mkDtype "bfloat16" 2) QNone None false in
  let mla := mkMLA None None 1 (Some "deepseek_v4"%string) in
  let full := MLAAttentionSpec (attn 64) (mkFull 8 None None false) mla in
  let window := SlidingWindowMLASpec (attn 32) 128 mla in
  [("f0", full); ("w0", window); ("f1", full); ("w1", window); ("w2", window)]%string.

Definition demo_vllm : VllmConfig := mkVllm demo_spec_config 1000 None false true false 16 None true false.

Lemma groups_well_formed_witness :
  ∃ gs, get_kv_cache_groups demo_vllm demo_latent = Ok gs ∧
    wg_layer_names <$> gs = [["f0"; "f1"]; ["w0"; "w1"; "w2"]]%string ∧
    Forall wf_group gs ∧ NoDup (layers_of gs) ∧ ∀ name, name ∈ layers_of gs → name ∈ demo_latent.*1.
Proof.
  eexists. split; [vm_compute; reflexivity|]. split; [reflexivity|].
  apply (groups_well_formed demo_vllm demo_latent); [|vm_compute; reflexivity].
  apply (bool_decide_unpack _). by vm_compute.
Defined.
