(* ===== verification/PlanLayout.v ===== *)
(** * The tensors of a worker

    How [KVPlan.get_kv_cache_config_from_groups] lays out the KV cache of one
    worker: every layer is in one tensor, layers that share a tensor belong to
    different groups (so that they use different blocks of it), the slots of a
    packed block do not overlap, and the tensors fit in the memory there is. *)

From S2P Require Import Prelude MathUtils OrderedDict KVSpecs KVMerge KVPlan PlanSearch PlanGroups PlanCover.

#[local] Open Scope Z_scope.

(** ** Buckets *)

Notation bucket_layers b := (concat (concat (snd <$> b))).

Lemma insert_concat_perm {A} (ls : list (list A)) i l x :
  ls !! i = Some l → concat (<[i := l ++ [x]]> ls) ≡ₚ x :: concat ls.
Proof.
  revert i. induction ls as [|l' ls IH]; intros [|i] Hi; try done; cbn in *.
  - injection Hi as ->. rewrite <-app_assoc. symmetry. apply Permutation_middle.
  - rewrite IH by done. symmetry. apply Permutation_middle.
Qed.

(** Replacing the entry of a key. *)
Lemma od_set_concat {A} (b : list (Z * list (list A))) k slots slots' x :
  default [] (od_get b k) = slots → concat slots' ≡ₚ x :: concat slots →
  concat (concat (od_set b k slots').*2) ≡ₚ x :: concat (concat b.*2).
Proof.
  intros Hg Hp. induction b as [|[k' s] b IH]; cbn in *.
  - subst. cbn in *. by rewrite app_nil_r.
  - destruct (decide (k = k')) as [->|]; cbn; rewrite !concat_app.
    + cbn in Hg. subst. by rewrite Hp.
    + rewrite IH by done. symmetry. apply Permutation_middle.
Qed.

(** What one layer does: it is added to slot [slot_idx] of its page size. *)
Lemma bucket_layer_spec spec b sc name b' sc' :
  bucket_layer spec (b, sc) name = Ok (b', sc') →
  ∃ ps slots slot, layer_page_size spec name = Ok ps ∧
    let idx := default O (od_get sc ps) in
    let old := default [] (od_get b ps) in
    (slots = old ∨ slots = old ++ [[]]) ∧ slots !! idx = Some slot ∧
    b' = od_set b ps (<[idx := slot ++ [name]]> slots) ∧ sc' = od_set sc ps (S idx).
Proof.
  unfold bucket_layer. intros H. bind_inv H as ps Eps. cbn zeta in H.
  set (slots := if (_ =? _)%nat then _ else _) in H. destruct (slots !! _) as [slot|] eqn:Eslot; [|done].
  injection H as <- <-. exists ps, slots, slot. split; [done|]. cbn. split; [|done].
  unfold slots. case_match; auto.
Qed.

Lemma bucket_layer_perm spec b sc name b' sc' :
  bucket_layer spec (b, sc) name = Ok (b', sc') → bucket_layers b' ≡ₚ name :: bucket_layers b.
Proof.
  intros (ps & slots & slot & _ & Hs & Hslot & -> & _)%bucket_layer_spec.
  eapply od_set_concat; [reflexivity|]. rewrite (insert_concat_perm _ _ _ _ Hslot). constructor.
  destruct Hs as [->| ->]; [done|]. rewrite concat_app. cbn. by rewrite app_nil_r.
Qed.

Lemma bucket_group_perm spec names b sc st :
  mfold (bucket_layer spec) (b, sc) names = Ok st → bucket_layers st.1 ≡ₚ names ++ bucket_layers b.
Proof.
  revert b sc. induction names as [|name names IH]; intros b sc H; [by injection H as <-|].
  cbn [mfold] in H. bind_inv H as [b1 sc1] E. rewrite (IH _ _ H). apply bucket_layer_perm in E. rewrite E.
  symmetry. apply (Permutation_middle names).
Qed.

(** The slots hold the layers of the groups, each once. *)
Lemma buckets_perm groups b : _bucket_layers_by_page_size groups = Ok b → bucket_layers b ≡ₚ layers_of groups.
Proof.
  unfold _bucket_layers_by_page_size. set (body := λ b g, _).
  assert (H : ∀ groups b0 b, mfold body b0 groups = Ok b → bucket_layers b ≡ₚ layers_of groups ++ bucket_layers b0).
  { clear. intros groups. induction groups as [|g groups IH]; intros b0 b H; [by injection H as <-|].
    cbn [mfold] in H. bind_inv H as b1 E1. unfold body in E1. bind_inv E1 as st E. injection E1 as <-.
    rewrite (IH _ _ H). apply bucket_group_perm in E. rewrite E. cbn. rewrite !app_assoc.
    apply Permutation_app_tail, Permutation_app_comm. }
  intros E. rewrite (H _ _ _ E). cbn. by rewrite app_nil_r.
Qed.

(** ** Layers of one group are in different slots *)

(** How many layers of [names] a slot has. *)
Definition slot_count (names slot : list string) : nat := length (filter (λ x, x ∈ names) slot).

Definition slot_of (b : buckets) (ps : Z) (i : nat) (slot : list string) : Prop :=
  ∃ slots, od_get b ps = Some slots ∧ slots !! i = Some slot.

Definition separated (names : list string) (b : buckets) : Prop :=
  ∀ ps i slot, slot_of b ps i slot → (slot_count names slot ≤ 1)%nat.

(** Within a group: the slots from the next free one on have none of its layers. *)
Definition filling (placed : list string) (b : buckets) (sc : list (Z * nat)) : Prop :=
  ∀ ps i slot, slot_of b ps i slot → (default O (od_get sc ps) ≤ i)%nat → slot_count placed slot = O.

Lemma slot_count_nil names : slot_count names [] = O.
Proof. done. Qed.

Lemma slot_count_app names s1 s2 : slot_count names (s1 ++ s2) = (slot_count names s1 + slot_count names s2)%nat.
Proof. unfold slot_count. by rewrite filter_app, length_app. Qed.

Lemma slot_count_absent names slot : (∀ x, x ∈ slot → x ∉ names) → slot_count names slot = O.
Proof.
  induction slot as [|x slot IH]; intros H; [done|]. unfold slot_count. rewrite filter_cons_False by (apply H; left).
  apply IH. intros y Hy. apply H. by right.
Qed.

Lemma slot_count_cons name names slot : name ∉ slot → slot_count (name :: names) slot = slot_count names slot.
Proof.
  induction slot as [|x slot IH]; intros Hn; [done|]. apply not_elem_of_cons in Hn as [Hne Hn].
  change (x :: slot) with ([x] ++ slot). rewrite !slot_count_app, IH by done. f_equal.
  unfold slot_count. rewrite !filter_cons, !filter_nil. repeat case_decide; set_solver.
Qed.

Lemma slot_of_elem b ps i slot x : slot_of b ps i slot → x ∈ slot → x ∈ bucket_layers b.
Proof.
  intros (slots & Hg & Hi) Hx. rewrite list_elem_of_In, in_concat. exists slot. rewrite <-!list_elem_of_In.
  split; [|done]. rewrite list_elem_of_In, in_concat. exists slots. rewrite <-!list_elem_of_In.
  apply list_elem_of_lookup_2 in Hi. split; [|done].
  clear -Hg. induction b as [|[k s] b IH]; [done|]. cbn in *. case_decide; [injection Hg as ->; left|].
  right. auto.
Qed.

(** The slots after a layer was added: its own, and those there were before. *)
Lemma bucket_layer_slots spec b sc name b' sc' :
  bucket_layer spec (b, sc) name = Ok (b', sc') →
  ∃ ps, sc' = od_set sc ps (S (default O (od_get sc ps))) ∧
    ∀ ps0 i s, slot_of b' ps0 i s →
      (ps0 = ps ∧ i = default O (od_get sc ps) ∧ ∃ s0, s = s0 ++ [name] ∧ (slot_of b ps i s0 ∨ s0 = [])) ∨
      ((ps0 = ps → i ≠ default O (od_get sc ps)) ∧ (slot_of b ps0 i s ∨ s = [])).
Proof.
  intros (ps & slots & slot & _ & Hs & Hslot & -> & ->)%bucket_layer_spec. exists ps. split; [done|].
  assert (Hold : ∀ i s, slots !! i = Some s → slot_of b ps i s ∨ s = []).
  { intros i s Hi. destruct Hs as [->| ->].
    - left. destruct (od_get b ps) as [old|] eqn:E; [by exists old|done].
    - apply lookup_app_Some in Hi as [Hi|[_ Hi]].
      + left. destruct (od_get b ps) as [old|] eqn:E; [by exists old|done].
      + right. by apply list_lookup_singleton_Some in Hi as [_ <-]. }
  intros ps0 i s (slots0 & Hg & Hi). rewrite od_get_set in Hg. destruct (decide (ps0 = ps)) as [->|Hne].
  - rewrite ?decide_True in Hg by done. injection Hg as <-.
    apply list_lookup_insert_Some in Hi as [(<- & <- & _)|[Hne Hi]].
    + left. split; [done|]. split; [done|]. exists slot. split; [done|]. by apply Hold.
    + right. split; [naive_solver|]. by apply Hold.
  - rewrite ?decide_False in Hg by congruence. right. split; [done|]. left. by exists slots0.
Qed.

Lemma bucket_layer_separated spec b sc name b' sc' names :
  bucket_layer spec (b, sc) name = Ok (b', sc') → name ∉ names → separated names b → separated names b'.
Proof.
  intros (ps & _ & H)%bucket_layer_slots Hn Hsep ps0 i s Hs.
  destruct (H _ _ _ Hs) as [(_ & _ & s0 & -> & Hs0)|[_ [Hs0| ->]]]; [|by eapply Hsep|cbn; lia].
  rewrite slot_count_app, (slot_count_absent names [name]) by set_solver.
  destruct Hs0 as [Hs0| ->]; [|cbn; lia]. specialize (Hsep _ _ _ Hs0). lia.
Qed.

Lemma bucket_layer_filling spec b sc name b' sc' placed :
  bucket_layer spec (b, sc) name = Ok (b', sc') → name ∉ bucket_layers b →
  separated placed b → filling placed b sc → separated (name :: placed) b' ∧ filling (name :: placed) b' sc'.
Proof.
  intros (ps & -> & H)%bucket_layer_slots Hfresh Hsep Hfill.
  assert (Hold : ∀ ps i s, slot_of b ps i s → slot_count (name :: placed) s = slot_count placed s).
  { intros ps' i s Hs. apply slot_count_cons. intros Hx. by eapply Hfresh, slot_of_elem. }
  assert (Hnew : slot_count (name :: placed) [name] = 1%nat).
  { unfold slot_count. rewrite filter_cons_True by left. done. }
  split; intros ps0 i s Hs; destruct (H _ _ _ Hs) as [(-> & -> & s0 & -> & Hs0)|[Hi [Hs0| ->]]];
    rewrite ?slot_count_nil; try lia.
  - rewrite slot_count_app, Hnew. destruct Hs0 as [Hs0| ->]; [|done].
    rewrite (Hold _ _ _ Hs0), (Hfill _ _ _ Hs0); lia.
  - rewrite (Hold _ _ _ Hs0). by eapply Hsep.
  - rewrite od_get_set, decide_True by done. cbn. lia.
  - rewrite (Hold _ _ _ Hs0). rewrite od_get_set. intros Hle. apply (Hfill _ _ _ Hs0).
    case_decide as E; [|done]. cbn in Hle. subst. lia.
Qed.

Lemma slot_count_ext n1 n2 slot : (∀ x, x ∈ n1 ↔ x ∈ n2) → slot_count n1 slot = slot_count n2 slot.
Proof. intros H. unfold slot_count. f_equal. by apply list_filter_iff. Qed.

Lemma bucket_group_own spec names b sc st placed :
  mfold (bucket_layer spec) (b, sc) names = Ok st → NoDup (names ++ bucket_layers b) →
  separated placed b → filling placed b sc → separated (names ++ placed) st.1.
Proof.
  revert b sc placed. induction names as [|name names IH]; intros b sc placed H Hnd Hsep Hfill; [by injection H as <-|].
  cbn [mfold] in H. bind_inv H as [b1 sc1] E. apply NoDup_cons in Hnd as [Hn Hnd].
  destruct (bucket_layer_filling _ _ _ _ _ _ placed E) as [Hsep1 Hfill1]; [set_solver|done|done|].
  assert (H1 : separated (names ++ name :: placed) st.1).
  { apply (IH b1 sc1); [done| |done|done]. apply bucket_layer_perm in E. rewrite E.
    rewrite <-Permutation_middle. by constructor. }
  intros ps i slot Hs. rewrite (slot_count_ext _ (names ++ name :: placed)) by set_solver. by eapply H1.
Qed.

Lemma bucket_group_other spec names b sc st X :
  mfold (bucket_layer spec) (b, sc) names = Ok st → (∀ x, x ∈ names → x ∉ X) → separated X b → separated X st.1.
Proof.
  revert b sc. induction names as [|name names IH]; intros b sc H Hd Hsep; [by injection H as <-|].
  cbn [mfold] in H. bind_inv H as [b1 sc1] E. eapply IH; [exact H|set_solver|].
  eapply bucket_layer_separated; [exact E|apply Hd; left|done].
Qed.

(** No slot has two layers of one group. *)
Lemma buckets_separated groups b :
  _bucket_layers_by_page_size groups = Ok b → NoDup (layers_of groups) →
  Forall (λ g, separated (wg_layer_names g) b) groups.
Proof.
  unfold _bucket_layers_by_page_size. set (body := λ b g, _).
  assert (H : ∀ groups b0 b, mfold body b0 groups = Ok b → NoDup (layers_of groups ++ bucket_layers b0) →
    Forall (λ g, separated (wg_layer_names g) b) groups ∧
    ∀ X, (∀ x, x ∈ layers_of groups → x ∉ X) → separated X b0 → separated X b).
  { clear. intros groups. induction groups as [|g groups IH]; intros b0 b H Hnd; [by injection H as <-|].
    cbn [mfold] in H. bind_inv H as b1 E1. unfold body in E1. bind_inv E1 as st E. injection E1 as <-.
    pose proof (bucket_group_perm _ _ _ _ _ E) as Hp. cbn in Hnd.
    assert (Hnd1 : NoDup (layers_of groups ++ bucket_layers st.1)).
    { rewrite Hp, app_assoc, (Permutation_app_comm (layers_of groups)). done. }
    destruct (IH _ _ H Hnd1) as [IH1 IH2]. rewrite <-app_assoc in Hnd. split.
    - constructor; [|done]. apply IH2.
      + intros x Hx Hg. apply NoDup_app in Hnd as (_ & Hd & _). apply (Hd x Hg). set_solver.
      + rewrite <-(app_nil_r (wg_layer_names g)). eapply bucket_group_own; [exact E| | |].
        * apply NoDup_app in Hnd as (H1 & H2 & H3). apply NoDup_app in H3 as (_ & _ & H4).
          apply NoDup_app. split; [done|]. split; [set_solver|done].
        * intros ps i slot _. rewrite slot_count_absent by set_solver. lia.
        * intros ps i slot _ _. apply slot_count_absent. set_solver.
    - intros X HX Hsep. apply IH2; [set_solver|]. eapply bucket_group_other; [exact E|set_solver|done]. }
  intros E Hnd. eapply H; [exact E|]. cbn. by rewrite app_nil_r.
Qed.

(** ** The page size of a slot *)

(** A layer of one of the groups has the page size [ps]. *)
Definition has_page (groups : list WorkerGroup) (name : string) (ps : Z) : Prop :=
  ∃ g, g ∈ groups ∧ name ∈ wg_layer_names g ∧ layer_page_size (wg_spec g) name = Ok ps.

Definition paged (P : string → Z → Prop) (b : buckets) : Prop :=
  Forall (λ p, (∃ name, P name p.1) ∧ Forall (λ slot, Forall (λ name, P name p.1) slot) p.2) b.

Lemma od_set_Forall {V} (P : Z * V → Prop) b k v : Forall P b → P (k, v) → Forall P (od_set b k v).
Proof.
  intros H Hk. induction H as [|[k' v'] b Hp Hb IH]; cbn; [by constructor|]. case_decide; by constructor.
Qed.

Lemma bucket_layer_paged (P : string → Z → Prop) spec b sc name b' sc' :
  bucket_layer spec (b, sc) name = Ok (b', sc') → (∀ ps, layer_page_size spec name = Ok ps → P name ps) →
  paged P b → paged P b'.
Proof.
  intros (ps & slots & slot & Hps & Hs & Hslot & -> & _)%bucket_layer_spec HP Hb.
  apply od_set_Forall; [done|]. cbn. specialize (HP ps Hps). split; [by exists name|].
  assert (Hold : Forall (λ slot, Forall (λ name, P name ps) slot) (default [] (od_get b ps))).
  { clear -Hb. induction Hb as [|[k s] b Hk _ IH]; [done|]. cbn. case_decide; [subst; apply Hk|exact IH]. }
  assert (Hslots : Forall (λ slot, Forall (λ name, P name ps) slot) slots).
  { destruct Hs as [->| ->]; [done|]. apply Forall_app. split; [done|]. by constructor. }
  apply Forall_insert; [done|]. apply Forall_app. split; [|by constructor].
  by eapply (Forall_lookup_1 _ slots).
Qed.

Lemma bucket_group_paged (P : string → Z → Prop) spec names b sc st :
  mfold (bucket_layer spec) (b, sc) names = Ok st →
  (∀ name ps, name ∈ names → layer_page_size spec name = Ok ps → P name ps) → paged P b → paged P st.1.
Proof.
  revert b sc. induction names as [|name names IH]; intros b sc H HP Hb; [by injection H as <-|].
  cbn [mfold] in H. bind_inv H as [b1 sc1] E. eapply IH; [exact H| |].
  - intros n ps Hn. apply HP. by right.
  - eapply bucket_layer_paged; [exact E| |done]. intros ps. apply HP. left.
Qed.

Lemma buckets_paged groups b : _bucket_layers_by_page_size groups = Ok b → paged (has_page groups) b.
Proof.
  unfold _bucket_layers_by_page_size. set (body := λ b g, _).
  assert (H : ∀ gs b0 b, mfold body b0 gs = Ok b → (∀ g, g ∈ gs → g ∈ groups) →
            paged (has_page groups) b0 → paged (has_page groups) b).
  { clear. intros gs. induction gs as [|g gs IH]; intros b0 b H Hsub Hb0; [by injection H as <-|].
    cbn [mfold] in H. bind_inv H as b1 E1. unfold body in E1. bind_inv E1 as st E. injection E1 as <-.
    eapply IH; [exact H|set_solver|]. eapply bucket_group_paged; [exact E| |done].
    intros name ps Hn Hps. exists g. split; [apply Hsub; left|done]. }
  intros E. eapply H; [exact E|done|constructor].
Qed.

(** ** Offsets in a packed block *)

(** The slots in the order of their tensors, with their page sizes. *)
Definition flat_slots (b : buckets) : list (Z * list string) :=
  concat ((λ p : Z * list (list string), (λ slot, (p.1, slot)) <$> p.2) <$> b).

Definition place_slot (total_size stride : Z) (st : list KVCacheTensor * Z) (p : Z * list string)
    : list KVCacheTensor * Z :=
  (st.1 ++ [mkTensor total_size p.2 st.2 stride], st.2 + p.1).

Lemma slot_tensors_flat total stride b :
  slot_tensors total stride b = foldl (place_slot total stride) ([], 0) (flat_slots b).
Proof.
  unfold slot_tensors. generalize (@nil KVCacheTensor, 0). induction b as [|[ps slots] b IH]; intros st; [done|].
  unfold flat_slots. cbn [foldl fmap list_fmap concat fst snd]. rewrite foldl_app. rewrite IH. unfold flat_slots. f_equal.
  clear IH. revert st. induction slots as [|slot slots IH]; intros [ts off]; [done|]. cbn. apply IH.
Qed.

(** Tensor [i] holds slot [i], after the pages of the slots before it. *)
Lemma place_slots_spec total stride l ts0 off0 :
  foldl (place_slot total stride) (ts0, off0) l =
  (ts0 ++ imap (λ i p, mkTensor total p.2 (off0 + sum_list (take i l.*1)) stride) l, off0 + sum_list l.*1).
Proof.
  revert ts0 off0. induction l as [|p l IH]; intros ts0 off0; cbn [foldl].
  - cbn. by rewrite app_nil_r, Z.add_0_r.
  - unfold place_slot at 2. cbn [fst snd]. rewrite IH, <-app_assoc. cbn [imap fmap list_fmap app]. f_equal.
    + f_equal. f_equal; [cbn; by rewrite Z.add_0_r|]. apply imap_ext. intros i x _. unfold compose.
      cbn [take]. f_equal. rewrite sum_list_cons. lia.
    + rewrite sum_list_cons. lia.
Qed.

Lemma flat_slots_bytes b : sum_list (flat_slots b).*1 = bytes_per_block b.
Proof.
  unfold flat_slots, bytes_per_block. induction b as [|[ps slots] b IH]; [done|]. cbn [fmap list_fmap concat fst snd].
  rewrite fmap_app, sum_list_app, IH, sum_list_cons. f_equal. clear IH.
  induction slots as [|s slots IH]; [by rewrite (zlen_nil (A:=list string)), Z.mul_0_r|].
  rewrite !fmap_cons, sum_list_cons, zlen_cons, IH. cbn [fst snd]. lia.
Qed.

Lemma flat_slots_names b : (flat_slots b).*2 = concat b.*2.
Proof.
  unfold flat_slots. induction b as [|[ps slots] b IH]; [done|]. cbn [fmap list_fmap concat fst snd].
  rewrite fmap_app. f_equal; [|exact IH]. rewrite <-list_fmap_compose. apply list_fmap_id.
Qed.

Lemma packed_config_spec v groups avail n ts :
  _get_kv_cache_config_packed v groups avail = Ok (n, ts) →
  ∃ b, _bucket_layers_by_page_size groups = Ok b ∧ bytes_per_block b ≠ 0 ∧
    n = may_override_num_blocks v (avail / bytes_per_block b) ∧
    ts = imap (λ i p, mkTensor (bytes_per_block b * n) p.2 (sum_list (take i (flat_slots b).*1)) (bytes_per_block b))
           (flat_slots b).
Proof.
  unfold _get_kv_cache_config_packed. intros H. bind_inv H as b Eb. bind_inv H as q Eq.
  unfold py_floordiv in Eq. destruct (Z.eqb_spec (bytes_per_block b) 0); [done|]. injection Eq as <-.
  injection H as <- <-. exists b. split; [done|]. split; [done|]. split; [done|].
  by rewrite slot_tensors_flat, place_slots_spec.
Qed.

(** ** Pools *)

Lemma concat_app_perm {A B} (f g : A → list B) l :
  concat ((λ a, f a ++ g a) <$> l) ≡ₚ concat (f <$> l) ++ concat (g <$> l).
Proof.
  induction l as [|a l IH]; [done|]. cbn. rewrite IH, <-!app_assoc. apply Permutation_app_head.
  rewrite !app_assoc. apply Permutation_app_tail, Permutation_app_comm.
Qed.

Lemma concat_lookup {A} (l : list A) n :
  (length l ≤ n)%nat → concat ((λ i, option_list (l !! i)) <$> seq 0 n) = l.
Proof.
  revert n. induction l as [|x l IH]; intros n Hn.
  - generalize 0%nat as j. clear Hn. induction n as [|n IH]; intros j; [done|]. cbn. by rewrite IH.
  - destruct n as [|n]; [cbn in Hn; lia|]. cbn. f_equal. rewrite <-fmap_S_seq, <-list_fmap_compose. apply IH. cbn in Hn. lia.
Qed.

Lemma pool_layers_cons g gs i :
  pool_layers (g :: gs) i = option_list (wg_layer_names g !! i) ++ pool_layers gs i.
Proof. unfold pool_layers. cbn. by destruct (wg_layer_names g !! i). Qed.

Lemma pools_perm groups n :
  Forall (λ g, length (wg_layer_names g) ≤ n)%nat groups →
  concat ((λ i, pool_layers groups i) <$> seq 0 n) ≡ₚ layers_of groups.
Proof.
  induction 1 as [|g groups Hg _ IH].
  - generalize 0%nat as j. induction n as [|n IH]; intros j; [done|]. cbn. by rewrite IH.
  - rewrite (list_fmap_ext _ (λ i, option_list (wg_layer_names g !! i) ++ pool_layers groups i))
      by (intros; apply pool_layers_cons).
    by rewrite concat_app_perm, concat_lookup, IH.
Qed.

Lemma pool_layers_elem groups i x : x ∈ pool_layers groups i → x ∈ layers_of groups.
Proof.
  intros (g & Hg & Hx)%list_elem_of_omap. rewrite list_elem_of_In, in_concat. exists (wg_layer_names g).
  rewrite <-!list_elem_of_In. split; [by apply list_elem_of_fmap_2|by eapply list_elem_of_lookup_2].
Qed.

Lemma pool_separated groups i :
  NoDup (layers_of groups) → Forall (λ g, slot_count (wg_layer_names g) (pool_layers groups i) ≤ 1)%nat groups.
Proof.
  induction groups as [|g groups IH]; intros Hnd; [done|]. cbn in Hnd. apply NoDup_app in Hnd as (_ & Hd & Hnd).
  constructor.
  - rewrite pool_layers_cons, slot_count_app.
    rewrite (slot_count_absent _ (pool_layers groups i)) by (intros x Hx%pool_layers_elem Hg; by apply (Hd x)).
    destruct (wg_layer_names g !! i); [|cbn; lia]. unfold slot_count. cbn. case_decide; cbn; lia.
  - specialize (IH Hnd). rewrite Forall_forall in IH |- *. intros g' Hg'.
    rewrite pool_layers_cons, slot_count_app, slot_count_absent; [by apply IH|].
    intros x Hx Hx'. destruct (wg_layer_names g !! i) eqn:E; [|by apply elem_of_nil in Hx].
    apply list_elem_of_singleton in Hx as ->. apply list_elem_of_lookup_2 in E. apply (Hd _ E).
    rewrite list_elem_of_In, in_concat. exists (wg_layer_names g'). rewrite <-!list_elem_of_In.
    split; [by apply list_elem_of_fmap_2|done].
Qed.

(** ** The configuration of a worker *)

(** One group with a specification per layer. *)
Definition single_uniform (groups : list WorkerGroup) : bool :=
  match groups with [g] => is_uniform_group g | _ => false end.

(** The three layouts. *)
Inductive layout (v : VllmConfig) (groups : list WorkerGroup) (avail : Z) : WorkerConfig → Prop :=
  | LayoutEmpty : groups = [] → layout v groups avail (mkWorkerConfig 1 [] [])
  | LayoutPerLayer g u page n ts :
      groups = [g] → wg_spec g = UniformType u → uniform_page_size_bytes u = Ok page → page ≠ 0 →
      n = may_override_num_blocks v (avail / page) →
      mmap (λ name, s ← get_layer (ut_specs u) name; p ← page_size_bytes s; Ok (mkTensor (p * n) [name] 0 0))
        (wg_layer_names g) = Ok ts →
      layout v groups avail (mkWorkerConfig n ts groups)
  | LayoutPacked n ts :
      groups ≠ [] → single_uniform groups = false → _use_packed_kv_cache_groups v groups = true →
      _get_kv_cache_config_packed v groups avail = Ok (n, ts) →
      layout v groups avail (mkWorkerConfig n ts groups)
  | LayoutPools size page n :
      groups ≠ [] → single_uniform groups = false → _use_packed_kv_cache_groups v groups = false →
      get_group_size groups = Ok size → 0 < size → get_uniform_page_size (wg_spec <$> groups) = Ok page →
      page ≠ 0 → n = may_override_num_blocks v (Z.max (avail / page / size) 0) →
      layout v groups avail (mkWorkerConfig n
        ((λ i, mkTensor (page * n) (pool_layers groups i) 0 0) <$> seq 0 (Z.to_nat size)) groups).

Lemma get_num_blocks_Ok v size avail page n :
  get_num_blocks v size avail page = Ok n → page ≠ 0 ∧ n = may_override_num_blocks v (Z.max (avail / page / size) 0).
Proof.
  unfold get_num_blocks, py_floordiv. destruct (Z.eqb_spec page 0); [done|]. cbn.
  destruct (Z.eqb_spec size 0); [done|]. cbn. by intros [= <-].
Qed.

Lemma config_layout v groups avail cfg :
  get_kv_cache_config_from_groups v groups avail = Ok cfg → layout v groups avail cfg.
Proof.
  intros H.
  assert (Hgen : groups ≠ [] → single_uniform groups = false →
    (if _use_packed_kv_cache_groups v groups then
        '(n, ts) ← _get_kv_cache_config_packed v groups avail; Ok (mkWorkerConfig n ts groups)
      else
        size ← get_group_size groups; page ← get_uniform_page_size (wg_spec <$> groups);
        _ ← py_assert (0 <? size); n ← get_num_blocks v size avail page;
        Ok (mkWorkerConfig n ((λ i, mkTensor (page * n) (pool_layers groups i) 0 0) <$> seq 0 (Z.to_nat size)) groups))
    = Ok cfg → layout v groups avail cfg).
  { clear H. intros Hne Hsu H. destruct (_use_packed_kv_cache_groups v groups) eqn:Hp.
    - bind_inv H as [n ts] E. injection H as <-. by apply LayoutPacked.
    - bind_inv H as size Es. bind_inv H as page Ep. bind_inv H as u Eu. bind_inv H as n En. injection H as <-.
      apply py_assert_Ok, Z.ltb_lt in Eu. apply get_num_blocks_Ok in En as [Hpage ->]. by eapply LayoutPools. }
  unfold get_kv_cache_config_from_groups in H.
  destruct groups as [|[names [s|u] eagle] [|g gs]]; try (by apply Hgen).
  - injection H as <-. by apply LayoutEmpty.
  - bind_inv H as page Ep. bind_inv H as q Eq. bind_inv H as ts Ets. injection H as <-.
    unfold py_floordiv in Eq. destruct (Z.eqb_spec page 0); [done|]. injection Eq as <-.
    by eapply LayoutPerLayer.
Qed.

Lemma group_size_bound groups size g :
  get_group_size groups = Ok size → g ∈ groups → zlen (wg_layer_names g) ≤ size.
Proof. intros [_ Hb]%py_max_Ok Hg. by apply Hb, (list_elem_of_fmap_2 (λ g, zlen (wg_layer_names g))). Qed.

Lemma per_layer_names u n names ts :
  mmap (λ name, s ← get_layer (ut_specs u) name; p ← page_size_bytes s; Ok (mkTensor (p * n) [name] 0 0)) names = Ok ts →
  shared_by <$> ts = (λ name, [name]) <$> names.
Proof.
  intros H%mmap_Ok. induction H as [|name t names ts Ht _ IH]; [done|]. cbn. rewrite IH. f_equal.
  bind_inv Ht as s Es. bind_inv Ht as p Ep. by injection Ht as <-.
Qed.

Lemma imap_shared_by (f : nat → Z * list string → Z * Z * Z) l :
  shared_by <$> imap (λ i p, mkTensor (f i p).1.1 p.2 (f i p).1.2 (f i p).2) l = l.*2.
Proof. revert f. induction l as [|p l IH]; intros f; [done|]. cbn. f_equal. apply (IH (λ i, f (S i))). Qed.

Lemma packed_names b (n T : Z) :
  shared_by <$> imap (λ i p, mkTensor (T * n) p.2 (sum_list (take i (flat_slots b).*1)) T) (flat_slots b) =
  concat b.*2.
Proof.
  rewrite <-flat_slots_names. apply (imap_shared_by (λ i _, (T * n, sum_list (take i (flat_slots b).*1), T))).
Qed.

(** Every layer is in one tensor. *)
Lemma layout_layers v groups avail cfg :
  layout v groups avail cfg → concat (shared_by <$> wc_tensors cfg) ≡ₚ layers_of groups ∧ wc_groups cfg = groups.
Proof.
  destruct 1 as [->|g u page n ts -> Hu Hpage Hne Hn Hts|n ts Hne Hsu Hp Hpk|size page n Hne Hsu Hp Hs Hpos Hpg Hpne Hn];
    cbn [wc_tensors wc_groups]; split; try done.
  - rewrite (per_layer_names _ _ _ _ Hts). cbn. rewrite app_nil_r. clear.
    induction (wg_layer_names g) as [|x l IH]; [done|]. cbn. by rewrite IH.
  - apply packed_config_spec in Hpk as (b & Hb & _ & _ & ->). rewrite packed_names. by apply buckets_perm.
  - rewrite <-list_fmap_compose. apply pools_perm. apply Forall_forall. intros g Hg.
    pose proof (group_size_bound _ _ _ Hs Hg). unfold zlen in *. lia.
Qed.

(** The bucket a slot of the flat list comes from. *)
Lemma flat_slots_elem b ps slot : NoDup b.*1 → (ps, slot) ∈ flat_slots b → ∃ i, slot_of b ps i slot.
Proof.
  intros Hnd Hin. unfold flat_slots in Hin. rewrite list_elem_of_In, in_concat in Hin.
  destruct Hin as (l & Hl & Hin). apply list_elem_of_In in Hl, Hin.
  apply list_elem_of_fmap in Hl as ([k slots] & -> & Hk). apply list_elem_of_fmap in Hin as (s & [= -> ->] & Hs).
  apply list_elem_of_lookup_1 in Hs as [i Hi]. exists i, slots. split; [|done]. by apply od_get_elem.
Qed.

Lemma buckets_nodup groups b : _bucket_layers_by_page_size groups = Ok b → NoDup b.*1.
Proof.
  unfold _bucket_layers_by_page_size. apply (mfold_inv (λ b, NoDup b.*1)); [|constructor].
  intros b0 g b1 _ Hb0 H. bind_inv H as st E. injection H as <-.
  apply (mfold_inv (λ st : buckets * list (Z * nat), NoDup st.1.*1)) in E; [done| |done].
  intros [b2 sc] name [b3 sc'] _ Hnd (ps & slots & slot & _ & _ & _ & -> & _)%bucket_layer_spec.
  by apply od_set_nodup.
Qed.

(** No tensor is shared by two layers of one group. *)
Lemma layout_separated v groups avail cfg :
  layout v groups avail cfg → NoDup (layers_of groups) →
  ∀ t g, t ∈ wc_tensors cfg → g ∈ groups → (slot_count (wg_layer_names g) (shared_by t) ≤ 1)%nat.
Proof.
  intros Hlay Hnd t g Ht Hg.
  destruct Hlay as [->|g' u page n ts -> Hu Hpage Hne Hn Hts|n ts Hne Hsu Hp Hpk|size page n Hne Hsu Hp Hs Hpos Hpg Hpne Hn];
    cbn [wc_tensors] in Ht.
  - by apply elem_of_nil in Ht.
  - assert (Hsb : shared_by t ∈ shared_by <$> ts) by (by apply list_elem_of_fmap_2).
    rewrite (per_layer_names _ _ _ _ Hts) in Hsb. apply list_elem_of_fmap in Hsb as (x & -> & _).
    unfold slot_count. cbn. case_decide; cbn; lia.
  - apply packed_config_spec in Hpk as (b & Hb & _ & _ & ->).
    apply list_elem_of_lookup_1 in Ht as [i Hi]. rewrite list_lookup_imap in Hi.
    destruct (flat_slots b !! i) as [[ps slot]|] eqn:Es; [|done]. cbn in Hi. injection Hi as <-. cbn.
    apply list_elem_of_lookup_2, flat_slots_elem in Es as [j Hj]; [|by eapply buckets_nodup].
    pose proof (buckets_separated _ _ Hb Hnd) as Hsep. rewrite Forall_forall in Hsep. by eapply (Hsep g Hg).
  - apply list_elem_of_fmap in Ht as (i & -> & _). cbn.
    pose proof (pool_separated groups i Hnd) as Hsep. rewrite Forall_forall in Hsep. by apply Hsep.
Qed.

(** The layout of a worker's KV cache is safe: every layer is in exactly one
    tensor, and the layers that share a tensor belong to different groups, whose
    block tables never give them the same block. *)
Theorem layout_safe v groups avail cfg :
  NoDup (layers_of groups) → get_kv_cache_config_from_groups v groups avail = Ok cfg →
  concat (shared_by <$> wc_tensors cfg) ≡ₚ layers_of groups ∧
  ∀ t g x y, t ∈ wc_tensors cfg → g ∈ groups → x ∈ shared_by t → y ∈ shared_by t →
    x ∈ wg_layer_names g → y ∈ wg_layer_names g → x = y.
Proof.
  intros Hnd Hcfg%config_layout. split; [by apply layout_layers in Hcfg as [? _]|].
  intros t g x y Ht Hg Hx Hy Hxg Hyg. pose proof (layout_separated _ _ _ _ Hcfg Hnd t g Ht Hg) as Hc.
  unfold slot_count in Hc.
  assert (Hx' : x ∈ filter (λ x, x ∈ wg_layer_names g) (shared_by t)) by (by apply list_elem_of_filter).
  assert (Hy' : y ∈ filter (λ x, x ∈ wg_layer_names g) (shared_by t)) by (by apply list_elem_of_filter).
  destruct (filter _ _) as [|z [|? ?]]; cbn in Hc; [by apply elem_of_nil in Hx'| |lia].
  by apply list_elem_of_singleton in Hx' as ->, Hy' as ->.
Qed.

Lemma layout_safe_witness :
  ∃ cfg, get_kv_cache_config_from_groups demo_vllm demo_groups 5120 = Ok cfg ∧
    shared_by <$> wc_tensors cfg = [["full.0"; "sw.0"]]%string ∧
    concat (shared_by <$> wc_tensors cfg) ≡ₚ layers_of demo_groups ∧
    ∀ t g x y, t ∈ wc_tensors cfg → g ∈ demo_groups → x ∈ shared_by t → y ∈ shared_by t →
      x ∈ wg_layer_names g → y ∈ wg_layer_names g → x = y.
Proof.
  eexists. split; [vm_compute; reflexivity|]. split; [reflexivity|].
  apply (layout_safe demo_vllm demo_groups 5120); [|vm_compute; reflexivity].
  apply (bool_decide_unpack _). by vm_compute.
Defined.

(** ** The bytes of a packed block *)

Lemma od_get_snd {V} (d : list (string * V)) k x : od_get d k = Some x → x ∈ d.*2.
Proof.
  induction d as [|[k' v] d IH]; [done|]. cbn. case_decide; [intros [= ->]; left|]. intros Hd. right. auto.
Qed.

Lemma has_page_pos groups name p : groups_ok groups → has_page groups name p → 0 < p.
Proof.
  intros Hok (g & Hg & _ & Hp). pose proof (proj1 (Forall_forall _ _) Hok _ Hg) as Hl. cbn beta in Hl.
  destruct (wg_spec g) as [s|u]; cbn in Hp, Hl.
  - inversion Hl; subst. by destruct (layer_ok_page s p).
  - bind_inv Hp as s Es. unfold get_layer in Es. destruct (od_get (ut_specs u) name) as [s'|] eqn:E; [|done].
    injection Es as ->. apply od_get_snd in E. pose proof (proj1 (Forall_forall _ _) Hl _ E) as Hs. cbn beta in Hs.
    by destruct (layer_ok_page s p).
Qed.

(** Byte [x] of the backing memory belongs to block [k] of a slot with pages of
    [p] bytes. *)
Definition in_block (t : KVCacheTensor) (p k x : Z) : Prop :=
  k * block_stride t + tensor_offset t ≤ x < k * block_stride t + tensor_offset t + p.

Lemma pos_nonneg (l : list Z) : Forall (λ x, 0 < x) l → Forall (λ x, 0 ≤ x) l.
Proof. intros H. eapply Forall_impl; [exact H|]. cbn. lia. Qed.

Lemma take_sum_le (l : list Z) i j p :
  Forall (λ x, 0 < x) l → (i < j)%nat → l !! i = Some p → sum_list (take i l) + p ≤ sum_list (take j l).
Proof.
  intros Hl. revert i j. induction Hl as [|x l Hx Hl IH]; intros i j Hij Hi; [done|].
  destruct j as [|j]; [lia|]. cbn [take]. rewrite sum_list_cons. destruct i as [|i].
  - injection Hi as ->. cbn [take]. change (sum_list []) with 0.
    assert (0 ≤ sum_list (take j l)); [|lia]. apply sum_list_nonneg, Forall_take. by apply pos_nonneg.
  - cbn [take]. rewrite sum_list_cons. specialize (IH i j ltac:(lia) Hi). lia.
Qed.

Lemma flat_slots_paged P b : paged P b → Forall (λ p, (∃ name, P name p.1) ∧ Forall (λ name, P name p.1) p.2) (flat_slots b).
Proof.
  unfold flat_slots. induction 1 as [|[ps slots] b [Hn Hs] _ IH]; [constructor|]. cbn. apply Forall_app. split; [|exact IH].
  apply Forall_fmap. eapply Forall_impl; [exact Hs|]. intros slot Hslot. by split.
Qed.

(** In the packed layout no two slots overlap: a byte of the backing memory
    belongs to at most one slot of one block, the slot's layers have its page
    size, and every byte of a block is inside the tensor. *)
Theorem packed_slots_disjoint v groups avail n ts :
  groups_ok groups → _get_kv_cache_config_packed v groups avail = Ok (n, ts) →
  ∃ pages, length pages = length ts ∧
    (∀ i t p name, ts !! i = Some t → pages !! i = Some p → name ∈ shared_by t → has_page groups name p) ∧
    (∀ i j t t' p p' k k' x, ts !! i = Some t → pages !! i = Some p → ts !! j = Some t' → pages !! j = Some p' →
       in_block t p k x → in_block t' p' k' x → i = j ∧ k = k') ∧
    (∀ i t p k x, ts !! i = Some t → pages !! i = Some p → 0 ≤ k < n → in_block t p k x → 0 ≤ x < tensor_size t).
Proof.
  intros Hok (b & Hb & HT & _ & ->)%packed_config_spec. set (T := bytes_per_block b) in *.
  pose proof (flat_slots_paged _ _ (buckets_paged _ _ Hb)) as Hpaged.
  assert (Hpos : Forall (λ x, 0 < x) (flat_slots b).*1).
  { apply Forall_fmap. eapply Forall_impl; [exact Hpaged|]. intros p [[name Hn] _]. by eapply has_page_pos. }
  pose proof (flat_slots_bytes b) as Hsum. fold T in Hsum.
  assert (Hoff : ∀ i p, (flat_slots b).*1 !! i = Some p →
            0 ≤ sum_list (take i (flat_slots b).*1) ∧ sum_list (take i (flat_slots b).*1) + p ≤ T ∧ 0 < p).
  { intros i p Hi. split; [|split].
    - apply sum_list_nonneg, Forall_take. by apply pos_nonneg.
    - rewrite <-Hsum. rewrite <-(take_ge (flat_slots b).*1 (length (flat_slots b).*1)) at 2 by lia.
      apply take_sum_le; [done| |done]. by eapply lookup_lt_Some.
    - by eapply (Forall_lookup_1 _ _ _ _ Hpos). }
  exists (flat_slots b).*1. rewrite length_fmap, length_imap. split; [done|].
  assert (Hts : ∀ i t, imap (λ i p, mkTensor (T * n) p.2 (sum_list (take i (flat_slots b).*1)) T) (flat_slots b) !! i = Some t →
            ∃ p, flat_slots b !! i = Some p ∧ t = mkTensor (T * n) p.2 (sum_list (take i (flat_slots b).*1)) T).
  { intros i t. rewrite list_lookup_imap. destruct (flat_slots b !! i) as [p|]; [|done]. intros [= <-]. by exists p. }
  split; [|split].
  - intros i t p name (q & Hq & ->)%Hts Hp Hn. rewrite list_lookup_fmap, Hq in Hp. injection Hp as <-. cbn in Hn.
    pose proof (Forall_lookup_1 _ _ _ _ Hpaged Hq) as [_ Hall]. by apply (proj1 (Forall_forall _ _) Hall).
  - intros i j t t' p p' k k' x (q & Hq & ->)%Hts Hp (q' & Hq' & ->)%Hts Hp'. unfold in_block. cbn. intros H1 H2.
    pose proof (Hoff i p Hp). pose proof (Hoff j p' Hp'). assert (Hk : k = k') by nia. subst k'. split; [|done].
    destruct (Nat.lt_trichotomy i j) as [Hij|[->|Hij]]; [|done|]; exfalso.
    + pose proof (take_sum_le _ i j p Hpos Hij Hp). lia.
    + pose proof (take_sum_le _ j i p' Hpos Hij Hp'). lia.
  - intros i t p k x (q & Hq & ->)%Hts Hp Hk. unfold in_block. cbn. pose proof (Hoff i p Hp). nia.
Qed.

(** A page of 256 bytes in two groups and one of 512 in one of them. *)
Definition demo_packed_groups : list WorkerGroup :=
  let big := FullAttentionSpec (mkAttn 16 2 4 (mkDtype "bfloat16" 2) QNone None false) (mkFull 4 None None false) in
  [mkWorkerGroup ["a"; "b"]%string (UniformType (mkUniform 16 [("a"%string, demo_full); ("b"%string, big)])) false;
   mkWorkerGroup ["c"]%string (UniformType (mkUniform 16 [("c"%string, demo_sw)])) false].

Lemma packed_slots_disjoint_witness :
  ∃ n ts, _get_kv_cache_config_packed demo_vllm demo_packed_groups 5000 = Ok (n, ts) ∧ n = 6 ∧
    shared_by <$> ts = [["a"; "c"]; ["b"]]%string ∧
    ∃ pages, length pages = length ts ∧
      (∀ i t p name, ts !! i = Some t → pages !! i = Some p → name ∈ shared_by t →
         has_page demo_packed_groups name p) ∧
      (∀ i j t t' p p' k k' x, ts !! i = Some t → pages !! i = Some p → ts !! j = Some t' → pages !! j = Some p' →
         in_block t p k x → in_block t' p' k' x → i = j ∧ k = k') ∧
      (∀ i t p k x, ts !! i = Some t → pages !! i = Some p → 0 ≤ k < n → in_block t p k x → 0 ≤ x < tensor_size t).
Proof.
  do 2 eexists. split; [vm_compute; reflexivity|]. split; [reflexivity|]. split; [reflexivity|].
  apply (packed_slots_disjoint demo_vllm demo_packed_groups 5000); [|vm_compute; reflexivity].
  repeat constructor.
Defined.

(** ** Memory *)

(** The bytes the tensors take: those of a packed layout share their memory. *)
Definition footprint (ts : list KVCacheTensor) : Z :=
  match ts with
  | [] => 0
  | t :: _ => if block_stride t =? 0 then sum_list (tensor_size <$> ts) else tensor_size t
  end.

(** A group with one specification per layer has those of its layers. *)
Definition own_specs (g : WorkerGroup) : Prop :=
  match wg_spec g with
  | Plain _ => True
  | UniformType u => (ut_specs u).*1 = wg_layer_names g ∧ NoDup (ut_specs u).*1
  end.

Lemma per_layer_tensors d l n ps ts :
  (∀ p, p ∈ l → get_layer d p.1 = Ok p.2) → mmap page_size_bytes l.*2 = Ok ps →
  mmap (λ name, s ← get_layer d name; p ← page_size_bytes s; Ok (mkTensor (p * n) [name] 0 0)) l.*1 = Ok ts →
  sum_list (tensor_size <$> ts) = sum_list ps * n ∧ Forall (λ t, block_stride t = 0) ts.
Proof.
  revert ps ts. induction l as [|[name s] l IH]; intros ps ts Hget Hps Hts.
  - injection Hps as <-. injection Hts as <-. done.
  - cbn [fmap list_fmap mmap fst snd] in Hps, Hts. pose proof (Hget (name, s) ltac:(left)) as Hg. cbn in Hg. rewrite Hg in Hts.
    bind_inv Hps as p Ep. bind_inv Hps as ps' Eps. injection Hps as <-. cbn [mbind result_bind snd] in Hts.
    rewrite Ep in Hts. cbn [mbind result_bind] in Hts. bind_inv Hts as ts' Ets. injection Hts as <-.
    destruct (IH ps' ts') as [IH1 IH2]; [intros q Hq; apply Hget; by right|done|done|].
    split; [|by constructor]. rewrite fmap_cons, !sum_list_cons, IH1. cbn. lia.
Qed.

Lemma footprint_unpacked ts : Forall (λ t, block_stride t = 0) ts → footprint ts = sum_list (tensor_size <$> ts).
Proof. destruct 1 as [|t ts Ht _]; [done|]. cbn [footprint]. by rewrite Ht. Qed.

Lemma sum_pools page n size groups :
  sum_list (tensor_size <$> ((λ i, mkTensor (page * n) (pool_layers groups i) 0 0) <$> seq 0 size)) =
  page * Z.of_nat size * n.
Proof.
  generalize 0%nat as j. induction size as [|size IH]; intros j; [cbn; lia|].
  cbn [seq]. rewrite !fmap_cons, sum_list_cons, IH. cbn. lia.
Qed.

Lemma pool_bytes_general v groups :
  single_uniform groups = false →
  _pool_bytes_per_block v groups =
    (if _use_packed_kv_cache_groups v groups then
       b ← _bucket_layers_by_page_size groups; Ok (bytes_per_block b)
     else
       group_size ← get_group_size groups; page_size ← get_uniform_page_size (wg_spec <$> groups);
       Ok (page_size * group_size)).
Proof. by destruct groups as [|[? [?|?] ?] [|? ?]]. Qed.

Lemma pool_bytes_single v g u :
  wg_spec g = UniformType u → _pool_bytes_per_block v [g] = uniform_page_size_bytes u.
Proof. destruct g. cbn. by intros ->. Qed.

Lemma buckets_bytes_nonneg groups b :
  groups_ok groups → _bucket_layers_by_page_size groups = Ok b → 0 ≤ bytes_per_block b.
Proof.
  intros Hok Hb. rewrite <-flat_slots_bytes. apply sum_list_nonneg, pos_nonneg, Forall_fmap.
  eapply Forall_impl; [exact (flat_slots_paged _ _ (buckets_paged _ _ Hb))|].
  intros p [[name Hn] _]. by eapply has_page_pos.
Qed.

(** The number of blocks is the memory over [_pool_bytes_per_block]. *)
Lemma layout_blocks v groups avail cfg :
  groups ≠ [] → groups_ok groups → layout v groups avail cfg →
  ∃ per, _pool_bytes_per_block v groups = Ok per ∧ 0 < per ∧
    wc_num_blocks cfg = may_override_num_blocks v
      (if _use_packed_kv_cache_groups v groups then avail / per else Z.max (avail / per) 0).
Proof.
  intros Hgne Hok Hlay.
  destruct Hlay as [->|g u page n ts -> Hu Hpage Hne Hn Hts|n ts Hne Hsu Hp Hpk|size page n Hne Hsu Hp Hs Hpos Hpg Hpne Hn];
    cbn [wc_num_blocks]; [done| | |].
  - exists page. rewrite (pool_bytes_single v g u Hu). split; [done|]. inversion Hok as [|? ? Hl _]; subst.
    rewrite Hu in Hl. pose proof (gspec_page_nonneg (UniformType u) page Hl Hpage). split; [lia|].
    unfold _use_packed_kv_cache_groups, is_uniform_group. cbn. by rewrite Hu.
  - apply packed_config_spec in Hpk as (b & Hb & HT & -> & _). exists (bytes_per_block b).
    rewrite pool_bytes_general, Hp, Hb by done. split; [done|].
    pose proof (buckets_bytes_nonneg _ _ Hok Hb). split; [lia|done].
  - exists (page * size). rewrite pool_bytes_general, Hp, Hs by done. cbn [mbind result_bind]. rewrite Hpg.
    split; [done|]. pose proof (uniform_page_nonneg _ _ Hok Hpg). split; [nia|]. subst n. by rewrite Z.div_div by lia.
Qed.

(** The memory of a layout is its number of blocks times [_pool_bytes_per_block]. *)
Lemma layout_footprint v groups avail cfg per :
  groups ≠ [] → (single_uniform groups = true → Forall own_specs groups) → layout v groups avail cfg →
  _pool_bytes_per_block v groups = Ok per → footprint (wc_tensors cfg) = per * wc_num_blocks cfg.
Proof.
  intros Hgne Hown Hlay Hper.
  destruct Hlay as [->|g u page n ts -> Hu Hpage Hne Hn Hts|n ts Hne Hsu Hp Hpk|size page n Hne Hsu Hp Hs Hpos Hpg Hpne Hn];
    cbn [wc_tensors wc_num_blocks]; [done| | |].
  - assert (Hg : own_specs g).
    { specialize (Hown ltac:(unfold single_uniform, is_uniform_group; by rewrite Hu)). by inversion Hown. }
    unfold own_specs in Hg. rewrite Hu in Hg. destruct Hg as [Hg1 Hg2].
    rewrite (pool_bytes_single v g u Hu), Hpage in Hper. injection Hper as <-.
    unfold uniform_page_size_bytes, uniform_page_sizes in Hpage. bind_inv Hpage as ps Eps. injection Hpage as <-.
    rewrite <-Hg1 in Hts.
    eapply per_layer_tensors in Hts as [Hsum Hst]; [|intros [name s] Hin; by apply get_layer_Ok|exact Eps].
    by rewrite footprint_unpacked, Hsum by done.
  - apply packed_config_spec in Hpk as (b & Hb & HT & _ & ->).
    rewrite pool_bytes_general, Hp, Hb in Hper by done. injection Hper as <-.
    pose proof (flat_slots_bytes b) as Hsum. destruct (flat_slots b) as [|p l]; [done|]. cbn.
    by rewrite (proj2 (Z.eqb_neq _ _)).
  - rewrite pool_bytes_general, Hp, Hs in Hper by done. cbn [mbind result_bind] in Hper. rewrite Hpg in Hper.
    injection Hper as <-. rewrite footprint_unpacked by (apply Forall_fmap, Forall_true; done). rewrite sum_pools. lia.
Qed.

(** The KV cache of a worker fits in its memory and uses all of it that whole
    blocks can use: the tensors take [_pool_bytes_per_block] bytes per block, and
    without an override the number of blocks is the largest that fits. *)
Theorem layout_uses_memory v groups avail cfg :
  groups ≠ [] → groups_ok groups → Forall own_specs groups → 0 ≤ avail →
  get_kv_cache_config_from_groups v groups avail = Ok cfg →
  ∃ per, _pool_bytes_per_block v groups = Ok per ∧ 0 < per ∧
    footprint (wc_tensors cfg) = per * wc_num_blocks cfg ∧
    match num_gpu_blocks_override v with
    | Some n => wc_num_blocks cfg = n
    | None => per * wc_num_blocks cfg ≤ avail < per * (wc_num_blocks cfg + 1)
    end.
Proof.
  intros Hne Hok Hown Havail Hcfg%config_layout.
  destruct (layout_blocks _ _ _ _ Hne Hok Hcfg) as (per & Hper & Hpos & Hn).
  pose proof (layout_footprint _ _ _ _ _ Hne (λ _, Hown) Hcfg Hper) as Hfoot. exists per. split; [done|]. split; [done|]. split; [done|]. unfold may_override_num_blocks in Hn.
  destruct (num_gpu_blocks_override v) as [o|]; cbn in Hn; [done|].
  assert (wc_num_blocks cfg = avail / per) as ->.
  { rewrite Hn. case_match; [done|]. apply Z.max_l. by apply Z.div_pos. }
  pose proof (Z.div_mod avail per ltac:(lia)). pose proof (Z.mod_pos_bound avail per Hpos). lia.
Qed.

Lemma layout_uses_memory_witness :
  ∃ cfg, get_kv_cache_config_from_groups demo_vllm demo_groups 5000 = Ok cfg ∧ wc_num_blocks cfg = 19 ∧
    ∃ per, _pool_bytes_per_block demo_vllm demo_groups = Ok per ∧ 0 < per ∧
      footprint (wc_tensors cfg) = per * wc_num_blocks cfg ∧
      per * wc_num_blocks cfg ≤ 5000 < per * (wc_num_blocks cfg + 1).
Proof.
  eexists. split; [vm_compute; reflexivity|]. split; [reflexivity|].
  apply (layout_uses_memory demo_vllm demo_groups 5000); [done| | |lia|vm_compute; reflexivity]; repeat constructor.
Defined.
