(* ===== verification/PlanTheorems.v ===== *)
(** * The plan for all workers

    [KVPlan.get_kv_cache_configs], which plans the KV cache of every worker: the
    workers agree on the number of blocks of the smallest one, each stays within its
    memory (unless the number is overridden) and has
    each of its layers in one tensor, and the blocks are enough for a request of
    the maximum length.  The sizes the scheduler derives divide each other. *)

From S2P Require Import Prelude MathUtils OrderedDict KVSpecs KVMerge KVPlan PlanSearch PlanGroups PlanCover PlanLayout.

#[local] Open Scope Z_scope.

(** ** The layers of all workers *)

Lemma merge_workers_spec specs merged :
  merge_worker_specs specs = Ok merged →
  NoDup merged.*1 ∧ ∀ d name, d ∈ specs → name ∈ d.*1 → name ∈ merged.*1.
Proof.
  unfold merge_worker_specs. set (body := λ merged p, _). intros H.
  assert (Hkeys : ∀ l acc m, mfold body acc l = Ok m → NoDup acc.*1 →
            NoDup m.*1 ∧ (∀ x, x ∈ acc.*1 ∨ x ∈ l.*1 → x ∈ m.*1)).
  { clear. intros l. induction l as [|[name s] l IH]; intros acc m H Hnd.
    - injection H as <-. split; [done|]. intros x [Hx|Hx]; [done|by apply elem_of_nil in Hx].
    - cbn [mfold] in H. bind_inv H as acc' E. unfold body in E. destruct (od_get acc name) as [s'|] eqn:Eg.
      + bind_inv E as u Eu. injection E as <-. destruct (IH _ _ H Hnd) as [H1 H2]. split; [done|].
        intros x Hx. apply H2. rewrite fmap_cons, elem_of_cons in Hx. destruct Hx as [Hx|[->|Hx]]; auto.
        left. destruct (decide (name ∈ acc.*1)) as [Hin|Hin]; [done|]. apply od_get_None in Hin. cbn in Hin. congruence.
      + injection E as <-. apply od_get_None in Eg. destruct (IH _ _ H) as [H1 H2]; [by apply od_set_nodup|].
        split; [done|]. intros x Hx. apply H2. rewrite od_set_fresh, fmap_app by done. set_solver. }
  destruct (Hkeys _ _ _ H) as [H1 H2]; [constructor|]. split; [done|]. intros d name Hd Hn. apply H2. right.
  apply list_elem_of_fmap in Hn as (p & -> & Hp). apply list_elem_of_fmap_2.
  rewrite list_elem_of_In, in_concat. exists d. by rewrite <-!list_elem_of_In.
Qed.

(** ** Groups on a worker *)

Lemma project_group_spec d g g' :
  project_group d g = Ok g' →
  wg_layer_names g' = filter (λ x, x ∈ d.*1) (wg_layer_names g) ∧
  match wg_spec g with
  | Plain s => wg_spec g' = Plain s
  | UniformType u =>
      ∃ u', wg_spec g' = UniformType u' ∧
        if decide (wg_layer_names g' = []) then u' = u
        else ut_block_size u' = ut_block_size u ∧
             mmap (λ name, s ← get_layer (ut_specs u) name; Ok (name, s)) (wg_layer_names g') = Ok (ut_specs u')
  end.
Proof.
  unfold project_group. intros H. bind_inv H as spec E. injection H as <-. cbn. split; [done|].
  destruct (wg_spec g) as [s|u]; [by injection E as <-|].
  case_bool_decide as Hn; cbn in E.
  - injection E as <-. exists u. split; [done|]. by rewrite decide_True.
  - bind_inv E as specs Es. injection E as <-. eexists. split; [done|]. rewrite decide_False by done. done.
Qed.

Lemma project_layers global d gs :
  _project_kv_cache_groups_to_worker global d = Ok gs → layers_of gs = filter (λ x, x ∈ d.*1) (layers_of global).
Proof.
  intros H%mmap_Ok. induction H as [|g g' gl gs Hg _ IH]; [done|]. cbn. rewrite filter_app, IH. f_equal.
  by apply project_group_spec in Hg as [-> _].
Qed.

(** What planning keeps of the groups on a worker. *)
Lemma project_ok global d gs :
  groups_ok global → _project_kv_cache_groups_to_worker global d = Ok gs → groups_ok gs.
Proof.
  intros Hok H%mmap_Ok. induction H as [|g g' gl gs Hg _ IH]; [constructor|]. inversion Hok as [|? ? Hl Hrest]; subst.
  constructor; [|by apply IH]. apply project_group_spec in Hg as [_ Hg].
  destruct (wg_spec g) as [s|u]; [by rewrite Hg|]. destruct Hg as (u' & -> & Hg). cbn in *.
  case_decide; [by subst|]. destruct Hg as [_ Hm%mmap_Ok]. clear -Hl Hm.
  induction Hm as [|name p names ps Hp _ IH]; constructor; [|done].
  bind_inv Hp as s Es. injection Hp as <-. cbn. unfold get_layer in Es.
  destruct (od_get (ut_specs u) name) as [s'|] eqn:E; [|done]. injection Es as ->.
  apply od_get_snd in E. by apply (proj1 (Forall_forall _ _) Hl).
Qed.

Lemma project_own global d gs :
  Forall wf_group global → NoDup (layers_of global) → _project_kv_cache_groups_to_worker global d = Ok gs →
  Forall (λ g, wg_layer_names g = [] ∨ own_specs g) gs.
Proof.
  intros Hwf Hnd H%mmap_Ok. induction H as [|g g' gl gs Hg _ IH]; [constructor|].
  inversion Hwf as [|? ? Hw Hrest]; subst. cbn in Hnd. apply NoDup_app in Hnd as (Hnd1 & _ & Hnd2).
  constructor; [|by apply IH]. apply project_group_spec in Hg as [Hnames Hg]. unfold own_specs.
  destruct (wg_spec g) as [s|u]; [rewrite Hg; by right|]. destruct Hg as (u' & -> & Hg).
  case_decide; [by left|]. right. destruct Hg as [_ Hm]. apply get_layers_keys in Hm. split; [done|].
  rewrite Hm, Hnames. by apply NoDup_filter.
Qed.

(** A worker's groups hold exactly its layers when their numbers agree. *)
Lemma worker_layers global d gs :
  NoDup (layers_of global) → NoDup d.*1 → _project_kv_cache_groups_to_worker global d = Ok gs →
  sum_list ((λ g, zlen (wg_layer_names g)) <$> gs) = zlen d → layers_of gs ≡ₚ d.*1 ∧ NoDup (layers_of gs).
Proof.
  intros Hnd Hd Hp Hsum. apply project_layers in Hp as Hl.
  assert (Hnd' : NoDup (layers_of gs)) by (rewrite Hl; by apply NoDup_filter).
  split; [|done]. apply submseteq_length_Permutation.
  - apply NoDup_submseteq; [done|]. intros x. rewrite Hl, list_elem_of_filter. tauto.
  - assert (zlen (layers_of gs) = zlen d) as Hz.
    { rewrite <-Hsum. clear. induction gs as [|g gs IH]; [done|]. cbn [fmap list_fmap concat].
      rewrite zlen_app, sum_list_cons. f_equal. exact IH. }
    rewrite length_fmap. unfold zlen in Hz. lia.
Qed.

(** ** A successful run *)

(** The values a run goes through. *)
Record plan_run (v : VllmConfig) (specs : list spec_dict) (mem : list Z) (v' : VllmConfig) (cfgs : list WorkerConfig)
    (global : list WorkerGroup) (mem' : list Z) (n : Z) : Prop := {
  run_merged : ∃ merged, merge_worker_specs specs = Ok merged ∧ get_kv_cache_groups v merged = Ok global;
  run_config : ∃ c, v' = set_spec_cfg c v;
  run_memory : match num_gpu_blocks_override v with
               | None => mem' = mem
               | Some o => ∃ projected, mmap (_project_kv_cache_groups_to_worker global) specs = Ok projected ∧
                             adjust_memory v o (zip projected mem) = Ok mem'
               end;
  run_workers : ∀ i cfg, cfgs !! i = Some cfg →
    ∃ d gs m cfg0, specs !! i = Some d ∧ mem' !! i = Some m ∧
      _project_kv_cache_groups_to_worker global d = Ok gs ∧ check_worker (spec_cfg v') (gs, m) = Ok tt ∧
      worker_config v' (gs, d, m) = Ok cfg0 ∧ n ≤ wc_num_blocks cfg0 ∧ shrink_config (spec_cfg v') n cfg0 = Ok cfg;
  run_length : length mem = length specs → length cfgs = length specs;
  run_nonempty : cfgs ≠ [];
  run_min : ∃ i cfg d gs m cfg0, cfgs !! i = Some cfg ∧ specs !! i = Some d ∧ mem' !! i = Some m ∧
      _project_kv_cache_groups_to_worker global d = Ok gs ∧ check_worker (spec_cfg v') (gs, m) = Ok tt ∧
      worker_config v' (gs, d, m) = Ok cfg0 ∧ wc_num_blocks cfg0 = n ∧ shrink_config (spec_cfg v') n cfg0 = Ok cfg;
}.

Lemma adjust_memory_length v o workers mem' : adjust_memory v o workers = Ok mem' → length mem' = length workers.
Proof. apply mmap_length. Qed.

Lemma plan_run_Ok v specs mem v' cfgs :
  get_kv_cache_configs v specs mem = Ok (v', cfgs) → ∃ global mem' n, plan_run v specs mem v' cfgs global mem' n.
Proof.
  unfold get_kv_cache_configs. intros H. bind_inv H as merged Em. bind_inv H as u1 E1. bind_inv H as global Eg.
  bind_inv H as projected Ep. bind_inv H as mem' Emem. bind_inv H as c Ec. cbn zeta in H. bind_inv H as us Echk.
  bind_inv H as cfgs0 E0. bind_inv H as n En. bind_inv H as cfgs' Es. injection H as <- <-.
  assert (Hlm : length mem = length specs → length mem' = length specs).
  { intros Hl. pose proof (mmap_length _ _ _ Ep). destruct (num_gpu_blocks_override v).
    - apply adjust_memory_length in Emem. rewrite length_zip_with in Emem. lia.
    - by injection Emem as <-. }
  pose proof (mmap_length _ _ _ Ep) as Hlp. pose proof (mmap_length _ _ _ E0) as Hl0.
  pose proof (mmap_length _ _ _ Es) as Hls. rewrite !length_zip_with in Hl0.
  apply mmap_Ok in Echk, E0, Es. pose proof Ep as Ep'. apply mmap_Ok in Ep'.
  assert (Hworker : ∀ i cfg0, cfgs0 !! i = Some cfg0 → ∃ d gs m, specs !! i = Some d ∧ mem' !! i = Some m ∧
    _project_kv_cache_groups_to_worker global d = Ok gs ∧ check_worker c (gs, m) = Ok tt ∧
    worker_config (set_spec_cfg c v) (gs, d, m) = Ok cfg0).
  { intros i cfg0 H0. destruct (Forall2_lookup_r _ _ _ _ _ E0 H0) as ([[gs d] m] & Hw & Hwc).
    apply lookup_zip_with_Some in Hw as ([gs' d'] & m' & [= <- <- <-] & Hgd & Hm).
    apply lookup_zip_with_Some in Hgd as (? & ? & [= <- <-] & Hgs & Hd).
    destruct (Forall2_lookup_r _ _ _ _ _ Ep' Hgs) as (d' & Hd' & Hproj). rewrite Hd in Hd'. injection Hd' as <-.
    exists d, gs, m. split; [done|]. split; [done|]. split; [done|]. split; [|done].
    assert (Hz : zip projected mem' !! i = Some (gs, m)) by (apply lookup_zip_with_Some; by eexists _, _).
    by destruct (Forall2_lookup_l _ _ _ _ _ Echk Hz) as ([] & _ & Hc). }
  exists global, mem', n. split.
  - by exists merged.
  - by exists c.
  - destruct (num_gpu_blocks_override v); [by exists projected|by injection Emem as <-].
  - intros i cfg Hcfg. destruct (Forall2_lookup_r _ _ _ _ _ Es Hcfg) as (cfg0 & H0 & Hsh).
    destruct (Hworker i cfg0 H0) as (d & gs & m & Hd & Hm & Hp & Hc & Hw). exists d, gs, m, cfg0.
    split; [done|]. split; [done|]. split; [done|]. split; [done|]. split; [done|]. split; [|done].
    apply (py_min_Ok _ _ En). apply list_elem_of_fmap_2. by eapply list_elem_of_lookup_2.
  - intros Hl. specialize (Hlm Hl). lia.
  - intros ->. destruct cfgs0; [done|]. by inversion Es.
  - apply py_min_Ok in En as [Hin _]. apply list_elem_of_fmap in Hin as (cfg0 & Hn & Hin).
    apply list_elem_of_lookup_1 in Hin as [i Hi].
    destruct (Hworker i cfg0 Hi) as (d & gs & m & Hd & Hm & Hp & Hc & Hw).
    destruct (Forall2_lookup_l _ _ _ _ _ Es Hi) as (cfg & Hcfg & Hsh). by exists i, cfg, d, gs, m, cfg0.
Qed.

(** ** Shrinking to the smallest worker *)

Lemma shrink_spec c n cfg cfg' :
  shrink_config c n cfg = Ok cfg' →
  wc_num_blocks cfg' = n ∧ wc_groups cfg' = wc_groups cfg ∧
  Forall2 (λ t t', wc_num_blocks cfg ≠ 0 ∧ tensor_size t mod wc_num_blocks cfg = 0 ∧
             t' = mkTensor (tensor_size t / wc_num_blocks cfg * n) (shared_by t) (tensor_offset t) (block_stride t))
    (wc_tensors cfg) (wc_tensors cfg').
Proof.
  unfold shrink_config. intros H. bind_inv H as ts Ets. bind_inv H as u Eu. injection H as <-. cbn.
  split; [done|]. split; [done|]. apply mmap_Ok in Ets. eapply Forall2_impl; [exact Ets|]. cbn. intros t t' Ht.
  unfold py_mod in Ht. destruct (Z.eqb_spec (wc_num_blocks cfg) 0); [done|]. cbn in Ht.
  bind_inv Ht as u' E'. apply py_assert_Ok, Z.eqb_eq in E'. by injection Ht as <-.
Qed.

Lemma shrink_shared c n cfg cfg' :
  shrink_config c n cfg = Ok cfg' → shared_by <$> wc_tensors cfg' = shared_by <$> wc_tensors cfg.
Proof.
  intros (_ & _ & H)%shrink_spec. induction H as [|t t' ts ts' (_ & _ & ->) _ IH]; [done|]. cbn. by rewrite IH.
Qed.

(** The bytes per block stay. *)
Lemma shrink_footprint c n cfg cfg' per :
  shrink_config c n cfg = Ok cfg' → footprint (wc_tensors cfg) = per * wc_num_blocks cfg → wc_tensors cfg ≠ [] →
  footprint (wc_tensors cfg') = per * n.
Proof.
  intros (_ & _ & H)%shrink_spec Hf Hne. destruct cfg as [old ts groups], cfg' as [n' ts' groups']. cbn in *.
  assert (Hsum : old * sum_list ((λ t, tensor_size t / old) <$> ts) = sum_list (tensor_size <$> ts) ∧
                 sum_list (tensor_size <$> ts') = n * sum_list ((λ t, tensor_size t / old) <$> ts)).
  { clear -H. induction H as [|t t' ts ts' (Ho & Hm & ->) _ [IH1 IH2]]; [split; cbn; lia|].
    rewrite !fmap_cons, !sum_list_cons. cbn [tensor_size]. apply Z.div_exact in Hm; [|done].
    rewrite IH2. split; [rewrite Z.mul_add_distr_l, IH1, <-Hm; done|ring]. }
  destruct H as [|t t' ts ts' (Ho & Hm & ->) _]; [done|]. unfold footprint in *. cbn [block_stride] in *.
  destruct (block_stride t =? 0).
  - destruct Hsum as [H1 H2]. rewrite H2. rewrite <-H1, (Z.mul_comm per) in Hf.
    apply Z.mul_reg_l in Hf; [|done]. rewrite Hf. ring.
  - cbn [tensor_size]. rewrite Hf, Z.div_mul by done. done.
Qed.

(** ** Theorems *)

Lemma run_global_wf v specs mem v' cfgs global mem' n :
  plan_run v specs mem v' cfgs global mem' n → Forall wf_group global ∧ NoDup (layers_of global).
Proof.
  intros HR. destruct (run_merged _ _ _ _ _ _ _ _ HR) as (merged & Hm & Hg).
  split; [by eapply groups_wf|]. apply groups_layers in Hg. eapply submseteq_nodup; [exact Hg|].
  by apply merge_workers_spec in Hm as [? _].
Qed.

(** What a run gives for one worker. *)
Lemma run_worker v specs mem v' cfgs global mem' n i d cfg :
  plan_run v specs mem v' cfgs global mem' n → NoDup d.*1 → specs !! i = Some d → cfgs !! i = Some cfg →
  ∃ m cfg0, mem' !! i = Some m ∧ _project_kv_cache_groups_to_worker global d = Ok (wc_groups cfg) ∧
    check_worker (spec_cfg v') (wc_groups cfg, m) = Ok tt ∧ layout v' (wc_groups cfg) m cfg0 ∧
    n ≤ wc_num_blocks cfg0 ∧ shrink_config (spec_cfg v') n cfg0 = Ok cfg ∧
    layers_of (wc_groups cfg) ≡ₚ d.*1 ∧ NoDup (layers_of (wc_groups cfg)).
Proof.
  intros HR Hnd Hd Hcfg. destruct (run_workers _ _ _ _ _ _ _ _ HR i cfg Hcfg)
    as (d' & gs & m & cfg0 & Hd' & Hm & Hp & Hc & Hw & Hn & Hsh). rewrite Hd in Hd'. injection Hd' as <-.
  unfold worker_config in Hw. bind_inv Hw as u Eu. apply py_assert_Ok, Z.eqb_eq in Eu. apply config_layout in Hw.
  destruct (run_global_wf _ _ _ _ _ _ _ _ HR) as [_ Hgnd].
  destruct (worker_layers _ _ _ Hgnd Hnd Hp Eu) as [Hl Hlnd].
  pose proof (proj2 (layout_layers _ _ _ _ Hw)) as Hgs. apply shrink_spec in Hsh as Hs. destruct Hs as (_ & Hgs' & _).
  rewrite Hgs', Hgs. by exists m, cfg0.
Qed.

(** A worker's layers [d] are covered safely by its configuration. *)
Definition layers_safe (d : spec_dict) (cfg : WorkerConfig) : Prop :=
  layers_of (wc_groups cfg) ≡ₚ d.*1 ∧ concat (shared_by <$> wc_tensors cfg) ≡ₚ d.*1 ∧
  ∀ t g, t ∈ wc_tensors cfg → g ∈ wc_groups cfg → (slot_count (wg_layer_names g) (shared_by t) ≤ 1)%nat.

(** C13: The plan of every worker covers its layers safely: each layer of the
    worker is in exactly one group and in exactly one tensor, and no tensor is
    shared by two layers of one group. *)
Theorem plan_layers_safe v specs mem v' cfgs :
  length mem = length specs → Forall (λ d, NoDup d.*1) specs →
  get_kv_cache_configs v specs mem = Ok (v', cfgs) →
  length cfgs = length specs ∧
  ∀ i d cfg, specs !! i = Some d → cfgs !! i = Some cfg →
    layers_safe d cfg.
Proof.
  intros Hlen Hnd (global & mem' & n & HR)%plan_run_Ok. split; [by apply HR|]. intros i d cfg Hd Hcfg.
  destruct (run_worker _ _ _ _ _ _ _ _ _ _ _ HR (Forall_lookup_1 _ _ _ _ Hnd Hd) Hd Hcfg)
    as (m & cfg0 & _ & _ & _ & Hlay & _ & Hsh & Hl & Hlnd).
  pose proof (shrink_shared _ _ _ _ Hsh) as Hsb.
  split; [done|]. split; [rewrite Hsb, <-Hl; by apply layout_layers in Hlay as [? _]|].
  intros t g Ht Hg. assert (Hin : shared_by t ∈ shared_by <$> wc_tensors cfg) by (by apply list_elem_of_fmap_2).
  rewrite Hsb in Hin. apply list_elem_of_fmap in Hin as (t0 & -> & Ht0). by eapply layout_separated.
Qed.

Lemma project_scheduler global d gs :
  Forall wf_group global → _project_kv_cache_groups_to_worker global d = Ok gs →
  ∃ ks, mmap scheduler_group gs = Ok ks.
Proof.
  intros Hwf H%mmap_Ok. induction H as [|g g' gl gs Hg _ IH]; [by exists []|].
  inversion Hwf as [|? ? [Hne Hw] Hrest]; subst. destruct (IH Hrest) as [ks Hks].
  assert (∃ k, scheduler_group g' = Ok k) as [k Hk].
  { apply project_group_spec in Hg as [_ Hg]. unfold scheduler_group.
    destruct (wg_spec g) as [s|u]; [rewrite Hg; by eexists|]. destruct Hg as (u' & -> & Hg).
    assert (ut_specs u' ≠ []) as Hu'.
    { case_decide as Hn; [subst u'; intros E; rewrite E in Hw; by destruct Hw as [Hw _]|].
      destruct Hg as [_ Hm%mmap_length]. intros E. rewrite E in Hm. by destruct (wg_layer_names g'). }
    destruct (ut_specs u') as [|[? ?] ?]; [done|]. by eexists. }
  exists (k :: ks). cbn [mmap]. rewrite Hk. cbn [mbind result_bind]. by rewrite Hks.
Qed.

Lemma run_blocks v specs mem v' cfgs global mem' n cfg :
  plan_run v specs mem v' cfgs global mem' n → cfg ∈ cfgs → wc_num_blocks cfg = n.
Proof.
  intros HR [i Hi]%list_elem_of_lookup_1.
  destruct (run_workers _ _ _ _ _ _ _ _ HR i cfg Hi) as (? & ? & ? & ? & _ & _ & _ & _ & _ & _ & Hs).
  by apply shrink_spec in Hs as (? & _).
Qed.

Lemma run_scheduler v specs mem v' cfgs global mem' n :
  plan_run v specs mem v' cfgs global mem' n → Forall (λ d, NoDup d.*1) specs →
  ∃ sc, generate_scheduler_kv_cache_config cfgs = Ok sc ∧ num_blocks sc = n ∧
    length (kv_cache_groups sc) = length global.
Proof.
  intros HR Hnd. destruct cfgs as [|cfg cfgs'] eqn:E; [by destruct (run_nonempty _ _ _ _ _ _ _ _ HR)|]. rewrite <-E in *.
  destruct (run_workers _ _ _ _ _ _ _ _ HR O cfg ltac:(by rewrite E)) as (d & ? & ? & ? & Hd & _).
  destruct (run_worker _ _ _ _ _ _ _ _ O d cfg HR (Forall_lookup_1 _ _ _ _ Hnd Hd) Hd ltac:(by rewrite E))
    as (m & cfg0 & _ & Hp & _).
  destruct (run_global_wf _ _ _ _ _ _ _ _ HR) as [Hwf _].
  destruct (project_scheduler _ _ _ Hwf Hp) as [ks Hks].
  exists (mkKVConfig (wc_num_blocks cfg) ks). rewrite E at 1. cbn [generate_scheduler_kv_cache_config].
  assert (Hall : forallb (λ c, wc_num_blocks c =? wc_num_blocks cfg) (cfg :: cfgs') = true).
  { apply forallb_forall. intros c Hc. apply list_elem_of_In in Hc. rewrite <-E in Hc. apply Z.eqb_eq.
    rewrite (run_blocks _ _ _ _ _ _ _ _ _ HR Hc). symmetry. eapply run_blocks; [exact HR|]. rewrite E. left. }
  rewrite Hall. cbn [py_assert mbind result_bind]. rewrite Hks. split; [done|]. cbn [num_blocks kv_cache_groups]. split.
  - eapply run_blocks; [exact HR|]. rewrite E. left.
  - rewrite (mmap_length _ _ _ Hks). by apply mmap_length in Hp.
Qed.

(** The memory of one worker after shrinking. *)
Lemma run_memory_fits v specs mem v' cfgs global mem' n i d cfg m :
  plan_run v specs mem v' cfgs global mem' n → NoDup d.*1 → specs !! i = Some d → cfgs !! i = Some cfg →
  mem' !! i = Some m → groups_ok (wc_groups cfg) → wc_tensors cfg ≠ [] →
  ∃ per, _pool_bytes_per_block v (wc_groups cfg) = Ok per ∧ 0 < per ∧ footprint (wc_tensors cfg) = per * n ∧
    (num_gpu_blocks_override v = None → per * n ≤ m).
Proof.
  intros HR Hnd Hd Hcfg Hm Hok Hne.
  destruct (run_worker _ _ _ _ _ _ _ _ _ _ _ HR Hnd Hd Hcfg) as (m' & cfg0 & Hm' & Hp & Hchk & Hlay & Hn & Hsh & Hl & _).
  rewrite Hm in Hm'. injection Hm' as <-. destruct (run_config _ _ _ _ _ _ _ _ HR) as [c ->].
  destruct (run_global_wf _ _ _ _ _ _ _ _ HR) as [Hwf Hgnd].
  pose proof (shrink_shared _ _ _ _ Hsh) as Hsb. destruct (layout_layers _ _ _ _ Hlay) as [Hsl _].
  assert (Hne0 : wc_tensors cfg0 ≠ []) by (intros E0; rewrite E0 in Hsb; by destruct (wc_tensors cfg)).
  assert (Hgne : wc_groups cfg ≠ []).
  { intros E. rewrite E in Hlay. inversion Hlay; subst; done. }
  assert (Hown : single_uniform (wc_groups cfg) = true → Forall own_specs (wc_groups cfg)).
  { intros Hs. pose proof (project_own _ _ _ Hwf Hgnd Hp) as Ho. destruct (wc_groups cfg) as [|g [|? ?]]; try done.
    inversion Ho as [|? ? [Hempty|Hg] _]; subst; [|by constructor]. exfalso.
    destruct Hlay as [|g' u ? ? ts [= <-] _ _ _ _ Hts|? ? _ Hsu|? ? ? _ Hsu]; [done| |congruence|congruence].
    rewrite Hempty in Hts. by injection Hts as <-. }
  destruct (layout_blocks _ _ _ _ Hgne Hok Hlay) as (per & Hper & Hpos & Hnb).
  pose proof (layout_footprint _ _ _ _ _ Hgne Hown Hlay Hper) as Hfoot.
  exists per. split; [exact Hper|]. split; [done|]. split; [by eapply shrink_footprint|].
  intros Hov. unfold may_override_num_blocks in Hnb. cbn in Hnb. rewrite Hov in Hnb. cbn in Hnb.
  assert (0 < m).
  { unfold check_worker in Hchk. cbn in Hchk. destruct (wc_groups cfg); [done|]. cbn in Hchk.
    unfold _check_enough_kv_cache_memory in Hchk. destruct (Z.leb_spec m 0); [done|lia]. }
  assert (n ≤ m / per).
  { pose proof (Z.div_pos m per). case_match; lia. }
  pose proof (Z.mul_div_le m per Hpos). nia.
Qed.

(** The tensors of a worker are [n] blocks of its own size, within its memory [m]
    unless the number of blocks is overridden. *)
Definition fits_memory (v : VllmConfig) (n m : Z) (cfg : WorkerConfig) : Prop :=
  ∃ per, _pool_bytes_per_block v (wc_groups cfg) = Ok per ∧ 0 < per ∧
    footprint (wc_tensors cfg) = per * n ∧ (num_gpu_blocks_override v = None → per * n ≤ m).

(** The configuration before shrinking is what the worker's groups get from memory [m]
    on their own. *)
Lemma worker_own v' gs d m cfg0 c n cfg :
  worker_config v' (gs, d, m) = Ok cfg0 → shrink_config c n cfg0 = Ok cfg →
  get_kv_cache_config_from_groups v' (wc_groups cfg) m = Ok cfg0.
Proof.
  intros Hw (_ & -> & _)%shrink_spec. unfold worker_config in Hw. bind_inv Hw as u Eu.
  pose proof (config_layout _ _ _ _ Hw) as Hl. by rewrite (proj2 (layout_layers _ _ _ _ Hl)).
Qed.

(** [n] is the smallest number of blocks the workers' groups get on their own, each
    from its own memory. *)
Definition smallest_worker (v : VllmConfig) (mem : list Z) (cfgs : list WorkerConfig) (n : Z) : Prop :=
  (∀ i m cfg, mem !! i = Some m → cfgs !! i = Some cfg →
     ∃ own, get_kv_cache_config_from_groups v (wc_groups cfg) m = Ok own ∧ n ≤ wc_num_blocks own) ∧
  ∃ i m cfg own, mem !! i = Some m ∧ cfgs !! i = Some cfg ∧
    get_kv_cache_config_from_groups v (wc_groups cfg) m = Ok own ∧ wc_num_blocks own = n.

Lemma run_smallest v specs mem v' cfgs global mem' n :
  plan_run v specs mem v' cfgs global mem' n → smallest_worker v' mem' cfgs n.
Proof.
  intros HR. split.
  - intros i m cfg Hm Hcfg. destruct (run_workers _ _ _ _ _ _ _ _ HR i cfg Hcfg)
      as (d & gs & m' & own & _ & Hm' & _ & _ & Hw & Hn & Hsh).
    rewrite Hm in Hm'. injection Hm' as <-. exists own. split; [by eapply worker_own|done].
  - destruct (run_min _ _ _ _ _ _ _ _ HR) as (i & cfg & d & gs & m & own & Hcfg & _ & Hm & _ & _ & Hw & Hn & Hsh).
    exists i, m, cfg, own. split; [done|]. split; [done|]. split; [by eapply worker_own|done].
Qed.

(** C14: The workers agree: they all have the number of blocks of the worker that would
    get the fewest on its own (from its memory, or from the memory adjusted to the
    number of blocks when that is overridden), which the scheduler's configuration
    also has; the tensors of every worker with well-formed groups and at least one
    tensor shrink to that many blocks of their own size and, unless the number of
    blocks is overridden, stay within the worker's memory. *)
Theorem plan_agrees v specs mem v' cfgs :
  length mem = length specs → Forall (λ d, NoDup d.*1) specs →
  get_kv_cache_configs v specs mem = Ok (v', cfgs) →
  ∃ n sc mem', (∀ cfg, cfg ∈ cfgs → wc_num_blocks cfg = n) ∧
    generate_scheduler_kv_cache_config cfgs = Ok sc ∧ num_blocks sc = n ∧
    smallest_worker v' mem' cfgs n ∧ (num_gpu_blocks_override v = None → mem' = mem) ∧
    ∀ i m cfg, mem !! i = Some m → cfgs !! i = Some cfg → groups_ok (wc_groups cfg) → wc_tensors cfg ≠ [] →
      fits_memory v n m cfg.
Proof.
  intros Hlen Hnd (global & mem' & n & HR)%plan_run_Ok.
  destruct (run_scheduler _ _ _ _ _ _ _ _ HR Hnd) as (sc & Hsc & Hb & _).
  exists n, sc, mem'. split; [intros cfg; by eapply run_blocks|]. split; [done|]. split; [done|].
  split; [by eapply run_smallest|]. pose proof (run_memory _ _ _ _ _ _ _ _ HR) as Hmem.
  split; [intros Hov; by rewrite Hov in Hmem|]. intros i m cfg Hm Hcfg Hok Hne.
  destruct (run_workers _ _ _ _ _ _ _ _ HR i cfg Hcfg) as (d & ? & m' & ? & Hd & Hm' & _).
  destruct (run_memory_fits _ _ _ _ _ _ _ _ i d cfg m' HR) as (per & H1 & H2 & H3 & H4); try done.
  { by eapply (Forall_lookup_1 _ _ _ _ Hnd). }
  exists per. split; [done|]. split; [done|]. split; [done|]. intros Hov. specialize (H4 Hov).
  rewrite Hov in Hmem. subst mem'. congruence.
Qed.

(** ** A model on two pipeline stages *)

Definition demo_workers : list spec_dict :=
  [[("full.0", demo_full); ("sw.0", demo_sw); ("sw.1", demo_sw)];
   [("full.1", demo_full); ("sw.2", demo_sw); ("sw.3", demo_sw)]]%string.

Definition demo_plan : VllmConfig * list WorkerConfig :=
  match get_kv_cache_configs demo_vllm demo_workers [60000; 50000] with
  | Ok r => r
  | Raise _ => (demo_vllm, [])
  end.

Lemma demo_plan_Ok : get_kv_cache_configs demo_vllm demo_workers [60000; 50000] = Ok demo_plan.
Proof. vm_compute. reflexivity. Qed.

Lemma demo_plan_blocks : wc_num_blocks <$> demo_plan.2 = [195; 195].
Proof. vm_compute. reflexivity. Qed.

Lemma demo_workers_nodup : Forall (λ d, NoDup d.*1) demo_workers.
Proof. repeat constructor; apply (bool_decide_unpack _); by vm_compute. Qed.

Lemma plan_layers_safe_witness :
  length demo_plan.2 = 2%nat ∧
  wg_layer_names <$> concat (wc_groups <$> demo_plan.2) =
    [["full.0"]; ["sw.0"]; ["sw.1"]; ["full.1"]; ["sw.2"]; ["sw.3"]]%string ∧
  ∀ i d cfg, demo_workers !! i = Some d → demo_plan.2 !! i = Some cfg →
    layers_safe d cfg.
Proof.
  destruct (plan_layers_safe demo_vllm demo_workers [60000; 50000] demo_plan.1 demo_plan.2) as [H1 H2];
    [reflexivity|exact demo_workers_nodup|rewrite demo_plan_Ok; by destruct demo_plan|].
  split; [exact H1|]. split; [vm_compute; reflexivity|exact H2].
Defined.

Lemma demo_plan_ok :
  Forall (λ cfg, Forall (λ g, Forall (λ s, layer_ok s = true) (gspec_layers (wg_spec g))) (wc_groups cfg)) demo_plan.2 ∧
  Forall (λ cfg, wc_tensors cfg ≠ []) demo_plan.2.
Proof. split; apply (bool_decide_unpack _); vm_compute; exact I. Qed.

Lemma plan_agrees_witness :
  ∃ sc, (∀ cfg, cfg ∈ demo_plan.2 → wc_num_blocks cfg = 195) ∧
    generate_scheduler_kv_cache_config demo_plan.2 = Ok sc ∧ num_blocks sc = 195 ∧
    smallest_worker demo_plan.1 [60000; 50000] demo_plan.2 195 ∧
    ∀ i m cfg, [60000; 50000] !! i = Some m → demo_plan.2 !! i = Some cfg → fits_memory demo_vllm 195 m cfg.
Proof.
  destruct (plan_agrees demo_vllm demo_workers [60000; 50000] demo_plan.1 demo_plan.2) as (n & sc & mem' & H1 & H2 & H3 & H5 & H6 & H4);
    [reflexivity|exact demo_workers_nodup|rewrite demo_plan_Ok; by destruct demo_plan|].
  rewrite (H6 eq_refl) in H5. clear mem' H6.
  assert (n = 195) as ->.
  { pose proof demo_plan_blocks as E. destruct (demo_plan.2) as [|cfg l]; [discriminate E|].
    rewrite <-(H1 cfg) by left. by injection E. }
  exists sc. split; [exact H1|]. split; [exact H2|]. split; [exact H3|]. split; [exact H5|]. intros i m cfg Hm Hcfg.
  destruct demo_plan_ok as [Hok Hne]. apply (H4 i m cfg Hm Hcfg).
  - exact (Forall_lookup_1 _ _ _ _ Hok Hcfg).
  - exact (Forall_lookup_1 _ _ _ _ Hne Hcfg).
Defined.

(** ** The sizes the scheduler derives *)

Lemma any_not_divisible_false h sizes :
  any_not_divisible h sizes = Ok false → Forall (λ bs, (h | bs)) sizes.
Proof.
  induction sizes as [|bs sizes IH]; intros H; [done|]. cbn in H. unfold py_mod in H.
  destruct (Z.eqb_spec h 0); [done|]. cbn in H. destruct (Z.eqb_spec (bs mod h) 0) as [E|]; [|done].
  constructor; [by apply Z.mod_divide|by apply IH].
Qed.

Lemma lcm_divides sizes : Forall (λ bs, (bs | foldr Z.lcm 1 sizes)) sizes.
Proof.
  induction sizes as [|bs sizes IH]; [constructor|]. cbn. constructor; [apply Z.divide_lcm_l|].
  eapply Forall_impl; [exact IH|]. cbn. intros b Hb. etransitivity; [exact Hb|apply Z.divide_lcm_r].
Qed.

Lemma lcm_least sizes m : Forall (λ bs, (bs | m)) sizes → (foldr Z.lcm 1 sizes | m).
Proof. induction 1 as [|bs sizes Hb _ IH]; cbn; [apply Z.divide_1_l|by apply Z.lcm_least]. Qed.

(** A multiple of the block size of every group. *)
Definition common_multiple (cfg : KVCacheConfig) (m : Z) : Prop :=
  ∀ g, g ∈ kv_cache_groups cfg → (block_size (kv_cache_spec g) | m).

(** The block sizes of the scheduler fit together: with several groups the
    scheduler's block size is the least common multiple of the groups' block
    sizes, and the hash block size divides it; unless hashing falls back to the
    scheduler's block size, it divides every group's block size too. *)
Theorem resolved_sizes_divide cfg v s h :
  resolve_kv_cache_block_sizes cfg v = Ok (s, h) →
  (h | s) ∧
  (1 < zlen (kv_cache_groups cfg) →
     common_multiple cfg s ∧ (∀ m, common_multiple cfg m → (s | m)) ∧
     (h = s ∨ ∀ g, g ∈ kv_cache_groups cfg → (h | block_size (kv_cache_spec g)))).
Proof.
  unfold resolve_kv_cache_block_sizes. set (sizes := (λ g, block_size (kv_cache_spec g)) <$> kv_cache_groups cfg).
  intros H. destruct (Z.leb_spec (zlen (kv_cache_groups cfg)) 1) as [Hle|Hgt].
  { injection H as <- <-. split; [done|lia]. }
  assert (Hs : common_multiple cfg (foldr Z.lcm 1 sizes)).
  { intros g Hg. apply (proj1 (Forall_forall _ _) (lcm_divides sizes)).
    by apply (list_elem_of_fmap_2 (λ g, block_size (kv_cache_spec g))). }
  assert (Hl : ∀ m, common_multiple cfg m → (foldr Z.lcm 1 sizes | m)).
  { intros m Hm. apply lcm_least, Forall_fmap, Forall_forall. exact Hm. }
  destruct (negb _); [done|]. destruct (negb (_ || _)).
  { injection H as <- <-. split; [done|]. intros _. split; [done|]. split; [done|by left]. }
  destruct (existsb _ (kv_cache_groups cfg)).
  { injection H as <- <-. split; [done|]. intros _. split; [done|]. split; [done|by left]. }
  bind_inv H as bad Eb. destruct bad; [done|]. injection H as <- <-. apply any_not_divisible_false in Eb.
  assert (Hh : ∀ g, g ∈ kv_cache_groups cfg → (default (foldr Z.gcd 0 sizes) (cache_hash_block_size v) | block_size (kv_cache_spec g))).
  { intros g Hg. apply (proj1 (Forall_forall _ _) Eb). by apply (list_elem_of_fmap_2 (λ g, block_size (kv_cache_spec g))). }
  split; [|intros _; split; [done|]; split; [done|by right]].
  unfold common_multiple in Hs. destruct (kv_cache_groups cfg) as [|g gs]; [done|].
  etransitivity; [apply (Hh g); left|apply (Hs g); left].
Qed.

Lemma resolved_sizes_divide_witness :
  let cfg := mkKVConfig 10 [mkGroup [] demo_full false;
    mkGroup [] (SlidingWindowSpec (mkAttn 24 1 4 (mkDtype "bfloat16" 2) QNone None false) 32 4) false] in
  resolve_kv_cache_block_sizes cfg demo_vllm = Ok (48, 8) ∧ (8 | 48) ∧ common_multiple cfg 48.
Proof.
  intros cfg. split; [reflexivity|].
  destruct (resolved_sizes_divide cfg demo_vllm 48 8) as [H1 H2]; [reflexivity|].
  split; [exact H1|]. apply H2. vm_compute. reflexivity.
Defined.
