(* ===== verification/PlanCapacity.v ===== *)
(** * Enough blocks for a request of the maximum length

    The memory check of [KVPlan.get_kv_cache_configs] is in bytes and per worker;
    the blocks are counted for all workers together.  For the unpacked layouts the
    check implies that the number of blocks is at least what a request of the
    maximum length takes from every group. *)

From S2P Require Import Prelude MathUtils OrderedDict KVSpecs KVMerge KVPlan PlanSearch PlanGroups PlanCover PlanLayout PlanTheorems.

#[local] Open Scope Z_scope.

(** The blocks a request of the maximum length takes. *)
Definition request_blocks (c : SpecConfig) (groups : list WorkerGroup) : result Z :=
  match groups with
  | [mkWorkerGroup _ (UniformType u) _] => max_memory_usage_pages c u
  | _ => page ← get_uniform_page_size (wg_spec <$> groups); blocks_needed c page groups
  end.

(** ** Layers of one type *)

(** The pages a request takes of a layer. *)
Definition layer_pages (c : SpecConfig) (s : KVCacheSpec) : Z :=
  match s with
  | FullAttentionSpec _ _ | TQFullAttentionSpec _ _ _ | MLAAttentionSpec _ _ _
  | HiddenStateCacheSpec _ _ _ | SinkFullAttentionSpec _ _ _ =>
      let ws := decode_context_parallel_size c * prefill_context_parallel_size c in
      cdiv (if 1 <? ws then cdiv (cfg_max_model_len c) ws else cfg_max_model_len c) (block_size s)
  | SlidingWindowSpec a w _ | SlidingWindowMLASpec a w _ =>
      sw_max_admission_blocks (attn_block_size a) w (cfg_max_num_batched_tokens c) (cfg_max_model_len c)
  | ChunkedLocalAttentionSpec a ch =>
      chunked_max_admission_blocks (attn_block_size a) ch (cfg_max_num_batched_tokens c) (cfg_max_model_len c)
  | MambaSpec m =>
      match cfg_mamba_cache_mode c with
      | MambaAll => cdiv (cfg_max_model_len c) (mamba_block_size m) + num_speculative_blocks m
      | MambaAlign => 2 + num_speculative_blocks m
      | MambaNone => 1 + num_speculative_blocks m
      end
  | EncoderOnlyAttentionSpec _ => 0
  | CrossAttentionSpec _ => cdiv (max_num_encoder_input_tokens c) (block_size s)
  end.

Lemma layer_usage_pages c s m :
  (∀ a, s ≠ EncoderOnlyAttentionSpec a) → max_memory_usage_bytes c s = Ok m →
  ∃ p, page_size_bytes s = Ok p ∧ m = layer_pages c s * p.
Proof.
  intros Hs H. destruct s as [a f|a f t|a f m'|a f m'|a f k|a ch|a w h|a w m'|m'|a|a]; cbn [max_memory_usage_bytes] in H.
  1-6,11: bind_inv H as pg Ep; injection H as <-; by exists pg.
  1-2: bind_inv H as u Eu; bind_inv H as pg Ep; injection H as <-; by exists pg.
  - bind_inv H as pg Ep. injection H as <-. exists pg. split; [done|]. cbn. case_match; lia.
  - by destruct (Hs a).
Qed.

(** All layers of one type take the same number of pages. *)
Lemma uniform_layer_pages c d s0 s :
  is_uniform_type d = Ok true → head d.*2 = Some s0 → s ∈ d.*2 →
  layer_pages c s = layer_pages c s0 ∧ (∀ a, s ≠ EncoderOnlyAttentionSpec a).
Proof.
  unfold is_uniform_type. destruct (1 <? length (py_set (block_size <$> d.*2)))%nat eqn:E1; [done|].
  intros Hu Hh Hs. destruct d as [|[name s0'] d]; [done|]. cbn in Hh. injection Hh as ->.
  assert (Hbs : block_size s = block_size s0).
  { apply Nat.ltb_ge in E1.
    assert (H1 : block_size s0 ∈ py_set (block_size <$> ((name, s0) :: d).*2)) by (apply elem_of_remove_dups; left).
    assert (H2 : block_size s ∈ py_set (block_size <$> ((name, s0) :: d).*2))
      by (by apply elem_of_remove_dups, list_elem_of_fmap_2).
    destruct (py_set _) as [|x [|? ?]]; cbn in E1; [by apply elem_of_nil in H1| |lia].
    by apply list_elem_of_singleton in H1 as ->, H2 as ->. }
  clear E1. unfold is_uniform_with_collection in Hu.
  assert (Hall : ∀ f, Ok (forallb f ((name, s0) :: d).*2) = Ok true → f s = true).
  { intros f Hf. assert (Hf' : forallb f ((name, s0) :: d).*2 = true) by congruence.
    rewrite forallb_forall in Hf'. apply Hf'. by apply list_elem_of_In. }
  destruct s0; cbn [get_uniform_type_base_spec] in Hu; apply Hall in Hu || done; destruct s; try done;
    cbn in Hbs, Hu |- *; rewrite ?bool_decide_eq_true in Hu; (split; [|done]); simplify_eq; try done.
  all: rewrite ?Hbs; f_equal; lia || (apply Z.eqb_eq in Hu; by rewrite Hu).
Qed.

Lemma uniform_usage c (d : spec_dict) k usages pages :
  (∀ s, s ∈ d.*2 → layer_pages c s = k ∧ ∀ a, s ≠ EncoderOnlyAttentionSpec a) →
  mmap (max_memory_usage_bytes c) d.*2 = Ok usages → mmap page_size_bytes d.*2 = Ok pages →
  sum_list usages = k * sum_list pages.
Proof.
  intros Hk Hu Hp. generalize dependent d.*2. clear d. intros l. revert usages pages.
  induction l as [|s l IH]; intros us ps Hk Hu Hp; cbn [mmap] in Hu, Hp.
  - injection Hu as <-. injection Hp as <-. cbn. lia.
  - bind_inv Hu as m Em. bind_inv Hu as us' Eus. bind_inv Hp as p Ep. bind_inv Hp as ps' Eps.
    injection Hu as <-. injection Hp as <-. destruct (Hk s) as [Hks Hne]; [left|].
    destruct (layer_usage_pages c s m Hne Em) as (p' & Hp' & ->). rewrite Ep in Hp'. injection Hp' as <-.
    rewrite !sum_list_cons, (IH us' ps'); [rewrite Hks; lia| |done|done]. intros s' Hs'. apply Hk. by right.
Qed.

Lemma uniform_max_pages c u k usages :
  ut_specs u ≠ [] → Forall (λ s, layer_ok s = true) (ut_specs u).*2 →
  (∀ s, s ∈ (ut_specs u).*2 → layer_pages c s = k ∧ ∀ a, s ≠ EncoderOnlyAttentionSpec a) →
  mmap (max_memory_usage_bytes c) (ut_specs u).*2 = Ok usages → max_memory_usage_pages c u = Ok k.
Proof.
  intros Hne Hok Hk Hu. unfold max_memory_usage_pages.
  assert (E : mmap (λ s, m ← max_memory_usage_bytes c s; p ← page_size_bytes s; py_cdiv m p) (ut_specs u).*2 =
              Ok (replicate (length (ut_specs u).*2) k)).
  { clear Hne. generalize dependent (ut_specs u).*2. intros l. revert usages.
    induction l as [|s l IH]; intros us Hok Hk Hu; [done|]. cbn [mmap] in Hu |- *.
    bind_inv Hu as m Em. bind_inv Hu as us' Eus. inversion Hok; subst. destruct (Hk s) as [Hks Hns]; [left|].
    destruct (layer_usage_pages c s m Hns Em) as (p & Hp & ->). apply bind_Ok. exists k. split.
    - rewrite Em. cbn [mbind result_bind]. rewrite Hp. cbn [mbind result_bind].
      destruct (layer_ok_page s p) as [_ Hpos]; [done|done|].
      unfold py_cdiv. by rewrite (proj2 (Z.eqb_neq _ _)), cdiv_mul, Hks by lia.
    - apply bind_Ok. eexists. split; [eapply (IH us'); try done; intros s' Hs'; apply Hk; by right|done]. }
  rewrite E. cbn [mbind result_bind]. apply py_max_Ok. destruct (ut_specs u) as [|p l]; [done|]. cbn [fmap list_fmap length].
  split; [left|]. intros x Hx. apply elem_of_replicate_inv in Hx. lia.
Qed.

(** ** One worker *)

Lemma check_worker_Ok c gs m :
  gs ≠ [] → check_worker c (gs, m) = Ok tt →
  0 < m ∧ ∃ needed, _max_memory_usage_bytes_from_groups c gs = Ok needed ∧ needed ≤ m.
Proof.
  intros Hne H. unfold check_worker in H. cbn [fst snd] in H. destruct gs as [|g gs]; [done|]. cbn [no_groups] in H.
  unfold _check_enough_kv_cache_memory in H. destruct (Z.leb_spec m 0); [done|]. split; [lia|].
  bind_inv H as needed E. exists needed. split; [done|]. destruct (Z.ltb_spec m needed); [by bind_inv H as r Er|done].
Qed.

(** An override has replaced the memory by that of its blocks. *)
Definition effective (v : VllmConfig) (gs : list WorkerGroup) (m : Z) : Prop :=
  match num_gpu_blocks_override v with
  | None => True
  | Some o => ∃ per, _pool_bytes_per_block v gs = Ok per ∧ m = o * per
  end.

Lemma run_effective v specs mem v' cfgs global mem' n i d gs m :
  plan_run v specs mem v' cfgs global mem' n → specs !! i = Some d → mem' !! i = Some m →
  _project_kv_cache_groups_to_worker global d = Ok gs → gs ≠ [] → effective v gs m.
Proof.
  intros HR Hd Hm Hp Hne. pose proof (run_memory _ _ _ _ _ _ _ _ HR) as H. unfold effective.
  destruct (num_gpu_blocks_override v) as [o|]; [|done]. destruct H as (projected & Hpr & Hadj).
  apply mmap_Ok in Hpr, Hadj. destruct (Forall2_lookup_l _ _ _ _ _ Hpr Hd) as (gs' & Hgs & Hp').
  rewrite Hp in Hp'. injection Hp' as <-. destruct (Forall2_lookup_r _ _ _ _ _ Hadj Hm) as ([gs' m0] & Hz & Hw).
  apply lookup_zip_with_Some in Hz as (? & ? & [= <- <-] & Hgs' & _). rewrite Hgs in Hgs'. injection Hgs' as <-.
  destruct gs as [|g gs]; [done|]. cbn [no_groups] in Hw. bind_inv Hw as per Eper. bind_inv Hw as q Eq.
  injection Hw as <-. by exists per.
Qed.

(** What fits in the memory has its blocks. *)
Lemma enough_blocks v c gs m cfg0 per need :
  gs ≠ [] → groups_ok gs → layout (set_spec_cfg c v) gs m cfg0 → effective v gs m →
  _pool_bytes_per_block v gs = Ok per → need * per ≤ m → 0 < m → need ≤ wc_num_blocks cfg0.
Proof.
  intros Hne Hok Hlay Heff Hper Hfit Hm.
  destruct (layout_blocks _ _ _ _ Hne Hok Hlay) as (per' & Hper' & Hpos & ->).
  change (_pool_bytes_per_block v gs = Ok per') in Hper'. rewrite Hper in Hper'. injection Hper' as <-.
  unfold may_override_num_blocks, effective in *. cbn. destruct (num_gpu_blocks_override v) as [o|]; cbn.
  - destruct Heff as (per' & Hp & ->). rewrite Hper in Hp. injection Hp as <-. nia.
  - assert (need ≤ m / per) by (apply Z.div_le_lower_bound; lia). pose proof (Z.div_pos m per). case_match; lia.
Qed.

(** Groups with one specification each. *)
Lemma pooled_need v c gs m :
  gs ≠ [] → Forall (λ g, is_uniform_group g = false) gs → _use_packed_kv_cache_groups v gs = false →
  check_worker c (gs, m) = Ok tt →
  0 < m ∧ ∃ per need, _pool_bytes_per_block v gs = Ok per ∧ request_blocks c gs = Ok need ∧ need * per ≤ m.
Proof.
  intros Hne Hpl Hpk Hc. destruct (check_worker_Ok _ _ _ Hne Hc) as (Hm & needed & Hn & Hle). split; [done|].
  destruct gs as [|[names spec eagle] gs]; [done|]. inversion Hpl as [|? ? Hg _]; subst.
  destruct spec as [s|u]; [|done].
  assert (Hpool : pooled_usage c (mkWorkerGroup names (Plain s) eagle :: gs) = Ok needed) by (by destruct gs).
  unfold pooled_usage in Hpool. bind_inv Hpool as size Es. bind_inv Hpool as page Ep. bind_inv Hpool as need En.
  injection Hpool as <-. exists (page * size), need. rewrite pool_bytes_general, Hpk, Es by (by destruct gs).
  cbn [mbind result_bind]. rewrite Ep. split; [done|]. split; [|lia].
  unfold request_blocks. rewrite Ep. cbn [mbind result_bind]. by destruct gs.
Qed.

(** One group with a specification per layer, all of [k] pages. *)
Lemma single_need v c g u k m :
  wg_spec g = UniformType u → groups_ok [g] → ut_specs u ≠ [] →
  (∀ s, s ∈ (ut_specs u).*2 → layer_pages c s = k ∧ ∀ a, s ≠ EncoderOnlyAttentionSpec a) →
  check_worker c ([g], m) = Ok tt →
  0 < m ∧ request_blocks c [g] = Ok k ∧ ∀ per, _pool_bytes_per_block v [g] = Ok per → k * per ≤ m.
Proof.
  intros Hu Hok Hne Hk Hc. destruct (check_worker_Ok c [g] m ltac:(done) Hc) as (Hm & needed & Hn & Hle).
  split; [done|]. destruct g as [names spec eagle]. cbn in Hu. subst spec. cbn in Hn.
  bind_inv Hn as usages Eu. injection Hn as <-.
  inversion Hok as [|? ? Hl _]; subst. split; [by eapply uniform_max_pages|].
  intros per Hper. cbn [_pool_bytes_per_block] in Hper.
  unfold uniform_page_size_bytes, uniform_page_sizes in Hper. bind_inv Hper as pages Ep. injection Hper as <-.
  by rewrite <-(uniform_usage c (ut_specs u) k usages pages).
Qed.

(** ** All workers *)

Lemma project_plain global d gs :
  _project_kv_cache_groups_to_worker global d = Ok gs → Forall (λ g, is_uniform_group g = false) gs →
  wg_spec <$> gs = wg_spec <$> global.
Proof.
  intros H%mmap_Ok Hpl. induction H as [|g g' gl gs Hg _ IH]; [done|]. inversion Hpl as [|? ? Hp Hrest]; subst.
  cbn. rewrite IH by done. f_equal. apply project_group_spec in Hg as [_ Hg].
  destruct (wg_spec g) as [s|u]; [done|]. destruct Hg as (u' & Hu & _). unfold is_uniform_group in Hp. by rewrite Hu in Hp.
Qed.

(** A worker's part of a group with a specification per layer. *)
Lemma project_uniform global d g' u' :
  Forall wf_group global → _project_kv_cache_groups_to_worker global d = Ok [g'] → wg_spec g' = UniformType u' →
  ∃ g u, global = [g] ∧ wg_spec g = UniformType u ∧ is_uniform_type (ut_specs u) = Ok true ∧ ut_specs u' ≠ [] ∧
    ∀ s, s ∈ (ut_specs u').*2 → s ∈ (ut_specs u).*2.
Proof.
  intros Hwf H%mmap_Ok Hu'. inversion H as [|g ? gl ? Hg Hnil]; subst. inversion Hnil; subst.
  inversion Hwf as [|? ? [Hne Hw] _]; subst. apply project_group_spec in Hg as [_ Hg].
  destruct (wg_spec g) as [s|u] eqn:Eg; [congruence|]. destruct Hw as (Hk & Hun & _).
  destruct Hg as (u1 & Hu1 & Hg). rewrite Hu' in Hu1. injection Hu1 as <-. exists g, u.
  split; [done|]. split; [done|]. split; [done|]. case_decide as Hn.
  - subst. split; [|done]. intros E. rewrite E in Hk. done.
  - destruct Hg as [_ Hm]. split; [intros E; apply mmap_length in Hm; rewrite E in Hm; by destruct (wg_layer_names g')|].
    apply mmap_Ok in Hm. clear -Hm. induction Hm as [|name p names ps Hp _ IH]; intros s Hs; [by apply elem_of_nil in Hs|].
    bind_inv Hp as s1 Es. injection Hp as <-. apply elem_of_cons in Hs as [->|Hs]; [|by apply IH].
    unfold get_layer in Es. destruct (od_get (ut_specs u) name) as [s2|] eqn:E; [|done]. injection Es as ->.
    by eapply od_get_snd.
Qed.

Lemma plain_request_blocks c gs :
  Forall (λ g, is_uniform_group g = false) gs →
  request_blocks c gs =
    (page ← get_uniform_page_size (wg_spec <$> gs);
     blocks ← mmap (λ g, m ← gspec_max_memory_usage_bytes c g; py_cdiv m page) (wg_spec <$> gs); Ok (sum_list blocks)).
Proof.
  intros Hpl. transitivity (page ← get_uniform_page_size (wg_spec <$> gs); blocks_needed c page gs).
  - destruct gs as [|[? [?|?] ?] [|? ?]]; try done. inversion Hpl; done.
  - destruct (get_uniform_page_size _); [|done]. cbn. unfold blocks_needed. by rewrite mmap_fmap.
Qed.

Lemma packed_specs v gs gs' :
  wg_spec <$> gs = wg_spec <$> gs' → _use_packed_kv_cache_groups v gs = _use_packed_kv_cache_groups v gs'.
Proof.
  intros E. unfold _use_packed_kv_cache_groups.
  assert (zlen gs = zlen gs') as -> by (rewrite <-(zlen_fmap wg_spec gs), E; apply zlen_fmap). f_equal.
  revert gs' E. induction gs as [|g gs IH]; intros [|g' gs'] E; try done. cbn in E |- *. injection E as E1 E2.
  rewrite (IH gs' E2). unfold is_uniform_group. by rewrite E1.
Qed.

Lemma plain_specs gs gs' :
  wg_spec <$> gs = wg_spec <$> gs' → Forall (λ g, is_uniform_group g = false) gs' →
  Forall (λ g, is_uniform_group g = false) gs.
Proof.
  intros E Hpl. assert (H : Forall (λ s, match s with UniformType _ => false | Plain _ => true end = true) (wg_spec <$> gs')).
  { apply Forall_fmap. eapply Forall_impl; [exact Hpl|]. intros g Hg. unfold is_uniform_group in Hg. cbn. by destruct (wg_spec g). }
  rewrite <-E in H. apply Forall_fmap in H. eapply Forall_impl; [exact H|]. intros g Hg. unfold is_uniform_group. cbn in Hg.
  by destruct (wg_spec g).
Qed.

Lemma project_of_plain global d gs :
  _project_kv_cache_groups_to_worker global d = Ok gs → Forall (λ g, is_uniform_group g = false) global →
  wg_spec <$> gs = wg_spec <$> global.
Proof.
  intros H%mmap_Ok Hpl. induction H as [|g g' gl gs Hg _ IH]; [done|]. inversion Hpl as [|? ? Hp Hrest]; subst.
  cbn. rewrite IH by done. f_equal. apply project_group_spec in Hg as [_ Hg]. unfold is_uniform_group in Hp.
  by destruct (wg_spec g).
Qed.

Lemma project_single global d gs g u :
  global = [g] → wg_spec g = UniformType u → _project_kv_cache_groups_to_worker global d = Ok gs →
  ∃ g' u', gs = [g'] ∧ wg_spec g' = UniformType u'.
Proof.
  intros -> Hu H%mmap_Ok. inversion H as [|? g' ? ? Hg Hnil]; subst. inversion Hnil; subst.
  apply project_group_spec in Hg as [_ Hg]. rewrite Hu in Hg. destruct Hg as (u' & Hu' & _). by exists g', u'.
Qed.

Section two_workers.
  Context (v : VllmConfig) (c : SpecConfig) (global : list WorkerGroup).
  Context (di dj : spec_dict) (gsi gsj : list WorkerGroup) (mi mj : Z) (cfg0 : WorkerConfig).
  Hypothesis Hwf : Forall wf_group global.
  Hypothesis Hpi : _project_kv_cache_groups_to_worker global di = Ok gsi.
  Hypothesis Hpj : _project_kv_cache_groups_to_worker global dj = Ok gsj.
  Hypothesis Hci : check_worker c (gsi, mi) = Ok tt.
  Hypothesis Hcj : check_worker c (gsj, mj) = Ok tt.
  Hypothesis Hoki : groups_ok gsi.
  Hypothesis Hokj : groups_ok gsj.
  Hypothesis Hlay : layout (set_spec_cfg c v) gsj mj cfg0.
  Hypothesis Heff : gsj ≠ [] → effective v gsj mj.

  (** What a request takes on worker [i] is covered by the blocks of worker [j]. *)
Lemma capacity_single :
  single_uniform gsi = true → ∃ need, request_blocks c gsi = Ok need ∧ need ≤ wc_num_blocks cfg0.
Proof using Hwf Hpi Hpj Hci Hcj Hoki Hokj Hlay Heff.
  intros Hs. destruct gsi as [|gi [|? ?]]; try done. unfold single_uniform, is_uniform_group in Hs.
  destruct (wg_spec gi) as [|ui] eqn:Ei; [done|].
  destruct (project_uniform _ _ _ _ Hwf Hpi Ei) as (g & u & Hglob & Hu & Hty & Hnei & Hsubi).
  destruct (project_single _ _ _ _ _ Hglob Hu Hpj) as (gj & uj & -> & Ej).
  destruct (project_uniform _ _ _ _ Hwf Hpj Ej) as (g' & u' & Hg' & Hu' & _ & Hnej & Hsubj).
  assert (g' = g) as -> by congruence. assert (u' = u) as -> by congruence.
  destruct (head (ut_specs u).*2) as [s0|] eqn:Es0.
  2: { destruct (ut_specs u); [|done]. destruct (ut_specs ui) as [|[? s] ?]; [done|].
       specialize (Hsubi s ltac:(left)). by apply elem_of_nil in Hsubi. }
  assert (Hk : ∀ s, s ∈ (ut_specs u).*2 → layer_pages c s = layer_pages c s0 ∧ ∀ a, s ≠ EncoderOnlyAttentionSpec a)
    by (intros s; by eapply uniform_layer_pages).
  destruct (single_need v c gi ui (layer_pages c s0) mi Ei Hoki Hnei) as (_ & Hreq & _); [auto|done|].
  destruct (single_need v c gj uj (layer_pages c s0) mj Ej Hokj Hnej) as (Hm & _ & Hle); [auto|done|].
  exists (layer_pages c s0). split; [done|].
  destruct (layout_blocks _ [gj] _ _ ltac:(done) Hokj Hlay) as (per & Hper & _).
  by eapply (enough_blocks v c [gj]); [done|exact Hokj|exact Hlay|apply Heff|exact Hper|apply Hle|].
Qed.

Lemma capacity_pooled :
  gsi ≠ [] → Forall (λ g, is_uniform_group g = false) gsi → _use_packed_kv_cache_groups v gsi = false →
  ∃ need, request_blocks c gsi = Ok need ∧ need ≤ wc_num_blocks cfg0.
Proof using Hwf Hpi Hpj Hci Hcj Hoki Hokj Hlay Heff.
  intros Hne Hpl Hpk. pose proof (project_plain _ _ _ Hpi Hpl) as Ei.
  assert (Hplg : Forall (λ g, is_uniform_group g = false) global) by (by eapply plain_specs).
  pose proof (project_of_plain _ _ _ Hpj Hplg) as Ej. assert (Eij : wg_spec <$> gsj = wg_spec <$> gsi) by congruence.
  assert (Hplj : Forall (λ g, is_uniform_group g = false) gsj) by (by eapply plain_specs).
  assert (Hnej : gsj ≠ []) by (intros E; rewrite E in Eij; by destruct gsi).
  rewrite <-(packed_specs v _ _ Eij) in Hpk.
  destruct (pooled_need v c gsj mj Hnej Hplj Hpk Hcj) as (Hm & per & need & Hper & Hneed & Hle).
  exists need. split.
  - rewrite plain_request_blocks in Hneed |- * by done. by rewrite <-Eij.
  - by eapply enough_blocks; [exact Hnej|exact Hokj|exact Hlay|apply Heff|exact Hper|..].
Qed.
End two_workers.

(** The groups the claim is about: one with a specification per layer, or
    several with one specification each that are not packed. *)
Definition unpacked (v : VllmConfig) (gs : list WorkerGroup) : Prop :=
  single_uniform gs = true ∨
  Forall (λ g, is_uniform_group g = false) gs ∧ _use_packed_kv_cache_groups v gs = false.

(** C15: The planned number of blocks serves a request of the maximum length: when
    the plan succeeds, its blocks are at least the blocks that such a request
    takes from all groups, on every worker, for the layouts that are not packed. *)
Theorem plan_capacity v specs mem v' cfgs :
  length mem = length specs → Forall (λ d, NoDup d.*1) specs →
  get_kv_cache_configs v specs mem = Ok (v', cfgs) →
  Forall (λ cfg, groups_ok (wc_groups cfg)) cfgs →
  ∀ cfg, cfg ∈ cfgs → wc_groups cfg ≠ [] → unpacked v (wc_groups cfg) →
  ∃ need, request_blocks (spec_cfg v') (wc_groups cfg) = Ok need ∧ need ≤ wc_num_blocks cfg.
Proof.
  intros Hlen Hnd (global & mem' & n & HR)%plan_run_Ok Hoks cfg Hin Hne Hun.
  rewrite (run_blocks _ _ _ _ _ _ _ _ _ HR Hin). apply list_elem_of_lookup_1 in Hin as [i Hi].
  destruct (run_workers _ _ _ _ _ _ _ _ HR i cfg Hi) as (d & ? & ? & ? & Hd & _).
  destruct (run_worker _ _ _ _ _ _ _ _ i d cfg HR (Forall_lookup_1 _ _ _ _ Hnd Hd) Hd Hi)
    as (m & cfg0 & Hm & Hp & Hchk & _).
  destruct (run_min _ _ _ _ _ _ _ _ HR) as (j & cfgj & dj & gsj & mj & cfg0j & Hj & Hdj & Hmj & Hpj & Hcj & Hwj & Hnj & _).
  destruct (run_worker _ _ _ _ _ _ _ _ j dj cfgj HR (Forall_lookup_1 _ _ _ _ Hnd Hdj) Hdj Hj)
    as (? & ? & _ & Hpj' & _). rewrite Hpj in Hpj'. injection Hpj' as ->.
  pose proof (Forall_lookup_1 _ _ _ _ Hoks Hj) as Hokj. pose proof (Forall_lookup_1 _ _ _ _ Hoks Hi) as Hoki.
  unfold worker_config in Hwj. bind_inv Hwj as uj Euj. apply config_layout in Hwj.
  destruct (run_config _ _ _ _ _ _ _ _ HR) as [c ->]. cbn [spec_cfg set_spec_cfg] in *.
  destruct (run_global_wf _ _ _ _ _ _ _ _ HR) as [Hwf _].
  pose proof (run_effective _ _ _ _ _ _ _ _ j dj _ mj HR Hdj Hmj Hpj) as Heff. rewrite <-Hnj.
  destruct Hun as [Hs|[Hpl Hpk]]; [by eapply capacity_single|by eapply capacity_pooled].
Qed.

Lemma demo_plan_groups :
  Forall (λ cfg, Forall (λ g, Forall (λ s, layer_ok s = true) (gspec_layers (wg_spec g))) (wc_groups cfg)) demo_plan.2 ∧
  Forall (λ cfg, length (wc_groups cfg) = 3%nat ∧ Forall (λ g, is_uniform_group g = false) (wc_groups cfg) ∧
            _use_packed_kv_cache_groups demo_vllm (wc_groups cfg) = false) demo_plan.2.
Proof. split; apply (bool_decide_unpack _); vm_compute; exact I. Qed.

Lemma plan_capacity_witness :
  ∃ cfg need, head demo_plan.2 = Some cfg ∧
    request_blocks (spec_cfg demo_plan.1) (wc_groups cfg) = Ok need ∧ need ≤ wc_num_blocks cfg.
Proof.
  assert (∃ cfg, head demo_plan.2 = Some cfg ∧ cfg ∈ demo_plan.2) as (cfg & Hh & Hin).
  { pose proof demo_plan_blocks as E. destruct (demo_plan.2) as [|cfg l]; [discriminate E|].
    exists cfg. split; [reflexivity|left]. }
  exists cfg. enough (∃ need, request_blocks (spec_cfg demo_plan.1) (wc_groups cfg) = Ok need ∧ need ≤ wc_num_blocks cfg)
    as (need & Hr & Hn) by (exists need; exact (conj Hh (conj Hr Hn))).
  destruct demo_plan_groups as [H1 H2].
  destruct (proj1 (Forall_forall _ _) H2 _ Hin) as (Hl & Hpl & Hpk).
  apply (plan_capacity demo_vllm demo_workers [60000; 50000] demo_plan.1 demo_plan.2);
    [reflexivity|exact demo_workers_nodup|rewrite demo_plan_Ok; by destruct demo_plan|exact H1|exact Hin| |].
  - intros E. rewrite E in Hl. discriminate Hl.
  - right. exact (conj Hpl Hpk).
Defined.
