(* ===== verification/CacheHit.v ===== *)
(** * Longest prefix-cache hit, per attention type

    The class methods [find_longest_cache_hit] of the managers in
    [vllm/v1/core/single_type_kv_cache_manager.py], and the sliding-window mask
    of blocks worth caching.  They only read the block pool. *)

From S2P Require Import Prelude MathUtils KVBlock BlockMap BlockHashList BlockPool PrefixCache KVSpecs.

#[local] Open Scope Z_scope.

(** [if cached_block := block_pool.get_cached_block(...)]: a miss is [None], and
    so is the empty list of an empty group list. *)
Definition cached_or_none (p : BlockPool) (h : bytes) (gids : list Z) : result (option (list bref)) :=
  r ← get_cached_block p h gids;
  Ok (match r with Some [] => None | r => r end).

(** [for computed, cached in zip(computed_blocks, cached_block): computed.append(cached)] *)
Definition append_hit (cs : list (list bref)) (cached : list bref) : list (list bref) :=
  zip_with (λ c b, c ++ [b]) cs cached.

(** [for computed in computed_blocks: computed.pop()] *)
Definition pop_all (cs : list (list bref)) : list (list bref) :=
  (λ c, take (length c - 1) c) <$> cs.

(** [computed_blocks[0]]; the groups are never empty. *)
Definition first_len (cs : list (list bref)) : result Z :=
  match cs with [] => Raise IndexError | c :: _ => Ok (zlen c) end.

(** The loop that pops until the hit is aligned; it stops at length zero. *)
Fixpoint align_pop (fuel : nat) (block_size alignment_tokens : Z) (cs : list (list bref))
    : result (list (list bref)) :=
  match fuel with
  | O => Raise OutOfFuel
  | S fuel =>
      if block_size =? alignment_tokens then Ok cs else
      n ← first_len cs;
      if (n * block_size) mod alignment_tokens =? 0 then Ok cs
      else align_pop fuel block_size alignment_tokens (pop_all cs)
  end.

Definition align_hit (block_size alignment_tokens : Z) (cs : list (list bref)) : result (list (list bref)) :=
  align_pop (S (match cs with [] => O | c :: _ => length c end)) block_size alignment_tokens cs.

(** [if drop_eagle_block and computed_blocks[0]: pop] *)
Definition drop_last (drop : bool) (cs : list (list bref)) : result (list (list bref)) :=
  if drop then n ← first_len cs; Ok (if 0 <? n then pop_all cs else cs) else Ok cs.

(** ** Full attention *)

(** Left to right until the first miss. *)
Fixpoint full_hit_loop (p : BlockPool) (gids : list Z) (hs : list bytes) (cs : list (list bref))
    : result (list (list bref)) :=
  match hs with
  | [] => Ok cs
  | h :: hs =>
      r ← cached_or_none p h gids;
      match r with
      | None => Ok cs
      | Some cached => full_hit_loop p gids hs (append_hit cs cached)
      end
  end.

(** [itertools.islice] refuses a negative count. *)
Definition full_find_longest_cache_hit (p : BlockPool) (hashes : BlockHashList) (max_length : Z)
    (gids : list Z) (spec : KVCacheSpec) (drop_eagle_block : bool) (alignment_tokens dcp pcp : Z)
    : result (list (list bref)) :=
  _ ← py_assert (is_full_attention_spec spec || is_chunked_local_spec spec);
  let bs := if 1 <? dcp * pcp then block_size spec * (dcp * pcp) else block_size spec in
  let max_num_blocks := max_length / bs in
  if max_num_blocks <? 0 then Raise ValueError else
  cs ← full_hit_loop p gids (take (Z.to_nat max_num_blocks) (bhl_list hashes))
         ((λ _, []) <$> gids);
  cs ← drop_last drop_eagle_block cs;
  align_hit bs alignment_tokens cs.

(** ** Sliding window *)

Definition _contiguous_blocks_for_hit (window_size block_size : Z) (use_eagle : bool) : Z :=
  let blocks := cdiv (window_size - 1) block_size in
  if use_eagle then blocks + 1 else blocks.

(** [computed[i] = cached] for every group. *)
Definition set_hit (i : nat) (cs : list (list bref)) (cached : list bref) : list (list bref) :=
  zip_with (λ c b, <[i := b]> c) cs cached.

(** [del computed[n:]] for every group. *)
Definition trim_hit (n : nat) (cs : list (list bref)) : list (list bref) := take n <$> cs.

(** The right-to-left scan over [range(i - 1, -1, -1)]; returns the lists, the
    length of the current run and whether a long enough run was found. *)
Fixpoint sw_hit_loop (p : BlockPool) (hashes : BlockHashList) (gids : list Z) (bs alignment need : Z)
    (drop : bool) (i : nat) (cs : list (list bref)) (run : Z)
    : result (list (list bref) * Z * bool) :=
  match i with
  | O => Ok (cs, run, false)
  | S i =>
      h ← bhl_get hashes (Z.of_nat i);
      r ← cached_or_none p h gids;
      match r with
      | None => sw_hit_loop p hashes gids bs alignment need drop i cs 0
      | Some cached =>
          let post_pop_blocks := if drop then Z.of_nat i else Z.of_nat i + 1 in
          if (run =? 0) && negb (bs =? alignment) && negb ((post_pop_blocks * bs) mod alignment =? 0)
          then sw_hit_loop p hashes gids bs alignment need drop i cs run
          else
            let cs := set_hit i cs cached in
            let run := run + 1 in
            if need <=? run then Ok (trim_hit (i + Z.to_nat run) cs, run, true)
            else sw_hit_loop p hashes gids bs alignment need drop i cs run
      end
  end.

Definition sw_find_longest_cache_hit (p : BlockPool) (hashes : BlockHashList) (max_length : Z)
    (gids : list Z) (spec : KVCacheSpec) (drop_eagle_block : bool) (alignment_tokens dcp pcp : Z)
    : result (list (list bref)) :=
  match get_kv_cache_spec_sliding_window spec with
  | None => Raise AssertionError
  | Some window =>
      _ ← py_assert (dcp =? 1);
      _ ← py_assert (pcp =? 1);
      let bs := block_size spec in
      let need := _contiguous_blocks_for_hit window bs drop_eagle_block in
      let max_num_blocks := max_length / bs in
      let cs := (λ _, replicate (Z.to_nat max_num_blocks) (null_block p)) <$> gids in
      '(cs, run, found) ← sw_hit_loop p hashes gids bs alignment_tokens need drop_eagle_block
                            (Z.to_nat max_num_blocks) cs 0;
      cs ← (if (found : bool) then Ok cs
            else align_hit bs alignment_tokens (trim_hit (Z.to_nat run) cs));
      if drop_eagle_block then
        n ← first_len cs;
        if 0 <? n then align_hit bs alignment_tokens (pop_all cs) else Ok cs
      else Ok cs
  end.

(** [mask[i - start] = True] for the indices of a range that satisfy a test. *)
Definition mark (start : Z) (test : Z → bool) (idxs : list Z) (mask : list bool) : list bool :=
  foldl (λ m i, if test i then <[Z.to_nat (i - start) := true]> m else m) mask idxs.

(** Part (2): the tail of the boundary an exact prompt replay lands on. *)
Definition mark_replay (start_block end_block alignment bs need shift : Z)
    (retention_interval num_prompt_tokens : option Z) (mask : list bool) : list bool :=
  match retention_interval, num_prompt_tokens with
  | Some _, Some n =>
      let latest := (n - 1) / alignment * alignment in
      let prompt_end_block := latest / bs + shift in
      mark start_block (λ _, true)
        (py_range (Z.max start_block (prompt_end_block - need))
           (Z.min end_block prompt_end_block)) mask
  | _, _ => mask
  end.

(** [SlidingWindowManager.reachable_block_mask] *)
Definition sw_reachable_block_mask (start_block end_block : Z) (alignment_tokens : option Z)
    (window bs : Z) (use_eagle : bool) (retention_interval num_prompt_tokens : option Z)
    : result (option (list bool)) :=
  match alignment_tokens with
  | None => Ok None
  | Some alignment =>
      _ ← py_assert (alignment mod bs =? 0);
      let need := _contiguous_blocks_for_hit window bs use_eagle in
      let shift := if use_eagle then 1 else 0 in
      let mask := replicate (Z.to_nat (end_block - start_block)) false in
      let segment_tokens :=
        match retention_interval with
        | None => Some alignment
        | Some 0 => None
        | Some r => Some r
        end in
      let replay := mark_replay start_block end_block alignment bs need shift retention_interval
                      num_prompt_tokens in
      match segment_tokens with
      | None => Ok (Some (replay mask))
      | Some seg =>
          let per_segment := seg / bs in
          if per_segment <=? need then Ok None else
          Ok (Some (replay (mark start_block
            (λ i, (shift <=? i) && (per_segment - need <=? (i - shift) mod per_segment))
            (py_range start_block end_block) mask)))
      end
  end.

(** ** Chunked local attention *)

(** Left to right from block [i]. *)
Fixpoint chunked_hit_loop (p : BlockPool) (hashes : BlockHashList) (gids : list Z) (idxs : list Z)
    (cs : list (list bref)) : result (list (list bref)) :=
  match idxs with
  | [] => Ok cs
  | i :: idxs =>
      h ← bhl_get hashes i;
      r ← cached_or_none p h gids;
      match r with
      | None => Ok cs
      | Some cached => chunked_hit_loop p hashes gids idxs (append_hit cs cached)
      end
  end.

Definition chunked_find_longest_cache_hit (p : BlockPool) (hashes : BlockHashList) (max_length : Z)
    (gids : list Z) (spec : KVCacheSpec) (drop_eagle_block : bool) (alignment_tokens dcp pcp : Z)
    : result (list (list bref)) :=
  match spec with
  | ChunkedLocalAttentionSpec a chunk =>
      _ ← py_assert (negb drop_eagle_block);
      _ ← py_assert (dcp =? 1);
      _ ← py_assert (pcp =? 1);
      let bs := attn_block_size a in
      _ ← py_assert (bs =? alignment_tokens);
      let max_num_blocks := max_length / bs in
      let local_attention_start_idx := if 0 <? max_length then max_length / chunk * chunk else 0 in
      let start := local_attention_start_idx / bs in
      chunked_hit_loop p hashes gids (py_range start max_num_blocks)
        ((λ _, replicate (Z.to_nat start) (null_block p)) <$> gids)
  | _ => Raise AssertionError
  end.

(** ** Mamba *)

(** Right to left until the last aligned hit. *)
Fixpoint mamba_hit_loop (p : BlockPool) (hashes : BlockHashList) (gids : list Z) (bs alignment : Z)
    (i : nat) (cs : list (list bref)) : result (list (list bref)) :=
  match i with
  | O => Ok cs
  | S i =>
      h ← bhl_get hashes (Z.of_nat i);
      r ← cached_or_none p h gids;
      match r with
      | None => mamba_hit_loop p hashes gids bs alignment i cs
      | Some cached =>
          if negb (bs =? alignment) && negb (((Z.of_nat i + 1) * bs) mod alignment =? 0)
          then mamba_hit_loop p hashes gids bs alignment i cs
          else Ok (zip_with (λ c b, c ++ replicate i (null_block p) ++ [b]) cs cached)
      end
  end.

Definition mamba_find_longest_cache_hit (p : BlockPool) (hashes : BlockHashList) (max_length : Z)
    (gids : list Z) (spec : KVCacheSpec) (drop_eagle_block : bool) (alignment_tokens dcp pcp : Z)
    : result (list (list bref)) :=
  match spec with
  | MambaSpec m =>
      _ ← py_assert (dcp =? 1);
      _ ← py_assert (pcp =? 1);
      let bs := mamba_block_size m in
      mamba_hit_loop p hashes gids bs alignment_tokens (Z.to_nat (max_length / bs))
        ((λ _, []) <$> gids)
  | _ => Raise AssertionError
  end.

(** ** What a hit means *)

Section hits.
Context (p : BlockPool) (l : list nat) (gids : list Z).
Context (Hpool : pool_inv p l) (Hgids : Forall valid_group gids) (Hne : gids ≠ []).

(** Block [b] is the cached block of group number [j] for hash [h]. *)
Definition is_hit (h : bytes) (j : nat) (b : bref) : Prop :=
  ∃ g, gids !! j = Some g ∧ head (map_blocks (cached_block_hash_to_block p) (group_key h g)) = Some b.

(** All groups have a cached block for [h]. *)
Definition all_hit (h : bytes) : Prop := is_Some (lookup_groups p h gids).

Lemma cached_or_none_spec h :
  ∃ r, cached_or_none p h gids = Ok r ∧
    match r with
    | Some cached => all_hit h ∧ length cached = length gids ∧
        ∀ j b, cached !! j = Some b → is_hit h j b
    | None => ¬ all_hit h
    end.
Proof.
  unfold cached_or_none. rewrite (get_cached_block_spec p l) by done. cbn [mbind result_bind].
  eexists. split; [done|]. unfold all_hit.
  destruct (lookup_groups p h gids) as [cached|] eqn:E; [|by intros [? [=]]].
  apply mapM_Some in E as HF. pose proof (Forall2_length _ _ _ HF) as Hlen.
  destruct cached as [|b cached]; [by destruct gids|]. split; [done|]. split; [done|].
  intros j b' Hb. destruct (Forall2_lookup_r _ _ _ _ _ HF Hb) as (g & Hg & Hh). by exists g.
Qed.

(** A table of hits: one column per group, all of length [n]. *)
Definition table_of (n : nat) (cs : list (list bref)) : Prop :=
  length cs = length gids ∧ ∀ c, c ∈ cs → length c = n.

(** Rows [lo, hi) of the table are hits of the hashes at these positions. *)
Definition rows_hit (hash : nat → option bytes) (lo hi : nat) (cs : list (list bref)) : Prop :=
  ∀ j c i, cs !! j = Some c → (lo ≤ i < hi)%nat →
    ∃ b h, c !! i = Some b ∧ hash i = Some h ∧ is_hit h j b.

Lemma rows_hit_sub hash lo hi lo' hi' cs :
  rows_hit hash lo hi cs → (lo ≤ lo')%nat → (hi' ≤ hi)%nat → rows_hit hash lo' hi' cs.
Proof. intros H ?? j c i Hc Hi. apply H; [done|lia]. Qed.

Lemma first_len_table n cs : table_of n cs → first_len cs = Ok (Z.of_nat n).
Proof.
  clear Hpool Hgids. intros [Hl Hc]. destruct cs as [|c cs]; [destruct gids; [done|simpl in Hl; lia]|].
  simpl. unfold zlen. by rewrite Hc by set_solver.
Qed.

Lemma table_nil : table_of 0 ((λ _, []) <$> gids).
Proof. split; [by rewrite length_fmap|]. by intros c (_ & -> & _)%list_elem_of_fmap. Qed.

Lemma table_replicate n b : table_of n ((λ _, replicate n b) <$> gids).
Proof.
  split; [by rewrite length_fmap|]. intros c (_ & -> & _)%list_elem_of_fmap. apply length_replicate.
Qed.

Lemma trim_table n m cs : table_of n cs → (m ≤ n)%nat → table_of m (trim_hit m cs).
Proof.
  intros [Hl Hc] Hm. unfold trim_hit. split; [by rewrite length_fmap|].
  intros c (c' & -> & Hc')%list_elem_of_fmap. rewrite length_take, (Hc c') by done. lia.
Qed.

Lemma trim_rows hash lo hi m cs :
  rows_hit hash lo hi cs → (hi ≤ m)%nat → rows_hit hash lo hi (trim_hit m cs).
Proof.
  clear Hpool Hgids Hne. intros H Hm j c i Hc Hi. unfold trim_hit in Hc. rewrite list_lookup_fmap in Hc.
  destruct (cs !! j) as [c'|] eqn:E; simplify_eq/=.
  destruct (H j c' i E Hi) as (b & h & Hb & Hh & Hit). exists b, h.
  split; [|done]. rewrite lookup_take_lt by lia. done.
Qed.

Lemma pop_all_trim n cs : table_of n cs → pop_all cs = trim_hit (n - 1) cs.
Proof.
  intros [_ Hc]. unfold pop_all, trim_hit. apply list_fmap_ext. intros i c Hi.
  apply list_elem_of_lookup_2 in Hi. by rewrite (Hc c Hi).
Qed.

Lemma trim_trim n m cs : (m ≤ n)%nat → trim_hit m (trim_hit n cs) = trim_hit m cs.
Proof.
  intros Hm. unfold trim_hit. rewrite <-list_fmap_compose. apply list_fmap_ext.
  intros i c _. simpl. rewrite take_take. f_equal. lia.
Qed.

Lemma trim_all n cs : table_of n cs → trim_hit n cs = cs.
Proof.
  intros [_ Hc]. unfold trim_hit. apply list_eq. intros j. rewrite list_lookup_fmap.
  destruct (cs !! j) as [c|] eqn:E; [|done]. simpl. f_equal. apply take_ge.
  apply list_elem_of_lookup_2 in E. by rewrite (Hc c E).
Qed.

(** The largest length up to [n] that is a multiple of the alignment. *)
Fixpoint align_len (bs al : Z) (n : nat) : nat :=
  if bs =? al then n else
  if (Z.of_nat n * bs) mod al =? 0 then n else match n with O => O | S n => align_len bs al n end.

Lemma align_len_le bs al n : (align_len bs al n ≤ n)%nat.
Proof.
  induction n as [|n IH]; cbn [align_len]; destruct (bs =? al); try lia;
    destruct (_ mod al =? 0); lia.
Qed.

Lemma align_len_aligned bs al n : al ≠ 0 → (Z.of_nat (align_len bs al n) * bs) mod al = 0.
Proof.
  intros Hal. induction n as [|n IH]; cbn [align_len].
  - destruct (bs =? al); [|destruct ((Z.of_nat 0 * bs) mod al =? 0)]; simpl; by apply Z.mod_0_l.
  - destruct (Z.eqb_spec bs al) as [->|]; [by apply Z.mod_mul|].
    destruct (Z.eqb_spec ((Z.of_nat (S n) * bs) mod al) 0); [done|]. apply IH.
Qed.

Lemma align_len_id bs al n :
  bs = al ∨ (Z.of_nat n * bs) mod al = 0 → align_len bs al n = n.
Proof.
  intros [->|H]; destruct n; cbn [align_len]; rewrite ?Z.eqb_refl, ?H; try done;
    destruct (bs =? al); done.
Qed.

Lemma align_pop_spec fuel bs al n cs :
  table_of n cs → (n < fuel)%nat → al ≠ 0 →
  align_pop fuel bs al cs = Ok (trim_hit (align_len bs al n) cs).
Proof.
  clear Hpool Hgids. intros Ht Hf Hal. revert n cs Ht Hf. induction fuel as [|fuel IH]; intros n cs Ht Hf; [lia|].
  cbn [align_pop]. destruct (bs =? al) eqn:E.
  { destruct n; cbn [align_len]; rewrite E; by rewrite trim_all. }
  rewrite (first_len_table n) by done. cbn [mbind result_bind].
  destruct n as [|n]; cbn [align_len]; rewrite E.
  { rewrite Z.mod_0_l by done. simpl. by rewrite trim_all. }
  destruct (_ mod al =? 0) eqn:E'; [by rewrite trim_all|].
  rewrite (pop_all_trim (S n)) by done. replace (S n - 1)%nat with n by lia.
  rewrite (IH n); [|apply (trim_table (S n)); [done|lia]|lia].
  by rewrite trim_trim by apply align_len_le.
Qed.

Lemma align_hit_spec bs al n cs :
  table_of n cs → al ≠ 0 → align_hit bs al cs = Ok (trim_hit (align_len bs al n) cs).
Proof.
  clear Hpool Hgids. intros Ht Hal. apply align_pop_spec; [done| |done].
  destruct Ht as [Hl Hc]. destruct cs as [|c cs]; [destruct gids; [done|simpl in Hl; lia]|].
  rewrite (Hc c) by set_solver. lia.
Qed.

Lemma drop_last_spec drop n cs :
  table_of n cs → drop_last drop cs = Ok (trim_hit (if drop then n - 1 else n)%nat cs).
Proof.
  intros Ht. unfold drop_last. destruct drop; [|by rewrite trim_all].
  rewrite (first_len_table n) by done. simpl. destruct (Z.ltb_spec 0 (Z.of_nat n)).
  - by rewrite (pop_all_trim n).
  - assert (n = 0%nat) as -> by lia. simpl. by rewrite trim_all.
Qed.

(** *** Full attention *)

(** Hashes hit from the left. *)
Fixpoint hit_run (hs : list bytes) : nat :=
  match hs with
  | [] => 0%nat
  | h :: hs => match lookup_groups p h gids with Some _ => S (hit_run hs) | None => 0%nat end
  end.

Lemma append_hit_table n cs cached :
  table_of n cs → length cached = length gids → table_of (S n) (append_hit cs cached).
Proof.
  intros [Hl Hc] Hlen. split; [unfold append_hit; rewrite length_zip_with; lia|].
  intros c (j & Hj)%list_elem_of_lookup. unfold append_hit in Hj.
  apply lookup_zip_with_Some in Hj as (c' & b & -> & Hc' & _).
  apply list_elem_of_lookup_2 in Hc'. rewrite length_app, (Hc c') by done. simpl. lia.
Qed.

Lemma append_hit_rows hash lo n cs cached h :
  table_of n cs → rows_hit hash lo n cs → hash n = Some h →
  (∀ j b, cached !! j = Some b → is_hit h j b) →
  rows_hit hash lo (S n) (append_hit cs cached).
Proof.
  intros [Hl Hc] Hr Hh Hcached j c i Hj Hi. unfold append_hit in Hj.
  apply lookup_zip_with_Some in Hj as (c' & b & -> & Hc' & Hb).
  pose proof (Hc c' (list_elem_of_lookup_2 _ _ _ Hc')) as Hlen.
  destruct (decide (i = n)) as [->|Hne'].
  - exists b, h. split; [|by auto]. rewrite lookup_app_r by lia.
    by replace (n - length c')%nat with 0%nat by lia.
  - destruct (Hr j c' i Hc' ltac:(lia)) as (b' & h' & Hb' & Hh' & Hit).
    exists b', h'. split; [|done]. by rewrite lookup_app_l by lia.
Qed.

Lemma full_hit_loop_spec hs n cs hash :
  table_of n cs → rows_hit hash 0 n cs → (∀ i, hs !! i = hash (n + i)%nat) →
  ∃ cs', full_hit_loop p gids hs cs = Ok cs' ∧ table_of (n + hit_run hs) cs' ∧
         rows_hit hash 0 (n + hit_run hs) cs'.
Proof.
  revert n cs. induction hs as [|h hs IH]; intros n cs Ht Hr Hh; cbn [full_hit_loop hit_run].
  { exists cs. by rewrite Nat.add_0_r. }
  destruct (cached_or_none_spec h) as (r & -> & Hcase). cbn [mbind result_bind].
  destruct r as [cached|].
  - destruct Hcase as ([? ->] & Hlen & Hcached).
    edestruct (IH (S n) (append_hit cs cached)) as (cs' & -> & Ht' & Hr').
    + by apply append_hit_table.
    + eapply append_hit_rows; [done|done| |done]. specialize (Hh 0%nat).
      rewrite Nat.add_0_r in Hh. by rewrite <-Hh.
    + intros i. specialize (Hh (S i)). simpl in Hh. rewrite Hh. f_equal. lia.
    + exists cs'. rewrite <-Nat.add_succ_comm. done.
  - unfold all_hit in Hcase. destruct (lookup_groups p h gids); [by destruct Hcase|].
    exists cs. by rewrite Nat.add_0_r.
Qed.

Lemma hit_run_le hs : (hit_run hs ≤ length hs)%nat.
Proof. induction hs as [|h hs IH]; simpl; [lia|]. destruct (lookup_groups _ _ _); lia. Qed.

(** The run is maximal. *)
Lemma hit_run_max hs h : hs !! hit_run hs = Some h → ¬ all_hit h.
Proof.
  unfold all_hit. induction hs as [|h' hs IH]; simpl; [done|].
  destruct (lookup_groups p h' gids) as [c|] eqn:E; simpl; [done|].
  intros [= <-] [? ?]. congruence.
Qed.

(** *** Sliding window *)

(** The hash at position [i], if it can be read. *)
Definition hash_of (hashes : BlockHashList) (i : nat) : option bytes :=
  match bhl_get hashes (Z.of_nat i) with Ok h => Some h | Raise _ => None end.

Lemma set_hit_table n i cs cached :
  table_of n cs → length cached = length gids → table_of n (set_hit i cs cached).
Proof.
  intros [Hl Hc] Hlen. unfold set_hit. split; [rewrite length_zip_with; lia|].
  intros c (j & Hj)%list_elem_of_lookup.
  apply lookup_zip_with_Some in Hj as (c' & b & -> & Hc' & _).
  rewrite length_insert. apply Hc. by eapply list_elem_of_lookup_2.
Qed.

Lemma set_hit_rows hash n i hi cs cached h :
  table_of n cs → (i < n)%nat → rows_hit hash (S i) hi cs → hash i = Some h →
  (∀ j b, cached !! j = Some b → is_hit h j b) → rows_hit hash i hi (set_hit i cs cached).
Proof.
  intros [Hl Hc] Hin Hr Hh Hcached j c k Hj Hk. unfold set_hit in Hj.
  apply lookup_zip_with_Some in Hj as (c' & b & -> & Hc' & Hb).
  destruct (decide (k = i)) as [->|Hne'].
  - exists b, h. split; [|by auto]. apply list_lookup_insert_eq.
    rewrite (Hc c'); [done|]. by eapply list_elem_of_lookup_2.
  - destruct (Hr j c' k Hc' ltac:(lia)) as (b' & h' & ? & ? & ?). exists b', h'.
    split; [|done]. by rewrite list_lookup_insert_ne by lia.
Qed.

(** The end of a run is aligned once the lookahead block is dropped. *)
Definition run_end_ok (bs al : Z) (drop : bool) (e : nat) : Prop :=
  bs = al ∨ (Z.of_nat (if drop then e - 1 else e)%nat * bs) mod al = 0.

Lemma sw_hit_loop_spec hashes bs al need drop n i (run : nat) cs :
  table_of n cs → (i + run ≤ n)%nat → (∀ k, (k < n)%nat → is_Some (hash_of hashes k)) →
  rows_hit (hash_of hashes) i (i + run) cs → ((0 < run)%nat → run_end_ok bs al drop (i + run)) →
  ∃ cs' (run' : nat) found n',
    sw_hit_loop p hashes gids bs al need drop i cs (Z.of_nat run) = Ok (cs', Z.of_nat run', found) ∧
    table_of n' cs' ∧ (run' ≤ n' ≤ n)%nat ∧
    (if (found : bool)
     then need ≤ Z.of_nat run' ∧ rows_hit (hash_of hashes) (n' - run') n' cs' ∧ run_end_ok bs al drop n'
     else rows_hit (hash_of hashes) 0 run' cs').
Proof.
  intros Ht Hin Hall. revert run cs Ht Hin. induction i as [|i IH]; intros run cs Ht Hin Hr He.
  { exists cs, run, false, n. simpl. split_and!; [done|done|lia|lia|]. done. }
  cbn [sw_hit_loop]. destruct (Hall i ltac:(lia)) as [h Hh]. pose proof Hh as Hh'. unfold hash_of in Hh'.
  destruct (bhl_get hashes (Z.of_nat i)) as [h0|]; [injection Hh' as ->|done]. cbn [mbind result_bind].
  destruct (cached_or_none_spec h) as (r & -> & Hcase). cbn [mbind result_bind].
  destruct r as [cached|].
  2:{ apply (IH 0%nat); [done|lia| |lia]. intros j c k _ ?. lia. }
  destruct Hcase as (_ & Hlen & Hcached).
  destruct ((Z.of_nat run =? 0) && negb (bs =? al) &&
    negb (((if drop then Z.of_nat i else Z.of_nat i + 1) * bs) mod al =? 0)) eqn:Hskip.
  { apply andb_prop in Hskip as [[Hrun%Z.eqb_eq _]%andb_prop _].
    assert (run = 0%nat) as -> by lia.
    apply (IH 0%nat); [done|lia| |lia]. intros j c k _ ?. lia. }
  assert (run_end_ok bs al drop (i + S run)) as He'.
  { destruct run as [|run]; [|replace (i + S (S run))%nat with (S i + S run)%nat by lia; apply He; lia].
    unfold run_end_ok. destruct (Z.eqb_spec bs al) as [|_]; [by left|]. right.
    rewrite Z.eqb_refl in Hskip. simpl in Hskip. apply negb_false_iff, Z.eqb_eq in Hskip.
    rewrite <-Hskip. do 2 f_equal. destruct drop; lia. }
  assert (rows_hit (hash_of hashes) i (i + S run) (set_hit i cs cached)) as Hr'.
  { eapply set_hit_rows; [done|lia| |done|done].
    replace (i + S run)%nat with (S i + run)%nat by lia. done. }
  pose proof (set_hit_table n i cs cached Ht Hlen) as Ht'.
  replace (Z.of_nat run + 1) with (Z.of_nat (S run)) by lia.
  destruct (Z.leb_spec need (Z.of_nat (S run))) as [Hneed|Hneed].
  - exists (trim_hit (i + S run) (set_hit i cs cached)), (S run), true, (i + S run)%nat.
    rewrite Nat2Z.id. split; [done|]. split; [apply (trim_table n); [done|lia]|]. split; [lia|].
    split; [done|]. split; [|done]. replace (i + S run - S run)%nat with i by lia.
    by apply trim_rows.
  - apply IH; [done|lia|done|]. intros _. done.
Qed.

(** Cutting a table of hits at an aligned length. *)
Lemma align_rows hash lo n bs al cs :
  table_of n cs → al ≠ 0 → rows_hit hash lo n cs →
  ∃ cs' n', align_hit bs al cs = Ok cs' ∧ table_of n' cs' ∧ n' = align_len bs al n ∧
    (Z.of_nat n' * bs) mod al = 0 ∧ rows_hit hash lo n' cs'.
Proof.
  intros Ht Hal Hr. rewrite (align_hit_spec bs al n) by done. eexists _, _. split; [done|].
  pose proof (align_len_le bs al n). split; [by apply (trim_table n)|]. split; [done|].
  split; [by apply align_len_aligned|].
  apply trim_rows; [|done]. by eapply rows_hit_sub.
Qed.

(** The sliding-window lookup: the returned table is aligned, and its last
    blocks, all a window reaches back to, are hits. *)
Lemma sw_find_spec hashes max_length spec window drop al :
  get_kv_cache_spec_sliding_window spec = Some window → 0 < window → 0 < block_size spec → 0 < al →
  0 ≤ max_length → (∀ k, (k < Z.to_nat (max_length / block_size spec))%nat → is_Some (hash_of hashes k)) →
  ∃ cs n, sw_find_longest_cache_hit p hashes max_length gids spec drop al 1 1 = Ok cs ∧
    table_of n cs ∧ (Z.of_nat n * block_size spec) mod al = 0 ∧
    Z.of_nat n * block_size spec ≤ (if drop then Z.max 0 (max_length - block_size spec) else max_length) ∧
    rows_hit (hash_of hashes) (n - Z.to_nat (cdiv (window - 1) (block_size spec))) n cs.
Proof.
  intros Hw Hwin Hbs Hal Hmax Hall. unfold sw_find_longest_cache_hit. rewrite Hw. simpl.
  set (bs := block_size spec) in *. set (N := Z.to_nat (max_length / bs)) in *.
  assert (∀ m, (m ≤ N)%nat → Z.of_nat m * bs ≤ max_length) as HN.
  { intros m Hm. pose proof (Z.mul_div_le max_length bs Hbs). unfold N in Hm.
    assert (Z.of_nat m ≤ max_length / bs) by (pose proof (Z.div_pos max_length bs); lia). nia. }
  set (need := _contiguous_blocks_for_hit window bs drop).
  destruct (sw_hit_loop_spec hashes bs al need drop N N 0 ((λ _, replicate N (null_block p)) <$> gids))
    as (cs & run & found & n & Hloop & Ht & Hn & Hpost);
    [apply table_replicate|lia|done| |lia|].
  { intros j c k _ ?. lia. }
  change (Z.of_nat 0) with 0 in Hloop. rewrite Hloop. cbn [mbind result_bind].
  set (w := Z.to_nat (cdiv (window - 1) bs)).
  (* whatever was found, the table ends in enough hits *)
  assert (∃ cs1 n1, (if found then Ok cs else align_hit bs al (trim_hit (Z.to_nat (Z.of_nat run)) cs)) = Ok cs1 ∧
    table_of n1 cs1 ∧ (n1 ≤ N)%nat ∧ (drop = false → (Z.of_nat n1 * bs) mod al = 0) ∧
    (if drop then run_end_ok bs al drop n1 ∨ rows_hit (hash_of hashes) 0 n1 cs1 else True) ∧
    rows_hit (hash_of hashes) (n1 - (if drop then S w else w)) n1 cs1)
    as (cs1 & n1 & -> & Ht1 & Hn1 & Hal1 & Hend & Hr1).
  { destruct found.
    - destruct Hpost as (Hneed & Hr & He). exists cs, n. split; [done|]. split; [done|]. split; [lia|].
      split; [|split].
      + intros ->. destruct He as [He|He]; [rewrite He; apply Z.mod_mul; lia|done].
      + destruct drop; [by left|done].
      + eapply rows_hit_sub; [done| |done]. unfold need, _contiguous_blocks_for_hit in Hneed. unfold w.
        pose proof (cdiv_nonneg (window - 1) bs Hbs ltac:(lia)). destruct drop; lia.
    - rewrite Nat2Z.id.
      destruct (align_rows (hash_of hashes) 0 run bs al (trim_hit run cs))
        as (cs' & n' & -> & Ht' & -> & Hal' & Hr'); [by apply (trim_table n); [|lia]|lia|by apply trim_rows|].
      exists cs', (align_len bs al run). pose proof (align_len_le bs al run).
      split; [done|]. split; [done|]. split; [lia|]. split; [done|]. split.
      + destruct drop; [by right|done].
      + eapply rows_hit_sub; [done|lia|done]. }
  cbn [mbind result_bind]. destruct drop; [|exists cs1, n1; split_and!; [done|done|by apply Hal1|by apply HN|done]].
  rewrite (first_len_table n1) by done. cbn [mbind result_bind].
  destruct (Z.ltb_spec 0 (Z.of_nat n1)) as [Hpos|Hzero].
  2:{ assert (n1 = 0%nat) as -> by lia. exists cs1, 0%nat. split; [done|]. split; [done|].
      split; [apply Z.mod_0_l; lia|]. split; [lia|]. intros j c k _ ?. lia. }
  rewrite (pop_all_trim n1) by done.
  assert (table_of (n1 - 1) (trim_hit (n1 - 1) cs1)) as Ht2 by (apply (trim_table n1); [done|lia]).
  rewrite (align_hit_spec bs al (n1 - 1)) by (done || lia).
  pose proof (align_len_le bs al (n1 - 1)).
  eexists _, (align_len bs al (n1 - 1)). split; [done|]. split; [by apply (trim_table (n1 - 1))|].
  split; [apply align_len_aligned; lia|]. split; [specialize (HN n1 Hn1); nia|].
  apply trim_rows; [|done]. apply trim_rows; [|lia]. destruct Hend as [He|Hr0].
  - rewrite (align_len_id bs al (n1 - 1)) by exact He. eapply rows_hit_sub; [done|lia|lia].
  - eapply rows_hit_sub; [exact Hr0|lia|lia].
Qed.

(** *** Mamba and chunked local attention *)

Lemma mamba_loop_spec hashes bs al i :
  (∀ k, (k < i)%nat → is_Some (hash_of hashes k)) → 0 < al →
  ∃ cs n, mamba_hit_loop p hashes gids bs al i ((λ _, []) <$> gids) = Ok cs ∧ table_of n cs ∧
    (n ≤ i)%nat ∧ (Z.of_nat n * bs) mod al = 0 ∧ rows_hit (hash_of hashes) (n - 1) n cs.
Proof.
  intros Hall Hal. induction i as [|i IH]; cbn [mamba_hit_loop].
  { eexists _, 0%nat. split; [done|]. split; [apply table_nil|]. split; [lia|].
    split; [apply Z.mod_0_l; lia|]. intros j c k _ ?. lia. }
  destruct IH as (cs & n & -> & Ht & Hn & Ha & Hr); [intros; apply Hall; lia|].
  destruct (Hall i ltac:(lia)) as [h Hh]. pose proof Hh as Hh'. unfold hash_of in Hh'.
  destruct (bhl_get hashes (Z.of_nat i)) as [h0|]; [injection Hh' as ->|done]. cbn [mbind result_bind].
  destruct (cached_or_none_spec h) as (r & -> & Hcase). cbn [mbind result_bind].
  assert (∃ cs' n', Ok cs = Ok cs' ∧ table_of n' cs' ∧ (n' ≤ S i)%nat ∧
    (Z.of_nat n' * bs) mod al = 0 ∧ rows_hit (hash_of hashes) (n' - 1) n' cs') as Hcont.
  { exists cs, n. split_and!; (done || lia). }
  destruct r as [cached|]; [|exact Hcont]. destruct Hcase as (_ & Hlen & Hcached).
  destruct (negb (bs =? al) && negb (((Z.of_nat i + 1) * bs) mod al =? 0)) eqn:Hsk; [exact Hcont|].
  clear Hcont. eexists _, (S i). split; [done|]. split; [split|split; [lia|split]].
  - rewrite length_zip_with, length_fmap. lia.
  - intros c (j & Hj)%list_elem_of_lookup.
    apply lookup_zip_with_Some in Hj as (c' & b & -> & Hc' & _).
    rewrite list_lookup_fmap in Hc'. destruct (gids !! j); simplify_eq/=.
    rewrite length_app, length_replicate. simpl. lia.
  - destruct (Z.eqb_spec bs al) as [->|]; simpl in Hsk; [apply Z.mod_mul; lia|].
    apply negb_false_iff, Z.eqb_eq in Hsk. rewrite <-Hsk. do 2 f_equal. lia.
  - intros j c k Hj Hk. assert (k = i) as -> by lia.
    apply lookup_zip_with_Some in Hj as (c' & b & -> & Hc' & Hb).
    rewrite list_lookup_fmap in Hc'. destruct (gids !! j) eqn:Eg; simplify_eq/=.
    exists b, h. split; [|by auto]. rewrite lookup_app_r by (rewrite length_replicate; lia).
    by rewrite length_replicate, Nat.sub_diag.
Qed.

Lemma chunked_loop_spec hashes m lo n cs :
  table_of n cs → rows_hit (hash_of hashes) lo n cs →
  (∀ k, (k < n + m)%nat → is_Some (hash_of hashes k)) →
  ∃ cs' n', chunked_hit_loop p hashes gids (py_range (Z.of_nat n) (Z.of_nat (n + m))) cs = Ok cs' ∧
    table_of n' cs' ∧ (n ≤ n' ≤ n + m)%nat ∧ rows_hit (hash_of hashes) lo n' cs'.
Proof.
  revert n cs. induction m as [|m IH]; intros n cs Ht Hr Hall.
  { exists cs, n. replace (n + 0)%nat with n by lia. unfold py_range. rewrite Z.sub_diag.
    split_and!; (done || lia). }
  assert (py_range (Z.of_nat n) (Z.of_nat (n + S m)) =
          Z.of_nat n :: py_range (Z.of_nat (S n)) (Z.of_nat (S n + m))) as ->.
  { unfold py_range. replace (Z.to_nat (Z.of_nat (n + S m) - Z.of_nat n)) with (S m) by lia.
    replace (Z.to_nat (Z.of_nat (S n + m) - Z.of_nat (S n))) with m by lia. csimpl.
    rewrite Z.add_0_r. f_equal. rewrite <-fmap_S_seq, <-list_fmap_compose.
    apply list_fmap_ext. intros i x _. simpl. lia. }
  cbn [chunked_hit_loop]. destruct (Hall n ltac:(lia)) as [h Hh]. pose proof Hh as Hh'. unfold hash_of in Hh'.
  destruct (bhl_get hashes (Z.of_nat n)) as [h0|]; [injection Hh' as ->|done]. cbn [mbind result_bind].
  destruct (cached_or_none_spec h) as (r & -> & Hcase). cbn [mbind result_bind].
  destruct r as [cached|]; [|exists cs, n; split_and!; (done || lia)].
  destruct Hcase as (_ & Hlen & Hcached).
  destruct (IH (S n) (append_hit cs cached)) as (cs' & n' & -> & Ht' & Hn' & Hr').
  - by apply append_hit_table.
  - by eapply append_hit_rows.
  - intros k Hk. apply Hall. lia.
  - exists cs', n'. split_and!; (done || lia).
Qed.
End hits.

(** ** The lookups *)

Lemma full_hit_spec p l gids hashes max_length spec (drop : bool) al dcp pcp :
  pool_inv p l → Forall valid_group gids → gids ≠ [] →
  is_full_attention_spec spec = true → 0 < block_size spec → 1 ≤ dcp * pcp → 0 < al → 0 ≤ max_length →
  let bs := block_size spec * (dcp * pcp) in
  let hs := take (Z.to_nat (max_length / bs)) (bhl_list hashes) in
  let k := hit_run p gids hs in
  let n := align_len bs al (if drop then k - 1 else k)%nat in
  ∃ cs, full_find_longest_cache_hit p hashes max_length gids spec drop al dcp pcp = Ok cs ∧
    table_of gids n cs ∧ rows_hit p gids (λ i, hs !! i) 0 n cs ∧
    Z.of_nat n * bs ≤ (if drop then Z.max 0 (max_length - bs) else max_length) ∧ (Z.of_nat n * bs) mod al = 0 ∧
    (∀ h, hs !! k = Some h → ¬ all_hit p gids h).
Proof.
  intros Hp Hg Hne Hspec Hbs Hws Hal Hmax bs hs k n. unfold full_find_longest_cache_hit.
  rewrite Hspec. cbn [orb py_assert mbind result_bind].
  assert ((if 1 <? dcp * pcp then block_size spec * (dcp * pcp) else block_size spec) = bs) as ->.
  { unfold bs. destruct (Z.ltb_spec 1 (dcp * pcp)); [done|]. replace (dcp * pcp) with 1 by lia. lia. }
  assert (0 < bs) as Hbs' by (unfold bs; nia).
  assert (0 ≤ max_length / bs) as Hmb by (apply Z.div_pos; lia).
  rewrite (proj2 (Z.ltb_ge _ _)) by lia. fold hs.
  destruct (full_hit_loop_spec p l gids Hp Hg Hne hs 0 ((λ _, []) <$> gids) (λ i, hs !! i))
    as (cs & -> & Ht & Hr); [by apply table_nil| |done|].
  { intros j c i _ ?. lia. }
  cbn [mbind result_bind]. simpl in Ht, Hr. fold k in Ht, Hr.
  rewrite (drop_last_spec gids Hne drop k) by done. cbn [mbind result_bind].
  set (k' := (if drop then k - 1 else k)%nat) in *.
  assert (k' ≤ k)%nat as Hk' by (unfold k'; destruct drop; lia).
  rewrite (align_hit_spec gids Hne bs al k') by (lia || by eapply trim_table).
  pose proof (align_len_le bs al k') as Hn. fold n in Hn.
  pose proof (hit_run_le p gids hs) as Hrun. fold k in Hrun.
  assert (k ≤ Z.to_nat (max_length / bs))%nat.
  { etransitivity; [exact Hrun|]. unfold hs. rewrite length_take. lia. }
  rewrite trim_trim by done. eexists. split; [done|]. split; [apply (trim_table gids k); [done|lia]|].
  split; [apply trim_rows; [|done]; eapply rows_hit_sub; [done|lia|lia]|].
  split; [|split; [apply align_len_aligned; lia|by apply hit_run_max]].
  pose proof (Z.mul_div_le max_length bs Hbs').
  assert (Z.of_nat n ≤ if drop then Z.max 0 (max_length / bs - 1) else max_length / bs) by (unfold k' in Hn; destruct drop; lia).
  destruct drop; nia.
Qed.

Lemma mamba_find_spec p l gids hashes max_length m (drop : bool) al :
  pool_inv p l → Forall valid_group gids → gids ≠ [] → 0 < mamba_block_size m → 0 < al → 0 ≤ max_length →
  (∀ k, (k < Z.to_nat (max_length / mamba_block_size m))%nat → is_Some (hash_of hashes k)) →
  ∃ cs n, mamba_find_longest_cache_hit p hashes max_length gids (MambaSpec m) drop al 1 1 = Ok cs ∧
    table_of gids n cs ∧ (Z.of_nat n * mamba_block_size m) mod al = 0 ∧
    Z.of_nat n * mamba_block_size m ≤ max_length ∧ rows_hit p gids (hash_of hashes) (n - 1) n cs.
Proof.
  intros Hp Hg Hne Hbs Hal Hmax Hall. unfold mamba_find_longest_cache_hit. simpl.
  destruct (mamba_loop_spec p l gids Hp Hg Hne hashes (mamba_block_size m) al
    (Z.to_nat (max_length / mamba_block_size m)) Hall Hal) as (cs & n & -> & Ht & Hn & Ha & Hr).
  exists cs, n. split_and!; try done.
  pose proof (Z.mul_div_le max_length (mamba_block_size m) Hbs).
  pose proof (Z.div_pos max_length (mamba_block_size m)).
  assert (Z.of_nat n ≤ max_length / mamba_block_size m) by lia. nia.
Qed.

(** ** Properties *)

(** The full-attention lookup returns the longest prefix of cached blocks:
    one column per group, every entry the cached block of its hash and group, no
    longer than allowed and aligned; before the lookahead drop and the
    alignment, the next hash misses in some group. *)
Theorem full_hit_correct p l gids hashes max_length spec (drop : bool) al dcp pcp :
  pool_inv p l → Forall valid_group gids → gids ≠ [] →
  is_full_attention_spec spec = true → 0 < block_size spec → 1 ≤ dcp * pcp → 0 < al → 0 ≤ max_length →
  let bs := block_size spec * (dcp * pcp) in
  let hs := take (Z.to_nat (max_length / bs)) (bhl_list hashes) in
  let k := hit_run p gids hs in
  let n := align_len bs al (if drop then k - 1 else k)%nat in
  ∃ cs, full_find_longest_cache_hit p hashes max_length gids spec drop al dcp pcp = Ok cs ∧
    table_of gids n cs ∧ rows_hit p gids (λ i, hs !! i) 0 n cs ∧
    Z.of_nat n * bs ≤ max_length ∧ (Z.of_nat n * bs) mod al = 0 ∧
    (∀ h, hs !! k = Some h → ¬ all_hit p gids h).
Proof.
  intros Hp Hg Hne Hspec Hbs Hws Hal Hmax bs hs k n.
  destruct (full_hit_spec p l gids hashes max_length spec drop al dcp pcp Hp Hg Hne Hspec Hbs Hws Hal Hmax)
    as (cs & ? & ? & ? & Hn & ? & ?).
  exists cs. split_and!; try done. fold bs hs k n in Hn. destruct drop; [|done].
  assert (0 ≤ Z.of_nat n * bs) by (unfold bs; nia). unfold bs in *. nia.
Qed.

(** The sliding-window lookup returns an aligned table no longer than
    allowed in which every block that the window of the next token reaches,
    [cdiv (window - 1) block_size] of them, is the cached block of its hash in
    its group, also when the lookahead block is dropped. *)
Theorem sliding_window_hit_correct p l gids hashes max_length spec window (drop : bool) al :
  pool_inv p l → Forall valid_group gids → gids ≠ [] →
  get_kv_cache_spec_sliding_window spec = Some window → 0 < window → 0 < block_size spec → 0 < al →
  0 ≤ max_length → (∀ k, (k < Z.to_nat (max_length / block_size spec))%nat → is_Some (hash_of hashes k)) →
  ∃ cs n, sw_find_longest_cache_hit p hashes max_length gids spec drop al 1 1 = Ok cs ∧
    table_of gids n cs ∧ (Z.of_nat n * block_size spec) mod al = 0 ∧
    Z.of_nat n * block_size spec ≤ max_length ∧
    rows_hit p gids (hash_of hashes) (n - Z.to_nat (cdiv (window - 1) (block_size spec))) n cs.
Proof.
  intros Hp Hg Hne Hw Hwin Hbs Hal Hmax Hall.
  destruct (sw_find_spec p l gids Hp Hg Hne hashes max_length spec window drop al Hw Hwin Hbs Hal Hmax Hall)
    as (cs & n & ? & ? & ? & Hn & ?).
  exists cs, n. split_and!; try done. destruct drop; [|done]. pose proof (Z.mul_nonneg_nonneg (Z.of_nat n) (block_size spec)).
  lia.
Qed.

(** The Mamba lookup returns an aligned table whose last block, the state it
    resumes from, is the cached block of its hash in every group. *)
Theorem mamba_hit_correct p l gids hashes max_length m (drop : bool) al :
  pool_inv p l → Forall valid_group gids → gids ≠ [] → 0 < mamba_block_size m → 0 < al → 0 ≤ max_length →
  (∀ k, (k < Z.to_nat (max_length / mamba_block_size m))%nat → is_Some (hash_of hashes k)) →
  ∃ cs n, mamba_find_longest_cache_hit p hashes max_length gids (MambaSpec m) drop al 1 1 = Ok cs ∧
    table_of gids n cs ∧ (Z.of_nat n * mamba_block_size m) mod al = 0 ∧
    Z.of_nat n * mamba_block_size m ≤ max_length ∧ rows_hit p gids (hash_of hashes) (n - 1) n cs.
Proof. apply mamba_find_spec. Qed.

(** The chunked-local lookup returns a table in which exactly the blocks
    before the current chunk are assumed computed and every later one is the
    cached block of its hash; blocks of the current chunk are only taken in
    order up to the first miss. *)
Theorem chunked_hit_correct p l gids hashes max_length a chunk :
  pool_inv p l → Forall valid_group gids → gids ≠ [] → 0 < attn_block_size a → 0 < chunk → 0 < max_length →
  (∀ k, (k < Z.to_nat (max_length / attn_block_size a))%nat → is_Some (hash_of hashes k)) →
  let bs := attn_block_size a in
  let start := max_length / chunk * chunk / bs in
  ∃ cs n, chunked_find_longest_cache_hit p hashes max_length gids (ChunkedLocalAttentionSpec a chunk)
            false bs 1 1 = Ok cs ∧
    table_of gids n cs ∧ start ≤ Z.of_nat n ∧ Z.of_nat n * bs ≤ max_length ∧
    rows_hit p gids (hash_of hashes) (Z.to_nat start) n cs.
Proof.
  intros Hp Hg Hne Hbs Hch Hmax Hall bs start. unfold chunked_find_longest_cache_hit. fold bs. simpl.
  rewrite Z.eqb_refl. cbn [py_assert mbind result_bind]. rewrite (proj2 (Z.ltb_lt _ _)) by done. fold start.
  assert (0 ≤ start ≤ max_length / bs) as Hst.
  { unfold start. pose proof (Z.mul_div_le max_length chunk Hch).
    assert (0 ≤ max_length / chunk * chunk) by (pose proof (Z.div_pos max_length chunk); nia).
    split; [by apply Z.div_pos|]. apply Z.div_le_mono; [done|]. lia. }
  destruct (chunked_loop_spec p l gids Hp Hg Hne hashes (Z.to_nat (max_length / bs - start)) (Z.to_nat start)
    (Z.to_nat start) ((λ _, replicate (Z.to_nat start) (null_block p)) <$> gids))
    as (cs & n & Hrun & Ht & Hn & Hr).
  - apply table_replicate.
  - intros j c i _ ?. lia.
  - intros k Hk. apply Hall. fold bs. lia.
  - replace (Z.of_nat (Z.to_nat start)) with start in Hrun by lia.
    replace (Z.of_nat (Z.to_nat start + Z.to_nat (max_length / bs - start))) with (max_length / bs) in Hrun by lia.
    rewrite Hrun. exists cs, n. split_and!; try done; [lia|].
    pose proof (Z.mul_div_le max_length bs Hbs). assert (Z.of_nat n ≤ max_length / bs) by lia. nia.
Qed.

(** *** Which sliding-window blocks are cached *)

(** Block [i] is among the [need] blocks (ending [shift] blocks later) that a hit
    ending at a positive multiple of [seg] blocks consults. *)
Definition segment_tail (seg need shift i : Z) : Prop :=
  ∃ k, 1 ≤ k ∧ k * seg + shift - need ≤ i < k * seg + shift.

Lemma segment_tail_test seg need shift i :
  0 ≤ need < seg → 0 ≤ shift →
  (shift <=? i) && (seg - need <=? (i - shift) mod seg) = true ↔ shift ≤ i ∧ segment_tail seg need shift i.
Proof.
  intros Hn Hs. rewrite andb_true_iff, !Z.leb_le. split; intros [Hi H]; split; try done.
  - exists ((i - shift) / seg + 1). pose proof (Z.div_mod (i - shift) seg ltac:(lia)).
    pose proof (Z.mod_pos_bound (i - shift) seg ltac:(lia)).
    assert (0 ≤ (i - shift) / seg) by (apply Z.div_pos; lia). nia.
  - destruct H as (k & Hk & H1 & H2).
    rewrite <-(Z.mod_unique_pos (i - shift) seg (k - 1) (i - shift - (k - 1) * seg)); nia.
Qed.

Lemma mark_spec start test idxs mask (j : nat) b :
  Forall (λ i, start ≤ i) idxs → mask !! j = Some b →
  mark start test idxs mask !! j =
    Some (b || bool_decide (start + Z.of_nat j ∈ idxs ∧ test (start + Z.of_nat j) = true)).
Proof.
  revert mask b. induction idxs as [|i idxs IH]; intros mask b Hi Hj.
  { unfold mark. cbn [foldl]. rewrite Hj, bool_decide_eq_false_2 by (intros [?%elem_of_nil _]; done).
    by rewrite orb_false_r. }
  apply Forall_cons in Hi as [Hi His]. unfold mark. cbn [foldl].
  set (mask' := if test i then <[Z.to_nat (i - start) := true]> mask else mask).
  fold (mark start test idxs mask').
  assert (mask' !! j = Some (b || bool_decide (i = start + Z.of_nat j ∧ test i = true))) as Hj'.
  { unfold mask'. destruct (test i) eqn:Et.
    - destruct (decide (i = start + Z.of_nat j)) as [->|Hne].
      + rewrite bool_decide_eq_true_2 by done. rewrite orb_true_r.
        replace (Z.to_nat (start + Z.of_nat j - start)) with j by lia.
        apply list_lookup_insert_eq. by eapply lookup_lt_Some.
      + rewrite bool_decide_eq_false_2, orb_false_r by tauto. rewrite list_lookup_insert_ne by lia. done.
    - rewrite bool_decide_eq_false_2, orb_false_r by naive_solver. done. }
  rewrite (IH _ _ His Hj'), <-orb_assoc. do 2 f_equal.
  destruct (bool_decide (i = start + Z.of_nat j ∧ test i = true)) eqn:E1.
  - apply bool_decide_eq_true in E1 as [-> Et]. simpl. symmetry. apply bool_decide_eq_true.
    split; [set_solver|done].
  - simpl. apply bool_decide_ext. apply bool_decide_eq_false in E1.
    rewrite elem_of_cons. naive_solver.
Qed.

Lemma mark_length start test idxs mask : length (mark start test idxs mask) = length mask.
Proof.
  unfold mark. revert mask. induction idxs as [|i idxs IH]; intros mask; simpl; [done|].
  rewrite IH. destruct (test i); [apply length_insert|done].
Qed.

Lemma py_range_ge a b : Forall (λ i, a ≤ i) (py_range a b).
Proof.
  apply Forall_forall. intros i Hi. unfold py_range in Hi.
  apply list_elem_of_fmap in Hi as (j & -> & _). lia.
Qed.

(** The tail of the boundary an exact replay of the prompt lands on. *)
Definition replay_tail (retention num_prompt : option Z) (alignment bs need shift i : Z) : Prop :=
  match retention, num_prompt with
  | Some _, Some n =>
      let e := (n - 1) / alignment * alignment / bs + shift in e - need ≤ i < e
  | _, _ => False
  end.

Lemma mark_replay_length start end_ alignment bs need shift retention num_prompt mk :
  length (mark_replay start end_ alignment bs need shift retention num_prompt mk) = length mk.
Proof. unfold mark_replay. destruct retention, num_prompt; try done. apply mark_length. Qed.

(** Marking the replayed blocks adds exactly these. *)
Lemma mark_replay_spec start end_ alignment bs need shift retention num_prompt mk (i : Z) b :
  start ≤ i < end_ → mk !! Z.to_nat (i - start) = Some b →
  mark_replay start end_ alignment bs need shift retention num_prompt mk !! Z.to_nat (i - start) = Some true ↔
  b = true ∨ replay_tail retention num_prompt alignment bs need shift i.
Proof.
  intros Hi Hb. unfold mark_replay, replay_tail.
  destruct retention as [r|], num_prompt as [n|];
    try (rewrite Hb; split; [intros [= ->]; by left|intros [->|[]]; done]).
  rewrite (mark_spec start _ _ _ _ b); [| |done].
  2:{ eapply Forall_impl; [apply py_range_ge|]. simpl. lia. }
  replace (start + Z.of_nat (Z.to_nat (i - start))) with i by lia. split.
  - intros [= [Hb'|[H%elem_of_py_range _]%bool_decide_eq_true]%orb_true_iff]; [by left|]. right. lia.
  - intros [->|H]; [done|]. rewrite bool_decide_eq_true_2, orb_true_r; [done|].
    split; [apply elem_of_py_range; lia|done].
Qed.

(** With dense or sparse retention, the mask keeps a sliding-window block
    exactly when some cache hit can consult it: a hit that ends at a segment
    boundary, or at the boundary an exact prompt replay lands on; no mask is
    given only when every block can be consulted. *)
Theorem reachable_block_mask_exact start end_ alignment window bs use_eagle retention num_prompt :
  0 < bs → 0 < window → 0 < alignment → alignment mod bs = 0 → 0 ≤ start ≤ end_ →
  let need := _contiguous_blocks_for_hit window bs use_eagle in
  let shift := if use_eagle then 1 else 0 in
  let seg := match retention with None => Some alignment | Some 0 => None | Some r => Some r end in
  match sw_reachable_block_mask start end_ (Some alignment) window bs use_eagle retention num_prompt with
  | Raise _ => False
  | Ok None => ∃ s, seg = Some s ∧ s / bs ≤ need
  | Ok (Some m) => zlen m = end_ - start ∧ ∀ i, start ≤ i < end_ →
      (m !! Z.to_nat (i - start) = Some true ↔
       (∃ s, seg = Some s ∧ shift ≤ i ∧ segment_tail (s / bs) need shift i) ∨
       replay_tail retention num_prompt alignment bs need shift i)
  end.
Proof.
  intros Hbs Hw Hal Hmod Hse need shift seg. unfold sw_reachable_block_mask.
  rewrite Hmod. cbn [py_assert Z.eqb mbind result_bind]. fold need shift seg.
  assert (0 ≤ need) as Hneed.
  { unfold need, _contiguous_blocks_for_hit. pose proof (cdiv_nonneg (window - 1) bs Hbs ltac:(lia)).
    destruct use_eagle; lia. }
  set (mask := replicate (Z.to_nat (end_ - start)) false).
  assert (zlen mask = end_ - start) as Hml by (unfold zlen, mask; rewrite length_replicate; lia).
  assert (∀ i, start ≤ i < end_ → mask !! Z.to_nat (i - start) = Some false) as Hmk.
  { intros i Hi. apply lookup_replicate_2. lia. }
  destruct seg as [s|] eqn:Eseg; cbn match.
  - destruct (Z.leb_spec (s / bs) need) as [Hle|Hlt]; [by exists s|].
    unfold zlen. rewrite mark_replay_length, mark_length. split; [exact Hml|].
    intros i Hi. erewrite mark_replay_spec; [|done|apply mark_spec; [apply py_range_ge|by apply Hmk]].
    replace (start + Z.of_nat (Z.to_nat (i - start))) with i by lia. cbn [orb].
    rewrite bool_decide_eq_true, elem_of_py_range.
    pose proof (segment_tail_test (s / bs) need shift i) as Ht. naive_solver (unfold shift; destruct use_eagle; lia).
  - unfold zlen. rewrite mark_replay_length. split; [exact Hml|].
    intros i Hi. rewrite (mark_replay_spec _ _ _ _ _ _ _ _ _ _ _ Hi (Hmk i Hi)). naive_solver.
Qed.

(** ** Concrete instances *)

Definition demo_attn : AttentionFields := mkAttn 2 1 8 (mkDtype "bfloat16" 2) QNone None false.
Definition demo_hashes : BlockHashList := PlainHashes [[1]; [2]; [3]; [4]].

Lemma demo_groups : Forall valid_group [0].
Proof. repeat constructor; unfold valid_group; lia. Qed.

Lemma demo_hash_of k : (k < 4)%nat → is_Some (hash_of demo_hashes k).
Proof. intros Hk. do 4 (destruct k as [|k]; [by eexists|]). lia. Qed.

Lemma full_hit_correct_witness :
  let hs := take (Z.to_nat (8 / 2)) (bhl_list demo_hashes) in
  let k := hit_run demo_pool [0] hs in
  let n := align_len 2 2 (k - 1) in
  ∃ cs, full_find_longest_cache_hit demo_pool demo_hashes 8 [0]
          (FullAttentionSpec demo_attn (mkFull 8 None None false)) true 2 1 1 = Ok cs ∧
    table_of [0] n cs ∧ rows_hit demo_pool [0] (λ i, hs !! i) 0 n cs ∧
    Z.of_nat n * 2 ≤ 8 ∧ (Z.of_nat n * 2) mod 2 = 0 ∧
    (∀ h, hs !! k = Some h → ¬ all_hit demo_pool [0] h).
Proof.
  apply (full_hit_correct demo_pool [1; 2; 3]%nat [0] demo_hashes 8
    (FullAttentionSpec demo_attn (mkFull 8 None None false)) true 2 1 1);
    [apply demo_pool_inv|apply demo_groups|done|done|by vm_compute|lia|lia|lia].
Defined.

Lemma sliding_window_hit_correct_witness :
  ∃ cs n, sw_find_longest_cache_hit demo_pool demo_hashes 8 [0] (SlidingWindowSpec demo_attn 4 8) true 4 1 1 = Ok cs ∧
    table_of [0] n cs ∧ (Z.of_nat n * 2) mod 4 = 0 ∧ Z.of_nat n * 2 ≤ 8 ∧
    rows_hit demo_pool [0] (hash_of demo_hashes) (n - Z.to_nat (cdiv (4 - 1) 2)) n cs.
Proof.
  apply (sliding_window_hit_correct demo_pool [1; 2; 3]%nat [0] demo_hashes 8
    (SlidingWindowSpec demo_attn 4 8) 4 true 4);
    [apply demo_pool_inv|apply demo_groups|done|done|lia|by vm_compute|lia|lia|exact demo_hash_of].
Defined.

Definition demo_mamba : MambaFields := mkMamba 2 [[4]] [mkDtype "bfloat16" 2] None "mamba2" MambaAlign 1.

Lemma mamba_hit_correct_witness :
  ∃ cs n, mamba_find_longest_cache_hit demo_pool demo_hashes 8 [0] (MambaSpec demo_mamba) false 4 1 1 = Ok cs ∧
    table_of [0] n cs ∧ (Z.of_nat n * 2) mod 4 = 0 ∧ Z.of_nat n * 2 ≤ 8 ∧
    rows_hit demo_pool [0] (hash_of demo_hashes) (n - 1) n cs.
Proof.
  apply (mamba_hit_correct demo_pool [1; 2; 3]%nat [0] demo_hashes 8 demo_mamba false 4);
    [apply demo_pool_inv|apply demo_groups|done|by vm_compute|lia|lia|exact demo_hash_of].
Defined.

Lemma chunked_hit_correct_witness :
  ∃ cs n, chunked_find_longest_cache_hit demo_pool demo_hashes 7 [0] (ChunkedLocalAttentionSpec demo_attn 4)
            false 2 1 1 = Ok cs ∧
    table_of [0] n cs ∧ 7 / 4 * 4 / 2 ≤ Z.of_nat n ∧ Z.of_nat n * 2 ≤ 7 ∧
    rows_hit demo_pool [0] (hash_of demo_hashes) (Z.to_nat (7 / 4 * 4 / 2)) n cs.
Proof.
  apply (chunked_hit_correct demo_pool [1; 2; 3]%nat [0] demo_hashes 7 demo_attn 4);
    [apply demo_pool_inv|apply demo_groups|done|by vm_compute|lia|lia|].
  intros k Hk. apply demo_hash_of. change (Z.to_nat (7 / attn_block_size demo_attn)) with 3%nat in Hk. lia.
Defined.

Lemma reachable_block_mask_exact_witness :
  sw_reachable_block_mask 0 8 (Some 4) 2 1 false (Some 8) (Some 7) = Ok (Some
    [false; false; false; true; false; false; false; true]) ∧
  match sw_reachable_block_mask 0 8 (Some 4) 2 1 false (Some 8) (Some 7) with
  | Raise _ => False
  | Ok None => ∃ s, Some 8 = Some s ∧ s / 1 ≤ 1
  | Ok (Some m) => zlen m = 8 - 0 ∧ ∀ i, 0 ≤ i < 8 →
      (m !! Z.to_nat (i - 0) = Some true ↔
       (∃ s, Some 8 = Some s ∧ 0 ≤ i ∧ segment_tail (s / 1) 1 0 i) ∨
       replay_tail (Some 8) (Some 7) 4 1 1 0 i)
  end.
Proof.
  split; [vm_compute; reflexivity|].
  apply (reachable_block_mask_exact 0 8 4 2 1 false (Some 8) (Some 7)); try lia. done.
Defined.
