(* ===== verification/SingleType.v ===== *)
(** * Single-type KV-cache managers

    [SingleTypeKVCacheManager] and its subclasses
    ([vllm/v1/core/single_type_kv_cache_manager.py]): the block tables of the
    requests for one KV-cache group.  A manager shares the block pool with the
    others, so every operation takes and returns the pool beside the manager.
    The class of the manager decides which override runs. *)

From S2P Require Import Prelude MathUtils KVBlock BlockHashList Request BlockPool KVSpecs CacheHit.

#[local] Open Scope Z_scope.

Inductive manager_class :=
  | FullAttentionManager | SlidingWindowManager | ChunkedLocalAttentionManager | MambaManager
  | CrossAttentionManager | SinkFullAttentionManager.

#[export] Instance manager_class_eq_dec : EqDecision manager_class.
Proof. solve_decision. Defined.

Record SingleTypeKVCacheManager := mkManager {
  mgr_class : manager_class;
  mgr_spec : KVCacheSpec;
  mgr_block_size : Z;
  mgr_scheduler_block_size : Z;
  mgr_enable_caching : bool;
  kv_cache_group_id : Z;
  _max_admission_blocks_per_request : option Z;
  new_block_ids : list Z;
  req_to_blocks : gmap string (list bref);
  num_cached_block : gmap string Z;
  mgr_use_eagle : bool;
  (* Mamba *)
  cached_blocks_this_step : gset hash_key;
  last_state_block_idx : gmap string Z;
  _allocated_block_reqs : gset string;
}.

Definition set_req_to_blocks (v : gmap string (list bref)) (m : SingleTypeKVCacheManager) :=
  mkManager (mgr_class m) (mgr_spec m) (mgr_block_size m) (mgr_scheduler_block_size m)
    (mgr_enable_caching m) (kv_cache_group_id m) (_max_admission_blocks_per_request m)
    (new_block_ids m) v (num_cached_block m) (mgr_use_eagle m) (cached_blocks_this_step m)
    (last_state_block_idx m) (_allocated_block_reqs m).
Definition set_num_cached_block (v : gmap string Z) (m : SingleTypeKVCacheManager) :=
  mkManager (mgr_class m) (mgr_spec m) (mgr_block_size m) (mgr_scheduler_block_size m)
    (mgr_enable_caching m) (kv_cache_group_id m) (_max_admission_blocks_per_request m)
    (new_block_ids m) (req_to_blocks m) v (mgr_use_eagle m) (cached_blocks_this_step m)
    (last_state_block_idx m) (_allocated_block_reqs m).
Definition set_new_block_ids (v : list Z) (m : SingleTypeKVCacheManager) :=
  mkManager (mgr_class m) (mgr_spec m) (mgr_block_size m) (mgr_scheduler_block_size m)
    (mgr_enable_caching m) (kv_cache_group_id m) (_max_admission_blocks_per_request m)
    v (req_to_blocks m) (num_cached_block m) (mgr_use_eagle m) (cached_blocks_this_step m)
    (last_state_block_idx m) (_allocated_block_reqs m).
Definition set_use_eagle (v : bool) (m : SingleTypeKVCacheManager) :=
  mkManager (mgr_class m) (mgr_spec m) (mgr_block_size m) (mgr_scheduler_block_size m)
    (mgr_enable_caching m) (kv_cache_group_id m) (_max_admission_blocks_per_request m)
    (new_block_ids m) (req_to_blocks m) (num_cached_block m) v (cached_blocks_this_step m)
    (last_state_block_idx m) (_allocated_block_reqs m).
Definition set_mamba (this_step : gset hash_key) (last : gmap string Z) (alloc : gset string)
    (m : SingleTypeKVCacheManager) :=
  mkManager (mgr_class m) (mgr_spec m) (mgr_block_size m) (mgr_scheduler_block_size m)
    (mgr_enable_caching m) (kv_cache_group_id m) (_max_admission_blocks_per_request m)
    (new_block_ids m) (req_to_blocks m) (num_cached_block m) (mgr_use_eagle m) this_step last alloc.

(** ** Construction *)

(** [KVCacheSpecRegistry.get_manager_class] over the built-in registrations. *)
Definition get_manager_class (s : KVCacheSpec) : option manager_class :=
  match s with
  | FullAttentionSpec _ _ | TQFullAttentionSpec _ _ _ | MLAAttentionSpec _ _ _
  | HiddenStateCacheSpec _ _ _ => Some FullAttentionManager
  | SinkFullAttentionSpec _ _ _ => Some SinkFullAttentionManager
  | SlidingWindowSpec _ _ _ | SlidingWindowMLASpec _ _ _ => Some SlidingWindowManager
  | MambaSpec _ => Some MambaManager
  | ChunkedLocalAttentionSpec _ _ => Some ChunkedLocalAttentionManager
  | CrossAttentionSpec _ => Some CrossAttentionManager
  | EncoderOnlyAttentionSpec _ => None
  end.

(** [SingleTypeKVCacheManager.__init__] *)
Definition init_manager (cls : manager_class) (spec : KVCacheSpec) (enable_caching : bool)
    (group_id scheduler_block_size dcp pcp : Z) (max_admission : option Z) : SingleTypeKVCacheManager :=
  let bs := if 1 <? dcp * pcp then block_size spec * (dcp * pcp) else block_size spec in
  mkManager cls spec bs scheduler_block_size enable_caching group_id max_admission [] ∅ ∅ false ∅ ∅ ∅.

(** The coordinator's call [get_manager_for_kv_cache_spec(..., dcp_world_size=...,
    pcp_world_size=..., scheduler_block_size=...)].  The constructor of
    [SinkFullAttentionManager] has no parameter [scheduler_block_size] and takes
    no other keywords, so Python refuses the call. *)
Definition get_manager_for_kv_cache_spec (spec : KVCacheSpec)
    (max_num_batched_tokens max_model_len : Z) (enable_caching : bool)
    (group_id scheduler_block_size dcp pcp : Z) : result SingleTypeKVCacheManager :=
  match get_manager_class spec with
  | None => Raise AssertionError
  | Some SinkFullAttentionManager => Raise TypeError
  | Some cls =>
      Ok (init_manager cls spec enable_caching group_id scheduler_block_size dcp pcp
            (max_admission_blocks_per_request spec max_num_batched_tokens max_model_len))
  end.

(** ** Block tables *)

(** [self.req_to_blocks.get(request_id, ())] *)
Definition req_blocks (m : SingleTypeKVCacheManager) (id : string) : list bref :=
  default [] (req_to_blocks m !! id).

(** [self.req_to_blocks[request_id]] of the [defaultdict]: a missing entry is
    created. *)
Definition touch_entry (m : SingleTypeKVCacheManager) (id : string) : SingleTypeKVCacheManager :=
  set_req_to_blocks (<[id := req_blocks m id]> (req_to_blocks m)) m.

Definition put_blocks (m : SingleTypeKVCacheManager) (id : string) (bs : list bref)
    : SingleTypeKVCacheManager :=
  set_req_to_blocks (<[id := bs]> (req_to_blocks m)) m.

Definition _get_num_evictable_blocks (p : BlockPool) (bs : list bref) : Z :=
  zlen (filter (λ b, ref_cnt (pool_heap p b) = 0 ∧ is_null (pool_heap p b) = false) bs).

(** [get_num_skipped_tokens] with its overrides. *)
Definition get_num_skipped_tokens (m : SingleTypeKVCacheManager) (num_computed_tokens : Z) : Z :=
  match mgr_class m, mgr_spec m with
  | SlidingWindowManager, (SlidingWindowSpec _ w _ | SlidingWindowMLASpec _ w _) =>
      Z.max 0 (num_computed_tokens - w + 1)
  | ChunkedLocalAttentionManager, ChunkedLocalAttentionSpec _ c =>
      num_computed_tokens / c * c
  | MambaManager, _ => num_computed_tokens - 1
  | _, _ => 0
  end.

(** ** How many blocks a request needs *)

Definition base_get_num_blocks_to_allocate (m : SingleTypeKVCacheManager) (p : BlockPool)
    (id : string) (num_tokens : Z) (new_computed_blocks : list bref) (total_computed_tokens : Z)
    (apply_admission_cap : bool) : result Z :=
  let num_required_blocks := cdiv num_tokens (mgr_block_size m) in
  let num_required_blocks :=
    match apply_admission_cap, _max_admission_blocks_per_request m with
    | true, Some cap => Z.min num_required_blocks cap
    | _, _ => num_required_blocks
    end in
  let num_req_blocks := zlen (req_blocks m id) in
  match num_cached_block m !! id with
  | Some _ =>
      _ ← py_assert (zlen new_computed_blocks =? 0);
      Ok (Z.max (num_required_blocks - num_req_blocks) 0)
  | None =>
      let num_skipped_tokens := get_num_skipped_tokens m total_computed_tokens in
      let num_local_computed_blocks := zlen new_computed_blocks + num_req_blocks in
      let num_skipped_blocks := num_skipped_tokens / mgr_block_size m in
      let num_new_blocks :=
        Z.max (num_required_blocks - Z.max num_skipped_blocks num_local_computed_blocks) 0 in
      let num_skipped_new_computed_blocks := Z.max 0 (num_skipped_blocks - num_req_blocks) in
      let num_evictable_blocks :=
        _get_num_evictable_blocks p (drop (Z.to_nat num_skipped_new_computed_blocks) new_computed_blocks) in
      Ok (num_new_blocks + num_evictable_blocks)
  end.

(** [MambaManager.get_num_blocks_to_allocate]; in align mode it reads the table
    through the [defaultdict]. *)
Definition mamba_get_num_blocks_to_allocate (ms : MambaFields) (m : SingleTypeKVCacheManager)
    (p : BlockPool) (id : string) (num_tokens : Z) (new_computed_blocks : list bref)
    (total_computed_tokens num_tokens_main_model : Z) (apply_admission_cap : bool)
    : result (Z * SingleTypeKVCacheManager) :=
  let n_spec := num_speculative_blocks ms in
  if match last new_computed_blocks with
     | Some b => match block_hash (pool_heap p b) with
                 | Some k => bool_decide (k ∈ cached_blocks_this_step m)
                 | None => false
                 end
     | None => false
     end
  then Ok (num_gpu_blocks p + 1, m)
  else if negb (bool_decide (mamba_cache_mode ms = MambaAlign)) then
    let num_tokens := if 0 <? n_spec then num_tokens + mamba_block_size ms * n_spec else num_tokens in
    n ← base_get_num_blocks_to_allocate m p id num_tokens new_computed_blocks total_computed_tokens
          apply_admission_cap;
    Ok (n, m)
  else
    let num_required_blocks := cdiv num_tokens_main_model (mgr_block_size m) + n_spec in
    let m := touch_entry m id in
    let num_new_blocks := num_required_blocks - zlen new_computed_blocks - zlen (req_blocks m id) in
    let num_new_blocks :=
      if 0 <? num_new_blocks then
        if bool_decide (id ∈ _allocated_block_reqs m) then 1 else 1 + n_spec
      else num_new_blocks in
    Ok (num_new_blocks + _get_num_evictable_blocks p new_computed_blocks, m).

Definition get_num_blocks_to_allocate (m : SingleTypeKVCacheManager) (p : BlockPool)
    (id : string) (num_tokens : Z) (new_computed_blocks : list bref)
    (total_computed_tokens num_tokens_main_model : Z) (apply_admission_cap : bool)
    : result (Z * SingleTypeKVCacheManager) :=
  match mgr_class m, mgr_spec m with
  | MambaManager, MambaSpec ms =>
      mamba_get_num_blocks_to_allocate ms m p id num_tokens new_computed_blocks
        total_computed_tokens num_tokens_main_model apply_admission_cap
  | MambaManager, _ => Raise AssertionError
  | _, _ =>
      n ← base_get_num_blocks_to_allocate m p id num_tokens new_computed_blocks
            total_computed_tokens apply_admission_cap;
      Ok (n, m)
  end.

(** ** Allocation *)

Definition base_add_local_computed_blocks (m : SingleTypeKVCacheManager) (p : BlockPool)
    (id : string) (new_computed_blocks : list bref) (num_local num_external : Z)
    : result (SingleTypeKVCacheManager * BlockPool) :=
  let m := touch_entry m id in
  _ ← py_assert (zlen (req_blocks m id) =? 0);
  let num_skipped_blocks := get_num_skipped_tokens m (num_local + num_external) / mgr_block_size m in
  let new_computed_blocks :=
    if 0 <? num_skipped_blocks then drop (Z.to_nat num_skipped_blocks) new_computed_blocks
    else new_computed_blocks in
  p ← (if mgr_enable_caching m then touch p new_computed_blocks
       else _ ← py_assert (zlen new_computed_blocks =? 0); Ok p);
  let req := req_blocks m id ++ replicate (Z.to_nat num_skipped_blocks) (null_block p)
               ++ new_computed_blocks in
  let m := put_blocks m id req in
  Ok (set_num_cached_block (<[id := zlen req]> (num_cached_block m)) m, p).

Definition add_local_computed_blocks (m : SingleTypeKVCacheManager) (p : BlockPool)
    (id : string) (new_computed_blocks : list bref) (num_local num_external : Z)
    : result (SingleTypeKVCacheManager * BlockPool) :=
  match mgr_class m with
  | CrossAttentionManager => _ ← py_assert (zlen new_computed_blocks =? 0); Ok (m, p)
  | _ => base_add_local_computed_blocks m p id new_computed_blocks num_local num_external
  end.

(** [type(self.kv_cache_spec) in (...)]: exact classes, so no [SinkFullAttentionSpec]. *)
Definition tracks_new_ids (s : KVCacheSpec) : bool :=
  match s with
  | FullAttentionSpec _ _ | TQFullAttentionSpec _ _ _ | MLAAttentionSpec _ _ _
  | HiddenStateCacheSpec _ _ _ => true
  | _ => false
  end.

(** [get_new_blocks], append to the table and note the ids for zeroing. *)
Definition extend_blocks (m : SingleTypeKVCacheManager) (p : BlockPool) (id : string) (n : Z)
    : result (list bref * SingleTypeKVCacheManager * BlockPool) :=
  '(new, p) ← get_new_blocks p n;
  let m := put_blocks m id (req_blocks m id ++ new) in
  let m := if tracks_new_ids (mgr_spec m)
           then set_new_block_ids (new_block_ids m ++ ((λ b, block_id (pool_heap p b)) <$> new)) m
           else m in
  Ok (new, m, p).

Definition allocate_external_computed_blocks (m : SingleTypeKVCacheManager) (p : BlockPool)
    (id : string) (num_local num_external : Z) : result (SingleTypeKVCacheManager * BlockPool) :=
  match mgr_class m with
  | CrossAttentionManager => Ok (m, p)
  | _ =>
      let num_total := num_local + num_external in
      let num_skipped_tokens := get_num_skipped_tokens m num_total in
      let num_external :=
        if 0 <? num_skipped_tokens then Z.min (num_total - num_skipped_tokens) num_external
        else num_external in
      if num_external <=? 0 then Ok (m, p) else
      let m := touch_entry m id in
      '(_, m, p) ← extend_blocks m p id (cdiv num_total (mgr_block_size m) - zlen (req_blocks m id));
      Ok (m, p)
  end.

Definition base_allocate_new_blocks (m : SingleTypeKVCacheManager) (p : BlockPool) (id : string)
    (num_tokens : Z) : result (list bref * SingleTypeKVCacheManager * BlockPool) :=
  let m := touch_entry m id in
  let num_new_blocks := cdiv num_tokens (mgr_block_size m) - zlen (req_blocks m id) in
  if num_new_blocks <=? 0 then Ok ([], m, p) else extend_blocks m p id num_new_blocks.

(** The reuse loop of the align mode: speculative blocks of the last step move
    behind the skipped part, their old slots become null. *)
Fixpoint reuse_loop (null : bref) (num_skipped : Z) (idxs : list Z) (req : list bref)
    : result (list bref) :=
  match idxs with
  | [] => Ok req
  | i :: idxs =>
      if i <? num_skipped then
        b ← py_index req i;
        reuse_loop null num_skipped idxs (<[Z.to_nat i := null]> (req ++ [b]))
      else Ok req
  end.

Definition mamba_allocate_new_blocks (ms : MambaFields) (m : SingleTypeKVCacheManager) (p : BlockPool)
    (id : string) (num_tokens num_tokens_main_model : Z)
    : result (list bref * SingleTypeKVCacheManager * BlockPool) :=
  let n_spec := num_speculative_blocks ms in
  if negb (bool_decide (mamba_cache_mode ms = MambaAlign)) then
    base_allocate_new_blocks m p id
      (if 0 <? n_spec then num_tokens + mgr_block_size m * n_spec else num_tokens)
  else
    let m := touch_entry m id in
    let req := req_blocks m id in
    let num_required_blocks := cdiv num_tokens_main_model (mgr_block_size m) + n_spec in
    if num_required_blocks <=? zlen req then Ok ([], m, p) else
    let prev_block_len := zlen req in
    let blocks_allocated := bool_decide (id ∈ _allocated_block_reqs m) in
    let last_idx :=
      if blocks_allocated then <[id := prev_block_len - 1 - n_spec]> (last_state_block_idx m)
      else if 0 <? prev_block_len then <[id := prev_block_len - 1]> (last_state_block_idx m)
      else last_state_block_idx m in
    let num_skipped_blocks := num_required_blocks - n_spec - 1 in
    let req :=
      if prev_block_len <? num_skipped_blocks
      then req ++ replicate (Z.to_nat (num_skipped_blocks - prev_block_len)) (null_block p)
      else req in
    req ← (if blocks_allocated
           then reuse_loop (null_block p) num_skipped_blocks
                  (py_range (prev_block_len - n_spec) prev_block_len) req
           else Ok req);
    let num_new_blocks := num_required_blocks - zlen req in
    _ ← py_assert (if blocks_allocated then num_new_blocks <=? 1 else num_new_blocks <=? n_spec + 1);
    '(new, p) ← get_new_blocks p num_new_blocks;
    let req := req ++ new in
    let m := put_blocks m id req in
    let m := set_mamba (cached_blocks_this_step m) last_idx ({[id]} ∪ _allocated_block_reqs m) m in
    Ok (drop (Z.to_nat prev_block_len) req, m, p).

Definition allocate_new_blocks (m : SingleTypeKVCacheManager) (p : BlockPool) (id : string)
    (num_tokens num_tokens_main_model : Z) : result (list bref * SingleTypeKVCacheManager * BlockPool) :=
  match mgr_class m, mgr_spec m with
  | MambaManager, MambaSpec ms => mamba_allocate_new_blocks ms m p id num_tokens num_tokens_main_model
  | MambaManager, _ => Raise AssertionError
  | _, _ => base_allocate_new_blocks m p id num_tokens
  end.

Definition take_new_block_ids (m : SingleTypeKVCacheManager) : list Z * SingleTypeKVCacheManager :=
  (new_block_ids m, set_new_block_ids [] m).

(** ** Caching *)

Definition reachable_block_mask (m : SingleTypeKVCacheManager) (start_block end_block : Z)
    (retention_interval num_prompt_tokens : option Z) : result (option (list bool)) :=
  match mgr_class m, mgr_spec m with
  | SlidingWindowManager, (SlidingWindowSpec _ w _ | SlidingWindowMLASpec _ w _) =>
      sw_reachable_block_mask start_block end_block (Some (mgr_scheduler_block_size m)) w
        (block_size (mgr_spec m)) (mgr_use_eagle m) retention_interval num_prompt_tokens
  | _, _ => Ok None
  end.

Section caching.
Context (sha256 : list bytes → bytes).

Definition base_cache_blocks (m : SingleTypeKVCacheManager) (p : BlockPool) (r : Request)
    (num_tokens : Z) (retention_interval : option Z)
    : result (SingleTypeKVCacheManager * BlockPool * Request) :=
  let id := request_id r in
  let num_cached_blocks := default 0 (num_cached_block m !! id) in
  let num_full_blocks := num_tokens / mgr_block_size m in
  if num_full_blocks <=? num_cached_blocks then Ok (m, p, r) else
  mask ← reachable_block_mask m num_cached_blocks num_full_blocks retention_interval
           (Some (num_prompt_tokens r));
  let m := touch_entry m id in
  '(p, r) ← cache_full_blocks sha256 p r (req_blocks m id) num_cached_blocks num_full_blocks
              (mgr_block_size m) (kv_cache_group_id m) mask;
  Ok (set_num_cached_block (<[id := num_full_blocks]> (num_cached_block m)) m, p, r).

(** Remember the keys cached in this step; every non-null block must have one. *)
Definition mamba_note (p : BlockPool) (bs : list bref) (s : gset hash_key) : result (gset hash_key) :=
  mfold (λ s b,
    if is_null (pool_heap p b) then Ok s
    else match block_hash (pool_heap p b) with
         | None => Raise AssertionError
         | Some k => Ok ({[k]} ∪ s)
         end) s bs.

Definition cache_blocks (m : SingleTypeKVCacheManager) (p : BlockPool) (r : Request)
    (num_tokens : Z) (retention_interval : option Z)
    : result (SingleTypeKVCacheManager * BlockPool * Request) :=
  match mgr_class m with
  | CrossAttentionManager => Raise ValueError
  | MambaManager =>
      let id := request_id r in
      let before := default 0 (num_cached_block m !! id) in
      '(m, p, r) ← base_cache_blocks m p r num_tokens retention_interval;
      let after := default 0 (num_cached_block m !! id) in
      if before <? after then
        s ← mamba_note p (py_slice (req_blocks m id) before after) (cached_blocks_this_step m);
        Ok (set_mamba s (last_state_block_idx m) (_allocated_block_reqs m) (touch_entry m id), p, r)
      else Ok (m, p, r)
  | _ => base_cache_blocks m p r num_tokens retention_interval
  end.
End caching.

(** ** Freeing *)

Definition pop_blocks_for_free (m : SingleTypeKVCacheManager) (id : string)
    : list bref * SingleTypeKVCacheManager :=
  let m := match mgr_class m, mgr_spec m with
           | MambaManager, MambaSpec ms =>
               if bool_decide (mamba_cache_mode ms = MambaAlign)
               then set_mamba (cached_blocks_this_step m) (delete id (last_state_block_idx m))
                      (_allocated_block_reqs m ∖ {[id]}) m
               else m
           | _, _ => m
           end in
  (req_blocks m id,
   set_num_cached_block (delete id (num_cached_block m))
     (set_req_to_blocks (delete id (req_to_blocks m)) m)).

Definition free (m : SingleTypeKVCacheManager) (p : BlockPool) (id : string)
    : result (SingleTypeKVCacheManager * BlockPool) :=
  let '(bs, m) := pop_blocks_for_free m id in
  p ← free_blocks p (reverse bs);
  Ok (m, p).

(** The loop over [range(num_skipped_blocks - 1, -1, -1)]: null out blocks from
    the right until one is null already. *)
Fixpoint remove_loop (null : bref) (n : nat) (bs removed : list bref) : list bref * list bref :=
  match n with
  | O => (bs, removed)
  | S i =>
      match bs !! i with
      | None => (bs, removed)
      | Some b =>
          if decide (b = null) then (bs, removed)
          else remove_loop null i (<[i := null]> bs) (removed ++ [b])
      end
  end.

Definition base_remove_skipped_blocks (m : SingleTypeKVCacheManager) (p : BlockPool) (id : string)
    (total_computed_tokens : Z) : result (SingleTypeKVCacheManager * BlockPool) :=
  let num_skipped_tokens := get_num_skipped_tokens m total_computed_tokens in
  if num_skipped_tokens <=? 0 then Ok (m, p) else
  let m := touch_entry m id in
  let bs := req_blocks m id in
  let num_skipped_blocks := Z.min (num_skipped_tokens / mgr_block_size m) (zlen bs) in
  let '(bs, removed) := remove_loop (null_block p) (Z.to_nat num_skipped_blocks) bs [] in
  let m := put_blocks m id bs in
  p ← free_blocks p removed;
  Ok (m, p).

Definition remove_skipped_blocks (m : SingleTypeKVCacheManager) (p : BlockPool) (id : string)
    (num_computed_tokens : Z) : result (SingleTypeKVCacheManager * BlockPool) :=
  match mgr_class m, mgr_spec m with
  | MambaManager, MambaSpec ms =>
      let num_computed_tokens := Z.max 0 (num_computed_tokens - num_speculative_blocks ms) in
      '(m, p) ← base_remove_skipped_blocks m p id num_computed_tokens;
      if bool_decide (mamba_cache_mode ms = MambaAlign) then
        match last_state_block_idx m !! id with
        | None => Ok (m, p)
        | Some i =>
            if i <? cdiv num_computed_tokens (mgr_block_size m) - 1 then
              let m := touch_entry m id in
              b ← py_index (req_blocks m id) i;
              if decide (b = null_block p) then Ok (m, p)
              else
                p ← free_blocks p [b];
                Ok (put_blocks m id (<[Z.to_nat i := null_block p]> (req_blocks m id)), p)
            else Ok (m, p)
        end
      else Ok (m, p)
  | MambaManager, _ => Raise AssertionError
  | _, _ => base_remove_skipped_blocks m p id num_computed_tokens
  end.

(** ** Other operations *)

(** Blocks shared by every request that holds blocks, for full attention. *)
Fixpoint common_prefix (h : heap) (n : Z) (bs : list bref) : Z :=
  match bs with
  | [] => 0
  | b :: bs => if ref_cnt (h b) =? n then 1 + common_prefix h n bs else 0
  end.

Definition get_num_common_prefix_blocks (m : SingleTypeKVCacheManager) (p : BlockPool) (id : string)
    : Z * SingleTypeKVCacheManager :=
  match mgr_class m with
  | FullAttentionManager | SinkFullAttentionManager =>
      let m := touch_entry m id in
      (common_prefix (pool_heap p) (Z.of_nat (size (req_to_blocks m))) (req_blocks m id), m)
  | _ => (0, m)
  end.

Definition find_longest_cache_hit (cls : manager_class) (p : BlockPool) (hashes : BlockHashList)
    (max_length : Z) (gids : list Z) (spec : KVCacheSpec) (drop_eagle_block : bool)
    (alignment_tokens dcp pcp : Z) : result (list (list bref)) :=
  match cls with
  | FullAttentionManager | SinkFullAttentionManager =>
      full_find_longest_cache_hit p hashes max_length gids spec drop_eagle_block alignment_tokens dcp pcp
  | SlidingWindowManager =>
      sw_find_longest_cache_hit p hashes max_length gids spec drop_eagle_block alignment_tokens dcp pcp
  | ChunkedLocalAttentionManager =>
      chunked_find_longest_cache_hit p hashes max_length gids spec drop_eagle_block alignment_tokens dcp pcp
  | MambaManager =>
      mamba_find_longest_cache_hit p hashes max_length gids spec drop_eagle_block alignment_tokens dcp pcp
  | CrossAttentionManager =>
      match spec with
      | CrossAttentionSpec _ => Raise NotImplementedError
      | _ => Raise AssertionError
      end
  end.

Definition mgr_new_step_starts (m : SingleTypeKVCacheManager) : SingleTypeKVCacheManager :=
  match mgr_class m with
  | MambaManager => set_mamba ∅ (last_state_block_idx m) (_allocated_block_reqs m) m
  | _ => m
  end.

(** ** Construction *)

(** Building a manager gives an empty one of the registered class, whose
    admission cap is present exactly for the recycling (sliding-window and
    chunked) specifications, and fails in two cases only: encoder-only attention
    has no manager, and for an attention-sink group the constructor call itself
    raises [TypeError], because that constructor does not take
    [scheduler_block_size]. *)
Theorem sink_manager_type_error spec batched len caching gid sbs dcp pcp :
  match get_manager_for_kv_cache_spec spec batched len caching gid sbs dcp pcp with
  | Raise e =>
      (e = TypeError ∧ ∃ a f sink, spec = SinkFullAttentionSpec a f sink) ∨
      (e = AssertionError ∧ ∃ a, spec = EncoderOnlyAttentionSpec a)
  | Ok m =>
      get_manager_class spec = Some (mgr_class m) ∧ mgr_spec m = spec ∧
      req_to_blocks m = ∅ ∧ num_cached_block m = ∅ ∧
      (is_Some (_max_admission_blocks_per_request m) ↔
       mgr_class m = SlidingWindowManager ∨ mgr_class m = ChunkedLocalAttentionManager)
  end.
Proof.
  destruct spec; simpl; try (split_and!; try done; split; [by intros [? ?]|by intros [?|?]]); eauto 6.
  all: split_and!; try done; split; eauto.
Qed.
