(* ===== verification/ManagerFacts.v ===== *)
(** * Correctness of the single-type managers

    The managers keep the reference count of every block equal to the number of
    its occurrences in block tables, predict exactly how many blocks an
    allocation takes, and give back what leaves the attention window. *)

From S2P Require Import Prelude MathUtils KVBlock FreeQueue BlockMap BlockHashList Request BlockHasher BlockPool PrefixCache Ownership KVSpecs CacheHit SingleType.

#[local] Open Scope Z_scope.

(** The manager's tables, with the pool and the references of other groups. *)
Definition mgr_owns (m : SingleTypeKVCacheManager) (p : BlockPool) (l : list nat) (ext : nat → Z) : Prop :=
  owns p l (req_to_blocks m) ext.

(** Managers whose behaviour is the base class's, up to the window. *)
Definition plain_manager (m : SingleTypeKVCacheManager) : Prop :=
  match mgr_class m with
  | FullAttentionManager | SlidingWindowManager | ChunkedLocalAttentionManager => True
  | _ => False
  end.

Lemma req_blocks_touch m id : req_blocks (touch_entry m id) id = req_blocks m id.
Proof. unfold req_blocks, touch_entry. simpl. by rewrite lookup_insert_eq. Qed.

Lemma req_blocks_put m id bs : req_blocks (put_blocks m id bs) id = bs.
Proof. unfold req_blocks, put_blocks. simpl. by rewrite lookup_insert_eq. Qed.

Lemma put_touch m id bs : put_blocks (touch_entry m id) id bs = put_blocks m id bs.
Proof. unfold put_blocks, touch_entry, set_req_to_blocks. simpl. by rewrite insert_insert_eq. Qed.

Lemma mgr_owns_touch m p l ext id : mgr_owns m p l ext → mgr_owns (touch_entry m id) p l ext.
Proof. apply owns_touch_entry. Qed.

(** ** Extending a table *)

Lemma extend_blocks_spec m p l ext id (n : nat) :
  mgr_owns m p l ext → (n ≤ length l)%nat →
  ∃ m' p', extend_blocks m p id (Z.of_nat n) = Ok (BId <$> take n l, m', p') ∧ same_config p p' ∧
    mgr_owns m' p' (drop n l) ext ∧
    req_to_blocks m' = <[id := req_blocks m id ++ (BId <$> take n l)]> (req_to_blocks m) ∧
    num_cached_block m' = num_cached_block m.
Proof.
  intros Ho Hn. destruct (owns_extend p l (req_to_blocks m) ext id n Ho Hn) as (p' & Hrun & Hc & Ho').
  unfold extend_blocks. rewrite Hrun. cbn [mbind result_bind].
  eexists _, p'. split; [done|]. split; [done|]. unfold mgr_owns.
  destruct (tracks_new_ids _); done.
Qed.

Lemma base_allocate_spec m p l ext id num_tokens :
  mgr_owns m p l ext →
  let n := cdiv num_tokens (mgr_block_size m) - zlen (req_blocks m id) in
  (n ≤ zlen l →
   ∃ m' p', base_allocate_new_blocks m p id num_tokens = Ok (BId <$> take (Z.to_nat n) l, m', p') ∧
     same_config p p' ∧ mgr_owns m' p' (drop (Z.to_nat n) l) ext ∧
     req_to_blocks m' = <[id := req_blocks m id ++ (BId <$> take (Z.to_nat n) l)]> (req_to_blocks m) ∧
     num_cached_block m' = num_cached_block m) ∧
  (zlen l < n → base_allocate_new_blocks m p id num_tokens = Raise ValueError).
Proof.
  intros Ho n. unfold base_allocate_new_blocks. rewrite req_blocks_touch.
  change (mgr_block_size (touch_entry m id)) with (mgr_block_size m). fold n. split.
  - intros Hn. destruct (Z.leb_spec n 0) as [Hle|Hgt].
    + replace (Z.to_nat n) with 0%nat by lia. rewrite take_0, drop_0. csimpl. rewrite app_nil_r.
      eexists _, p. split; [done|]. split; [done|]. split; [by apply mgr_owns_touch|]. done.
    + destruct (extend_blocks_spec (touch_entry m id) p l ext id (Z.to_nat n))
        as (m' & p' & Hrun & Hc & Ho' & Ht & Hnc); [by apply mgr_owns_touch|unfold zlen in Hn; lia|].
      rewrite Z2Nat.id in Hrun by lia. exists m', p'. split; [done|]. split; [done|]. split; [done|].
      rewrite req_blocks_touch in Ht. rewrite Ht. split; [|done].
      unfold touch_entry, set_req_to_blocks. simpl. by rewrite insert_insert_eq.
  - intros Hlt. pose proof (zlen_nonneg l). destruct (Z.leb_spec n 0) as [Hle|Hgt]; [lia|].
    unfold extend_blocks. rewrite (get_new_blocks_fail p l) by (apply Ho || done). done.
Qed.

(** ** The allocation predictor *)

Lemma filter_length_compl {A} (P Q : A → Prop) `{!∀ x, Decision (P x), !∀ x, Decision (Q x)} (l : list A) :
  (∀ x, Q x ↔ ¬ P x) → zlen (filter P l) + zlen (filter Q l) = zlen l.
Proof.
  intros HPQ. rewrite <-(filter_length_split P l). do 2 f_equal. by apply list_filter_iff.
Qed.

Lemma NoDup_filter_impl {A} (P Q : A → Prop) `{!∀ x, Decision (P x), !∀ x, Decision (Q x)} (l : list A) :
  (∀ x, x ∈ l → P x → Q x) → NoDup (filter Q l) → NoDup (filter P l).
Proof.
  induction l as [|x l IH]; intros HPQ Hnd; [constructor|]. rewrite filter_cons in Hnd |- *.
  assert (NoDup (filter P l)) as Hl.
  { apply IH; [set_solver|]. case_decide; [by apply NoDup_cons in Hnd as [_ ?]|done]. }
  destruct (decide (P x)) as [HP|HP]; [|done]. apply NoDup_cons. split; [|done].
  rewrite decide_True in Hnd by (apply HPQ; set_solver). apply NoDup_cons in Hnd as [Hx _].
  rewrite list_elem_of_filter in Hx |- *. intros [_ Hin]. apply Hx. split; [|done]. apply HPQ; set_solver.
Qed.

(** The free blocks among distinct hits are exactly those [touch] takes. *)
Lemma evictable_count p l ext t ys :
  owns p l t ext → in_pool p ys → NoDup (filter (λ x, x ≠ 0%nat) ys) →
  _get_num_evictable_blocks p (BId <$> ys) = zlen l - zlen (filter (λ y, y ∉ ys) l).
Proof.
  intros Ho Hin Hnd. pose proof (own_pool _ _ _ _ Ho) as Hp. pose proof (inv_ok _ _ _ Hp) as Hok.
  pose proof (repr_nodup _ _ (inv_queue _ _ _ Hp)) as Hl.
  assert (zlen l - zlen (filter (λ y, y ∉ ys) l) = zlen (filter (λ y, y ∈ ys) l)) as ->.
  { pose proof (filter_length_compl (λ y, y ∈ ys) (λ y, y ∉ ys) l ltac:(done)). lia. }
  unfold _get_num_evictable_blocks.
  assert (filter (λ b, ref_cnt (pool_heap p b) = 0 ∧ is_null (pool_heap p b) = false) (BId <$> ys) =
          BId <$> filter (λ y, ref_cnt (pool_heap p (BId y)) = 0 ∧ is_null (pool_heap p (BId y)) = false) ys) as ->.
  { clear. induction ys as [|y ys IH]; [done|]. rewrite fmap_cons, !filter_cons, IH. by case_decide. }
  rewrite zlen_fmap. unfold zlen. f_equal. apply Permutation_length, NoDup_Permutation.
  - eapply NoDup_filter_impl; [|exact Hnd]. intros y Hy [_ Hn].
    rewrite (ok_null _ _ _ _ _ Hok) in Hn by by apply Hin. by apply bool_decide_eq_false in Hn.
  - by apply NoDup_filter.
  - intros x. rewrite !list_elem_of_filter. split.
    + intros [[H0 Hn] Hx]. split; [done|]. rewrite (ok_null _ _ _ _ _ Hok) in Hn by by apply Hin.
      apply bool_decide_eq_false in Hn. apply (ok_ref _ _ _ _ _ Hok) in H0; [|specialize (Hin x Hx); lia].
      by destruct H0 as [|?%elem_of_nil].
    + intros [Hx Hxl]. pose proof (ok_range _ _ _ _ _ Hok x (or_introl Hxl)) as Hr. split; [|done]. split.
      * apply (ok_ref _ _ _ _ _ Hok); [done|by left].
      * rewrite (ok_null _ _ _ _ _ Hok) by lia. apply bool_decide_eq_false. lia.
Qed.

(** [add_local_computed_blocks] for a request without blocks. *)
Lemma base_add_local_spec m p l ext id xs num_local num_external :
  mgr_owns m p l ext → mgr_enable_caching m = true ∨ xs = [] → req_blocks m id = [] →
  in_pool p xs → NoDup (filter (λ x, x ≠ 0%nat) xs) →
  let s := Z.to_nat (get_num_skipped_tokens m (num_local + num_external) / mgr_block_size m) in
  let tbl := replicate s (BId 0) ++ (BId <$> drop s xs) in
  ∃ m' p', base_add_local_computed_blocks m p id (BId <$> xs) num_local num_external = Ok (m', p') ∧
    same_config p p' ∧ mgr_owns m' p' (filter (λ y, y ∉ drop s xs) l) ext ∧
    m' = set_num_cached_block (<[id := zlen tbl]> (num_cached_block m)) (put_blocks m id tbl).
Proof.
  intros Ho Hcache Hempty Hin Hnd s tbl. unfold base_add_local_computed_blocks.
  rewrite req_blocks_touch, Hempty. cbn [zlen length Z.of_nat Z.eqb py_assert mbind result_bind].
  change (get_num_skipped_tokens (touch_entry m id)) with (get_num_skipped_tokens m).
  change (mgr_block_size (touch_entry m id)) with (mgr_block_size m).
  change (mgr_enable_caching (touch_entry m id)) with (mgr_enable_caching m).
  set (sk := get_num_skipped_tokens m (num_local + num_external) / mgr_block_size m) in *.
  assert ((if 0 <? sk then drop (Z.to_nat sk) (BId <$> xs) else BId <$> xs) = BId <$> drop s xs) as ->.
  { rewrite fmap_drop. fold s. destruct (Z.ltb_spec 0 sk); [done|]. unfold s.
    replace (Z.to_nat sk) with 0%nat by lia. done. }
  destruct (owns_hits p l (req_to_blocks m) ext id s (drop s xs)) as (p' & Hrun & Hc & Ho').
  - exact Ho.
  - exact Hempty.
  - intros n Hn. apply Hin. by apply subseteq_drop in Hn.
  - rewrite <-(take_drop s xs), filter_nonnull_app in Hnd. by apply NoDup_app in Hnd as (_ & _ & ?).
  - assert ((if mgr_enable_caching m then touch p (BId <$> drop s xs)
             else _ ← py_assert (zlen (BId <$> drop s xs) =? 0); Ok p) = Ok p') as ->.
    { destruct Hcache as [->| ->]; [done|]. rewrite drop_nil in Hrun |- *. simpl in Hrun |- *.
      by destruct (mgr_enable_caching m). }
    cbn [mbind result_bind app].
    assert (null_block p' = BId 0) as ->.
    { destruct Hc as (_ & _ & _ & _ & -> & _). apply (inv_null _ _ _ (own_pool _ _ _ _ Ho)). }
    fold s. fold tbl. rewrite put_touch. eexists _, p'. split; [done|]. split; [done|]. split; [|done].
    exact Ho'.
Qed.

(** The blocks asked for: hits that would leave the free list, and new ones. *)
Lemma base_predict_spec m p l ext id xs num_tokens total :
  mgr_owns m p l ext → num_cached_block m !! id = None → req_blocks m id = [] →
  in_pool p xs → NoDup (filter (λ x, x ≠ 0%nat) xs) →
  let s := get_num_skipped_tokens m total / mgr_block_size m in
  let ys := drop (Z.to_nat s) xs in
  base_get_num_blocks_to_allocate m p id num_tokens (BId <$> xs) total false =
    Ok (Z.max (cdiv num_tokens (mgr_block_size m) - Z.max s (zlen xs)) 0 +
        (zlen l - zlen (filter (λ y, y ∉ ys) l))).
Proof.
  intros Ho Hnc Hempty Hin Hnd s ys. unfold base_get_num_blocks_to_allocate.
  rewrite Hnc, Hempty, zlen_fmap, zlen_nil, Z.add_0_r, Z.sub_0_r. fold s.
  assert (drop (Z.to_nat (Z.max 0 s)) (BId <$> xs) = BId <$> ys) as ->.
  { unfold ys. rewrite fmap_drop. f_equal. lia. }
  rewrite (evictable_count p l ext (req_to_blocks m)); [done|exact Ho| |].
  - intros n Hn. apply Hin. by apply subseteq_drop in Hn.
  - rewrite <-(take_drop (Z.to_nat s) xs), filter_nonnull_app in Hnd.
    by apply NoDup_app in Hnd as (_ & _ & ?).
Qed.

(** ** Removing skipped blocks *)

Lemma remove_loop_spec (n : nat) xs rem :
  (n ≤ length xs)%nat →
  ∃ k, (k ≤ n)%nat ∧ (k = 0%nat ∨ xs !! (k - 1)%nat = Some 0%nat) ∧
    remove_loop (BId 0) n (BId <$> xs) rem = (BId <$> nulled n k xs, rem ++ (BId <$> removed n k xs)) ∧
    0%nat ∉ removed n k xs.
Proof.
  revert xs rem. induction n as [|i IH]; intros xs rem Hn; cbn [remove_loop].
  { exists 0%nat. split; [done|]. split; [by left|]. unfold nulled, removed. simpl.
    rewrite drop_0, app_nil_r. split; [done|]. by intros ?%elem_of_nil. }
  destruct (xs !! i) as [x|] eqn:Ex; [|apply lookup_ge_None in Ex; lia].
  rewrite list_lookup_fmap, Ex. cbn [fmap option_fmap option_map].
  case_decide as Hx.
  - injection Hx as ->. exists (S i). split; [done|]. split; [right; by replace (S i - 1)%nat with i by lia|].
    unfold nulled, removed. rewrite Nat.sub_diag. cbn [replicate take]. rewrite app_nil_l, take_drop.
    simpl. rewrite app_nil_r. split; [done|]. by intros ?%elem_of_nil.
  - destruct (IH (<[i := 0%nat]> xs) (rem ++ [BId x])) as (k & Hk & Hk0 & Hrun & Hrem).
    { rewrite length_insert. lia. }
    assert (i < length xs)%nat as Hi by lia.
    assert (drop i (<[i := 0%nat]> xs) = 0%nat :: drop (S i) xs) as Hd.
    { rewrite (drop_S _ 0%nat) by (by apply list_lookup_insert_eq). by rewrite drop_insert_lt by lia. }
    assert (take k (<[i := 0%nat]> xs) = take k xs) as Htk by (by rewrite take_insert_ge by lia).
    assert (take (i - k) (drop k (<[i := 0%nat]> xs)) = take (i - k) (drop k xs)) as Htd.
    { rewrite drop_insert_ge by lia. by rewrite take_insert_ge by lia. }
    assert (nulled i k (<[i := 0%nat]> xs) = nulled (S i) k xs) as Hnull.
    { unfold nulled. rewrite Hd, Htk. f_equal. replace (S i - k)%nat with (S (i - k)) by lia.
      rewrite replicate_S_end, <-app_assoc. done. }
    assert (removed (S i) k xs = x :: removed i k xs) as Hr1.
    { unfold removed. replace (S i - k)%nat with (S (i - k)) by lia.
      rewrite (take_S_r _ _ x); [by rewrite reverse_snoc|]. rewrite lookup_drop.
      by replace (k + (i - k))%nat with i by lia. }
    exists k. split; [lia|]. split; [|split].
    + destruct Hk0 as [?|Hk0]; [by left|]. destruct k as [|k]; [by left|]. right.
      rewrite list_lookup_insert_ne in Hk0 by lia. done.
    + rewrite <-Hnull, Hr1. rewrite <-(list_fmap_insert BId). 
      rewrite Hrun. f_equal. unfold removed. rewrite Htd. csimpl. by rewrite <-app_assoc.
    + rewrite Hr1. intros [E|Hin]%elem_of_cons; [congruence|]. apply Hrem. unfold removed in *. by rewrite Htd.
Qed.

(** The nulls of a table come first. *)
Definition null_prefix (xs : list nat) : Prop :=
  ∀ i j, (i < j)%nat → xs !! j = Some 0%nat → xs !! i = Some 0%nat.

Lemma nulled_prefix n k xs :
  null_prefix xs → (k ≤ n ≤ length xs)%nat → (k = 0%nat ∨ xs !! (k - 1)%nat = Some 0%nat) →
  nulled n k xs = replicate n 0%nat ++ drop n xs.
Proof.
  intros Hnp Hk Hk0. unfold nulled. rewrite app_assoc. f_equal.
  assert (take k xs = replicate k 0%nat) as ->.
  { apply list_eq. intros i. destruct (decide (i < k)%nat) as [Hi|Hi].
    - rewrite lookup_take_lt, lookup_replicate_2 by done.
      destruct Hk0 as [->|Hk0]; [lia|]. destruct (decide (i = k - 1)%nat) as [->|]; [done|].
      apply (Hnp i (k - 1)%nat); [lia|done].
    - rewrite !lookup_ge_None_2; [done|rewrite length_replicate; lia|rewrite length_take; lia]. }
  rewrite <-replicate_add. f_equal. lia.
Qed.

Lemma base_remove_spec m p l ext id total :
  mgr_owns m p l ext →
  let s := get_num_skipped_tokens m total in
  let n := Z.to_nat (Z.min (s / mgr_block_size m) (zlen (req_blocks m id))) in
  if decide (s ≤ 0) then base_remove_skipped_blocks m p id total = Ok (m, p)
  else ∃ xs k m' p', req_blocks m id = BId <$> xs ∧ (k ≤ n ≤ length xs)%nat ∧
    (k = 0%nat ∨ xs !! (k - 1)%nat = Some 0%nat) ∧
    base_remove_skipped_blocks m p id total = Ok (m', p') ∧ same_config p p' ∧
    mgr_owns m' p' (after_free (pool_heap p) l (removed n k xs)) ext ∧
    m' = put_blocks m id (BId <$> nulled n k xs).
Proof.
  intros Ho s n. unfold base_remove_skipped_blocks. fold s. rewrite req_blocks_touch.
  change (mgr_block_size (touch_entry m id)) with (mgr_block_size m). fold n.
  case_decide as Hs; [by rewrite (proj2 (Z.leb_le _ _))|]. rewrite (proj2 (Z.leb_gt _ _)) by lia.
  destruct (owns_default _ _ _ _ id Ho) as (xs & Exs & _). fold (req_blocks m id) in Exs.
  rewrite Exs. rewrite (inv_null _ _ _ (own_pool _ _ _ _ Ho)).
  assert (n ≤ length xs)%nat as Hn by (unfold n, zlen; rewrite Exs, length_fmap; lia).
  destruct (remove_loop_spec n xs [] Hn) as (k & Hk & Hk0 & -> & _).
  destruct (owns_remove p l (req_to_blocks (touch_entry m id)) ext id xs n k)
    as (p' & Hrun & Hc & Ho'); [by apply mgr_owns_touch| |lia|].
  { simpl. rewrite lookup_insert_eq. by f_equal. }
  simpl app. rewrite Hrun. cbn [mbind result_bind]. rewrite put_touch.
  exists xs, k. eexists _, p'. split; [done|]. split; [lia|]. split; [done|]. split; [done|].
  split; [done|]. split; [|done]. unfold mgr_owns. simpl in Ho'. by rewrite insert_insert_eq in Ho'.
Qed.

(** ** Freeing a request *)

Lemma free_spec m p l ext id :
  mgr_owns m p l ext →
  ∃ m' p' xs, free m p id = Ok (m', p') ∧ same_config p p' ∧ req_blocks m id = BId <$> xs ∧
    mgr_owns m' p' (after_free (pool_heap p) l (reverse xs)) ext ∧
    req_to_blocks m' = delete id (req_to_blocks m) ∧ num_cached_block m' = delete id (num_cached_block m).
Proof.
  intros Ho. unfold free, pop_blocks_for_free.
  destruct (owns_free_table p l (req_to_blocks m) ext id Ho) as (p' & xs & Exs & Hrun & Hc & Ho').
  fold (req_blocks m id) in Exs, Hrun.
  set (m0 := match mgr_class m with MambaManager => _ | _ => m end).
  assert (req_to_blocks m0 = req_to_blocks m ∧ num_cached_block m0 = num_cached_block m) as [Et En].
  { unfold m0. destruct (mgr_class m); try done. destruct (mgr_spec m); try done.
    by destruct (bool_decide _). }
  assert (req_blocks m0 id = req_blocks m id) as -> by (unfold req_blocks; by rewrite Et).
  rewrite Hrun. cbn [mbind result_bind]. eexists _, p', xs. split; [done|]. split; [done|]. split; [done|].
  unfold mgr_owns. simpl. rewrite Et, En. done.
Qed.

(** ** Caching *)

(** The call [cache_blocks] makes satisfies the pool's requirements. *)
Definition may_cache (sha : list bytes → bytes) (m : SingleTypeKVCacheManager) (p : BlockPool) (r : Request)
    (num_tokens : Z) (retention : option Z) : Prop :=
  ∀ mask, reachable_block_mask m (default 0 (num_cached_block m !! request_id r))
            (num_tokens / mgr_block_size m) retention (Some (num_prompt_tokens r)) = Ok mask →
  ∃ xs, req_blocks m (request_id r) = BId <$> xs ∧
    cache_pre sha p r xs (default 0 (num_cached_block m !! request_id r)) (num_tokens / mgr_block_size m)
      (mgr_block_size m) (kv_cache_group_id m) mask.

Lemma base_cache_spec sha m p l ext r num_tokens retention m' p' r' :
  mgr_owns m p l ext → may_cache sha m p r num_tokens retention →
  base_cache_blocks sha m p r num_tokens retention = Ok (m', p', r') →
  same_config p p' ∧ mgr_owns m' p' l ext.
Proof.
  intros Ho Hpre. unfold base_cache_blocks.
  destruct (Z.leb_spec (num_tokens / mgr_block_size m) (default 0 (num_cached_block m !! request_id r)));
    [by intros [= <- <- <-]|].
  destruct (reachable_block_mask _ _ _ _ _) as [mask|] eqn:Em; [|done]. cbn [mbind result_bind].
  destruct (Hpre mask Em) as (xs & Exs & Hc). rewrite req_blocks_touch, Exs.
  change (mgr_block_size (touch_entry m _)) with (mgr_block_size m).
  change (kv_cache_group_id (touch_entry m _)) with (kv_cache_group_id m).
  destruct (cache_full_blocks_spec _ _ _ _ _ _ _ _ _ _ (own_pool _ _ _ _ Ho) Hc)
    as (p1 & r1 & -> & Hp1 & Hcfg & _ & [Hx _] & _).
  cbn [mbind result_bind]. intros [= <- <- <-]. split; [done|].
  eapply owns_same_refs; [by apply mgr_owns_touch|done|done|]. intros x. apply Hx.
Qed.

(** ** A manager with its pool as a state machine *)

(** The calls the coordinator makes on a full-attention, sliding-window or
    chunked-local manager, with what each relies on: hits are blocks of the pool for a
    request without blocks, and external tokens come after the tokens the table
    already covers. *)
Inductive mgr_step (sha : list bytes → bytes)
    : SingleTypeKVCacheManager * BlockPool → SingleTypeKVCacheManager * BlockPool → Prop :=
  | mstep_hits m p id xs nl ne m' p' :
      mgr_enable_caching m = true → req_blocks m id = [] →
      in_pool p xs → NoDup (filter (λ x, x ≠ 0%nat) xs) →
      add_local_computed_blocks m p id (BId <$> xs) nl ne = Ok (m', p') →
      mgr_step sha (m, p) (m', p')
  | mstep_alloc m p id nt nm new m' p' :
      allocate_new_blocks m p id nt nm = Ok (new, m', p') → mgr_step sha (m, p) (m', p')
  | mstep_external m p id nl ne m' p' :
      zlen (req_blocks m id) ≤ cdiv (nl + ne) (mgr_block_size m) →
      allocate_external_computed_blocks m p id nl ne = Ok (m', p') → mgr_step sha (m, p) (m', p')
  | mstep_skip m p id total m' p' :
      remove_skipped_blocks m p id total = Ok (m', p') → mgr_step sha (m, p) (m', p')
  | mstep_cache m p r nt ret m' p' r' :
      may_cache sha m p r nt ret →
      cache_blocks sha m p r nt ret = Ok (m', p', r') → mgr_step sha (m, p) (m', p')
  | mstep_free m p id m' p' : free m p id = Ok (m', p') → mgr_step sha (m, p) (m', p')
  | mstep_ids m p : mgr_step sha (m, p) ((take_new_block_ids m).2, p)
  | mstep_common m p id : mgr_step sha (m, p) ((get_num_common_prefix_blocks m p id).2, p).

Inductive mgr_reachable (sha : list bytes → bytes) (m0 : SingleTypeKVCacheManager) (p0 : BlockPool)
    : SingleTypeKVCacheManager * BlockPool → Prop :=
  | mreach_init : mgr_reachable sha m0 p0 (m0, p0)
  | mreach_step s s' : mgr_reachable sha m0 p0 s → mgr_step sha s s' → mgr_reachable sha m0 p0 s'.

Lemma extend_class m p id n new m' p' : extend_blocks m p id n = Ok (new, m', p') → mgr_class m' = mgr_class m.
Proof.
  unfold extend_blocks. destruct (get_new_blocks _ _) as [[??]|]; [|done]. simpl. intros. simplify_eq. by destruct (tracks_new_ids _).
Qed.

(** Blocks for external tokens: nothing, or an extension of the table. *)
Lemma external_owns m p l ext id nl ne m' p' :
  plain_manager m → mgr_owns m p l ext → zlen (req_blocks m id) ≤ cdiv (nl + ne) (mgr_block_size m) →
  allocate_external_computed_blocks m p id nl ne = Ok (m', p') →
  mgr_class m' = mgr_class m ∧ same_config p p' ∧ ∃ l', mgr_owns m' p' l' ext.
Proof.
  intros Hplain Ho Hlen Hrun. unfold allocate_external_computed_blocks in Hrun.
  assert (∀ A (x y : A), match mgr_class m with CrossAttentionManager => x | _ => y end = y) as Ecls.
  { intros. unfold plain_manager in Hplain. by destruct (mgr_class m). }
  rewrite Ecls in Hrun. case_inv Hrun as Ene; [injection Hrun as <- <-; split; [done|]; split; [done|by eexists]|].
  bind_inv Hrun as [[new m1] p1] E. injection Hrun as <- <-. rewrite req_blocks_touch in E.
  change (mgr_block_size (touch_entry m id)) with (mgr_block_size m) in E.
  destruct (base_allocate_spec m p l ext id (nl + ne) Ho) as [_ Hfail]. unfold base_allocate_new_blocks in Hfail.
  rewrite req_blocks_touch in Hfail. change (mgr_block_size (touch_entry m id)) with (mgr_block_size m) in Hfail.
  set (n := cdiv (nl + ne) (mgr_block_size m) - zlen (req_blocks m id)) in *. pose proof (zlen_nonneg l).
  assert (n ≤ zlen l) as Hle.
  { destruct (Z.le_gt_cases n (zlen l)) as [|Hgt]; [done|]. rewrite (proj2 (Z.leb_gt _ _)) in Hfail by lia. rewrite E in Hfail. by discriminate Hfail; lia. }
  destruct (extend_blocks_spec (touch_entry m id) p l ext id (Z.to_nat n)) as (m2 & p2 & H2 & Hc & Ho' & _);
    [by apply mgr_owns_touch|unfold zlen in *; lia|].
  rewrite Z2Nat.id, E in H2 by lia. injection H2 as _ <- <-. apply extend_class in E.
  split; [exact E|]. split; [done|by eexists].
Qed.

Lemma mgr_step_owns sha m p m' p' l ext :
  plain_manager m → mgr_owns m p l ext → mgr_step sha (m, p) (m', p') →
  mgr_class m' = mgr_class m ∧ same_config p p' ∧ ∃ l', mgr_owns m' p' l' ext.
Proof.
  intros Hplain Ho Hstep. inversion Hstep; subst.
  - unfold add_local_computed_blocks in *.
    destruct (base_add_local_spec m p l ext id xs nl ne) as (m1 & p1 & H1 & Hc & Ho1 & Em); [done|by left|done..|].
    unfold plain_manager in Hplain. destruct (mgr_class m) eqn:Ecls; try done;
      match goal with H : base_add_local_computed_blocks _ _ _ _ _ _ = _ |- _ =>
        rewrite H1 in H; injection H as -> -> end;
      (split; [by rewrite Em|]); split; [done|by eexists|done|by eexists|done|by eexists].
  - unfold allocate_new_blocks in *.
    assert (base_allocate_new_blocks m p id nt = Ok (new, m', p')) as Hrun.
    { unfold plain_manager in Hplain. by destruct (mgr_class m). }
    destruct (base_allocate_spec m p l ext id nt Ho) as [Hok Hfail].
    destruct (decide (cdiv nt (mgr_block_size m) - zlen (req_blocks m id) ≤ zlen l)) as [Hle|Hgt].
    + destruct (Hok Hle) as (m1 & p1 & H1 & Hc & Ho1 & _). rewrite H1 in Hrun. simplify_eq.
      split; [|split; [done|by eexists]].
      unfold base_allocate_new_blocks in H1. destruct (_ <=? 0); [by simplify_eq|]. by apply extend_class in H1.
    + rewrite Hfail in Hrun by lia. done.
  - by eapply external_owns.
  - unfold remove_skipped_blocks in *.
    assert (base_remove_skipped_blocks m p id total = Ok (m', p')) as Hrun.
    { unfold plain_manager in Hplain. by destruct (mgr_class m). }
    pose proof (base_remove_spec m p l ext id total Ho) as Hspec. cbn zeta in Hspec. case_decide.
    + rewrite Hspec in Hrun. simplify_eq. split; [done|]. split; [done|by eexists].
    + destruct Hspec as (xs & k & m1 & p1 & _ & _ & _ & H1 & Hc & Ho1 & Em). rewrite H1 in Hrun.
      simplify_eq. split; [done|]. split; [done|by eexists].
  - unfold cache_blocks in *.
    assert (base_cache_blocks sha m p r nt ret = Ok (m', p', r')) as Hrun.
    { unfold plain_manager in Hplain. by destruct (mgr_class m). }
    match goal with H : may_cache _ _ _ _ _ _ |- _ =>
      destruct (base_cache_spec sha m p l ext r nt ret m' p' r' Ho H Hrun) as [Hc Ho1] end.
    split; [|split; [done|by eexists]]. unfold base_cache_blocks in Hrun.
    destruct (_ <=? _); [by simplify_eq|]. destruct (reachable_block_mask _ _ _ _ _); [|done].
    cbn [mbind result_bind] in Hrun. destruct (cache_full_blocks _ _ _ _ _ _ _ _ _) as [[??]|]; [|done].
    cbn [mbind result_bind] in Hrun. by simplify_eq.
  - destruct (free_spec m p l ext id Ho) as (m1 & p1 & xs & Hfree & Hc & _ & Ho1 & _).
    match goal with H : free _ _ _ = Ok (m', p') |- _ =>
      rewrite Hfree in H; injection H as -> -> end.
    split; [|split; [done|by eexists]].
    unfold free, pop_blocks_for_free in Hfree. destruct (free_blocks _ _); [|done].
    cbn [mbind result_bind] in Hfree. injection Hfree as <- _.
    cbn [mgr_class set_num_cached_block set_req_to_blocks].
    unfold plain_manager in Hplain. by destruct (mgr_class m) eqn:E; rewrite ?E.
  - split; [done|]. split; [done|]. by exists l.
  - split; [|split; [done|]].
    + unfold get_num_common_prefix_blocks. by destruct (mgr_class m) eqn:E.
    + exists l. unfold get_num_common_prefix_blocks. destruct (mgr_class m); try done;
        by apply mgr_owns_touch.
Qed.

Lemma owns_start p l : pool_inv p l → held p = [] → owns p l ∅ (λ _, 0).
Proof.
  intros Hp Hheld. split; [done|done| |].
  - intros x Hx. rewrite tcount_empty. destruct (decide (ref_cnt (pool_heap p (BId x)) = 0)); [done|].
    exfalso. assert (x ∈ held p) as Hin by (apply list_elem_of_filter; split; [done|]; apply elem_of_seq; lia).
    rewrite Hheld in Hin. by apply elem_of_nil in Hin.
  - intros id bs. by rewrite lookup_empty.
Qed.

Lemma mgr_reachable_owns sha m0 p0 l0 s :
  plain_manager m0 → req_to_blocks m0 = ∅ → pool_inv p0 l0 → held p0 = [] →
  mgr_reachable sha m0 p0 s →
  plain_manager s.1 ∧ same_config p0 s.2 ∧ ∃ l, mgr_owns s.1 s.2 l (λ _, 0).
Proof.
  intros Hplain He Hp Hheld Hr. induction Hr as [|[m p] [m' p'] Hr IH Hs].
  - split; [done|]. split; [done|]. exists l0. unfold mgr_owns. simpl. rewrite He. by apply owns_start.
  - destruct IH as (IH1 & IH2 & l & IH3).
    destruct (mgr_step_owns _ _ _ _ _ _ _ IH1 IH3 Hs) as (Hcls & Hc & Hl). simpl in *.
    split; [unfold plain_manager in *; by rewrite Hcls|]. split; [by trans p|done].
Qed.

(** ** Properties *)

(** C34: a full-attention, sliding-window or chunked-local manager keeps the reference
    count of every block equal to the number of its occurrences in the requests' block
    tables, through every sequence of prefix hits, allocations (for new and for external
    tokens), window trimming, caching and freeing; so the blocks in use are exactly
    those some table lists, and no table lists a non-null block twice. *)
Theorem ref_cnt_tracks_tables sha m0 p0 l0 m p :
  plain_manager m0 → req_to_blocks m0 = ∅ → pool_inv p0 l0 → held p0 = [] →
  mgr_reachable sha m0 p0 (m, p) →
  (∀ x, (0 < x < pool_size p)%nat → ref_cnt (pool_heap p (BId x)) = tcount x (req_to_blocks m)) ∧
  (∀ x, x ∈ held p ↔ (0 < x < pool_size p)%nat ∧ ∃ id, BId x ∈ req_blocks m id) ∧
  (∀ id, table_ok p (req_blocks m id)).
Proof.
  intros Hplain He Hp Hheld Hr.
  destruct (mgr_reachable_owns sha m0 p0 l0 (m, p) Hplain He Hp Hheld Hr) as (_ & _ & l & Ho). simpl in Ho.
  assert (∀ x, (0 < x < pool_size p)%nat → ref_cnt (pool_heap p (BId x)) = tcount x (req_to_blocks m)) as Href.
  { intros x Hx. rewrite (own_ref _ _ _ _ Ho x Hx). lia. }
  split; [done|]. split; [|intros id; by eapply owns_default].
  intros x. unfold held. rewrite list_elem_of_filter, elem_of_seq. split.
  - intros [Hne Hx]. assert (0 < x < pool_size p)%nat as Hxr by lia. split; [done|].
    rewrite Href in Hne by done. apply tcount_pos_inv in Hne as (id & bs & Hid & Hin).
    exists id. unfold req_blocks. by rewrite Hid.
  - intros [Hx (id & Hin)]. split; [|lia]. rewrite Href by done. unfold req_blocks in Hin.
    destruct (req_to_blocks m !! id) as [bs|] eqn:Hid; simpl in Hin; [|by apply elem_of_nil in Hin].
    pose proof (tcount_ge x _ _ _ Hid). pose proof (bcount_pos x bs Hin). lia.
Qed.

(** For a request scheduled for the first time, the number of blocks the
    manager asks for is exactly what the allocation takes from the free list: if
    that many are free, adding the prefix hits and then allocating cannot fail,
    the table covers all tokens, skipped blocks are null, and the free list
    shrinks by exactly that number. *)
Theorem allocation_predictor_exact m p l ext id xs num_tokens num_main num_local :
  plain_manager m → mgr_owns m p l ext → mgr_enable_caching m = true →
  num_cached_block m !! id = None → req_blocks m id = [] →
  in_pool p xs → NoDup (filter (λ x, x ≠ 0%nat) xs) →
  ∃ n, get_num_blocks_to_allocate m p id num_tokens (BId <$> xs) num_local num_main false = Ok (n, m) ∧
    0 ≤ n ∧
    (n ≤ get_num_free_blocks p →
     ∃ m1 p1 new m2 p2 l2, add_local_computed_blocks m p id (BId <$> xs) num_local 0 = Ok (m1, p1) ∧
       allocate_new_blocks m1 p1 id num_tokens num_main = Ok (new, m2, p2) ∧
       let s := Z.to_nat (get_num_skipped_tokens m num_local / mgr_block_size m) in
       req_blocks m2 id = replicate s (BId 0) ++ (BId <$> drop s xs) ++ new ∧
       cdiv num_tokens (mgr_block_size m) ≤ zlen (req_blocks m2 id) ∧
       mgr_owns m2 p2 l2 ext ∧ get_num_free_blocks p2 = get_num_free_blocks p - n).
Proof.
  intros Hplain Ho Hcache Hnc Hempty Hin Hnd.
  set (s := get_num_skipped_tokens m num_local / mgr_block_size m).
  assert (∀ q l', pool_inv q l' → get_num_free_blocks q = zlen l') as Hfree.
  { intros q l' Hq. apply (repr_count _ _ (inv_queue _ _ _ Hq)). }
  pose proof (base_predict_spec m p l ext id xs num_tokens num_local Ho Hnc Hempty Hin Hnd) as Hpred.
  cbn zeta in Hpred. fold s in Hpred.
  set (l1 := filter (λ y, y ∉ drop (Z.to_nat s) xs) l) in *.
  assert (zlen l1 ≤ zlen l) as Hl1 by (unfold zlen, l1; pose proof (length_filter (λ y, y ∉ drop (Z.to_nat s) xs) l); lia).
  set (k := cdiv num_tokens (mgr_block_size m) - Z.max s (zlen xs)) in *.
  eexists. split.
  { unfold get_num_blocks_to_allocate. rewrite Hpred. unfold plain_manager in Hplain.
    destruct (mgr_class m); try done. }
  split; [lia|]. rewrite (Hfree p l) by apply Ho. intros Hn.
  destruct (base_add_local_spec m p l ext id xs num_local 0) as (m1 & p1 & Hadd & Hc1 & Ho1 & Em1); [done|by left|done..|].
  rewrite Z.add_0_r in Ho1. rewrite Z.add_0_r in Em1. fold s in Ho1, Em1. fold l1 in Ho1.
  set (tbl := replicate (Z.to_nat s) (BId 0) ++ (BId <$> drop (Z.to_nat s) xs)) in *.
  assert (zlen tbl = Z.max s (zlen xs)) as Htbl.
  { unfold tbl. rewrite zlen_app, zlen_fmap. unfold zlen. rewrite length_replicate, length_drop. lia. }
  assert (req_blocks m1 id = tbl ∧ mgr_block_size m1 = mgr_block_size m ∧ mgr_class m1 = mgr_class m) as (Et & Eb & Ecls).
  { rewrite Em1. split; [apply req_blocks_put|done]. }
  destruct (base_allocate_spec m1 p1 l1 ext id num_tokens Ho1) as [Halloc _].
  rewrite Et, Eb, Htbl in Halloc. fold k in Halloc.
  destruct Halloc as (m2 & p2 & Hall & Hc2 & Ho2 & Et2 & _); [lia|].
  exists m1, p1, (BId <$> take (Z.to_nat k) l1), m2, p2, (drop (Z.to_nat k) l1). cbn zeta. split_and!.
  - unfold add_local_computed_blocks. unfold plain_manager in Hplain. by destruct (mgr_class m).
  - unfold allocate_new_blocks. rewrite Ecls. unfold plain_manager in Hplain. by destruct (mgr_class m).
  - unfold req_blocks. rewrite Et2, lookup_insert_eq. simpl. unfold tbl. by rewrite <-app_assoc.
  - unfold req_blocks. rewrite Et2, lookup_insert_eq. simpl. rewrite zlen_app, Htbl, zlen_fmap.
    unfold zlen in *. rewrite length_take. lia.
  - done.
  - rewrite (Hfree p2 (drop (Z.to_nat k) l1)) by apply Ho2. unfold zlen in *. rewrite length_drop. lia.
Qed.

(** Growing a running request's table either succeeds, with the table long
    enough for all tokens, old entries unchanged and only fresh blocks added, or
    raises [ValueError] without effect when the pool has too few free blocks;
    the number asked for beforehand decides which. *)
Theorem running_allocation_correct m p l ext id num_tokens num_main k :
  plain_manager m → mgr_owns m p l ext → num_cached_block m !! id = Some k →
  ∃ n, get_num_blocks_to_allocate m p id num_tokens [] 0 num_main false = Ok (n, m) ∧
    if decide (n ≤ get_num_free_blocks p) then
      ∃ new m' p' l', allocate_new_blocks m p id num_tokens num_main = Ok (new, m', p') ∧
        zlen new = n ∧ req_blocks m' id = req_blocks m id ++ new ∧
        cdiv num_tokens (mgr_block_size m) ≤ zlen (req_blocks m' id) ∧
        (∀ b, b ∈ new → ∀ id', b ∉ req_blocks m id') ∧ mgr_owns m' p' l' ext
    else allocate_new_blocks m p id num_tokens num_main = Raise ValueError.
Proof.
  intros Hplain Ho Hnc. set (k' := cdiv num_tokens (mgr_block_size m) - zlen (req_blocks m id)).
  exists (Z.max k' 0). split.
  { unfold get_num_blocks_to_allocate, base_get_num_blocks_to_allocate. rewrite Hnc. simpl.
    unfold plain_manager in Hplain. destruct (mgr_class m); done. }
  assert (get_num_free_blocks p = zlen l) as ->.
  { apply (repr_count _ _ (inv_queue _ _ _ (own_pool _ _ _ _ Ho))). }
  assert (allocate_new_blocks m p id num_tokens num_main = base_allocate_new_blocks m p id num_tokens) as ->.
  { unfold allocate_new_blocks, plain_manager in *. by destruct (mgr_class m). }
  destruct (base_allocate_spec m p l ext id num_tokens Ho) as [Hok Hfail]. fold k' in Hok, Hfail.
  pose proof (zlen_nonneg l) as Hl. case_decide as Hle; [|apply Hfail; lia].
  destruct (Hok ltac:(lia)) as (m' & p' & Hrun & _ & Ho' & Et & _).
  exists (BId <$> take (Z.to_nat k') l), m', p', (drop (Z.to_nat k') l).
  assert (req_blocks m' id = req_blocks m id ++ (BId <$> take (Z.to_nat k') l)) as Er.
  { unfold req_blocks at 1. by rewrite Et, lookup_insert_eq. }
  split_and!; [done| |done| | |done].
  - rewrite zlen_fmap. unfold zlen in *. rewrite length_take. lia.
  - rewrite Er, zlen_app, zlen_fmap. unfold zlen in *. rewrite length_take. lia.
  - intros b (x & -> & Hx)%list_elem_of_fmap id'. eapply owns_free_absent; [exact Ho|].
    by apply subseteq_take in Hx.
Qed.

(** Removing the blocks outside the attention window keeps the table's length
    and every block at or after the window; the blocks given back are exactly the
    replaced ones.  When the nulls of the table come first (which the operation
    preserves), every block before the window is null afterwards. *)
Theorem remove_skipped_blocks_correct m p l ext id total xs :
  plain_manager m → mgr_owns m p l ext → req_blocks m id = BId <$> xs → null_prefix xs →
  let n := Z.to_nat (Z.min (get_num_skipped_tokens m total / mgr_block_size m) (zlen xs)) in
  0 < get_num_skipped_tokens m total →
  ∃ m' p' gone l', remove_skipped_blocks m p id total = Ok (m', p') ∧
    req_blocks m' id = BId <$> (replicate n 0%nat ++ drop n xs) ∧
    null_prefix (replicate n 0%nat ++ drop n xs) ∧
    gone ⊆ take n xs ∧ (∀ x, x ≠ 0%nat → x ∈ take n xs → x ∈ gone) ∧
    l' = after_free (pool_heap p) l gone ∧ mgr_owns m' p' l' ext.
Proof.
  intros Hplain Ho Exs Hnp n Hpos.
  assert (remove_skipped_blocks m p id total = base_remove_skipped_blocks m p id total) as ->.
  { unfold remove_skipped_blocks, plain_manager in *. by destruct (mgr_class m). }
  pose proof (base_remove_spec m p l ext id total Ho) as Hspec. cbn zeta in Hspec.
  rewrite Exs, zlen_fmap in Hspec. fold n in Hspec. rewrite decide_False in Hspec by lia.
  destruct Hspec as (xs' & k & m' & p' & E & Hk & Hk0 & Hrun & Hc & Ho' & Em).
  apply (inj (fmap BId)) in E as <-. rewrite (nulled_prefix n k xs Hnp Hk Hk0) in Em.
  exists m', p', (removed n k xs), (after_free (pool_heap p) l (removed n k xs)).
  split; [done|]. split; [rewrite Em; apply req_blocks_put|]. split; [|split; [|split; [|done]]].
  - intros i j Hij Hj. destruct (decide (i < n)%nat) as [Hi|Hi].
    + rewrite lookup_app_l by (rewrite length_replicate; lia). by apply lookup_replicate_2.
    + rewrite lookup_app_r, length_replicate, lookup_drop in Hj |- * by (rewrite length_replicate; lia).
      eapply Hnp; [|exact Hj]. lia.
  - intros x Hx. unfold removed in Hx. rewrite elem_of_reverse, take_drop_commute in Hx.
    apply subseteq_drop in Hx. by replace (k + (n - k))%nat with n in Hx by lia.
  - intros x Hx0 Hx. unfold removed. rewrite elem_of_reverse, take_drop_commute.
    replace (k + (n - k))%nat with n by lia. apply list_elem_of_lookup in Hx as (i & Hi).
    apply list_elem_of_lookup. apply lookup_take_Some in Hi as [Hi Hin].
    destruct (decide (k ≤ i)%nat) as [Hki|Hki].
    + exists (i - k)%nat. rewrite lookup_drop. replace (k + (i - k))%nat with i by lia.
      by apply lookup_take_Some.
    + exfalso. apply Hx0. destruct Hk0 as [->|Hk0]; [lia|].
      destruct (decide (i = k - 1)%nat) as [->|]; [congruence|].
      assert (xs !! i = Some 0%nat) by (apply (Hnp i (k - 1)%nat); [lia|done]). congruence.
Qed.

(** Freeing a request drops its table and its caching progress and releases
    one reference of each of its blocks, tail blocks first in the eviction
    order. *)
Theorem free_request_correct m p l ext id :
  mgr_owns m p l ext →
  ∃ m' p' xs, free m p id = Ok (m', p') ∧ req_blocks m id = BId <$> xs ∧
    req_to_blocks m' = delete id (req_to_blocks m) ∧ num_cached_block m' = delete id (num_cached_block m) ∧
    mgr_owns m' p' (after_free (pool_heap p) l (reverse xs)) ext.
Proof.
  intros Ho. destruct (free_spec m p l ext id Ho) as (m' & p' & xs & ? & _ & ? & ? & ? & ?).
  exists m', p', xs. done.
Qed.

(** ** Examples *)

Definition demo_manager : SingleTypeKVCacheManager :=
  init_manager FullAttentionManager (FullAttentionSpec demo_attn (mkFull 8 None None false)) true 0 2 1 1 None.
Definition demo_window : KVCacheSpec := SlidingWindowSpec demo_attn 3 8.
Definition demo_swa_manager : SingleTypeKVCacheManager :=
  init_manager SlidingWindowManager demo_window true 0 2 1 1 None.

(** The same with a request that holds blocks 1 and 2. *)
Definition running (m : SingleTypeKVCacheManager) : SingleTypeKVCacheManager :=
  set_num_cached_block {[ "r" := 0 ]} (put_blocks m "r" [BId 1; BId 2]).

Lemma demo_pool_held : held demo_pool = [].
Proof.
  pose proof (held_count _ _ demo_pool_inv) as H. change (num_gpu_blocks demo_pool) with 4 in H.
  apply zlen_zero. change (zlen [1; 2; 3]%nat) with 3 in H. lia.
Qed.

Lemma demo_idle_owns m : req_to_blocks m = ∅ → mgr_owns m demo_pool [1; 2; 3]%nat (λ _, 0).
Proof. intros E. unfold mgr_owns. rewrite E. apply owns_start; [apply demo_pool_inv|apply demo_pool_held]. Qed.

Lemma demo_running_owns m : req_to_blocks m = ∅ → mgr_owns (running m) demo_used [3]%nat (λ _, 0).
Proof.
  intros E. destruct (owns_extend demo_pool [1; 2; 3]%nat (req_to_blocks m) (λ _, 0) "r" 2) as (p & Hrun & _ & Ho).
  - by apply demo_idle_owns.
  - simpl. lia.
  - change (Z.of_nat 2) with 2 in Hrun. rewrite demo_used_run in Hrun. injection Hrun as <-.
    unfold mgr_owns, running. simpl. rewrite E in Ho |- *. exact Ho.
Qed.

(** Request "r" gets two blocks, "s" hits the first of them and gets one for an external
    token, then "r" is freed. *)
Definition demo_ops : result (SingleTypeKVCacheManager * BlockPool) :=
  '(_, m, p) ← allocate_new_blocks demo_manager demo_pool "r" 4 4;
  '(m, p) ← add_local_computed_blocks m p "s" [BId 1] 2 1;
  '(m, p) ← allocate_external_computed_blocks m p "s" 2 1;
  free m p "r".

Lemma demo_ops_run : (s ← demo_ops; Ok (req_blocks s.1 "s", req_blocks s.1 "r", held s.2, pool_size s.2)) =
  Ok ([BId 1; BId 3], [], [1; 3]%nat, 4%nat).
Proof. by vm_compute. Qed.

Lemma demo_hits_run :
  ('(_, m, p) ← allocate_new_blocks demo_manager demo_pool "r" 4 4; Ok (req_blocks m "s", mgr_enable_caching m, pool_size p)) =
  Ok ([], true, 4%nat) ∧
  ('(_, m, p) ← allocate_new_blocks demo_manager demo_pool "r" 4 4;
   '(m, p) ← add_local_computed_blocks m p "s" [BId 1] 2 1; Ok (zlen (req_blocks m "s"), mgr_block_size m)) = Ok (1, 2).
Proof. split; by vm_compute. Qed.

Lemma demo_ops_reachable s : demo_ops = Ok s → mgr_reachable (λ _, []) demo_manager demo_pool s.
Proof.
  unfold demo_ops. intros H. destruct demo_hits_run as [R1 R2]. bind_inv H as [[new m1] p1] E1. rewrite E1 in R1, R2. cbn [mbind result_bind] in R1, R2.
  bind_inv H as [m2 p2] E2. rewrite E2 in R2. cbn [mbind result_bind] in R2. bind_inv H as [m3 p3] E3. destruct s as [m4 p4].
  injection R1 as R1a R1b R1c. injection R2 as R2a R2b.
  eapply mreach_step; [eapply mreach_step; [eapply mreach_step; [eapply mreach_step; [apply mreach_init|]|]|]|].
  - by eapply mstep_alloc.
  - eapply (mstep_hits _ _ _ "s" [1]%nat); [done|done| | |exact E2].
    + intros x ->%list_elem_of_singleton. rewrite R1c. lia.
    + apply NoDup_singleton.
  - eapply mstep_external; [|exact E3]. rewrite R2a, R2b. by vm_compute.
  - by eapply mstep_free.
Qed.

#[local] Opaque demo_used demo_pool.

Lemma ref_cnt_tracks_tables_witness :
  ∃ m p, demo_ops = Ok (m, p) ∧ req_blocks m "s" = [BId 1; BId 3] ∧
    (∀ x, (0 < x < pool_size p)%nat → ref_cnt (pool_heap p (BId x)) = tcount x (req_to_blocks m)) ∧
    (∀ x, x ∈ [1; 3]%nat ↔ (0 < x < 4)%nat ∧ ∃ id, BId x ∈ req_blocks m id).
Proof.
  pose proof demo_ops_run as R. destruct demo_ops as [[m p]|] eqn:E; [|discriminate R]. cbn [mbind result_bind fst snd] in R.
  injection R as R1 R2 R3 R4. destruct (ref_cnt_tracks_tables (λ _, []) demo_manager demo_pool [1; 2; 3]%nat m p) as (H1 & H2 & _);
    [done|done|apply demo_pool_inv|apply demo_pool_held|by apply demo_ops_reachable|].
  exists m, p. split; [reflexivity|]. split; [exact R1|]. split; [exact H1|]. intros x. specialize (H2 x). rewrite R3, R4 in H2. exact H2.
Defined.

Lemma allocation_predictor_exact_witness :
  ∃ n, get_num_blocks_to_allocate demo_manager demo_pool "r" 5 (BId <$> [2]%nat) 2 5 false
         = Ok (n, demo_manager) ∧ 0 ≤ n ∧
    (n ≤ get_num_free_blocks demo_pool →
     ∃ m1 p1 new m2 p2 l2, add_local_computed_blocks demo_manager demo_pool "r" (BId <$> [2]%nat) 2 0 = Ok (m1, p1) ∧
       allocate_new_blocks m1 p1 "r" 5 5 = Ok (new, m2, p2) ∧
       let s := Z.to_nat (get_num_skipped_tokens demo_manager 2 / mgr_block_size demo_manager) in
       req_blocks m2 "r" = replicate s (BId 0) ++ (BId <$> drop s [2]%nat) ++ new ∧
       cdiv 5 (mgr_block_size demo_manager) ≤ zlen (req_blocks m2 "r") ∧
       mgr_owns m2 p2 l2 (λ _, 0) ∧ get_num_free_blocks p2 = get_num_free_blocks demo_pool - n).
Proof.
  apply (allocation_predictor_exact demo_manager demo_pool [1; 2; 3]%nat (λ _, 0) "r" [2]%nat 5 5 2);
    [done|by apply demo_idle_owns|done|done|done| |].
  - intros n ->%list_elem_of_singleton. change (pool_size demo_pool) with 4%nat. lia.
  - apply NoDup_filter, NoDup_singleton.
Defined.

Lemma running_allocation_correct_witness :
  ∃ n, get_num_blocks_to_allocate (running demo_manager) demo_used "r" 5 [] 0 5 false
         = Ok (n, running demo_manager) ∧
    if decide (n ≤ get_num_free_blocks demo_used) then
      ∃ new m' p' l', allocate_new_blocks (running demo_manager) demo_used "r" 5 5 = Ok (new, m', p') ∧
        zlen new = n ∧ req_blocks m' "r" = req_blocks (running demo_manager) "r" ++ new ∧
        cdiv 5 (mgr_block_size (running demo_manager)) ≤ zlen (req_blocks m' "r") ∧
        (∀ b, b ∈ new → ∀ id', b ∉ req_blocks (running demo_manager) id') ∧ mgr_owns m' p' l' (λ _, 0)
    else allocate_new_blocks (running demo_manager) demo_used "r" 5 5 = Raise ValueError.
Proof.
  apply (running_allocation_correct (running demo_manager) demo_used [3]%nat (λ _, 0) "r" 5 5 0);
    [done|by apply demo_running_owns|done].
Defined.

Lemma remove_skipped_blocks_correct_witness :
  let m := running demo_swa_manager in
  let n := Z.to_nat (Z.min (get_num_skipped_tokens m 5 / mgr_block_size m) (zlen [1; 2]%nat)) in
  ∃ m' p' gone l', remove_skipped_blocks m demo_used "r" 5 = Ok (m', p') ∧
    req_blocks m' "r" = BId <$> (replicate n 0%nat ++ drop n [1; 2]%nat) ∧
    null_prefix (replicate n 0%nat ++ drop n [1; 2]%nat) ∧
    gone ⊆ take n [1; 2]%nat ∧ (∀ x, x ≠ 0%nat → x ∈ take n [1; 2]%nat → x ∈ gone) ∧
    l' = after_free (pool_heap demo_used) [3]%nat gone ∧ mgr_owns m' p' l' (λ _, 0).
Proof.
  apply (remove_skipped_blocks_correct (running demo_swa_manager) demo_used [3]%nat (λ _, 0) "r" 5 [1; 2]%nat);
    [done|by apply demo_running_owns|done| |by vm_compute].
  intros i j _ Hj. by destruct j as [|[|[|]]].
Defined.

Lemma free_request_correct_witness :
  ∃ m' p' xs, free (running demo_manager) demo_used "r" = Ok (m', p') ∧
    req_blocks (running demo_manager) "r" = BId <$> xs ∧
    req_to_blocks m' = delete "r" (req_to_blocks (running demo_manager)) ∧
    num_cached_block m' = delete "r" (num_cached_block (running demo_manager)) ∧
    mgr_owns m' p' (after_free (pool_heap demo_used) [3]%nat (reverse xs)) (λ _, 0).
Proof. apply free_request_correct. by apply demo_running_owns. Defined.
