(* ===== verification/Coordinator.v ===== *)
(** * The KV-cache coordinators

    [KVCacheCoordinator] and its three subclasses
    ([vllm/v1/core/kv_cache_coordinator.py]).  A coordinator owns the block pool
    and one manager per KV-cache group, and runs every operation over all
    managers in group order, threading the shared pool.  The hybrid coordinator
    looks for a prefix hit all groups agree on. *)

From S2P Require Import Prelude MathUtils KVBlock BlockHashList Request BlockPool KVSpecs CacheHit SingleType.

#[local] Open Scope Z_scope.

Inductive coordinator_class :=
  | KVCacheCoordinatorNoPrefixCache | UnitaryKVCacheCoordinator | HybridKVCacheCoordinator.

(** Groups that share one spec. *)
Record SpecGroup := mkSpecGroup {
  sg_spec : KVCacheSpec;
  sg_group_ids : list Z;
  sg_manager_cls : manager_class;
  sg_use_eagle : bool;
}.

#[export] Instance SpecGroup_eq_dec : EqDecision SpecGroup.
Proof. solve_decision. Defined.

Record KVCacheCoordinator := mkCoordinator {
  coord_class : coordinator_class;
  coord_config : KVCacheConfig;
  coord_max_model_len : Z;
  coord_enable_caching : bool;
  scheduler_block_size : Z;
  block_pool : BlockPool;
  eagle_group_ids : list Z;
  single_type_managers : list SingleTypeKVCacheManager;
  coord_retention_interval : option Z;
  (* Unitary *)
  unit_block_size : Z;
  dcp_world_size : Z;
  pcp_world_size : Z;
  (* Hybrid *)
  coord_hash_block_size : Z;
  attention_groups : list SpecGroup;
  num_uncached_common_prefix_tokens : Z;
}.

Definition set_state (ms : list SingleTypeKVCacheManager) (p : BlockPool) (c : KVCacheCoordinator) :=
  mkCoordinator (coord_class c) (coord_config c) (coord_max_model_len c) (coord_enable_caching c)
    (scheduler_block_size c) p (eagle_group_ids c) ms (coord_retention_interval c) (unit_block_size c)
    (dcp_world_size c) (pcp_world_size c) (coord_hash_block_size c) (attention_groups c)
    (num_uncached_common_prefix_tokens c).
Definition set_uncached_common (n : Z) (c : KVCacheCoordinator) :=
  mkCoordinator (coord_class c) (coord_config c) (coord_max_model_len c) (coord_enable_caching c)
    (scheduler_block_size c) (block_pool c) (eagle_group_ids c) (single_type_managers c)
    (coord_retention_interval c) (unit_block_size c) (dcp_world_size c) (pcp_world_size c)
    (coord_hash_block_size c) (attention_groups c) n.

(** ** Construction *)

Definition _validate_prefix_cache_retention_interval (retention_interval : option Z)
    (scheduler_block_size : Z) (config : KVCacheConfig) : result unit :=
  match retention_interval with
  | None => Ok tt
  | Some n =>
      if negb (existsb (λ g, is_sliding_window_spec (kv_cache_spec g)) (kv_cache_groups config))
      then Raise ValueError
      else if (n <? 0) || negb (n mod scheduler_block_size =? 0) then Raise ValueError
      else Ok tt
  end.

(** One manager per group, numbered in order. *)
Fixpoint build_managers (groups : list KVCacheGroupSpec) (i : Z)
    (max_num_batched_tokens max_model_len : Z) (enable_caching : bool) (sbs dcp pcp : Z)
    : result (list SingleTypeKVCacheManager) :=
  match groups with
  | [] => Ok []
  | g :: groups =>
      m ← get_manager_for_kv_cache_spec (kv_cache_spec g) max_num_batched_tokens max_model_len
            enable_caching i sbs dcp pcp;
      ms ← build_managers groups (i + 1) max_num_batched_tokens max_model_len enable_caching sbs dcp pcp;
      Ok (m :: ms)
  end.

(** The flagged groups, or all of them when none is flagged. *)
Definition eagle_groups (groups : list KVCacheGroupSpec) (use_eagle : bool) : list Z :=
  let flagged := (filter (λ ig, is_eagle_group ig.2 = true) (zip (py_range 0 (zlen groups)) groups)).*1 in
  if use_eagle && bool_decide (flagged = []) then py_range 0 (zlen groups) else flagged.

(** [KVCacheCoordinator.__init__].  [retention] is the value of
    [envs.VLLM_PREFIX_CACHE_RETENTION_INTERVAL]. *)
Definition init_coordinator (cls : coordinator_class) (config : KVCacheConfig)
    (max_model_len max_num_batched_tokens : Z) (use_eagle enable_caching enable_kv_cache_events : bool)
    (dcp pcp sbs hash_block_size : Z) (retention : option Z) (int_hashes : bool)
    : result KVCacheCoordinator :=
  let groups := kv_cache_groups config in
  _ ← py_assert ((sbs mod hash_block_size =? 0) &&
                 forallb (λ g, sbs mod block_size (kv_cache_spec g) =? 0) groups);
  p ← init_pool (num_blocks config) enable_caching hash_block_size enable_kv_cache_events int_hashes;
  ms ← build_managers groups 0 max_num_batched_tokens max_model_len enable_caching sbs dcp pcp;
  _ ← _validate_prefix_cache_retention_interval retention sbs config;
  Ok (mkCoordinator cls config max_model_len enable_caching sbs p (eagle_groups groups use_eagle) ms
        retention 0 dcp pcp hash_block_size [] 0).

(** [UnitaryKVCacheCoordinator.__init__] after the base class's. *)
Definition init_unitary (c : KVCacheCoordinator) : result KVCacheCoordinator :=
  match kv_cache_groups (coord_config c) with
  | [] => Raise IndexError
  | g :: rest =>
      let bs := block_size (kv_cache_spec g) in
      let bs := if 1 <? dcp_world_size c then bs * dcp_world_size c else bs in
      let bs := if 1 <? pcp_world_size c then bs * pcp_world_size c else bs in
      _ ← py_assert (negb (coord_enable_caching c) || (coord_hash_block_size c =? bs));
      _ ← py_assert (bool_decide (rest = []));
      match single_type_managers c with
      | [] => Raise IndexError
      | m :: ms =>
          Ok (mkCoordinator (coord_class c) (coord_config c) (coord_max_model_len c)
                (coord_enable_caching c) (scheduler_block_size c) (block_pool c) (eagle_group_ids c)
                (set_use_eagle (bool_decide (0 ∈ eagle_group_ids c)) m :: ms) (coord_retention_interval c)
                bs (dcp_world_size c) (pcp_world_size c) (coord_hash_block_size c) [] 0)
      end
  end.

(** The [for ... else] of [verify_and_split_kv_cache_groups]: join the first
    spec group with the same spec or open a new one. *)
Fixpoint add_to_spec_group (i : Z) (spec : KVCacheSpec) (cls : manager_class) (use_eagle : bool)
    (gs : list SpecGroup) : result (list SpecGroup) :=
  match gs with
  | [] => Ok [mkSpecGroup spec [i] cls use_eagle]
  | g :: gs =>
      if decide (sg_spec g = spec) then
        _ ← py_assert (bool_decide (cls = sg_manager_cls g));
        Ok (mkSpecGroup (sg_spec g) (sg_group_ids g ++ [i]) (sg_manager_cls g)
              (use_eagle || sg_use_eagle g) :: gs)
      else
        gs' ← add_to_spec_group i spec cls use_eagle gs;
        Ok (g :: gs')
  end.

Fixpoint split_groups (groups : list KVCacheGroupSpec) (ms : list SingleTypeKVCacheManager) (i : Z)
    (eagle : list Z) (gs : list SpecGroup) : result (list SpecGroup) :=
  match groups, ms with
  | [], _ => Ok gs
  | g :: groups, m :: ms =>
      gs ← add_to_spec_group i (kv_cache_spec g) (mgr_class m) (bool_decide (i ∈ eagle)) gs;
      split_groups groups ms (i + 1) eagle gs
  | _ :: _, [] => Raise IndexError
  end.

(** [sort(key=lambda g: not isinstance(g.spec, FullAttentionSpec))]: the sort is
    stable, so it moves the full-attention groups to the front. *)
Definition full_first (gs : list SpecGroup) : list SpecGroup :=
  filter (λ g, is_full_attention_spec (sg_spec g) = true) gs ++
  filter (λ g, is_full_attention_spec (sg_spec g) = false) gs.

Definition propagate_eagle (gs : list SpecGroup) (ms : list SingleTypeKVCacheManager)
    : list SingleTypeKVCacheManager :=
  foldl (λ ms g,
    if sg_use_eagle g
    then foldl (λ ms gid, alter (set_use_eagle true) (Z.to_nat gid) ms) ms (sg_group_ids g)
    else ms) ms gs.

Definition verify_and_split_kv_cache_groups (c : KVCacheCoordinator) : result KVCacheCoordinator :=
  gs ← split_groups (kv_cache_groups (coord_config c)) (single_type_managers c) 0 (eagle_group_ids c) [];
  _ ← py_assert (1 <? zlen gs);
  let gs := full_first gs in
  Ok (mkCoordinator (coord_class c) (coord_config c) (coord_max_model_len c) (coord_enable_caching c)
        (scheduler_block_size c) (block_pool c) (eagle_group_ids c)
        (propagate_eagle gs (single_type_managers c)) (coord_retention_interval c) (unit_block_size c)
        (dcp_world_size c) (pcp_world_size c) (coord_hash_block_size c) gs
        (num_uncached_common_prefix_tokens c)).

(** [HybridKVCacheCoordinator.__init__] after the base class's. *)
Definition init_hybrid (c : KVCacheCoordinator) : result KVCacheCoordinator :=
  _ ← py_assert (forallb (λ g, block_size (kv_cache_spec g) mod coord_hash_block_size c =? 0)
                   (kv_cache_groups (coord_config c)));
  _ ← py_assert (dcp_world_size c =? 1);
  _ ← py_assert (pcp_world_size c =? 1);
  verify_and_split_kv_cache_groups c.

Definition get_kv_cache_coordinator (config : KVCacheConfig)
    (max_model_len max_num_batched_tokens : Z) (use_eagle enable_caching enable_kv_cache_events : bool)
    (dcp pcp sbs hash_block_size : Z) (retention : option Z) (int_hashes : bool)
    : result KVCacheCoordinator :=
  if negb enable_caching then
    init_coordinator KVCacheCoordinatorNoPrefixCache config max_model_len max_num_batched_tokens use_eagle
      false enable_kv_cache_events dcp pcp sbs hash_block_size retention int_hashes
  else if zlen (kv_cache_groups config) =? 1 then
    c ← init_coordinator UnitaryKVCacheCoordinator config max_model_len max_num_batched_tokens use_eagle
          enable_caching enable_kv_cache_events dcp pcp sbs hash_block_size retention int_hashes;
    init_unitary c
  else
    c ← init_coordinator HybridKVCacheCoordinator config max_model_len max_num_batched_tokens use_eagle
          enable_caching enable_kv_cache_events dcp pcp sbs hash_block_size retention int_hashes;
    init_hybrid c.

(** ** Running an operation over the managers *)

Definition is_cross (m : SingleTypeKVCacheManager) : bool :=
  bool_decide (mgr_class m = CrossAttentionManager).

(** [for i, manager in enumerate(self.single_type_managers)], collecting a value
    of every call. *)
Fixpoint each_manager {A} (f : nat → SingleTypeKVCacheManager → BlockPool →
                               result (A * SingleTypeKVCacheManager * BlockPool))
    (i : nat) (ms : list SingleTypeKVCacheManager) (p : BlockPool)
    : result (list A * list SingleTypeKVCacheManager * BlockPool) :=
  match ms with
  | [] => Ok ([], [], p)
  | m :: ms =>
      '(a, m, p) ← f i m p;
      '(xs, ms, p) ← each_manager f (S i) ms p;
      Ok (a :: xs, m :: ms, p)
  end.

Definition run_managers {A} (f : nat → SingleTypeKVCacheManager → BlockPool →
                                 result (A * SingleTypeKVCacheManager * BlockPool))
    (c : KVCacheCoordinator) : result (list A * KVCacheCoordinator) :=
  '(xs, ms, p) ← each_manager f 0 (single_type_managers c) (block_pool c);
  Ok (xs, set_state ms p c).

(** A call that returns nothing. *)
Definition quiet (f : SingleTypeKVCacheManager → BlockPool → result (SingleTypeKVCacheManager * BlockPool))
    (_ : nat) (m : SingleTypeKVCacheManager) (p : BlockPool)
    : result (unit * SingleTypeKVCacheManager * BlockPool) :=
  '(m, p) ← f m p; Ok (tt, m, p).

Definition coord_get_num_blocks_to_allocate (c : KVCacheCoordinator) (id : string) (num_tokens : Z)
    (new_computed_blocks : list (list bref))
    (num_encoder_tokens total_computed_tokens num_tokens_main_model : Z) (apply_admission_cap : bool)
    : result (Z * KVCacheCoordinator) :=
  '(ns, c) ← run_managers (λ i m p,
     '(n, m) ← (if is_cross m then
                  get_num_blocks_to_allocate m p id num_encoder_tokens [] 0 num_encoder_tokens
                    apply_admission_cap
                else
                  bs ← py_index new_computed_blocks (Z.of_nat i);
                  get_num_blocks_to_allocate m p id num_tokens bs total_computed_tokens
                    num_tokens_main_model apply_admission_cap);
     Ok (n, m, p)) c;
  Ok (foldr Z.add 0 ns, c).

Definition coord_allocate_new_computed_blocks (c : KVCacheCoordinator) (id : string)
    (new_computed_blocks : list (list bref)) (num_local num_external : Z) : result KVCacheCoordinator :=
  if existsb (λ m, bool_decide (is_Some (num_cached_block m !! id))) (single_type_managers c) then
    _ ← py_assert (forallb (λ bs, zlen bs =? 0) new_computed_blocks); Ok c
  else
    '(_, c) ← run_managers (λ i m p,
       bs ← py_index new_computed_blocks (Z.of_nat i);
       '(m, p) ← add_local_computed_blocks m p id bs num_local num_external;
       Ok (tt, m, p)) c;
    if 0 <? num_external then
      '(_, c) ← run_managers (quiet (λ m p, allocate_external_computed_blocks m p id num_local num_external)) c;
      Ok c
    else Ok c.

Definition coord_allocate_new_blocks (c : KVCacheCoordinator) (id : string)
    (num_tokens num_tokens_main_model num_encoder_tokens : Z)
    : result (list (list bref) * KVCacheCoordinator) :=
  run_managers (λ _ m p,
    allocate_new_blocks m p id (if is_cross m then num_encoder_tokens else num_tokens)
      num_tokens_main_model) c.

Definition coord_free (c : KVCacheCoordinator) (id : string) : result KVCacheCoordinator :=
  '(_, c) ← run_managers (quiet (λ m p, free m p id)) c; Ok c.

Definition coord_pop_blocks_for_free (c : KVCacheCoordinator) (id : string)
    : result (list bref * KVCacheCoordinator) :=
  '(bss, c) ← run_managers (λ _ m p, let '(bs, m) := pop_blocks_for_free m id in Ok (bs, m, p)) c;
  Ok (concat bss, c).

Definition coord_get_num_common_prefix_blocks (c : KVCacheCoordinator) (id : string)
    : result (list Z * KVCacheCoordinator) :=
  match coord_class c with
  | KVCacheCoordinatorNoPrefixCache => Ok ((λ _, 0) <$> single_type_managers c, c)
  | _ => run_managers (λ _ m p, let '(n, m) := get_num_common_prefix_blocks m p id in Ok (n, m, p)) c
  end.

Definition coord_remove_skipped_blocks (c : KVCacheCoordinator) (id : string) (total_computed_tokens : Z)
    : result KVCacheCoordinator :=
  '(_, c) ← run_managers (quiet (λ m p, remove_skipped_blocks m p id total_computed_tokens)) c; Ok c.

Definition coord_get_blocks (c : KVCacheCoordinator) (id : string) : list (list bref) :=
  (λ m, req_blocks m id) <$> single_type_managers c.

Definition coord_new_step_starts (c : KVCacheCoordinator) : KVCacheCoordinator :=
  set_state (mgr_new_step_starts <$> single_type_managers c) (block_pool c) c.

(** ** Caching *)

Section caching.
Context (sha256 : list bytes → bytes).

(** The managers in order; the request's cached keys are threaded too. *)
Fixpoint cache_all (tokens : SingleTypeKVCacheManager → Z) (retention : option Z)
    (ms : list SingleTypeKVCacheManager) (p : BlockPool) (r : Request)
    : result (list SingleTypeKVCacheManager * BlockPool * Request) :=
  match ms with
  | [] => Ok ([], p, r)
  | m :: ms =>
      '(m, p, r) ← cache_blocks sha256 m p r (tokens m) retention;
      '(ms, p, r) ← cache_all tokens retention ms p r;
      Ok (m :: ms, p, r)
  end.

(** How many tokens a manager may cache: all of them, or, for the hybrid
    coordinator, up to the last aligned boundary, and one block more for an
    EAGLE group. *)
Definition tokens_to_cache (c : KVCacheCoordinator) (num_computed_tokens : Z)
    (m : SingleTypeKVCacheManager) : Z :=
  match coord_class c with
  | HybridKVCacheCoordinator =>
      let aligned := num_computed_tokens / scheduler_block_size c * scheduler_block_size c in
      if mgr_use_eagle m && (0 <? aligned)
      then Z.min num_computed_tokens (aligned + mgr_block_size m) else aligned
  | _ => num_computed_tokens
  end.

Definition coord_cache_blocks (c : KVCacheCoordinator) (r : Request) (num_computed_tokens : Z)
    : result (KVCacheCoordinator * Request) :=
  '(ms, p, r) ← cache_all (tokens_to_cache c num_computed_tokens) (coord_retention_interval c)
                  (single_type_managers c) (block_pool c) r;
  Ok (set_state ms p c, r).
End caching.

(** ** Looking for a prefix hit *)

Definition unitary_find_longest_cache_hit (c : KVCacheCoordinator) (hashes : list bytes)
    (max_cache_hit_length : Z) : result (list (list bref) * Z) :=
  match single_type_managers c, kv_cache_groups (coord_config c) with
  | m :: _, g :: _ =>
      hit_blocks ← find_longest_cache_hit (mgr_class m) (block_pool c) (PlainHashes hashes)
                     max_cache_hit_length [0] (kv_cache_spec g) (bool_decide (0 ∈ eagle_group_ids c))
                     (unit_block_size c) (dcp_world_size c) (pcp_world_size c);
      n ← first_len hit_blocks;
      Ok (hit_blocks, n * unit_block_size c)
  | _, _ => Raise IndexError
  end.

Definition _get_block_hashes (c : KVCacheCoordinator) (hashes : list bytes) (spec : KVCacheSpec)
    : result BlockHashList :=
  if block_size spec =? coord_hash_block_size c then Ok (PlainHashes hashes)
  else BlockHashListWithBlockSize hashes (coord_hash_block_size c) (block_size spec).

(** The variables of the fixed-point loop. *)
Record hit_state := mkHit {
  curr_hit_length : Z;
  longest_hit_length : Z;
  hit_blocks_by_group : list (option (list bref));
  eagle_verified : gset nat;
}.

Definition set_curr (n : Z) (s : hit_state) :=
  mkHit n (longest_hit_length s) (hit_blocks_by_group s) (eagle_verified s).

(** [for group_id, blocks in zip(...): hit_blocks_by_group[group_id] = blocks] *)
Definition store_hits (gids : list Z) (hits : list (list bref)) (bl : list (option (list bref)))
    : list (option (list bref)) :=
  foldl (λ bl gb, <[Z.to_nat gb.1 := Some gb.2]> bl) bl (zip gids hits).

(** One group: accept the candidate length or reduce it. *)
Definition hybrid_group_step (c : KVCacheCoordinator) (hashes : list bytes) (max_cache_hit_length : Z)
    (s : hit_state) (ig : nat * SpecGroup) : result hit_state :=
  let '(idx, g) := ig in
  let bs := block_size (sg_spec g) in
  g0 ← py_index (sg_group_ids g) 0;
  cached_blocks ← py_index (hit_blocks_by_group s) g0;
  if is_full_attention_spec (sg_spec g) && bool_decide (is_Some cached_blocks) then
    Ok (set_curr (curr_hit_length s / bs * bs) s)
  else
    let drop_eagle_block := sg_use_eagle g && negb (bool_decide (idx ∈ eagle_verified s)) in
    let max_length :=
      if drop_eagle_block then Z.min (curr_hit_length s + bs) max_cache_hit_length
      else curr_hit_length s in
    hs ← _get_block_hashes c hashes (sg_spec g);
    hit_blocks ← find_longest_cache_hit (sg_manager_cls g) (block_pool c) hs max_length (sg_group_ids g)
                   (sg_spec g) drop_eagle_block (scheduler_block_size c) 1 1;
    n ← first_len hit_blocks;
    let new_hit_length := n * bs in
    let verified :=
      if drop_eagle_block then {[idx]} ∪ eagle_verified s
      else if new_hit_length <? curr_hit_length s then ∅ else eagle_verified s in
    Ok (mkHit new_hit_length (Z.max (longest_hit_length s) new_hit_length)
          (store_hits (sg_group_ids g) hit_blocks (hit_blocks_by_group s)) verified).

(** [while True]: all groups, until none reduces the length. *)
Fixpoint hybrid_loop (fuel : nat) (c : KVCacheCoordinator) (hashes : list bytes) (max_len : Z)
    (is_simple_hybrid : bool) (hit_length : Z) (s : hit_state) : result (Z * hit_state) :=
  match fuel with
  | O => Raise OutOfFuel
  | S fuel =>
      s ← mfold (hybrid_group_step c hashes max_len) (set_curr hit_length s)
            (imap pair (attention_groups c));
      if hit_length <=? curr_hit_length s then Ok (hit_length, s)
      else if is_simple_hybrid then Ok (curr_hit_length s, s)
      else hybrid_loop fuel c hashes max_len is_simple_hybrid (curr_hit_length s) s
  end.

(** [del blks[num_blocks:]] for the groups of the first spec group, when it is
    full attention. *)
Definition truncate_full (gs : list SpecGroup) (hit_length : Z) (bl : list (option (list bref)))
    : list (option (list bref)) :=
  match gs with
  | g :: _ =>
      if is_full_attention_spec (sg_spec g) then
        foldl (λ bl gid, alter (fmap (take (Z.to_nat (hit_length / block_size (sg_spec g)))))
                           (Z.to_nat gid) bl) bl (sg_group_ids g)
      else bl
  | [] => bl
  end.

(** The fuel is enough: every further round starts from a smaller length. *)
Definition hybrid_find_longest_cache_hit (c : KVCacheCoordinator) (hashes : list bytes)
    (max_cache_hit_length : Z) : result (list (list bref) * Z * KVCacheCoordinator) :=
  let num_groups := length (kv_cache_groups (coord_config c)) in
  let is_simple_hybrid :=
    match attention_groups c with
    | [g; _] => is_full_attention_spec (sg_spec g)
    | _ => false
    end in
  '(hit_length, s) ← hybrid_loop (S (S (Z.to_nat max_cache_hit_length))) c hashes max_cache_hit_length
                       is_simple_hybrid max_cache_hit_length
                       (mkHit max_cache_hit_length 0 (replicate num_groups None) ∅);
  let bl := truncate_full (attention_groups c) hit_length (hit_blocks_by_group s) in
  Ok (default [] <$> bl, hit_length, set_uncached_common (longest_hit_length s - hit_length) c).

Definition coord_find_longest_cache_hit (c : KVCacheCoordinator) (hashes : list bytes)
    (max_cache_hit_length : Z) : result (list (list bref) * Z * KVCacheCoordinator) :=
  match coord_class c with
  | KVCacheCoordinatorNoPrefixCache => Ok ((λ _, []) <$> single_type_managers c, 0, c)
  | UnitaryKVCacheCoordinator =>
      '(bs, n) ← unitary_find_longest_cache_hit c hashes max_cache_hit_length; Ok (bs, n, c)
  | HybridKVCacheCoordinator => hybrid_find_longest_cache_hit c hashes max_cache_hit_length
  end.

(** [HybridKVCacheCoordinator.find_longest_cache_hit_per_group] *)
Definition find_longest_cache_hit_per_group (c : KVCacheCoordinator) (hashes : list bytes)
    (max_cache_hit_length : Z) : result (list (list bref) * list Z) :=
  let num_groups := length (kv_cache_groups (coord_config c)) in
  mfold (λ acc g,
    hs ← _get_block_hashes c hashes (sg_spec g);
    blocks ← find_longest_cache_hit (sg_manager_cls g) (block_pool c) hs max_cache_hit_length
               (sg_group_ids g) (sg_spec g) (sg_use_eagle g) (scheduler_block_size c) 1 1;
    n ← first_len blocks;
    Ok (foldl (λ bl gb, <[Z.to_nat gb.1 := gb.2]> bl) acc.1 (zip (sg_group_ids g) blocks),
        foldl (λ hl gb, <[Z.to_nat gb.1 := n * block_size (sg_spec g)]> hl) acc.2
          (zip (sg_group_ids g) blocks)))
    (replicate num_groups [], replicate num_groups 0) (attention_groups c).
