(* ===== verification/CoordFacts.v ===== *)
(** * Ownership across the groups of a coordinator

    The reference count of a block is the number of its occurrences in the
    tables of all groups together.  The loops over the managers keep this, and
    they can run out of blocks only if the predicted number exceeds the free
    ones. *)

From S2P Require Import Prelude MathUtils KVBlock FreeQueue BlockMap BlockHashList Request BlockHasher BlockPool PrefixCache Ownership KVSpecs CacheHit SingleType ManagerFacts Coordinator.

#[local] Open Scope Z_scope.

(** References of block [x] from the tables of all managers. *)
Fixpoint refs_of (x : nat) (ms : list SingleTypeKVCacheManager) : Z :=
  match ms with
  | [] => 0
  | m :: ms => tcount x (req_to_blocks m) + refs_of x ms
  end.

Definition tables_ok (p : BlockPool) (m : SingleTypeKVCacheManager) : Prop :=
  ∀ id bs, req_to_blocks m !! id = Some bs → table_ok p bs.

(** The managers [ms] share pool [p] with free list [l]; [ext] counts references
    from elsewhere. *)
Record group_owns (ms : list SingleTypeKVCacheManager) (p : BlockPool) (l : list nat) (ext : nat → Z)
    : Prop := {
  go_pool : pool_inv p l;
  go_ext : ∀ x, 0 ≤ ext x;
  go_ref : ∀ x, (0 < x < pool_size p)%nat → ref_cnt (pool_heap p (BId x)) = refs_of x ms + ext x;
  go_tables : ∀ m, m ∈ ms → tables_ok p m;
}.

Lemma refs_of_nonneg x ms : 0 ≤ refs_of x ms.
Proof. induction ms as [|m ms IH]; simpl; [done|]. pose proof (tcount_nonneg x (req_to_blocks m)). lia. Qed.

Lemma tables_ok_config p p' m : same_config p p' → tables_ok p m → tables_ok p' m.
Proof. intros Hc H id bs Hid. eapply table_ok_config; [done|]. by eapply H. Qed.

(** The first manager, seeing the others as external. *)
Lemma group_owns_head m ms p l ext :
  group_owns (m :: ms) p l ext → mgr_owns m p l (λ x, refs_of x ms + ext x).
Proof.
  intros [Hp He Hr Ht]. split.
  - done.
  - intros x. pose proof (refs_of_nonneg x ms). specialize (He x). lia.
  - intros x Hx. rewrite (Hr x Hx). simpl. lia.
  - apply Ht. set_solver.
Qed.

(** The others, after the first manager moved to [m']. *)
Lemma group_owns_rest m m' ms p p' l l' ext :
  group_owns (m :: ms) p l ext → same_config p p' → mgr_owns m' p' l' (λ x, refs_of x ms + ext x) →
  group_owns ms p' l' (λ x, tcount x (req_to_blocks m') + ext x).
Proof.
  intros [Hp He Hr Ht] Hc [Hp' He' Hr' Ht']. split.
  - done.
  - intros x. pose proof (tcount_nonneg x (req_to_blocks m')). specialize (He x). lia.
  - intros x Hx. rewrite (Hr' x Hx). lia.
  - intros m0 Hm0. eapply tables_ok_config; [done|]. apply Ht. set_solver.
Qed.

Lemma group_owns_cons m ms p p' l ext :
  tables_ok p m → same_config p p' → group_owns ms p' l (λ x, tcount x (req_to_blocks m) + ext x) →
  (∀ x, 0 ≤ ext x) → group_owns (m :: ms) p' l ext.
Proof.
  intros Hm Hc [Hp He Hr Ht] Hext. split.
  - done.
  - done.
  - intros x Hx. rewrite (Hr x Hx). simpl. lia.
  - intros m0 [->|Hm0]%elem_of_cons; [by eapply tables_ok_config|by apply Ht].
Qed.

(** ** Loops over the managers *)

Section loop.
Context {A : Type}
  (f : nat → SingleTypeKVCacheManager → BlockPool → result (A * SingleTypeKVCacheManager * BlockPool)).
(** What one call promises: from a free list [l] to [l'], manager [m] to [m']. *)
Context (pre : nat → SingleTypeKVCacheManager → Prop)
        (post : nat → SingleTypeKVCacheManager → A → SingleTypeKVCacheManager → Prop)
        (cost : nat → SingleTypeKVCacheManager → Z).
Context (Q : BlockPool → list nat → Prop).
Context (Hf : ∀ i m p l ext, pre i m → mgr_owns m p l ext → Q p l → cost i m ≤ zlen l →
  ∃ a m' p' l', f i m p = Ok (a, m', p') ∧ same_config p p' ∧ mgr_owns m' p' l' ext ∧ Q p' l' ∧
    post i m a m' ∧ zlen l - cost i m ≤ zlen l').
Context (Hcost : ∀ i m, 0 ≤ cost i m).

Fixpoint costs (i : nat) (ms : list SingleTypeKVCacheManager) : Z :=
  match ms with [] => 0 | m :: ms => cost i m + costs (S i) ms end.

Fixpoint all_pre (i : nat) (ms : list SingleTypeKVCacheManager) : Prop :=
  match ms with [] => True | m :: ms => pre i m ∧ all_pre (S i) ms end.

Fixpoint all_post (i : nat) (ms : list SingleTypeKVCacheManager) (xs : list A)
    (ms' : list SingleTypeKVCacheManager) : Prop :=
  match ms, xs, ms' with
  | [], [], [] => True
  | m :: ms, a :: xs, m' :: ms' => post i m a m' ∧ all_post (S i) ms xs ms'
  | _, _, _ => False
  end.

Lemma costs_nonneg i ms : 0 ≤ costs i ms.
Proof. clear Hf. revert i. induction ms as [|m ms IH]; intros i; simpl; [done|].
  specialize (IH (S i)). specialize (Hcost i m). lia. Qed.

(** If the free list covers all costs, the loop succeeds and takes at most
    their sum. *)
Lemma each_manager_spec i ms p l ext :
  all_pre i ms → group_owns ms p l ext → Q p l → costs i ms ≤ zlen l →
  ∃ xs ms' p' l', each_manager f i ms p = Ok (xs, ms', p') ∧ same_config p p' ∧
    group_owns ms' p' l' ext ∧ Q p' l' ∧ all_post i ms xs ms' ∧ zlen l - costs i ms ≤ zlen l'.
Proof.
  revert i p l ext. induction ms as [|m ms IH]; intros i p l ext Hpre Ho HQ Hc; simpl in *.
  { exists [], [], p, l. split; [done|]. split; [done|]. split; [done|]. split; [done|].
    split; [done|]. lia. }
  destruct Hpre as [Hpre Hpres]. pose proof (costs_nonneg (S i) ms) as Hnn.
  destruct (Hf i m p l _ Hpre (group_owns_head _ _ _ _ _ Ho) HQ) as
    (a & m1 & p1 & l1 & Hrun & Hcfg & Ho1 & HQ1 & Hpost & Hl1); [lia|].
  destruct (IH (S i) p1 l1 _ Hpres (group_owns_rest _ _ _ _ _ _ _ _ Ho Hcfg Ho1) HQ1) as
    (xs & ms2 & p2 & l2 & Hrun2 & Hcfg2 & Ho2 & HQ2 & Hpost2 & Hl2); [lia|].
  rewrite Hrun. cbn [mbind result_bind]. rewrite Hrun2. cbn [mbind result_bind].
  exists (a :: xs), (m1 :: ms2), p2, l2. split; [done|]. split; [by trans p1|]. split; [|split_and!; try done; lia].
  eapply group_owns_cons; [|exact Hcfg2|exact Ho2|apply Ho]. exact (own_tables _ _ _ _ Ho1).
Qed.
End loop.

(** ** One manager *)

(** A manager of the window kinds, with positive sizes. *)
Record window_manager (m : SingleTypeKVCacheManager) : Prop := {
  wm_plain : plain_manager m;
  wm_block_size : 0 < mgr_block_size m;
  wm_skipped : ∀ t, 0 ≤ t → get_num_skipped_tokens m t ≤ t;
}.

(** The attributes no operation on tables changes. *)
Definition same_kind (m m' : SingleTypeKVCacheManager) : Prop :=
  mgr_class m' = mgr_class m ∧ mgr_spec m' = mgr_spec m ∧ mgr_block_size m' = mgr_block_size m ∧
  mgr_enable_caching m' = mgr_enable_caching m ∧ kv_cache_group_id m' = kv_cache_group_id m.

#[export] Instance same_kind_equiv : Equivalence same_kind.
Proof.
  split.
  - by intros m.
  - intros m m' (?&?&?&?&?). by split_and!.
  - intros m1 m2 m3 (?&?&?&?&?) (?&?&?&?&?). split_and!; congruence.
Qed.

Lemma same_kind_skipped m m' t : same_kind m m' → get_num_skipped_tokens m' t = get_num_skipped_tokens m t.
Proof. intros (E1 & E2 & _). unfold get_num_skipped_tokens. by rewrite E1, E2. Qed.

Lemma same_kind_window m m' : same_kind m m' → window_manager m → window_manager m'.
Proof.
  intros Hk [Hp Hb Hs]. split.
  - unfold plain_manager in *. by destruct Hk as (-> & _).
  - by destruct Hk as (_ & _ & -> & _).
  - intros t Ht. rewrite (same_kind_skipped m m') by done. by apply Hs.
Qed.

Lemma extend_blocks_kind m p id n bs m' p' : extend_blocks m p id n = Ok (bs, m', p') → same_kind m m'.
Proof.
  unfold extend_blocks. destruct (get_new_blocks p n) as [[new p1]|]; [|done]. cbn [mbind result_bind].
  intros [= _ <- _]. by destruct (tracks_new_ids _).
Qed.

Lemma plain_not_cross m : plain_manager m → is_cross m = false.
Proof. unfold plain_manager, is_cross. intros H. apply bool_decide_eq_false. by destruct (mgr_class m). Qed.

Lemma plain_predict m p id nt bs total main cap :
  plain_manager m →
  get_num_blocks_to_allocate m p id nt bs total main cap =
    (n ← base_get_num_blocks_to_allocate m p id nt bs total cap; Ok (n, m)).
Proof. unfold plain_manager, get_num_blocks_to_allocate. by destruct (mgr_class m). Qed.

Lemma plain_alloc m p id nt main :
  plain_manager m → allocate_new_blocks m p id nt main = base_allocate_new_blocks m p id nt.
Proof. unfold plain_manager, allocate_new_blocks. by destruct (mgr_class m). Qed.

Lemma plain_add_local m p id bs nl ne :
  plain_manager m → add_local_computed_blocks m p id bs nl ne = base_add_local_computed_blocks m p id bs nl ne.
Proof. unfold plain_manager, add_local_computed_blocks. by destruct (mgr_class m). Qed.

Lemma plain_remove m p id t :
  plain_manager m → remove_skipped_blocks m p id t = base_remove_skipped_blocks m p id t.
Proof. unfold plain_manager, remove_skipped_blocks. by destruct (mgr_class m). Qed.

(** Blocks the table of [id] lacks for [num_tokens] tokens. *)
Definition lacks (id : string) (num_tokens : Z) (m : SingleTypeKVCacheManager) : Z :=
  Z.max (cdiv num_tokens (mgr_block_size m) - zlen (req_blocks m id)) 0.

(** Allocation fills exactly what is lacking. *)
Lemma alloc_step m p l ext id num_tokens num_main :
  plain_manager m → mgr_owns m p l ext → lacks id num_tokens m ≤ zlen l →
  ∃ new m' p' l', allocate_new_blocks m p id num_tokens num_main = Ok (new, m', p') ∧ same_config p p' ∧
    mgr_owns m' p' l' ext ∧ same_kind m m' ∧ req_blocks m' id = req_blocks m id ++ new ∧
    num_cached_block m' = num_cached_block m ∧ zlen new = lacks id num_tokens m ∧
    zlen l' = zlen l - lacks id num_tokens m ∧ lacks id num_tokens m' = 0.
Proof.
  intros Hp Ho Hl. rewrite plain_alloc by done. unfold lacks in *.
  destruct (base_allocate_spec m p l ext id num_tokens Ho) as [Hok _].
  set (n := cdiv num_tokens (mgr_block_size m) - zlen (req_blocks m id)) in *.
  destruct Hok as (m' & p' & Hrun & Hc & Ho' & Et & En); [lia|].
  assert (same_kind m m') as Hk.
  { unfold base_allocate_new_blocks in Hrun. destruct (_ <=? 0); [by simplify_eq|].
    apply extend_blocks_kind in Hrun. etransitivity; [|exact Hrun]. done. }
  assert (req_blocks m' id = req_blocks m id ++ (BId <$> take (Z.to_nat n) l)) as Er.
  { unfold req_blocks at 1. by rewrite Et, lookup_insert_eq. }
  assert (zlen (BId <$> take (Z.to_nat n) l) = Z.max n 0) as Enew.
  { rewrite zlen_fmap. unfold zlen in *. rewrite length_take. lia. }
  exists (BId <$> take (Z.to_nat n) l), m', p', (drop (Z.to_nat n) l). split_and!; try done.
  - unfold zlen in *. rewrite length_drop. lia.
  - rewrite Er, zlen_app, Enew. destruct Hk as (_ & _ & -> & _). lia.
Qed.

(** The table after the prefix hits: skipped blocks are null. *)
Definition hit_table (m : SingleTypeKVCacheManager) (total : Z) (xs : list nat) : list bref :=
  let s := Z.to_nat (get_num_skipped_tokens m total / mgr_block_size m) in
  replicate s (BId 0) ++ (BId <$> drop s xs).

(** The hits that leave the free list [l0] when touched. *)
Definition touched_free (m : SingleTypeKVCacheManager) (total : Z) (l0 xs : list nat) : Z :=
  let s := Z.to_nat (get_num_skipped_tokens m total / mgr_block_size m) in
  zlen (filter (λ y, y ∈ drop s xs) l0).

Lemma filter_sublist_len (P : nat → Prop) `{!∀ x, Decision (P x)} l l0 :
  sublist l l0 → zlen (filter P l) ≤ zlen (filter P l0).
Proof.
  induction 1 as [|x l l0 _ IH|x l l0 _ IH]; [done| |].
  - rewrite !filter_cons. case_decide; rewrite ?zlen_cons; lia.
  - rewrite filter_cons. case_decide; rewrite ?zlen_cons; lia.
Qed.

Lemma filter_sublist (P : nat → Prop) `{!∀ x, Decision (P x)} l : sublist (filter P l) l.
Proof.
  induction l as [|x l IH]; [constructor|]. rewrite filter_cons. case_decide; by constructor.
Qed.

(** Hits that can be added for a request without blocks. *)
Definition good_hits (N : nat) (xs : list nat) : Prop :=
  (∀ x, x ∈ xs → (x < N)%nat) ∧ NoDup (filter (λ x, x ≠ 0%nat) xs).

Lemma hits_step m p l l0 ext id xs num_local num_external :
  plain_manager m → mgr_enable_caching m = true ∨ xs = [] → req_blocks m id = [] →
  mgr_owns m p l ext → sublist l l0 → good_hits (pool_size p) xs →
  let total := num_local + num_external in
  ∃ m' p' l', add_local_computed_blocks m p id (BId <$> xs) num_local num_external = Ok (m', p') ∧
    same_config p p' ∧ mgr_owns m' p' l' ext ∧ sublist l' l0 ∧
    same_kind m m' ∧ req_blocks m' id = hit_table m total xs ∧
    is_Some (num_cached_block m' !! id) ∧ zlen l - touched_free m total l0 xs ≤ zlen l'.
Proof.
  intros Hp Hc He Ho Hsub [Hin Hnd] total. rewrite plain_add_local by done.
  destruct (base_add_local_spec m p l ext id xs num_local num_external Ho Hc He Hin Hnd)
    as (m' & p' & Hrun & Hcfg & Ho' & Em).
  eexists m', p', _. split; [done|]. split; [done|]. split; [done|]. split_and!.
  - etransitivity; [apply filter_sublist|done].
  - by rewrite Em.
  - rewrite Em. apply req_blocks_put.
  - rewrite Em. simpl. by rewrite lookup_insert_eq.
  - fold total. unfold touched_free. set (ys := drop _ xs).
    pose proof (filter_sublist_len (λ y, y ∈ ys) l l0 Hsub).
    pose proof (filter_length_compl (λ y, y ∈ ys) (λ y, y ∉ ys) l ltac:(done)). lia.
Qed.

(** The number of blocks an external allocation takes. *)
Definition external_blocks (id : string) (num_local num_external : Z) (m : SingleTypeKVCacheManager) : Z :=
  let total := num_local + num_external in
  let s := get_num_skipped_tokens m total in
  if decide ((if 0 <? s then Z.min (total - s) num_external else num_external) ≤ 0) then 0
  else cdiv total (mgr_block_size m) - zlen (req_blocks m id).

Lemma external_step m p l ext id num_local num_external num_tokens :
  window_manager m → mgr_owns m p l ext → 0 ≤ num_local + num_external ≤ num_tokens →
  zlen (req_blocks m id) ≤ cdiv (num_local + num_external) (mgr_block_size m) →
  external_blocks id num_local num_external m ≤ zlen l →
  ∃ m' p' l', allocate_external_computed_blocks m p id num_local num_external = Ok (m', p') ∧
    same_config p p' ∧ mgr_owns m' p' l' ext ∧ same_kind m m' ∧
    (∃ new, req_blocks m' id = req_blocks m id ++ new) ∧
    num_cached_block m' = num_cached_block m ∧
    lacks id num_tokens m' = lacks id num_tokens m - external_blocks id num_local num_external m ∧
    zlen l' = zlen l - external_blocks id num_local num_external m.
Proof.
  intros [Hp Hb Hs] Ho Hn Hlen. unfold external_blocks, allocate_external_computed_blocks.
  set (total := num_local + num_external) in *. set (ne := if _ <? _ then _ else _). intros Hcost.
  assert (∀ A (x y : A), match mgr_class m with CrossAttentionManager => x | _ => y end = y) as Ecls.
  { intros. unfold plain_manager in Hp. by destruct (mgr_class m). }
  rewrite Ecls. destruct (Z.leb_spec ne 0) as [Hle|Hgt]; case_decide; try lia.
  - exists m, p, l. split_and!; try done; [|lia|lia]. exists []. by rewrite app_nil_r.
  - rewrite req_blocks_touch. change (mgr_block_size (touch_entry m id)) with (mgr_block_size m).
    set (n := cdiv total (mgr_block_size m) - zlen (req_blocks m id)) in *.
    destruct (extend_blocks_spec (touch_entry m id) p l ext id (Z.to_nat n))
      as (m' & p' & Hrun & Hc & Ho' & Et & En); [by apply mgr_owns_touch|unfold zlen in *; lia|].
    rewrite Z2Nat.id in Hrun by lia. rewrite Hrun. cbn [mbind result_bind].
    rewrite req_blocks_touch in Et. apply extend_blocks_kind in Hrun.
    assert (same_kind m m') as Hk by (etransitivity; [|exact Hrun]; done).
    assert (req_blocks m' id = req_blocks m id ++ (BId <$> take (Z.to_nat n) l)) as Er.
    { unfold req_blocks at 1. by rewrite Et, lookup_insert_eq. }
    eexists m', p', _. split; [done|]. split; [done|]. split; [exact Ho'|]. split_and!; try done.
    + by eexists.
    + unfold lacks. rewrite Er, zlen_app, zlen_fmap. destruct Hk as (_ & _ & -> & _).
      assert (cdiv total (mgr_block_size m) ≤ cdiv num_tokens (mgr_block_size m)) by (apply cdiv_mono; lia).
      unfold zlen in *. rewrite length_take. lia.
    + unfold zlen in *. rewrite length_drop. lia.
Qed.

Lemma after_free_len h l bs : zlen l ≤ zlen (after_free h l bs).
Proof. unfold after_free, zlen. rewrite !length_app. lia. Qed.

Lemma nulled_length n k xs : (k ≤ n ≤ length xs)%nat → zlen (nulled n k xs) = zlen xs.
Proof.
  intros H. unfold nulled, zlen. rewrite !length_app, length_take, length_replicate, length_drop. lia.
Qed.

Lemma remove_step m p l ext id total :
  plain_manager m → mgr_owns m p l ext →
  ∃ m' p' l', remove_skipped_blocks m p id total = Ok (m', p') ∧ same_config p p' ∧
    mgr_owns m' p' l' ext ∧ same_kind m m' ∧ zlen (req_blocks m' id) = zlen (req_blocks m id) ∧
    num_cached_block m' = num_cached_block m ∧ zlen l ≤ zlen l'.
Proof.
  intros Hp Ho. rewrite plain_remove by done.
  pose proof (base_remove_spec m p l ext id total Ho) as H. cbn zeta in H. case_decide.
  - exists m, p, l. by split_and!.
  - destruct H as (xs & k & m' & p' & Exs & Hk & _ & Hrun & Hc & Ho' & Em).
    eexists m', p', _. split; [done|]. split; [done|]. split; [exact Ho'|].
    split_and!; [by rewrite Em| |by rewrite Em|apply after_free_len].
    rewrite Em, req_blocks_put, zlen_fmap, nulled_length by done. by rewrite Exs, zlen_fmap.
Qed.

(** ** The predictor over the groups *)

Lemma group_owns_member m ms p l ext :
  m ∈ ms → group_owns ms p l ext → ∃ ext', mgr_owns m p l ext'.
Proof.
  intros Hm. revert ext. induction ms as [|m0 ms IH]; intros ext Ho; [by apply elem_of_nil in Hm|].
  pose proof (group_owns_head _ _ _ _ _ Ho) as Ho0. apply elem_of_cons in Hm as [->|Hm]; [by eexists|].
  destruct (IH Hm (λ x, tcount x (req_to_blocks m0) + ext x)) as [ext' ?]; [|by eexists].
  by eapply group_owns_rest.
Qed.

(** A loop whose calls only read. *)
Lemma each_manager_pure f (g : nat → SingleTypeKVCacheManager → Z) i ms p :
  (∀ j m, ms !! j = Some m → f (i + j)%nat m p = Ok (g (i + j)%nat m, m, p)) →
  ∃ ns, each_manager f i ms p = Ok (ns, ms, p) ∧ foldr Z.add 0 ns = costs g i ms.
Proof.
  revert i. induction ms as [|m ms IH]; intros i H; [by exists []|]. simpl.
  pose proof (H 0%nat m eq_refl) as H0. rewrite Nat.add_0_r in H0. rewrite H0. cbn [mbind result_bind].
  destruct (IH (S i)) as (ns & -> & Hns).
  { intros j m' Hj. replace (S i + j)%nat with (i + S j)%nat by lia. by apply H. }
  cbn [mbind result_bind]. eexists. split; [done|]. simpl. lia.
Qed.

Lemma costs_ext (g h : nat → SingleTypeKVCacheManager → Z) i ms ms' :
  length ms = length ms' →
  (∀ j m m', ms !! j = Some m → ms' !! j = Some m' → g (i + j)%nat m = h (i + j)%nat m') →
  costs g i ms = costs h i ms'.
Proof.
  revert i ms'. induction ms as [|m ms IH]; intros i [|m' ms'] Hl H; try done. simpl. f_equal.
  - specialize (H 0%nat m m' eq_refl eq_refl). by rewrite Nat.add_0_r in H.
  - apply IH; [by injection Hl|]. intros j ?? Hj Hj'.
    replace (S i + j)%nat with (i + S j)%nat by lia. by apply H.
Qed.

Lemma costs_add (g h : nat → SingleTypeKVCacheManager → Z) i ms :
  costs (λ i m, g i m + h i m) i ms = costs g i ms + costs h i ms.
Proof. revert i. induction ms as [|m ms IH]; intros i; simpl; [done|]. rewrite IH. lia. Qed.

Lemma costs_zero i ms : costs (λ _ _, 0) i ms = 0.
Proof. revert i. induction ms as [|m ms IH]; intros i; simpl; [done|]. by rewrite IH. Qed.

Lemma all_pre_lookup pre i ms :
  (∀ j m, ms !! j = Some m → pre (i + j)%nat m) → all_pre pre i ms.
Proof.
  revert i. induction ms as [|m ms IH]; intros i H; simpl; [done|]. split.
  - specialize (H 0%nat m eq_refl). by rewrite Nat.add_0_r in H.
  - apply IH. intros j m' Hj. replace (S i + j)%nat with (i + S j)%nat by lia. by apply H.
Qed.

Lemma all_post_lookup {A} (post : nat → SingleTypeKVCacheManager → A → SingleTypeKVCacheManager → Prop) i ms xs ms' :
  all_post post i ms xs ms' →
  length ms' = length ms ∧
  ∀ j m', ms' !! j = Some m' → ∃ m a, ms !! j = Some m ∧ xs !! j = Some a ∧ post (i + j)%nat m a m'.
Proof.
  revert i xs ms'. induction ms as [|m ms IH]; intros i [|a xs] [|m' ms'] H; try done.
  destruct H as [H1 H2]. destruct (IH _ _ _ H2) as [Hl Hj]. split; [simpl; lia|].
  intros [|j] m1 Hm1; simplify_eq/=.
  - exists m, a. by rewrite Nat.add_0_r.
  - destruct (Hj j m1 Hm1) as (m0 & a0 & ? & ? & ?). exists m0, a0. split_and!; try done.
    by replace (i + S j)%nat with (S i + j)%nat by lia.
Qed.

(** For a request that gets no hits in this call, the prediction is what the
    tables lack. *)
Lemma predict_no_hits m p id num_tokens total num_main :
  plain_manager m →
  (is_Some (num_cached_block m !! id) ∨
   get_num_skipped_tokens m total / mgr_block_size m ≤ zlen (req_blocks m id)) →
  get_num_blocks_to_allocate m p id num_tokens [] total num_main false = Ok (lacks id num_tokens m, m).
Proof.
  intros Hp Hc. rewrite plain_predict by done. unfold base_get_num_blocks_to_allocate, lacks.
  destruct (num_cached_block m !! id) as [k|] eqn:E; [done|].
  destruct Hc as [[? [=]]|Hs]. cbn [mbind result_bind]. rewrite zlen_nil, Z.add_0_l, drop_nil.
  change (_get_num_evictable_blocks p []) with 0. rewrite Z.add_0_r.
  by rewrite (Z.max_r (get_num_skipped_tokens m total / mgr_block_size m)) by done.
Qed.

(** For a request without blocks, it is what the tables will lack after the
    hits, and the hits that are free now. *)
Lemma predict_hits m p l ext id xs num_tokens total num_main :
  plain_manager m → mgr_owns m p l ext → num_cached_block m !! id = None → req_blocks m id = [] →
  good_hits (pool_size p) xs →
  get_num_blocks_to_allocate m p id num_tokens (BId <$> xs) total num_main false =
    Ok (Z.max (cdiv num_tokens (mgr_block_size m) - zlen (hit_table m total xs)) 0 +
        touched_free m total l xs, m).
Proof.
  intros Hp Ho Hc He [Hin Hnd]. rewrite plain_predict by done.
  pose proof (base_predict_spec m p l ext id xs num_tokens total Ho Hc He Hin Hnd) as H.
  cbn zeta in H. rewrite H. cbn [mbind result_bind]. do 2 f_equal. f_equal.
  - unfold hit_table. set (s := get_num_skipped_tokens m total / mgr_block_size m).
    rewrite zlen_app, zlen_fmap. unfold zlen. rewrite length_replicate, length_drop.
    destruct (decide (0 ≤ s)); lia.
  - unfold touched_free. set (ys := drop _ xs).
    pose proof (filter_length_compl (λ y, y ∈ ys) (λ y, y ∉ ys) l ltac:(done)). lia.
Qed.

(** ** The coordinator's operations *)

Definition coord_owns (c : KVCacheCoordinator) (l : list nat) : Prop :=
  group_owns (single_type_managers c) (block_pool c) l (λ _, 0).

(** All managers are of the window kinds. *)
Definition coord_ready (c : KVCacheCoordinator) : Prop :=
  ∀ m, m ∈ single_type_managers c → window_manager m.

(** The blocks all groups lack together. *)
Definition total_lack (id : string) (num_tokens : Z) (ms : list SingleTypeKVCacheManager) : Z :=
  costs (λ _ m, lacks id num_tokens m) 0 ms.

Lemma lacks_nonneg id n m : 0 ≤ lacks id n m.
Proof. unfold lacks. lia. Qed.

Lemma set_state_id c : set_state (single_type_managers c) (block_pool c) c = c.
Proof. by destruct c. Qed.

Lemma all_post_Forall2 {A} (post : nat → SingleTypeKVCacheManager → A → SingleTypeKVCacheManager → Prop)
    (R : SingleTypeKVCacheManager → SingleTypeKVCacheManager → Prop) i ms xs ms' :
  (∀ i m a m', post i m a m' → R m m') → all_post post i ms xs ms' → Forall2 R ms ms'.
Proof.
  intros HR. revert i xs ms'. induction ms as [|m ms IH]; intros i [|a xs] [|m' ms'] H; try done.
  destruct H as [H1 H2]. constructor; [by eapply HR|by eapply IH].
Qed.

Lemma coord_predict c id num_tokens bss enc total main cap (g : nat → SingleTypeKVCacheManager → Z) :
  coord_ready c →
  (∀ j m, single_type_managers c !! j = Some m → ∃ bs, bss !! j = Some bs ∧
     get_num_blocks_to_allocate m (block_pool c) id num_tokens bs total main cap = Ok (g j m, m)) →
  coord_get_num_blocks_to_allocate c id num_tokens bss enc total main cap =
    Ok (costs g 0 (single_type_managers c), c).
Proof.
  intros Hr H. unfold coord_get_num_blocks_to_allocate, run_managers.
  edestruct (each_manager_pure (λ i m p,
     '(n, m) ← (if is_cross m then get_num_blocks_to_allocate m p id enc [] 0 enc cap
                else bs ← py_index bss (Z.of_nat i);
                     get_num_blocks_to_allocate m p id num_tokens bs total main cap);
     Ok (n, m, p)) g 0 (single_type_managers c) (block_pool c)) as (ns & Hns & Hsum).
  - intros j m Hj. destruct (H j m Hj) as (bs & Hbs & Hrun). apply list_elem_of_lookup_2 in Hj.
    rewrite plain_not_cross by apply (wm_plain _ (Hr m Hj)). simpl.
    unfold py_index. rewrite Nat2Z.id, Hbs. cbn [mbind result_bind]. by rewrite Hrun.
  - rewrite Hns. cbn [mbind result_bind]. by rewrite Hsum, set_state_id.
Qed.

(** What removing skipped blocks leaves as it was. *)
Definition same_progress (id : string) (m m' : SingleTypeKVCacheManager) : Prop :=
  same_kind m m' ∧ zlen (req_blocks m' id) = zlen (req_blocks m id) ∧
  num_cached_block m' = num_cached_block m.

Lemma coord_remove_spec c l id total :
  coord_ready c → coord_owns c l →
  ∃ ms p l', coord_remove_skipped_blocks c id total = Ok (set_state ms p c) ∧
    coord_owns (set_state ms p c) l' ∧ same_config (block_pool c) p ∧ zlen l ≤ zlen l' ∧
    Forall2 (same_progress id) (single_type_managers c) ms.
Proof.
  intros Hr Ho. unfold coord_remove_skipped_blocks, run_managers.
  edestruct (each_manager_spec (quiet (λ m p, remove_skipped_blocks m p id total))
    (λ _ m, plain_manager m) (λ _ m _ m', same_progress id m m') (λ _ _, 0) (λ _ _, True))
    as (xs & ms' & p' & l' & Hrun & Hc & Ho' & _ & Hpost & Hl).
  - intros i m p l0 ext Hp Hm _ _.
    destruct (remove_step m p l0 ext id total Hp Hm) as (m' & p' & l' & Hrun & ? & ? & ? & ? & ? & ?).
    unfold quiet. rewrite Hrun. cbn [mbind result_bind]. eexists _, m', p', l'. split_and!; try done. lia.
  - done.
  - apply all_pre_lookup. intros j m Hj. apply (wm_plain _ (Hr m (list_elem_of_lookup_2 _ _ _ Hj))).
  - exact Ho.
  - done.
  - rewrite costs_zero. apply zlen_nonneg.
  - rewrite Hrun. cbn [mbind result_bind]. exists ms', p', l'. split; [done|]. split; [done|]. split; [done|].
    split; [rewrite costs_zero in Hl; lia|]. eapply all_post_Forall2; [|exact Hpost]. by intros.
Qed.

(** Growing the tables of a request, keeping their old part. *)
Definition grown (id : string) (m m' : SingleTypeKVCacheManager) : Prop :=
  same_kind m m' ∧ req_blocks m id `prefix_of` req_blocks m' id.

Lemma grown_trans id m1 m2 m3 : grown id m1 m2 → grown id m2 m3 → grown id m1 m3.
Proof. intros [??] [??]. split; [by etransitivity|by etransitivity]. Qed.

Lemma coord_alloc_spec c l id num_tokens main enc :
  coord_ready c → coord_owns c l → total_lack id num_tokens (single_type_managers c) ≤ zlen l →
  ∃ news ms p l', coord_allocate_new_blocks c id num_tokens main enc = Ok (news, set_state ms p c) ∧
    coord_owns (set_state ms p c) l' ∧ same_config (block_pool c) p ∧
    zlen l - total_lack id num_tokens (single_type_managers c) ≤ zlen l' ∧
    Forall2 (λ m m', grown id m m' ∧ lacks id num_tokens m' = 0) (single_type_managers c) ms.
Proof.
  intros Hr Ho Hl. unfold coord_allocate_new_blocks, run_managers.
  edestruct (each_manager_spec (λ _ m p, allocate_new_blocks m p id (if is_cross m then enc else num_tokens) main)
    (λ _ m, plain_manager m) (λ _ m _ m', grown id m m' ∧ lacks id num_tokens m' = 0)
    (λ _ m, lacks id num_tokens m) (λ _ _, True))
    as (xs & ms' & p' & l' & Hrun & Hc & Ho' & _ & Hpost & Hl').
  - intros i m p l0 ext Hp Hm _ Hcost.
    destruct (alloc_step m p l0 ext id num_tokens main Hp Hm Hcost)
      as (new & m' & p' & l' & Hrun & ? & ? & ? & Er & ? & ? & ? & ?).
    assert (grown id m m') by (split; [done|rewrite Er; by apply prefix_app_r]).
    rewrite plain_not_cross by done. exists new, m', p', l'.
    do 4 (split; [done|]). split; [by split|]. lia.
  - intros. apply lacks_nonneg.
  - apply all_pre_lookup. intros j m Hj. apply (wm_plain _ (Hr m (list_elem_of_lookup_2 _ _ _ Hj))).
  - exact Ho.
  - done.
  - exact Hl.
  - rewrite Hrun. cbn [mbind result_bind]. exists xs, ms', p', l'. split_and!; try done.
    eapply all_post_Forall2; [|exact Hpost]. by intros.
Qed.

(** A request none of the groups knows. *)
Definition unknown_request (id : string) (m : SingleTypeKVCacheManager) : Prop :=
  num_cached_block m !! id = None ∧ req_blocks m id = [].

(** The prediction for hits [xss]: blocks lacking after the hits, and the hits
    that are free in [l]. *)
Definition need_after (xss : list (list nat)) (total num_tokens : Z) (j : nat) (m : SingleTypeKVCacheManager) : Z :=
  Z.max (cdiv num_tokens (mgr_block_size m) - zlen (hit_table m total (default [] (xss !! j)))) 0.
Definition free_hits (xss : list (list nat)) (total : Z) (l : list nat) (j : nat) (m : SingleTypeKVCacheManager) : Z :=
  touched_free m total l (default [] (xss !! j)).
Definition predicted (xss : list (list nat)) (total num_tokens : Z) (l : list nat) (j : nat)
    (m : SingleTypeKVCacheManager) : Z :=
  need_after xss total num_tokens j m + free_hits xss total l j m.

Lemma touched_free_nonneg m total l xs : 0 ≤ touched_free m total l xs.
Proof. apply zlen_nonneg. Qed.

Definition brefs (xss : list (list nat)) : list (list bref) := (λ xs : list nat, BId <$> xs) <$> xss.

(** Every group has hits that can be added. *)
Definition hits_ok (N : nat) (ms : list SingleTypeKVCacheManager) (xss : list (list nat)) : Prop :=
  length xss = length ms ∧ Forall (good_hits N) xss.

Lemma hits_ok_lookup N ms xss j m :
  hits_ok N ms xss → ms !! j = Some m →
  ∃ xs, xss !! j = Some xs ∧ good_hits N xs ∧ brefs xss !! j = Some (BId <$> xs).
Proof.
  intros [Hl Hg] Hj. destruct (lookup_lt_is_Some_2 xss j) as [xs Hxs].
  { rewrite Hl. by eapply lookup_lt_Some. }
  exists xs. split; [done|]. split; [by eapply Forall_lookup_1|]. unfold brefs. by rewrite list_lookup_fmap, Hxs.
Qed.

Lemma coord_predict_hits c l id num_tokens xss enc total main :
  coord_ready c → coord_owns c l → (∀ m, m ∈ single_type_managers c → unknown_request id m) →
  hits_ok (pool_size (block_pool c)) (single_type_managers c) xss →
  coord_get_num_blocks_to_allocate c id num_tokens (brefs xss) enc total main false =
    Ok (costs (predicted xss total num_tokens l) 0 (single_type_managers c), c).
Proof.
  intros Hr Ho Hu Hx. apply coord_predict; [done|]. intros j m Hj.
  destruct (hits_ok_lookup _ _ _ _ _ Hx Hj) as (xs & Hxs & Hg & Hb). exists (BId <$> xs). split; [done|].
  apply list_elem_of_lookup_2 in Hj. destruct (group_owns_member _ _ _ _ _ Hj Ho) as [ext Hm].
  destruct (Hu m Hj) as [Hn He]. unfold predicted, need_after, free_hits. rewrite Hxs. simpl.
  by eapply predict_hits; [apply Hr| | | |].
Qed.

(** Hits only come with caching on. *)
Definition may_hit (ms : list SingleTypeKVCacheManager) (xss : list (list nat)) : Prop :=
  (∀ m, m ∈ ms → mgr_enable_caching m = true) ∨ Forall (λ xs, xs = []) xss.

Lemma may_hit_lookup ms xss j m xs :
  may_hit ms xss → ms !! j = Some m → xss !! j = Some xs → mgr_enable_caching m = true ∨ xs = [].
Proof.
  intros [H|H] Hm Hx; [left; by eapply H, list_elem_of_lookup_2|right].
  by apply (Forall_lookup_1 _ _ _ _ H Hx).
Qed.

(** Phase 1: all groups touch their hits. *)
Lemma hits_phase c l id xss num_local num_external :
  coord_ready c → may_hit (single_type_managers c) xss →
  coord_owns c l → (∀ m, m ∈ single_type_managers c → unknown_request id m) →
  hits_ok (pool_size (block_pool c)) (single_type_managers c) xss →
  let total := num_local + num_external in
  costs (free_hits xss total l) 0 (single_type_managers c) ≤ zlen l →
  ∃ xs ms p l', each_manager (λ i m p,
      bs ← py_index (brefs xss) (Z.of_nat i);
      '(m, p) ← add_local_computed_blocks m p id bs num_local num_external;
      Ok (tt, m, p)) 0 (single_type_managers c) (block_pool c) = Ok (xs, ms, p) ∧
    group_owns ms p l' (λ _, 0) ∧ same_config (block_pool c) p ∧ length ms = length (single_type_managers c) ∧
    (∀ j m', ms !! j = Some m' → ∃ m, single_type_managers c !! j = Some m ∧ same_kind m m' ∧
       req_blocks m' id = hit_table m total (default [] (xss !! j)) ∧ is_Some (num_cached_block m' !! id)) ∧
    zlen l - costs (free_hits xss total l) 0 (single_type_managers c) ≤ zlen l'.
Proof.
  intros Hr Hc Ho Hu Hx total Hl.
  edestruct (each_manager_spec (λ i m p,
      bs ← py_index (brefs xss) (Z.of_nat i);
      '(m, p) ← add_local_computed_blocks m p id bs num_local num_external;
      Ok (tt, m, p))
    (λ j m, m ∈ single_type_managers c ∧ single_type_managers c !! j = Some m)
    (λ j m _ m', same_kind m m' ∧ req_blocks m' id = hit_table m total (default [] (xss !! j)) ∧
                 is_Some (num_cached_block m' !! id))
    (free_hits xss total l) (λ p l', pool_size p = pool_size (block_pool c) ∧ sublist l' l))
    as (xs & ms' & p' & l' & Hrun & Hcfg & Ho' & _ & Hpost & Hl').
  - intros i m p l1 ext [Hm Hi] Hmo [Hsz Hsub] _.
    destruct (hits_ok_lookup _ _ _ _ _ Hx Hi) as (xs & Hxs & Hg & Hb). rewrite <-Hsz in Hg.
    destruct (hits_step m p l1 l ext id xs num_local num_external) as
      (m' & p' & l' & Hrun & Hcfg & Ho1 & Hsub' & Hk & Er & Hn & Hl1); try done.
    { apply Hr, Hm. } { by eapply may_hit_lookup. } { apply Hu, Hm. }
    unfold py_index. rewrite Nat2Z.id, Hb. cbn [mbind result_bind]. rewrite Hrun. cbn [mbind result_bind].
    unfold free_hits. rewrite Hxs. simpl. eexists _, m', p', l'. split_and!; try done.
    by rewrite <-Hsz, (same_config_size p p').
  - intros i m. apply touched_free_nonneg.
  - apply (all_pre_lookup _ 0). intros j m Hj. split; [by eapply list_elem_of_lookup_2|exact Hj].
  - exact Ho.
  - done.
  - exact Hl.
  - apply all_post_lookup in Hpost as [Hlen Hpost]. exists xs, ms', p', l'.
    split; [done|]. split; [done|]. split; [done|]. split; [done|]. split; [|done].
    intros j m' Hj. destruct (Hpost j m' Hj) as (m & _ & ? & _ & ?). by exists m.
Qed.

(** Phase 2: all groups allocate blocks for the external tokens. *)
Lemma external_phase ms p l id num_local num_external num_tokens :
  (∀ m, m ∈ ms → window_manager m) → group_owns ms p l (λ _, 0) →
  0 ≤ num_local + num_external ≤ num_tokens →
  (∀ m, m ∈ ms → zlen (req_blocks m id) ≤ cdiv (num_local + num_external) (mgr_block_size m)) →
  total_lack id num_tokens ms ≤ zlen l →
  ∃ xs ms' p' l', each_manager (quiet (λ m p, allocate_external_computed_blocks m p id num_local num_external))
      0 ms p = Ok (xs, ms', p') ∧
    group_owns ms' p' l' (λ _, 0) ∧ same_config p p' ∧ Forall2 (grown id) ms ms' ∧
    zlen l - total_lack id num_tokens ms ≤ zlen l' - total_lack id num_tokens ms'.
Proof.
  intros Hw Ho Hn Hlen Hl.
  set (cost (_ : nat) m := Z.max 0 (external_blocks id num_local num_external m)).
  assert (∀ m, m ∈ ms → 0 ≤ external_blocks id num_local num_external m ≤ lacks id num_tokens m) as Hb.
  { intros m Hm. specialize (Hlen m Hm). unfold external_blocks, lacks. pose proof (wm_block_size _ (Hw m Hm)).
    pose proof (cdiv_mono (num_local + num_external) num_tokens (mgr_block_size m)). case_decide; lia. }
  assert (∀ i ms0, (∀ m, m ∈ ms0 → m ∈ ms) → costs cost i ms0 ≤ costs (λ _ m, lacks id num_tokens m) i ms0) as Hcl.
  { intros i ms0. revert i. induction ms0 as [|m ms0 IH]; intros i Hsub; simpl; [done|].
    specialize (Hb m ltac:(apply Hsub; set_solver)). specialize (IH (S i) ltac:(set_solver)).
    unfold cost at 1. lia. }
  edestruct (each_manager_spec (quiet (λ m p, allocate_external_computed_blocks m p id num_local num_external))
    (λ _ m, m ∈ ms) (λ i m _ m', grown id m m' ∧ lacks id num_tokens m' = lacks id num_tokens m - cost i m)
    cost (λ _ _, True))
    as (xs & ms' & p' & l' & Hrun & Hcfg & Ho' & _ & Hpost & Hl').
  - intros i m p0 l0 ext Hm Hmo _ Hcost. specialize (Hb m Hm). unfold cost in *.
    destruct (external_step m p0 l0 ext id num_local num_external num_tokens)
      as (m' & p1 & l1 & Hrun & ? & ? & ? & (new & Er) & ? & ? & ?); try done; [by apply Hw|by apply Hlen|lia|].
    unfold quiet. rewrite Hrun. cbn [mbind result_bind].
    assert (grown id m m') by (split; [done|rewrite Er; by apply prefix_app_r]).
    eexists _, m', p1, l1. do 4 (split; [done|]). split; [split; [done|lia]|]. lia.
  - intros. unfold cost. lia.
  - apply (all_pre_lookup _ 0). intros j m Hj. by eapply list_elem_of_lookup_2.
  - exact Ho.
  - done.
  - etransitivity; [by apply Hcl|done].
  - exists xs, ms', p', l'. split; [done|]. split; [done|]. split; [done|]. split.
    + eapply all_post_Forall2; [|exact Hpost]. by intros ???? [? _].
    + assert (total_lack id num_tokens ms' = total_lack id num_tokens ms - costs cost 0 ms) as ->; [|lia].
      unfold total_lack. clear -Hpost. revert Hpost. generalize 0%nat. revert xs ms'.
      induction ms as [|m ms IH]; intros [|a xs] [|m' ms'] i H; try done. destruct H as [[_ H1] H2].
      simpl. rewrite (IH _ _ _ H2), H1. lia.
Qed.

Lemma hit_table_len m total xs :
  zlen (hit_table m total xs) = Z.max (Z.max 0 (get_num_skipped_tokens m total / mgr_block_size m)) (zlen xs).
Proof.
  unfold hit_table. rewrite zlen_app, zlen_fmap. unfold zlen. rewrite length_replicate, length_drop. lia.
Qed.

(** The hits cover at most the local tokens. *)
Definition hits_within (ms : list SingleTypeKVCacheManager) (xss : list (list nat)) (num_local : Z) : Prop :=
  ∀ j m xs, ms !! j = Some m → xss !! j = Some xs → zlen xs * mgr_block_size m ≤ num_local.

(** Both phases: the prediction covers what they take and what is lacking then. *)
Lemma coord_hits_spec c l id xss num_local num_external num_tokens :
  coord_ready c → may_hit (single_type_managers c) xss →
  coord_owns c l → (∀ m, m ∈ single_type_managers c → unknown_request id m) →
  hits_ok (pool_size (block_pool c)) (single_type_managers c) xss →
  0 ≤ num_local → 0 ≤ num_external → hits_within (single_type_managers c) xss num_local →
  (0 < num_external → num_local + num_external ≤ num_tokens) →
  let total := num_local + num_external in
  costs (predicted xss total num_tokens l) 0 (single_type_managers c) ≤ zlen l →
  ∃ ms p l', coord_allocate_new_computed_blocks c id (brefs xss) num_local num_external =
      Ok (set_state ms p c) ∧
    coord_owns (set_state ms p c) l' ∧ same_config (block_pool c) p ∧ length ms = length (single_type_managers c) ∧
    (∀ j m', ms !! j = Some m' → ∃ m, single_type_managers c !! j = Some m ∧ same_kind m m' ∧
       hit_table m total (default [] (xss !! j)) `prefix_of` req_blocks m' id) ∧
    zlen l - costs (predicted xss total num_tokens l) 0 (single_type_managers c) ≤
      zlen l' - total_lack id num_tokens ms.
Proof.
  intros Hr Hcache Ho Hu Hx Hnl Hne Hin Hnt total Hl. unfold coord_allocate_new_computed_blocks.
  assert (existsb (λ m, bool_decide (is_Some (num_cached_block m !! id))) (single_type_managers c) = false) as ->.
  { apply not_true_iff_false. intros (m & Hm & Hs)%existsb_exists. apply list_elem_of_In in Hm.
    apply bool_decide_eq_true in Hs. destruct (Hu m Hm) as [Hn _]. rewrite Hn in Hs. by destruct Hs. }
  assert (costs (predicted xss total num_tokens l) 0 (single_type_managers c) =
    costs (need_after xss total num_tokens) 0 (single_type_managers c) +
    costs (free_hits xss total l) 0 (single_type_managers c)) as Esum by apply costs_add.
  assert (0 ≤ costs (need_after xss total num_tokens) 0 (single_type_managers c)) as Hna.
  { apply costs_nonneg. intros. unfold need_after. lia. }
  destruct (hits_phase c l id xss num_local num_external Hr Hcache Ho Hu Hx) as
    (xs & ms1 & p1 & l1 & Hrun1 & Ho1 & Hc1 & Hlen1 & Hm1 & Hl1); [fold total; lia|]. fold total in Hm1, Hl1.
  unfold run_managers. rewrite Hrun1. cbn [mbind result_bind].
  assert (total_lack id num_tokens ms1 = costs (need_after xss total num_tokens) 0 (single_type_managers c)) as Elack.
  { apply costs_ext; [done|]. intros j m m0 Hj Hj0. destruct (Hm1 j m Hj) as (m0' & Hj0' & Hk & Er & _).
    simplify_eq. unfold lacks, need_after. destruct Hk as (_ & _ & -> & _). by rewrite Er. }
  destruct (Z.ltb_spec 0 num_external) as [Hpos|Hle].
  - cbn [single_type_managers block_pool set_state].
    edestruct (external_phase ms1 p1 l1 id num_local num_external num_tokens) as
      (xs2 & ms2 & p2 & l2 & Hrun2 & Ho2 & Hc2 & Hg & Hl2); [|exact Ho1|lia| |lia|].
    + intros m' (j & Hj)%list_elem_of_lookup. destruct (Hm1 j m' Hj) as (m & Hm & Hk & _).
      eapply same_kind_window; [done|]. apply Hr. by eapply list_elem_of_lookup_2.
    + intros m' (j & Hj)%list_elem_of_lookup. destruct (Hm1 j m' Hj) as (m & Hm & Hk & Er & _).
      destruct (hits_ok_lookup _ _ _ _ _ Hx Hm) as (ys & Hys & _). rewrite Er, Hys, hit_table_len. simpl.
      destruct Hk as (_ & _ & -> & _). pose proof (Hr m (list_elem_of_lookup_2 _ _ _ Hm)) as [_ Hb Hs].
      specialize (Hs total ltac:(lia)). specialize (Hin j m ys Hm Hys). fold total.
      pose proof (div_le_cdiv total (mgr_block_size m) Hb).
      pose proof (Z.div_le_mono _ _ (mgr_block_size m) Hb Hs).
      pose proof (cdiv_bounds total (mgr_block_size m) Hb). pose proof (cdiv_nonneg total (mgr_block_size m) Hb).
      assert (zlen ys ≤ cdiv total (mgr_block_size m)) by nia. lia.
    + rewrite Hrun2. cbn [mbind result_bind]. exists ms2, p2, l2. split; [by destruct c|].
      split; [done|]. split; [by trans p1|].
      pose proof (Forall2_length _ _ _ Hg) as Hlen2. split; [lia|]. split; [|lia].
      intros j m2 Hj. destruct (Forall2_lookup_r _ _ _ _ _ Hg Hj) as (m1 & Hj1 & Hk1 & Hpre).
      destruct (Hm1 j m1 Hj1) as (m & Hm & Hk & Er & _). exists m. split; [done|].
      split; [by etransitivity|]. by rewrite <-Er.
  - exists ms1, p1, l1. split; [done|]. split; [done|]. split; [done|]. split; [done|]. split; [|lia].
    intros j m' Hj. destruct (Hm1 j m' Hj) as (m & ? & ? & -> & _). by exists m.
Qed.
