(* ===== verification/HybridHit.v ===== *)
(** * The hybrid prefix lookup

    [HybridKVCacheCoordinator.find_longest_cache_hit] looks for one hit length
    that every attention type accepts.  Its proof only uses what the lookups of
    the single types promise, stated as the class [HitLookup]. *)

From S2P Require Import Prelude MathUtils KVBlock FreeQueue BlockMap BlockHashList BlockPool PrefixCache KVSpecs CacheHit SingleType Coordinator.

#[local] Open Scope Z_scope.

(** ** What a lookup promises *)

(** The first block of a table of [n] hits that must be a real hit: the part
    before it is out of reach for the next token. *)
Definition reach (spec : KVCacheSpec) (n : nat) : nat :=
  match spec with
  | SlidingWindowSpec _ w _ | SlidingWindowMLASpec _ w _ => n - Z.to_nat (cdiv (w - 1) (block_size spec))
  | MambaSpec _ => n - 1
  | _ => 0
  end%nat.

(** The lookup for a spec returns an aligned table within the length allowed,
    one block shorter when the lookahead block is to be dropped, whose reachable
    blocks are hits.  [may_drop] says whether the type supports the drop. *)
Class HitLookup (cls : manager_class) (spec : KVCacheSpec) (may_drop : bool) : Prop := hit_lookup :
  ∀ p l gids hashes max_length drop al,
    pool_inv p l → Forall valid_group gids → gids ≠ [] → 0 < al → 0 ≤ max_length →
    (drop = true → may_drop = true) →
    (∀ k, (k < Z.to_nat (max_length / block_size spec))%nat → is_Some (hash_of hashes k)) →
    ∃ cs n, find_longest_cache_hit cls p hashes max_length gids spec drop al 1 1 = Ok cs ∧
      table_of gids n cs ∧ (Z.of_nat n * block_size spec) mod al = 0 ∧
      Z.of_nat n * block_size spec ≤ (if drop then Z.max 0 (max_length - block_size spec) else max_length) ∧
      rows_hit p gids (hash_of hashes) (reach spec n) n cs.

Lemma full_lookup spec :
  is_full_attention_spec spec = true → 0 < block_size spec → HitLookup FullAttentionManager spec true.
Proof.
  intros Hs Hb p l gids hashes max_length drop al Hp Hg Hne Hal Hmax _ Hall.
  destruct (full_hit_spec p l gids hashes max_length spec drop al 1 1 Hp Hg Hne Hs Hb ltac:(lia) Hal Hmax)
    as (cs & Hrun & Ht & Hr & Hn & Ha & _).
  rewrite !Z.mul_1_r in *. set (n := align_len _ _ _) in *. exists cs, n. split; [done|]. split; [done|].
  split; [done|]. split; [done|].
  assert (reach spec n = 0%nat) as -> by (by destruct spec). intros j c i Hc Hi.
  destruct (Hr j c i Hc Hi) as (b & h & Hb' & Hh & Hit). exists b, h. split; [done|]. split; [|done].
  apply lookup_take_Some in Hh as [Hh _]. unfold bhl_list in Hh.
  apply bhl_from_lookup in Hh as [_ Hh]; [|lia]. rewrite Z.add_0_l in Hh. unfold hash_of. by rewrite Hh.
Qed.

Lemma window_lookup spec w :
  get_kv_cache_spec_sliding_window spec = Some w → 0 < w → 0 < block_size spec →
  HitLookup SlidingWindowManager spec true.
Proof.
  intros Hs Hw Hb p l gids hashes max_length drop al Hp Hg Hne Hal Hmax _ Hall.
  destruct (sw_find_spec p l gids Hp Hg Hne hashes max_length spec w drop al Hs Hw Hb Hal Hmax Hall)
    as (cs & n & Hrun & Ht & Ha & Hn & Hr).
  exists cs, n. do 4 (split; [done|]). destruct spec; simplify_eq/=; exact Hr.
Qed.

(** Mamba has no lookahead drop: the flag is ignored. *)
Lemma mamba_lookup m : 0 < mamba_block_size m → HitLookup MambaManager (MambaSpec m) false.
Proof.
  intros Hb p l gids hashes max_length drop al Hp Hg Hne Hal Hmax Hd Hall.
  destruct drop; [by specialize (Hd eq_refl)|].
  exact (mamba_find_spec p l gids hashes max_length m false al Hp Hg Hne Hb Hal Hmax Hall).
Qed.

(** ** The groups of a coordinator *)

(** The attention types the coordinator may combine. *)
Definition lookup_kind (g : SpecGroup) : Prop :=
  match sg_spec g with
  | FullAttentionSpec _ _ | TQFullAttentionSpec _ _ _ | MLAAttentionSpec _ _ _ | HiddenStateCacheSpec _ _ _ =>
      sg_manager_cls g = FullAttentionManager
  | SlidingWindowSpec _ w _ | SlidingWindowMLASpec _ w _ => sg_manager_cls g = SlidingWindowManager ∧ 0 < w
  | MambaSpec _ => sg_manager_cls g = MambaManager ∧ sg_use_eagle g = false
  | _ => False
  end.

Lemma lookup_kind_instance g :
  lookup_kind g → 0 < block_size (sg_spec g) →
  ∃ d, HitLookup (sg_manager_cls g) (sg_spec g) d ∧ (sg_use_eagle g = true → d = true).
Proof.
  unfold lookup_kind. destruct (sg_spec g) eqn:E; intros H Hb; try done;
    [exists true; split; [rewrite H; by apply full_lookup|done]..| | |].
  - destruct H as [-> Hw]. exists true. split; [by eapply window_lookup|done].
  - destruct H as [-> Hw]. exists true. split; [by eapply window_lookup|done].
  - destruct H as [-> He]. exists false. split; [by apply mamba_lookup|congruence].
Qed.

(** The groups partition the group numbers [0 .. N); at most the first is full
    attention. *)
Record groups_ok (c : KVCacheCoordinator) (max_len : Z) (hashes : list bytes) : Prop := {
  gk_kind : ∀ g, g ∈ attention_groups c → lookup_kind g;
  gk_ids : ∀ g, g ∈ attention_groups c → sg_group_ids g ≠ [] ∧ Forall valid_group (sg_group_ids g);
  gk_nodup : NoDup (concat (sg_group_ids <$> attention_groups c));
  gk_range : ∀ g gid, g ∈ attention_groups c → gid ∈ sg_group_ids g →
    (Z.to_nat gid < length (kv_cache_groups (coord_config c)))%nat;
  gk_hash : 0 < coord_hash_block_size c;
  gk_sched : 0 < scheduler_block_size c;
  gk_sizes : ∀ g, g ∈ attention_groups c → 0 < block_size (sg_spec g) ∧
    block_size (sg_spec g) mod coord_hash_block_size c = 0 ∧
    scheduler_block_size c mod block_size (sg_spec g) = 0;
  gk_full : ∀ j g, attention_groups c !! j = Some g → is_full_attention_spec (sg_spec g) = true → j = 0%nat;
  gk_len : 0 ≤ max_len ∧ max_len / coord_hash_block_size c ≤ zlen hashes;
}.

(** Hashes at the granularity of a spec. *)
Definition spec_hashes (c : KVCacheCoordinator) (hashes : list bytes) (spec : KVCacheSpec) : BlockHashList :=
  if block_size spec =? coord_hash_block_size c then PlainHashes hashes
  else ScaledHashes hashes (block_size spec / coord_hash_block_size c).

(** A column of [n] blocks for group [gid]: its reachable blocks are the cached
    blocks of the request's hashes in this group. *)
Definition column_ok (c : KVCacheCoordinator) (hashes : list bytes) (spec : KVCacheSpec) (gid : Z)
    (lo n : nat) (blk : list bref) : Prop :=
  length blk = n ∧ ∀ i, (lo ≤ i < n)%nat → ∃ b h, blk !! i = Some b ∧
    hash_of (spec_hashes c hashes spec) i = Some h ∧
    head (map_blocks (cached_block_hash_to_block (block_pool c)) (group_key h gid)) = Some b.

Section hybrid.
Context (c : KVCacheCoordinator) (l : list nat) (hashes : list bytes) (max_len : Z).
Context (Hpool : pool_inv (block_pool c) l) (Hg : groups_ok c max_len hashes).

Local Abbreviation N := (length (kv_cache_groups (coord_config c))).
Local Abbreviation al := (scheduler_block_size c).

Lemma get_block_hashes_spec g :
  g ∈ attention_groups c → _get_block_hashes c hashes (sg_spec g) = Ok (spec_hashes c hashes (sg_spec g)).
Proof.
  intros Hin. destruct (gk_sizes _ _ _ Hg g Hin) as (_ & Hm & _). pose proof (gk_hash _ _ _ Hg).
  unfold _get_block_hashes, spec_hashes, BlockHashListWithBlockSize.
  destruct (_ =? _); [done|]. rewrite (proj2 (Z.eqb_neq _ _)), Hm by lia. done.
Qed.

Lemma spec_hashes_known g n k :
  g ∈ attention_groups c → 0 ≤ n ≤ max_len → (k < Z.to_nat (n / block_size (sg_spec g)))%nat →
  is_Some (hash_of (spec_hashes c hashes (sg_spec g)) k).
Proof.
  intros Hin Hn Hk. destruct (gk_sizes _ _ _ Hg g Hin) as (Hb & _). unfold hash_of, spec_hashes, bhl_get.
  destruct (Z.eqb_spec (block_size (sg_spec g)) (coord_hash_block_size c)) as [E|]; [|by eexists].
  unfold py_index. rewrite Nat2Z.id. destruct (gk_len _ _ _ Hg) as [_ Hl]. rewrite E in *.
  pose proof (Z.div_le_mono n max_len _ Hb ltac:(lia)).
  destruct (lookup_lt_is_Some_2 hashes k) as [h ->]; [unfold zlen in *; lia|by eexists].
Qed.

(** *** Storing the hits of a group *)

Lemma store_hits_other gids cs bl i :
  (∀ gid, gid ∈ gids → Z.to_nat gid ≠ i) → store_hits gids cs bl !! i = bl !! i.
Proof.
  unfold store_hits. revert cs bl. induction gids as [|g gids IH]; intros [|x cs] bl H; try done. simpl.
  rewrite IH by set_solver. rewrite list_lookup_insert_ne; [done|]. apply H. set_solver.
Qed.

Lemma store_hits_length gids cs bl : length (store_hits gids cs bl) = length bl.
Proof.
  unfold store_hits. revert cs bl. induction gids as [|g gids IH]; intros [|x cs] bl; try done. simpl.
  by rewrite IH, length_insert.
Qed.

Lemma store_hits_own gids cs bl j gid blk :
  NoDup gids → Forall valid_group gids → (∀ g, g ∈ gids → (Z.to_nat g < length bl)%nat) →
  gids !! j = Some gid → cs !! j = Some blk → store_hits gids cs bl !! Z.to_nat gid = Some (Some blk).
Proof.
  revert cs bl j. induction gids as [|g gids IH]; intros [|x cs] bl [|j] Hnd Hv Hr Hj Hc; simplify_eq/=.
  - apply NoDup_cons in Hnd as [Hni _]. change (store_hits (gid :: gids) (blk :: cs) bl)
      with (store_hits gids cs (<[Z.to_nat gid := Some blk]> bl)).
    rewrite store_hits_other.
    + apply list_lookup_insert_eq. apply Hr. set_solver.
    + intros g' Hg' E. apply Hni. apply Forall_cons in Hv as [[??] Hv].
      rewrite Forall_forall in Hv. destruct (Hv g' Hg'). by replace gid with g' by lia.
  - change (store_hits (g :: gids) (x :: cs) bl) with (store_hits gids cs (<[Z.to_nat g := Some x]> bl)).
    apply NoDup_cons in Hnd as [_ Hnd]. apply Forall_cons in Hv as [_ Hv].
    eapply IH; try done. intros g' Hg'. rewrite length_insert. apply Hr. set_solver.
Qed.

(** *** One round over the groups *)

(** The stored columns of group [g] have [n] blocks. *)
Definition stored (bl : list (option (list bref))) (g : SpecGroup) (n : nat) : Prop :=
  ∀ gid, gid ∈ sg_group_ids g → ∃ blk, bl !! Z.to_nat gid = Some (Some blk) ∧
    column_ok c hashes (sg_spec g) gid (reach (sg_spec g) n) n blk.

Definition unset (bl : list (option (list bref))) (g : SpecGroup) : Prop :=
  ∀ gid, gid ∈ sg_group_ids g → bl !! Z.to_nat gid = Some None.

Definition size_of (g : SpecGroup) (n : nat) : Z := Z.of_nat n * block_size (sg_spec g).
Definition is_full (g : SpecGroup) : bool := is_full_attention_spec (sg_spec g).

Lemma concat_disjoint {A B} (f : A → list B) L x y b :
  NoDup (concat (f <$> L)) → x ∈ L → y ∈ L → x ≠ y → b ∈ f x → b ∉ f y.
Proof.
  induction L as [|z L IH]; intros Hnd Hx Hy Hxy Hb Hb'; [by apply elem_of_nil in Hx|].
  simpl in Hnd. apply NoDup_app in Hnd as (Hz & Hdis & Hnd).
  assert (∀ w, w ∈ L → b ∈ f w → b ∈ concat (f <$> L)) as Hin.
  { intros w Hw Hbw. apply list_elem_of_In, in_concat. exists (f w).
    split; [|by apply list_elem_of_In]. apply list_elem_of_In, list_elem_of_fmap. by exists w. }
  apply elem_of_cons in Hx as [->|Hx], Hy as [->|Hy]; [done| | |by apply IH].
  - by apply (Hdis b Hb), (Hin y).
  - by apply (Hdis b Hb'), (Hin x).
Qed.

Lemma group_nodup g : g ∈ attention_groups c → NoDup (sg_group_ids g).
Proof.
  pose proof (gk_nodup _ _ _ Hg) as Hnd. clear Hg Hpool. induction (attention_groups c) as [|z L IH].
  - by intros ?%elem_of_nil.
  - simpl in Hnd. apply NoDup_app in Hnd as (Hz & _ & Hnd). intros [->|Hin]%elem_of_cons; [done|by apply IH].
Qed.

(** Storing one group leaves the columns of the others. *)
Lemma store_hits_keep g g' cs bl gid :
  g ∈ attention_groups c → g' ∈ attention_groups c → g ≠ g' → gid ∈ sg_group_ids g' →
  store_hits (sg_group_ids g) cs bl !! Z.to_nat gid = bl !! Z.to_nat gid.
Proof.
  intros Hin Hin' Hne Hgid. apply store_hits_other. intros gid' Hgid' E.
  destruct (gk_ids _ _ _ Hg g Hin) as [_ Hv], (gk_ids _ _ _ Hg g' Hin') as [_ Hv'].
  rewrite Forall_forall in Hv, Hv'. destruct (Hv _ Hgid'), (Hv' _ Hgid).
  assert (gid' = gid) as -> by lia.
  by eapply (concat_disjoint sg_group_ids (attention_groups c) g g' gid); try apply Hg.
Qed.

(** Round invariant: the length only shrinks, and every column seen is at least
    as long. *)
Record round_inv (hl : Z) (seen : list SpecGroup) (s : hit_state) : Prop := {
  ri_curr : 0 ≤ curr_hit_length s ≤ hl;
  ri_len : length (hit_blocks_by_group s) = N;
  ri_seen : ∀ g, g ∈ seen → g ∈ attention_groups c ∧ ∃ n, stored (hit_blocks_by_group s) g n ∧
    curr_hit_length s ≤ size_of g n ∧ (is_full g = false → size_of g n ≤ hl);
  ri_full : ∀ g, g ∈ attention_groups c → is_full g = true →
    unset (hit_blocks_by_group s) g ∨
    ∃ n, stored (hit_blocks_by_group s) g n ∧ curr_hit_length s ≤ size_of g n;
  ri_align : curr_hit_length s mod al = 0 ∨
    (seen = [] ∧ ∀ g, g ∈ attention_groups c → is_full g = true → unset (hit_blocks_by_group s) g);
}.

Lemma aligned_div x g :
  g ∈ attention_groups c → x mod al = 0 → x / block_size (sg_spec g) * block_size (sg_spec g) = x.
Proof.
  intros Hin Hx. destruct (gk_sizes _ _ _ Hg g Hin) as (Hb & _ & Hm). pose proof (gk_sched _ _ _ Hg).
  apply Z.mod_divide in Hx as [q ->]; [|lia]. apply Z.mod_divide in Hm as [q' Hq']; [|lia].
  rewrite Hq', Z.mul_assoc, Z.div_mul by lia. done.
Qed.

(** A lookup for a group, within the current length. *)
Lemma group_lookup g curr drop :
  g ∈ attention_groups c → 0 ≤ curr ≤ max_len → (drop = true → sg_use_eagle g = true) →
  let bs := block_size (sg_spec g) in
  let max_length := if drop then Z.min (curr + bs) max_len else curr in
  ∃ cs n, find_longest_cache_hit (sg_manager_cls g) (block_pool c) (spec_hashes c hashes (sg_spec g))
      max_length (sg_group_ids g) (sg_spec g) drop al 1 1 = Ok cs ∧
    table_of (sg_group_ids g) n cs ∧ size_of g n mod al = 0 ∧ size_of g n ≤ curr ∧
    rows_hit (block_pool c) (sg_group_ids g) (hash_of (spec_hashes c hashes (sg_spec g)))
      (reach (sg_spec g) n) n cs.
Proof.
  intros Hin Hc Hd bs max_length. destruct (gk_sizes _ _ _ Hg g Hin) as (Hb & _). fold bs in Hb.
  destruct (gk_ids _ _ _ Hg g Hin) as [Hne Hv].
  destruct (lookup_kind_instance g (gk_kind _ _ _ Hg g Hin) Hb) as (d & Hl & Hdrop).
  assert (0 ≤ max_length ≤ max_len) as Hm by (unfold max_length; destruct drop; lia).
  destruct (hit_lookup (block_pool c) l (sg_group_ids g) (spec_hashes c hashes (sg_spec g)) max_length drop al
    Hpool Hv Hne (gk_sched _ _ _ Hg) (proj1 Hm)) as (cs & n & Hrun & Ht & Ha & Hn & Hr).
  { intros E. by apply Hdrop, Hd. } { intros k Hk. by apply (spec_hashes_known g max_length). }
  exists cs, n. do 3 (split; [done|]). split; [|done]. unfold size_of. fold bs in Hn |- *.
  unfold max_length in *. destruct drop; lia.
Qed.

Lemma stored_hits g cs n bl :
  g ∈ attention_groups c → length bl = N → table_of (sg_group_ids g) n cs →
  rows_hit (block_pool c) (sg_group_ids g) (hash_of (spec_hashes c hashes (sg_spec g)))
    (reach (sg_spec g) n) n cs →
  stored (store_hits (sg_group_ids g) cs bl) g n.
Proof.
  intros Hin Hlen [Hl Hcols] Hr gid Hgid. apply list_elem_of_lookup in Hgid as [j Hj].
  destruct (lookup_lt_is_Some_2 cs j) as [blk Hblk]; [rewrite Hl; by eapply lookup_lt_Some|].
  exists blk. split.
  - eapply store_hits_own; [by apply group_nodup|by apply (gk_ids _ _ _ Hg)| |done|done].
    intros g' Hg'. rewrite Hlen. by eapply (gk_range _ _ _ Hg).
  - split; [apply Hcols; by eapply list_elem_of_lookup_2|]. intros i Hi.
    destruct (Hr j blk i Hblk Hi) as (b & h & Hb & Hh & (g' & Hg' & Hhd)). simplify_eq. by exists b, h.
Qed.

Lemma group_step idx g hl seen s :
  g ∈ attention_groups c → hl ≤ max_len → round_inv hl seen s →
  ∃ s', hybrid_group_step c hashes max_len s (idx, g) = Ok s' ∧ round_inv hl (seen ++ [g]) s' ∧
    (is_full g = false → ∃ n, stored (hit_blocks_by_group s') g n ∧ size_of g n = curr_hit_length s').
Proof.
  intros Hin Hhl [Hc Hlen Hseen Hfull Halign]. unfold hybrid_group_step.
  destruct (gk_ids _ _ _ Hg g Hin) as [Hne Hv]. destruct (sg_group_ids g) as [|g0 rest] eqn:Eids; [done|].
  rewrite <-Eids. assert (py_index (sg_group_ids g) 0 = Ok g0) as -> by (by rewrite Eids).
  cbn [mbind result_bind]. assert (g0 ∈ sg_group_ids g) as Hg0 by (rewrite Eids; set_solver).
  destruct (lookup_lt_is_Some_2 (hit_blocks_by_group s) (Z.to_nat g0)) as [cached Hcached].
  { rewrite Hlen. by eapply (gk_range _ _ _ Hg). }
  assert (py_index (hit_blocks_by_group s) g0 = Ok cached) as -> by (unfold py_index; by rewrite Hcached).
  cbn [mbind result_bind].
  destruct (is_full_attention_spec (sg_spec g) && bool_decide (is_Some cached)) eqn:Eskip.
  - apply andb_prop in Eskip as [Ef Es%bool_decide_eq_true]. fold (is_full g) in Ef.
    assert (¬ unset (hit_blocks_by_group s) g) as Hnu.
    { intros Hu. rewrite (Hu g0 Hg0) in Hcached. injection Hcached as <-. by destruct Es. }
    destruct Halign as [Ha|[_ Hu]]; [|by destruct (Hnu (Hu g Hin Ef))].
    rewrite (aligned_div _ g Hin Ha). exists s. split; [by destruct s|]. split; [|congruence].
    destruct (Hfull g Hin Ef) as [?|(n & Hst & Hn)]; [done|]. split; try done; [|by left].
    intros g' [Hg'| ->%list_elem_of_singleton]%elem_of_app; [by apply Hseen|]. split; [done|]. exists n. by rewrite Ef.
  - rewrite get_block_hashes_spec by done. cbn [mbind result_bind].
    set (drop := sg_use_eagle g && negb (bool_decide (idx ∈ eagle_verified s))).
    destruct (group_lookup g (curr_hit_length s) drop Hin) as (cs & n & -> & Ht & Ha & Hn & Hr); [lia| |].
    { unfold drop. intros [? _]%andb_prop. done. }
    cbn [mbind result_bind]. rewrite (first_len_table _ (proj1 (gk_ids _ _ _ Hg g Hin)) n) by done.
    cbn [mbind result_bind]. eexists. split; [done|].
    pose proof (stored_hits g cs n (hit_blocks_by_group s) Hin Hlen Ht Hr) as Hst.
    assert (0 ≤ size_of g n) as Hnn.
    { unfold size_of. destruct (gk_sizes _ _ _ Hg g Hin). nia. }
    assert (∀ g' m, g' ∈ attention_groups c → stored (hit_blocks_by_group s) g' m → g' ≠ g →
      stored (store_hits (sg_group_ids g) cs (hit_blocks_by_group s)) g' m) as Hkeep.
    { intros g' m Hin' Hst' Hne' gid Hgid. rewrite (store_hits_keep g g') by done. by apply Hst'. }
    split; [|intros _; by exists n]. fold (size_of g n). split; cbn [curr_hit_length hit_blocks_by_group].
    + fold (size_of g n). lia.
    + by rewrite store_hits_length.
    + intros g' Hg'. fold (size_of g n).
      destruct (decide (g' = g)) as [->|Hne']; [split; [done|]; exists n; split; [done|lia]|].
      apply elem_of_app in Hg' as [Hg'|?%list_elem_of_singleton]; [|done].
      destruct (Hseen g' Hg') as (Hin' & m & Hst' & Hm & Hm'). split; [done|].
      exists m. split; [by apply Hkeep|]. split; [lia|done].
    + intros g' Hin' Hf'. fold (size_of g n). destruct (decide (g' = g)) as [->|Hne']; [right; by exists n|].
      destruct (Hfull g' Hin' Hf') as [Hu|(m & Hst' & Hm)].
      * left. intros gid Hgid. rewrite (store_hits_keep g g') by done. by apply Hu.
      * right. exists m. split; [by apply Hkeep|lia].
    + left. done.
Qed.

Lemma round_spec hl (igs : list (nat * SpecGroup)) seen s :
  (∀ ig, ig ∈ igs → ig.2 ∈ attention_groups c) → hl ≤ max_len → round_inv hl seen s →
  ∃ s', mfold (hybrid_group_step c hashes max_len) s igs = Ok s' ∧ round_inv hl (seen ++ igs.*2) s' ∧
    (∀ g, last igs.*2 = Some g → is_full g = false →
       ∃ n, stored (hit_blocks_by_group s') g n ∧ size_of g n = curr_hit_length s').
Proof.
  revert seen s. induction igs as [|[idx g] igs IH]; intros seen s Hin Hhl Hinv.
  { exists s. simpl. rewrite app_nil_r. done. }
  destruct (group_step idx g hl seen s) as (s1 & Hrun & Hinv1 & Hlast); [apply (Hin (idx, g)); set_solver|done..|].
  cbn [mfold]. rewrite Hrun. cbn [mbind result_bind].
  destruct (IH (seen ++ [g]) s1) as (s2 & Hrun2 & Hinv2 & Hlast2); [set_solver|done..|].
  exists s2. split; [done|]. rewrite <-app_assoc in Hinv2. split; [exact Hinv2|]. intros g' Hg' Hf.
  destruct igs as [|ig igs]; [|by apply Hlast2]. simplify_eq/=. by apply Hlast.
Qed.

Lemma imap_pair_snd {A} (L : list A) : (imap pair L).*2 = L.
Proof.
  apply list_eq. intros i. rewrite list_lookup_fmap, list_lookup_imap. by destruct (L !! i).
Qed.

(** *** The rounds *)

(** Between rounds: full attention is not looked up yet, or it covers the
    length. *)
Record loop_inv (hl : Z) (s : hit_state) : Prop := {
  li_len : length (hit_blocks_by_group s) = N;
  li_full : ∀ g, g ∈ attention_groups c → is_full g = true →
    unset (hit_blocks_by_group s) g ∨ ∃ n, stored (hit_blocks_by_group s) g n ∧ hl ≤ size_of g n;
  li_align : hl mod al = 0 ∨
    ∀ g, g ∈ attention_groups c → is_full g = true → unset (hit_blocks_by_group s) g;
}.

(** The columns of all groups have the agreed length; full attention may be
    longer before it is cut. *)
Definition agreed (h : Z) (s : hit_state) : Prop :=
  length (hit_blocks_by_group s) = N ∧ h mod al = 0 ∧
  ∀ g, g ∈ attention_groups c → ∃ n, stored (hit_blocks_by_group s) g n ∧ h ≤ size_of g n ∧
    (is_full g = false → size_of g n = h).

Lemma hybrid_loop_spec fuel simple hl s :
  attention_groups c ≠ [] → 0 ≤ hl ≤ max_len → (Z.to_nat hl < fuel)%nat → loop_inv hl s →
  (simple = true → ∃ g1 g2, attention_groups c = [g1; g2] ∧ is_full g1 = true) →
  ∃ h s', hybrid_loop fuel c hashes max_len simple hl s = Ok (h, s') ∧ 0 ≤ h ≤ hl ∧ agreed h s'.
Proof.
  intros Hne Hhl Hfuel Hinv Hsimple. revert hl s Hhl Hfuel Hinv.
  induction fuel as [|fuel IH]; intros hl s Hhl Hfuel [Hlen Hfull Halign]; [lia|]. cbn [hybrid_loop].
  destruct (round_spec hl (imap pair (attention_groups c)) [] (set_curr hl s))
    as (s1 & -> & Hinv1 & Hlast); [| |split|].
  { intros [i g] Hig. rewrite <-(imap_pair_snd (attention_groups c)). apply list_elem_of_fmap. by exists (i, g). }
  { lia. } { simpl. lia. } { done. } { by intros g ?%elem_of_nil. } { exact Hfull. }
  { destruct Halign as [?|?]; [by left|by right]. }
  rewrite imap_pair_snd in Hinv1, Hlast. simpl app in Hinv1. destruct Hinv1 as [Hc Hlen1 Hseen Hfull1 Halign1].
  cbn [mbind result_bind].
  assert (curr_hit_length s1 mod al = 0) as Ha by (destruct Halign1 as [?|[? _]]; done).
  destruct (Z.leb_spec hl (curr_hit_length s1)) as [Hle|Hlt].
  - assert (curr_hit_length s1 = hl) as E by lia. exists hl, s1. split; [done|]. split; [lia|].
    split; [done|]. split; [by rewrite <-E|]. intros g Hin. destruct (Hseen g Hin) as (_ & n & Hst & H1 & H2).
    exists n. split; [done|]. split; [lia|]. intros Hf. specialize (H2 Hf). lia.
  - destruct simple eqn:Esimple.
    + exists (curr_hit_length s1), s1. split; [done|]. split; [lia|]. split; [done|]. split; [done|].
      destruct (Hsimple eq_refl) as (g1 & g2 & Eg & Hf1). intros g Hin.
      destruct (is_full g) eqn:Hfg.
      * destruct (Hseen g Hin) as (_ & n & Hst & H1 & _). by exists n.
      * destruct (Hlast g) as (n & Hst & Hn); [|done|].
        { rewrite Eg in Hin |- *. apply elem_of_cons in Hin as [->|?%list_elem_of_singleton]; [congruence|by subst]. }
        exists n. split; [done|]. split; [lia|done].
    + destruct (IH (curr_hit_length s1) s1) as (h & s2 & Hrun & Hh & Hag); [lia|lia| |].
      { split; [done| |by left]. intros g Hin Hf. destruct (Hseen g Hin) as (_ & n & Hst & H1 & _).
        right. by exists n. }
      exists h, s2. split; [done|]. split; [lia|done].
Qed.

(** *** Cutting full attention *)

Lemma cut_spec (k : nat) (gids : list Z) (bl : list (option (list bref))) (i : nat) :
  NoDup gids → Forall valid_group gids →
  foldl (λ bl gid, alter (fmap (take k)) (Z.to_nat gid) bl) bl gids !! i =
    if decide (Z.of_nat i ∈ gids) then fmap (fmap (take k)) (bl !! i) else bl !! i.
Proof.
  clear Hpool Hg. revert bl. induction gids as [|g gids IH]; intros bl Hnd Hv; cbn [foldl].
  { destruct (decide _) as [?%elem_of_nil|]; done. }
  apply NoDup_cons in Hnd as [Hni Hnd]. apply Forall_cons in Hv as [[Hv0 _] Hv].
  rewrite IH by done. destruct (decide (Z.of_nat i = g)) as [<-|Hne].
  - destruct (decide (Z.of_nat i ∈ gids)) as [|_]; [done|]. destruct (decide _) as [_|[]]; [|set_solver].
    rewrite Nat2Z.id. apply list_lookup_alter_eq.
  - rewrite list_lookup_alter_ne by lia.
    repeat case_decide; set_solver.
Qed.

(** The columns after the cut. *)
Lemma truncated h s g gid :
  agreed h s → 0 ≤ h → g ∈ attention_groups c → gid ∈ sg_group_ids g →
  ∃ blk, truncate_full (attention_groups c) h (hit_blocks_by_group s) !! Z.to_nat gid = Some (Some blk) ∧
    zlen blk * block_size (sg_spec g) = h ∧
    column_ok c hashes (sg_spec g) gid (reach (sg_spec g) (length blk)) (length blk) blk.
Proof.
  intros (Hlen & Ha & Hall) Hh Hin Hgid. destruct (Hall g Hin) as (n & Hst & Hn & Hnf).
  destruct (Hst gid Hgid) as (blk & Hblk & Hl & Hcol). destruct (gk_sizes _ _ _ Hg g Hin) as (Hb & _).
  pose proof (aligned_div h g Hin Ha) as Hdiv. unfold size_of in *.
  destruct (gk_ids _ _ _ Hg g Hin) as [_ Hv]. rewrite Forall_forall in Hv. pose proof (Hv gid Hgid) as [Hg0 _].
  assert (is_full g = false → truncate_full (attention_groups c) h (hit_blocks_by_group s) !! Z.to_nat gid
            = Some (Some blk)) as Hother.
  { intros Hf. unfold truncate_full. destruct (attention_groups c) as [|gf rest] eqn:Eg; [done|].
    destruct (is_full_attention_spec (sg_spec gf)) eqn:Ef; [|done].
    assert (gf ∈ attention_groups c) as Hgf by (rewrite Eg; set_solver).
    rewrite cut_spec by (apply group_nodup || apply (gk_ids _ _ _ Hg); done).
    rewrite decide_False; [done|]. rewrite Z2Nat.id by done. intros Hbad.
    assert (gf ≠ g) by (intros ->; unfold is_full in Hf; congruence).
    eapply (concat_disjoint sg_group_ids (attention_groups c) gf g gid); try done; [apply Hg|by rewrite Eg]. }
  destruct (is_full g) eqn:Hf.
  - apply list_elem_of_lookup in Hin as [j Hj]. pose proof (gk_full _ _ _ Hg j g Hj Hf) as ->.
    assert (g ∈ attention_groups c) as Hin by (by eapply list_elem_of_lookup_2).
    unfold truncate_full. destruct (attention_groups c) as [|gf rest] eqn:Eg; [done|]. simplify_eq/=.
    unfold is_full in Hf. rewrite Hf.
    rewrite cut_spec by (apply group_nodup || apply (gk_ids _ _ _ Hg); by rewrite Eg).
    rewrite decide_True by (by rewrite Z2Nat.id). rewrite Hblk. simpl. eexists. split; [done|].
    assert (Z.to_nat (h / block_size (sg_spec g)) ≤ length blk)%nat as Hk by nia.
    assert (length (take (Z.to_nat (h / block_size (sg_spec g))) blk) = Z.to_nat (h / block_size (sg_spec g))) as El.
    { rewrite length_take. lia. }
    unfold zlen. rewrite El. split.
    { rewrite Z2Nat.id by (apply Z.div_pos; lia). exact Hdiv. }
    split; [exact El|]. assert (∀ m, reach (sg_spec g) m = 0%nat) as Hre by (by destruct (sg_spec g)).
    rewrite Hre in Hcol |- *. intros i Hi. destruct (Hcol i ltac:(lia)) as (b & h' & Hb' & Hh').
    exists b, h'. split; [|done]. rewrite lookup_take_lt by lia. done.
  - exists blk. split; [by apply Hother|]. specialize (Hnf eq_refl). split; [unfold zlen; by rewrite Hl|].
    rewrite Hl. split; [done|]. exact Hcol.
Qed.
End hybrid.

(** ** Properties *)

(** C3: the hybrid lookup over any number of sliding-window and Mamba groups and
    at most one kind of full attention, which then comes first, where block
    sizes are multiples of the hash block size and divide the scheduling
    granularity, the hashes cover the length allowed, and no Mamba group is an
    EAGLE group (chunked-local, sink and cross attention are not covered; with
    an EAGLE Mamba group or two kinds of full attention the columns can differ in
    length, see [eagle_mamba_hit_mismatch] and [second_full_group_not_cut]): it
    terminates with one hit length all groups agree on: it is at most the length
    allowed and a multiple of the scheduling granularity, every group gets a
    column of exactly that many tokens, and in every column the blocks the next
    token can reach are the cached blocks of the request's hashes in that
    group. *)
Theorem hybrid_hit_correct c l hashes max_len :
  pool_inv (block_pool c) l → attention_groups c ≠ [] → groups_ok c max_len hashes →
  ∃ blocks hit c', hybrid_find_longest_cache_hit c hashes max_len = Ok (blocks, hit, c') ∧
    0 ≤ hit ≤ max_len ∧ hit mod scheduler_block_size c = 0 ∧
    length blocks = length (kv_cache_groups (coord_config c)) ∧
    ∀ g gid, g ∈ attention_groups c → gid ∈ sg_group_ids g →
      ∃ blk, blocks !! Z.to_nat gid = Some blk ∧ zlen blk * block_size (sg_spec g) = hit ∧
        column_ok c hashes (sg_spec g) gid (reach (sg_spec g) (length blk)) (length blk) blk.
Proof.
  intros Hp Hne Hg. unfold hybrid_find_longest_cache_hit. destruct (gk_len _ _ _ Hg) as [Hmax _].
  set (simple := match attention_groups c with [g; _] => is_full_attention_spec (sg_spec g) | _ => false end).
  destruct (hybrid_loop_spec c l hashes max_len Hp Hg (S (S (Z.to_nat max_len))) simple max_len
    (mkHit max_len 0 (replicate (length (kv_cache_groups (coord_config c))) None) ∅))
    as (h & s & -> & Hh & Hag); [done|lia|lia| | |].
  - assert (∀ g, g ∈ attention_groups c →
      unset (replicate (length (kv_cache_groups (coord_config c))) None) g) as Hu.
    { intros g Hin gid Hgid. apply lookup_replicate_2. by eapply (gk_range _ _ _ Hg). }
    split; simpl; [apply length_replicate| |].
    + intros g Hin _. left. by apply Hu.
    + right. intros g Hin _. by apply Hu.
  - unfold simple. destruct (attention_groups c) as [|g1 [|g2 [|]]]; try done. intros Hf. by exists g1, g2.
  - cbn [mbind result_bind]. eexists _, h, _. split; [done|]. split; [done|]. pose proof Hag as (Hlen & Ha & _).
    split; [done|]. split.
    + rewrite length_fmap. unfold truncate_full. destruct (attention_groups c) as [|g rest]; [done|].
      destruct (is_full_attention_spec _); [|done]. rewrite <-Hlen. generalize (hit_blocks_by_group s).
      induction (sg_group_ids g) as [|x xs IH]; intros bl; [done|]. simpl. by rewrite IH, length_alter.
    + intros g gid Hin Hgid.
      destruct (truncated c l hashes max_len Hp Hg h s g gid Hag ltac:(lia) Hin Hgid) as (blk & Hb & Hz & Hcol).
      exists blk. split; [|done]. by rewrite list_lookup_fmap, Hb.
Qed.

(** ** Example *)

Definition demo_full_group : SpecGroup :=
  mkSpecGroup (FullAttentionSpec demo_attn (mkFull 8 None None false)) [0] FullAttentionManager true.
Definition demo_window_group : SpecGroup :=
  mkSpecGroup (SlidingWindowSpec demo_attn 3 8) [1] SlidingWindowManager true.
Definition demo_hybrid : KVCacheCoordinator :=
  mkCoordinator HybridKVCacheCoordinator
    (mkKVConfig 4 [mkGroup ["full"] (sg_spec demo_full_group) false; mkGroup ["swa"] (sg_spec demo_window_group) false])
    64 true 2 demo_pool [0; 1] [] None 0 1 1 2 [demo_full_group; demo_window_group] 0.

#[local] Opaque demo_pool.

Lemma demo_groups_ok : groups_ok demo_hybrid 8 [[1]; [2]; [3]; [4]].
Proof.
  assert (∀ P : SpecGroup → Prop, P demo_full_group → P demo_window_group →
    ∀ g, g ∈ attention_groups demo_hybrid → P g) as Hall.
  { intros P H1 H2 g [->| ->%list_elem_of_singleton]%elem_of_cons; done. }
  split.
  - refine (Hall _ _ _); [reflexivity|split; [reflexivity|lia]].
  - refine (Hall _ _ _); (split; [done|]; apply Forall_singleton; unfold valid_group; lia).
  - cbn. apply NoDup_cons. split; [set_solver|apply NoDup_singleton].
  - intros g gid Hin. revert gid. revert g Hin.
    refine (Hall _ _ _); intros gid ->%list_elem_of_singleton; cbn; lia.
  - cbn. lia.
  - cbn. lia.
  - refine (Hall _ _ _); cbn; done.
  - intros [|[|j]] g Hj Hf; simplify_eq/=; done.
  - split; [lia|by vm_compute].
Qed.

Lemma hybrid_hit_correct_witness :
  ∃ blocks hit c', hybrid_find_longest_cache_hit demo_hybrid [[1]; [2]; [3]; [4]] 8 = Ok (blocks, hit, c') ∧
    0 ≤ hit ≤ 8 ∧ hit mod scheduler_block_size demo_hybrid = 0 ∧
    length blocks = length (kv_cache_groups (coord_config demo_hybrid)) ∧
    ∀ g gid, g ∈ attention_groups demo_hybrid → gid ∈ sg_group_ids g →
      ∃ blk, blocks !! Z.to_nat gid = Some blk ∧ zlen blk * block_size (sg_spec g) = hit ∧
        column_ok demo_hybrid [[1]; [2]; [3]; [4]] (sg_spec g) gid
          (reach (sg_spec g) (length blk)) (length blk) blk.
Proof.
  apply (hybrid_hit_correct demo_hybrid [1; 2; 3]%nat [[1]; [2]; [3]; [4]] 8);
    [apply demo_pool_inv|discriminate|apply demo_groups_ok].
Defined.
