(* ===== verification/KVManager.v ===== *)
(** * The KV-cache manager

    [KVCacheManager] and [KVCacheBlocks] ([vllm/v1/core/kv_cache_manager.py]):
    the interface between the scheduler and the KV cache.  The manager finds the
    cached prefix of a request, and grants or refuses slots for its next
    tokens. *)

From Stdlib Require Import QArith Qround.
From S2P Require Import Prelude MathUtils KVBlock BlockHashList Request BlockPool KVSpecs CacheHit SingleType Coordinator.

#[local] Open Scope Z_scope.

(** ** Allocation results *)

(** The manager builds one empty instance and hands it out again and again;
    [allocate_slots] recognises it by identity. *)
Inductive KVCacheBlocks :=
  | empty_kv_cache_blocks (num_groups : nat)
  | NewKVCacheBlocks (bss : list (list bref)).

Definition kvb_blocks (b : KVCacheBlocks) : list (list bref) :=
  match b with
  | empty_kv_cache_blocks n => replicate n []
  | NewKVCacheBlocks bss => bss
  end.

Definition kvb_add (a b : KVCacheBlocks) : KVCacheBlocks :=
  NewKVCacheBlocks (zip_with app (kvb_blocks a) (kvb_blocks b)).

(** [None] only when [allow_none] is set and all groups are empty. *)
Definition get_block_ids (p : BlockPool) (allow_none : bool) (b : KVCacheBlocks) : option (list (list Z)) :=
  if allow_none && forallb (λ bs, zlen bs =? 0) (kvb_blocks b) then None
  else Some ((λ bs : list bref, (λ x, block_id (pool_heap p x)) <$> bs) <$> kvb_blocks b).

Definition get_unhashed_block_ids (p : BlockPool) (b : KVCacheBlocks) : result (list Z) :=
  match kvb_blocks b with
  | [bs] => Ok ((λ x, block_id (pool_heap p x)) <$> filter (λ x, block_hash (pool_heap p x) = None) bs)
  | _ => Raise AssertionError
  end.

Definition get_unhashed_block_ids_all_groups (p : BlockPool) (b : KVCacheBlocks) : list (list Z) :=
  (λ bs : list bref, (λ x, block_id (pool_heap p x)) <$>
     filter (λ x, block_hash (pool_heap p x) = None ∧ is_null (pool_heap p x) = false) bs) <$> kvb_blocks b.

Definition new_empty (b : KVCacheBlocks) : KVCacheBlocks :=
  NewKVCacheBlocks ((λ _, []) <$> kvb_blocks b).

(** ** State *)

(** [PrefixCacheStats] of [vllm/v1/metrics/stats.py] *)
Record PrefixCacheStats := mkStats {
  stats_reset : bool;
  stats_requests : Z;
  stats_queries : Z;
  stats_hits : Z;
  preempted_requests : Z;
  preempted_queries : Z;
  preempted_hits : Z;
}.

Definition new_stats : PrefixCacheStats := mkStats false 0 0 0 0 0 0.

Definition stats_record (num_tokens num_hits : Z) (preempted : bool) (s : PrefixCacheStats) :=
  if preempted then
    mkStats (stats_reset s) (stats_requests s) (stats_queries s) (stats_hits s)
      (preempted_requests s + 1) (preempted_queries s + num_tokens) (preempted_hits s + num_hits)
  else
    mkStats (stats_reset s) (stats_requests s + 1) (stats_queries s + num_tokens) (stats_hits s + num_hits)
      (preempted_requests s) (preempted_queries s) (preempted_hits s).

Record KVCacheManager := mkKVCacheManager {
  km_max_model_len : Z;
  km_enable_caching : bool;
  log_stats : bool;
  prefix_cache_stats : option PrefixCacheStats;
  coordinator : KVCacheCoordinator;
  num_kv_cache_groups : nat;
  watermark_blocks : Z;
  kv_cache_event_metadata : list (KVCacheSpecKind * option Z);
}.

Definition set_coordinator (c : KVCacheCoordinator) (k : KVCacheManager) :=
  mkKVCacheManager (km_max_model_len k) (km_enable_caching k) (log_stats k) (prefix_cache_stats k) c
    (num_kv_cache_groups k) (watermark_blocks k) (kv_cache_event_metadata k).
Definition set_stats (s : option PrefixCacheStats) (k : KVCacheManager) :=
  mkKVCacheManager (km_max_model_len k) (km_enable_caching k) (log_stats k) s (coordinator k)
    (num_kv_cache_groups k) (watermark_blocks k) (kv_cache_event_metadata k).

(** The constructor.  The watermark is a float; its product with the number of
    blocks is taken exactly. *)
Definition init_kv_cache_manager (config : KVCacheConfig)
    (max_model_len sbs hash_block_size : Z) (max_num_batched_tokens : option Z)
    (enable_caching use_eagle log_stats enable_kv_cache_events : bool) (dcp pcp : Z) (watermark : Q)
    (retention : option Z) (int_hashes : bool) : result KVCacheManager :=
  c ← get_kv_cache_coordinator config max_model_len (default max_model_len max_num_batched_tokens)
        use_eagle enable_caching enable_kv_cache_events dcp pcp sbs hash_block_size retention int_hashes;
  _ ← py_assert (Qle_bool 0 watermark);
  Ok (mkKVCacheManager max_model_len enable_caching log_stats
        (if log_stats then Some new_stats else None) c (length (kv_cache_groups config))
        (Qfloor (watermark * inject_Z (num_blocks config)))
        ((λ g, (get_kv_cache_spec_kind (kv_cache_spec g),
                get_kv_cache_spec_sliding_window (kv_cache_spec g))) <$> kv_cache_groups config)).

(** ** Operations *)

Definition km_pool (k : KVCacheManager) : BlockPool := block_pool (coordinator k).

Definition set_km_pool (p : BlockPool) (k : KVCacheManager) : KVCacheManager :=
  set_coordinator (set_state (single_type_managers (coordinator k)) p (coordinator k)) k.

Definition usage (k : KVCacheManager) : Q := get_usage (km_pool k).

Definition make_prefix_cache_stats (k : KVCacheManager) : option PrefixCacheStats * KVCacheManager :=
  if negb (log_stats k) then (None, k) else (prefix_cache_stats k, set_stats (Some new_stats) k).

(** [any(blocks)]: some group has blocks. *)
Definition create_kv_cache_blocks (k : KVCacheManager) (bss : list (list bref)) : KVCacheBlocks :=
  if existsb (λ bs, negb (zlen bs =? 0)) bss then NewKVCacheBlocks bss
  else empty_kv_cache_blocks (num_kv_cache_groups k).

Definition get_computed_blocks (k : KVCacheManager) (r : Request)
    : result (KVCacheBlocks * Z * KVCacheManager) :=
  if negb (km_enable_caching k) || skip_reading_prefix_cache r
  then Ok (empty_kv_cache_blocks (num_kv_cache_groups k), 0, k) else
  let max_cache_hit_length := num_tokens r - 1 in
  '(computed_blocks, n, c) ← coord_find_longest_cache_hit (coordinator k) (block_hashes r) max_cache_hit_length;
  let k := set_coordinator c k in
  k ← (if log_stats k then
         match prefix_cache_stats k with
         | None => Raise AssertionError
         | Some s => Ok (set_stats (Some (stats_record (num_tokens r) n (0 <? num_preemptions r) s)) k)
         end
       else Ok k);
  Ok (create_kv_cache_blocks k computed_blocks, n, k).

(** The optional arguments of [allocate_slots] with their defaults. *)
Record slot_args := mkSlotArgs {
  sa_num_new_computed_tokens : Z;
  sa_new_computed_blocks : option KVCacheBlocks;
  sa_num_lookahead_tokens : Z;
  sa_num_external_computed_tokens : Z;
  sa_delay_cache_blocks : bool;
  sa_num_encoder_tokens : Z;
  sa_full_sequence_must_fit : bool;
  sa_reserved_blocks : Z;
  sa_has_scheduled_reqs : bool;
}.

Definition default_slot_args : slot_args := mkSlotArgs 0 None 0 0 false 0 false 0 true.

(** [new_computed_block_list is not self.empty_kv_cache_blocks.blocks] *)
Definition has_hits (b : option KVCacheBlocks) : bool :=
  match b with Some (NewKVCacheBlocks _) => true | _ => false end.

Definition hit_lists (k : KVCacheManager) (b : option KVCacheBlocks) : list (list bref) :=
  kvb_blocks (default (empty_kv_cache_blocks (num_kv_cache_groups k)) b).

(** The watermark counts for waiting and preempted requests, and only beside
    scheduled ones. *)
Definition applied_watermark (k : KVCacheManager) (r : Request) (has_scheduled_reqs : bool) : Z :=
  if has_scheduled_reqs && bool_decide (status r = WAITING ∨ status r = PREEMPTED)
  then watermark_blocks k else 0.

Section slots.
Context (sha256 : list bytes → bytes).

(** The part after the checks: hits, new blocks, caching. *)
Definition grant_slots (k : KVCacheManager) (r : Request) (a : slot_args)
    (num_local total num_new_tokens num_tokens_need_slot num_tokens_main_model : Z)
    : result (KVCacheBlocks * KVCacheManager * Request) :=
  let c := coordinator k in
  let ext := sa_num_external_computed_tokens a in
  c ← (if has_hits (sa_new_computed_blocks a) || (0 <? ext) then
         coord_allocate_new_computed_blocks c (request_id r) (hit_lists k (sa_new_computed_blocks a))
           num_local ext
       else Ok c);
  '(new_blocks, c) ← coord_allocate_new_blocks c (request_id r) num_tokens_need_slot
                       num_tokens_main_model (sa_num_encoder_tokens a);
  if negb (km_enable_caching k) || sa_delay_cache_blocks a then
    Ok (create_kv_cache_blocks k new_blocks, set_coordinator c k, r)
  else
    '(c, r) ← coord_cache_blocks sha256 c r (Z.min (total + num_new_tokens) (num_tokens r));
    Ok (create_kv_cache_blocks k new_blocks, set_coordinator c k, r).

(** The admission gate over the whole sequence; [false] refuses. *)
Definition full_sequence_fits (k : KVCacheManager) (r : Request) (a : slot_args) (total watermark : Z)
    : result (bool * KVCacheManager) :=
  if sa_full_sequence_must_fit a then
    let full_num_tokens := Z.min (num_tokens r) (km_max_model_len k) in
    '(n, c) ← coord_get_num_blocks_to_allocate (coordinator k) (request_id r) full_num_tokens
                (hit_lists k (sa_new_computed_blocks a)) (sa_num_encoder_tokens a) total
                full_num_tokens true;
    Ok (negb (get_num_free_blocks (block_pool c) <? n + watermark), set_coordinator c k)
  else Ok (true, k).

(** [None]: the request cannot get its slots now. *)
Definition allocate_slots (k : KVCacheManager) (r : Request) (num_new_tokens : Z) (a : slot_args)
    : result (option KVCacheBlocks * KVCacheManager * Request) :=
  let ext := sa_num_external_computed_tokens a in
  if (num_new_tokens =? 0) && (ext =? 0) then Raise ValueError else
  let hits := hit_lists k (sa_new_computed_blocks a) in
  let num_local := num_computed_tokens r + sa_num_new_computed_tokens a in
  let total := Z.min (num_local + ext) (km_max_model_len k) in
  let watermark := applied_watermark k r (sa_has_scheduled_reqs a) in
  '(fits, k) ← full_sequence_fits k r a total watermark;
  if negb fits then Ok (None, k, r) else
  let num_tokens_main_model := total + num_new_tokens in
  let num_tokens_need_slot :=
    Z.min (num_tokens_main_model + sa_num_lookahead_tokens a) (km_max_model_len k) in
  c ← coord_remove_skipped_blocks (coordinator k) (request_id r) total;
  '(n, c) ← coord_get_num_blocks_to_allocate c (request_id r) num_tokens_need_slot hits
              (sa_num_encoder_tokens a) (num_local + ext) num_tokens_main_model false;
  let k := set_coordinator c k in
  let available := get_num_free_blocks (block_pool c) - sa_reserved_blocks a in
  if available <? n + watermark then Ok (None, k, r) else
  '(bs, k, r) ← grant_slots k r a num_local total num_new_tokens num_tokens_need_slot
                  num_tokens_main_model;
  Ok (Some bs, k, r).

Definition km_cache_blocks (k : KVCacheManager) (r : Request) (num_computed_tokens : Z)
    : result (KVCacheManager * Request) :=
  if km_enable_caching k then
    '(c, r) ← coord_cache_blocks sha256 (coordinator k) r num_computed_tokens;
    Ok (set_coordinator c k, r)
  else Ok (k, r).
End slots.

Definition km_free (k : KVCacheManager) (r : Request) : result KVCacheManager :=
  c ← coord_free (coordinator k) (request_id r); Ok (set_coordinator c k).

Definition km_remove_skipped_blocks (k : KVCacheManager) (id : string) (total_computed_tokens : Z)
    : result KVCacheManager :=
  c ← coord_remove_skipped_blocks (coordinator k) id total_computed_tokens; Ok (set_coordinator c k).

Definition km_pop_blocks_for_free (k : KVCacheManager) (r : Request) : result (list bref * KVCacheManager) :=
  '(bs, c) ← coord_pop_blocks_for_free (coordinator k) (request_id r); Ok (bs, set_coordinator c k).

Definition km_evict_blocks (k : KVCacheManager) (ids : list Z) : result KVCacheManager :=
  p ← evict_blocks (km_pool k) ids; Ok (set_km_pool p k).

Definition km_reset_prefix_cache (k : KVCacheManager) : result (bool * KVCacheManager) :=
  let '(done, p) := reset_prefix_cache (km_pool k) in
  let k := set_km_pool p k in
  if negb done then Ok (false, k)
  else if log_stats k then
    match prefix_cache_stats k with
    | None => Raise AssertionError
    | Some s => Ok (true, set_stats (Some (mkStats true (stats_requests s) (stats_queries s) (stats_hits s)
                            (preempted_requests s) (preempted_queries s) (preempted_hits s))) k)
    end
  else Ok (true, k).

Definition km_get_num_common_prefix_blocks (k : KVCacheManager) (id : string)
    : result (list Z * KVCacheManager) :=
  '(ns, c) ← coord_get_num_common_prefix_blocks (coordinator k) id; Ok (ns, set_coordinator c k).

(** Stored events get the kind and the window of their group; an event of an
    unknown group is left alone. *)
Definition annotate (meta : list (KVCacheSpecKind * option Z)) (e : KVCacheEvent)
    : KVCacheEvent * option (KVCacheSpecKind * option Z) :=
  (e, match e with
      | BlockStored _ _ _ _ _ _ _ g =>
          if (g <? 0) || (zlen meta <=? g) then None else meta !! Z.to_nat g
      | _ => None
      end).

Definition km_take_events (k : KVCacheManager)
    : list (KVCacheEvent * option (KVCacheSpecKind * option Z)) * KVCacheManager :=
  let '(evs, p) := take_events (km_pool k) in
  (annotate (kv_cache_event_metadata k) <$> evs, set_km_pool p k).

Definition km_get_blocks (k : KVCacheManager) (id : string) : KVCacheBlocks :=
  create_kv_cache_blocks k (coord_get_blocks (coordinator k) id).

Definition km_get_block_ids (k : KVCacheManager) (id : string) : option (list (list Z)) :=
  get_block_ids (km_pool k) false (km_get_blocks k id).

Definition km_take_new_block_ids (k : KVCacheManager) : list Z * KVCacheManager :=
  let rs := take_new_block_ids <$> single_type_managers (coordinator k) in
  (concat rs.*1, set_coordinator (set_state rs.*2 (km_pool k) (coordinator k)) k).

Definition km_new_step_starts (k : KVCacheManager) : KVCacheManager :=
  set_coordinator (coord_new_step_starts (coordinator k)) k.
