(* ===== verification/SlotFacts.v ===== *)
(** * Granting and refusing slots

    [KVCacheManager.allocate_slots] over any number of full-attention,
    sliding-window and chunked-local groups: it refuses exactly when the blocks do
    not suffice, without taking one, or it grants slots that cover all tokens; up
    to the caching of full blocks it cannot fail in between. *)

From S2P Require Import Prelude MathUtils KVBlock FreeQueue BlockMap BlockHashList Request BlockHasher BlockPool PrefixCache Ownership KVSpecs CacheHit SingleType ManagerFacts Coordinator CoordFacts KVManager.

#[local] Open Scope Z_scope.

Lemma free_count p l : pool_inv p l → get_num_free_blocks p = zlen l.
Proof. intros H. apply (repr_count _ _ (inv_queue _ _ _ H)). Qed.

(** The caching step that ends a grant, unless caching is off or delayed. *)
Definition finish_grant (sha : list bytes → bytes) (k : KVCacheManager) (r : Request) (a : slot_args)
    (num_tokens_to_cache : Z) (bs : KVCacheBlocks)
    : result (option KVCacheBlocks * KVCacheManager * Request) :=
  if negb (km_enable_caching k) || sa_delay_cache_blocks a then Ok (Some bs, k, r)
  else '(c, r) ← coord_cache_blocks sha (coordinator k) r num_tokens_to_cache;
       Ok (Some bs, set_coordinator c k, r).

(** The prediction never raises for a request that is unknown or gets no hits. *)
Lemma predict_total m p id num_tokens bs total main cap :
  plain_manager m → num_cached_block m !! id = None ∨ bs = [] →
  ∃ n, get_num_blocks_to_allocate m p id num_tokens bs total main cap = Ok (n, m).
Proof.
  intros Hp H. rewrite plain_predict by done. unfold base_get_num_blocks_to_allocate.
  destruct (num_cached_block m !! id) as [k|]; [|by eexists]. destruct H as [[=]| ->]. by eexists.
Qed.

Lemma coord_predict_total c id num_tokens bss enc total main cap :
  coord_ready c → length bss = length (single_type_managers c) →
  (∀ j m bs, single_type_managers c !! j = Some m → bss !! j = Some bs →
     num_cached_block m !! id = None ∨ bs = []) →
  ∃ n, coord_get_num_blocks_to_allocate c id num_tokens bss enc total main cap = Ok (n, c).
Proof.
  intros Hr Hl H. eexists. apply (coord_predict _ _ _ _ _ _ _ _ (λ j m,
    match get_num_blocks_to_allocate m (block_pool c) id num_tokens (default [] (bss !! j)) total main cap with
    | Ok (n, _) => n | Raise _ => 0 end)); [done|].
  intros j m Hj. destruct (lookup_lt_is_Some_2 bss j) as [bs Hbs].
  { rewrite Hl. by eapply lookup_lt_Some. }
  exists bs. split; [done|]. rewrite Hbs. simpl.
  destruct (predict_total m (block_pool c) id num_tokens bs total main cap) as [n Hn].
  - apply Hr. by eapply list_elem_of_lookup_2.
  - by eapply H.
  - by rewrite Hn.
Qed.

Lemma set_coordinator_id k : set_coordinator (coordinator k) k = k.
Proof. by destruct k. Qed.

(** Blocks the admission gate predicts for the whole sequence of the request. *)
Definition full_sequence_need (k : KVCacheManager) (r : Request) (a : slot_args) (total full : Z) : Prop :=
  let full_num_tokens := Z.min (num_tokens r) (km_max_model_len k) in
  coord_get_num_blocks_to_allocate (coordinator k) (request_id r) full_num_tokens
    (hit_lists k (sa_new_computed_blocks a)) (sa_num_encoder_tokens a) total full_num_tokens true =
  Ok (full, coordinator k).

(** The admission gate only reads, and compares this with the free blocks. *)
Lemma full_sequence_fits_spec k r a total wm :
  coord_ready (coordinator k) →
  length (hit_lists k (sa_new_computed_blocks a)) = length (single_type_managers (coordinator k)) →
  (∀ j m bs, single_type_managers (coordinator k) !! j = Some m →
     hit_lists k (sa_new_computed_blocks a) !! j = Some bs →
     num_cached_block m !! request_id r = None ∨ bs = []) →
  ∃ b full, full_sequence_fits k r a total wm = Ok (b, k) ∧
    (sa_full_sequence_must_fit a = true → full_sequence_need k r a total full) ∧
    (b = true ↔ (sa_full_sequence_must_fit a = true →
                 full + wm ≤ get_num_free_blocks (block_pool (coordinator k)))).
Proof.
  intros Hr Hl H. unfold full_sequence_fits, full_sequence_need.
  destruct (sa_full_sequence_must_fit a); [|by exists true, 0].
  edestruct (coord_predict_total (coordinator k)) as [n ->]; [done|exact Hl|exact H|].
  cbn [mbind result_bind]. rewrite set_coordinator_id. eexists _, n. split; [done|]. split; [done|].
  rewrite negb_true_iff, Z.ltb_ge. tauto.
Qed.

Lemma same_progress_all_ready id c ms p :
  Forall2 (same_progress id) (single_type_managers c) ms → coord_ready c → coord_ready (set_state ms p c).
Proof.
  intros HF Hr m Hm. apply list_elem_of_lookup in Hm as [j Hj].
  destruct (Forall2_lookup_r _ _ _ _ _ HF Hj) as (m0 & Hm0 & Hk & _).
  eapply same_kind_window; [done|]. apply Hr. by eapply list_elem_of_lookup_2.
Qed.

(** After a grant: every group's table covers [num_tokens] tokens. *)
Definition covers (id : string) (num_tokens : Z) (c : KVCacheCoordinator) : Prop :=
  ∀ m, m ∈ single_type_managers c → num_tokens ≤ zlen (req_blocks m id) * mgr_block_size m.

Lemma lacks_covers id n m : window_manager m → lacks id n m = 0 → n ≤ zlen (req_blocks m id) * mgr_block_size m.
Proof.
  intros [_ Hb _] H. unfold lacks in H. apply cdiv_le_iff; [done|]. lia.
Qed.

(** Allocating after the hits: the end of a grant. *)
Lemma grant_tail c l id num_tokens main enc :
  coord_ready c → coord_owns c l → total_lack id num_tokens (single_type_managers c) ≤ zlen l →
  ∃ news c' l', coord_allocate_new_blocks c id num_tokens main enc = Ok (news, c') ∧ coord_owns c' l' ∧
    zlen l - total_lack id num_tokens (single_type_managers c) ≤ zlen l' ∧
    covers id num_tokens c' ∧ Forall2 (grown id) (single_type_managers c) (single_type_managers c').
Proof.
  intros Hr Ho Hl. destruct (coord_alloc_spec c l id num_tokens main enc Hr Ho Hl)
    as (news & ms & p & l' & Hrun & Ho' & _ & Hl' & HF).
  exists news, (set_state ms p c), l'. split; [done|]. split; [done|]. split; [done|]. split.
  - intros m' (j & Hj)%list_elem_of_lookup.
    destruct (Forall2_lookup_r _ _ _ _ _ HF Hj) as (m & Hm & [Hk _] & Hz).
    apply lacks_covers; [|done]. eapply same_kind_window; [done|]. apply Hr. by eapply list_elem_of_lookup_2.
  - eapply Forall2_impl; [exact HF|]. by intros ?? [? _].
Qed.

(** [num_tokens_need_slot] of a call. *)
Definition slots_needed (k : KVCacheManager) (r : Request) (n : Z) (a : slot_args) : Z :=
  let total := Z.min (num_computed_tokens r + sa_num_new_computed_tokens a + sa_num_external_computed_tokens a)
                 (km_max_model_len k) in
  Z.min (total + n + sa_num_lookahead_tokens a) (km_max_model_len k).

Definition tokens_committed (k : KVCacheManager) (r : Request) (n : Z) (a : slot_args) : Z :=
  Z.min (Z.min (num_computed_tokens r + sa_num_new_computed_tokens a + sa_num_external_computed_tokens a)
           (km_max_model_len k) + n) (num_tokens r).

(** What [allocate_slots] returns: a refusal, or a grant that ends with caching. *)
Definition slots_result (sha : list bytes → bytes) (k1 : KVCacheManager) (r : Request) (a : slot_args)
    (num_tokens_to_cache : Z) (res : option KVCacheBlocks)
    : result (option KVCacheBlocks * KVCacheManager * Request) :=
  match res with
  | None => Ok (None, k1, r)
  | Some bs => finish_grant sha k1 r a num_tokens_to_cache bs
  end.

(** What a call looks at: the blocks [full] the whole sequence takes, when the
    admission gate asks for it, and the coordinator [c1] with free blocks [l1]
    after the skipped blocks are given back. *)
Record slots_view (k : KVCacheManager) (r : Request) (a : slot_args) (total : Z) (l : list nat) (full : Z)
    (c1 : KVCacheCoordinator) (l1 : list nat) : Prop := {
  sv_full : sa_full_sequence_must_fit a = true → full_sequence_need k r a total full;
  sv_removed : coord_remove_skipped_blocks (coordinator k) (request_id r) total = Ok c1;
  sv_owns : coord_owns c1 l1;
  sv_freed : zlen l ≤ zlen l1;
}.

(** The slots fit: the gate passes, and the predicted blocks [need] are free
    besides the watermark and the reserved blocks. *)
Definition slots_fit (k : KVCacheManager) (r : Request) (a : slot_args) (l l1 : list nat) (full need : Z) : Prop :=
  let wm := applied_watermark k r (sa_has_scheduled_reqs a) in
  (sa_full_sequence_must_fit a = true → full + wm ≤ zlen l) ∧ need + wm + sa_reserved_blocks a ≤ zlen l1.

(** The call after the gate, with the loops' results filled in. *)
Lemma slots_after_gate sha k r n a c1 c2 need_blocks wm b :
  (n =? 0) && (sa_num_external_computed_tokens a =? 0) = false →
  let num_local := num_computed_tokens r + sa_num_new_computed_tokens a in
  let ext := sa_num_external_computed_tokens a in
  let total := Z.min (num_local + ext) (km_max_model_len k) in
  wm = applied_watermark k r (sa_has_scheduled_reqs a) →
  full_sequence_fits k r a total wm = Ok (b, k) →
  coord_remove_skipped_blocks (coordinator k) (request_id r) total = Ok c1 →
  coord_get_num_blocks_to_allocate c1 (request_id r) (slots_needed k r n a)
    (hit_lists k (sa_new_computed_blocks a)) (sa_num_encoder_tokens a) (num_local + ext) (total + n) false =
    Ok (need_blocks, c2) →
  allocate_slots sha k r n a =
    if negb b then Ok (None, k, r) else
    if get_num_free_blocks (block_pool c2) - sa_reserved_blocks a <? need_blocks + wm
    then Ok (None, set_coordinator c2 k, r)
    else '(bs, k', r') ← grant_slots sha (set_coordinator c2 k) r a num_local total n
                           (slots_needed k r n a) (total + n);
         Ok (Some bs, k', r').
Proof.
  intros E num_local ext total -> Hg Hr Hp. unfold allocate_slots. rewrite E.
  fold num_local ext total. rewrite Hg. cbn [mbind result_bind]. destruct b; [|done]. cbn [negb].
  rewrite Hr. cbn [mbind result_bind]. fold ext num_local total in Hp |- *.
  change (Z.min (total + n + sa_num_lookahead_tokens a) (km_max_model_len k)) with (slots_needed k r n a).
  change (slots_needed (set_coordinator c2 k) r n a) with (slots_needed k r n a).
  rewrite Hp. done.
Qed.

Lemma watermark_nonneg k r b : 0 ≤ watermark_blocks k → 0 ≤ applied_watermark k r b.
Proof. intros. unfold applied_watermark. by destruct (_ && _). Qed.

(** A grant whose two allocations are known is what remains: caching. *)
Lemma grant_result sha k r a num_local total n need main c1 c2 c3 news :
  (if has_hits (sa_new_computed_blocks a) || (0 <? sa_num_external_computed_tokens a)
   then coord_allocate_new_computed_blocks c1 (request_id r) (hit_lists k (sa_new_computed_blocks a)) num_local
          (sa_num_external_computed_tokens a)
   else Ok c1) = Ok c2 →
  coord_allocate_new_blocks c2 (request_id r) need main (sa_num_encoder_tokens a) = Ok (news, c3) →
  ('(bs, k', r') ← grant_slots sha (set_coordinator c1 k) r a num_local total n need main; Ok (Some bs, k', r')) =
    slots_result sha (set_coordinator c3 k) r a (Z.min (total + n) (num_tokens r))
      (Some (create_kv_cache_blocks k news)).
Proof.
  intros Hhits Halloc. unfold grant_slots. change (coordinator (set_coordinator c1 k)) with c1.
  change (hit_lists (set_coordinator c1 k)) with (hit_lists k). rewrite Hhits. cbn [mbind result_bind].
  rewrite Halloc. cbn [mbind result_bind]. unfold slots_result, finish_grant.
  change (km_enable_caching (set_coordinator c1 k)) with (km_enable_caching k).
  change (km_enable_caching (set_coordinator c3 k)) with (km_enable_caching k).
  destruct (negb (km_enable_caching k) || sa_delay_cache_blocks a); [done|]. simpl coordinator.
  by destruct (coord_cache_blocks _ _ _ _) as [[??]|].
Qed.

(** The decision of a call whose grant is known: the gate and the comparison with
    the free blocks refuse exactly when the slots do not fit. *)
Lemma decided need k r a total l full c1 l1 b sha num_tokens_to_cache
    (grant : result (option KVCacheBlocks * KVCacheManager * Request)) (P : KVCacheManager → list nat → Prop) :
  let wm := applied_watermark k r (sa_has_scheduled_reqs a) in
  slots_view k r a total l full c1 l1 →
  (b = true ↔ (sa_full_sequence_must_fit a = true → full + wm ≤ zlen l)) →
  coord_owns (coordinator k) l →
  (need + wm + sa_reserved_blocks a ≤ zlen l1 → ∃ bs k2 l2,
     grant = slots_result sha k2 r a num_tokens_to_cache (Some bs) ∧ coord_owns (coordinator k2) l2 ∧ P k2 l2) →
  ∃ res k2 l2, slots_view k r a total l full c1 l1 ∧
    (if negb b then Ok (None, k, r) else
     if zlen l1 - sa_reserved_blocks a <? need + wm then Ok (None, set_coordinator c1 k, r) else grant) =
      slots_result sha k2 r a num_tokens_to_cache res ∧
    coord_owns (coordinator k2) l2 ∧ (is_Some res ↔ slots_fit k r a l l1 full need) ∧
    match res with
    | None => (k2 = k ∨ k2 = set_coordinator c1 k) ∧ zlen l ≤ zlen l2
    | Some _ => P k2 l2
    end.
Proof.
  intros wm Hv Hb Ho Hgrant. unfold slots_fit. cbv zeta. fold wm. setoid_rewrite <-Hb. destruct b; cbn [negb].
  2:{ exists None, k, l. split; [done|]. split; [done|]. split; [done|]. split; [|by split; [left|]].
      split; [by intros [? [=]]|by intros [[=] _]]. }
  destruct (Z.ltb_spec (zlen l1 - sa_reserved_blocks a) (need + wm)) as [Hlt|Hge].
  - exists None, (set_coordinator c1 k), l1. split; [done|]. split; [done|]. split; [apply Hv|].
    split; [|split; [by right|apply Hv]]. split; [by intros [? [=]]|]. intros [_ ?]. lia.
  - destruct Hgrant as (bs & k2 & l2 & Hg & Ho2 & HP); [lia|].
    exists (Some bs), k2, l2. split; [done|]. split; [done|]. split; [done|]. split; [|done].
    split; [|by eexists]. intros _. split; [done|lia].
Qed.

(** C36: for a running request, which comes without prefix hits and external
    tokens and has tables that reach beyond its skipped tokens, over any number
    of full-attention, sliding-window and chunked-local groups (no Mamba, sink or
    cross-attention group), [allocate_slots] never fails before caching.  It grants if and only if the
    admission gate, when asked for, finds room for the whole sequence, and what
    the tables lack is free besides the watermark and the reserved blocks.
    Refused, it has at most given back skipped blocks; granted, every group's
    table covers all tokens that need a slot and the reserved and watermark
    blocks are still free. *)
Theorem running_request_slots sha k r n a l :
  let c := coordinator k in let id := request_id r in
  let wm := applied_watermark k r (sa_has_scheduled_reqs a) in
  coord_ready c → coord_owns c l →
  sa_new_computed_blocks a = None → num_kv_cache_groups k = length (single_type_managers c) →
  sa_num_external_computed_tokens a = 0 → n ≠ 0 → 0 ≤ watermark_blocks k → 0 ≤ sa_reserved_blocks a →
  (∀ m, m ∈ single_type_managers c → is_Some (num_cached_block m !! id) ∨
     get_num_skipped_tokens m (num_computed_tokens r + sa_num_new_computed_tokens a) / mgr_block_size m
       ≤ zlen (req_blocks m id)) →
  ∃ full c1 l1 res k2 l2, slots_view k r a (Z.min (num_computed_tokens r + sa_num_new_computed_tokens a)
      (km_max_model_len k)) l full c1 l1 ∧
    allocate_slots sha k r n a = slots_result sha k2 r a (tokens_committed k r n a) res ∧
    coord_owns (coordinator k2) l2 ∧
    (is_Some res ↔ slots_fit k r a l l1 full (total_lack id (slots_needed k r n a) (single_type_managers c1))) ∧
    match res with
    | None => (k2 = k ∨ k2 = set_coordinator c1 k) ∧ zlen l ≤ zlen l2
    | Some _ => covers id (slots_needed k r n a) (coordinator k2) ∧ wm + sa_reserved_blocks a ≤ zlen l2
    end.
Proof.
  intros c id wm Hr Ho Hnone Hng Hext Hn Hwm Hres Hprog.
  set (num_local := num_computed_tokens r + sa_num_new_computed_tokens a).
  set (need := slots_needed k r n a).
  pose proof (watermark_nonneg k r (sa_has_scheduled_reqs a) Hwm) as Hwm'. fold wm in Hwm'.
  assert (hit_lists k (sa_new_computed_blocks a) = replicate (length (single_type_managers c)) []) as Eh.
  { rewrite Hnone. unfold hit_lists. simpl. by rewrite Hng. }
  destruct (full_sequence_fits_spec k r a (Z.min (num_local + 0) (km_max_model_len k)) wm Hr)
    as (b & full & Hgate & Hfull & Hb).
  { rewrite Eh. apply length_replicate. }
  { intros j m bs _ Hbs. rewrite Eh in Hbs. apply lookup_replicate in Hbs as [-> _]. by right. }
  destruct (coord_remove_spec c l id (Z.min (num_local + 0) (km_max_model_len k)) Hr Ho)
    as (ms & p & l1 & Hrem & Ho1 & Hcfg & Hl1 & HF).
  set (c1 := set_state ms p c) in *.
  assert (coord_ready c1) as Hr1 by (by eapply same_progress_all_ready).
  assert (coord_get_num_blocks_to_allocate c1 id need (hit_lists k (sa_new_computed_blocks a))
    (sa_num_encoder_tokens a) (num_local + 0) (Z.min (num_local + 0) (km_max_model_len k) + n) false =
    Ok (total_lack id need ms, c1)) as Hpred.
  { rewrite Eh. apply (coord_predict c1 _ _ _ _ _ _ _ (λ _ m, lacks id need m) Hr1). intros j m' Hj. simpl in Hj.
    destruct (Forall2_lookup_r _ _ _ _ _ HF Hj) as (m & Hm & Hk & Hlen & Hnc). exists []. split.
    { apply lookup_replicate_2. by eapply lookup_lt_Some. }
    apply predict_no_hits; [apply Hr1; by eapply list_elem_of_lookup_2|].
    rewrite Hnc, Hlen, (same_kind_skipped m m') by done. destruct Hk as (_ & _ & -> & _).
    rewrite Z.add_0_r. apply Hprog. by eapply list_elem_of_lookup_2. }
  rewrite (slots_after_gate sha k r n a c1 c1 (total_lack id need ms) wm b);
    [|by rewrite (proj2 (Z.eqb_neq _ _) Hn)|done|by rewrite Hext|by rewrite Hext|by rewrite Hext].
  rewrite (free_count _ l) in Hb by apply Ho. rewrite (free_count _ l1) by apply Ho1.
  rewrite Z.add_0_r in Hrem, Hfull. exists full, c1, l1.
  eapply (decided (total_lack id need ms)); [by split|exact Hb|done..|]. intros Hge.
  destruct (grant_tail c1 l1 id need (Z.min (num_local + 0) (km_max_model_len k) + n) (sa_num_encoder_tokens a)
    Hr1 Ho1) as (news & c2 & l2 & Halloc & Ho2 & Hl2 & Hcov & _).
  { simpl. lia. }
  exists (create_kv_cache_blocks k news), (set_coordinator c2 k), l2. split; [|split; [done|split; [done|simpl in Hl2; lia]]].
  rewrite Hext. unfold tokens_committed. rewrite Hext. fold num_local need.
  apply (grant_result sha k r a num_local _ n need _ c1 c1 c2 news); [by rewrite Hext, Hnone|exact Halloc].
Qed.

(** What a call with prefix hits [xss] relies on. *)
Record new_request_call (k : KVCacheManager) (r : Request) (n : Z) (a : slot_args) (xss : list (list nat))
    : Prop := {
  nr_unknown : ∀ m, m ∈ single_type_managers (coordinator k) → unknown_request (request_id r) m;
  nr_hits : hit_lists k (sa_new_computed_blocks a) = brefs xss;
  nr_hits_ok : hits_ok (pool_size (km_pool k)) (single_type_managers (coordinator k)) xss;
  nr_may_hit : may_hit (single_type_managers (coordinator k)) xss;
  nr_within : hits_within (single_type_managers (coordinator k)) xss
                (num_computed_tokens r + sa_num_new_computed_tokens a);
  nr_local : 0 ≤ num_computed_tokens r + sa_num_new_computed_tokens a;
  nr_ext : 0 ≤ sa_num_external_computed_tokens a;
  nr_len : num_computed_tokens r + sa_num_new_computed_tokens a + sa_num_external_computed_tokens a
             ≤ km_max_model_len k;
  nr_new : 0 ≤ n ∧ 0 < n + sa_num_external_computed_tokens a ∧ 0 ≤ sa_num_lookahead_tokens a;
  (** without hits and external tokens nothing is computed yet *)
  nr_fresh : has_hits (sa_new_computed_blocks a) = true ∨ 0 < sa_num_external_computed_tokens a ∨
             num_computed_tokens r + sa_num_new_computed_tokens a = 0 ∧ Forall (λ xs, xs = []) xss;
  nr_watermark : 0 ≤ watermark_blocks k;
  nr_reserved : 0 ≤ sa_reserved_blocks a;
}.

Lemma unknown_progress id c ms p :
  Forall2 (same_progress id) (single_type_managers c) ms →
  (∀ m, m ∈ single_type_managers c → unknown_request id m) →
  ∀ m, m ∈ single_type_managers (set_state ms p c) → unknown_request id m.
Proof.
  intros HF Hu m' (j & Hj)%list_elem_of_lookup. destruct (Forall2_lookup_r _ _ _ _ _ HF Hj) as (m & Hm & _ & Hl & Hn).
  destruct (Hu m (list_elem_of_lookup_2 _ _ _ Hm)) as [H1 H2]. split; [by rewrite Hn|].
  apply zlen_zero. by rewrite Hl, H2.
Qed.

(** Without hits nothing is added before the allocation, and the prediction is
    what the empty tables lack. *)
Lemma fresh_lack id need xss l ms :
  (∀ m, m ∈ ms → window_manager m) → (∀ m, m ∈ ms → unknown_request id m) → Forall (λ xs, xs = []) xss →
  costs (predicted xss 0 need l) 0 ms = total_lack id need ms.
Proof.
  intros Hw Hu Hx. apply costs_ext; [done|]. intros j m m' Hm Hm'. simplify_eq. simpl.
  apply list_elem_of_lookup_2 in Hm. destruct (Hu m Hm) as [_ He]. destruct (Hw m Hm) as [_ Hb Hs].
  specialize (Hs 0 ltac:(lia)). unfold predicted, need_after, free_hits, touched_free, lacks.
  assert (default [] (xss !! j) = []) as ->.
  { destruct (xss !! j) as [xs|] eqn:E; [|done]. simpl. by apply (Forall_lookup_1 _ _ _ _ Hx E). }
  rewrite hit_table_len, He. change (zlen (@nil nat)) with 0. change (zlen (@nil bref)) with 0. set (s := get_num_skipped_tokens m 0 / mgr_block_size m).
  assert (s ≤ 0) by (unfold s; apply Z.div_le_upper_bound; lia).
  rewrite drop_nil. assert (filter (λ y, y ∈ @nil nat) l = []) as ->.
  { clear. induction l as [|x l IH]; [done|]. rewrite filter_cons_False by apply not_elem_of_nil. done. }
  change (zlen (@nil nat)) with 0. lia.
Qed.

(** The part of a grant before the new blocks. *)
Lemma grant_hits c l id xss k r n a need num_local ext :
  coord_ready c → coord_owns c l → (∀ m, m ∈ single_type_managers c → unknown_request id m) →
  hits_ok (pool_size (block_pool c)) (single_type_managers c) xss →
  may_hit (single_type_managers c) xss → hits_within (single_type_managers c) xss num_local →
  0 ≤ num_local → 0 ≤ ext → (0 < ext → num_local + ext ≤ need) →
  num_local = num_computed_tokens r + sa_num_new_computed_tokens a → ext = sa_num_external_computed_tokens a →
  new_request_call k r n a xss →
  costs (predicted xss (num_local + ext) need l) 0 (single_type_managers c) ≤ zlen l →
  ∃ c' l', (if has_hits (sa_new_computed_blocks a) || (0 <? ext)
            then coord_allocate_new_computed_blocks c id (brefs xss) num_local ext else Ok c) = Ok c' ∧
    coord_owns c' l' ∧ coord_ready c' ∧
    (∀ j m', single_type_managers c' !! j = Some m' → ∃ m, single_type_managers c !! j = Some m ∧ same_kind m m' ∧
       hit_table m (num_local + ext) (default [] (xss !! j)) `prefix_of` req_blocks m' id) ∧
    zlen l - costs (predicted xss (num_local + ext) need l) 0 (single_type_managers c) ≤
      zlen l' - total_lack id need (single_type_managers c').
Proof.
  intros Hr Ho Hu Hx Hmay Hw Hnl Hne Hle E1 E2 Hnr Hl.
  destruct (has_hits (sa_new_computed_blocks a) || (0 <? ext)) eqn:Eb.
  - destruct (coord_hits_spec c l id xss num_local ext need Hr Hmay Ho Hu Hx Hnl Hne Hw Hle Hl)
      as (ms & p & l' & Hrun & Ho' & _ & Hlen & Hm & Hl').
    exists (set_state ms p c), l'. split; [done|]. split; [done|]. split; [|done].
    intros m' (j & Hj)%list_elem_of_lookup. destruct (Hm j m' Hj) as (m & Hj0 & Hk & _).
    eapply same_kind_window; [done|]. apply Hr. by eapply list_elem_of_lookup_2.
  - apply orb_false_iff in Eb as [Eb1 Eb2%Z.ltb_ge].
    destruct (nr_fresh _ _ _ _ _ Hnr) as [Hc|[Hc|[Hc Hnil]]]; [congruence|lia|].
    assert (num_local = 0 ∧ ext = 0) as [-> ->] by lia. rewrite Z.add_0_r in *.
    rewrite (fresh_lack id) in Hl |- * by done.
    exists c, l. split; [done|]. split; [done|]. split; [done|]. split; [|lia].
    intros j m Hm. exists m. split; [done|]. split; [done|].
    assert (hit_table m 0 (default [] (xss !! j)) = []) as ->; [|apply prefix_nil].
    apply zlen_zero. rewrite hit_table_len. destruct (Hr m (list_elem_of_lookup_2 _ _ _ Hm)) as [_ Hb Hs].
    specialize (Hs 0 ltac:(lia)).
    assert (get_num_skipped_tokens m 0 / mgr_block_size m ≤ 0) by (apply Z.div_le_upper_bound; lia).
    destruct (xss !! j) as [xs|] eqn:E; simpl; [|unfold zlen; simpl; lia].
    rewrite (Forall_lookup_1 _ _ _ _ Hnil E). unfold zlen. simpl. lia.
Qed.

(** What is known of the hits survives the removal of skipped blocks. *)
Lemma hits_progress id ms ms' N N' xss num_local :
  Forall2 (same_progress id) ms ms' → N' = N →
  hits_ok N ms xss → may_hit ms xss → hits_within ms xss num_local →
  hits_ok N' ms' xss ∧ may_hit ms' xss ∧ hits_within ms' xss num_local.
Proof.
  intros HF -> [Hl Hg] Hmay Hw. split; [split; [|done]; by rewrite <-(Forall2_length _ _ _ HF)|]. split.
  - destruct Hmay as [H|H]; [left|by right]. intros m' (j & Hj)%list_elem_of_lookup.
    destruct (Forall2_lookup_r _ _ _ _ _ HF Hj) as (m & Hm & (_ & _ & _ & -> & _) & _).
    apply H. by eapply list_elem_of_lookup_2.
  - intros j m' xs Hj Hxs. destruct (Forall2_lookup_r _ _ _ _ _ HF Hj) as (m & Hm & (_ & _ & -> & _) & _).
    by eapply Hw.
Qed.

(** The hits stay in front of the tables: after the removal ([ms1]), after adding
    the hits ([ms2]) and after the allocation ([ms3]). *)
Lemma hits_kept id total (xss : list (list nat)) ms ms1 ms2 ms3 j m3 :
  Forall2 (same_progress id) ms ms1 →
  (∀ j m2, ms2 !! j = Some m2 → ∃ m1, ms1 !! j = Some m1 ∧ same_kind m1 m2 ∧
     hit_table m1 total (default [] (xss !! j)) `prefix_of` req_blocks m2 id) →
  Forall2 (grown id) ms2 ms3 → ms3 !! j = Some m3 →
  ∃ m, ms !! j = Some m ∧ same_kind m m3 ∧ hit_table m3 total (default [] (xss !! j)) `prefix_of` req_blocks m3 id.
Proof.
  intros HF Hm2 Hg Hj. destruct (Forall2_lookup_r _ _ _ _ _ Hg Hj) as (m2 & Hj2 & Hk3 & Hpre3).
  destruct (Hm2 j m2 Hj2) as (m1 & Hj1 & Hk2 & Hpre2).
  destruct (Forall2_lookup_r _ _ _ _ _ HF Hj1) as (m & Hm & Hk1 & _).
  assert (same_kind m1 m3) as Hk13 by (by etransitivity).
  exists m. split; [done|]. split; [by etransitivity|].
  assert (hit_table m3 total (default [] (xss !! j)) = hit_table m1 total (default [] (xss !! j))) as ->.
  { unfold hit_table. rewrite (same_kind_skipped m1 m3) by done. by destruct Hk13 as (_ & _ & -> & _). }
  by etransitivity.
Qed.

(** C1: for a request scheduled for the first time (or after a preemption), with
    prefix hits, external tokens or neither, within the model length and with the
    hits among the computed tokens, over any number of full-attention,
    sliding-window and chunked-local groups: [allocate_slots] never fails before
    caching.  It grants if and only if the admission gate, when asked for, finds
    room for the whole sequence, and the blocks predicted for this step are free
    besides the watermark and the reserved blocks.  Refused, it has at most given
    back skipped blocks.  A grant keeps the hits of every group (skipped blocks
    as null blocks) in front of its table, covers all tokens that need a slot,
    leaves the reserved and watermark blocks free, and keeps every reference
    count equal to the number of table entries, so no group's allocation can
    take a hit of another group. *)
Theorem new_request_slots sha k r n a l xss :
  let c := coordinator k in let id := request_id r in
  let wm := applied_watermark k r (sa_has_scheduled_reqs a) in
  let total := num_computed_tokens r + sa_num_new_computed_tokens a + sa_num_external_computed_tokens a in
  coord_ready c → coord_owns c l → new_request_call k r n a xss →
  ∃ full c1 l1 res k2 l2, slots_view k r a total l full c1 l1 ∧
    allocate_slots sha k r n a = slots_result sha k2 r a (tokens_committed k r n a) res ∧
    coord_owns (coordinator k2) l2 ∧
    (is_Some res ↔ slots_fit k r a l l1 full
       (costs (predicted xss total (slots_needed k r n a) l1) 0 (single_type_managers c1))) ∧
    match res with
    | None => (k2 = k ∨ k2 = set_coordinator c1 k) ∧ zlen l ≤ zlen l2
    | Some _ => covers id (slots_needed k r n a) (coordinator k2) ∧ wm + sa_reserved_blocks a ≤ zlen l2 ∧
        ∀ j m', single_type_managers (coordinator k2) !! j = Some m' →
          ∃ m, single_type_managers c !! j = Some m ∧ same_kind m m' ∧
               hit_table m' total (default [] (xss !! j)) `prefix_of` req_blocks m' id
    end.
Proof.
  intros c id wm total Hr Ho Hnr. pose proof Hnr as [Hu Eh Hx Hmay Hw Hnl Hne Hlen (Hn0 & Hn1 & Hla) _ Hwm Hres].
  pose proof (watermark_nonneg k r (sa_has_scheduled_reqs a) Hwm) as Hwm'. fold wm in Hwm'.
  set (num_local := num_computed_tokens r + sa_num_new_computed_tokens a) in *.
  set (ext := sa_num_external_computed_tokens a) in *. fold c in Hu, Hx, Hmay, Hw.
  set (need := slots_needed k r n a).
  assert (Z.min (num_local + ext) (km_max_model_len k) = total) as Etot
    by (rewrite Z.min_l by done; done).
  assert (total ≤ need) as Hneed.
  { unfold need, slots_needed. fold num_local ext. rewrite Etot.
    change (num_local + ext) with total in Hlen. lia. }
  destruct (full_sequence_fits_spec k r a total wm Hr) as (b & full & Hgate & Hfull & Hb).
  { rewrite Eh. unfold brefs. rewrite length_fmap. by destruct Hx. }
  { intros j m bs Hm _. left. apply (Hu m). by eapply list_elem_of_lookup_2. }
  destruct (coord_remove_spec c l id total Hr Ho) as (ms & p & l1 & Hrem & Ho1 & Hcfg & Hl1 & HF).
  set (c1 := set_state ms p c) in *.
  assert (coord_ready c1) as Hr1 by (by eapply same_progress_all_ready).
  assert (∀ m, m ∈ single_type_managers c1 → unknown_request id m) as Hu1 by (by eapply unknown_progress).
  destruct (hits_progress id _ ms (pool_size (block_pool c)) (pool_size p) xss num_local HF) as (Hx1 & Hmay1 & Hw1);
    [by apply same_config_size|done..|].
  pose proof (coord_predict_hits c1 l1 id need xss (sa_num_encoder_tokens a) total (total + n) Hr1 Ho1 Hu1 Hx1) as Hpred.
  rewrite (slots_after_gate sha k r n a c1 c1 (costs (predicted xss total need l1) 0 (single_type_managers c1)) wm b);
    [|apply andb_false_iff; rewrite !Z.eqb_neq; fold ext; lia|done|fold num_local ext; by rewrite Etot
     |fold num_local ext; by rewrite Etot|fold num_local ext; rewrite Etot, Eh; exact Hpred].
  rewrite (free_count _ l) in Hb by apply Ho. rewrite (free_count _ l1) by apply Ho1. exists full, c1, l1.
  eapply (decided (costs (predicted xss total need l1) 0 (single_type_managers c1))); [by split|exact Hb|done..|].
  intros Hge.
  destruct (grant_hits c1 l1 id xss k r n a need num_local ext) as (c2 & l2 & Hhits & Ho2 & Hr2 & Hm2 & Hl2);
    [done..|intros _; exact Hneed|done|done|done| |].
  { change (num_local + ext) with total. lia. }
  change (num_local + ext) with total in Hm2, Hl2.
  destruct (grant_tail c2 l2 id need (total + n) (sa_num_encoder_tokens a) Hr2 Ho2)
    as (news & c3 & l3 & Halloc & Ho3 & Hl3 & Hcov & Hg); [lia|].
  exists (create_kv_cache_blocks k news), (set_coordinator c3 k), l3.
  split; [|split; [done|split; [done|split; [lia|]]]].
  - fold ext num_local need. rewrite Etot. unfold tokens_committed. fold num_local ext. rewrite Etot.
    apply (grant_result sha k r a num_local total n need (total + n) c1 c2 c3 news); [by rewrite Eh|done].
  - intros j m3 Hj. by eapply (hits_kept id total xss _ ms (single_type_managers c2)).
Qed.

(** ** Examples *)

#[local] Opaque demo_used demo_pool.

Definition demo_groups2 : list KVCacheGroupSpec :=
  [mkGroup ["full"] (mgr_spec demo_manager) false; mkGroup ["swa"] demo_window false].
Definition demo_coordinator (ms : list SingleTypeKVCacheManager) (p : BlockPool) : KVCacheCoordinator :=
  mkCoordinator HybridKVCacheCoordinator (mkKVConfig 4 demo_groups2) 64 true 2 p [] ms None 0 1 1 2 [] 0.
Definition demo_km (ms : list SingleTypeKVCacheManager) (p : BlockPool) : KVCacheManager :=
  mkKVCacheManager 64 true false None (demo_coordinator ms p) (length ms) 0 [].

Lemma demo_full_window : window_manager demo_manager.
Proof. split; [done|done|]. intros t Ht. done. Qed.

Lemma demo_swa_window : window_manager demo_swa_manager.
Proof. split; [done|done|]. intros t Ht. unfold get_num_skipped_tokens. simpl. lia. Qed.

Lemma demo_two_owns : coord_owns (demo_coordinator [demo_manager; demo_swa_manager] demo_pool) [1; 2; 3]%nat.
Proof.
  pose proof (demo_idle_owns demo_manager eq_refl) as Ho. split.
  - apply demo_pool_inv.
  - done.
  - intros x Hx. pose proof (own_ref _ _ _ _ Ho x Hx) as H. cbn [block_pool demo_coordinator]. rewrite H. done.
  - intros m Hm id bs Hid. apply elem_of_cons in Hm as [->|Hm%list_elem_of_singleton]; [done|by subst].
Qed.

Definition demo_hit_args : slot_args :=
  mkSlotArgs 2 (Some (NewKVCacheBlocks [[BId 1]; [BId 2]])) 0 0 true 0 false 0 true.

Lemma demo_call :
  new_request_call (demo_km [demo_manager; demo_swa_manager] demo_pool) demo_request 1 demo_hit_args
    [[1]; [2]]%nat.
Proof.
  split; try done.
  - intros m Hm. apply elem_of_cons in Hm as [->|Hm%list_elem_of_singleton]; [done|by subst].
  - split; [done|]. assert (∀ x : nat, (x < 4)%nat → good_hits 4 [x]) as H.
    { intros x Hx. split; [intros y ->%list_elem_of_singleton; done|apply NoDup_filter, NoDup_singleton]. }
    change (pool_size _) with 4%nat. apply Forall_cons; split; [apply H; lia|].
    apply Forall_cons; split; [apply H; lia|done].
  - left. intros m Hm. apply elem_of_cons in Hm as [->|Hm%list_elem_of_singleton]; [done|by subst].
  - intros [|[|j]] m xs Hm Hxs; simplify_eq/=; by vm_compute.
  - by left.
Qed.

Lemma new_request_slots_witness :
  let k := demo_km [demo_manager; demo_swa_manager] demo_pool in
  let a := demo_hit_args in let r := demo_request in
  ∃ full c1 l1 res k2 l2, slots_view k r a 2 [1; 2; 3]%nat full c1 l1 ∧
    allocate_slots demo_sha k r 1 a = slots_result demo_sha k2 r a (tokens_committed k r 1 a) res ∧
    coord_owns (coordinator k2) l2 ∧
    (is_Some res ↔ slots_fit k r a [1; 2; 3]%nat l1 full
       (costs (predicted [[1]; [2]]%nat 2 (slots_needed k r 1 a) l1) 0 (single_type_managers c1))) ∧
    match res with
    | None => (k2 = k ∨ k2 = set_coordinator c1 k) ∧ zlen [1; 2; 3]%nat ≤ zlen l2
    | Some _ => covers (request_id r) (slots_needed k r 1 a) (coordinator k2) ∧
        applied_watermark k r (sa_has_scheduled_reqs a) + sa_reserved_blocks a ≤ zlen l2 ∧
        ∀ j m', single_type_managers (coordinator k2) !! j = Some m' →
          ∃ m, single_type_managers (coordinator k) !! j = Some m ∧ same_kind m m' ∧
               hit_table m' 2 (default [] ([[1]; [2]]%nat !! j)) `prefix_of` req_blocks m' (request_id r)
    end.
Proof.
  apply (new_request_slots demo_sha (demo_km [demo_manager; demo_swa_manager] demo_pool) demo_request 1
           demo_hit_args [1; 2; 3]%nat [[1]; [2]]%nat).
  - intros m Hm. apply elem_of_cons in Hm as [->|Hm%list_elem_of_singleton].
    + apply demo_full_window.
    + subst. apply demo_swa_window.
  - apply demo_two_owns.
  - apply demo_call.
Defined.

Definition demo_run_args : slot_args := mkSlotArgs 0 None 0 0 true 0 false 0 true.

Lemma demo_one_owns : coord_owns (demo_coordinator [running demo_manager] demo_used) [3]%nat.
Proof.
  pose proof (demo_running_owns demo_manager eq_refl) as Ho. split.
  - apply demo_used_inv.
  - done.
  - intros x Hx. pose proof (own_ref _ _ _ _ Ho x Hx) as H. cbn [block_pool demo_coordinator]. rewrite H.
    change (refs_of x (single_type_managers (demo_coordinator [running demo_manager] demo_used)))
      with (tcount x (req_to_blocks (running demo_manager)) + 0). lia.
  - intros m ->%list_elem_of_singleton. exact (own_tables _ _ _ _ Ho).
Qed.

Lemma running_request_slots_witness :
  let k := demo_km [running demo_manager] demo_used in
  let a := demo_run_args in let r := demo_request in
  ∃ full c1 l1 res k2 l2, slots_view k r a (Z.min (num_computed_tokens r + sa_num_new_computed_tokens a)
      (km_max_model_len k)) [3]%nat full c1 l1 ∧
    allocate_slots demo_sha k r 5 a = slots_result demo_sha k2 r a (tokens_committed k r 5 a) res ∧
    coord_owns (coordinator k2) l2 ∧
    (is_Some res ↔ slots_fit k r a [3]%nat l1 full
       (total_lack (request_id r) (slots_needed k r 5 a) (single_type_managers c1))) ∧
    match res with
    | None => (k2 = k ∨ k2 = set_coordinator c1 k) ∧ zlen [3]%nat ≤ zlen l2
    | Some _ => covers (request_id r) (slots_needed k r 5 a) (coordinator k2) ∧
        applied_watermark k r (sa_has_scheduled_reqs a) + sa_reserved_blocks a ≤ zlen l2
    end.
Proof.
  apply (running_request_slots demo_sha (demo_km [running demo_manager] demo_used) demo_request 5
           demo_run_args [3]%nat).
  - intros m ->%list_elem_of_singleton. eapply same_kind_window; [|apply demo_full_window]. by split_and!.
  - apply demo_one_owns.
  - reflexivity.
  - reflexivity.
  - reflexivity.
  - lia.
  - cbn. lia.
  - cbn. lia.
  - intros m ->%list_elem_of_singleton. left. by eexists.
Defined.
