(* ===== verification/EagleMamba.v ===== *)
(** * Columns of different lengths

    Two combinations of groups for which the columns of the hybrid lookup do not
    agree on the hit length; both are excluded from the theorem about the lookup.

    The hybrid coordinator asks an EAGLE group for one block more than the
    current length and relies on the lookup to drop it again
    ([vllm/v1/core/kv_cache_coordinator.py], [find_longest_cache_hit]).  The
    Mamba lookup takes the flag and ignores it, and unless the model flags its
    own groups every group counts as an EAGLE group.  At the end of the lookup
    only the first kind of full attention is cut to the final length.  This file
    runs the manager on such models. *)

From Stdlib Require Import QArith.
From S2P Require Import Prelude MathUtils KVBlock FreeQueue BlockMap BlockHashList Request BlockHasher BlockPool PrefixCache KVSpecs CacheHit SingleType Coordinator KVManager HybridHit.

#[local] Open Scope Z_scope.

(** Full attention and Mamba in align mode, both with blocks of two tokens. *)
Definition hybrid_config : KVCacheConfig :=
  mkKVConfig 20
    [mkGroup ["attn"] (FullAttentionSpec demo_attn (mkFull 8 None None false)) false;
     mkGroup ["mamba"] (MambaSpec demo_mamba) false].

Definition hybrid_km (use_eagle : bool) : result KVCacheManager :=
  init_kv_cache_manager hybrid_config 64 2 2 (Some 64) true use_eagle false false 1 1 0%Q None false.

Definition prompt_request (id : string) (toks : list Z) : result Request :=
  new_request (Some (request_block_hasher demo_sha ToyHash.hash [0] 2)) id 0 (Some toks)
    (Some demo_sampling) None 0 0 None [] None None 0 false false false.

(** Request A schedules the first four tokens of its prompt; request B shares
    exactly these.  The result is the number of blocks B gets per group, and the
    number of its tokens taken as computed. *)
Definition shared_prefix_run (use_eagle : bool) : result (list Z * Z) :=
  k ← hybrid_km use_eagle;
  a ← prompt_request "A" [1; 2; 3; 4; 5; 6; 7];
  b ← prompt_request "B" [1; 2; 3; 4; 8; 8; 8];
  '(_, _, k) ← get_computed_blocks k a;
  '(_, k, a) ← allocate_slots demo_sha k a 4 default_slot_args;
  '(bs, n, k) ← get_computed_blocks k b;
  Ok (zlen <$> kvb_blocks bs, n).

(** With EAGLE, a request that shares a cached prefix of two blocks with the
    full-attention and Mamba layers of a hybrid model is told that four tokens
    are computed while its full-attention group gets the block of two tokens
    only; without EAGLE both groups get two blocks.  Full attention dropped its
    lookahead block, the Mamba lookup was given a longer limit but dropped
    nothing, so the length grew back. *)
Theorem eagle_mamba_hit_mismatch :
  shared_prefix_run false = Ok ([2; 2], 4) ∧ shared_prefix_run true = Ok ([1; 2], 4).
Proof. split; vm_compute; reflexivity. Qed.

(** Two kinds of full attention, with different value sizes, beside a sliding
    window of three tokens. *)
Definition two_full_config : KVCacheConfig :=
  mkKVConfig 20
    [mkGroup ["full"] (FullAttentionSpec demo_attn (mkFull 8 None None false)) false;
     mkGroup ["full2"] (FullAttentionSpec demo_attn (mkFull 16 None None false)) false;
     mkGroup ["swa"] (SlidingWindowSpec demo_attn 3 8) false].

(** Request A fills eight tokens; the block of its last two tokens in the window
    group is evicted; request B shares the first eight tokens. *)
Definition two_full_run : result (list Z * Z) :=
  k ← init_kv_cache_manager two_full_config 64 2 2 (Some 64) true false false false 1 1 0%Q None false;
  a ← prompt_request "A" [1; 2; 3; 4; 5; 6; 7; 8; 9];
  b ← prompt_request "B" [1; 2; 3; 4; 5; 6; 7; 8; 10];
  '(_, _, k) ← get_computed_blocks k a;
  '(_, k, a) ← allocate_slots demo_sha k a 9 default_slot_args;
  k ← km_evict_blocks k [14];
  '(bs, n, k) ← get_computed_blocks k b;
  Ok (zlen <$> kvb_blocks bs, n).

(** Only the first kind of full attention is cut to the final length: when the
    window group shortens the hit to six tokens, the second one keeps the block
    of tokens six and seven. *)
Theorem second_full_group_not_cut : two_full_run = Ok ([3; 4; 3], 6).
Proof. vm_compute. reflexivity. Qed.
