(* ===== verification/EncoderCache.v ===== *)
(** * The encoder cache

    [EncoderCacheManager], [EncoderDecoderCacheManager] and
    [compute_mm_encoder_budget] ([vllm/v1/core/encoder_cache_manager.py]): the
    accounting for cached outputs of multimodal encoders.  An entry is shared by
    the requests that use the same input; entries no request uses stay until
    their space is needed, oldest first. *)

From S2P Require Import Prelude OrderedDict Request.

#[local] Open Scope Z_scope.

(** ** The cache of multimodal models *)

Record EncoderCacheManager := mkEnc {
  cache_size : Z;
  num_free_slots : Z;
  num_freeable_slots : Z;
  cached : gmap string (gset string);
  request_cached_ids : gmap string (gset nat);
  freeable : list (string * Z);
  enc_freed : list string;
}.

Definition init_encoder_cache (n : Z) : EncoderCacheManager := mkEnc n n n ∅ ∅ [] [].

Definition enc_reset (e : EncoderCacheManager) : EncoderCacheManager :=
  mkEnc (cache_size e) (cache_size e) (cache_size e) ∅ ∅ [] [].

(** [request.mm_features[input_id].identifier] *)
Definition mm_hash_of (r : Request) (input_id : nat) : result string :=
  match mm_features r !! input_id with Some f => Ok (identifier f) | None => Raise IndexError end.

(** [self.request_cached_ids.setdefault(id, set()).add(i)] *)
Definition add_cached_id (id : string) (i : nat) (m : gmap string (gset nat)) : gmap string (gset nat) :=
  <[id := {[i]} ∪ default ∅ (m !! id)]> m.

Definition check_and_update_cache (e : EncoderCacheManager) (r : Request) (input_id : nat)
    : result (bool * EncoderCacheManager) :=
  h ← mm_hash_of r input_id;
  match cached e !! h with
  | None => Ok (false, e)
  | Some refs =>
      '(frees, num_freeable) ←
        (if decide (refs = ∅) then
           match od_get (freeable e) h with
           | None => Raise KeyError
           | Some n => Ok (od_del (freeable e) h, num_freeable_slots e - n)
           end
         else Ok (freeable e, num_freeable_slots e));
      Ok (true, mkEnc (cache_size e) (num_free_slots e) num_freeable
                  (<[h := {[request_id r]} ∪ refs]> (cached e))
                  (add_cached_id (request_id r) input_id (request_cached_ids e)) frees (enc_freed e))
  end.

(** [while num_embeds > self.num_free_slots]: evict the oldest entry. *)
Fixpoint evict_loop (frees : list (string * Z)) (num_embeds : Z) (e : EncoderCacheManager)
    : result EncoderCacheManager :=
  if num_embeds <=? num_free_slots e then Ok e else
  match frees with
  | [] => Raise KeyError
  | (h, n) :: frees =>
      match cached e !! h with
      | None => Raise KeyError
      | Some _ =>
          evict_loop frees num_embeds
            (mkEnc (cache_size e) (num_free_slots e + n) (num_freeable_slots e) (delete h (cached e))
               (request_cached_ids e) frees (enc_freed e ++ [h]))
      end
  end.

Definition can_allocate (e : EncoderCacheManager) (r : Request) (input_id : nat)
    (encoder_compute_budget num_embeds_to_schedule : Z) : result (bool * EncoderCacheManager) :=
  num_embeds ← get_num_encoder_embeds r input_id;
  if encoder_compute_budget <? num_embeds then Ok (false, e) else
  let num_embeds := num_embeds + num_embeds_to_schedule in
  if num_embeds <=? num_free_slots e then Ok (true, e) else
  if num_freeable_slots e <? num_embeds then Ok (false, e) else
  e ← evict_loop (freeable e) num_embeds e;
  Ok (true, e).

Definition enc_allocate (e : EncoderCacheManager) (r : Request) (input_id : nat)
    : result EncoderCacheManager :=
  h ← mm_hash_of r input_id;
  n ← get_num_encoder_embeds r input_id;
  _ ← py_assert (n <=? num_free_slots e);
  _ ← py_assert (n <=? num_freeable_slots e);
  Ok (mkEnc (cache_size e) (num_free_slots e - n) (num_freeable_slots e - n)
        (<[h := {[request_id r]} ∪ default ∅ (cached e !! h)]> (cached e))
        (add_cached_id (request_id r) input_id (request_cached_ids e)) (freeable e) (enc_freed e)).

Definition get_cached_input_ids (e : EncoderCacheManager) (r : Request) : gset nat :=
  default ∅ (request_cached_ids e !! request_id r).

(** [discard] and the removal of an empty set. *)
Definition drop_cached_id (id : string) (i : nat) (m : gmap string (gset nat)) : gmap string (gset nat) :=
  match m !! id with
  | None => m
  | Some s => if decide (s ∖ {[i]} = ∅) then delete id m else <[id := s ∖ {[i]}]> m
  end.

Definition free_encoder_input (e : EncoderCacheManager) (r : Request) (input_id : nat)
    : result EncoderCacheManager :=
  h ← mm_hash_of r input_id;
  let ids := drop_cached_id (request_id r) input_id (request_cached_ids e) in
  let refs := default ∅ (cached e !! h) in
  let same := mkEnc (cache_size e) (num_free_slots e) (num_freeable_slots e) (cached e) ids
                (freeable e) (enc_freed e) in
  if decide (refs = ∅) then Ok same else
  let refs := refs ∖ {[request_id r]} in
  if decide (refs = ∅) then
    n ← get_num_encoder_embeds r input_id;
    Ok (mkEnc (cache_size e) (num_free_slots e) (num_freeable_slots e + n)
          (<[h := refs]> (cached e)) ids (od_set (freeable e) h n) (enc_freed e))
  else
    Ok (mkEnc (cache_size e) (num_free_slots e) (num_freeable_slots e)
          (<[h := refs]> (cached e)) ids (freeable e) (enc_freed e)).

(** [for input_id in list(...)]; [ids] is the set in iteration order. *)
Definition enc_free (e : EncoderCacheManager) (r : Request) (ids : list nat) : result EncoderCacheManager :=
  mfold (λ e i, free_encoder_input e r i) e ids.

Definition get_freed_mm_hashes (e : EncoderCacheManager) : list string * EncoderCacheManager :=
  (enc_freed e, mkEnc (cache_size e) (num_free_slots e) (num_freeable_slots e) (cached e)
                  (request_cached_ids e) (freeable e) []).

(** ** Budgets *)

Record EncoderBudgetConfig := mkEncConfig {
  disable_chunked_mm_input : bool;
  enc_max_num_batched_tokens : Z;
  enc_max_num_encoder_input_tokens : Z;
  encoder_cache_size : Z;
}.

(** [sizes] are the values of [mm_max_toks_per_item]. *)
Definition compute_mm_encoder_budget (c : EncoderBudgetConfig) (sizes : list Z) : result (Z * Z) :=
  match sizes with
  | [] => Ok (0, 0)
  | s :: rest =>
      let m := foldl Z.max s rest in
      if disable_chunked_mm_input c && (enc_max_num_batched_tokens c <? m) then Raise ValueError
      else Ok (Z.max (enc_max_num_encoder_input_tokens c) m, Z.max (encoder_cache_size c) m)
  end.

(** ** Encoder-decoder models *)

Record EncoderDecoderCacheManager := mkEncDec {
  ed_cache_size : Z;
  ed_num_free_slots : Z;
  allocated : list string;
  to_free : list string;
}.

Definition init_encoder_decoder (n : Z) : EncoderDecoderCacheManager := mkEncDec n n [] [].
Definition ed_reset (e : EncoderDecoderCacheManager) := mkEncDec (ed_cache_size e) (ed_cache_size e) [] [].
Definition ed_check_and_update_cache (e : EncoderDecoderCacheManager) : bool := false.

Definition ed_can_allocate (e : EncoderDecoderCacheManager) (r : Request) (input_id : nat)
    (encoder_compute_budget num_embeds_to_schedule : Z) : result bool :=
  n ← get_num_encoder_embeds r input_id;
  Ok (if encoder_compute_budget <? n then false
      else n + num_embeds_to_schedule <=? ed_num_free_slots e).

Definition ed_allocate (e : EncoderDecoderCacheManager) (r : Request) (input_id : nat)
    : result EncoderDecoderCacheManager :=
  n ← get_num_encoder_embeds r input_id;
  h ← mm_hash_of r input_id;
  Ok (mkEncDec (ed_cache_size e) (ed_num_free_slots e - n) (allocated e ++ [h]) (to_free e)).

Definition ed_free_encoder_input (e : EncoderDecoderCacheManager) (r : Request) (input_id : nat)
    : result EncoderDecoderCacheManager :=
  n ← get_num_encoder_embeds r input_id;
  Ok (mkEncDec (ed_cache_size e) (ed_num_free_slots e + n) (allocated e) (to_free e)).

Definition ed_free (e : EncoderDecoderCacheManager) (r : Request) : result EncoderDecoderCacheManager :=
  mfold (λ e i, ed_free_encoder_input e r i) e (seq 0 (length (mm_features r))).

Definition ed_get_cached_input_ids (r : Request) : list nat := seq 0 (length (mm_features r)).

Definition ed_get_freed_mm_hashes (e : EncoderDecoderCacheManager) : list string * EncoderDecoderCacheManager :=
  (to_free e, mkEncDec (ed_cache_size e) (ed_num_free_slots e) [] (allocated e)).

(** ** Accounting *)

Section accounting.
(** The number of embeddings of an input, by its hash. *)
Context (size : string → Z).

Definition held_size (m : gmap string (gset string)) : Z := map_fold (λ h _ a, size h + a) 0 m.
Definition freeable_size (l : list (string * Z)) : Z := foldr (λ p a, p.2 + a) 0 l.

Record enc_inv (e : EncoderCacheManager) : Prop := {
  ei_size : ∀ h, 0 ≤ size h;
  ei_nodup : NoDup (freeable e).*1;
  ei_freeable : ∀ h n, (h, n) ∈ freeable e ↔ cached e !! h = Some ∅ ∧ n = size h;
  ei_held : num_free_slots e + held_size (cached e) = cache_size e;
  ei_slots : num_freeable_slots e = num_free_slots e + freeable_size (freeable e);
  ei_nonneg : 0 ≤ num_free_slots e;
}.

(** The inputs of a request have the sizes of their hashes. *)
Definition sized (r : Request) : Prop :=
  ∀ i f, mm_features r !! i = Some f → get_num_embeds (mm_position f) = size (identifier f).

Lemma held_delete m h s : m !! h = Some s → held_size m = size h + held_size (delete h m).
Proof.
  intros H. unfold held_size. rewrite (map_fold_delete_L _ _ h s m); [done| |done]. intros. lia.
Qed.

Lemma held_insert_new m h s : m !! h = None → held_size (<[h := s]> m) = size h + held_size m.
Proof. intros H. rewrite (held_delete _ h s) by apply lookup_insert_eq. by rewrite delete_insert_id. Qed.

Lemma held_insert_old m h s s' : m !! h = Some s → held_size (<[h := s']> m) = held_size m.
Proof.
  intros H. rewrite (held_delete _ h s') by apply lookup_insert_eq. rewrite delete_insert_eq.
  by rewrite (held_delete m h s).
Qed.

Lemma held_nonneg m : (∀ h, 0 ≤ size h) → 0 ≤ held_size m.
Proof.
  intros Hs. unfold held_size. apply (map_fold_weak_ind (λ a _, 0 ≤ a)); [done|].
  intros h ? ? a _ Ha. specialize (Hs h). lia.
Qed.

Lemma freeable_del l h n :
  NoDup l.*1 → (h, n) ∈ l → freeable_size l = n + freeable_size (od_del l h).
Proof.
  unfold od_del. induction l as [|[h' n'] l IH]; intros Hnd Hin; [by apply elem_of_nil in Hin|].
  apply NoDup_cons in Hnd as [Hni Hnd]. simpl in Hni. apply elem_of_cons in Hin as [[= <- <-]|Hin].
  - rewrite filter_cons_False by (simpl; tauto). simpl. f_equal. f_equal. symmetry.
    by apply od_del_absent.
  - assert (h' ≠ h) by (intros ->; apply Hni, list_elem_of_fmap; by exists (h, n)).
    rewrite filter_cons_True by done. simpl. rewrite IH by done. lia.
Qed.

Lemma freeable_app l1 l2 : freeable_size (l1 ++ l2) = freeable_size l1 + freeable_size l2.
Proof. unfold freeable_size. induction l1 as [|p l1 IH]; simpl in *; [done|]. lia. Qed.

Lemma freeable_nonneg l : (∀ h n, (h, n) ∈ l → 0 ≤ n) → 0 ≤ freeable_size l.
Proof.
  induction l as [|[h n] l IH]; intros H; simpl; [done|].
  pose proof (H h n ltac:(set_solver)). assert (0 ≤ freeable_size l) by (apply IH; set_solver). lia.
Qed.

Lemma inv_freeable_nonneg e : enc_inv e → 0 ≤ freeable_size (freeable e).
Proof.
  intros He. apply freeable_nonneg. intros h n Hin. apply (ei_freeable _ He) in Hin as [_ ->]. apply He.
Qed.

Lemma init_inv n : (∀ h, 0 ≤ size h) → 0 ≤ n → enc_inv (init_encoder_cache n).
Proof.
  intros Hs Hn. split; simpl; try done; [constructor| |by unfold held_size; rewrite map_fold_empty; lia|lia].
  intros h m. split; [by intros ?%elem_of_nil|]. by rewrite lookup_empty; intros [[=] _].
Qed.

(** *** Eviction *)

Lemma evict_loop_spec e n :
  enc_inv e → n ≤ num_freeable_slots e →
  ∃ e' k, evict_loop (freeable e) n e = Ok e' ∧ enc_inv e' ∧ n ≤ num_free_slots e' ∧
    num_freeable_slots e' = num_freeable_slots e ∧ request_cached_ids e' = request_cached_ids e ∧
    cache_size e' = cache_size e ∧
    freeable e' = drop k (freeable e) ∧ enc_freed e' = enc_freed e ++ take k (freeable e).*1 ∧
    (∀ h, cached e' !! h = if decide (h ∈ take k (freeable e).*1) then None else cached e !! h) ∧
    (k = 0%nat ∨ num_free_slots e + freeable_size (take (k - 1) (freeable e)) < n).
Proof.
  remember (freeable e) as l eqn:El. revert e El. induction l as [|[h m] l IH]; intros e El He Hn; cbn [evict_loop].
  all: destruct (Z.leb_spec n (num_free_slots e)) as [Hle|Hgt];
    [exists e, 0%nat; rewrite take_0, app_nil_r, drop_0;
     do 8 (split; [done|]); split; [intros h'; by rewrite decide_False by apply not_elem_of_nil|by left]|].
  - exfalso. pose proof (ei_slots _ He) as Hs. rewrite <-El in Hs. simpl in Hs. lia.
  - pose proof He as [Hsz Hnd Hfr Hheld Hsl Hnn]. rewrite <-El in Hnd, Hfr, Hsl.
    destruct (proj1 (Hfr h m) ltac:(set_solver)) as [Hc Hm]. rewrite Hc.
    apply NoDup_cons in Hnd as [Hni Hnd]. simpl in Hni, Hsl.
    set (e1 := mkEnc _ _ _ _ _ _ _).
    assert (enc_inv e1) as He1.
    { split; simpl; try done.
      - intros h' n'. rewrite lookup_delete_Some. split.
        + intros Hin. destruct (proj1 (Hfr h' n') ltac:(set_solver)) as [H1 H2]. split; [|done]. split; [|done].
          intros <-. apply Hni, list_elem_of_fmap. by exists (h, n').
        + intros [[Hne Hc'] Hn']. destruct (proj1 (elem_of_cons l (h', n') (h, m)) (proj2 (Hfr h' n') (conj Hc' Hn')))
            as [[= ??]|?]; [congruence|done].
      - rewrite (held_delete _ h ∅ Hc) in Hheld. lia.
      - lia.
      - specialize (Hsz h). lia. }
    destruct (IH e1) as (e' & k & Hrun & He' & Hn' & Hfs & Hids & Hcs & Hfe & Hfd & Hca & Hmin); [done|done|done|].
    exists e', (S k). split; [done|]. split; [done|]. split; [done|]. split; [done|]. split; [done|]. split; [done|].
    split; [done|]. split; [|split].
    + rewrite Hfd. simpl. by rewrite <-app_assoc.
    + intros h'. rewrite Hca. simpl. destruct (decide (h' = h)) as [->|Hne].
      * rewrite lookup_delete_eq. destruct (decide (h ∈ h :: _)) as [_|[]]; [by case_decide|set_solver].
      * rewrite lookup_delete_ne by done. repeat case_decide; set_solver.
    + right. replace (S k - 1)%nat with k by lia. destruct k as [|k]; [simpl; lia|].
      destruct Hmin as [?|Hmin]; [done|]. replace (S k - 1)%nat with k in Hmin by lia.
      cbn [take freeable_size foldr fst snd num_free_slots] in Hmin |- *.
      fold (freeable_size (take k l)) in *. unfold e1 in Hmin. cbn [num_free_slots] in Hmin. lia.
Qed.

(** *** The operations *)

Lemma freeable_get e h n :
  enc_inv e → od_get (freeable e) h = Some n ↔ cached e !! h = Some ∅ ∧ n = size h.
Proof. intros He. rewrite od_get_elem by apply He. apply He. Qed.

Lemma od_del_elem (l : list (string * Z)) h h' n : (h', n) ∈ od_del l h ↔ h' ≠ h ∧ (h', n) ∈ l.
Proof. unfold od_del. by rewrite list_elem_of_filter. Qed.

(** A request that takes a reference to an entry pins it. *)
Lemma check_spec e r i f :
  enc_inv e → mm_features r !! i = Some f →
  ∃ e', check_and_update_cache e r i = Ok (bool_decide (is_Some (cached e !! identifier f)), e') ∧
    enc_inv e' ∧ num_free_slots e' = num_free_slots e ∧ enc_freed e' = enc_freed e ∧
    (∀ h, cached e' !! h = (λ refs, if decide (h = identifier f) then {[request_id r]} ∪ refs else refs)
                             <$> cached e !! h) ∧
    cache_size e' = cache_size e ∧
    request_cached_ids e' = (if decide (is_Some (cached e !! identifier f))
      then add_cached_id (request_id r) i (request_cached_ids e) else request_cached_ids e).
Proof.
  intros He Hf. pose proof He as [Hsz Hnd Hfr Hheld Hsl Hnn].
  unfold check_and_update_cache, mm_hash_of. rewrite Hf. simpl. set (h := identifier f).
  destruct (cached e !! h) as [refs|] eqn:Hc.
  2:{ exists e. rewrite bool_decide_false, decide_False by (intros [? ?]; done). split_and!; try done.
      intros h'. destruct (decide (h' = h)) as [->|]; [by rewrite Hc|by destruct (cached e !! h')]. }
  assert (is_Some (Some refs)) as Hsome by done. rewrite bool_decide_true, (decide_True (P:=is_Some (Some refs))) by done.
  assert (∀ h', (<[h:={[request_id r]} ∪ refs]> (cached e)) !! h' =
    (λ refs0, if decide (h' = h) then {[request_id r]} ∪ refs0 else refs0) <$> cached e !! h') as Hl.
  { intros h'. destruct (decide (h' = h)) as [->|Hne].
    - by rewrite lookup_insert_eq, Hc.
    - rewrite lookup_insert_ne by done. by destruct (cached e !! h'). }
  assert ({[request_id r]} ∪ refs ≠ ∅) as Hne by set_solver.
  destruct (decide (refs = ∅)) as [->|Hrefs].
  - rewrite (proj2 (freeable_get e h (size h) He)) by done. simpl. eexists. split; [done|].
    assert ((h, size h) ∈ freeable e) as Hin by by apply Hfr.
    split; [|done]. split; simpl; try done.
    + by apply od_del_nodup.
    + intros h' n. rewrite od_del_elem, Hfr. destruct (decide (h' = h)) as [->|Hd].
      * rewrite lookup_insert_eq. clear -Hne. naive_solver.
      * rewrite lookup_insert_ne by done. naive_solver.
    + by rewrite (held_insert_old _ _ ∅).
    + rewrite (freeable_del _ h (size h)) in Hsl by done. lia.
  - simpl. eexists. split; [done|]. split; [|done]. split; simpl; try done.
    + intros h' n. rewrite Hfr. destruct (decide (h' = h)) as [->|Hd].
      * rewrite lookup_insert_eq, Hc. clear -Hne Hrefs. naive_solver.
      * by rewrite lookup_insert_ne.
    + by rewrite (held_insert_old _ _ refs).
Qed.

Lemma free_input_spec e r i f :
  enc_inv e → sized r → mm_features r !! i = Some f →
  ∃ e', free_encoder_input e r i = Ok e' ∧ enc_inv e' ∧ num_free_slots e' = num_free_slots e ∧
    enc_freed e' = enc_freed e ∧
    (∀ h, cached e' !! h = (λ refs, if decide (h = identifier f) then refs ∖ {[request_id r]} else refs)
                             <$> cached e !! h) ∧
    cache_size e' = cache_size e ∧
    request_cached_ids e' = drop_cached_id (request_id r) i (request_cached_ids e).
Proof.
  intros He Hr Hf. pose proof He as [Hsz Hnd Hfr Hheld Hsl Hnn].
  unfold free_encoder_input, mm_hash_of. rewrite Hf. simpl. set (h := identifier f).
  destruct (decide (default ∅ (cached e !! h) = ∅)) as [E|E].
  { eexists. split; [done|]. split_and!; try done. intros h'. simpl. destruct (decide (h' = h)) as [->|].
    - destruct (cached e !! h) as [refs|]; simpl in *; [|done]. f_equal. set_solver.
    - by destruct (cached e !! h'). }
  destruct (cached e !! h) as [refs|] eqn:Hc; [simpl in E|by destruct E]. simpl.
  assert (∀ h', (<[h:=refs ∖ {[request_id r]}]> (cached e)) !! h' =
    (λ refs0, if decide (h' = h) then refs0 ∖ {[request_id r]} else refs0) <$> cached e !! h') as Hl.
  { intros h'. destruct (decide (h' = h)) as [->|Hne].
    - by rewrite lookup_insert_eq, Hc.
    - rewrite lookup_insert_ne by done. by destruct (cached e !! h'). }
  destruct (decide (refs ∖ {[request_id r]} = ∅)) as [E'|E'].
  - unfold get_num_encoder_embeds. rewrite Hf. simpl. rewrite (Hr _ _ Hf). fold h.
    assert (h ∉ (freeable e).*1) as Hfresh.
    { intros Hin. apply list_elem_of_fmap in Hin as ([h' n] & -> & Hin). apply Hfr in Hin as [Hin _].
      simpl in Hc. naive_solver. }
    rewrite od_set_fresh by done. eexists. split; [done|]. split; [|done]. split; simpl; try done.
    + rewrite fmap_app. simpl. rewrite <-Permutation_cons_append. by apply NoDup_cons.
    + intros h' n. rewrite elem_of_app, list_elem_of_singleton, Hfr, E'.
      destruct (decide (h' = h)) as [->|Hd].
      * rewrite lookup_insert_eq, Hc. naive_solver.
      * rewrite lookup_insert_ne by done. naive_solver.
    + by rewrite (held_insert_old _ _ refs).
    + rewrite freeable_app. simpl. lia.
  - eexists. split; [done|]. split; [|done]. split; simpl; try done.
    + intros h' n. rewrite Hfr. destruct (decide (h' = h)) as [->|Hd].
      * rewrite lookup_insert_eq, Hc. naive_solver.
      * by rewrite lookup_insert_ne.
    + by rewrite (held_insert_old _ _ refs).
Qed.

Lemma allocate_spec e r i f :
  enc_inv e → sized r → mm_features r !! i = Some f → cached e !! identifier f = None →
  size (identifier f) ≤ num_free_slots e →
  ∃ e', enc_allocate e r i = Ok e' ∧ enc_inv e' ∧
    num_free_slots e' = num_free_slots e - size (identifier f) ∧ enc_freed e' = enc_freed e ∧
    cached e' = <[identifier f := {[request_id r]}]> (cached e) ∧ cache_size e' = cache_size e ∧
    request_cached_ids e' = add_cached_id (request_id r) i (request_cached_ids e).
Proof.
  intros He Hr Hf Hc Hsp. pose proof He as [Hsz Hnd Hfr Hheld Hsl Hnn].
  unfold enc_allocate, mm_hash_of, get_num_encoder_embeds. rewrite Hf. simpl. rewrite (Hr _ _ Hf).
  pose proof (inv_freeable_nonneg e He).
  rewrite !(proj2 (Z.leb_le _ _)) by lia. simpl. rewrite Hc. simpl. rewrite union_empty_r_L. eexists. split; [done|]. split; [|done].
  split; simpl; try done; try lia.
  - intros h n. rewrite Hfr. destruct (decide (h = identifier f)) as [->|Hd].
    + rewrite lookup_insert_eq, Hc. split; [by intros [? _]|].
      intros [E _]. apply (inj Some) in E. exfalso. set_solver.
    + by rewrite lookup_insert_ne.
  - rewrite held_insert_new by done. lia.
Qed.

Lemma can_allocate_spec e r i f budget pend :
  enc_inv e → sized r → mm_features r !! i = Some f →
  let n := size (identifier f) in
  let fits := bool_decide (n ≤ budget ∧ n + pend ≤ num_freeable_slots e) in
  ∃ e' k, can_allocate e r i budget pend = Ok (fits, e') ∧ enc_inv e' ∧
    cache_size e' = cache_size e ∧ request_cached_ids e' = request_cached_ids e ∧
    num_freeable_slots e' = num_freeable_slots e ∧
    freeable e' = drop k (freeable e) ∧ enc_freed e' = enc_freed e ++ take k (freeable e).*1 ∧
    (∀ h, cached e' !! h = if decide (h ∈ take k (freeable e).*1) then None else cached e !! h) ∧
    (fits = true → n + pend ≤ num_free_slots e') ∧
    (k = 0%nat ∨ fits = true ∧ num_free_slots e + freeable_size (take (k - 1) (freeable e)) < n + pend).
Proof.
  intros He Hr Hf n fits. pose proof He as [Hsz Hnd Hfr Hheld Hsl Hnn].
  pose proof (inv_freeable_nonneg e He).
  unfold can_allocate, get_num_encoder_embeds. rewrite Hf. cbn [mbind result_bind]. rewrite (Hr _ _ Hf). fold n.
  assert (∀ b, fits = b → (b = true → n + pend ≤ num_free_slots e) →
    ∃ e' k, Ok (b, e) = Ok (fits, e') ∧ enc_inv e' ∧
    cache_size e' = cache_size e ∧ request_cached_ids e' = request_cached_ids e ∧
    num_freeable_slots e' = num_freeable_slots e ∧
    freeable e' = drop k (freeable e) ∧ enc_freed e' = enc_freed e ++ take k (freeable e).*1 ∧
    (∀ h, cached e' !! h = if decide (h ∈ take k (freeable e).*1) then None else cached e !! h) ∧
    (fits = true → n + pend ≤ num_free_slots e') ∧
    (k = 0%nat ∨ fits = true ∧ num_free_slots e + freeable_size (take (k - 1) (freeable e)) < n + pend)) as Hsame.
  { intros b -> Hb. exists e, 0%nat. rewrite take_0, app_nil_r, drop_0. split_and!; try done.
    by left. }
  destruct (Z.ltb_spec budget n) as [H1|H1]; [apply Hsame; [apply bool_decide_false; lia|done]|].
  destruct (Z.leb_spec (n + pend) (num_free_slots e)) as [H2|H2];
    [apply Hsame; [apply bool_decide_true; lia|done]|].
  destruct (Z.ltb_spec (num_freeable_slots e) (n + pend)) as [H3|H3];
    [apply Hsame; [apply bool_decide_false; lia|done]|].
  destruct (evict_loop_spec e (n + pend) He H3) as (e' & k & Hrun & He' & Hn' & Hfs & Hids & Hcs & Hfe & Hfd & Hca & Hmin).
  rewrite Hrun. cbn [mbind result_bind]. assert (fits = true) as -> by (apply bool_decide_true; lia).
  exists e', k. split_and!; try done. destruct Hmin; auto.
Qed.
End accounting.

(** ** References of requests *)

Lemma add_cached_id_lookup q i m q' :
  default ∅ (add_cached_id q i m !! q') =
    if decide (q' = q) then {[i]} ∪ default ∅ (m !! q) else default ∅ (m !! q').
Proof.
  unfold add_cached_id. case_decide as E; [subst; by rewrite lookup_insert_eq|by rewrite lookup_insert_ne].
Qed.

Lemma drop_cached_id_lookup q i m q' :
  default ∅ (drop_cached_id q i m !! q') =
    if decide (q' = q) then default ∅ (m !! q) ∖ {[i]} else default ∅ (m !! q').
Proof.
  unfold drop_cached_id. destruct (m !! q) as [s|] eqn:E.
  - case_decide as E1.
    + case_decide as E2; [subst; by rewrite lookup_delete_eq|by rewrite lookup_delete_ne].
    + case_decide as E2; [subst; by rewrite lookup_insert_eq|by rewrite lookup_insert_ne].
  - case_decide as E2; [subst; rewrite E; simpl; set_solver|done].
Qed.

Section references.
(** The multimodal inputs of each request, by request id, and the sizes of the
    inputs, by hash. *)
Context (inputs : string → list MultiModalFeatureSpec) (size : string → Z).

Definition known (r : Request) : Prop := mm_features r = inputs (request_id r) ∧ sized size r.

Definition ids_of (e : EncoderCacheManager) (q : string) : gset nat := default ∅ (request_cached_ids e !! q).

(** Recorded inputs exist, and every reference a request holds is recorded. *)
Record ids_inv (e : EncoderCacheManager) : Prop := {
  ii_range : ∀ q i, i ∈ ids_of e q → (i < length (inputs q))%nat;
  ii_cover : ∀ h refs q, cached e !! h = Some refs → q ∈ refs →
    ∃ i f, i ∈ ids_of e q ∧ inputs q !! i = Some f ∧ identifier f = h;
}.

(** The calls a scheduler may make; it allocates an input only when the lookup
    for it missed. *)
Inductive enc_step (e : EncoderCacheManager) : EncoderCacheManager → Prop :=
  | es_check r i b e' : known r → check_and_update_cache e r i = Ok (b, e') → enc_step e e'
  | es_can r i budget pend b e' : known r → can_allocate e r i budget pend = Ok (b, e') → enc_step e e'
  | es_allocate r i f e' : known r → mm_features r !! i = Some f → cached e !! identifier f = None →
      enc_allocate e r i = Ok e' → enc_step e e'
  | es_free_input r i e' : known r → free_encoder_input e r i = Ok e' → enc_step e e'
  | es_free r ids e' : known r → enc_free e r ids = Ok e' → enc_step e e'
  | es_drain l e' : get_freed_mm_hashes e = (l, e') → enc_step e e'
  | es_reset : enc_step e (enc_reset e).

Inductive enc_reachable (n : Z) : EncoderCacheManager → Prop :=
  | er_init : enc_reachable n (init_encoder_cache n)
  | er_step e e' : enc_reachable n e → enc_step e e' → enc_reachable n e'.

Definition enc_good (n : Z) (e : EncoderCacheManager) : Prop :=
  enc_inv size e ∧ ids_inv e ∧ cache_size e = n.

Lemma ids_add e e' r i f :
  ids_inv e → known r → mm_features r !! i = Some f →
  request_cached_ids e' = add_cached_id (request_id r) i (request_cached_ids e) →
  (∀ h refs q, cached e' !! h = Some refs → q ∈ refs →
     q = request_id r ∧ h = identifier f ∨ ∃ refs0, cached e !! h = Some refs0 ∧ q ∈ refs0) →
  ids_inv e'.
Proof.
  intros [Hr Hc] [Hk _] Hf Hids Hcov. rewrite Hk in Hf.
  assert (∀ q, ids_of e' q = if decide (q = request_id r) then {[i]} ∪ ids_of e (request_id r) else ids_of e q)
    as Hof by (intros q; unfold ids_of; by rewrite Hids, add_cached_id_lookup).
  split.
  - intros q j. rewrite Hof. case_decide as E; [subst|apply Hr].
    rewrite elem_of_union, elem_of_singleton. intros [->|Hj]; [by eapply lookup_lt_Some|by apply Hr].
  - intros h refs q Hh Hq. destruct (Hcov _ _ _ Hh Hq) as [[-> ->]|(refs0 & H0 & Hq0)].
    + exists i, f. rewrite Hof, decide_True by done. set_solver.
    + destruct (Hc _ _ _ H0 Hq0) as (j & g & Hj & Hg & <-). exists j, g. rewrite Hof.
      split; [|done]. case_decide; subst; set_solver.
Qed.

Lemma ids_drop e e' r i f :
  ids_inv e → known r → mm_features r !! i = Some f →
  request_cached_ids e' = drop_cached_id (request_id r) i (request_cached_ids e) →
  (∀ h, cached e' !! h = (λ refs, if decide (h = identifier f) then refs ∖ {[request_id r]} else refs)
                           <$> cached e !! h) →
  ids_inv e'.
Proof.
  intros [Hr Hc] [Hk _] Hf Hids Hcov. rewrite Hk in Hf.
  assert (∀ q, ids_of e' q = if decide (q = request_id r) then ids_of e (request_id r) ∖ {[i]} else ids_of e q)
    as Hof by (intros q; unfold ids_of; by rewrite Hids, drop_cached_id_lookup).
  split.
  - intros q j. rewrite Hof. case_decide; [subst|]; intros; apply Hr; set_solver.
  - intros h refs q Hh Hq. rewrite Hcov in Hh. apply fmap_Some in Hh as (refs0 & H0 & ->).
    assert (q ∈ refs0) as Hq0 by (case_decide; set_solver).
    destruct (Hc _ _ _ H0 Hq0) as (j & g & Hj & Hg & <-). exists j, g. split; [|done]. rewrite Hof.
    destruct (decide (q = request_id r)) as [->|]; [|done]. apply elem_of_difference. split; [done|].
    intros ->%elem_of_singleton. simplify_eq. rewrite decide_True in Hq by done. set_solver.
Qed.

Lemma ids_keep e e' :
  ids_inv e → request_cached_ids e' = request_cached_ids e →
  (∀ h refs, cached e' !! h = Some refs → cached e !! h = Some refs) → ids_inv e'.
Proof.
  intros [Hr Hc] Hids Hcov. split; unfold ids_of; rewrite Hids; [done|]. intros h refs q Hh. by apply Hc, Hcov.
Qed.

Lemma input_some r i : (∃ f, mm_features r !! i = Some f) ∨ mm_features r !! i = None.
Proof. destruct (mm_features r !! i); eauto. Qed.

Lemma free_input_out e r i :
  ¬ (i < length (mm_features r))%nat → free_encoder_input e r i = Raise IndexError.
Proof. intros Hi. unfold free_encoder_input, mm_hash_of. by rewrite lookup_ge_None_2 by lia. Qed.

(** *** Every call preserves the invariant *)

Lemma good_free n e r i :
  enc_good n e → known r → (i < length (mm_features r))%nat →
  ∃ e', free_encoder_input e r i = Ok e' ∧ enc_good n e' ∧
    ids_of e' (request_id r) = ids_of e (request_id r) ∖ {[i]}.
Proof.
  intros (He & Hi & Hn) Hr [f Hf]%lookup_lt_is_Some_2.
  destruct (free_input_spec size e r i f He (proj2 Hr) Hf) as (e' & Hrun & He' & _ & _ & Hc & Hsz & Hids).
  exists e'. split; [done|]. split.
  - split_and!; [done| |by rewrite Hsz]. by eapply ids_drop.
  - unfold ids_of. by rewrite Hids, drop_cached_id_lookup, decide_True.
Qed.

Lemma good_free_all n e r ids :
  enc_good n e → known r → (∀ i, i ∈ ids → (i < length (mm_features r))%nat) →
  ∃ e', enc_free e r ids = Ok e' ∧ enc_good n e' ∧
    ids_of e' (request_id r) = ids_of e (request_id r) ∖ list_to_set ids.
Proof.
  revert e. induction ids as [|i ids IH]; intros e He Hr Hin.
  - exists e. split; [done|]. split; [done|]. set_solver.
  - destruct (good_free n e r i He Hr) as (e1 & H1 & He1 & Hi1); [apply Hin; set_solver|].
    destruct (IH e1 He1 Hr) as (e2 & H2 & He2 & Hi2); [intros; apply Hin; set_solver|].
    exists e2. unfold enc_free in *. simpl. rewrite H1. split; [done|]. split; [done|].
    rewrite Hi2, Hi1. set_solver.
Qed.

Lemma good_check n e r i f :
  enc_good n e → known r → mm_features r !! i = Some f →
  ∃ e', check_and_update_cache e r i = Ok (bool_decide (is_Some (cached e !! identifier f)), e') ∧
    enc_good n e'.
Proof.
  intros (He & Hi & Hn) Hr Hf.
  destruct (check_spec size e r i f He Hf) as (e' & Hrun & He' & _ & _ & Hc & Hsz & Hids).
  exists e'. split; [done|]. split_and!; [done| |by rewrite Hsz].
  destruct (decide (is_Some (cached e !! identifier f))) as [Hs|Hs].
  - eapply ids_add; [done|done|done|done|]. intros h refs q Hh Hq. rewrite Hc in Hh.
    apply fmap_Some in Hh as (refs0 & H0 & ->). case_decide as E; [|eauto].
    apply elem_of_union in Hq as [->%elem_of_singleton|Hq]; eauto.
  - apply (ids_keep e); [done|done|]. intros h refs. rewrite Hc. intros (refs0 & H0 & ->)%fmap_Some.
    case_decide; [|done]. subst. exfalso. eauto.
Qed.

Lemma good_can n e r i f budget pend :
  enc_good n e → known r → mm_features r !! i = Some f →
  ∃ b e', can_allocate e r i budget pend = Ok (b, e') ∧ enc_good n e'.
Proof.
  intros (He & Hi & Hn) Hr Hf.
  destruct (can_allocate_spec size e r i f budget pend He (proj2 Hr) Hf)
    as (e' & k & Hrun & He' & Hsz & Hids & _ & _ & _ & Hc & _).
  eexists _, e'. split; [done|]. split_and!; [done| |by rewrite Hsz].
  apply (ids_keep e); [done|done|]. intros h refs. rewrite Hc. by destruct (decide (h ∈ _)).
Qed.

(** The assertions of [allocate] hold exactly when the entry fits the free slots. *)
Lemma allocate_iff e r i f :
  enc_inv size e → sized size r → mm_features r !! i = Some f → cached e !! identifier f = None →
  (∃ e', enc_allocate e r i = Ok e') ↔ size (identifier f) ≤ num_free_slots e.
Proof.
  intros He Hr Hf Hnew. split.
  - intros [e' Hrun]. unfold enc_allocate, mm_hash_of, get_num_encoder_embeds in Hrun. rewrite Hf in Hrun.
    cbn [mbind result_bind] in Hrun. rewrite (Hr _ _ Hf) in Hrun.
    destruct (Z.leb_spec (size (identifier f)) (num_free_slots e)); done.
  - intros Hle. destruct (allocate_spec size e r i f He Hr Hf Hnew Hle) as (e2 & ? & _). eauto.
Qed.

Lemma good_allocate n e r i f e' :
  enc_good n e → known r → mm_features r !! i = Some f → cached e !! identifier f = None →
  enc_allocate e r i = Ok e' → enc_good n e'.
Proof.
  intros (He & Hi & Hn) Hr Hf Hnew Hrun.
  assert (size (identifier f) ≤ num_free_slots e) as Hle.
  { apply (allocate_iff e r i f He (proj2 Hr) Hf Hnew). by eexists. }
  destruct (allocate_spec size e r i f He (proj2 Hr) Hf Hnew Hle) as (e2 & Hrun2 & He2 & _ & _ & Hc & Hsz & Hids).
  rewrite Hrun in Hrun2. simplify_eq. split_and!; [done| |by rewrite Hsz].
  eapply ids_add; [done|done|done|done|]. intros h refs q Hh Hq. rewrite Hc in Hh.
  apply lookup_insert_Some in Hh as [[<- <-]|[_ Hh]]; [|eauto]. left. set_solver.
Qed.

Lemma enc_step_good n e e' : (∀ h, 0 ≤ size h) → 0 ≤ n → enc_good n e → enc_step e e' → enc_good n e'.
Proof.
  intros Hsize Hn He [r i b e1 Hr Hrun|r i bu pe b e1 Hr Hrun|r i f e1 Hr Hf Hnew Hrun|r i e1 Hr Hrun
    |r ids e1 Hr Hrun|l e1 Hrun|].
  - destruct (input_some r i) as [[f Hf]|Hf].
    + destruct (good_check n e r i f He Hr Hf) as (e2 & H2 & Hg). rewrite Hrun in H2. by simplify_eq.
    + unfold check_and_update_cache, mm_hash_of in Hrun. by rewrite Hf in Hrun.
  - destruct (input_some r i) as [[f Hf]|Hf].
    + destruct (good_can n e r i f bu pe He Hr Hf) as (b2 & e2 & H2 & Hg). rewrite Hrun in H2. by simplify_eq.
    + unfold can_allocate, get_num_encoder_embeds in Hrun. by rewrite Hf in Hrun.
  - by eapply good_allocate.
  - destruct (decide (i < length (mm_features r))%nat) as [Hi|Hi].
    + destruct (good_free n e r i He Hr Hi) as (e2 & H2 & Hg & _). rewrite Hrun in H2. by simplify_eq.
    + by rewrite free_input_out in Hrun.
  - revert e He Hrun. induction ids as [|i ids IH]; intros e He Hrun; unfold enc_free in *; simpl in Hrun.
    + by simplify_eq.
    + destruct (decide (i < length (mm_features r))%nat) as [Hi|Hi].
      * destruct (good_free n e r i He Hr Hi) as (e2 & H2 & Hg & _). rewrite H2 in Hrun. by apply (IH e2).
      * by rewrite free_input_out in Hrun.
  - destruct He as (He & Hi & Hsz). unfold get_freed_mm_hashes in Hrun. simplify_eq/=.
    split_and!; [|by apply (ids_keep e)|done]. by destruct He.
  - destruct He as (He & Hi & Hsz). unfold enc_reset. rewrite Hsz.
    split_and!; [by apply init_inv| |done]. by split.
Qed.

Lemma enc_reachable_good n e : (∀ h, 0 ≤ size h) → 0 ≤ n → enc_reachable n e → enc_good n e.
Proof.
  intros Hsize Hn Hr. induction Hr as [|e e' _ IH Hs]; [|by eapply enc_step_good].
  split_and!; [by apply init_inv| |done]. by split.
Qed.
End references.

(** ** Properties *)

(** The admission test says yes exactly when the input fits the compute
    budget and, with what is already pending, the free and reclaimable slots; it
    evicts the oldest unused entries, no more than needed, reports them as freed
    and never touches an entry in use; after a yes the allocation of an input
    that is not cached succeeds and the pending inputs still fit. *)
Theorem can_allocate_correct size e r i f budget pend :
  enc_inv size e → sized size r → mm_features r !! i = Some f → 0 ≤ pend →
  let n := size (identifier f) in
  let fits := bool_decide (n ≤ budget ∧ n + pend ≤ num_freeable_slots e) in
  ∃ e' k, can_allocate e r i budget pend = Ok (fits, e') ∧ enc_inv size e' ∧
    freeable e' = drop k (freeable e) ∧ enc_freed e' = enc_freed e ++ take k (freeable e).*1 ∧
    (∀ h, cached e' !! h = if decide (h ∈ take k (freeable e).*1) then None else cached e !! h) ∧
    (k = 0%nat ∨ fits = true ∧ num_free_slots e + freeable_size (take (k - 1) (freeable e)) < n + pend) ∧
    (fits = true → cached e' !! identifier f = None →
     ∃ e2, enc_allocate e' r i = Ok e2 ∧ enc_inv size e2 ∧ pend ≤ num_free_slots e2 ∧
       cached e2 = <[identifier f := {[request_id r]}]> (cached e')).
Proof.
  intros He Hr Hf Hp n fits. destruct (can_allocate_spec size e r i f budget pend He Hr Hf)
    as (e' & k & Hrun & He' & _ & _ & _ & Hfe & Hfd & Hc & Hfit & Hmin).
  exists e', k. split_and!; try done. intros Hyes Hnew. specialize (Hfit Hyes).
  destruct (allocate_spec size e' r i f He' Hr Hf Hnew) as (e2 & ? & ? & Hn2 & _ & ? & _); [lia|].
  exists e2. split_and!; try done. rewrite Hn2. lia.
Qed.

(** Freeing a request succeeds whatever the order its inputs are visited in,
    and afterwards it references no entry and has no recorded input: no entry is
    pinned by a request that is gone. *)
Theorem encoder_free_correct inputs size n e r ids :
  (∀ h, 0 ≤ size h) → 0 ≤ n → enc_reachable inputs size n e → known inputs size r →
  ids ≡ₚ elements (get_cached_input_ids e r) →
  ∃ e', enc_free e r ids = Ok e' ∧ enc_inv size e' ∧ get_cached_input_ids e' r = ∅ ∧
    (∀ h refs, cached e' !! h = Some refs → request_id r ∉ refs).
Proof.
  intros Hs Hn Hre Hk Hids. pose proof (enc_reachable_good inputs size n e Hs Hn Hre) as Hg.
  assert (∀ i, i ∈ ids ↔ i ∈ ids_of e (request_id r)) as Hin
    by (intros i; by rewrite Hids, elem_of_elements).
  destruct (good_free_all inputs size n e r ids Hg Hk) as (e' & Hrun & (He' & Hi' & _) & Hof).
  { intros i Hi%Hin. rewrite (proj1 Hk). by apply (ii_range _ _ (proj1 (proj2 Hg))). }
  assert (ids_of e' (request_id r) = ∅) as Hempty by (rewrite Hof; set_solver).
  exists e'. split_and!; try done. intros h refs Hh Hq.
  destruct (ii_cover _ _ Hi' _ _ _ Hh Hq) as (i & f & Hi & _). rewrite Hempty in Hi. set_solver.
Qed.

(** C39: in every state a scheduler can bring the encoder cache to, with inputs whose
    identifier determines their size, the entries
    kept never exceed its capacity (free slots and entry sizes add up to it), the
    freeable count is the free slots plus the entries nobody uses, and the
    eviction list holds exactly those entries once each.  No lookup, admission
    test or release of an existing input raises, nor does the release of a
    request; the allocation of an input that is not cached passes its assertions
    exactly when there is room, and always after an admission test said yes,
    with the pending inputs still fitting. *)
Theorem encoder_cache_invariant inputs size n e :
  (∀ h, 0 ≤ size h) → 0 ≤ n → enc_reachable inputs size n e →
  num_free_slots e + held_size size (cached e) = n ∧
  num_freeable_slots e = num_free_slots e + freeable_size (freeable e) ∧
  0 ≤ num_free_slots e ≤ num_freeable_slots e ∧
  NoDup (freeable e).*1 ∧ (∀ h k, (h, k) ∈ freeable e ↔ cached e !! h = Some ∅ ∧ k = size h) ∧
  (∀ r i f budget pend, known inputs size r → mm_features r !! i = Some f → 0 ≤ pend →
     (∃ b e', check_and_update_cache e r i = Ok (b, e')) ∧
     (∃ b e', can_allocate e r i budget pend = Ok (b, e') ∧
        (b = true → cached e' !! identifier f = None →
         ∃ e2, enc_allocate e' r i = Ok e2 ∧ pend ≤ num_free_slots e2)) ∧
     (cached e !! identifier f = None →
      (∃ e', enc_allocate e r i = Ok e') ↔ size (identifier f) ≤ num_free_slots e) ∧
     (∃ e', free_encoder_input e r i = Ok e') ∧
     (∃ e', enc_free e r (elements (get_cached_input_ids e r)) = Ok e')).
Proof.
  intros Hs Hn Hr. pose proof (enc_reachable_good inputs size n e Hs Hn Hr) as Hg.
  pose proof Hg as (He & _ & Hsz). pose proof He as [_ Hnd Hfr Hheld Hsl Hnn].
  pose proof (inv_freeable_nonneg size e (proj1 Hg)).
  rewrite Hsz in Hheld. split_and!; try done; [lia|].
  intros r i f budget pend Hk Hf Hp. split_and!.
  - destruct (good_check inputs size n e r i f Hg Hk Hf) as (e' & ? & _). eauto.
  - destruct (can_allocate_correct size e r i f budget pend He (proj2 Hk) Hf Hp)
      as (e' & k & Hrun & _ & _ & _ & _ & _ & Hyes). eexists _, e'. split; [done|]. intros Hb Hnew.
    destruct (Hyes Hb Hnew) as (e2 & ? & _ & ? & _). eauto.
  - intros Hnew. by apply (allocate_iff size e r i f He (proj2 Hk)).
  - apply lookup_lt_Some in Hf. destruct (good_free inputs size n e r i Hg Hk Hf) as (e' & ? & _). eauto.
  - destruct (encoder_free_correct inputs size n e r _ Hs Hn Hr Hk (reflexivity _)) as (e' & ? & _). eauto.
Qed.

(** ** Examples *)

(** Two requests that share an image of three embeddings; the second one has
    another image of two.  The cache has room for four. *)
Definition demo_image (h : string) (o n : Z) : MultiModalFeatureSpec := mkMMFeature h (mkPlaceholder o n None).
Definition demo_inputs (q : string) : list MultiModalFeatureSpec :=
  if decide (q = "a"%string) then [demo_image "X" 0 3]
  else if decide (q = "b"%string) then [demo_image "X" 0 3; demo_image "Y" 4 2] else [].
Definition demo_size (h : string) : Z :=
  if decide (h = "X"%string) then 3 else if decide (h = "Y"%string) then 2 else 0.
Definition demo_mm_request (q : string) : Request :=
  mkRequest q 0 0 0 0 None None None false WAITING None 16 (Some [1; 2; 3; 4; 9])
    None ∅ 5 [] [1; 2; 3; 4; 9] 0 0 0 0 [] 0 None (demo_inputs q) false 0 [] false false false.

(** The first request computes the image, then both use it. *)
Definition demo_shared : EncoderCacheManager :=
  match (e ← enc_allocate (init_encoder_cache 4) (demo_mm_request "a") 0;
         '(_, e) ← check_and_update_cache e (demo_mm_request "b") 0; Ok e) with
  | Ok e => e
  | Raise _ => init_encoder_cache 0
  end.
(** Both are done with it. *)
Definition demo_unused : EncoderCacheManager :=
  match (e ← enc_free demo_shared (demo_mm_request "a") [0%nat];
         enc_free e (demo_mm_request "b") [0%nat]) with
  | Ok e => e
  | Raise _ => init_encoder_cache 0
  end.

Lemma demo_size_nonneg h : 0 ≤ demo_size h.
Proof. unfold demo_size. by repeat case_decide. Qed.

Lemma demo_known q : known demo_inputs demo_size (demo_mm_request q).
Proof.
  split; [done|]. intros i f Hf. apply list_elem_of_lookup_2 in Hf. simpl in Hf. unfold demo_inputs in Hf.
  repeat case_decide; repeat (apply elem_of_cons in Hf as [->|Hf]; [done|]); by apply elem_of_nil in Hf.
Qed.

Lemma demo_shared_reachable : enc_reachable demo_inputs demo_size 4 demo_shared.
Proof.
  eapply er_step; [eapply er_step; [apply er_init|]|].
  - eapply (es_allocate _ _ _ (demo_mm_request "a") 0); [apply demo_known|reflexivity..].
  - eapply (es_check _ _ _ (demo_mm_request "b") 0); [apply demo_known|vm_compute; reflexivity].
Qed.

Lemma demo_unused_reachable : enc_reachable demo_inputs demo_size 4 demo_unused.
Proof.
  eapply er_step; [eapply er_step; [apply demo_shared_reachable|]|].
  - eapply (es_free _ _ _ (demo_mm_request "a") [0%nat]); [apply demo_known|reflexivity].
  - eapply (es_free _ _ _ (demo_mm_request "b") [0%nat]); [apply demo_known|vm_compute; reflexivity].
Qed.

Lemma encoder_cache_invariant_witness :
  num_free_slots demo_unused + held_size demo_size (cached demo_unused) = 4 ∧
  freeable demo_unused = [("X"%string, 3)] ∧ num_free_slots demo_unused = 1 ∧
  ¬ (∃ e', enc_allocate demo_unused (demo_mm_request "b") 1 = Ok e') ∧
  ∃ b e', can_allocate demo_unused (demo_mm_request "b") 1 5 0 = Ok (b, e') ∧
    (b = true → cached e' !! "Y"%string = None →
     ∃ e2, enc_allocate e' (demo_mm_request "b") 1 = Ok e2 ∧ 0 ≤ num_free_slots e2).
Proof.
  destruct (encoder_cache_invariant demo_inputs demo_size 4 demo_unused) as (H1 & _ & _ & _ & _ & H2);
    [apply demo_size_nonneg|done|apply demo_unused_reachable|].
  destruct (H2 (demo_mm_request "b") 1%nat (demo_image "Y" 4 2) 5 0 (demo_known _) eq_refl ltac:(lia))
    as (_ & H3 & H4 & _).
  split; [exact H1|]. split; [reflexivity|]. split; [reflexivity|]. split; [|exact H3].
  rewrite (H4 eq_refl). vm_compute. intros H. by apply H.
Defined.

(** The second image needs two slots of which one is free: the first is evicted. *)
Lemma can_allocate_correct_witness :
  ∃ e' k, can_allocate demo_unused (demo_mm_request "b") 1 5 0 = Ok (true, e') ∧
    freeable e' = drop k (freeable demo_unused) ∧
    enc_freed e' = enc_freed demo_unused ++ take k (freeable demo_unused).*1.
Proof.
  destruct (can_allocate_correct demo_size demo_unused (demo_mm_request "b") 1 (demo_image "Y" 4 2) 5 0)
    as (e' & k & H1 & _ & H2 & H3 & _).
  - apply (enc_reachable_good demo_inputs demo_size 4); [apply demo_size_nonneg|done|apply demo_unused_reachable].
  - apply demo_known.
  - reflexivity.
  - lia.
  - exists e', k. split_and!; [|done..]. rewrite H1. reflexivity.
Defined.

Lemma encoder_free_correct_witness :
  ∃ e', enc_free demo_shared (demo_mm_request "b") [0%nat] = Ok e' ∧
    (∀ h refs, cached e' !! h = Some refs → "b"%string ∉ refs).
Proof.
  destruct (encoder_free_correct demo_inputs demo_size 4 demo_shared (demo_mm_request "b") [0%nat])
    as (e' & H & _ & _ & Hr).
  - apply demo_size_nonneg.
  - done.
  - apply demo_shared_reachable.
  - apply demo_known.
  - reflexivity.
  - exists e'. split; [exact H|exact Hr].
Defined.
