(* ===== verification/Heapq.v ===== *)
(** * Binary heaps

    The functions of Python's [heapq] module the request queue uses, over a list
    and a comparison [lt] ([Request.__lt__] below).  A position is free during a
    sift: items move into it along a path, and the item that is being placed is
    stored at the end.  The [while] loops run on fuel, the length of the list,
    which bounds the length of a path. *)

From S2P Require Import Prelude.

Section heapq.
Context {A : Type} (lt : A → A → bool).

(** [heap[i]] *)
Definition at_ (heap : list A) (i : nat) : result A :=
  match heap !! i with Some x => Ok x | None => Raise IndexError end.

(** [while pos > startpos: ...] of [_siftdown] *)
Fixpoint siftdown_loop (fuel : nat) (heap : list A) (startpos pos : nat) (newitem : A) : result (list A) :=
  match fuel with
  | O => Raise OutOfFuel
  | S fuel =>
      if (startpos <? pos)%nat then
        let parentpos := Nat.div2 (pos - 1) in
        parent ← at_ heap parentpos;
        if lt newitem parent then siftdown_loop fuel (<[pos := parent]> heap) startpos parentpos newitem
        else Ok (<[pos := newitem]> heap)
      else Ok (<[pos := newitem]> heap)
  end.

Definition _siftdown (heap : list A) (startpos pos : nat) : result (list A) :=
  newitem ← at_ heap pos;
  siftdown_loop (S (length heap)) heap startpos pos newitem.

(** [while childpos < endpos: ...] of [_siftup]: the free position moves to a
    leaf. *)
Fixpoint siftup_loop (fuel : nat) (heap : list A) (pos : nat) : result (list A * nat) :=
  match fuel with
  | O => Raise OutOfFuel
  | S fuel =>
      let childpos := (2 * pos + 1)%nat in
      if (childpos <? length heap)%nat then
        let rightpos := (childpos + 1)%nat in
        left_ ← at_ heap childpos;
        childpos ←
          (if (rightpos <? length heap)%nat
           then right_ ← at_ heap rightpos; Ok (if lt left_ right_ then childpos else rightpos)
           else Ok childpos);
        child_ ← at_ heap childpos;
        siftup_loop fuel (<[pos := child_]> heap) childpos
      else Ok (heap, pos)
  end.

Definition _siftup (heap : list A) (pos : nat) : result (list A) :=
  newitem ← at_ heap pos;
  '(heap, leaf) ← siftup_loop (S (length heap)) heap pos;
  _siftdown (<[leaf := newitem]> heap) pos leaf.

Definition heappush (heap : list A) (item : A) : result (list A) :=
  _siftdown (heap ++ [item]) 0 (length heap).

(** [lastelt = heap.pop()] takes the last item. *)
Definition heappop (heap : list A) : result (A * list A) :=
  match last heap with
  | None => Raise IndexError
  | Some lastelt =>
      match take (length heap - 1) heap with
      | [] => Ok (lastelt, [])
      | returnitem :: heap =>
          heap ← _siftup (lastelt :: heap) 0;
          Ok (returnitem, heap)
      end
  end.

(** [for i in reversed(range(n // 2)): _siftup(x, i)] *)
Definition heapify (x : list A) : result (list A) :=
  mfold _siftup x (reverse (seq 0 (Nat.div2 (length x)))).

(** ** Heaps *)

Class WeakOrder : Prop := {
  wo_irrefl x : lt x x = false;
  wo_trans x y z : lt x y = true → lt y z = true → lt x z = true;
  wo_weak x y z : lt y x = false → lt z y = false → lt z x = false;
}.

Definition heap_le (x y : A) : Prop := lt y x = false.

(** [c] is a child of [p]. *)
Definition heap_child (p c : nat) : Prop := c = (2 * p + 1)%nat ∨ c = (2 * p + 2)%nat.

(** The positions of the subtree of [s]. *)
Inductive subtree (s : nat) : nat → Prop :=
  | subtree_root : subtree s s
  | subtree_child p c : subtree s p → heap_child p c → subtree s c.

(** Every item from position [s] on is at most its children. *)
Definition heap_from (s : nat) (h : list A) : Prop :=
  ∀ p c x y, (s ≤ p)%nat → heap_child p c → h !! p = Some x → h !! c = Some y → heap_le x y.

(** The same but for the free position [pos], across which the order holds. *)
Definition heap_hole (s pos : nat) (h : list A) : Prop :=
  (∀ p c x y, (s ≤ p)%nat → heap_child p c → p ≠ pos → c ≠ pos →
     h !! p = Some x → h !! c = Some y → heap_le x y) ∧
  (∀ q c x y, (s ≤ q)%nat → heap_child q pos → heap_child pos c → h !! q = Some x → h !! c = Some y → heap_le x y).

Lemma child_parent c : (0 < c)%nat → heap_child (Nat.div2 (c - 1)) c.
Proof.
  intros Hc. unfold heap_child. pose proof (Nat.div2_odd (c - 1)) as H.
  destruct (Nat.odd (c - 1)); simpl in H; lia.
Qed.

Lemma child_inj p p' c : heap_child p c → heap_child p' c → p = p'.
Proof. unfold heap_child. lia. Qed.

Lemma child_lt p c : heap_child p c → (p < c)%nat.
Proof. unfold heap_child. lia. Qed.

Lemma subtree_le s p : subtree s p → (s ≤ p)%nat.
Proof. induction 1 as [|p c _ IH Hc]; [lia|]. apply child_lt in Hc. lia. Qed.

Lemma subtree_parent s p c : subtree s c → (s < c)%nat → heap_child p c → subtree s p.
Proof. intros [|q c' Hq Hc] Hlt Hp; [lia|]. by rewrite (child_inj _ _ _ Hp Hc). Qed.

Lemma subtree_zero c : subtree 0 c.
Proof.
  induction c as [c IH] using lt_wf_ind. destruct c as [|c]; [constructor|].
  pose proof (child_parent (S c) ltac:(lia)) as Hc. eapply subtree_child; [|exact Hc].
  apply IH. by apply child_lt in Hc.
Qed.

(** Moving an item into the free position and the free position to where the
    item was permutes the list that would be stored. *)
Lemma insert_perm (h : list A) i x y : h !! i = Some y → x :: h ≡ₚ y :: <[i := x]> h.
Proof.
  revert i. induction h as [|z h IH]; intros [|i] H; simplify_eq/=; [apply perm_swap|].
  rewrite perm_swap, (IH i H). apply perm_swap.
Qed.

Lemma move_perm (h : list A) pos q x v :
  (pos < length h)%nat → pos ≠ q → h !! q = Some v →
  <[q := x]> (<[pos := v]> h) ≡ₚ <[pos := x]> h.
Proof.
  intros [o Ho]%lookup_lt_is_Some_2 Hne Hq.
  assert (<[pos := v]> h !! q = Some v) as Hq' by by rewrite list_lookup_insert_ne.
  apply (Permutation_cons_inv (a := v)), (Permutation_cons_inv (a := o)).
  rewrite <-(insert_perm _ _ x _ Hq'), (perm_swap v o).
  rewrite (perm_swap x o), <-(insert_perm _ _ v _ Ho), <-(insert_perm _ _ x _ Ho). apply perm_swap.
Qed.

Context `{!WeakOrder}.

Lemma heap_le_trans x y z : heap_le x y → heap_le y z → heap_le x z.
Proof. apply wo_weak. Qed.

Lemma heap_lt_le x y : lt x y = true → heap_le x y.
Proof.
  intros Hxy. unfold heap_le. destruct (lt y x) eqn:E; [|done].
  pose proof (wo_trans x y x Hxy E). pose proof (wo_irrefl x). congruence.
Qed.

(** A list with the free position filled is a heap if the item fits there. *)
Lemma hole_fill s pos h x :
  heap_hole s pos h →
  (∀ q y, (s ≤ q)%nat → heap_child q pos → h !! q = Some y → heap_le y x) →
  (∀ c y, heap_child pos c → h !! c = Some y → heap_le x y) →
  heap_from s (<[pos := x]> h).
Proof.
  intros [Hh _] Hup Hdown p c a b Hp Hc Ha Hb. pose proof (child_lt _ _ Hc).
  destruct (decide (p = pos)) as [->|Hpp].
  - rewrite list_lookup_insert_ne in Hb by lia.
    apply list_lookup_insert_Some in Ha as [(_ & -> & _)|[? _]]; [|done]. by eapply Hdown.
  - rewrite list_lookup_insert_ne in Ha by done. destruct (decide (c = pos)) as [->|Hcc].
    + apply list_lookup_insert_Some in Hb as [(_ & -> & _)|[? _]]; [|done]. by eapply Hup.
    + rewrite list_lookup_insert_ne in Hb by done. by eapply (Hh p c).
Qed.

(** One step towards the root. *)
Lemma hole_up s pos q h v x :
  heap_hole s pos h → subtree s q → heap_child q pos → h !! q = Some v → lt x v = true →
  heap_hole s q (<[pos := v]> h) ∧
  (∀ c y, heap_child q c → <[pos := v]> h !! c = Some y → heap_le x y).
Proof.
  intros [Hh Hb] Hq Hc Hv Hx. pose proof (child_lt _ _ Hc). pose proof (subtree_le _ _ Hq).
  assert (∀ c y, heap_child q c → <[pos := v]> h !! c = Some y → heap_le v y) as Hkids.
  { intros c y Hqc Hy. destruct (decide (c = pos)) as [->|Hne].
    - apply list_lookup_insert_Some in Hy as [(_ & -> & _)|[? _]]; [|done]. by apply wo_irrefl.
    - rewrite list_lookup_insert_ne in Hy by done. apply (Hh q c); try done; lia. }
  split; [split|].
  - intros p c a b Hp Hpc Hpq Hcq Ha Hbb. pose proof (child_lt _ _ Hpc).
    destruct (decide (p = pos)) as [->|Hpp].
    + rewrite list_lookup_insert_ne in Hbb by lia.
      apply list_lookup_insert_Some in Ha as [(_ & -> & _)|[? _]]; [|done]. by apply (Hb q c).
    + rewrite list_lookup_insert_ne in Ha by done. destruct (decide (c = pos)) as [->|Hcc].
      * destruct Hpq. by apply (child_inj p q pos).
      * rewrite list_lookup_insert_ne in Hbb by done. by apply (Hh p c).
  - intros r c a b Hr Hrq Hqc Ha Hbb. pose proof (child_lt _ _ Hrq).
    rewrite list_lookup_insert_ne in Ha by lia. apply (heap_le_trans a v b); [|by apply (Hkids c)].
    apply (Hh r q); try done; lia.
  - intros c y Hqc Hy. apply (heap_le_trans x v y); [by apply heap_lt_le|by apply (Hkids c)].
Qed.

(** One step towards the leaves, to the smaller child. *)
Lemma hole_down s pos k h v :
  heap_hole s pos h → (s ≤ pos)%nat → heap_child pos k → h !! k = Some v →
  (∀ c y, heap_child pos c → h !! c = Some y → heap_le v y) →
  heap_hole s k (<[pos := v]> h).
Proof.
  intros [Hh Hb] Hs Hk Hv Hmin. pose proof (child_lt _ _ Hk). split.
  - intros p c a b Hp Hpc Hpk Hck Ha Hbb. pose proof (child_lt _ _ Hpc).
    destruct (decide (p = pos)) as [->|Hpp].
    + rewrite list_lookup_insert_ne in Hbb by lia.
      apply list_lookup_insert_Some in Ha as [(_ & -> & _)|[? _]]; [|done]. by apply (Hmin c).
    + rewrite list_lookup_insert_ne in Ha by done. destruct (decide (c = pos)) as [->|Hcc].
      * apply list_lookup_insert_Some in Hbb as [(_ & -> & _)|[? _]]; [|done]. by apply (Hb p k).
      * rewrite list_lookup_insert_ne in Hbb by done. by apply (Hh p c).
  - intros q c a b Hq Hqk Hkc Ha Hbb. pose proof (child_lt _ _ Hkc).
    rewrite (child_inj _ _ _ Hqk Hk) in Ha. rewrite list_lookup_insert_ne in Hbb by lia.
    apply list_lookup_insert_Some in Ha as [(_ & -> & _)|[? _]]; [|done]. apply (Hh k c); try done; lia.
Qed.

Lemma at_lookup (h : list A) i x : h !! i = Some x → at_ h i = Ok x.
Proof. unfold at_. by intros ->. Qed.

Lemma siftdown_loop_spec fuel h s pos x :
  (pos < fuel)%nat → (pos < length h)%nat → subtree s pos → heap_hole s pos h →
  (∀ c y, heap_child pos c → h !! c = Some y → heap_le x y) →
  ∃ h', siftdown_loop fuel h s pos x = Ok h' ∧ h' ≡ₚ <[pos := x]> h ∧ heap_from s h'.
Proof.
  revert h pos. induction fuel as [|fuel IH]; intros h pos Hf Hl Hd Hh Hx; [lia|]. cbn [siftdown_loop].
  destruct (Nat.ltb_spec s pos) as [Hs|Hs].
  2:{ eexists. split; [done|]. split; [done|]. apply hole_fill; [done| |done]. intros q y Hq Hc.
      apply child_lt in Hc. lia. }
  pose proof (child_parent pos ltac:(lia)) as Hq. set (q := Nat.div2 (pos - 1)) in *.
  pose proof (child_lt _ _ Hq). pose proof (subtree_parent _ _ _ Hd Hs Hq) as Hdq.
  destruct (lookup_lt_is_Some_2 h q) as [v Hv]; [lia|]. rewrite (at_lookup _ _ _ Hv). cbn [mbind result_bind].
  destruct (lt x v) eqn:Hlt.
  - destruct (hole_up s pos q h v x Hh Hdq Hq Hv Hlt) as [Hh' Hx'].
    destruct (IH (<[pos := v]> h) q) as (h' & Hrun & Hp & Hheap); [lia|rewrite length_insert; lia|done..|].
    exists h'. split; [done|]. split; [|done]. rewrite Hp. apply move_perm; [done|lia|done].
  - eexists. split; [done|]. split; [done|]. apply hole_fill; [done| |done]. intros q' y _ Hc Hy.
    rewrite (child_inj _ _ _ Hc Hq) in Hy. by simplify_eq.
Qed.

Lemma siftup_loop_spec fuel h s pos :
  (length h ≤ fuel + pos)%nat → (0 < fuel)%nat → (pos < length h)%nat → subtree s pos → heap_hole s pos h →
  ∃ h' leaf, siftup_loop fuel h pos = Ok (h', leaf) ∧ (∀ x, <[leaf := x]> h' ≡ₚ <[pos := x]> h) ∧
    length h' = length h ∧ (leaf < length h)%nat ∧ subtree s leaf ∧ heap_hole s leaf h' ∧
    (∀ c, heap_child leaf c → h' !! c = None).
Proof.
  revert h pos. induction fuel as [|fuel IH]; intros h pos Hf H0 Hl Hd Hh; [lia|]. cbn [siftup_loop].
  destruct (Nat.ltb_spec (2 * pos + 1) (length h)) as [Hc|Hc].
  2:{ exists h, pos. split_and!; try done. intros c Hcc. apply lookup_ge_None_2. unfold heap_child in Hcc. lia. }
  destruct (lookup_lt_is_Some_2 h (2 * pos + 1)) as [l Hlv]; [done|].
  rewrite (at_lookup _ _ _ Hlv). cbn [mbind result_bind].
  assert (∃ k v, (if (2 * pos + 1 + 1 <? length h)%nat
            then right_ ← at_ h (2 * pos + 1 + 1); Ok (if lt l right_ then (2 * pos + 1)%nat else (2 * pos + 1 + 1)%nat)
            else Ok (2 * pos + 1)%nat) = Ok k ∧ heap_child pos k ∧ h !! k = Some v ∧
          (∀ c y, heap_child pos c → h !! c = Some y → heap_le v y)) as (k & v & -> & Hk & Hv & Hmin).
  { destruct (Nat.ltb_spec (2 * pos + 1 + 1) (length h)) as [Hr|Hr].
    - destruct (lookup_lt_is_Some_2 h (2 * pos + 1 + 1)) as [r Hrv]; [done|].
      rewrite (at_lookup _ _ _ Hrv). cbn [mbind result_bind]. eexists (if lt l r then _ else _), (if lt l r then l else r).
      split; [done|]. unfold heap_child. destruct (lt l r) eqn:E; (split; [lia|split; [done|]]);
        (intros c y [->| ->] Hy; [|replace (2 * pos + 2)%nat with (2 * pos + 1 + 1)%nat in Hy by lia]);
        simplify_eq; try apply wo_irrefl; [by apply heap_lt_le|done].
    - exists (2 * pos + 1)%nat, l. split; [done|]. split; [by left|]. split; [done|].
      intros c y [->| ->] Hy; [simplify_eq; apply wo_irrefl|].
      apply lookup_lt_Some in Hy. lia. }
  cbn [mbind result_bind]. rewrite (at_lookup _ _ _ Hv). cbn [mbind result_bind].
  pose proof (child_lt _ _ Hk). pose proof (subtree_le _ _ Hd). pose proof (lookup_lt_Some _ _ _ Hv).
  destruct (IH (<[pos := v]> h) k) as (h' & leaf & Hrun & Hp & Hlen & Hleaf & Hdl & Hhl & Hno);
    rewrite ?length_insert in *; try lia.
  - by eapply subtree_child.
  - by apply hole_down.
  - exists h', leaf. split_and!; try done. intros x. rewrite Hp. apply move_perm; [done|lia|done].
Qed.

(** ** The functions *)

Lemma siftdown_spec h s pos x :
  h !! pos = Some x → subtree s pos → heap_hole s pos h →
  (∀ c y, heap_child pos c → h !! c = Some y → heap_le x y) →
  ∃ h', _siftdown h s pos = Ok h' ∧ h' ≡ₚ h ∧ heap_from s h'.
Proof.
  intros Hx Hd Hh Hk. pose proof (lookup_lt_Some _ _ _ Hx). unfold _siftdown.
  rewrite (at_lookup _ _ _ Hx). cbn [mbind result_bind].
  destruct (siftdown_loop_spec (S (length h)) h s pos x) as (h' & Hrun & Hp & Hheap); [lia|done..|].
  exists h'. rewrite list_insert_id in Hp by done. done.
Qed.

Lemma hole_insert s pos h x : heap_hole s pos h → heap_hole s pos (<[pos := x]> h).
Proof.
  intros [Hh Hb]. split.
  - intros p c a b Hp Hc Hpp Hcp. rewrite !list_lookup_insert_ne by done. by apply Hh.
  - intros q c a b Hq Hqp Hpc. pose proof (child_lt _ _ Hqp). pose proof (child_lt _ _ Hpc).
    rewrite !list_lookup_insert_ne by lia. by apply Hb.
Qed.

Lemma siftup_spec h s :
  (s < length h)%nat → heap_from (S s) h → ∃ h', _siftup h s = Ok h' ∧ h' ≡ₚ h ∧ heap_from s h'.
Proof.
  intros [x Hx]%lookup_lt_is_Some_2 Hh. pose proof (lookup_lt_Some _ _ _ Hx). unfold _siftup.
  rewrite (at_lookup _ _ _ Hx). cbn [mbind result_bind].
  destruct (siftup_loop_spec (S (length h)) h s s)
    as (h1 & leaf & -> & Hp & Hlen & Hleaf & Hd & Hh1 & Hno); [lia|lia|done|constructor|..].
  { split; [intros p c a b Hp Hc Hne _ Ha Hb; apply (Hh p c); try done; lia|].
    intros q c a b Hq Hqs. apply child_lt in Hqs. lia. }
  cbn [mbind result_bind].
  destruct (siftdown_spec (<[leaf := x]> h1) s leaf x) as (h' & Hrun & Hp' & Hheap).
  - apply list_lookup_insert_eq. lia.
  - done.
  - by apply hole_insert.
  - intros c y Hc. pose proof (child_lt _ _ Hc). rewrite list_lookup_insert_ne by lia. by rewrite Hno.
  - exists h'. split; [done|]. split; [|done]. by rewrite Hp', Hp, list_insert_id.
Qed.

Lemma heappush_spec h x : heap_from 0 h → ∃ h', heappush h x = Ok h' ∧ h' ≡ₚ x :: h ∧ heap_from 0 h'.
Proof.
  intros Hh. unfold heappush.
  assert (∀ c, heap_child (length h) c → (h ++ [x]) !! c = None) as Hno.
  { intros c Hc%child_lt. apply lookup_ge_None_2. rewrite length_app. simpl. lia. }
  destruct (siftdown_spec (h ++ [x]) 0 (length h) x) as (h' & Hrun & Hp & Hheap).
  - by rewrite list_lookup_middle.
  - apply subtree_zero.
  - split.
    + intros p c a b Hp Hc Hpl Hcl Ha Hb. apply (Hh p c); try done.
      * apply lookup_app_Some in Ha as [?|[? Ha]]; [done|]. apply lookup_lt_Some in Ha. simpl in Ha. lia.
      * apply lookup_app_Some in Hb as [?|[? Hb]]; [done|]. apply lookup_lt_Some in Hb. simpl in Hb. lia.
    + intros q c a b _ _ Hc _. by rewrite Hno.
  - intros c y Hc. by rewrite Hno.
  - exists h'. split; [done|]. split; [|done]. by rewrite Hp, <-Permutation_cons_append.
Qed.

(** The item at the root is at most every other one. *)
Lemma heap_root h x : heap_from 0 h → head h = Some x → ∀ y, y ∈ h → heap_le x y.
Proof.
  intros Hh Hx y [i Hi]%list_elem_of_lookup. revert y Hi.
  induction i as [i IH] using lt_wf_ind. intros y Hi. destruct i as [|i].
  - destruct h; simplify_eq/=. apply wo_irrefl.
  - pose proof (child_parent (S i) ltac:(lia)) as Hc. set (p := Nat.div2 _) in *.
    pose proof (child_lt _ _ Hc). pose proof (lookup_lt_Some _ _ _ Hi).
    destruct (lookup_lt_is_Some_2 h p) as [z Hz]; [lia|].
    apply (heap_le_trans x z y); [by apply (IH p)|]. by apply (Hh p (S i)); [lia|..].
Qed.

Lemma heap_from_take h n : heap_from 0 h → heap_from 0 (take n h).
Proof.
  intros Hh p c x y Hp Hc Hx Hy. apply (Hh p c); try done; by eapply prefix_lookup_Some, prefix_take.
Qed.

Lemma heappop_spec h x rest :
  heap_from 0 h → h = x :: rest →
  ∃ h', heappop h = Ok (x, h') ∧ h' ≡ₚ rest ∧ heap_from 0 h' ∧ (∀ y, y ∈ rest → heap_le x y).
Proof.
  intros Hh ->. assert (∀ y, y ∈ rest → heap_le x y) as Hmin.
  { intros y Hy. apply (heap_root _ x Hh); [done|]. by right. }
  unfold heappop. destruct rest as [|z rest] using rev_ind; [by exists []|clear IHrest].
  rewrite app_comm_cons, last_snoc.
  replace (length ((x :: rest) ++ [z]) - 1)%nat with (length (x :: rest)) by (rewrite length_app; simpl; lia).
  rewrite take_app_length. cbn [mbind result_bind].
  pose proof (heap_from_take _ (length (x :: rest)) Hh) as Ht. rewrite app_comm_cons, take_app_length in Ht.
  destruct (siftup_spec (z :: rest) 0) as (h' & -> & Hp & Hheap); [simpl; lia| |].
  - intros p c a b Hp Hc Ha Hb. destruct p as [|p]; [lia|]. destruct c as [|c]; [apply child_lt in Hc; lia|].
    apply (Ht (S p) (S c)); try done. lia.
  - exists h'. split; [done|]. split; [|done]. by rewrite Hp, Permutation_cons_append.
Qed.

Lemma heapify_spec h : ∃ h', heapify h = Ok h' ∧ h' ≡ₚ h ∧ heap_from 0 h'.
Proof.
  unfold heapify.
  assert (∀ n h1, h1 ≡ₚ h → heap_from n h1 → (n ≤ length h)%nat →
    ∃ h', mfold _siftup h1 (reverse (seq 0 n)) = Ok h' ∧ h' ≡ₚ h ∧ heap_from 0 h') as Hloop.
  { induction n as [|n IH]; intros h1 Hp Hh Hn; [by exists h1|].
    rewrite seq_S, reverse_snoc. cbn [mfold]. simpl plus.
    destruct (siftup_spec h1 n) as (h2 & -> & Hp2 & Hh2); [|done|].
    - apply Permutation_length in Hp. lia.
    - cbn [mbind result_bind]. apply IH; [by rewrite Hp2|done|lia]. }
  apply Hloop; [done| |apply Nat.div2_decr; lia].
  intros p c x y Hp Hc Hx Hy. apply lookup_lt_Some in Hy. exfalso.
  pose proof (Nat.div2_odd (length h)) as Hd. destruct (Nat.odd (length h)); simpl in Hd; unfold heap_child in Hc; lia.
Qed.
End heapq.

#[export] Hint Resolve heap_from_take : kv.
