(* ===== verification/RequestQueue.v ===== *)
(** * Request queues

    [vllm/v1/core/sched/request_queue.py]: the abstract class [RequestQueue], its
    two implementations, a deque served first come first served and a heap
    ordered by [Request.__lt__], and [create_request_queue].  A queue holds
    references to request objects; only the identity of an object ([obj_addr])
    and the fields the order reads matter here.  Only an update of a streaming
    session writes such a field while a request is queued ([SchedFindings]). *)

From stdpp Require Import sorting.
From S2P Require Import Prelude KVBlock Request Heapq.

#[local] Open Scope Z_scope.

Inductive SchedulingPolicy := FCFS | PRIORITY.

#[export] Instance policy_eq_dec : EqDecision SchedulingPolicy.
Proof. solve_decision. Defined.

(** The abstract methods; [prepend_requests] is given the requests the other
    queue's iterator yields. *)
Class RequestQueue (Q : Type) := {
  add_request : Q → Request → result Q;
  pop_request : Q → result (Request * Q);
  peek_request : Q → result Request;
  prepend_request : Q → Request → result Q;
  prepend_requests : Q → list Request → result Q;
  remove_request : Q → Request → result Q;
  remove_requests : Q → list Request → result Q;
  queue_bool : Q → bool;
  queue_len : Q → Z;
  queue_iter : Q → result (list Request);
}.

(** Requests have no [__eq__]: [==], [in] and set membership compare identity. *)
Definition is_object (r x : Request) : bool := obj_addr r =? obj_addr x.

(** [l.remove(r)] *)
Fixpoint list_remove (l : list Request) (r : Request) : result (list Request) :=
  match l with
  | [] => Raise ValueError
  | x :: l => if is_object r x then Ok l else l' ← list_remove l r; Ok (x :: l')
  end.

(** [[req for req in l if req not in requests_to_remove]] *)
Definition list_without (l requests : list Request) : list Request :=
  filter (λ req, existsb (is_object req) requests = false) l.

(** ** First come, first served *)

Definition FCFSRequestQueue : Type := list Request.

#[export] Instance fcfs_queue : RequestQueue FCFSRequestQueue := {
  add_request q request := Ok (q ++ [request]);
  pop_request q := match q with [] => Raise IndexError | r :: q => Ok (r, q) end;
  peek_request q := match q with [] => Raise IndexError | r :: _ => Ok r end;
  prepend_request q request := Ok (request :: q);
  prepend_requests q requests := Ok (foldl (λ q r, r :: q) q requests);
  remove_request q request := list_remove q request;
  remove_requests q requests := Ok (list_without q requests);
  queue_bool q := 0 <? zlen q;
  queue_len q := zlen q;
  queue_iter q := Ok q;
}.

(** ** By priority *)

Record PriorityRequestQueue := mkPriority { _heap : list Request }.

Definition prio_add (q : PriorityRequestQueue) (request : Request) : result PriorityRequestQueue :=
  h ← heappush request_lt (_heap q) request; Ok (mkPriority h).

(** [while heap_copy: yield heapq.heappop(heap_copy)] *)
Fixpoint prio_drain (fuel : nat) (heap_copy : list Request) : result (list Request) :=
  match heap_copy with
  | [] => Ok []
  | _ =>
      match fuel with
      | O => Raise OutOfFuel
      | S fuel =>
          '(r, heap_copy) ← heappop request_lt heap_copy;
          rs ← prio_drain fuel heap_copy;
          Ok (r :: rs)
      end
  end.

#[export] Instance priority_queue : RequestQueue PriorityRequestQueue := {
  add_request := prio_add;
  pop_request q :=
    match _heap q with
    | [] => Raise IndexError
    | _ => '(r, h) ← heappop request_lt (_heap q); Ok (r, mkPriority h)
    end;
  peek_request q := match _heap q with [] => Raise IndexError | r :: _ => Ok r end;
  prepend_request := prio_add;
  prepend_requests q requests := mfold prio_add q requests;
  remove_request q request :=
    h ← list_remove (_heap q) request; h ← heapify request_lt h; Ok (mkPriority h);
  remove_requests q requests :=
    h ← heapify request_lt (list_without (_heap q) requests); Ok (mkPriority h);
  queue_bool q := match _heap q with [] => false | _ => true end;
  queue_len q := zlen (_heap q);
  queue_iter q := prio_drain (length (_heap q)) (_heap q);
}.

(** ** Dynamic dispatch *)

Inductive any_queue := AFCFS (q : FCFSRequestQueue) | APriority (q : PriorityRequestQueue).

Definition lift_queue (f : FCFSRequestQueue → result FCFSRequestQueue)
    (g : PriorityRequestQueue → result PriorityRequestQueue) (q : any_queue) : result any_queue :=
  match q with
  | AFCFS q => q ← f q; Ok (AFCFS q)
  | APriority q => q ← g q; Ok (APriority q)
  end.

#[export] Instance any_queue_ops : RequestQueue any_queue := {
  add_request q r := lift_queue (λ q, add_request q r) (λ q, add_request q r) q;
  pop_request q :=
    match q with
    | AFCFS q => '(r, q) ← pop_request q; Ok (r, AFCFS q)
    | APriority q => '(r, q) ← pop_request q; Ok (r, APriority q)
    end;
  peek_request q := match q with AFCFS q => peek_request q | APriority q => peek_request q end;
  prepend_request q r := lift_queue (λ q, prepend_request q r) (λ q, prepend_request q r) q;
  prepend_requests q rs := lift_queue (λ q, prepend_requests q rs) (λ q, prepend_requests q rs) q;
  remove_request q r := lift_queue (λ q, remove_request q r) (λ q, remove_request q r) q;
  remove_requests q rs := lift_queue (λ q, remove_requests q rs) (λ q, remove_requests q rs) q;
  queue_bool q := match q with AFCFS q => queue_bool q | APriority q => queue_bool q end;
  queue_len q := match q with AFCFS q => queue_len q | APriority q => queue_len q end;
  queue_iter q := match q with AFCFS q => queue_iter q | APriority q => queue_iter q end;
}.

Definition create_request_queue (policy : SchedulingPolicy) : any_queue :=
  match policy with PRIORITY => APriority (mkPriority []) | FCFS => AFCFS [] end.

(** ** What a queue promises: a list in the order it is served *)

(** Behind every request that is not after it. *)
Fixpoint insert_sorted (l : list Request) (r : Request) : list Request :=
  match l with
  | [] => [r]
  | x :: l' => if request_lt r x then r :: l else x :: insert_sorted l' r
  end.

Definition policy_add (policy : SchedulingPolicy) : list Request → Request → list Request :=
  match policy with FCFS => λ l r, l ++ [r] | PRIORITY => insert_sorted end.
Definition policy_prepend (policy : SchedulingPolicy) : list Request → Request → list Request :=
  match policy with FCFS => λ l r, r :: l | PRIORITY => insert_sorted end.

Definition fresh_for (l : list Request) (r : Request) : Prop := obj_addr r ∉ (obj_addr <$> l).
Definition objects (l : list Request) : Prop := NoDup (obj_addr <$> l).

(** [Q] implements the list [repr] relates it to. *)
Class QueueRefines (Q : Type) `{!RequestQueue Q} (policy : SchedulingPolicy)
    (repr : Q → list Request → Prop) : Prop := {
  qr_objects q l : repr q l → objects l;
  qr_add q l r : repr q l → fresh_for l r → ∃ q', add_request q r = Ok q' ∧ repr q' (policy_add policy l r);
  qr_prepend q l r : repr q l → fresh_for l r →
    ∃ q', prepend_request q r = Ok q' ∧ repr q' (policy_prepend policy l r);
  qr_prepends q l rs : repr q l → objects (rs ++ l) →
    ∃ q', prepend_requests q rs = Ok q' ∧ repr q' (foldl (policy_prepend policy) l rs);
  qr_pop q l : repr q l →
    match l with
    | [] => pop_request q = Raise IndexError
    | r :: l => ∃ q', pop_request q = Ok (r, q') ∧ repr q' l
    end;
  qr_peek q l : repr q l → peek_request q = match l with [] => Raise IndexError | r :: _ => Ok r end;
  qr_remove q l r : repr q l →
    match list_remove l r with
    | Ok l' => ∃ q', remove_request q r = Ok q' ∧ repr q' l'
    | Raise e => remove_request q r = Raise e
    end;
  qr_removes q l rs : repr q l → ∃ q', remove_requests q rs = Ok q' ∧ repr q' (list_without l rs);
  qr_bool q l : repr q l → queue_bool q = bool_decide (l ≠ []);
  qr_len q l : repr q l → queue_len q = zlen l;
  qr_iter q l : repr q l → queue_iter q = Ok l;
}.

(** ** Lists of distinct objects *)

#[export] Instance objects_proper : Proper ((≡ₚ) ==> iff) objects.
Proof. intros l1 l2 Hl. unfold objects. by rewrite Hl. Qed.

Lemma objects_eq l x y : objects l → x ∈ l → y ∈ l → obj_addr x = obj_addr y → x = y.
Proof.
  intros Hl [i Hi]%list_elem_of_lookup [j Hj]%list_elem_of_lookup E.
  assert (i = j) as ->; [|congruence].
  apply (NoDup_lookup (obj_addr <$> l) i j (obj_addr x)); [done|by rewrite list_lookup_fmap, Hi|].
  by rewrite list_lookup_fmap, Hj, E.
Qed.

Lemma objects_cons x l : objects (x :: l) ↔ fresh_for l x ∧ objects l.
Proof. unfold objects, fresh_for. by rewrite fmap_cons, NoDup_cons. Qed.

Lemma fresh_perm l l' r : l ≡ₚ l' → fresh_for l r → fresh_for l' r.
Proof. unfold fresh_for. by intros ->. Qed.

Lemma objects_filter (P : Request → Prop) `{!∀ x, Decision (P x)} l : objects l → objects (filter P l).
Proof.
  intros Hl. eapply sublist_NoDup; [exact Hl|]. apply fmap_sublist, sublist_filter.
Qed.

Lemma list_remove_spec l r :
  objects l →
  list_remove l r = if decide (obj_addr r ∈ (obj_addr <$> l))
                    then Ok (filter (λ x, is_object r x = false) l) else Raise ValueError.
Proof.
  induction l as [|x l IH]; [done|]. intros [Hx Hl]%objects_cons. unfold fresh_for in Hx. cbn [list_remove].
  destruct (is_object r x) eqn:E.
  - pose proof E as E'. apply Z.eqb_eq in E'. rewrite decide_True by (rewrite fmap_cons, E'; by left).
    rewrite filter_cons_False by congruence. f_equal. symmetry. apply filter_all. intros y Hy.
    apply Z.eqb_neq. intros E2. apply Hx. rewrite <-E', E2. by apply list_elem_of_fmap_2.
  - pose proof E as E'. apply Z.eqb_neq in E'. rewrite IH by done. rewrite filter_cons_True by done.
    destruct (decide (obj_addr r ∈ (obj_addr <$> l))) as [Hin|Hin].
    + by rewrite decide_True by (rewrite fmap_cons; by right).
    + by rewrite decide_False by (rewrite fmap_cons, elem_of_cons; tauto).
Qed.

(** ** The deque *)

Definition fcfs_repr (q : FCFSRequestQueue) (l : list Request) : Prop := q = l ∧ objects l.

Lemma objects_prepends l rs : objects (rs ++ l) → objects (foldl (λ q r, r :: q) l rs).
Proof.
  revert l. induction rs as [|r rs IH]; intros l; [done|]. simpl. intros H. apply IH.
  by rewrite <-Permutation_middle.
Qed.

#[export] Instance fcfs_refines : QueueRefines FCFSRequestQueue FCFS fcfs_repr.
Proof.
  split; unfold fcfs_repr; intros q l; simpl.
  - by intros [_ ?].
  - intros r [-> Hl] Hr. eexists. do 2 (split; [done|]). rewrite <-Permutation_cons_append.
    by apply objects_cons.
  - intros r [-> Hl] Hr. eexists. do 2 (split; [done|]). by apply objects_cons.
  - intros rs [-> Hl] Hr. eexists. do 2 (split; [done|]). by apply objects_prepends.
  - intros [-> Hl]. destruct l as [|r l]; [done|]. apply objects_cons in Hl as [_ Hl]. eauto.
  - by intros [-> _].
  - intros r [-> Hl]. rewrite list_remove_spec by done. case_decide; [|done].
    eexists. do 2 (split; [done|]). by apply objects_filter.
  - intros rs [-> Hl]. eexists. do 2 (split; [done|]). by apply objects_filter.
  - intros [-> _]. destruct l; [done|]. rewrite zlen_cons, bool_decide_true by done.
    apply Z.ltb_lt. pose proof (zlen_nonneg l). lia.
  - by intros [-> _].
  - by intros [-> _].
Qed.

(** ** The heap *)

Lemma request_lt_tri a b :
  request_lt a b = true ∨ request_lt b a = true ∨
  (priority a = priority b ∧ arrival_time a = arrival_time b ∧ request_id a = request_id b ∧
   obj_addr a = obj_addr b).
Proof.
  destruct (decide (obj_addr a = obj_addr b)) as [E|E]; [|destruct (request_lt_total a b E); auto].
  rewrite !request_lt_key. unfold lt_key.
  destruct (Z.lt_trichotomy (priority a) (priority b)) as [|[Hp|]]; [by left; left| |by right; left; left].
  destruct (Z.lt_trichotomy (arrival_time a) (arrival_time b)) as [|[Ht|]]; [naive_solver| |naive_solver].
  destruct (decide (request_id a = request_id b)) as [Ei|Ei]; [by right; right|].
  pose proof (string_ltb_total _ _ Ei). naive_solver.
Qed.

#[export] Instance request_order : WeakOrder request_lt.
Proof.
  split; [apply request_lt_irrefl|apply request_lt_trans|]. intros x y z Hyx Hzy.
  destruct (request_lt z x) eqn:Hzx; [|done].
  destruct (request_lt_tri y z) as [H|[H|(E1 & E2 & E3 & E4)]]; [|congruence|].
  - by rewrite (request_lt_trans y z x) in Hyx.
  - apply request_lt_key in Hzx. assert (request_lt y x = true); [|congruence].
    apply request_lt_key. unfold lt_key in *. by rewrite E1, E2, E3, E4.
Qed.

Abbreviation request_le := (heap_le request_lt).

Lemma request_le_antisym l x y : objects l → x ∈ l → y ∈ l → request_le x y → request_le y x → x = y.
Proof.
  unfold heap_le. intros Hl Hx Hy H1 H2. destruct (request_lt_tri x y) as [?|[?|(_ & _ & _ & E)]]; [congruence..|].
  by eapply objects_eq.
Qed.

Definition prio_repr (q : PriorityRequestQueue) (l : list Request) : Prop :=
  heap_from request_lt 0 (_heap q) ∧ _heap q ≡ₚ l ∧ StronglySorted request_le l ∧ objects l.

Lemma insert_sorted_perm l r : insert_sorted l r ≡ₚ r :: l.
Proof.
  induction l as [|x l IH]; [done|]. simpl. destruct (request_lt r x); [done|]. rewrite IH. apply perm_swap.
Qed.

Lemma insert_sorted_sorted l r : StronglySorted request_le l → StronglySorted request_le (insert_sorted l r).
Proof.
  induction l as [|x l IH]; intros Hs; [by repeat constructor|]. simpl. inversion Hs as [|? ? Hl Hx]; subst.
  destruct (request_lt r x) eqn:E.
  - constructor; [done|]. pose proof (heap_lt_le request_lt _ _ E). constructor; [done|].
    eapply Forall_impl; [exact Hx|]. intros y Hy. by apply (heap_le_trans request_lt r x y).
  - constructor; [by apply IH|]. rewrite insert_sorted_perm. by constructor.
Qed.

Lemma StronglySorted_filter (P : Request → Prop) `{!∀ x, Decision (P x)} l :
  StronglySorted request_le l → StronglySorted request_le (filter P l).
Proof.
  induction 1 as [|x l Hl IH Hx]; [constructor|]. rewrite filter_cons. case_decide; [|done].
  constructor; [done|]. apply Forall_forall. intros y [_ Hy]%list_elem_of_filter.
  by apply (proj1 (Forall_forall _ _) Hx).
Qed.

Lemma prio_add_spec q l r :
  prio_repr q l → fresh_for l r → ∃ q', prio_add q r = Ok q' ∧ prio_repr q' (insert_sorted l r).
Proof.
  intros (Hh & Hp & Hs & Hl) Hr. unfold prio_add.
  destruct (heappush_spec request_lt (_heap q) r Hh) as (h & -> & Hp' & Hh'). simpl. eexists. split; [done|].
  split; [done|]. split; [by simpl; rewrite Hp', Hp, insert_sorted_perm|].
  split; [by apply insert_sorted_sorted|]. rewrite insert_sorted_perm. by apply objects_cons.
Qed.

(** The root of the heap is the head of the sorted list. *)
Lemma prio_head q r l :
  prio_repr q (r :: l) → ∃ rest, _heap q = r :: rest ∧ rest ≡ₚ l.
Proof.
  intros (Hh & Hp & Hs & Hl). destruct (_heap q) as [|x rest] eqn:E; [by apply Permutation_nil_cons in Hp|].
  assert (x = r) as ->; [|exists rest; split; [done|]; by apply Permutation_cons_inv in Hp].
  assert (x ∈ r :: l) as Hx by (rewrite <-Hp; by left).
  apply (request_le_antisym (r :: l)); [done|done|by left| |].
  - apply (heap_root request_lt (x :: rest)); [by rewrite <-E in *|done|]. rewrite Hp. by left.
  - apply elem_of_cons in Hx as [->|Hx]; [apply request_lt_irrefl|].
    inversion Hs as [|? ? _ Hf]; subst. by apply (proj1 (Forall_forall _ _) Hf).
Qed.

Lemma prio_pop q r l :
  prio_repr q (r :: l) → ∃ h, heappop request_lt (_heap q) = Ok (r, h) ∧ prio_repr (mkPriority h) l.
Proof.
  intros Hq. destruct (prio_head _ _ _ Hq) as (rest & E & Hrest). destruct Hq as (Hh & _ & Hs & Hl).
  destruct (heappop_spec request_lt (_heap q) r rest Hh E) as (h & Hrun & Hp & Hh' & _).
  exists h. split; [done|]. apply objects_cons in Hl as [_ Hl]. inversion Hs.
  split_and!; try done. simpl. by rewrite Hp, Hrest.
Qed.

Lemma prio_nil q : prio_repr q [] → _heap q = [].
Proof. intros (_ & Hp & _). by apply Permutation_nil_r. Qed.

Lemma prio_drain_spec n h l :
  prio_repr (mkPriority h) l → (length h ≤ n)%nat → prio_drain n h = Ok l.
Proof.
  revert h l. induction n as [|n IH]; intros h l Hq Hn.
  - destruct h; [|simpl in Hn; lia]. destruct Hq as (_ & Hp & _). simpl in Hp.
    apply Permutation_nil_l in Hp. by subst.
  - destruct l as [|r l]; [by rewrite (prio_nil _ Hq : h = [])|].
    destruct (prio_head _ _ _ Hq) as (rest & E & _). simpl in E. subst h.
    destruct (prio_pop _ _ _ Hq) as (h' & Hrun & Hq'). simpl in Hrun. cbn [prio_drain]. rewrite Hrun. simpl.
    rewrite (IH h' l Hq'); [done|]. destruct Hq' as (_ & Hp' & _). destruct Hq as (_ & Hp & _).
    apply Permutation_length in Hp, Hp'. simpl in *. lia.
Qed.

Lemma prio_heapify h l :
  h ≡ₚ l → StronglySorted request_le l → objects l →
  ∃ h', heapify request_lt h = Ok h' ∧ prio_repr (mkPriority h') l.
Proof.
  intros Hp Hs Hl. destruct (heapify_spec request_lt h) as (h' & Hrun & Hp' & Hh'). exists h'.
  split; [done|]. split_and!; try done. simpl. by rewrite Hp'.
Qed.

Lemma prio_prepends q l rs :
  prio_repr q l → objects (rs ++ l) →
  ∃ q', mfold prio_add q rs = Ok q' ∧ prio_repr q' (foldl insert_sorted l rs).
Proof.
  revert q l. induction rs as [|r rs IH]; intros q l Hq Ho; [by exists q|]. simpl in *.
  apply objects_cons in Ho as [Hr Ho].
  destruct (prio_add_spec q l r Hq) as (q' & -> & Hq').
  { unfold fresh_for in *. rewrite fmap_app in Hr. set_solver. }
  apply IH; [done|]. rewrite insert_sorted_perm, <-Permutation_middle. by apply objects_cons.
Qed.

#[export] Instance priority_refines : QueueRefines PriorityRequestQueue PRIORITY prio_repr.
Proof.
  split; intros q l; simpl.
  - by intros (_ & _ & _ & ?).
  - intros r. apply prio_add_spec.
  - intros r. apply prio_add_spec.
  - intros rs. apply prio_prepends.
  - intros Hq. destruct l as [|r l]; [by rewrite (prio_nil _ Hq)|].
    destruct (prio_pop _ _ _ Hq) as (h & Hrun & Hq'). destruct (prio_head _ _ _ Hq) as (rest & E & _).
    rewrite E in *. rewrite Hrun. simpl. eauto.
  - intros Hq. destruct l as [|r l]; [by rewrite (prio_nil _ Hq)|].
    destruct (prio_head _ _ _ Hq) as (rest & -> & _). done.
  - intros r (Hh & Hp & Hs & Hl). assert (objects (_heap q)) as Hl' by by rewrite Hp.
    rewrite !list_remove_spec by done.
    destruct (decide (obj_addr r ∈ (obj_addr <$> l))) as [Hin|Hin]; [|by rewrite decide_False by by rewrite Hp].
    rewrite decide_True by by rewrite Hp. simpl.
    destruct (prio_heapify (filter (λ x, is_object r x = false) (_heap q)) (filter (λ x, is_object r x = false) l))
      as (h & -> & Hq'); [by rewrite Hp|by apply StronglySorted_filter|by apply objects_filter|eauto].
  - intros rs (Hh & Hp & Hs & Hl).
    destruct (prio_heapify (list_without (_heap q) rs) (list_without l rs)) as (h & -> & Hq');
      [by unfold list_without; rewrite Hp|by apply StronglySorted_filter|by apply objects_filter|simpl; eauto].
  - intros Hq. destruct l as [|r l]; [by rewrite (prio_nil _ Hq)|].
    destruct (prio_head _ _ _ Hq) as (rest & -> & _). done.
  - intros (_ & Hp & _). unfold zlen. by rewrite Hp.
  - intros Hq. apply prio_drain_spec; [by destruct q|done].
Qed.

(** ** Either of the two *)

Definition any_repr (policy : SchedulingPolicy) (q : any_queue) (l : list Request) : Prop :=
  match policy, q with
  | FCFS, AFCFS q => fcfs_repr q l
  | PRIORITY, APriority q => prio_repr q l
  | _, _ => False
  end.

(** A method that returns the wrapped queue. *)
Ltac wrapped H :=
  let q' := fresh "q'" in let Hrun := fresh "Hrun" in let Hq := fresh "Hq" in
  edestruct H as (q' & Hrun & Hq); [eassumption..|]; cbn; cbn in Hrun;
  first [rewrite Hrun | injection Hrun as <-];
  eexists; split; [reflexivity|exact Hq].

#[export] Instance any_refines policy : QueueRefines any_queue policy (any_repr policy).
Proof.
  split; intros q l; destruct policy, q as [q|q]; try done; simpl any_repr.
  1-2: intros Hq; exact (qr_objects q l Hq).
  1-2: intros r Hq Hr; wrapped (qr_add q l r).
  1-2: intros r Hq Hr; wrapped (qr_prepend q l r).
  1-2: intros rs Hq Hr; wrapped (qr_prepends q l rs).
  1-2: intros Hq; pose proof (qr_pop q l Hq) as Hpop; destruct l as [|r l]; cbn in *;
    [by rewrite Hpop|destruct Hpop as (q' & -> & Hq'); cbn; by first [exists (AFCFS q')|exists (APriority q')]].
  1-2: intros Hq; exact (qr_peek q l Hq).
  1-2: intros r Hq; pose proof (qr_remove q l r Hq) as Hrem; destruct (list_remove l r); cbn in *;
    [destruct Hrem as (q' & -> & Hq'); cbn; by first [exists (AFCFS q')|exists (APriority q')]|by rewrite Hrem].
  1-2: intros rs Hq; wrapped (qr_removes q l rs).
  1-2: intros Hq; exact (qr_bool q l Hq).
  1-2: intros Hq; exact (qr_len q l Hq).
  1-2: intros Hq; exact (qr_iter q l Hq).
Qed.

(** ** Clients *)

Inductive queue_op :=
  | QAdd (r : Request) | QPrepend (r : Request) | QPrependAll (rs : list Request)
  | QPop | QPeek | QRemove (r : Request) | QRemoveAll (rs : list Request)
  | QBool | QLen | QIter.

Inductive queue_obs :=
  | ODone | ORequest (r : Request) | ORequests (rs : list Request) | OBool (b : bool) | OInt (n : Z)
  | ORaise (e : exn).

(** A call that raises leaves the queue as it was. *)
Definition update_queue {Q} (q : Q) (m : result Q) : queue_obs * Q :=
  match m with Ok q' => (ODone, q') | Raise e => (ORaise e, q) end.

Definition queue_call {Q} `{RequestQueue Q} (q : Q) (op : queue_op) : queue_obs * Q :=
  match op with
  | QAdd r => update_queue q (add_request q r)
  | QPrepend r => update_queue q (prepend_request q r)
  | QPrependAll rs => update_queue q (prepend_requests q rs)
  | QPop => match pop_request q with Ok (r, q') => (ORequest r, q') | Raise e => (ORaise e, q) end
  | QPeek => (match peek_request q with Ok r => ORequest r | Raise e => ORaise e end, q)
  | QRemove r => update_queue q (remove_request q r)
  | QRemoveAll rs => update_queue q (remove_requests q rs)
  | QBool => (OBool (queue_bool q), q)
  | QLen => (OInt (queue_len q), q)
  | QIter => (match queue_iter q with Ok rs => ORequests rs | Raise e => ORaise e end, q)
  end.

Fixpoint queue_run {Q} `{RequestQueue Q} (q : Q) (ops : list queue_op) : list queue_obs :=
  match ops with
  | [] => []
  | op :: ops => let '(o, q) := queue_call q op in o :: queue_run q ops
  end.

(** The same calls on the list of requests in the order they are served. *)
Definition spec_call (policy : SchedulingPolicy) (l : list Request) (op : queue_op)
    : queue_obs * list Request :=
  match op with
  | QAdd r => (ODone, policy_add policy l r)
  | QPrepend r => (ODone, policy_prepend policy l r)
  | QPrependAll rs => (ODone, foldl (policy_prepend policy) l rs)
  | QPop => match l with [] => (ORaise IndexError, []) | r :: l => (ORequest r, l) end
  | QPeek => (match l with [] => ORaise IndexError | r :: _ => ORequest r end, l)
  | QRemove r => update_queue l (list_remove l r)
  | QRemoveAll rs => (ODone, list_without l rs)
  | QBool => (OBool (bool_decide (l ≠ [])), l)
  | QLen => (OInt (zlen l), l)
  | QIter => (ORequests l, l)
  end.

Fixpoint spec_run (policy : SchedulingPolicy) (l : list Request) (ops : list queue_op) : list queue_obs :=
  match ops with
  | [] => []
  | op :: ops => let '(o, l) := spec_call policy l op in o :: spec_run policy l ops
  end.

(** A request is not put in a queue it is in. *)
Definition op_ok (l : list Request) (op : queue_op) : Prop :=
  match op with
  | QAdd r | QPrepend r => fresh_for l r
  | QPrependAll rs => objects (rs ++ l)
  | _ => True
  end.

Fixpoint ops_ok (policy : SchedulingPolicy) (l : list Request) (ops : list queue_op) : Prop :=
  match ops with
  | [] => True
  | op :: ops => op_ok l op ∧ ops_ok policy (spec_call policy l op).2 ops
  end.

Section client.
Context `{Href : QueueRefines Q policy repr}.

Lemma update_spec (q : Q) (m : result Q) l' :
  (∃ q', m = Ok q' ∧ repr q' l') → ∃ q', update_queue q m = (ODone, q') ∧ repr q' l'.
Proof. intros (q' & -> & ?). eauto. Qed.

Lemma queue_call_spec q l op :
  repr q l → op_ok l op →
  ∃ q', queue_call q op = ((spec_call policy l op).1, q') ∧ repr q' (spec_call policy l op).2.
Proof.
  intros Hq Hok. destruct op as [r|r|rs| | |r|rs| | |]; simpl.
  - by apply update_spec, qr_add.
  - by apply update_spec, qr_prepend.
  - by apply update_spec, qr_prepends.
  - pose proof (qr_pop q l Hq) as Hpop. destruct l as [|r l]; [rewrite Hpop; eauto|].
    destruct Hpop as (q' & -> & ?). eauto.
  - rewrite (qr_peek q l Hq). destruct l; eauto.
  - pose proof (qr_remove q l r Hq) as Hrem. destruct (list_remove l r) as [l'|e]; simpl.
    + by apply update_spec.
    + rewrite Hrem. simpl. eauto.
  - by apply update_spec, qr_removes.
  - rewrite (qr_bool q l Hq). eauto.
  - rewrite (qr_len q l Hq). eauto.
  - rewrite (qr_iter q l Hq). eauto.
Qed.

Lemma queue_run_spec q l ops : repr q l → ops_ok policy l ops → queue_run q ops = spec_run policy l ops.
Proof.
  revert q l. induction ops as [|op ops IH]; intros q l Hq; [done|]. intros [Hop Hops].
  destruct (queue_call_spec q l op Hq Hop) as (q' & Hrun & Hq'). cbn [queue_run spec_run]. rewrite Hrun.
  destruct (spec_call policy l op) as [o l']. simpl. f_equal. by apply IH.
Qed.
End client.

Lemma create_repr policy : any_repr policy (create_request_queue policy) [].
Proof.
  destruct policy; (split; [done|]); [constructor|]. split; [done|]. split; constructor.
Qed.

(** ** Properties *)

(** C40: whatever a scheduler calls on a fresh queue of either policy, as long as
    it does not add a request twice, every result and every exception is that of
    a plain list kept in service order: appended at the back and popped at the
    front under FCFS, inserted behind the requests that are not after it in the
    order (priority, arrival time, id) under priority. *)
Theorem request_queue_refines policy ops :
  ops_ok policy [] ops →
  queue_run (create_request_queue policy) ops = spec_run policy [] ops.
Proof. apply queue_run_spec, create_repr. Qed.

(** The queue after some calls. *)
Definition queue_after (policy : SchedulingPolicy) (ops : list queue_op) : any_queue :=
  foldl (λ q op, (queue_call q op).2) (create_request_queue policy) ops.

Lemma queue_after_repr policy ops q l :
  any_repr policy q l → ops_ok policy l ops →
  any_repr policy (foldl (λ q op, (queue_call q op).2) q ops) (foldl (λ l op, (spec_call policy l op).2) l ops).
Proof.
  revert q l. induction ops as [|op ops IH]; intros q l Hq; [done|]. intros [Hop Hops]. simpl.
  destruct (queue_call_spec q l op Hq Hop) as (q' & Hrun & Hq'). rewrite Hrun. by apply IH.
Qed.

(** A priority queue that holds a request serves one that no other request in
    it precedes, and iterating over it yields all its requests in an order in
    which none precedes an earlier one. *)
Theorem priority_order ops q :
  ops_ok PRIORITY [] ops → q = queue_after PRIORITY ops →
  ∃ l, queue_iter q = Ok l ∧ queue_len q = zlen l ∧ StronglySorted (λ x y, request_lt y x = false) l ∧
    match pop_request q with
    | Ok (r, q') => r ∈ l ∧ (∀ x, x ∈ l → request_lt x r = false) ∧ queue_iter q' = Ok (tail l)
    | Raise e => e = IndexError ∧ l = []
    end.
Proof.
  intros Hok ->. pose proof (queue_after_repr PRIORITY ops _ [] (create_repr _) Hok) as Hq.
  set (l := foldl _ [] ops) in Hq. exists l. fold (queue_after PRIORITY ops) in Hq.
  set (q := queue_after PRIORITY ops) in *.
  assert (StronglySorted request_le l) as Hs by (destruct q; [done|apply Hq]).
  split; [exact (qr_iter q l Hq)|]. split; [exact (qr_len q l Hq)|]. split; [done|].
  pose proof (qr_pop q l Hq) as Hpop. destruct l as [|r l']; [by rewrite Hpop|].
  destruct Hpop as (q' & -> & Hq'). split; [by left|]. split; [|exact (qr_iter q' l' Hq')].
  inversion Hs as [|? ? _ Hf]; subst. intros x [->|Hx]%elem_of_cons; [apply request_lt_irrefl|].
  by apply (proj1 (Forall_forall _ _) Hf).
Qed.

(** ** Examples *)

Definition demo_queued (id : string) (addr prio time : Z) : Request :=
  mkRequest id addr 0 prio time None None None false WAITING None 16 (Some [1; 2; 3; 4; 9])
    None ∅ 5 [] [1; 2; 3; 4; 9] 0 0 0 0 [] 0 None [] false 0 [] false false false.

Definition demo_ops : list queue_op :=
  let a := demo_queued "a" 1 5 0 in let b := demo_queued "b" 2 0 1 in
  let c := demo_queued "c" 3 5 (-1) in let d := demo_queued "d" 4 0 0 in
  [QPop; QAdd a; QAdd b; QAdd c; QPeek; QPrependAll [d]; QIter; QPop; QRemove c; QRemove c; QIter; QLen].

Lemma demo_ops_ok policy : ops_ok policy [] demo_ops.
Proof.
  destruct policy; cbn; unfold fresh_for, objects; (repeat split); (done || apply (bool_decide_unpack _); vm_compute; exact I).
Qed.

Lemma request_queue_refines_witness :
  queue_run (create_request_queue PRIORITY) demo_ops = spec_run PRIORITY [] demo_ops ∧
  queue_run (create_request_queue FCFS) demo_ops = spec_run FCFS [] demo_ops.
Proof. split; apply request_queue_refines, demo_ops_ok. Defined.

Lemma priority_order_witness :
  ∃ l, queue_iter (queue_after PRIORITY demo_ops) = Ok l ∧ queue_len (queue_after PRIORITY demo_ops) = zlen l ∧
    StronglySorted (λ x y, request_lt y x = false) l.
Proof.
  destruct (priority_order demo_ops _ (demo_ops_ok _) eq_refl) as (l & H1 & H2 & H3 & _). by exists l.
Defined.
