(* ===== verification/SchedUtils.v ===== *)
(** * Stop conditions and list helpers of the scheduler

    [vllm/v1/core/sched/utils.py]: detection of repeated patterns at the end of
    an output, [check_stop] and [remove_all]. *)

From S2P Require Import Prelude KVBlock Request.

#[local] Open Scope Z_scope.

(** ** Repetition *)

Definition _has_repeating_pattern (token_ids : list Z) (pattern_len repetition_min_count : Z) : result bool :=
  o ← mfind (λ n : Z,
        target_token ← py_index_back token_ids n;
        mfind (λ m : Z,
          t ← py_index_back token_ids (pattern_len * m + n);
          Ok (if t =? target_token then None else Some false)) (py_range 1 repetition_min_count))
      (py_range 1 (pattern_len + 1));
  Ok (default true o).

Definition check_sequence_repetition (token_ids : list Z) (params : RepetitionDetectionParams) : result bool :=
  let max_size := max_pattern_size params in
  let min_size := if min_pattern_size params <=? 0 then 1 else min_pattern_size params in
  let cnt := min_count params in
  if ((max_size <=? 0) || (cnt <? 2) || (max_size <? min_size))%bool then Ok false else
  o ← mfind (λ pattern_len : Z,
        if zlen token_ids <? pattern_len * cnt then Ok (Some false) else
        b ← _has_repeating_pattern token_ids pattern_len cnt;
        Ok (if (b : bool) then Some true else None))
      (py_range min_size (max_size + 1));
  Ok (default false o).

(** ** Lists *)

(** [lst.remove(item)] with [ValueError] suppressed. *)
Fixpoint remove_first {A} `{EqDecision A} (x : A) (l : list A) : list A :=
  match l with
  | [] => []
  | y :: l => if decide (x = y) then l else y :: remove_first x l
  end.

(** [items_to_remove] is a set, in iteration order.  The result is the returned
    list and the argument list afterwards. *)
Definition remove_all {A} `{EqDecision A} (lst items_to_remove : list A) : list A * list A :=
  match items_to_remove with
  | [] => (lst, lst)
  | [item] => let lst := remove_first item lst in (lst, lst)
  | _ => (filter (λ item, item ∉ items_to_remove) lst, lst)
  end.

(** ** Stopping *)

Definition check_stop (request : Request) (max_model_len : Z) : result (bool * Request) :=
  _ ← py_assert (match pooling_params request with None => true | Some _ => false end);
  match sampling_params request with
  | None => Raise AssertionError
  | Some sp =>
      if num_output_tokens request <? min_tokens sp then Ok (false, request) else
      last_token_id ← py_index_back (output_token_ids request) 1;
      if bool_decide (Some last_token_id = eos_token_id sp) then
        Ok (true, set_status FINISHED_STOPPED request)
      else if bool_decide (last_token_id ∈ stop_token_ids sp) then
        Ok (true, set_stop_reason (Some (StopToken last_token_id)) (set_status FINISHED_STOPPED request))
      else if (max_model_len <=? num_tokens request) || (max_tokens request <=? num_output_tokens request) then
        Ok (true, set_status FINISHED_LENGTH_CAPPED request)
      else
        repeats ←
          match repetition_detection sp with
          | None => Ok false
          | Some params => check_sequence_repetition (output_token_ids request) params
          end;
        if (repeats : bool) then
          Ok (true, set_stop_reason (Some (StopText "repetition_detected")) (set_status FINISHED_REPETITION request))
        else Ok (false, request)
  end.

(** ** What repetition means *)

(** The tokens end with [count] copies of one pattern of length [len]. *)
Definition ends_with_copies (tokens : list Z) (len count : Z) : Prop :=
  ∃ pre pat, zlen pat = len ∧ tokens = pre ++ concat (replicate (Z.to_nat count) pat).

Lemma length_copies {A} k (p : list A) : length (concat (replicate k p)) = (k * length p)%nat.
Proof. induction k as [|k IH]; [done|]. simpl. rewrite length_app, IH. done. Qed.

Lemma lookup_copies {A} k (p : list A) q j :
  (q < k)%nat → (j < length p)%nat → concat (replicate k p) !! (length p * q + j)%nat = p !! j.
Proof.
  revert q. induction k as [|k IH]; intros q Hq Hj; [lia|]. simpl. destruct q as [|q].
  - rewrite Nat.mul_0_r. simpl. by rewrite lookup_app_l.
  - rewrite lookup_app_r by nia. replace (length p * S q + j - length p)%nat with (length p * q + j)%nat by nia.
    apply IH; lia.
Qed.

(** Equality of the compared positions, counted from the end. *)
Definition back_equal (t : list Z) (p k : nat) : Prop :=
  ∀ n m, (1 ≤ n ≤ p)%nat → (1 ≤ m < k)%nat →
    t !! (length t - (p * m + n))%nat = t !! (length t - n)%nat.

Lemma back_equal_copies t p k :
  (0 < p)%nat → (0 < k)%nat → (p * k ≤ length t)%nat →
  back_equal t p k ↔ drop (length t - p * k) t = concat (replicate k (drop (length t - p) t)).
Proof.
  intros Hp Hk Hl. set (L := length t) in *. assert (p ≤ L)%nat as HpL by nia.
  assert (length (drop (L - p) t) = p) as Hpat by (rewrite length_drop; fold L; lia).
  assert (∀ q j, (q < k)%nat → (j < p)%nat →
    drop (L - p * k) t !! (p * q + j)%nat = t !! (L - (p * (k - 1 - q) + (p - j)))%nat ∧
    concat (replicate k (drop (L - p) t)) !! (p * q + j)%nat = t !! (L - (p - j))%nat) as Hpos.
  { intros q j Hq Hj. split.
    - rewrite lookup_drop. f_equal. nia.
    - pose proof (lookup_copies k (drop (L - p) t) q j Hq) as H. rewrite Hpat in H. rewrite H by done.
      rewrite lookup_drop. f_equal. lia. }
  split.
  - intros Heq. apply list_eq_same_length with (n := (p * k)%nat);
      [rewrite length_copies, Hpat; lia|rewrite length_drop; fold L; lia|].
    intros i x y Hi Hx Hy. pose proof (Nat.div_mod_eq i p) as Ei. pose proof (Nat.mod_upper_bound i p).
    set (q := (i / p)%nat) in *. set (j := (i mod p)%nat) in *.
    assert (q < k)%nat by (apply Nat.Div0.div_lt_upper_bound; lia).
    destruct (Hpos q j) as [H1 H2]; [lia..|]. rewrite Ei in Hx, Hy. rewrite H1 in Hx. rewrite H2 in Hy.
    destruct (decide (k - 1 - q = 0)%nat) as [E|E].
    + rewrite E, Nat.mul_0_r in Hx. simpl in Hx. congruence.
    + pose proof (Heq (p - j)%nat (k - 1 - q)%nat) as E2. fold L in E2. rewrite E2 in Hx by lia. congruence.
  - intros Heq n m Hn Hm. destruct (Hpos (k - 1 - m)%nat (p - n)%nat) as [H1 H2]; [lia..|].
    rewrite Heq, H2 in H1. replace (k - 1 - (k - 1 - m))%nat with m in H1 by lia.
    replace (p - (p - n))%nat with n in H1 by lia. done.
Qed.

Lemma ends_with_copies_iff t p k :
  (0 < p)%nat → (0 < k)%nat → (p * k ≤ length t)%nat →
  ends_with_copies t (Z.of_nat p) (Z.of_nat k) ↔ back_equal t p k.
Proof.
  intros Hp Hk Hl. rewrite back_equal_copies by done. unfold ends_with_copies, zlen. rewrite Nat2Z.id. split.
  - intros (pre & pat & Hpat & ->). apply Nat2Z.inj in Hpat. rewrite length_app, length_copies in *.
    rewrite drop_app_length' by lia. do 2 f_equal.
    destruct k as [|k]; [lia|]. rewrite replicate_S_end, concat_app, app_assoc. simpl. rewrite app_nil_r.
    rewrite drop_app_length'; [done|]. rewrite length_app, length_copies. lia.
  - intros E. eexists (take (length t - p * k) t), _. split; [|by rewrite <-E, take_drop].
    rewrite length_drop. nia.
Qed.

Lemma has_repeating_pattern_spec t p k :
  0 < p → 1 ≤ k → p * k ≤ zlen t →
  ∃ b, _has_repeating_pattern t p k = Ok b ∧ (b = true ↔ ends_with_copies t p k).
Proof.
  intros Hp Hk Hl. unfold _has_repeating_pattern.
  rewrite (mfind_test (λ n, Forall (λ m, t !!! (length t - Z.to_nat (p * m + n))%nat =
    t !!! (length t - Z.to_nat n)%nat) (py_range 1 k)) _ false).
  - eexists. split; [reflexivity|]. rewrite <-(Z2Nat.id p), <-(Z2Nat.id k) by lia.
    rewrite ends_with_copies_iff by (unfold zlen in Hl; nia). rewrite !Z2Nat.id by lia.
    unfold zlen in Hl. transitivity (∀ n m, 1 ≤ n < p + 1 → 1 ≤ m < k →
      t !!! (length t - Z.to_nat (p * m + n))%nat = t !!! (length t - Z.to_nat n)%nat).
    { case_decide as H; simpl; rewrite Forall_forall in H.
      - split; [intros _ n m Hn Hm|done]. specialize (H n (proj2 (elem_of_py_range _ _ _) Hn)).
        rewrite Forall_forall in H. by apply H, elem_of_py_range.
      - split; [done|]. intros H'. destruct H. intros n Hn%elem_of_py_range.
        apply Forall_forall. intros m Hm%elem_of_py_range. by apply H'. }
    unfold back_equal. split.
    + intros H n m Hn Hm. specialize (H (Z.of_nat n) (Z.of_nat m)).
      rewrite !list_lookup_lookup_total_lt by lia. f_equal. rewrite Nat2Z.id in H.
      replace (Z.to_nat (p * Z.of_nat m + Z.of_nat n)) with (Z.to_nat p * m + n)%nat in H by lia.
      apply H; lia.
    + intros H n m Hn Hm. specialize (H (Z.to_nat n) (Z.to_nat m)).
      rewrite !list_lookup_lookup_total_lt in H by lia.
      replace (Z.to_nat p * Z.to_nat m + Z.to_nat n)%nat with (Z.to_nat (p * m + n)) in H by lia.
      apply (inj Some), H; lia.
  - intros n Hn%elem_of_py_range. rewrite py_index_back_total by nia. cbn [mbind result_bind].
    apply (mfind_test (λ m, _ = _)). intros m Hm%elem_of_py_range.
    rewrite py_index_back_total by nia. cbn [mbind result_bind]. case_decide as E.
    + by rewrite E, Z.eqb_refl.
    + by rewrite (proj2 (Z.eqb_neq _ _)).
Qed.

Lemma ends_with_copies_length t p k : 0 ≤ k → ends_with_copies t p k → p * k ≤ zlen t.
Proof.
  intros Hk (pre & pat & <- & ->). rewrite zlen_app. unfold zlen at 3. rewrite length_copies.
  pose proof (zlen_nonneg pre). unfold zlen in *. nia.
Qed.

Lemma repetition_loop_spec t k a b :
  1 ≤ a → 2 ≤ k →
  ∃ o, mfind (λ pattern_len : Z,
         if zlen t <? pattern_len * k then Ok (Some false) else
         b ← _has_repeating_pattern t pattern_len k;
         Ok (if (b : bool) then Some true else None)) (py_range a b) = Ok o ∧
    (default false o = true ↔ ∃ len, a ≤ len < b ∧ ends_with_copies t len k).
Proof.
  intros Ha Hk. remember (Z.to_nat (b - a)) as n eqn:En. revert a Ha En.
  induction n as [|n IH]; intros a Ha En.
  - rewrite py_range_nil by lia. exists None. split; [done|]. split; [done|]. intros (len & ? & _). lia.
  - rewrite py_range_cons by lia. cbn [mfind]. destruct (Z.ltb_spec (zlen t) (a * k)) as [Hlt|Hge].
    + exists (Some false). split; [done|]. split; [done|]. intros (len & Hlen & Hc).
      apply ends_with_copies_length in Hc; [|lia]. nia.
    + destruct (has_repeating_pattern_spec t a k) as (c & -> & Hc); [lia..|]. cbn [mbind result_bind].
      destruct c.
      * exists (Some true). split; [done|]. split; [|done]. intros _. exists a. split; [lia|]. by apply Hc.
      * destruct (IH (a + 1)) as (o & -> & Ho); [lia..|]. exists o. split; [done|]. rewrite Ho.
        split; intros (len & Hlen & Hcp); exists len; (split; [|done]); [lia|].
        destruct (decide (len = a)) as [->|]; [|lia]. by apply Hc in Hcp.
Qed.

(** The smallest pattern that is looked for. *)
Definition least_pattern (params : RepetitionDetectionParams) : Z := Z.max 1 (min_pattern_size params).

Lemma check_sequence_repetition_spec t params :
  ∃ b, check_sequence_repetition t params = Ok b ∧
    (b = true ↔ 2 ≤ min_count params ∧
       ∃ len, least_pattern params ≤ len ≤ max_pattern_size params ∧ ends_with_copies t len (min_count params)).
Proof.
  unfold check_sequence_repetition, least_pattern.
  replace (if min_pattern_size params <=? 0 then 1 else min_pattern_size params)
    with (Z.max 1 (min_pattern_size params)) by (destruct (Z.leb_spec (min_pattern_size params) 0); lia).
  set (lo := Z.max 1 _). assert (1 ≤ lo) by lia.
  destruct (Z.leb_spec (max_pattern_size params) 0); [exists false; split; [done|]; split; [done|]; intros [? (?&?&?)]; lia|].
  destruct (Z.ltb_spec (min_count params) 2); [exists false; split; [done|]; split; [done|]; lia|].
  destruct (Z.ltb_spec (max_pattern_size params) lo);
    [exists false; split; [done|]; split; [done|]; intros [? (?&?&?)]; lia|].
  cbn [orb]. destruct (repetition_loop_spec t (min_count params) lo (max_pattern_size params + 1))
    as (o & -> & Ho); [lia..|].
  eexists. split; [reflexivity|]. rewrite Ho. split.
  - intros (len & ? & ?). split; [done|]. exists len. split; [lia|done].
  - intros (_ & len & ? & ?). exists len. split; [lia|done].
Qed.

(** ** Properties *)

(** Repetition is reported exactly when the tokens end with at least two
    copies, [min_count] of them, of one pattern whose length lies between the
    configured sizes (a smallest size of zero counts as one); no index is ever
    out of range. *)
Theorem repetition_detection_exact t params :
  ∃ b, check_sequence_repetition t params = Ok b ∧
    (b = true ↔ 2 ≤ min_count params ∧
       ∃ pre pat, least_pattern params ≤ zlen pat ≤ max_pattern_size params ∧
         t = pre ++ concat (replicate (Z.to_nat (min_count params)) pat)).
Proof.
  destruct (check_sequence_repetition_spec t params) as (b & -> & Hb). exists b. split; [done|]. rewrite Hb.
  unfold ends_with_copies. clear Hb. naive_solver.
Qed.

(** Why a request stops after the token [t]. *)
Definition stop_token (sp : SamplingParams) (t : Z) : Prop :=
  Some t = eos_token_id sp ∨ t ∈ stop_token_ids sp.
Definition length_capped (r : Request) (max_model_len : Z) : Prop :=
  max_model_len ≤ num_tokens r ∨ max_tokens r ≤ num_output_tokens r.
Definition repetitive (sp : SamplingParams) (r : Request) : Prop :=
  ∃ params len, repetition_detection sp = Some params ∧ 2 ≤ min_count params ∧
    least_pattern params ≤ len ≤ max_pattern_size params ∧
    ends_with_copies (output_token_ids r) len (min_count params).

(** For a request that has generated a token, the stop test never raises; it
    stops the request exactly when the minimum number of tokens is reached and
    the last token is an end or stop token, the length is at its cap or the
    output repeats, in this order of precedence for the reported status; it
    changes nothing else, and nothing at all when the request goes on. *)
Theorem check_stop_correct r sp max_model_len t :
  pooling_params r = None → sampling_params r = Some sp → last (output_token_ids r) = Some t →
  ∃ b r', check_stop r max_model_len = Ok (b, r') ∧
    (b = true ↔ min_tokens sp ≤ num_output_tokens r ∧
       (stop_token sp t ∨ length_capped r max_model_len ∨ repetitive sp r)) ∧
    (b = false → r' = r) ∧
    (b = true → r' = set_stop_reason (stop_reason r') (set_status (status r') r) ∧
       (stop_token sp t → status r' = FINISHED_STOPPED) ∧
       (¬ stop_token sp t → length_capped r max_model_len → status r' = FINISHED_LENGTH_CAPPED) ∧
       (¬ stop_token sp t → ¬ length_capped r max_model_len → status r' = FINISHED_REPETITION)).
Proof.
  intros Hp Hs Hl. unfold check_stop. rewrite Hp, Hs. cbn [py_assert mbind result_bind].
  unfold stop_token, length_capped.
  destruct (Z.ltb_spec (num_output_tokens r) (min_tokens sp)) as [Hm|Hm].
  { exists false, r. split_and!; try done. split; [done|]. lia. }
  assert (py_index_back (output_token_ids r) 1 = Ok t) as ->.
  { rewrite last_lookup in Hl. unfold py_index_back, py_index, zlen. pose proof (lookup_lt_Some _ _ _ Hl).
    rewrite (proj2 (Z.leb_le _ _)) by lia.
    replace (Z.to_nat (Z.of_nat (length (output_token_ids r)) - 1)) with (pred (length (output_token_ids r))) by lia.
    by rewrite Hl. }
  cbn [mbind result_bind].
  case_bool_decide as He; [eexists true, _; split; [done|]; destruct r; naive_solver|].
  case_bool_decide as Ht; [eexists true, _; split; [done|]; destruct r; naive_solver|].
  destruct ((max_model_len <=? num_tokens r) || (max_tokens r <=? num_output_tokens r)) eqn:Hc.
  { apply orb_true_iff in Hc. rewrite !Z.leb_le in Hc.
    eexists true, _. split; [done|]. destruct r; naive_solver. }
  apply orb_false_iff in Hc. rewrite !Z.leb_gt in Hc.
  assert (¬ (max_model_len ≤ num_tokens r ∨ max_tokens r ≤ num_output_tokens r)) as Hnc by lia.
  destruct (repetition_detection sp) as [params|] eqn:Hrep; cbn [mbind result_bind].
  - destruct (check_sequence_repetition_spec (output_token_ids r) params) as (b & -> & Hb). cbn [mbind result_bind].
    assert (b = true ↔ repetitive sp r) as Hb'.
    { rewrite Hb. unfold repetitive. rewrite Hrep. clear -params. naive_solver. }
    destruct b; [eexists true, _; split; [done|]; destruct r; clear Hb; naive_solver|].
    exists false, r. clear Hb. naive_solver.
  - exists false, r. split_and!; try done. split; [done|]. intros [_ [?|[?|(params & _ & ? & _)]]]; [tauto..|congruence].
Qed.

Lemma remove_first_split {A} `{EqDecision A} (x : A) l :
  x ∈ l → ∃ l1 l2, l = l1 ++ x :: l2 ∧ x ∉ l1 ∧ remove_first x l = l1 ++ l2.
Proof.
  induction l as [|y l IH]; intros Hx; [by apply elem_of_nil in Hx|]. simpl.
  destruct (decide (x = y)) as [->|Hne]; [exists [], l; split_and!; [done|apply not_elem_of_nil|done]|].
  apply elem_of_cons in Hx as [?|Hx]; [done|]. destruct (IH Hx) as (l1 & l2 & -> & Hn & E).
  exists (y :: l1), l2. rewrite E. split_and!; [done|set_solver|done].
Qed.

Lemma remove_first_absent {A} `{EqDecision A} (x : A) l : x ∉ l → remove_first x l = l.
Proof.
  induction l as [|y l IH]; intros Hx; simpl; [done|].
  rewrite decide_False, IH by set_solver. done.
Qed.

Lemma remove_all_nodup {A} `{EqDecision A} (lst items : list A) :
  NoDup lst → (remove_all lst items).1 = filter (λ x, x ∉ items) lst.
Proof.
  intros Hnd. destruct items as [|x [|y items]]; simpl; [|destruct (decide (x ∈ lst)) as [Hx|Hx]|done].
  - symmetry. apply filter_all. intros. apply not_elem_of_nil.
  - destruct (remove_first_split x lst Hx) as (l1 & l2 & -> & Hn & ->). apply NoDup_mid in Hnd as [Hn' _].
    rewrite filter_app, filter_cons_False by set_solver. rewrite !filter_all by set_solver. done.
  - rewrite remove_first_absent by done. symmetry. apply filter_all. set_solver.
Qed.

(** Removing a set of items from a list without repetitions leaves exactly
    the other items in their order.  With repetitions the single-item path
    removes one occurrence only, where the general path removes all of them. *)
Theorem remove_all_correct {A} `{EqDecision A} (lst items : list A) :
  (NoDup lst → (remove_all lst items).1 = filter (λ x, x ∉ items) lst) ∧
  (∀ x, items = [x] → x ∈ lst → ∃ l1 l2, lst = l1 ++ x :: l2 ∧ x ∉ l1 ∧ (remove_all lst items).1 = l1 ++ l2) ∧
  (length items ≠ 1%nat → (remove_all lst items).1 = filter (λ x, x ∉ items) lst ∧ (remove_all lst items).2 = lst).
Proof.
  split_and!; [apply remove_all_nodup|intros x -> Hx; by apply remove_first_split|].
  intros Hl. destruct items as [|x [|y items]]; simpl in *; [|lia|done]. split; [|done].
  symmetry. apply filter_all. intros. apply not_elem_of_nil.
Qed.

(** ** Examples *)

Definition demo_stopping : Request :=
  mkRequest "s" 0 0 0 0 (Some (mkSampling (Some 16) 2 (Some 0) [7] (Some (mkRepetition 3 0 2)) None)) None None false
    RUNNING None 16 (Some [1; 2]) None ∅ 2 [5; 6; 5; 6] [1; 2; 5; 6; 5; 6] 0 0 0 0 [] 0 None [] false 0 []
    false false false.

Lemma check_stop_correct_witness :
  ∃ r', check_stop demo_stopping 100 = Ok (true, r') ∧ status r' = FINISHED_REPETITION.
Proof.
  destruct (check_stop_correct demo_stopping (mkSampling (Some 16) 2 (Some 0) [7] (Some (mkRepetition 3 0 2)) None) 100 6)
    as (b & r' & H & _ & _ & Hst); [reflexivity..|].
  assert (b = true) as ->.
  { destruct b; [done|]. vm_compute in H. discriminate H. }
  exists r'. split; [exact H|]. apply Hst; [done| |]; unfold stop_token, length_capped; vm_compute; [set_solver|].
  intros [H1|H1]; by apply H1.
Defined.
