(* ===== verification/SchedState.v ===== *)
(** * The scheduler: state and elementary operations

    [Scheduler] ([vllm/v1/core/sched/scheduler.py]): the request table, the
    waiting and running requests, admission and removal of requests, preemption,
    streaming sessions, deferred release of blocks.

    The model is that of a scheduler without external transfer connectors
    ([self.connector] and [self.ec_connector] are [None]), routed-experts
    capture, statistics and event publishing.  A request object is named by its
    id: the request table holds its current state, the running list and the sets
    hold ids, and a queue holds the object with the fields its order reads. *)

From S2P Require Import Prelude OrderedDict KVBlock Request BlockPool KVSpecs Coordinator KVManager EncoderCache RequestQueue SchedUtils.

#[local] Open Scope Z_scope.

(** ** Configuration *)

Record SchedulerConfig := mkSchedConfig {
  policy : SchedulingPolicy;
  max_num_running_reqs : Z;
  max_num_scheduled_tokens : Z;
  sc_max_model_len : Z;
  num_sampled_tokens_per_step : Z;
  long_prefill_token_threshold : Z;
  enable_chunked_prefill : bool;
  sc_disable_chunked_mm_input : bool;
  is_encoder_decoder : bool;
  max_num_encoder_input_tokens : Z;
  use_eagle : bool;
  num_spec_tokens : Z;
  num_lookahead_tokens : Z;
  dynamic_sd_lookup : option (list Z);
  max_loras : option Z;  (* [lora_config] *)
  sc_has_mamba_layers : bool;
  need_mamba_block_aligned_split : bool;
  cache_block_size : Z;  (* [cache_config.block_size] *)
  scheduler_reserve_full_isl : bool;
  needs_kv_cache_zeroing : bool;
  defer_block_free : bool;
  use_v2_model_runner : bool;
  use_pp : bool;
  async_scheduling : bool;  (* the class is [AsyncScheduler] *)
  pp_size : Z;
}.

Inductive PauseState := UNPAUSED | PAUSED_NEW | PAUSED_ALL.

#[export] Instance PauseState_eq_dec : EqDecision PauseState.
Proof. solve_decision. Defined.

(** [StreamingUpdate] of [vllm/v1/request.py] *)
Record StreamingUpdate := mkUpdate {
  su_mm_features : list MultiModalFeatureSpec;
  su_prompt_token_ids : option (list Z);
  su_max_tokens : Z;
  su_arrival_time : Z;
  su_sampling_params : option SamplingParams;
}.

Definition update_from_request (r : Request) : option StreamingUpdate :=
  if resumable r then
    Some (mkUpdate (mm_features r) (prompt_token_ids r) (max_tokens r) (arrival_time r) (sampling_params r))
  else None.

(** ** The encoder cache of either kind *)

Inductive enc_manager := MMCache (e : EncoderCacheManager) | EncDecCache (e : EncoderDecoderCacheManager).

Section scheduler.
(** The hash functions, and the order in which a set of small integers is
    iterated over. *)
Context (sha256 : list bytes → bytes) (hasher : option block_hasher) (set_iter : gset nat → list nat).

Definition em_check_and_update_cache (e : enc_manager) (r : Request) (i : nat) : result (bool * enc_manager) :=
  match e with
  | MMCache e => '(b, e) ← check_and_update_cache e r i; Ok (b, MMCache e)
  | EncDecCache e => Ok (ed_check_and_update_cache e, EncDecCache e)
  end.

Definition em_can_allocate (e : enc_manager) (r : Request) (i : nat) (budget pending : Z)
    : result (bool * enc_manager) :=
  match e with
  | MMCache e => '(b, e) ← can_allocate e r i budget pending; Ok (b, MMCache e)
  | EncDecCache e => b ← ed_can_allocate e r i budget pending; Ok (b, EncDecCache e)
  end.

Definition em_allocate (e : enc_manager) (r : Request) (i : nat) : result enc_manager :=
  match e with
  | MMCache e => e ← enc_allocate e r i; Ok (MMCache e)
  | EncDecCache e => e ← ed_allocate e r i; Ok (EncDecCache e)
  end.

Definition em_cached_input_ids (e : enc_manager) (r : Request) : list nat :=
  match e with
  | MMCache e => set_iter (get_cached_input_ids e r)
  | EncDecCache e => ed_get_cached_input_ids r
  end.

Definition em_free_encoder_input (e : enc_manager) (r : Request) (i : nat) : result enc_manager :=
  match e with
  | MMCache e => e ← free_encoder_input e r i; Ok (MMCache e)
  | EncDecCache e => e ← ed_free_encoder_input e r i; Ok (EncDecCache e)
  end.

Definition em_free (e : enc_manager) (r : Request) : result enc_manager :=
  match e with
  | MMCache e => e ← enc_free e r (set_iter (get_cached_input_ids e r)); Ok (MMCache e)
  | EncDecCache e => e ← ed_free e r; Ok (EncDecCache e)
  end.

Definition em_get_freed_mm_hashes (e : enc_manager) : list string * enc_manager :=
  match e with
  | MMCache e => let '(l, e) := get_freed_mm_hashes e in (l, MMCache e)
  | EncDecCache e => let '(l, e) := ed_get_freed_mm_hashes e in (l, EncDecCache e)
  end.

Definition em_reset (e : enc_manager) : enc_manager :=
  match e with MMCache e => MMCache (enc_reset e) | EncDecCache e => EncDecCache (ed_reset e) end.

(** ** State *)

Record Scheduler := mkScheduler {
  config : SchedulerConfig;
  requests : list (string * Request);
  streaming_queue : gmap string (list (option StreamingUpdate));  (* of each resumable request *)
  waiting : any_queue;
  skipped_waiting : any_queue;
  running : list string;
  finished_req_ids : gset string;
  finished_req_ids_dict : option (gmap Z (gset string));
  prev_step_scheduled_req_ids : gset string;
  num_waiting_for_streaming_input : Z;
  encoder_cache_manager : enc_manager;
  kv_cache_manager : KVCacheManager;
  current_step : Z;
  prefill_capacity_bound : bool;
  sched_step_seq : Z;
  processed_step_seq : Z;
  deferred_frees : list (Z * list bref);
  pause_state : PauseState;
  inflight_prefills : gset string;
}.

Definition set_requests v s := mkScheduler (config s) v (streaming_queue s) (waiting s) (skipped_waiting s)
  (running s) (finished_req_ids s) (finished_req_ids_dict s) (prev_step_scheduled_req_ids s)
  (num_waiting_for_streaming_input s) (encoder_cache_manager s) (kv_cache_manager s) (current_step s)
  (prefill_capacity_bound s) (sched_step_seq s) (processed_step_seq s) (deferred_frees s) (pause_state s)
  (inflight_prefills s).
Definition set_streaming v n s := mkScheduler (config s) (requests s) v (waiting s) (skipped_waiting s)
  (running s) (finished_req_ids s) (finished_req_ids_dict s) (prev_step_scheduled_req_ids s)
  n (encoder_cache_manager s) (kv_cache_manager s) (current_step s)
  (prefill_capacity_bound s) (sched_step_seq s) (processed_step_seq s) (deferred_frees s) (pause_state s)
  (inflight_prefills s).
Definition set_queues w k s := mkScheduler (config s) (requests s) (streaming_queue s) w k
  (running s) (finished_req_ids s) (finished_req_ids_dict s) (prev_step_scheduled_req_ids s)
  (num_waiting_for_streaming_input s) (encoder_cache_manager s) (kv_cache_manager s) (current_step s)
  (prefill_capacity_bound s) (sched_step_seq s) (processed_step_seq s) (deferred_frees s) (pause_state s)
  (inflight_prefills s).
Definition set_running v s := mkScheduler (config s) (requests s) (streaming_queue s) (waiting s)
  (skipped_waiting s) v (finished_req_ids s) (finished_req_ids_dict s) (prev_step_scheduled_req_ids s)
  (num_waiting_for_streaming_input s) (encoder_cache_manager s) (kv_cache_manager s) (current_step s)
  (prefill_capacity_bound s) (sched_step_seq s) (processed_step_seq s) (deferred_frees s) (pause_state s)
  (inflight_prefills s).
Definition set_finished v d s := mkScheduler (config s) (requests s) (streaming_queue s) (waiting s)
  (skipped_waiting s) (running s) v d (prev_step_scheduled_req_ids s)
  (num_waiting_for_streaming_input s) (encoder_cache_manager s) (kv_cache_manager s) (current_step s)
  (prefill_capacity_bound s) (sched_step_seq s) (processed_step_seq s) (deferred_frees s) (pause_state s)
  (inflight_prefills s).
Definition set_prev_step v s := mkScheduler (config s) (requests s) (streaming_queue s) (waiting s)
  (skipped_waiting s) (running s) (finished_req_ids s) (finished_req_ids_dict s) v
  (num_waiting_for_streaming_input s) (encoder_cache_manager s) (kv_cache_manager s) (current_step s)
  (prefill_capacity_bound s) (sched_step_seq s) (processed_step_seq s) (deferred_frees s) (pause_state s)
  (inflight_prefills s).
Definition set_encoder v s := mkScheduler (config s) (requests s) (streaming_queue s) (waiting s)
  (skipped_waiting s) (running s) (finished_req_ids s) (finished_req_ids_dict s) (prev_step_scheduled_req_ids s)
  (num_waiting_for_streaming_input s) v (kv_cache_manager s) (current_step s)
  (prefill_capacity_bound s) (sched_step_seq s) (processed_step_seq s) (deferred_frees s) (pause_state s)
  (inflight_prefills s).
Definition set_kv v s := mkScheduler (config s) (requests s) (streaming_queue s) (waiting s)
  (skipped_waiting s) (running s) (finished_req_ids s) (finished_req_ids_dict s) (prev_step_scheduled_req_ids s)
  (num_waiting_for_streaming_input s) (encoder_cache_manager s) v (current_step s)
  (prefill_capacity_bound s) (sched_step_seq s) (processed_step_seq s) (deferred_frees s) (pause_state s)
  (inflight_prefills s).
Definition set_step v b s := mkScheduler (config s) (requests s) (streaming_queue s) (waiting s)
  (skipped_waiting s) (running s) (finished_req_ids s) (finished_req_ids_dict s) (prev_step_scheduled_req_ids s)
  (num_waiting_for_streaming_input s) (encoder_cache_manager s) (kv_cache_manager s) v
  b (sched_step_seq s) (processed_step_seq s) (deferred_frees s) (pause_state s) (inflight_prefills s).
Definition set_deferred a b v s := mkScheduler (config s) (requests s) (streaming_queue s) (waiting s)
  (skipped_waiting s) (running s) (finished_req_ids s) (finished_req_ids_dict s) (prev_step_scheduled_req_ids s)
  (num_waiting_for_streaming_input s) (encoder_cache_manager s) (kv_cache_manager s) (current_step s)
  (prefill_capacity_bound s) a b v (pause_state s) (inflight_prefills s).
Definition set_pause_state v s := mkScheduler (config s) (requests s) (streaming_queue s) (waiting s)
  (skipped_waiting s) (running s) (finished_req_ids s) (finished_req_ids_dict s) (prev_step_scheduled_req_ids s)
  (num_waiting_for_streaming_input s) (encoder_cache_manager s) (kv_cache_manager s) (current_step s)
  (prefill_capacity_bound s) (sched_step_seq s) (processed_step_seq s) (deferred_frees s) v
  (inflight_prefills s).
Definition set_inflight v s := mkScheduler (config s) (requests s) (streaming_queue s) (waiting s)
  (skipped_waiting s) (running s) (finished_req_ids s) (finished_req_ids_dict s) (prev_step_scheduled_req_ids s)
  (num_waiting_for_streaming_input s) (encoder_cache_manager s) (kv_cache_manager s) (current_step s)
  (prefill_capacity_bound s) (sched_step_seq s) (processed_step_seq s) (deferred_frees s) (pause_state s) v.

(** The object with this id, and an assignment to its attributes. *)
Definition get_request (s : Scheduler) (id : string) : result Request :=
  match od_get (requests s) id with Some r => Ok r | None => Raise KeyError end.
Definition put_request (r : Request) (s : Scheduler) : Scheduler :=
  set_requests (od_set (requests s) (request_id r) r) s.

(** ** Queues *)

Definition _is_blocked_waiting_status (st : RequestStatus) : bool :=
  match st with
  | WAITING_FOR_STRUCTURED_OUTPUT_GRAMMAR | WAITING_FOR_REMOTE_KVS | WAITING_FOR_STREAMING_REQ => true
  | _ => false
  end.

Definition _enqueue_waiting_request (s : Scheduler) (r : Request) : result Scheduler :=
  if _is_blocked_waiting_status (status r) then
    q ← add_request (skipped_waiting s) r; Ok (set_queues (waiting s) q s)
  else
    q ← add_request (waiting s) r; Ok (set_queues q (skipped_waiting s) s).

Inductive waiting_queue := FromWaiting | FromSkipped.

Definition queue_of (s : Scheduler) (w : waiting_queue) : any_queue :=
  match w with FromWaiting => waiting s | FromSkipped => skipped_waiting s end.
Definition set_queue_of (w : waiting_queue) (q : any_queue) (s : Scheduler) : Scheduler :=
  match w with
  | FromWaiting => set_queues q (skipped_waiting s) s
  | FromSkipped => set_queues (waiting s) q s
  end.

Definition _select_waiting_queue_for_scheduling (s : Scheduler) : result (option waiting_queue) :=
  let w := queue_bool (waiting s) in
  let k := queue_bool (skipped_waiting s) in
  match policy (config s) with
  | FCFS => Ok (if k then Some FromSkipped else if w then Some FromWaiting else None)
  | PRIORITY =>
      if w && k then
        waiting_req ← peek_request (waiting s);
        skipped_req ← peek_request (skipped_waiting s);
        Ok (Some (if request_lt waiting_req skipped_req then FromWaiting else FromSkipped))
      else Ok (if w then Some FromWaiting else if k then Some FromSkipped else None)
  end.

(** ** Releasing what a request holds *)

Definition _free_request_blocks (s : Scheduler) (r : Request) : result Scheduler :=
  if negb (defer_block_free (config s)) || (last_sched_seq r <=? processed_step_seq s) then
    k ← km_free (kv_cache_manager s) r; Ok (set_kv k s)
  else
    '(bs, k) ← km_pop_blocks_for_free (kv_cache_manager s) r;
    let s := set_kv k s in
    Ok (match bs with
        | [] => s
        | _ => set_deferred (sched_step_seq s) (processed_step_seq s)
                 (deferred_frees s ++ [(sched_step_seq s, bs)]) s
        end).

(** The entries of [deferred_frees] are given; what is left is stored back. *)
Fixpoint drain_loop (entries : list (Z * list bref)) (s : Scheduler) : result Scheduler :=
  let s := set_deferred (sched_step_seq s) (processed_step_seq s) entries s in
  match entries with
  | [] => Ok s
  | (fence, bs) :: entries =>
      if processed_step_seq s <? fence then Ok s else
      p ← free_blocks (km_pool (kv_cache_manager s)) (reverse bs);
      drain_loop entries (set_kv (set_km_pool p (kv_cache_manager s)) s)
  end.

Definition _drain_deferred_frees (s : Scheduler) : result Scheduler := drain_loop (deferred_frees s) s.

Definition _free_blocks (s : Scheduler) (r : Request) : result Scheduler :=
  _ ← py_assert (is_finished r);
  s ← _free_request_blocks s r;
  Ok (set_requests (od_del (requests s) (request_id r)) s).

Definition _free_request (s : Scheduler) (r : Request) (delay_free_blocks : bool) : result Scheduler :=
  _ ← py_assert (is_finished r);
  let s := set_inflight (inflight_prefills s ∖ {[request_id r]}) s in
  e ← em_free (encoder_cache_manager s) r;
  let s := set_encoder e s in
  let s := set_finished ({[request_id r]} ∪ finished_req_ids s)
             ((λ d, <[client_index r := {[request_id r]} ∪ default ∅ (d !! client_index r)]> d)
                <$> finished_req_ids_dict s) s in
  if delay_free_blocks then Ok s else _free_blocks s r.

(** The caller has taken the request from the running list. *)
Definition _preempt_request (s : Scheduler) (r : Request) : result Scheduler :=
  _ ← py_assert (bool_decide (status r = RUNNING));
  s ← _free_request_blocks s r;
  e ← em_free (encoder_cache_manager s) r;
  let s := set_encoder e s in
  let s := set_inflight (inflight_prefills s ∖ {[request_id r]}) s in
  let r := set_status PREEMPTED r in
  let r := set_num_computed_tokens 0 r in
  let r := set_spec_token_ids [] r in
  let r := set_num_preemptions (num_preemptions r + 1) r in
  let s := put_request r s in
  q ← prepend_request (waiting s) r;
  Ok (set_queues q (skipped_waiting s) s).

(** ** Streaming sessions *)

(** An assignment to the attributes of a queued object is seen by the queue. *)
Definition refresh_queue (r : Request) (q : any_queue) : any_queue :=
  let f x := if is_object r x then r else x in
  match q with
  | AFCFS l => AFCFS (f <$> l)
  | APriority p => APriority (mkPriority (f <$> _heap p))
  end.

Definition session_request (session : Request) (update : StreamingUpdate) : result Request :=
  let n := num_computed_tokens session in
  let kept := py_slice (all_token_ids session) (num_prompt_tokens session) n in
  let all := take (Z.to_nat n) (all_token_ids session) in
  match prompt_token_ids session with
  | None => Raise AssertionError
  | Some prompt =>
      let base := zlen all in
      let mm := (λ f, mkMMFeature (identifier f)
                        (mkPlaceholder (pr_offset (mm_position f) + base) (pr_length (mm_position f))
                           (is_embed (mm_position f)))) <$> su_mm_features update in
      let new := default [] (su_prompt_token_ids update) in
      let prompt := prompt ++ kept ++ new in
      r ← update_block_hashes hasher
            (mkRequest (request_id session) (obj_addr session) (client_index session) (priority session)
               (arrival_time session) (sampling_params session) (pooling_params session)
               (lora_request session) (has_structured_output session) (status session)
               (stop_reason session) (max_tokens session) (Some prompt) (prompt_embeds session)
               (prompt_embeds_hashes session) (num_prompt_tokens session) [] (all ++ new)
               (num_output_placeholders session) (async_tokens_to_discard session)
               (next_decode_eligible_step session) (last_sched_seq session) (spec_token_ids session)
               (num_computed_tokens session) (cache_salt session) (mm_features session ++ mm)
               (is_prefill_chunk session) (num_preemptions session) (block_hashes session)
               (skip_reading_prefix_cache session) (resumable session) (abort_immediately session));
      Ok (mkRequest (request_id r) (obj_addr r) (client_index r) (priority r)
            (su_arrival_time update) (su_sampling_params update) (pooling_params r) (lora_request r)
            (has_structured_output r) WAITING (stop_reason r) (max_tokens r) (prompt_token_ids r)
            (prompt_embeds r) (prompt_embeds_hashes r) (zlen prompt) (output_token_ids r)
            (all_token_ids r) (num_output_placeholders r) (async_tokens_to_discard r)
            (next_decode_eligible_step r) (last_sched_seq r) (spec_token_ids r) (num_computed_tokens r)
            (cache_salt r) (mm_features r) (is_prefill_chunk r) (num_preemptions r) (block_hashes r)
            (skip_reading_prefix_cache r) (resumable r) (abort_immediately r))
  end.

Definition _update_request_as_session (s : Scheduler) (session : Request) (update : StreamingUpdate)
    : result (Request * Scheduler) :=
  r ← session_request session update;
  let n := num_waiting_for_streaming_input s in
  let s := set_streaming (streaming_queue s)
             (if bool_decide (status session = WAITING_FOR_STREAMING_REQ) then n - 1 else n) s in
  let s := set_queues (refresh_queue r (waiting s)) (refresh_queue r (skipped_waiting s)) s in
  Ok (r, put_request r s).

(** The result says whether the request is finished. *)
Definition _handle_stopped_request (s : Scheduler) (r : Request) : result (bool * Request * Scheduler) :=
  if negb (resumable r) then Ok (true, r, s) else
  match streaming_queue s !! request_id r with
  | Some (None :: rest) =>
      Ok (true, r, set_streaming (<[request_id r := rest]> (streaming_queue s))
                     (num_waiting_for_streaming_input s) s)
  | Some (Some update :: rest) =>
      let s := set_streaming (<[request_id r := rest]> (streaming_queue s))
                 (num_waiting_for_streaming_input s) s in
      '(r, s) ← _update_request_as_session s r update;
      s ← _enqueue_waiting_request s r;
      Ok (false, r, s)
  | _ =>
      let r := set_status WAITING_FOR_STREAMING_REQ r in
      let s := put_request r s in
      let s := set_streaming (streaming_queue s) (num_waiting_for_streaming_input s + 1) s in
      s ← _enqueue_waiting_request s r;
      Ok (false, r, s)
  end.

(** ** Requests coming and going *)

(** First pass of [finish_requests]: the live requests among the ids, those to
    take from the running list, those to take from the queues. *)
Fixpoint collect_requests (s : Scheduler) (ids : list string) (valid : list Request)
    (from_running : list string) (from_waiting : list Request)
    : Scheduler * list Request * list string * list Request :=
  match ids with
  | [] => (s, valid, from_running, from_waiting)
  | id :: ids =>
      match od_get (requests s) id with
      | None => collect_requests s ids valid from_running from_waiting
      | Some r =>
          if is_finished r then collect_requests s ids valid from_running from_waiting
          else if bool_decide (status r = RUNNING) then
            collect_requests s ids (valid ++ [r]) (from_running ++ [id]) from_waiting
          else
            let s := if bool_decide (status r = WAITING_FOR_STREAMING_REQ)
                     then set_streaming (streaming_queue s) (num_waiting_for_streaming_input s - 1) s
                     else s in
            collect_requests s ids (valid ++ [r]) from_running (from_waiting ++ [r])
      end
  end.

(** [None]: all requests.  [request_ids] is a set, in iteration order. *)
Definition finish_requests (s : Scheduler) (request_ids : option (list string)) (finished_status : RequestStatus)
    : result (list (string * Z) * Scheduler) :=
  _ ← py_assert (status_is_finished finished_status);
  let ids := default (requests s).*1 request_ids in
  let '(s, valid, from_running, from_waiting) := collect_requests s ids [] [] [] in
  let s := set_running (remove_all (running s) from_running).1 s in
  s ← (match from_waiting with
       | [] => Ok s
       | _ =>
           w ← remove_requests (waiting s) from_waiting;
           k ← remove_requests (skipped_waiting s) from_waiting;
           Ok (set_queues w k s)
       end);
  s ← mfold (λ s r,
        let delay_free_blocks := bool_decide (status r = WAITING_FOR_REMOTE_KVS) in
        let r := set_status finished_status r in
        _free_request (put_request r s) r delay_free_blocks) s valid;
  Ok ((λ r, (request_id r, client_index r)) <$> valid, s).

Definition sched_add_request (s : Scheduler) (r : Request) : result Scheduler :=
  match od_get (requests s) (request_id r) with
  | Some existing =>
      let update := update_from_request r in
      if negb (bool_decide (status existing = WAITING_FOR_STREAMING_REQ)) then
        match streaming_queue s !! request_id r with
        | None => Raise AssertionError
        | Some q =>
            Ok (set_streaming (<[request_id r := q ++ [update]]> (streaming_queue s))
                  (num_waiting_for_streaming_input s) s)
        end
      else
        match update with
        | Some update => '(_, s) ← _update_request_as_session s existing update; Ok s
        | None => '(_, s) ← finish_requests s (Some [request_id r]) FINISHED_ABORTED; Ok s
        end
  | None =>
      let s := set_streaming (if resumable r then <[request_id r := []]> (streaming_queue s)
                              else delete (request_id r) (streaming_queue s))
                 (num_waiting_for_streaming_input s) s in
      s ← _enqueue_waiting_request s r;
      Ok (put_request r s)
  end.

Definition get_request_counts (s : Scheduler) : Z * Z :=
  (zlen (running s), queue_len (waiting s) + queue_len (skipped_waiting s)).

Definition get_num_unfinished_requests (s : Scheduler) : Z :=
  match pause_state s with
  | PAUSED_ALL => 0
  | PAUSED_NEW => zlen (running s)
  | UNPAUSED =>
      queue_len (waiting s) + queue_len (skipped_waiting s) - num_waiting_for_streaming_input s
      + zlen (running s)
  end.

Definition has_finished_requests (s : Scheduler) : bool := bool_decide (finished_req_ids s ≠ ∅).

(** [while self.running: request = self.running.pop(); ...] *)
Definition reset_running (s : Scheduler) : result Scheduler :=
  mfold (λ s id,
    let s := set_running (take (length (running s) - 1) (running s)) s in
    r ← get_request s id;
    s ← _preempt_request s r;
    r ← get_request s id;
    let r := set_async_tokens_to_discard (num_output_placeholders r) r in
    Ok (put_request (set_num_output_placeholders 0 r) s)) s (reverse (running s)).

(** [reset_connector] has no effect without a connector. *)
Definition sched_reset_prefix_cache (s : Scheduler) (reset_running_requests : bool) : result (bool * Scheduler) :=
  s ← (if reset_running_requests then s ← reset_running s; Ok (set_prev_step ∅ s) else Ok s);
  '(reset_successful, k) ← km_reset_prefix_cache (kv_cache_manager s);
  let s := set_kv k s in
  if reset_running_requests && negb reset_successful then Raise RuntimeError else Ok (reset_successful, s).

Definition reset_encoder_cache (s : Scheduler) : Scheduler :=
  set_encoder (em_reset (encoder_cache_manager s)) s.
End scheduler.
