(* ===== verification/Schedule.v ===== *)
(** * The scheduler: one scheduling step

    [Scheduler.schedule] and its helpers ([vllm/v1/core/sched/scheduler.py]):
    first the running requests get tokens, preempting others when the KV cache is
    full, then waiting requests are admitted while tokens and slots are left. *)

From S2P Require Import Prelude OrderedDict KVBlock Request BlockPool KVSpecs Coordinator KVManager EncoderCache RequestQueue SchedUtils SchedState.

#[local] Open Scope Z_scope.

(** ** Multimodal inputs of a range of tokens *)

(** [bisect.bisect_left] of the standard library, over the keys *)
Fixpoint bisect_loop (fuel : nat) (keys : list Z) (x : Z) (lo hi : nat) : nat :=
  match fuel with
  | O => lo
  | S fuel =>
      if (lo <? hi)%nat then
        let mid := Nat.div2 (lo + hi) in
        if keys !!! mid <? x then bisect_loop fuel keys x (S mid) hi
        else bisect_loop fuel keys x lo mid
      else lo
  end.

Definition bisect_left (keys : list Z) (x : Z) : nat := bisect_loop (length keys) keys x 0 (length keys).

Definition get_mm_features_in_window (mm_features : list MultiModalFeatureSpec) (start end_ : Z) : nat * nat :=
  (bisect_left ((λ f, pr_offset (mm_position f) + pr_length (mm_position f)) <$> mm_features) (start + 1),
   bisect_left ((λ f, pr_offset (mm_position f)) <$> mm_features) end_).

Definition get_embeds_indices_in_range (p : PlaceholderRange) (start_idx end_idx : Z) : result (Z * Z) :=
  match embeds_cumsum p with
  | None => Ok (start_idx, end_idx)
  | Some c =>
      a ← (if 0 <? start_idx then py_index c (start_idx - 1) else Ok 0);
      b ← (if 0 <? end_idx then py_index c (end_idx - 1) else Ok 0);
      Ok (a, b)
  end.

Section schedule.
Context (sha256 : list bytes → bytes) (set_iter : gset nat → list nat).
(** Whether the grammar of a request is compiled. *)
Context (grammar_ready : Request → bool).

(** What the loop over the inputs of a request has found so far. *)
Record EncState := mkEncState {
  es_inputs : list nat;
  es_hashes : gset string;
  es_pending : Z;  (* [num_embeds_to_schedule] *)
  es_new_tokens : Z;
  es_budget : Z;
  es_cache : enc_manager;
}.

Fixpoint encoder_loop (cfg : SchedulerConfig) (r : Request) (num_computed_tokens shift : Z) (idxs : list nat)
    (st : EncState) : result EncState :=
  match idxs with
  | [] => Ok st
  | i :: idxs =>
      match mm_features r !! i with
      | None => Raise IndexError
      | Some f =>
          let start_pos := pr_offset (mm_position f) in
          let num_encoder_tokens := pr_length (mm_position f) in
          let num_encoder_embeds := get_num_embeds (mm_position f) in
          let next := encoder_loop cfg r num_computed_tokens shift idxs in
          let with_cache e := mkEncState (es_inputs st) (es_hashes st) (es_pending st) (es_new_tokens st)
                                (es_budget st) e in
          let stop n e := Ok (mkEncState (es_inputs st) (es_hashes st) (es_pending st) n (es_budget st) e) in
          if is_encoder_decoder cfg && (0 <? num_computed_tokens) then
            _ ← py_assert (start_pos =? 0); next st
          else
          if negb (is_encoder_decoder cfg) && bool_decide (identifier f ∈ es_hashes st) then next st else
          '(hit, e) ← (if is_encoder_decoder cfg then Ok (false, es_cache st)
                       else em_check_and_update_cache (es_cache st) r i);
          if (hit : bool) then next (with_cache e) else
          let num_new_tokens := es_new_tokens st in
          if sc_disable_chunked_mm_input cfg && (num_computed_tokens <? start_pos)
             && (num_computed_tokens + num_new_tokens <? start_pos + num_encoder_tokens)
          then stop (Z.max 0 (start_pos - (num_computed_tokens + shift))) e else
          '(ok, e) ← em_can_allocate e r i (es_budget st) (es_pending st);
          if negb ok then
            stop (if num_computed_tokens + shift <? start_pos
                  then start_pos - (num_computed_tokens + shift) else 0) e
          else
          let start_idx_rel := Z.max 0 (num_computed_tokens - start_pos) in
          let end_idx_rel := Z.min num_encoder_tokens (num_computed_tokens + num_new_tokens - start_pos) in
          '(a, b) ← get_embeds_indices_in_range (mm_position f) start_idx_rel end_idx_rel;
          if b - a =? 0 then next (with_cache e) else
          next (mkEncState (es_inputs st ++ [i]) ({[identifier f]} ∪ es_hashes st)
                  (es_pending st + num_encoder_embeds) num_new_tokens
                  (es_budget st - num_encoder_embeds) e)
      end
  end.

(** The inputs to schedule, the number of tokens, the budget that is left and the
    cache. *)
Definition _try_schedule_encoder_inputs (cfg : SchedulerConfig) (e : enc_manager) (r : Request)
    (num_computed_tokens num_new_tokens encoder_compute_budget shift_computed_tokens : Z)
    : result (list nat * Z * Z * enc_manager) :=
  if (num_new_tokens =? 0) || negb (has_encoder_inputs r)
  then Ok ([], num_new_tokens, encoder_compute_budget, e) else
  let '(lo, hi) := get_mm_features_in_window (mm_features r) num_computed_tokens
                     (num_computed_tokens + num_new_tokens + shift_computed_tokens) in
  let lo := if is_encoder_decoder cfg then 0%nat else lo in
  st ← encoder_loop cfg r num_computed_tokens shift_computed_tokens (seq lo (hi - lo))
         (mkEncState [] ∅ 0 num_new_tokens encoder_compute_budget e);
  Ok (es_inputs st, es_new_tokens st, es_budget st, es_cache st).

(** ** Block-aligned chunks for Mamba layers *)

Definition _mamba_block_aligned_split (cfg : SchedulerConfig) (r : Request)
    (num_new_tokens num_new_local_computed_tokens num_external_computed_tokens
     num_uncached_common_prefix_tokens : Z) : Z :=
  let num_computed := num_computed_tokens r + num_new_local_computed_tokens + num_external_computed_tokens in
  if num_computed <? Z.max (num_prompt_tokens r) (num_tokens r - 1) then
    let bs := cache_block_size cfg in
    let last_cache_position := num_tokens r - num_tokens r mod bs in
    let last_cache_position :=
      if use_eagle cfg then Z.max (last_cache_position - bs) 0 else last_cache_position in
    let after := num_computed + num_new_tokens in
    let num_new_tokens :=
      if after <? last_cache_position then num_new_tokens / bs * bs
      else if (num_computed <? last_cache_position) && (last_cache_position <? after)
           then last_cache_position - num_computed
      else num_new_tokens in
    if (bs <=? num_uncached_common_prefix_tokens) && (num_uncached_common_prefix_tokens <? num_new_tokens)
    then num_uncached_common_prefix_tokens / bs * bs
    else num_new_tokens
  else num_new_tokens.

(** ** What a step collects *)

Record StepState := mkStep {
  scheduled_new_reqs : list string;
  scheduled_resumed_reqs : list string;
  scheduled_running_reqs : list string;
  preempted_reqs : list string;
  req_to_new_blocks : list (string * KVCacheBlocks);
  num_scheduled_tokens : list (string * Z);
  token_budget : Z;
  scheduled_encoder_inputs : list (string * list nat);
  encoder_compute_budget : Z;
  scheduled_spec_decode_tokens : list (string * list Z);
  scheduled_loras : gset Z;
}.

Definition init_step (s : Scheduler) : StepState :=
  mkStep [] [] [] [] [] []
    (if bool_decide (pause_state s = PAUSED_ALL) then 0 else max_num_scheduled_tokens (config s))
    [] (max_num_encoder_input_tokens (config s)) [] ∅.

(** The assignments for a scheduled request. *)
Definition note_tokens (id : string) (bs : KVCacheBlocks) (n : Z) (st : StepState) : StepState :=
  mkStep (scheduled_new_reqs st) (scheduled_resumed_reqs st) (scheduled_running_reqs st) (preempted_reqs st)
    (od_set (req_to_new_blocks st) id bs) (od_set (num_scheduled_tokens st) id n) (token_budget st - n)
    (scheduled_encoder_inputs st) (encoder_compute_budget st) (scheduled_spec_decode_tokens st)
    (scheduled_loras st).
Definition set_reqs (new resumed run pre : list string) (st : StepState) : StepState :=
  mkStep new resumed run pre (req_to_new_blocks st) (num_scheduled_tokens st) (token_budget st)
    (scheduled_encoder_inputs st) (encoder_compute_budget st) (scheduled_spec_decode_tokens st)
    (scheduled_loras st).
Definition set_enc_inputs (l : list (string * list nat)) (b : Z) (st : StepState) : StepState :=
  mkStep (scheduled_new_reqs st) (scheduled_resumed_reqs st) (scheduled_running_reqs st) (preempted_reqs st)
    (req_to_new_blocks st) (num_scheduled_tokens st) (token_budget st) l b (scheduled_spec_decode_tokens st)
    (scheduled_loras st).
Definition set_spec_tokens (l : list (string * list Z)) (st : StepState) : StepState :=
  mkStep (scheduled_new_reqs st) (scheduled_resumed_reqs st) (scheduled_running_reqs st) (preempted_reqs st)
    (req_to_new_blocks st) (num_scheduled_tokens st) (token_budget st) (scheduled_encoder_inputs st)
    (encoder_compute_budget st) l (scheduled_loras st).
Definition set_loras (l : gset Z) (st : StepState) : StepState :=
  mkStep (scheduled_new_reqs st) (scheduled_resumed_reqs st) (scheduled_running_reqs st) (preempted_reqs st)
    (req_to_new_blocks st) (num_scheduled_tokens st) (token_budget st) (scheduled_encoder_inputs st)
    (encoder_compute_budget st) (scheduled_spec_decode_tokens st) l.

(** ** Running requests *)

(** The three tests before any token is given. *)
Definition skip_running (s : Scheduler) (defer_prefills : bool) (r : Request) : bool :=
  ((0 <? num_output_placeholders r)
   && (num_prompt_tokens r + max_tokens r <=? num_computed_tokens r + 2 - num_output_placeholders r))
  || (current_step s <? next_decode_eligible_step r)
  || (defer_prefills && is_prefill_chunk r).

(** The number of tokens the request asks for, within the limits. *)
Definition running_new_tokens (cfg : SchedulerConfig) (r : Request) (budget : Z) : Z :=
  let n := num_tokens_with_spec r + num_output_placeholders r - num_computed_tokens r in
  let threshold := long_prefill_token_threshold cfg in
  let n := if (0 <? threshold) && (threshold <? n) then threshold else n in
  Z.min (Z.min n budget) (sc_max_model_len cfg - num_computed_tokens r - num_sampled_tokens_per_step cfg).

(** [max(self.running, key=lambda r: (r.priority, r.arrival_time))]: the first of
    the largest. *)
Fixpoint max_request (s : Scheduler) (best : Request) (ids : list string) : result Request :=
  match ids with
  | [] => Ok best
  | id :: ids =>
      r ← get_request s id;
      max_request s
        (if (priority best <? priority r)
            || ((priority best =? priority r) && (arrival_time best <? arrival_time r))
         then r else best) ids
  end.

(** A request scheduled in this step that is preempted gives back what it got. *)
Definition unschedule (r : Request) (st : StepState) : result StepState :=
  let id := request_id r in
  match od_get (num_scheduled_tokens st) id, od_get (req_to_new_blocks st) id with
  | Some n, Some _ =>
      restored ← mfold (λ acc i, k ← get_num_encoder_embeds r i; Ok (acc + k)) 0
                   (default [] (od_get (scheduled_encoder_inputs st) id));
      Ok (mkStep (scheduled_new_reqs st) (scheduled_resumed_reqs st)
            (remove_first id (scheduled_running_reqs st)) (preempted_reqs st)
            (od_del (req_to_new_blocks st) id) (od_del (num_scheduled_tokens st) id)
            (token_budget st + n) (od_del (scheduled_encoder_inputs st) id)
            (encoder_compute_budget st + restored) (od_del (scheduled_spec_decode_tokens st) id)
            (scheduled_loras st))
  | _, _ => Raise KeyError
  end.

(** The request to preempt, taken from the running list; the index of the loop
    moves with a request that was scheduled before. *)
Definition take_victim (s : Scheduler) (st : StepState) (req_index : nat)
    : result (Request * Scheduler * StepState * nat) :=
  match policy (config s) with
  | PRIORITY =>
      match running s with
      | [] => Raise ValueError
      | first :: rest =>
          first ← get_request s first;
          victim ← max_request s first rest;
          let s := set_running (remove_first (request_id victim) (running s)) s in
          if bool_decide (request_id victim ∈ scheduled_running_reqs st) then
            st ← unschedule victim st;
            Ok (victim, s, st, (req_index - 1)%nat)
          else Ok (victim, s, st, req_index)
      end
  | FCFS =>
      match last (running s) with
      | None => Raise IndexError
      | Some id =>
          victim ← get_request s id;
          Ok (victim, set_running (take (length (running s) - 1) (running s)) s, st, req_index)
      end
  end.

(** [while True]: ask for slots, preempt and ask again. *)
Fixpoint allocate_loop (fuel : nat) (s : Scheduler) (st : StepState) (req_index : nat) (id : string)
    (num_new_tokens : Z) : result (option KVCacheBlocks * Scheduler * StepState * nat) :=
  match fuel with
  | O => Raise OutOfFuel
  | S fuel =>
      r ← get_request s id;
      '(new_blocks, k, r) ← allocate_slots sha256 (kv_cache_manager s) r num_new_tokens
                              (mkSlotArgs 0 None (num_lookahead_tokens (config s)) 0 false 0 false 0 true);
      let s := put_request r (set_kv k s) in
      match new_blocks with
      | Some _ => Ok (new_blocks, s, st, req_index)
      | None =>
          '(victim, s, st, req_index) ← take_victim s st req_index;
          s ← _preempt_request set_iter s victim;
          let st := set_reqs (scheduled_new_reqs st) (scheduled_resumed_reqs st) (scheduled_running_reqs st)
                      (preempted_reqs st ++ [request_id victim]) st in
          if bool_decide (request_id victim = id) then Ok (None, s, st, req_index)
          else allocate_loop fuel s st req_index id num_new_tokens
      end
  end.

(** The draft tokens that fit into the scheduled ones. *)
Definition schedule_spec_tokens (r : Request) (num_new_tokens : Z) (st : StepState) : Request * StepState :=
  match spec_token_ids r with
  | [] => (r, st)
  | spec =>
      let n := num_new_tokens + num_computed_tokens r - num_tokens r - num_output_placeholders r in
      (set_spec_token_ids [] r,
       if 0 <? n then
         set_spec_tokens (od_set (scheduled_spec_decode_tokens st) (request_id r)
           (if n <? zlen spec then take (Z.to_nat n) spec else spec)) st
       else st)
  end.

(** The encoder inputs of a scheduled request get their cache space. *)
Definition allocate_encoder_inputs (s : Scheduler) (st : StepState) (r : Request) (inputs : list nat)
    (new_encoder_compute_budget : Z) : result (Scheduler * StepState) :=
  match inputs with
  | [] => Ok (s, st)
  | _ =>
      e ← mfold (λ e i, em_allocate e r i) (encoder_cache_manager s) inputs;
      Ok (set_encoder e s,
          set_enc_inputs (od_set (scheduled_encoder_inputs st) (request_id r) inputs)
            new_encoder_compute_budget st)
  end.

(** One round of the loop; [true]: leave the loop. *)
Definition running_step (defer_prefills : bool) (s : Scheduler) (st : StepState) (req_index : nat) (id : string)
    : result (bool * Scheduler * StepState * nat) :=
  let cfg := config s in
  r ← get_request s id;
  if skip_running s defer_prefills r then Ok (false, s, st, S req_index) else
  let num_new_tokens := running_new_tokens cfg r (token_budget st) in
  '(inputs, num_new_tokens, new_budget, e) ←
    (if has_encoder_inputs r then
       _try_schedule_encoder_inputs cfg (encoder_cache_manager s) r (num_computed_tokens r) num_new_tokens
         (encoder_compute_budget st) (if use_eagle cfg then 1 else 0)
     else Ok ([], num_new_tokens, encoder_compute_budget st, encoder_cache_manager s));
  let s := set_encoder e s in
  let num_new_tokens :=
    if need_mamba_block_aligned_split cfg then _mamba_block_aligned_split cfg r num_new_tokens 0 0 0
    else num_new_tokens in
  if num_new_tokens =? 0 then Ok (false, s, st, S req_index) else
  '(new_blocks, s, st, req_index) ←
    allocate_loop (S (length (running s))) s st req_index id num_new_tokens;
  match new_blocks with
  | None => Ok (true, s, st, req_index)
  | Some bs =>
      let st := set_reqs (scheduled_new_reqs st) (scheduled_resumed_reqs st)
                  (scheduled_running_reqs st ++ [id]) (preempted_reqs st) st in
      let st := note_tokens id bs num_new_tokens st in
      r ← get_request s id;
      let '(r, st) := schedule_spec_tokens r num_new_tokens st in
      let s := put_request r s in
      '(s, st) ← allocate_encoder_inputs s st r inputs new_budget;
      Ok (false, s, st, S req_index)
  end.

(** [while req_index < len(self.running) and token_budget > 0] *)
Fixpoint running_loop (fuel : nat) (defer_prefills : bool) (s : Scheduler) (st : StepState) (req_index : nat)
    : result (Scheduler * StepState) :=
  match fuel with
  | O => Raise OutOfFuel
  | S fuel =>
      match running s !! req_index with
      | Some id =>
          if 0 <? token_budget st then
            '(stop, s, st, req_index) ← running_step defer_prefills s st req_index id;
            if (stop : bool) then Ok (s, st) else running_loop fuel defer_prefills s st req_index
          else Ok (s, st)
      | None => Ok (s, st)
      end
  end.

(** [set(req.lora_request.lora_int_id ...)] with its check *)
Definition running_loras (s : Scheduler) (st : StepState) : result StepState :=
  match max_loras (config s) with
  | None => Ok st
  | Some m =>
      loras ← mfold (λ acc id, r ← get_request s id;
                Ok (match lora_request r with
                    | Some l => if 0 <? adapter_id l then {[adapter_id l]} ∪ acc else acc
                    | None => acc
                    end)) (∅ : gset Z) (scheduled_running_reqs st);
      _ ← py_assert (Z.of_nat (size loras) <=? m);
      Ok (set_loras loras st)
  end.

(** ** Waiting requests *)

(** Without a connector no transfer ever completes.  The request is the current
    state of the object. *)
Definition _try_promote_blocked_waiting_request (s : Scheduler) (r : Request) : result (bool * Scheduler) :=
  match status r with
  | WAITING_FOR_REMOTE_KVS => Ok (false, s)
  | WAITING_FOR_STRUCTURED_OUTPUT_GRAMMAR =>
      if grammar_ready r then Ok (true, put_request (set_status WAITING r) s) else Ok (false, s)
  | WAITING_FOR_STREAMING_REQ =>
      _ ← py_assert (match streaming_queue s !! request_id r with Some (_ :: _) => false | _ => true end);
      Ok (false, s)
  | _ => Raise AssertionError
  end.

Definition lora_blocked (s : Scheduler) (st : StepState) (r : Request) : bool :=
  match max_loras (config s), lora_request r with
  | Some m, Some l => (Z.of_nat (size (scheduled_loras st)) =? m) && negb (bool_decide (adapter_id l ∈ scheduled_loras st))
  | _, _ => false
  end.

(** [request_queue.pop_request(); step_skipped_waiting.prepend_request(request)] *)
Definition skip_waiting (s : Scheduler) (w : waiting_queue) (skipped : any_queue) : result (Scheduler * any_queue) :=
  '(r, q) ← pop_request (queue_of s w);
  skipped ← prepend_request skipped r;
  Ok (set_queue_of w q s, skipped).

(** The cached prefix of a request that has nothing computed yet: blocks, number
    of tokens and the hint for common prefixes. *)
Definition cached_prefix (s : Scheduler) (r : Request) : result (KVCacheBlocks * Z * Z * Scheduler) :=
  if num_computed_tokens r =? 0 then
    '(bs, n, k) ← get_computed_blocks (kv_cache_manager s) r;
    let s := set_kv k s in
    let hint := if sc_has_mamba_layers (config s) then num_uncached_common_prefix_tokens (coordinator k) else 0 in
    _ ← py_assert (n <=? num_tokens r);
    Ok (bs, n, hint, s)
  else Ok (empty_kv_cache_blocks (num_kv_cache_groups (kv_cache_manager s)), 0, 0, s).

(** Bookkeeping for an admitted request, which has been popped from its queue. *)
Definition admit_request (s : Scheduler) (st : StepState) (r : Request) (num_new_tokens num_computed : Z)
    : result (Request * Scheduler * StepState) :=
  let id := request_id r in
  let s := set_running (running s ++ [id]) s in
  st ← match status r with
       | WAITING => Ok (set_reqs (scheduled_new_reqs st ++ [id]) (scheduled_resumed_reqs st)
                          (scheduled_running_reqs st) (preempted_reqs st) st)
       | PREEMPTED => Ok (set_reqs (scheduled_new_reqs st) (scheduled_resumed_reqs st ++ [id])
                            (scheduled_running_reqs st) (preempted_reqs st) st)
       | _ => Raise RuntimeError
       end;
  let st := match max_loras (config s), lora_request r with
            | Some _, Some l => set_loras ({[adapter_id l]} ∪ scheduled_loras st) st
            | _, _ => st
            end in
  let st := note_tokens id (km_get_blocks (kv_cache_manager s) id) num_new_tokens st in
  let r := set_num_computed_tokens num_computed (set_status RUNNING r) in
  let s := put_request r s in
  let s := if num_computed + num_new_tokens <? num_tokens r
           then set_inflight ({[id]} ∪ inflight_prefills s) s else s in
  Ok (r, s, st).

Definition waiting_step (defer_prefills : bool) (s : Scheduler) (st : StepState) (skipped : any_queue)
    : result (bool * Scheduler * StepState * any_queue) :=
  let cfg := config s in
  w ← _select_waiting_queue_for_scheduling s;
  match w with
  | None => Raise AssertionError
  | Some w =>
  front ← peek_request (queue_of s w);
  let id := request_id front in
  r ← get_request s id;
  '(blocked, s) ←
    (if _is_blocked_waiting_status (status r) then
       '(promoted, s) ← _try_promote_blocked_waiting_request s r; Ok (negb promoted, s)
     else Ok (false, s));
  if (blocked : bool) then '(s, skipped) ← skip_waiting s w skipped; Ok (false, s, st, skipped) else
  r ← get_request s id;
  if lora_blocked s st r then '(s, skipped) ← skip_waiting s w skipped; Ok (false, s, st, skipped) else
  '(hits, num_new_local, hint, s) ← cached_prefix s r;
  let num_computed := if num_computed_tokens r =? 0 then num_new_local else num_computed_tokens r in
  if defer_prefills && (num_computed_tokens r =? 0) then Ok (true, s, st, skipped) else
  let n := num_tokens r - num_computed in
  let threshold := long_prefill_token_threshold cfg in
  let n := if (0 <? threshold) && (threshold <? n) then threshold else n in
  if negb (enable_chunked_prefill cfg) && (token_budget st <? n) then Ok (true, s, st, skipped) else
  let n := Z.min n (token_budget st) in
  _ ← py_assert (0 <? n);
  '(inputs, n, new_budget, e) ←
    (if has_encoder_inputs r then
       _try_schedule_encoder_inputs cfg (encoder_cache_manager s) r num_computed n
         (encoder_compute_budget st) (if use_eagle cfg then 1 else 0)
     else Ok ([], n, encoder_compute_budget st, encoder_cache_manager s));
  let s := set_encoder e s in
  if has_encoder_inputs r && (n =? 0) then Ok (true, s, st, skipped) else
  let n := if need_mamba_block_aligned_split cfg
           then _mamba_block_aligned_split cfg r n num_new_local 0 hint else n in
  if need_mamba_block_aligned_split cfg && (n =? 0) then Ok (true, s, st, skipped) else
  num_encoder_tokens ←
    (if is_encoder_decoder cfg && has_encoder_inputs r
     then mfold (λ acc i, k ← get_num_encoder_embeds r i; Ok (acc + k)) 0 inputs else Ok 0);
  '(new_blocks, k, r) ← allocate_slots sha256 (kv_cache_manager s) r n
    (mkSlotArgs num_new_local (Some hits) (num_lookahead_tokens cfg) 0 false num_encoder_tokens
       (scheduler_reserve_full_isl cfg) 0 (negb (zlen (running s) =? 0)));
  let s := put_request r (set_kv k s) in
  match new_blocks with
  | None =>
      s ← (if has_encoder_inputs r
           then e ← em_free set_iter (encoder_cache_manager s) r; Ok (set_encoder e s) else Ok s);
      Ok (true, s, st, skipped)
  | Some _ =>
      '(_, q) ← pop_request (queue_of s w);
      let s := set_queue_of w q s in
      '(r, s, st) ← admit_request s st r n num_computed;
      '(s, st) ← allocate_encoder_inputs s st r inputs new_budget;
      Ok (false, s, st, skipped)
  end
  end.

(** [while (self.waiting or self.skipped_waiting) and token_budget > 0] *)
Fixpoint waiting_loop (fuel : nat) (defer_prefills : bool) (s : Scheduler) (st : StepState) (skipped : any_queue)
    : result (Scheduler * StepState * any_queue) :=
  match fuel with
  | O => Raise OutOfFuel
  | S fuel =>
      if (queue_bool (waiting s) || queue_bool (skipped_waiting s)) && (0 <? token_budget st)
         && negb (zlen (running s) =? max_num_running_reqs (config s)) then
        '(stop, s, st, skipped) ← waiting_step defer_prefills s st skipped;
        if (stop : bool) then Ok (s, st, skipped) else waiting_loop fuel defer_prefills s st skipped
      else Ok (s, st, skipped)
  end.

(** The fuel covers every queued request, and one more round. *)
Definition schedule_waiting (defer_prefills : bool) (s : Scheduler) (st : StepState)
    : result (Scheduler * StepState) :=
  '(s, st, skipped) ←
    waiting_loop (S (Z.to_nat (queue_len (waiting s) + queue_len (skipped_waiting s)))) defer_prefills s st
      (create_request_queue (policy (config s)));
  s ← (if queue_bool skipped then
         rs ← queue_iter skipped;
         q ← prepend_requests (skipped_waiting s) rs;
         Ok (set_queues (waiting s) q s)
       else Ok s);
  Ok (if defer_prefills then s else set_step (current_step s) (queue_bool (waiting s)) s, st).

(** Both loops. *)
Definition schedule_requests (throttle_prefills : bool) (s : Scheduler) : result (Scheduler * StepState) :=
  let s := set_step (current_step s + 1) (prefill_capacity_bound s) s in
  let st := init_step s in
  let s := set_kv (km_new_step_starts (kv_cache_manager s)) s in
  decoding ← mfold (λ acc id, r ← get_request s id; Ok (acc || negb (is_prefill_chunk r))) false (running s);
  let defer_prefills := throttle_prefills && negb (prefill_capacity_bound s) && decoding in
  '(s, st) ← running_loop (S (length (running s))) defer_prefills s st 0;
  st ← running_loras s st;
  if bool_decide (preempted_reqs st = []) && bool_decide (pause_state s = UNPAUSED)
  then schedule_waiting defer_prefills s st else Ok (s, st).

(** The assertions after the loops. *)
Definition total_tokens (st : StepState) : Z := foldr Z.add 0 (num_scheduled_tokens st).*2.

Definition check_constraints (s : Scheduler) (st : StepState) : result unit :=
  _ ← py_assert (total_tokens st <=? max_num_scheduled_tokens (config s));
  _ ← py_assert (0 <=? token_budget st);
  _ ← py_assert (zlen (running s) <=? max_num_running_reqs (config s));
  py_assert (zlen (scheduled_new_reqs st) + zlen (scheduled_resumed_reqs st) + zlen (scheduled_running_reqs st)
             <=? zlen (running s)).

(** ** The output of a step *)

Record NewRequestData := mkNewData {
  nd_req_id : string;
  nd_prompt_token_ids : option (list Z);
  nd_mm_features : list MultiModalFeatureSpec;
  nd_sampling_params : option SamplingParams;
  nd_pooling_params : option PoolingParams;
  nd_block_ids : option (list (list Z));
  nd_num_computed_tokens : Z;
  nd_lora_request : option LoRARequest;
  nd_prompt_embeds : option (list bytes);
  nd_prefill_token_ids : option (list Z);
}.

Definition from_request (r : Request) (block_ids : option (list (list Z))) (prefill : option (list Z))
    : NewRequestData :=
  mkNewData (request_id r) (prompt_token_ids r) (mm_features r) (sampling_params r) (pooling_params r)
    block_ids (num_computed_tokens r) (lora_request r) (prompt_embeds r) prefill.

Record CachedRequestData := mkCachedData {
  cd_req_ids : list string;
  cd_resumed_req_ids : gset string;
  cd_new_token_ids : list (list Z);
  cd_all_token_ids : list (string * list Z);
  cd_new_block_ids : list (option (list (list Z)));
  cd_num_computed_tokens : list Z;
  cd_num_output_tokens : list Z;
}.

Record SchedulerOutput := mkOutput {
  so_new_reqs : list NewRequestData;
  so_cached_reqs : CachedRequestData;
  so_num_scheduled_tokens : list (string * Z);
  so_total_num_scheduled_tokens : Z;
  so_spec_decode_tokens : list (string * list Z);
  so_encoder_inputs : list (string * list nat);
  so_num_common_prefix_blocks : list Z;
  so_preempted_req_ids : gset string;
  so_finished_req_ids : gset string;
  so_free_encoder_mm_hashes : list string;
  so_new_block_ids_to_zero : option (list Z);
  so_num_spec_tokens_to_schedule : Z;
  so_has_structured_output_requests : bool;
  so_pending_structured_output_tokens : bool;
  so_num_invalid_spec_tokens : option (list (string * Z));
}.

Definition lookup_blocks (st : StepState) (id : string) : result KVCacheBlocks :=
  match od_get (req_to_new_blocks st) id with Some b => Ok b | None => Raise KeyError end.

(** One round of the loop over the running and then the resumed requests. *)
Definition add_cached_data (s : Scheduler) (st : StepState) (resumed : bool) (d : CachedRequestData) (id : string)
    : result CachedRequestData :=
  let cfg := config s in
  r ← get_request s id;
  new_token_ids ←
    (if use_pp cfg && negb (async_scheduling cfg) then
       match od_get (num_scheduled_tokens st) id with
       | None => Raise KeyError
       | Some n =>
           let n := n - zlen (default [] (od_get (scheduled_spec_decode_tokens st) id)) in
           Ok (cd_new_token_ids d ++
               [py_slice (all_token_ids r) (num_computed_tokens r) (num_computed_tokens r + n)])
       end
     else Ok (cd_new_token_ids d));
  bs ← lookup_blocks st id;
  Ok (mkCachedData (cd_req_ids d ++ [id])
        (if resumed then {[id]} ∪ cd_resumed_req_ids d else cd_resumed_req_ids d)
        new_token_ids
        (if negb (use_v2_model_runner cfg) && negb (bool_decide (id ∈ prev_step_scheduled_req_ids s))
         then od_set (cd_all_token_ids d) id (all_token_ids r) else cd_all_token_ids d)
        (cd_new_block_ids d ++ [get_block_ids (km_pool (kv_cache_manager s)) true bs])
        (cd_num_computed_tokens d ++ [num_computed_tokens r])
        (cd_num_output_tokens d ++ [num_output_tokens r + num_output_placeholders r])).

Definition _make_cached_request_data (s : Scheduler) (st : StepState) (running_reqs resumed_reqs : list string)
    : result CachedRequestData :=
  d ← mfold (add_cached_data s st false) (mkCachedData [] ∅ [] [] [] [] []) running_reqs;
  mfold (add_cached_data s st true) d resumed_reqs.

(** ** After the step is planned *)

(** [AsyncScheduler._update_after_schedule], for one request *)
Definition async_after_schedule (s : Scheduler) (o : SchedulerOutput) (pending : bool) (r : Request)
    : bool * Request :=
  if is_prefill_chunk r then (pending, r) else
  let cfg := config s in
  let pending := pending || (use_structured_output r && (0 <? num_output_placeholders r)) in
  let cur := zlen (default [] (od_get (so_spec_decode_tokens o) (request_id r))) in
  let r := set_num_output_placeholders
             (num_output_placeholders r + (num_sampled_tokens_per_step cfg + cur)) r in
  let r := set_spec_token_ids (replicate (Z.to_nat (so_num_spec_tokens_to_schedule o)) (-1)) r in
  (pending,
   if use_v2_model_runner cfg then set_next_decode_eligible_step (current_step s + pp_size cfg) r else r).

(** [Scheduler._update_after_schedule], for one request *)
Definition after_schedule (s : Scheduler) (n : Z) (structured : bool) (r : Request) : bool * Request :=
  let r := set_num_computed_tokens (num_computed_tokens r + n) r in
  let r := if defer_block_free (config s) then set_last_sched_seq (sched_step_seq s) r else r in
  let r := set_is_prefill_chunk
             (num_computed_tokens r <? num_tokens r + num_output_placeholders r) r in
  (structured || (use_structured_output r && negb (is_prefill_chunk r)), r).

Definition _update_after_schedule (s : Scheduler) (o : SchedulerOutput) : result (SchedulerOutput * Scheduler) :=
  '(s, structured) ← mfold (λ '(s, structured) '(id, n),
      r ← get_request s id;
      let '(structured, r) := after_schedule s n structured r in
      let s := put_request r s in
      Ok (if is_prefill_chunk r then s else set_inflight (inflight_prefills s ∖ {[id]}) s, structured))
    (s, so_has_structured_output_requests o) (so_num_scheduled_tokens o);
  let s := set_finished ∅ (finished_req_ids_dict s) s in
  '(s, pending) ←
    (if async_scheduling (config s) then
       mfold (λ '(s, pending) '(id, _),
         r ← get_request s id;
         let '(pending, r) := async_after_schedule s o pending r in
         Ok (put_request r s, pending)) (s, so_pending_structured_output_tokens o) (so_num_scheduled_tokens o)
     else Ok (s, so_pending_structured_output_tokens o));
  Ok (mkOutput (so_new_reqs o) (so_cached_reqs o) (so_num_scheduled_tokens o)
        (so_total_num_scheduled_tokens o) (so_spec_decode_tokens o) (so_encoder_inputs o)
        (so_num_common_prefix_blocks o) (so_preempted_req_ids o) (so_finished_req_ids o)
        (so_free_encoder_mm_hashes o) (so_new_block_ids_to_zero o) (so_num_spec_tokens_to_schedule o)
        structured pending (so_num_invalid_spec_tokens o), s).

(** The part of [schedule] from the common prefix on. *)
Definition build_output (s : Scheduler) (st : StepState) : result (SchedulerOutput * Scheduler) :=
  let cfg := config s in
  '(common, s) ←
    match running s with
    | [] => Ok (replicate (num_kv_cache_groups (kv_cache_manager s)) 0, s)
    | id :: _ =>
        '(c, k) ← km_get_num_common_prefix_blocks (kv_cache_manager s) id; Ok (c, set_kv k s)
    end;
  let new := if use_v2_model_runner cfg then scheduled_new_reqs st ++ scheduled_resumed_reqs st
             else scheduled_new_reqs st in
  let resumed := if use_v2_model_runner cfg then [] else scheduled_resumed_reqs st in
  new_data ← mfold (λ acc id,
    r ← get_request s id;
    bs ← lookup_blocks st id;
    Ok (acc ++ [from_request r (get_block_ids (km_pool (kv_cache_manager s)) false bs)
                  (if use_v2_model_runner cfg then Some (all_token_ids r) else None)])) [] new;
  cached_data ← _make_cached_request_data s st (scheduled_running_reqs st) resumed;
  let s := if use_v2_model_runner cfg then s
           else set_prev_step (list_to_set (num_scheduled_tokens st).*1) s in
  let '(zero, s) :=
    if needs_kv_cache_zeroing cfg then
      let '(ids, k) := km_take_new_block_ids (kv_cache_manager s) in
      (match ids with [] => None | _ => Some ids end, set_kv k s)
    else (None, s) in
  num_spec ←
    match dynamic_sd_lookup cfg with
    | Some table =>
        if 0 <? zlen (num_scheduled_tokens st) then py_index table (zlen (num_scheduled_tokens st))
        else Ok (num_spec_tokens cfg)
    | None => Ok (num_spec_tokens cfg)
    end;
  let '(hashes, e) := em_get_freed_mm_hashes (encoder_cache_manager s) in
  let s := set_encoder e s in
  Ok (mkOutput new_data cached_data (num_scheduled_tokens st) (total_tokens st)
        (scheduled_spec_decode_tokens st) (scheduled_encoder_inputs st) common
        (list_to_set (preempted_reqs st)) (finished_req_ids s) hashes zero num_spec false false None, s).

Definition schedule (throttle_prefills : bool) (s : Scheduler) : result (SchedulerOutput * Scheduler) :=
  '(s, st) ← schedule_requests throttle_prefills s;
  _ ← check_constraints s st;
  '(o, s) ← build_output s st;
  let s := if defer_block_free (config s) && (0 <? total_tokens st)
           then set_deferred (sched_step_seq s + 1) (processed_step_seq s) (deferred_frees s) s else s in
  _update_after_schedule s o.
End schedule.
