(* ===== verification/EncoderStep.v ===== *)
(** * The scheduler: multimodal inputs of a step

    [_try_schedule_encoder_inputs] decides which encoder inputs run together with
    the tokens of a request, and cuts the number of tokens where an input does
    not fit.  The theorem: after the inputs it returns are allocated, every image
    with an embedding among the scheduled tokens is in the encoder cache and
    pinned by the request. *)

From stdpp Require Import sorting.
From S2P Require Import Prelude OrderedDict Request EncoderCache RequestQueue SchedState Schedule.

#[local] Open Scope Z_scope.

(** ** Binary search *)

Lemma sorted_lookup (l : list Z) i j a b :
  StronglySorted Z.le l → (i ≤ j)%nat → l !! i = Some a → l !! j = Some b → a ≤ b.
Proof.
  intros Hs. revert i j. induction Hs as [|x l Hs IH Hx]; intros i j Hij Hi Hj; [done|].
  destruct i as [|i], j as [|j]; simpl in *; simplify_eq; [done| |lia|].
  - by eapply Forall_lookup_1 in Hx.
  - eapply (IH i j); [lia|done..].
Qed.

Lemma bisect_loop_spec fuel keys x lo hi :
  StronglySorted Z.le keys → (lo ≤ hi ≤ length keys)%nat → (hi - lo ≤ fuel)%nat →
  (∀ i k, (i < lo)%nat → keys !! i = Some k → k < x) →
  (∀ i k, (hi ≤ i)%nat → keys !! i = Some k → x ≤ k) →
  let m := bisect_loop fuel keys x lo hi in
  ∀ i k, keys !! i = Some k → (i < m)%nat ↔ k < x.
Proof.
  intros Hs. revert lo hi. induction fuel as [|fuel IH]; intros lo hi Hr Hf Hlo Hhi; simpl.
  - intros i k Hi. split; [eauto|]. intros Hk. destruct (decide (i < lo)%nat); [done|].
    specialize (Hhi i k ltac:(lia) Hi). lia.
  - destruct (Nat.ltb_spec lo hi) as [Hlt|Hge].
    2:{ intros i k Hi. split; [eauto|]. intros Hk. destruct (decide (i < lo)%nat); [done|].
        specialize (Hhi i k ltac:(lia) Hi). lia. }
    assert (lo ≤ Nat.div2 (lo + hi) < hi)%nat as Hmid.
    { rewrite Nat.div2_div. split; [apply Nat.div_le_lower_bound|apply Nat.Div0.div_lt_upper_bound]; lia. }
    destruct (lookup_lt_is_Some_2 keys (Nat.div2 (lo + hi))) as [km Hkm]; [lia|].
    rewrite (list_lookup_total_correct _ _ _ Hkm). destruct (Z.ltb_spec km x) as [Hkx|Hkx].
    + apply IH; [lia|lia| |done]. intros i k Hi Hk.
      assert (k ≤ km) by (eapply sorted_lookup; [done| |done..]; lia). lia.
    + apply IH; [lia|lia|done|]. intros i k Hi Hk.
      assert (km ≤ k) by (eapply sorted_lookup; [done| |done..]; lia). lia.
Qed.

(** The index splits the keys into the smaller ones and the others. *)
Lemma bisect_left_spec keys x i k :
  StronglySorted Z.le keys → keys !! i = Some k → (i < bisect_left keys x)%nat ↔ k < x.
Proof.
  intros Hs. apply bisect_loop_spec; [done|lia|lia|lia|].
  intros j a Hj Ha. apply lookup_lt_Some in Ha. lia.
Qed.

(** ** Positions of multimodal inputs *)

Definition mm_start (f : MultiModalFeatureSpec) : Z := pr_offset (mm_position f).
Definition mm_stop (f : MultiModalFeatureSpec) : Z := pr_offset (mm_position f) + pr_length (mm_position f).

(** The inputs are listed by position, and a mask covers its placeholder. *)
Record laid_out (r : Request) : Prop := {
  lo_starts : StronglySorted Z.le (mm_start <$> mm_features r);
  lo_ends : StronglySorted Z.le (mm_stop <$> mm_features r);
  lo_length : ∀ i f, mm_features r !! i = Some f → 0 ≤ pr_length (mm_position f);
  lo_mask : ∀ i f m, mm_features r !! i = Some f → is_embed (mm_position f) = Some m →
    zlen m = pr_length (mm_position f);
}.

Lemma window_spec r a b i f :
  laid_out r → mm_features r !! i = Some f →
  let '(lo, hi) := get_mm_features_in_window (mm_features r) a b in
  ((lo ≤ i)%nat ↔ a < mm_stop f) ∧ ((i < hi)%nat ↔ mm_start f < b).
Proof.
  intros [Hs He _ _] Hf. unfold get_mm_features_in_window.
  pose proof (bisect_left_spec _ (a + 1) i (mm_stop f) He) as H1.
  pose proof (bisect_left_spec _ b i (mm_start f) Hs) as H2.
  rewrite !list_lookup_fmap, Hf in *. specialize (H1 eq_refl). specialize (H2 eq_refl).
  unfold mm_stop, mm_start in *. split; [|done]. lia.
Qed.

(** ** Counting embeddings *)

Definition count_embeds (m : list bool) : Z := zlen (filter (λ b, b = true) m).

Lemma cumsum_spec m i :
  (i < length m)%nat →
  (foldl (λ '(acc, n) (b : bool), let n := if b then n + 1 else n in (acc ++ [n], n)) ([], 0) m).1 !! i
  = Some (count_embeds (take (S i) m)).
Proof.
  revert i. induction m as [|b m IH] using rev_ind; intros i Hi; [simpl in Hi; lia|].
  rewrite foldl_app. simpl.
  assert (∀ m, let p := foldl (λ '(acc, n) (b : bool), let n := if b then n + 1 else n in (acc ++ [n], n)) ([], 0) m
    in length p.1 = length m ∧ p.2 = count_embeds m) as Hp.
  { clear. induction m as [|b m IH] using rev_ind; simpl; [done|]. rewrite foldl_app. simpl.
    destruct (foldl _ _ m) as [acc n]. simpl in *. destruct IH as [Hl ->]. rewrite !length_app. simpl.
    split; [lia|]. unfold count_embeds. rewrite filter_app, zlen_app. destruct b; simpl; unfold zlen; simpl; lia. }
  specialize (Hp m). destruct (foldl _ _ m) as [acc n] eqn:E. simpl in *. destruct Hp as [Hl ->].
  rewrite length_app in Hi. simpl in Hi. destruct (decide (i < length m)%nat) as [Hlt|Hge].
  - rewrite lookup_app_l by lia. rewrite IH by done. by rewrite take_app_le by lia.
  - assert (i = length m) as -> by lia. rewrite <-Hl, lookup_app_r, Nat.sub_diag by done. rewrite Hl. simpl.
    f_equal. rewrite take_ge by (rewrite length_app; simpl; lia).
    unfold count_embeds. rewrite filter_app, zlen_app. destruct b; simpl; unfold zlen; simpl; lia.
Qed.

(** Position [p] of the prompt is one the encoder output of [f] replaces. *)
Definition embed_at (f : MultiModalFeatureSpec) (p : Z) : Prop :=
  mm_start f ≤ p < mm_stop f ∧
  match is_embed (mm_position f) with None => True | Some m => m !! Z.to_nat (p - mm_start f) = Some true end.

Lemma count_take_mono m a b : (a ≤ b)%nat →
  count_embeds (take a m) ≤ count_embeds (take b m) ∧
  (∀ k, (a ≤ k < b)%nat → m !! k = Some true → count_embeds (take a m) < count_embeds (take b m)).
Proof.
  intros Hab. assert (take b m = take a m ++ take (b - a) (drop a m)) as ->.
  { rewrite <-(take_drop a (take b m)), take_take, Nat.min_l by done. f_equal.
    by rewrite skipn_firstn_comm. }
  unfold count_embeds. rewrite filter_app, zlen_app. split; [unfold zlen; lia|].
  intros k Hk Hm. assert (true ∈ filter (λ x, x = true) (take (b - a) (drop a m))) as Hin.
  { apply list_elem_of_filter. split; [done|]. apply elem_of_take. exists (k - a)%nat.
    rewrite lookup_drop. split; [|lia]. by replace (a + (k - a))%nat with k by lia. }
  destruct (filter _ (take (b - a) _)); [by apply elem_of_nil in Hin|]. rewrite zlen_cons. unfold zlen. lia.
Qed.

(** The embeddings of a part of a placeholder: none are counted only if there are
    none. *)
Lemma embeds_in_range f a b :
  0 ≤ a ≤ b → b ≤ pr_length (mm_position f) →
  (∀ m, is_embed (mm_position f) = Some m → zlen m = pr_length (mm_position f)) →
  ∃ x y, get_embeds_indices_in_range (mm_position f) a b = Ok (x, y) ∧ x ≤ y ∧
    (∀ p, a ≤ p - mm_start f < b → embed_at f p → x < y).
Proof.
  intros Hab Hb Hm. unfold get_embeds_indices_in_range, embeds_cumsum, embed_at.
  destruct (is_embed (mm_position f)) as [m|]; simpl; [|exists a, b; split_and!; [done|lia|lia]].
  specialize (Hm _ eq_refl).
  assert (∀ c, 0 ≤ c ≤ zlen m →
    (if 0 <? c then py_index (foldl (λ '(acc, n) (b : bool), let n := if b then n + 1 else n in (acc ++ [n], n))
        ([], 0) m).1 (c - 1) else Ok 0) = Ok (count_embeds (take (Z.to_nat c) m))) as Hc.
  { intros c Hc. destruct (Z.ltb_spec 0 c) as [H|H]; [|by replace c with 0 by lia].
    unfold py_index. rewrite cumsum_spec by (unfold zlen in Hc; lia).
    by replace (S (Z.to_nat (c - 1))) with (Z.to_nat c) by lia. }
  rewrite !Hc by lia. simpl. eexists _, _. split; [done|].
  destruct (count_take_mono m (Z.to_nat a) (Z.to_nat b)) as [H1 H2]; [lia|]. split; [done|].
  intros p Hp [_ Ht]. eapply H2; [|exact Ht]. lia.
Qed.

Lemma bisect_loop_le fuel keys x lo hi : (lo ≤ hi)%nat → (bisect_loop fuel keys x lo hi ≤ hi)%nat.
Proof.
  revert lo hi. induction fuel as [|fuel IH]; intros lo hi Hr; simpl; [done|].
  destruct (Nat.ltb_spec lo hi) as [Hlt|Hge]; [|done].
  assert (lo ≤ Nat.div2 (lo + hi) < hi)%nat as Hmid.
  { rewrite Nat.div2_div. split; [apply Nat.div_le_lower_bound|apply Nat.Div0.div_lt_upper_bound]; lia. }
  destruct (_ <? x); [apply IH; lia|]. etrans; [apply IH|]; lia.
Qed.

(** ** The number of tokens *)

Lemma encoder_loop_bound cfg r c shift idxs st st' :
  (∀ i f, i ∈ idxs → mm_features r !! i = Some f → mm_start f < c + es_new_tokens st + shift) →
  0 ≤ es_new_tokens st → encoder_loop cfg r c shift idxs st = Ok st' →
  0 ≤ es_new_tokens st' ≤ es_new_tokens st.
Proof.
  revert st. induction idxs as [|i idxs IH]; intros st Hin Hn H; cbn [encoder_loop] in H.
  { simplify_eq. lia. }
  destruct (mm_features r !! i) as [f|] eqn:Hf; [|done].
  assert (∀ st1, encoder_loop cfg r c shift idxs st1 = Ok st' → es_new_tokens st1 = es_new_tokens st →
    0 ≤ es_new_tokens st' ≤ es_new_tokens st) as Hnext.
  { intros st1 H1 E. rewrite <-E in *. apply IH; [|done|done]. intros j g Hj. apply Hin. by right. }
  assert (mm_start f < c + es_new_tokens st + shift) as Hs by (eapply Hin; [by left|done]).
  case_inv H as E0; [bind_inv H as u E1; by apply (Hnext _ H)|]. case_inv H as E2; [by apply (Hnext _ H)|].
  bind_inv H as [hit e] E3. case_inv H as E4; [by apply (Hnext _ H)|]. unfold mm_start in Hs.
  case_inv H as E5; [simplify_eq; simpl; lia|]. bind_inv H as [ok e2] E6. case_inv H as E7.
  { simplify_eq. simpl. destruct (Z.ltb_spec (c + shift) (pr_offset (mm_position f))); lia. }
  bind_inv H as [a b] E8. case_inv H as E9; by apply (Hnext _ H).
Qed.

Lemma encoder_tokens_bound cfg e r c n budget shift l n' b' e' :
  StronglySorted Z.le (mm_start <$> mm_features r) → 0 ≤ n →
  _try_schedule_encoder_inputs cfg e r c n budget shift = Ok (l, n', b', e') → 0 ≤ n' ≤ n.
Proof.
  intros Hs Hn H. unfold _try_schedule_encoder_inputs in H. case_inv H as E0; [simplify_eq; lia|].
  destruct (get_mm_features_in_window _ _ _) as [lo hi] eqn:Ew. bind_inv H as st E. simplify_eq.
  apply encoder_loop_bound in E; [done| |done]. intros i f Hi Hf. simpl. apply elem_of_seq in Hi.
  apply (bisect_left_spec _ (c + n + shift) i (mm_start f) Hs); [by rewrite list_lookup_fmap, Hf|].
  assert (bisect_left (mm_start <$> mm_features r) (c + n + shift) = hi) as -> by (by injection Ew).
  destruct (is_encoder_decoder cfg); lia.
Qed.

(** ** The loop over the inputs *)

Section loop.
Context (size : string → Z) (cfg : SchedulerConfig) (r : Request) (c n shift b0 : Z).
Context (Hdec : is_encoder_decoder cfg = false) (Hsz : sized size r) (Hlay : laid_out r).
Context (Hshift : 0 ≤ shift ≤ 1) (Hn : 0 ≤ n).

Definition id_of (i : nat) : string := from_option identifier "" (mm_features r !! i).
Definition sizes (l : list nat) : Z := foldr (λ i a, size (id_of i) + a) 0 l.

(** The image is in the cache and the request holds it. *)
Definition pinned (e : EncoderCacheManager) (h : string) : Prop :=
  ∃ refs, cached e !! h = Some refs ∧ request_id r ∈ refs.

(** An embedding of [f] is among the first [k] tokens to compute. *)
Definition needed (f : MultiModalFeatureSpec) (k : Z) : Prop := ∃ p, c ≤ p < c + k ∧ embed_at f p.

(** What holds of the inputs chosen so far. *)
Record chosen (e : EncoderCacheManager) (st : EncState) : Prop := {
  ch_cache : es_cache st = MMCache e;
  ch_inv : enc_inv size e;
  ch_pending : es_pending st = sizes (es_inputs st);
  ch_budget : es_budget st = b0 - sizes (es_inputs st);
  ch_left : es_inputs st = [] ∨ 0 ≤ es_budget st;
  ch_room : sizes (es_inputs st) ≤ num_free_slots e;
  ch_hashes : ∀ h, h ∈ es_hashes st ↔ h ∈ (id_of <$> es_inputs st);
  ch_nodup : NoDup (id_of <$> es_inputs st);
  ch_valid : ∀ i, i ∈ es_inputs st → is_Some (mm_features r !! i);
  ch_missing : ∀ i, i ∈ es_inputs st → cached e !! id_of i = None;
}.

(** The inputs below [k] are dealt with. *)
Definition dealt (e : EncoderCacheManager) (st : EncState) (k : nat) (m : Z) : Prop :=
  ∀ i f, (i < k)%nat → mm_features r !! i = Some f → needed f m → identifier f ∈ es_hashes st ∨ pinned e (identifier f).

(** The cache may gain references and lose unused entries. *)
Record cache_le (e e' : EncoderCacheManager) : Prop := {
  cl_free : num_free_slots e ≤ num_free_slots e';
  cl_none : ∀ h, cached e !! h = None → cached e' !! h = None;
  cl_pinned : ∀ h, pinned e h → pinned e' h;
}.

Lemma id_of_Some i f : mm_features r !! i = Some f → id_of i = identifier f.
Proof. unfold id_of. by intros ->. Qed.

Lemma chosen_le e e' st st' :
  chosen e st → cache_le e e' → enc_inv size e' → es_cache st' = MMCache e' → es_inputs st' = es_inputs st →
  es_hashes st' = es_hashes st → es_pending st' = es_pending st → es_budget st' = es_budget st → chosen e' st'.
Proof.
  intros [] [] ? ? Ei Eh Ep Eb. split; rewrite ?Ei, ?Eh, ?Ep, ?Eb; try done; [lia|]. intros; eauto.
Qed.

Lemma dealt_le e e' st st' k m m' :
  dealt e st k m → cache_le e e' → es_hashes st ⊆ es_hashes st' → m' ≤ m → dealt e' st' k m'.
Proof.
  intros Hd Hle Hh Hm i f Hi Hf (p & Hp & He). destruct (Hd i f Hi Hf) as [?|?].
  - exists p. split; [lia|done].
  - left. set_solver.
  - right. by eapply cl_pinned.
Qed.

Lemma check_le e i f :
  enc_inv size e → mm_features r !! i = Some f →
  ∃ e', check_and_update_cache e r i = Ok (bool_decide (is_Some (cached e !! identifier f)), e') ∧
    enc_inv size e' ∧ cache_le e e' ∧ (is_Some (cached e !! identifier f) → pinned e' (identifier f)).
Proof.
  intros He Hf. destruct (check_spec size e r i f He Hf) as (e' & H & He' & Hfree & _ & Hc & _).
  exists e'. split_and!; try done.
  - split; [lia| |].
    + intros h Hh. by rewrite Hc, Hh.
    + intros h (refs & Hh & Hr). exists (if decide (h = identifier f) then {[request_id r]} ∪ refs else refs).
      rewrite Hc, Hh. split; [done|]. case_decide; set_solver.
  - intros [refs Hrefs]. exists ({[request_id r]} ∪ refs). rewrite Hc, Hrefs. simpl. rewrite decide_True by done.
    split; [done|set_solver].
Qed.

Lemma can_allocate_le e i f budget pend :
  enc_inv size e → mm_features r !! i = Some f →
  let fits := bool_decide (size (identifier f) ≤ budget ∧ size (identifier f) + pend ≤ num_freeable_slots e) in
  ∃ e', can_allocate e r i budget pend = Ok (fits, e') ∧ enc_inv size e' ∧ cache_le e e' ∧
    (fits = true → size (identifier f) + pend ≤ num_free_slots e').
Proof.
  intros He Hf fits. destruct (can_allocate_spec size e r i f budget pend He Hsz Hf)
    as (e' & k & H & He' & _ & _ & Hfs & Hfr & _ & Hc & Hfit & _).
  exists e'. split_and!; try done. split.
  - pose proof (ei_slots _ _ He) as H1. pose proof (ei_slots _ _ He') as H2. rewrite Hfs, H1, Hfr in H2.
    pose proof (freeable_app (take k (freeable e)) (drop k (freeable e))) as H3. rewrite take_drop in H3.
    assert (0 ≤ freeable_size (take k (freeable e))); [|lia].
    apply (freeable_nonneg size). intros h m Hin. apply elem_of_take in Hin as (j & Hj & _).
    apply list_elem_of_lookup_2, (ei_freeable _ _ He) in Hj as [_ ->]. apply He.
  - intros h Hh. rewrite Hc, Hh. by destruct (decide (h ∈ _)).
  - intros h (refs & Hh & Hr). exists refs. split; [|done]. rewrite Hc. destruct (decide (h ∈ _)) as [Hin|Hin]; [|done].
    apply elem_of_take in Hin as (j & Hj & _). rewrite list_lookup_fmap in Hj.
    apply fmap_Some in Hj as ([h' m] & Hj & ->). apply list_elem_of_lookup_2, (ei_freeable _ _ He) in Hj as [E _].
    simpl in Hh. rewrite E in Hh. set_solver.
Qed.

(** The choice and its number of tokens are final. *)
Definition settled (st : EncState) : Prop :=
  0 ≤ es_new_tokens st ≤ n ∧
  ∃ e, chosen e st ∧ dealt e st (length (mm_features r)) (es_new_tokens st).

(** Stopping at input [k]: the tokens before it are kept. *)
Lemma stop_settled e st k f m :
  chosen e st → dealt e st k n → mm_features r !! k = Some f → mm_start f < c + n + shift →
  m = Z.max 0 (mm_start f - (c + shift)) →
  settled (mkEncState (es_inputs st) (es_hashes st) (es_pending st) m (es_budget st) (MMCache e)).
Proof.
  intros Hch Hd Hf Hs Hm. split; simpl; [lia|]. exists e. split; [by destruct Hch|].
  intros i g Hi Hg Hneed. destruct (decide (i < k)%nat) as [Hik|Hik].
  - apply (Hd i g Hik Hg). destruct Hneed as (p & Hp & He). exists p. split; [lia|done].
  - exfalso. destruct Hneed as (p & Hp & [Hr _]).
    assert (mm_start f ≤ mm_start g); [|lia].
    eapply (sorted_lookup (mm_start <$> mm_features r) k i); [apply Hlay|lia| |];
      rewrite list_lookup_fmap; [by rewrite Hf|by rewrite Hg].
Qed.

Lemma sizes_snoc l i : sizes (l ++ [i]) = sizes l + size (id_of i).
Proof. unfold sizes. induction l as [|j l IH]; simpl in *; lia. Qed.

(** Choosing one more input. *)
Lemma chosen_add e e' st k f :
  chosen e st → cache_le e e' → enc_inv size e' → mm_features r !! k = Some f →
  identifier f ∉ es_hashes st → cached e !! identifier f = None →
  size (identifier f) ≤ es_budget st → size (identifier f) + es_pending st ≤ num_free_slots e' →
  chosen e' (mkEncState (es_inputs st ++ [k]) ({[identifier f]} ∪ es_hashes st)
               (es_pending st + get_num_embeds (mm_position f)) (es_new_tokens st)
               (es_budget st - get_num_embeds (mm_position f)) (MMCache e')).
Proof.
  intros [Hc Hi Hp Hb Hl Hr Hh Hnd Hv Hm] Hle He' Hf Hnew Hmiss Hbud Hroom.
  pose proof (id_of_Some _ _ Hf) as Eid. rewrite (Hsz _ _ Hf).
  split; simpl; rewrite ?sizes_snoc, ?Eid; try done; try lia.
  - intros h. rewrite fmap_app, elem_of_union, elem_of_app, Hh, elem_of_singleton. simpl.
    rewrite list_elem_of_singleton, Eid. tauto.
  - rewrite fmap_app. simpl. rewrite Eid, <-Permutation_cons_append. apply NoDup_cons. by rewrite <-Hh.
  - intros i. rewrite elem_of_app, list_elem_of_singleton. intros [Hi'| ->]; [by apply Hv|by rewrite Hf].
  - intros i. rewrite elem_of_app, list_elem_of_singleton.
    intros [Hi'| ->]; apply (cl_none _ _ Hle); [by apply Hm|by rewrite Eid].
Qed.

(** One more input is dealt with. *)
Lemma dealt_S e st k f m :
  dealt e st k m → mm_features r !! k = Some f →
  (needed f m → identifier f ∈ es_hashes st ∨ pinned e (identifier f)) → dealt e st (S k) m.
Proof.
  intros Hd Hf Hk i g Hi Hg. destruct (decide (i = k)) as [->|]; [by simplify_eq|]. exact (Hd i g ltac:(lia) Hg).
Qed.

Lemma loop_settled m k e st :
  chosen e st → dealt e st k n → es_new_tokens st = n →
  (∀ i, (k ≤ i < k + m)%nat → ∃ f, mm_features r !! i = Some f ∧ c < mm_stop f ∧ mm_start f < c + n + shift) →
  (∀ i f, (k + m ≤ i)%nat → mm_features r !! i = Some f → ¬ needed f n) →
  ∃ st', encoder_loop cfg r c shift (seq k m) st = Ok st' ∧ settled st'.
Proof.
  revert k e st. induction m as [|m IH]; intros k e st Hch Hd Hnew Hin Hout; cbn [seq encoder_loop].
  { exists st. split; [done|]. rewrite <-Hnew in *. split; [lia|]. exists e. split; [done|].
    intros i f Hi Hf Hneed. destruct (decide (i < k)%nat); [by eapply Hd|].
    exfalso. eapply Hout; [|done..]. lia. }
  destruct (Hin k) as (f & Hf & Hend & Hstart); [lia|]. rewrite Hf, Hdec. cbn [andb negb].
  assert (∀ i, (S k ≤ i < S k + m)%nat → ∃ f, mm_features r !! i = Some f ∧ c < mm_stop f ∧ mm_start f < c + n + shift)
    as Hin' by (intros; apply Hin; lia).
  assert (∀ i f, (S k + m ≤ i)%nat → mm_features r !! i = Some f → ¬ needed f n) as Hout'
    by (intros i g Hi; apply Hout; lia).
  case_bool_decide as Hnh.
  { apply (IH _ e); try done. eapply dealt_S; [done..|]. by left. }
  rewrite (ch_cache _ _ Hch). simpl.
  destruct (check_le e k f (ch_inv _ _ Hch) Hf) as (e1 & -> & He1 & Hle1 & Hpin). simpl.
  case_bool_decide as Hhit.
  { apply (IH _ e1); try done; [by eapply chosen_le|]. eapply dealt_S; [|done|by right; apply Hpin].
    by eapply dealt_le. }
  assert (chosen e1 (mkEncState (es_inputs st) (es_hashes st) (es_pending st) n (es_budget st) (MMCache e1))) as Hch1
    by (by eapply chosen_le).
  assert (dealt e1 (mkEncState (es_inputs st) (es_hashes st) (es_pending st) n (es_budget st) (MMCache e1)) k n)
    as Hd1 by (by eapply dealt_le).
  destruct (_ && _).
  { eexists. split; [done|]. by apply (stop_settled _ _ k f _ Hch1). }
  simpl. destruct (can_allocate_le e1 k f (es_budget st) (es_pending st) He1 Hf) as (e2 & -> & He2 & Hle2 & Hfit).
  simpl. case_bool_decide as Hok; simpl.
  2:{ eexists. split; [done|]. eapply (stop_settled _ (mkEncState (es_inputs st) (es_hashes st) (es_pending st) n
        (es_budget st) (MMCache e2)) k f); [by eapply chosen_le|by eapply dealt_le|done|done|].
      destruct (Z.ltb_spec (c + shift) (pr_offset (mm_position f))); unfold mm_start in *; lia. }
  specialize (Hfit eq_refl). rewrite Hnew. unfold mm_start, mm_stop in Hstart, Hend.
  destruct (embeds_in_range f (Z.max 0 (c - pr_offset (mm_position f)))
    (Z.min (pr_length (mm_position f)) (c + n - pr_offset (mm_position f)))) as (x & y & -> & Hxy & Hemb).
  { pose proof (lo_length _ Hlay _ _ Hf). lia. }
  { lia. }
  { intros mk. by apply (lo_mask _ Hlay k). }
  simpl. destruct (Z.eqb_spec (y - x) 0) as [E|E].
  - apply (IH _ e2); try done; [by eapply chosen_le|]. eapply (dealt_S _ _ _ f); [by eapply dealt_le|done|].
    intros (p & Hp & He). exfalso. destruct He as [[H1 H2] He']. unfold mm_start, mm_stop in H1, H2.
    assert (x < y); [|lia]. apply (Hemb p); [unfold mm_start; lia|]. by split.
  - apply (IH _ e2); try done.
    + rewrite <-Hnew at 1. apply (chosen_add e1 e2 (mkEncState (es_inputs st) (es_hashes st) (es_pending st)
        (es_new_tokens st) (es_budget st) (MMCache e1))); try done.
      * by rewrite Hnew.
      * apply (cl_none _ _ Hle1). by apply eq_None_not_Some.
      * by destruct Hok.
    + eapply (dealt_S _ _ _ f); [|done|left; simpl; set_solver]. eapply dealt_le; [exact Hd1|done| |lia]. simpl. set_solver.
Qed.

(** The chosen inputs get their space. *)
Lemma allocate_all e l :
  enc_inv size e → NoDup (id_of <$> l) → (∀ i, i ∈ l → is_Some (mm_features r !! i)) →
  (∀ i, i ∈ l → cached e !! id_of i = None) → sizes l ≤ num_free_slots e →
  ∃ e', mfold (λ e i, enc_allocate e r i) e l = Ok e' ∧ enc_inv size e' ∧
    (∀ h, pinned e h ∨ h ∈ (id_of <$> l) → pinned e' h).
Proof.
  revert e. induction l as [|i l IH]; intros e He Hnd Hv Hm Hroom; simpl.
  { exists e. split_and!; try done. intros h [?|?%elem_of_nil]; done. }
  apply NoDup_cons in Hnd as [Hni Hnd]. simpl in Hroom.
  destruct (Hv i) as [f Hf]; [by left|]. pose proof (id_of_Some _ _ Hf) as Eid.
  assert (0 ≤ sizes l) as H0.
  { unfold sizes. clear -He. induction l as [|j l IHl]; simpl; [done|]. pose proof (ei_size _ _ He (id_of j)). lia. }
  destruct (allocate_spec size e r i f He Hsz Hf) as (e1 & H1 & He1 & Hfr & _ & Hc & _).
  { rewrite <-Eid. apply Hm. by left. }
  { fold (sizes l) in Hroom. rewrite <-Eid. lia. }
  rewrite H1. simpl. destruct (IH e1) as (e' & H' & He' & Hp); [done|done|..].
  - intros j Hj. apply Hv. by right.
  - intros j Hj. rewrite Hc, <-Eid. rewrite lookup_insert_ne; [apply Hm; by right|].
    intros E. apply Hni. rewrite E. by apply list_elem_of_fmap_2.
  - fold (sizes l) in Hroom. rewrite Hfr, <-Eid. lia.
  - exists e'. split_and!; try done. intros h Hh. apply Hp. destruct Hh as [(refs & Hh & Hr)|Hh].
    + left. exists refs. split; [|done]. rewrite Hc, <-Eid, lookup_insert_ne; [done|].
      intros <-. rewrite Hm in Hh; [done|by left].
    + apply elem_of_cons in Hh as [->|Hh]; [|by right]. left. exists {[request_id r]}.
      rewrite Hc, <-Eid, lookup_insert_eq. split; [done|set_solver].
Qed.

Lemma no_inputs : has_encoder_inputs r = false → mm_features r = [].
Proof.
  unfold has_encoder_inputs, num_encoder_inputs. destruct (mm_features r) as [|f l]; [done|].
  rewrite zlen_cons. pose proof (zlen_nonneg l). intros ?%Z.ltb_ge. lia.
Qed.

Lemma encoder_inputs_spec e :
  enc_inv size e →
  ∃ l n' e', _try_schedule_encoder_inputs cfg (MMCache e) r c n b0 shift = Ok (l, n', b0 - sizes l, MMCache e') ∧
    0 ≤ n' ≤ n ∧ (l = [] ∨ 0 ≤ b0 - sizes l) ∧
    ∃ e2, mfold (λ e i, enc_allocate e r i) e' l = Ok e2 ∧ enc_inv size e2 ∧
      ∀ i f, mm_features r !! i = Some f → needed f n' → pinned e2 (identifier f).
Proof.
  intros He. unfold _try_schedule_encoder_inputs.
  assert (∀ m, n = 0 ∨ mm_features r = [] → ∃ e2, mfold (λ e i, enc_allocate e r i) e [] = Ok e2 ∧ enc_inv size e2 ∧
    ∀ i f, mm_features r !! i = Some f → needed f m → m = n → pinned e2 (identifier f)) as Hnone.
  { intros m Hz. exists e. split_and!; try done. intros i f Hf (p & Hp & _) ->. destruct Hz as [->|Hz]; [lia|].
    by rewrite Hz in Hf. }
  destruct ((n =? 0) || negb (has_encoder_inputs r)) eqn:E0.
  { exists [], n, e. rewrite Z.sub_0_r. split_and!; [done|lia|lia|by left|].
    destruct (Hnone n) as (e2 & H2 & He2 & Hp); [|exists e2; split_and!; eauto].
    apply orb_prop in E0 as [E0|E0]; [left; lia|right]. apply no_inputs. by destruct (has_encoder_inputs r). }
  rewrite Hdec. destruct (get_mm_features_in_window _ _ _) as [lo hi] eqn:Ew.
  assert (∀ i f, mm_features r !! i = Some f →
    ((lo ≤ i)%nat ↔ c < mm_stop f) ∧ ((i < hi)%nat ↔ mm_start f < c + n + shift)) as Hwin.
  { intros i f Hf. pose proof (window_spec r c (c + n + shift) i f Hlay Hf) as H. by rewrite Ew in H. }
  assert (hi ≤ length (mm_features r))%nat as Hhi.
  { unfold get_mm_features_in_window in Ew. simplify_eq. unfold bisect_left. rewrite bisect_loop_le by lia.
    by rewrite length_fmap. }
  destruct (loop_settled (hi - lo) lo e (mkEncState [] ∅ 0 n b0 (MMCache e))) as (st & -> & Hn' & e1 & Hch & Hd).
  - split; simpl; try done; try lia; [by left|apply He|set_solver|constructor|by intros ? ?%elem_of_nil..].
  - intros i f Hi Hf (p & Hp & [Hr _]). destruct (Hwin i f Hf) as [Hlo _]. lia.
  - done.
  - intros i Hi. destruct (lookup_lt_is_Some_2 (mm_features r) i) as [f Hf]; [lia|].
    exists f. split; [done|]. destruct (Hwin i f Hf). split; [apply H|apply H0]; lia.
  - intros i f Hi Hf (p & Hp & [Hr _]). destruct (Hwin i f Hf) as [H1 H2]. lia.
  - simpl. destruct Hch as [Hc Hi Hp Hb Hl Hr Hh Hnd Hv Hm].
    exists (es_inputs st), (es_new_tokens st), e1. rewrite Hc, <-Hb. split_and!; try done; [lia|lia|].
    destruct (allocate_all e1 (es_inputs st)) as (e2 & H2 & He2 & Hpin); try done.
    exists e2. split_and!; try done. intros i f Hf Hneed. apply Hpin.
    destruct (Hd i f) as [Hin|Hin]; [by eapply lookup_lt_Some|done|done|right; by apply Hh|by left].
Qed.
End loop.

(** ** Properties *)

(** C6: for a request whose multimodal inputs are listed by position, choosing the
    encoder inputs of a step succeeds; it never asks for more tokens than it was
    given; the inputs chosen fit the compute budget, their space in the cache can
    be allocated, and then every image with an embedding among the tokens to
    compute is in the cache and pinned by the request. *)
Theorem encoder_inputs_covered size cfg e r c n budget shift :
  is_encoder_decoder cfg = false → enc_inv size e → sized size r → laid_out r → 0 ≤ shift ≤ 1 → 0 ≤ n →
  ∃ l n' e', _try_schedule_encoder_inputs cfg (MMCache e) r c n budget shift
      = Ok (l, n', budget - sizes size r l, MMCache e') ∧
    0 ≤ n' ≤ n ∧ (l = [] ∨ 0 ≤ budget - sizes size r l) ∧
    ∃ e2, mfold (λ e i, enc_allocate e r i) e' l = Ok e2 ∧ enc_inv size e2 ∧
      ∀ i f p, mm_features r !! i = Some f → c ≤ p < c + n' → embed_at f p →
        ∃ refs, cached e2 !! identifier f = Some refs ∧ request_id r ∈ refs.
Proof.
  intros Hdec He Hsz Hlay Hshift Hn.
  destruct (encoder_inputs_spec size cfg r c n shift budget Hdec Hsz Hlay Hshift Hn e He)
    as (l & n' & e' & H & Hn' & Hl & e2 & H2 & He2 & Hp).
  exists l, n', e'. split_and!; try done; [lia|lia|]. exists e2. split_and!; try done.
  intros i f p Hf Hpr Hemb. apply (Hp i f Hf). by exists p.
Qed.

(** A request with two images, of which the first is still in the cache. *)
Definition demo_enc_config : SchedulerConfig :=
  mkSchedConfig FCFS 4 16 64 1 0 true false false 8 false 0 0 None None false false 2 false false false false
    false false 1.

Lemma demo_laid_out : laid_out (demo_mm_request "b").
Proof.
  assert (mm_features (demo_mm_request "b") = [demo_image "X" 0 3; demo_image "Y" 4 2]) as E by reflexivity.
  split; rewrite E.
  - repeat constructor; unfold mm_start; simpl; lia.
  - repeat constructor; unfold mm_stop; simpl; lia.
  - intros [|[|i]] f Hf; simpl in Hf; simplify_eq; simpl; lia.
  - by intros [|[|i]] f m Hf; simpl in Hf; simplify_eq.
Qed.

Lemma demo_enc_step :
  ∃ e, _try_schedule_encoder_inputs demo_enc_config (MMCache demo_unused) (demo_mm_request "b") 1 4 2 0
    = Ok ([], 3, 2, MMCache e).
Proof. eexists. vm_compute. reflexivity. Qed.

(** There is no room for the second image: three tokens are computed, and the
    first image, which they need, is kept. *)
Lemma encoder_inputs_covered_witness :
  ∃ e refs, _try_schedule_encoder_inputs demo_enc_config (MMCache demo_unused) (demo_mm_request "b") 1 4 2 0
      = Ok ([], 3, 2, MMCache e) ∧ cached e !! "X"%string = Some refs ∧ "b"%string ∈ refs.
Proof.
  destruct demo_enc_step as [e H].
  destruct (encoder_inputs_covered demo_size demo_enc_config demo_unused (demo_mm_request "b") 1 4 2 0)
    as (l & n' & e' & H' & _ & _ & e2 & H2 & _ & Hp).
  - reflexivity.
  - apply (enc_reachable_good demo_inputs demo_size 4); [apply demo_size_nonneg|done|apply demo_unused_reachable].
  - apply demo_known.
  - apply demo_laid_out.
  - lia.
  - lia.
  - rewrite H in H'. injection H' as <- <- _ <-. injection H2 as <-.
    destruct (Hp 0%nat (demo_image "X" 0 3) 2) as (refs & Hc & Hr).
    + reflexivity.
    + lia.
    + split; [unfold mm_start, mm_stop; simpl; lia|done].
    + exists e, refs. split_and!; [exact H|exact Hc|exact Hr].
Defined.
