(* ===== verification/SchedUpdate.v ===== *)
(** * The scheduler: processing the output of the model

    [Scheduler.update_from_output] with the overrides of [AsyncScheduler]
    ([vllm/v1/core/sched/scheduler.py], [async_scheduler.py]), and the updates of
    draft tokens.  Log probabilities, statistics, routed experts and transfer
    results are not part of the model. *)

From S2P Require Import Prelude OrderedDict KVBlock Request BlockPool KVSpecs Coordinator KVManager EncoderCache RequestQueue SchedUtils SchedState Schedule.

#[local] Open Scope Z_scope.

Record ModelRunnerOutput := mkRunnerOutput {
  req_id_to_index : gmap string nat;
  sampled_token_ids : list (list Z);
  pooler_output : option (list (option bytes));
}.

Record EngineCoreOutput := mkEngineOutput {
  eo_request_id : string;
  eo_new_token_ids : list Z;
  eo_finish_reason : option FinishReason;
  eo_stop_reason : option StopReason;
  eo_pooling_output : option bytes;
}.

Section update.
Context (sha256 : list bytes → bytes) (hasher : option block_hasher) (set_iter : gset nat → list nat).
(** The structured-output manager: whether a request's grammar takes the next
    tokens, whether it accepts them, and the accepted prefix of draft tokens. *)
Context (should_advance : Request → bool) (accept_tokens : Request → list Z → bool)
  (validate_tokens : Request → list Z → list Z).

(** ** Generated tokens *)

(** [Scheduler._update_request_with_output]: append the tokens up to the first
    one that stops the request. *)
Fixpoint append_tokens (max_model_len : Z) (tokens : list Z) (r : Request) : result (list Z * bool * Request) :=
  match tokens with
  | [] => Ok ([], false, r)
  | t :: tokens =>
      r ← append_output_token_ids hasher [t] r;
      '(stopped, r) ← check_stop r max_model_len;
      if (stopped : bool) then Ok ([t], true, r) else
      '(kept, stopped, r) ← append_tokens max_model_len tokens r;
      Ok (t :: kept, stopped, r)
  end.

(** With [AsyncScheduler]'s override; the manager caches the new tokens. *)
Definition _update_request_with_output (s : Scheduler) (r : Request) (new_token_ids : list Z)
    : result (list Z * bool * Request * Scheduler) :=
  let len := sc_max_model_len (config s) in
  if negb (async_scheduling (config s)) then
    '(kept, stopped, r) ← append_tokens len new_token_ids r;
    Ok (kept, stopped, r, s)
  else if 0 <? async_tokens_to_discard r then
    Ok ([], false, set_async_tokens_to_discard (async_tokens_to_discard r - 1) r, s)
  else
    let status_before_update := status r in
    '(kept, stopped, r) ← append_tokens len new_token_ids r;
    let r := set_num_output_placeholders (num_output_placeholders r - zlen kept) r in
    _ ← py_assert (0 <=? num_output_placeholders r);
    if bool_decide (status_before_update = RUNNING) then
      '(k, r) ← km_cache_blocks sha256 (kv_cache_manager s) r
                  (num_computed_tokens r - num_output_placeholders r);
      Ok (kept, stopped, r, set_kv k s)
    else Ok (kept, stopped, r, s).

(** The rejected draft tokens of the step are taken back. *)
Definition take_back_rejected (cfg : SchedulerConfig) (spec generated : list Z) (r : Request) : Request :=
  if negb (zlen spec =? 0) && (negb (zlen generated =? 0) || (num_sampled_tokens_per_step cfg =? 0)) then
    let num_accepted := Z.max (zlen generated - num_sampled_tokens_per_step cfg) 0 in
    let num_rejected := zlen spec - num_accepted in
    let r := if 0 <? num_computed_tokens r
             then set_num_computed_tokens (num_computed_tokens r - num_rejected) r else r in
    if 0 <? num_output_placeholders r
    then set_num_output_placeholders (num_output_placeholders r - num_rejected) r else r
  else r.

Definition _free_encoder_inputs (s : Scheduler) (r : Request) : result Scheduler :=
  e ← mfold (λ e i,
        match mm_features r !! i with
        | None => Raise IndexError
        | Some f =>
            if (is_encoder_decoder (config s) && (0 <? num_computed_tokens r))
               || (pr_offset (mm_position f) + pr_length (mm_position f)
                     <=? num_computed_tokens r - num_output_placeholders r)
            then em_free_encoder_input e r i else Ok e
        end) (encoder_cache_manager s) (em_cached_input_ids set_iter (encoder_cache_manager s) r);
  Ok (set_encoder e s).

(** ** One request of the batch *)

Record UpdateState := mkUpdateState {
  us_outputs : list (Z * list EngineCoreOutput);  (* by client *)
  us_stopped_running : list string;
  us_stopped_preempted : list Request;
}.

(** [outputs[client].append(o)] of the [defaultdict] *)
Definition add_output (client : Z) (o : EngineCoreOutput) (outs : list (Z * list EngineCoreOutput)) :=
  od_set outs client (default [] (od_get outs client) ++ [o]).

(** Tokens, pooling output and grammar decide whether the request stops. *)
Definition apply_output (s : Scheduler) (r : Request) (generated : list Z) (pooled : option bytes)
    : result (list Z * bool * Request * Scheduler) :=
  '(new_token_ids, stopped, r, s) ←
    match generated with
    | [] =>
        match pooling_params r, pooled with
        | Some _, Some _ => Ok ([], true, set_status FINISHED_STOPPED r, s)
        | _, _ => Ok ([], false, r, s)
        end
    | _ => _update_request_with_output s r generated
    end;
  match new_token_ids with
  | [] => Ok (new_token_ids, stopped, r, s)
  | _ =>
      if should_advance r then
        _ ← py_assert (use_structured_output r);
        if accept_tokens r new_token_ids then Ok (new_token_ids, stopped, r, s)
        else
          let r := set_status FINISHED_ERROR r in
          Ok (new_token_ids, true,
              mkRequest (request_id r) (obj_addr r) (client_index r) (priority r) (arrival_time r)
                (sampling_params r) (pooling_params r) (lora_request r) (has_structured_output r) (status r)
                (stop_reason r) (max_tokens r) (prompt_token_ids r) (prompt_embeds r)
                (prompt_embeds_hashes r) (num_prompt_tokens r) (output_token_ids r) (all_token_ids r)
                (num_output_placeholders r) (async_tokens_to_discard r) (next_decode_eligible_step r)
                (last_sched_seq r) (spec_token_ids r) (num_computed_tokens r) (cache_salt r) (mm_features r)
                (is_prefill_chunk r) (num_preemptions r) (block_hashes r) (skip_reading_prefix_cache r)
                false (abort_immediately r), s)
      else Ok (new_token_ids, stopped, r, s)
  end.

Definition update_request (o : SchedulerOutput) (out : ModelRunnerOutput) (s : Scheduler) (us : UpdateState)
    (id : string) (num_tokens_scheduled : Z) : result (Scheduler * UpdateState) :=
  _ ← py_assert (0 <? num_tokens_scheduled);
  match od_get (requests s) id with
  | None => Ok (s, us)
  | Some r =>
  if is_finished r then Ok (s, us) else
  match req_id_to_index out !! id with
  | None => Raise KeyError
  | Some req_index =>
  generated ← match sampled_token_ids out with
              | [] => Ok []
              | rows => py_index rows (Z.of_nat req_index)
              end;
  let spec := default [] (od_get (so_spec_decode_tokens o) id) in
  let r := take_back_rejected (config s) spec generated r in
  let s := put_request r s in
  s ← (if has_encoder_inputs r then _free_encoder_inputs s r else Ok s);
  pooled ← match pooler_output out with
           | None | Some [] => Ok None
           | Some rows => py_index rows (Z.of_nat req_index)
           end;
  let status_before_stop := status r in
  '(new_token_ids, stopped, r, s) ← apply_output s r generated pooled;
  let s := put_request r s in
  let finish_reason := if (stopped : bool) then get_finished_reason r else None in
  '(r, s, us) ←
    (if (stopped : bool) then
       '(finished, r, s) ← _handle_stopped_request hasher s r;
       s ← (if (finished : bool) then _free_request set_iter s r false else Ok s);
       Ok (r, s,
           if bool_decide (status_before_stop = RUNNING)
           then mkUpdateState (us_outputs us) (us_stopped_running us ++ [id]) (us_stopped_preempted us)
           else mkUpdateState (us_outputs us) (us_stopped_running us) (us_stopped_preempted us ++ [r]))
     else Ok (r, s, us));
  if negb (zlen new_token_ids =? 0) || bool_decide (is_Some pooled) || stopped then
    Ok (s, mkUpdateState
             (add_output (client_index r)
                (mkEngineOutput id new_token_ids finish_reason (stop_reason r) pooled) (us_outputs us))
             (us_stopped_running us) (us_stopped_preempted us))
  else Ok (s, us)
  end
  end.

(** ** The whole batch *)

(** The outputs of a client with the ids of its finished requests. *)
Definition attach_finished (outs : list (Z * list EngineCoreOutput)) (finished : gmap Z (gset string))
    : list (Z * (list EngineCoreOutput * option (gset string))) :=
  ((λ '(c, l), (c, (l, finished !! c))) <$> outs) ++
  ((λ '(c, f), (c, ([], Some f))) <$>
     filter (λ '(c, _), c ∉ outs.*1) (map_to_list finished)).

Definition update_from_output (s : Scheduler) (o : SchedulerOutput) (out : ModelRunnerOutput)
    : result (list (Z * (list EngineCoreOutput * option (gset string))) * Scheduler) :=
  s ← (if defer_block_free (config s) && (0 <? so_total_num_scheduled_tokens o) then
         _drain_deferred_frees
           (set_deferred (sched_step_seq s) (processed_step_seq s + 1) (deferred_frees s) s)
       else Ok s);
  '(s, us) ← mfold (λ '(s, us) '(id, n), update_request o out s us id n)
               (s, mkUpdateState [] [] []) (so_num_scheduled_tokens o);
  let s := set_running (remove_all (running s) (us_stopped_running us)).1 s in
  s ← match us_stopped_preempted us with
      | [] => Ok s
      | rs => w ← remove_requests (waiting s) rs; Ok (set_queues w (skipped_waiting s) s)
      end;
  let '(_, k) := km_take_events (kv_cache_manager s) in
  let s := set_kv k s in
  Ok (attach_finished (us_outputs us) (default ∅ (finished_req_ids_dict s)),
      set_finished (finished_req_ids s) ((λ _, ∅) <$> finished_req_ids_dict s) s).

(** ** Draft tokens *)

Definition update_draft_token_ids (s : Scheduler) (drafts : list (string * list Z)) : Scheduler :=
  foldl (λ s '(id, spec),
    match od_get (requests s) id with
    | None => s
    | Some r =>
        if is_finished r then s
        else if is_prefill_chunk r then put_request (set_spec_token_ids [] r) s
        else put_request (set_spec_token_ids (if should_advance r then validate_tokens r spec else spec) r) s
    end) s drafts.

(** The scheduled draft tokens are replaced, padded with -1 to their number. *)
Definition update_draft_token_ids_in_output (s : Scheduler) (drafts : list (string * list Z))
    (sched : list (string * list Z)) : list (string * list Z) * list (string * Z) :=
  foldl (λ '(sched, invalid) '(id, spec),
    match od_get (requests s) id with
    | None => (sched, invalid)
    | Some r =>
        if is_finished r then (sched, invalid) else
        match od_get sched id with
        | None | Some [] => (sched, invalid)
        | Some placeholders =>
            let spec := take (length placeholders) spec in
            let spec := if should_advance r then validate_tokens r spec else spec in
            let n := zlen placeholders - zlen spec in
            (od_set sched id (spec ++ replicate (Z.to_nat n) (-1)),
             if n =? 0 then invalid else od_set invalid id n)
        end
    end) (sched, []) drafts.

(** The requests whose next token is masked by a grammar. *)
Definition get_grammar_bitmask (s : Scheduler) (o : SchedulerOutput) : option (list string) :=
  if so_has_structured_output_requests o then
    match filter (λ id, match od_get (requests s) id with
                        | Some r => use_structured_output r && negb (is_prefill_chunk r)
                        | None => false
                        end = true) (so_num_scheduled_tokens o).*1 with
    | [] => None
    | ids => Some ids
    end
  else None.
End update.
