(* ===== verification/Engine.v ===== *)
(** * The engine core

    The single-process core loop of [vllm/v1/engine/core.py]: requests are added
    and aborted, and a step schedules, runs the model and hands its output back to
    the scheduler.  The model executor is a parameter; tasks, data-parallel waves,
    logging and the sockets are not part of the model. *)

From S2P Require Import Prelude OrderedDict KVBlock Request BlockPool KVSpecs Coordinator KVManager EncoderCache RequestQueue SchedUtils SchedState Schedule SchedUpdate.

#[local] Open Scope Z_scope.

(** [SchedulerInterface.has_unfinished_requests] and [Scheduler.has_requests],
    without a connector *)
Definition has_unfinished_requests (s : Scheduler) : bool := 0 <? get_num_unfinished_requests s.
Definition has_requests (s : Scheduler) : bool := has_unfinished_requests s || has_finished_requests s.

Inductive PauseMode := PauseAbort | PauseWait | PauseKeep.

Section engine.
Context (sha256 : list bytes → bytes) (hasher : option block_hasher) (set_iter : gset nat → list nat).
(** The order in which Python iterates over a set of ids. *)
Context (id_iter : gset string → list string).
(** The structured-output manager. *)
Context (grammar_ready should_advance : Request → bool) (accept_tokens : Request → list Z → bool)
  (validate_tokens : Request → list Z → list Z).
(** The model executor: the output for a planned step and its grammar bitmask, and
    the draft tokens it has for the next one. *)
Context (execute_model : SchedulerOutput → option (list string) → ModelRunnerOutput)
  (take_draft_token_ids : SchedulerOutput → option (list (string * list Z))).

Definition abort_requests (s : Scheduler) (request_ids : list string) : result Scheduler :=
  '(_, s) ← finish_requests set_iter s (Some (id_iter (list_to_set request_ids))) FINISHED_ABORTED;
  Ok s.

Definition engine_add_request (s : Scheduler) (r : Request) : result Scheduler :=
  s ← sched_add_request hasher set_iter s r;
  if abort_immediately r then abort_requests s [request_id r] else Ok s.

(** [aborts] are the entries of the queue. *)
Definition _process_aborts_queue (s : Scheduler) (aborts : list (list string)) : result Scheduler :=
  match aborts with [] => Ok s | _ => abort_requests s (concat aborts) end.

(** The outputs, whether the model was executed, and what was planned. *)
Definition engine_step (s : Scheduler) (aborts : list (list string))
    : result (list (Z * (list EngineCoreOutput * option (gset string))) * option SchedulerOutput * Scheduler) :=
  if negb (has_requests s) then Ok ([], None, s) else
  '(o, s) ← schedule sha256 set_iter grammar_ready false s;
  let model_output := execute_model o (get_grammar_bitmask s o) in
  s ← _process_aborts_queue s aborts;
  '(outputs, s) ← update_from_output sha256 hasher set_iter should_advance accept_tokens s o model_output;
  Ok (outputs, Some o, s).

Definition model_executed (o : option SchedulerOutput) : bool :=
  match o with Some o => 0 <? so_total_num_scheduled_tokens o | None => false end.

Definition post_step (check_for_draft_tokens : bool) (s : Scheduler) (o : option SchedulerOutput) : Scheduler :=
  match o with
  | Some out =>
      if check_for_draft_tokens && negb (async_scheduling (config s)) && model_executed o then
        match take_draft_token_ids out with
        | Some drafts => update_draft_token_ids should_advance validate_tokens s drafts
        | None => s
        end
      else s
  | None => s
  end.

(** [_process_engine_step]: a step and its hook *)
Definition process_engine_step (check_for_draft_tokens : bool) (s : Scheduler) (aborts : list (list string))
    : result (list (Z * (list EngineCoreOutput * option (gset string))) * Scheduler) :=
  '(outputs, o, s) ← engine_step s aborts;
  Ok (outputs, post_step check_for_draft_tokens s o).

(** The multimodal cache of the executor is outside the scheduler. *)
Definition _reset_caches (s : Scheduler) : result Scheduler :=
  '(_, s) ← sched_reset_prefix_cache set_iter s true;
  Ok (reset_encoder_cache s).

Definition pause_scheduler (s : Scheduler) (mode : PauseMode) (clear_cache : bool) : result Scheduler :=
  match mode with
  | PauseWait => Raise ValueError
  | _ =>
      s ← (match mode with
           | PauseAbort => '(_, s) ← finish_requests set_iter s None FINISHED_ABORTED; Ok s
           | _ => Ok s
           end);
      let s := set_pause_state (match mode with PauseKeep => PAUSED_ALL | _ => PAUSED_NEW end) s in
      if clear_cache then _reset_caches s else Ok s
  end.

Definition resume_scheduler (s : Scheduler) : Scheduler := set_pause_state UNPAUSED s.
Definition is_scheduler_paused (s : Scheduler) : bool := negb (bool_decide (pause_state s = UNPAUSED)).
End engine.
