(* ===== verification/Termination.v ===== *)
(** * Calls that end

    The loops of the source that are not bounded by a list run here with fuel,
    and running out of it is the error [OutOfFuel].  [ends] says that a call does
    not run out: it returns or raises as the source does.  The calls into the
    KV-cache manager end for every argument; the prefix lookup does when block
    sizes are positive. *)

From S2P Require Import Prelude OrderedDict MathUtils KVBlock FreeQueue BlockHash BlockMap Request BlockHasher BlockHashList BlockPool KVSpecs CacheHit SingleType Coordinator KVManager EncoderCache RequestQueue SchedUtils SchedState Schedule.

#[local] Open Scope Z_scope.

Definition ends {A} (m : result A) : Prop := m ≠ Raise OutOfFuel.

(** ** Composition *)

Lemma ends_Ok {A} (a : A) : ends (Ok a).
Proof. done. Qed.

Lemma ends_bind {A B} (m : result A) (k : A → result B) : ends m → (∀ a, ends (k a)) → ends (m ≫= k).
Proof. unfold ends. destruct m; simpl; [naive_solver|]. intros H _. congruence. Qed.

Lemma ends_mfold {S A} (f : S → A → result S) s l : (∀ s a, ends (f s a)) → ends (mfold f s l).
Proof. intros Hf. revert s. induction l as [|a l IH]; intros s; simpl; [done|]. by apply ends_bind. Qed.

Lemma ends_assert b : ends (py_assert b).
Proof. by destruct b. Qed.

Lemma ends_index {A} (l : list A) i : ends (py_index l i).
Proof. unfold py_index. by destruct (l !! _). Qed.

Create HintDb ends.
#[export] Hint Resolve ends_Ok ends_assert ends_index : ends.

(** One step through the body of a function. *)
Ltac ends_step :=
  lazymatch goal with
  | |- ends (let _ := _ in _) => cbv zeta
  | |- ends (_ ≫= _) => apply ends_bind
  | |- ends (mfold _ _ _) => apply ends_mfold
  | |- ends (Raise _) => discriminate
  | |- ends (if ?b then _ else _) => destruct b
  | |- ends (match ?x with _ => _ end) => destruct x
  | |- ends (match ?x with _ => _ end _) => destruct x
  | |- ends (_ _) => solve [eauto with ends nocore]
  end.
Ltac ends := repeat first [progress intros | assumption | ends_step | solve [eauto with ends nocore]].

(** ** The block pool *)

Lemma popleft_n_loop_ends n h c ret : ends (popleft_n_loop n h c ret).
Proof. revert h c ret. induction n as [|n IH]; intros; simpl; ends. Qed.

Lemma remove_ends q b : ends (remove q b).
Proof. unfold remove. ends. Qed.

Lemma popleft_n_ends q n : ends (popleft_n q n).
Proof. pose proof popleft_n_loop_ends. unfold popleft_n. ends. Qed.

Lemma prepend_n_ends q bs : ends (prepend_n q bs).
Proof. unfold prepend_n. ends. Qed.

Lemma append_n_ends q bs : ends (append_n q bs).
Proof. unfold append_n. ends. Qed.
#[export] Hint Resolve remove_ends popleft_n_ends prepend_n_ends append_n_ends : ends.

Lemma first_ref_ends p b : ends (first_ref p b).
Proof. unfold first_ref. ends. Qed.
#[export] Hint Resolve first_ref_ends : ends.

Lemma get_new_blocks_ends p n : ends (get_new_blocks p n).
Proof. unfold get_new_blocks. ends. Qed.

Lemma touch_ends p bs : ends (touch p bs).
Proof. unfold touch, touch_one. ends. Qed.

Lemma free_blocks_ends p bs : ends (free_blocks p bs).
Proof. unfold free_blocks. ends. Qed.
#[export] Hint Resolve get_new_blocks_ends touch_ends free_blocks_ends : ends.

Lemma make_key_ends h g : ends (make_block_hash_with_group_id h g).
Proof. unfold make_block_hash_with_group_id, to_bytes. ends. Qed.

Lemma get_one_block_ends m k : ends (get_one_block m k).
Proof. unfold get_one_block. ends. Qed.

Lemma masked_out_ends m i : ends (masked_out m i).
Proof. unfold masked_out. ends. Qed.

Lemma hash_setter_ends k x : ends (block_hash_setter k x).
Proof. unfold block_hash_setter. ends. Qed.

Lemma bhl_get_ends hs i : ends (bhl_get hs i).
Proof. unfold bhl_get. ends. Qed.

Lemma scaled_ends l a b : ends (BlockHashListWithBlockSize l a b).
Proof. unfold BlockHashListWithBlockSize. ends. Qed.
#[export] Hint Resolve make_key_ends get_one_block_ends masked_out_ends hash_setter_ends bhl_get_ends scaled_ends : ends.

Lemma get_cached_loop_ends p h gids acc : ends (get_cached_loop p h gids acc).
Proof. revert acc. induction gids as [|g gids IH]; intros; simpl; ends. Qed.

Lemma cached_or_none_ends p h gids : ends (cached_or_none p h gids).
Proof. pose proof get_cached_loop_ends. unfold cached_or_none, get_cached_block. ends. Qed.
#[export] Hint Resolve cached_or_none_ends : ends.

Lemma cache_loop_ends p bs i mask hs gid acc : ends (cache_loop p bs i mask hs gid acc).
Proof. revert p i acc. induction bs as [|b bs IH]; intros; simpl; ends. Qed.

(** The index of a round is at least that of the round before. *)
Lemma mm_keys_loop_ends fuel mm a b idx keys :
  0 ≤ idx → (Z.to_nat (zlen mm - idx) < fuel)%nat → ends (mm_keys_loop fuel mm a b idx keys).
Proof.
  revert idx keys. induction fuel as [|fuel IH]; intros idx keys H0 Hf; simpl; [lia|].
  destruct (Z.ltb_spec idx (zlen mm)) as [Hlt|Hge]; simpl; [|done]. apply ends_bind; [apply ends_index|].
  intros f. repeat case_match; try done; apply IH; lia.
Qed.

Lemma mm_keys_ends r a b i : ends (_gen_mm_extra_hash_keys r a b i).
Proof.
  unfold _gen_mm_extra_hash_keys. destruct (last (mm_features r)); [|done]. case_match; [done|].
  unfold py_assert. destruct (Z.ltb_spec i 0) as [Hi|Hi]; cbn [mbind result_bind].
  - destruct (Z.leb_spec (- i) (zlen (mm_features r))); cbn [mbind result_bind]; [|done].
    apply mm_keys_loop_ends; [lia|]. unfold zlen in *. lia.
  - apply mm_keys_loop_ends; [lia|]. unfold zlen. lia.
Qed.
#[export] Hint Resolve cache_loop_ends mm_keys_ends : ends.

Lemma extra_keys_ends sha r a b i : ends (generate_block_hash_extra_keys sha r a b i).
Proof. unfold generate_block_hash_extra_keys. ends. Qed.
#[export] Hint Resolve extra_keys_ends : ends.

Lemma stored_keys_ends sha p bs mask n bsz idxs cur acc r :
  ends (stored_keys_loop sha p bs mask n bsz idxs cur acc r).
Proof. revert cur acc r. induction idxs as [|i idxs IH]; intros; simpl; ends. Qed.
#[export] Hint Resolve stored_keys_ends : ends.

Lemma cache_full_blocks_ends sha p r bs a b bsz gid mask : ends (cache_full_blocks sha p r bs a b bsz gid mask).
Proof. unfold cache_full_blocks. ends. Qed.
#[export] Hint Resolve cache_full_blocks_ends : ends.

(** ** Managers *)

Lemma blocks_needed_ends m p id n bs t u cap : ends (get_num_blocks_to_allocate m p id n bs t u cap).
Proof.
  unfold get_num_blocks_to_allocate, mamba_get_num_blocks_to_allocate, base_get_num_blocks_to_allocate. ends.
Qed.

Lemma add_local_ends m p id bs a b : ends (add_local_computed_blocks m p id bs a b).
Proof. unfold add_local_computed_blocks, base_add_local_computed_blocks. ends. Qed.

Lemma extend_ends m p id n : ends (extend_blocks m p id n).
Proof. unfold extend_blocks. ends. Qed.
#[export] Hint Resolve blocks_needed_ends add_local_ends extend_ends : ends.

Lemma external_ends m p id a b : ends (allocate_external_computed_blocks m p id a b).
Proof. unfold allocate_external_computed_blocks. ends. Qed.

Lemma reuse_loop_ends null n idxs req : ends (reuse_loop null n idxs req).
Proof. revert req. induction idxs as [|i idxs IH]; intros; simpl; ends. Qed.
#[export] Hint Resolve external_ends reuse_loop_ends : ends.

Lemma allocate_new_ends m p id a b : ends (allocate_new_blocks m p id a b).
Proof. unfold allocate_new_blocks, mamba_allocate_new_blocks, base_allocate_new_blocks. ends. Qed.

Lemma mask_ends m a b ri np : ends (reachable_block_mask m a b ri np).
Proof. unfold reachable_block_mask, sw_reachable_block_mask. ends. Qed.
#[export] Hint Resolve allocate_new_ends mask_ends : ends.

Lemma base_cache_ends sha m p r n ri : ends (base_cache_blocks sha m p r n ri).
Proof. unfold base_cache_blocks. ends. Qed.
#[export] Hint Resolve base_cache_ends : ends.

Lemma cache_blocks_ends sha m p r n ri : ends (cache_blocks sha m p r n ri).
Proof. unfold cache_blocks, mamba_note. ends. Qed.

Lemma free_ends m p id : ends (free m p id).
Proof. unfold free. ends. Qed.

Lemma remove_skipped_ends m p id n : ends (remove_skipped_blocks m p id n).
Proof. unfold remove_skipped_blocks, base_remove_skipped_blocks. ends. Qed.
#[export] Hint Resolve cache_blocks_ends free_ends remove_skipped_ends : ends.

(** ** Prefix lookup *)

(** Popping makes the first list shorter, and at length zero it is aligned. *)
Lemma align_pop_ends fuel bs al cs :
  (match cs with [] => 0 | c :: _ => length c end < fuel)%nat → ends (align_pop fuel bs al cs).
Proof.
  revert cs. induction fuel as [|fuel IH]; intros cs Hf; cbn [align_pop]; [lia|].
  destruct (bs =? al); [done|]. destruct cs as [|c cs]; cbn [first_len mbind result_bind]; [done|].
  destruct (Z.eqb_spec ((zlen c * bs) mod al) 0) as [E|E]; [done|]. apply IH. simpl. rewrite length_take.
  destruct c as [|x c]; [|simpl in *; lia]. destruct E. unfold zlen. simpl. by rewrite Zmod_0_l.
Qed.

Lemma align_hit_ends bs al cs : ends (align_hit bs al cs).
Proof. unfold align_hit. apply align_pop_ends. destruct cs; lia. Qed.

Lemma first_len_ends cs : ends (first_len cs).
Proof. unfold first_len. ends. Qed.

Lemma drop_last_ends b cs : ends (drop_last b cs).
Proof. pose proof first_len_ends. unfold drop_last. ends. Qed.

Lemma full_loop_ends p gids hs cs : ends (full_hit_loop p gids hs cs).
Proof. revert cs. induction hs as [|h hs IH]; intros; simpl; ends. Qed.

Lemma sw_loop_ends p hs gids bs al need d i cs run : ends (sw_hit_loop p hs gids bs al need d i cs run).
Proof. revert cs run. induction i as [|i IH]; intros; cbn [sw_hit_loop]; ends. Qed.

Lemma chunked_loop_ends p hs gids idxs cs : ends (chunked_hit_loop p hs gids idxs cs).
Proof. revert cs. induction idxs as [|i idxs IH]; intros; simpl; ends. Qed.

Lemma mamba_loop_ends p hs gids bs al i cs : ends (mamba_hit_loop p hs gids bs al i cs).
Proof. revert cs. induction i as [|i IH]; intros; cbn [mamba_hit_loop]; ends. Qed.
#[export] Hint Resolve align_hit_ends first_len_ends drop_last_ends full_loop_ends sw_loop_ends chunked_loop_ends mamba_loop_ends : ends.

Lemma find_hit_ends cls p hs n gids spec d al dcp pcp : ends (find_longest_cache_hit cls p hs n gids spec d al dcp pcp).
Proof.
  unfold find_longest_cache_hit, full_find_longest_cache_hit, sw_find_longest_cache_hit,
    chunked_find_longest_cache_hit, mamba_find_longest_cache_hit. ends.
Qed.
#[export] Hint Resolve find_hit_ends : ends.

(** The block sizes of the groups of a hybrid coordinator. *)
Definition positive_sizes (gs : list SpecGroup) : Prop := Forall (λ g, 0 < block_size (sg_spec g)) gs.

(** No group has a hit yet. *)
Definition no_hits (s : hit_state) : Prop := Forall (λ o, o = None) (hit_blocks_by_group s).

Lemma group_step_ends c hs n s ig : ends (hybrid_group_step c hs n s ig).
Proof. unfold hybrid_group_step, _get_block_hashes. ends. Qed.
#[export] Hint Resolve group_step_ends : ends.

Lemma group_step_nonneg c hs n s i g s' :
  0 < block_size (sg_spec g) → 0 ≤ curr_hit_length s ∨ no_hits s →
  hybrid_group_step c hs n s (i, g) = Ok s' → 0 ≤ curr_hit_length s'.
Proof.
  intros Hbs Hs H. unfold hybrid_group_step in H. bind_inv H as g0 E1. bind_inv H as cb E2.
  case_inv H as E3.
  - simplify_eq. simpl. destruct Hs as [Hs|Hs]; [pose proof (Z.div_pos (curr_hit_length s) _ Hs Hbs); nia|].
    apply andb_prop in E3 as [_ E3]. apply bool_decide_eq_true in E3 as [b ->]. unfold py_index in E2.
    destruct (hit_blocks_by_group s !! _) eqn:E; [|done]. simplify_eq.
    by pose proof (Forall_lookup_1 _ _ _ _ Hs E).
  - bind_inv H as bh E4. bind_inv H as hb E5. bind_inv H as k E6. simplify_eq. simpl.
    unfold first_len in E6. destruct hb; simplify_eq. pose proof (zlen_nonneg l). nia.
Qed.

Lemma groups_nonneg c hs n gs s s' :
  positive_sizes gs.*2 → 0 ≤ curr_hit_length s ∨ no_hits s →
  mfold (hybrid_group_step c hs n) s gs = Ok s' → gs = [] ∧ s' = s ∨ 0 ≤ curr_hit_length s'.
Proof.
  revert s. induction gs as [|[i g] gs IH]; intros s Hg Hs H; simpl in H; [left; by simplify_eq|].
  apply Forall_cons in Hg as [Hg Hgs]. bind_inv H as s1 E. right.
  pose proof (group_step_nonneg _ _ _ _ _ _ _ Hg Hs E) as H1.
  destruct (IH s1 Hgs (or_introl H1) H) as [[_ ->]|?]; done.
Qed.

Lemma hybrid_loop_ends fuel c hs n simple hit s :
  positive_sizes (attention_groups c) → 0 ≤ hit ∨ no_hits s → (Z.to_nat hit < fuel)%nat →
  ends (hybrid_loop fuel c hs n simple hit s).
Proof.
  intros Hc. revert hit s. induction fuel as [|fuel IH]; intros hit s Hs Hf; cbn [hybrid_loop]; [lia|].
  destruct (mfold _ _ _) as [s1|e] eqn:E; cbn [mbind result_bind].
  2:{ intros [= ->]. revert E. apply ends_mfold. intros. apply group_step_ends. }
  destruct (Z.leb_spec hit (curr_hit_length s1)) as [Hle|Hlt]; [done|]. destruct simple; [done|].
  apply groups_nonneg in E as [[_ ->]|H1]; [simpl in Hlt; lia| | |].
  - apply IH; [by left|lia].
  - unfold positive_sizes in *. apply Forall_forall. intros g (ig & -> & Hin)%list_elem_of_fmap.
    apply list_elem_of_lookup in Hin as [j Hj]. rewrite list_lookup_imap in Hj.
    apply fmap_Some in Hj as (g & Hg & ->). by pose proof (Forall_lookup_1 _ _ _ _ Hc Hg).
  - destruct Hs as [Hs|Hs]; [by left|by right].
Qed.

(** ** The coordinator and the manager *)

Lemma lookup_ends c hs n : positive_sizes (attention_groups c) → ends (coord_find_longest_cache_hit c hs n).
Proof.
  intros Hc. unfold coord_find_longest_cache_hit, unitary_find_longest_cache_hit, hybrid_find_longest_cache_hit.
  destruct (coord_class c); [ends..|].
  apply ends_bind; [|intros [? ?]; done]. apply hybrid_loop_ends; [done| |lia].
  right. unfold no_hits. simpl. apply Forall_forall. intros o Ho. by apply elem_of_replicate in Ho as [-> _].
Qed.

Lemma get_computed_blocks_ends k r :
  positive_sizes (attention_groups (coordinator k)) → ends (get_computed_blocks k r).
Proof. intros Hk. pose proof (lookup_ends _ (block_hashes r) (num_tokens r - 1) Hk). unfold get_computed_blocks. ends. Qed.

Lemma each_manager_ends {A} (f : nat → SingleTypeKVCacheManager → BlockPool → result (A * _ * _)) i ms p :
  (∀ i m p, ends (f i m p)) → ends (each_manager f i ms p).
Proof. intros Hf. revert i p. induction ms as [|m ms IH]; intros; simpl; ends. Qed.

Lemma run_managers_ends {A} (f : nat → SingleTypeKVCacheManager → BlockPool → result (A * _ * _)) c :
  (∀ i m p, ends (f i m p)) → ends (run_managers f c).
Proof. intros Hf. unfold run_managers. apply ends_bind; [by apply each_manager_ends|]. ends. Qed.

Lemma coord_needed_ends c id n bs e t m cap : ends (coord_get_num_blocks_to_allocate c id n bs e t m cap).
Proof. unfold coord_get_num_blocks_to_allocate. apply ends_bind; [apply run_managers_ends|]; ends. Qed.

Lemma coord_hits_ends c id bs a b : ends (coord_allocate_new_computed_blocks c id bs a b).
Proof.
  unfold coord_allocate_new_computed_blocks. case_match; [ends|].
  apply ends_bind; [apply run_managers_ends; ends|]. intros [? ?]. case_match; [|done].
  apply ends_bind; [apply run_managers_ends; unfold quiet; ends|]. ends.
Qed.

Lemma coord_new_ends c id a b d : ends (coord_allocate_new_blocks c id a b d).
Proof. unfold coord_allocate_new_blocks. apply run_managers_ends. ends. Qed.

Lemma coord_skipped_ends c id n : ends (coord_remove_skipped_blocks c id n).
Proof.
  unfold coord_remove_skipped_blocks. apply ends_bind; [apply run_managers_ends; unfold quiet|]; ends.
Qed.

Lemma coord_cache_ends sha c r n : ends (coord_cache_blocks sha c r n).
Proof.
  unfold coord_cache_blocks. apply ends_bind; [|ends].
  generalize (tokens_to_cache c n), (block_pool c), (single_type_managers c). intros t p ms.
  revert p r. induction ms as [|m ms IH]; intros; simpl; ends.
Qed.

Lemma coord_free_ends c id : ends (coord_free c id).
Proof. unfold coord_free. apply ends_bind; [apply run_managers_ends; unfold quiet|]; ends. Qed.

Lemma coord_pop_ends c id : ends (coord_pop_blocks_for_free c id).
Proof. unfold coord_pop_blocks_for_free. apply ends_bind; [apply run_managers_ends|]; ends. Qed.
#[export] Hint Resolve coord_needed_ends coord_hits_ends coord_new_ends coord_skipped_ends coord_cache_ends coord_free_ends coord_pop_ends : ends.

Lemma allocate_slots_ends sha k r n a : ends (allocate_slots sha k r n a).
Proof. unfold allocate_slots, full_sequence_fits, grant_slots. ends. Qed.
#[export] Hint Resolve allocate_slots_ends : ends.

Lemma free_request_blocks_ends s r : ends (_free_request_blocks s r).
Proof. unfold _free_request_blocks, km_free, km_pop_blocks_for_free. ends. Qed.

(** ** The encoder caches *)

Lemma mm_hash_ends r i : ends (mm_hash_of r i).
Proof. unfold mm_hash_of. ends. Qed.

Lemma num_embeds_ends r i : ends (get_num_encoder_embeds r i).
Proof. unfold get_num_encoder_embeds. ends. Qed.
#[export] Hint Resolve free_request_blocks_ends mm_hash_ends num_embeds_ends : ends.

Lemma evict_loop_ends l n e : ends (evict_loop l n e).
Proof. revert e. induction l as [|[h k] l IH]; intros; simpl; ends. Qed.
#[export] Hint Resolve evict_loop_ends : ends.

Lemma em_check_ends e r i : ends (em_check_and_update_cache e r i).
Proof. unfold em_check_and_update_cache, check_and_update_cache. ends. Qed.

Lemma em_can_ends e r i b n : ends (em_can_allocate e r i b n).
Proof. unfold em_can_allocate, can_allocate, ed_can_allocate. ends. Qed.

Lemma em_allocate_ends e r i : ends (em_allocate e r i).
Proof. unfold em_allocate, enc_allocate, ed_allocate. ends. Qed.

Lemma em_free_ends set_iter e r : ends (em_free set_iter e r).
Proof. unfold em_free, enc_free, ed_free, free_encoder_input, ed_free_encoder_input. ends. Qed.
#[export] Hint Resolve em_check_ends em_can_ends em_allocate_ends em_free_ends : ends.

Lemma encoder_loop_ends cfg r c shift idxs st : ends (encoder_loop cfg r c shift idxs st).
Proof.
  assert (∀ p a b, ends (get_embeds_indices_in_range p a b)) as Hr by (intros; unfold get_embeds_indices_in_range; ends).
  revert st. induction idxs as [|i idxs IH]; intros; cbn [encoder_loop]; ends.
Qed.

Lemma encoder_inputs_ends cfg e r c n b shift : ends (_try_schedule_encoder_inputs cfg e r c n b shift).
Proof. pose proof encoder_loop_ends. unfold _try_schedule_encoder_inputs. ends. Qed.
#[export] Hint Resolve encoder_inputs_ends : ends.

Lemma allocate_inputs_ends s st r l b : ends (allocate_encoder_inputs s st r l b).
Proof. unfold allocate_encoder_inputs. ends. Qed.

Lemma get_request_ends s id : ends (get_request s id).
Proof. unfold get_request. ends. Qed.
#[export] Hint Resolve allocate_inputs_ends get_request_ends : ends.
