(* ===== verification/SchedFrame.v ===== *)
(** * What the calls of the scheduler leave alone

    Frame lemmas: a call that asks the KV-cache manager or the encoder cache for
    something changes nothing of a request but the memo of its embedding hashes,
    and nothing of the scheduler but these two components. *)

From S2P Require Import Prelude OrderedDict KVBlock Request BlockHasher BlockPool KVSpecs SingleType Coordinator KVManager EncoderCache RequestQueue SchedUtils SchedState Schedule Termination.

#[local] Open Scope Z_scope.

(** ** Requests *)

Definition memo_of (r r' : Request) : Prop := ∃ m, r' = set_prompt_embeds_hashes m r.

#[export] Instance memo_of_preorder : PreOrder memo_of.
Proof.
  split.
  - intros r. exists (prompt_embeds_hashes r). by destruct r.
  - intros r1 r2 r3 [m1 ->] [m2 ->]. by exists m2.
Qed.

Lemma generate_keys_memo sha r a b i keys j r' :
  generate_block_hash_extra_keys sha r a b i = Ok (keys, j, r') → memo_of r r'.
Proof.
  unfold generate_block_hash_extra_keys. intros H. bind_inv H as [mm idx] E.
  assert (memo_of r (_gen_prompt_embeds_extra_hash_keys sha r a b).2) as Hm.
  { unfold _gen_prompt_embeds_extra_hash_keys. destruct (prompt_embeds r); [|done].
    destruct (prompt_embeds_hashes r !! _); [done|]. simpl. by eexists. }
  destruct (_gen_prompt_embeds_extra_hash_keys sha r a b) as [ks r2].
  by destruct (_gen_lora_extra_hash_keys r ++ _ ++ _ ++ ks); simplify_eq.
Qed.

Lemma stored_keys_memo sha p bs mask nc bsz idxs cur acc r keys r' :
  stored_keys_loop sha p bs mask nc bsz idxs cur acc r = Ok (keys, r') → memo_of r r'.
Proof.
  revert cur acc r. induction idxs as [|i idxs IH]; intros cur acc r H; simpl in H; [by simplify_eq|].
  bind_inv H as b E1. bind_inv H as [] E2; [by eapply IH|].
  bind_inv H as [[ks cur2] r2] E3. etrans; [by eapply generate_keys_memo|by eapply IH].
Qed.

Lemma cache_full_blocks_memo sha p r bs a b bsz gid mask p' r' :
  cache_full_blocks sha p r bs a b bsz gid mask = Ok (p', r') → memo_of r r'.
Proof.
  unfold cache_full_blocks. destruct (b <=? a); [by intros; simplify_eq|]. intros H.
  bind_inv H as u1 E1. bind_inv H as u2 E2. bind_inv H as hs E3. bind_inv H as [p2 nh] E4.
  destruct (negb _); [by simplify_eq|]. bind_inv H as par E5. bind_inv H as [ks r2] E6.
  simplify_eq. by eapply stored_keys_memo.
Qed.

Lemma base_cache_blocks_memo sha m p r n ret m' p' r' :
  base_cache_blocks sha m p r n ret = Ok (m', p', r') → memo_of r r'.
Proof.
  unfold base_cache_blocks. destruct (_ <=? _); [by intros; simplify_eq|]. intros H.
  bind_inv H as mask E1. bind_inv H as [p2 r2] E2. simplify_eq. by eapply cache_full_blocks_memo.
Qed.

Lemma cache_blocks_memo sha m p r n ret m' p' r' :
  cache_blocks sha m p r n ret = Ok (m', p', r') → memo_of r r'.
Proof.
  unfold cache_blocks. destruct (mgr_class m); try apply base_cache_blocks_memo; [|done].
  intros H. bind_inv H as [[m2 p2] r2] E1. apply base_cache_blocks_memo in E1.
  destruct (_ <? _); [|by simplify_eq]. bind_inv H as s E2. by simplify_eq.
Qed.

Lemma coord_cache_blocks_memo sha c r n c' r' :
  coord_cache_blocks sha c r n = Ok (c', r') → memo_of r r'.
Proof.
  unfold coord_cache_blocks. intros H. bind_inv H as [[ms p] r2] E. simplify_eq.
  revert E. generalize (tokens_to_cache c n), (block_pool c), (single_type_managers c). intros tok p0 ms0.
  revert p0 r ms p. induction ms0 as [|m ms0 IH]; intros p0 r ms p E; simpl in E; [by simplify_eq|].
  bind_inv E as [[m2 p2] r2] E1. bind_inv E as [[ms2 p3] r3] E2. simplify_eq.
  etrans; [by eapply cache_blocks_memo|by eapply IH].
Qed.

Lemma allocate_slots_memo sha k r n a bs k' r' :
  allocate_slots sha k r n a = Ok (bs, k', r') → memo_of r r'.
Proof.
  unfold allocate_slots. destruct (_ && _); [done|]. intros H. bind_inv H as [fits k1] E1.
  destruct (negb fits); [by simplify_eq|]. bind_inv H as c1 E2. bind_inv H as [n1 c2] E3.
  destruct (_ <? _); [by simplify_eq|]. bind_inv H as [[b1 k2] r2] E4. simplify_eq.
  unfold grant_slots in E4. bind_inv E4 as c3 E5. bind_inv E4 as [nb c4] E6.
  match type of E4 with (if ?b then _ else _) = _ => destruct b end; [by simplify_eq|].
  bind_inv E4 as [c5 r3] E7. simplify_eq. by eapply coord_cache_blocks_memo.
Qed.

Lemma remove_first_perm {A} `{EqDecision A} (x : A) l : x ∈ l → l ≡ₚ x :: remove_first x l.
Proof.
  induction l as [|y l IH]; intros Hx; [by apply elem_of_nil in Hx|]. simpl.
  destruct (decide (x = y)) as [->|Hne]; [done|].
  apply elem_of_cons in Hx as [?|Hx]; [done|]. rewrite (IH Hx) at 1. apply perm_swap.
Qed.

(** ** The groups of the coordinator *)

Lemma run_managers_groups {A} (f : nat → SingleTypeKVCacheManager → BlockPool → result (A * _ * _)) c xs c' :
  run_managers f c = Ok (xs, c') → attention_groups c' = attention_groups c.
Proof. unfold run_managers. intros H. bind_inv H as [[ys ms] p] E. by simplify_eq. Qed.

Lemma coord_hits_groups c id bs a b c' :
  coord_allocate_new_computed_blocks c id bs a b = Ok c' → attention_groups c' = attention_groups c.
Proof.
  unfold coord_allocate_new_computed_blocks. intros H. case_inv H as E0; [bind_inv H as u E1; by simplify_eq|].
  bind_inv H as [xs c1] E1. apply run_managers_groups in E1. case_inv H as E2; [|by simplify_eq].
  bind_inv H as [ys c2] E3. apply run_managers_groups in E3. by simplify_eq; congruence.
Qed.

Lemma allocate_slots_groups sha k r n a bs k' r' :
  allocate_slots sha k r n a = Ok (bs, k', r') →
  attention_groups (coordinator k') = attention_groups (coordinator k).
Proof.
  unfold allocate_slots. destruct (_ && _); [done|]. intros H. bind_inv H as [fits k1] E1.
  assert (attention_groups (coordinator k1) = attention_groups (coordinator k)) as G1.
  { unfold full_sequence_fits, coord_get_num_blocks_to_allocate in E1. case_inv E1 as E0; [|by simplify_eq].
    bind_inv E1 as [x c1] E2. bind_inv E2 as [xs c2] E3. apply run_managers_groups in E3. by simplify_eq. }
  destruct (negb fits); [by simplify_eq|]. bind_inv H as c1 E2. bind_inv H as [n1 c2] E3.
  unfold coord_remove_skipped_blocks in E2. bind_inv E2 as [xs c0] E4. apply run_managers_groups in E4. simplify_eq.
  unfold coord_get_num_blocks_to_allocate in E3. bind_inv E3 as [ys c0] E5. apply run_managers_groups in E5. simplify_eq.
  case_inv H as E6; [simplify_eq; simpl; congruence|]. bind_inv H as [[b1 k2] r2] E7. simplify_eq.
  unfold grant_slots in E7. bind_inv E7 as c3 E8. bind_inv E7 as [nb c4] E9. apply run_managers_groups in E9.
  assert (attention_groups c3 = attention_groups c2) as G3.
  { case_inv E8 as E10; [by apply coord_hits_groups in E8|by simplify_eq]. }
  case_inv E7 as E10; [simplify_eq; simpl; congruence|]. bind_inv E7 as [c5 r3] E11. simplify_eq. simpl.
  unfold coord_cache_blocks in E11. bind_inv E11 as [[ms p] r4] E12. simplify_eq. simpl. congruence.
Qed.

Lemma km_free_groups k r k' : km_free k r = Ok k' → attention_groups (coordinator k') = attention_groups (coordinator k).
Proof.
  unfold km_free, coord_free. intros H. bind_inv H as c E1. bind_inv E1 as [xs c1] E2.
  apply run_managers_groups in E2. by simplify_eq.
Qed.

Lemma km_pop_groups k r bs k' :
  km_pop_blocks_for_free k r = Ok (bs, k') → attention_groups (coordinator k') = attention_groups (coordinator k).
Proof.
  unfold km_pop_blocks_for_free, coord_pop_blocks_for_free. intros H. bind_inv H as [b c] E1.
  bind_inv E1 as [xs c1] E2. apply run_managers_groups in E2. by simplify_eq.
Qed.

Lemma get_computed_blocks_groups k r bs n k' :
  get_computed_blocks k r = Ok (bs, n, k') → attention_groups (coordinator k') = attention_groups (coordinator k).
Proof.
  unfold get_computed_blocks. intros H. case_inv H as E0; [by simplify_eq|]. bind_inv H as [[b m] c] E1.
  bind_inv H as k1 E2. simplify_eq.
  assert (attention_groups (coordinator k') = attention_groups c) as ->.
  { case_inv E2 as E3; [|by simplify_eq]. by destruct (prefix_cache_stats _); simplify_eq. }
  unfold coord_find_longest_cache_hit in E1. destruct (coord_class (coordinator k)).
  - by simplify_eq.
  - bind_inv E1 as [b1 m1] E4. by simplify_eq.
  - unfold hybrid_find_longest_cache_hit in E1. bind_inv E1 as [h s] E4. by simplify_eq.
Qed.

(** ** The scheduler *)

(** The groups the prefix lookup goes through; they never change. *)
Definition kv_groups (s : Scheduler) : list SpecGroup := attention_groups (coordinator (kv_cache_manager s)).

(** The two states agree on the request table, the queues and the running list. *)
Record same_table (s s' : Scheduler) : Prop := {
  st_config : config s' = config s;
  st_requests : requests s' = requests s;
  st_waiting : waiting s' = waiting s;
  st_skipped : skipped_waiting s' = skipped_waiting s;
  st_running : running s' = running s;
  st_pause : pause_state s' = pause_state s;
  st_groups : kv_groups s' = kv_groups s;
}.

#[export] Instance same_table_preorder : PreOrder same_table.
Proof.
  split; [by intros s; split|]. intros s1 s2 s3 [] []. split; congruence.
Qed.

Lemma free_request_blocks_frame s r s' : _free_request_blocks s r = Ok s' → same_table s s'.
Proof.
  unfold _free_request_blocks. intros H. case_inv H as E.
  - bind_inv H as k E1. apply km_free_groups in E1. by simplify_eq.
  - bind_inv H as [bs k] E1. apply km_pop_groups in E1. destruct bs; by simplify_eq.
Qed.

(** ** Well-formed schedulers *)

(** What the order of a queue reads. *)
Definition same_key (x r : Request) : Prop :=
  request_id r = request_id x ∧ obj_addr r = obj_addr x ∧ priority r = priority x ∧
  arrival_time r = arrival_time x.

#[export] Instance same_key_equiv : Equivalence same_key.
Proof. split; unfold same_key; intros ?; naive_solver congruence. Qed.

Lemma memo_key r r' : memo_of r r' → same_key r r' ∧ status r' = status r.
Proof. by intros [m ->]. Qed.

(** A request that is neither running nor finished. *)
Definition waits (st : RequestStatus) : Prop := st ≠ RUNNING ∧ status_is_finished st = false.

(** [lw] and [ls] are the waiting and the skipped requests in the order they are
    served, [lk] the requests set aside during a step.  Every request is in one
    place, and its status says in which. *)
Record sched_wf (s : Scheduler) (lw ls lk : list Request) : Prop := {
  wf_waiting : any_repr (policy (config s)) (waiting s) lw;
  wf_skipped : any_repr (policy (config s)) (skipped_waiting s) ls;
  wf_ids : NoDup (running s ++ (request_id <$> lw ++ ls ++ lk));
  wf_queued : ∀ x, x ∈ lw ++ ls ++ lk →
    ∃ r, od_get (requests s) (request_id x) = Some r ∧ same_key x r ∧ waits (status r);
  wf_running : ∀ id, id ∈ running s → ∃ r, od_get (requests s) id = Some r ∧ status r = RUNNING;
  wf_store : ∀ id r, od_get (requests s) id = Some r → request_id r = id;
  wf_addr : ∀ id1 id2 r1 r2, od_get (requests s) id1 = Some r1 → od_get (requests s) id2 = Some r2 →
    obj_addr r1 = obj_addr r2 → id1 = id2;
}.

Lemma wf_same s s' lw ls lk : same_table s s' → sched_wf s lw ls lk → sched_wf s' lw ls lk.
Proof. intros [Ec Er Ew Es Eru _ _] []. split; rewrite ?Ec, ?Er, ?Ew, ?Es, ?Eru; done. Qed.

Lemma get_request_Ok s id r : get_request s id = Ok r ↔ od_get (requests s) id = Some r.
Proof. unfold get_request. destruct (od_get _ _); naive_solver. Qed.

(** The queued objects are distinct. *)
Lemma wf_objects s lw ls lk : sched_wf s lw ls lk → objects (lw ++ ls ++ lk).
Proof.
  intros Hwf. pose proof (wf_ids _ _ _ _ Hwf) as Hnd. apply NoDup_app in Hnd as (_ & _ & Hnd).
  unfold objects. apply NoDup_fmap_2_strong; [|by eapply NoDup_fmap_1].
  intros x y Hx Hy E. destruct (wf_queued _ _ _ _ Hwf x Hx) as (rx & Hrx & (_ & Ex & _) & _).
  destruct (wf_queued _ _ _ _ Hwf y Hy) as (ry & Hry & (_ & Ey & _) & _).
  assert (request_id x = request_id y) as Eid by (eapply (wf_addr _ _ _ _ Hwf); [done..|congruence]).
  apply list_elem_of_lookup in Hx as [i Hi], Hy as [j Hj].
  assert (i = j) as ->; [|congruence].
  eapply NoDup_lookup; [exact Hnd| |]; rewrite list_lookup_fmap; [by rewrite Hi|rewrite Hj; simpl; by rewrite Eid].
Qed.

(** A known request whose id is in no queue has an address that is in no queue. *)
Lemma wf_fresh s lw ls lk r l :
  sched_wf s lw ls lk → od_get (requests s) (request_id r) = Some r →
  request_id r ∉ (request_id <$> lw ++ ls ++ lk) → l ⊆ lw ++ ls ++ lk → fresh_for l r.
Proof.
  intros Hwf Hr Hid Hl (x & E & Hx)%list_elem_of_fmap. apply Hid. apply Hl in Hx.
  destruct (wf_queued _ _ _ _ Hwf x Hx) as (rx & Hrx & (_ & Ex & _) & _).
  rewrite (wf_addr _ _ _ _ Hwf _ _ _ _ Hr Hrx) by congruence. by apply list_elem_of_fmap_2.
Qed.

(** Assigning to the attributes of an object. *)
Lemma wf_put s lw ls lk r0 r :
  sched_wf s lw ls lk → od_get (requests s) (request_id r) = Some r0 → same_key r0 r →
  (request_id r ∈ running s → status r = RUNNING) →
  (request_id r ∈ (request_id <$> lw ++ ls ++ lk) → waits (status r)) →
  sched_wf (put_request r s) lw ls lk.
Proof.
  intros Hwf Hr0 Hk Hrun Hque. destruct Hwf as [Hw Hs Hnd Hq Hr Hst Ha]. split; simpl; try done.
  - intros x Hx. rewrite od_get_set. destruct (Hq x Hx) as (rx & Hrx & Hkx & Hwx). case_decide as E; [|eauto].
    exists r. split; [done|]. rewrite E, Hr0 in Hrx. simplify_eq. split; [by etrans|].
    apply Hque. rewrite <-E. by apply list_elem_of_fmap_2.
  - intros id Hid. rewrite od_get_set. case_decide as E; [|by apply Hr]. subst. eauto.
  - intros id r1. rewrite od_get_set. case_decide as E; [|by apply Hst]. intros [= <-]. done.
  - intros id1 id2 r1 r2. rewrite !od_get_set. repeat case_decide; intros; simplify_eq; try done.
    + symmetry. eapply Ha; [done..|]. destruct Hk as (_ & <- & _). done.
    + eapply Ha; [done..|]. destruct Hk as (_ & <- & _). done.
    + by eapply Ha.
Qed.

Lemma policy_prepend_perm p l r : policy_prepend p l r ≡ₚ r :: l.
Proof. destruct p; simpl; [done|apply insert_sorted_perm]. Qed.

Lemma prepend_all_perm p l rs : foldl (policy_prepend p) l rs ≡ₚ rs ++ l.
Proof.
  revert l. induction rs as [|r rs IH]; intros l; simpl; [done|].
  by rewrite IH, policy_prepend_perm, Permutation_middle.
Qed.

(** The places of the requests may be permuted. *)
Lemma wf_requeue s s' lw ls lk lw' ls' lk' :
  sched_wf s lw ls lk → config s' = config s → requests s' = requests s → running s' = running s →
  any_repr (policy (config s)) (waiting s') lw' → any_repr (policy (config s)) (skipped_waiting s') ls' →
  lw' ++ ls' ++ lk' ≡ₚ lw ++ ls ++ lk → sched_wf s' lw' ls' lk'.
Proof.
  intros [Hw Hs Hnd Hq Hr Hst Ha] Ec Er Eru Hw' Hs' Hp. split; rewrite ?Ec, ?Er, ?Eru; try done.
  - by rewrite Hp.
  - intros x. by rewrite Hp; apply Hq.
Qed.

Lemma preempt_wf set_iter s lw ls lk r s' :
  sched_wf s lw ls lk → od_get (requests s) (request_id r) = Some r →
  request_id r ∉ running s ++ (request_id <$> lw ++ ls ++ lk) →
  _preempt_request set_iter s r = Ok s' →
  ∃ lw', sched_wf s' lw' ls lk ∧ (request_id <$> lw') ≡ₚ request_id r :: (request_id <$> lw) ∧
    running s' = running s ∧ config s' = config s ∧ pause_state s' = pause_state s ∧ kv_groups s' = kv_groups s.
Proof.
  intros Hwf Hr Hid H. unfold _preempt_request in H. bind_inv H as u E0. bind_inv H as s1 E1.
  bind_inv H as e E2. bind_inv H as q E3. simplify_eq. apply free_request_blocks_frame in E1 as Hf.
  pose proof (wf_same _ _ _ _ _ Hf Hwf) as Hwf1. destruct Hf as [Ec Er Ew Es Eru Ep Eg].
  apply not_elem_of_app in Hid as [Hid1 Hid2].
  set (r' := set_num_preemptions _ _) in *. assert (same_key r r') as Hkey by done.
  set (s2 := put_request r' _) in *.
  assert (sched_wf s2 lw ls lk) as Hwf2.
  { apply (wf_put (set_inflight _ (set_encoder e s1)) _ _ _ r).
    - by apply (wf_same s1).
    - simpl. by rewrite Er.
    - done.
    - intros Hin. destruct Hid1. by rewrite <-Eru.
    - done. }
  assert (od_get (requests s2) (request_id r') = Some r') as Hr2.
  { simpl. rewrite od_get_set. by rewrite decide_True. }
  assert (fresh_for lw r') as Hfresh by (eapply (wf_fresh s2); [done|done|done|set_solver]).
  pose proof (wf_waiting _ _ _ _ Hwf2) as Hw2.
  destruct (qr_prepend _ _ _ Hw2 Hfresh) as (q' & Hq' & Hrep).
  assert (q' = q) as -> by congruence.
  exists (policy_prepend (policy (config s2)) lw r').
  assert (request_id <$> policy_prepend (policy (config s2)) lw r' ≡ₚ request_id r :: (request_id <$> lw)) as Hperm
    by (by rewrite policy_prepend_perm).
  split_and!; [|done|done|done|done|done].
  destruct Hwf2 as [Hw Hs Hnd Hq Hrun Hst Ha]. split; try done.
  - rewrite policy_prepend_perm, <-app_comm_cons, fmap_cons, <-Permutation_middle.
    apply NoDup_cons. split; [|done]. apply not_elem_of_app. split; [|done].
    intros Hin. destruct Hid1. rewrite <-Eru. exact Hin.
  - intros x. rewrite policy_prepend_perm, <-app_comm_cons, elem_of_cons. intros [->|Hx]; [|by apply Hq].
    exists r'. by split_and!.
Qed.

(** The object after its preemption. *)
Definition preempted (r : Request) : Request :=
  set_num_preemptions (num_preemptions r + 1)
    (set_spec_token_ids [] (set_num_computed_tokens 0 (set_status PREEMPTED r))).

Lemma preempt_table set_iter s r s' :
  _preempt_request set_iter s r = Ok s' → requests s' = od_set (requests s) (request_id r) (preempted r).
Proof.
  unfold _preempt_request. intros H. bind_inv H as u E0. bind_inv H as s1 E1.
  bind_inv H as e E2. bind_inv H as q E3. injection H as <-. simpl.
  by rewrite (st_requests _ _ (free_request_blocks_frame _ _ _ E1)).
Qed.

Lemma wf_take_running s lw ls lk id :
  sched_wf s lw ls lk → id ∈ running s →
  sched_wf (set_running (remove_first id (running s)) s) lw ls lk ∧
  id ∉ remove_first id (running s) ++ (request_id <$> lw ++ ls ++ lk).
Proof.
  intros [Hw Hs Hnd Hq Hr Hst Ha] Hid. pose proof (remove_first_perm _ _ Hid) as Hp.
  rewrite Hp, <-app_comm_cons in Hnd. apply NoDup_cons in Hnd as [Hni Hnd]. split; [|done].
  split; simpl; try done. intros x Hx. apply Hr. rewrite Hp. by right.
Qed.
