(* ===== verification/SchedFacts.v ===== *)
(** * The scheduler: invariants of a scheduling step

    The loops of [schedule] keep every request in one place, never hand out more
    tokens than the budget and terminate; so the assertions after the loops
    hold. *)

From stdpp Require Import sorting.
From S2P Require Import Prelude OrderedDict KVBlock Request BlockPool KVSpecs Coordinator KVManager EncoderCache RequestQueue SchedUtils SchedState Schedule EncoderStep Termination SchedFrame.

#[local] Open Scope Z_scope.

(** ** Dictionaries of token counts *)

Definition total_of (l : list (string * Z)) : Z := foldr Z.add 0 l.*2.

Lemma total_app l1 l2 : total_of (l1 ++ l2) = total_of l1 + total_of l2.
Proof. unfold total_of. rewrite fmap_app. induction l1.*2 as [|n l IH]; simpl; [done|]. lia. Qed.

Lemma total_del l k n : NoDup l.*1 → od_get l k = Some n → total_of l = n + total_of (od_del l k).
Proof.
  intros Hnd Hk. apply od_get_elem in Hk; [|done].
  apply list_elem_of_split in Hk as (l1 & l2 & ->).
  rewrite fmap_app, fmap_cons in Hnd. apply NoDup_mid in Hnd as [Hnk Hnd].
  unfold od_del. rewrite filter_app, filter_cons_False by (simpl; tauto).
  fold (od_del l1 k) (od_del l2 k). rewrite !od_del_absent by set_solver.
  rewrite !total_app. change (total_of ((k, n) :: l2)) with (n + total_of l2). lia.
Qed.

Lemma elem_of_take_mono {A} (x : A) n m l : (n ≤ m)%nat → x ∈ take n l → x ∈ take m l.
Proof.
  intros Hnm. rewrite !list_elem_of_lookup. intros [i Hi]. exists i.
  rewrite lookup_take_Some in Hi |- *. naive_solver lia.
Qed.

Lemma remove_first_take {A} `{EqDecision A} (x v : A) n l :
  x ≠ v → x ∈ take n l → x ∈ take n (remove_first v l).
Proof.
  intros Hne. revert n. induction l as [|y l IH]; intros n Hx; [by rewrite take_nil in Hx; apply elem_of_nil in Hx|].
  destruct n as [|n]; [by apply elem_of_nil in Hx|]. simpl in *.
  destruct (decide (v = y)) as [->|Hvy].
  - apply elem_of_cons in Hx as [?|Hx]; [done|]. eapply elem_of_take_mono; [|exact Hx]. lia.
  - simpl. apply elem_of_cons in Hx as [->|Hx]; [by left|]. right. by apply IH.
Qed.

Lemma remove_first_take_pred {A} `{EqDecision A} (x v : A) n l :
  x ≠ v → v ∈ take n l → x ∈ take n l → x ∈ take (n - 1) (remove_first v l).
Proof.
  intros Hne. revert n. induction l as [|y l IH]; intros n Hv Hx; [by rewrite take_nil in Hx; apply elem_of_nil in Hx|].
  destruct n as [|n]; [by apply elem_of_nil in Hx|]. simpl in *. rewrite Nat.sub_0_r.
  destruct (decide (v = y)) as [->|Hvy].
  - by apply elem_of_cons in Hx as [?|Hx].
  - apply elem_of_cons in Hv as [?|Hv]; [done|].
    destruct n as [|n]; [by apply elem_of_nil in Hv|]. simpl.
    apply elem_of_cons in Hx as [->|Hx]; [by left|]. right.
    replace n with (S n - 1)%nat by lia. by apply IH.
Qed.

(** ** What a step has handed out *)

(** [B] is the budget at the start. *)
Record step_ok (B : Z) (st : StepState) : Prop := {
  sk_nodup : NoDup (num_scheduled_tokens st).*1;
  sk_keys : (num_scheduled_tokens st).*1 ≡ₚ
    scheduled_running_reqs st ++ scheduled_new_reqs st ++ scheduled_resumed_reqs st;
  sk_budget : token_budget st + total_tokens st = B;
  sk_nonneg : 0 ≤ token_budget st;
  sk_pos : ∀ id n, (id, n) ∈ num_scheduled_tokens st → 0 < n;
}.

Lemma unschedule_ok B r st st' :
  step_ok B st → request_id r ∈ scheduled_running_reqs st → unschedule r st = Ok st' →
  step_ok B st' ∧ scheduled_running_reqs st' = remove_first (request_id r) (scheduled_running_reqs st) ∧
  scheduled_new_reqs st' = scheduled_new_reqs st ∧ scheduled_resumed_reqs st' = scheduled_resumed_reqs st ∧
  preempted_reqs st' = preempted_reqs st.
Proof.
  intros [Hnd Hk Hb H0 Hpos] Hr H. unfold unschedule in H.
  destruct (od_get (num_scheduled_tokens st) (request_id r)) as [n|] eqn:En; [|done].
  destruct (od_get (req_to_new_blocks st) (request_id r)); [|done].
  bind_inv H as restored E. injection H as <-. split; [|done]. split; simpl.
  - by apply od_del_nodup.
  - assert (Hk' := Hk). rewrite (remove_first_perm _ _ Hr), <-app_comm_cons in Hk'.
    rewrite od_del_keys, Hk'. rewrite Hk' in Hnd. apply NoDup_cons in Hnd as [Hni _].
    rewrite filter_cons_False by tauto. rewrite filter_all; [done|]. set_solver.
  - unfold total_tokens in *. simpl. fold (total_of (num_scheduled_tokens st)) in Hb.
    fold (total_of (od_del (num_scheduled_tokens st) (request_id r))).
    rewrite (total_del _ _ _ Hnd En) in Hb. lia.
  - apply od_get_elem in En; [|done]. apply Hpos in En. lia.
  - intros id m [_ Hin]%list_elem_of_filter. by eapply Hpos.
Qed.

(** ** Preempting a running request *)

Lemma max_request_elem s best ids r :
  max_request s best ids = Ok r → r = best ∨ ∃ id, id ∈ ids ∧ od_get (requests s) id = Some r.
Proof.
  revert best. induction ids as [|id ids IH]; intros best H; simpl in H; [left; congruence|].
  bind_inv H as r1 E. apply get_request_Ok in E. apply IH in H as [->|(i & Hi & Hr)].
  - destruct (_ || _); [right; exists id; split; [by left|done]|by left].
  - right. exists i. split; [by right|done].
Qed.

Lemma remove_first_last {A} `{EqDecision A} (x : A) l : NoDup l → last l = Some x →
  remove_first x l = take (length l - 1) l.
Proof.
  intros Hnd [l' ->]%last_Some. apply NoDup_app in Hnd as (_ & Hx & _).
  rewrite length_app, take_app_le by (simpl; lia). simpl.
  replace (length l' + 1 - 1)%nat with (length l') by lia. rewrite take_ge by done.
  induction l' as [|y l' IH]; simpl; [by rewrite decide_True|].
  rewrite decide_False by set_solver. f_equal. apply IH. set_solver.
Qed.

(** Where the loop over the running requests stands: it treats [id], and
    everything scheduled so far is before [idx]. *)
Record place_ok (s : Scheduler) (st : StepState) (idx : nat) (id : string) : Prop := {
  po_sched : ∀ x, x ∈ scheduled_running_reqs st → x ∈ take idx (running s);
  po_id : id ∈ take (S idx) (running s);
  po_new : id ∉ scheduled_running_reqs st;
  po_fcfs : policy (config s) = FCFS → running s !! idx = Some id;
}.

(** [st'] plans a part of what [st] plans. *)
Definition sub_plan (st st' : StepState) : Prop :=
  ∀ id n, (id, n) ∈ num_scheduled_tokens st' → (id, n) ∈ num_scheduled_tokens st ∧
    od_get (scheduled_spec_decode_tokens st') id = od_get (scheduled_spec_decode_tokens st) id.

Lemma od_get_del_ne {V} (l : list (string * V)) k id : id ≠ k → od_get (od_del l k) id = od_get l id.
Proof.
  intros Hne. unfold od_del. induction l as [|[k' v] l IH]; [done|].
  destruct (decide (k' = k)) as [->|Hk].
  - rewrite filter_cons_False by (simpl; tauto). simpl. by rewrite decide_False.
  - rewrite filter_cons_True by done. simpl. by rewrite IH.
Qed.

Lemma unschedule_plan r st st' : unschedule r st = Ok st' → sub_plan st st'.
Proof.
  unfold unschedule. intros H. destruct (od_get (num_scheduled_tokens st) (request_id r)); [|done].
  destruct (od_get (req_to_new_blocks st) (request_id r)); [|done]. bind_inv H as restored E.
  injection H as <-. intros id n [Hne Hin]%list_elem_of_filter. simpl. split; [done|].
  by apply od_get_del_ne.
Qed.

Record victim_ok (s : Scheduler) (st : StepState) (idx : nat) (id : string) (v : Request)
    (s' : Scheduler) (st' : StepState) (idx' : nat) : Prop := {
  vo_state : s' = set_running (remove_first (request_id v) (running s)) s;
  vo_running : request_id v ∈ running s;
  vo_request : od_get (requests s) (request_id v) = Some v;
  vo_place : request_id v ≠ id → place_ok s' st' idx' id;
  vo_sched : ∀ x, x ∈ scheduled_running_reqs st' → x ∈ take idx' (running s');
  vo_measure : (length (running s') - idx' ≤ length (running s) - idx)%nat;
  vo_gone : request_id v ∉ scheduled_running_reqs st';
  vo_plan : sub_plan st st';
}.

(** The request lists other than the running ones are those of before, and no
    token was taken. *)
Record gave_back (st st' : StepState) : Prop := {
  gb_new : scheduled_new_reqs st' = scheduled_new_reqs st;
  gb_resumed : scheduled_resumed_reqs st' = scheduled_resumed_reqs st;
  gb_budget : token_budget st ≤ token_budget st';
}.

#[export] Instance gave_back_preorder : PreOrder gave_back.
Proof.
  split; [by intros st; split|]. intros st1 st2 st3 [] []. split; [congruence..|lia].
Qed.

Lemma unschedule_gives r st st' B : step_ok B st → unschedule r st = Ok st' → gave_back st st'.
Proof.
  intros Hst H. unfold unschedule in H.
  destruct (od_get (num_scheduled_tokens st) (request_id r)) as [n|] eqn:En; [|done].
  destruct (od_get (req_to_new_blocks st) (request_id r)); [|done].
  bind_inv H as restored E. injection H as <-. split; simpl; try done.
  apply od_get_elem, (sk_pos _ _ Hst) in En; [lia|by apply sk_nodup with B].
Qed.

Lemma remove_first_length {A} `{EqDecision A} (x : A) l : x ∈ l → length l = S (length (remove_first x l)).
Proof. intros Hx. by rewrite (remove_first_perm _ _ Hx) at 1. Qed.

Lemma remove_first_out {A} `{EqDecision A} (x y : A) l : NoDup l → x ∈ remove_first y l → x ∈ l ∧ x ≠ y.
Proof.
  intros Hnd Hx. destruct (decide (y ∈ l)) as [Hy|Hy].
  - rewrite (remove_first_perm _ _ Hy) in Hnd |- *. apply NoDup_cons in Hnd as [Hn _].
    split; [by right|]. by intros ->.
  - rewrite remove_first_absent in Hx by done. split; [done|]. by intros ->.
Qed.

Section victim.
Context (B : Z) (s : Scheduler) (st : StepState) (idx : nat) (id : string).
Context (Hnd : NoDup (running s)) (Hst : step_ok B st) (Hpl : place_ok s st idx id).

(** A request that this step has not scheduled leaves the list. *)
Lemma victim_unscheduled v :
  od_get (requests s) (request_id v) = Some v → request_id v ∈ running s →
  request_id v ∉ scheduled_running_reqs st →
  (policy (config s) = FCFS → last (running s) = Some (request_id v)) →
  victim_ok s st idx id v (set_running (remove_first (request_id v) (running s)) s) st idx.
Proof.
  intros Hv Hin Hns Hlast.
  assert (∀ x, x ∈ scheduled_running_reqs st → x ∈ take idx (remove_first (request_id v) (running s))) as Hs.
  { intros x Hx. apply remove_first_take; [by intros ->|by apply (po_sched _ _ _ _ Hpl)]. }
  split; simpl; try done.
  - intros Hne. destruct Hpl as [H1 H2 H3 H4]. split; simpl; try done.
    + by apply remove_first_take.
    + intros HF. specialize (Hlast HF). specialize (H4 HF). rewrite (remove_first_last _ _ Hnd Hlast).
      rewrite last_lookup in Hlast. apply lookup_lt_Some in H4 as Hlt.
      rewrite lookup_take_lt; [done|]. destruct (decide (idx = pred (length (running s)))); [congruence|lia].
  - rewrite (remove_first_length _ _ Hin). lia.
Qed.

(** A request that this step has scheduled gives its tokens back. *)
Lemma victim_scheduled v st' :
  od_get (requests s) (request_id v) = Some v → request_id v ∈ running s →
  request_id v ∈ scheduled_running_reqs st → policy (config s) ≠ FCFS → unschedule v st = Ok st' →
  victim_ok s st idx id v (set_running (remove_first (request_id v) (running s)) s) st' (idx - 1).
Proof.
  intros Hv Hin Hs HF Hu. pose proof (unschedule_plan _ _ _ Hu). destruct (unschedule_ok _ _ _ _ Hst Hs Hu) as (Hst' & Erun & _).
  destruct Hpl as [H1 H2 H3 H4]. assert (Hi := H1 _ Hs).
  assert (0 < idx)%nat by (destruct idx; [by apply elem_of_nil in Hi|lia]).
  assert (NoDup (scheduled_running_reqs st)) as Hnds.
  { pose proof (sk_nodup _ _ Hst) as Hk. rewrite (sk_keys _ _ Hst) in Hk. by apply NoDup_app in Hk as [? _]. }
  assert (∀ x, x ∈ scheduled_running_reqs st' → x ∈ take (idx - 1) (remove_first (request_id v) (running s))) as Hsub.
  { intros x. rewrite Erun. intros [Hx Hne]%remove_first_out; [|done]. by apply remove_first_take_pred; [..|apply H1]. }
  split; simpl; try done.
  - intros Hne. split; simpl; try done.
    + replace (S (idx - 1)) with (S idx - 1)%nat by lia. apply remove_first_take_pred; [done| |done].
      eapply elem_of_take_mono; [|exact Hi]. lia.
    + rewrite Erun. by intros [? _]%remove_first_out.
  - rewrite (remove_first_length _ _ Hin). lia.
  - rewrite Erun. by intros [_ ?]%remove_first_out.
Qed.
End victim.

Lemma take_victim_ok B s st idx id lw ls lk v s' st' idx' :
  sched_wf s lw ls lk → step_ok B st → place_ok s st idx id →
  take_victim s st idx = Ok (v, s', st', idx') →
  victim_ok s st idx id v s' st' idx' ∧ step_ok B st' ∧ gave_back st st'.
Proof.
  intros Hwf Hst Hpl H. pose proof (wf_ids _ _ _ _ Hwf) as Hnd. apply NoDup_app in Hnd as (Hnd & _ & _).
  assert (∀ i r, od_get (requests s) i = Some r → request_id r = i) as Hid by apply (wf_store _ _ _ _ Hwf).
  unfold take_victim in H. destruct (policy (config s)) eqn:Ep.
  - destruct (last (running s)) as [i|] eqn:El; [|done]. bind_inv H as r E. simplify_eq.
    apply get_request_Ok in E. pose proof (Hid _ _ E) as <-.
    assert (request_id v ∈ running s) as Hin by (apply last_Some in El as [l ->]; set_solver).
    split_and!; [|done|done]. rewrite <-(remove_first_last _ _ Hnd El).
    apply victim_unscheduled; try done. intros Hs%(po_sched _ _ _ _ Hpl).
    apply elem_of_take in Hs as (j & Hj & Hlt). apply (po_fcfs _ _ _ _ Hpl) in Ep.
    rewrite last_lookup in El. pose proof (NoDup_lookup _ _ _ _ Hnd Hj El). apply lookup_lt_Some in Ep. lia.
  - destruct (running s) as [|i rest] eqn:Er; [done|]. rewrite <-Er in *. bind_inv H as r0 E0. bind_inv H as r E.
    apply get_request_Ok in E0. pose proof (Hid _ _ E0) as Hi.
    assert (request_id r ∈ running s ∧ od_get (requests s) (request_id r) = Some r) as [Hin Hr].
    { rewrite Er. apply max_request_elem in E as [->|(j & Hj & Hr)].
      - rewrite Hi. split; [by left|done].
      - rewrite (Hid _ _ Hr). split; [by right|done]. }
    case_bool_decide as Hs.
    + bind_inv H as st1 E1. simplify_eq. split; [|split].
      * by eapply victim_scheduled; [..|by rewrite Ep|].
      * by eapply unschedule_ok.
      * by eapply unschedule_gives.
    + simplify_eq. split_and!; [|done|done]. by apply victim_unscheduled; [..|by rewrite Ep].
Qed.

(** ** The invariant of both loops *)

(** Multimodal inputs are listed by position. *)
Definition starts_sorted (r : Request) : Prop :=
  StronglySorted Z.le (mm_start <$> mm_features r).

(** What holds of every request between two steps: its tokens leave room for the
    sampled ones, and it has computed no more than its tokens. *)
Record req_ok (cfg : SchedulerConfig) (r : Request) : Prop := {
  rk_sorted : starts_sorted r;
  rk_placeholders : 0 ≤ num_output_placeholders r;
  rk_tokens : num_tokens r + num_sampled_tokens_per_step cfg ≤ sc_max_model_len cfg;
  rk_computed : num_computed_tokens r ≤ num_tokens r + num_output_placeholders r;
  rk_room : num_computed_tokens r + num_sampled_tokens_per_step cfg ≤ sc_max_model_len cfg;
}.

(** The scheduled tokens [n] of a request follow its computed ones: they are known
    tokens, placeholders or scheduled draft tokens, within the model length. *)
Definition fits (cfg : SchedulerConfig) (s : Scheduler) (st : StepState) : Prop :=
  ∀ id n, (id, n) ∈ num_scheduled_tokens st → ∃ r, od_get (requests s) id = Some r ∧
    num_computed_tokens r + n ≤ num_tokens r + num_output_placeholders r
      + zlen (default [] (od_get (scheduled_spec_decode_tokens st) id)) ∧
    num_computed_tokens r + n + num_sampled_tokens_per_step cfg ≤ sc_max_model_len cfg.

Definition places (s : Scheduler) (lw ls lk : list Request) : list string :=
  running s ++ (request_id <$> lw ++ ls ++ lk).

(** What a scheduling step never changes of an object. *)
Record kept (r r' : Request) : Prop := {
  kp_key : same_key r r';
  kp_mm : mm_features r' = mm_features r;
  kp_tokens : all_token_ids r' = all_token_ids r;
  kp_output : output_token_ids r' = output_token_ids r;
  kp_sampling : sampling_params r' = sampling_params r;
  kp_placeholders : num_output_placeholders r' = num_output_placeholders r;
  kp_resumable : resumable r' = resumable r;
  kp_remote : status r' = WAITING_FOR_REMOTE_KVS → status r = WAITING_FOR_REMOTE_KVS;
}.

#[export] Instance kept_preorder : PreOrder kept.
Proof.
  split; [by intros r; split|]. intros r1 r2 r3 [K1 M1 T1 O1 G1 P1 R1 S1] [K2 M2 T2 O2 G2 P2 R2 S2].
  split; [by etrans|congruence..|auto].
Qed.

Lemma kept_num_tokens r r' : kept r r' → num_tokens r' = num_tokens r.
Proof. intros Hk. unfold num_tokens. by rewrite (kp_tokens _ _ Hk). Qed.

(** [P] are the ids of the queued and running requests when the step started, [R]
    is the request table then. *)
Record phase (B : Z) (cfg : SchedulerConfig) (ps : PauseState) (P : list string) (R : list (string * Request))
    (s : Scheduler) (st : StepState) (lw ls lk : list Request) : Prop := {
  ph_wf : sched_wf s lw ls lk;
  ph_step : step_ok B st;
  ph_places : places s lw ls lk ≡ₚ P;
  ph_keys : (requests s).*1 = R.*1;
  ph_kept : ∀ id r, od_get (requests s) id = Some r → ∃ r0, od_get R id = Some r0 ∧ kept r0 r;
  ph_req : ∀ id r, od_get (requests s) id = Some r → req_ok cfg r;
  ph_fits : fits cfg s st;
  ph_config : config s = cfg;
  ph_pause : pause_state s = ps;
  ph_groups : positive_sizes (kv_groups s);
}.

Arguments ph_wf {B cfg ps P R s st lw ls lk}.
Arguments ph_step {B cfg ps P R s st lw ls lk}.
Arguments ph_places {B cfg ps P R s st lw ls lk}.
Arguments ph_keys {B cfg ps P R s st lw ls lk}.
Arguments ph_kept {B cfg ps P R s st lw ls lk}.
Arguments ph_req {B cfg ps P R s st lw ls lk}.
Arguments ph_fits {B cfg ps P R s st lw ls lk}.
Arguments ph_config {B cfg ps P R s st lw ls lk}.
Arguments ph_pause {B cfg ps P R s st lw ls lk}.
Arguments ph_groups {B cfg ps P R s st lw ls lk}.

(** An assignment that leaves alone what a step plans with. *)
Record same_plan (r r' : Request) : Prop := {
  sp_kept : kept r r';
  sp_computed : num_computed_tokens r' = num_computed_tokens r;
}.

Lemma same_plan_ok cfg r r' : same_plan r r' → req_ok cfg r → req_ok cfg r'.
Proof.
  intros [Hk Ec] []. pose proof (kept_num_tokens _ _ Hk) as Et.
  split; unfold starts_sorted in *; rewrite ?(kp_mm _ _ Hk), ?Et, ?(kp_placeholders _ _ Hk), ?Ec; done.
Qed.

Lemma od_set_same_keys (l : list (string * Request)) k v :
  is_Some (od_get l k) → (od_set l k v).*1 = l.*1.
Proof.
  intros Hk. rewrite od_set_keys, decide_True; [done|].
  destruct (decide (k ∈ l.*1)) as [|Hn]; [done|]. apply od_get_None in Hn. rewrite Hn in Hk. by destruct Hk.
Qed.

(** An object of the table [l] gets the state [r]. *)
Lemma kept_set (R l : list (string * Request)) r0 r :
  (∀ id r, od_get l id = Some r → ∃ r0, od_get R id = Some r0 ∧ kept r0 r) →
  od_get l (request_id r) = Some r0 → kept r0 r →
  ∀ id r1, od_get (od_set l (request_id r) r) id = Some r1 → ∃ r0, od_get R id = Some r0 ∧ kept r0 r1.
Proof.
  intros Hl Hr0 Hk id r1. rewrite od_get_set. case_decide as E; [|by apply Hl]. intros [= <-].
  destruct (Hl _ _ Hr0) as (r2 & Hr2 & Hk2). exists r2. split; [by rewrite E|by etrans].
Qed.

(** The plan of a part of the step. *)
Lemma fits_sub cfg s st st' :
  fits cfg s st → sub_plan st st' → fits cfg s st'.
Proof. intros Hf Hsub id n Hin. destruct (Hsub id n Hin) as [Hin' ->]. by apply Hf. Qed.

(** Other objects are not part of the plan. *)
Lemma fits_table cfg s s' st :
  fits cfg s st →
  (∀ id r, id ∈ (num_scheduled_tokens st).*1 → od_get (requests s) id = Some r →
     ∃ r', od_get (requests s') id = Some r' ∧ same_plan r r') →
  fits cfg s' st.
Proof.
  intros Hf Hs id n Hin. destruct (Hf id n Hin) as (r & Hr & H1 & H2).
  destruct (Hs id r) as (r' & Hr' & [Hk Ec]); [by apply (list_elem_of_fmap_2 fst) in Hin|done|].
  exists r'. by rewrite (kept_num_tokens _ _ Hk), (kp_placeholders _ _ Hk), Ec.
Qed.

(** One more request in the plan. *)
Lemma fits_note cfg s st st' id n r :
  fits cfg s st → id ∉ (num_scheduled_tokens st).*1 →
  num_scheduled_tokens st' = od_set (num_scheduled_tokens st) id n →
  (∀ x, x ≠ id → od_get (scheduled_spec_decode_tokens st') x = od_get (scheduled_spec_decode_tokens st) x) →
  od_get (requests s) id = Some r →
  num_computed_tokens r + n ≤ num_tokens r + num_output_placeholders r
    + zlen (default [] (od_get (scheduled_spec_decode_tokens st') id)) →
  num_computed_tokens r + n + num_sampled_tokens_per_step cfg ≤ sc_max_model_len cfg →
  fits cfg s st'.
Proof.
  intros Hf Hid En Hs Hr H1 H2 x m. rewrite En, od_set_fresh, elem_of_app, list_elem_of_singleton by done.
  intros [Hin|[= -> ->]]; [|by exists r]. rewrite Hs; [by apply Hf|].
  intros ->. by apply (list_elem_of_fmap_2 fst) in Hin.
Qed.

Section phases.
Context {B : Z} {cfg : SchedulerConfig} {ps : PauseState} {P : list string} {R : list (string * Request)}.
Notation phase := (phase B cfg ps P R).

Lemma phase_same s s' st lw ls lk : same_table s s' → phase s st lw ls lk → phase s' st lw ls lk.
Proof.
  intros Hf [Hwf Hst Hp Hk Hkept Hr Hfit Hc Hps Hg]. pose proof (wf_same _ _ _ _ _ Hf Hwf).
  destruct Hf as [Ec Er Ew Es Eru Ep Eg].
  split; unfold places, fits in *; rewrite ?Ec, ?Er, ?Eru, ?Ep, ?Eg; done.
Qed.

Lemma phase_step s st st' lw ls lk : step_ok B st' → fits cfg s st' → phase s st lw ls lk → phase s st' lw ls lk.
Proof. by intros ? ? []. Qed.

(** An assignment to an object that keeps its status and its plan. *)
Lemma phase_put s st lw ls lk r0 r :
  phase s st lw ls lk → od_get (requests s) (request_id r0) = Some r0 → same_plan r0 r →
  status r = status r0 ∨ waits (status r0) ∧ waits (status r) →
  phase (put_request r s) st lw ls lk.
Proof.
  intros [Hwf Hst Hp Hk Hkept Hr Hfit Hc Hps Hg] Hr0 Hpl Es. pose proof (kp_key _ _ (sp_kept _ _ Hpl)) as Hkey.
  assert (request_id r = request_id r0) as Eid by apply Hkey.
  split; simpl; try done.
  - apply (wf_put _ _ _ _ r0); rewrite ?Eid; try done.
    + intros (r1 & ? & ?)%(wf_running _ _ _ _ Hwf). simplify_eq. destruct Es as [->|[[? _] _]]; congruence.
    + intros (x & Ex & Hx)%list_elem_of_fmap. apply (wf_queued _ _ _ _ Hwf) in Hx as (r1 & Hr1 & _ & Hw).
      rewrite <-Ex in Hr1. simplify_eq. destruct Es as [->|[_ ?]]; done.
  - rewrite od_set_same_keys; [done|]. by rewrite Eid, Hr0.
  - apply (kept_set R _ r0); [done|by rewrite Eid|apply Hpl].
  - intros id r1. rewrite od_get_set. case_decide as E; [|by apply Hr].
    intros [= <-]. eapply same_plan_ok; [done|]. by eapply Hr.
  - eapply fits_table; [done|]. intros id r1 _ Hr1. simpl. rewrite od_get_set. case_decide as E; [|by exists r1].
    exists r. split; [done|]. rewrite E, Eid, Hr0 in Hr1. by simplify_eq.
Qed.

Lemma memo_plan r r' : memo_of r r' → same_plan r r'.
Proof. by intros [m ->]. Qed.

Lemma phase_memo s st lw ls lk r r' :
  phase s st lw ls lk → od_get (requests s) (request_id r) = Some r → memo_of r r' →
  phase (put_request r' s) st lw ls lk.
Proof.
  intros Hph Hr Hm. apply (phase_put _ _ _ _ _ r); try done; [by apply memo_plan|].
  left. by destruct Hm as [m ->].
Qed.

Lemma preempted_ok r : req_ok cfg r → req_ok cfg (preempted r).
Proof.
  intros [H1 H2 H3 H4 H5]. pose proof (zlen_nonneg (all_token_ids r)).
  split; try done; simpl; unfold num_tokens in *; simpl; lia.
Qed.

Lemma phase_preempt set_iter s st lw ls lk v s' :
  phase s st lw ls lk → request_id v ∈ running s → od_get (requests s) (request_id v) = Some v →
  request_id v ∉ (num_scheduled_tokens st).*1 →
  _preempt_request set_iter (set_running (remove_first (request_id v) (running s)) s) v = Ok s' →
  ∃ lw', phase s' st lw' ls lk ∧ running s' = remove_first (request_id v) (running s).
Proof.
  intros [Hwf Hst Hp Hk Hkept Hr Hfit Hc Hps Hg] Hin Hv Hns H.
  destruct (wf_take_running _ _ _ _ _ Hwf Hin) as [Hwf1 Hni].
  pose proof (preempt_table _ _ _ _ H) as Et. simpl in Et.
  destruct (preempt_wf _ _ _ _ _ _ _ Hwf1 Hv Hni H) as (lw' & Hwf' & Hperm & Erun & Ec & Eps & Eg).
  simpl in *. exists lw'. split; [|done]. split; try done; try congruence.
  - unfold places. rewrite <-Hp. unfold places. rewrite Erun, !fmap_app, Hperm.
    rewrite (remove_first_perm _ _ Hin) at 2. solve_Permutation.
  - rewrite Et, od_set_same_keys; [done|by rewrite Hv].
  - rewrite Et. by apply (kept_set R _ v (preempted v) Hkept).
  - intros id r. rewrite Et, od_get_set. case_decide as E; [|by apply Hr]. intros [= <-].
    apply preempted_ok. by eapply Hr.
  - eapply fits_table; [done|]. intros id r Hid Hget. exists r. rewrite Et, od_get_set.
    rewrite decide_False by (by intros ->). done.
  - by rewrite Eg.
Qed.

(** In the pass over the running requests only these are scheduled. *)
Lemma scheduled_keys st x :
  step_ok B st → scheduled_new_reqs st = [] → scheduled_resumed_reqs st = [] →
  x ∈ (num_scheduled_tokens st).*1 ↔ x ∈ scheduled_running_reqs st.
Proof. intros Hst Hn Hr. by rewrite (sk_keys _ _ Hst), Hn, Hr, !app_nil_r. Qed.

(** One round of the loop that preempts: the chosen request leaves the running
    list and waits. *)
Lemma victim_round set_iter s st idx id lw ls lk v s2 st2 idx2 s3 :
  phase s st lw ls lk → place_ok s st idx id → scheduled_new_reqs st = [] → scheduled_resumed_reqs st = [] →
  take_victim s st idx = Ok (v, s2, st2, idx2) → _preempt_request set_iter s2 v = Ok s3 →
  let st3 := set_reqs (scheduled_new_reqs st2) (scheduled_resumed_reqs st2) (scheduled_running_reqs st2)
               (preempted_reqs st2 ++ [request_id v]) st2 in
  ∃ lw', phase s3 st3 lw' ls lk ∧ gave_back st st3 ∧ length (running s) = S (length (running s3)) ∧
    (length (running s3) - idx2 ≤ length (running s) - idx)%nat ∧
    (∀ x, x ∈ scheduled_running_reqs st3 → x ∈ take idx2 (running s3)) ∧
    (request_id v ≠ id → place_ok s3 st3 idx2 id ∧ od_get (requests s3) id = od_get (requests s) id).
Proof.
  intros Hph Hpl En Er E3 E4 st3.
  destruct (take_victim_ok B _ _ _ _ _ _ _ _ _ _ _ (ph_wf Hph) (ph_step Hph) Hpl E3)
    as ([Es2 Hvr Hv Hvp Hvs Hvm Hvg Hplan] & Hst2 & Hgb).
  assert (phase s st2 lw ls lk) as Hph2.
  { apply (phase_step _ st); [done| |done]. eapply fits_sub; [apply Hph|done]. }
  rewrite Es2 in E4. pose proof (preempt_table _ _ _ _ E4) as Et.
  destruct (phase_preempt set_iter s st2 lw ls lk v s3) as (lw' & Hph3 & Erun3); try done.
  { rewrite scheduled_keys; [done|done|by rewrite (gb_new _ _ Hgb)|by rewrite (gb_resumed _ _ Hgb)]. }
  assert (running s3 = running s2 ∧ config s2 = config s) as [Er2 Ec2] by (by rewrite Es2).
  pose proof (remove_first_length _ _ Hvr) as Hlen. rewrite <-Erun3 in Hlen. rewrite <-Er2 in Hvm, Hvs.
  exists lw'. split_and!; try done.
  - apply (phase_step _ st2); [by destruct Hst2| |done]. eapply fits_sub; [apply Hph3|]. done.
  - by destruct Hgb.
  - intros Ev. destruct (Hvp Ev) as [Hp1 Hp2 Hp3 Hp4]. rewrite <-Er2 in Hp1, Hp2, Hp4.
    split; [|rewrite Et, od_get_set; by rewrite decide_False]. split; try done. intros HF. apply Hp4. rewrite <-HF, Ec2. by rewrite (ph_config Hph3), (ph_config Hph).
Qed.

(** The loop that preempts until the request fits. *)
Lemma allocate_loop_ok sha set_iter fuel s st idx id n nb s' st' idx' lw ls lk :
  phase s st lw ls lk → place_ok s st idx id → scheduled_new_reqs st = [] → scheduled_resumed_reqs st = [] →
  allocate_loop sha set_iter fuel s st idx id n = Ok (nb, s', st', idx') →
  ∃ lw', phase s' st' lw' ls lk ∧ gave_back st st' ∧
    (length (running s') ≤ length (running s))%nat ∧
    (length (running s') - idx' ≤ length (running s) - idx)%nat ∧
    (∀ x, x ∈ scheduled_running_reqs st' → x ∈ take idx' (running s')) ∧
    (is_Some nb → place_ok s' st' idx' id ∧
       ∀ r, od_get (requests s) id = Some r → ∃ r', od_get (requests s') id = Some r' ∧ memo_of r r').
Proof.
  revert s st idx lw. induction fuel as [|fuel IH]; intros s st idx lw Hph Hpl En Er H; simpl in H; [done|].
  bind_inv H as r E1. bind_inv H as [[bs k] r1] E2.
  apply get_request_Ok in E1. pose proof (wf_store _ _ _ _ (ph_wf Hph) _ _ E1) as Hid.
  apply allocate_slots_groups in E2 as Hg. apply allocate_slots_memo in E2. set (s1 := put_request r1 (set_kv k s)) in *.
  assert (phase s1 st lw ls lk) as Hph1.
  { apply (phase_memo _ _ _ _ _ r); [by apply (phase_same s)|by rewrite Hid|done]. }
  assert (place_ok s1 st idx id) as Hpl1 by (by destruct Hpl).
  assert (od_get (requests s1) id = Some r1) as Hr1.
  { destruct E2 as [m ->]. simpl. rewrite Hid, od_get_set. by rewrite decide_True. }
  destruct bs as [bs|].
  { injection H as <- <- <- <-. exists lw. split_and!; try done; [apply Hpl|]. intros _. split; [done|].
    intros r0 Hr0. exists r1. rewrite E1 in Hr0. by simplify_eq. }
  bind_inv H as [[[v s2] st2] idx2] E3. bind_inv H as s3 E4.
  destruct (victim_round set_iter _ _ _ _ _ _ _ _ _ _ _ _ Hph1 Hpl1 En Er E3 E4)
    as (lw' & Hph3 & Hgb & Hlen & Hm & Hsub & Hpl3). change (running s1) with (running s) in Hlen, Hm.
  case_bool_decide as Ev.
  - injection H as <- <- <- <-. exists lw'. split_and!; try done; first [lia | by intros [? ?]].
  - destruct (Hpl3 Ev) as [Hpl4 Hr3].
    destruct (IH _ _ _ lw' Hph3 Hpl4) as (lw2 & Hph5 & Hgb5 & Hl5 & Hm5 & Hs5 & Hp5); try done.
    { by rewrite (gb_new _ _ Hgb). }
    { by rewrite (gb_resumed _ _ Hgb). }
    exists lw2. split_and!; try done; [by etrans|lia|lia|]. intros [Hpl5 Hr5]%Hp5. split; [done|].
    intros r0 Hr0. destruct (Hr5 r1) as (r' & Hr' & Hm'); [by rewrite Hr3|].
    exists r'. split; [done|]. rewrite E1 in Hr0. simplify_eq. by etrans.
Qed.

(** A request is scheduled. *)
Lemma step_note st st' id m :
  step_ok B st → id ∉ (num_scheduled_tokens st).*1 → 0 < m ≤ token_budget st →
  num_scheduled_tokens st' = od_set (num_scheduled_tokens st) id m → token_budget st' = token_budget st - m →
  scheduled_running_reqs st' ++ scheduled_new_reqs st' ++ scheduled_resumed_reqs st' ≡ₚ
    id :: (scheduled_running_reqs st ++ scheduled_new_reqs st ++ scheduled_resumed_reqs st) →
  step_ok B st'.
Proof.
  intros [Hnd Hk Hb H0 Hpos] Hid Hm En Eb Hp. rewrite od_set_fresh in En by done.
  split; unfold total_tokens in *; rewrite ?En, ?Eb.
  - rewrite fmap_app; simpl; rewrite <-Permutation_cons_append. by apply NoDup_cons.
  - rewrite fmap_app; simpl; rewrite <-Permutation_cons_append. by rewrite Hp, Hk.
  - pose proof (total_app (num_scheduled_tokens st) [(id, m)]) as Ht. unfold total_of in Ht. simpl in Ht. lia.
  - lia.
  - intros i k [Hin|Hin]%elem_of_app; [by eapply Hpos|].
    apply list_elem_of_singleton in Hin. simplify_eq. lia.
Qed.

Lemma spec_tokens_frame r m st r' st' :
  schedule_spec_tokens r m st = (r', st') →
  r' = set_spec_token_ids (spec_token_ids r') r ∧ (step_ok B st → step_ok B st') ∧
  scheduled_running_reqs st' = scheduled_running_reqs st ∧ scheduled_new_reqs st' = scheduled_new_reqs st ∧
  scheduled_resumed_reqs st' = scheduled_resumed_reqs st ∧ token_budget st' = token_budget st ∧
  num_scheduled_tokens st' = num_scheduled_tokens st.
Proof.
  unfold schedule_spec_tokens. destruct (spec_token_ids r) as [|t l] eqn:E.
  - intros [= <- <-]. split; [|done]. rewrite E. destruct r; simpl in *. by subst.
  - intros [= <- <-]. split; [done|]. destruct (0 <? _); split_and!; try done. by intros [].
Qed.

(** The draft tokens of the request are those among the [m] scheduled tokens; the
    draft tokens of the others stay. *)
Lemma spec_tokens_room r m st r' st' :
  schedule_spec_tokens r m st = (r', st') →
  num_computed_tokens r + m ≤ num_tokens r + num_output_placeholders r + zlen (spec_token_ids r) →
  num_computed_tokens r + m ≤ num_tokens r + num_output_placeholders r
    + zlen (default [] (od_get (scheduled_spec_decode_tokens st') (request_id r))) ∧
  (∀ x, x ≠ request_id r → od_get (scheduled_spec_decode_tokens st') x = od_get (scheduled_spec_decode_tokens st) x).
Proof.
  unfold schedule_spec_tokens. intros H Hm.
  pose proof (zlen_nonneg (default [] (od_get (scheduled_spec_decode_tokens st) (request_id r)))) as Hz.
  destruct (spec_token_ids r) as [|t l] eqn:E.
  { injection H as <- <-. split; [|done]. change (zlen []) with 0 in Hm. lia. }
  injection H as <- <-. set (n := m + _ - _ - _). destruct (Z.ltb_spec 0 n) as [Hn|Hn].
  - simpl. split; [|intros x Hx; rewrite od_get_set; by rewrite decide_False].
    rewrite od_get_set, decide_True by done. simpl. destruct (Z.ltb_spec n (zlen (t :: l))) as [Hl|Hl]; [|lia].
    unfold zlen in *. rewrite length_take. lia.
  - split; [|done]. unfold n in *. lia.
Qed.

Lemma encoder_inputs_frame s st r l b s' st' :
  allocate_encoder_inputs s st r l b = Ok (s', st') →
  same_table s s' ∧ (step_ok B st → step_ok B st') ∧
  scheduled_running_reqs st' = scheduled_running_reqs st ∧ scheduled_new_reqs st' = scheduled_new_reqs st ∧
  scheduled_resumed_reqs st' = scheduled_resumed_reqs st ∧ token_budget st' = token_budget st ∧
  scheduled_spec_decode_tokens st' = scheduled_spec_decode_tokens st ∧
  num_scheduled_tokens st' = num_scheduled_tokens st.
Proof.
  unfold allocate_encoder_inputs. intros H. destruct l; [by simplify_eq|].
  bind_inv H as e E. injection H as <- <-. split; [done|]. split; [by intros []|done].
Qed.
End phases.

(** ** How many tokens a request gets *)

Lemma mamba_split_bound cfg r m a b u :
  0 < cache_block_size cfg → 0 ≤ m → 0 ≤ _mamba_block_aligned_split cfg r m a b u ≤ m.
Proof.
  intros Hbs Hm. unfold _mamba_block_aligned_split. destruct (_ <? _); [|lia].
  set (bs := cache_block_size cfg) in *.
  assert (∀ x, 0 ≤ x → 0 ≤ x / bs * bs ≤ x) as Hd.
  { intros x Hx. pose proof (Z.div_mod x bs ltac:(lia)). pose proof (Z.mod_pos_bound x bs Hbs).
    pose proof (Z.div_pos x bs Hx Hbs). nia. }
  set (last := if use_eagle cfg then _ else _).
  set (m1 := if _ <? last then _ else _).
  assert (0 ≤ m1 ≤ m) as H1.
  { unfold m1. destruct (Z.ltb_spec (num_computed_tokens r + a + b + m) last); [by apply Hd|].
    destruct (Z.ltb_spec (num_computed_tokens r + a + b) last), (Z.ltb_spec last (num_computed_tokens r + a + b + m));
      simpl; lia. }
  destruct (Z.leb_spec bs u), (Z.ltb_spec u m1); simpl; try lia. specialize (Hd u ltac:(lia)). lia.
Qed.

(** What [schedule] asks of the configuration. *)
Record config_ok (cfg : SchedulerConfig) : Prop := {
  co_tokens : 0 ≤ max_num_scheduled_tokens cfg;
  co_block : need_mamba_block_aligned_split cfg = true → 0 < cache_block_size cfg;
}.

Lemma running_tokens_bound cfg r b :
  req_ok cfg r → 0 ≤ b → let n := running_new_tokens cfg r b in 0 ≤ n ≤ b ∧
  num_computed_tokens r + n ≤ num_tokens r + num_output_placeholders r + zlen (spec_token_ids r) ∧
  num_computed_tokens r + n + num_sampled_tokens_per_step cfg ≤ sc_max_model_len cfg.
Proof.
  intros [_ H0 H1 H2 H3] Hb. unfold running_new_tokens, num_tokens_with_spec, num_tokens in *. pose proof (zlen_nonneg (spec_token_ids r)).
  destruct (Z.ltb_spec 0 (long_prefill_token_threshold cfg)); simpl; [|lia].
  destruct (Z.ltb_spec (long_prefill_token_threshold cfg) (zlen (all_token_ids r) + zlen (spec_token_ids r) + num_output_placeholders r - num_computed_tokens r)); lia.
Qed.

Section loops.
Context (sha : list bytes → bytes) (set_iter : gset nat → list nat) (grammar_ready : Request → bool).
Context (B : Z) (cfg : SchedulerConfig) (ps : PauseState) (P : list string)
  (R : list (string * Request)) (Hcfg : config_ok cfg).
Notation phase := (phase B cfg ps P R).

(** The state of the loop over the running requests. *)
Record running_inv (s : Scheduler) (st : StepState) (idx : nat) (lw ls lk : list Request) : Prop := {
  ri_phase : phase s st lw ls lk;
  ri_sched : ∀ x, x ∈ scheduled_running_reqs st → x ∈ take idx (running s);
  ri_new : scheduled_new_reqs st = [];
  ri_resumed : scheduled_resumed_reqs st = [];
}.

Lemma running_place s st idx id lw ls lk :
  running_inv s st idx lw ls lk → running s !! idx = Some id → place_ok s st idx id.
Proof.
  intros [Hph Hs _ _] Hid. split; try done.
  - apply elem_of_take. exists idx. split; [done|lia].
  - intros Hin%Hs. apply elem_of_take in Hin as (j & Hj & Hlt).
    pose proof (wf_ids _ _ _ _ (ph_wf Hph)) as Hnd. apply NoDup_app in Hnd as (Hnd & _).
    pose proof (NoDup_lookup _ _ _ _ Hnd Hj Hid). lia.
Qed.

(** The request got its slots: it is recorded, with its draft tokens and encoder
    inputs. *)
Lemma record_running s st idx id lw ls lk n bs r r' st1 s2 st2 inputs b :
  phase s st lw ls lk → place_ok s st idx id → scheduled_new_reqs st = [] → scheduled_resumed_reqs st = [] →
  0 < n ≤ token_budget st → od_get (requests s) id = Some r →
  num_computed_tokens r + n ≤ num_tokens r + num_output_placeholders r + zlen (spec_token_ids r) →
  num_computed_tokens r + n + num_sampled_tokens_per_step cfg ≤ sc_max_model_len cfg →
  schedule_spec_tokens r n (note_tokens id bs n (set_reqs (scheduled_new_reqs st) (scheduled_resumed_reqs st)
    (scheduled_running_reqs st ++ [id]) (preempted_reqs st) st)) = (r', st1) →
  allocate_encoder_inputs (put_request r' s) st1 r' inputs b = Ok (s2, st2) →
  running_inv s2 st2 (S idx) lw ls lk ∧ running s2 = running s.
Proof.
  intros Hph [Hp1 Hp2 Hp3 _] En Er Hn Hr Hasks Hroom E1 E2.
  pose proof (wf_store _ _ _ _ (ph_wf Hph) _ _ Hr) as Hid.
  destruct (spec_tokens_room _ _ _ _ _ E1 Hasks) as [Hspec Hother]. rewrite Hid in Hspec, Hother.
  apply (spec_tokens_frame (B:=B)) in E1 as (Er' & Hst1 & F1 & F2 & F3 & F4 & F5).
  apply (encoder_inputs_frame (B:=B)) in E2 as (Hf & Hst2 & G1 & G2 & G3 & G4 & G5 & G6).
  assert (id ∉ (num_scheduled_tokens st).*1) as Hni by (by rewrite scheduled_keys by (done || apply Hph)).
  assert (phase (put_request r' s) st lw ls lk) as Hph'.
  { rewrite Er'. apply (phase_put _ _ _ _ _ r); try done; [by rewrite Hid|by left]. }
  assert (od_get (requests (put_request r' s)) id = Some r') as Hr'.
  { simpl. rewrite od_get_set, decide_True; [done|]. by rewrite Er'. }
  assert (Ha := st_running _ _ Hf). simpl in Ha. split; [|done]. split.
  - eapply phase_same; [done|]. apply (phase_step _ st); [..|done].
    + apply Hst2, Hst1, (step_note st _ id n); try done; [apply Hph|]. simpl.
      rewrite En, Er, !app_nil_r. symmetry. apply Permutation_cons_append.
    + apply (fits_note _ _ st _ id n r'); try done; rewrite ?G5, ?G6, ?F5; try done; [apply Hph'|..];
        rewrite Er'; done.
  - intros x. rewrite G1, F1, Ha. simpl. rewrite elem_of_app, list_elem_of_singleton. intros [Hx| ->]; [|done].
    apply (elem_of_take_mono _ idx); [lia|by apply Hp1].
  - by rewrite G2, F2.
  - by rewrite G3, F3.
Qed.

Lemma running_step_ok defer s st idx id lw ls lk stop s' st' idx' :
  running_inv s st idx lw ls lk → running s !! idx = Some id → 0 < token_budget st →
  running_step sha set_iter defer s st idx id = Ok (stop, s', st', idx') →
  ∃ lw', running_inv s' st' idx' lw' ls lk ∧ (length (running s') ≤ length (running s))%nat ∧
    (stop = false → (length (running s') - idx' < length (running s) - idx)%nat).
Proof.
  intros Hinv Hid Hb H. pose proof (running_place _ _ _ _ _ _ _ Hinv Hid) as Hpl.
  pose proof (lookup_lt_Some _ _ _ Hid) as Hlt.
  destruct Hinv as [Hph Hs En Er]. pose proof (ph_wf Hph) as Hwf.
  unfold running_step in H. bind_inv H as r E1. apply get_request_Ok in E1.
  assert (∀ s1, same_table s s1 → running_inv s1 st (S idx) lw ls lk) as Hskip.
  { intros s1 Hf. split; try done; [by eapply phase_same|]. intros x Hx%Hs. rewrite (st_running _ _ Hf).
    eapply elem_of_take_mono; [|done]. lia. }
  case_inv H as E2; [simplify_eq; exists lw; split; [by apply Hskip|lia]|].
  bind_inv H as [[[inputs n] nb] e] E3. set (n1 := if need_mamba_block_aligned_split _ then _ else _) in H.
  rewrite (ph_config Hph) in E3. unfold n1 in H. clear n1.
  pose proof (ph_req Hph _ _ E1) as Hreq.
  destruct (running_tokens_bound cfg r (token_budget st) Hreq) as (Hn0 & Hasks & Hroom); [lia|].
  assert (0 ≤ n ≤ running_new_tokens cfg r (token_budget st)) as Hn.
  { case_inv E3 as E4; [|simplify_eq; lia]. apply encoder_tokens_bound in E3; [lia|apply Hreq|lia]. }
  rewrite (ph_config Hph) in H.
  set (n1 := if need_mamba_block_aligned_split _ then _ else _) in H.
  assert (0 ≤ n1 ≤ n) as Hn1.
  { unfold n1. destruct (need_mamba_block_aligned_split cfg) eqn:Em; [|lia].
    pose proof (mamba_split_bound cfg r n 0 0 0 (co_block _ Hcfg Em)). lia. }
  destruct (Z.eqb_spec n1 0) as [E4|E4]; [simplify_eq; exists lw; split; [by apply Hskip|simpl; lia]|].
  bind_inv H as [[[bs s1] st1] idx1] E5.
  assert (phase (set_encoder e s) st lw ls lk) as Hph0 by (by apply (phase_same s)).
  assert (place_ok (set_encoder e s) st idx id) as Hpl0 by (by destruct Hpl).
  destruct (allocate_loop_ok _ _ _ _ _ _ _ _ _ _ _ _ _ _ _ Hph0 Hpl0 En Er E5)
    as (lw' & Hph1 & [Gn Gr Gb] & Hl & Hm & Hsub & Hplace). simpl in Hl, Hm.
  rewrite En in Gn. rewrite Er in Gr. exists lw'.
  destruct bs as [bs|]; [|by simplify_eq; split].
  bind_inv H as r1 E6. apply get_request_Ok in E6. destruct (schedule_spec_tokens _ _ _) as [r2 st2] eqn:E7.
  bind_inv H as [s3 st3] E8. simplify_eq.
  destruct (record_running s1 st1 idx1 id lw' ls lk n1 bs r1 r2 st2 s' st' inputs nb) as [Hri Erun]; try done.
  { by apply Hplace. }
  { lia. }
  { destruct (proj2 (Hplace ltac:(done)) r E1) as (r0 & Hr0 & m & ->). rewrite E6 in Hr0. simplify_eq.
    simpl. change (num_tokens (set_prompt_embeds_hashes m r)) with (num_tokens r). lia. }
  { destruct (proj2 (Hplace ltac:(done)) r E1) as (r0 & Hr0 & m & ->). rewrite E6 in Hr0. simplify_eq. simpl. lia. }
  rewrite Erun. split_and!; [done|lia|lia].
Qed.

Lemma running_loop_ok fuel defer s st idx lw ls lk s' st' :
  running_inv s st idx lw ls lk →
  running_loop sha set_iter fuel defer s st idx = Ok (s', st') →
  ∃ lw' idx', running_inv s' st' idx' lw' ls lk ∧ (length (running s') ≤ length (running s))%nat.
Proof.
  revert s st idx lw. induction fuel as [|fuel IH]; intros s st idx lw Hinv H; simpl in H; [done|].
  destruct (running s !! idx) as [id|] eqn:Hid; [|simplify_eq; by exists lw, idx].
  destruct (Z.ltb_spec 0 (token_budget st)) as [Hb|Hb]; [|simplify_eq; by exists lw, idx].
  bind_inv H as [[[stop s1] st1] idx1] E.
  destruct (running_step_ok _ _ _ _ _ _ _ _ _ _ _ _ Hinv Hid Hb E) as (lw1 & Hinv1 & Hl & _).
  destruct stop; [simplify_eq; by exists lw1, idx1|].
  destruct (IH _ _ _ _ Hinv1 H) as (lw2 & idx2 & ? & ?). exists lw2, idx2. split; [done|lia].
Qed.
End loops.
