(* ===== verification/SchedWaiting.v ===== *)
(** * The scheduler: admission of waiting requests

    The second loop of [schedule]: it keeps every request in one place, stays
    within the token budget and the number of running requests. *)

From stdpp Require Import sorting.
From S2P Require Import Prelude OrderedDict KVBlock Request BlockPool KVSpecs Coordinator KVManager EncoderCache RequestQueue SchedUtils SchedState Schedule EncoderStep Termination SchedFrame SchedFacts.

#[local] Open Scope Z_scope.

(** ** Moving requests between the queues and the running list *)

(** Popping the front of a queue. *)
Lemma pop_ok s lw ls lk w x q :
  sched_wf s lw ls lk → pop_request (queue_of s w) = Ok (x, q) →
  ∃ lw' ls', lw ++ ls ≡ₚ x :: (lw' ++ ls') ∧ peek_request (queue_of s w) = Ok x ∧
    any_repr (policy (config s)) (waiting (set_queue_of w q s)) lw' ∧
    any_repr (policy (config s)) (skipped_waiting (set_queue_of w q s)) ls'.
Proof.
  intros [Hw Hs _ _ _ _ _] H. destruct w; cbn [queue_of set_queue_of] in *.
  - pose proof (qr_pop _ _ Hw) as Hp. pose proof (qr_peek _ _ Hw) as Hk.
    destruct lw as [|y lw]; [congruence|]. destruct Hp as (q' & Hp & Hr).
    rewrite H in Hp. simplify_eq. by exists lw, ls.
  - pose proof (qr_pop _ _ Hs) as Hp. pose proof (qr_peek _ _ Hs) as Hk.
    destruct ls as [|y ls]; [congruence|]. destruct Hp as (q' & Hp & Hr).
    rewrite H in Hp. simplify_eq. exists lw, ls. split_and!; try done. by rewrite Permutation_middle.
Qed.

Lemma set_queue_frame w q s :
  config (set_queue_of w q s) = config s ∧ requests (set_queue_of w q s) = requests s ∧
  running (set_queue_of w q s) = running s ∧ pause_state (set_queue_of w q s) = pause_state s ∧
  kv_groups (set_queue_of w q s) = kv_groups s.
Proof. by destruct w. Qed.

(** A queued request is dropped from the places. *)
Lemma wf_drop s s' lw ls lk x lw' ls' :
  sched_wf s lw ls lk → config s' = config s → requests s' = requests s → running s' = running s →
  any_repr (policy (config s)) (waiting s') lw' → any_repr (policy (config s)) (skipped_waiting s') ls' →
  lw ++ ls ≡ₚ x :: (lw' ++ ls') →
  sched_wf s' lw' ls' lk ∧ request_id x ∉ places s' lw' ls' lk.
Proof.
  intros [Hw Hs Hnd Hq Hr Hst Ha] Ec Er Eru Hw' Hs' Hp.
  assert (lw ++ ls ++ lk ≡ₚ x :: (lw' ++ ls' ++ lk)) as Hp' by (rewrite !app_assoc, Hp; done).
  rewrite Hp', fmap_cons, <-Permutation_middle in Hnd. apply NoDup_cons in Hnd as [Hni Hnd].
  unfold places. rewrite Eru. split; [|done]. split; rewrite ?Ec, ?Er, ?Eru; try done.
  intros y Hy. apply Hq. rewrite Hp'. by right.
Qed.

(** A request that is in no place starts to run. *)
Lemma wf_run s lw ls lk r :
  sched_wf s lw ls lk → request_id r ∉ places s lw ls lk → od_get (requests s) (request_id r) = Some r →
  status r = RUNNING → sched_wf (set_running (running s ++ [request_id r]) s) lw ls lk.
Proof.
  intros [Hw Hs Hnd Hq Hr Hst Ha] Hni Hid Hrun. split; simpl; try done.
  - rewrite <-app_assoc. simpl. rewrite <-Permutation_middle. by apply NoDup_cons.
  - intros id. rewrite elem_of_app, list_elem_of_singleton. intros [?| ->]; eauto.
Qed.

Section waiting.
Context {B : Z} {cfg : SchedulerConfig} {ps : PauseState} {P : list string} {R : list (string * Request)}.
Notation phase := (phase B cfg ps P R).

(** The state of the loop; [lk] are the requests set aside. *)
Record waiting_inv (s : Scheduler) (st : StepState) (skipped : any_queue) (lw ls lk : list Request) : Prop := {
  wi_phase : phase s st lw ls lk;
  wi_skipped : any_repr (policy cfg) skipped lk;
  wi_sched : ∀ x, x ∈ (num_scheduled_tokens st).*1 → x ∈ running s;
  wi_running : zlen (running s) ≤ max_num_running_reqs cfg;
}.

Lemma waiting_same s s' st skipped lw ls lk :
  same_table s s' → waiting_inv s st skipped lw ls lk → waiting_inv s' st skipped lw ls lk.
Proof.
  intros Hf [Hph Hk Hs Hr]. split; try done; rewrite ?(st_running _ _ Hf); try done. by apply (phase_same s).
Qed.

Lemma waiting_put s st skipped lw ls lk r0 r :
  waiting_inv s st skipped lw ls lk → od_get (requests s) (request_id r0) = Some r0 → same_plan r0 r →
  status r = status r0 ∨ waits (status r0) ∧ waits (status r) → waiting_inv (put_request r s) st skipped lw ls lk.
Proof. intros [Hph Hk Hs Hr] **. split; try done. by apply (phase_put _ _ _ _ _ r0). Qed.

(** Setting the front of a queue aside. *)
Lemma skip_ok s st skipped lw ls lk w s' skipped' :
  waiting_inv s st skipped lw ls lk → skip_waiting s w skipped = Ok (s', skipped') →
  ∃ lw' ls' lk', waiting_inv s' st skipped' lw' ls' lk' ∧
    (length (lw' ++ ls') < length (lw ++ ls))%nat ∧ running s' = running s.
Proof.
  intros [Hph Hk Hs Hr] H. unfold skip_waiting in H. bind_inv H as [x q] E1. bind_inv H as k E2. simplify_eq.
  pose proof (ph_wf Hph) as Hwf. destruct (pop_ok _ _ _ _ _ _ _ Hwf E1) as (lw' & ls' & Hp & _ & Hw' & Hs').
  destruct (set_queue_frame w q s) as (Ec & Er & Eru & Eps & Egr).
  assert (lw ++ ls ++ lk ≡ₚ lw' ++ ls' ++ (x :: lk)) as Hp'.
  { rewrite !app_assoc, Hp, <-app_comm_cons, <-app_assoc. rewrite <-app_assoc. solve_Permutation. }
  assert (fresh_for lk x) as Hfr.
  { pose proof (wf_objects _ _ _ _ Hwf) as Ho. rewrite Hp', app_assoc in Ho. unfold objects in Ho.
    rewrite fmap_app in Ho. apply NoDup_app in Ho as (_ & _ & Ho). by apply objects_cons in Ho as [? _]. }
  destruct (qr_prepend _ _ _ Hk Hfr) as (k' & Hk' & Hrep). rewrite E2 in Hk'. simplify_eq.
  exists lw', ls', (policy_prepend (policy cfg) lk x).
  assert (lw' ++ ls' ++ policy_prepend (policy cfg) lk x ≡ₚ lw ++ ls ++ lk) as Hp2
    by (by rewrite policy_prepend_perm, Hp').
  split_and!; [|by rewrite Hp; simpl; lia|done].
  destruct Hph as [_ Hst Hpl Hkeys Hkept Hreq Hfit Hc Hps Hgr]. split; rewrite ?Eru; try done.
  split; unfold fits; rewrite ?Er, ?Eru, ?Ec, ?Eps, ?Egr; try done.
  - by eapply wf_requeue.
  - unfold places in *. by rewrite Eru, Hp2.
Qed.

(** A request that starts to run with [c] computed tokens. *)
Lemma admitted_ok r c n :
  req_ok cfg r → 0 < n → c + n ≤ num_tokens r → req_ok cfg (set_num_computed_tokens c (set_status RUNNING r)).
Proof.
  intros [H1 H2 H3 H4 H5] Hn Hc. split; try done; simpl;
    change (num_tokens (set_num_computed_tokens c (set_status RUNNING r))) with (num_tokens r); lia.
Qed.

(** Admitting the front of a queue. *)
(** What admission changes: the request runs, and the plan lists it with its
    tokens. *)
Lemma admit_request_Ok s st r n c r' s' st' :
  admit_request s st r n c = Ok (r', s', st') →
  let s1 := put_request (set_num_computed_tokens c (set_status RUNNING r)) (set_running (running s ++ [request_id r]) s) in
  (s' = s1 ∨ s' = set_inflight ({[request_id r]} ∪ inflight_prefills s1) s1) ∧
  num_scheduled_tokens st' = od_set (num_scheduled_tokens st) (request_id r) n ∧
  token_budget st' = token_budget st - n ∧
  scheduled_running_reqs st' ++ scheduled_new_reqs st' ++ scheduled_resumed_reqs st' ≡ₚ
    request_id r :: (scheduled_running_reqs st ++ scheduled_new_reqs st ++ scheduled_resumed_reqs st) ∧
  scheduled_spec_decode_tokens st' = scheduled_spec_decode_tokens st.
Proof.
  unfold admit_request. intros H. bind_inv H as st1 E. injection H as <- <- <-.
  split; [destruct (_ <? _); [by right|by left]|].
  destruct (status r); simplify_eq; destruct (max_loras _), (lora_request r); simpl;
    split_and!; try done; solve_Permutation.
Qed.

Lemma admit_ok s st skipped lw ls lk w x q r n c r' s' st' :
  waiting_inv s st skipped lw ls lk → pop_request (queue_of s w) = Ok (x, q) →
  request_id r = request_id x → od_get (requests s) (request_id x) = Some r →
  0 < n ≤ token_budget st → c + n ≤ num_tokens r → zlen (running s) < max_num_running_reqs cfg →
  admit_request (set_queue_of w q s) st r n c = Ok (r', s', st') →
  ∃ lw' ls', waiting_inv s' st' skipped lw' ls' lk ∧ (length (lw' ++ ls') < length (lw ++ ls))%nat.
Proof.
  intros [Hph Hk Hs Hr] E1 Eid Hget Hn Hcn Hlt H.
  pose proof (ph_wf Hph) as Hwf. destruct (pop_ok _ _ _ _ _ _ _ Hwf E1) as (lw' & ls' & Hp & _ & Hw' & Hs').
  destruct (set_queue_frame w q s) as (Ec & Er & Eru & Eps & Egr). set (s0 := set_queue_of w q s) in *.
  destruct (wf_drop s s0 lw ls lk x lw' ls' Hwf Ec Er Eru Hw' Hs' Hp) as [Hwf0 Hni].
  destruct (admit_request_Ok _ _ _ _ _ _ _ _ H) as (Es' & F1 & F2 & F3 & F4).
  set (r1 := set_num_computed_tokens c (set_status RUNNING r)) in *.
  assert (request_id r1 = request_id x) as Eid1 by done.
  assert (sched_wf (put_request r1 (set_running (running s0 ++ [request_id r]) s0)) lw' ls' lk) as Hwf1.
  { apply (wf_run (put_request r1 s0) lw' ls' lk r1).
    - unfold places in Hni. apply not_elem_of_app in Hni as [Hn1 Hn2].
      apply (wf_put _ _ _ _ r); rewrite ?Eid1, ?Er; try done; by intros ?%Hn2.
    - by rewrite Eid1.
    - simpl. rewrite od_get_set. by rewrite decide_True.
    - done. }
  assert (request_id r ∉ running s) as Hnr.
  { rewrite Eid. intros Hin. apply Hni. unfold places. rewrite Eru. set_solver. }
  assert (running s0 ++ [request_id r] = running s ++ [request_id x]) as Erun by (by rewrite Eru, Eid).
  exists lw', ls'. split; [|rewrite Hp; simpl; lia].
  apply (waiting_same (put_request r1 (set_running (running s0 ++ [request_id r]) s0)) s');
    [by destruct Es' as [-> | ->]|].
  split; try done.
  - pose proof (admitted_ok r c n (ph_req Hph _ _ Hget) ltac:(lia) Hcn) as Hok.
    assert (request_id r ∉ (num_scheduled_tokens st).*1) as Hns by (by intros ?%Hs).
    destruct Hph as [_ Hst Hpl Hkeys Hkept Hreq Hfit Hc Hps Hgr]. split; try done; simpl; try congruence.
    + by apply (step_note st _ (request_id r) n).
    + rewrite <-Hpl. unfold places. simpl. rewrite Erun.
      rewrite (app_assoc lw ls lk), Hp, <-app_comm_cons, fmap_cons, !fmap_app. solve_Permutation.
    + rewrite Er, od_set_same_keys; [done|]. by rewrite Eid, Hget.
    + rewrite Er. apply (kept_set R _ r r1 Hkept); [by rewrite Eid1|done].
    + intros id r2. rewrite od_get_set, Er. case_decide; [|by apply Hreq]. by intros [= <-].
    + pose proof (rk_placeholders _ _ Hok : 0 ≤ num_output_placeholders r) as Hok0.
      pose proof (rk_tokens _ _ Hok : num_tokens r + _ ≤ _) as Hok1.
      pose proof (zlen_nonneg (default [] (od_get (scheduled_spec_decode_tokens st) (request_id r)))). apply (fits_note _ _ st _ (request_id r) n r1); rewrite ?F4; try done.
      * eapply fits_table; [exact Hfit|]. intros id r2 Hid Hr2. exists r2. split; [|done].
        simpl. rewrite od_get_set, Er, decide_False by congruence. done.
      * simpl. rewrite od_get_set. by rewrite decide_True.
      * change (c + n ≤ num_tokens r + num_output_placeholders r + zlen (default [] (od_get (scheduled_spec_decode_tokens st) (request_id r)))). lia.
      * change (num_computed_tokens r1) with c. lia.
    + change (positive_sizes (kv_groups s0)). by rewrite Egr.
  - intros y. rewrite F1, od_set_keys. change (running _) with (running s0 ++ [request_id r]).
    rewrite Erun, elem_of_app. destruct (decide (request_id r ∈ _)); [intros ?; left; by apply Hs|].
    rewrite elem_of_app, Eid. intros [?|?]; [left; by apply Hs|by right].
  - simpl. rewrite Erun, zlen_app. unfold zlen in *. simpl. lia.
Qed.
(** A blocked request may become an ordinary one. *)
Lemma promote_ok grammar_ready s st skipped lw ls lk r b s' :
  waiting_inv s st skipped lw ls lk → od_get (requests s) (request_id r) = Some r →
  (if _is_blocked_waiting_status (status r) then
     '(promoted, s) ← _try_promote_blocked_waiting_request grammar_ready s r; Ok (negb promoted, s)
   else Ok (false, s)) = Ok (b, s') →
  waiting_inv s' st skipped lw ls lk ∧ (∀ w, queue_of s' w = queue_of s w) ∧ running s' = running s.
Proof.
  intros Hinv Hr H. case_inv H as Eb; [|by simplify_eq]. bind_inv H as [p s1] E. simplify_eq.
  unfold _try_promote_blocked_waiting_request in E. destruct (status r) eqn:Es; try done; simplify_eq.
  - case_inv E as Eg; simplify_eq; [|done]. split; [|by split; [intros []|]].
    apply (waiting_put _ _ _ _ _ _ r); try done. right. by rewrite Es.
  - done.
  - bind_inv E as u E1. by simplify_eq.
Qed.

Lemma cached_prefix_frame s r bs n hint s' : cached_prefix s r = Ok (bs, n, hint, s') → same_table s s'.
Proof.
  unfold cached_prefix. intros H. case_inv H as E; [|by simplify_eq].
  bind_inv H as [[b m] k] E1. apply get_computed_blocks_groups in E1. bind_inv H as u E2. by simplify_eq.
Qed.

Lemma same_queue s s' w : same_table s s' → queue_of s' w = queue_of s w.
Proof. intros []. by destruct w. Qed.

(** The request at the front asks for slots and is admitted if it gets them. *)
Lemma grant_ok sha set_iter s st skipped lw ls lk w front r n a b inputs nb stop s' st' skipped' :
  waiting_inv s st skipped lw ls lk → peek_request (queue_of s w) = Ok front →
  od_get (requests s) (request_id front) = Some r → 0 < n ≤ token_budget st → b + n ≤ num_tokens r →
  zlen (running s) < max_num_running_reqs cfg →
  ('(new_blocks, k, r) ← allocate_slots sha (kv_cache_manager s) r n a;
   let s := put_request r (set_kv k s) in
   match new_blocks with
   | None =>
       s ← (if has_encoder_inputs r
            then e ← em_free set_iter (encoder_cache_manager s) r; Ok (set_encoder e s) else Ok s);
       Ok (true, s, st, skipped)
   | Some _ =>
       '(_, q) ← pop_request (queue_of s w);
       let s := set_queue_of w q s in
       '(r, s, st) ← admit_request s st r n b;
       '(s, st) ← allocate_encoder_inputs s st r inputs nb;
       Ok (false, s, st, skipped)
   end) = Ok (stop, s', st', skipped') →
  ∃ lw' ls', waiting_inv s' st' skipped' lw' ls' lk ∧
    (stop = false → (length (lw' ++ ls') < length (lw ++ ls))%nat).
Proof.
  intros Hinv Hpeek Hr Hn Hbn Hlt H. bind_inv H as [[bs k] r1] E1. apply allocate_slots_memo in E1 as Hm.
  apply allocate_slots_groups in E1 as Hg.
  pose proof (wf_store _ _ _ _ (ph_wf (wi_phase _ _ _ _ _ _ Hinv)) _ _ Hr) as Hid.
  set (s1 := put_request r1 (set_kv k s)) in *.
  assert (request_id r1 = request_id front) as Hid1 by (by destruct Hm as [m ->]).
  assert (waiting_inv s1 st skipped lw ls lk) as Hinv1.
  { destruct Hm as [m ->]. apply (waiting_put _ _ _ _ _ _ r); try done; [by apply (waiting_same s)| |by left].
    simpl. by rewrite Hid. }
  destruct bs as [bs|].
  - bind_inv H as [x q] E2. bind_inv H as [[r2 s2] st2] E3. bind_inv H as [s3 st3] E4. simplify_eq.
    destruct (pop_ok _ _ _ _ _ _ _ (ph_wf (wi_phase _ _ _ _ _ _ Hinv1)) E2) as (_ & _ & _ & Hpk & _).
    assert (x = front) as ->.
    { assert (queue_of s1 w = queue_of s w) as Eq by (by destruct w). rewrite Eq in Hpk. congruence. }
    destruct (admit_ok s1 st skipped' lw ls lk w front q r1 n b r2 s2 st2) as (lw' & ls' & Hinv2 & Hlen); try done.
    { simpl. rewrite od_get_set. by rewrite decide_True. }
    { destruct Hm as [m ->]. exact Hbn. }
    apply (encoder_inputs_frame (B:=B)) in E4 as (Hf & Hst & _ & _ & _ & _ & Espec & Ekeys).
    exists lw', ls'. split; [|done]. apply (waiting_same s2); [done|].
    destruct Hinv2 as [Hph2 Hk2 Hs2 Hr2]. split; try done; [|by rewrite Ekeys].
    apply (phase_step _ st2); [apply Hst, Hph2| |done]. pose proof (ph_fits Hph2) as Hfit.
    unfold fits in *. by rewrite Ekeys, Espec.
  - exists lw, ls. bind_inv H as s2 E2. simplify_eq. split; [|done]. apply (waiting_same s1); [|done].
    case_inv E2 as Ee; [|by simplify_eq]. bind_inv E2 as e E3. by simplify_eq.
Qed.

Lemma waiting_step_ok sha set_iter grammar_ready defer s st skipped lw ls lk stop s' st' skipped' :
  config_ok cfg → waiting_inv s st skipped lw ls lk → zlen (running s) ≠ max_num_running_reqs cfg →
  waiting_step sha set_iter grammar_ready defer s st skipped = Ok (stop, s', st', skipped') →
  ∃ lw' ls' lk', waiting_inv s' st' skipped' lw' ls' lk' ∧
    (stop = false → (length (lw' ++ ls') < length (lw ++ ls))%nat).
Proof.
  intros Hcfg Hinv Hmax H. unfold waiting_step in H. bind_inv H as w E1. destruct w as [w|]; [|done].
  bind_inv H as front E2. bind_inv H as r0 E3. apply get_request_Ok in E3. bind_inv H as [blocked s1] E4.
  pose proof (wf_store _ _ _ _ (ph_wf (wi_phase _ _ _ _ _ _ Hinv)) _ _ E3) as Hid0.
  destruct (promote_ok _ _ _ _ _ _ _ _ _ _ Hinv ltac:(by rewrite Hid0) E4) as (Hinv1 & Hq1 & Hrun1).
  case_inv H as Eb.
  { bind_inv H as [s2 k2] E5. simplify_eq. destruct (skip_ok _ _ _ _ _ _ _ _ _ Hinv1 E5) as (lw' & ls' & lk' & ? & ? & _).
    by exists lw', ls', lk'. }
  bind_inv H as r E5. apply get_request_Ok in E5. case_inv H as El.
  { bind_inv H as [s2 k2] E6. simplify_eq. destruct (skip_ok _ _ _ _ _ _ _ _ _ Hinv1 E6) as (lw' & ls' & lk' & ? & ? & _).
    by exists lw', ls', lk'. }
  bind_inv H as [[[hits m] hint] s2] E6. apply cached_prefix_frame in E6 as Hf2.
  pose proof (waiting_same _ _ _ _ _ _ _ Hf2 Hinv1) as Hinv2.
  assert (∀ s3, same_table s2 s3 → ∃ lw' ls' lk', waiting_inv s3 st skipped lw' ls' lk' ∧
    (true = false → (length (lw' ++ ls') < length (lw ++ ls))%nat)) as Hstop.
  { intros s3 Hf3. exists lw, ls, lk. split; [by apply (waiting_same s2)|done]. }
  rewrite !(ph_config (wi_phase _ _ _ _ _ _ Hinv)) in H.
  case_inv H as E7; [simplify_eq; by apply Hstop|]. case_inv H as E8; [simplify_eq; by apply Hstop|].
  bind_inv H as u E9. apply py_assert_Ok in E9. bind_inv H as [[[inputs n] nb] e] E10.
  case_inv H as E11; [simplify_eq; by apply Hstop|].
  set (n1 := if need_mamba_block_aligned_split _ then _ else n) in H.
  case_inv H as E12; [simplify_eq; by apply Hstop|]. bind_inv H as ne E13.
  set (c := if num_computed_tokens r =? 0 then m else num_computed_tokens r) in *.
  set (n0 := Z.min _ (token_budget st)) in *.
  assert (n0 ≤ num_tokens r - c ∧ n0 ≤ token_budget st) as [Hn0 Hn0'].
  { unfold n0. destruct (Z.ltb_spec 0 (long_prefill_token_threshold cfg)); simpl; [|lia].
    destruct (Z.ltb_spec (long_prefill_token_threshold cfg) (num_tokens r - c)); lia. }
  assert (0 < n1 ≤ n0) as Hn1.
  { assert (0 < n ≤ n0) as Hn.
    { case_inv E10 as Ee; [|simplify_eq; lia]. apply encoder_tokens_bound in E10; [|..|lia].
      - simpl in E11. lia.
      - apply (ph_req (wi_phase _ _ _ _ _ _ Hinv1) _ _ E5). }
    unfold n1 in *. destruct (need_mamba_block_aligned_split cfg) eqn:Em; [|lia].
    pose proof (mamba_split_bound cfg r n m 0 hint (co_block _ Hcfg Em)). simpl in E12. lia. }
  assert (peek_request (queue_of (set_encoder e s2) w) = Ok front) as Hpk.
  { rewrite (same_queue s2), (same_queue s1), Hq1 by done. done. }
  assert (od_get (requests (set_encoder e s2)) (request_id front) = Some r) as Hget
    by (simpl; by rewrite (st_requests _ _ Hf2)).
  assert (zlen (running (set_encoder e s2)) < max_num_running_reqs cfg) as Hlt.
  { simpl. rewrite (st_running _ _ Hf2), Hrun1. pose proof (wi_running _ _ _ _ _ _ Hinv). lia. }
  assert (waiting_inv (set_encoder e s2) st skipped lw ls lk) as Hinv3 by (by apply (waiting_same s2)).
  assert (0 < n1 ≤ token_budget st) as Hb1 by lia. assert (c + n1 ≤ num_tokens r) as Hb2 by lia.
  destruct (grant_ok _ _ _ _ _ _ _ _ _ _ _ _ _ _ _ _ _ _ _ _ Hinv3 Hpk Hget Hb1 Hb2 Hlt H) as (lw' & ls' & Hinv' & Hlen).
  by exists lw', ls', lk.
Qed.

Lemma waiting_loop_ok sha set_iter grammar_ready fuel defer s st skipped lw ls lk s' st' skipped' :
  config_ok cfg → waiting_inv s st skipped lw ls lk →
  waiting_loop sha set_iter grammar_ready fuel defer s st skipped = Ok (s', st', skipped') →
  ∃ lw' ls' lk', waiting_inv s' st' skipped' lw' ls' lk'.
Proof.
  intros Hcfg. revert s st skipped lw ls lk. induction fuel as [|fuel IH]; intros s st skipped lw ls lk Hinv H;
    simpl in H; [done|].
  case_inv H as Eg; [|simplify_eq; eauto]. bind_inv H as [[[stop s1] st1] k1] E.
  apply andb_prop in Eg as [_ Em]. rewrite (ph_config (wi_phase _ _ _ _ _ _ Hinv)) in Em.
  destruct (waiting_step_ok _ _ _ _ _ _ _ _ _ _ _ _ _ _ Hcfg Hinv ltac:(lia) E) as (lw1 & ls1 & lk1 & Hinv1 & _).
  destruct stop; [simplify_eq; eauto|]. by eapply IH.
Qed.

Lemma schedule_waiting_ok sha set_iter grammar_ready defer s st lw ls s' st' :
  config_ok cfg → waiting_inv s st (create_request_queue (policy cfg)) lw ls [] →
  schedule_waiting sha set_iter grammar_ready defer s st = Ok (s', st') →
  ∃ lw' ls', waiting_inv s' st' (create_request_queue (policy cfg)) lw' ls' [].
Proof.
  intros Hcfg Hinv H. unfold schedule_waiting in H. bind_inv H as [[s1 st1] k1] E1.
  rewrite (ph_config (wi_phase _ _ _ _ _ _ Hinv)) in E1.
  destruct (waiting_loop_ok _ _ _ _ _ _ _ _ _ _ _ _ _ _ Hcfg Hinv E1) as (lw1 & ls1 & lk1 & Hinv1).
  bind_inv H as s2 E2.
  assert (∃ lw' ls', waiting_inv s2 st1 (create_request_queue (policy cfg)) lw' ls' []) as (lw2 & ls2 & Hinv2).
  { destruct Hinv1 as [Hph Hk Hs Hr]. rewrite (qr_bool _ _ Hk) in E2.
    case_bool_decide as Ek; [|injection E2 as <-; subst;
      exists lw1, ls1; split; try done; apply create_repr].
    bind_inv E2 as rs E3. bind_inv E2 as q E4. injection E2 as <-.
    rewrite (qr_iter _ _ Hk) in E3. injection E3 as <-.
    pose proof (ph_wf Hph) as Hwf. pose proof (wf_skipped _ _ _ _ Hwf) as Hsk.
    destruct (qr_prepends _ _ lk1 Hsk) as (q' & Hq' & Hrep).
    { pose proof (wf_objects _ _ _ _ Hwf) as Ho. unfold objects in *. rewrite fmap_app in Ho.
      apply NoDup_app in Ho as (_ & _ & Ho). by rewrite Permutation_app_comm. }
    rewrite E4 in Hq'. simplify_eq. set (ls2 := foldl _ _ _) in Hrep.
    assert (lw1 ++ ls2 ++ [] ≡ₚ lw1 ++ ls1 ++ lk1) as Hp.
    { unfold ls2. rewrite app_nil_r, prepend_all_perm. by rewrite (Permutation_app_comm lk1). }
    exists lw1, ls2. split; try done; [|apply create_repr].
    destruct Hph as [_ Hst Hpl Hkeys Hkept Hreq Hfit Hc Hps Hgr]. split; try done.
    - eapply wf_requeue; try done. apply Hwf.
    - unfold places in *. simpl. by rewrite Hp. }
  injection H as <- <-. exists lw2, ls2. by destruct defer; [|apply (waiting_same s2)].
Qed.
End waiting.
