(* ===== verification/SchedTheorems.v ===== *)
(** * The scheduler: theorems about a scheduling step

    The checks at the end of [schedule] hold, no request is lost or queued twice,
    and the loops end. *)

From Stdlib Require Import QArith.
From S2P Require Import Prelude OrderedDict KVBlock Request BlockPool KVSpecs Coordinator KVManager EncoderCache RequestQueue SchedUtils SchedState Schedule EncoderStep Termination SchedFrame SchedFacts SchedWaiting.

#[local] Open Scope Z_scope.

(** ** Both loops *)

(** A scheduler between two steps: every known request is in one place, the running
    ones are not too many, and no request has more tokens than the model takes or
    has computed more than its tokens. *)
Record sched_ready (s : Scheduler) (lw ls : list Request) : Prop := {
  sr_wf : sched_wf s lw ls [];
  sr_config : config_ok (config s);
  sr_running : zlen (running s) ≤ max_num_running_reqs (config s);
  sr_keys : (requests s).*1 ≡ₚ places s lw ls [];
  sr_req : ∀ id r, od_get (requests s) id = Some r → req_ok (config s) r;
  sr_groups : positive_sizes (kv_groups s);
}.

Lemma step_init_inv s s0 lw ls :
  sched_ready s lw ls → same_table s s0 →
  running_inv (token_budget (init_step s)) (config s) (pause_state s) (places s lw ls [])
    (requests s) s0 (init_step s) 0 lw ls [].
Proof.
  intros [Hwf Hc Hr Ha Hm Hg] Hf. split; try done. eapply phase_same; [done|].
  split; try done; [|by intros id r ?; exists r|by intros id n ?%elem_of_nil]. split; simpl; try done; [by apply NoDup_nil_2|..].
  - unfold total_tokens. simpl. lia.
  - case_bool_decide; [done|]. apply Hc.
  - by intros id n ?%elem_of_nil.
Qed.

(** The state after the running requests is one the waiting loop can start in. *)
Lemma running_to_waiting B cfg ps P R s st idx lw ls :
  running_inv B cfg ps P R s st idx lw ls [] → zlen (running s) ≤ max_num_running_reqs cfg →
  waiting_inv (B:=B) (cfg:=cfg) (ps:=ps) (P:=P) (R:=R) s st (create_request_queue (policy cfg)) lw ls [].
Proof.
  intros [Hph Hs Hn Hr] Hmax. split; try done.
  - apply create_repr.
  - intros x. rewrite (sk_keys _ _ (ph_step Hph)), Hn, Hr, !app_nil_r. intros Hx%Hs.
    apply elem_of_take in Hx as (i & Hi & _). by eapply list_elem_of_lookup_2.
Qed.

Lemma running_loras_frame B s st st' :
  running_loras s st = Ok st' → step_ok B st →
  step_ok B st' ∧ num_scheduled_tokens st' = num_scheduled_tokens st ∧
  scheduled_spec_decode_tokens st' = scheduled_spec_decode_tokens st.
Proof.
  unfold running_loras. intros H Hst. destruct (max_loras (config s)); [|by simplify_eq].
  bind_inv H as l E1. bind_inv H as u E2. injection H as <-. by destruct Hst.
Qed.

Lemma schedule_requests_ok sha set_iter grammar_ready throttle s lw ls s' st :
  sched_ready s lw ls →
  schedule_requests sha set_iter grammar_ready throttle s = Ok (s', st) →
  ∃ lw' ls', waiting_inv (B:=token_budget (init_step s)) (cfg:=config s) (ps:=pause_state s)
    (P:=places s lw ls []) (R:=requests s) s' st (create_request_queue (policy (config s))) lw' ls' [].
Proof.
  intros Hready H. unfold schedule_requests in H. bind_inv H as decoding E1. bind_inv H as [s1 st1] E2.
  bind_inv H as st2 E3. set (s0 := set_kv _ _) in *.
  change (init_step (set_step _ _ s)) with (init_step s) in E2.
  destruct (running_loop_ok sha set_iter _ _ _ _ _ (sr_config _ _ _ Hready) _ _ _ _ _ _ _ _ _ _
    (step_init_inv s s0 lw ls Hready ltac:(done)) E2) as (lw1 & idx1 & Hinv1 & Hlen).
  apply running_to_waiting in Hinv1.
  2:{ pose proof (sr_running _ _ _ Hready). unfold zlen in *. simpl in Hlen. lia. }
  destruct (running_loras_frame _ _ _ _ E3 (ph_step (wi_phase _ _ _ _ _ _ Hinv1))) as (Hst2 & Ek & Es).
  assert (waiting_inv (B:=token_budget (init_step s)) (cfg:=config s) (ps:=pause_state s)
    (P:=places s lw ls []) (R:=requests s) s1 st2 (create_request_queue (policy (config s))) lw1 ls []) as Hinv2.
  { destruct Hinv1 as [Hph Hk Hs Hr]. split; try done; [|by rewrite Ek].
    apply (phase_step _ st1); try done. pose proof (ph_fits Hph). unfold fits in *. by rewrite Ek, Es. }
  case_inv H as Ew; [|simplify_eq; eauto]. eapply schedule_waiting_ok; [apply Hready|done|done].
Qed.

(** The assertions after the loops hold. *)
Lemma constraints_hold s lw ls s' st lw' ls' :
  sched_ready s lw ls →
  waiting_inv (B:=token_budget (init_step s)) (cfg:=config s) (ps:=pause_state s)
    (P:=places s lw ls []) (R:=requests s) s' st (create_request_queue (policy (config s))) lw' ls' [] →
  check_constraints s' st = Ok tt.
Proof.
  intros Hready [Hph _ Hs Hr]. destruct (ph_step Hph) as [Hnd Hk Hb H0 Hpos]. unfold check_constraints.
  rewrite (ph_config Hph).
  assert (token_budget (init_step s) ≤ max_num_scheduled_tokens (config s)) as Hmax.
  { simpl. pose proof (co_tokens _ (sr_config _ _ _ Hready)). by case_bool_decide. }
  assert (zlen (scheduled_new_reqs st) + zlen (scheduled_resumed_reqs st) + zlen (scheduled_running_reqs st)
    ≤ zlen (running s')) as Hlen.
  { pose proof (submseteq_length _ _ (NoDup_submseteq _ _ Hnd Hs)) as Hl. rewrite Hk, !length_app in Hl.
    unfold zlen. lia. }
  unfold py_assert. rewrite !(proj2 (Z.leb_le _ _)) by lia. done.
Qed.

(** C4: whenever the two loops of [schedule] return, the assertions that follow
    them hold: the scheduled tokens are within the limit and the budget is not
    overdrawn, there are not too many running requests and no more scheduled
    ones; every scheduled request is running, scheduled once, with a positive
    number of tokens that are known tokens, placeholders or scheduled draft
    tokens and stay within the model length; and every request that was waiting or running still is,
    in exactly one place with a status that says which. *)
Theorem schedule_constraints sha set_iter grammar_ready throttle s lw ls s' st :
  sched_ready s lw ls →
  schedule_requests sha set_iter grammar_ready throttle s = Ok (s', st) →
  check_constraints s' st = Ok tt ∧
  NoDup (num_scheduled_tokens st).*1 ∧
  (∀ id n, (id, n) ∈ num_scheduled_tokens st → 0 < n ∧ id ∈ running s' ∧
     ∃ r, od_get (requests s') id = Some r ∧
       num_computed_tokens r + n ≤ num_tokens r + num_output_placeholders r
         + zlen (default [] (od_get (scheduled_spec_decode_tokens st) id)) ∧
       num_computed_tokens r + n + num_sampled_tokens_per_step (config s) ≤ sc_max_model_len (config s)) ∧
  ∃ lw' ls', sched_wf s' lw' ls' [] ∧
    running s' ++ (request_id <$> lw' ++ ls') ≡ₚ running s ++ (request_id <$> lw ++ ls).
Proof.
  intros Hready H. destruct (schedule_requests_ok _ _ _ _ _ _ _ _ _ Hready H) as (lw' & ls' & Hinv).
  destruct Hinv as [Hph Hq Hs Hr] eqn:Einv. clear Einv.
  split_and!; [by eapply constraints_hold|apply (ph_step Hph)| |].
  - intros id n Hin. split_and!; [by eapply (sk_pos _ _ (ph_step Hph))| |by apply (ph_fits Hph)].
    apply Hs. by apply (list_elem_of_fmap_2 fst) in Hin.
  - exists lw', ls'. pose proof (ph_places Hph) as Hpl. split; [apply Hph|]. unfold places in Hpl. by rewrite !app_nil_r in Hpl.
Qed.

(** ** The loops end

    Every round of a loop schedules, skips, admits, sets aside or preempts a
    request, so the fuel of the loops is never used up. *)

(** Composition where the rest depends on the result. *)
Lemma ends_bind_eq {A B} (m : result A) (k : A → result B) :
  ends m → (∀ a, m = Ok a → ends (k a)) → ends (m ≫= k).
Proof. unfold ends. destruct m; simpl; [naive_solver|]. intros H _. congruence. Qed.

(** [ends_next x E]: the first call ends, with result [x]. *)
Tactic Notation "ends_next" simple_intropattern(x) ident(E) :=
  apply ends_bind_eq; [solve [ends] | intros x E; cbv beta iota].

Lemma max_request_ends s best ids : ends (max_request s best ids).
Proof. revert best. induction ids as [|id ids IH]; intros; simpl; ends. Qed.

Lemma take_victim_ends s st idx : ends (take_victim s st idx).
Proof. pose proof max_request_ends. unfold take_victim, unschedule. ends. Qed.
#[local] Hint Resolve take_victim_ends : ends.

(** ** Preemption *)

Lemma preempt_ends set_iter s lw ls lk r :
  sched_wf s lw ls lk → od_get (requests s) (request_id r) = Some r →
  request_id r ∉ running s ++ (request_id <$> lw ++ ls ++ lk) → ends (_preempt_request set_iter s r).
Proof.
  intros Hwf Hr Hid. unfold _preempt_request. ends_next u E0. ends_next s1 E1. ends_next e E2.
  apply ends_bind; [|ends]. apply free_request_blocks_frame in E1 as Hf.
  destruct Hf as [Ec Er Ew Es Eru Ep Eg].
  assert (fresh_for lw (preempted r)) as Hfr.
  { eapply (wf_fresh s _ _ _ r); [done|done|set_solver|set_solver]. }
  pose proof (wf_waiting _ _ _ _ Hwf) as Hw. rewrite <-Ew in Hw.
  destruct (qr_prepend _ _ (preempted r) Hw Hfr) as (q & Hq & _).
  change (ends (prepend_request (waiting s1) (preempted r))). by rewrite Hq.
Qed.

Section loops.
Context (sha : list bytes → bytes) (set_iter : gset nat → list nat) (grammar_ready : Request → bool).
Context (B : Z) (cfg : SchedulerConfig) (ps : PauseState) (P : list string)
  (R : list (string * Request)) (Hcfg : config_ok cfg).

Lemma allocate_loop_ends fuel s st idx id n lw ls lk :
  phase B cfg ps P R s st lw ls lk → place_ok s st idx id → scheduled_new_reqs st = [] → scheduled_resumed_reqs st = [] →
  (length (running s) < fuel)%nat →
  ends (allocate_loop sha set_iter fuel s st idx id n).
Proof.
  revert s st idx lw. induction fuel as [|fuel IH]; intros s st idx lw Hph Hpl En Er Hf; cbn [allocate_loop]; [lia|].
  ends_next r E1. ends_next [[bs k] r1] E2. destruct bs as [bs|]; [done|].
  apply get_request_Ok in E1. pose proof (wf_store _ _ _ _ (ph_wf Hph) _ _ E1) as Hid.
  apply allocate_slots_groups in E2 as Hg. apply allocate_slots_memo in E2.
  set (s1 := put_request r1 (set_kv k s)) in *.
  assert (phase B cfg ps P R s1 st lw ls lk) as Hph1.
  { apply (phase_memo _ _ _ _ _ r); [by apply (phase_same s)|by rewrite Hid|done]. }
  assert (place_ok s1 st idx id) as Hpl1 by (by destruct Hpl).
  ends_next [[[v s2] st2] idx2] E3.
  destruct (take_victim_ok B _ _ _ _ _ _ _ _ _ _ _ (ph_wf Hph1) (ph_step Hph1) Hpl1 E3)
    as ([Es2 Hvr Hv _ _ _ _ _] & _ & _).
  destruct (wf_take_running _ _ _ _ _ (ph_wf Hph1) Hvr) as [Hwf2 Hni].
  apply ends_bind_eq; [rewrite Es2; by eapply preempt_ends|]. intros s3 E4. case_bool_decide as Ev; [done|].
  destruct (victim_round set_iter _ _ _ _ _ _ _ _ _ _ _ _ Hph1 Hpl1 En Er E3 E4)
    as (lw' & Hph3 & Hgb & Hlen & _ & _ & Hpl3). change (running s1) with (running s) in Hlen.
  apply (IH _ _ _ lw'); [done|by apply Hpl3|by rewrite (gb_new _ _ Hgb)|by rewrite (gb_resumed _ _ Hgb)|lia].
Qed.

Lemma running_step_ends defer s st idx id lw ls lk :
  running_inv B cfg ps P R s st idx lw ls lk → running s !! idx = Some id →
  ends (running_step sha set_iter defer s st idx id).
Proof.
  intros Hinv Hid. pose proof (running_place B cfg ps P R _ _ _ _ _ _ _ Hinv Hid) as Hpl.
  pose proof (ri_phase _ _ _ _ _ _ _ _ _ _ _ Hinv) as Hph.
  unfold running_step. ends_next r E1. case_match; [done|]. ends_next [[[inputs n] nb] e] E2.
  destruct (_ =? 0); [done|].
  apply ends_bind; [|intros [[[bs s1] st1] idx1]; ends].
  eapply allocate_loop_ends; [by apply (phase_same s)|by destruct Hpl|apply Hinv..|simpl; lia].
Qed.

Lemma running_loop_ends fuel defer s st idx lw ls lk :
  running_inv B cfg ps P R s st idx lw ls lk → (length (running s) - idx < fuel)%nat →
  ends (running_loop sha set_iter fuel defer s st idx).
Proof.
  revert s st idx lw. induction fuel as [|fuel IH]; intros s st idx lw Hinv Hf; cbn [running_loop]; [lia|].
  destruct (running s !! idx) as [id|] eqn:Hid; [|done].
  destruct (Z.ltb_spec 0 (token_budget st)) as [Hb|Hb]; [|done].
  apply ends_bind_eq; [by eapply running_step_ends|]. intros [[[stop s1] st1] idx1] E.
  destruct (running_step_ok sha set_iter B cfg ps P R Hcfg _ _ _ _ _ _ _ _ _ _ _ _ Hinv Hid Hb E)
    as (lw1 & Hinv1 & _ & Hm).
  destruct stop; [done|]. apply (IH _ _ _ lw1); [done|]. specialize (Hm eq_refl). lia.
Qed.

(** ** Admission *)

Lemma peek_ends s lw ls lk w : sched_wf s lw ls lk → ends (peek_request (queue_of s w)).
Proof.
  intros [Hw Hs _ _ _ _ _]. destruct w; cbn [queue_of].
  - rewrite (qr_peek _ _ Hw). by destruct lw.
  - rewrite (qr_peek _ _ Hs). by destruct ls.
Qed.

Lemma pop_ends s lw ls lk w : sched_wf s lw ls lk → ends (pop_request (queue_of s w)).
Proof.
  intros [Hw Hs _ _ _ _ _]. destruct w; cbn [queue_of].
  - pose proof (qr_pop _ _ Hw). destruct lw; [congruence|]. destruct H as (q & -> & _). done.
  - pose proof (qr_pop _ _ Hs). destruct ls; [congruence|]. destruct H as (q & -> & _). done.
Qed.

Lemma select_ends s lw ls lk : sched_wf s lw ls lk → ends (_select_waiting_queue_for_scheduling s).
Proof.
  intros Hwf. pose proof (peek_ends s lw ls lk FromWaiting Hwf). pose proof (peek_ends s lw ls lk FromSkipped Hwf).
  unfold _select_waiting_queue_for_scheduling. cbn [queue_of] in *. ends.
Qed.

Lemma skip_ends s st skipped lw ls lk w :
  waiting_inv (B:=B) (cfg:=cfg) (ps:=ps) (P:=P) (R:=R) s st skipped lw ls lk → ends (skip_waiting s w skipped).
Proof.
  intros [Hph Hk Hs Hr]. pose proof (ph_wf Hph) as Hwf. unfold skip_waiting.
  apply ends_bind_eq; [by eapply pop_ends|]. intros [x q] E1. cbv beta iota.
  destruct (pop_ok _ _ _ _ _ _ _ Hwf E1) as (lw' & ls' & Hp & _).
  assert (fresh_for lk x) as Hfr.
  { pose proof (wf_objects _ _ _ _ Hwf) as Ho. rewrite app_assoc, Hp, <-app_comm_cons in Ho.
    apply objects_cons in Ho as [Ho _]. unfold fresh_for in *. set_solver. }
  destruct (qr_prepend _ _ _ Hk Hfr) as (q' & -> & _). done.
Qed.

Lemma promote_ends s r : ends (_try_promote_blocked_waiting_request grammar_ready s r).
Proof. unfold _try_promote_blocked_waiting_request. ends. Qed.

Lemma cached_prefix_ends s r : positive_sizes (kv_groups s) → ends (cached_prefix s r).
Proof.
  intros Hg. pose proof (get_computed_blocks_ends (kv_cache_manager s) r Hg). unfold cached_prefix. ends.
Qed.

Lemma admit_ends s st r n c : ends (admit_request s st r n c).
Proof. unfold admit_request. ends. Qed.
#[local] Hint Resolve promote_ends admit_ends : ends.

Notation waiting_inv := (waiting_inv (B:=B) (cfg:=cfg) (ps:=ps) (P:=P) (R:=R)).

(** The request at the front asks for slots. *)
Lemma grant_ends s st skipped lw ls lk w front r n a b inputs nb :
  waiting_inv s st skipped lw ls lk → od_get (requests s) (request_id front) = Some r →
  ends ('(new_blocks, k, r) ← allocate_slots sha (kv_cache_manager s) r n a;
   let s := put_request r (set_kv k s) in
   match new_blocks with
   | None =>
       s ← (if has_encoder_inputs r
            then e ← em_free set_iter (encoder_cache_manager s) r; Ok (set_encoder e s) else Ok s);
       Ok (true, s, st, skipped)
   | Some _ =>
       '(_, q) ← pop_request (queue_of s w);
       let s := set_queue_of w q s in
       '(r, s, st) ← admit_request s st r n b;
       '(s, st) ← allocate_encoder_inputs s st r inputs nb;
       Ok (false, s, st, skipped)
   end).
Proof.
  intros Hinv Hr. ends_next [[bs k] r1] E1. destruct bs as [bs|]; [|ends].
  apply ends_bind; [|ends]. pose proof (pop_ends s lw ls lk w (ph_wf (wi_phase _ _ _ _ _ _ Hinv))) as Hp. by destruct w.
Qed.

Lemma waiting_step_ends defer s st skipped lw ls lk :
  waiting_inv s st skipped lw ls lk →
  ends (waiting_step sha set_iter grammar_ready defer s st skipped).
Proof.
  intros Hinv. pose proof (ph_wf (wi_phase _ _ _ _ _ _ Hinv)) as Hwf. unfold waiting_step.
  apply ends_bind_eq; [by eapply select_ends|]. intros [w|] E1; [|done].
  apply ends_bind_eq; [by eapply peek_ends|]. intros front E2. ends_next r0 E3.
  apply get_request_Ok in E3. pose proof (wf_store _ _ _ _ Hwf _ _ E3) as Hid0.
  ends_next [blocked s1] E4.
  destruct (promote_ok _ _ _ _ _ _ _ _ _ _ Hinv ltac:(by rewrite Hid0) E4) as (Hinv1 & Hq1 & Hrun1).
  destruct blocked; [apply ends_bind; [by eapply skip_ends|]; ends|].
  ends_next r E5. apply get_request_Ok in E5.
  destruct (lora_blocked s1 st r); [apply ends_bind; [by eapply skip_ends|]; ends|].
  apply ends_bind_eq; [apply cached_prefix_ends, (ph_groups (wi_phase _ _ _ _ _ _ Hinv1))|].
  intros [[[hits m] hint] s2] E6. cbv beta iota. apply cached_prefix_frame in E6 as Hf2.
  destruct (defer && _); [done|]. destruct (negb _ && _); [done|]. ends_next u E9.
  ends_next [[[inputs n] nb] e] E10. destruct (has_encoder_inputs r && _); [done|].
  destruct (need_mamba_block_aligned_split _ && _); [done|]. ends_next ne E13.
  eapply (grant_ends (set_encoder e s2)); [|simpl; rewrite (st_requests _ _ Hf2); exact E5].
  by apply (waiting_same s2), (waiting_same s1).
Qed.

Lemma waiting_loop_ends fuel defer s st skipped lw ls lk :
  waiting_inv s st skipped lw ls lk → (length (lw ++ ls) < fuel)%nat →
  ends (waiting_loop sha set_iter grammar_ready fuel defer s st skipped).
Proof.
  revert s st skipped lw ls lk. induction fuel as [|fuel IH]; intros s st skipped lw ls lk Hinv Hf;
    cbn [waiting_loop]; [lia|]. case_match eqn:Eg; [|done].
  apply ends_bind_eq; [by eapply waiting_step_ends|]. intros [[[stop s1] st1] k1] E.
  apply andb_prop in Eg as [_ Em]. rewrite (ph_config (wi_phase _ _ _ _ _ _ Hinv)) in Em.
  destruct (waiting_step_ok _ _ _ _ _ _ _ _ _ _ _ _ _ _ Hcfg Hinv ltac:(lia) E) as (lw1 & ls1 & lk1 & Hinv1 & Hl).
  destruct stop; [done|]. apply (IH _ _ _ lw1 ls1 lk1); [done|]. specialize (Hl eq_refl). lia.
Qed.

Lemma schedule_waiting_ends defer s st lw ls :
  waiting_inv s st (create_request_queue (policy cfg)) lw ls [] →
  ends (schedule_waiting sha set_iter grammar_ready defer s st).
Proof.
  intros Hinv. pose proof (ph_wf (wi_phase _ _ _ _ _ _ Hinv)) as [Hw Hs _ _ _ _ _]. unfold schedule_waiting.
  rewrite (qr_len _ _ Hw), (qr_len _ _ Hs), (ph_config (wi_phase _ _ _ _ _ _ Hinv)).
  apply ends_bind_eq; [eapply waiting_loop_ends; [done|]; rewrite length_app; unfold zlen; lia|].
  intros [[s1 st1] k1] E1.
  destruct (waiting_loop_ok _ _ _ _ _ _ _ _ _ _ _ _ _ _ Hcfg Hinv E1) as (lw1 & ls1 & lk1 & [Hph1 Hk1 _ _]).
  apply ends_bind; [|done]. case_match; [|done]. rewrite (qr_iter _ _ Hk1). cbn [mbind result_bind]. apply ends_bind; [|done].
  pose proof (ph_wf Hph1) as Hwf. pose proof (wf_skipped _ _ _ _ Hwf) as Hsk.
  destruct (qr_prepends _ _ lk1 Hsk) as (q' & -> & _); [|done].
  pose proof (wf_objects _ _ _ _ Hwf) as Ho. unfold objects in *. rewrite fmap_app in Ho.
  apply NoDup_app in Ho as (_ & _ & Ho). by rewrite Permutation_app_comm.
Qed.
End loops.

(** ** The whole step *)

Lemma build_output_ends s st : ends (build_output s st).
Proof.
  assert (∀ k id, ends (km_get_num_common_prefix_blocks k id)) as H1.
  { intros. unfold km_get_num_common_prefix_blocks, coord_get_num_common_prefix_blocks.
    apply ends_bind; [|ends]. case_match; [done|apply run_managers_ends; ends..]. }
  assert (∀ st id, ends (lookup_blocks st id)) as H2 by (intros; unfold lookup_blocks; ends).
  unfold build_output, _make_cached_request_data, add_cached_data. ends.
Qed.

Lemma update_after_ends s o : ends (_update_after_schedule s o).
Proof. unfold _update_after_schedule. ends. Qed.
#[local] Hint Resolve build_output_ends update_after_ends : ends.

Lemma schedule_requests_ends sha set_iter grammar_ready throttle s lw ls :
  sched_ready s lw ls → ends (schedule_requests sha set_iter grammar_ready throttle s).
Proof.
  intros Hready. unfold schedule_requests. ends_next decoding E1. set (s0 := set_kv _ _) in *.
  change (init_step (set_step _ _ s)) with (init_step s).
  pose proof (step_init_inv s s0 lw ls Hready ltac:(done)) as Hinv0.
  apply ends_bind_eq; [eapply running_loop_ends; [apply Hready|exact Hinv0|lia]|].
  intros [s1 st1] E2. apply ends_bind_eq; [unfold running_loras; ends|]. intros st2 E3.
  case_match; [|done].
  destruct (running_loop_ok sha set_iter _ _ _ _ _ (sr_config _ _ _ Hready) _ _ _ _ _ _ _ _ _ _ Hinv0 E2)
    as (lw1 & idx1 & Hinv1 & Hlen).
  apply running_to_waiting in Hinv1 as [Hph Hk Hs Hr].
  2:{ pose proof (sr_running _ _ _ Hready). unfold zlen in *. simpl in Hlen. lia. }
  destruct (running_loras_frame _ _ _ _ E3 (ph_step Hph)) as (Hst2 & Ek & Es).
  eapply schedule_waiting_ends; [apply Hready|]. split; try done; [|by rewrite Ek].
  apply (phase_step _ st1); try done. pose proof (ph_fits Hph). unfold fits in *. by rewrite Ek, Es.
Qed.

Lemma schedule_ends sha set_iter grammar_ready throttle s lw ls :
  sched_ready s lw ls → ends (schedule sha set_iter grammar_ready throttle s).
Proof.
  intros Hready. unfold schedule. apply ends_bind; [by eapply schedule_requests_ends|]. intros [s1 st].
  assert (ends (check_constraints s1 st)) by (unfold check_constraints; ends). ends.
Qed.

(** C5: a scheduling step ends.  From a well-formed scheduler, whatever the
    requests, the cache and the policy, the loops over running and waiting
    requests, the preemption loop inside, the prefix lookup and all calls they
    make finish within the bounds given to them (the numbers of running and of
    queued requests). *)
Theorem schedule_terminates sha set_iter grammar_ready throttle s lw ls :
  sched_ready s lw ls → schedule sha set_iter grammar_ready throttle s ≠ Raise OutOfFuel.
Proof.
  apply schedule_ends.
Qed.

(** ** Examples *)

(** A pool of six blocks of two tokens, one full-attention group, no caching; two
    requests of four and three tokens wait. *)
Definition demo_hash : list bytes → bytes := λ _, [].
Definition demo_group : KVCacheSpec :=
  FullAttentionSpec (mkAttn 2 1 8 (mkDtype "bfloat16" 2) QNone None false) (mkFull 8 None None false).
Definition demo_kv : result KVCacheManager :=
  init_kv_cache_manager (mkKVConfig 6 [mkGroup ["l"%string] demo_group false]) 64 2 2 None false false false false
    1 1 0%Q None false.
Definition demo_sched_config (p : SchedulingPolicy) : SchedulerConfig :=
  mkSchedConfig p 4 6 64 1 0 true false false 0 false 0 0 None None false false 2 false false false false
    false false 1.
Definition demo_job (id : string) (addr prio : Z) (n : nat) : Request :=
  mkRequest id addr 0 prio addr (Some (mkSampling (Some 16) 0 None [] None None)) None None false WAITING None 16
    (Some (replicate n 1)) None ∅ (Z.of_nat n) [] (replicate n 1) 0 0 0 0 [] 0 None [] false 0 [] false false false.
Definition demo_scheduler (k : KVCacheManager) : Scheduler :=
  mkScheduler (demo_sched_config FCFS) [("a"%string, demo_job "a" 1 0 4); ("b"%string, demo_job "b" 2 0 3)] ∅
    (AFCFS [demo_job "a" 1 0 4; demo_job "b" 2 0 3]) (AFCFS []) [] ∅ None ∅ 0
    (MMCache (init_encoder_cache 0)) k 0 false 0 0 [] UNPAUSED ∅.

Lemma demo_kv_groups : match demo_kv with Ok k => attention_groups (coordinator k) = [] | Raise _ => False end.
Proof. vm_compute. reflexivity. Qed.

Lemma demo_ready k :
  demo_kv = Ok k → sched_ready (demo_scheduler k) [demo_job "a" 1 0 4; demo_job "b" 2 0 3] [].
Proof.
  intros Hk. pose proof demo_kv_groups as Hg. rewrite Hk in Hg. split.
  - split; simpl; try done.
    + split; [done|]. unfold objects. simpl. apply NoDup_cons. split; [set_solver|]. apply NoDup_singleton.
    + split; [done|]. constructor.
    + apply NoDup_cons. split; [set_solver|]. apply NoDup_singleton.
    + intros x Hx. repeat (apply elem_of_cons in Hx as [->|Hx]; [eexists; split_and!; try done|]).
      by apply elem_of_nil in Hx.
    + intros id Hid. by apply elem_of_nil in Hid.
    + intros id r. repeat case_decide; intros; simplify_eq; done.
    + intros id1 id2 r1 r2. repeat case_decide; intros; simplify_eq; done.
  - by split.
  - done.
  - done.
  - intros id r. simpl. repeat case_decide; intros; simplify_eq; by repeat constructor.
  - unfold positive_sizes, kv_groups. simpl. rewrite Hg. constructor.
Qed.

Lemma demo_runs :
  match (k ← demo_kv; schedule_requests demo_hash elements (λ _, true) false (demo_scheduler k)) with
  | Ok (_, st) => num_scheduled_tokens st = [("a"%string, 4); ("b"%string, 2)]
  | Raise _ => False
  end.
Proof. vm_compute. reflexivity. Qed.

(** The budget of six tokens covers the first request and part of the second. *)
Lemma schedule_constraints_witness :
  ∃ k s' st, demo_kv = Ok k ∧
    schedule_requests demo_hash elements (λ _, true) false (demo_scheduler k) = Ok (s', st) ∧
    num_scheduled_tokens st = [("a"%string, 4); ("b"%string, 2)] ∧ check_constraints s' st = Ok tt.
Proof.
  pose proof demo_runs as Hrun. pose proof demo_ready as Hready.
  destruct demo_kv as [k|e]; [|destruct Hrun]. cbn [mbind result_bind] in Hrun.
  specialize (Hready k eq_refl). exists k.
  destruct (schedule_requests demo_hash elements (λ _, true) false (demo_scheduler k)) as [[s' st]|e] eqn:E;
    [|destruct Hrun].
  exists s', st. split; [reflexivity|]. split; [reflexivity|]. split; [exact Hrun|].
  exact (proj1 (schedule_constraints demo_hash elements (λ _, true) false (demo_scheduler k)
    [demo_job "a" 1 0 4; demo_job "b" 2 0 3] [] s' st Hready E)).
Defined.

Lemma demo_step_returns :
  match (k ← demo_kv; schedule demo_hash elements (λ _, true) false (demo_scheduler k)) with
  | Ok (o, s) => so_total_num_scheduled_tokens o = 6 ∧ running s = ["a"; "b"]%string
  | Raise _ => False
  end.
Proof. vm_compute. done. Qed.

Lemma schedule_terminates_witness :
  ∃ k o s, demo_kv = Ok k ∧ schedule demo_hash elements (λ _, true) false (demo_scheduler k) ≠ Raise OutOfFuel ∧
    schedule demo_hash elements (λ _, true) false (demo_scheduler k) = Ok (o, s) ∧ running s = ["a"; "b"]%string.
Proof.
  pose proof demo_step_returns as Hrun. pose proof demo_ready as Hready.
  destruct demo_kv as [k|e]; [|destruct Hrun]. cbn [mbind result_bind] in Hrun.
  specialize (Hready k eq_refl). exists k.
  pose proof (schedule_terminates demo_hash elements (λ _, true) false (demo_scheduler k)
    [demo_job "a" 1 0 4; demo_job "b" 2 0 3] [] Hready) as Hends.
  destruct (schedule demo_hash elements (λ _, true) false (demo_scheduler k)) as [[o s]|e]; [|destruct Hrun].
  exists o, s. split; [reflexivity|]. split; [exact Hends|]. split; [reflexivity|exact (proj2 Hrun)].
Defined.
