(* ===== verification/EngineInv.v ===== *)
(** * The engine core: an invariant of its reachable states

    Requests that are not streaming sessions, scheduled synchronously: the
    invariant of the request table, and that adding, finishing and planning keep
    it.  Processing an output and the reachable states are in [EngineReach]. *)

From stdpp Require Import sorting.
From S2P Require Import Prelude OrderedDict KVBlock Request BlockPool KVSpecs Coordinator KVManager EncoderCache RequestQueue SchedUtils SchedState Schedule SchedUpdate Engine EncoderStep Termination SchedFrame SchedFacts SchedWaiting SchedTheorems.

#[local] Open Scope Z_scope.

(** ** Dictionaries *)

Lemma od_get_filter {V} (l : list (string * V)) (D : list string) id :
  od_get (filter (λ p, p.1 ∉ D) l) id = if decide (id ∈ D) then None else od_get l id.
Proof.
  induction l as [|[k v] l IH]; simpl; [by case_decide|].
  destruct (decide (k ∈ D)) as [Hk|Hk].
  - rewrite filter_cons_False by (simpl; tauto). rewrite IH.
    destruct (decide (id = k)) as [->|]; [by rewrite !decide_True|done].
  - rewrite filter_cons_True by done. simpl. rewrite IH.
    destruct (decide (id = k)) as [->|]; [by rewrite decide_False|done].
Qed.

Lemma od_filter_keys {V} (l : list (string * V)) (D : list string) :
  (filter (λ p, p.1 ∉ D) l).*1 = filter (λ x, x ∉ D) l.*1.
Proof.
  induction l as [|[k v] l IH]; [done|]. rewrite fmap_cons. cbn [fst]. destruct (decide (k ∈ D)) as [Hk|Hk].
  - rewrite filter_cons_False by (simpl; tauto). by rewrite (filter_cons_False _ k) by tauto.
  - rewrite filter_cons_True by done. rewrite (filter_cons_True _ k) by done. rewrite fmap_cons. by rewrite IH.
Qed.

Lemma od_del_set {V} (l : list (string * V)) k v : od_del (od_set l k v) k = od_del l k.
Proof.
  unfold od_del. induction l as [|[k' v'] l IH]; simpl; [by rewrite filter_cons_False by (simpl; tauto)|].
  destruct (decide (k = k')) as [->|Hne].
  - by rewrite !filter_cons_False by (simpl; tauto).
  - rewrite !filter_cons_True by (simpl; congruence). by rewrite IH.
Qed.

Lemma filter_filter_not {A B} `{EqDecision B} (f : A → B) (x : B) (D : list B) (l : list A) :
  filter (λ a, f a ∉ D) (filter (λ a, f a ≠ x) l) = filter (λ a, f a ∉ x :: D) l.
Proof.
  induction l as [|a l IH]; [done|]. destruct (decide (f a = x)) as [E|E].
  - rewrite (filter_cons_False _ a l) by tauto. rewrite filter_cons_False by set_solver. done.
  - rewrite (filter_cons_True _ a l) by done. destruct (decide (f a ∈ D)).
    + rewrite !filter_cons_False by set_solver. done.
    + rewrite !filter_cons_True by set_solver. by rewrite IH.
Qed.

Lemma list_filter_iff_elem {A} (P Q : A → Prop) `{!∀ x, Decision (P x)} `{!∀ x, Decision (Q x)} (l : list A) :
  (∀ x, x ∈ l → P x ↔ Q x) → filter P l = filter Q l.
Proof.
  induction l as [|x l IH]; intros Hl; [done|]. pose proof (Hl x ltac:(left; done)) as Hx.
  assert (filter P l = filter Q l) as E by (apply IH; set_solver). destruct (decide (P x)) as [Hp|Hp].
  - rewrite !filter_cons_True by tauto. by rewrite E.
  - by rewrite !filter_cons_False by tauto.
Qed.

Lemma existsb_elem {A} (f : A → bool) l : existsb f l = true ↔ ∃ x, x ∈ l ∧ f x = true.
Proof. rewrite existsb_exists. by setoid_rewrite list_elem_of_In. Qed.

Lemma list_without_nil l : list_without l [] = l.
Proof. by apply filter_all. Qed.

Lemma ids_filter (D : list string) (l : list Request) :
  request_id <$> filter (λ x, request_id x ∉ D) l = filter (λ x, x ∉ D) (request_id <$> l).
Proof.
  induction l as [|x l IH]; [done|]. rewrite fmap_cons. destruct (decide (request_id x ∈ D)).
  - by rewrite !filter_cons_False by tauto.
  - rewrite !filter_cons_True by done. rewrite fmap_cons. by rewrite IH.
Qed.

Lemma policy_add_perm p l r : policy_add p l r ≡ₚ r :: l.
Proof. destruct p; simpl; [by rewrite Permutation_app_comm|apply insert_sorted_perm]. Qed.

(** ** Requests of a running engine *)

(** [k] bounds the draft tokens of a planned step, whose acceptance is not known
    yet. *)
Record live_req (cfg : SchedulerConfig) (k : Z) (r : Request) : Prop := {
  lr_sorted : starts_sorted r;
  lr_placeholders : num_output_placeholders r = 0;
  lr_resumable : resumable r = false;
  lr_remote : status r ≠ WAITING_FOR_REMOTE_KVS;
  lr_tokens : num_tokens r + num_sampled_tokens_per_step cfg ≤ sc_max_model_len cfg;
  lr_computed : num_computed_tokens r ≤ num_tokens r + k;
  lr_room : num_computed_tokens r + num_sampled_tokens_per_step cfg ≤ sc_max_model_len cfg;
  lr_min_tokens : ∀ sp, sampling_params r = Some sp →
    num_tokens r - num_output_tokens r + min_tokens sp ≤ sc_max_model_len cfg;
}.

Lemma live_kept cfg k r r' :
  kept r r' → num_computed_tokens r' ≤ num_tokens r + k →
  num_computed_tokens r' + num_sampled_tokens_per_step cfg ≤ sc_max_model_len cfg →
  live_req cfg k r → live_req cfg k r'.
Proof.
  intros Hk Hc Hr [H1 H2 H3 H4 H5 H6 H7 H8]. pose proof (kept_num_tokens _ _ Hk) as Et.
  split; unfold starts_sorted, num_output_tokens in *;
    rewrite ?(kp_mm _ _ Hk), ?(kp_placeholders _ _ Hk), ?(kp_resumable _ _ Hk), ?Et, ?(kp_output _ _ Hk),
      ?(kp_sampling _ _ Hk); try done. intros E%(kp_remote _ _ Hk). done.
Qed.

Lemma live_ok cfg r : live_req cfg 0 r → req_ok cfg r.
Proof. intros []. split; try done; lia. Qed.

Section table.
Context (cfg : SchedulerConfig).

(** [k id] bounds the pending draft tokens of a request. *)
Record table_ok (k : string → Z) (s : Scheduler) (lw ls : list Request) : Prop := {
  tk_wf : sched_wf s lw ls [];
  tk_keys : (requests s).*1 ≡ₚ places s lw ls [];
  tk_config : config s = cfg;
  tk_running : zlen (running s) ≤ max_num_running_reqs cfg;
  tk_live : ∀ id r, od_get (requests s) id = Some r → live_req cfg (k id) r;
  tk_groups : positive_sizes (kv_groups s);
}.

Arguments tk_wf {k s lw ls}.
Arguments tk_keys {k s lw ls}.
Arguments tk_config {k s lw ls}.
Arguments tk_running {k s lw ls}.
Arguments tk_live {k s lw ls}.
Arguments tk_groups {k s lw ls}.

Lemma table_ready s lw ls : config_ok cfg → table_ok (λ _, 0) s lw ls → sched_ready s lw ls.
Proof.
  intros Hcfg [Hwf Hk Hc Hr Hl Hg]. split; rewrite ?Hc; try done. intros id r Hid. apply live_ok. by eapply Hl.
Qed.

Lemma table_same k s s' lw ls : same_table s s' → table_ok k s lw ls → table_ok k s' lw ls.
Proof.
  intros Hf [Hwf Hk Hc Hr Hl Hg]. pose proof (wf_same _ _ _ _ _ Hf Hwf).
  destruct Hf as [Ec Er Ew Es Eru Ep Eg]. split; unfold places in *; rewrite ?Ec, ?Er, ?Eru, ?Eg; done.
Qed.

Lemma table_known k s lw ls id : table_ok k s lw ls → is_Some (od_get (requests s) id) ↔ id ∈ places s lw ls [].
Proof.
  intros Hok. rewrite <-(tk_keys Hok). split.
  - intros [r Hr]. destruct (decide (id ∈ (requests s).*1)) as [|Hn]; [done|]. apply od_get_None in Hn. congruence.
  - intros Hin. destruct (od_get (requests s) id) eqn:E; [done|]. by apply od_get_None in E.
Qed.

(** Which requests run is said by their status. *)
Lemma table_status k s lw ls id r :
  table_ok k s lw ls → od_get (requests s) id = Some r →
  is_finished r = false ∧ (status r = RUNNING ↔ id ∈ running s).
Proof.
  intros Hok Hr. pose proof (tk_wf Hok) as Hwf.
  assert (id ∈ places s lw ls []) as Hin by (rewrite <-table_known by done; by rewrite Hr).
  unfold places in Hin. apply elem_of_app in Hin as [Hin|Hin].
  - destruct (wf_running _ _ _ _ Hwf id Hin) as (r' & Hr' & Es). simplify_eq. unfold is_finished. by rewrite Es.
  - assert (id ∉ running s) as Hn.
    { pose proof (wf_ids _ _ _ _ Hwf) as Hnd. apply NoDup_app in Hnd as (_ & Hd & _). intros Hx. by apply (Hd id). }
    apply list_elem_of_fmap in Hin as (x & -> & Hx).
    destruct (wf_queued _ _ _ _ Hwf x Hx) as (r' & Hr' & _ & Hw & Hf). simplify_eq. done.
Qed.

Lemma table_weaken k k' s lw ls :
  (∀ id r, od_get (requests s) id = Some r → live_req cfg (k id) r → live_req cfg (k' id) r) →
  table_ok k s lw ls → table_ok k' s lw ls.
Proof. intros Hkk [Hwf Hk Hc Hr Hl Hg]. split; try done. intros id r Hid. by apply Hkk, Hl. Qed.

(** An assignment to an object that keeps its status. *)
Lemma table_put k k' s lw ls r0 r :
  table_ok k s lw ls → od_get (requests s) (request_id r0) = Some r0 → same_key r0 r → status r = status r0 →
  (∀ id, id ≠ request_id r → k' id = k id) → live_req cfg (k' (request_id r)) r →
  table_ok k' (put_request r s) lw ls.
Proof.
  intros [Hwf Hk Hc Hr Hl Hg] Hr0 Hkey Es Hkk Hlive. assert (request_id r = request_id r0) as Eid by apply Hkey.
  split; simpl; try done.
  - apply (wf_put _ _ _ _ r0); rewrite ?Eid, ?Es; try done.
    + intros (r1 & ? & ?)%(wf_running _ _ _ _ Hwf). by simplify_eq.
    + intros (x & Ex & Hx)%list_elem_of_fmap. apply (wf_queued _ _ _ _ Hwf) in Hx as (r1 & Hr1 & _ & Hw).
      rewrite <-Ex in Hr1. by simplify_eq.
  - rewrite od_set_same_keys; [done|]. by rewrite Eid, Hr0.
  - intros id r1. rewrite od_get_set. case_decide as E; [intros [= <-]; by rewrite E|]. rewrite Hkk by done. apply Hl.
Qed.

(** ** Requests that leave *)

Lemma places_filter (D : list string) (run : list string) (lw ls : list Request) :
  filter (λ x, x ∉ D) run ++ (request_id <$> filter (λ x, request_id x ∉ D) lw ++ filter (λ x, request_id x ∉ D) ls ++ []) =
  filter (λ x, x ∉ D) (run ++ (request_id <$> lw ++ ls ++ [])).
Proof. by rewrite !app_nil_r, !fmap_app, !filter_app, !ids_filter. Qed.

(** The requests [D] leave the table and their places. *)
Lemma table_drop k s s' lw ls (D : list string) :
  table_ok k s lw ls → config s' = config s → kv_groups s' = kv_groups s →
  requests s' = filter (λ p, p.1 ∉ D) (requests s) → running s' = filter (λ x, x ∉ D) (running s) →
  any_repr (policy cfg) (waiting s') (filter (λ x, request_id x ∉ D) lw) →
  any_repr (policy cfg) (skipped_waiting s') (filter (λ x, request_id x ∉ D) ls) →
  table_ok k s' (filter (λ x, request_id x ∉ D) lw) (filter (λ x, request_id x ∉ D) ls).
Proof.
  intros [[Hw Hs Hnd Hq Hr Hst Ha] Hk Hc Hrun Hl Hg] Ec Eg Er Eru Hw' Hs'.
  assert (∀ id r, od_get (requests s') id = Some r → od_get (requests s) id = Some r ∧ id ∉ D) as Hget.
  { intros id r. rewrite Er, od_get_filter. by case_decide. }
  assert (∀ id, id ∉ D → od_get (requests s') id = od_get (requests s) id) as Hkeep.
  { intros id Hid. rewrite Er, od_get_filter. by rewrite decide_False. }
  split; [split|..]; rewrite ?Ec, ?Hc, ?Eg; try done; unfold places in *; rewrite ?Eru, ?places_filter.
  - by apply NoDup_filter.
  - intros x. rewrite app_nil_r, <-filter_app. intros [Hx1 Hx2]%list_elem_of_filter. rewrite Hkeep by done.
    apply Hq. by rewrite app_nil_r.
  - intros id [Hx1 Hx2]%list_elem_of_filter. rewrite Hkeep by done. by apply Hr.
  - intros id r [? _]%Hget. by apply Hst.
  - intros id1 id2 r1 r2 [? _]%Hget [? _]%Hget. by eapply Ha.
  - rewrite Er, od_filter_keys. by rewrite Hk.
  - pose proof (length_filter (λ x, x ∉ D) (running s)). unfold zlen in *. lia.
  - intros id r [? _]%Hget. by apply Hl.
Qed.

(** ** A request that comes *)

Lemma wf_enqueue s lw ls r s' :
  sched_wf s lw ls [] → od_get (requests s) (request_id r) = None → request_id r ∉ places s lw ls [] →
  (∀ id r', od_get (requests s) id = Some r' → obj_addr r' ≠ obj_addr r) → waits (status r) →
  _enqueue_waiting_request s r = Ok s' →
  ∃ lw' ls', sched_wf (put_request r s') lw' ls' [] ∧ lw' ++ ls' ≡ₚ r :: (lw ++ ls) ∧
    requests s' = requests s ∧ config s' = config s ∧ running s' = running s ∧ kv_groups s' = kv_groups s.
Proof.
  intros [Hw Hs Hnd Hq Hr Hst Ha] Hnone Hni Haddr Hwait H.
  assert (∀ l, l ⊆ lw ++ ls → fresh_for l r) as Hfresh.
  { intros l Hl (x & Ex & Hx)%list_elem_of_fmap. apply Hl in Hx.
    destruct (Hq x) as (rx & Hrx & (_ & Ea & _) & _); [by rewrite app_nil_r|]. apply (Haddr _ _ Hrx). congruence. }
  assert (∃ lw' ls', any_repr (policy (config s)) (waiting s') lw' ∧
    any_repr (policy (config s)) (skipped_waiting s') ls' ∧ lw' ++ ls' ≡ₚ r :: (lw ++ ls) ∧
    requests s' = requests s ∧ config s' = config s ∧ running s' = running s ∧ kv_groups s' = kv_groups s)
    as (lw' & ls' & Hw' & Hs' & Hp & Er & Ec & Eru & Eg).
  { unfold _enqueue_waiting_request in H. case_inv H as E.
    - destruct (qr_add _ _ r Hs) as (q & Hq' & Hrep); [apply Hfresh; set_solver|]. rewrite Hq' in H.
      injection H as <-. exists lw, (policy_add (policy (config s)) ls r). split_and!; try done.
      rewrite policy_add_perm. apply Permutation_sym, Permutation_middle.
    - destruct (qr_add _ _ r Hw) as (q & Hq' & Hrep); [apply Hfresh; set_solver|]. rewrite Hq' in H.
      injection H as <-. exists (policy_add (policy (config s)) lw r), ls. split_and!; try done.
      by rewrite policy_add_perm. }
  exists lw', ls'. split_and!; try done.
  assert (lw' ++ ls' ++ [] ≡ₚ r :: (lw ++ ls ++ [])) as Hp' by (by rewrite !app_nil_r).
  split; simpl; rewrite ?Ec, ?Er, ?Eru; try done.
  - rewrite Hp'. simpl. rewrite <-Permutation_middle. by apply NoDup_cons.
  - intros x. rewrite Hp', elem_of_cons, od_get_set. intros [->|Hx]; [rewrite decide_True by done; by exists r|].
    destruct (Hq x Hx) as (rx & Hrx & ?). rewrite decide_False by congruence. by exists rx.
  - intros id Hid. destruct (Hr id Hid) as (rx & Hrx & ?). rewrite od_get_set, decide_False by congruence. by exists rx.
  - intros id r1. rewrite od_get_set. case_decide; [|by apply Hst]. by intros [= <-].
  - intros id1 id2 r1 r2. rewrite !od_get_set.
    repeat case_decide; intros; simplify_eq; try done; [|..|by eapply Ha]; exfalso; by eapply Haddr.
Qed.

(** What the engine accepts as a new request: see [new_request]; the front end
    checks the prompt against the model length. *)
Record new_ok (r : Request) : Prop := {
  nr_waits : status r = WAITING ∨ status r = WAITING_FOR_STRUCTURED_OUTPUT_GRAMMAR;
  nr_live : live_req cfg 0 r;
}.

Lemma sched_add_ok hasher set_iter s lw ls r s' :
  table_ok (λ _, 0) s lw ls → od_get (requests s) (request_id r) = None →
  (∀ id r', od_get (requests s) id = Some r' → obj_addr r' ≠ obj_addr r) → new_ok r →
  sched_add_request hasher set_iter s r = Ok s' → ∃ lw' ls', table_ok (λ _, 0) s' lw' ls'.
Proof.
  intros Hok Hnone Haddr [Hst Hlive] H. unfold sched_add_request in H. rewrite Hnone in H. bind_inv H as s1 E.
  injection H as <-. set (s0 := set_streaming _ _ s) in *.
  assert (table_ok (λ _, 0) s0 lw ls) as Hok0 by (by apply (table_same _ s)).
  assert (request_id r ∉ places s0 lw ls []) as Hni.
  { rewrite <-table_known by done. change (requests s0) with (requests s). rewrite Hnone. by intros [? ?]. }
  assert (waits (status r)) as Hw by (by destruct Hst as [-> | ->]).
  destruct (wf_enqueue s0 lw ls r s1 (tk_wf Hok0) Hnone Hni Haddr Hw E) as (lw' & ls' & Hwf & Hp & Er & Ec & Eru & Eg).
  exists lw', ls'. destruct Hok0 as [_ Hk Hc Hrun Hl Hg]. split; simpl; rewrite ?Ec, ?Eru; try done.
  - unfold places in *. simpl. rewrite Eru, Er, od_set_fresh by (by apply od_get_None).
    assert (lw' ++ ls' ++ [] ≡ₚ r :: (lw ++ ls ++ [])) as Hp' by (by rewrite !app_nil_r).
    rewrite fmap_app, Hk, Hp', fmap_cons. cbn [fmap list_fmap fst]. solve_Permutation.
  - intros id r1. rewrite Er, od_get_set. case_decide; [|by apply Hl]. by intros [= <-].
  - change (positive_sizes (kv_groups s1)). by rewrite Eg.
Qed.

(** ** Finishing requests from outside *)

Lemma free_request_frame set_iter s r s' :
  _free_request set_iter s r false = Ok s' →
  same_table (set_requests (od_del (requests s) (request_id r)) s) s'.
Proof.
  unfold _free_request, _free_blocks. intros H. bind_inv H as u E1. bind_inv H as e E2. bind_inv H as u2 E3.
  bind_inv H as s1 E4. injection H as <-. apply free_request_blocks_frame in E4 as [Ec Er Ew Es Eru Ep Eg].
  split; simpl; rewrite ?Er; try done.
Qed.

Lemma free_all_frame set_iter st rs s s' :
  (∀ r, r ∈ rs → status r ≠ WAITING_FOR_REMOTE_KVS) →
  mfold (λ s r,
    let delay_free_blocks := bool_decide (status r = WAITING_FOR_REMOTE_KVS) in
    let r := set_status st r in
    _free_request set_iter (put_request r s) r delay_free_blocks) s rs = Ok s' →
  same_table (set_requests (filter (λ p, p.1 ∉ request_id <$> rs) (requests s)) s) s'.
Proof.
  revert s. induction rs as [|r rs IH]; intros s Hrs H; simpl in H.
  { injection H as <-. rewrite filter_all by (intros; apply not_elem_of_nil). by destruct s. }
  bind_inv H as s1 E. rewrite bool_decide_false in E by (apply Hrs; by left).
  apply free_request_frame in E. apply IH in H; [|intros; apply Hrs; by right].
  destruct E as [Ec Er Ew Es Eru Ep Eg]. simpl in *. rewrite od_del_set in Er.
  destruct H as [Ec2 Er2 Ew2 Es2 Eru2 Ep2 Eg2]. simpl in *.
  split; simpl; try congruence; [|change (kv_groups s' = kv_groups s); rewrite Eg2; exact Eg].
  rewrite Er2, Er. unfold od_del. apply filter_filter_not.
Qed.

(** The first pass finds the requests that run and those that are queued. *)
Lemma collect_spec k s lw ls ids v fr fw :
  table_ok k s lw ls → ∃ s1, same_table s s1 ∧
  collect_requests s ids v fr fw =
    (s1, v ++ omap (od_get (requests s)) ids, fr ++ filter (λ id, id ∈ running s) ids,
     fw ++ filter (λ r, status r ≠ RUNNING) (omap (od_get (requests s)) ids)).
Proof.
  intros Hok. revert s Hok v fr fw. induction ids as [|id ids IH]; intros s Hok v fr fw; simpl.
  { exists s. by rewrite !app_nil_r. }
  destruct (od_get (requests s) id) as [r|] eqn:Hr.
  - destruct (table_status _ _ _ _ _ _ Hok Hr) as [-> Hst]. case_bool_decide as Es.
    + destruct (IH s Hok (v ++ [r]) (fr ++ [id]) fw) as (s1 & Hf & E). exists s1. split; [done|].
      rewrite E, filter_cons_True, filter_cons_False by tauto. by rewrite <-!app_assoc.
    + rewrite filter_cons_False by tauto. rewrite filter_cons_True by done. case_bool_decide.
      * set (s0 := set_streaming _ _ _). destruct (IH s0) with (v := v ++ [r]) (fr := fr) (fw := fw ++ [r])
          as (s1 & Hf & E); [by apply (table_same _ s)|]. exists s1. split; [by trans s0|].
        rewrite E. by rewrite <-!app_assoc.
      * destruct (IH s Hok (v ++ [r]) fr (fw ++ [r])) as (s1 & Hf & E). exists s1. split; [done|].
        rewrite E. by rewrite <-!app_assoc.
  - destruct (IH s Hok v fr fw) as (s1 & Hf & E). exists s1. split; [done|]. rewrite E, filter_cons_False; [done|].
    intros (r & Hr' & _)%(wf_running _ _ _ _ (tk_wf Hok)). congruence.
Qed.

(** Removing the queued objects among [ids] from a queue. *)
Lemma list_without_ids s lw ls k (ids : list string) l :
  table_ok k s lw ls → l ⊆ lw ++ ls →
  list_without l (filter (λ r, status r ≠ RUNNING) (omap (od_get (requests s)) ids)) =
  filter (λ x, request_id x ∉ ids) l.
Proof.
  intros Hok Hl. unfold list_without. apply list_filter_iff_elem. intros x Hx.
  pose proof (tk_wf Hok) as Hwf.
  destruct (wf_queued _ _ _ _ Hwf x) as (r & Hr & (Eid & Ea & _) & Hw & _); [rewrite app_nil_r; by apply Hl|].
  rewrite <-not_true_iff_false, existsb_elem. split; intros Hn Hin; apply Hn.
  - exists r. split; [|unfold is_object; lia]. rewrite list_elem_of_filter, list_elem_of_omap. split; [done|].
    by exists (request_id x).
  - destruct Hin as (r' & [Hw' Hr']%list_elem_of_filter & Hobj). apply list_elem_of_omap in Hr' as (id & Hid & Hr').
    unfold is_object in Hobj. assert (request_id x = id) as <-; [|done].
    eapply (wf_addr _ _ _ _ Hwf); [exact Hr|exact Hr'|lia].
Qed.

Lemma omap_ids k s lw ls (ids : list string) :
  table_ok k s lw ls →
  ∀ id, id ∈ request_id <$> omap (od_get (requests s)) ids ↔ id ∈ ids ∧ is_Some (od_get (requests s) id).
Proof.
  intros Hok id. pose proof (wf_store _ _ _ _ (tk_wf Hok)) as Hst. rewrite list_elem_of_fmap. split.
  - intros (r & -> & (i & Hi & Hr)%list_elem_of_omap). rewrite (Hst _ _ Hr). by rewrite Hr.
  - intros [Hin [r Hr]]. exists r. rewrite (Hst _ _ Hr). split; [done|]. apply list_elem_of_omap. by exists id.
Qed.

Lemma finish_ok set_iter k s lw ls ids st out s' :
  table_ok k s lw ls → finish_requests set_iter s ids st = Ok (out, s') →
  ∃ lw' ls', table_ok k s' lw' ls' ∧ (∀ id, is_Some (od_get (requests s') id) → is_Some (od_get (requests s) id)) ∧
    (∀ id, id ∈ running s → is_Some (od_get (requests s') id) → id ∈ running s').
Proof.
  intros Hok H. unfold finish_requests in H. bind_inv H as u E0. cbv zeta in H. set (D := default _ ids) in H.
  destruct (collect_spec _ _ _ _ D [] [] [] Hok) as (s1 & Hf1 & E1). rewrite E1 in H. clear E1. cbn [app] in H.
  pose proof (table_same _ _ _ _ _ Hf1 Hok) as Hok1. rewrite <-(st_requests _ _ Hf1), <-(st_running _ _ Hf1) in H.
  set (V := omap _ D) in H. bind_inv H as s2 E2. bind_inv H as s3 E3. injection H as _ <-.
  pose proof (wf_ids _ _ _ _ (tk_wf Hok1)) as Hnd. apply NoDup_app in Hnd as (Hnd & _).
  assert (requests s2 = requests s1 ∧ config s2 = config s1 ∧ kv_groups s2 = kv_groups s1 ∧
    running s2 = filter (λ x, x ∉ D) (running s1) ∧
    any_repr (policy cfg) (waiting s2) (filter (λ x, request_id x ∉ D) lw) ∧
    any_repr (policy cfg) (skipped_waiting s2) (filter (λ x, request_id x ∉ D) ls)) as (Er & Ec & Eg & Eru & Hw & Hs).
  { assert ((remove_all (running s1) (filter (λ id, id ∈ running s1) D)).1 = filter (λ x, x ∉ D) (running s1)) as Erun.
    { rewrite remove_all_nodup by done. apply list_filter_iff_elem. intros x Hx. rewrite list_elem_of_filter. tauto. }
    pose proof (wf_waiting _ _ _ _ (tk_wf Hok1)) as Hw. pose proof (wf_skipped _ _ _ _ (tk_wf Hok1)) as Hs.
    rewrite (tk_config Hok1) in Hw, Hs.
    rewrite <-(list_without_ids s1 lw ls k D lw Hok1), <-(list_without_ids s1 lw ls k D ls Hok1) by set_solver.
    fold V. rewrite <-Erun. destruct (filter _ V) as [|v V'] eqn:EV.
    - injection E2 as <-. rewrite !list_without_nil. done.
    - destruct (qr_removes _ _ (v :: V') Hw) as (q1 & Hq1 & Hr1). destruct (qr_removes _ _ (v :: V') Hs) as (q2 & Hq2 & Hr2).
      cbn [waiting skipped_waiting set_running] in E2. rewrite Hq1 in E2. cbn [mbind result_bind] in E2.
      cbn [waiting skipped_waiting set_running] in E2. rewrite Hq2 in E2. injection E2 as <-. done. }
  apply free_all_frame in E3 as Hf3.
  2:{ intros r (id & _ & Hr)%list_elem_of_omap. apply (tk_live Hok1 _ _ Hr). }
  assert (filter (λ p : string * Request, p.1 ∉ request_id <$> V) (requests s2) = filter (λ p, p.1 ∉ D) (requests s1)) as Ereq.
  { rewrite Er. apply list_filter_iff_elem. intros [id r] Hin. unfold V. rewrite (omap_ids _ _ _ _ _ Hok1). cbn [fst].
    assert (is_Some (od_get (requests s1) id)); [|tauto]. rewrite table_known by done. rewrite <-(tk_keys Hok1).
    by apply (list_elem_of_fmap_2 fst) in Hin. }
  rewrite Ereq in Hf3. exists (filter (λ x, request_id x ∉ D) lw), (filter (λ x, request_id x ∉ D) ls).
  assert (requests s3 = filter (λ p, p.1 ∉ D) (requests s1)) as Er3 by apply (st_requests _ _ Hf3).
  split_and!.
  - apply (table_same _ (set_requests (filter (λ p, p.1 ∉ D) (requests s1)) s2)); [done|]. by apply (table_drop _ s1).
  - intros id. rewrite Er3, od_get_filter, (st_requests _ _ Hf1). case_decide; [by intros [? ?]|done].
  - intros id Hin. rewrite Er3, od_get_filter. case_decide; [by intros [? ?]|]. intros _.
    rewrite (st_running _ _ Hf3). cbn [running set_requests]. rewrite Eru, (st_running _ _ Hf1).
    by apply list_elem_of_filter.
Qed.

(** ** Planning a step *)

Lemma build_output_frame s st o s' :
  build_output s st = Ok (o, s') →
  same_table s s' ∧ so_num_scheduled_tokens o = num_scheduled_tokens st ∧
  so_spec_decode_tokens o = scheduled_spec_decode_tokens st.
Proof.
  unfold build_output. intros H. bind_inv H as [common s1] E1.
  assert (same_table s s1) as Hf1.
  { destruct (running s); [by simplify_eq|]. bind_inv E1 as [c k] E2. simplify_eq.
    unfold km_get_num_common_prefix_blocks in E2. bind_inv E2 as [x c1] E3. simplify_eq.
    unfold coord_get_num_common_prefix_blocks in E3. split; try done. unfold kv_groups. simpl.
    destruct (coord_class _); [by simplify_eq|by eapply run_managers_groups..]. }
  bind_inv H as nd E2. bind_inv H as cd E3.
  destruct (needs_kv_cache_zeroing (config s)).
  - destruct (km_take_new_block_ids _) as [ids k] eqn:E4. bind_inv H as ns E5.
    destruct (em_get_freed_mm_hashes _) as [hs e]. injection H as <- <-. split; [|done]. trans s1; [done|].
    unfold km_take_new_block_ids in E4. simplify_eq. by destruct (use_v2_model_runner _).
  - bind_inv H as ns E5. destruct (em_get_freed_mm_hashes _) as [hs e]. injection H as <- <-. split; [|done].
    trans s1; [done|]. by destruct (use_v2_model_runner _).
Qed.

(** The bound on the pending draft tokens of the requests [ids]. *)
Definition owed (spec : list (string * list Z)) (ids : list string) (id : string) : Z :=
  if decide (id ∈ ids) then zlen (default [] (od_get spec id)) else 0.

Lemma owed_nonneg spec ids id : 0 ≤ owed spec ids id.
Proof. unfold owed. case_decide; [apply zlen_nonneg|done]. Qed.

Lemma live_mono k k' r : k ≤ k' → live_req cfg k r → live_req cfg k' r.
Proof. intros Hk []. split; try done. lia. Qed.

(** The planned tokens count as computed. *)
Lemma after_schedule_kept s n b r b' r' :
  after_schedule s n b r = (b', r') →
  kept r r' ∧ status r' = status r ∧ num_computed_tokens r' = num_computed_tokens r + n.
Proof. unfold after_schedule. intros [= <- <-]. by destruct (defer_block_free _). Qed.

Lemma after_loop_ok k lw ls l s b s' b' :
  mfold (λ '(s, structured) '(id, n),
      r ← get_request s id;
      let '(structured, r) := after_schedule s n structured r in
      let s := put_request r s in
      Ok (if is_prefill_chunk r then s else set_inflight (inflight_prefills s ∖ {[id]}) s, structured))
    (s, b) l = Ok (s', b') →
  NoDup l.*1 → table_ok k s lw ls →
  (∀ id n, (id, n) ∈ l → ∃ r, od_get (requests s) id = Some r ∧
     num_computed_tokens r + n ≤ num_tokens r + k id ∧
     num_computed_tokens r + n + num_sampled_tokens_per_step cfg ≤ sc_max_model_len cfg) →
  table_ok k s' lw ls ∧ running s' = running s.
Proof.
  revert s b. induction l as [|[id n] l IH]; intros s b H Hnd Hok Hfit; cbn [mfold] in H; [by simplify_eq|].
  bind_inv H as [s1 b1] E. bind_inv E as r E1. apply get_request_Ok in E1.
  destruct (after_schedule s n b r) as [b2 r2] eqn:E2. injection E as Es1 <-.
  apply after_schedule_kept in E2 as (Hk & Est & Ec). rewrite fmap_cons in Hnd. apply NoDup_cons in Hnd as [Hni Hnd].
  pose proof (wf_store _ _ _ _ (tk_wf Hok) _ _ E1) as Hid.
  assert (request_id r2 = id) as Hid2 by (rewrite <-Hid; apply (kp_key _ _ Hk)).
  destruct (Hfit id n) as (r0 & Hr0 & Hc1 & Hc2); [by left|]. rewrite E1 in Hr0. injection Hr0 as <-.
  assert (table_ok k (put_request r2 s) lw ls) as Hok2.
  { apply (table_put k _ _ _ _ r); try done; [by rewrite Hid|apply Hk|]. rewrite Hid2.
    eapply live_kept; [done|rewrite Ec; lia..|]. by apply (tk_live Hok). }
  assert (same_table (put_request r2 s) s1) as Hf by (rewrite <-Es1; by destruct (is_prefill_chunk r2)).
  destruct (IH s1 b2 H Hnd) as [Hok' Erun]; [by eapply table_same| |split; [done|by rewrite Erun, (st_running _ _ Hf)]].
  intros id' n' Hin. rewrite (st_requests _ _ Hf). simpl. rewrite od_get_set, Hid2.
  rewrite decide_False; [apply Hfit; by right|]. intros ->. apply Hni. by apply (list_elem_of_fmap_2 fst) in Hin.
Qed.

Lemma schedule_ok sha set_iter grammar_ready throttle s lw ls o s' :
  config_ok cfg → async_scheduling cfg = false → table_ok (λ _, 0) s lw ls →
  schedule sha set_iter grammar_ready throttle s = Ok (o, s') →
  ∃ lw' ls', table_ok (owed (so_spec_decode_tokens o) (so_num_scheduled_tokens o).*1) s' lw' ls' ∧
    NoDup (so_num_scheduled_tokens o).*1 ∧ (∀ id, id ∈ (so_num_scheduled_tokens o).*1 → id ∈ running s').
Proof.
  intros Hcfg Hsync Hok H. unfold schedule in H. bind_inv H as [s1 st] E1. bind_inv H as u E2. bind_inv H as [o1 s2] E3.
  destruct (schedule_requests_ok _ _ _ _ _ _ _ _ _ (table_ready _ _ _ Hcfg Hok) E1) as (lw' & ls' & [Hph _ Hs Hr]).
  apply build_output_frame in E3 as (Hf2 & En & Esp). set (s3 := if _ && _ then _ else s2) in H.
  assert (same_table s1 s3) as Hf3 by (unfold s3; trans s2; [done|]; by destruct (_ && _)).
  set (k := owed (so_spec_decode_tokens o1) (so_num_scheduled_tokens o1).*1).
  assert (∀ id r, od_get (requests s1) id = Some r → live_req cfg 0 r) as Hlive.
  { intros id r Hid. destruct (ph_kept Hph _ _ Hid) as (r0 & Hr0 & Hk). pose proof (ph_req Hph _ _ Hid) as Hreq.
    pose proof (tk_live Hok _ _ Hr0) as Hl. rewrite (tk_config Hok) in Hreq. eapply live_kept; [done|..|done].
    - pose proof (rk_computed _ _ Hreq). pose proof (kp_placeholders _ _ Hk). pose proof (lr_placeholders _ _ _ Hl).
      rewrite (kept_num_tokens _ _ Hk) in *. lia.
    - apply Hreq. }
  assert (table_ok k s3 lw' ls') as Hok3.
  { apply (table_same _ s1); [done|]. destruct Hph as [Hwf Hst Hp Hk _ _ _ Hc _ Hg]. rewrite (tk_config Hok) in Hc, Hr.
    split; try done; [rewrite Hk, (tk_keys Hok); by symmetry|]. intros id r Hid.
    eapply live_mono; [apply owed_nonneg|by eapply Hlive]. }
  unfold _update_after_schedule in H. bind_inv H as [s4 b4] E4.
  destruct (after_loop_ok k lw' ls' _ _ _ _ _ E4) as [Hok4 Erun4]; [|done|..].
  { rewrite En. apply (ph_step Hph). }
  { intros id n Hin. unfold k, owed. rewrite decide_True by (by apply (list_elem_of_fmap_2 fst) in Hin).
    rewrite En in Hin. destruct (ph_fits Hph id n Hin) as (r & Hr' & Hc1 & Hc2). exists r.
    rewrite (st_requests _ _ Hf3), Esp. rewrite (tk_config Hok) in Hc2. split_and!; try done.
    pose proof (lr_placeholders _ _ _ (Hlive _ _ Hr')). lia. }
  simpl in H. rewrite (tk_config Hok4), Hsync in H. cbn [mbind result_bind] in H. injection H as <- <-.
  exists lw', ls'. cbn [so_spec_decode_tokens so_num_scheduled_tokens]. split_and!.
  - by apply (table_same _ s4).
  - rewrite En. apply (ph_step Hph).
  - intros id. rewrite En. intros Hin%Hs. simpl. by rewrite Erun4, (st_running _ _ Hf3).
Qed.
End table.

Arguments tk_wf {cfg k s lw ls}.
Arguments tk_keys {cfg k s lw ls}.
Arguments tk_config {cfg k s lw ls}.
Arguments tk_running {cfg k s lw ls}.
Arguments tk_live {cfg k s lw ls}.
Arguments tk_groups {cfg k s lw ls}.
