(* ===== verification/EngineReach.v ===== *)
(** * The engine core: its reachable states

    Processing the output of a step keeps the invariant of the request table; so
    every state the engine core reaches by adding and aborting requests, stepping,
    pausing and resuming is one in which a step can be planned. *)

From stdpp Require Import sorting.
From S2P Require Import Prelude OrderedDict KVBlock Request BlockPool KVSpecs Coordinator KVManager EncoderCache RequestQueue SchedUtils SchedState Schedule SchedUpdate Engine EncoderStep Termination SchedFrame SchedFacts SchedWaiting SchedTheorems EngineInv.

#[local] Open Scope Z_scope.

(** ** Processing an output *)

(** The hasher changes nothing of a request but its memo. *)
Definition hasher_ok (hasher : option block_hasher) : Prop :=
  ∀ f r hs r', hasher = Some f → f r = Ok (hs, r') → memo_of r r'.

(** [n] tokens were appended. *)
Record grown (n : Z) (r r' : Request) : Prop := {
  gw_key : same_key r r';
  gw_mm : mm_features r' = mm_features r;
  gw_placeholders : num_output_placeholders r' = num_output_placeholders r;
  gw_resumable : resumable r' = resumable r;
  gw_computed : num_computed_tokens r' = num_computed_tokens r;
  gw_sampling : sampling_params r' = sampling_params r;
  gw_tokens : num_tokens r' = num_tokens r + n;
  gw_output : num_output_tokens r' = num_output_tokens r + n;
}.

Lemma grown_refl r : grown 0 r r.
Proof. split; try done; lia. Qed.

Lemma grown_then n m r1 r2 r3 : grown n r1 r2 → grown m r2 r3 → grown (n + m) r1 r3.
Proof. intros [] []. split; [by etrans|congruence..|lia|lia]. Qed.

Lemma append_one_grown hasher t r r' :
  hasher_ok hasher → append_output_token_ids hasher [t] r = Ok r' → grown 1 r r' ∧ status r' = status r.
Proof.
  intros Hh H. unfold append_output_token_ids, update_block_hashes in H. set (r1 := set_all_token_ids _ _) in H.
  assert (grown 1 r r1 ∧ status r1 = status r) as [Hg Hs].
  { split; [|done]. split; try done; unfold r1, num_tokens, num_output_tokens; simpl; by rewrite zlen_app. }
  destruct hasher as [f|]; [|by simplify_eq]. bind_inv H as [hs r2] E. injection H as <-.
  destruct (Hh f _ _ _ eq_refl E) as [m ->]. by destruct Hg.
Qed.

Lemma check_stop_grown r len b r' :
  check_stop r len = Ok (b, r') →
  grown 0 r r' ∧ (b = false → r' = r ∧
    (num_tokens r < len ∨ ∃ sp, sampling_params r = Some sp ∧ num_output_tokens r < min_tokens sp)).
Proof.
  unfold check_stop. intros H. bind_inv H as u E. destruct (sampling_params r) as [sp|] eqn:Esp; [|done].
  assert (∀ r', same_key r r' → mm_features r' = mm_features r → num_output_placeholders r' = num_output_placeholders r →
    resumable r' = resumable r → num_computed_tokens r' = num_computed_tokens r → sampling_params r' = sampling_params r →
    all_token_ids r' = all_token_ids r → output_token_ids r' = output_token_ids r → grown 0 r r') as Hg.
  { intros r1 **. split; try done; unfold num_tokens, num_output_tokens; rewrite Z.add_0_r; congruence. }
  case_inv H as E1; [simplify_eq; split; [apply grown_refl|]; intros _; split; [done|]; right; exists sp; split; [done|lia]|].
  bind_inv H as t E2. case_inv H as E3; [simplify_eq; split; [by apply Hg|done]|].
  case_inv H as E4; [simplify_eq; split; [by apply Hg|done]|].
  case_inv H as E5; [simplify_eq; split; [by apply Hg|done]|].
  bind_inv H as rp E6. destruct rp; simplify_eq; [split; [by apply Hg|done]|].
  split; [apply grown_refl|]. intros _. split; [done|]. left. apply orb_false_iff in E5. lia.
Qed.

Lemma append_tokens_ok hasher len toks r out stopped r' :
  hasher_ok hasher → append_tokens hasher len toks r = Ok (out, stopped, r') →
  ∃ n, grown n r r' ∧ (stopped = false → n = zlen toks ∧ status r' = status r ∧
    (toks ≠ [] → num_tokens r' < len ∨ ∃ sp, sampling_params r' = Some sp ∧ num_output_tokens r' < min_tokens sp)).
Proof.
  intros Hh. revert r out. induction toks as [|t toks IH]; intros r out H; simpl in H.
  { simplify_eq. exists 0. split; [apply grown_refl|done]. }
  bind_inv H as r1 E1. apply append_one_grown in E1 as [Hg1 Hs1]; [|done]. bind_inv H as [b r2] E2.
  apply check_stop_grown in E2 as [Hg2 Hb]. pose proof (grown_then _ _ _ _ _ Hg1 Hg2) as Hg.
  destruct b; [simplify_eq; exists (1 + 0); by split|]. destruct (Hb eq_refl) as [-> Hlim].
  bind_inv H as [[k st] r3] E3. simplify_eq. destruct (IH _ _ E3) as (n & Hg3 & Hst).
  exists (1 + 0 + n). split; [by eapply grown_then|]. intros E. destruct (Hst E) as (-> & Hs3 & Hl3).
  split_and!; [rewrite zlen_cons; lia|congruence|]. intros _.
  destruct toks as [|t' toks]; [|by apply Hl3]. simpl in E3. simplify_eq. done.
Qed.

(** The tokens, the pooling output and the grammar. *)
Lemma apply_output_ok sha hasher should_advance accept_tokens s r gen pooled toks stopped r' s' :
  hasher_ok hasher → async_scheduling (config s) = false →
  apply_output sha hasher should_advance accept_tokens s r gen pooled = Ok (toks, stopped, r', s') →
  s' = s ∧ same_key r r' ∧ (resumable r = false → resumable r' = false) ∧
  (stopped = false → grown (zlen gen) r r' ∧ status r' = status r ∧
    (gen ≠ [] → num_tokens r' < sc_max_model_len (config s) ∨
       ∃ sp, sampling_params r' = Some sp ∧ num_output_tokens r' < min_tokens sp)).
Proof.
  intros Hh Hsync H. unfold apply_output in H. bind_inv H as [[[t1 st1] r1] s1] E.
  assert (s1 = s ∧ same_key r r1 ∧ resumable r1 = resumable r ∧
    (st1 = false → grown (zlen gen) r r1 ∧ status r1 = status r ∧
      (gen ≠ [] → num_tokens r1 < sc_max_model_len (config s) ∨
         ∃ sp, sampling_params r1 = Some sp ∧ num_output_tokens r1 < min_tokens sp))) as (-> & Hk & Hres & Hlive).
  { destruct gen as [|t gen].
    - destruct (pooling_params r), pooled; simplify_eq; split_and!; try done; intros; split_and!; try done; apply grown_refl.
    - unfold _update_request_with_output in E. rewrite Hsync in E. cbn [negb] in E. bind_inv E as [[kp st] r2] E1.
      injection E as <- <- <- <-. apply append_tokens_ok in E1 as (n & Hg & Hst); [|done].
      split_and!; try done; try apply Hg. intros Es. destruct (Hst Es) as (-> & ? & Hl). done. }
  destruct t1 as [|t t1]; [simplify_eq; split_and!; try done; by rewrite Hres|].
  case_inv H as Ea; [|simplify_eq; split_and!; try done; by rewrite Hres]. bind_inv H as u E1.
  case_inv H as Eg; simplify_eq; split_and!; try done; by rewrite Hres.
Qed.

(** ** What the engine relies on of the model runner *)

(** The tokens sampled for a request. *)
Definition generated_for (out : ModelRunnerOutput) (id : string) : list Z :=
  match req_id_to_index out !! id with
  | Some i => default [] (sampled_token_ids out !! i)
  | None => []
  end.

(** A request with draft tokens is past its known tokens, so a token is sampled;
    at most all draft tokens are accepted beside the sampled ones. *)
Definition runner_ok (cfg : SchedulerConfig) (o : SchedulerOutput) (out : ModelRunnerOutput) : Prop :=
  ∀ id, id ∈ (so_num_scheduled_tokens o).*1 →
    let spec := default [] (od_get (so_spec_decode_tokens o) id) in
    let generated := generated_for out id in
    (spec ≠ [] → generated ≠ []) ∧ zlen generated ≤ zlen spec + num_sampled_tokens_per_step cfg.

Section update.
Context (sha : list bytes → bytes) (hasher : option block_hasher) (set_iter : gset nat → list nat).
Context (should_advance : Request → bool) (accept_tokens : Request → list Z → bool).
Context (cfg : SchedulerConfig) (Hsync : async_scheduling cfg = false)
  (Hsampled : 0 ≤ num_sampled_tokens_per_step cfg ≤ 1) (Hhash : hasher_ok hasher).

(** Rejected draft tokens are no longer counted as computed. *)
Lemma take_back_ok spec gen r k :
  live_req cfg k r → k ≤ zlen spec → (spec ≠ [] → gen ≠ []) →
  zlen gen ≤ zlen spec + num_sampled_tokens_per_step cfg →
  let r' := take_back_rejected cfg spec gen r in
  kept r r' ∧ status r' = status r ∧ num_computed_tokens r' ≤ num_computed_tokens r ∧
  num_computed_tokens r' ≤ num_tokens r + zlen gen.
Proof.
  intros Hl Hk Hgen Hlen. unfold take_back_rejected. pose proof (zlen_nonneg gen). pose proof (zlen_nonneg spec).
  pose proof (zlen_nonneg (all_token_ids r)). pose proof (lr_computed _ _ _ Hl). unfold num_tokens in *.
  assert (kept r r) as Hrefl by done.
  destruct (Z.eqb_spec (zlen spec) 0) as [E|E]; cbn [negb andb]; [split_and!; try done; lia|].
  assert (zlen gen ≠ 0) as Hg.
  { intros Eg. apply Hgen; [by intros ->|]. by destruct gen. }
  destruct (Z.eqb_spec (zlen gen) 0) as [?|_]; [done|]. cbn [negb orb].
  assert (∀ r1, num_output_placeholders r1 = 0 → (if 0 <? num_output_placeholders r1
    then set_num_output_placeholders (num_output_placeholders r1 - (zlen spec - Z.max (zlen gen - num_sampled_tokens_per_step cfg) 0)) r1
    else r1) = r1) as Hph by (by intros r1 ->).
  destruct (Z.ltb_spec 0 (num_computed_tokens r)) as [Hc|Hc]; rewrite Hph by apply Hl.
  - split_and!; [done|done|simpl; lia..].
  - split_and!; [done|done|lia..].
Qed.

(** A request that goes on after its output was processed. *)
Lemma live_after spec gen r r2 k :
  live_req cfg k r → k ≤ zlen spec → (spec ≠ [] → gen ≠ []) →
  zlen gen ≤ zlen spec + num_sampled_tokens_per_step cfg →
  grown (zlen gen) (take_back_rejected cfg spec gen r) r2 → status r2 = status r →
  (gen ≠ [] → num_tokens r2 < sc_max_model_len cfg ∨
     ∃ sp, sampling_params r2 = Some sp ∧ num_output_tokens r2 < min_tokens sp) →
  live_req cfg 0 r2.
Proof.
  intros Hl Hk Hg Hlen [Gk Gm Gp Gr Gc Gs Gt Go] Est Hlim.
  destruct (take_back_ok spec gen r k Hl Hk Hg Hlen) as (Hkept & _ & Hc1 & Hc2).
  set (r1 := take_back_rejected cfg spec gen r) in *. destruct Hl as [L1 L2 L3 L4 L5 L6 L7 L8].
  pose proof (kept_num_tokens _ _ Hkept) as Et.
  assert (num_output_tokens r1 = num_output_tokens r) as Eo by (unfold num_output_tokens; by rewrite (kp_output _ _ Hkept)).
  assert (∀ sp, sampling_params r2 = Some sp → num_tokens r2 - num_output_tokens r2 + min_tokens sp ≤ sc_max_model_len cfg) as Hmin.
  { intros sp. rewrite Gs, (kp_sampling _ _ Hkept). intros Esp. specialize (L8 sp Esp). lia. }
  split; try lia.
  - unfold starts_sorted in *. by rewrite Gm, (kp_mm _ _ Hkept).
  - rewrite Gp. by rewrite (kp_placeholders _ _ Hkept).
  - by rewrite Gr, (kp_resumable _ _ Hkept).
  - by rewrite Est.
  - destruct gen as [|t gen]; [change (zlen []) with 0 in Gt; lia|].
    destruct Hlim as [?|(sp & Esp & ?)]; [done|lia|]. specialize (Hmin sp Esp). lia.
  - done.
Qed.

Lemma free_encoder_frame s r s' : _free_encoder_inputs set_iter s r = Ok s' → same_table s s'.
Proof. unfold _free_encoder_inputs. intros H. bind_inv H as e E. by simplify_eq. Qed.

(** The scheduler without the stopped requests, which are taken from the running
    list at the end. *)
Definition settled (stopped : list string) (s : Scheduler) : Scheduler :=
  set_running (filter (λ x, x ∉ stopped) (running s)) s.

Lemma od_set_set {V} (l : list (string * V)) k v1 v2 : od_set (od_set l k v1) k v2 = od_set l k v2.
Proof.
  induction l as [|[k' v] l IH]; simpl; [by rewrite decide_True|].
  destruct (decide (k = k')) as [->|Hne]; simpl; [by rewrite decide_True|]. by rewrite decide_False, IH.
Qed.

Lemma settled_same stopped s s' : same_table s s' → same_table (settled stopped s) (settled stopped s').
Proof. intros []. split; try done; unfold settled; simpl; congruence. Qed.

(** A running request stops: it leaves the table. *)
Lemma settled_stop k k' s s' lw ls stopped id :
  table_ok cfg k (settled stopped s) lw ls → id ∈ running (settled stopped s) →
  same_table (set_requests (od_del (requests s) id) s) s' → (∀ x, x ≠ id → k' x = k x) →
  table_ok cfg k' (settled (stopped ++ [id]) s') lw ls.
Proof.
  intros Hok Hid Hf Hkk. pose proof (tk_wf Hok) as Hwf.
  assert (∀ l, l ⊆ lw ++ ls → filter (λ x, request_id x ∉ [id]) l = l) as Hq.
  { intros l Hl. apply filter_all. intros x Hx Ex%list_elem_of_singleton.
    pose proof (wf_ids _ _ _ _ Hwf) as Hnd. apply NoDup_app in Hnd as (_ & Hd & _). apply (Hd _ Hid).
    rewrite <-Ex. apply list_elem_of_fmap_2. rewrite app_nil_r. by apply Hl. }
  apply (table_same _ _ (settled (stopped ++ [id]) (set_requests (od_del (requests s) id) s))).
  { by apply settled_same. }
  apply (table_weaken _ k).
  { intros x r Hx Hl. rewrite Hkk; [done|]. intros ->. simpl in Hx.
    assert (id ∉ (od_del (requests s) id).*1) as Hn by (rewrite od_del_keys; rewrite list_elem_of_filter; tauto).
    apply od_get_None in Hn. congruence. }
  rewrite <-(Hq lw), <-(Hq ls) by set_solver.
  apply (table_drop _ _ (settled stopped s)); try done; simpl.
  - apply list_filter_iff_elem. intros x _. by rewrite list_elem_of_singleton.
  - rewrite list_filter_filter. apply list_filter_iff_elem. intros x _. rewrite not_elem_of_app. tauto.
  - rewrite Hq by set_solver. rewrite <-(tk_config Hok). apply (wf_waiting _ _ _ _ Hwf).
  - rewrite Hq by set_solver. rewrite <-(tk_config Hok). apply (wf_skipped _ _ _ _ Hwf).
Qed.

(** The state of the loop over the batch: the requests [ids] are still to come. *)
Record batch_inv (spec : list (string * list Z)) (ids : list string) (s : Scheduler) (us : UpdateState)
    (lw ls : list Request) : Prop := {
  bi_ok : table_ok cfg (owed spec ids) (settled (us_stopped_running us) s) lw ls;
  bi_nodup : NoDup (running s);
  bi_preempted : us_stopped_preempted us = [];
  bi_running : ∀ id, id ∈ ids → is_Some (od_get (requests s) id) → id ∈ running (settled (us_stopped_running us) s);
}.

Lemma owed_other spec id ids x : x ≠ id → owed spec ids x = owed spec (id :: ids) x.
Proof. intros Hx. unfold owed. repeat case_decide; set_solver. Qed.

Lemma batch_outputs spec ids s us outs lw ls :
  batch_inv spec ids s us lw ls →
  batch_inv spec ids s (mkUpdateState outs (us_stopped_running us) (us_stopped_preempted us)) lw ls.
Proof. by intros []. Qed.

(** The request goes on with the state [r]. *)
Lemma batch_put spec id ids s s' us lw ls r0 r :
  batch_inv spec (id :: ids) s us lw ls → id ∉ ids → od_get (requests s) id = Some r0 → same_key r0 r →
  status r = status r0 → live_req cfg 0 r → same_table (put_request r s) s' →
  batch_inv spec ids s' us lw ls.
Proof.
  intros [Hok Hnd Hpre Hrun] Hni Hr0 Hkey Est Hlive Hf.
  pose proof (wf_store _ _ _ _ (tk_wf Hok) _ _ Hr0) as Hid.
  assert (request_id r = id) as Hid' by (rewrite <-Hid; apply Hkey).
  assert (Er := st_running _ _ Hf). simpl in Er. split; try done.
  - eapply table_same; [by apply settled_same|].
    apply (table_put cfg (owed spec (id :: ids)) _ (settled (us_stopped_running us) s) _ _ r0); try done.
    + by rewrite Hid.
    + intros x Hx. apply owed_other. by rewrite <-Hid'.
    + rewrite Hid'. unfold owed. by rewrite decide_False.
  - by rewrite Er.
  - intros x Hx Hsome. unfold settled. simpl. rewrite Er. apply Hrun; [by right|].
    rewrite (st_requests _ _ Hf) in Hsome. simpl in Hsome. rewrite od_get_set in Hsome. case_decide; [|done].
    subst. by rewrite Hid', Hr0.
Qed.

Lemma batch_stop spec id ids s s' us lw ls r0 :
  batch_inv spec (id :: ids) s us lw ls → id ∉ ids → od_get (requests s) id = Some r0 →
  same_table (set_requests (od_del (requests s) id) s) s' →
  batch_inv spec ids s' (mkUpdateState (us_outputs us) (us_stopped_running us ++ [id]) (us_stopped_preempted us)) lw ls.
Proof.
  intros [Hok Hnd Hpre Hrun] Hni Hr0 Hf. assert (Er := st_running _ _ Hf). simpl in Er.
  assert (id ∈ running (settled (us_stopped_running us) s)) as Hin by (apply Hrun; [by left|by rewrite Hr0]).
  split; try done; simpl.
  - eapply settled_stop; try done. intros x Hx. by apply owed_other.
  - by rewrite Er.
  - intros x Hx. rewrite (st_requests _ _ Hf), Er. simpl. intros Hsome.
    assert (x ≠ id) as Hne by (by intros ->). rewrite od_get_del_ne in Hsome by done.
    destruct (list_elem_of_filter (λ x, x ∉ us_stopped_running us) (running s) x) as [Hf' _].
    destruct Hf' as [H1 H2]; [apply (Hrun x); [by right|done]|].
    apply list_elem_of_filter. split; [|done]. rewrite not_elem_of_app, list_elem_of_singleton. done.
Qed.

Lemma batch_skip spec id ids s us lw ls :
  batch_inv spec (id :: ids) s us lw ls → od_get (requests s) id = None → batch_inv spec ids s us lw ls.
Proof.
  intros [Hok Hnd Hpre Hrun] Hnone. split; try done; [|intros x Hx; apply Hrun; by right].
  eapply table_weaken; [|done]. intros x r Hx Hl. rewrite (owed_other _ id); [done|]. intros ->. simpl in Hx. congruence.
Qed.

Lemma generated_ok (out : ModelRunnerOutput) id i gen :
  req_id_to_index out !! id = Some i →
  match sampled_token_ids out with [] => Ok [] | rows => py_index rows (Z.of_nat i) end = Ok gen →
  gen = generated_for out id.
Proof.
  intros Hi H. unfold generated_for. rewrite Hi. destruct (sampled_token_ids out) as [|row rows]; [by simplify_eq|].
  unfold py_index in H. rewrite Nat2Z.id in H. by destruct ((row :: rows) !! i); simplify_eq.
Qed.

Lemma update_request_ok o out s us id n ids lw ls s' us' :
  runner_ok cfg o out → id ∈ (so_num_scheduled_tokens o).*1 → id ∉ ids →
  batch_inv (so_spec_decode_tokens o) (id :: ids) s us lw ls →
  update_request sha hasher set_iter should_advance accept_tokens o out s us id n = Ok (s', us') →
  batch_inv (so_spec_decode_tokens o) ids s' us' lw ls.
Proof.
  intros Hout Hkey Hni Hinv H. unfold update_request in H. bind_inv H as u0 E0.
  destruct (od_get (requests s) id) as [r|] eqn:Hr; [|simplify_eq; by eapply batch_skip].
  pose proof (bi_ok _ _ _ _ _ _ Hinv) as Hok.
  destruct (table_status _ _ _ _ _ id r Hok Hr) as [Hfin Hst]. rewrite Hfin in H.
  assert (status r = RUNNING) as Hrun.
  { apply Hst. apply (bi_running _ _ _ _ _ _ Hinv); [by left|by rewrite Hr]. }
  destruct (req_id_to_index out !! id) as [i|] eqn:Hi; [|done].
  bind_inv H as gen E1. apply (generated_ok _ _ _ _ Hi) in E1. destruct (Hout id Hkey) as [Hg1 Hg2]. rewrite <-E1 in Hg1, Hg2.
  set (spec := default [] (od_get (so_spec_decode_tokens o) id)) in *.
  assert (config s = cfg) as Ecfg by apply (tk_config Hok). rewrite Ecfg in H.
  assert (live_req cfg (zlen spec) r) as Hlive.
  { pose proof (tk_live Hok id r Hr) as Hl. unfold owed in Hl. by rewrite decide_True in Hl by left. }
  destruct (take_back_ok spec gen r _ Hlive ltac:(done) Hg1 Hg2) as (Hkept & Est & _).
  set (r1 := take_back_rejected cfg spec gen r) in *.
  pose proof (wf_store _ _ _ _ (tk_wf Hok) _ _ Hr) as Hid.
  assert (request_id r1 = id) as Hid1 by (rewrite <-Hid; apply (kp_key _ _ Hkept)).
  bind_inv H as s2 E2. assert (same_table (put_request r1 s) s2) as Hf2.
  { case_inv E2 as Ee; [by apply free_encoder_frame in E2|by simplify_eq]. }
  bind_inv H as pooled E3. bind_inv H as [[[toks stopped] r2] s3] E4.
  apply apply_output_ok in E4 as (-> & Hk2 & Hres & Hgo); [|done|].
  2:{ rewrite (st_config _ _ Hf2). simpl. by rewrite Ecfg. }
  assert (request_id r2 = id) as Hid2 by (rewrite <-Hid1; apply Hk2).
  assert (resumable r2 = false) as Hres2.
  { apply Hres. rewrite (kp_resumable _ _ Hkept). apply Hlive. }
  rewrite Est, Hrun in H. bind_inv H as [[r3 s3] us3] E5. rewrite bool_decide_true in E5 by done.
  assert (batch_inv (so_spec_decode_tokens o) ids s3 us3 lw ls) as Hinv3.
  { assert (requests (put_request r2 s2) = od_set (od_set (requests s) id r1) id r2) as Ereq.
    { simpl. by rewrite (st_requests _ _ Hf2), Hid2; simpl; rewrite Hid1. }
    destruct stopped.
    - unfold _handle_stopped_request in E5. rewrite Hres2 in E5. cbn [negb mbind result_bind] in E5.
      bind_inv E5 as s4 E6. injection E5 as <- <- <-. eapply batch_stop; [done..|].
      apply free_request_frame in E6. rewrite Ereq, Hid2, !od_del_set in E6.
      destruct E6 as [Q1 Q2 Q3 Q4 Q5 Q6 Q7], Hf2 as [P1 P2 P3 P4 P5 P6 P7]. simpl in *.
      split; simpl; try congruence. change (kv_groups s4 = kv_groups s). rewrite Q7. exact P7.
    - injection E5 as <- <- <-. destruct (Hgo eq_refl) as (Hgrow & Est2 & Hlim).
      eapply (batch_put _ id ids s _ _ _ _ r r2); try done.
      + trans r1; [apply Hkept|done].
      + congruence.
      + rewrite (st_config _ _ Hf2) in Hlim. simpl in Hlim. rewrite Ecfg in Hlim.
        eapply (live_after spec gen r); try done. congruence.
      + destruct Hf2 as [P1 P2 P3 P4 P5 P6 P7]. simpl in *. split; simpl; try congruence; try done.
        rewrite P2, Hid1, Hid2. apply od_set_set. }
  case_inv H as Ef; simplify_eq; [by apply batch_outputs|done].
Qed.

Lemma batch_loop_ok o out l s us lw ls s' us' :
  runner_ok cfg o out → l.*1 ⊆ (so_num_scheduled_tokens o).*1 → NoDup l.*1 →
  batch_inv (so_spec_decode_tokens o) l.*1 s us lw ls →
  mfold (λ '(s, us) '(id, n),
    update_request sha hasher set_iter should_advance accept_tokens o out s us id n) (s, us) l = Ok (s', us') →
  batch_inv (so_spec_decode_tokens o) [] s' us' lw ls.
Proof.
  intros Hout. revert s us. induction l as [|[id n] l IH]; intros s us Hsub Hnd Hinv H; cbn [mfold] in H; [by simplify_eq|].
  bind_inv H as [s1 us1] E. rewrite fmap_cons in Hsub, Hnd, Hinv. cbn [fst] in Hsub, Hnd, Hinv.
  apply NoDup_cons in Hnd as [Hni Hnd]. apply (IH s1 us1); [set_solver|done| |done].
  apply (update_request_ok o out s us id n); [done|set_solver|done..].
Qed.

Lemma drain_frame entries s s' : drain_loop entries s = Ok s' → same_table s s'.
Proof.
  revert s. induction entries as [|[f bs] entries IH]; intros s H; simpl in H; [by simplify_eq|].
  case_inv H as E; [by simplify_eq|]. bind_inv H as p E1. apply IH in H. by destruct H.
Qed.

(** Processing the output of a planned step; requests may have been aborted in
    between. *)
Lemma update_from_output_ok s lw ls o out outs s' :
  runner_ok cfg o out → NoDup (so_num_scheduled_tokens o).*1 →
  table_ok cfg (owed (so_spec_decode_tokens o) (so_num_scheduled_tokens o).*1) s lw ls →
  (∀ id, id ∈ (so_num_scheduled_tokens o).*1 → is_Some (od_get (requests s) id) → id ∈ running s) →
  update_from_output sha hasher set_iter should_advance accept_tokens s o out = Ok (outs, s') →
  table_ok cfg (λ _, 0) s' lw ls.
Proof.
  intros Hout Hnd Hok Hrun H. unfold update_from_output in H. bind_inv H as s1 E1. bind_inv H as [s2 us] E2.
  bind_inv H as s3 E3.
  assert (same_table s s1) as Hf1.
  { case_inv E1 as E; [|by simplify_eq]. apply drain_frame in E1. by destruct E1. }
  pose proof (table_same _ _ _ _ _ _ Hf1 Hok) as Hok1.
  pose proof (wf_ids _ _ _ _ (tk_wf Hok1)) as Hids. apply NoDup_app in Hids as (Hids & _).
  assert (settled [] s1 = s1) as Es1.
  { unfold settled. rewrite filter_all by (intros; apply not_elem_of_nil). by destruct s1. }
  apply batch_loop_ok with (lw := lw) (ls := ls) in E2 as [Hok2 Hnd2 Hpre2 _]; try done.
  2:{ split; cbn [us_stopped_running]; rewrite ?Es1; try done. intros id Hid. rewrite (st_requests _ _ Hf1), (st_running _ _ Hf1). by apply Hrun. }
  rewrite Hpre2 in E3. injection E3 as <-. rewrite remove_all_nodup in H by done. fold (settled (us_stopped_running us) s2) in H.
  destruct (km_take_events _) as [ev k] eqn:Ek. injection H as _ <-.
  apply (table_weaken _ (owed (so_spec_decode_tokens o) [])); [intros id r _; unfold owed; by rewrite decide_False by set_solver|].
  apply (table_same _ _ (settled (us_stopped_running us) s2)); [|done].
  unfold km_take_events in Ek. by destruct (take_events _); simplify_eq.
Qed.
End update.

(** ** Draft tokens and resets *)

Section reach.
Context (sha : list bytes → bytes) (hasher : option block_hasher) (set_iter : gset nat → list nat)
  (id_iter : gset string → list string).
Context (grammar_ready should_advance : Request → bool) (accept_tokens : Request → list Z → bool)
  (validate_tokens : Request → list Z → list Z).
Context (execute_model : SchedulerOutput → option (list string) → ModelRunnerOutput)
  (take_draft_token_ids : SchedulerOutput → option (list (string * list Z))).
Context (cfg : SchedulerConfig).
Notation idle := (table_ok cfg (λ _, 0)).

Lemma update_drafts_ok drafts s lw ls :
  idle s lw ls → idle (update_draft_token_ids should_advance validate_tokens s drafts) lw ls.
Proof.
  unfold update_draft_token_ids. revert s. induction drafts as [|[id spec] drafts IH]; intros s Hok; [done|]. simpl.
  apply IH. destruct (od_get (requests s) id) as [r|] eqn:Hr; [|done].
  pose proof (wf_store _ _ _ _ (tk_wf Hok) _ _ Hr) as Hid. pose proof (tk_live Hok _ _ Hr) as Hl.
  assert (∀ l, idle (put_request (set_spec_token_ids l r) s) lw ls) as Hput.
  { intros l. apply (table_put cfg (λ _, 0) _ _ _ _ r); try done; [by rewrite Hid|]. by apply (live_kept _ _ r); try apply Hl. }
  destruct (is_finished r); [done|]. destruct (is_prefill_chunk r); apply Hput.
Qed.

Lemma table_preempt s lw ls r s' :
  idle s lw ls → request_id r ∈ running s → od_get (requests s) (request_id r) = Some r →
  _preempt_request set_iter (set_running (remove_first (request_id r) (running s)) s) r = Ok s' →
  ∃ lw', idle s' lw' ls ∧ running s' = remove_first (request_id r) (running s) ∧
    od_get (requests s') (request_id r) = Some (preempted r).
Proof.
  intros [Hwf Hk Hc Hr Hl Hg] Hin Hv H. destruct (wf_take_running _ _ _ _ _ Hwf Hin) as [Hwf1 Hni].
  pose proof (preempt_table _ _ _ _ H) as Et. simpl in Et.
  destruct (preempt_wf _ _ _ _ _ _ _ Hwf1 Hv Hni H) as (lw' & Hwf' & Hperm & Erun & Ec & Eps & Eg). simpl in *.
  exists lw'. split_and!; [|done|rewrite Et, od_get_set; by rewrite decide_True].
  split; rewrite ?Ec, ?Erun; try done.
  - rewrite Et, od_set_same_keys, Hk by (by rewrite Hv). unfold places. rewrite Erun, !fmap_app, Hperm.
    rewrite (remove_first_perm _ _ Hin) at 1. solve_Permutation.
  - pose proof (remove_first_length _ _ Hin). unfold zlen in *. lia.
  - intros id r1. rewrite Et, od_get_set. case_decide; [|by apply Hl]. intros [= <-].
    pose proof (Hl _ _ Hv) as Hlive. pose proof (zlen_nonneg (all_token_ids r)).
    apply (live_kept _ _ r); try done; simpl; pose proof (lr_tokens _ _ _ Hlive); unfold num_tokens in *; lia.
  - by rewrite Eg.
Qed.

Lemma reset_running_ok s lw ls s' :
  idle s lw ls → reset_running set_iter s = Ok s' → ∃ lw', idle s' lw' ls.
Proof.
  unfold reset_running. remember (reverse (running s)) as l eqn:El. revert s lw El.
  induction l as [|id l IH]; intros s lw El Hok H; cbn [mfold] in H; [simplify_eq; eauto|].
  bind_inv H as s1 E. bind_inv E as r E1. apply get_request_Ok in E1.
  assert (last (running s) = Some id) as Hlast.
  { rewrite <-(reverse_involutive (running s)), <-El, reverse_cons. apply last_snoc. }
  pose proof (wf_ids _ _ _ _ (tk_wf Hok)) as Hnd. apply NoDup_app in Hnd as (Hnd & _).
  rewrite <-(remove_first_last _ _ Hnd Hlast) in E. bind_inv E as s2 E2.
  assert (request_id r = id) as Hid by (apply (wf_store _ _ _ _ (tk_wf Hok)) in E1; done).
  destruct (table_preempt s lw ls r s2) as (lw1 & Hok2 & Erun & Hget); rewrite ?Hid in *; try done.
  { apply last_Some in Hlast as [l' ->]. set_solver. }
  bind_inv E as r2 E3. apply get_request_Ok in E3. rewrite Hget in E3. injection E3 as <-. injection E as <-.
  set (s3 := put_request _ s2) in H. apply (IH s3 lw1); [| |exact H].
  - change (l = reverse (running s2)). rewrite Erun, (remove_first_last _ _ Hnd Hlast).
    rewrite <-(reverse_involutive (running s)), <-El, reverse_cons, length_app. simpl.
    rewrite Nat.add_sub, take_app_length. by rewrite reverse_involutive.
  - pose proof (tk_live Hok2 _ _ Hget) as Hl.
    apply (table_put cfg (λ _, 0) _ _ _ _ (preempted r)); try done; [by rewrite <-Hid in Hget|].
    split; try apply Hl; done.
Qed.

Lemma table_pause k ps s lw ls : table_ok cfg k s lw ls → table_ok cfg k (set_pause_state ps s) lw ls.
Proof. intros [Hwf Hk Hc Hr Hl Hg]. split; try done. by destruct Hwf. Qed.

Lemma reset_caches_ok s lw ls s' : idle s lw ls → _reset_caches set_iter s = Ok s' → ∃ lw', idle s' lw' ls.
Proof.
  intros Hok H. unfold _reset_caches, sched_reset_prefix_cache in H. bind_inv H as [b s1] E. injection H as <-.
  bind_inv E as s2 E1. bind_inv E1 as s3 E2. injection E1 as <-. bind_inv E as [ok k] E3.
  destruct (reset_running_ok s lw ls s3 Hok E2) as [lw' Hok3].
  unfold km_reset_prefix_cache in E3. destruct (reset_prefix_cache _) as [ok' p] eqn:E4.
  assert (attention_groups (coordinator k) = attention_groups (coordinator (kv_cache_manager s3))) as Eg.
  { destruct (negb ok'); [by simplify_eq|]. case_inv E3 as E5; [|by simplify_eq].
    destruct (prefix_cache_stats _); by simplify_eq. }
  case_inv E as E6; [done|]. injection E as _ <-. exists lw'. by apply (table_same _ _ s3).
Qed.

(** ** The engine core *)

(** A scheduler as it is constructed. *)
Record initial (s : Scheduler) : Prop := {
  in_config : config s = cfg;
  in_requests : requests s = [];
  in_waiting : waiting s = create_request_queue (policy cfg);
  in_skipped : skipped_waiting s = create_request_queue (policy cfg);
  in_running : running s = [];
  in_groups : positive_sizes (kv_groups s);
}.

(** The calls of the clients and the rounds of the core loop.  Ids and objects of
    new requests are fresh; the model runner keeps its promise on the step that
    was planned. *)
Inductive engine_reachable : Scheduler → Prop :=
  | er_init s : initial s → engine_reachable s
  | er_add s r s' : engine_reachable s → od_get (requests s) (request_id r) = None →
      (∀ id r', od_get (requests s) id = Some r' → obj_addr r' ≠ obj_addr r) → new_ok cfg r →
      engine_add_request hasher set_iter id_iter s r = Ok s' → engine_reachable s'
  | er_abort s ids s' : engine_reachable s → abort_requests set_iter id_iter s ids = Ok s' → engine_reachable s'
  | er_step s aborts outs o s' b : engine_reachable s →
      engine_step sha hasher set_iter id_iter grammar_ready should_advance accept_tokens execute_model s aborts
        = Ok (outs, o, s') →
      (∀ p g, o = Some p → runner_ok cfg p (execute_model p g)) →
      engine_reachable (post_step should_advance validate_tokens take_draft_token_ids b s' o)
  | er_pause s mode clear s' : engine_reachable s → pause_scheduler set_iter s mode clear = Ok s' →
      engine_reachable s'
  | er_resume s : engine_reachable s → engine_reachable (resume_scheduler s).

Lemma abort_ok k s lw ls ids s' :
  table_ok cfg k s lw ls → abort_requests set_iter id_iter s ids = Ok s' →
  ∃ lw' ls', table_ok cfg k s' lw' ls' ∧
    (∀ id, id ∈ running s → is_Some (od_get (requests s') id) → id ∈ running s').
Proof.
  intros Hok H. unfold abort_requests in H. bind_inv H as [out s1] E. injection H as <-.
  destruct (finish_ok _ _ _ _ _ _ _ _ _ _ Hok E) as (lw' & ls' & ? & _ & ?). by exists lw', ls'.
Qed.

Lemma pause_ok s lw ls mode clear s' :
  idle s lw ls → pause_scheduler set_iter s mode clear = Ok s' → ∃ lw' ls', idle s' lw' ls'.
Proof.
  intros Hok H. unfold pause_scheduler in H.
  assert (∀ s1 lw1 ls1 ps, idle s1 lw1 ls1 →
    (if clear then _reset_caches set_iter (set_pause_state ps s1) else Ok (set_pause_state ps s1)) = Ok s' →
    ∃ lw' ls', idle s' lw' ls') as Hend.
  { intros s1 lw1 ls1 ps Hok1 E. apply (table_pause _ ps) in Hok1. case_inv E as Ec; [|simplify_eq; eauto].
    destruct (reset_caches_ok _ _ _ _ Hok1 E). eauto. }
  destruct mode; [|done|].
  - bind_inv H as s1 E. bind_inv E as [out s2] E2. injection E as <-.
    destruct (finish_ok _ _ _ _ _ _ _ _ _ _ Hok E2) as (lw' & ls' & Hok2 & _). by eapply Hend.
  - cbn [mbind result_bind] in H. by eapply Hend.
Qed.

Context (Hcfg : config_ok cfg) (Hmax : 0 ≤ max_num_running_reqs cfg) (Hsync : async_scheduling cfg = false)
  (Hsampled : 0 ≤ num_sampled_tokens_per_step cfg ≤ 1) (Hhash : hasher_ok hasher).

Lemma step_ok s lw ls aborts outs o s' :
  idle s lw ls →
  engine_step sha hasher set_iter id_iter grammar_ready should_advance accept_tokens execute_model s aborts
    = Ok (outs, o, s') →
  (∀ p g, o = Some p → runner_ok cfg p (execute_model p g)) → ∃ lw' ls', idle s' lw' ls'.
Proof.
  intros Hok H Hrunner. unfold engine_step in H. case_inv H as Eh; [simplify_eq; eauto|].
  bind_inv H as [p s1] E1. bind_inv H as s2 E2. bind_inv H as [out s3] E3. injection H as <- <- <-.
  destruct (schedule_ok _ _ _ _ _ _ _ _ _ _ Hcfg Hsync Hok E1) as (lw1 & ls1 & Hok1 & Hnd & Hrun).
  assert (∃ lw2 ls2, table_ok cfg (owed (so_spec_decode_tokens p) (so_num_scheduled_tokens p).*1) s2 lw2 ls2 ∧
    (∀ id, id ∈ running s1 → is_Some (od_get (requests s2) id) → id ∈ running s2)) as (lw2 & ls2 & Hok2 & Hrun2).
  { unfold _process_aborts_queue in E2. destruct aborts; [simplify_eq; eauto|by eapply abort_ok]. }
  exists lw2, ls2. eapply update_from_output_ok in E3; try done; [by apply Hrunner|].
  intros id Hid. apply Hrun2. by apply Hrun.
Qed.

Lemma reachable_idle s : engine_reachable s → ∃ lw ls, idle s lw ls.
Proof.
  induction 1 as [s [Ec Er Ew Es Eru Hg]|s r s' _ (lw & ls & Hok) Hnone Haddr Hnew H|s ids s' _ (lw & ls & Hok) H
    |s aborts outs o s' b _ (lw & ls & Hok) H Hrunner|s mode clear s' _ (lw & ls & Hok) H|s _ (lw & ls & Hok)].
  - exists [], []. split; [split|..]; unfold places; rewrite ?Ec, ?Er, ?Ew, ?Es, ?Eru; try done;
      try (apply create_repr); [by apply NoDup_nil_2|by intros x ?%elem_of_nil..].
  - unfold engine_add_request in H. bind_inv H as s1 E1.
    destruct (sched_add_ok _ _ _ _ _ _ _ _ Hok Hnone Haddr Hnew E1) as (lw1 & ls1 & Hok1).
    case_inv H as Ea; [|simplify_eq; eauto]. destruct (abort_ok _ _ _ _ _ _ Hok1 H) as (lw2 & ls2 & ? & _). eauto.
  - destruct (abort_ok _ _ _ _ _ _ Hok H) as (lw2 & ls2 & ? & _). eauto.
  - destruct (step_ok _ _ _ _ _ _ _ Hok H Hrunner) as (lw1 & ls1 & Hok1). exists lw1, ls1.
    unfold post_step. destruct o as [p|]; [|done]. case_match; [|done].
    destruct (take_draft_token_ids p); [by apply update_drafts_ok|done].
  - by eapply pause_ok.
  - exists lw, ls. by apply table_pause.
Qed.

(** C7: take synchronous scheduling of at most one sampled token per request and
    step, without external KV transfer; requests that are fresh, fit the model with
    their prompt and their minimum of tokens, have their images in prompt order and
    are no resumable sessions; and a model runner that returns for a request at
    most its drafts and the sampled token, and at least one when it had drafts.
    Then every state the engine core reaches, by adding and aborting requests, by
    steps during which further requests may be aborted, by pausing, clearing the
    caches and resuming, is well formed: each known request is in exactly one
    place with a status that says which, has no more tokens than the model takes
    and has computed no more than its tokens.  So the next scheduling step ends,
    and the assertions after its loops hold.  Resumable sessions and larger
    minimums do break this, see [preempted_session_lost] and
    [min_tokens_stuck]. *)
Theorem engine_states_ready s :
  engine_reachable s → ∃ lw ls, sched_ready s lw ls ∧
    ends (schedule sha set_iter grammar_ready false s) ∧
    ∀ s' st, schedule_requests sha set_iter grammar_ready false s = Ok (s', st) → check_constraints s' st = Ok tt.
Proof.
  intros (lw & ls & Hok)%reachable_idle. pose proof (table_ready _ _ _ _ Hcfg Hok) as Hready.
  exists lw, ls. split_and!; [done|by eapply schedule_ends|]. intros s' st H.
  destruct (schedule_requests_ok _ _ _ _ _ _ _ _ _ Hready H) as (lw' & ls' & Hinv). by eapply constraints_hold.
Qed.
End reach.

(** ** Examples *)

(** A runner that samples one token for every scheduled request. *)
Definition demo_execute (o : SchedulerOutput) (_ : option (list string)) : ModelRunnerOutput :=
  let ids := (so_num_scheduled_tokens o).*1 in
  mkRunnerOutput (list_to_map (zip ids (seq 0 (length ids)))) (replicate (length ids) [7]) None.

Lemma demo_execute_ok p o g : runner_ok (demo_sched_config p) o (demo_execute o g).
Proof.
  intros id Hid spec gen. assert (gen = [7]) as ->.
  { unfold gen, generated_for, demo_execute. cbn [req_id_to_index sampled_token_ids].
    set (ids := (so_num_scheduled_tokens o).*1) in *.
    destruct (list_to_map (zip ids (seq 0 (length ids))) !! id) as [i|] eqn:E.
    - apply elem_of_list_to_map_2, elem_of_zip_r, elem_of_seq in E.
      by rewrite lookup_replicate_2 by lia.
    - apply not_elem_of_list_to_map in E. destruct E. rewrite fst_zip by (by rewrite length_seq). done. }
  split; [done|]. pose proof (zlen_nonneg spec). unfold zlen at 1. simpl. lia.
Qed.

Definition demo_engine (k : KVCacheManager) : Scheduler :=
  mkScheduler (demo_sched_config FCFS) [] ∅ (AFCFS []) (AFCFS []) [] ∅ None ∅ 0 (MMCache (init_encoder_cache 0)) k
    0 false 0 0 [] UNPAUSED ∅.
Definition demo_engine_step (s : Scheduler) :=
  engine_step demo_hash None elements elements (λ _, true) (λ _, false) (λ _ _, true) demo_execute s [].
Definition demo_engine_add (s : Scheduler) (r : Request) := engine_add_request None elements elements s r.

(** Two requests are added and two steps are run: both prompts are computed, then
    each request decodes a token. *)
Lemma demo_engine_runs :
  match demo_kv with
  | Ok k =>
      attention_groups (coordinator k) = [] ∧
      match demo_engine_add (demo_engine k) (demo_job "a" 1 0 4) with
      | Ok s1 =>
          requests s1 = [("a"%string, demo_job "a" 1 0 4)] ∧
          match demo_engine_add s1 (demo_job "b" 2 0 2) with
          | Ok s2 =>
              match demo_engine_step s2 with
              | Ok (_, _, s3) =>
                  match demo_engine_step s3 with
                  | Ok (_, _, s4) =>
                      running s4 = ["a"; "b"]%string ∧
                      (λ p, (num_tokens p.2, num_computed_tokens p.2)) <$> requests s4 = [(6, 5); (4, 3)]
                  | Raise _ => False
                  end
              | Raise _ => False
              end
          | Raise _ => False
          end
      | Raise _ => False
      end
  | Raise _ => False
  end.
Proof. vm_compute. done. Qed.

Lemma demo_job_ok id addr n :
  0 ≤ n ≤ 40 → new_ok (demo_sched_config FCFS) (demo_job id addr 0 (Z.to_nat n)).
Proof.
  intros Hn. assert (num_tokens (demo_job id addr 0 (Z.to_nat n)) = n) as Et.
  { unfold num_tokens, demo_job, zlen. simpl. rewrite length_replicate. lia. }
  split; [by left|]. split; rewrite ?Et; try done; simpl; try lia; [constructor|]. intros sp [= <-]. simpl.
  change (num_output_tokens _) with 0. lia.
Qed.

Lemma post_step_off f g h s o : post_step f g h false s o = s.
Proof. by destruct o. Qed.

Lemma engine_states_ready_witness :
  ∃ s, running s = ["a"; "b"]%string ∧
    (λ p, (num_tokens p.2, num_computed_tokens p.2)) <$> requests s = [(6, 5); (4, 3)] ∧
    ∃ lw ls, sched_ready s lw ls.
Proof.
  pose proof demo_engine_runs as Hrun. destruct demo_kv as [k|e]; [|destruct Hrun]. destruct Hrun as [Hg Hrun].
  destruct (demo_engine_add (demo_engine k) (demo_job "a" 1 0 4)) as [s1|e] eqn:E1; [|destruct Hrun].
  destruct Hrun as [Hreq Hrun].
  destruct (demo_engine_add s1 (demo_job "b" 2 0 2)) as [s2|e] eqn:E2; [|destruct Hrun].
  destruct (demo_engine_step s2) as [[[outs3 o3] s3]|e] eqn:E3; [|destruct Hrun].
  destruct (demo_engine_step s3) as [[[outs4 o4] s4]|e] eqn:E4; [|destruct Hrun].
  exists s4. split; [exact (proj1 Hrun)|]. split; [exact (proj2 Hrun)|].
  set (cfg := demo_sched_config FCFS).
  assert (engine_reachable demo_hash None elements elements (λ _, true) (λ _, false) (λ _ _, true) (λ _ l, l)
    demo_execute (λ _, None) cfg s4) as Hreach.
  { rewrite <-(post_step_off (λ _, false) (λ _ l, l) (λ _, None) s4 o4).
    apply (er_step _ _ _ _ _ _ _ _ _ _ _ s3 [] outs4 o4 s4 false); [|exact E4|intros; apply demo_execute_ok].
    rewrite <-(post_step_off (λ _, false) (λ _ l, l) (λ _, None) s3 o3).
    apply (er_step _ _ _ _ _ _ _ _ _ _ _ s2 [] outs3 o3 s3 false); [|exact E3|intros; apply demo_execute_ok].
    apply (er_add _ _ _ _ _ _ _ _ _ _ _ s1 (demo_job "b" 2 0 2)); [| | |by apply (demo_job_ok _ _ 2)|exact E2].
    - apply (er_add _ _ _ _ _ _ _ _ _ _ _ (demo_engine k) (demo_job "a" 1 0 4));
        [|done|by intros|by apply (demo_job_ok _ _ 4)|exact E1].
      apply er_init. split; try done. unfold positive_sizes, kv_groups. simpl. rewrite Hg. constructor.
    - by rewrite Hreq.
    - rewrite Hreq. intros id r. simpl. by case_decide; intros; simplify_eq. }
  destruct (engine_states_ready demo_hash None elements elements (λ _, true) (λ _, false) (λ _ _, true) (λ _ l, l)
    demo_execute (λ _, None) cfg) with (s := s4) as (lw & ls & Hready & _).
  - by split.
  - done.
  - done.
  - done.
  - done.
  - exact Hreach.
  - exists lw, ls. exact Hready.
Defined.
