(* ===== verification/Ngram.v ===== *)
(** * Drafting tokens by prompt lookup
    The n-gram proposer of [v1/spec_decode/ngram_proposer.py]: it looks for an
    earlier occurrence of the last tokens of a request and drafts what followed
    it.  The search is a Knuth-Morris-Pratt prefix function with capped memory; it
    is shown equal to a direct search over all lengths and positions. *)

From S2P Require Import Prelude.

#[local] Open Scope Z_scope.

(** ** The search *)

(** [lps[i]]; the compiled code does not check the index, so that an index out of
    range would read other memory. *)
Definition np_get (lps : list nat) (i : nat) : result nat :=
  match lps !! i with Some v => Ok v | None => Raise IndexError end.

(** The [while] loop over the flipped tokens; it returns [longest_ngram] and
    [position].  Both [prev_lps] and [i] are below the number of tokens. *)
Fixpoint ngram_loop (tokens : list Z) (max_ngram fuel : nat) (lps : list nat)
    (longest_ngram position prev_lps i : nat) : result (nat * nat) :=
  match fuel with
  | O => Raise OutOfFuel
  | S fuel =>
      if (length tokens <=? i)%nat then Ok (longest_ngram, position) else
      match tokens !! prev_lps, tokens !! i with
      | Some x, Some y =>
          if x =? y then
            let prev_lps := S prev_lps in
            let '(longest_ngram, position) :=
              if (longest_ngram <=? prev_lps)%nat then (prev_lps, i) else (longest_ngram, position) in
            let lps := if (i <? max_ngram)%nat then <[i := prev_lps]> lps else lps in
            prev_lps ← (if (prev_lps =? max_ngram)%nat then np_get lps (max_ngram - 1) else Ok prev_lps);
            ngram_loop tokens max_ngram fuel lps longest_ngram position prev_lps (S i)
          else if negb (prev_lps =? 0)%nat then
            prev_lps ← np_get lps (prev_lps - 1);
            ngram_loop tokens max_ngram fuel lps longest_ngram position prev_lps i
          else ngram_loop tokens max_ngram fuel lps longest_ngram position prev_lps (S i)
      | _, _ => Raise IndexError
      end
  end.

(** Every round advances [i] or shortens [prev_lps]. *)
Definition ngram_fuel (tokens : list Z) : nat := (2 * length tokens + 1)%nat.

Definition _find_longest_matched_ngram_and_propose_tokens (origin_tokens : list Z)
    (min_ngram max_ngram max_model_len k : Z) : result (list Z) :=
  let total_token := zlen origin_tokens in
  if total_token <? min_ngram then Ok [] else
  let k := Z.min k (max_model_len - total_token) in
  if k <=? 0 then Ok [] else
  let tokens := reverse origin_tokens in
  if max_ngram <? 0 then Raise ValueError else
  let lps := replicate (Z.to_nat max_ngram) 0%nat in
  '(longest_ngram, position) ←
    ngram_loop tokens (Z.to_nat max_ngram) (ngram_fuel tokens) lps 0 0 0 1;
  let longest_ngram := Z.of_nat longest_ngram in
  if longest_ngram <? min_ngram then Ok [] else
  let start_position := total_token - 1 - Z.of_nat position + longest_ngram in
  let k := Z.min k (total_token - start_position) in
  Ok (py_slice origin_tokens start_position (start_position + k)).

(** ** The reference *)

(** The last [len] tokens occur at position [s] too. *)
Definition ngram_at (ts : list Z) (len s : nat) : bool :=
  bool_decide (take len (drop s ts) = drop (length ts - len) ts).

(** The first earlier position of the last [len] tokens. *)
Definition earliest_match (ts : list Z) (len : nat) : option nat :=
  List.find (ngram_at ts len) (seq 0 (length ts - len)).

(** The first result of [f] on [lo + d], ..., [lo]. *)
Fixpoint search_down {A} (f : nat → option A) (lo d : nat) : option A :=
  match f (lo + d)%nat with
  | Some x => Some x
  | None => match d with O => None | S d => search_down f lo d end
  end.

(** The tokens after the first occurrence of the longest n-gram. *)
Definition reference_draft (ts : list Z) (min_n max_n k : nat) : list Z :=
  match search_down (λ len, (len,.) <$> earliest_match ts len) min_n (max_n - min_n) with
  | Some (len, s) => take k (drop (s + len) ts)
  | None => []
  end.

Example draft_twice :
  _find_longest_matched_ngram_and_propose_tokens [1; 2; 3; 1; 2; 4; 1; 2] 1 3 100 2 = Ok [3; 1].
Proof. reflexivity. Qed.

(** ** Borders *)

Section borders.
Context (t : list Z).

(** The first [v] tokens end at [e] too, later than at [v]. *)
Definition border (e v : nat) : Prop := (v < e)%nat ∧ ∀ j, (j < v)%nat → t !! j = t !! (e - v + j)%nat.

Lemma border_0 e : (0 < e)%nat → border e 0.
Proof. intros He. split; [done|]. lia. Qed.

Lemma border_sub e v w : border e v → border e w → (w < v)%nat → border v w.
Proof.
  intros [Hv Ev] [Hw Ew] Hlt. split; [done|]. intros j Hj. rewrite Ew by done. rewrite (Ev (v - w + j)%nat) by lia. f_equal; lia.
Qed.

Lemma border_trans e v w : border e v → border v w → border e w.
Proof.
  intros [Hv Ev] [Hw Ew]. split; [lia|]. intros j Hj. rewrite Ew by done. rewrite (Ev (v - w + j)%nat) by lia. f_equal; lia.
Qed.

Lemma border_S e v : border (S e) (S v) ↔ border e v ∧ t !! v = t !! e.
Proof.
  split.
  - intros [Hv Ev]. split; [split; [lia|]|].
    + intros j Hj. rewrite Ev by lia. f_equal; lia.
    + rewrite Ev by lia. f_equal; lia.
  - intros [[Hv Ev] E]. split; [lia|]. intros j Hj. destruct (decide (j = v)) as [->|].
    + rewrite E. f_equal; lia.
    + rewrite Ev by lia. f_equal; lia.
Qed.

(** The longest border of at most [cap] tokens. *)
Definition longest_border (cap e v : nat) : Prop :=
  border e v ∧ (v ≤ cap)%nat ∧ ∀ w, border e w → (w ≤ cap)%nat → (w ≤ v)%nat.

(** The table of the first [cap] positions, filled below [i]. *)
Definition lps_ok (cap i : nat) (lps : list nat) : Prop :=
  length lps = cap ∧ (∀ j, (j < cap)%nat → (j < i)%nat → ∃ v, lps !! j = Some v ∧ longest_border cap (S j) v) ∧
  (∀ j, (j < cap)%nat → (i ≤ j)%nat → lps !! j = Some 0%nat).

(** The best n-gram that ends below [i], the last one of them. *)
Definition best_ok (cap i longest position : nat) : Prop :=
  (longest ≤ cap)%nat ∧
  (∀ e v, (e ≤ i)%nat → border e v → (v ≤ cap)%nat →
     (v ≤ longest)%nat ∧ (v = longest → (0 < v)%nat → (e ≤ S position)%nat)) ∧
  ((0 < longest)%nat → border (S position) longest ∧ (position < i)%nat).

(** The state at the head of the loop: [prev] is a border at [i], and the only
    longer ones do not extend. *)
Record loop_ok (cap : nat) (lps : list nat) (longest position prev i : nat) : Prop := {
  lo_prev : border i prev;
  lo_cap : (prev < cap)%nat;
  lo_max : ∀ w, border (S i) (S w) → (S w ≤ cap)%nat → (w ≤ prev)%nat;
  lo_table : lps_ok cap i lps;
  lo_best : best_ok cap i longest position;
}.

(** A match extends the border to the longest one of the next position. *)
Lemma match_longest cap lps longest position prev i :
  loop_ok cap lps longest position prev i → t !! prev = t !! i → longest_border cap (S i) (S prev).
Proof.
  intros [H1 H2 H3 _ _] E. split; [by apply border_S|]. split; [lia|]. intros [|w] Hw Hc; [lia|].
  specialize (H3 w Hw Hc). lia.
Qed.

Lemma best_extend cap i longest position v :
  best_ok cap i longest position → longest_border cap (S i) v →
  best_ok cap (S i) (if (longest <=? v)%nat then v else longest) (if (longest <=? v)%nat then i else position).
Proof.
  intros (Hc & Hall & Hpos) (Hb & Hvc & Hmax). destruct (Nat.leb_spec longest v) as [Hle|Hlt].
  - split; [done|]. split; [|intros _; split; [done|lia]].
    intros e w He Hw Hwc. destruct (decide (e = S i)) as [->|]; [split; [by apply Hmax|lia]|].
    destruct (Hall e w ltac:(lia) Hw Hwc) as [? _]. lia.
  - split; [done|]. split.
    + intros e w He Hw Hwc. destruct (decide (e = S i)) as [->|]; [|apply Hall; [lia|done..]].
      specialize (Hmax w Hw Hwc). lia.
    + intros Hl. destruct (Hpos Hl). split; [done|lia].
Qed.

Lemma lps_extend cap i lps v :
  lps_ok cap i lps → longest_border cap (S i) v →
  lps_ok cap (S i) (if (i <? cap)%nat then <[i := v]> lps else lps).
Proof.
  intros (Hl & Hlow & Hhigh) Hv. destruct (Nat.ltb_spec i cap) as [Hi|Hi].
  - split; [by rewrite length_insert|]. split; intros j Hj Hji.
    + destruct (decide (j = i)) as [->|]; [exists v; split; [apply list_lookup_insert_eq; lia|done]|].
      rewrite list_lookup_insert_ne by lia. apply Hlow; lia.
    + rewrite list_lookup_insert_ne by lia. apply Hhigh; lia.
  - split; [done|]. split; intros j Hj Hji; [apply Hlow; lia|apply Hhigh; lia].
Qed.

Lemma match_step cap lps longest position prev i :
  loop_ok cap lps longest position prev i → t !! prev = t !! i →
  let lps' := if (i <? cap)%nat then <[i := S prev]> lps else lps in
  ∃ prev', (if (S prev =? cap)%nat then np_get lps' (cap - 1) else Ok (S prev)) = Ok prev' ∧ (prev' ≤ S prev)%nat ∧
    loop_ok cap lps' (if (longest <=? S prev)%nat then S prev else longest)
      (if (longest <=? S prev)%nat then i else position) prev' (S i).
Proof.
  intros Hok E lps'. pose proof (match_longest _ _ _ _ _ _ Hok E) as Hlong. destruct Hok as [[Hpi _] Hcap _ Htab Hbest].
  pose proof (lps_extend _ _ _ _ Htab Hlong) as Htab'. pose proof (best_extend _ _ _ _ _ Hbest Hlong) as Hbest'.
  destruct Hlong as (Hb & Hle & Hmax). fold lps' in Htab'.
  destruct (Nat.eqb_spec (S prev) cap) as [Ec|Ec].
  - destruct Htab' as (Hl & Hlow & Hhigh). destruct (Hlow (cap - 1)%nat) as (v & Hv & Hvb & Hvc & Hvm); [lia..|].
    replace (S (cap - 1)) with cap in Hvb, Hvm by lia. exists v. unfold np_get. rewrite Hv.
    split; [done|]. pose proof (proj1 Hvb). split; [lia|]. rewrite Ec in Hb. split; try done.
    + by eapply border_trans.
    + intros w Hw Hwc. apply border_S in Hw as [Hw _]. apply Hvm; [|lia]. apply (border_sub (S i)); [done..|lia].
  - exists (S prev). split; [done|]. split; [lia|]. split; try done; [lia|].
    intros w Hw Hwc. apply border_S in Hw as [Hw _]. apply Hmax; [done|lia].
Qed.

Lemma shorten_step cap lps longest position prev i :
  loop_ok cap lps longest position prev i → t !! prev ≠ t !! i → prev ≠ 0%nat →
  ∃ prev', np_get lps (prev - 1) = Ok prev' ∧ (prev' < prev)%nat ∧ loop_ok cap lps longest position prev' i.
Proof.
  intros [Hb Hcap Hmax Htab Hbest] E H0. pose proof (proj1 Hb). destruct Htab as (Hl & Hlow & Hhigh).
  destruct (Hlow (prev - 1)%nat) as (v & Hv & Hvb & Hvc & Hvm); [lia..|].
  replace (S (prev - 1)) with prev in Hvb, Hvm by lia. pose proof (proj1 Hvb).
  exists v. unfold np_get. rewrite Hv. split; [done|]. split; [lia|]. split; try done; [|lia|].
  - by eapply border_trans.
  - intros w Hw Hwc. pose proof (Hmax w Hw Hwc) as Hle. apply border_S in Hw as [Hw Ew].
    assert (w ≠ prev) by (by intros ->). apply Hvm; [|lia]. apply (border_sub i); [done..|lia].
Qed.

Lemma skip_step cap lps longest position i :
  loop_ok cap lps longest position 0 i → t !! 0%nat ≠ t !! i →
  loop_ok cap lps longest position 0 (S i).
Proof.
  intros [Hb Hcap Hmax Htab Hbest] E.
  assert (Hnone : longest_border cap (S i) 0).
  { split; [apply border_0; lia|]. split; [lia|]. intros [|w] Hw Hc; [done|]. pose proof (Hmax w Hw Hc) as Hle.
    apply border_S in Hw as [_ Ew]. assert (w = 0%nat) as -> by lia. done. }
  split; try done.
  - apply border_0. lia.
  - intros w [Hw _]%border_S Hc. apply Hnone; [done|lia].
  - destruct Htab as (Hl & Hlow & Hhigh). split; [done|]. split; intros j Hj Hji; [|apply Hhigh; lia].
    destruct (decide (j = i)) as [->|]; [|apply Hlow; lia]. exists 0%nat. split; [apply Hhigh; lia|done].
  - destruct Hbest as (H1 & H2 & H3). split; [done|]. split.
    + intros e v He Hv Hc. destruct (decide (e = S i)) as [->|]; [|apply H2; [lia|done..]].
      apply Hnone in Hv; [lia|done].
    + intros Hl. destruct (H3 Hl). split; [done|lia].
Qed.

(** The loop ends, within its fuel, with the best n-gram of the whole list. *)
Lemma ngram_loop_spec cap fuel lps longest position prev i :
  loop_ok cap lps longest position prev i → (i ≤ length t)%nat → (2 * (length t - i) + prev < fuel)%nat →
  ∃ longest' position', ngram_loop t cap fuel lps longest position prev i = Ok (longest', position') ∧
    best_ok cap (length t) longest' position'.
Proof.
  revert lps longest position prev i.
  induction fuel as [|fuel IH]; intros lps longest position prev i Hok Hi Hf; [lia|]. cbn [ngram_loop].
  destruct (Nat.leb_spec (length t) i) as [Hge|Hlt].
  { exists longest, position. split; [done|]. replace (length t) with i by lia. apply Hok. }
  pose proof (proj1 (lo_prev _ _ _ _ _ _ Hok)) as Hp.
  destruct (lookup_lt_is_Some_2 t prev) as [x Hx]; [lia|]. destruct (lookup_lt_is_Some_2 t i) as [y Hy]; [lia|].
  rewrite Hx, Hy. destruct (Z.eqb_spec x y) as [->|Hxy].
  - destruct (match_step _ _ _ _ _ _ Hok) as (prev' & Hrun & Hle & Hok'); [by rewrite Hx|].
    assert (Hpair : (if (longest <=? S prev)%nat then (S prev, i) else (longest, position)) =
      (if (longest <=? S prev)%nat then S prev else longest, if (longest <=? S prev)%nat then i else position))
      by (by destruct (_ <=? _)%nat).
    rewrite Hpair. rewrite Hrun. cbn [mbind result_bind]. apply IH; [done|lia..].
  - assert (t !! prev ≠ t !! i) as Hne by (rewrite Hx, Hy; congruence).
    destruct (Nat.eqb_spec prev 0) as [->|H0]; cbn [negb].
    + apply IH; [by apply skip_step|lia..].
    + destruct (shorten_step _ _ _ _ _ _ Hok Hne H0) as (prev' & Hrun & Hlt' & Hok').
      rewrite Hrun. cbn [mbind result_bind]. apply IH; [done|lia..].
Qed.

Lemma loop_init cap : (0 < cap)%nat → loop_ok cap (replicate cap 0%nat) 0 0 0 1.
Proof.
  intros Hc. assert (Hb : ∀ v, border 1 v → v = 0%nat) by (intros v [? _]; lia). split; try done.
  - apply border_0. lia.
  - intros w [Hw _]%border_S _. apply Hb in Hw. lia.
  - split; [apply length_replicate|]. split; intros j Hj Hji; [|by apply lookup_replicate_2].
    exists 0%nat. split; [by apply lookup_replicate_2|]. assert (j = 0%nat) as -> by lia.
    split; [apply border_0; lia|]. split; [lia|]. intros w Hw _. apply Hb in Hw. lia.
  - split; [lia|]. split; [|lia]. intros e v He Hv Hvc. assert (e = 1%nat) as -> by (destruct Hv; lia).
    apply Hb in Hv. lia.
Qed.
End borders.

(** ** The search finds what the reference finds *)

Lemma find_seq (P : nat → bool) a m s :
  (a ≤ s < a + m)%nat → P s = true → (∀ s', (a ≤ s' < s)%nat → P s' = false) → List.find P (seq a m) = Some s.
Proof.
  revert a. induction m as [|m IH]; intros a Hs Hp Hlt; [lia|]. cbn [seq List.find].
  destruct (decide (s = a)) as [->|Hne]; [by rewrite Hp|]. rewrite Hlt by lia. apply IH; [lia|done|].
  intros s' Hs'. apply Hlt. lia.
Qed.

Lemma find_seq_none (P : nat → bool) a m :
  (∀ s, (a ≤ s < a + m)%nat → P s = false) → List.find P (seq a m) = None.
Proof.
  revert a. induction m as [|m IH]; intros a Hs; [done|]. cbn [seq List.find]. rewrite Hs by lia.
  apply IH. intros s' Hs'. apply Hs. lia.
Qed.

Lemma search_down_some {A} (f : nat → option A) lo d n x :
  (lo ≤ n ≤ lo + d)%nat → f n = Some x → (∀ n', (n < n' ≤ lo + d)%nat → f n' = None) → search_down f lo d = Some x.
Proof.
  revert n. induction d as [|d IH]; intros n Hn Hx Hnone; cbn [search_down].
  - assert (n = lo + 0)%nat as <- by lia. by rewrite Hx.
  - destruct (decide (n = lo + S d)%nat) as [<-|]; [by rewrite Hx|]. rewrite Hnone by lia.
    apply (IH n); [lia|done|]. intros n' Hn'. apply Hnone. lia.
Qed.

Lemma search_down_none {A} (f : nat → option A) lo d :
  (∀ n, (lo ≤ n ≤ lo + d)%nat → f n = None) → search_down f lo d = None.
Proof.
  induction d as [|d IH]; intros Hf; cbn [search_down]; rewrite Hf by lia; [done|]. apply IH. intros n Hn. apply Hf. lia.
Qed.

(** Borders of the flipped tokens are earlier occurrences of their end. *)
Lemma ngram_at_border ts len s :
  (s + len < length ts)%nat → ngram_at ts len s = true ↔ border (reverse ts) (length ts - s) len.
Proof.
  intros Hs. unfold ngram_at. rewrite bool_decide_eq_true.
  assert (Hrev : ∀ j, (j < length ts)%nat → reverse ts !! j = ts !! (length ts - S j)%nat)
    by (intros; by apply reverse_lookup).
  split.
  - intros E. split; [lia|]. intros j Hj. rewrite !Hrev by lia.
    pose proof (f_equal (λ l, l !! (len - S j)%nat) E) as El. cbn beta in El.
    rewrite lookup_take_lt, !lookup_drop in El by lia. etransitivity; [|etransitivity; [symmetry; exact El|]]; f_equal; lia.
  - intros [_ E]. apply list_eq. intros j. destruct (decide (j < len)%nat) as [Hj|Hj].
    + rewrite lookup_take_lt, !lookup_drop by lia. specialize (E (len - S j)%nat ltac:(lia)).
      rewrite !Hrev in E by lia. etransitivity; [|etransitivity; [symmetry; exact E|]]; f_equal; lia.
    + rewrite lookup_take_ge by lia. symmetry. apply lookup_ge_None_2. rewrite length_drop. lia.
Qed.

Lemma earliest_match_none ts len :
  (∀ e, (e ≤ length ts)%nat → ¬ border (reverse ts) e len) → earliest_match ts len = None.
Proof.
  intros Hnone. apply find_seq_none. intros s Hs. destruct (ngram_at ts len s) eqn:E; [|done].
  apply ngram_at_border in E; [|lia]. by apply Hnone in E; [|lia].
Qed.

Lemma earliest_match_some ts len position :
  (position < length ts)%nat → border (reverse ts) (S position) len →
  (∀ e, (e ≤ length ts)%nat → border (reverse ts) e len → (e ≤ S position)%nat) →
  earliest_match ts len = Some (length ts - S position)%nat.
Proof.
  intros Hp Hb Hlast. pose proof (proj1 Hb). apply find_seq; [lia| |].
  - apply ngram_at_border; [lia|]. by replace (length ts - (length ts - S position))%nat with (S position) by lia.
  - intros s' Hs'. destruct (ngram_at ts len s') eqn:E; [|done]. apply ngram_at_border in E; [|lia].
    apply Hlast in E; lia.
Qed.

(** What the reference finds, from the best n-gram of the loop. *)
Lemma search_best ts min_n max_n longest position :
  (1 ≤ min_n ≤ max_n)%nat → best_ok (reverse ts) max_n (length ts) longest position →
  search_down (λ len, (len,.) <$> earliest_match ts len) min_n (max_n - min_n) =
    if (min_n <=? longest)%nat then Some (longest, (length ts - S position)%nat) else None.
Proof.
  intros Hm (Hc & Hall & Hpos). assert (Hmax : ∀ len, (longest < len ≤ max_n)%nat → earliest_match ts len = None).
  { intros len Hl. apply earliest_match_none. intros e He Hb. destruct (Hall e len He Hb); lia. }
  destruct (Nat.leb_spec min_n longest) as [Hle|Hlt].
  - destruct (Hpos ltac:(lia)) as [Hb Hp]. apply (search_down_some _ _ _ longest); [lia| |].
    + rewrite (earliest_match_some ts longest position); [done|done|done|].
      intros e He Hbe. apply (Hall e longest He Hbe Hc); [done|lia].
    + intros n' Hn'. by rewrite Hmax by lia.
  - apply search_down_none. intros n Hn. by rewrite Hmax by lia.
Qed.

Lemma ngram_search_spec ts min_n max_n max_len k :
  1 ≤ min_n ≤ max_n →
  _find_longest_matched_ngram_and_propose_tokens ts min_n max_n max_len k =
    Ok (reference_draft ts (Z.to_nat min_n) (Z.to_nat max_n) (Z.to_nat (Z.min k (max_len - zlen ts)))).
Proof.
  intros Hm. unfold _find_longest_matched_ngram_and_propose_tokens, reference_draft.
  destruct (Z.ltb_spec (zlen ts) min_n) as [Hlt|Hge].
  { rewrite search_down_none; [done|]. intros n Hn. rewrite earliest_match_none; [done|].
    intros e He [Hb _]. unfold zlen in Hlt. lia. }
  set (k' := Z.min k (max_len - zlen ts)). destruct (Z.leb_spec k' 0) as [Hk|Hk].
  { replace (Z.to_nat k') with 0%nat by lia. by destruct (search_down _ _ _) as [[??]|]. }
  rewrite (proj2 (Z.ltb_ge _ _)) by lia.
  assert (Hts : (0 < length ts)%nat) by (unfold zlen in Hge; lia).
  destruct (ngram_loop_spec (reverse ts) (Z.to_nat max_n) (ngram_fuel (reverse ts))
    (replicate (Z.to_nat max_n) 0%nat) 0 0 0 1) as (longest & position & Hrun & Hbest).
  { apply loop_init. lia. }
  { rewrite length_reverse. lia. }
  { unfold ngram_fuel. lia. }
  rewrite Hrun. cbn [mbind result_bind]. rewrite length_reverse in Hbest.
  rewrite (search_best ts _ _ longest position) by (done || lia). destruct Hbest as (_ & _ & Hpos).
  destruct (Z.ltb_spec (Z.of_nat longest) min_n) as [Hl|Hl]; [by rewrite (proj2 (Nat.leb_gt _ _)) by lia|].
  rewrite (proj2 (Nat.leb_le _ _)) by lia. destruct (Hpos ltac:(lia)) as [[Hp _] Hp'].
  unfold py_slice, zlen. f_equal.
  set (start := (length ts - S position + longest)%nat).
  replace (Z.to_nat (Z.of_nat (length ts) - 1 - Z.of_nat position + Z.of_nat longest)) with start by lia.
  destruct (decide (Z.to_nat k' ≤ length ts - start)%nat) as [Hle|Hgt].
  - f_equal. lia.
  - rewrite !take_ge; [done|rewrite length_drop; lia..].
Qed.

(** C31: the search computes the reference: it always returns (its bounds and table
    accesses are in range), and what it drafts are the tokens, at most [k] and
    within the model length, that follow the first occurrence of the longest
    n-gram of admissible length that ends the request; nothing when there is none. *)
Theorem ngram_draft_exact ts min_n max_n max_len k :
  1 ≤ min_n ≤ max_n →
  _find_longest_matched_ngram_and_propose_tokens ts min_n max_n max_len k =
    Ok (reference_draft ts (Z.to_nat min_n) (Z.to_nat max_n) (Z.to_nat (Z.min k (max_len - zlen ts)))).
Proof. apply ngram_search_spec. Qed.

Lemma ngram_draft_exact_witness :
  _find_longest_matched_ngram_and_propose_tokens [1; 2; 3; 1; 2; 4; 1; 2] 1 3 100 2 =
    Ok (reference_draft [1; 2; 3; 1; 2; 4; 1; 2] 1 3 2) ∧ reference_draft [1; 2; 3; 1; 2; 4; 1; 2] 1 3 2 = [3; 1].
Proof. split; [apply (ngram_draft_exact [1; 2; 3; 1; 2; 4; 1; 2] 1 3 100 2); lia|reflexivity]. Defined.

(** ** The batch *)

(** The two buffers, allocated once for [max_num_seqs] requests, keep the drafts of
    earlier calls. *)
Record NgramProposer := mkNgram {
  min_n : Z;
  max_n : Z;
  ng_k : Z;
  ng_max_model_len : Z;
  valid_ngram_draft : list (list Z);
  valid_ngram_num_drafts : list Z;
}.

Definition set_drafts (bufs : list (list Z) * list Z) (p : NgramProposer) : NgramProposer :=
  mkNgram (min_n p) (max_n p) (ng_k p) (ng_max_model_len p) bufs.1 bufs.2.

(** One iteration of the parallel loop: the row of request [idx]. *)
Definition draft_request (p : NgramProposer) (k : Z) (num_tokens_no_spec : list Z) (token_ids_cpu : list (list Z))
    (bufs : list (list Z) * list Z) (idx : nat) : result (list (list Z) * list Z) :=
  num_tokens ← py_index num_tokens_no_spec (Z.of_nat idx);
  row ← py_index token_ids_cpu (Z.of_nat idx);
  out ← _find_longest_matched_ngram_and_propose_tokens (py_slice row 0 num_tokens) (min_n p) (max_n p)
          (ng_max_model_len p) k;
  match bufs.1 !! idx, bufs.2 !! idx with
  | Some old, Some _ =>
      let num_drafts := <[idx := zlen out]> bufs.2 in
      match out with
      | [] => Ok (bufs.1, num_drafts)
      | _ =>
          if zlen out <=? zlen old
          then Ok (<[idx := out ++ drop (length out) old]> bufs.1, num_drafts)
          else Raise ValueError
      end
  | _, _ => Raise IndexError
  end.

Definition batch_propose_numba (p : NgramProposer) (valid_ngram_requests : list nat) (num_tokens_no_spec : list Z)
    (token_ids_cpu : list (list Z)) (k : Z) : result (list (list Z) * list Z) :=
  mfold (draft_request p k num_tokens_no_spec token_ids_cpu) (valid_ngram_draft p, valid_ngram_num_drafts p)
    valid_ngram_requests.

(** The number of threads does not matter. *)
Definition batch_propose (p : NgramProposer) (num_requests : nat) (valid_ngram_requests : list nat)
    (num_tokens_no_spec : list Z) (token_ids_cpu : list (list Z)) (k : Z) : result (list (list Z) * NgramProposer) :=
  p ← match valid_ngram_requests with
      | [] => Ok p
      | _ => bufs ← batch_propose_numba p valid_ngram_requests num_tokens_no_spec token_ids_cpu k;
             Ok (set_drafts bufs p)
      end;
  drafts ← mfold (λ drafts i,
      if bool_decide (i ∈ valid_ngram_requests) then
        n ← py_index (valid_ngram_num_drafts p) (Z.of_nat i);
        if 0 <? n then row ← py_index (valid_ngram_draft p) (Z.of_nat i); Ok (drafts ++ [py_slice row 0 n])
        else Ok (drafts ++ [[]])
      else Ok (drafts ++ [[]])) [] (seq 0 num_requests);
  Ok (drafts, p).

(** The requests that get a draft. *)
Definition needs_draft (p : NgramProposer) (num_tokens_no_spec : list Z) (valid : list nat) (x : nat * list Z)
    : result (list nat) :=
  match x.2 with
  | [] => Ok valid
  | _ => num_tokens ← py_index num_tokens_no_spec (Z.of_nat x.1);
         if ng_max_model_len p <=? num_tokens then Ok valid else Ok (valid ++ [x.1])
  end.

Definition propose (p : NgramProposer) (num_speculative_tokens : Z) (sampled_token_ids : list (list Z))
    (num_tokens_no_spec : list Z) (token_ids_cpu : list (list Z)) : result (list (list Z) * NgramProposer) :=
  _ ← py_assert (num_speculative_tokens <=? ng_k p);
  valid_ngram_requests ← mfold (needs_draft p num_tokens_no_spec) [] (imap pair sampled_token_ids);
  batch_propose p (length sampled_token_ids) valid_ngram_requests num_tokens_no_spec token_ids_cpu
    num_speculative_tokens.

(** The constructor ends with a call on requests without sampled tokens. *)
Definition init_ngram (prompt_lookup_min prompt_lookup_max num_speculative_tokens max_model_len : Z)
    (max_num_seqs : nat) : result NgramProposer :=
  let p := mkNgram prompt_lookup_min prompt_lookup_max num_speculative_tokens max_model_len
             (replicate max_num_seqs (replicate (Z.to_nat num_speculative_tokens) 0)) (replicate max_num_seqs 0) in
  '(_, p) ← propose p num_speculative_tokens (replicate 1024 []) (replicate 1024 0)
              (replicate 1024 (replicate (Z.to_nat max_model_len) 0));
  Ok p.

Example draft_batch :
  (p ← init_ngram 1 3 2 100 4;
   '(d, p) ← propose p 2 [[5]; []; [2]] [3; 3; 8] [[5; 7; 5]; [1; 1; 1]; [1; 2; 3; 1; 2; 4; 1; 2]];
   '(d', _) ← propose p 2 [[]; [1]; [9]] [3; 3; 4] [[5; 7; 5]; [1; 1; 1]; [1; 2; 3; 4; 9]];
   Ok (d, d')) = Ok ([[7; 5]; []; [3; 1]], [[]; [1]; []]).
Proof. vm_compute. reflexivity. Qed.

Lemma reference_draft_length ts a b k : (length (reference_draft ts a b k) ≤ k)%nat.
Proof. unfold reference_draft. destruct (search_down _ _ _) as [[len s]|]; [rewrite length_take|simpl]; lia. Qed.

Section batch.
Context (p : NgramProposer) (k : Z) (num_tokens_no_spec : list Z) (token_ids_cpu : list (list Z)) (m : nat).

(** The inputs of [m] requests, and buffers for them. *)
Record batch_ok : Prop := {
  bo_range : 1 ≤ min_n p ≤ max_n p;
  bo_k : k ≤ ng_k p;
  bo_tokens : (m ≤ length num_tokens_no_spec)%nat;
  bo_rows : (m ≤ length token_ids_cpu)%nat;
}.

Definition buffers_ok (bufs : list (list Z) * list Z) : Prop :=
  (m ≤ length bufs.1)%nat ∧ (m ≤ length bufs.2)%nat ∧ Forall (λ row, length row = Z.to_nat (ng_k p)) bufs.1.

(** What request [i] is due. *)
Definition request_draft (i : nat) : list Z :=
  let context_token_ids := py_slice (token_ids_cpu !!! i) 0 (num_tokens_no_spec !!! i) in
  reference_draft context_token_ids (Z.to_nat (min_n p)) (Z.to_nat (max_n p))
    (Z.to_nat (Z.min k (ng_max_model_len p - zlen context_token_ids))).

Definition written (i : nat) (old : list Z) : list Z := request_draft i ++ drop (length (request_draft i)) old.

Lemma written_length i old :
  k ≤ ng_k p → length old = Z.to_nat (ng_k p) → length (written i old) = Z.to_nat (ng_k p).
Proof.
  intros Hk Hl. unfold written. rewrite length_app, length_drop.
  unfold request_draft. set (ts := py_slice _ _ _). pose proof (reference_draft_length ts (Z.to_nat (min_n p))
    (Z.to_nat (max_n p)) (Z.to_nat (Z.min k (ng_max_model_len p - zlen ts)))). lia.
Qed.

Lemma draft_request_Ok bufs i :
  batch_ok → buffers_ok bufs → (i < m)%nat →
  draft_request p k num_tokens_no_spec token_ids_cpu bufs i =
    Ok (alter (written i) i bufs.1, <[i := zlen (request_draft i)]> bufs.2).
Proof.
  intros [Hr Hk Ht Hc] (H1 & H2 & Hrow) Hi. unfold draft_request, py_index. rewrite !Nat2Z.id.
  rewrite (list_lookup_lookup_total_lt num_tokens_no_spec), (list_lookup_lookup_total_lt token_ids_cpu) by lia.
  cbn [mbind result_bind].
  rewrite ngram_search_spec by done. cbn [mbind result_bind]. fold (request_draft i).
  destruct (lookup_lt_is_Some_2 bufs.1 i) as [old Hold]; [lia|].
  destruct (lookup_lt_is_Some_2 bufs.2 i) as [n Hn]; [lia|]. rewrite Hold, Hn.
  assert (alter (written i) i bufs.1 = <[i := written i old]> bufs.1) as ->.
  { apply list_eq. intros j. destruct (decide (i = j)) as [<-|].
    - rewrite list_lookup_alter_eq, Hold, list_lookup_insert_eq by lia. done.
    - by rewrite list_lookup_alter_ne, list_lookup_insert_ne. }
  pose proof (written_length i old Hk (Forall_lookup_1 _ _ _ _ Hrow Hold)) as Hl. unfold written in Hl |- *.
  rewrite <-(Forall_lookup_1 _ _ _ _ Hrow Hold), length_app, length_drop in Hl.
  destruct (request_draft i) as [|x out] eqn:E; [|rewrite (proj2 (Z.leb_le _ _)); [done|unfold zlen; lia]].
  cbn [length app]. rewrite drop_0. rewrite (list_insert_id bufs.1 i old Hold). done.
Qed.

(** The rows after any sequence of iterations: those of the requests are
    written, the others kept. *)
Lemma batch_rows l bufs :
  batch_ok → buffers_ok bufs → (∀ i, i ∈ l → (i < m)%nat) →
  ∃ bufs', mfold (draft_request p k num_tokens_no_spec token_ids_cpu) bufs l = Ok bufs' ∧ buffers_ok bufs' ∧
    ∀ i, bufs'.1 !! i = (if decide (i ∈ l) then written i <$> bufs.1 !! i else bufs.1 !! i) ∧
         bufs'.2 !! i = (if decide (i ∈ l) then (λ _, zlen (request_draft i)) <$> bufs.2 !! i else bufs.2 !! i).
Proof.
  intros Hok. revert bufs. induction l as [|j l IH]; intros bufs Hb Hl; cbn [mfold].
  { exists bufs. split; [done|]. split; [done|]. intros i. by rewrite !decide_False by apply not_elem_of_nil. }
  assert (j < m)%nat as Hj by (apply Hl; left).
  rewrite draft_request_Ok by done. cbn [mbind result_bind].
  destruct (IH (alter (written j) j bufs.1, <[j := zlen (request_draft j)]> bufs.2)) as (bufs' & Hrun & Hb' & Hi).
  { destruct Hb as (H1 & H2 & H3). unfold buffers_ok. cbn [fst snd].
    rewrite length_alter, length_insert. split; [done|]. split; [done|]. apply Forall_alter; [done|]. intros row _ Hrow. apply written_length; [apply Hok|done]. }
  { intros i Hil. apply Hl. by right. }
  exists bufs'. split; [done|]. split; [done|]. intros i. destruct (Hi i) as [-> ->]. cbn [fst snd].
  destruct Hb as (H1 & H2 & _). destruct (decide (i = j)) as [->|Hne].
  - rewrite list_lookup_alter_eq, list_lookup_insert_eq by lia.
    destruct (decide (j ∈ j :: l)) as [_|Hn]; [|destruct Hn; left].
    destruct (lookup_lt_is_Some_2 bufs.2 j) as [n ->]; [lia|]. cbn [fmap option_fmap option_map].
    destruct (decide (j ∈ l)); [|done]. split; [|done].
    destruct (bufs.1 !! j) as [old|]; [|done]. cbn [fmap option_fmap option_map]. f_equal.
    unfold written. by rewrite drop_app_length.
  - rewrite list_lookup_alter_ne, list_lookup_insert_ne by done.
    destruct (decide (i ∈ j :: l)) as [Hin|Hin], (decide (i ∈ l)) as [Hin'|Hin']; try done; set_solver.
Qed.
End batch.

(** The iterations of the parallel loop may run in any order: they write
    different rows, and the buffers end up the same. *)
Theorem batch_order_irrelevant p k num_tokens token_ids m l l' :
  batch_ok p k num_tokens token_ids m → buffers_ok p m (valid_ngram_draft p, valid_ngram_num_drafts p) →
  (∀ i, i ∈ l → (i < m)%nat) → l ≡ₚ l' →
  batch_propose_numba p l num_tokens token_ids k = batch_propose_numba p l' num_tokens token_ids k ∧
  ∃ bufs, batch_propose_numba p l num_tokens token_ids k = Ok bufs.
Proof.
  intros Hok Hb Hl Hp. unfold batch_propose_numba.
  destruct (batch_rows _ _ _ _ _ l _ Hok Hb Hl) as (b1 & -> & _ & H1).
  destruct (batch_rows _ _ _ _ _ l' _ Hok Hb) as (b2 & -> & _ & H2); [intros i; rewrite <-Hp; apply Hl|].
  split; [|by eexists]. destruct b1 as [d1 n1], b2 as [d2 n2]. cbn [fst snd] in H1, H2. f_equal. f_equal; apply list_eq; intros i.
  - destruct (H1 i) as [-> _], (H2 i) as [-> _]. by rewrite (decide_ext (i ∈ l) (i ∈ l')) by (by rewrite Hp).
  - destruct (H1 i) as [_ ->], (H2 i) as [_ ->]. by rewrite (decide_ext (i ∈ l) (i ∈ l')) by (by rewrite Hp).
Qed.

Lemma needs_draft_spec p num_tokens sampled :
  (length sampled ≤ length num_tokens)%nat →
  ∃ valid, mfold (needs_draft p num_tokens) [] (imap pair sampled) = Ok valid ∧
    ∀ i, i ∈ valid ↔ ∃ ids, sampled !! i = Some ids ∧ ids ≠ [] ∧ num_tokens !!! i < ng_max_model_len p.
Proof.
  induction sampled as [|ids l IH] using rev_ind; intros Hlen.
  { exists []. split; [done|]. intros i. rewrite elem_of_nil. split; [done|]. by intros (? & [=] & _). }
  rewrite length_app in Hlen. simpl in Hlen. destruct IH as (valid & Hrun & Hv); [lia|].
  rewrite imap_app, mfold_app, Hrun. cbn [mbind result_bind imap mfold].
  unfold needs_draft at 1. cbn [fst snd]. rewrite Nat.add_0_r.
  assert (Hbound : ∀ i, i ∈ valid → (i < length l)%nat) by (intros i (? & ?%lookup_lt_Some & _)%Hv; done).
  assert (Hstep : ∀ valid' : list nat, (∀ i, i ∈ valid' ↔ i ∈ valid ∨
      i = length l ∧ ids ≠ [] ∧ num_tokens !!! i < ng_max_model_len p) →
    ∀ i, i ∈ valid' ↔ ∃ ids', (l ++ [ids]) !! i = Some ids' ∧ ids' ≠ [] ∧ num_tokens !!! i < ng_max_model_len p).
  { intros valid' Hv' i. rewrite Hv'. destruct (decide (i = length l)) as [->|Hne].
    - rewrite list_lookup_middle by done. split; [intros [Hi|(_ & ? & ?)]|intros (? & [= <-] & ?)].
      + specialize (Hbound _ Hi). lia.
      + by exists ids.
      + by right.
    - rewrite Hv. destruct (decide (i < length l)%nat) as [Hlt|Hge]; [rewrite lookup_app_l by done; naive_solver|].
      rewrite !lookup_ge_None_2 by (rewrite ?length_app; simpl; lia). naive_solver. }
  destruct ids as [|x ids]; [exists valid; split; [done|]; apply Hstep; naive_solver|].
  unfold py_index. rewrite Nat2Z.id, list_lookup_lookup_total_lt by lia. cbn [mbind result_bind].
  destruct (Z.leb_spec (ng_max_model_len p) (num_tokens !!! length l)) as [Hle|Hlt].
  - exists valid. split; [done|]. apply Hstep. intros i. split; [by left|]. intros [?|(-> & _ & ?)]; [done|lia].
  - eexists. split; [done|]. apply Hstep. intros i. rewrite elem_of_app, list_elem_of_singleton. naive_solver.
Qed.

Lemma mfold_collect {A B} (f : list B → A → result (list B)) (g : A → B) l acc :
  (∀ a acc, a ∈ l → f acc a = Ok (acc ++ [g a])) → mfold f acc l = Ok (acc ++ (g <$> l)).
Proof.
  revert acc. induction l as [|a l IH]; intros acc Hf; cbn [mfold]; [by rewrite app_nil_r|].
  rewrite Hf by left. cbn [mbind result_bind]. rewrite IH; [by rewrite <-app_assoc|].
  intros b acc' Hb. apply Hf. by right.
Qed.

(** Every request of a batch gets exactly its own draft: none when it has no
    new tokens or is as long as the model takes, and the reference draft of its
    tokens otherwise, whatever earlier calls left in the buffers. *)
Theorem propose_exact p k sampled num_tokens token_ids :
  batch_ok p k num_tokens token_ids (length sampled) →
  buffers_ok p (length sampled) (valid_ngram_draft p, valid_ngram_num_drafts p) →
  ∃ p', propose p k sampled num_tokens token_ids =
      Ok (imap (λ i ids, if bool_decide (ids = []) || (ng_max_model_len p <=? num_tokens !!! i) then []
                         else request_draft p k num_tokens token_ids i) sampled, p') ∧
    buffers_ok p' (length sampled) (valid_ngram_draft p', valid_ngram_num_drafts p').
Proof.
  intros Hok Hb. unfold propose. rewrite (proj2 (Z.leb_le _ _)) by apply Hok. cbn [py_assert mbind result_bind].
  destruct (needs_draft_spec p num_tokens sampled) as (valid & -> & Hv); [apply Hok|]. cbn [mbind result_bind].
  assert (Hvl : ∀ i, i ∈ valid → (i < length sampled)%nat) by (intros i (? & ?%lookup_lt_Some & _)%Hv; done).
  destruct (batch_rows _ _ _ _ _ valid _ Hok Hb Hvl) as (bufs & Hrun & Hb' & Hrows). cbn [fst snd] in Hrows.
  unfold batch_propose, batch_propose_numba. rewrite Hrun. cbn [mbind result_bind].
  assert (∃ p', match valid with [] => Ok p | _ => Ok (set_drafts bufs p) end = Ok p' ∧ ng_k p' = ng_k p ∧
    valid_ngram_draft p' = bufs.1 ∧ valid_ngram_num_drafts p' = bufs.2) as (p' & -> & Hk & E1 & E2).
  { destruct valid; [|by eexists]. exists p. injection Hrun as <-. done. }
  cbn [mbind result_bind]. exists p'. rewrite E1, E2. split; [|by unfold buffers_ok in *; rewrite Hk].
  rewrite (mfold_collect _ (λ i, if bool_decide (i ∈ valid) then request_draft p k num_tokens token_ids i else [])).
  - cbn [mbind result_bind app]. do 2 f_equal. apply list_eq. intros i. rewrite list_lookup_imap, list_lookup_fmap.
    destruct (sampled !! i) as [ids|] eqn:Hi; [|by rewrite lookup_seq_ge by (by apply lookup_ge_None_1)].
    rewrite lookup_seq_lt by (by eapply lookup_lt_Some). cbn [fmap option_fmap option_map]. rewrite Nat.add_0_l. f_equal.
    destruct (Z.leb_spec (ng_max_model_len p) (num_tokens !!! i)) as [Hle|Hlt].
    + rewrite orb_true_r. case_bool_decide as Hin; [|done]. apply Hv in Hin as (? & _ & _ & ?). lia.
    + rewrite orb_false_r. repeat case_bool_decide; naive_solver.
  - intros i acc Hi%elem_of_seq. case_bool_decide as Hin; [|done]. specialize (Hvl i Hin).
    destruct (Hrows i) as [Hd Hn]. destruct (decide (i ∈ valid)) as [_|]; [|done]. destruct Hb as (Hb1 & Hb2 & _).
    destruct (lookup_lt_is_Some_2 (valid_ngram_draft p) i) as [old Hold]; [cbn [fst] in Hb1; lia|].
    destruct (lookup_lt_is_Some_2 (valid_ngram_num_drafts p) i) as [n Hn0]; [cbn [snd] in Hb2; lia|].
    rewrite Hold in Hd. rewrite Hn0 in Hn. cbn [fmap option_fmap option_map] in Hd, Hn. unfold py_index. rewrite Nat2Z.id, Hd, Hn. cbn [mbind result_bind].
    destruct (Z.ltb_spec 0 (zlen (request_draft p k num_tokens token_ids i))) as [Hpos|Hz].
    + unfold py_slice, written, zlen. change (Z.to_nat 0) with 0%nat. by rewrite Nat.sub_0_r, drop_0, Nat2Z.id, take_app_length.
    + destruct (request_draft p k num_tokens token_ids i); [done|]. unfold zlen in Hz. simpl in Hz. lia.
Qed.

(** Three requests, with buffers that hold the drafts of an earlier call. *)
Definition demo_ngram : NgramProposer := mkNgram 1 3 2 100 (replicate 4 [8; 8]) [2; 2; 2; 2].
Definition demo_sampled : list (list Z) := [[5]; []; [2]].
Definition demo_lengths : list Z := [3; 3; 8].
Definition demo_contexts : list (list Z) := [[5; 7; 5]; [1; 1; 1]; [1; 2; 3; 1; 2; 4; 1; 2]].

Lemma demo_batch_ok : batch_ok demo_ngram 2 demo_lengths demo_contexts 3.
Proof. split; simpl; lia. Qed.

Lemma demo_buffers_ok : buffers_ok demo_ngram 3 (valid_ngram_draft demo_ngram, valid_ngram_num_drafts demo_ngram).
Proof. split; [simpl; lia|]. split; [simpl; lia|]. by repeat constructor. Qed.

Lemma batch_order_irrelevant_witness :
  batch_propose_numba demo_ngram [0; 2]%nat demo_lengths demo_contexts 2 =
  batch_propose_numba demo_ngram [2; 0]%nat demo_lengths demo_contexts 2.
Proof.
  apply (batch_order_irrelevant demo_ngram 2 demo_lengths demo_contexts 3 [0; 2]%nat [2; 0]%nat demo_batch_ok
    demo_buffers_ok); [|apply Permutation_swap].
  intros i [->|[->|Hi%elem_of_nil]%elem_of_cons]%elem_of_cons; [lia|lia|done].
Defined.

Lemma propose_exact_witness :
  ∃ p', propose demo_ngram 2 demo_sampled demo_lengths demo_contexts = Ok ([[7; 5]; []; [3; 1]], p') ∧
    buffers_ok p' 3 (valid_ngram_draft p', valid_ngram_num_drafts p').
Proof.
  exact (propose_exact demo_ngram 2 demo_sampled demo_lengths demo_contexts demo_batch_ok demo_buffers_ok).
Defined.
