(* ===== verification/Detokenizer.v ===== *)
(** * Incremental detokenization and stop strings
    [v1/engine/detokenizer.py] with the helpers of
    [tokenizers/detokenizer_utils.py]: new tokens are decoded one by one, the text
    is searched for stop strings, and the text that is safe to show is streamed
    while enough characters are held back to cut a stop string off.  A text is
    its list of code points.  The tokenizer and its decode stream are libraries,
    and so parameters. *)

From S2P Require Import Prelude KVBlock Request.

#[local] Open Scope Z_scope.

#[export] Instance FinishReason_eq_dec : EqDecision FinishReason.
Proof. solve_decision. Defined.

(** ** Strings *)

Abbreviation text := (list Z).

(** The first position from [i] on, where [s] is the text from there. *)
Fixpoint find_at (sub s : text) (i : nat) : option nat :=
  if decide (sub `prefix_of` s) then Some i
  else match s with [] => None | _ :: s => find_at sub s (S i) end.

(** [s.find(sub, start)]; a negative start counts from the end. *)
Definition py_find (s sub : text) (start : Z) : Z :=
  let start := if start <? 0 then Z.max 0 (zlen s + start) else start in
  if zlen s <? start then -1
  else match find_at sub (drop (Z.to_nat start) s) (Z.to_nat start) with
       | Some i => Z.of_nat i
       | None => -1
       end.

(** ** Stop strings *)

Fixpoint stop_loop (output_text : text) (new_char_count : Z) (stop : list text) (include_in_output : bool)
    : option (text * Z) :=
  match stop with
  | [] => None
  | stop_str :: stop =>
      let stop_string_len := zlen stop_str in
      let stop_index := py_find output_text stop_str (1 - new_char_count - stop_string_len) in
      if stop_index =? -1 then stop_loop output_text new_char_count stop include_in_output
      else if include_in_output then
        let stop_index := stop_index + stop_string_len in
        if zlen output_text <=? stop_index then Some (stop_str, -1) else Some (stop_str, stop_index)
      else Some (stop_str, stop_index)
  end.

Definition check_stop_strings (output_text : text) (new_char_count : Z) (stop : list text)
    (include_in_output : bool) : option (text * Z) :=
  if (new_char_count =? 0) || bool_decide (stop = []) then None
  else stop_loop output_text new_char_count stop include_in_output.

(** ** The decoder of a class *)

(** What [BaseIncrementalDetokenizer] expects of its subclasses: [decode_next], which
    may look at the token ids, and the number of prompt tokens among these. *)
Class Decoder (D : Type) := {
  decode_next : D → list Z → Z → result (text * D);
  decoder_prompt_len : D → Z;
}.

(** ** The base class *)

Record BaseDetokenizer (D : Type) := mkDetok {
  dt_token_ids : list Z;
  dt_stop : list text;
  dt_min_tokens : Z;
  include_stop_str_in_output : bool;
  stop_buffer_length : Z;
  _last_output_text_offset : Z;
  output_text : text;
  dt_decoder : D;
}.
Arguments mkDetok {D} _ _ _ _ _ _ _ _.
Arguments dt_token_ids {D} _.
Arguments dt_stop {D} _.
Arguments dt_min_tokens {D} _.
Arguments include_stop_str_in_output {D} _.
Arguments stop_buffer_length {D} _.
Arguments _last_output_text_offset {D} _.
Arguments output_text {D} _.
Arguments dt_decoder {D} _.

(** The stop strings of the sampling parameters: [None], a string or a list. *)
Inductive StopParam := NoStop | OneStop (s : text) | Stops (l : list text).

Definition stop_list (p : StopParam) : list text :=
  match p with NoStop => [] | OneStop s => [s] | Stops l => l end.

(** [max(len(s) for s in stop)] *)
Definition max_len (stop : list text) : Z := foldr (λ s m, Z.max (zlen s) m) 0 stop.

Section base.
Context {D : Type} `{!Decoder D}.

Definition init_base (stop : StopParam) (min_tokens : Z) (include : bool) (token_ids : list Z) (dec : D)
    : BaseDetokenizer D :=
  let stop := stop_list stop in
  let buffer := if negb (bool_decide (stop = [])) && negb include then max_len stop - 1 else 0 in
  mkDetok token_ids stop min_tokens include buffer 0 [] dec.

Definition num_output_tokens (d : BaseDetokenizer D) : Z :=
  zlen (dt_token_ids d) - decoder_prompt_len (dt_decoder d).

Definition output_token_ids (d : BaseDetokenizer D) : list Z :=
  drop (Z.to_nat (decoder_prompt_len (dt_decoder d))) (dt_token_ids d).

Definition set_text (t : text) (d : BaseDetokenizer D) : BaseDetokenizer D :=
  mkDetok (dt_token_ids d) (dt_stop d) (dt_min_tokens d) (include_stop_str_in_output d) (stop_buffer_length d)
    (_last_output_text_offset d) t (dt_decoder d).
Definition set_offset (n : Z) (d : BaseDetokenizer D) : BaseDetokenizer D :=
  mkDetok (dt_token_ids d) (dt_stop d) (dt_min_tokens d) (include_stop_str_in_output d) (stop_buffer_length d) n
    (output_text d) (dt_decoder d).
Definition push_token (i : Z) (d : BaseDetokenizer D) : BaseDetokenizer D :=
  mkDetok (dt_token_ids d ++ [i]) (dt_stop d) (dt_min_tokens d) (include_stop_str_in_output d)
    (stop_buffer_length d) (_last_output_text_offset d) (output_text d) (dt_decoder d).
Definition set_decoder (dec : D) (d : BaseDetokenizer D) : BaseDetokenizer D :=
  mkDetok (dt_token_ids d) (dt_stop d) (dt_min_tokens d) (include_stop_str_in_output d) (stop_buffer_length d)
    (_last_output_text_offset d) (output_text d) dec.

(** One round of the detokenization loop, with [stop_check_offset]. *)
Definition detokenize_one (st : BaseDetokenizer D * Z) (new_token_id : Z) : result (BaseDetokenizer D * Z) :=
  let '(d, stop_check_offset) := st in
  let d := push_token new_token_id d in
  '(t, dec) ← decode_next (dt_decoder d) (dt_token_ids d) new_token_id;
  let d := set_text (output_text d ++ t) (set_decoder dec d) in
  if negb (dt_min_tokens d =? 0) && (num_output_tokens d <=? dt_min_tokens d)
  then Ok (d, zlen (output_text d)) else Ok (d, stop_check_offset).

Definition detok_update (d : BaseDetokenizer D) (new_token_ids : list Z) (stop_terminated : bool)
    : result (option text * BaseDetokenizer D) :=
  match last new_token_ids with
  | None => Ok (None, d)
  | Some final =>
      let skip := stop_terminated && negb (include_stop_str_in_output d) in
      let ids := if skip then take (length new_token_ids - 1) new_token_ids else new_token_ids in
      '(d, stop_check_offset) ← mfold detokenize_one (d, zlen (output_text d)) ids;
      let d := if skip then push_token final d else d in
      if negb (bool_decide (dt_stop d = [])) && (dt_min_tokens d <? num_output_tokens d) then
        match check_stop_strings (output_text d) (zlen (output_text d) - stop_check_offset) (dt_stop d)
                (include_stop_str_in_output d) with
        | Some (stop_string, truncate_to) =>
            Ok (Some stop_string,
                if truncate_to =? -1 then d else set_text (py_slice (output_text d) 0 truncate_to) d)
        | None => Ok (None, d)
        end
      else Ok (None, d)
  end.

Definition get_next_output_text (d : BaseDetokenizer D) (finished delta : bool) : text * BaseDetokenizer D :=
  let buffer_length := if finished then 0 else stop_buffer_length d in
  if negb delta then
    (if buffer_length =? 0 then output_text d else py_slice (output_text d) 0 (zlen (output_text d) - buffer_length), d)
  else
    let length := zlen (output_text d) - buffer_length in
    let last_offset := _last_output_text_offset d in
    if last_offset <? length
    then (py_slice (output_text d) last_offset length, set_offset length d)
    else ([], d).
End base.

(** ** Fast detokenization *)

(** What a step of the library's decode stream does: it returns a text or nothing,
    or raises; the streams are the states it leaves behind. *)
Inductive step_outcome (Stream : Type) :=
  | StepText (t : option text) (s : Stream)
  | StepOverflow (s : Stream)        (** [OverflowError] or [TypeError] *)
  | StepInvalidPrefix (s : Stream)   (** the "Invalid prefix encountered" error *)
  | StepError (e : exn).
Arguments StepText {Stream} _ _.
Arguments StepOverflow {Stream} _.
Arguments StepInvalidPrefix {Stream} _.
Arguments StepError {Stream} _.

Section fast.
Context {Stream : Type} (new_stream : list Z → bool → Stream) (stream_step : Stream → Z → step_outcome Stream).
Context (added_tokens_decoder : gmap Z text).

Record FastDecoder := mkFast {
  fd_stream : Stream;
  fd_skip_special_tokens : bool;
  fd_spaces_between_special_tokens : bool;
  last_special : bool;
}.

(** An empty table of added tokens turns the suppression of spaces off. *)
Definition init_fast (prompt_token_ids : option (list Z)) (skip_special spaces_between : bool) : FastDecoder :=
  let spaces := skip_special || spaces_between in
  mkFast (new_stream (default [] prompt_token_ids) skip_special) skip_special
    (spaces || bool_decide (added_tokens_decoder = ∅)) false.

Definition _protected_step (f : FastDecoder) (next_token_id : Z) : result (option text * Stream) :=
  match stream_step (fd_stream f) next_token_id with
  | StepText t s => Ok (t, s)
  | StepOverflow s => Ok (None, s)
  | StepError e => Raise e
  | StepInvalidPrefix _ =>
      match stream_step (new_stream [] (fd_skip_special_tokens f)) next_token_id with
      | StepText t s => Ok (t, s)
      | StepOverflow _ => Raise OverflowError
      | StepInvalidPrefix _ => Raise RuntimeError
      | StepError e => Raise e
      end
  end.

Definition fast_decode_next (f : FastDecoder) (next_token_id : Z) : result (text * FastDecoder) :=
  '(token, s) ← _protected_step f next_token_id;
  if fd_spaces_between_special_tokens f
  then Ok (default [] token, mkFast s (fd_skip_special_tokens f) true (last_special f))
  else
    let special_token := added_tokens_decoder !! next_token_id in
    let is_special := bool_decide (is_Some special_token) in
    let token := if is_special && last_special f then special_token else token in
    Ok (default [] token, mkFast s (fd_skip_special_tokens f) false is_special).

#[export] Instance fast_decoder : Decoder FastDecoder := {|
  decode_next f _ i := fast_decode_next f i;
  decoder_prompt_len _ := 0;
|}.
End fast.

(** ** Slow detokenization *)

Definition INITIAL_INCREMENTAL_DETOKENIZATION_OFFSET : Z := 5.

(** The tokenizer, a library: the token of an unknown id is [None]. *)
Record Tokenizer := mkTokenizer {
  convert_ids_to_tokens : list Z → bool → list (option text);
  convert_tokens_to_string : list text → text;
  tokenizer_len : Z;
  is_fast : bool;
  added_vocab : list text;
  all_special_tokens : list text;
}.

Definition _replace_none_with_empty (tokens : list (option text)) : list text := default [] <$> tokens.

(** [sep.join(l)] *)
Fixpoint py_join (sep : text) (l : list text) : text :=
  match l with
  | [] => []
  | [t] => t
  | t :: l => t ++ sep ++ py_join sep l
  end.

Section slow.
Context (tk : Tokenizer).

Definition added_encoder_step (skip_special_tokens : bool) (st : list text * list text) (token : text)
    : list text * list text :=
  let '(sub_texts, current_sub_text) := st in
  if skip_special_tokens && bool_decide (token ∈ all_special_tokens tk) then st
  else if bool_decide (token ∈ added_vocab tk) then
    ((if bool_decide (current_sub_text = []) then sub_texts
      else sub_texts ++ [convert_tokens_to_string tk current_sub_text]) ++ [token], [])
  else (sub_texts, current_sub_text ++ [token]).

Definition _convert_tokens_to_string_with_added_encoders (output_tokens : list text)
    (skip_special_tokens spaces_between_special_tokens : bool) : text :=
  let '(sub_texts, current_sub_text) := foldl (added_encoder_step skip_special_tokens) ([], []) output_tokens in
  let sub_texts := if bool_decide (current_sub_text = []) then sub_texts
                   else sub_texts ++ [convert_tokens_to_string tk current_sub_text] in
  py_join (if spaces_between_special_tokens then [32] else []) sub_texts.

Definition convert_prompt_ids_to_tokens (prompt_ids : list Z) (skip_special_tokens : bool) : list text * Z * Z :=
  let n := INITIAL_INCREMENTAL_DETOKENIZATION_OFFSET + 2 in
  let new_tokens := convert_ids_to_tokens tk (drop (Z.to_nat (zlen prompt_ids - n)) prompt_ids) skip_special_tokens in
  let read_offset := zlen new_tokens in
  let prefix_offset := Z.max (read_offset - INITIAL_INCREMENTAL_DETOKENIZATION_OFFSET) 0 in
  (_replace_none_with_empty new_tokens, prefix_offset, read_offset).

(** [new_text.endswith] of the replacement character, which stands for an
    unfinished byte sequence. *)
Definition ends_unfinished (t : text) : bool := bool_decide (last t = Some 65533).

Definition detokenize_incrementally (all_input_ids : list Z) (prev_tokens : option (list text))
    (prefix_offset read_offset : Z) (skip_special_tokens spaces_between_special_tokens : bool)
    : result (list text * text * Z * Z) :=
  match last all_input_ids with
  | None => Raise IndexError
  | Some new_token_id =>
      let '(prev, prefix_offset, read_offset) :=
        match prev_tokens with
        | Some prev => (prev, prefix_offset, read_offset)
        | None => convert_prompt_ids_to_tokens (take (length all_input_ids - 1) all_input_ids) skip_special_tokens
        end in
      let new_tokens :=
        if (0 <=? new_token_id) && (new_token_id <? tokenizer_len tk)
        then _replace_none_with_empty (convert_ids_to_tokens tk [new_token_id] skip_special_tokens)
        else [[]] in
      let output_tokens := prev ++ new_tokens in
      let new_tokens := match prev_tokens with None => output_tokens | Some _ => new_tokens end in
      let to_string := if is_fast tk || bool_decide (added_vocab tk = []) then convert_tokens_to_string tk
                       else λ l, _convert_tokens_to_string_with_added_encoders l skip_special_tokens
                                   spaces_between_special_tokens in
      let prefix_text := to_string (py_slice output_tokens prefix_offset read_offset) in
      let new_text := to_string (drop (Z.to_nat prefix_offset) output_tokens) in
      if (zlen new_text <=? zlen prefix_text) || ends_unfinished new_text
      then Ok (new_tokens, [], prefix_offset, read_offset)
      else Ok (new_tokens, drop (length prefix_text) new_text, read_offset, zlen output_tokens)
  end.

Record SlowDecoder := mkSlow {
  sd_prompt_len : Z;
  sd_tokens : list text;
  sd_prefix_offset : Z;
  sd_read_offset : Z;
  sd_skip_special_tokens : bool;
  sd_spaces_between_special_tokens : bool;
}.

(** The decoder and the token ids it starts with. *)
Definition init_slow (prompt_token_ids : option (list Z)) (prompt_embeds : option (list bytes)) (skip_special spaces_between : bool)
    : result (SlowDecoder * list Z) :=
  prompt_len ← length_from_prompt_token_ids_or_embeds prompt_token_ids prompt_embeds;
  let '(tokens, prefix_offset, read_offset) :=
    match prompt_token_ids with
    | Some ids => convert_prompt_ids_to_tokens ids skip_special
    | None => (replicate (Z.to_nat prompt_len) [], 0, 0)
    end in
  let token_ids := match prompt_token_ids with
                   | Some (i :: ids) => i :: ids
                   | _ => replicate (Z.to_nat prompt_len) 0
                   end in
  Ok (mkSlow prompt_len tokens prefix_offset read_offset skip_special spaces_between, token_ids).

Definition slow_decode_next (s : SlowDecoder) (token_ids : list Z) : result (text * SlowDecoder) :=
  '(new_tokens, decoded_text, prefix_offset, read_offset) ←
    detokenize_incrementally token_ids (Some (sd_tokens s)) (sd_prefix_offset s) (sd_read_offset s)
      (sd_skip_special_tokens s) (sd_spaces_between_special_tokens s);
  Ok (decoded_text, mkSlow (sd_prompt_len s) (sd_tokens s ++ new_tokens) prefix_offset read_offset
                      (sd_skip_special_tokens s) (sd_spaces_between_special_tokens s)).

#[export] Instance slow_decoder : Decoder SlowDecoder := {|
  decode_next s ids _ := slow_decode_next s ids;
  decoder_prompt_len := sd_prompt_len;
|}.
End slow.

(** ** Searching *)

(** [sub] occurs in [s] at [j]. *)
Definition occurs (sub s : text) (j : nat) : Prop := (j ≤ length s)%nat ∧ sub `prefix_of` drop j s.

Lemma occurs_fits sub s j : occurs sub s j → (j + length sub ≤ length s)%nat.
Proof. intros [Hj Hp%prefix_length]. rewrite length_drop in Hp. lia. Qed.

Lemma occurs_app sub s s' j : occurs sub s j → occurs sub (s ++ s') j.
Proof.
  intros [Hj [k Hk]]. split; [rewrite length_app; lia|]. rewrite drop_app_le by done. rewrite Hk, <-app_assoc. by eexists.
Qed.

(** An occurrence that ends early enough is one in the prefix. *)
Lemma occurs_prefix sub s s' j : occurs sub (s ++ s') j → (j + length sub ≤ length s)%nat → occurs sub s j.
Proof.
  intros [Hj [k Hk]] Hl. split; [lia|]. rewrite drop_app_le in Hk by lia.
  exists (drop (length sub) (drop j s)). pose proof (f_equal (take (length sub)) Hk) as Ht.
  rewrite take_app_length, take_app_le in Ht by (rewrite length_drop; lia).
  rewrite <-Ht at 1. by rewrite take_drop.
Qed.

Lemma find_at_spec sub s i :
  match find_at sub s i with
  | Some j => (i ≤ j)%nat ∧ occurs sub s (j - i) ∧ ∀ k, (k < j - i)%nat → ¬ occurs sub s k
  | None => ∀ k, ¬ occurs sub s k
  end.
Proof.
  revert i. induction s as [|c s IH]; intros i; cbn [find_at]; destruct (decide _) as [Hp|Hp].
  - split; [lia|]. rewrite Nat.sub_diag. split; [split; [lia|by rewrite drop_0]|lia].
  - intros k [Hk Hp']. apply Hp. by rewrite drop_nil in Hp'.
  - split; [lia|]. rewrite Nat.sub_diag. split; [split; [lia|by rewrite drop_0]|lia].
  - specialize (IH (S i)). assert (H0 : ¬ occurs sub (c :: s) 0) by (intros [_ H0]; by rewrite drop_0 in H0).
    destruct (find_at sub s (S i)) as [j|].
    + destruct IH as (Hj & [Hl Ho] & Hmin). split; [lia|].
      replace (j - i)%nat with (S (j - S i)) by lia. split; [split; [simpl; lia|exact Ho]|].
      intros [|k] Hk; [done|]. intros [Hl' Ho']. apply (Hmin k); [lia|]. split; [simpl in Hl'; lia|exact Ho'].
    + intros [|k]; [done|]. intros [Hl Ho]. apply (IH k). split; [simpl in Hl; lia|exact Ho].
Qed.

(** [find] with a negative start: the first occurrence from there on. *)
Lemma py_find_spec s sub start :
  start < 0 →
  let lo := Z.to_nat (zlen s + start) in
  (py_find s sub start = -1 ∧ ∀ k, (lo ≤ k)%nat → ¬ occurs sub s k) ∨
  (∃ j, py_find s sub start = Z.of_nat j ∧ (lo ≤ j)%nat ∧ occurs sub s j ∧
        ∀ k, (lo ≤ k < j)%nat → ¬ occurs sub s k).
Proof.
  intros Hs lo. unfold py_find. rewrite (proj2 (Z.ltb_lt start 0)) by done.
  rewrite (proj2 (Z.ltb_ge _ _)) by (unfold zlen; lia).
  replace (Z.to_nat (Z.max 0 (zlen s + start))) with lo by (unfold lo; lia).
  assert (Hlo : (lo ≤ length s)%nat) by (unfold lo, zlen; lia).
  assert (Hshift : ∀ k, (lo ≤ k)%nat → occurs sub s k ↔ occurs sub (drop lo s) (k - lo)).
  { intros k Hk. unfold occurs. rewrite drop_drop, length_drop. replace (lo + (k - lo))%nat with k by lia.
    split; intros [? ?]; (split; [lia|done]). }
  pose proof (find_at_spec sub (drop lo s) lo) as Hf. destruct (find_at sub (drop lo s) lo) as [j|].
  - right. destruct Hf as (Hj & Ho & Hmin). exists j. split; [done|]. split; [done|].
    split; [by apply Hshift|]. intros k Hk. rewrite Hshift by lia. apply Hmin. lia.
  - left. split; [done|]. intros k Hk. rewrite Hshift by done. apply Hf.
Qed.

(** The stop test, for [c] new characters: the first string of the list with an
    occurrence that ends among them, and the first such occurrence. *)
Lemma stop_loop_spec t c stop include :
  1 ≤ c ≤ zlen t → Forall (λ s, s ≠ []) stop →
  match stop_loop t c stop include with
  | None => ∀ s j, s ∈ stop → occurs s t j → Z.of_nat j + zlen s ≤ zlen t - c
  | Some (s, tr) => s ∈ stop ∧ ∃ j, occurs s t j ∧ zlen t - c < Z.of_nat j + zlen s ∧
      tr = if include then (if zlen t <=? Z.of_nat j + zlen s then -1 else Z.of_nat j + zlen s) else Z.of_nat j
  end.
Proof.
  intros Hc. induction stop as [|s stop IH]; intros Hne; cbn [stop_loop]; [by intros ?? ?%elem_of_nil|].
  inversion Hne as [|? ? Hs Hne']; subst. specialize (IH Hne').
  assert (1 ≤ zlen s) by (destruct s; [done|unfold zlen; simpl; lia]).
  destruct (py_find_spec t s (1 - c - zlen s)) as [[-> Hno]|(j & -> & Hj & Ho & _)]; [lia| |].
  - cbn [Z.eqb]. destruct (stop_loop t c stop include) as [[s' tr]|].
    + destruct IH as [Hin IH]. split; [by right|done].
    + intros s' j [->|Hin]%elem_of_cons Ho; [|by apply IH].
      destruct (decide (Z.of_nat j + zlen s ≤ zlen t - c)); [done|]. exfalso. apply (Hno j); [lia|done].
  - rewrite (proj2 (Z.eqb_neq _ _)) by lia.
    assert (zlen t - c < Z.of_nat j + zlen s) by lia.
    destruct include; [destruct (zlen t <=? Z.of_nat j + zlen s) eqn:E|]; (split; [left|]);
      exists j; rewrite ?E; done.
Qed.

(** ** Updates *)

Section updates.
Context {D : Type} `{!Decoder D}.
Implicit Types d : BaseDetokenizer D.

(** The settings do not change. *)
Definition same_settings d d' : Prop :=
  dt_stop d' = dt_stop d ∧ dt_min_tokens d' = dt_min_tokens d ∧
  include_stop_str_in_output d' = include_stop_str_in_output d ∧ stop_buffer_length d' = stop_buffer_length d ∧
  _last_output_text_offset d' = _last_output_text_offset d.

#[export] Instance same_settings_preorder : PreOrder same_settings.
Proof.
  split; [by intros d|]. intros d1 d2 d3 (H1 & H2 & H3 & H4 & H5) (H1' & H2' & H3' & H4' & H5').
  split_and!; congruence.
Qed.

(** The loop only appends text; without a minimum of tokens all new text is checked. *)
Lemma detokenize_loop_spec ids d o d' o' :
  mfold detokenize_one (d, o) ids = Ok (d', o') → o ≤ zlen (output_text d) →
  same_settings d d' ∧ output_text d `prefix_of` output_text d' ∧ o ≤ o' ≤ zlen (output_text d') ∧
  (dt_min_tokens d = 0 → o' = o).
Proof.
  revert d o. induction ids as [|i ids IH]; intros d o H Ho; cbn [mfold] in H; [by injection H as <- <-|].
  bind_inv H as [d1 o1] E. unfold detokenize_one in E. bind_inv E as [t dec] Et.
  set (d2 := set_text _ _) in E.
  assert (same_settings d d2) as Hs by done.
  assert (Hlen : zlen (output_text d) ≤ zlen (output_text d ++ t)) by (rewrite zlen_app; pose proof (zlen_nonneg t); lia).
  change (output_text d2) with (output_text d ++ t) in E.
  assert (d1 = d2 ∧ o ≤ o1 ≤ zlen (output_text d ++ t) ∧ (dt_min_tokens d = 0 → o1 = o)) as (-> & Ho1 & Hm).
  { change (dt_min_tokens d2) with (dt_min_tokens d) in E.
    destruct (Z.eqb_spec (dt_min_tokens d) 0); cbn [negb andb] in E; [injection E as <- <-; split_and!; try done; lia|].
    case_inv E as Eb; injection E as <- <-; split_and!; try done; try lia; by intros ?. }
  destruct (IH d2 o1 H) as (Hs' & Hp & Ho' & Hm'); [apply Ho1|]. split; [by etransitivity|].
  split; [etransitivity; [by eexists|exact Hp]|]. split; [lia|]. intros Hz. rewrite Hm' by done. by apply Hm.
Qed.

(** The new tokens that are decoded; a stop token at the end may only be recorded. *)
Definition decoded_part (include : bool) (ids : list Z) (stop_terminated : bool) : list Z :=
  if stop_terminated && negb include then take (length ids - 1) ids else ids.

(** One update: the new text [full], and what the stop test makes of it.  [o] is where
    the checked text begins. *)
Lemma detok_update_spec d ids term r d' :
  Forall (λ s, s ≠ []) (dt_stop d) → detok_update d ids term = Ok (r, d') →
  same_settings d d' ∧
  ∃ full o, output_text d `prefix_of` full ∧ zlen (output_text d) ≤ o ≤ zlen full ∧
    (∃ d1, mfold detokenize_one (d, zlen (output_text d)) (decoded_part (include_stop_str_in_output d) ids term) = Ok (d1, o) ∧
       full = output_text d1 ∧ dt_decoder d' = dt_decoder d1 ∧
       dt_token_ids d' = dt_token_ids d1 ++ drop (length (decoded_part (include_stop_str_in_output d) ids term)) ids) ∧
    match r with
    | None => output_text d' = full ∧
        (dt_stop d ≠ [] → dt_min_tokens d < num_output_tokens d' →
         ids ≠ [] → ∀ s j, s ∈ dt_stop d → occurs s full j → Z.of_nat j + zlen s ≤ o)
    | Some s => s ∈ dt_stop d ∧ ∃ j, occurs s full j ∧ o < Z.of_nat j + zlen s ∧
        output_text d' = take (if include_stop_str_in_output d then j + length s else j) full
    end.
Proof.
  intros Hne H. unfold detok_update in H. destruct (last ids) as [final|] eqn:El.
  2:{ injection H as <- <-. split; [done|]. exists (output_text d), (zlen (output_text d)).
      apply last_None in El. subst ids. split; [done|]. split; [done|]. split; [|done]. exists d.
      unfold decoded_part. destruct (term && _); cbn; by rewrite app_nil_r. }
  fold (decoded_part (include_stop_str_in_output d) ids term) in H.
  assert (Ed : drop (length (decoded_part (include_stop_str_in_output d) ids term)) ids =
    if term && negb (include_stop_str_in_output d) then [final] else []).
  { unfold decoded_part. apply last_Some in El as [l ->]. destruct (term && _); [|by rewrite drop_all].
    rewrite length_app, Nat.add_sub, take_app_length. apply drop_app_length. }
  rewrite Ed. set (skip := term && _) in H |- *. bind_inv H as [d1 o] E.
  pose proof E as (Hs & Hp & Ho & Hm)%detokenize_loop_spec; [|done].
  set (d2 := if skip then push_token final d1 else d1) in H.
  assert (same_settings d d2 ∧ output_text d2 = output_text d1 ∧ dt_decoder d2 = dt_decoder d1 ∧
          dt_token_ids d2 = dt_token_ids d1 ++ if skip then [final] else []) as (Hs2 & Ht2 & Hd2 & Hi2).
  { unfold d2. destruct skip; [|by rewrite app_nil_r]. split; [|done]. by etransitivity. }
  pose proof Hs2 as (Estop & Emin & Einc & _). rewrite Estop, Emin, Einc, Ht2 in H.
  enough (same_settings d d' ∧ (dt_decoder d' = dt_decoder d2 ∧ dt_token_ids d' = dt_token_ids d2) ∧
    match r with
    | None => output_text d' = output_text d1 ∧
        (dt_stop d ≠ [] → dt_min_tokens d < num_output_tokens d' →
         ids ≠ [] → ∀ s j, s ∈ dt_stop d → occurs s (output_text d1) j → Z.of_nat j + zlen s ≤ o)
    | Some s => s ∈ dt_stop d ∧ ∃ j, occurs s (output_text d1) j ∧ o < Z.of_nat j + zlen s ∧
        output_text d' = take (if include_stop_str_in_output d then j + length s else j) (output_text d1)
    end) as (? & [Hdd Hdi] & ?).
  { split; [done|]. exists (output_text d1), o. split; [done|]. split; [done|]. split; [|done].
    exists d1. split; [done|]. split; [done|]. by rewrite Hdd, Hdi. }
  destruct (negb (bool_decide (dt_stop d = [])) && (dt_min_tokens d <? num_output_tokens d2)) eqn:Eb.
  2:{ injection H as <- <-. split; [done|]. split; [done|]. split; [done|]. intros Hst Hn. exfalso.
      rewrite bool_decide_eq_false_2, (proj2 (Z.ltb_lt _ _)) in Eb by done. done. }
  apply andb_true_iff in Eb as [Eb _]. apply negb_true_iff, bool_decide_eq_false in Eb.
  unfold check_stop_strings in H. rewrite bool_decide_eq_false_2, orb_false_r in H by done.
  destruct (Z.eqb_spec (zlen (output_text d1) - o) 0) as [Ez|Ez].
  { injection H as <- <-. split; [done|]. split; [done|]. split; [done|]. intros _ _ _ s j _ Hoc%occurs_fits. unfold zlen in *. lia. }
  pose proof (stop_loop_spec (output_text d1) (zlen (output_text d1) - o) (dt_stop d) (include_stop_str_in_output d)
    ltac:(pose proof (zlen_nonneg (output_text d)); lia) Hne) as Hl.
  destruct (stop_loop _ _ _ _) as [[s tr]|]; injection H as <- <-.
  - destruct Hl as (Hin & j & Hoc & Hj & ->).
    split; [by destruct (_ =? -1)|]. split; [by destruct (_ =? -1)|]. split; [done|]. exists j. split; [done|]. split; [lia|].
    apply occurs_fits in Hoc. rewrite <-Ht2 in *. unfold py_slice.
    destruct (include_stop_str_in_output d).
    + destruct (Z.leb_spec (zlen (output_text d2)) (Z.of_nat j + zlen s)) as [Hge|Hlt]; cbn [Z.eqb Pos.eqb].
      * rewrite take_ge; [done|]. unfold zlen in Hge. lia.
      * rewrite (proj2 (Z.eqb_neq _ _)) by (unfold zlen; lia). cbn [output_text set_text]. change (Z.to_nat 0) with 0%nat.
        rewrite drop_0, Nat.sub_0_r. f_equal. unfold zlen. lia.
    + rewrite (proj2 (Z.eqb_neq _ _)) by lia. cbn [output_text set_text]. change (Z.to_nat 0) with 0%nat.
      rewrite drop_0, Nat.sub_0_r. f_equal. lia.
  - split; [done|]. split; [done|]. split; [done|]. intros _ _ _ s j Hin Hoc. specialize (Hl s j Hin Hoc). lia.
Qed.

(** A stream: updates with the deltas shown after them, until the request finishes
    by itself or by a stop string; the deltas and whether it finished. *)
Fixpoint stream d (steps : list (list Z * option FinishReason)) : result (list text * bool * BaseDetokenizer D) :=
  match steps with
  | [] => Ok ([], false, d)
  | (ids, finish_reason) :: steps =>
      '(stop_string, d) ← detok_update d ids (bool_decide (finish_reason = Some STOP));
      let finished := bool_decide (is_Some finish_reason) || bool_decide (is_Some stop_string) in
      let '(t, d) := get_next_output_text d finished true in
      if finished then Ok ([t], true, d)
      else '(ts, fin, d) ← stream d steps; Ok (t :: ts, fin, d)
  end.

(** What was shown is the beginning of the text, and leaves out as many
    characters as are held back. *)
Definition shown_ok d (shown : text) : Prop :=
  shown `prefix_of` output_text d ∧ _last_output_text_offset d = zlen shown ∧
  (shown = [] ∨ zlen shown ≤ zlen (output_text d) - stop_buffer_length d).

(** The buffer is long enough for the stop strings. *)
Definition detok_ok d : Prop :=
  Forall (λ s, s ≠ []) (dt_stop d) ∧ 0 ≤ stop_buffer_length d ∧
  (include_stop_str_in_output d = false → Forall (λ s, zlen s ≤ stop_buffer_length d + 1) (dt_stop d)).

Lemma prefix_take (s t : text) n : s `prefix_of` t → (length s ≤ n)%nat → s `prefix_of` take n t.
Proof.
  intros [k ->] Hn. rewrite take_app, take_ge by done. by eexists.
Qed.

(** A delta completes what was shown to the text that may be shown. *)
Lemma delta_spec d shown finished t d' :
  shown `prefix_of` output_text d → _last_output_text_offset d = zlen shown → 0 ≤ stop_buffer_length d →
  get_next_output_text d finished true = (t, d') →
  output_text d' = output_text d ∧ (shown ++ t) `prefix_of` output_text d ∧
  _last_output_text_offset d' = zlen (shown ++ t) ∧
  (zlen (shown ++ t) = Z.max (zlen shown) (zlen (output_text d) - if finished then 0 else stop_buffer_length d)) ∧
  dt_stop d' = dt_stop d ∧ include_stop_str_in_output d' = include_stop_str_in_output d ∧
  stop_buffer_length d' = stop_buffer_length d ∧ dt_min_tokens d' = dt_min_tokens d.
Proof.
  intros [k Hk] Ho Hb H. unfold get_next_output_text in H. cbn [negb] in H. rewrite Ho in H.
  set (b := if finished then 0 else stop_buffer_length d) in *. assert (0 ≤ b) by (unfold b; destruct finished; lia).
  destruct (Z.ltb_spec (zlen shown) (zlen (output_text d) - b)) as [Hlt|Hge]; injection H as <- <-.
  2:{ rewrite app_nil_r. split_and!; try done; [by eexists|lia]. }
  rewrite Hk in Hlt |- *. unfold py_slice. replace (Z.to_nat (zlen shown)) with (length shown) by (unfold zlen; lia).
  rewrite drop_app_length. set (m := (Z.to_nat _ - _)%nat).
  assert (Hz : zlen (shown ++ take m k) = zlen (shown ++ k) - b).
  { rewrite zlen_app in Hlt |- *. rewrite zlen_app. unfold m, zlen in *. rewrite length_app, length_take. lia. }
  split; [done|]. split; [|split; [|split; [lia|done]]].
  - exists (drop m k). by rewrite <-app_assoc, take_drop.
  - cbn [_last_output_text_offset set_offset]. by rewrite Hz.
Qed.

Lemma update_keeps_shown d ids term r d' shown :
  detok_ok d → shown_ok d shown → detok_update d ids term = Ok (r, d') →
  detok_ok d' ∧ shown `prefix_of` output_text d' ∧ _last_output_text_offset d' = zlen shown ∧
  (r = None → shown_ok d' shown).
Proof.
  intros (Hne & Hb & Hbuf) (Hp & Ho & Hl) H. destruct (detok_update_spec _ _ _ _ _ Hne H) as (Hs & full & o & Hf & Hof & _ & Hr).
  destruct Hs as (E1 & E2 & E3 & E4 & E5). split; [by unfold detok_ok; rewrite E1, E3, E4|].
  apply prefix_length in Hf as Hfl. rewrite E5. destruct r as [s|].
  - destruct Hr as (Hin & j & Hoc & Hj & ->). split; [|done]. apply prefix_take; [by etransitivity|].
    apply prefix_length in Hp as Hpl. unfold zlen in *.
    destruct (include_stop_str_in_output d); [lia|].
    specialize (Hbuf eq_refl). apply (proj1 (Forall_forall _ _) Hbuf) in Hin. unfold zlen in Hin.
    destruct Hl as [-> | Hl]; [simpl; lia|]. lia.
  - destruct Hr as [Et _]. unfold shown_ok. rewrite Et, E4, E5. split; [by etransitivity|]. split; [done|]. intros _.
    split; [by etransitivity|]. split; [done|].
    destruct Hl as [-> | Hl]; [by left|right]. unfold zlen in *. lia.
Qed.

Lemma stream_spec steps d shown ts fin d' :
  detok_ok d → shown_ok d shown → stream d steps = Ok (ts, fin, d') →
  (shown ++ concat ts) `prefix_of` output_text d' ∧ (fin = true → shown ++ concat ts = output_text d').
Proof.
  revert d shown ts. induction steps as [|[ids fr] steps IH]; intros d shown ts Hd Hs H; cbn [stream] in H.
  { injection H as <- <- <-. cbn [concat]. rewrite app_nil_r. split; [apply Hs|done]. }
  bind_inv H as [r d1] E. destruct (update_keeps_shown _ _ _ _ _ _ Hd Hs E) as (Hd1 & Hp1 & Ho1 & Hs1).
  set (finished := _ || _) in H. destruct (get_next_output_text d1 finished true) as [t d2] eqn:Eg.
  destruct (delta_spec d1 shown finished t d2 Hp1 Ho1 ltac:(apply Hd1) Eg) as (Et & Hp2 & Ho2 & Hz & E1 & E2 & E3 & _).
  destruct finished eqn:Ef.
  - injection H as <- <- <-. cbn [concat]. rewrite app_nil_r, Et. split; [done|]. intros _.
    apply prefix_length in Hp1 as Hl. destruct Hp2 as [k Hk]. rewrite Hk. destruct k as [|c k]; [by rewrite app_nil_r|].
    exfalso. pose proof (f_equal zlen Hk) as Hz'. rewrite (zlen_app _ (c :: k)) in Hz'. unfold zlen in *. simpl in Hz'. lia.
  - bind_inv H as [[ts' fin'] d3] E3'. injection H as <- <- <-. cbn [concat]. rewrite app_assoc.
    apply orb_false_iff in Ef as [_ Er%bool_decide_eq_false]. destruct r as [s|]; [by destruct Er|].
    destruct (Hs1 eq_refl) as (_ & _ & Hl1).
    apply (IH d2 _ ts'); [by unfold detok_ok in *; rewrite E1, E2, E3| |done].
    split; [by rewrite Et|]. split; [done|]. rewrite Et, E3.
    destruct (shown ++ t) eqn:Est; [by left|right]. rewrite <-Est in *. apply prefix_length in Hp1.
    assert (0 < zlen (shown ++ t)) by (rewrite Est; unfold zlen; simpl; lia).
    destruct Hl1 as [-> |Hl1]; [|lia]. unfold zlen in *. cbn [length app] in *. lia.
Qed.

(** ** Stop strings along a run *)

(** Updates until a stop string is found. *)
Fixpoint updates d (steps : list (list Z * bool)) : result (option text * BaseDetokenizer D) :=
  match steps with
  | [] => Ok (None, d)
  | (ids, stop_terminated) :: steps =>
      '(r, d) ← detok_update d ids stop_terminated;
      match r with Some s => Ok (Some s, d) | None => updates d steps end
  end.

(** What the base class relies on: decoding does not change the number of prompt
    tokens. *)
Class DecoderLaws : Prop := {
  decode_prompt_len dec ids i t dec' :
    decode_next dec ids i = Ok (t, dec') → decoder_prompt_len dec' = decoder_prompt_len dec;
}.

(** The error is one the decoder raised for some token. *)
Definition decoder_error (e : exn) : Prop :=
  ∃ (dec : D) ids i, ids ≠ [] ∧ decode_next dec ids i = Raise e.

Lemma detokenize_loop_error ids st e : mfold detokenize_one st ids = Raise e → decoder_error e.
Proof.
  revert st. induction ids as [|i ids IH]; intros [d o]; cbn [mfold]; [done|].
  destruct (detokenize_one (d, o) i) as [st|e'] eqn:E; cbn [mbind result_bind]; [apply IH|]. intros [= ->].
  unfold detokenize_one in E. cbn [dt_decoder dt_token_ids push_token] in E.
  destruct (decode_next (dt_decoder d) (dt_token_ids d ++ [i]) i) as [[t dec]|e'] eqn:Ed; cbn [mbind result_bind] in E.
  - case_inv E as Eb; discriminate E.
  - injection E as ->. exists (dt_decoder d), (dt_token_ids d ++ [i]), i. split; [by destruct (dt_token_ids d)|done].
Qed.

Lemma update_error d ids term e : detok_update d ids term = Raise e → decoder_error e.
Proof.
  unfold detok_update. destruct (last ids) as [final|]; [|done].
  destruct (mfold detokenize_one _ _) as [[d1 o]|e'] eqn:E; cbn [mbind result_bind].
  - destruct (_ && (_ <? _)); [|done]. by destruct (check_stop_strings _ _ _ _) as [[? ?]|].
  - intros [= ->]. by eapply detokenize_loop_error.
Qed.

Lemma stream_error steps d e : stream d steps = Raise e → decoder_error e.
Proof.
  revert d. induction steps as [|[ids fr] steps IH]; intros d; cbn [stream]; [done|].
  destruct (detok_update d ids _) as [[r d1]|e'] eqn:E; cbn [mbind result_bind]; [|intros [= ->]; by eapply update_error].
  destruct (get_next_output_text _ _ _) as [t d2]. destruct (_ || _); [done|].
  destruct (stream d2 steps) as [[[ts fin] d3]|e'] eqn:E2; cbn [mbind result_bind]; [done|]. intros [= ->]. by eapply IH.
Qed.

Lemma updates_error steps d e : updates d steps = Raise e → decoder_error e.
Proof.
  revert d. induction steps as [|[ids term] steps IH]; intros d; cbn [updates]; [done|].
  destruct (detok_update d ids term) as [[r d1]|e'] eqn:E; cbn [mbind result_bind]; [|intros [= ->]; by eapply update_error].
  destruct r; [done|]. apply IH.
Qed.

(** *** The text of a sequence of tokens *)

(** The text the decoder makes of tokens, after the tokens [ids]; the flag says
    whether a token is decoded or only recorded. *)
Fixpoint text_of (dec : D) (ids : list Z) (toks : list (Z * bool)) : result (text * D) :=
  match toks with
  | [] => Ok ([], dec)
  | (i, true) :: toks =>
      '(t, dec) ← decode_next dec (ids ++ [i]) i;
      '(t', dec) ← text_of dec (ids ++ [i]) toks;
      Ok (t ++ t', dec)
  | (i, false) :: toks => text_of dec (ids ++ [i]) toks
  end.

Definition text_at dec ids toks (t : text) : Prop := ∃ dec', text_of dec ids toks = Ok (t, dec').

(** The tokens of an update. *)
Definition step_tokens (include : bool) (step : list Z * bool) : list (Z * bool) :=
  let l := decoded_part include step.1 step.2 in
  ((λ i, (i, true)) <$> l) ++ ((λ i, (i, false)) <$> drop (length l) step.1).

Lemma text_of_app dec ids a b :
  text_of dec ids (a ++ b) =
    ('(t, dec) ← text_of dec ids a; '(t', dec) ← text_of dec (ids ++ a.*1) b; Ok (t ++ t', dec)).
Proof.
  revert dec ids. induction a as [|[i [|]] a IH]; intros dec ids.
  - cbn. rewrite app_nil_r. by destruct (text_of dec ids b) as [[? ?]|].
  - rewrite <-app_comm_cons, fmap_cons. cbn [text_of fst]. destruct (decode_next _ _ _) as [[t dec1]|]; [|done]. cbn [mbind result_bind].
    rewrite IH. destruct (text_of dec1 _ a) as [[t1 dec2]|]; [|done]. cbn [mbind result_bind]. rewrite <-app_assoc. cbn [app].
    destruct (text_of dec2 _ b) as [[t2 dec3]|]; [|done]. cbn [mbind result_bind]. by rewrite app_assoc.
  - rewrite <-app_comm_cons, fmap_cons. cbn [text_of fst]. rewrite IH. by rewrite <-app_assoc.
Qed.

Lemma text_of_take dec ids toks k t dec' :
  text_of dec ids toks = Ok (t, dec') → ∃ t0, text_at dec ids (take k toks) t0 ∧ t0 `prefix_of` t.
Proof.
  rewrite <-(take_drop k toks) at 1. rewrite text_of_app. intros H. bind_inv H as [t0 dec0] E. bind_inv H as [t1 dec1] E1.
  injection H as <- <-. exists t0. split; [by eexists|by eexists].
Qed.

Lemma text_recorded dec ids l : text_of dec ids ((λ i, (i, false)) <$> l) = Ok ([], dec).
Proof. revert ids. induction l as [|i l IH]; intros ids; [done|]. rewrite fmap_cons. apply IH. Qed.

Lemma text_recorded_take dec ids l n : text_of dec ids (take n ((λ i, (i, false)) <$> l)) = Ok ([], dec).
Proof. rewrite <-fmap_take. apply text_recorded. Qed.

(** Among the tokens of one update, the text up to which stop strings are not looked
    for is that of the tokens up to the minimum. *)
Lemma loop_text {HL : DecoderLaws} l d o d' o' :
  mfold detokenize_one (d, o) l = Ok (d', o') → 0 ≤ num_output_tokens d →
  dt_token_ids d' = dt_token_ids d ++ l ∧ decoder_prompt_len (dt_decoder d') = decoder_prompt_len (dt_decoder d) ∧
  (∃ t, text_of (dt_decoder d) (dt_token_ids d) ((λ i, (i, true)) <$> l) = Ok (t, dt_decoder d') ∧ output_text d' = output_text d ++ t) ∧
  ((o' = o ∧ (dt_min_tokens d ≤ num_output_tokens d ∨ l = [])) ∨
   (num_output_tokens d < dt_min_tokens d ∧
    ∃ t0, text_at (dt_decoder d) (dt_token_ids d)
            (take (Z.to_nat (dt_min_tokens d - num_output_tokens d)) ((λ i, (i, true)) <$> l)) t0 ∧
          o' = zlen (output_text d ++ t0))).
Proof.
  revert d o. induction l as [|i l IH]; intros d o H Hn; cbn [mfold] in H.
  { injection H as <- <-. rewrite app_nil_r. split; [done|]. split; [done|]. split; [exists []; by rewrite app_nil_r|]. left. tauto. }
  bind_inv H as [d1 o1] E. unfold detokenize_one in E. bind_inv E as [t dec] Et. cbn [dt_decoder dt_token_ids push_token] in Et.
  set (d2 := set_text _ _) in E. pose proof (decode_prompt_len _ _ _ _ _ Et) as Hpl.
  assert (Hn2 : num_output_tokens d2 = num_output_tokens d + 1).
  { unfold num_output_tokens. cbn [dt_token_ids dt_decoder d2 set_text set_decoder push_token]. rewrite Hpl, zlen_app, zlen_cons, zlen_nil. lia. }
  change (dt_min_tokens d2) with (dt_min_tokens d) in E. change (output_text d2) with (output_text d ++ t) in E. rewrite Hn2 in E.
  assert (d1 = d2) as -> by (case_inv E as Eb; by injection E as <- _).
  destruct (IH d2 o1 H ltac:(lia)) as (Hids & Hp & (t' & Ht' & Htx) & Ho).
  change (dt_token_ids d2) with (dt_token_ids d ++ [i]) in *. change (dt_decoder d2) with dec in *.
  change (output_text d2) with (output_text d ++ t) in *. change (dt_min_tokens d2) with (dt_min_tokens d) in Ho.
  rewrite fmap_cons. cbn [text_of]. rewrite Et. cbn [mbind result_bind]. rewrite Ht'. cbn [mbind result_bind].
  split; [by rewrite Hids, <-app_assoc|]. split; [congruence|]. split; [exists (t ++ t'); by rewrite app_assoc|].
  assert (Htake : ∀ k t0, text_at dec (dt_token_ids d ++ [i]) (take k ((λ i, (i, true)) <$> l)) t0 →
    text_at (dt_decoder d) (dt_token_ids d) (take (S k) ((i, true) :: ((λ i, (i, true)) <$> l))) (t ++ t0)).
  { intros k t0 [dec' H0]. exists dec'. cbn [take text_of]. rewrite Et. cbn [mbind result_bind]. by rewrite H0. }
  rewrite Hn2 in Ho. destruct (Z.le_gt_cases (dt_min_tokens d) (num_output_tokens d)) as [Hge|Hlt].
  - left. split; [|by left]. destruct Ho as [[-> _]|[? _]]; [|lia].
    rewrite (proj2 (Z.leb_gt _ _)), andb_false_r in E by lia. by injection E.
  - right. split; [done|]. rewrite (proj2 (Z.eqb_neq _ _)), (proj2 (Z.leb_le _ _)) in E by lia. injection E as <-.
    replace (Z.to_nat (dt_min_tokens d - num_output_tokens d)) with (S (Z.to_nat (dt_min_tokens d - (num_output_tokens d + 1)))) by lia.
    destruct Ho as [[-> Hor]|(Hlt2 & t0 & H0 & ->)].
    + exists (t ++ []). split; [|by rewrite app_nil_r]. apply Htake. exists dec.
      destruct Hor as [Hm| ->]; [|cbn [fmap list_fmap]; by rewrite take_nil]. by replace (Z.to_nat _) with 0%nat by lia.
    + exists (t ++ t0). split; [by apply Htake|]. by rewrite app_assoc.
Qed.

(** *** What the stop test finds *)

(** In the text [t] of [toks], stop strings only end within the text of the first
    [m] tokens. *)
Definition early_only (stop : list text) (m : Z) dec ids toks (t : text) : Prop :=
  ∃ early, text_at dec ids (take (Z.to_nat m) toks) early ∧
    ∀ s j, s ∈ stop → occurs s t j → (j + length s ≤ length early)%nat.

(** No stop string has appeared. *)
Definition no_stop (stop : list text) (t : text) : Prop := ∀ s j, s ∈ stop → ¬ occurs s t j.

Lemma early_only_none stop dec ids toks t :
  Forall (λ s, s ≠ []) stop → early_only stop 0 dec ids toks t → no_stop stop t.
Proof.
  intros Hne (early & [dec' He] & H) s j Hin Hoc. change (Z.to_nat 0) with 0%nat in He. rewrite take_0 in He. cbn in He. injection He as <- _.
  specialize (H s j Hin Hoc). apply (proj1 (Forall_forall _ _) Hne) in Hin. destruct s; [done|]. cbn in H. lia.
Qed.

(** A state after the tokens [past]. *)
Record decoded_to (dec0 : D) (ids0 : list Z) (past : list (Z * bool)) d : Prop := {
  dc_text : text_of dec0 ids0 past = Ok (output_text d, dt_decoder d);
  dc_ids : dt_token_ids d = ids0 ++ past.*1;
  dc_prompt : zlen ids0 = decoder_prompt_len (dt_decoder d);
}.

Lemma decoded_count dec0 ids0 past d : decoded_to dec0 ids0 past d → num_output_tokens d = zlen past.
Proof. intros [_ Hi Hp]. unfold num_output_tokens. rewrite Hi, <-Hp, zlen_app, zlen_fmap. lia. Qed.

(** An update in terms of the tokens: the text [full] after it, and the text [early]
    of the first tokens, which is not searched. *)
Lemma update_tokens {HL : DecoderLaws} dec0 ids0 past d ids term r d' :
  Forall (λ s, s ≠ []) (dt_stop d) → decoded_to dec0 ids0 past d → detok_update d ids term = Ok (r, d') →
  let now := past ++ step_tokens (include_stop_str_in_output d) (ids, term) in
  same_settings d d' ∧ ∃ full early, text_at dec0 ids0 now full ∧ text_at dec0 ids0 (take (Z.to_nat (dt_min_tokens d)) now) early ∧
    output_text d `prefix_of` full ∧
    match r with
    | None => decoded_to dec0 ids0 now d' ∧ output_text d' = full ∧
        (dt_min_tokens d < zlen now → ids ≠ [] → ∀ s j, s ∈ dt_stop d → occurs s full j →
           (j + length s ≤ length (output_text d) ∨ j + length s ≤ length early)%nat)
    | Some s => s ∈ dt_stop d ∧ ∃ j, occurs s full j ∧ (length (output_text d) < j + length s)%nat ∧
        (length early < j + length s)%nat ∧
        output_text d' = take (if include_stop_str_in_output d then j + length s else j) full
    end.
Proof.
  intros Hne Hd H now. pose proof (decoded_count _ _ _ _ Hd) as Hcount. destruct Hd as [Htx Hids Hpl].
  destruct (detok_update_spec _ _ _ _ _ Hne H) as (Hs & full & o & Hf & Hof & (d1 & El & -> & Edec & Eids) & Hr). split; [done|].
  set (l := decoded_part (include_stop_str_in_output d) ids term) in *.
  destruct (loop_text l d _ d1 o El) as (Hi1 & Hp1 & (t & Ht & Hout) & Ho); [rewrite Hcount; apply zlen_nonneg|].
  assert (Hnew : text_of (dt_decoder d) (ids0 ++ past.*1) (step_tokens (include_stop_str_in_output d) (ids, term)) = Ok (t, dt_decoder d1)).
  { unfold step_tokens. cbn [fst snd]. fold l. rewrite text_of_app, <-Hids, Ht. cbn [mbind result_bind]. rewrite text_recorded.
    cbn [mbind result_bind]. by rewrite app_nil_r. }
  assert (Hnow : text_of dec0 ids0 now = Ok (output_text d1, dt_decoder d1)).
  { unfold now. rewrite text_of_app, Htx. cbn [mbind result_bind]. rewrite Hnew. cbn [mbind result_bind]. by rewrite Hout. }
  assert (Hearly : ∃ early, text_at dec0 ids0 (take (Z.to_nat (dt_min_tokens d)) now) early ∧
    (length early ≤ Z.to_nat o)%nat ∧ (o = zlen (output_text d) ∨ o = zlen early)).
  { rewrite Hcount in Ho. destruct Ho as [[-> Hor]|(Hlt & t0 & [dec2 H0] & ->)].
    - destruct (decide (dt_min_tokens d ≤ zlen past)) as [Hle|Hgt].
      + destruct (text_of_take dec0 ids0 past (Z.to_nat (dt_min_tokens d)) _ _ Htx) as (e & He & Hpre%prefix_length).
        exists e. split; [|split; [unfold zlen; lia|by left]]. unfold now. by rewrite take_app_le by (unfold zlen in Hle; lia).
      + destruct Hor as [?| El0]; [lia|]. rewrite El0 in Ht. cbn in Ht. injection Ht as <- _. rewrite app_nil_r in Hout.
        destruct (text_of_take dec0 ids0 now (Z.to_nat (dt_min_tokens d)) _ _ Hnow) as (e & He & Hpre%prefix_length).
        rewrite Hout in Hpre. exists e. split; [done|]. split; [unfold zlen; lia|by left].
    - destruct (text_of_take (dt_decoder d) (ids0 ++ past.*1) (step_tokens (include_stop_str_in_output d) (ids, term))
        (Z.to_nat (dt_min_tokens d - zlen past)) _ _ Hnew) as (e & [dec3 He] & _).
      assert (e = t0) as ->.
      { unfold step_tokens in He. cbn [fst snd] in He. fold l in He. rewrite take_app in He. rewrite text_of_app, <-Hids, H0 in He.
        cbn [mbind result_bind] in He. rewrite text_recorded_take in He. cbn [mbind result_bind] in He. rewrite app_nil_r in He. by injection He as <- _. }
      exists (output_text d ++ t0). split; [|split; [unfold zlen; lia|by right]]. exists dec3. unfold now.
      rewrite take_app_ge by (unfold zlen in Hlt; lia). replace (Z.to_nat (dt_min_tokens d) - length past)%nat with (Z.to_nat (dt_min_tokens d - zlen past)) by (unfold zlen; lia).
      rewrite text_of_app, Htx. cbn [mbind result_bind]. by rewrite He. }
  destruct Hearly as (early & Hat & Hle & Heq). exists (output_text d1), early. split; [by eexists|]. split; [done|]. split; [done|].
  destruct r as [s|].
  - destruct Hr as (Hin & j & Hoc & Hj & Hres). split; [done|]. exists j. split; [done|]. unfold zlen in *. split; [lia|]. split; [lia|done].
  - destruct Hr as [Et Hr]. assert (Hdc : decoded_to dec0 ids0 now d').
    { split.
      - by rewrite Et, Edec.
      - rewrite Eids, Hi1, Hids. unfold now, step_tokens. cbn [fst snd]. fold l. rewrite !fmap_app, <-!list_fmap_compose, !app_assoc.
        change (fst ∘ (λ i : Z, (i, true))) with (id : Z → Z). change (fst ∘ (λ i : Z, (i, false))) with (id : Z → Z). by rewrite !list_fmap_id.
      - by rewrite Edec, Hp1. }
    split; [done|]. split; [done|]. intros Hmin Hidsne s j Hin Hoc. rewrite (decoded_count _ _ _ _ Hdc) in Hr.
    assert (dt_stop d ≠ []) by (intros Es; rewrite Es in Hin; by apply elem_of_nil in Hin).
    specialize (Hr ltac:(done) Hmin Hidsne s j Hin Hoc). unfold zlen in *. lia.
Qed.

(** What a run of updates with stop strings [stop] and minimum [m] gives, from a
    decoder [dec0] after the tokens [ids0] and [past]. *)
Definition run_result (stop : list text) (m : Z) (include : bool) dec0 ids0 past steps (r : option text) d' : Prop :=
  let tokens := λ l, past ++ (l ≫= step_tokens include) in
  match r with
  | None => text_at dec0 ids0 (tokens steps) (output_text d') ∧ early_only stop m dec0 ids0 (tokens steps) (output_text d')
  | Some s => s ∈ stop ∧ ∃ done step rest old full early j, steps = done ++ step :: rest ∧
      text_at dec0 ids0 (tokens done) old ∧ early_only stop m dec0 ids0 (tokens done) old ∧
      text_at dec0 ids0 (tokens (done ++ [step])) full ∧
      text_at dec0 ids0 (take (Z.to_nat m) (tokens (done ++ [step]))) early ∧
      occurs s full j ∧ (length old < j + length s)%nat ∧ (length early < j + length s)%nat ∧
      output_text d' = take (if include then j + length s else j) full
  end.

Lemma run_result_cons stop m include dec0 ids0 past step steps r d' :
  run_result stop m include dec0 ids0 (past ++ step_tokens include step) steps r d' →
  run_result stop m include dec0 ids0 past (step :: steps) r d'.
Proof.
  unfold run_result. destruct r as [s|].
  - intros (Hin & dn & st & rest & old & full & early & j & -> & H). split; [done|].
    exists (step :: dn), st, rest, old, full, early, j. split; [done|]. rewrite <-app_comm_cons, !bind_cons, !app_assoc. exact H.
  - by rewrite bind_cons, app_assoc.
Qed.

Lemma updates_spec {HL : DecoderLaws} dec0 ids0 steps past d r d' :
  Forall (λ s, s ≠ []) (dt_stop d) → decoded_to dec0 ids0 past d →
  early_only (dt_stop d) (dt_min_tokens d) dec0 ids0 past (output_text d) → updates d steps = Ok (r, d') →
  run_result (dt_stop d) (dt_min_tokens d) (include_stop_str_in_output d) dec0 ids0 past steps r d'.
Proof.
  revert past d. induction steps as [|[ids term] steps IH]; intros past d Hne Hd He H; cbn [updates] in H.
  { injection H as <- <-. unfold run_result. cbn. rewrite app_nil_r. split; [|done]. destruct Hd. by eexists. }
  bind_inv H as [r1 d1] E. pose proof Hd as [Htx _ _].
  destruct (update_tokens _ _ _ _ _ _ _ _ Hne Hd E) as ((E1 & E2 & E3 & _) & full & early & Hfull & Hearly & Hpre & Hr).
  destruct r1 as [s|].
  - injection H as <- <-. destruct Hr as (Hin & j & Hoc & Hj & Hje & Hres). split; [done|].
    exists [], (ids, term), steps, (output_text d), full, early, j. cbn [app mbind list_bind]. rewrite !app_nil_r.
    split_and!; try done. by eexists.
  - destruct Hr as (Hd1 & Ht1 & Hr). apply run_result_cons. rewrite <-E1, <-E2, <-E3. apply IH; rewrite ?E1, ?E2, ?E3; try done.
    rewrite Ht1. set (now := past ++ step_tokens (include_stop_str_in_output d) (ids, term)) in *.
    exists early. split; [done|]. intros s j Hin Hoc. destruct (decide (zlen now ≤ dt_min_tokens d)) as [Hle|Hgt].
    + rewrite take_ge in Hearly by (unfold zlen in Hle; lia). destruct Hearly as [? He1], Hfull as [? He2]. rewrite He1 in He2. injection He2 as -> _.
      by apply occurs_fits.
    + destruct ids as [|i ids].
      * assert (now = past) as Enow by (unfold now, step_tokens, decoded_part; cbn [fst snd]; destruct (term && _); cbn; by rewrite app_nil_r).
        rewrite Enow in *. destruct Hfull as [? He2]. rewrite Htx in He2. injection He2 as <- _. destruct He as (early' & [? Ha] & He).
        destruct Hearly as [? Hb]. rewrite Ha in Hb. injection Hb as <- _. by apply He.
      * destruct (Hr ltac:(lia) ltac:(done) s j Hin Hoc) as [Hold|?]; [|done].
        destruct Hpre as [k Ek]. rewrite Ek in Hoc. apply occurs_prefix in Hoc; [|done]. destruct He as (early' & Ha & He).
        specialize (He s j Hin Hoc). destruct Ha as [? Ha]. destruct Hearly as [? Hb].
        assert (Hm : (length early' ≤ length early)%nat); [|lia]. unfold now in Hb. rewrite take_app, text_of_app, Ha in Hb. cbn [mbind result_bind] in Hb.
        bind_inv Hb as [t2 dec2] E4. injection Hb as <- _. rewrite length_app. lia.
Qed.
End updates.

#[export] Instance fast_laws {Stream} new_stream (step : Stream → Z → step_outcome Stream) added :
  DecoderLaws (D := FastDecoder) (Decoder0 := fast_decoder new_stream step added).
Proof. split. done. Qed.

#[export] Instance slow_laws tk : DecoderLaws (D := SlowDecoder) (Decoder0 := slow_decoder tk).
Proof.
  split. intros dec ids i t dec' H. cbn [decode_next slow_decoder] in H. unfold slow_decode_next in H.
  bind_inv H as [[[nt tx] po] ro] E. by injection H as <- <-.
Qed.

Lemma max_len_bound stop s : s ∈ stop → zlen s ≤ max_len stop.
Proof.
  induction stop as [|x stop IH]; [by intros ?%elem_of_nil|]. simpl. intros [->|Hs]%elem_of_cons; [lia|].
  specialize (IH Hs). lia.
Qed.

Lemma init_detok_ok {D} `{!Decoder D} stop min_tokens include ids (dec : D) :
  Forall (λ s, s ≠ []) (stop_list stop) → detok_ok (init_base stop min_tokens include ids dec).
Proof.
  intros Hne. unfold detok_ok, init_base. cbn [dt_stop stop_buffer_length include_stop_str_in_output].
  split; [done|]. case_bool_decide as He; cbn [negb andb].
  { split; [done|]. intros _. rewrite He. constructor. }
  destruct include; cbn [negb]; [by split|]. split.
  - destruct (stop_list stop) as [|s l] eqn:E; [done|]. inversion Hne as [|? ? Hs _]; subst.
    pose proof (max_len_bound (s :: l) s ltac:(left)). destruct s; [done|]. rewrite zlen_cons in *. pose proof (zlen_nonneg s). lia.
  - intros _. apply Forall_forall. intros s Hs. pose proof (max_len_bound _ _ Hs). lia.
Qed.

(** C29: streamed text is never taken back within one input of a request: whatever the
    tokens and (non-empty) stop strings, either the decoder raised an error, or the deltas shown so
    far are the beginning of the output text, and once the request finishes, by itself
    or by a stop string that is cut off, they are exactly the output text. *)
Theorem streamed_text_final {D} `{!Decoder D} stop min_tokens include ids (dec : D) steps :
  Forall (λ s, s ≠ []) (stop_list stop) →
  match stream (init_base stop min_tokens include ids dec) steps with
  | Ok (ts, fin, d) => concat ts `prefix_of` output_text d ∧ (fin = true → concat ts = output_text d)
  | Raise e => decoder_error (D := D) e
  end.
Proof.
  intros Hne. destruct (stream _ steps) as [[[ts fin] d]|e] eqn:H; [|by eapply stream_error].
  eapply (stream_spec steps _ []); [by apply init_detok_ok| |done]. split; [apply prefix_nil|]. split; [done|by left].
Qed.

(** C30: no (non-empty) stop string is missed: either the decoder raised an error, or as long as the
    updates report no stop string, every occurrence of one ends within the text of the
    first [min_tokens] tokens (so without a minimum the text contains none); when they
    report one, nothing was missed before, it ends in the text that just arrived, after
    the text of the first [min_tokens] tokens, and the output is the text before it, or
    up to its end when it is to be included. *)
Theorem stop_strings_exact {D} `{!Decoder D} {HL : DecoderLaws (D := D)} stop min_tokens include ids (dec : D) steps :
  Forall (λ s, s ≠ []) (stop_list stop) → zlen ids = decoder_prompt_len dec →
  match updates (init_base stop min_tokens include ids dec) steps with
  | Ok (r, d) => run_result (stop_list stop) min_tokens include dec ids [] steps r d ∧
      (r = None → min_tokens = 0 → no_stop (stop_list stop) (output_text d))
  | Raise e => decoder_error (D := D) e
  end.
Proof.
  intros Hne Hl. destruct (updates _ steps) as [[r d]|e] eqn:H; [|by eapply updates_error].
  apply (updates_spec dec ids steps []) in H; [|done| |].
  - split; [done|]. intros -> ->. eapply early_only_none; [done|]. apply H.
  - split; [done| |done]. cbn. by rewrite app_nil_r.
  - exists []. rewrite take_nil. split; [by eexists|]. intros s j Hin Hoc%occurs_fits. done.
Qed.

(** The slow decoder never raises. *)
Lemma slow_total tk e : ¬ decoder_error (D := SlowDecoder) (Decoder0 := slow_decoder tk) e.
Proof.
  intros (dec & ids & i & Hids & H). cbn [decode_next slow_decoder] in H. unfold slow_decode_next, detokenize_incrementally in H.
  destruct (last ids) as [x|] eqn:E; [|by apply last_None in E]. cbv zeta in H.
  destruct (_ || ends_unfinished _); discriminate H.
Qed.

(** ** Examples *)

(** A tokenizer whose tokens are single characters. *)
Definition demo_tokenizer : Tokenizer :=
  mkTokenizer (λ ids _, (λ i, Some [i]) <$> ids) (@concat Z) 1000 true [] [].

Definition demo_slow : SlowDecoder := mkSlow 1 [[120]] 0 1 false true.

(** The stop string "ab"; the text "xaab" arrives character by character. *)
Definition demo_steps_ab : list (list Z * option FinishReason) := [([120], None); ([97], None); ([97; 98], None)].

Lemma streamed_text_final_witness :
  ∃ ts fin d, stream (Decoder0 := slow_decoder demo_tokenizer)
      (init_base (OneStop [97; 98]) 0 false [120] demo_slow) demo_steps_ab = Ok (ts, fin, d) ∧
    ts = [[]; [120]; [97]] ∧ fin = true ∧ output_text d = [120; 97] ∧ concat ts = output_text d.
Proof.
  pose proof (streamed_text_final (Decoder0 := slow_decoder demo_tokenizer) (OneStop [97; 98]) 0 false [120] demo_slow
    demo_steps_ab ltac:(by repeat constructor)) as H.
  destruct (stream (Decoder0 := slow_decoder demo_tokenizer) _ _) as [[[ts fin] d]|e] eqn:E; [|by destruct (slow_total _ _ H)].
  destruct H as [_ Hfin]. exists ts, fin, d. vm_compute in E. injection E as <- <- <-.
  split; [reflexivity|]. split; [reflexivity|]. split; [reflexivity|]. split; [reflexivity|]. exact (Hfin eq_refl).
Defined.

(** The stop string "a" with a minimum of two tokens: that of "xa" is left alone, that of
    the third token is found. *)
Lemma stop_strings_exact_witness :
  (∃ d, updates (Decoder0 := slow_decoder demo_tokenizer) (init_base (OneStop [97]) 2 false [120] demo_slow)
      [([120], false); ([97], false)] = Ok (None, d) ∧ output_text d = [120; 97] ∧
    early_only (Decoder0 := slow_decoder demo_tokenizer) [[97]] 2 demo_slow [120] [(120, true); (97, true)] (output_text d)) ∧
  (∃ d, updates (Decoder0 := slow_decoder demo_tokenizer) (init_base (OneStop [97]) 2 false [120] demo_slow)
      [([120], false); ([97; 97], false)] = Ok (Some [97], d) ∧ output_text d = [120; 97] ∧
    run_result (Decoder0 := slow_decoder demo_tokenizer) [[97]] 2 false demo_slow [120] []
      [([120], false); ([97; 97], false)] (Some [97]) d).
Proof.
  split.
  - pose proof (stop_strings_exact (Decoder0 := slow_decoder demo_tokenizer) (OneStop [97]) 2 false [120] demo_slow
      [([120], false); ([97], false)] ltac:(by repeat constructor) ltac:(reflexivity)) as H.
    destruct (updates (Decoder0 := slow_decoder demo_tokenizer) _ _) as [[r d]|e] eqn:E; [|by destruct (slow_total _ _ H)].
    destruct H as [H _]. exists d. vm_compute in E. injection E as <- <-. split; [reflexivity|]. split; [reflexivity|]. exact (proj2 H).
  - pose proof (stop_strings_exact (Decoder0 := slow_decoder demo_tokenizer) (OneStop [97]) 2 false [120] demo_slow
      [([120], false); ([97; 97], false)] ltac:(by repeat constructor) ltac:(reflexivity)) as H.
    destruct (updates (Decoder0 := slow_decoder demo_tokenizer) _ _) as [[r d]|e] eqn:E; [|by destruct (slow_total _ _ H)].
    destruct H as [H _]. exists d. vm_compute in E. injection E as <- <-. split; [reflexivity|]. split; [reflexivity|]. exact H.
Defined.

(** ** A stop string that stays in the output *)

(** The strings are tried in the order of the list, and the text is cut at the first
    one found: an occurrence of a later one before it stays in the output, which
    is documented not to contain the stop strings. *)
Theorem stop_string_left_in_output :
  ∃ d, detok_update (Decoder0 := slow_decoder demo_tokenizer)
      (init_base (Stops [[98]; [97]]) 0 false [120] demo_slow) [97; 98] false = Ok (Some [98], d) ∧
    output_text d = [97].
Proof. eexists. split; vm_compute; reflexivity. Qed.
