(* ===== verification/Outputs.v ===== *)
(** * Request outputs, their collector, and parallel sampling
    [RequestOutput] of [outputs.py], [RequestOutputCollector] of
    [v1/engine/output_processor.py], which hands the outputs of a request over
    to its reader and merges them when the reader is behind, and [ParentRequest]
    of [v1/engine/parallel_sampling.py], which gathers the [n] children of a
    request.  Log probabilities, statistics and routed experts are left out. *)

From stdpp Require Import pretty.
From S2P Require Import Prelude KVBlock Request Detokenizer.

#[local] Open Scope Z_scope.

(** ** Outputs *)

(** A stop string or a token id. *)
Inductive OutStop := OutStopToken (t : Z) | OutStopText (s : text).

Record CompletionOutput := mkCompletion {
  co_index : nat;
  co_text : text;
  co_token_ids : list Z;
  co_finish_reason : option FinishReason;
  co_stop_reason : option OutStop;
}.

Definition co_finished (o : CompletionOutput) : bool := bool_decide (is_Some (co_finish_reason o)).

Record RequestOutput := mkOutput {
  ro_request_id : string;
  ro_outputs : list CompletionOutput;
  ro_finished : bool;
}.

Definition STREAM_FINISHED : RequestOutput := mkOutput "" [] true.

(** The [for ... else] loop over the completions of one output. *)
Fixpoint merge_completion (aggregate : bool) (next : CompletionOutput) (outputs : list CompletionOutput)
    : list CompletionOutput :=
  match outputs with
  | [] => [next]
  | c :: outputs =>
      if (co_index c =? co_index next)%nat then
        (if aggregate
         then mkCompletion (co_index c) (co_text c ++ co_text next) (co_token_ids c ++ co_token_ids next)
                (co_finish_reason next) (co_stop_reason next)
         else next) :: outputs
      else c :: merge_completion aggregate next outputs
  end.

Definition output_add (o next_output : RequestOutput) (aggregate : bool) : RequestOutput :=
  mkOutput (ro_request_id o)
    (foldl (λ outputs next, merge_completion aggregate next outputs) (ro_outputs o) (ro_outputs next_output))
    (ro_finished o || ro_finished next_output).

(** ** The collector *)

(** What is handed over: an output, a pooling output or an exception. *)
Inductive collected :=
  | COutput (o : RequestOutput)
  | CPooling (request_id : string) (finished : bool)
  | CException (e : exn).

Record Collector := mkCollector {
  aggregate : bool;
  pending : option collected;
}.

Definition collector_put (c : Collector) (output : collected) : Collector :=
  match pending c, output with
  | None, _ | _, CException _ => mkCollector (aggregate c) (Some output)
  | Some (COutput o), COutput next => mkCollector (aggregate c) (Some (COutput (output_add o next (aggregate c))))
  | Some (CPooling _ _), CPooling _ _ => mkCollector (aggregate c) (Some output)
  | _, _ => c
  end.

(** [get_nowait], and [get] when there is an output. *)
Definition collector_get_nowait (c : Collector) : result (option collected * Collector) :=
  match pending c with
  | Some (CException e) => Raise e
  | o => Ok (o, mkCollector (aggregate c) None)
  end.

(** ** Parallel sampling *)

Inductive RequestOutputKind := CUMULATIVE | DELTA | FINAL_ONLY.

#[export] Instance RequestOutputKind_eq_dec : EqDecision RequestOutputKind.
Proof. solve_decision. Defined.

(** The sampling parameters parallel sampling looks at. *)
Record OutputParams := mkOutParams {
  op_n : nat;
  op_seed : option Z;
  op_output_kind : RequestOutputKind;
}.

Record ParentRequest := mkParent {
  pr_request_id : string;
  pr_external_req_id : string;
  pr_params : OutputParams;
  child_requests : gset string;
  output_aggregator : list (option CompletionOutput);
  cached_child_sampling_params : option OutputParams;
}.

Definition init_parent (request_id external_req_id : string) (params : OutputParams) : ParentRequest :=
  mkParent request_id external_req_id params ∅
    (if decide (op_output_kind params = FINAL_ONLY) then replicate (op_n params) None else []) None.

Definition set_children (s : gset string) (agg : list (option CompletionOutput)) (p : ParentRequest) : ParentRequest :=
  mkParent (pr_request_id p) (pr_external_req_id p) (pr_params p) s agg (cached_child_sampling_params p).

Definition _get_child_sampling_params (p : ParentRequest) (index : nat) : OutputParams * ParentRequest :=
  match cached_child_sampling_params p with
  | Some params => (params, p)
  | None =>
      match op_seed (pr_params p) with
      | None =>
          let child := mkOutParams 1 None (op_output_kind (pr_params p)) in
          (child, mkParent (pr_request_id p) (pr_external_req_id p) (pr_params p) (child_requests p)
                    (output_aggregator p) (Some child))
      | Some seed => (mkOutParams 1 (Some (seed + Z.of_nat index)) (op_output_kind (pr_params p)), p)
      end
  end.

(** [f"{index}_{self.request_id}"] *)
Definition child_id (p : ParentRequest) (index : nat) : string := pretty index +:+ "_" +:+ pr_request_id p.

Definition get_child_info (p : ParentRequest) (index : nat) : string * OutputParams * ParentRequest :=
  let child_req_id := child_id p index in
  let '(params, p) := _get_child_sampling_params p index in
  (child_req_id, params, set_children ({[child_req_id]} ∪ child_requests p) (output_aggregator p) p).

Definition get_outputs (p : ParentRequest) (child_request_id : string) (o : CompletionOutput)
    : result (list (option CompletionOutput) * bool * ParentRequest) :=
  let '(p, already_finished_and_returned) :=
    if co_finished o then
      if bool_decide (child_request_id ∈ child_requests p)
      then (set_children (child_requests p ∖ {[child_request_id]}) (output_aggregator p) p, false)
      else (p, true)
    else (p, false) in
  let finished := bool_decide (child_requests p = ∅) in
  if decide (op_output_kind (pr_params p) = FINAL_ONLY) then
    if decide (co_index o < length (output_aggregator p))%nat then
      let p := set_children (child_requests p) (<[co_index o := Some o]> (output_aggregator p)) p in
      Ok (if finished then output_aggregator p else [], finished, p)
    else Raise IndexError
  else Ok (if (already_finished_and_returned : bool) then [] else [Some o], finished, p).

Example final_only :
  let p := init_parent "r" "r" (mkOutParams 2 (Some 7) FINAL_ONLY) in
  let '(c0, s0, p) := get_child_info p 0 in
  let '(c1, s1, p) := get_child_info p 1 in
  let o i := mkCompletion i [120] [1] (Some LENGTH) None in
  op_seed <$> [s0; s1] = [Some 7; Some 8] ∧
  ('(r1, f1, p) ← get_outputs p c1 (o 1%nat); '(r0, f0, p) ← get_outputs p c0 (o 0%nat); Ok (r1, f1, r0, f0)) =
    Ok ([], false, [Some (o 0%nat); Some (o 1%nat)], true).
Proof. vm_compute. done. Qed.

(** ** The collector loses nothing *)

(** What completion [i] contributes of a field. *)
Definition part (f : CompletionOutput → list Z) (i : nat) (l : list CompletionOutput) : list Z :=
  concat (f <$> filter (λ c, co_index c = i) l).

Lemma part_absent f i l : i ∉ co_index <$> l → part f i l = [].
Proof.
  unfold part. induction l as [|c l IH]; [done|]. rewrite fmap_cons, not_elem_of_cons. intros [Hc Hl].
  rewrite filter_cons_False by done. by apply IH.
Qed.

Lemma part_cons f i c l : part f i (c :: l) = (if decide (co_index c = i) then f c else []) ++ part f i l.
Proof. unfold part. rewrite filter_cons. by case_decide. Qed.

Lemma merge_indices agg next l :
  co_index <$> merge_completion agg next l =
    (co_index <$> l) ++ (if decide (co_index next ∈ co_index <$> l) then [] else [co_index next]).
Proof.
  induction l as [|c l IH]; cbn [merge_completion]; [by rewrite decide_False by apply not_elem_of_nil|].
  rewrite !fmap_cons. destruct (Nat.eqb_spec (co_index c) (co_index next)) as [E|E].
  - rewrite decide_True by (rewrite <-E; left). rewrite app_nil_r, fmap_cons. destruct agg; simpl; congruence.
  - rewrite fmap_cons, IH.
    destruct (decide (co_index next ∈ co_index <$> l)) as [Hin|Hin], (decide (co_index next ∈ co_index c :: (co_index <$> l)))
      as [Hin'|Hin']; try done; set_solver.
Qed.

Lemma merge_nodup agg next l : NoDup (co_index <$> l) → NoDup (co_index <$> merge_completion agg next l).
Proof.
  intros Hnd. rewrite merge_indices. case_decide; [by rewrite app_nil_r|]. apply NoDup_app. split; [done|].
  split; [by intros x Hx ->%list_elem_of_singleton|apply NoDup_singleton].
Qed.

(** A field that is concatenated when outputs are merged. *)
Definition appended (f : CompletionOutput → list Z) : Prop :=
  ∀ c next, f (mkCompletion (co_index c) (co_text c ++ co_text next) (co_token_ids c ++ co_token_ids next)
                 (co_finish_reason next) (co_stop_reason next)) = f c ++ f next.

Lemma merge_part f i next l :
  appended f → NoDup (co_index <$> l) → part f i (merge_completion true next l) = part f i l ++ part f i [next].
Proof.
  intros Hf. induction l as [|c l IH]; cbn [merge_completion]; intros Hnd; [done|].
  rewrite fmap_cons in Hnd. apply NoDup_cons in Hnd as [Hni Hnd]. rewrite (part_cons _ _ c), part_cons.
  change (part f i []) with (@nil Z). rewrite app_nil_r.
  destruct (Nat.eqb_spec (co_index c) (co_index next)) as [E|E].
  - rewrite part_cons. cbn [co_index]. rewrite Hf, <-E. case_decide as Hi; [|by rewrite app_nil_r].
    rewrite (part_absent f i l) by congruence. by rewrite !app_nil_r.
  - rewrite part_cons, IH by done. rewrite part_cons. change (part f i []) with (@nil Z). by rewrite app_nil_r, app_assoc.
Qed.

Lemma add_part f i o next :
  appended f → NoDup (co_index <$> ro_outputs o) →
  NoDup (co_index <$> ro_outputs (output_add o next true)) ∧
  part f i (ro_outputs (output_add o next true)) = part f i (ro_outputs o) ++ part f i (ro_outputs next).
Proof.
  intros Hf. unfold output_add. cbn [ro_outputs]. generalize (ro_outputs o). induction (ro_outputs next) as [|c l IH];
    intros l0 Hnd; cbn [foldl]; [by rewrite app_nil_r|].
  destruct (IH (merge_completion true c l0)) as [H1 H2]; [by apply merge_nodup|]. split; [done|].
  rewrite H2, merge_part by done. rewrite (part_cons f i c l), part_cons. change (part f i []) with (@nil Z).
  by rewrite app_nil_r, app_assoc.
Qed.

(** The producer puts outputs and the consumer takes them, in any order. *)
Inductive collector_op := Put (o : RequestOutput) | Take.

Fixpoint collector_run (c : Collector) (ops : list collector_op) : result (list collected * Collector) :=
  match ops with
  | [] => Ok ([], c)
  | Put o :: ops => collector_run (collector_put c (COutput o)) ops
  | Take :: ops =>
      '(o, c) ← collector_get_nowait c;
      '(got, c) ← collector_run c ops;
      Ok (match o with Some x => x :: got | None => got end, c)
  end.

Definition puts (ops : list collector_op) : list RequestOutput :=
  omap (λ op, match op with Put o => Some o | Take => None end) ops.

Definition outputs_of (l : list collected) : list RequestOutput :=
  omap (λ x, match x with COutput o => Some o | _ => None end) l.

(** Field [f] of completion [i] over several outputs. *)
Definition all_parts (f : CompletionOutput → list Z) (i : nat) (l : list RequestOutput) : list Z :=
  concat ((λ o, part f i (ro_outputs o)) <$> l).

Definition pending_ok (c : Collector) : Prop :=
  match pending c with
  | None => True
  | Some (COutput o) => NoDup (co_index <$> ro_outputs o)
  | Some _ => False
  end.

Lemma put_spec f i c o :
  appended f → aggregate c = true → pending_ok c → NoDup (co_index <$> ro_outputs o) →
  aggregate (collector_put c (COutput o)) = true ∧ pending_ok (collector_put c (COutput o)) ∧
  all_parts f i (outputs_of (option_list (pending (collector_put c (COutput o))))) =
    all_parts f i (outputs_of (option_list (pending c))) ++ part f i (ro_outputs o) ∧
  existsb ro_finished (outputs_of (option_list (pending (collector_put c (COutput o))))) =
    existsb ro_finished (outputs_of (option_list (pending c))) || ro_finished o.
Proof.
  intros Hf Ha Hp Hnd. destruct c as [agg pend]. unfold pending_ok, collector_put in *. cbn [pending aggregate] in *. subst agg.
  destruct pend as [[a|?|?]|]; try done.
  - destruct (add_part f i a o Hf Hp) as [H1 H2]. split; [done|]. split; [done|].
    unfold all_parts. cbn. rewrite !app_nil_r, !orb_false_r. done.
  - unfold all_parts. cbn. by rewrite app_nil_r, orb_false_r.
Qed.

Lemma collector_run_spec f i c ops :
  appended f → aggregate c = true → pending_ok c → Forall (λ o, NoDup (co_index <$> ro_outputs o)) (puts ops) →
  ∃ got c', collector_run c ops = Ok (got, c') ∧
    all_parts f i (outputs_of (got ++ option_list (pending c'))) =
      all_parts f i (outputs_of (option_list (pending c)) ++ puts ops) ∧
    existsb ro_finished (outputs_of (got ++ option_list (pending c'))) =
      existsb ro_finished (outputs_of (option_list (pending c)) ++ puts ops).
Proof.
  intros Hf. revert c. induction ops as [|[o|] ops IH]; intros c Ha Hp Hops; cbn [collector_run].
  - exists [], c. split; [done|]. by rewrite app_nil_r.
  - cbn in Hops. inversion Hops as [|? ? Ho Hrest]; subst.
    destruct (put_spec f i c o Hf Ha Hp Ho) as (Ha' & Hp' & Hparts & Hfin).
    destruct (IH _ Ha' Hp' Hrest) as (got & c' & Hrun & H1 & H2). exists got, c'. split; [done|].
    cbn [puts omap list_omap]. fold (puts ops). rewrite H1, H2. split.
    + unfold all_parts in *. rewrite !fmap_app, !concat_app, Hparts, <-app_assoc. done.
    + rewrite !existsb_app, Hfin, <-orb_assoc. done.
  - assert (∃ l, pending c = l ∧ collector_get_nowait c = Ok (l, mkCollector (aggregate c) None)) as (l & El & Eg).
    { exists (pending c). unfold collector_get_nowait. unfold pending_ok in Hp. by destruct (pending c) as [[]|]. }
    rewrite Eg. cbn [mbind result_bind].
    destruct (IH (mkCollector (aggregate c) None) Ha I Hops) as (got & c' & -> & H1 & H2). cbn [mbind result_bind].
    eexists _, c'. split; [done|]. cbn [pending option_list outputs_of omap list_omap app] in H1, H2.
    change (puts (Take :: ops)) with (puts ops). rewrite El.
    assert (∀ g, outputs_of (match l with Some x => x :: g | None => g end) = outputs_of (option_list l) ++ outputs_of g) as Happ
      by (intros g; by destruct l as [[]|]).
    assert (outputs_of (match l with Some x => x :: got | None => got end ++ option_list (pending c')) =
      outputs_of (option_list l) ++ outputs_of (got ++ option_list (pending c'))) as ->
      by (rewrite <-Happ; by destruct l).
    unfold all_parts in *. rewrite !fmap_app, !concat_app, !existsb_app, H1, H2. done.
Qed.

(** C32: streaming deltas through the collector loses nothing: however puts and takes
    interleave, for every completion the texts and the tokens that were taken,
    with those still pending, are those that were put, in order; and the end
    of the request is reported once it was put. *)
Theorem collector_lossless ops i :
  Forall (λ o, NoDup (co_index <$> ro_outputs o)) (puts ops) →
  ∃ got c, collector_run (mkCollector true None) ops = Ok (got, c) ∧
    let seen := outputs_of (got ++ option_list (pending c)) in
    all_parts co_text i seen = all_parts co_text i (puts ops) ∧
    all_parts co_token_ids i seen = all_parts co_token_ids i (puts ops) ∧
    existsb ro_finished seen = existsb ro_finished (puts ops).
Proof.
  intros Hops.
  destruct (collector_run_spec co_text i (mkCollector true None) ops) as (got & c & Hrun & H1 & H2); try done.
  destruct (collector_run_spec co_token_ids i (mkCollector true None) ops) as (got' & c' & Hrun' & H1' & _); try done.
  rewrite Hrun in Hrun'. injection Hrun' as <- <-. by exists got, c.
Qed.

Definition demo_delta (i : nat) (t : Z) (fr : option FinishReason) : RequestOutput :=
  mkOutput "r" [mkCompletion i [t] [t] fr None] (bool_decide (is_Some fr)).

Lemma collector_lossless_witness :
  ∃ got c, collector_run (mkCollector true None)
      [Put (demo_delta 0 1 None); Put (demo_delta 1 2 None); Put (demo_delta 0 3 None); Take; Put (demo_delta 0 4 (Some STOP))]
      = Ok (got, c) ∧
    all_parts co_text 0 (outputs_of (got ++ option_list (pending c))) = [1; 3; 4].
Proof.
  destruct (collector_lossless [Put (demo_delta 0 1 None); Put (demo_delta 1 2 None); Put (demo_delta 0 3 None); Take;
    Put (demo_delta 0 4 (Some STOP))] 0) as (got & c & Hrun & H1 & _); [repeat constructor; by intros ?%elem_of_nil|].
  exists got, c. split; [exact Hrun|]. etransitivity; [exact H1|]. reflexivity.
Defined.

(** ** Parallel sampling returns all children *)

Lemma string_length_app (s t : string) : String.length (s +:+ t) = (String.length s + String.length t)%nat.
Proof. induction s as [|a s IH]; [done|]. simpl. f_equal. exact IH. Qed.

Lemma string_app_inj_r (s1 s2 t : string) : s1 +:+ t = s2 +:+ t → s1 = s2.
Proof.
  revert s2. induction s1 as [|a s1 IH]; intros [|b s2] H; [done|..].
  - apply (f_equal String.length) in H. rewrite !string_length_app in H. simpl in H. lia.
  - apply (f_equal String.length) in H. rewrite !string_length_app in H. simpl in H. lia.
  - injection H as -> H. f_equal. by apply IH.
Qed.

Lemma child_id_inj p i j : child_id p i = child_id p j → i = j.
Proof. intros H%string_app_inj_r. by apply (inj pretty). Qed.

Definition make_children (p : ParentRequest) (n : nat) : ParentRequest := foldl (λ p i, (get_child_info p i).2) p (seq 0 n).

(** The children report, one output each. *)
Fixpoint run_outputs (p : ParentRequest) (l : list (string * CompletionOutput))
    : result (list (list (option CompletionOutput) * bool)) :=
  match l with
  | [] => Ok []
  | (id, o) :: l => '(r, f, p) ← get_outputs p id o; rs ← run_outputs p l; Ok ((r, f) :: rs)
  end.

Lemma make_children_spec p n :
  let p' := make_children p n in
  pr_request_id p' = pr_request_id p ∧ pr_params p' = pr_params p ∧ output_aggregator p' = output_aggregator p ∧
  child_requests p' = child_requests p ∪ list_to_set (child_id p <$> seq 0 n).
Proof.
  induction n as [|n IH]; [by split_and!; try done; set_solver|]. unfold make_children in *. rewrite seq_S, foldl_app.
  destruct IH as (H1 & H2 & H3 & H4). cbn [foldl Nat.add]. set (q := foldl _ p (seq 0 n)) in *.
  assert (∃ params q', _get_child_sampling_params q n = (params, q') ∧ pr_request_id q' = pr_request_id q ∧
    pr_params q' = pr_params q ∧ output_aggregator q' = output_aggregator q ∧ child_requests q' = child_requests q)
    as (params & q' & E & E1 & E2 & E3 & E4).
  { unfold _get_child_sampling_params. destruct (cached_child_sampling_params q); [by do 2 eexists|].
    destruct (op_seed (pr_params q)); by do 2 eexists. }
  unfold get_child_info. rewrite E. cbn [snd pr_request_id pr_params output_aggregator child_requests set_children].
  split_and!; try congruence. rewrite E4, H4, fmap_app, list_to_set_app_L.
  assert (child_id q n = child_id p n) as -> by (unfold child_id; by rewrite H1). set_solver.
Qed.

Section final.
Context (outs : nat → CompletionOutput).
Hypothesis Houts : ∀ i, co_index (outs i) = i ∧ co_finished (outs i) = true.

Lemma final_run p rest :
  op_output_kind (pr_params p) = FINAL_ONLY → rest ≠ [] → NoDup rest →
  child_requests p = list_to_set (child_id p <$> rest) → (∀ i, i ∈ rest → (i < length (output_aggregator p))%nat) →
  run_outputs p ((λ i, (child_id p i, outs i)) <$> rest) =
    Ok (replicate (length rest - 1) ([], false) ++
        [(foldl (λ agg i, <[i := Some (outs i)]> agg) (output_aggregator p) rest, true)]).
Proof.
  intros Hk. revert p Hk. induction rest as [|i rest IH]; intros p Hk Hne Hnd Hc Hl; [done|].
  apply NoDup_cons in Hnd as [Hni Hnd]. destruct (Houts i) as [Hi Hf].
  rewrite fmap_cons. cbn [run_outputs]. unfold get_outputs. rewrite Hf, Hi.
  rewrite bool_decide_eq_true_2 by (rewrite Hc; set_solver).
  cbn [pr_params set_children output_aggregator]. rewrite decide_True by done.
  rewrite decide_True by (apply Hl; left). cbn [child_requests set_children mbind result_bind].
  assert (Hrest : child_requests p ∖ {[child_id p i]} = list_to_set (child_id p <$> rest)).
  { rewrite Hc. cbn [fmap list_fmap list_to_set]. assert (child_id p i ∉@{gset string} list_to_set (child_id p <$> rest)); [|set_solver].
    rewrite elem_of_list_to_set, list_elem_of_fmap. intros (j & Hj%child_id_inj & Hin). by subst. }
  rewrite Hrest. set (p' := set_children _ _ _).
  destruct rest as [|j rest].
  - rewrite bool_decide_eq_true_2 by done. cbn [fmap list_fmap run_outputs mbind result_bind]. done.
  - rewrite bool_decide_eq_false_2 by (cbn; set_solver).
    change (child_id p) with (child_id p'). rewrite (IH p'); [|done..|].
    { cbn [mbind result_bind length]. replace (S (S (length rest)) - 1)%nat with (S (S (length rest) - 1)) by lia. done. }
    intros k Hk'. cbn [output_aggregator p' set_children]. rewrite length_insert. apply Hl. by right.
Qed.

Lemma foldl_insert_lookup agg l k :
  (∀ i, i ∈ l → (i < length agg)%nat) →
  foldl (λ agg i, <[i := Some (outs i)]> agg) agg l !! k = (if decide (k ∈ l) then Some (Some (outs k)) else agg !! k).
Proof.
  revert agg. induction l as [|i l IH]; intros agg Hl; cbn [foldl]; [by rewrite decide_False by apply not_elem_of_nil|].
  rewrite IH by (intros j Hj; rewrite length_insert; apply Hl; by right).
  destruct (decide (k ∈ l)) as [Hk|Hk]; [by rewrite decide_True by (by right)|].
  destruct (decide (k = i)) as [->|Hne].
  - rewrite decide_True by left. apply list_lookup_insert_eq. apply Hl. left.
  - rewrite decide_False by set_solver. by rewrite list_lookup_insert_ne.
Qed.
End final.

(** Parallel sampling without streaming: in whatever order the [n] children
    finish, nothing is returned before the last one, and then all [n] outputs are
    returned in the order of their indices. *)
Theorem parallel_outputs_complete id ext n seed outs order :
  (0 < n)%nat → (∀ i, co_index (outs i) = i ∧ co_finished (outs i) = true) → order ≡ₚ seq 0 n →
  let p := make_children (init_parent id ext (mkOutParams n seed FINAL_ONLY)) n in
  run_outputs p ((λ i, (child_id p i, outs i)) <$> order) =
    Ok (replicate (n - 1) ([], false) ++ [((λ i, Some (outs i)) <$> seq 0 n, true)]).
Proof.
  intros Hn Houts Hp p. set (p0 := init_parent id ext (mkOutParams n seed FINAL_ONLY)) in *.
  destruct (make_children_spec p0 n) as (H1 & H2 & H3 & H4). fold p in H1, H2, H3, H4.
  assert (Hagg : output_aggregator p = replicate n None) by (rewrite H3; reflexivity).
  assert (Hlen : length order = n) by (rewrite Hp; apply length_seq).
  assert (Hall : foldl (λ agg i, <[i := Some (outs i)]> agg) (replicate n None) order = (λ i, Some (outs i)) <$> seq 0 n).
  { apply list_eq. intros k. rewrite (foldl_insert_lookup outs Houts).
    2:{ intros i Hi. rewrite Hp in Hi. apply elem_of_seq in Hi. rewrite length_replicate. lia. }
    rewrite (decide_ext (k ∈ order) (k ∈ seq 0 n)) by (by rewrite Hp). rewrite list_lookup_fmap.
    destruct (decide (k ∈ seq 0 n)) as [Hk|Hk].
    - apply elem_of_seq in Hk. rewrite lookup_seq_lt by lia. done.
    - assert (n ≤ k)%nat by (rewrite elem_of_seq in Hk; lia). rewrite lookup_seq_ge by done.
      apply lookup_ge_None_2. by rewrite length_replicate. }
  rewrite (final_run outs Houts p order).
  - by rewrite Hlen, Hagg, Hall.
  - by rewrite H2.
  - intros ->. simpl in Hlen. lia.
  - rewrite Hp. apply NoDup_seq.
  - rewrite H4. change (child_requests p0) with (∅ : gset string). rewrite (left_id_L ∅ (∪)).
    assert (child_id p = child_id p0) as ->; [|apply set_eq; intros x; rewrite !elem_of_list_to_set; by rewrite Hp].
    unfold child_id. by rewrite H1.
  - intros i Hi. rewrite Hp in Hi. apply elem_of_seq in Hi. rewrite Hagg, length_replicate. lia.
Qed.

Lemma parallel_outputs_complete_witness :
  let outs i := mkCompletion i [Z.of_nat i] [] (Some LENGTH) None in
  let p := make_children (init_parent "r" "r" (mkOutParams 2 None FINAL_ONLY)) 2 in
  run_outputs p [(child_id p 1, outs 1%nat); (child_id p 0, outs 0%nat)] =
    Ok [([], false); ([Some (outs 0%nat); Some (outs 1%nat)], true)].
Proof.
  intros outs p. apply (parallel_outputs_complete "r" "r" 2 None outs [1; 0]%nat); [lia|done|apply Permutation_swap].
Defined.

(** ** A child that finishes early *)

(** The children are registered one by one, and the event loop may run in between.
    When the first child finishes before the second one is registered, the
    set of children is empty: the request is reported finished, with no output
    for the second child. *)
Theorem early_child_ends_parent id ext seed o :
  co_index o = 0%nat → co_finished o = true →
  let p := init_parent id ext (mkOutParams 2 seed FINAL_ONLY) in
  let '(c0, _, p) := get_child_info p 0 in
  ∃ p', get_outputs p c0 o = Ok ([Some o; None], true, p').
Proof.
  intros Hi Hf p. unfold get_child_info.
  destruct (_get_child_sampling_params p 0) as [params p'] eqn:E.
  assert (pr_params p' = pr_params p ∧ child_requests p' = ∅ ∧ output_aggregator p' = [None; None]) as (E1 & E2 & E3).
  { unfold _get_child_sampling_params in E. cbn in E. destruct seed; injection E as <- <-; done. }
  unfold get_outputs. cbn [child_requests set_children]. rewrite Hf, E2.
  rewrite bool_decide_eq_true_2 by set_solver. cbn [child_requests set_children pr_params output_aggregator].
  rewrite E1. cbn [pr_params op_output_kind p init_parent]. rewrite decide_True by done.
  rewrite E3, Hi. rewrite decide_True by (simpl; lia).
  rewrite bool_decide_eq_true_2 by set_solver. by eexists.
Qed.
