(* ===== verification/OutputProcessor.v ===== *)
(** * The output processor
    [RequestState] and [OutputProcessor] of [v1/engine/output_processor.py]: the
    front end's table of requests, the outputs made from what the engine core
    returns, stop strings found in the text, streaming inputs, and aborts by
    internal, parent or external id.  Parent requests and collectors are shared
    objects and live in stores.  Statistics, tracing, log probabilities, prompts
    in outputs and routed experts are left out. *)

From S2P Require Import Prelude OrderedDict KVBlock Request SchedUtils Detokenizer Outputs.

#[local] Open Scope Z_scope.

(** ** Detokenizers *)

(** [IncrementalDetokenizer] itself, used without a tokenizer, or one of its
    subclasses. *)
Inductive AnyDetok (D : Type) :=
  | PlainDetok (token_ids : list Z)
  | TextDetok (d : BaseDetokenizer D).
Arguments PlainDetok {D} _.
Arguments TextDetok {D} _.

Section detok.
Context {D : Type} `{!Decoder D}.

Definition any_update (d : AnyDetok D) (new_token_ids : list Z) (stop_terminated : bool)
    : result (option text * AnyDetok D) :=
  match d with
  | PlainDetok ids => Ok (None, PlainDetok (ids ++ new_token_ids))
  | TextDetok d => '(s, d) ← detok_update d new_token_ids stop_terminated; Ok (s, TextDetok d)
  end.

Definition any_next_text (d : AnyDetok D) (finished delta : bool) : text * AnyDetok D :=
  match d with
  | PlainDetok ids => ([], PlainDetok ids)
  | TextDetok d => let '(t, d) := get_next_output_text d finished delta in (t, TextDetok d)
  end.

Definition any_num_output_tokens (d : AnyDetok D) : Z :=
  match d with PlainDetok ids => zlen ids | TextDetok d => num_output_tokens d end.

Definition any_output_token_ids (d : AnyDetok D) : list Z :=
  match d with PlainDetok ids => ids | TextDetok d => output_token_ids d end.
End detok.

(** ** Requests *)

(** The part of [EngineCoreRequest] the output processor reads; without sampling
    parameters it is a pooling request. *)
Record EngineRequest := mkEngineRequest {
  er_request_id : string;
  er_external_req_id : option string;
  er_prompt_token_ids : option (list Z);
  er_prompt_embeds : option (list bytes);
  er_sampling : bool;
  er_output_kind : RequestOutputKind;
  er_resumable : bool;
}.

(** The part of [EngineCoreOutput]; [eo_pooling] tells a pooling output. *)
Record EngineOutput := mkEngineOutput {
  eo_request_id : string;
  eo_new_token_ids : list Z;
  eo_pooling : bool;
  eo_finish_reason : option FinishReason;
  eo_stop_reason : option OutStop;
}.

Record StreamUpdate := mkStreamUpdate {
  su_prompt_token_ids : option (list Z);
  su_final : bool;
}.

Record RequestState (D : Type) := mkRS {
  rs_request_id : string;
  rs_external_req_id : string;
  rs_parent_req : option string;
  rs_request_index : nat;
  rs_output_kind : RequestOutputKind;
  rs_prompt_token_ids : option (list Z);
  rs_prompt_embeds : option (list bytes);
  rs_prompt_len : Z;
  rs_detokenizer : option (AnyDetok D);
  rs_queue : option nat;
  rs_is_prefilling : bool;
  rs_stream_interval : Z;
  rs_sent_tokens_offset : Z;
  rs_streaming_input : bool;
  rs_input_chunk_queue : option (list StreamUpdate);
}.
Arguments mkRS {D}.
Arguments rs_request_id {D} _.
Arguments rs_external_req_id {D} _.
Arguments rs_parent_req {D} _.
Arguments rs_request_index {D} _.
Arguments rs_output_kind {D} _.
Arguments rs_prompt_token_ids {D} _.
Arguments rs_prompt_embeds {D} _.
Arguments rs_prompt_len {D} _.
Arguments rs_detokenizer {D} _.
Arguments rs_queue {D} _.
Arguments rs_is_prefilling {D} _.
Arguments rs_stream_interval {D} _.
Arguments rs_sent_tokens_offset {D} _.
Arguments rs_streaming_input {D} _.
Arguments rs_input_chunk_queue {D} _.

Section state.
Context {D : Type} `{!Decoder D}.
Implicit Types r : RequestState D.

Definition set_detok (d : option (AnyDetok D)) (sent : Z) r : RequestState D :=
  mkRS (rs_request_id r) (rs_external_req_id r) (rs_parent_req r) (rs_request_index r) (rs_output_kind r)
    (rs_prompt_token_ids r) (rs_prompt_embeds r) (rs_prompt_len r) d (rs_queue r) (rs_is_prefilling r)
    (rs_stream_interval r) sent (rs_streaming_input r) (rs_input_chunk_queue r).
Definition set_prefilling (b : bool) r : RequestState D :=
  mkRS (rs_request_id r) (rs_external_req_id r) (rs_parent_req r) (rs_request_index r) (rs_output_kind r)
    (rs_prompt_token_ids r) (rs_prompt_embeds r) (rs_prompt_len r) (rs_detokenizer r) (rs_queue r) b
    (rs_stream_interval r) (rs_sent_tokens_offset r) (rs_streaming_input r) (rs_input_chunk_queue r).
Definition set_streaming (b : bool) (q : option (list StreamUpdate)) r : RequestState D :=
  mkRS (rs_request_id r) (rs_external_req_id r) (rs_parent_req r) (rs_request_index r) (rs_output_kind r)
    (rs_prompt_token_ids r) (rs_prompt_embeds r) (rs_prompt_len r) (rs_detokenizer r) (rs_queue r)
    (rs_is_prefilling r) (rs_stream_interval r) (rs_sent_tokens_offset r) b q.

(** An empty or missing prompt is replaced, another one extended; the list is a
    value here, while the code extends the list object of the first input. *)
Definition apply_streaming_update r (u : StreamUpdate) : RequestState D :=
  let new := default [] (su_prompt_token_ids u) in
  let ids := match rs_prompt_token_ids r with
             | Some (i :: ids) => (i :: ids) ++ new
             | _ => new
             end in
  mkRS (rs_request_id r) (rs_external_req_id r) (rs_parent_req r) (rs_request_index r) (rs_output_kind r)
    (Some ids) (rs_prompt_embeds r) (zlen ids) (rs_detokenizer r) (rs_queue r) true (rs_stream_interval r)
    (rs_sent_tokens_offset r) (negb (su_final u)) (rs_input_chunk_queue r).

(** The detokenizer of a new sampling request, from the tokenizer. *)
Definition from_new_request (new_detok : EngineRequest → result (AnyDetok D)) (request : EngineRequest)
    (parent_req : option string) (request_index : nat) (queue : option nat) (stream_interval : Z)
    : result (RequestState D) :=
  detok ← (if er_sampling request then d ← new_detok request; Ok (Some d) else Ok None);
  match er_external_req_id request with
  | None => Raise AssertionError
  | Some ext =>
      n ← length_from_prompt_token_ids_or_embeds (er_prompt_token_ids request) (er_prompt_embeds request);
      Ok (mkRS (er_request_id request) ext parent_req request_index (er_output_kind request)
            (er_prompt_token_ids request) (er_prompt_embeds request) n detok queue true stream_interval 0
            (er_resumable request) (if er_resumable request then Some [] else None))
  end.

Definition _new_completion_output r (token_ids : list Z) (finish_reason : option FinishReason)
    (stop_reason : option OutStop) : result (CompletionOutput * RequestState D) :=
  match rs_detokenizer r with
  | None => Raise AssertionError
  | Some d =>
      let finished := bool_decide (is_Some finish_reason) in
      let delta := bool_decide (rs_output_kind r = DELTA) in
      let '(t, d) := any_next_text d finished delta in
      let token_ids := if delta then token_ids else any_output_token_ids d in
      Ok (mkCompletion (rs_request_index r) t token_ids finish_reason (if finished then stop_reason else None),
          set_detok (Some d) (rs_sent_tokens_offset r) r)
  end.

(** Whether an output is due, and the tokens it carries. *)
Definition stream_gate r (new_token_ids : list Z) (finished : bool) : result (option (list Z * RequestState D)) :=
  if negb finished && bool_decide (rs_output_kind r = FINAL_ONLY) then Ok None else
  if 1 <? rs_stream_interval r then
    match rs_detokenizer r with
    | None => Raise AssertionError
    | Some d =>
        if negb (finished || (rs_sent_tokens_offset r =? 0) ||
                 (rs_stream_interval r <=? any_num_output_tokens d - rs_sent_tokens_offset r)) then Ok None
        else if bool_decide (rs_output_kind r = DELTA) then
          Ok (Some (drop (Z.to_nat (rs_sent_tokens_offset r)) (any_output_token_ids d),
                    set_detok (Some d) (any_num_output_tokens d) r))
        else Ok (Some (new_token_ids, r))
    end
  else Ok (Some (new_token_ids, r)).

(** The assertion of [_new_request_output] on the prompt. *)
Definition has_prompt r : bool :=
  bool_decide (is_Some (rs_prompt_token_ids r)) || bool_decide (is_Some (rs_prompt_embeds r)).

(** [None] entries of a parent's outputs are handed on as they are; here they are
    left out of the list. *)
Definition make_request_output (parents : gmap string ParentRequest) r (new_token_ids : list Z) (pooling : bool)
    (finish_reason : option FinishReason) (stop_reason : option OutStop)
    : result (option collected * RequestState D * gmap string ParentRequest) :=
  let finished := bool_decide (is_Some finish_reason) in
  gate ← stream_gate r new_token_ids finished;
  match gate with
  | None => Ok (None, r, parents)
  | Some (new_token_ids, r) =>
      if (pooling : bool) then
        _ ← py_assert (has_prompt r);
        Ok (Some (CPooling (rs_external_req_id r) finished), r, parents)
      else
        '(output, r) ← _new_completion_output r new_token_ids finish_reason stop_reason;
        match rs_parent_req r with
        | None =>
            _ ← py_assert (has_prompt r);
            Ok (Some (COutput (mkOutput (rs_external_req_id r) [output] finished)), r, parents)
        | Some pid =>
            match parents !! pid with
            | None => Raise KeyError
            | Some p =>
                '(outputs, finished, p) ← get_outputs p (rs_request_id r) output;
                let parents := <[pid := p]> parents in
                match outputs with
                | [] => Ok (None, r, parents)
                | _ =>
                    _ ← py_assert (has_prompt r);
                    Ok (Some (COutput (mkOutput (pr_external_req_id p) (omap id outputs) finished)), r, parents)
                end
            end
        end
  end.
End state.

(** ** The processor *)

Record OutputProcessor (D : Type) := mkOP {
  op_stream_interval : Z;
  request_states : list (string * RequestState D);
  parent_requests : gset string;
  external_req_ids : gmap string (list string);
  op_parents : gmap string ParentRequest;   (** the parent objects *)
  op_queues : gmap nat Collector;           (** the collector objects *)
}.
Arguments mkOP {D}.
Arguments op_stream_interval {D} _.
Arguments request_states {D} _.
Arguments parent_requests {D} _.
Arguments external_req_ids {D} _.
Arguments op_parents {D} _.
Arguments op_queues {D} _.

Section processor.
Context {D : Type} `{!Decoder D} (new_detok : EngineRequest → result (AnyDetok D)) (set_iter : gset string → list string).
Implicit Types (op : OutputProcessor D) (r : RequestState D).

Definition set_states (l : list (string * RequestState D)) op : OutputProcessor D :=
  mkOP (op_stream_interval op) l (parent_requests op) (external_req_ids op) (op_parents op) (op_queues op).
Definition set_parent_requests (s : gset string) op : OutputProcessor D :=
  mkOP (op_stream_interval op) (request_states op) s (external_req_ids op) (op_parents op) (op_queues op).
Definition set_external (m : gmap string (list string)) op : OutputProcessor D :=
  mkOP (op_stream_interval op) (request_states op) (parent_requests op) m (op_parents op) (op_queues op).
Definition set_parents (m : gmap string ParentRequest) op : OutputProcessor D :=
  mkOP (op_stream_interval op) (request_states op) (parent_requests op) (external_req_ids op) m (op_queues op).
Definition set_queues (m : gmap nat Collector) op : OutputProcessor D :=
  mkOP (op_stream_interval op) (request_states op) (parent_requests op) (external_req_ids op) (op_parents op) m.
Definition put_state r op : OutputProcessor D := set_states (od_set (request_states op) (rs_request_id r) r) op.

Definition init_processor (stream_interval : Z) : OutputProcessor D := mkOP stream_interval [] ∅ ∅ ∅ ∅.

Definition get_num_unfinished_requests op : Z := zlen (request_states op).
Definition op_has_unfinished_requests op : bool := 0 <? zlen (request_states op).

(** [queue.put(output)] *)
Definition queue_put (q : nat) (x : collected) op : result (OutputProcessor D) :=
  match op_queues op !! q with
  | None => Raise KeyError
  | Some c => Ok (set_queues (<[q := collector_put c x]> (op_queues op)) op)
  end.

Definition propagate_error op (e : exn) : result (OutputProcessor D) :=
  mfold (λ op p, match rs_queue p.2 with
                 | None => Raise AssertionError
                 | Some q => queue_put q (CException e) op
                 end) op (request_states op).

(** [internal_ids = self.external_req_ids[ext]; internal_ids.remove(id)], and the
    entry is deleted when it becomes empty; [remove] raises for an absent id. *)
Definition forget_external (m : gmap string (list string)) (ext id : string) : result (gmap string (list string)) :=
  let internal_ids := default [] (m !! ext) in
  if bool_decide (id ∈ internal_ids) then
    let internal_ids := remove_first id internal_ids in
    Ok (if bool_decide (internal_ids = []) then delete ext m else <[ext := internal_ids]> m)
  else Raise ValueError.

Definition _finish_request op r : result (OutputProcessor D) :=
  match od_get (request_states op) (rs_request_id r) with
  | None => Raise KeyError
  | Some _ =>
      let op := set_states (od_del (request_states op) (rs_request_id r)) op in
      m ← forget_external (external_req_ids op) (rs_external_req_id r) (rs_request_id r);
      let op := set_external m op in
      match rs_parent_req r with
      | None => Ok op
      | Some pid =>
          match op_parents op !! pid with
          | None => Raise KeyError
          | Some p => Ok (if bool_decide (child_requests p = ∅)
                          then set_parent_requests (parent_requests op ∖ {[pid]}) op else op)
          end
      end
  end.

(** A list with its last element changed. *)
Definition mark_final (l : list StreamUpdate) : list StreamUpdate :=
  alter (λ u, mkStreamUpdate (su_prompt_token_ids u) true) (length l - 1)%nat l.

Definition _update_streaming_request_state op r (request : EngineRequest) : result (OutputProcessor D) :=
  if negb (er_resumable request) then
    match rs_input_chunk_queue r with
    | None =>
        op ← _finish_request op r;
        match rs_queue r with
        | None => Ok op
        | Some q => queue_put q (COutput STREAM_FINISHED) op
        end
    | Some [] => Ok (put_state (set_streaming false (Some []) r) op)
    | Some l => Ok (put_state (set_streaming (rs_streaming_input r) (Some (mark_final l)) r) op)
    end
  else
    let u := mkStreamUpdate (er_prompt_token_ids request) false in
    match rs_input_chunk_queue r with
    | None =>
        let r := apply_streaming_update r u in
        Ok (put_state (set_streaming (rs_streaming_input r) (Some []) r) op)
    | Some l => Ok (put_state (set_streaming (rs_streaming_input r) (Some (l ++ [u])) r) op)
    end.

(** The parent is a reference to its object. *)
Definition op_add_request op (request : EngineRequest) (parent_req : option string) (request_index : nat)
    (queue : option nat) : result (OutputProcessor D) :=
  let request_id := er_request_id request in
  match od_get (request_states op) request_id with
  | Some r => _update_streaming_request_state op r request
  | None =>
      r ← from_new_request new_detok request parent_req request_index queue (op_stream_interval op);
      let op := put_state r op in
      let op := match parent_req with
                | None => op
                | Some pid => set_parent_requests ({[pid]} ∪ parent_requests op) op
                end in
      let ids := default [] (external_req_ids op !! rs_external_req_id r) in
      Ok (set_external (<[rs_external_req_id r := ids ++ [request_id]]> (external_req_ids op)) op)
  end.

(** One engine output; [acc] are the outputs to return and the requests to abort. *)
Definition process_output (st : OutputProcessor D * (list collected * list string)) (o : EngineOutput)
    : result (OutputProcessor D * (list collected * list string)) :=
  let '(op, (outs, aborts)) := st in
  match od_get (request_states op) (eo_request_id o) with
  | None => Ok st
  | Some r =>
      let r := set_prefilling false r in
      '(finish_reason, stop_reason, r) ←
        (if eo_pooling o then Ok (eo_finish_reason o, eo_stop_reason o, r) else
         match rs_detokenizer r with
         | None => Raise AssertionError
         | Some d =>
             '(stop_string, d) ← any_update d (eo_new_token_ids o) (bool_decide (eo_finish_reason o = Some STOP));
             let r := set_detok (Some d) (rs_sent_tokens_offset r) r in
             Ok (match stop_string with
                 | Some (c :: s) => (Some STOP, Some (OutStopText (c :: s)), r)
                 | _ => (eo_finish_reason o, eo_stop_reason o, r)
                 end)
         end);
      '(out, r, parents) ← make_request_output (op_parents op) r (eo_new_token_ids o) (eo_pooling o) finish_reason
                             stop_reason;
      let op := put_state r (set_parents parents op) in
      let out := match out with
                 | Some (COutput x) => Some (COutput (mkOutput (ro_request_id x) (ro_outputs x)
                                                        (ro_finished x && negb (rs_streaming_input r))))
                 | Some (CPooling i f) => Some (CPooling i (f && negb (rs_streaming_input r)))
                 | x => x
                 end in
      '(op, outs) ← match out, rs_queue r with
                    | None, _ => Ok (op, outs)
                    | Some x, Some q => op ← queue_put q x op; Ok (op, outs)
                    | Some x, None => Ok (op, outs ++ [x])
                    end;
      match finish_reason with
      | None => Ok (op, (outs, aborts))
      | Some _ =>
          if rs_streaming_input r then
            match rs_input_chunk_queue r with
            | Some (u :: l) =>
                Ok (put_state (apply_streaming_update (set_streaming (rs_streaming_input r) (Some l) r) u) op,
                    (outs, aborts))
            | _ => Ok (put_state (set_streaming (rs_streaming_input r) None r) op, (outs, aborts))
            end
          else
            op ← _finish_request op r;
            Ok (op, (outs, if bool_decide (is_Some (eo_finish_reason o)) then aborts
                           else aborts ++ [eo_request_id o]))
      end
  end.

Definition process_outputs op (l : list EngineOutput) : result (OutputProcessor D * (list collected * list string)) :=
  mfold process_output (op, ([], [])) l.

(** The first loop of [abort_requests]: the internal ids, and the mapping without
    them. *)
Definition resolve_abort (internal : bool) (st : OutputProcessor D * list string) (request_id : string)
    : result (OutputProcessor D * list string) :=
  let '(op, ids) := st in
  if internal then
    match od_get (request_states op) request_id with
    | None => Ok (op, ids ++ [request_id])
    | Some r =>
        m ← forget_external (external_req_ids op) (rs_external_req_id r) request_id;
        Ok (set_external m op, ids ++ [request_id])
    end
  else
    Ok (set_external (delete request_id (external_req_ids op)) op,
        ids ++ default [] (external_req_ids op !! request_id)).

(** The final output of an aborted request, for its queue. *)
Definition abort_output op r : result (OutputProcessor D) :=
  match rs_queue r with
  | None => Ok op
  | Some q =>
      '(out, _, parents) ← make_request_output (op_parents op) r [] (match rs_detokenizer r with None => true | Some _ => false end) (Some ABORT) None;
      let op := set_parents parents op in
      match out with
      | None => Ok op
      | Some x => queue_put q x op
      end
  end.

(** One round of the second loop; [abort_children] is the recursive call. *)
Definition abort_one (abort_children : OutputProcessor D → list string → result (OutputProcessor D * list string))
    (st : OutputProcessor D * list string) (request_id : string) : result (OutputProcessor D * list string) :=
  let '(op, to_abort) := st in
  match od_get (request_states op) request_id with
  | Some r =>
      let op := set_states (od_del (request_states op) request_id) op in
      op ← abort_output op r;
      Ok (op, to_abort ++ [request_id])
  | None =>
      if bool_decide (request_id ∈ parent_requests op) then
        match op_parents op !! request_id with
        | None => Raise KeyError
        | Some p =>
            '(op, children) ←
              (if bool_decide (child_requests p = ∅) then Ok (op, [])
               else abort_children op (set_iter (child_requests p)));
            Ok (set_parent_requests (parent_requests op ∖ {[request_id]}) op, to_abort ++ children)
        end
      else Ok (op, to_abort)
  end.

Fixpoint abort_requests_rec (fuel : nat) op (request_ids : list string) (internal : bool)
    : result (OutputProcessor D * list string) :=
  match fuel with
  | O => Raise OutOfFuel
  | S fuel =>
      '(op, internal_req_ids) ← mfold (resolve_abort internal) (op, []) request_ids;
      mfold (abort_one (λ op ids, abort_requests_rec fuel op ids true)) (op, []) internal_req_ids
  end.

(** The children of a parent are requests, whose ids are not those of parents: two
    levels are enough. *)
Definition op_abort_requests op (request_ids : list string) (internal : bool)
    : result (OutputProcessor D * list string) :=
  abort_requests_rec 2 op request_ids internal.

(** ** Adding a request of the user *)

Definition with_id (id : string) (request : EngineRequest) : EngineRequest :=
  mkEngineRequest id (er_external_req_id request) (er_prompt_token_ids request) (er_prompt_embeds request)
    (er_sampling request) (er_output_kind request) (er_resumable request).

(** One round of the loop that creates the children of the parent object [pid]. *)
Definition add_child op (request : EngineRequest) (pid : string) (queue : option nat) (idx : nat)
    : result (OutputProcessor D) :=
  match op_parents op !! pid with
  | None => Raise KeyError
  | Some p =>
      let '(child, _, p) := get_child_info p idx in
      op_add_request (set_parents (<[pid := p]> (op_parents op)) op) (with_id child request) (Some pid) idx queue
  end.

(** [add_request] of the engines, after the inputs are processed: one request, or
    a parent with [n] children. *)
Definition engine_add_user_request op (request : EngineRequest) (params : OutputParams) (queue : option nat)
    : result (OutputProcessor D) :=
  if (op_n params =? 1)%nat then op_add_request op request None 0 queue
  else
    match er_external_req_id request with
    | None => Raise AssertionError
    | Some ext =>
        let pid := er_request_id request in
        let op := set_parents (<[pid := init_parent pid ext params]> (op_parents op)) op in
        mfold (λ op idx, add_child op request pid queue idx) op (seq 0 (op_n params))
    end.
End processor.
