(* ===== verification/OutputFacts.v ===== *)
(** * The output processor: what its tables keep
    Every operation of the front end keeps the table of requests and the mapping
    from external ids in step: each known request is listed once under its
    external id, and nothing else is listed. *)

From S2P Require Import Prelude OrderedDict KVBlock Request SchedUtils Detokenizer Outputs OutputProcessor.

#[local] Open Scope Z_scope.

Section facts.
Context {D : Type} `{!Decoder D} (new_detok : EngineRequest → result (AnyDetok D)) (set_iter : gset string → list string).
Implicit Types (op : OutputProcessor D) (r : RequestState D).

(** ** The invariant *)

(** The requests of [P] have lost their entry under their external id. *)
Record tables_ok (P : list string) op : Prop := {
  to_nodup : NoDup (request_states op).*1;
  to_id : ∀ id r, od_get (request_states op) id = Some r → rs_request_id r = id;
  to_lists : ∀ ext ids, external_req_ids op !! ext = Some ids → ids ≠ [] ∧ NoDup ids;
  to_map : ∀ ext id, id ∈ default [] (external_req_ids op !! ext) ↔
    (∃ r, od_get (request_states op) id = Some r ∧ rs_external_req_id r = ext) ∧ id ∉ P;
  to_parent : ∀ id r pid, od_get (request_states op) id = Some r → rs_parent_req r = Some pid →
    is_Some (op_parents op !! pid);
}.

(** The same request, in whatever state. *)
Definition same_request r r' : Prop :=
  rs_request_id r' = rs_request_id r ∧ rs_external_req_id r' = rs_external_req_id r ∧
  rs_parent_req r' = rs_parent_req r.

#[export] Instance same_request_preorder : PreOrder same_request.
Proof.
  split; [by intros r|]. intros r1 r2 r3 (H1 & H2 & H3) (H1' & H2' & H3'). split_and!; congruence.
Qed.

Lemma tables_put P op r r' :
  tables_ok P op → od_get (request_states op) (rs_request_id r) = Some r → same_request r r' →
  tables_ok P (put_state r' op).
Proof.
  intros [H1 H2 H3 H4 H5] Hr (E1 & E2 & E3). split; cbn [request_states external_req_ids op_parents put_state set_states].
  - by apply od_set_nodup.
  - intros id x. rewrite od_get_set. case_decide; [|apply H2]. by intros [= <-].
  - done.
  - intros ext id. rewrite H4, od_get_set, E1. case_decide as Hi; [|done]. subst id. rewrite Hr.
    split; intros [(x & [= <-] & <-) HP]; (split; [|done]); by eexists.
  - intros id x pid. rewrite od_get_set, E1. case_decide as Hi; [|apply H5]. intros [= <-]. rewrite E3.
    by apply (H5 (rs_request_id r)).
Qed.

Lemma tables_same P op op' :
  tables_ok P op → request_states op' = request_states op → external_req_ids op' = external_req_ids op →
  (∀ pid, is_Some (op_parents op !! pid) → is_Some (op_parents op' !! pid)) → tables_ok P op'.
Proof. intros [H1 H2 H3 H4 H5] E1 E2 Hp. split; rewrite ?E1, ?E2; try done. intros. eapply Hp, H5; done. Qed.

(** ** External ids *)

Lemma remove_first_elem (x y : string) l : NoDup l → y ∈ remove_first x l ↔ y ∈ l ∧ y ≠ x.
Proof.
  induction l as [|z l IH]; cbn [remove_first]; [intros _; rewrite elem_of_nil; tauto|].
  intros [Hz Hnd]%NoDup_cons. case_decide as E; subst; rewrite elem_of_cons; [set_solver|].
  rewrite elem_of_cons, IH by done. set_solver.
Qed.

Lemma remove_first_sub (x y : string) l : y ∈ remove_first x l → y ∈ l.
Proof.
  induction l as [|z l IH]; cbn [remove_first]; [done|]. case_decide; rewrite !elem_of_cons; [by right|]. naive_solver.
Qed.

Lemma remove_first_nodup (x : string) l : NoDup l → NoDup (remove_first x l).
Proof.
  induction l as [|z l IH]; cbn [remove_first]; [done|]. intros [Hz Hnd]%NoDup_cons. case_decide; [done|].
  apply NoDup_cons. split; [|by apply IH]. by intros ?%remove_first_sub.
Qed.

(** The lists of a mapping from external ids. *)
Definition lists_ok (m : gmap string (list string)) : Prop := ∀ ext ids, m !! ext = Some ids → ids ≠ [] ∧ NoDup ids.

Lemma forget_spec m ext id m' :
  lists_ok m → forget_external m ext id = Ok m' →
  lists_ok m' ∧ id ∈ default [] (m !! ext) ∧
  ∀ e i, i ∈ default [] (m' !! e) ↔ i ∈ default [] (m !! e) ∧ ¬ (e = ext ∧ i = id).
Proof.
  intros Hl H. unfold forget_external in H. case_bool_decide as Hin; [|done]. injection H as <-.
  assert (Hnd : NoDup (default [] (m !! ext))).
  { destruct (m !! ext) as [ids|] eqn:E; [by apply (Hl ext)|constructor]. }
  set (ids := remove_first id (default [] (m !! ext))).
  assert (Hids : ∀ i, i ∈ ids ↔ i ∈ default [] (m !! ext) ∧ i ≠ id) by (intros; by apply remove_first_elem).
  split; [|split; [done|]].
  - intros e l. case_bool_decide as He.
    + rewrite lookup_delete_Some. intros [_ ?]. by eapply Hl.
    + rewrite lookup_insert_Some. intros [[_ <-]|[_ ?]]; [|by eapply Hl]. split; [done|]. by apply remove_first_nodup.
  - intros e i. destruct (decide (e = ext)) as [->|Hne].
    + case_bool_decide as He.
      * rewrite lookup_delete_eq. cbn [default]. specialize (Hids i). rewrite He in Hids. rewrite elem_of_nil in Hids.
        rewrite elem_of_nil. naive_solver.
      * rewrite lookup_insert_eq. cbn [default]. rewrite Hids. naive_solver.
    + case_bool_decide; [rewrite lookup_delete_ne by done|rewrite lookup_insert_ne by done]; naive_solver.
Qed.

Lemma forget_total m ext id : id ∈ default [] (m !! ext) → ∃ m', forget_external m ext id = Ok m'.
Proof. intros Hin. unfold forget_external. rewrite bool_decide_eq_true_2 by done. by eexists. Qed.

(** Removing a request that has lost its entry. *)
Lemma tables_del P op id :
  tables_ok (id :: P) op → tables_ok P (set_states (od_del (request_states op) id) op).
Proof.
  intros [H1 H2 H3 H4 H5]. split; cbn [request_states external_req_ids op_parents set_states].
  - by apply od_del_nodup.
  - intros i r. rewrite od_get_del by done. case_decide; [done|apply H2].
  - done.
  - intros ext i. rewrite H4, od_get_del by done. case_decide as E.
    + subst i. split; [intros [_ Hn]; destruct Hn; left|]. by intros [(r & [=] & _) _].
    + rewrite not_elem_of_cons. naive_solver.
  - intros i r pid. rewrite od_get_del by done. case_decide; [done|apply H5].
Qed.

Lemma tables_forget P op r m :
  tables_ok P op → od_get (request_states op) (rs_request_id r) = Some r →
  forget_external (external_req_ids op) (rs_external_req_id r) (rs_request_id r) = Ok m →
  tables_ok (rs_request_id r :: P) (set_external m op).
Proof.
  intros [H1 H2 H3 H4 H5] Hr Hm. destruct (forget_spec _ _ _ _ H3 Hm) as (Hl & Hin & Hmap).
  split; cbn [request_states external_req_ids op_parents set_external]; try done.
  intros ext i. rewrite Hmap, H4, not_elem_of_cons. split.
  - intros [[(x & Hx & He) HP] Hn]. split; [by exists x|]. split; [|done]. intros ->. apply Hn.
    rewrite Hr in Hx. injection Hx as <-. done.
  - intros [(x & Hx & He) [Hi HP]]. split; [split; [by exists x|done]|]. by intros [_ ->].
Qed.

(** ** The operations *)

Lemma queue_put_same P op q x op' : tables_ok P op → queue_put q x op = Ok op' → tables_ok P op'.
Proof.
  intros Hok H. unfold queue_put in H. destruct (op_queues op !! q); [|done]. injection H as <-. by eapply tables_same.
Qed.

Lemma queue_put_frame op q x op' :
  queue_put q x op = Ok op' → request_states op' = request_states op ∧ op_parents op' = op_parents op.
Proof. unfold queue_put. destruct (op_queues op !! q); [|done]. by intros [= <-]. Qed.

(** Finishing a known request succeeds: its entries are there to be removed. *)
Lemma finish_request_spec op r :
  tables_ok [] op → od_get (request_states op) (rs_request_id r) = Some r →
  ∃ op', _finish_request op r = Ok op' ∧ tables_ok [] op' ∧
    request_states op' = od_del (request_states op) (rs_request_id r) ∧ op_queues op' = op_queues op.
Proof.
  intros Hok Hr. unfold _finish_request. rewrite Hr. cbn [external_req_ids set_states].
  destruct (forget_total (external_req_ids op) (rs_external_req_id r) (rs_request_id r)) as [m Hm].
  { apply (to_map _ _ Hok). split; [by exists r|apply not_elem_of_nil]. }
  rewrite Hm. cbn [mbind result_bind]. pose proof (tables_del _ _ _ (tables_forget _ _ _ _ Hok Hr Hm)) as Hok'.
  change (set_states (od_del (request_states (set_external m op)) (rs_request_id r)) (set_external m op))
    with (set_external m (set_states (od_del (request_states op) (rs_request_id r)) op)) in Hok'.
  destruct (rs_parent_req r) as [pid|] eqn:Ep; [|by eexists].
  destruct (to_parent _ _ Hok _ _ _ Hr Ep) as [p Hp]. cbn [op_parents set_external set_states]. rewrite Hp.
  eexists. split; [done|]. case_bool_decide; (split; [|done]); [by eapply tables_same|done].
Qed.

Lemma gate_frame r ids fin ids' r' :
  stream_gate r ids fin = Ok (Some (ids', r')) → same_request r r'.
Proof.
  unfold stream_gate. destruct (_ && _); [done|]. destruct (1 <? _); [|by intros [= <- <-]].
  destruct (rs_detokenizer r) as [d|]; [|done]. destruct (negb _); [done|]. case_bool_decide; by intros [= <- <-].
Qed.

Lemma make_output_frame parents r ids pooling fr sr out r' parents' :
  make_request_output parents r ids pooling fr sr = Ok (out, r', parents') →
  same_request r r' ∧ ∀ pid, is_Some (parents !! pid) → is_Some (parents' !! pid).
Proof.
  unfold make_request_output. intros H. bind_inv H as gate Eg. destruct gate as [[ids' r1]|]; [|by injection H as <- <- <-].
  apply gate_frame in Eg. destruct pooling.
  { bind_inv H as u Eu. by injection H as <- <- <-. }
  bind_inv H as [o r2] Eo. unfold _new_completion_output in Eo. destruct (rs_detokenizer r1) as [d|]; [|done].
  destruct (any_next_text _ _ _) as [t d']. injection Eo as _ <-.
  set (r2 := set_detok _ _ r1) in H. assert (same_request r r2) as Hs by (by etransitivity).
  destruct (rs_parent_req r2) as [pid|]; [|bind_inv H as u Eu; by injection H as <- <- <-].
  destruct (parents !! pid) as [p|]; [|done]. bind_inv H as [[outs f] p'] Eq.
  assert (∀ i, is_Some (parents !! i) → is_Some (<[pid := p']> parents !! i)) as Hi.
  { intros i Hi. destruct (decide (i = pid)) as [->|]; [rewrite lookup_insert_eq|rewrite lookup_insert_ne by done]; done. }
  destruct outs as [|x outs]; [by injection H as <- <- <-|]. bind_inv H as u Eu. by injection H as <- <- <-.
Qed.

(** The table after the output of a request: the request is as before, or gone. *)
Lemma process_output_ok op acc o op' acc' :
  tables_ok [] op → process_output (op, acc) o = Ok (op', acc') → tables_ok [] op'.
Proof.
  intros Hok H. destruct acc as [outs aborts]. cbn [process_output] in H.
  destruct (od_get (request_states op) (eo_request_id o)) as [r|] eqn:Hr; [|by injection H as <- <-].
  pose proof (to_id _ _ Hok _ _ Hr) as Eid. bind_inv H as [[fr sr] r1] E1.
  assert (same_request r r1) as Hs1.
  { destruct (eo_pooling o); [by injection E1 as <- <- <-|]. cbn [rs_detokenizer set_prefilling] in E1.
    destruct (rs_detokenizer r) as [d|]; [|done]. bind_inv E1 as [ss d'] E2.
    destruct ss as [[|c s]|]; by injection E1 as <- <- <-. }
  bind_inv H as [[out r2] parents] E2. apply make_output_frame in E2 as [Hs2 Hp].
  assert (same_request r r2) as Hs by (by etransitivity).
  assert (Hok1 : tables_ok [] (put_state r2 (set_parents parents op))).
  { apply (tables_put _ _ r); [by eapply tables_same|by rewrite Eid|done]. }
  set (op1 := put_state r2 (set_parents parents op)) in *. bind_inv H as [op2 outs'] E3.
  assert (tables_ok [] op2 ∧ request_states op2 = request_states op1) as [Hok2 Est].
  { match type of E3 with match ?out with _ => _ end = _ => destruct out as [y|] end; [|by injection E3 as <- <-].
    destruct (rs_queue r2) as [q|]; [|by injection E3 as <- <-]. bind_inv E3 as op3 E4. injection E3 as <- <-.
    split; [by eapply queue_put_same|]. by apply queue_put_frame in E4 as [? _]. }
  assert (Hr2 : od_get (request_states op2) (rs_request_id r2) = Some r2).
  { rewrite Est. cbn [op1 put_state set_states request_states]. rewrite od_get_set. by rewrite decide_True. }
  destruct fr as [f|]; [|by injection H as <- <-]. destruct (rs_streaming_input r2).
  - destruct (rs_input_chunk_queue r2) as [[|u l]|]; injection H as <- <-; by apply (tables_put _ _ r2).
  - destruct (finish_request_spec op2 r2 Hok2 Hr2) as (op3 & E4 & Hok3 & _). rewrite E4 in H. by injection H as <- <-.
Qed.

Lemma process_outputs_ok op l op' acc : tables_ok [] op → process_outputs op l = Ok (op', acc) → tables_ok [] op'.
Proof.
  unfold process_outputs. generalize (([], []) : list collected * list string). revert op.
  induction l as [|o l IH]; intros op a Hok H; cbn [mfold] in H; [by injection H as <- <-|].
  bind_inv H as [op1 a1] E. apply (IH op1 a1); [|done]. by eapply process_output_ok.
Qed.

(** A new request is entered under its external id. *)
Lemma tables_add op r :
  tables_ok [] op → od_get (request_states op) (rs_request_id r) = None →
  (∀ pid, rs_parent_req r = Some pid → is_Some (op_parents op !! pid)) →
  tables_ok [] (set_external (<[rs_external_req_id r := default [] (external_req_ids op !! rs_external_req_id r)
    ++ [rs_request_id r]]> (external_req_ids op)) (put_state r op)).
Proof.
  intros [H1 H2 H3 H4 H5] Hr Hp. set (ext := rs_external_req_id r). set (ids := default [] (external_req_ids op !! ext)).
  assert (Hni : ∀ e, rs_request_id r ∉ default [] (external_req_ids op !! e)).
  { intros e Hin. apply H4 in Hin as [(x & Hx & _) _]. congruence. }
  assert (Hnd : NoDup ids) by (unfold ids; destruct (external_req_ids op !! ext) as [l|] eqn:E; [by apply (H3 ext)|constructor]).
  split; cbn [request_states external_req_ids op_parents put_state set_states set_external].
  - by apply od_set_nodup.
  - intros id x. rewrite od_get_set. case_decide; [|apply H2]. by intros [= <-].
  - intros e l. rewrite lookup_insert_Some. intros [[_ <-]|[_ ?]]; [|by eapply H3]. split; [by destruct ids|].
    apply NoDup_app. split; [done|]. split; [|apply NoDup_singleton]. intros x Hx ->%list_elem_of_singleton. by apply (Hni ext).
  - intros e i. rewrite od_get_set. destruct (decide (e = ext)) as [->|Hne].
    + rewrite lookup_insert_eq. change (default [] (Some ?l)) with l. rewrite elem_of_app, list_elem_of_singleton.
      unfold ids. rewrite H4. case_decide as E; [|naive_solver]. split; [|intros _; by right].
      intros _. split; [by exists r|apply not_elem_of_nil].
    + rewrite lookup_insert_ne by done. rewrite H4. case_decide as E; [|done]. subst i.
      split; [intros [(x & Hx & _) _]; congruence|]. intros [(x & [= <-] & He) _]. by destruct Hne.
  - intros id x pid. rewrite od_get_set. case_decide; [intros [= <-]; apply Hp|apply H5].
Qed.

Lemma add_request_ok op request parent idx queue op' :
  tables_ok [] op → (∀ pid, parent = Some pid → is_Some (op_parents op !! pid)) →
  op_add_request new_detok op request parent idx queue = Ok op' → tables_ok [] op'.
Proof.
  intros Hok Hp H. unfold op_add_request in H.
  destruct (od_get (request_states op) (er_request_id request)) as [r|] eqn:Hr.
  - pose proof (to_id _ _ Hok _ _ Hr) as Eid. rewrite <-Eid in Hr. unfold _update_streaming_request_state in H.
    assert (Hput : ∀ r', same_request r r' → tables_ok [] (put_state r' op)) by (intros; by apply (tables_put _ _ r)).
    destruct (negb (er_resumable request)), (rs_input_chunk_queue r) as [[|u l]|];
      try (injection H as <-; by apply Hput).
    destruct (finish_request_spec op r Hok Hr) as (op1 & E & Hok1 & _). rewrite E in H. cbn [mbind result_bind] in H.
    destruct (rs_queue r); [by eapply queue_put_same|by injection H as <-].
  - bind_inv H as r E. assert (rs_request_id r = er_request_id request ∧ rs_parent_req r = parent) as [E1 E2].
    { unfold from_new_request in E. bind_inv E as d Ed. destruct (er_external_req_id request); [|done].
      bind_inv E as n En. by injection E as <-. }
    injection H as <-. rewrite <-E1 in Hr |- *. rewrite <-E2 in Hp.
    pose proof (tables_add op r Hok Hr Hp) as Hnew. destruct parent as [pid|]; [|exact Hnew].
    eapply tables_same; [exact Hnew|done..].
Qed.

Lemma add_child_ok op request pid queue idx op' :
  tables_ok [] op → add_child new_detok op request pid queue idx = Ok op' → tables_ok [] op'.
Proof.
  intros Hok H. unfold add_child in H. destruct (op_parents op !! pid) as [p|]; [|done].
  destruct (get_child_info p idx) as [[child params] p']. eapply add_request_ok; [| |exact H].
  - eapply tables_same; [exact Hok|done..|]. intros i Hi. cbn [op_parents set_parents].
    destruct (decide (i = pid)) as [->|]; [rewrite lookup_insert_eq|rewrite lookup_insert_ne by done]; done.
  - intros i [= <-]. cbn [op_parents set_parents]. rewrite lookup_insert_eq. done.
Qed.

Lemma add_user_request_ok op request params queue op' :
  tables_ok [] op → engine_add_user_request new_detok op request params queue = Ok op' → tables_ok [] op'.
Proof.
  intros Hok H. unfold engine_add_user_request in H. destruct (op_n params =? 1)%nat; [eapply add_request_ok; [exact Hok| |exact H]; by intros ? [=]|].
  destruct (er_external_req_id request) as [ext|]; [|done].
  refine (mfold_inv (tables_ok []) _ _ _ _ _ _ H).
  - intros s idx s' _ Hs Es. by eapply add_child_ok.
  - eapply tables_same; [exact Hok|done..|]. intros i Hi. cbn [op_parents set_parents].
    destruct (decide (i = er_request_id request)) as [->|]; [rewrite lookup_insert_eq|rewrite lookup_insert_ne by done]; done.
Qed.

(** ** Aborting *)

(** Only the requests matter that are in the table. *)
Lemma tables_pending P P' op :
  tables_ok P op → (∀ id, is_Some (od_get (request_states op) id) → id ∈ P ↔ id ∈ P') → tables_ok P' op.
Proof.
  intros [H1 H2 H3 H4 H5] HP. split; try done. intros ext id. rewrite H4.
  split; intros [(r & Hr & He) Hn]; (split; [by exists r|]); specialize (HP id ltac:(by exists r)); tauto.
Qed.

Lemma resolve_one_ok internal P op acc id op' acc' :
  tables_ok (acc ++ P) op → resolve_abort internal (op, acc) id = Ok (op', acc') → tables_ok (acc' ++ P) op'.
Proof.
  intros Hok H. unfold resolve_abort in H. destruct internal.
  - destruct (od_get (request_states op) id) as [r|] eqn:Hr.
    + pose proof (to_id _ _ Hok _ _ Hr) as <-. bind_inv H as m Em. injection H as <- <-.
      eapply tables_pending; [by eapply tables_forget|]. intros x _. rewrite !elem_of_app, elem_of_cons, elem_of_app, list_elem_of_singleton.
      tauto.
    + injection H as <- <-. eapply tables_pending; [exact Hok|]. intros x [y Hy].
      rewrite !elem_of_app, list_elem_of_singleton. assert (x ≠ id) by congruence. tauto.
  - injection H as <- <-. destruct Hok as [H1 H2 H3 H4 H5].
    split; cbn [request_states external_req_ids op_parents set_external]; try done.
    + intros ext ids. rewrite lookup_delete_Some. intros [_ ?]. by eapply H3.
    + intros ext x. rewrite <-(assoc_L (++)), elem_of_app, (elem_of_app _ P). destruct (decide (ext = id)) as [->|Hne].
      * rewrite lookup_delete_eq. change (default [] None) with (@nil string). rewrite elem_of_nil, H4.
        rewrite elem_of_app. split; [done|]. intros [Hx Hn]. apply Hn. right. left. split; [done|]. tauto.
      * rewrite lookup_delete_ne by done. rewrite !H4, elem_of_app. split; [|tauto].
        intros [(r & Hr & He) Hn]. split; [by exists r|]. intros [?|[[(r' & Hr' & He') _]|?]]; [tauto| |tauto].
        congruence.
Qed.

Lemma abort_output_ok P op r op' : tables_ok P op → abort_output op r = Ok op' → tables_ok P op'.
Proof.
  intros Hok H. unfold abort_output in H. destruct (rs_queue r) as [q|]; [|by injection H as <-].
  bind_inv H as [[out r'] parents] E. apply make_output_frame in E as [_ Hp].
  assert (tables_ok P (set_parents parents op)) as Hok' by (by eapply tables_same).
  destruct out; [by eapply queue_put_same|by injection H as <-].
Qed.

Lemma abort_one_ok rec Q op acc id op' acc' :
  (∀ op ids op' ch, tables_ok Q op → rec op ids = Ok (op', ch) → tables_ok Q op') →
  tables_ok (id :: Q) op → abort_one set_iter rec (op, acc) id = Ok (op', acc') → tables_ok Q op'.
Proof.
  intros Hrec Hok E. unfold abort_one in E. destruct (od_get (request_states op) id) as [r|] eqn:Hr.
  - bind_inv E as op3 E3. injection E as <- <-. eapply abort_output_ok; [|exact E3]. by apply tables_del.
  - assert (tables_ok Q op) as Hok2.
    { eapply tables_pending; [exact Hok|]. intros x [y Hy]. rewrite elem_of_cons. assert (x ≠ id) by congruence. tauto. }
    case_bool_decide; [|by injection E as <- <-]. destruct (op_parents op !! id) as [p|]; [|done].
    bind_inv E as [op3 ch] E3. injection E as <- <-. eapply (tables_same _ op3); [|done..].
    case_bool_decide; [by injection E3 as <- <-|]. by eapply Hrec.
Qed.

Lemma abort_rec_ok fuel op ids internal P op' aborted :
  tables_ok P op → abort_requests_rec set_iter fuel op ids internal = Ok (op', aborted) → tables_ok P op'.
Proof.
  revert op ids internal P op' aborted. induction fuel as [|fuel IH]; intros op ids internal P op' aborted Hok H; [done|].
  cbn [abort_requests_rec] in H. bind_inv H as [op1 pend] E.
  assert (tables_ok (pend ++ P) op1) as Hok1.
  { refine (mfold_inv (λ st, tables_ok (st.2 ++ P) st.1) _ _ (op, []) (op1, pend) _ Hok E).
    intros [s a] i [s' a'] _ Hs Es. by eapply resolve_one_ok. }
  clear E Hok. revert op1 Hok1 H. generalize (@nil string) as acc. induction pend as [|id pend IHp]; intros acc op1 Hok1 H;
    cbn [mfold] in H; [by injection H as <- <-|].
  bind_inv H as [op2 acc2] E. refine (IHp acc2 op2 _ H). eapply abort_one_ok; [|exact Hok1|exact E].
  intros op3 ids3 op4 ch Hok3 H3. exact (IH _ _ _ _ _ _ Hok3 H3).
Qed.

Lemma propagate_error_ok P op e op' : tables_ok P op → propagate_error op e = Ok op' → tables_ok P op'.
Proof.
  intros Hok H. refine (mfold_inv (tables_ok P) _ _ _ _ _ Hok H). intros s [id r] s' _ Hs Es.
  cbn [snd] in Es. destruct (rs_queue r) as [q|]; [|done]. exact (queue_put_same _ _ _ _ _ Hs Es).
Qed.

(** ** Every run *)

(** What can happen to the processor: requests of users, children added one by one,
    new collectors and reads from them, outputs of the engine core, aborts and
    errors. *)
Inductive front_op :=
  | FAdd (request : EngineRequest) (params : OutputParams) (queue : option nat)
  | FChild (request : EngineRequest) (pid : string) (queue : option nat) (idx : nat)
  | FQueue (q : nat) (kind : RequestOutputKind)
  | FTake (q : nat)
  | FProcess (l : list EngineOutput)
  | FAbort (ids : list string) (internal : bool)
  | FError (e : exn).

Definition front_step op (f : front_op) : result (OutputProcessor D) :=
  match f with
  | FAdd request params queue => engine_add_user_request new_detok op request params queue
  | FChild request pid queue idx => add_child new_detok op request pid queue idx
  | FQueue q kind => Ok (set_queues (<[q := mkCollector (bool_decide (kind = DELTA)) None]> (op_queues op)) op)
  | FTake q =>
      match op_queues op !! q with
      | None => Raise KeyError
      | Some c => '(_, c) ← collector_get_nowait c; Ok (set_queues (<[q := c]> (op_queues op)) op)
      end
  | FProcess l => '(op, _) ← process_outputs op l; Ok op
  | FAbort ids internal => '(op, _) ← op_abort_requests set_iter op ids internal; Ok op
  | FError e => propagate_error op e
  end.

Lemma front_step_ok op f op' : tables_ok [] op → front_step op f = Ok op' → tables_ok [] op'.
Proof.
  intros Hok H. destruct f; cbn [front_step] in H.
  - by eapply add_user_request_ok.
  - by eapply add_child_ok.
  - injection H as <-. by eapply tables_same.
  - destruct (op_queues op !! q) as [c|]; [|done]. bind_inv H as [x c'] E. injection H as <-. by eapply tables_same.
  - bind_inv H as [op1 acc] E. injection H as <-. by eapply process_outputs_ok.
  - bind_inv H as [op1 acc] E. injection H as <-. by eapply abort_rec_ok.
  - by eapply propagate_error_ok.
Qed.

Lemma front_run_ok k fs op : mfold front_step (init_processor k) fs = Ok op → tables_ok [] op.
Proof.
  intros H. refine (mfold_inv (tables_ok []) _ _ _ _ _ _ H); [intros; by eapply front_step_ok|].
  split; cbn [init_processor request_states external_req_ids op_parents]; try done; [constructor|].
  intros ext id. change (default [] (∅ !! ext)) with (@nil string). rewrite elem_of_nil. split; [done|].
  by intros [(r & [=] & _) _].
Qed.
End facts.

(** C28: after any sequence of operations of the front end the tables agree: each
    known request is listed exactly once, under its own external id, and the
    lists hold nothing else and are not empty; so finishing any request finds its
    entries, removes that request and no other, and keeps the tables in step. *)
Theorem output_tables_consistent {D} `{!Decoder D} new_detok set_iter k fs (op : OutputProcessor D) :
  mfold (front_step new_detok set_iter) (init_processor k) fs = Ok op →
  (∀ ext ids, external_req_ids op !! ext = Some ids → ids ≠ [] ∧ NoDup ids) ∧
  (∀ ext id, id ∈ default [] (external_req_ids op !! ext) ↔
     ∃ r, od_get (request_states op) id = Some r ∧ rs_external_req_id r = ext) ∧
  ∀ id r, od_get (request_states op) id = Some r →
    ∃ op', _finish_request op r = Ok op' ∧ tables_ok [] op' ∧
      ∀ id', od_get (request_states op') id' = if decide (id' = id) then None else od_get (request_states op) id'.
Proof.
  intros H. pose proof (front_run_ok _ _ _ _ _ H) as Hok. split; [apply (to_lists _ _ Hok)|]. split.
  - intros ext id. rewrite (to_map _ _ Hok). split; [by intros [? _]|]. intros ?. split; [done|apply not_elem_of_nil].
  - intros id r Hr. pose proof (to_id _ _ Hok _ _ Hr) as <-.
    destruct (finish_request_spec op r Hok Hr) as (op' & E & Hok' & Hs & _). exists op'. split; [done|]. split; [done|].
    intros id'. rewrite Hs. apply od_get_del. apply Hok.
Qed.

(** ** Examples and defects *)

Definition demo_front_detok (_ : EngineRequest) : result (AnyDetok SlowDecoder) :=
  Ok (TextDetok (init_base (OneStop [97; 98]) 0 false [120] demo_slow)).

Definition demo_user (id ext : string) (kind : RequestOutputKind) (resumable : bool) : EngineRequest :=
  mkEngineRequest id (Some ext) (Some [120]) None true kind resumable.

#[local] Existing Instance slow_decoder.
Notation demo_front := (front_step (Decoder0 := slow_decoder demo_tokenizer) demo_front_detok elements).

Definition demo_front_run (k : Z) (fs : list front_op) : result (OutputProcessor SlowDecoder) :=
  mfold demo_front (init_processor k) fs.

(** Two children of one request and a request of its own; one child finishes. *)
Definition demo_front_ops : list front_op :=
  [FQueue 0 DELTA; FAdd (demo_user "p" "u" DELTA false) (mkOutParams 2 None DELTA) (Some 0%nat);
   FAdd (demo_user "q" "v" FINAL_ONLY false) (mkOutParams 1 None FINAL_ONLY) None;
   FProcess [mkEngineOutput "0_p" [97; 98] false None None; mkEngineOutput "q" [97] false None None]].

Definition demo_op : OutputProcessor SlowDecoder :=
  match demo_front_run 1 demo_front_ops with Ok op => op | Raise _ => init_processor 1 end.

Lemma demo_op_run : mfold demo_front (init_processor 1) demo_front_ops = Ok demo_op.
Proof. vm_compute. reflexivity. Qed.

Lemma output_tables_consistent_witness :
  (request_states demo_op).*1 = ["1_p"; "q"]%string ∧
  external_req_ids demo_op = {["u"%string := ["1_p"%string]; "v"%string := ["q"%string]]} ∧
  ∀ ext id, id ∈ default [] (external_req_ids demo_op !! ext) ↔
    ∃ r, od_get (request_states demo_op) id = Some r ∧ rs_external_req_id r = ext.
Proof.
  split; [vm_compute; reflexivity|]. split; [vm_compute; reflexivity|].
  exact (proj1 (proj2 (output_tables_consistent _ _ _ _ _ demo_op_run))).
Defined.

(** Aborting a parallel request by its external id aborts the children but leaves
    the parent in the table of parents, from where nothing removes it. *)
Theorem parent_entry_leaks :
  ∃ op, demo_front_run 1 [FQueue 0 DELTA; FAdd (demo_user "p" "u" DELTA false) (mkOutParams 2 None DELTA) (Some 0%nat);
                          FAbort ["u"%string] false] = Ok op ∧
    request_states op = [] ∧ external_req_ids op = ∅ ∧ parent_requests op = {["p"%string]}.
Proof. eexists. split; [vm_compute; reflexivity|]. split_and!; vm_compute; reflexivity. Qed.

(** A stop string found in a streaming session: the session goes on to its next
    input, but the engine core, which is still generating for the last one, is
    not told to stop. *)
Theorem session_stop_not_aborted :
  ∃ op op' outs r, demo_front_run 1 [FAdd (demo_user "s" "u" DELTA true) (mkOutParams 1 None DELTA) None] = Ok op ∧
    process_outputs (Decoder0 := slow_decoder demo_tokenizer) op [mkEngineOutput "s" [97; 98] false None None] = Ok (op', (outs, [])) ∧
    od_get (request_states op') "s"%string = Some r ∧ rs_input_chunk_queue r = None ∧
    outs = [COutput (mkOutput "u" [mkCompletion 0 [] [97; 98] (Some STOP) (Some (OutStopText [97; 98]))] false)].
Proof. do 4 eexists. split; [vm_compute; reflexivity|]. split; [vm_compute; reflexivity|]. split_and!; reflexivity. Qed.

(** With a stream interval above one, the output of a pooling request fails an
    assertion about the detokenizer, which such requests do not have. *)
Theorem pooling_needs_no_interval :
  ∃ op, demo_front_run 2 [FAdd (mkEngineRequest "e" (Some "e"%string) (Some [120]) None false FINAL_ONLY false)
                            (mkOutParams 1 None FINAL_ONLY) None] = Ok op ∧
    process_outputs (Decoder0 := slow_decoder demo_tokenizer) op [mkEngineOutput "e" [] true (Some STOP) None] = Raise AssertionError.
Proof. eexists. split; vm_compute; reflexivity. Qed.

(** The stream interval has no effect on cumulative outputs: the offset of what was
    sent is only kept for deltas, so every output counts as the first one. *)
Theorem cumulative_ignores_interval {D} `{!Decoder D} (r : RequestState D) d new_token_ids finished :
  rs_output_kind r = CUMULATIVE → rs_sent_tokens_offset r = 0 → rs_detokenizer r = Some d →
  stream_gate r new_token_ids finished = Ok (Some (new_token_ids, r)).
Proof.
  intros Hk Ho Hd. unfold stream_gate. rewrite Hk, Ho, Hd. rewrite (bool_decide_eq_false_2 (CUMULATIVE = FINAL_ONLY)) by done.
  rewrite (bool_decide_eq_false_2 (CUMULATIVE = DELTA)) by done. rewrite andb_false_r, orb_true_r. by destruct (1 <? _).
Qed.

(** The text of a completed input of a session is shown to its end.  A stop string
    that ends in the output for the next input may begin in it: the text is cut
    before what was shown, and the text after it is not shown until it is longer
    than before. *)
Theorem session_text_retracted :
  ∃ op op1 op2 o1 o2 r, demo_front_run 1 [FAdd (demo_user "s" "u" DELTA true) (mkOutParams 1 None DELTA) None;
                                   FAdd (demo_user "s" "u" DELTA true) (mkOutParams 1 None DELTA) None] = Ok op ∧
    process_outputs (Decoder0 := slow_decoder demo_tokenizer) op [mkEngineOutput "s" [97] false (Some LENGTH) None] = Ok (op1, ([COutput o1], [])) ∧
    process_outputs (Decoder0 := slow_decoder demo_tokenizer) op1 [mkEngineOutput "s" [98] false None None] = Ok (op2, ([COutput o2], [])) ∧
    all_parts co_text 0 [o1; o2] = [97] ∧ od_get (request_states op2) "s"%string = Some r ∧
    ∃ d, rs_detokenizer r = Some (TextDetok d) ∧ output_text d = [].
Proof.
  do 6 eexists. split; [vm_compute; reflexivity|]. split; [vm_compute; reflexivity|]. split; [vm_compute; reflexivity|].
  split; [vm_compute; reflexivity|]. split; [reflexivity|]. eexists. split; reflexivity.
Qed.
