(* ===== verification/OffloadPolicy.v ===== *)
(** * Replacement policies of the CPU offload cache
    [kv_offload/base.py] (keys) and [kv_offload/cpu/policies]: the block status, the
    interface [CachePolicy] with its laws, and the two policies that implement
    it, least-recently-used and adaptive replacement (ARC).  A block object is
    held by the one entry of its key, so changing it in place is an update of
    that entry. *)

From Stdlib Require Import QArith Qminmax.
From S2P Require Import Prelude OrderedDict KVBlock BlockHash.

#[local] Open Scope Z_scope.

(** ** Keys *)

Abbreviation OffloadKey := bytes.

Definition make_offload_key (block_hash : bytes) (group_idx : Z) : result OffloadKey :=
  g ← to_bytes 4 group_idx; Ok (block_hash ++ g).

Definition get_offload_block_hash (key : OffloadKey) : bytes := take (length key - 4) key.
Definition get_offload_group_idx (key : OffloadKey) : Z := from_bytes (drop (length key - 4) key).

(** ** Block status *)

Record BlockStatus := mkStatus {
  bs_ref_cnt : Z;    (* c_int32 *)
  bs_block_id : Z;   (* c_int64 *)
}.

#[export] Instance BlockStatus_eq_dec : EqDecision BlockStatus.
Proof. solve_decision. Defined.

Definition new_status (block_id : Z) : BlockStatus := mkStatus (c_int 32 (-1)) (c_int 64 block_id).
Definition set_ref_cnt (n : Z) (b : BlockStatus) : BlockStatus := mkStatus (c_int 32 n) (bs_block_id b).
Definition is_ready (b : BlockStatus) : bool := 0 <=? bs_ref_cnt b.

(** ** The interface *)

(** [cp_update] is the change of a block object in place. *)
Class CachePolicy (P : Type) := {
  cp_init : Z → P;
  cp_get : P → OffloadKey → option BlockStatus;
  cp_update : P → OffloadKey → BlockStatus → P;
  cp_insert : P → OffloadKey → BlockStatus → P;
  cp_remove : P → OffloadKey → result P;
  cp_touch : P → list OffloadKey → P;
  cp_evict : P → Z → list OffloadKey → option (list (OffloadKey * BlockStatus)) * P;
  cp_clear : P → P;
}.

(** [d.move_to_end(k)] for a key of [d]. *)
Definition od_move_to_end {V} (d : list (OffloadKey * V)) (k : OffloadKey) : list (OffloadKey * V) :=
  match od_get d k with
  | Some v => od_del d k ++ [(k, v)]
  | None => d
  end.

(** A block that may be evicted. *)
Definition evictable (protected : list OffloadKey) (p : OffloadKey * BlockStatus) : bool :=
  (bs_ref_cnt p.2 =? 0) && negb (bool_decide (p.1 ∈ protected)).

(** ** Least recently used *)

Record LRUCachePolicy := mkLRU { lru_blocks : list (OffloadKey * BlockStatus) }.

Definition lru_touch (p : LRUCachePolicy) (keys : list OffloadKey) : LRUCachePolicy :=
  mkLRU (foldl od_move_to_end (lru_blocks p) (reverse keys)).

(** The loop that collects the candidates. *)
Fixpoint lru_candidates (blocks : list (OffloadKey * BlockStatus)) (n : Z) (protected : list OffloadKey)
    (candidates : list (OffloadKey * BlockStatus)) : list (OffloadKey * BlockStatus) :=
  match blocks with
  | [] => candidates
  | p :: blocks =>
      if evictable protected p then
        let candidates := candidates ++ [p] in
        if zlen candidates =? n then candidates else lru_candidates blocks n protected candidates
      else lru_candidates blocks n protected candidates
  end.

Definition lru_evict (p : LRUCachePolicy) (n : Z) (protected : list OffloadKey)
    : option (list (OffloadKey * BlockStatus)) * LRUCachePolicy :=
  if n =? 0 then (Some [], p) else
  let candidates := lru_candidates (lru_blocks p) n protected [] in
  if zlen candidates <? n then (None, p)
  else (Some candidates, mkLRU (foldl od_del (lru_blocks p) candidates.*1)).

#[export] Instance lru_policy : CachePolicy LRUCachePolicy := {|
  cp_init _ := mkLRU [];
  cp_get p k := od_get (lru_blocks p) k;
  cp_update p k b := mkLRU (od_set (lru_blocks p) k b);
  cp_insert p k b := mkLRU (od_set (lru_blocks p) k b);
  cp_remove p k := match od_get (lru_blocks p) k with
                   | None => Raise KeyError
                   | Some _ => Ok (mkLRU (od_del (lru_blocks p) k))
                   end;
  cp_touch := lru_touch;
  cp_evict := lru_evict;
  cp_clear _ := mkLRU [];
|}.

(** ** Adaptive replacement *)

(** [target_t1_size] is a fraction. *)
Record ARCCachePolicy := mkARC {
  cache_capacity : Z;
  target_t1_size : Q;
  t1 : list (OffloadKey * BlockStatus);
  t2 : list (OffloadKey * BlockStatus);
  b1 : list (OffloadKey * unit);
  b2 : list (OffloadKey * unit);
}.

Definition set_t (l1 l2 : list (OffloadKey * BlockStatus)) (p : ARCCachePolicy) : ARCCachePolicy :=
  mkARC (cache_capacity p) (target_t1_size p) l1 l2 (b1 p) (b2 p).
Definition set_ghosts (t : Q) (l1 l2 : list (OffloadKey * unit)) (p : ARCCachePolicy) : ARCCachePolicy :=
  mkARC (cache_capacity p) t (t1 p) (t2 p) l1 l2.

Definition arc_get (p : ARCCachePolicy) (k : OffloadKey) : option BlockStatus :=
  match od_get (t1 p) k with Some b => Some b | None => od_get (t2 p) k end.

Definition arc_update (p : ARCCachePolicy) (k : OffloadKey) (b : BlockStatus) : ARCCachePolicy :=
  match od_get (t1 p) k with
  | Some _ => set_t (od_set (t1 p) k b) (t2 p) p
  | None => set_t (t1 p) (od_set (t2 p) k b) p
  end.

Definition arc_insert (p : ARCCachePolicy) (k : OffloadKey) (b : BlockStatus) : ARCCachePolicy :=
  mkARC (cache_capacity p) (target_t1_size p) (od_set (t1 p) k b) (t2 p) (od_del (b1 p) k) (od_del (b2 p) k).

Definition arc_remove (p : ARCCachePolicy) (k : OffloadKey) : ARCCachePolicy :=
  match od_get (t1 p) k with
  | Some _ => set_t (od_del (t1 p) k) (t2 p) p
  | None => set_t (t1 p) (od_del (t2 p) k) p
  end.

(** [max(1, len(a) / len(b))] for a non-empty [b]. *)
Definition arc_delta {A} (a b : list A) : Q := Qmax 1 (inject_Z (zlen a) / inject_Z (zlen b)).

Definition arc_touch_one (p : ARCCachePolicy) (k : OffloadKey) : ARCCachePolicy :=
  match od_get (t1 p) k with
  | Some b =>
      let l := od_del (t1 p) k in
      if negb (is_ready b) then set_t (od_set l k b) (t2 p) p else set_t l (od_set (t2 p) k b) p
  | None =>
      match od_get (t2 p) k with
      | Some _ => set_t (t1 p) (od_move_to_end (t2 p) k) p
      | None =>
          match od_get (b1 p) k with
          | Some _ => set_ghosts (Qmin (target_t1_size p + arc_delta (b2 p) (b1 p)) (inject_Z (cache_capacity p)))
                        (od_move_to_end (b1 p) k) (b2 p) p
          | None =>
              match od_get (b2 p) k with
              | Some _ => set_ghosts (Qmax (target_t1_size p - arc_delta (b1 p) (b2 p)) 0)
                            (b1 p) (od_move_to_end (b2 p) k) p
              | None => p
              end
          end
      end
  end.

Definition arc_touch (p : ARCCachePolicy) (keys : list OffloadKey) : ARCCachePolicy :=
  foldl arc_touch_one p (reverse keys).

(** [int(x)] *)
Definition q_int (x : Q) : Z := Z.quot (Qnum x) (Zpos (Qden x)).

Lemma q_int_bounds x c : (0 <= x)%Q → (x <= inject_Z c)%Q → 0 ≤ q_int x ≤ c.
Proof.
  unfold q_int, Qle. cbn [Qnum Qden inject_Z]. intros H1 H2. split; [apply Z.quot_pos; lia|].
  apply Z.quot_le_upper_bound; lia.
Qed.

(** The first block of a list that may be evicted and is not selected yet. *)
Definition arc_first (l : list (OffloadKey * BlockStatus)) (protected selected : list OffloadKey)
    : option (OffloadKey * BlockStatus) :=
  snd <$> list_find (λ p, evictable protected p ∧ p.1 ∉ selected) l.

(** One round of the selection: the candidate, and whether it comes from [t1]. *)
Definition arc_candidate (p : ARCCachePolicy) (protected selected : list OffloadKey) (virtual_t1_size : Z)
    : option (OffloadKey * BlockStatus * bool) :=
  let from_t1 := if q_int (target_t1_size p) <=? virtual_t1_size then arc_first (t1 p) protected selected else None in
  match from_t1 with
  | Some c => Some (c, true)
  | None => (λ c, (c, false)) <$> arc_first (t2 p) protected selected
  end.

(** [for _ in range(n)], with the candidates found so far. *)
Fixpoint arc_select (p : ARCCachePolicy) (protected : list OffloadKey) (n : nat) (virtual_t1_size : Z)
    (candidates : list (OffloadKey * BlockStatus * bool)) : option (list (OffloadKey * BlockStatus * bool)) :=
  match n with
  | O => Some candidates
  | S n =>
      match arc_candidate p protected ((λ c, c.1.1) <$> candidates) virtual_t1_size with
      | None => None
      | Some c => arc_select p protected n (if c.2 then virtual_t1_size - 1 else virtual_t1_size) (candidates ++ [c])
      end
  end.

(** The eviction of one candidate. *)
Definition arc_drop (p : ARCCachePolicy) (c : OffloadKey * BlockStatus * bool) : ARCCachePolicy :=
  let k := c.1.1 in
  if c.2 then mkARC (cache_capacity p) (target_t1_size p) (od_del (t1 p) k) (t2 p) (od_set (b1 p) k ()) (b2 p)
  else mkARC (cache_capacity p) (target_t1_size p) (t1 p) (od_del (t2 p) k) (b1 p) (od_set (b2 p) k ()).

(** [for _ in range(len(ghost) - capacity): ghost.popitem(last=False)] *)
Definition trim_ghost (capacity : Z) (ghost : list (OffloadKey * unit)) : list (OffloadKey * unit) :=
  drop (Z.to_nat (zlen ghost - capacity)) ghost.

Definition arc_evict (p : ARCCachePolicy) (n : Z) (protected : list OffloadKey)
    : option (list (OffloadKey * BlockStatus)) * ARCCachePolicy :=
  if n =? 0 then (Some [], p) else
  match arc_select p protected (Z.to_nat n) (zlen (t1 p)) [] with
  | None => (None, p)
  | Some candidates =>
      let p := foldl arc_drop p candidates in
      (Some candidates.*1,
       set_ghosts (target_t1_size p) (trim_ghost (cache_capacity p) (b1 p)) (trim_ghost (cache_capacity p) (b2 p)) p)
  end.

#[export] Instance arc_policy : CachePolicy ARCCachePolicy := {|
  cp_init capacity := mkARC capacity 0 [] [] [] [];
  cp_get := arc_get;
  cp_update := arc_update;
  cp_insert := arc_insert;
  cp_remove p k := Ok (arc_remove p k);
  cp_touch := arc_touch;
  cp_evict := arc_evict;
  cp_clear p := mkARC (cache_capacity p) 0 [] [] [] [];
|}.

(** ** What a policy promises *)

(** The cached blocks are [cp_entries], in some order. *)
Class PolicyLaws (P : Type) `{!CachePolicy P} := {
  cp_entries : P → list (OffloadKey * BlockStatus);
  cp_ok : P → Prop;
  cp_nodup p : cp_ok p → NoDup (cp_entries p).*1;
  cp_get_law p k : cp_ok p → cp_get p k = od_get (cp_entries p) k;
  cp_init_law c : 0 ≤ c → cp_ok (cp_init c) ∧ cp_entries (cp_init c) = [];
  cp_update_law p k b b' : cp_ok p → cp_get p k = Some b →
    cp_ok (cp_update p k b') ∧ cp_entries (cp_update p k b') ≡ₚ (k, b') :: od_del (cp_entries p) k;
  cp_insert_law p k b : cp_ok p → cp_get p k = None →
    cp_ok (cp_insert p k b) ∧ cp_entries (cp_insert p k b) ≡ₚ (k, b) :: cp_entries p;
  cp_remove_law p k b : cp_ok p → cp_get p k = Some b →
    ∃ p', cp_remove p k = Ok p' ∧ cp_ok p' ∧ cp_entries p' ≡ₚ od_del (cp_entries p) k;
  cp_touch_law p keys : cp_ok p → cp_ok (cp_touch p keys) ∧ cp_entries (cp_touch p keys) ≡ₚ cp_entries p;
  cp_evict_law p n protected : cp_ok p → 0 < n →
    match cp_evict p n protected with
    | (None, p') => p' = p
    | (Some l, p') => cp_ok p' ∧ zlen l = n ∧ Forall (evictable protected) l ∧ cp_entries p ≡ₚ l ++ cp_entries p'
    end;
  cp_clear_law p : cp_ok p → cp_ok (cp_clear p) ∧ cp_entries (cp_clear p) = [];
}.

(** ** Dictionaries *)

Section dict.
Context {V : Type}.
Implicit Types d : list (OffloadKey * V).

Lemma move_to_end_perm d k : NoDup d.*1 → od_move_to_end d k ≡ₚ d.
Proof.
  intros Hd. unfold od_move_to_end. destruct (od_get d k) as [v|] eqn:E; [|done].
  etransitivity; [symmetry; apply Permutation_cons_append|]. symmetry. by apply od_del_perm.
Qed.

Lemma od_get_key d k : is_Some (od_get d k) ↔ k ∈ d.*1.
Proof.
  destruct (od_get d k) as [v|] eqn:E; [|apply od_get_None in E; split; [by intros []|done]].
  split; [intros _|by eexists]. destruct (decide (k ∈ d.*1)) as [|H]; [done|]. apply od_get_None in H. congruence.
Qed.

(** Deleting some of the entries. *)
Lemma del_all_perm d cs :
  NoDup d.*1 → NoDup cs.*1 → (∀ k v, (k, v) ∈ cs → od_get d k = Some v) →
  d ≡ₚ cs ++ foldl od_del d cs.*1 ∧ NoDup (foldl od_del d cs.*1).*1.
Proof.
  revert d. induction cs as [|[k v] cs IH]; intros d Hd Hcs Hin; [done|].
  rewrite fmap_cons in Hcs |- *. cbn [foldl fst] in *. apply NoDup_cons in Hcs as [Hk Hcs].
  destruct (IH (od_del d k)) as [IHp IHn]; [by apply od_del_nodup|done| |].
  { intros k' v' Hkv. rewrite od_get_del by done. rewrite decide_False; [apply Hin; by right|].
    intros ->. apply Hk. apply list_elem_of_fmap. by exists (k, v'). }
  split; [|done]. cbn [app]. rewrite <-IHp. apply od_del_perm; [done|]. apply Hin. by left.
Qed.
End dict.

(** ** Least recently used *)

(** The candidates are the first [n] blocks that may be evicted. *)
Lemma lru_candidates_spec blocks n protected cs :
  zlen cs < n →
  lru_candidates blocks n protected cs = cs ++ take (Z.to_nat (n - zlen cs)) (filter (evictable protected) blocks).
Proof.
  revert cs. induction blocks as [|p blocks IH]; intros cs Hn; cbn [lru_candidates].
  - by rewrite filter_nil, take_nil, app_nil_r.
  - destruct (evictable protected p) eqn:E.
    + rewrite filter_cons_True by (by rewrite E). cbv zeta. rewrite zlen_app, zlen_cons, zlen_nil.
      replace (Z.to_nat (n - zlen cs)) with (S (Z.to_nat (n - (zlen cs + 1)))) by lia. cbn [take].
      destruct (Z.eqb_spec (zlen cs + (0 + 1)) n).
      * replace (Z.to_nat (n - (zlen cs + 1))) with 0%nat by lia. done.
      * rewrite IH by (rewrite zlen_app, zlen_cons, zlen_nil; lia). rewrite zlen_app, zlen_cons, zlen_nil.
        rewrite <-(assoc_L (++)). by replace (n - (zlen cs + (0 + 1))) with (n - (zlen cs + 1)) by lia.
    + rewrite filter_cons_False by (rewrite E; intros []). by apply IH.
Qed.

Lemma touch_all_perm keys (d : list (OffloadKey * BlockStatus)) : NoDup d.*1 → foldl od_move_to_end d keys ≡ₚ d.
Proof.
  revert d. induction keys as [|k keys IH]; intros d Hd; [done|]. cbn [foldl].
  rewrite IH; [by apply move_to_end_perm|]. by rewrite move_to_end_perm.
Qed.

Lemma lru_evict_spec p n protected :
  NoDup (lru_blocks p).*1 → 0 < n →
  let l := take (Z.to_nat n) (filter (evictable protected) (lru_blocks p)) in
  if zlen l <? n then lru_evict p n protected = (None, p)
  else ∃ p', lru_evict p n protected = (Some l, p') ∧ zlen l = n ∧ NoDup (lru_blocks p').*1 ∧
    lru_blocks p ≡ₚ l ++ lru_blocks p'.
Proof.
  intros Hd Hn l. assert (Hl : lru_candidates (lru_blocks p) n protected [] = l).
  { rewrite lru_candidates_spec by (rewrite zlen_nil; lia). rewrite zlen_nil. by replace (n - 0) with n by lia. }
  unfold lru_evict. rewrite (proj2 (Z.eqb_neq n 0)) by lia. rewrite Hl. cbv zeta. destruct (Z.ltb_spec (zlen l) n); [done|].
  eexists. split; [done|]. cbn [lru_blocks].
  assert (Hsub : l `sublist_of` lru_blocks p) by (etransitivity; [apply sublist_take|apply sublist_filter]).
  destruct (del_all_perm (lru_blocks p) l) as [Hp Hnd]; [done|..].
  - apply (sublist_NoDup _ (lru_blocks p).*1); [done|]. by apply fmap_sublist.
  - intros k v Hkv. apply od_get_elem; [done|]. by eapply elem_of_sublist.
  - split; [|done]. unfold l, zlen in *. rewrite length_take in *. lia.
Qed.

Lemma take_filter_evictable protected n (d : list (OffloadKey * BlockStatus)) :
  Forall (evictable protected) (take n (filter (evictable protected) d)).
Proof. apply Forall_take, Forall_forall. intros x Hx. by apply list_elem_of_filter in Hx as [? _]. Qed.

#[export, program] Instance lru_laws : PolicyLaws LRUCachePolicy := {|
  cp_entries := lru_blocks;
  cp_ok p := NoDup (lru_blocks p).*1;
|}.
Next Obligation. done. Qed.
Next Obligation. done. Qed.
Next Obligation. intros c _. split; [constructor|done]. Qed.
Next Obligation.
  intros p k b b' Hp _. cbn [cp_update lru_policy lru_blocks]. split; [by apply od_set_nodup|by apply od_set_perm].
Qed.
Next Obligation.
  intros p k b Hp Hk. cbn [cp_insert cp_get lru_policy lru_blocks] in *. split; [by apply od_set_nodup|].
  rewrite od_set_perm by done. by rewrite od_del_absent by (by apply od_get_None).
Qed.
Next Obligation.
  intros p k b Hp Hk. cbn [cp_remove cp_get lru_policy] in *. rewrite Hk. eexists. split; [done|].
  split; [by apply od_del_nodup|done].
Qed.
Next Obligation.
  intros p keys Hp. cbn [cp_touch lru_policy lru_touch lru_blocks]. split; [|by apply touch_all_perm].
  by rewrite touch_all_perm.
Qed.
Next Obligation.
  intros p n protected Hp Hn. cbn [cp_evict lru_policy]. pose proof (lru_evict_spec p n protected Hp Hn) as H.
  cbv zeta in H. destruct (_ <? n); [by rewrite H|]. destruct H as (p' & -> & Hl & Hnd & Hperm).
  split; [done|]. split; [done|]. split; [apply take_filter_evictable|done].
Qed.
Next Obligation. intros p _. split; [constructor|done]. Qed.

(** ** Adaptive replacement *)

Section arc.
Implicit Types (p : ARCCachePolicy) (k : OffloadKey).

Definition arc_entries p : list (OffloadKey * BlockStatus) := t1 p ++ t2 p.
Definition arc_keys p : list OffloadKey := (t1 p).*1 ++ (t2 p).*1 ++ (b1 p).*1 ++ (b2 p).*1.

(** The four lists are disjoint, each ghost list and the target size of [t1] are
    bounded by the capacity. *)
Record arc_ok p : Prop := {
  ao_nodup : NoDup (arc_keys p);
  ao_capacity : 0 ≤ cache_capacity p;
  ao_b1 : zlen (b1 p) ≤ cache_capacity p;
  ao_b2 : zlen (b2 p) ≤ cache_capacity p;
  ao_target : (0 <= target_t1_size p)%Q ∧ (target_t1_size p <= inject_Z (cache_capacity p))%Q;
}.

Lemma od_get_app {V} (d1 d2 : list (OffloadKey * V)) k :
  od_get (d1 ++ d2) k = match od_get d1 k with Some v => Some v | None => od_get d2 k end.
Proof. induction d1 as [|[k' v'] d1 IH]; [done|]. cbn [app od_get]. by case_decide. Qed.

Lemma od_del_app {V} (d1 d2 : list (OffloadKey * V)) k : od_del (d1 ++ d2) k = od_del d1 k ++ od_del d2 k.
Proof. apply filter_app. Qed.

Lemma od_set_keys_in {V} (d : list (OffloadKey * V)) k v v' : od_get d k = Some v → (od_set d k v').*1 = d.*1.
Proof.
  intros H. rewrite od_set_keys, decide_True; [done|]. apply od_get_key. by exists v.
Qed.

(** What the keys of one list are not in. *)
Lemma arc_keys_apart p :
  NoDup (arc_keys p) →
  NoDup (t1 p).*1 ∧ NoDup (t2 p).*1 ∧ NoDup (b1 p).*1 ∧ NoDup (b2 p).*1 ∧
  (∀ k, k ∈ (t1 p).*1 → k ∉ (t2 p).*1 ∧ k ∉ (b1 p).*1 ∧ k ∉ (b2 p).*1) ∧
  (∀ k, k ∈ (t2 p).*1 → k ∉ (t1 p).*1 ∧ k ∉ (b1 p).*1 ∧ k ∉ (b2 p).*1).
Proof.
  unfold arc_keys. rewrite !NoDup_app. setoid_rewrite elem_of_app. setoid_rewrite elem_of_app. naive_solver.
Qed.

Lemma arc_get_entries p k : arc_get p k = od_get (arc_entries p) k.
Proof. unfold arc_entries. by rewrite od_get_app. Qed.

Lemma arc_entries_nodup p : NoDup (arc_keys p) → NoDup (arc_entries p).*1.
Proof.
  unfold arc_keys, arc_entries. rewrite (assoc_L (++)), NoDup_app, fmap_app. tauto.
Qed.

(** The block of a cached key, in [t1] or in [t2]. *)
Lemma arc_get_cases p k b :
  NoDup (arc_keys p) → arc_get p k = Some b →
  od_get (t1 p) k = Some b ∧ od_del (arc_entries p) k = od_del (t1 p) k ++ t2 p ∨
  od_get (t1 p) k = None ∧ od_get (t2 p) k = Some b ∧ od_del (arc_entries p) k = t1 p ++ od_del (t2 p) k.
Proof.
  intros Hnd H. unfold arc_get in H. destruct (arc_keys_apart p Hnd) as (_ & _ & _ & _ & H1 & _).
  unfold arc_entries. rewrite od_del_app. destruct (od_get (t1 p) k) as [b'|] eqn:E.
  - left. injection H as ->. split; [done|]. f_equal. apply od_del_absent. apply H1, od_get_key. by eexists.
  - right. split; [done|]. split; [done|]. f_equal. by apply od_del_absent, od_get_None.
Qed.

Lemma arc_ok_keys p p' :
  arc_ok p → arc_keys p' ≡ₚ arc_keys p → cache_capacity p' = cache_capacity p → target_t1_size p' = target_t1_size p →
  zlen (b1 p') ≤ zlen (b1 p) → zlen (b2 p') ≤ zlen (b2 p) → arc_ok p'.
Proof.
  intros [H1 H2 H3 H4 H5] Hk Hc Ht Hb1 Hb2. split; rewrite ?Hk, ?Hc, ?Ht; first [done|lia].
Qed.

Lemma arc_update_ok p k b b' :
  arc_ok p → arc_get p k = Some b →
  arc_ok (arc_update p k b') ∧ arc_entries (arc_update p k b') ≡ₚ (k, b') :: od_del (arc_entries p) k.
Proof.
  intros Hok H. pose proof (arc_keys_apart p (ao_nodup p Hok)) as (N1 & N2 & _).
  unfold arc_update. destruct (arc_get_cases p k b (ao_nodup p Hok) H) as [[E Ed]|[E1 [E2 Ed]]]; rewrite ?E, ?E1, Ed.
  - split; [|unfold arc_entries; cbn [t1 t2 set_t]; by rewrite od_set_perm].
    apply (arc_ok_keys p); [done| |done..]. unfold arc_keys. cbn [t1 t2 b1 b2 set_t]. by erewrite od_set_keys_in.
  - split; [|unfold arc_entries; cbn [t1 t2 set_t]; rewrite od_set_perm by done; symmetry; apply Permutation_middle].
    apply (arc_ok_keys p); [done| |done..]. unfold arc_keys. cbn [t1 t2 b1 b2 set_t]. by erewrite od_set_keys_in.
Qed.

Lemma del_shorter {V} (d : list (OffloadKey * V)) k : zlen (od_del d k) ≤ zlen d.
Proof. unfold zlen, od_del. pose proof (length_filter (λ x, x.1 ≠ k) d). lia. Qed.

Lemma arc_insert_ok p k b :
  arc_ok p → arc_get p k = None →
  arc_ok (arc_insert p k b) ∧ arc_entries (arc_insert p k b) ≡ₚ (k, b) :: arc_entries p.
Proof.
  intros [H1 H2 H3 H4 H5] H. unfold arc_get in H. destruct (od_get (t1 p) k) eqn:E; [done|].
  apply od_get_None in E, H. pose proof (arc_keys_apart p H1) as (N1 & N2 & N3 & N4 & _).
  pose proof (del_shorter (b1 p) k). pose proof (del_shorter (b2 p) k).
  split; [|unfold arc_entries, arc_insert; cbn [t1 t2]; rewrite od_set_fresh by done;
           rewrite <-(assoc_L (++)); symmetry; apply Permutation_middle].
  split; cbn [arc_insert cache_capacity target_t1_size b1 b2]; [|lia..|done].
  unfold arc_keys in *. cbn [arc_insert t1 t2 b1 b2]. rewrite od_set_fresh, fmap_app by done. cbn [fmap list_fmap].
  rewrite !od_del_keys. rewrite <-(assoc_L (++)). cbn [app]. rewrite <-Permutation_middle. apply NoDup_cons. split.
  - rewrite !elem_of_app, !list_elem_of_filter. naive_solver.
  - eapply sublist_NoDup; [exact H1|]. by repeat first [apply sublist_app|apply sublist_filter].
Qed.

Lemma arc_remove_ok p k b :
  arc_ok p → arc_get p k = Some b →
  arc_ok (arc_remove p k) ∧ arc_entries (arc_remove p k) ≡ₚ od_del (arc_entries p) k.
Proof.
  intros Hok H. pose proof (arc_keys_apart p (ao_nodup p Hok)) as (N1 & N2 & _).
  unfold arc_remove. destruct (arc_get_cases p k b (ao_nodup p Hok) H) as [[E Ed]|[E1 [E2 Ed]]];
    rewrite ?E, ?E1, Ed; (split; [|done]); destruct Hok as [H1 H2 H3 H4 H5]; (split; [|done..]);
    unfold arc_keys in *; cbn [t1 t2 b1 b2 set_t]; rewrite od_del_keys;
    (eapply sublist_NoDup; [exact H1|]); by repeat first [apply sublist_app|apply sublist_filter].
Qed.

Lemma move_keys_perm {V} (d : list (OffloadKey * V)) k : NoDup d.*1 → (od_move_to_end d k).*1 ≡ₚ d.*1.
Proof. intros. by rewrite move_to_end_perm. Qed.

Lemma move_zlen {V} (d : list (OffloadKey * V)) k : NoDup d.*1 → zlen (od_move_to_end d k) = zlen d.
Proof. intros. unfold zlen. by rewrite move_to_end_perm. Qed.

Lemma arc_delta_pos {A} (a b : list A) : (1 <= arc_delta a b)%Q.
Proof. apply Q.le_max_l. Qed.

Lemma arc_touch_one_ok p k :
  arc_ok p → arc_ok (arc_touch_one p k) ∧ arc_entries (arc_touch_one p k) ≡ₚ arc_entries p.
Proof.
  intros Hok. destruct (Hok) as [H1 H2 H3 H4 [H5 H6]].
  destruct (arc_keys_apart p H1) as (N1 & N2 & N3 & N4 & Ht1 & Ht2). unfold arc_touch_one.
  destruct (od_get (t1 p) k) as [b|] eqn:E1.
  - assert (Hk : k ∈ (t1 p).*1) by (apply od_get_key; by eexists). pose proof (od_del_perm _ _ _ N1 E1) as Hp.
    assert (Hfresh : k ∉ (od_del (t1 p) k).*1) by (rewrite od_del_keys, list_elem_of_filter; tauto).
    destruct (negb (is_ready b)).
    + rewrite od_set_fresh by done.
      assert (Hq : od_del (t1 p) k ++ [(k, b)] ≡ₚ t1 p) by (rewrite Hp at 2; by rewrite <-Permutation_cons_append).
      split; [|unfold arc_entries; cbn [t1 t2 set_t]; by rewrite Hq].
      apply (arc_ok_keys p); [done| |done..]. unfold arc_keys. cbn [t1 t2 b1 b2 set_t]. by rewrite Hq.
    + rewrite od_set_fresh by (by apply Ht1).
      assert (Hq : od_del (t1 p) k ++ t2 p ++ [(k, b)] ≡ₚ t1 p ++ t2 p).
      { rewrite Hp at 2. rewrite (assoc_L (++)), <-Permutation_cons_append. done. }
      split; [|done]. apply (arc_ok_keys p); [done| |done..]. unfold arc_keys. cbn [t1 t2 b1 b2 set_t].
      rewrite (assoc_L (++) ((od_del (t1 p) k).*1)), <-fmap_app, Hq, fmap_app. by rewrite <-(assoc_L (++)).
  - destruct (od_get (t2 p) k) as [b|] eqn:E2.
    { pose proof (move_to_end_perm (t2 p) k N2) as Hq. split; [|unfold arc_entries; cbn [t1 t2 set_t]; by rewrite Hq].
      apply (arc_ok_keys p); [done| |done..]. unfold arc_keys. cbn [t1 t2 b1 b2 set_t]. by rewrite Hq. }
    destruct (od_get (b1 p) k) eqn:E3; [|destruct (od_get (b2 p) k) eqn:E4; [|done]]; (split; [|done]).
    + pose proof (arc_delta_pos (b2 p) (b1 p)) as Hd.
      split; cbn [cache_capacity b1 b2 set_ghosts target_t1_size]; rewrite ?move_zlen by done; [|done..|].
      * unfold arc_keys. cbn [t1 t2 b1 b2 set_ghosts]. by rewrite move_keys_perm.
      * split; [|apply Q.le_min_r]. apply Q.min_glb; [|by rewrite <-(Zle_Qle 0)].
        eapply Qle_trans; [|apply Qplus_le_compat; [exact H5|exact Hd]]. discriminate.
    + pose proof (arc_delta_pos (b1 p) (b2 p)) as Hd.
      split; cbn [cache_capacity b1 b2 set_ghosts target_t1_size]; rewrite ?move_zlen by done; [|done..|].
      * unfold arc_keys. cbn [t1 t2 b1 b2 set_ghosts]. by rewrite move_keys_perm.
      * split; [apply Q.le_max_r|]. apply Q.max_lub; [|by rewrite <-(Zle_Qle 0)].
        eapply Qle_trans; [|exact H6]. rewrite <-(Qplus_0_r (target_t1_size p)) at 2.
        apply Qplus_le_compat; [apply Qle_refl|]. change 0%Q with (- 0)%Q. apply Qopp_le_compat.
        eapply Qle_trans; [|exact Hd]. discriminate.
Qed.

Lemma arc_touch_ok p keys : arc_ok p → arc_ok (arc_touch p keys) ∧ arc_entries (arc_touch p keys) ≡ₚ arc_entries p.
Proof.
  unfold arc_touch. revert p. induction (reverse keys) as [|k l IH]; intros p Hok; [done|]. cbn [foldl].
  destruct (arc_touch_one_ok p k Hok) as [Hok1 Hp1]. destruct (IH _ Hok1) as [Hok2 Hp2]. split; [done|].
  by rewrite Hp2.
Qed.

(** ** Eviction *)

(** The candidates are blocks of the lists they are said to come from. *)
Definition cand_ok p protected (cs : list (OffloadKey * BlockStatus * bool)) : Prop :=
  NoDup cs.*1.*1 ∧ Forall (evictable protected) cs.*1 ∧
  ∀ k b from_t1, (k, b, from_t1) ∈ cs → od_get (if from_t1 : bool then t1 p else t2 p) k = Some b.

Lemma arc_first_Some l protected selected k b :
  NoDup l.*1 → arc_first l protected selected = Some (k, b) →
  od_get l k = Some b ∧ evictable protected (k, b) ∧ k ∉ selected.
Proof.
  intros Hl H. unfold arc_first in H. apply fmap_Some in H as ([i x] & Hf & Hx). cbn [snd] in Hx. subst x.
  apply list_find_Some in Hf as (Hi & [He Hs] & _). split; [|done]. apply od_get_elem; [done|].
  by eapply list_elem_of_lookup_2.
Qed.

Lemma arc_candidate_ok p protected cs v c :
  NoDup (arc_keys p) → cand_ok p protected cs → arc_candidate p protected ((λ c, c.1.1) <$> cs) v = Some c →
  cand_ok p protected (cs ++ [c]).
Proof.
  intros Hnd (Hcs & He & Hin) H. destruct (arc_keys_apart p Hnd) as (N1 & N2 & _). destruct c as [[k b] f].
  assert (od_get (if f : bool then t1 p else t2 p) k = Some b ∧ evictable protected (k, b) ∧ k ∉ cs.*1.*1) as (Hk & Hb & Hn).
  { replace (cs.*1.*1) with ((λ c, c.1.1) <$> cs) by (by rewrite <-list_fmap_compose). unfold arc_candidate in H.
    case_match eqn:E.
    - injection H as -> <-. case_match; [|done]. by apply arc_first_Some.
    - apply fmap_Some in H as ([k' b'] & H & [= -> -> ->]). by apply arc_first_Some. }
  split; [|split].
  - rewrite !fmap_app. apply NoDup_app. split; [done|]. split; [|apply NoDup_singleton].
    intros x Hx ->%list_elem_of_singleton. done.
  - rewrite fmap_app. apply Forall_app. split; [done|]. by apply Forall_singleton.
  - intros k' b' f' [?|[= -> -> ->]%list_elem_of_singleton]%elem_of_app; [by apply Hin|done].
Qed.

Lemma arc_select_ok p protected n v cs cs' :
  NoDup (arc_keys p) → cand_ok p protected cs → arc_select p protected n v cs = Some cs' →
  cand_ok p protected cs' ∧ length cs' = (length cs + n)%nat.
Proof.
  intros Hnd. revert v cs. induction n as [|n IH]; intros v cs Hcs H; cbn [arc_select] in H.
  - injection H as <-. split; [done|lia].
  - destruct (arc_candidate _ _ _ _) as [c|] eqn:E; [|done]. pose proof (arc_candidate_ok _ _ _ _ _ Hnd Hcs E) as Hc.
    destruct (IH _ _ Hc H) as [? Hl]. split; [done|]. rewrite length_app in Hl. simpl in Hl. lia.
Qed.

Lemma arc_drop_perm p k b (f : bool) :
  NoDup (arc_keys p) → od_get (if f then t1 p else t2 p) k = Some b →
  arc_entries p ≡ₚ (k, b) :: arc_entries (arc_drop p (k, b, f)) ∧ arc_keys (arc_drop p (k, b, f)) ≡ₚ arc_keys p ∧
  cache_capacity (arc_drop p (k, b, f)) = cache_capacity p ∧ target_t1_size (arc_drop p (k, b, f)) = target_t1_size p.
Proof.
  intros Hnd Hk. destruct (arc_keys_apart p Hnd) as (N1 & N2 & N3 & N4 & Ht1 & Ht2).
  unfold arc_drop, arc_entries, arc_keys. cbn [fst snd]. destruct f; cbn [t1 t2 b1 b2 cache_capacity target_t1_size].
  - pose proof (od_del_perm _ _ _ N1 Hk) as Hp. assert (Hkt : k ∈ (t1 p).*1) by (apply od_get_key; by eexists). destruct (Ht1 k Hkt) as (_ & Hb & _).
    rewrite od_set_fresh by done. split; [by rewrite Hp at 1|]. split; [|done]. rewrite Hp at 2.
    rewrite fmap_app. cbn [fmap list_fmap fst app]. rewrite <-(assoc_L (++) (b1 p).*1). cbn [app].
    by rewrite <-!Permutation_middle.
  - pose proof (od_del_perm _ _ _ N2 Hk) as Hp. assert (Hkt : k ∈ (t2 p).*1) by (apply od_get_key; by eexists). destruct (Ht2 k Hkt) as (_ & _ & Hb).
    rewrite od_set_fresh by done. split; [rewrite Hp at 1; by rewrite Permutation_middle|]. split; [|done]. rewrite Hp at 2.
    rewrite fmap_app. cbn [fmap list_fmap fst app]. rewrite !(assoc_L (++)). rewrite <-!Permutation_cons_append.
    cbn [app]. rewrite <-!(assoc_L (++)). cbn [app]. by rewrite <-Permutation_middle.
Qed.

Lemma cand_ok_drop p protected k b (f : bool) cs :
  NoDup (arc_keys p) → cand_ok p protected ((k, b, f) :: cs) → cand_ok (arc_drop p (k, b, f)) protected cs.
Proof.
  intros Hnd (Hcs & He & Hin). rewrite !fmap_cons in Hcs, He. apply NoDup_cons in Hcs as [Hk Hcs].
  apply Forall_cons in He as [_ He]. destruct (arc_keys_apart p Hnd) as (N1 & N2 & _).
  split; [done|]. split; [done|]. intros k' b' f' Hk'.
  assert (k' ≠ k). { intros ->. apply Hk, list_elem_of_fmap. exists (k, b'). split; [done|]. apply list_elem_of_fmap. by exists (k, b', f'). }
  pose proof (Hin k' b' f' ltac:(by right)) as Hg. unfold arc_drop. cbn [fst snd].
  destruct f, f'; cbn [t1 t2]; try done; rewrite od_get_del by done; by rewrite decide_False.
Qed.

Lemma arc_drops p protected cs :
  NoDup (arc_keys p) → cand_ok p protected cs →
  let p' := foldl arc_drop p cs in
  arc_entries p ≡ₚ cs.*1 ++ arc_entries p' ∧ arc_keys p' ≡ₚ arc_keys p ∧
  cache_capacity p' = cache_capacity p ∧ target_t1_size p' = target_t1_size p.
Proof.
  revert p. induction cs as [|[[k b] f] cs IH]; intros p Hnd Hcs; [done|]. cbn [foldl].
  destruct (arc_drop_perm p k b f Hnd) as (He & Hk & Hc & Ht); [destruct Hcs as (_ & _ & Hin); apply Hin; by left|].
  destruct (IH (arc_drop p (k, b, f))) as (He' & Hk' & Hc' & Ht').
  - by rewrite Hk.
  - by eapply cand_ok_drop.
  - rewrite fmap_cons. cbn [fst app]. cbv zeta in *. rewrite He, He', Hk', Hk, Hc', Hc, Ht', Ht. done.
Qed.

Lemma trim_ghost_spec capacity ghost :
  0 ≤ capacity → trim_ghost capacity ghost `sublist_of` ghost ∧ zlen (trim_ghost capacity ghost) ≤ capacity.
Proof.
  intros Hc. split; [apply sublist_drop|]. unfold trim_ghost, zlen in *. rewrite length_drop. lia.
Qed.

Lemma arc_evict_ok p n protected :
  arc_ok p → 0 < n →
  match arc_evict p n protected with
  | (None, p') => p' = p
  | (Some l, p') => arc_ok p' ∧ zlen l = n ∧ Forall (evictable protected) l ∧ arc_entries p ≡ₚ l ++ arc_entries p'
  end.
Proof.
  intros [H1 H2 H3 H4 H5] Hn. unfold arc_evict. rewrite (proj2 (Z.eqb_neq n 0)) by lia.
  destruct (arc_select _ _ _ _ _) as [cs|] eqn:E; [|done].
  apply arc_select_ok in E as [Hcs Hl]; [|done|]; last first.
  { split; [constructor|]. split; [constructor|]. by intros ??? ?%elem_of_nil. }
  destruct (arc_drops p protected cs H1 Hcs) as (He & Hk & Hc & Ht). cbv zeta in *.
  set (p1 := foldl arc_drop p cs) in *. rewrite <-Hc in H2.
  destruct (trim_ghost_spec _ (b1 p1) H2) as [Hs1 Hb1], (trim_ghost_spec _ (b2 p1) H2) as [Hs2 Hb2].
  split_and!; [|unfold zlen; rewrite length_fmap; simpl in Hl; lia|apply Hcs|exact He].
  split; cbn [set_ghosts cache_capacity target_t1_size b1 b2]; [|done..|by rewrite Ht, Hc].
  eapply sublist_NoDup; [rewrite <-Hk in H1; exact H1|]. unfold arc_keys. cbn [set_ghosts t1 t2 b1 b2].
  repeat apply sublist_app; try done; by apply fmap_sublist.
Qed.

Lemma arc_init_ok c : 0 ≤ c → arc_ok (cp_init c).
Proof.
  intros. split; cbn [cp_init arc_policy cache_capacity b1 b2 target_t1_size]; try done; [constructor|].
  split; [done|]. by rewrite <-(Zle_Qle 0).
Qed.
End arc.

#[export, program] Instance arc_laws : PolicyLaws ARCCachePolicy := {|
  cp_entries := arc_entries;
  cp_ok := arc_ok;
|}.
Next Obligation. intros p [H _ _ _ _]. by apply arc_entries_nodup. Qed.
Next Obligation. intros p k _. apply arc_get_entries. Qed.
Next Obligation. intros c Hc. split; [by apply arc_init_ok|done]. Qed.
Next Obligation. exact arc_update_ok. Qed.
Next Obligation. exact arc_insert_ok. Qed.
Next Obligation. intros p k b Hp Hk. eexists. split; [done|]. by eapply arc_remove_ok. Qed.
Next Obligation. exact arc_touch_ok. Qed.
Next Obligation. exact arc_evict_ok. Qed.
Next Obligation. intros p [_ H _ _ _]. split; [|done]. exact (arc_init_ok _ H). Qed.
