(* ===== verification/Offload.v ===== *)
(** * The CPU offload cache
    [CPUOffloadingManager] of [kv_offload/cpu/manager.py], over any replacement
    policy: the pool of CPU blocks, reference counts of loads in progress, stores
    in two phases, eviction and events.  The request context, which the manager
    does not use, and the statistics are left out. *)

From S2P Require Import Prelude OrderedDict KVBlock OffloadPolicy.

#[local] Open Scope Z_scope.

Record OffloadingEvent := mkOffEvent {
  oe_keys : list OffloadKey;
  oe_medium : string;
  oe_removed : bool;
}.

(** The specification of where to store is the list of block ids. *)
Record PrepareStoreOutput := mkStoreOut {
  keys_to_store : list OffloadKey;
  store_spec : list Z;
  evicted_keys : list OffloadKey;
}.

Record CPUOffloadingManager (P : Type) := mkOff {
  off_num_blocks : Z;
  num_allocated_blocks : Z;
  free_list : list Z;
  off_events : option (list OffloadingEvent);
  off_policy : P;
  num_evictable : Z;       (* [_num_evictable_cache_blocks] *)
  store_threshold : Z;
  max_tracker_size : Z;
  stores_skipped : Z;      (* [stores_skipped_in_current_batch] *)
  counts : option (list (OffloadKey * Z));
}.
Arguments mkOff {P}.
Arguments off_num_blocks {P} _.
Arguments num_allocated_blocks {P} _.
Arguments free_list {P} _.
Arguments off_events {P} _.
Arguments off_policy {P} _.
Arguments num_evictable {P} _.
Arguments store_threshold {P} _.
Arguments max_tracker_size {P} _.
Arguments stores_skipped {P} _.
Arguments counts {P} _.

Section manager.
Context {P : Type} `{!CachePolicy P}.
Abbreviation M := (CPUOffloadingManager P).
Implicit Types m : M.

Definition set_pool (allocated : Z) (free : list Z) m : M :=
  mkOff (off_num_blocks m) allocated free (off_events m) (off_policy m) (num_evictable m) (store_threshold m)
    (max_tracker_size m) (stores_skipped m) (counts m).
Definition set_policy (p : P) (evictable : Z) m : M :=
  mkOff (off_num_blocks m) (num_allocated_blocks m) (free_list m) (off_events m) p evictable (store_threshold m)
    (max_tracker_size m) (stores_skipped m) (counts m).
Definition set_off_events (e : option (list OffloadingEvent)) m : M :=
  mkOff (off_num_blocks m) (num_allocated_blocks m) (free_list m) e (off_policy m) (num_evictable m)
    (store_threshold m) (max_tracker_size m) (stores_skipped m) (counts m).
Definition set_counts (skipped : Z) (c : option (list (OffloadKey * Z))) m : M :=
  mkOff (off_num_blocks m) (num_allocated_blocks m) (free_list m) (off_events m) (off_policy m) (num_evictable m)
    (store_threshold m) (max_tracker_size m) skipped c.

Definition init_offload (num_blocks : Z) (enable_events : bool) (threshold tracker_size : Z) : M :=
  mkOff num_blocks 0 [] (if enable_events then Some [] else None) (cp_init num_blocks) 0 threshold tracker_size 0
    (if 2 <=? threshold then Some [] else None).

(** ** The pool *)

Definition _get_num_free_blocks m : Z := zlen (free_list m) + off_num_blocks m - num_allocated_blocks m.

Definition _allocate_blocks m (keys : list OffloadKey) : result (list BlockStatus * M) :=
  let num_fresh := Z.min (zlen keys) (off_num_blocks m - num_allocated_blocks m) in
  let num_reused := zlen keys - num_fresh in
  _ ← py_assert (num_reused <=? zlen (free_list m));
  let fresh := py_range (num_allocated_blocks m) (num_allocated_blocks m + num_fresh) in
  let reused := take (Z.to_nat num_reused) (reverse (free_list m)) in
  Ok (new_status <$> fresh ++ reused,
      set_pool (num_allocated_blocks m + zlen fresh)
        (take (length (free_list m) - Z.to_nat num_reused) (free_list m)) m).

Definition _free_block (b : BlockStatus) m : M := set_pool (num_allocated_blocks m) (free_list m ++ [bs_block_id b]) m.

(** [self.events.append(...)], when events are kept *)
Definition note_event (e : OffloadingEvent) m : M := set_off_events ((λ l, l ++ [e]) <$> off_events m) m.

(** ** Lookups *)

(** The reference counter of a key, in a table of bounded size. *)
Definition count_lookup m (key : OffloadKey) : result M :=
  match counts m with
  | None => Ok m
  | Some c =>
      match od_get c key with
      | Some n => Ok (set_counts (stores_skipped m) (Some (od_set (od_move_to_end c key) key (n + 1))) m)
      | None =>
          c ← (if max_tracker_size m <=? zlen c then
                 match c with [] => Raise KeyError | _ :: c => Ok c end
               else Ok c);
          Ok (set_counts (stores_skipped m) (Some (od_set c key 1)) m)
      end
  end.

(** [None]: the block is being written. *)
Definition off_lookup m (key : OffloadKey) : result (option bool * M) :=
  m ← count_lookup m key;
  match cp_get (off_policy m) key with
  | None => Ok (Some false, m)
  | Some b => Ok (if negb (is_ready b) then None else Some true, m)
  end.

(** ** Loads *)

Definition load_one (st : M * list Z) (key : OffloadKey) : result (M * list Z) :=
  let '(m, ids) := st in
  match cp_get (off_policy m) key with
  | None => Raise AssertionError
  | Some b =>
      _ ← py_assert (is_ready b);
      let evictable := if bs_ref_cnt b =? 0 then num_evictable m - 1 else num_evictable m in
      _ ← py_assert (if bs_ref_cnt b =? 0 then 0 <=? evictable else true);
      Ok (set_policy (cp_update (off_policy m) key (set_ref_cnt (bs_ref_cnt b + 1) b)) evictable m,
          ids ++ [bs_block_id b])
  end.

Definition prepare_load m (keys : list OffloadKey) : result (list Z * M) :=
  '(m, ids) ← mfold load_one (m, []) keys; Ok (ids, m).

Definition unload_one m (key : OffloadKey) : result M :=
  match cp_get (off_policy m) key with
  | None => Raise AssertionError
  | Some b =>
      _ ← py_assert (0 <? bs_ref_cnt b);
      let b := set_ref_cnt (bs_ref_cnt b - 1) b in
      Ok (set_policy (cp_update (off_policy m) key b)
            (if bs_ref_cnt b =? 0 then num_evictable m + 1 else num_evictable m) m)
  end.

Definition complete_load m (keys : list OffloadKey) : result M := mfold unload_one m keys.

Definition off_touch m (keys : list OffloadKey) : M := set_policy (cp_touch (off_policy m) keys) (num_evictable m) m.

(** ** Stores *)

(** The keys seen often enough to be stored. *)
Definition count_filter m (keys : list OffloadKey) : list OffloadKey * M :=
  match counts m with
  | None => (keys, m)
  | Some c =>
      let kept := filter (λ k, store_threshold m ≤ default 0 (od_get c k)) keys in
      (kept, set_counts (stores_skipped m + (zlen keys - zlen kept)) (Some c) m)
  end.

(** Making room: [None] when that is not possible; otherwise the evicted keys. *)
Definition make_room m (num_blocks_to_evict : Z) (protected : list OffloadKey) : result (option (list OffloadKey) * M) :=
  if num_blocks_to_evict <=? 0 then Ok (Some [], m) else
  if num_evictable m <? num_blocks_to_evict then Ok (None, m) else
  match cp_evict (off_policy m) num_blocks_to_evict protected with
  | (None, p) => Ok (None, set_policy p (num_evictable m) m)
  | (Some evicted, p) =>
      let m := set_policy p (num_evictable m - zlen evicted) m in
      _ ← py_assert (0 <=? num_evictable m);
      Ok (Some evicted.*1, foldl (λ m e, _free_block e.2 m) m evicted)
  end.

Definition prepare_store m (keys : list OffloadKey) : result (option PrepareStoreOutput * M) :=
  let '(keys, m) := count_filter m keys in
  let to_store := filter (λ k, cp_get (off_policy m) k = None) keys in
  match to_store with
  | [] => Ok (Some (mkStoreOut [] [] []), m)
  | _ =>
      '(room, m) ← make_room m (zlen to_store - _get_num_free_blocks m) keys;
      match room with
      | None => Ok (None, m)
      | Some to_evict =>
          let m := match to_evict with [] => m | _ => note_event (mkOffEvent to_evict "CPU" true) m end in
          '(blocks, m) ← _allocate_blocks m to_store;
          _ ← py_assert (bool_decide (length blocks = length to_store));
          let m := set_policy (foldl (λ p kb, cp_insert p kb.1 kb.2) (off_policy m) (zip to_store blocks))
                     (num_evictable m) m in
          Ok (Some (mkStoreOut to_store (bs_block_id <$> blocks) to_evict), m)
      end
  end.

(** A block that has been written. *)
Definition store_done (st : M * list OffloadKey) (key : OffloadKey) : M * list OffloadKey :=
  let '(m, stored) := st in
  match cp_get (off_policy m) key with
  | Some b =>
      if negb (is_ready b)
      then (set_policy (cp_update (off_policy m) key (set_ref_cnt 0 b)) (num_evictable m + 1) m, stored ++ [key])
      else st
  | None => st
  end.

(** A block that could not be written. *)
Definition store_failed m (key : OffloadKey) : result M :=
  match cp_get (off_policy m) key with
  | Some b =>
      if negb (is_ready b)
      then p ← cp_remove (off_policy m) key; Ok (_free_block b (set_policy p (num_evictable m) m))
      else Ok m
  | None => Ok m
  end.

Definition complete_store m (keys : list OffloadKey) (success : bool) : result M :=
  if success then
    let '(m, stored) := foldl store_done (m, []) keys in
    Ok (match stored with [] => m | _ => note_event (mkOffEvent stored "CPU" false) m end)
  else mfold store_failed m keys.

Definition reset_cache m : M := set_pool 0 [] (set_policy (cp_clear (off_policy m)) 0 m).

Definition take_events m : list OffloadingEvent * M :=
  (default [] (off_events m), set_off_events ((λ _, []) <$> off_events m) m).
End manager.
