(* ===== verification/OffloadFacts.v ===== *)
(** * The CPU offload cache: what it keeps
    Against the laws of a replacement policy: the blocks of the cache and the free
    list are exactly the allocated ones, idle blocks are counted, stores take
    free or idle blocks only, and a block that is being read or written stays.  What
    a store threshold changes is said with the theorem on stores. *)

From S2P Require Import Prelude OrderedDict KVBlock OffloadPolicy Offload.

#[local] Open Scope Z_scope.

Lemma od_get_perm {V} (d d' : list (OffloadKey * V)) k : NoDup d.*1 → d ≡ₚ d' → od_get d k = od_get d' k.
Proof.
  intros Hd Hp. assert (Hd' : NoDup d'.*1) by (by rewrite <-Hp).
  destruct (od_get d k) as [v|] eqn:E.
  - symmetry. apply od_get_elem; [done|]. rewrite <-Hp. by apply od_get_elem.
  - symmetry. apply od_get_None. rewrite <-Hp. by apply od_get_None.
Qed.

(** ** Untracked keys *)

Section untracked.
Context {P : Type} `{!CachePolicy P}.
Implicit Types m : CPUOffloadingManager P.

(** Every key is stored: there is no table of counters. *)
Definition untracked m : Prop := counts m = None.

Lemma untracked_mfold {A} (f : CPUOffloadingManager P → A → result (CPUOffloadingManager P)) l m m' :
  (∀ m a m', untracked m → f m a = Ok m' → untracked m') → untracked m → mfold f m l = Ok m' → untracked m'.
Proof. intros Hf. apply mfold_inv. intros s a s' _. apply Hf. Qed.

Lemma untracked_lookup m k : untracked m → ∃ r, off_lookup m k = Ok (r, m).
Proof.
  unfold untracked, off_lookup, count_lookup. intros ->. cbn [mbind result_bind]. destruct (cp_get _ _); by eexists.
Qed.

Lemma untracked_load m keys ids m' : untracked m → prepare_load m keys = Ok (ids, m') → untracked m'.
Proof.
  intros Hm H. unfold prepare_load in H. bind_inv H as [m1 ids1] E. injection H as <- <-.
  refine (mfold_inv (λ st, untracked st.1) _ _ (m, []) (m1, ids1) _ Hm E).
  intros [s acc] k [s' acc'] _ Hs Hl. cbn [fst load_one] in *. destruct (cp_get _ _) as [b|]; [|done].
  bind_inv Hl as u1 E1. bind_inv Hl as u2 E2. by injection Hl as <- <-.
Qed.

Lemma untracked_unload m keys m' : untracked m → complete_load m keys = Ok m' → untracked m'.
Proof.
  apply untracked_mfold. intros s k s' Hs Hl. unfold unload_one in Hl. destruct (cp_get _ _) as [b|]; [|done].
  bind_inv Hl as u1 E1. by injection Hl as <-.
Qed.

Lemma untracked_stored m keys success m' : untracked m → complete_store m keys success = Ok m' → untracked m'.
Proof.
  intros Hm H. unfold complete_store in H. destruct success.
  - assert (Hf : untracked (foldl store_done (m, []) keys).1).
    { generalize (@nil OffloadKey) at 1. clear H. revert m Hm. induction keys as [|k keys IH]; intros m Hm acc; [done|].
      cbn [foldl store_done]. destruct (cp_get _ _) as [b|]; [destruct (negb _)|]; by apply IH. }
    destruct (foldl store_done (m, []) keys) as [m1 st]. destruct st; by injection H as <-.
  - revert H. apply untracked_mfold; [|done]. intros s k s' Hs Hl. unfold store_failed in Hl.
    destruct (cp_get _ _) as [b|]; [|by injection Hl as <-]. destruct (negb _); [|by injection Hl as <-].
    bind_inv Hl as p E. by injection Hl as <-.
Qed.

Lemma untracked_store m keys r m' : untracked m → prepare_store m keys = Ok (r, m') → untracked m'.
Proof.
  intros Hm H. unfold prepare_store, count_filter in H. pose proof Hm as Hc. unfold untracked in Hc. rewrite Hc in H.
  destruct (filter _ keys) as [|w ws]; [by injection H as <- <-|]. bind_inv H as [room m1] E.
  assert (Hm1 : untracked m1).
  { unfold make_room in E. destruct (_ <=? 0); [by injection E as <- <-|]. destruct (_ <? _); [by injection E as <- <-|].
    destruct (cp_evict _ _ _) as [[l|] p]; [|by injection E as <- <-]. bind_inv E as u Eu. injection E as <- <-.
    clear -Hm. revert p. generalize (num_evictable m - zlen l) as n. intros n p.
    assert (untracked (set_policy p n m)) as Hs by done. revert Hs. generalize (set_policy p n m). clear Hm m.
    induction l as [|e l IH]; intros m Hm; [done|]. cbn [foldl]. by apply IH. }
  destruct room as [ev|]; [|by injection H as <- <-]. bind_inv H as [blocks m2] E2. bind_inv H as u Eu. injection H as <- <-.
  unfold _allocate_blocks in E2. bind_inv E2 as u2 Eu2. injection E2 as <- <-. by destruct ev.
Qed.
End untracked.

Section facts.
Context {P : Type} `{!CachePolicy P} `{!PolicyLaws P}.
Abbreviation M := (CPUOffloadingManager P).
Implicit Types m : M.

(** ** The invariant *)

Definition view m (k : OffloadKey) : option BlockStatus := cp_get (off_policy m) k.
Definition entries m : list (OffloadKey * BlockStatus) := cp_entries (off_policy m).

Abbreviation idle := (λ e : OffloadKey * BlockStatus, bs_ref_cnt e.2 = 0).
Abbreviation id_of := (λ e : OffloadKey * BlockStatus, bs_block_id e.2).

Record off_inv m : Prop := {
  oi_policy : cp_ok (off_policy m);
  oi_pool : 0 ≤ num_allocated_blocks m ≤ off_num_blocks m;
  oi_size : off_num_blocks m ≤ 2 ^ 63;
  oi_ids : (id_of <$> entries m) ++ free_list m ≡ₚ py_range 0 (num_allocated_blocks m);
  oi_refs : ∀ k b, view m k = Some b → -1 ≤ bs_ref_cnt b < 2 ^ 31;
  oi_evictable : num_evictable m = zlen (filter idle (entries m));
}.

Lemma view_entries m k : off_inv m → view m k = od_get (entries m) k.
Proof. intros H. apply cp_get_law, H. Qed.

Lemma entries_nodup m : off_inv m → NoDup (entries m).*1.
Proof. intros H. apply cp_nodup, H. Qed.

Lemma view_perm m k b : off_inv m → view m k = Some b → entries m ≡ₚ (k, b) :: od_del (entries m) k.
Proof. intros H Hk. apply od_del_perm; [by apply entries_nodup|]. by rewrite <-view_entries. Qed.

(** A state that differs in the policy and the pool. *)
Lemma inv_intro m p free allocated evictable m' :
  off_inv m → m' = set_pool allocated free (set_policy p evictable m) → cp_ok p → 0 ≤ allocated ≤ off_num_blocks m →
  (id_of <$> cp_entries p) ++ free ≡ₚ py_range 0 allocated →
  (∀ k b, od_get (cp_entries p) k = Some b → -1 ≤ bs_ref_cnt b < 2 ^ 31) →
  evictable = zlen (filter idle (cp_entries p)) → off_inv m'.
Proof.
  intros [H1 H2 H3 H4 H5 H6] -> Hp Ha Hids Hr He. split; try done. intros k b. unfold view. cbn [set_pool off_policy set_policy].
  rewrite cp_get_law by done. apply Hr.
Qed.

Lemma inv_same m m' :
  off_inv m → off_policy m' = off_policy m → free_list m' = free_list m → num_allocated_blocks m' = num_allocated_blocks m →
  off_num_blocks m' = off_num_blocks m → num_evictable m' = num_evictable m → off_inv m'.
Proof.
  intros [H1 H2 H3 H4 H5 H6] E1 E2 E3 E4 E5. unfold entries, view in *.
  split; unfold entries, view; rewrite ?E1, ?E2, ?E3, ?E4, ?E5; done.
Qed.

Lemma zlen_filter_cons (e : OffloadKey * BlockStatus) l :
  zlen (filter idle (e :: l)) = (if bs_ref_cnt e.2 =? 0 then 1 else 0) + zlen (filter idle l).
Proof.
  destruct (Z.eqb_spec (bs_ref_cnt e.2) 0).
  - rewrite filter_cons_True by done. rewrite zlen_cons. lia.
  - rewrite filter_cons_False by done. lia.
Qed.

Lemma filter_perm_zlen (l l' : list (OffloadKey * BlockStatus)) : l ≡ₚ l' → zlen (filter idle l) = zlen (filter idle l').
Proof. intros Hl. unfold zlen. by rewrite Hl. Qed.

Lemma policy_update p k b b' :
  cp_ok p → cp_get p k = Some b → ∀ k', cp_get (cp_update p k b') k' = if decide (k' = k) then Some b' else cp_get p k'.
Proof.
  intros Hp Hk k'. destruct (cp_update_law p k b b' Hp Hk) as [Hok Hperm]. pose proof (cp_nodup _ Hp) as Hnd.
  rewrite !cp_get_law by done. rewrite (od_get_perm _ ((k, b') :: od_del (cp_entries p) k)); [|by apply cp_nodup|done].
  cbn [od_get]. case_decide; [done|]. rewrite od_get_del by done. by rewrite decide_False.
Qed.

(** The reference count of one block changes. *)
Lemma update_ref m k b n :
  off_inv m → view m k = Some b → -1 ≤ n < 2 ^ 31 →
  let m' := set_policy (cp_update (off_policy m) k (set_ref_cnt n b))
    (num_evictable m + (if n =? 0 then 1 else 0) - (if bs_ref_cnt b =? 0 then 1 else 0)) m in
  off_inv m' ∧ ∀ k', view m' k' = if decide (k' = k) then Some (mkStatus n (bs_block_id b)) else view m k'.
Proof.
  intros Hinv Hk Hn m'. pose proof (view_perm m k b Hinv Hk) as Hperm. destruct (Hinv) as [H1 H2 H3 H4 H5 H6].
  assert (Hs : set_ref_cnt n b = mkStatus n (bs_block_id b)) by (unfold set_ref_cnt; by rewrite c_int_id by lia).
  destruct (cp_update_law (off_policy m) k b (set_ref_cnt n b) H1 Hk) as [Hok Hp]. rewrite Hs in *.
  assert (Hview : ∀ k', view m' k' = if decide (k' = k) then Some (mkStatus n (bs_block_id b)) else view m k').
  { intros k'. unfold view, m'. cbn [off_policy set_policy]. rewrite Hs. by apply (policy_update _ _ b). }
  split; [|done]. split; unfold m'; cbn [set_policy off_policy num_allocated_blocks off_num_blocks free_list num_evictable];
    rewrite ?Hs; try done.
  - unfold entries in *. cbn [off_policy set_policy]. rewrite Hp. rewrite Hperm in H4. done.
  - intros k' b'. rewrite <-Hs. change (view m' k' = Some b' → -1 ≤ bs_ref_cnt b' < 2 ^ 31). rewrite Hview.
    case_decide; [intros [= <-]; simpl; lia|apply H5].
  - unfold entries in *. cbn [off_policy set_policy]. rewrite (filter_perm_zlen _ _ Hp), zlen_filter_cons. cbn [snd bs_ref_cnt].
    rewrite H6, (filter_perm_zlen _ _ Hperm), zlen_filter_cons. cbn [snd]. lia.
Qed.

(** ** Loads *)

Lemma load_one_spec m ids k b :
  off_inv m → view m k = Some b → 0 ≤ bs_ref_cnt b → bs_ref_cnt b + 1 < 2 ^ 31 →
  ∃ m', load_one (m, ids) k = Ok (m', ids ++ [bs_block_id b]) ∧ off_inv m' ∧ free_list m' = free_list m ∧
    ∀ k', view m' k' = if decide (k' = k) then Some (mkStatus (bs_ref_cnt b + 1) (bs_block_id b)) else view m k'.
Proof.
  intros Hinv Hk Hr Hfit. destruct (update_ref m k b (bs_ref_cnt b + 1) Hinv Hk ltac:(lia)) as [Hinv' Hv].
  rewrite (proj2 (Z.eqb_neq (bs_ref_cnt b + 1) 0)) in Hinv', Hv by lia.
  unfold load_one. unfold view in Hk. rewrite Hk. cbn [mbind result_bind]. unfold is_ready.
  rewrite (proj2 (Z.leb_le 0 (bs_ref_cnt b))) by done. cbn [py_assert mbind result_bind].
  assert (Hpos : (if bs_ref_cnt b =? 0 then 0 <=? (if bs_ref_cnt b =? 0 then num_evictable m - 1 else num_evictable m) else true) = true).
  { destruct (Z.eqb_spec (bs_ref_cnt b) 0) as [E|]; [|done]. apply Z.leb_le. rewrite (oi_evictable _ Hinv).
    rewrite (filter_perm_zlen _ _ (view_perm m k b Hinv Hk)), zlen_filter_cons. cbn [snd]. rewrite E. cbn [Z.eqb].
    pose proof (zlen_nonneg (filter idle (od_del (entries m) k))). lia. }
  rewrite Hpos. cbn [py_assert mbind result_bind]. eexists. split; [done|].
  replace (if bs_ref_cnt b =? 0 then num_evictable m - 1 else num_evictable m)
    with (num_evictable m + 0 - (if bs_ref_cnt b =? 0 then 1 else 0)) by (destruct (_ =? 0); lia).
  done.
Qed.

Lemma unload_one_spec m k b :
  off_inv m → view m k = Some b → 0 < bs_ref_cnt b →
  ∃ m', unload_one m k = Ok m' ∧ off_inv m' ∧ free_list m' = free_list m ∧
    ∀ k', view m' k' = if decide (k' = k) then Some (mkStatus (bs_ref_cnt b - 1) (bs_block_id b)) else view m k'.
Proof.
  intros Hinv Hk Hr. pose proof (oi_refs _ Hinv _ _ Hk).
  destruct (update_ref m k b (bs_ref_cnt b - 1) Hinv Hk ltac:(lia)) as [Hinv' Hv].
  rewrite (proj2 (Z.eqb_neq (bs_ref_cnt b) 0)) in Hinv', Hv by lia.
  unfold unload_one. unfold view in Hk. rewrite Hk. rewrite (proj2 (Z.ltb_lt 0 (bs_ref_cnt b))) by done.
  cbn [py_assert mbind result_bind]. eexists. split; [done|]. cbn [set_ref_cnt bs_ref_cnt].
  rewrite (c_int_id 32 (bs_ref_cnt b - 1)) by lia.
  replace (if bs_ref_cnt b - 1 =? 0 then num_evictable m + 1 else num_evictable m)
    with (num_evictable m + (if bs_ref_cnt b - 1 =? 0 then 1 else 0) - 0) by (destruct (_ =? 0); lia).
  done.
Qed.

(** ** Eviction *)

Lemma off_touch_spec m keys :
  off_inv m → off_inv (off_touch m keys) ∧ ∀ k, view (off_touch m keys) k = view m k.
Proof.
  intros Hinv. destruct (Hinv) as [H1 H2 H3 H4 H5 H6]. destruct (cp_touch_law (off_policy m) keys H1) as [Hok Hp].
  assert (Hv : ∀ k, view (off_touch m keys) k = view m k).
  { intros k. unfold view. cbn [off_touch set_policy off_policy]. rewrite !cp_get_law by done.
    apply od_get_perm; [by apply cp_nodup|done]. }
  split; [|done]. split; unfold entries in *; cbn [off_touch set_policy off_policy num_allocated_blocks off_num_blocks free_list num_evictable];
    try done.
  - by rewrite Hp.
  - intros k b. rewrite Hv. apply H5.
  - by rewrite (filter_perm_zlen _ _ Hp).
Qed.

Lemma free_blocks_fold m (l : list (OffloadKey * BlockStatus)) :
  foldl (λ m e, _free_block e.2 m) m l = set_pool (num_allocated_blocks m) (free_list m ++ (id_of <$> l)) m.
Proof.
  revert m. induction l as [|e l IH]; intros m; cbn [foldl fmap list_fmap]; [rewrite app_nil_r; by destruct m|].
  rewrite IH. unfold _free_block, set_pool. cbn. by rewrite <-(assoc_L (++)).
Qed.

Lemma zlen_filter_app (l l' : list (OffloadKey * BlockStatus)) :
  zlen (filter idle (l ++ l')) = zlen (filter idle l) + zlen (filter idle l').
Proof. by rewrite filter_app, zlen_app. Qed.

Lemma evictable_idle protected e : evictable protected e → bs_ref_cnt e.2 = 0 ∧ e.1 ∉ protected.
Proof.
  unfold evictable. intros [H1 H2]%andb_True. split; [by apply Z.eqb_eq, Is_true_true|].
  intros Hin. by rewrite bool_decide_eq_true_2 in H2.
Qed.

(** Removing a list of entries. *)
Lemma view_removed (p p' : P) (l : list (OffloadKey * BlockStatus)) k :
  cp_ok p → cp_ok p' → cp_entries p ≡ₚ l ++ cp_entries p' →
  cp_get p' k = if decide (k ∈ l.*1) then None else cp_get p k.
Proof.
  intros Hp Hp' Hperm. pose proof (cp_nodup _ Hp) as Hnd. rewrite !cp_get_law by done.
  rewrite (od_get_perm (cp_entries p) _ k Hnd Hperm), od_get_app. rewrite Hperm, fmap_app in Hnd.
  apply NoDup_app in Hnd as (_ & Hd & _). case_decide as Hk.
  - apply od_get_None. by apply Hd.
  - apply od_get_None in Hk. by rewrite Hk.
Qed.

(** What making room does: nothing, or it frees idle blocks that are not protected. *)
Definition room_made m (n : Z) (protected : list OffloadKey) (r : option (list OffloadKey)) m' : Prop :=
  num_allocated_blocks m' = num_allocated_blocks m ∧ off_num_blocks m' = off_num_blocks m ∧
  match r with
  | None => 0 < n ∧ free_list m' = free_list m ∧ ∀ k, view m' k = view m k
  | Some evicted =>
      zlen evicted = Z.max 0 n ∧ NoDup evicted ∧ zlen (free_list m') = zlen (free_list m) + Z.max 0 n ∧
      (∀ k, k ∈ evicted → k ∉ protected ∧ ∃ b, view m k = Some b ∧ bs_ref_cnt b = 0) ∧
      ∀ k, view m' k = if decide (k ∈ evicted) then None else view m k
  end.

Lemma make_room_spec m n protected :
  off_inv m → ∃ r m', make_room m n protected = Ok (r, m') ∧ off_inv m' ∧ room_made m n protected r m'.
Proof.
  intros Hinv. destruct (Hinv) as [H1 H2 H3 H4 H5 H6]. unfold make_room. destruct (Z.leb_spec n 0) as [Hn|Hn].
  { do 2 eexists. split; [done|]. split; [done|]. split; [done|]. split; [done|].
    rewrite zlen_nil. split_and!; [lia|constructor|lia|by intros k ?%elem_of_nil|]. intros k. by rewrite decide_False by apply not_elem_of_nil. }
  destruct (Z.ltb_spec (num_evictable m) n); [by do 2 eexists|].
  pose proof (cp_evict_law (off_policy m) n protected H1 Hn) as Hev.
  destruct (cp_evict (off_policy m) n protected) as [[l|] p]; [|subst p; do 2 eexists; split; [done|]; by destruct m].
  destruct Hev as (Hok & Hl & Hall & Hperm). cbn [num_evictable set_policy].
  rewrite (proj2 (Z.leb_le 0 (num_evictable m - zlen l))) by lia. cbn [py_assert mbind result_bind].
  do 2 eexists. split; [done|]. rewrite free_blocks_fold. cbn [set_policy num_allocated_blocks free_list].
  assert (Hidle : ∀ e, e ∈ l → bs_ref_cnt e.2 = 0 ∧ e.1 ∉ protected).
  { intros e He. eapply evictable_idle. by apply (proj1 (Forall_forall _ _) Hall). }
  pose proof (cp_nodup _ H1) as Hnd. rewrite Hperm, fmap_app in Hnd. split.
  - eapply inv_intro; [done|done|done|done| | |].
    + rewrite <-H4. unfold entries. rewrite Hperm, fmap_app. solve_Permutation.
    + intros k b Hk. apply (H5 k). unfold view. rewrite cp_get_law, (od_get_perm _ _ k (cp_nodup _ H1) Hperm), od_get_app by done.
      apply NoDup_app in Hnd as (_ & Hd & _). destruct (od_get l k) eqn:E; [|done].
      destruct (Hd k); [apply od_get_key; by eexists|]. apply od_get_key. by eexists.
    + rewrite H6. unfold entries. rewrite (filter_perm_zlen _ _ Hperm), zlen_filter_app.
      rewrite (filter_all _ l) by (intros; by apply Hidle). lia.
  - split; [done|]. split; [done|]. cbn [free_list set_pool]. rewrite zlen_app, !zlen_fmap, Hl. split_and!; [lia| |lia| |].
    + by apply NoDup_app in Hnd as (? & _).
    + intros k ([k' b] & -> & Hkb)%list_elem_of_fmap. destruct (Hidle _ Hkb) as [Hr Hp]. split; [done|].
      exists b. split; [|done]. unfold view. rewrite cp_get_law by done. apply od_get_elem; [by apply cp_nodup|].
      rewrite Hperm. apply elem_of_app. by left.
    + intros k. by apply view_removed.
Qed.

(** ** Stores *)

Lemma zlen_py_range a b : a ≤ b → zlen (py_range a b) = b - a.
Proof. intros. unfold zlen, py_range. rewrite length_fmap, length_seq. lia. Qed.

Lemma NoDup_range a b : NoDup (py_range a b).
Proof. unfold py_range. apply NoDup_fmap_2; [intros ???; lia|apply NoDup_seq]. Qed.

(** New blocks: distinct ids that are neither cached nor free afterwards. *)
Lemma off_allocate_spec m keys :
  off_inv m → zlen keys ≤ _get_num_free_blocks m →
  ∃ ids m', _allocate_blocks m keys = Ok (mkStatus (-1) <$> ids, m') ∧ length ids = length keys ∧
    num_allocated_blocks m ≤ num_allocated_blocks m' ≤ off_num_blocks m ∧
    m' = set_pool (num_allocated_blocks m') (free_list m') m ∧
    (id_of <$> entries m) ++ ids ++ free_list m' ≡ₚ py_range 0 (num_allocated_blocks m').
Proof.
  intros [H1 H2 H3 H4 H5 H6] Hk. unfold _get_num_free_blocks in Hk. unfold _allocate_blocks.
  set (n := Z.min (zlen keys) (off_num_blocks m - num_allocated_blocks m)). set (q := zlen keys - n).
  assert (0 ≤ n ∧ 0 ≤ q ≤ zlen (free_list m)) as [Hn Hq] by (unfold q, n; pose proof (zlen_nonneg keys); pose proof (zlen_nonneg (free_list m)); lia).
  rewrite (proj2 (Z.leb_le q _)) by lia. cbn [py_assert mbind result_bind].
  rewrite take_reverse. set (f := num_allocated_blocks m) in *.
  set (ids := py_range f (f + n) ++ reverse (drop (length (free_list m) - Z.to_nat q) (free_list m))).
  assert (Hfree : free_list m ≡ₚ drop (length (free_list m) - Z.to_nat q) (free_list m) ++
                     take (length (free_list m) - Z.to_nat q) (free_list m)) by (rewrite (comm (++)), take_drop; done).
  assert (Hperm : (id_of <$> entries m) ++ ids ++ take (length (free_list m) - Z.to_nat q) (free_list m) ≡ₚ py_range 0 (f + n)).
  { rewrite (py_range_app 0 f) by lia. rewrite <-H4. unfold ids. rewrite reverse_Permutation.
    revert Hfree. generalize (drop (length (free_list m) - Z.to_nat q) (free_list m)) as l1.
    generalize (take (length (free_list m) - Z.to_nat q) (free_list m)) as l2. intros l2 l1 ->. solve_Permutation. }
  assert (Hst : new_status <$> ids = mkStatus (-1) <$> ids).
  { apply list_fmap_ext. intros i x Hx. unfold new_status. rewrite (c_int_id 32) by lia. rewrite c_int_id; [done|lia|].
    apply list_elem_of_lookup_2 in Hx. assert (Hin : x ∈ py_range 0 (f + n)) by (rewrite <-Hperm; set_solver +Hx).
    apply elem_of_py_range in Hin. unfold n, f in *. lia. }
  rewrite Hst. exists ids. eexists. split; [done|]. cbn [set_pool num_allocated_blocks free_list].
  rewrite zlen_py_range by lia. split_and!; [|lia|unfold n; lia|done|].
  - unfold ids. clear Hst Hperm Hfree. rewrite length_app, length_reverse, length_drop. pose proof (zlen_py_range f (f + n) ltac:(lia)).
    assert (zlen keys = n + q) by (unfold q; lia). clear ids. clearbody q n. unfold zlen in *. lia.
  - replace (f + (f + n - f)) with (f + n) by lia. done.
Qed.

Lemma insert_all_spec (p : P) kbs :
  cp_ok p → NoDup kbs.*1 → (∀ k, k ∈ kbs.*1 → cp_get p k = None) →
  let p' := foldl (λ p kb, cp_insert p kb.1 kb.2) p kbs in
  cp_ok p' ∧ cp_entries p' ≡ₚ kbs ++ cp_entries p.
Proof.
  revert p. induction kbs as [|[k b] kbs IH]; intros p Hp Hnd Hnew; [done|]. cbn [foldl fst snd].
  rewrite fmap_cons in Hnd, Hnew. apply NoDup_cons in Hnd as [Hk Hnd].
  destruct (cp_insert_law p k b Hp) as [Hok Hperm]; [apply Hnew; by left|].
  destruct (IH (cp_insert p k b) Hok Hnd) as [Hok' Hperm'].
  - intros k' Hk'. rewrite cp_get_law, (od_get_perm _ _ _ (cp_nodup _ Hok) Hperm) by done. cbn [od_get].
    rewrite decide_False by (intros ->; done). rewrite <-cp_get_law by done. apply Hnew. by right.
  - split; [done|]. cbv zeta in *. rewrite Hperm', Hperm. symmetry. apply Permutation_middle.
Qed.

(** The key was looked up often enough to be stored; always, when lookups are not
    counted. *)
Definition seen_enough m (k : OffloadKey) : Prop :=
  match counts m with None => True | Some c => store_threshold m ≤ default 0 (od_get c k) end.

#[export] Instance seen_enough_dec m k : Decision (seen_enough m k).
Proof. unfold seen_enough. destruct (counts m); apply _. Defined.

(** The keys a store would write. *)
Definition wanted m (keys : list OffloadKey) : list OffloadKey :=
  filter (λ k, view m k = None) (filter (λ k, seen_enough m k) keys).

Lemma count_filter_seen m keys : (count_filter m keys).1 = filter (λ k, seen_enough m k) keys.
Proof.
  unfold count_filter. destruct (counts m) as [c|] eqn:E; cbn [fst].
  - apply list_filter_iff. intros k. unfold seen_enough. by rewrite E.
  - symmetry. induction keys as [|k keys IH]; [done|]. rewrite filter_cons_True; [by rewrite IH|]. unfold seen_enough. by rewrite E.
Qed.

Lemma count_filter_frame m keys :
  let '(kept, m') := count_filter m keys in
  kept `sublist_of` keys ∧ off_policy m' = off_policy m ∧ free_list m' = free_list m ∧
  num_allocated_blocks m' = num_allocated_blocks m ∧ off_num_blocks m' = off_num_blocks m ∧
  num_evictable m' = num_evictable m.
Proof. unfold count_filter. destruct (counts m); [split_and!; try done; apply sublist_filter|done]. Qed.

(** What a store reports: refused without any change, or the keys that are not
    cached and were seen often enough get distinct new blocks, at the cost of idle
    blocks of other keys, or of keys of the call that were not seen often enough. *)
Definition stored m (keys : list OffloadKey) (r : option PrepareStoreOutput) m' : Prop :=
  match r with
  | None => _get_num_free_blocks m < zlen (wanted m keys) ∧ free_list m' = free_list m ∧ ∀ k, view m' k = view m k
  | Some out =>
      keys_to_store out = wanted m keys ∧ length (store_spec out) = length (wanted m keys) ∧ NoDup (store_spec out) ∧
      (∀ i k id, wanted m keys !! i = Some k → store_spec out !! i = Some id → view m' k = Some (mkStatus (-1) id)) ∧
      zlen (evicted_keys out) = Z.max 0 (zlen (wanted m keys) - _get_num_free_blocks m) ∧ NoDup (evicted_keys out) ∧
      (∀ k, k ∈ evicted_keys out → (k ∈ keys → ¬ seen_enough m k) ∧ view m' k = None ∧
         ∃ b, view m k = Some b ∧ bs_ref_cnt b = 0) ∧
      ∀ k, k ∉ wanted m keys → k ∉ evicted_keys out → view m' k = view m k
  end.

Lemma od_get_zip (ks : list OffloadKey) (bs : list BlockStatus) i k b :
  NoDup ks → ks !! i = Some k → bs !! i = Some b → od_get (zip ks bs) k = Some b.
Proof.
  revert bs i. induction ks as [|k' ks IH]; intros [|b' bs] [|i] Hnd Hk Hb; try done; cbn [zip zip_with od_get];
    apply NoDup_cons in Hnd as [Hk' Hnd].
  - injection Hk as ->. injection Hb as ->. by rewrite decide_True.
  - cbn in Hk, Hb. rewrite decide_False; [by eapply IH|]. intros ->. apply Hk'. by eapply list_elem_of_lookup_2.
Qed.

(** The blocks are entered: the state after the room has been made. *)
Lemma fill_spec m ks ids allocated free :
  off_inv m → NoDup ks → (∀ k, k ∈ ks → view m k = None) → length ids = length ks →
  0 ≤ allocated ≤ off_num_blocks m → (id_of <$> entries m) ++ ids ++ free ≡ₚ py_range 0 allocated →
  let m' := set_policy (foldl (λ p kb, cp_insert p kb.1 kb.2) (off_policy m) (zip ks (mkStatus (-1) <$> ids)))
              (num_evictable m) (set_pool allocated free m) in
  off_inv m' ∧ NoDup ids ∧ (∀ i k id, ks !! i = Some k → ids !! i = Some id → view m' k = Some (mkStatus (-1) id)) ∧
  ∀ k, k ∉ ks → view m' k = view m k.
Proof.
  intros Hinv Hks Hnew Hlen Ha Hids m'. destruct (Hinv) as [H1 H2 H3 H4 H5 H6].
  set (kbs := zip ks (mkStatus (-1) <$> ids)). assert (Hk1 : kbs.*1 = ks) by (apply fst_zip; rewrite length_fmap; lia).
  destruct (insert_all_spec (off_policy m) kbs H1) as [Hok Hp]; [by rewrite Hk1|rewrite Hk1; exact Hnew|].
  cbv zeta in *. set (p1 := foldl _ (off_policy m) kbs) in *. assert (Hv : ∀ k, view m' k = match od_get kbs k with Some b => Some b | None => view m k end).
  { intros k. unfold view, m'. cbn [set_policy off_policy]. change (foldl _ _ _) with p1. rewrite !cp_get_law by done.
    rewrite (od_get_perm _ _ k (cp_nodup _ Hok) Hp). apply od_get_app. }
  assert (Hkb : ∀ k b, od_get kbs k = Some b → bs_ref_cnt b = -1).
  { intros k b Hb. apply od_get_elem in Hb; [|by rewrite Hk1]. apply elem_of_zip_r, list_elem_of_fmap in Hb as (id & -> & _). done. }
  assert (Hid : (id_of <$> kbs) = ids).
  { change (id_of <$> kbs) with ((bs_block_id ∘ snd) <$> kbs). rewrite list_fmap_compose. unfold kbs.
    rewrite snd_zip by (rewrite length_fmap; lia). rewrite <-list_fmap_compose. apply list_fmap_id. }
  split; [|split; [|split]].
  - eapply (inv_intro m p1 free allocated (num_evictable m)); [done|done|done|done| | |].
    + rewrite Hp, fmap_app, Hid, <-Hids. unfold entries. solve_Permutation.
    + intros k b Hb. assert (Hb' : view m' k = Some b) by (unfold view; change (off_policy m') with p1; rewrite cp_get_law; done).
      rewrite Hv in Hb'. destruct (od_get kbs k) as [b'|] eqn:E; [injection Hb' as ->; rewrite (Hkb _ _ E); lia|by eapply H5].
    + rewrite H6. unfold entries. rewrite (filter_perm_zlen _ _ Hp), zlen_filter_app.
      assert (Hnone : filter idle kbs = []).
      { apply filter_none. intros [k b] Hkb' Hz. apply elem_of_zip_r, list_elem_of_fmap in Hkb' as (id & -> & _). done. }
      unfold zlen. rewrite Hnone. done.
  - assert (Hnd : NoDup ((id_of <$> entries m) ++ ids ++ free)) by (rewrite Hids; apply NoDup_range).
    by apply NoDup_app in Hnd as (_ & _ & (? & _)%NoDup_app).
  - intros i k id Hk Hi. rewrite Hv. unfold kbs. erewrite od_get_zip; [done|done|exact Hk|]. by rewrite list_lookup_fmap, Hi.
  - intros k Hk. rewrite Hv. destruct (od_get kbs k) eqn:E; [|done]. destruct Hk. rewrite <-Hk1. apply od_get_key. by eexists.
Qed.

Lemma free_nonneg m : off_inv m → 0 ≤ _get_num_free_blocks m.
Proof. intros [_ H _ _ _ _]. unfold _get_num_free_blocks. pose proof (zlen_nonneg (free_list m)). lia. Qed.

(** The second half of a store, once there is room. *)
Lemma store_room m ks evicted :
  off_inv m → NoDup ks → (∀ k, k ∈ ks → view m k = None) → zlen ks ≤ _get_num_free_blocks m →
  ∃ ids m', ('(blocks, m1) ← _allocate_blocks m ks;
     _ ← py_assert (bool_decide (length blocks = length ks));
     let m1 := set_policy (foldl (λ p kb, cp_insert p kb.1 kb.2) (off_policy m1) (zip ks blocks)) (num_evictable m1) m1 in
     Ok (Some (mkStoreOut ks (bs_block_id <$> blocks) evicted), m1)) = Ok (Some (mkStoreOut ks ids evicted), m') ∧
    off_inv m' ∧ length ids = length ks ∧ NoDup ids ∧
    (∀ i k id, ks !! i = Some k → ids !! i = Some id → view m' k = Some (mkStatus (-1) id)) ∧
    ∀ k, k ∉ ks → view m' k = view m k.
Proof.
  intros Hinv Hks Hnew Hfit. destruct (off_allocate_spec m ks Hinv Hfit) as (ids & m1 & -> & Hlen & Ha & Hm1 & Hids).
  cbn [mbind result_bind]. rewrite length_fmap, Hlen, bool_decide_eq_true_2 by done. cbn [py_assert mbind result_bind].
  pose proof (oi_pool _ Hinv).
  destruct (fill_spec m ks ids _ _ Hinv Hks Hnew Hlen ltac:(split; [|apply Ha]; lia) Hids) as (Hinv' & Hnd & Hv & Hv').
  exists ids. eexists. split; [|by split_and!]. f_equal. f_equal; [|by rewrite Hm1 at 1 2 3].
  f_equal. f_equal. rewrite <-list_fmap_compose. apply list_fmap_id.
Qed.

Lemma prepare_store_spec m keys :
  off_inv m → NoDup keys → ∃ r m', prepare_store m keys = Ok (r, m') ∧ off_inv m' ∧ stored m keys r m'.
Proof.
  intros Hinv Hnd. pose proof (count_filter_frame m keys) as Hf. pose proof (count_filter_seen m keys) as Hseen.
  unfold prepare_store, stored, wanted. rewrite <-Hseen.
  destruct (count_filter m keys) as [kept m1]. cbn [fst] in *. destruct Hf as (Hsub & E1 & E2 & E3 & E4 & E5).
  assert (Hinv1 : off_inv m1) by (by apply (inv_same m)). rewrite E1.
  change (filter (λ k, cp_get (off_policy m) k = None) kept) with (filter (λ k, view m k = None) kept).
  assert (Hfree : _get_num_free_blocks m1 = _get_num_free_blocks m) by (unfold _get_num_free_blocks; by rewrite E2, E3, E4).
  assert (Hv1 : ∀ k, view m1 k = view m k) by (intros; unfold view; by rewrite E1). rewrite Hfree.
  destruct (filter (λ k, view m k = None) kept) as [|w ws] eqn:Ew.
  { do 2 eexists. split; [done|]. split; [done|]. pose proof (free_nonneg m Hinv). cbn [keys_to_store store_spec evicted_keys].
    split_and!; try done; [constructor|rewrite !zlen_nil; lia|constructor|by intros k ?%elem_of_nil]. }
  set (ks := w :: ws) in *. assert (Hks : NoDup ks).
  { rewrite <-Ew. apply NoDup_filter. by eapply sublist_NoDup. }
  assert (Hnew : ∀ k, k ∈ ks → view m k = None) by (intros k; rewrite <-Ew, list_elem_of_filter; tauto).
  destruct (make_room_spec m1 (zlen ks - _get_num_free_blocks m) kept Hinv1) as (r & m2 & -> & Hinv2 & Hal & Hnb & Hroom).
  cbn [mbind result_bind]. destruct r as [evicted|]; last first.
  { do 2 eexists. split; [done|]. split; [done|]. destruct Hroom as (? & Hfr & Hv). split; [lia|]. split; [by rewrite Hfr|].
    intros k. by rewrite Hv. }
  destruct Hroom as (Hlen & Hndev & Hfl & Hev & Hv2).
  set (m3 := match evicted with [] => m2 | _ => note_event (mkOffEvent evicted "CPU" true) m2 end).
  assert (off_policy m3 = off_policy m2 ∧ free_list m3 = free_list m2 ∧ num_allocated_blocks m3 = num_allocated_blocks m2 ∧
          off_num_blocks m3 = off_num_blocks m2 ∧ num_evictable m3 = num_evictable m2) as (F1 & F2 & F3 & F4 & F5)
    by (unfold m3; by destruct evicted).
  assert (Hinv3 : off_inv m3) by (by apply (inv_same m2)).
  assert (Hv3 : ∀ k, view m3 k = if decide (k ∈ evicted) then None else view m k).
  { intros k. rewrite <-Hv1, <-Hv2. unfold view. by rewrite F1. }
  destruct (store_room m3 ks evicted Hinv3 Hks) as (ids & m' & E & Hinv' & Hl & Hndi & Hi & Ho).
  { intros k Hk. rewrite Hv3. case_decide; [done|]. by apply Hnew. }
  { clear E5 F5. unfold _get_num_free_blocks in *. rewrite F2, F3, F4, Hfl, Hal, Hnb, E2, E3, E4. lia. }
  do 2 eexists. split; [exact E|]. split; [done|]. cbn [keys_to_store store_spec evicted_keys]. split_and!; try done.
  - intros k Hk. destruct (Hev k Hk) as (Hp & b & Hb & Hr). rewrite Hv1 in Hb. split.
    { intros Hin Hs. apply Hp. rewrite Hseen. by apply list_elem_of_filter. }
    split; [|by exists b].
    rewrite Ho; [rewrite Hv3; by rewrite decide_True|]. intros Hin%Hnew. congruence.
  - intros k Hk He. rewrite Ho by done. rewrite Hv3. by rewrite decide_False.
Qed.

(** A block after its write has ended. *)
Definition settled (b : BlockStatus) : BlockStatus := if is_ready b then b else mkStatus 0 (bs_block_id b).

Lemma store_done_spec m acc k :
  off_inv m → let m' := (store_done (m, acc) k).1 in
  off_inv m' ∧ ∀ k', view m' k' = if decide (k' = k) then settled <$> view m k else view m k'.
Proof.
  intros Hinv. cbn [store_done]. change (cp_get (off_policy m) k) with (view m k).
  destruct (view m k) as [b|] eqn:Hk; [|split; [done|]; intros k'; case_decide; by subst].
  unfold settled. cbn [fmap option_fmap option_map]. destruct (is_ready b) eqn:Hr; cbn [negb fst].
  - split; [done|]. intros k'. case_decide; by subst.
  - destruct (update_ref m k b 0 Hinv Hk ltac:(lia)) as [Hinv' Hv]. unfold is_ready in Hr. apply Z.leb_gt in Hr.
    rewrite (proj2 (Z.eqb_neq (bs_ref_cnt b) 0)) in Hinv', Hv by lia. cbn [Z.eqb] in *.
    replace (num_evictable m + 1) with (num_evictable m + 1 - 0) by lia. done.
Qed.

Lemma stores_done_spec m acc keys :
  off_inv m → let m' := (foldl store_done (m, acc) keys).1 in
  off_inv m' ∧ ∀ k, view m' k = if decide (k ∈ keys) then settled <$> view m k else view m k.
Proof.
  revert m acc. induction keys as [|k keys IH]; intros m acc Hinv; cbn [foldl].
  - split; [done|]. intros k. by rewrite decide_False by apply not_elem_of_nil.
  - pose proof (store_done_spec m acc k Hinv) as H. destruct (store_done (m, acc) k) as [m1 acc1]. cbn [fst] in H.
    destruct H as [Hinv1 Hv1]. destruct (IH m1 acc1 Hinv1) as [Hinv' Hv']. split; [done|]. intros k'. cbv zeta in *.
    rewrite Hv', Hv1. assert (Hid : ∀ o : option BlockStatus, settled <$> (settled <$> o) = settled <$> o).
    { intros [b|]; [|done]. cbn. unfold settled. destruct (is_ready b) eqn:E; [by rewrite E|done]. }
    destruct (decide (k' = k)) as [->|Hne].
    + rewrite (decide_True (P := k ∈ k :: keys)) by left. case_decide; [apply Hid|done].
    + destruct (decide (k' ∈ keys)); [rewrite decide_True by (by right)|rewrite decide_False by (rewrite elem_of_cons; tauto)]; done.
Qed.

(** What is left of a block when its write has failed. *)
Definition ready_only (o : option BlockStatus) : option BlockStatus :=
  match o with Some b => if is_ready b then Some b else None | None => None end.

Lemma store_failed_spec m k :
  off_inv m → ∃ m', store_failed m k = Ok m' ∧ off_inv m' ∧
    ∀ k', view m' k' = if decide (k' = k) then ready_only (view m k) else view m k'.
Proof.
  intros Hinv. unfold store_failed. change (cp_get (off_policy m) k) with (view m k).
  destruct (view m k) as [b|] eqn:Hk; [|eexists; split; [done|]; split; [done|]; intros k'; case_decide; by subst].
  destruct (is_ready b) eqn:Hr; cbn [negb].
  { eexists. split; [done|]. split; [done|]. intros k'. case_decide; [|done]. subst. cbn [ready_only]. by rewrite Hr. }
  destruct (Hinv) as [H1 H2 H3 H4 H5 H6]. destruct (cp_remove_law (off_policy m) k b H1 Hk) as (p & -> & Hok & Hp).
  cbn [mbind result_bind]. eexists. split; [done|]. pose proof (view_perm m k b Hinv Hk) as Hperm.
  assert (Hv : ∀ k', cp_get p k' = if decide (k' = k) then None else view m k').
  { intros k'. rewrite cp_get_law, (od_get_perm _ _ k' (cp_nodup _ Hok) Hp) by done.
    rewrite od_get_del by (by apply cp_nodup). case_decide; [done|]. by rewrite view_entries. }
  split.
  - eapply (inv_intro m p (free_list m ++ [bs_block_id b]) (num_allocated_blocks m) (num_evictable m)); [done|done|done|done| | |].
    + rewrite Hp, <-H4. fold (entries m). rewrite Hperm at 2. cbn [fmap list_fmap snd]. solve_Permutation.
    + intros k' b'. rewrite <-cp_get_law by done. rewrite Hv. case_decide; [done|apply H5].
    + rewrite H6. rewrite (filter_perm_zlen _ _ Hp), (filter_perm_zlen _ _ Hperm), zlen_filter_cons. cbn [snd].
      unfold is_ready in Hr. apply Z.leb_gt in Hr. rewrite (proj2 (Z.eqb_neq (bs_ref_cnt b) 0)) by lia. done.
  - intros k'. unfold view at 1. cbn [_free_block set_pool set_policy off_policy]. rewrite Hv. case_decide; [|done]. cbn [ready_only]. by rewrite Hr.
Qed.

Lemma stores_failed_spec m keys :
  off_inv m → ∃ m', mfold store_failed m keys = Ok m' ∧ off_inv m' ∧
    ∀ k, view m' k = if decide (k ∈ keys) then ready_only (view m k) else view m k.
Proof.
  revert m. induction keys as [|k keys IH]; intros m Hinv; cbn [mfold].
  - eexists. split; [done|]. split; [done|]. intros k. by rewrite decide_False by apply not_elem_of_nil.
  - destruct (store_failed_spec m k Hinv) as (m1 & -> & Hinv1 & Hv1). cbn [mbind result_bind].
    destruct (IH m1 Hinv1) as (m' & -> & Hinv' & Hv'). eexists. split; [done|]. split; [done|]. intros k'.
    rewrite Hv', Hv1. destruct (decide (k' = k)) as [->|Hne].
    + rewrite (decide_True (P := k ∈ k :: keys)) by left. case_decide; [|done]. unfold ready_only. destruct (view m k) as [b|]; [|done].
      destruct (is_ready b) eqn:E; [by rewrite E|done].
    + destruct (decide (k' ∈ keys)); [rewrite decide_True by (by right)|rewrite decide_False by (rewrite elem_of_cons; tauto)]; done.
Qed.

(** ** Several loads *)

Definition key_count (k : OffloadKey) (keys : list OffloadKey) : Z := zlen (filter (λ k', k' = k) keys).

Lemma key_count_cons k k' keys : key_count k (k' :: keys) = (if decide (k' = k) then 1 else 0) + key_count k keys.
Proof.
  unfold key_count. destruct (decide (k' = k)).
  - rewrite filter_cons_True by done. rewrite zlen_cons. lia.
  - rewrite filter_cons_False by done. lia.
Qed.

Lemma key_count_bounds k keys : 0 ≤ key_count k keys ≤ zlen keys.
Proof. unfold key_count, zlen. pose proof (length_filter (λ k', k' = k) keys). lia. Qed.

(** A block with [n] more readers. *)
Definition add_refs (n : Z) (b : BlockStatus) : BlockStatus := mkStatus (bs_ref_cnt b + n) (bs_block_id b).

(** Counters stay below the limit of their width. *)
Definition refs_fit m (n : Z) : Prop := ∀ k b, view m k = Some b → bs_ref_cnt b + n < 2 ^ 31.

Lemma loads_spec m acc keys :
  off_inv m → refs_fit m (zlen keys) → (∀ k, k ∈ keys → ∃ b, view m k = Some b ∧ 0 ≤ bs_ref_cnt b) →
  ∃ m', mfold load_one (m, acc) keys = Ok (m', acc ++ omap (λ k, bs_block_id <$> view m k) keys) ∧ off_inv m' ∧
    free_list m' = free_list m ∧ ∀ k, view m' k = add_refs (key_count k keys) <$> view m k.
Proof.
  revert m acc. induction keys as [|k keys IH]; intros m acc Hinv Hfit Hall; cbn [mfold omap list_omap].
  - exists m. rewrite app_nil_r. split_and!; try done. intros k. destruct (view m k) as [[r i]|]; [|done]. cbn.
    unfold add_refs. cbn. do 2 f_equal. change (key_count k []) with 0. lia.
  - destruct (Hall k ltac:(by left)) as (b & Hb & Hr). rewrite zlen_cons in Hfit.
    pose proof (Hfit k b Hb) as Hk. pose proof (zlen_nonneg keys).
    destruct (load_one_spec m acc k b Hinv Hb Hr ltac:(lia)) as (m1 & -> & Hinv1 & Hf1 & Hv1). cbn [mbind result_bind].
    destruct (IH m1 (acc ++ [bs_block_id b]) Hinv1) as (m' & E & Hinv' & Hf' & Hv').
    + intros k' b'. rewrite Hv1. case_decide; [intros [= <-]; simpl; lia|]. intros Hb'%Hfit. lia.
    + intros k' Hk'. rewrite Hv1. case_decide; [eexists; split; [done|]; simpl; lia|]. apply Hall. by right.
    + exists m'. rewrite E, Hb. cbn [fmap option_fmap option_map]. split_and!; try done; [|congruence|].
      * rewrite <-(assoc_L (++)). cbn [app]. do 4 f_equal.
        clear -Hv1 Hb. induction keys as [|x keys IH]; [done|]. cbn [omap list_omap]. rewrite Hv1.
        destruct (decide (x = k)) as [->|]; [rewrite Hb; cbn; by rewrite IH|]. destruct (bs_block_id <$> view m x); by rewrite IH.
      * intros k'. rewrite Hv', Hv1, key_count_cons. destruct (decide (k' = k)) as [->|].
        { rewrite Hb, decide_True by done. cbn. unfold add_refs. cbn. do 2 f_equal. lia. }
        rewrite decide_False by done. by replace (0 + key_count k' keys) with (key_count k' keys) by lia.
Qed.

Lemma unloads_spec m keys :
  off_inv m → (∀ k, k ∈ keys → ∃ b, view m k = Some b ∧ key_count k keys ≤ bs_ref_cnt b) →
  ∃ m', complete_load m keys = Ok m' ∧ off_inv m' ∧ ∀ k, view m' k = add_refs (- key_count k keys) <$> view m k.
Proof.
  unfold complete_load. revert m. induction keys as [|k keys IH]; intros m Hinv Hall; cbn [mfold].
  - exists m. split_and!; try done. intros k. destruct (view m k) as [[r i]|]; [|done]. cbn.
    unfold add_refs. cbn. do 2 f_equal. change (key_count k []) with 0. lia.
  - destruct (Hall k ltac:(by left)) as (b & Hb & Hr). rewrite key_count_cons, decide_True in Hr by done.
    pose proof (key_count_bounds k keys).
    destruct (unload_one_spec m k b Hinv Hb ltac:(lia)) as (m1 & -> & Hinv1 & _ & Hv1). cbn [mbind result_bind].
    destruct (IH m1 Hinv1) as (m' & E & Hinv' & Hv').
    + intros k' Hk'. rewrite Hv1. case_decide as Ek; [subst; eexists; split; [done|]; simpl; lia|].
      destruct (Hall k' ltac:(by right)) as (b' & Hb' & Hr'). exists b'. split; [done|].
      rewrite key_count_cons, decide_False in Hr' by done. lia.
    + exists m'. rewrite E. split_and!; try done. intros k'. rewrite Hv', Hv1, key_count_cons. destruct (decide (k' = k)) as [->|].
      { rewrite Hb, decide_True by done. cbn. unfold add_refs. cbn. do 2 f_equal. lia. }
      rewrite decide_False by done. by replace (- (0 + key_count k' keys)) with (- key_count k' keys) by lia.
Qed.

Lemma reset_spec m : off_inv m → off_inv (reset_cache m) ∧ ∀ k, view (reset_cache m) k = None.
Proof.
  intros [H1 H2 H3 H4 H5 H6]. destruct (cp_clear_law _ H1) as [Hok He]. 
  assert (Hv : ∀ k, view (reset_cache m) k = None).
  { intros k. unfold view. cbn [reset_cache set_pool set_policy off_policy]. rewrite cp_get_law by done. by rewrite He. }
  split; [|done]. split; unfold entries; cbn [reset_cache set_pool set_policy off_policy num_allocated_blocks off_num_blocks free_list num_evictable];
    rewrite ?He; try done; [lia|]. intros k b. by rewrite Hv.
Qed.

Lemma lookup_spec m k r m' : off_inv m → off_lookup m k = Ok (r, m') →
  off_inv m' ∧ (∀ k', view m' k' = view m k') ∧
  r = match view m k with None => Some false | Some b => if is_ready b then Some true else None end.
Proof.
  intros Hinv H. unfold off_lookup in H. bind_inv H as m1 E.
  assert (off_inv m1 ∧ off_policy m1 = off_policy m) as [Hinv1 Hp].
  { unfold count_lookup in E. destruct (counts m) as [c|]; [|by injection E as <-].
    destruct (od_get c k); [injection E as <-; split; [by eapply inv_same|done]|].
    bind_inv E as c' Ec. injection E as <-. split; [by eapply inv_same|done]. }
  rewrite Hp in H. unfold view at 3. destruct (cp_get (off_policy m) k) as [b|]; injection H as <- <-;
    (split; [done|]); (split; [intros; unfold view; by rewrite Hp|]); [by destruct (is_ready b)|done].
Qed.

(** ** Every run *)

Inductive off_op :=
  | OLookup (k : OffloadKey)
  | OLoad (keys : list OffloadKey)
  | OLoaded (keys : list OffloadKey)
  | OTouch (keys : list OffloadKey)
  | OStore (keys : list OffloadKey)
  | OStored (keys : list OffloadKey) (success : bool)
  | OReset
  | OTake.

Definition off_step m (op : off_op) : result M :=
  match op with
  | OLookup k => '(_, m) ← off_lookup m k; Ok m
  | OLoad keys => '(_, m) ← prepare_load m keys; Ok m
  | OLoaded keys => complete_load m keys
  | OTouch keys => Ok (off_touch m keys)
  | OStore keys => '(_, m) ← prepare_store m keys; Ok m
  | OStored keys success => complete_store m keys success
  | OReset => Ok (reset_cache m)
  | OTake => Ok (take_events m).2
  end.

(** Keys are stored once per call, and fewer loads run than a counter can hold. *)
Definition op_fits m (op : off_op) : Prop :=
  match op with
  | OStore keys => NoDup keys
  | OLoad keys => refs_fit m (zlen keys)
  | _ => True
  end.

Inductive off_reach (n : Z) (events : bool) (threshold tracker : Z) : M → Prop :=
  | off_start : off_reach n events threshold tracker (init_offload n events threshold tracker)
  | off_next m op m' : off_reach n events threshold tracker m → op_fits m op → off_step m op = Ok m' →
      off_reach n events threshold tracker m'.

Lemma loads_ready m acc keys m' ids :
  mfold load_one (m, acc) keys = Ok (m', ids) → off_inv m → refs_fit m (zlen keys) →
  ∀ k, k ∈ keys → ∃ b, view m k = Some b ∧ 0 ≤ bs_ref_cnt b.
Proof.
  revert m acc. induction keys as [|k keys IH]; intros m acc H Hinv Hfit k' Hk'; [by apply elem_of_nil in Hk'|].
  cbn [mfold] in H. bind_inv H as [m1 acc1] E. pose proof E as E0. cbn [load_one] in E0.
  change (cp_get (off_policy m) k) with (view m k) in E0. destruct (view m k) as [b|] eqn:Hb; [|done]. bind_inv E0 as u Eu.
  apply py_assert_Ok in Eu. unfold is_ready in Eu. apply Z.leb_le in Eu. rewrite zlen_cons in Hfit.
  pose proof (Hfit k b Hb). pose proof (zlen_nonneg keys).
  destruct (load_one_spec m acc k b Hinv Hb Eu ltac:(lia)) as (m2 & E2 & Hinv2 & _ & Hv2).
  rewrite E in E2. injection E2 as -> ->. apply elem_of_cons in Hk' as [->|Hk']; [by exists b|].
  destruct (IH _ _ H Hinv2) with (k := k') as (b' & Hb' & Hr'); [|done|].
  - intros x y. rewrite Hv2. case_decide; [intros [= <-]; simpl; lia|]. intros Hy%Hfit. lia.
  - rewrite Hv2 in Hb'. case_decide; [subst; by exists b|by exists b'].
Qed.

Lemma unloads_ready m keys m' :
  complete_load m keys = Ok m' → off_inv m → ∀ k, k ∈ keys → ∃ b, view m k = Some b ∧ key_count k keys ≤ bs_ref_cnt b.
Proof.
  unfold complete_load. revert m. induction keys as [|k keys IH]; intros m H Hinv k' Hk'; [by apply elem_of_nil in Hk'|].
  cbn [mfold] in H. bind_inv H as m1 E. pose proof E as E0. unfold unload_one in E0.
  change (cp_get (off_policy m) k) with (view m k) in E0. destruct (view m k) as [b|] eqn:Hb; [|done]. bind_inv E0 as u Eu.
  apply py_assert_Ok, Z.ltb_lt in Eu.
  destruct (unload_one_spec m k b Hinv Hb Eu) as (m2 & E2 & Hinv2 & _ & Hv2). rewrite E in E2. injection E2 as <-.
  rewrite key_count_cons. pose proof (IH _ H Hinv2 k') as Hrest. rewrite Hv2 in Hrest.
  destruct (decide (k' = k)) as [->|Hne].
  - exists b. split; [done|]. rewrite decide_True by done. destruct (decide (k ∈ keys)) as [Hin|Hin].
    + destruct (Hrest Hin) as (b' & [= <-] & Hr). simpl in Hr. lia.
    + unfold key_count. rewrite filter_none by (intros x Hx ->; done). rewrite zlen_nil. lia.
  - rewrite decide_False by done. apply elem_of_cons in Hk' as [|Hk']; [done|]. destruct (Hrest Hk') as (b' & ? & ?).
    exists b'. split; [done|]. lia.
Qed.

(** What one step does to the cached blocks: the blocks that are read or written
    stay where they are. *)
Lemma off_step_spec m op m' :
  off_inv m → op_fits m op → off_step m op = Ok m' →
  off_inv m' ∧ ∀ k b, view m k = Some b → bs_ref_cnt b ≠ 0 →
    op ≠ OReset → (∀ keys, op = OStored keys false → k ∈ keys → is_ready b) →
    ∃ b', view m' k = Some b' ∧ bs_block_id b' = bs_block_id b.
Proof.
  intros Hinv Hfit H. destruct op as [k|keys|keys|keys|keys|keys success| |]; cbn [off_step op_fits] in H, Hfit.
  - bind_inv H as [r m1] E. injection H as <-. apply lookup_spec in E as (? & Hv & _); [|done]. split; [done|].
    intros k' b Hk _ _ _. rewrite Hv. by exists b.
  - bind_inv H as [ids m1] E. injection H as <-. unfold prepare_load in E. bind_inv E as [m2 ids2] E2. injection E as <- <-.
    destruct (loads_spec m [] keys Hinv Hfit (loads_ready _ _ _ _ _ E2 Hinv Hfit)) as (m3 & E3 & Hinv3 & _ & Hv).
    rewrite E2 in E3. injection E3 as -> _. split; [done|]. intros k b Hk _ _ _. rewrite Hv, Hk. by eexists.
  - destruct (unloads_spec m keys Hinv (unloads_ready _ _ _ H Hinv)) as (m1 & E & Hinv1 & Hv).
    rewrite H in E. injection E as ->. split; [done|]. intros k b Hk _ _ _. rewrite Hv, Hk. by eexists.
  - injection H as <-. destruct (off_touch_spec m keys Hinv) as [? Hv]. split; [done|]. intros k b Hk _ _ _. rewrite Hv. by exists b.
  - bind_inv H as [r m1] E. injection H as <-. destruct (prepare_store_spec m keys Hinv Hfit) as (r' & m2 & E2 & Hinv2 & Hs).
    rewrite E in E2. injection E2 as -> ->. split; [done|]. intros k b Hk Hr _ _. destruct r' as [out|]; cbn [stored] in Hs.
    + destruct Hs as (_ & _ & _ & _ & _ & _ & Hev & Hsame). rewrite Hsame; [by exists b| |].
      * unfold wanted. rewrite list_elem_of_filter. intros [? _]. congruence.
      * intros (_ & _ & b' & Hb' & ?)%Hev. congruence.
    + destruct Hs as (_ & _ & Hsame). rewrite Hsame. by exists b.
  - unfold complete_store in H. destruct success.
    + destruct (foldl store_done (m, []) keys) as [m1 st] eqn:E. pose proof (stores_done_spec m [] keys Hinv) as [Hinv1 Hv].
      rewrite E in Hinv1, Hv. cbn [fst] in Hinv1, Hv.
      assert (off_inv m' ∧ ∀ k, view m' k = view m1 k) as [Hinv' Hv'].
      { destruct st; injection H as <-; [done|]. split; [by eapply inv_same|done]. }
      split; [done|]. intros k b Hk _ _ _. rewrite Hv', Hv, Hk. case_decide; [|by exists b]. cbn. eexists. split; [done|].
      unfold settled. by destruct (is_ready b).
    + destruct (stores_failed_spec m keys Hinv) as (m1 & E & Hinv1 & Hv). rewrite H in E. injection E as ->. split; [done|].
      intros k b Hk _ _ Hrdy. rewrite Hv, Hk. case_decide as Hin; [|by exists b]. cbn.
      pose proof (Hrdy keys eq_refl Hin) as Hb. destruct (is_ready b); [by exists b|done].
  - injection H as <-. destruct (reset_spec m Hinv). split; [done|]. by intros.
  - injection H as <-. split; [by eapply inv_same|]. intros k b Hk _ _ _. by exists b.
Qed.

Lemma off_reach_inv n events threshold tracker m :
  0 ≤ n ≤ 2 ^ 63 → off_reach n events threshold tracker m → off_inv m.
Proof.
  intros Hn H. induction H as [|m op m' _ IH Hfit Hs]; [|by eapply off_step_spec].
  destruct (cp_init_law n ltac:(lia)) as [Hok He]. split; unfold entries, view; cbn [init_offload off_policy num_allocated_blocks
    off_num_blocks free_list num_evictable]; rewrite ?He; try done; try lia. intros k b. rewrite cp_get_law, He by done. done.
Qed.
(** After a store, all keys of the call that were seen often enough are cached, and
    those that were cached before are where they were. *)
Lemma stored_cached m keys out m' : stored m keys (Some out) m' → ∀ k, k ∈ keys → seen_enough m k →
  is_Some (view m' k) ∧ ∀ b, view m k = Some b → view m' k = Some b.
Proof.
  intros (_ & Hlen & _ & Hnew & _ & _ & Hev & Hsame) k Hk Hs. destruct (decide (k ∈ wanted m keys)) as [Hw|Hw].
  - pose proof Hw as [i Hi]%list_elem_of_lookup. destruct (lookup_lt_is_Some_2 (store_spec out) i) as [id Hid].
    { rewrite Hlen. by eapply lookup_lt_Some. }
    rewrite (Hnew i k id Hi Hid). split; [by eexists|]. intros b Hb. unfold wanted in Hw. apply list_elem_of_filter in Hw as [? _]. congruence.
  - rewrite Hsame; [|done|by intros Hin; apply (Hev k Hin)]. split; [|done].
    destruct (view m k) eqn:E; [by eexists|]. destruct Hw. unfold wanted. rewrite !list_elem_of_filter. done.
Qed.

(** Without a threshold lookups are never counted. *)
Lemma step_untracked m op m' : untracked m → off_step m op = Ok m' → untracked m'.
Proof.
  intros Hc. destruct op as [k|keys|keys|keys|keys|keys success| |]; cbn [off_step]; intros H.
  - destruct (untracked_lookup m k Hc) as [r E]. rewrite E in H. by injection H as <-.
  - bind_inv H as [ids m1] E. injection H as <-. by eapply untracked_load.
  - by eapply untracked_unload.
  - by injection H as <-.
  - bind_inv H as [r m1] E. injection H as <-. by eapply untracked_store.
  - by eapply untracked_stored.
  - by injection H as <-.
  - by injection H as <-.
Qed.

Lemma reach_untracked n events threshold tracker m :
  threshold < 2 → off_reach n events threshold tracker m → untracked m.
Proof.
  intros Ht H. induction H as [|m op m' _ IH _ Hs]; [|by eapply step_untracked].
  unfold untracked. cbn. by destruct (Z.leb_spec 2 threshold); [lia|].
Qed.
End facts.

(** ** The theorems *)

(** C25: Through every sequence of calls the CPU blocks are conserved: the free list
    and the cached blocks together are exactly the allocated blocks, each once;
    no two keys share a block and no cached block is free; and the counter of
    evictable blocks is the number of cached blocks nobody reads or writes. *)
Theorem offload_conserves {P} `{!CachePolicy P} `{!PolicyLaws P} n events threshold tracker (m : CPUOffloadingManager P) :
  0 ≤ n ≤ 2 ^ 63 → off_reach n events threshold tracker m →
  0 ≤ num_allocated_blocks m ≤ off_num_blocks m ∧ NoDup (free_list m) ∧
  (∀ id, id ∈ free_list m ∨ (∃ k b, view m k = Some b ∧ bs_block_id b = id) ↔ 0 ≤ id < num_allocated_blocks m) ∧
  (∀ k b, view m k = Some b → bs_block_id b ∉ free_list m) ∧
  (∀ k k' b b', view m k = Some b → view m k' = Some b' → bs_block_id b = bs_block_id b' → k = k') ∧
  num_evictable m = zlen (filter (λ e, bs_ref_cnt e.2 = 0) (entries m)).
Proof.
  intros Hn Hr. pose proof (off_reach_inv _ _ _ _ _ Hn Hr) as Hinv. destruct (Hinv) as [H1 H2 H3 H4 H5 H6].
  assert (Hin : ∀ k b, view m k = Some b → (k, b) ∈ entries m).
  { intros k b Hk. rewrite view_entries in Hk by done. apply od_get_elem in Hk; [done|]. by apply entries_nodup. }
  assert (Hnd : NoDup (((λ e, bs_block_id e.2) <$> entries m) ++ free_list m)) by (rewrite H4; apply NoDup_range).
  pose proof Hnd as (Hn1 & Hn2 & Hn3)%NoDup_app. split_and!; try done; try lia.
  - intros id. rewrite <-elem_of_py_range, <-H4, elem_of_app, list_elem_of_fmap. split.
    + intros [?|(k & b & Hk%Hin & <-)]; [by right|left]. by exists (k, b).
    + intros [([k b] & -> & Hk)|?]; [right|by left]. exists k, b. split; [|done]. rewrite view_entries by done. apply od_get_elem; [by apply entries_nodup|done].
  - intros k b Hk%Hin. apply Hn2. apply list_elem_of_fmap. by exists (k, b).
  - intros k k' b b' Hk%Hin Hk'%Hin Hid. apply list_elem_of_lookup in Hk as [i Hi], Hk' as [j Hj].
    assert (i = j) as ->; [|congruence].
    eapply (NoDup_lookup _ _ _ (bs_block_id b) Hn1); rewrite list_lookup_fmap; [by rewrite Hi|by rewrite Hj, Hid].
Qed.

(** C26: Preparing a store of distinct keys never fails: it is refused without any change when the
    blocks do not suffice, or exactly the keys that are not cached yet and were
    looked up often enough (with a threshold below two: all that are not cached)
    get new blocks, distinct and marked as not ready, and as many blocks are
    evicted as are missing, idle ones only; all other blocks stay as they are.
    The blocks evicted belong to keys outside the call or, with a threshold, to
    keys of the call that were not looked up often enough; so without a threshold
    every key of the call is cached afterwards, and one that was cached before is
    in the same block. *)
Theorem offload_store_correct {P} `{!CachePolicy P} `{!PolicyLaws P} n events threshold tracker (m : CPUOffloadingManager P) keys :
  0 ≤ n ≤ 2 ^ 63 → off_reach n events threshold tracker m → NoDup keys →
  ∃ r m', prepare_store m keys = Ok (r, m') ∧ stored m keys r m' ∧
    (threshold < 2 → is_Some r → ∀ k, k ∈ keys → is_Some (view m' k) ∧ ∀ b, view m k = Some b → view m' k = Some b).
Proof.
  intros Hn Hr Hk. destruct (prepare_store_spec m keys (off_reach_inv _ _ _ _ _ Hn Hr) Hk) as (r & m' & E & _ & Hs).
  exists r, m'. split; [done|]. split; [done|]. intros Ht [out ->] k Hin. eapply stored_cached; [exact Hs|done|].
  unfold seen_enough. by rewrite (reach_untracked _ _ _ _ _ Ht Hr).
Qed.

(** C27: A block that is being read or written keeps its place: no call but a reset
    and the failure of its own write takes it from its key. *)
Theorem offload_in_use_kept {P} `{!CachePolicy P} `{!PolicyLaws P} n events threshold tracker (m m' : CPUOffloadingManager P) op k b :
  0 ≤ n ≤ 2 ^ 63 → off_reach n events threshold tracker m → op_fits m op → off_step m op = Ok m' →
  view m k = Some b → bs_ref_cnt b ≠ 0 → op ≠ OReset → (∀ keys, op = OStored keys false → k ∈ keys → is_ready b) →
  ∃ b', view m' k = Some b' ∧ bs_block_id b' = bs_block_id b.
Proof.
  intros Hn Hr Hf Hs Hk Hb Ho Hw. 
  by apply (proj2 (off_step_spec m op m' (off_reach_inv _ _ _ _ _ Hn Hr) Hf Hs) k b).
Qed.

(** With the adaptive policy the two lists of blocks and the two ghost lists
    stay disjoint, each ghost list within the capacity, and the target size of
    the first list between zero and the capacity. *)
Theorem arc_lists_bounded n events threshold tracker (m : CPUOffloadingManager ARCCachePolicy) :
  0 ≤ n ≤ 2 ^ 63 → off_reach n events threshold tracker m →
  let p := off_policy m in
  NoDup ((t1 p).*1 ++ (t2 p).*1 ++ (b1 p).*1 ++ (b2 p).*1) ∧ zlen (b1 p) ≤ cache_capacity p ∧
  zlen (b2 p) ≤ cache_capacity p ∧ 0 ≤ q_int (target_t1_size p) ≤ cache_capacity p.
Proof.
  intros Hn Hr p. destruct (oi_policy _ (off_reach_inv _ _ _ _ _ Hn Hr)) as [H1 H2 H3 H4 [H5 H6]]. fold p in H1, H2, H3, H4, H5, H6.
  split; [exact H1|]. split; [done|]. split; [done|]. by apply q_int_bounds.
Qed.

(** ** Examples *)

(** Two blocks: "a" and "b" are stored, "a" is read, then "c" takes the place of
    the idle "b". *)
Definition demo_off_ops : list off_op :=
  [OStore [[97]; [98]]; OStored [[97]; [98]] true; OLookup [97]; OLoad [[97]]; OStore [[99]]].

Definition op_fits_b {P} `{!CachePolicy P} `{!PolicyLaws P} (m : CPUOffloadingManager P) (op : off_op) : bool :=
  match op with
  | OStore keys => bool_decide (NoDup keys)
  | OLoad keys => forallb (λ e, bs_ref_cnt e.2 + zlen keys <? 2 ^ 31) (entries m)
  | _ => true
  end.

Fixpoint run_fits {P} `{!CachePolicy P} `{!PolicyLaws P} (m : CPUOffloadingManager P) (ops : list off_op) : bool :=
  match ops with
  | [] => true
  | op :: ops => op_fits_b m op && match off_step m op with Ok m => run_fits m ops | Raise _ => false end
  end.

Lemma run_reach {P} `{!CachePolicy P} `{!PolicyLaws P} n events threshold tracker ops (m m' : CPUOffloadingManager P) :
  0 ≤ n ≤ 2 ^ 63 → off_reach n events threshold tracker m → mfold off_step m ops = Ok m' → run_fits m ops = true →
  off_reach n events threshold tracker m'.
Proof.
  intros Hn. revert m. induction ops as [|op ops IH]; intros m Hr H Hf; cbn [mfold] in H; [by injection H as <-|].
  bind_inv H as m1 E. cbn [run_fits] in Hf. apply andb_true_iff in Hf as [Ho Hf]. rewrite E in Hf.
  refine (IH m1 _ H Hf). eapply off_next; [done| |exact E]. pose proof (off_reach_inv _ _ _ _ _ Hn Hr) as Hinv.
  destruct op; cbn [op_fits op_fits_b] in *; try done; [|by apply bool_decide_eq_true in Ho].
  intros k b Hk. rewrite view_entries in Hk by done. apply od_get_elem in Hk; [|by apply entries_nodup].
  apply Z.ltb_lt. apply (proj1 (forallb_forall _ _) Ho (k, b)). by apply list_elem_of_In.
Qed.

Definition demo_off (P : Type) `{!CachePolicy P} (ops : list off_op) : CPUOffloadingManager P :=
  match mfold off_step (init_offload 2 true 1 64000) ops with Ok m => m | Raise _ => init_offload 2 true 1 64000 end.

Lemma demo_off_reach (P : Type) `{!CachePolicy P} `{!PolicyLaws P} ops :
  mfold off_step (init_offload 2 true 1 64000) ops = Ok (demo_off P ops) → run_fits (P := P) (init_offload 2 true 1 64000) ops = true →
  off_reach 2 true 1 64000 (demo_off P ops).
Proof. intros H Hf. eapply run_reach; [lia|apply off_start|exact H|exact Hf]. Qed.

Lemma demo_lru_reach : off_reach 2 true 1 64000 (demo_off LRUCachePolicy demo_off_ops).
Proof. apply (demo_off_reach LRUCachePolicy); vm_compute; reflexivity. Qed.

Lemma offload_conserves_witness :
  free_list (demo_off LRUCachePolicy demo_off_ops) = [] ∧ num_allocated_blocks (demo_off LRUCachePolicy demo_off_ops) = 2 ∧
  (∀ k k' b b', view (demo_off LRUCachePolicy demo_off_ops) k = Some b → view (demo_off LRUCachePolicy demo_off_ops) k' = Some b' →
     bs_block_id b = bs_block_id b' → k = k').
Proof.
  split; [vm_compute; reflexivity|]. split; [vm_compute; reflexivity|].
  exact (proj1 (proj2 (proj2 (proj2 (proj2 (offload_conserves 2 true 1 64000 _ ltac:(lia) demo_lru_reach)))))).
Defined.

(** "a" and "b" are cached and idle: storing "a" and "c" takes the block of "b" and
    leaves "a" alone. *)
Definition demo_idle_ops : list off_op := [OStore [[97]; [98]]; OStored [[97]; [98]] true].

Lemma demo_idle_reach : off_reach 2 true 1 64000 (demo_off LRUCachePolicy demo_idle_ops).
Proof. apply (demo_off_reach LRUCachePolicy); vm_compute; reflexivity. Qed.

Lemma offload_store_correct_witness :
  ∃ out m', prepare_store (demo_off LRUCachePolicy demo_idle_ops) [[97]; [99]] = Ok (Some out, m') ∧
    stored (demo_off LRUCachePolicy demo_idle_ops) [[97]; [99]] (Some out) m' ∧
    evicted_keys out = [[98]] ∧ view m' [97] = Some (mkStatus 0 0) ∧ is_Some (view m' [99]).
Proof.
  destruct (offload_store_correct 2 true 1 64000 _ [[97]; [99]] ltac:(lia) demo_idle_reach) as (r & m' & E & Hs & Hk);
    [apply (bool_decide_unpack _); by vm_compute|].
  pose proof E as E'. vm_compute in E'. destruct r as [out|]; [|discriminate E']. exists out, m'. split; [exact E|]. split; [exact Hs|].
  assert (Hr : is_Some (Some out)) by (by eexists). pose proof (Hk ltac:(lia) Hr) as Hk'. split_and!.
  - by injection E' as <- _.
  - apply (Hk' [97]); [by left|]. vm_compute. reflexivity.
  - apply (Hk' [99]). right. by left.
Defined.

Definition demo_lru_next : CPUOffloadingManager LRUCachePolicy := demo_off LRUCachePolicy (demo_off_ops ++ [OStore [[100]]]).

Lemma demo_lru_step : off_step (demo_off LRUCachePolicy demo_off_ops) (OStore [[100]]) = Ok demo_lru_next.
Proof. vm_compute. reflexivity. Qed.

Lemma demo_lru_reads : view (demo_off LRUCachePolicy demo_off_ops) [97] = Some (mkStatus 1 0).
Proof. vm_compute. reflexivity. Qed.

Lemma offload_in_use_kept_witness : ∃ b', view demo_lru_next [97] = Some b' ∧ bs_block_id b' = 0.
Proof.
  refine (offload_in_use_kept 2 true 1 64000 _ _ (OStore [[100]]) [97] (mkStatus 1 0) ltac:(lia) demo_lru_reach
    (NoDup_singleton _) demo_lru_step demo_lru_reads _ _ _); [discriminate|discriminate|]. intros keys H. discriminate H.
Defined.

(** The adaptive policy: "a" is used twice, "b" is evicted for "c" and asked for
    again twice. *)
Definition demo_arc_ops : list off_op :=
  [OStore [[97]; [98]]; OStored [[97]; [98]] true; OTouch [[97]]; OStore [[99]]; OStored [[99]] true;
   OTouch [[98]]; OTouch [[98]]; OLoad [[97]]].

Lemma demo_arc_reach : off_reach 2 true 1 64000 (demo_off ARCCachePolicy demo_arc_ops).
Proof. apply (demo_off_reach ARCCachePolicy); vm_compute; reflexivity. Qed.

Lemma arc_lists_bounded_witness :
  (t1 (off_policy (demo_off ARCCachePolicy demo_arc_ops))).*1 = [[99]] ∧
  (t2 (off_policy (demo_off ARCCachePolicy demo_arc_ops))).*1 = [[97]] ∧
  (b1 (off_policy (demo_off ARCCachePolicy demo_arc_ops))).*1 = [[98]] ∧
  q_int (target_t1_size (off_policy (demo_off ARCCachePolicy demo_arc_ops))) ≤
    cache_capacity (off_policy (demo_off ARCCachePolicy demo_arc_ops)).
Proof.
  split; [vm_compute; reflexivity|]. split; [vm_compute; reflexivity|]. split; [vm_compute; reflexivity|].
  exact (proj2 (proj2 (proj2 (proj2 (arc_lists_bounded 2 true 1 64000 _ ltac:(lia) demo_arc_reach))))).
Defined.

(** A block is evicted from the first list only while that list has its target
    size.  When it is shorter and all blocks of the second list are in use, a
    store is refused although an idle block of another key is cached. *)
Theorem arc_refuses_idle_block :
  ∃ m', prepare_store (demo_off ARCCachePolicy demo_arc_ops) [[100]] = Ok (None, m') ∧
    view (demo_off ARCCachePolicy demo_arc_ops) [99] = Some (mkStatus 0 1) ∧
    num_evictable (demo_off ARCCachePolicy demo_arc_ops) = 1.
Proof. eexists. split; [vm_compute; reflexivity|]. split; vm_compute; reflexivity. Qed.

(** With a threshold a key of the call that is cached but not counted often enough is
    not protected: here "a" was looked up twice and stored, then its count left the
    tracker (of size one); storing "a" and "b" evicts "a", although the blocks of the
    call are meant to remain. *)
Definition demo_tracked : CPUOffloadingManager LRUCachePolicy :=
  match mfold off_step (init_offload 1 true 2 1)
          [OLookup [97]; OLookup [97]; OStore [[97]]; OStored [[97]] true; OLookup [98]; OLookup [98]] with
  | Ok m => m
  | Raise _ => init_offload 1 true 2 1
  end.

(** The keys a store evicts, and where [k] is afterwards. *)
Definition store_effect (m : CPUOffloadingManager LRUCachePolicy) (keys : list OffloadKey) (k : OffloadKey)
    : result (option (list OffloadKey) * option BlockStatus) :=
  match prepare_store m keys with
  | Ok (Some out, m') => Ok (Some (evicted_keys out), view m' k)
  | Ok (None, m') => Ok (None, view m' k)
  | Raise e => Raise e
  end.

Lemma threshold_evicts_own_key :
  view demo_tracked [97] = Some (mkStatus 0 0) ∧
  store_effect demo_tracked [[97]; [98]] [97] = Ok (Some [[97]], None).
Proof. split; vm_compute; reflexivity. Qed.
