(* ===== verification/Tiering.v ===== *)
(** * Offloading to several tiers
    [TieringOffloadingManager] of [kv_offload/tiering/manager.py]: the CPU cache is the
    primary tier; blocks stored there are passed on to secondary tiers, and
    blocks found in a secondary tier are brought back, by jobs that finish
    later.  The interface of secondary tiers ([tiering/base.py]) is a type class,
    with [ExampleSecondaryTierManager] of [tiering/example/manager.py] as an
    instance.  Of a request's context only its id is kept; tiers are identified
    by their position. *)

From S2P Require Import Prelude OrderedDict KVBlock OffloadPolicy Offload.

#[local] Open Scope Z_scope.

Record JobMetadata := mkJob {
  job_id : Z;
  job_keys : list OffloadKey;
  job_block_ids : list Z;
  is_promotion : bool;
  job_req : string;
}.

Record JobResult := mkResult { jr_job_id : Z; jr_success : bool }.

Inductive RequestPolicy := BLOCK_LEVEL | REQUEST_LEVEL.

#[export] Instance RequestPolicy_eq_dec : EqDecision RequestPolicy.
Proof. solve_decision. Defined.

(** ** Secondary tiers *)

Class SecondaryTier (T : Type) := {
  tier_lookup : T → OffloadKey → string → option bool * T;
  submit_store : T → JobMetadata → result T;
  submit_load : T → JobMetadata → result T;
  get_finished_jobs : T → list JobResult * T;
  tier_has_pending_work : T → bool;
  tier_touch : T → list OffloadKey → string → T;
  tier_on_new_request : T → string → RequestPolicy * T;
  tier_on_request_finished : T → string → T;
  tier_on_schedule_end : T → T;
  drain_jobs : T → T;
}.

(** An in-memory tier whose transfers end at once. *)
Record ExampleTier := mkExample {
  ex_blocks : gset OffloadKey;
  completed_jobs : list JobResult;
}.

Definition ex_submit_store (t : ExampleTier) (job : JobMetadata) : result ExampleTier :=
  _ ← py_assert (bool_decide (length (job_keys job) = length (job_block_ids job)));
  Ok (mkExample (list_to_set (job_keys job) ∪ ex_blocks t) (completed_jobs t ++ [mkResult (job_id job) true])).

Definition ex_submit_load (t : ExampleTier) (job : JobMetadata) : result ExampleTier :=
  _ ← py_assert (bool_decide (length (job_keys job) = length (job_block_ids job)));
  let found := forallb (λ k, bool_decide (k ∈ ex_blocks t)) (job_keys job) in
  Ok (mkExample (ex_blocks t) (completed_jobs t ++ [mkResult (job_id job) found])).

#[export] Instance example_tier : SecondaryTier ExampleTier := {|
  tier_lookup t k _ := (Some (bool_decide (k ∈ ex_blocks t)), t);
  submit_store := ex_submit_store;
  submit_load := ex_submit_load;
  get_finished_jobs t := (completed_jobs t, mkExample (ex_blocks t) []);
  tier_has_pending_work _ := false;
  tier_touch t _ _ := t;
  tier_on_new_request t _ := (BLOCK_LEVEL, t);
  tier_on_request_finished t _ := t;
  tier_on_schedule_end t := t;
  drain_jobs t := t;
|}.

(** ** The manager *)

Record PendingPromotion := mkPending {
  pp_req : string;
  pp_keys : list OffloadKey;
  pp_block_ids : list Z;
}.

Record TieringManager (P T : Type) := mkTM {
  primary_tier : CPUOffloadingManager P;
  secondary_tiers : list T;
  job_id_counter : Z;
  transfer_jobs : list (Z * JobMetadata);
  pending_loads : list (nat * list (string * PendingPromotion));  (* [_pending_load_submissions] *)
  processed_this_step : bool;                                     (* [_processed_jobs_this_step] *)
  request_level_tiers : gmap string (gset nat);
  tm_events : option (list OffloadingEvent);
}.
Arguments mkTM {P T}.
Arguments primary_tier {P T} _.
Arguments secondary_tiers {P T} _.
Arguments job_id_counter {P T} _.
Arguments transfer_jobs {P T} _.
Arguments pending_loads {P T} _.
Arguments processed_this_step {P T} _.
Arguments request_level_tiers {P T} _.
Arguments tm_events {P T} _.

Section tiering.
Context {P T : Type} `{!CachePolicy P} `{!SecondaryTier T} (set_iter : gset nat → list nat).
Abbreviation TM := (TieringManager P T).
Implicit Types s : TM.

Definition set_primary (m : CPUOffloadingManager P) s : TM :=
  mkTM m (secondary_tiers s) (job_id_counter s) (transfer_jobs s) (pending_loads s) (processed_this_step s)
    (request_level_tiers s) (tm_events s).
Definition set_tiers (l : list T) s : TM :=
  mkTM (primary_tier s) l (job_id_counter s) (transfer_jobs s) (pending_loads s) (processed_this_step s)
    (request_level_tiers s) (tm_events s).
Definition set_jobs (c : Z) (jobs : list (Z * JobMetadata)) s : TM :=
  mkTM (primary_tier s) (secondary_tiers s) c jobs (pending_loads s) (processed_this_step s)
    (request_level_tiers s) (tm_events s).
Definition set_pending (l : list (nat * list (string * PendingPromotion))) s : TM :=
  mkTM (primary_tier s) (secondary_tiers s) (job_id_counter s) (transfer_jobs s) l (processed_this_step s)
    (request_level_tiers s) (tm_events s).
Definition set_processed (b : bool) s : TM :=
  mkTM (primary_tier s) (secondary_tiers s) (job_id_counter s) (transfer_jobs s) (pending_loads s) b
    (request_level_tiers s) (tm_events s).
Definition set_levels (l : gmap string (gset nat)) s : TM :=
  mkTM (primary_tier s) (secondary_tiers s) (job_id_counter s) (transfer_jobs s) (pending_loads s)
    (processed_this_step s) l (tm_events s).

Definition init_tiering (m : CPUOffloadingManager P) (tiers : list T) (enable_events : bool) : TM :=
  mkTM m tiers 0 [] [] false ∅ (if enable_events then Some [] else None).

(** [_next_job_id], the entry in [_transfer_jobs] and the submission to tier [i]. *)
Definition submit_job s (i : nat) (keys : list OffloadKey) (block_ids : list Z) (promotion : bool) (req : string) : result TM :=
  let id := job_id_counter s in
  let job := mkJob id keys block_ids promotion req in
  let s := set_jobs (id + 1) (od_set (transfer_jobs s) id job) s in
  match secondary_tiers s !! i with
  | None => Raise IndexError
  | Some t =>
      t ← (if promotion then submit_load t job else submit_store t job);
      Ok (set_tiers (<[i := t]> (secondary_tiers s)) s)
  end.

(** ** Finished jobs *)

Definition finish_job s (r : JobResult) : result TM :=
  match od_get (transfer_jobs s) (jr_job_id r) with
  | None => Raise AssertionError
  | Some job =>
      let s := set_jobs (job_id_counter s) (od_del (transfer_jobs s) (jr_job_id r)) s in
      m ← (if is_promotion job then complete_store (primary_tier s) (job_keys job) (jr_success r)
           else complete_load (primary_tier s) (job_keys job));
      Ok (set_primary m s)
  end.

Definition poll_tier s (i : nat) : result TM :=
  match secondary_tiers s !! i with
  | None => Raise IndexError
  | Some t =>
      let '(finished, t) := get_finished_jobs t in
      mfold finish_job (set_tiers (<[i := t]> (secondary_tiers s)) s) finished
  end.

Definition _process_finished_jobs s : result TM := mfold poll_tier s (seq 0 (length (secondary_tiers s))).

Definition _maybe_process_finished_jobs s : result TM :=
  if processed_this_step s then Ok s else _process_finished_jobs (set_processed true s).

(** ** Lookups and promotions *)

(** The pending promotions of tier [i] and request [req], extended. *)
Definition add_pending (l : list (nat * list (string * PendingPromotion))) (i : nat) (req : string)
    (keys : list OffloadKey) (ids : list Z) : list (nat * list (string * PendingPromotion)) :=
  let tier_pending := default [] (od_get l i) in
  let entry := default (mkPending req [] []) (od_get tier_pending req) in
  od_set l i (od_set tier_pending req (mkPending (pp_req entry) (pp_keys entry ++ keys) (pp_block_ids entry ++ ids))).

Definition _initiate_promotion s (i : nat) (key : OffloadKey) (req : string) : result (bool * TM) :=
  '(r, m) ← prepare_store (primary_tier s) [key];
  let s := set_primary m s in
  match r with
  | None => Ok (false, s)
  | Some out => Ok (true, set_pending (add_pending (pending_loads s) i req (keys_to_store out) (store_spec out)) s)
  end.

(** The loop over the secondary tiers. *)
Fixpoint lookup_tiers s (key : OffloadKey) (req : string) (any_none : bool) (tiers : list nat) : result (option bool * TM) :=
  match tiers with
  | [] => Ok (if any_none then None else Some false, s)
  | i :: tiers =>
      match secondary_tiers s !! i with
      | None => Raise IndexError
      | Some t =>
          let '(r, t) := tier_lookup t key req in
          let s := set_tiers (<[i := t]> (secondary_tiers s)) s in
          match r with
          | Some true =>
              '(started, s) ← _initiate_promotion s i key req;
              Ok (if (started : bool) then None else Some false, s)
          | None => lookup_tiers s key req true tiers
          | Some false => lookup_tiers s key req any_none tiers
          end
      end
  end.

Definition tm_lookup s (key : OffloadKey) (req : string) : result (option bool * TM) :=
  s ← _maybe_process_finished_jobs s;
  '(hit, m) ← off_lookup (primary_tier s) key;
  let s := set_primary m s in
  match hit with
  | Some true => Ok (Some true, s)
  | None => Ok (None, s)
  | Some false => lookup_tiers s key req false (seq 0 (length (secondary_tiers s)))
  end.

Definition flush_entry (i : nat) s (e : string * PendingPromotion) : result TM :=
  submit_job s i (pp_keys e.2) (pp_block_ids e.2) true (pp_req e.2).

Definition _flush_pending_promotions s : result TM :=
  s ← mfold (λ s p, mfold (flush_entry p.1) s p.2) s (pending_loads s);
  Ok (set_pending [] s).

(** ** Loads and stores *)

Definition tm_prepare_load s (keys : list OffloadKey) : result (list Z * TM) :=
  s ← _maybe_process_finished_jobs s;
  '(ids, m) ← prepare_load (primary_tier s) keys;
  Ok (ids, set_primary m s).

Definition tm_touch s (keys : list OffloadKey) (req : string) : TM :=
  set_tiers ((λ t, tier_touch t keys req) <$> secondary_tiers s) (set_primary (off_touch (primary_tier s) keys) s).

Definition tm_complete_load s (keys : list OffloadKey) : result TM :=
  m ← complete_load (primary_tier s) keys; Ok (set_primary m s).

(** Reading blocks of the primary tier to pass them on to tier [i]. *)
Definition cascade (keys : list OffloadKey) (req : string) s (i : nat) : result TM :=
  '(ids, m) ← prepare_load (primary_tier s) keys;
  submit_job (set_primary m s) i keys ids false req.

(** The keys whose lookup in the primary tier succeeds. *)
Fixpoint ready_keys (m : CPUOffloadingManager P) (keys : list OffloadKey) : result (list OffloadKey * CPUOffloadingManager P) :=
  match keys with
  | [] => Ok ([], m)
  | k :: keys =>
      '(hit, m) ← off_lookup m k;
      '(ks, m) ← ready_keys m keys;
      Ok (if bool_decide (hit = Some true) then k :: ks else ks, m)
  end.

Definition _cascade_existing_blocks_to_request_level_tiers s (keys : list OffloadKey) (req : string) (tiers : gset nat)
    : result TM :=
  '(ks, m) ← ready_keys (primary_tier s) keys;
  let s := set_primary m s in
  match ks with
  | [] => Ok s
  | _ => mfold (cascade ks req) s (set_iter tiers)
  end.

Definition tm_prepare_store s (keys : list OffloadKey) (req : string) : result (option PrepareStoreOutput * TM) :=
  s ← _maybe_process_finished_jobs s;
  '(r, m) ← prepare_store (primary_tier s) keys;
  let s := set_primary m s in
  match r with
  | None => Ok (None, s)
  | Some out =>
      s ← match request_level_tiers s !! req with
          | None => Ok s
          | Some tiers =>
              match filter (λ k, k ∉ keys_to_store out) keys with
              | [] => Ok s
              | present => _cascade_existing_blocks_to_request_level_tiers s present req tiers
              end
          end;
      Ok (Some out, s)
  end.

Definition tm_complete_store s (keys : list OffloadKey) (req : string) (success : bool) : result TM :=
  m ← complete_store (primary_tier s) keys success;
  let s := set_primary m s in
  if negb success then Ok s
  else mfold (cascade keys req) s (seq 0 (length (secondary_tiers s))).

(** ** Requests and steps *)

Definition ask_policy (req : string) s (i : nat) : result TM :=
  match secondary_tiers s !! i with
  | None => Raise IndexError
  | Some t =>
      let '(policy, t) := tier_on_new_request t req in
      let s := set_tiers (<[i := t]> (secondary_tiers s)) s in
      Ok (if decide (policy = REQUEST_LEVEL)
          then set_levels (<[req := {[i]} ∪ default ∅ (request_level_tiers s !! req)]> (request_level_tiers s)) s
          else s)
  end.

Definition tm_on_new_request s (req : string) : result (RequestPolicy * TM) :=
  s ← mfold (ask_policy req) s (seq 0 (length (secondary_tiers s)));
  Ok (match request_level_tiers s !! req with Some _ => REQUEST_LEVEL | None => BLOCK_LEVEL end, s).

Definition tm_on_request_finished s (req : string) : TM :=
  let s := set_tiers ((λ t, tier_on_request_finished t req) <$> secondary_tiers s) s in
  set_levels (delete req (request_level_tiers s)) s.

Definition tm_on_schedule_end s : result TM :=
  s ← _maybe_process_finished_jobs s;
  s ← _flush_pending_promotions (set_processed false s);
  Ok (set_tiers (tier_on_schedule_end <$> secondary_tiers s) s).

Definition tm_has_pending_work s : bool :=
  bool_decide (transfer_jobs s ≠ []) || existsb tier_has_pending_work (secondary_tiers s).

Definition tm_take_events s : list OffloadingEvent * TM :=
  let '(e, m) := take_events (primary_tier s) in
  (default [] (tm_events s) ++ e,
   mkTM m (secondary_tiers s) (job_id_counter s) (transfer_jobs s) (pending_loads s) (processed_this_step s)
     (request_level_tiers s) ((λ _, []) <$> tm_events s)).

Definition tm_reset_cache s : result TM :=
  let s := set_tiers (drain_jobs <$> secondary_tiers s) s in
  s ← _process_finished_jobs s;
  let s := set_pending [] s in
  let s := set_primary (reset_cache (primary_tier s)) s in
  Ok (set_processed false (set_levels ∅ s)).
End tiering.
