(* ===== verification/TieringFacts.v ===== *)
(** * Offloading to several tiers: the counters add up
    Through every sequence of calls that a scheduler may make, with tiers that
    finish the jobs they were given in any order, the reference count of a block
    of the primary tier is the number of transfers that read it, a block that is
    not ready is written by exactly one transfer, and no assertion of the
    managers fails. *)

From S2P Require Import Prelude OrderedDict KVBlock OffloadPolicy Offload OffloadFacts Tiering.

#[local] Open Scope Z_scope.

(** ** The primary tier *)

Section primary.
Context {P : Type} `{!CachePolicy P} `{!PolicyLaws P}.
Implicit Types (m : CPUOffloadingManager P) (reads : OffloadKey → Z) (writes : list OffloadKey).

(** [reads k] transfers read the block of [k]; the blocks of [writes] are written. *)
Record prim_ok m reads writes : Prop := {
  po_inv : off_inv m;
  po_ready : ∀ k b, view m k = Some b → is_ready b = true → bs_ref_cnt b = reads k;
  po_unready : ∀ k b, view m k = Some b → is_ready b = false → k ∈ writes;
  po_reads : ∀ k, reads k ≠ 0 → ∃ b, view m k = Some b ∧ is_ready b = true;
  po_writes : ∀ k, k ∈ writes → ∃ b, view m k = Some b ∧ is_ready b = false;
  po_nodup : NoDup writes;
  po_nonneg : ∀ k, 0 ≤ reads k;
}.

Lemma prim_ext m reads reads' writes writes' :
  prim_ok m reads writes → (∀ k, reads' k = reads k) → writes' ≡ₚ writes → prim_ok m reads' writes'.
Proof.
  intros [H1 H2 H3 H4 H5 H6 H7] Hr Hw. split; try done.
  - intros k b. rewrite Hr. apply H2.
  - intros k b Hk Hb. rewrite Hw. by eapply H3.
  - intros k. rewrite Hr. apply H4.
  - intros k. rewrite Hw. apply H5.
  - by rewrite Hw.
  - intros k. rewrite Hr. apply H7.
Qed.

Lemma prim_same m m' reads writes :
  prim_ok m reads writes → off_inv m' → (∀ k, view m' k = view m k) → prim_ok m' reads writes.
Proof. intros [H1 H2 H3 H4 H5 H6 H7] Hi Hv. split; try done; intros k; rewrite Hv; [apply H2|apply H3|apply H4|apply H5]. Qed.

Lemma add_refs_ready n b : is_ready b = true → 0 ≤ n → is_ready (add_refs n b) = true.
Proof. unfold is_ready, add_refs. cbn. rewrite !Z.leb_le. lia. Qed.

Lemma ready_iff b : is_ready b = true ↔ 0 ≤ bs_ref_cnt b.
Proof. unfold is_ready. apply Z.leb_le. Qed.

Lemma unready_iff b : is_ready b = false ↔ bs_ref_cnt b < 0.
Proof. unfold is_ready. apply Z.leb_gt. Qed.

Lemma key_count_zero k keys : k ∉ keys → key_count k keys = 0.
Proof. intros Hk. unfold key_count. rewrite filter_none; [done|]. by intros x Hx ->. Qed.

Lemma key_count_in k keys : key_count k keys ≠ 0 → k ∈ keys.
Proof. intros H. destruct (decide (k ∈ keys)); [done|]. by rewrite key_count_zero in H. Qed.

Lemma key_count_pos k keys : k ∈ keys → 0 < key_count k keys.
Proof.
  intros Hk. unfold key_count, zlen. assert (Hin : k ∈ filter (λ k', k' = k) keys) by (by apply list_elem_of_filter).
  destruct (filter _ keys); [by apply elem_of_nil in Hin|simpl; lia].
Qed.

Lemma key_count_once k keys : NoDup keys → k ∈ keys → key_count k keys = 1.
Proof.
  intros Hnd Hk. pose proof (key_count_pos k keys Hk). enough (key_count k keys ≤ 1) by lia.
  unfold key_count, zlen in *. assert (Hs : filter (λ k', k' = k) keys ⊆+ [k]).
  { apply NoDup_submseteq; [by apply NoDup_filter|]. intros x [-> _]%list_elem_of_filter. by left. }
  apply submseteq_length in Hs. simpl in Hs. lia.
Qed.

Lemma prim_load m reads writes keys :
  prim_ok m reads writes → (∀ k, reads k + zlen keys < 2 ^ 31) → (∀ k, k ∈ keys → ∃ b, view m k = Some b ∧ is_ready b = true) →
  ∃ ids m', prepare_load m keys = Ok (ids, m') ∧ length ids = length keys ∧
    prim_ok m' (λ k, reads k + key_count k keys) writes ∧
    ∀ k, (∃ b, view m k = Some b ∧ is_ready b = true) → ∃ b, view m' k = Some b ∧ is_ready b = true.
Proof.
  intros [H1 H2 H3 H4 H5 H6 H7] Hfit Hall. destruct (loads_spec m [] keys H1) as (m' & E & Hinv' & _ & Hv).
  - intros k b Hk. destruct (is_ready b) eqn:E; [rewrite (H2 k b Hk E); apply Hfit|]. apply unready_iff in E.
    specialize (Hfit k). specialize (H7 k). pose proof (zlen_nonneg keys). lia.
  - intros k Hk. destruct (Hall k Hk) as (b & Hb & Hr). exists b. split; [done|]. by apply ready_iff.
  - exists (omap (λ k, bs_block_id <$> view m k) keys), m'. unfold prepare_load. rewrite E. split; [done|].
    assert (Hready : ∀ k b, view m k = Some b → is_ready b = false → key_count k keys = 0).
    { intros k b Hk Hb. apply key_count_zero. intros Hin. destruct (Hall k Hin) as (b' & Hb' & Hr). congruence. }
    assert (Hsame : ∀ k b, view m k = Some b → is_ready (add_refs (key_count k keys) b) = is_ready b).
    { intros k b Hk. destruct (is_ready b) eqn:Eb; [apply add_refs_ready; [done|apply key_count_bounds]|].
      rewrite (Hready k b Hk Eb). unfold add_refs, is_ready in *. cbn. by rewrite Z.add_0_r. }
    split_and!.
    + clear -Hall. induction keys as [|k keys IH]; [done|]. cbn [omap list_omap]. destruct (Hall k ltac:(by left)) as (b & -> & _).
      cbn. f_equal. apply IH. intros k' Hk'. apply Hall. by right.
    + split; try done.
      * intros k b. rewrite Hv. intros (b0 & Hb0 & ->)%fmap_Some. rewrite Hsame by done. intros Hr. cbn. by rewrite (H2 k b0).
      * intros k b. rewrite Hv. intros (b0 & Hb0 & ->)%fmap_Some. rewrite Hsame by done. by apply H3.
      * intros k Hk. rewrite Hv. assert (∃ b, view m k = Some b ∧ is_ready b = true) as (b & Hb & Hr).
        { destruct (decide (reads k = 0)) as [E0|]; [|by apply H4]. apply Hall, key_count_in. lia. }
        rewrite Hb. eexists. split; [done|]. by rewrite Hsame.
      * intros k Hk. destruct (H5 k Hk) as (b & Hb & Hr). rewrite Hv, Hb. eexists. split; [done|]. by rewrite Hsame.
      * intros k. specialize (H7 k). pose proof (key_count_bounds k keys). lia.
    + intros k (b & Hb & Hr). rewrite Hv, Hb. eexists. split; [done|]. by rewrite Hsame.
Qed.

Lemma prim_unload m reads writes keys :
  prim_ok m reads writes → (∀ k, key_count k keys ≤ reads k) →
  ∃ m', complete_load m keys = Ok m' ∧ prim_ok m' (λ k, reads k - key_count k keys) writes ∧
    ∀ k b, view m k = Some b → is_ready b = true → ∃ b', view m' k = Some b' ∧ is_ready b' = true.
Proof.
  intros [H1 H2 H3 H4 H5 H6 H7] Hle. destruct (unloads_spec m keys H1) as (m' & E & Hinv' & Hv).
  - intros k Hk. destruct (H4 k) as (b & Hb & Hr).
    + specialize (Hle k). pose proof (key_count_pos k keys Hk). lia.
    + exists b. split; [done|]. by rewrite (H2 k b Hb Hr).
  - exists m'. split; [done|].
    assert (Hsame : ∀ k b, view m k = Some b → is_ready (add_refs (- key_count k keys) b) = is_ready b).
    { intros k b Hk. specialize (Hle k). specialize (H7 k). pose proof (key_count_bounds k keys). destruct (is_ready b) eqn:Eb.
      - apply ready_iff. unfold add_refs. cbn. rewrite (H2 k b Hk Eb). lia.
      - assert (reads k = 0) as E0. { destruct (decide (reads k = 0)) as [|Hne]; [done|]. destruct (H4 k Hne) as (b' & Hb' & Hr). congruence. }
        apply unready_iff. apply unready_iff in Eb. unfold add_refs. cbn. lia. }
    split; [|intros k b Hb Hr; rewrite Hv, Hb; eexists; split; [done|]; by rewrite Hsame]. split; try done.
    + intros k b. rewrite Hv. intros (b0 & Hb0 & ->)%fmap_Some. rewrite Hsame by done. intros Hr. cbn. rewrite (H2 k b0 Hb0 Hr). lia.
    + intros k b. rewrite Hv. intros (b0 & Hb0 & ->)%fmap_Some. rewrite Hsame by done. by apply H3.
    + intros k Hk. rewrite Hv. destruct (H4 k) as (b & Hb & Hr).
      { intros E0. specialize (Hle k). pose proof (key_count_bounds k keys). lia. }
      rewrite Hb. eexists. split; [done|]. by rewrite Hsame.
    + intros k Hk. destruct (H5 k Hk) as (b & Hb & Hr). rewrite Hv, Hb. eexists. split; [done|]. by rewrite Hsame.
    + intros k. specialize (Hle k). lia.
Qed.

Lemma prim_store m reads writes keys :
  prim_ok m reads writes → NoDup keys →
  ∃ r m', prepare_store m keys = Ok (r, m') ∧
    match r with
    | None => prim_ok m' reads writes
    | Some out => prim_ok m' reads (keys_to_store out ++ writes) ∧ length (store_spec out) = length (keys_to_store out) ∧
        keys_to_store out ⊆ keys
    end.
Proof.
  intros Hok Hnd. destruct (Hok) as [H1 H2 H3 H4 H5 H6 H7].
  destruct (prepare_store_spec m keys H1 Hnd) as (r & m' & E & Hinv' & Hs). exists r, m'. split; [done|].
  destruct r as [out|]; cbn [stored] in Hs; [|destruct Hs as (_ & _ & Hv); by apply (prim_same m)].
  destruct Hs as (Hw & Hlen & _ & Hnew & _ & _ & Hev & Hsame). rewrite Hw. split; [|split; [done|]]; last first.
  { intros k. unfold wanted. rewrite !list_elem_of_filter. tauto. }
  set (ws := wanted m keys) in *. assert (Hnone : ∀ k, k ∈ ws → view m k = None).
  { intros k. unfold ws, wanted. rewrite list_elem_of_filter. tauto. }
  assert (Hin : ∀ k, k ∈ ws → ∃ b, view m' k = Some b ∧ is_ready b = false).
  { intros k [i Hi]%list_elem_of_lookup. destruct (lookup_lt_is_Some_2 (store_spec out) i) as [id Hid].
    { rewrite Hlen. by eapply lookup_lt_Some. }
    exists (mkStatus (-1) id). split; [by eapply Hnew|done]. }
  (* a cached key is new, evicted while idle, or as before *)
  assert (Hkeep : ∀ k b, view m k = Some b → (is_ready b = true → reads k ≠ 0) → view m' k = Some b).
  { intros k b Hk Hr. rewrite Hsame; [done| |].
    - intros Hin'%Hnone. congruence.
    - intros (_ & _ & b' & Hb' & Hz)%Hev. assert (b' = b) as -> by congruence.
      assert (is_ready b = true) as Hb by (apply ready_iff; lia). rewrite (H2 k b Hk Hb) in Hz. by apply Hr. }
  split; try done.
  - intros k b Hk Hr. destruct (decide (k ∈ ws)) as [Hin'|Hni]; [destruct (Hin k Hin') as (b' & ? & ?); congruence|].
    destruct (decide (k ∈ evicted_keys out)) as [Hke|Hne]; [destruct (Hev k Hke) as (_ & ? & _); congruence|].
    rewrite Hsame in Hk by done. by apply H2.
  - intros k b Hk Hr. apply elem_of_app. destruct (decide (k ∈ ws)) as [Hin'|Hni]; [by left|right].
    destruct (decide (k ∈ evicted_keys out)) as [Hke|Hne]; [destruct (Hev k Hke) as (_ & ? & _); congruence|].
    rewrite Hsame in Hk by done. by eapply H3.
  - intros k Hk. destruct (H4 k Hk) as (b & Hb & Hr). exists b. split; [|done]. by apply Hkeep; [|intros _].
  - intros k [Hk|Hk]%elem_of_app; [by apply Hin|]. destruct (H5 k Hk) as (b & Hb & Hr). exists b. split; [|done].
    apply Hkeep; [done|]. congruence.
  - apply NoDup_app. split_and!; [|intros k Hk%Hnone Hk'; destruct (H5 k Hk') as (? & ? & _); congruence|done].
    unfold ws, wanted. by apply NoDup_filter, NoDup_filter.
Qed.

Lemma prim_stored m reads writes keys success :
  prim_ok m reads (keys ++ writes) →
  ∃ m', complete_store m keys success = Ok m' ∧ prim_ok m' reads writes ∧
    (success = true → ∀ k, k ∈ keys → ∃ b, view m' k = Some b ∧ is_ready b = true) ∧
    ∀ k b, view m k = Some b → is_ready b = true → view m' k = Some b.
Proof.
  intros [H1 H2 H3 H4 H5 H6 H7]. apply NoDup_app in H6 as (N1 & N2 & N3).
  assert (Hz : ∀ k, k ∈ keys → reads k = 0).
  { intros k Hk. destruct (decide (reads k = 0)) as [|Hne]; [done|]. destruct (H4 k Hne) as (b & Hb & Hr).
    destruct (H5 k) as (b' & Hb' & Hr'); [set_solver +Hk|]. congruence. }
  assert (Hset : ∀ (b : BlockStatus), is_ready (settled b) = true).
  { intros b. unfold settled. by destruct (is_ready b) eqn:E. }
  unfold complete_store. destruct success.
  - destruct (foldl store_done (m, []) keys) as [m1 st] eqn:E. pose proof (stores_done_spec m [] keys H1) as [Hinv1 Hv].
    rewrite E in Hinv1, Hv. cbn [fst] in Hinv1, Hv. eexists. split; [done|].
    set (m' := match st with [] => m1 | _ => _ end).
    assert (off_inv m' ∧ ∀ k, view m' k = view m1 k) as [Hinv' Hv'].
    { unfold m'. destruct st; [done|]. split; [by eapply inv_same|done]. }
    assert (Hk1 : ∀ k, k ∈ keys → ∃ b, view m' k = Some b ∧ is_ready b = true ∧ bs_ref_cnt b = 0).
    { intros k Hk. destruct (H5 k) as (b & Hb & Hr); [set_solver +Hk|]. rewrite Hv', Hv, Hb, decide_True by done.
      eexists. split; [done|]. cbn. split; [apply Hset|]. unfold settled. by rewrite Hr. }
    assert (Hk2 : ∀ k, k ∉ keys → view m' k = view m k) by (intros k Hk; rewrite Hv', Hv; by rewrite decide_False).
    split; [split|split]; try done.
    + intros k b Hk Hr. destruct (decide (k ∈ keys)) as [Hin|Hin]; [|rewrite Hk2 in Hk by done; by apply H2].
      destruct (Hk1 k Hin) as (b' & Hb' & _ & Hz'). rewrite Hz by done. congruence.
    + intros k b Hk Hr. destruct (decide (k ∈ keys)) as [Hin|Hin]; [destruct (Hk1 k Hin) as (? & ? & ? & _); congruence|].
      rewrite Hk2 in Hk by done. apply (H3 k b Hk) in Hr. set_solver +Hr Hin.
    + intros k Hk. destruct (H4 k Hk) as (b & Hb & Hr). exists b. split; [|done]. rewrite Hk2; [done|].
      intros Hin. by rewrite Hz in Hk.
    + intros k Hk. destruct (H5 k) as (b & Hb & Hr); [set_solver +Hk|]. exists b. split; [|done]. rewrite Hk2; [done|].
      intros Hin. by apply (N2 k).
    + intros _ k Hk. destruct (Hk1 k Hk) as (b & ? & ? & _). by exists b.
    + intros k b Hb Hr. rewrite Hk2; [done|]. intros Hin. destruct (H5 k) as (b' & Hb' & Hr'); [set_solver +Hin|]. congruence.
  - destruct (stores_failed_spec m keys H1) as (m' & E & Hinv' & Hv). exists m'. split; [done|].
    assert (Hk1 : ∀ k, k ∈ keys → view m' k = None).
    { intros k Hk. destruct (H5 k) as (b & Hb & Hr); [set_solver +Hk|]. rewrite Hv, Hb, decide_True by done. cbn. by rewrite Hr. }
    assert (Hk2 : ∀ k, k ∉ keys → view m' k = view m k) by (intros k Hk; rewrite Hv; by rewrite decide_False).
    split; [split|split]; try done.
    + intros k b Hk Hr. destruct (decide (k ∈ keys)) as [Hin|Hin]; [rewrite Hk1 in Hk; done|rewrite Hk2 in Hk by done; by apply H2].
    + intros k b Hk Hr. destruct (decide (k ∈ keys)) as [Hin|Hin]; [rewrite Hk1 in Hk; done|].
      rewrite Hk2 in Hk by done. apply (H3 k b Hk) in Hr. set_solver +Hr Hin.
    + intros k Hk. destruct (H4 k Hk) as (b & Hb & Hr). exists b. split; [|done]. rewrite Hk2; [done|].
      intros Hin. by rewrite Hz in Hk.
    + intros k Hk. destruct (H5 k) as (b & Hb & Hr); [set_solver +Hk|]. exists b. split; [|done]. rewrite Hk2; [done|].
      intros Hin. by apply (N2 k).
    + intros k b Hb Hr. rewrite Hk2; [done|]. intros Hin. destruct (H5 k) as (b' & Hb' & Hr'); [set_solver +Hin|]. congruence.
Qed.

Lemma prim_reset m : off_inv m → prim_ok (reset_cache m) (λ _, 0) [].
Proof.
  intros Hinv. destruct (reset_spec m Hinv) as [Hi Hv]. split; try done.
  - intros k b. by rewrite Hv.
  - intros k b. by rewrite Hv.
  - by intros k ?%elem_of_nil.
  - constructor.
Qed.
End primary.

(** ** What a secondary tier promises *)

(** Each job that was submitted is reported once, sooner or later. *)
Class TierLaws (T : Type) `{!SecondaryTier T} := {
  tier_jobs : T → list Z;
  tl_lookup t k req : tier_jobs (tier_lookup t k req).2 = tier_jobs t;
  tl_store t job : length (job_keys job) = length (job_block_ids job) →
    ∃ t', submit_store t job = Ok t' ∧ tier_jobs t' ≡ₚ job_id job :: tier_jobs t;
  tl_load t job : length (job_keys job) = length (job_block_ids job) →
    ∃ t', submit_load t job = Ok t' ∧ tier_jobs t' ≡ₚ job_id job :: tier_jobs t;
  tl_finished t : tier_jobs t ≡ₚ (jr_job_id <$> (get_finished_jobs t).1) ++ tier_jobs (get_finished_jobs t).2;
  tl_touch t keys req : tier_jobs (tier_touch t keys req) = tier_jobs t;
  tl_new t req : tier_jobs (tier_on_new_request t req).2 = tier_jobs t;
  tl_gone t req : tier_jobs (tier_on_request_finished t req) = tier_jobs t;
  tl_end t : tier_jobs (tier_on_schedule_end t) = tier_jobs t;
  tl_drain t : tier_jobs (drain_jobs t) ≡ₚ tier_jobs t ∧ tier_jobs (get_finished_jobs (drain_jobs t)).2 = [];
}.

#[export, program] Instance example_laws : TierLaws ExampleTier := {| tier_jobs t := jr_job_id <$> completed_jobs t |}.
Next Obligation. done. Qed.
Next Obligation.
  intros t job H. cbn [submit_store example_tier]. unfold ex_submit_store. rewrite bool_decide_eq_true_2 by done.
  eexists. split; [done|]. cbn [completed_jobs]. rewrite fmap_app. cbn. by rewrite <-Permutation_cons_append.
Qed.
Next Obligation.
  intros t job H. cbn [submit_load example_tier]. unfold ex_submit_load. rewrite bool_decide_eq_true_2 by done.
  eexists. split; [done|]. cbn [completed_jobs]. rewrite fmap_app. cbn. by rewrite <-Permutation_cons_append.
Qed.
Next Obligation. intros t. cbn. by rewrite app_nil_r. Qed.
Next Obligation. done. Qed.
Next Obligation. done. Qed.
Next Obligation. done. Qed.
Next Obligation. done. Qed.
Next Obligation. done. Qed.

(** ** The invariant *)

Section tiering.
Context {P T : Type} `{!CachePolicy P} `{!PolicyLaws P} `{!SecondaryTier T} `{!TierLaws T} (set_iter : gset nat → list nat).
Context (Hset_iter : ∀ s, set_iter s ≡ₚ elements s).
Abbreviation TM := (TieringManager P T).
Implicit Types (s : TM) (loads stores : list OffloadKey).

(** The jobs that read the block of [k], and the keys that jobs write. *)
Fixpoint job_reads (jobs : list (Z * JobMetadata)) (k : OffloadKey) : Z :=
  match jobs with
  | [] => 0
  | j :: jobs => (if is_promotion j.2 then 0 else key_count k (job_keys j.2)) + job_reads jobs k
  end.

Definition promo_keys (jobs : list (Z * JobMetadata)) : list OffloadKey :=
  jobs ≫= λ j, if is_promotion j.2 then job_keys j.2 else [].

Definition pend_keys (l : list (nat * list (string * PendingPromotion))) : list OffloadKey :=
  l ≫= λ p, p.2 ≫= λ e, pp_keys e.2.

Definition all_jobs (tiers : list T) : list Z := tiers ≫= tier_jobs.

Definition pending_ok (n : nat) (p : nat * list (string * PendingPromotion)) : Prop :=
  (p.1 < n)%nat ∧ NoDup p.2.*1 ∧ Forall (λ e, length (pp_keys e.2) = length (pp_block_ids e.2)) p.2.

Definition reads_of s loads (k : OffloadKey) : Z := key_count k loads + job_reads (transfer_jobs s) k.
Definition writes_of s stores : list OffloadKey := stores ++ pend_keys (pending_loads s) ++ promo_keys (transfer_jobs s).

(** The scheduler runs the transfers [loads] and [stores]; the jobs [reported] have
    been reported by a tier and are not finished yet. *)
Record tm_inv (reported : list Z) s loads stores : Prop := {
  tv_prim : prim_ok (primary_tier s) (reads_of s loads) (writes_of s stores);
  tv_untracked : untracked (primary_tier s);
  tv_ids : NoDup (transfer_jobs s).*1;
  tv_counter : ∀ id, id ∈ (transfer_jobs s).*1 → id < job_id_counter s;
  tv_tiers : (transfer_jobs s).*1 ≡ₚ reported ++ all_jobs (secondary_tiers s);
  tv_pending : NoDup (pending_loads s).*1 ∧ Forall (pending_ok (length (secondary_tiers s))) (pending_loads s);
  tv_levels : ∀ req ts i, request_level_tiers s !! req = Some ts → i ∈ ts → (i < length (secondary_tiers s))%nat;
}.

Definition ready_in s (k : OffloadKey) : Prop := ∃ b, view (primary_tier s) k = Some b ∧ is_ready b = true.

(** Counters have room for [n] more reads. *)
Definition room s loads (n : Z) : Prop := ∀ k, reads_of s loads k + n < 2 ^ 31.

Lemma job_reads_perm jobs jobs' k : jobs ≡ₚ jobs' → job_reads jobs k = job_reads jobs' k.
Proof. induction 1; cbn [job_reads]; lia. Qed.

Lemma job_reads_nonneg jobs k : 0 ≤ job_reads jobs k.
Proof.
  induction jobs as [|j jobs IH]; cbn [job_reads]; [done|]. pose proof (key_count_bounds k (job_keys j.2)).
  destruct (is_promotion j.2); lia.
Qed.

Lemma promo_keys_perm jobs jobs' : jobs ≡ₚ jobs' → promo_keys jobs ≡ₚ promo_keys jobs'.
Proof. intros H. unfold promo_keys. by rewrite H. Qed.

Lemma all_jobs_insert tiers i t t' :
  tiers !! i = Some t → all_jobs (<[i := t']> tiers) ++ tier_jobs t ≡ₚ all_jobs tiers ++ tier_jobs t'.
Proof.
  revert i. induction tiers as [|x tiers IH]; intros [|i] Hi; try done; cbn [insert list_insert] in *.
  - injection Hi as ->. unfold all_jobs. cbn [mbind list_bind]. solve_Permutation.
  - unfold all_jobs in *. cbn [mbind list_bind]. rewrite <-!(assoc_L (++)). by rewrite (IH i Hi).
Qed.

Lemma all_jobs_fmap f tiers : (∀ t, tier_jobs (f t) ≡ₚ tier_jobs t) → all_jobs (f <$> tiers) ≡ₚ all_jobs tiers.
Proof.
  intros Hf. unfold all_jobs. induction tiers as [|t tiers IH]; [done|]. rewrite fmap_cons. cbn [mbind list_bind].
  by rewrite Hf, IH.
Qed.

Lemma no_jobs tiers : Forall (λ t, tier_jobs t = []) tiers → all_jobs tiers = [].
Proof. induction 1 as [|t l E _ IH]; [done|]. unfold all_jobs in *. cbn. by rewrite E, IH. Qed.

(** A change of the tiers that leaves their jobs as they are. *)
Lemma tm_set_tiers reported s loads stores l :
  tm_inv reported s loads stores → length l = length (secondary_tiers s) → all_jobs l ≡ₚ all_jobs (secondary_tiers s) →
  tm_inv reported (set_tiers l s) loads stores.
Proof.
  intros [H1 H2 H3 H4 H5 H6 H7] Hl Hj. split; cbn [set_tiers secondary_tiers transfer_jobs pending_loads request_level_tiers
    job_id_counter primary_tier]; try done; rewrite ?Hl, ?Hj; done.
Qed.

Lemma tm_set_tier reported s loads stores i t t' :
  tm_inv reported s loads stores → secondary_tiers s !! i = Some t → tier_jobs t' = tier_jobs t →
  tm_inv reported (set_tiers (<[i := t']> (secondary_tiers s)) s) loads stores.
Proof.
  intros Hinv Hi Ht. apply tm_set_tiers; [done|by rewrite length_insert|].
  pose proof (all_jobs_insert _ i t t' Hi) as H. rewrite Ht in H. by apply (Permutation_app_inv_r (tier_jobs t)) in H.
Qed.

(** A change of the primary tier and of the transfers of the scheduler. *)
Lemma tm_set_primary reported s loads stores loads' stores' m :
  tm_inv reported s loads stores → untracked m → prim_ok m (reads_of s loads') (writes_of s stores') →
  tm_inv reported (set_primary m s) loads' stores'.
Proof. intros [H1 H2 H3 H4 H5 H6 H7] Hu Hp. by split. Qed.

(** ** Finished jobs *)

Lemma finish_job_ok reported s loads stores r :
  tm_inv (jr_job_id r :: reported) s loads stores →
  ∃ s', finish_job s r = Ok s' ∧ tm_inv reported s' loads stores ∧ secondary_tiers s' = secondary_tiers s ∧
    pending_loads s' = pending_loads s ∧ (∀ k, reads_of s' loads k ≤ reads_of s loads k) ∧ ∀ k, ready_in s k → ready_in s' k.
Proof.
  intros Hinv. destruct (Hinv) as [H1 H2 H3 H4 H5 H6 H7]. unfold finish_job.
  assert (is_Some (od_get (transfer_jobs s) (jr_job_id r))) as [job Hj].
  { destruct (od_get (transfer_jobs s) (jr_job_id r)) eqn:E; [by eexists|]. apply od_get_None in E. destruct E. rewrite H5. by left. }
  rewrite Hj. pose proof (od_del_perm _ _ _ H3 Hj) as Hperm. set (jobs := od_del (transfer_jobs s) (jr_job_id r)) in *.
  assert (Hreads : ∀ k, job_reads (transfer_jobs s) k = (if is_promotion job then 0 else key_count k (job_keys job)) + job_reads jobs k).
  { intros k. by rewrite (job_reads_perm _ _ k Hperm). }
  assert (Hwrites : promo_keys (transfer_jobs s) ≡ₚ (if is_promotion job then job_keys job else []) ++ promo_keys jobs).
  { by rewrite (promo_keys_perm _ _ Hperm). }
  assert (Hrest : ∀ m, untracked m → prim_ok m (λ k, key_count k loads + job_reads jobs k) (stores ++ pend_keys (pending_loads s) ++ promo_keys jobs) →
    tm_inv reported (set_primary m (set_jobs (job_id_counter s) jobs s)) loads stores).
  { intros m Hu Hm. split; try done; cbn [set_primary set_jobs transfer_jobs secondary_tiers job_id_counter].
    - unfold jobs. by apply od_del_nodup.
    - intros id Hid. apply H4. rewrite Hperm, fmap_cons. by right.
    - rewrite Hperm, fmap_cons in H5. by apply (Permutation_cons_inv (a := jr_job_id r)). }
  assert (Hle : ∀ m k, reads_of (set_primary m (set_jobs (job_id_counter s) jobs s)) loads k ≤ reads_of s loads k).
  { intros m k. unfold reads_of. cbn [set_primary set_jobs transfer_jobs]. rewrite Hreads.
    pose proof (key_count_bounds k (job_keys job)). destruct (is_promotion job); lia. }
  cbn [primary_tier set_jobs]. destruct (is_promotion job) eqn:Ep.
  - destruct (prim_stored (primary_tier s) (reads_of s loads)
      (stores ++ pend_keys (pending_loads s) ++ promo_keys jobs) (job_keys job) (jr_success r)) as (m & E & Hm & _ & Hrdy).
    { eapply prim_ext; [exact H1|done|]. unfold writes_of. rewrite Hwrites. solve_Permutation. }
    rewrite E. eexists. split; [done|]. split_and!; try done.
    + apply Hrest; [by eapply untracked_stored|]. eapply prim_ext; [exact Hm| |done]. intros k. unfold reads_of. rewrite Hreads. lia.
    + intros k (b & Hb & Hr). exists b. split; [by apply Hrdy|done].
  - destruct (prim_unload (primary_tier s) (reads_of s loads) (writes_of s stores) (job_keys job) H1) as (m & E & Hm & Hrdy).
    { intros k. unfold reads_of. rewrite Hreads. pose proof (key_count_bounds k loads). pose proof (job_reads_nonneg jobs k). lia. }
    rewrite E. eexists. split; [done|]. split_and!; try done.
    + apply Hrest; [by eapply untracked_unload|]. eapply prim_ext; [exact Hm| |].
      * intros k. unfold reads_of. rewrite Hreads. lia.
      * unfold writes_of. by rewrite Hwrites.
    + intros k (b & Hb & Hr). destruct (Hrdy k b Hb Hr) as (b' & ? & ?). by exists b'.
Qed.

(** What polling keeps. *)
Definition polled s s' loads stores : Prop :=
  tm_inv [] s' loads stores ∧ length (secondary_tiers s') = length (secondary_tiers s) ∧
  pending_loads s' = pending_loads s ∧ (∀ k, reads_of s' loads k ≤ reads_of s loads k) ∧ ∀ k, ready_in s k → ready_in s' k.

Lemma finish_jobs_ok finished s loads stores :
  tm_inv (jr_job_id <$> finished) s loads stores →
  ∃ s', mfold finish_job s finished = Ok s' ∧ polled s s' loads stores ∧ secondary_tiers s' = secondary_tiers s.
Proof.
  revert s. induction finished as [|r finished IH]; intros s Hinv; cbn [mfold].
  - exists s. by split_and!.
  - rewrite fmap_cons in Hinv. destruct (finish_job_ok _ _ _ _ _ Hinv) as (s1 & -> & Hinv1 & E1 & E2 & Hle1 & Hr1).
    cbn [mbind result_bind]. destruct (IH s1 Hinv1) as (s' & -> & (Hinv' & E3 & E4 & Hle' & Hr') & E5). exists s'.
    split; [done|]. split; [|congruence]. split_and!; [done|congruence|congruence| |naive_solver].
    intros k. etrans; [apply Hle'|apply Hle1].
Qed.

Lemma poll_tier_ok s loads stores i :
  tm_inv [] s loads stores → (i < length (secondary_tiers s))%nat →
  ∃ s', poll_tier s i = Ok s' ∧ polled s s' loads stores ∧
    ∃ t, secondary_tiers s !! i = Some t ∧ secondary_tiers s' = <[i := (get_finished_jobs t).2]> (secondary_tiers s).
Proof.
  intros Hinv Hi. destruct (lookup_lt_is_Some_2 _ _ Hi) as [t Ht]. unfold poll_tier. rewrite Ht.
  pose proof (tl_finished t) as Hf. destruct (get_finished_jobs t) as [finished t'] eqn:Eg. cbn [fst snd] in Hf.
  destruct (finish_jobs_ok finished (set_tiers (<[i := t']> (secondary_tiers s)) s) loads stores) as (s' & E & Hp & Et).
  - destruct Hinv as [H1 H2 H3 H4 H5 H6 H7]. split; cbn [set_tiers secondary_tiers transfer_jobs pending_loads request_level_tiers
      job_id_counter primary_tier]; rewrite ?length_insert; try done.
    rewrite H5. cbn [app]. apply (Permutation_app_inv_r (tier_jobs t)). rewrite <-(assoc_L (++)).
    rewrite (all_jobs_insert _ i t t' Ht). rewrite Hf at 1. solve_Permutation.
  - exists s'. split; [done|]. destruct Hp as (Hinv' & E2 & E3 & Hle & Hr). cbn [set_tiers secondary_tiers] in *.
    rewrite length_insert in E2. split; [by split_and!|]. exists t. by rewrite Eg.
Qed.

Lemma polled_trans s1 s2 s3 loads stores : polled s1 s2 loads stores → polled s2 s3 loads stores → polled s1 s3 loads stores.
Proof.
  intros (I1 & L1 & P1 & R1 & Y1) (I2 & L2 & P2 & R2 & Y2). split_and!; [done|congruence|congruence| |naive_solver].
  intros k. etrans; [apply R2|apply R1].
Qed.

Lemma poll_all_ok idxs s loads stores :
  tm_inv [] s loads stores → NoDup idxs → (∀ i, i ∈ idxs → (i < length (secondary_tiers s))%nat) →
  ∃ s', mfold poll_tier s idxs = Ok s' ∧ polled s s' loads stores ∧
    ∀ i t, secondary_tiers s !! i = Some t →
      secondary_tiers s' !! i = Some (if decide (i ∈ idxs) then (get_finished_jobs t).2 else t).
Proof.
  revert s. induction idxs as [|i idxs IH]; intros s Hinv Hnd Hi; cbn [mfold].
  - exists s. split; [done|]. split; [by split_and!|]. intros i t Ht. by rewrite decide_False by apply not_elem_of_nil.
  - apply NoDup_cons in Hnd as [Hni Hnd].
    destruct (poll_tier_ok s loads stores i Hinv) as (s1 & -> & Hp1 & t & Ht & E1); [apply Hi; by left|].
    cbn [mbind result_bind]. pose proof Hp1 as (Hinv1 & L1 & _).
    destruct (IH s1 Hinv1 Hnd) as (s' & -> & Hp' & E'). { intros j Hj. rewrite L1. apply Hi. by right. }
    exists s'. split; [done|]. split; [by eapply polled_trans|]. intros j u Hu. destruct (decide (j = i)) as [->|Hne].
    + assert (u = t) as -> by congruence. rewrite (E' i (get_finished_jobs t).2).
      * rewrite decide_False by done. by rewrite decide_True by left.
      * rewrite E1. apply list_lookup_insert_eq. apply Hi. by left.
    + rewrite (E' j u) by (rewrite E1, list_lookup_insert_ne; done).
      destruct (decide (j ∈ idxs)); [by rewrite decide_True by (by right)|by rewrite decide_False by (rewrite elem_of_cons; tauto)].
Qed.

Lemma process_ok s loads stores :
  tm_inv [] s loads stores → ∃ s', _process_finished_jobs s = Ok s' ∧ polled s s' loads stores ∧
    ∀ i t, secondary_tiers s !! i = Some t → secondary_tiers s' !! i = Some (get_finished_jobs t).2.
Proof.
  intros Hinv. destruct (poll_all_ok (seq 0 (length (secondary_tiers s))) s loads stores Hinv) as (s' & E & Hp & Ht).
  - apply NoDup_seq.
  - intros i. rewrite elem_of_seq. lia.
  - exists s'. split; [done|]. split; [done|]. intros i t Hi. rewrite (Ht i t Hi), decide_True; [done|].
    apply elem_of_seq. apply lookup_lt_Some in Hi. lia.
Qed.

Lemma maybe_process_ok s loads stores :
  tm_inv [] s loads stores → ∃ s', _maybe_process_finished_jobs s = Ok s' ∧ polled s s' loads stores.
Proof.
  intros Hinv. unfold _maybe_process_finished_jobs. destruct (processed_this_step s); [exists s; by split_and!|].
  destruct (process_ok (set_processed true s) loads stores) as (s' & E & Hp & _); [by destruct Hinv|]. by exists s'.
Qed.

(** ** Submitting jobs *)

Lemma job_reads_app jobs jobs' k : job_reads (jobs ++ jobs') k = job_reads jobs k + job_reads jobs' k.
Proof. induction jobs as [|j jobs IH]; cbn [app job_reads]; lia. Qed.

Lemma promo_keys_app jobs jobs' : promo_keys (jobs ++ jobs') = promo_keys jobs ++ promo_keys jobs'.
Proof. apply bind_app. Qed.

Lemma submit_ok s loads stores stores' i keys ids (promotion : bool) req m :
  tm_inv [] s loads stores → untracked m → (i < length (secondary_tiers s))%nat → length keys = length ids →
  prim_ok m (λ k, reads_of s loads k + (if promotion then 0 else key_count k keys))
    ((if promotion then keys else []) ++ writes_of s stores') →
  ∃ s', submit_job (set_primary m s) i keys ids promotion req = Ok s' ∧ tm_inv [] s' loads stores' ∧
    length (secondary_tiers s') = length (secondary_tiers s) ∧ pending_loads s' = pending_loads s ∧ primary_tier s' = m ∧
    ∀ k, reads_of s' loads k = reads_of s loads k + (if promotion then 0 else key_count k keys).
Proof.
  intros [H1 H2 H3 H4 H5 H6 H7] Hu Hi Hlen Hm. destruct (lookup_lt_is_Some_2 _ _ Hi) as [t Ht].
  unfold submit_job. cbn [set_primary set_jobs secondary_tiers job_id_counter transfer_jobs]. rewrite Ht.
  set (id := job_id_counter s). set (job := mkJob id keys ids promotion req).
  assert (Hfresh : id ∉ (transfer_jobs s).*1) by (intros Hin%H4; unfold id in Hin; lia).
  assert (∃ t', (if promotion then submit_load t job else submit_store t job) = Ok t' ∧ tier_jobs t' ≡ₚ id :: tier_jobs t)
    as (t' & -> & Ht') by (destruct promotion; [by apply tl_load|by apply tl_store]).
  cbn [mbind result_bind]. rewrite od_set_fresh by done. eexists. split; [done|].
  assert (Hreads : ∀ k, job_reads (transfer_jobs s ++ [(id, job)]) k =
    job_reads (transfer_jobs s) k + (if promotion then 0 else key_count k keys)).
  { intros k. rewrite job_reads_app. cbn [job_reads snd job is_promotion job_keys]. destruct promotion; lia. }
  split; [split|split_and!]; cbn [set_tiers set_jobs set_primary primary_tier transfer_jobs secondary_tiers pending_loads
    request_level_tiers job_id_counter]; rewrite ?length_insert; try done.
  - eapply prim_ext; [exact Hm| |].
    + intros k. unfold reads_of. cbn [transfer_jobs set_tiers set_jobs]. rewrite Hreads. lia.
    + unfold writes_of. cbn [transfer_jobs pending_loads set_tiers set_jobs set_primary]. rewrite promo_keys_app.
      assert (promo_keys [(id, job)] = if promotion then keys else []) as ->.
      { unfold promo_keys. cbn. destruct promotion; by rewrite ?app_nil_r. }
      solve_Permutation.
  - rewrite fmap_app. apply NoDup_app. split; [done|]. split; [|apply NoDup_singleton]. intros x Hx Hx'%list_elem_of_singleton. cbn [fst] in Hx'. congruence.
  - intros x. rewrite fmap_app, elem_of_app. intros [Hx%H4|Hx%list_elem_of_singleton]; unfold id in *; cbn [fst] in *; lia.
  - rewrite fmap_app, H5. cbn [app fmap list_fmap fst]. apply (Permutation_app_inv_r (tier_jobs t)).
    rewrite (all_jobs_insert _ i t t' Ht), Ht'. solve_Permutation.
  - intros k. unfold reads_of. cbn [transfer_jobs set_tiers set_jobs]. rewrite Hreads. lia.
Qed.

Lemma cascade_ok s loads stores keys req i :
  tm_inv [] s loads stores → room s loads (zlen keys) → (∀ k, k ∈ keys → ready_in s k) → (i < length (secondary_tiers s))%nat →
  ∃ s', cascade keys req s i = Ok s' ∧ tm_inv [] s' loads stores ∧ length (secondary_tiers s') = length (secondary_tiers s) ∧
    (∀ k, reads_of s' loads k = reads_of s loads k + key_count k keys) ∧ ∀ k, ready_in s k → ready_in s' k.
Proof.
  intros Hinv Hroom Hall Hi. unfold cascade.
  destruct (prim_load (primary_tier s) (reads_of s loads) (writes_of s stores) keys (tv_prim _ _ _ _ Hinv) Hroom Hall)
    as (ids & m & E & Hlen & Hm & Hr). rewrite E. cbn [mbind result_bind].
  destruct (submit_ok s loads stores stores i keys ids false req m) as (s' & Es & Hinv' & Hl & _ & Ep & Hreads); try done.
  { eapply untracked_load; [apply Hinv|exact E]. }
  exists s'. split; [done|]. split_and!; try done. intros k Hk. unfold ready_in. rewrite Ep. by apply Hr.
Qed.

Lemma cascades_ok idxs s loads stores keys req :
  tm_inv [] s loads stores → room s loads (zlen keys * zlen idxs) → (∀ k, k ∈ keys → ready_in s k) →
  (∀ i, i ∈ idxs → (i < length (secondary_tiers s))%nat) →
  ∃ s', mfold (cascade keys req) s idxs = Ok s' ∧ tm_inv [] s' loads stores.
Proof.
  revert s. induction idxs as [|i idxs IH]; intros s Hinv Hroom Hall Hi; cbn [mfold]; [by exists s|].
  rewrite zlen_cons in Hroom. pose proof (zlen_nonneg idxs). pose proof (zlen_nonneg keys).
  destruct (cascade_ok s loads stores keys req i Hinv) as (s1 & -> & Hinv1 & Hl1 & Hr1 & Hy1).
  - intros k. specialize (Hroom k). nia.
  - done.
  - apply Hi. by left.
  - cbn [mbind result_bind]. apply (IH s1 Hinv1).
    + intros k. rewrite Hr1. specialize (Hroom k). pose proof (key_count_bounds k keys). nia.
    + intros k Hk. by apply Hy1, Hall.
    + intros j Hj. rewrite Hl1. apply Hi. by right.
Qed.

(** ** Promotions *)

Lemma pend_keys_perm l l' : l ≡ₚ l' → pend_keys l ≡ₚ pend_keys l'.
Proof. intros H. unfold pend_keys. by rewrite H. Qed.

Lemma pend_keys_cons p l : pend_keys (p :: l) = (p.2 ≫= λ e, pp_keys e.2) ++ pend_keys l.
Proof. done. Qed.

Lemma Forall_od_set {K V} `{!EqDecision K} (Q : K * V → Prop) (d : list (K * V)) k v :
  NoDup d.*1 → Forall Q d → Q (k, v) → Forall Q (od_set d k v).
Proof.
  intros Hnd Hd Hv. rewrite od_set_perm by done. apply Forall_cons. split; [done|]. apply Forall_forall. intros x [_ Hx]%list_elem_of_filter.
  by apply (proj1 (Forall_forall _ _) Hd).
Qed.

Lemma add_pending_ok n l i req keys ids :
  NoDup l.*1 → Forall (pending_ok n) l → (i < n)%nat → length keys = length ids →
  let l' := add_pending l i req keys ids in
  NoDup l'.*1 ∧ Forall (pending_ok n) l' ∧ pend_keys l' ≡ₚ keys ++ pend_keys l.
Proof.
  intros Hnd Hall Hi Hlen l'. unfold l', add_pending. set (tp := default [] (od_get l i)).
  set (entry := default (mkPending req [] []) (od_get tp req)).
  set (new := mkPending (pp_req entry) (pp_keys entry ++ keys) (pp_block_ids entry ++ ids)).
  assert (Htp : NoDup tp.*1 ∧ Forall (λ e, length (pp_keys e.2) = length (pp_block_ids e.2)) tp).
  { unfold tp. destruct (od_get l i) as [tp0|] eqn:E; [|by split; constructor]. apply od_get_elem in E; [|done].
    by apply (proj1 (Forall_forall _ _) Hall) in E as (_ & ? & ?). }
  destruct Htp as [Htn Htl]. assert (Hentry : length (pp_keys entry) = length (pp_block_ids entry)).
  { unfold entry. destruct (od_get tp req) as [e|] eqn:E; [|done]. apply od_get_elem in E; [|done].
    by apply (proj1 (Forall_forall _ _) Htl) in E. }
  assert (Hnew : pending_ok n (i, od_set tp req new)).
  { split; [done|]. split; [by apply od_set_nodup|]. cbn [snd]. apply Forall_od_set; [done..|].
    cbn [snd new pp_keys pp_block_ids]. rewrite !length_app. lia. }
  split; [by apply od_set_nodup|]. split.
  - by apply Forall_od_set.
  - assert (Hin : (od_set tp req new ≫= λ e, pp_keys e.2) ≡ₚ keys ++ (tp ≫= λ e, pp_keys e.2)).
    { rewrite od_set_perm by done. cbn [mbind list_bind snd new pp_keys]. unfold entry.
      destruct (od_get tp req) as [e|] eqn:E; cbn [default pp_keys].
      - rewrite (od_del_perm tp req e Htn E) at 2. cbn [mbind list_bind snd]. solve_Permutation.
      - rewrite od_del_absent by (by apply od_get_None). done. }
    rewrite (pend_keys_perm _ _ (od_set_perm l i _ Hnd)), pend_keys_cons. cbn [snd]. rewrite Hin.
    unfold tp. destruct (od_get l i) as [tp0|] eqn:E; cbn [default].
    + rewrite (pend_keys_perm _ _ (od_del_perm l i tp0 Hnd E)), pend_keys_cons. cbn [snd]. solve_Permutation.
    + rewrite od_del_absent by (by apply od_get_None). cbn. rewrite app_nil_r. done.
Qed.

Lemma promotion_ok s loads stores i key req :
  tm_inv [] s loads stores → (i < length (secondary_tiers s))%nat →
  ∃ b s', _initiate_promotion s i key req = Ok (b, s') ∧ tm_inv [] s' loads stores.
Proof.
  intros Hinv Hi. unfold _initiate_promotion.
  destruct (prim_store (primary_tier s) _ _ [key] (tv_prim _ _ _ _ Hinv) (NoDup_singleton _)) as (r & m & E & Hr).
  pose proof (untracked_store _ _ _ _ (tv_untracked _ _ _ _ Hinv) E) as Hu. rewrite E. cbn [mbind result_bind].
  destruct r as [out|]; [|do 2 eexists; split; [done|]; by eapply tm_set_primary].
  do 2 eexists. split; [done|]. destruct Hr as (Hp & Hlen & _). destruct (Hinv) as [H1 H2 H3 H4 H5 [H6 H6'] H7].
  destruct (add_pending_ok _ (pending_loads s) i req (keys_to_store out) (store_spec out) H6 H6' Hi ltac:(lia)) as (N1 & N2 & N3).
  split; try done. eapply prim_ext; [exact Hp|done|]. unfold writes_of. cbn [set_pending set_primary pending_loads transfer_jobs].
  cbv zeta in N3. rewrite N3. solve_Permutation.
Qed.

Lemma lookup_tiers_ok idxs s loads stores key req any :
  tm_inv [] s loads stores → (∀ i, i ∈ idxs → (i < length (secondary_tiers s))%nat) →
  ∃ r s', lookup_tiers s key req any idxs = Ok (r, s') ∧ tm_inv [] s' loads stores.
Proof.
  revert s any. induction idxs as [|i idxs IH]; intros s any Hinv Hi; cbn [lookup_tiers]; [by do 2 eexists|].
  destruct (lookup_lt_is_Some_2 (secondary_tiers s) i) as [t Ht]; [apply Hi; by left|]. rewrite Ht.
  pose proof (tl_lookup t key req) as Hj. destruct (tier_lookup t key req) as [r t']. cbn [snd] in Hj.
  pose proof (tm_set_tier _ _ _ _ i t t' Hinv Ht Hj) as Hinv1.
  assert (Hlen : ∀ j, j ∈ i :: idxs → (j < length (secondary_tiers (set_tiers (<[i:=t']> (secondary_tiers s)) s)))%nat).
  { intros j Hj'. cbn [set_tiers secondary_tiers]. rewrite length_insert. by apply Hi. }
  assert (Hrec : ∀ any, ∃ r s', lookup_tiers (set_tiers (<[i:=t']> (secondary_tiers s)) s) key req any idxs = Ok (r, s') ∧
    tm_inv [] s' loads stores) by (intros any'; apply IH; [done|intros j Hj'; apply Hlen; by right]).
  destruct r as [[|]|]; [|apply Hrec..].
  destruct (promotion_ok _ _ _ i key req Hinv1) as (b & s' & -> & Hinv'); [apply Hlen; by left|]. cbn [mbind result_bind]. by do 2 eexists.
Qed.

Lemma tm_lookup_ok s loads stores key req :
  tm_inv [] s loads stores → ∃ r s', tm_lookup s key req = Ok (r, s') ∧ tm_inv [] s' loads stores.
Proof.
  intros Hinv. unfold tm_lookup. destruct (maybe_process_ok s loads stores Hinv) as (s1 & -> & Hinv1 & _). cbn [mbind result_bind].
  destruct (untracked_lookup (primary_tier s1) key (tv_untracked _ _ _ _ Hinv1)) as [r ->]. cbn [mbind result_bind].
  assert (set_primary (primary_tier s1) s1 = s1) as -> by (by destruct s1).
  destruct r as [[|]|]; [by do 2 eexists| |by do 2 eexists]. apply lookup_tiers_ok; [done|]. intros i. rewrite elem_of_seq. lia.
Qed.

(** ** The deferred submissions *)

Lemma tm_stores_perm reported s loads stores stores' :
  tm_inv reported s loads stores → stores' ≡ₚ stores → tm_inv reported s loads stores'.
Proof.
  intros [H1 H2 H3 H4 H5 H6 H7] Hp. split; try done. eapply prim_ext; [exact H1|done|]. unfold writes_of. by rewrite Hp.
Qed.

Lemma submit_pending l s i keys ids promotion req :
  submit_job (set_pending l s) i keys ids promotion req =
    (s' ← submit_job s i keys ids promotion req; Ok (set_pending l s')).
Proof.
  unfold submit_job. cbn [set_jobs set_pending secondary_tiers job_id_counter transfer_jobs].
  destruct (secondary_tiers s !! i) as [t|]; [|done]. destruct promotion; [destruct (submit_load t _)|destruct (submit_store t _)]; done.
Qed.

(** Pending keys count as stores of the scheduler until they are submitted. *)
Lemma flush_entries_ok i es s loads stores :
  tm_inv [] (set_pending [] s) loads ((es ≫= λ e, pp_keys e.2) ++ stores) → (i < length (secondary_tiers s))%nat →
  Forall (λ e, length (pp_keys e.2) = length (pp_block_ids e.2)) es →
  ∃ s', mfold (flush_entry i) s es = Ok s' ∧ tm_inv [] (set_pending [] s') loads stores ∧
    length (secondary_tiers s') = length (secondary_tiers s).
Proof.
  revert s. induction es as [|e es IH]; intros s Hinv Hi Hlen; cbn [mfold]; [by exists s|].
  apply Forall_cons in Hlen as [Hl Hlen]. cbn [mbind list_bind] in Hinv. rewrite <-(assoc_L (++)) in Hinv.
  destruct (submit_ok (set_pending [] s) loads _ ((es ≫= λ e, pp_keys e.2) ++ stores) i (pp_keys e.2) (pp_block_ids e.2) true (pp_req e.2)
    (primary_tier s) Hinv) as (s1 & E & Hinv1 & L1 & Ep & _); [apply Hinv|done|done| |].
  { eapply prim_ext; [apply Hinv|intros k; lia|]. unfold writes_of. by rewrite <-!(assoc_L (++)). }
  change (set_primary (primary_tier s) (set_pending [] s)) with (set_pending [] (set_primary (primary_tier s) s)) in E.
  assert (set_primary (primary_tier s) s = s) as Es by (by destruct s). rewrite Es, submit_pending in E.
  bind_inv E as s2 E2. injection E as <-. assert (flush_entry i s e = Ok s2) as -> by exact E2. cbn [mbind result_bind].
  cbn [set_pending secondary_tiers] in L1. destruct (IH s2 Hinv1) as (s' & -> & Hinv' & L2); [by rewrite L1|done|].
  exists s'. split_and!; [done|done|congruence].
Qed.

Lemma flush_all_ok l s loads stores :
  tm_inv [] (set_pending [] s) loads (pend_keys l ++ stores) → Forall (pending_ok (length (secondary_tiers s))) l →
  ∃ s', mfold (λ s p, mfold (flush_entry p.1) s p.2) s l = Ok s' ∧ tm_inv [] (set_pending [] s') loads stores.
Proof.
  revert s. induction l as [|p l IH]; intros s Hinv Hall; cbn [mfold]; [by exists s|].
  apply Forall_cons in Hall as [(Hi & _ & Hl) Hall]. rewrite pend_keys_cons, <-(assoc_L (++)) in Hinv.
  destruct (flush_entries_ok _ _ _ _ _ Hinv Hi Hl) as (s1 & -> & Hinv1 & L1). cbn [mbind result_bind]. apply IH; [done|by rewrite L1].
Qed.

Lemma flush_ok s loads stores :
  tm_inv [] s loads stores → ∃ s', _flush_pending_promotions s = Ok s' ∧ tm_inv [] s' loads stores.
Proof.
  intros Hinv. unfold _flush_pending_promotions. destruct (flush_all_ok (pending_loads s) s loads stores) as (s' & -> & Hinv').
  - destruct Hinv as [H1 H2 H3 H4 H5 H6 H7]. split; try done; [|split; [apply NoDup_nil_2|by constructor]].
    eapply prim_ext; [exact H1|done|]. unfold writes_of. cbn [set_pending pending_loads transfer_jobs]. unfold pend_keys at 2. cbn.
    solve_Permutation.
  - apply Hinv.
  - cbn [mbind result_bind]. by exists (set_pending [] s').
Qed.

(** ** The calls of the scheduler *)

Lemma room_polled s s' loads stores n : polled s s' loads stores → room s loads n → room s' loads n.
Proof. intros (_ & _ & _ & Hle & _) Hr k. specialize (Hr k). specialize (Hle k). lia. Qed.

Lemma key_count_app k l l' : key_count k (l ++ l') = key_count k l + key_count k l'.
Proof. unfold key_count. by rewrite filter_app, zlen_app. Qed.

Lemma tm_load_ok s loads stores keys :
  tm_inv [] s loads stores → (∀ k, k ∈ keys → ready_in s k) → room s loads (zlen keys) →
  ∃ ids s', tm_prepare_load s keys = Ok (ids, s') ∧ tm_inv [] s' (keys ++ loads) stores.
Proof.
  intros Hinv Hall Hroom. unfold tm_prepare_load. destruct (maybe_process_ok s loads stores Hinv) as (s1 & -> & Hp).
  cbn [mbind result_bind]. pose proof Hp as (Hinv1 & _ & _ & _ & Hy).
  destruct (prim_load (primary_tier s1) (reads_of s1 loads) (writes_of s1 stores) keys (tv_prim _ _ _ _ Hinv1)) as (ids & m & E & _ & Hm & _).
  - exact (room_polled _ _ _ _ _ Hp Hroom).
  - intros k Hk. by apply Hy, Hall.
  - pose proof (untracked_load _ _ _ _ (tv_untracked _ _ _ _ Hinv1) E) as Hu. rewrite E. cbn [mbind result_bind].
    do 2 eexists. split; [done|]. apply (tm_set_primary [] s1 loads stores); [done|done|]. eapply prim_ext; [exact Hm| |done].
    intros k. unfold reads_of. rewrite key_count_app. lia.
Qed.

Lemma tm_loaded_ok s loads loads' stores keys :
  tm_inv [] s loads stores → loads ≡ₚ keys ++ loads' →
  ∃ s', tm_complete_load s keys = Ok s' ∧ tm_inv [] s' loads' stores.
Proof.
  intros Hinv Hp. assert (Hc : ∀ k, key_count k loads = key_count k keys + key_count k loads').
  { intros k. rewrite <-key_count_app. unfold key_count, zlen. by rewrite Hp. }
  unfold tm_complete_load.
  destruct (prim_unload (primary_tier s) (reads_of s loads) (writes_of s stores) keys (tv_prim _ _ _ _ Hinv)) as (m & E & Hm & _).
  { intros k. unfold reads_of. rewrite Hc. pose proof (job_reads_nonneg (transfer_jobs s) k). pose proof (key_count_bounds k loads'). lia. }
  pose proof (untracked_unload _ _ _ (tv_untracked _ _ _ _ Hinv) E) as Hu. rewrite E. cbn [mbind result_bind]. eexists. split; [done|].
  apply (tm_set_primary [] s loads stores); [done|done|]. eapply prim_ext; [exact Hm| |done]. intros k. unfold reads_of. rewrite Hc. lia.
Qed.

Lemma tm_touch_ok s loads stores keys req : tm_inv [] s loads stores → tm_inv [] (tm_touch s keys req) loads stores.
Proof.
  intros Hinv. destruct (off_touch_spec (primary_tier s) keys (po_inv _ _ _ (tv_prim _ _ _ _ Hinv))) as [Hi Hv].
  apply tm_set_tiers.
  - apply (tm_set_primary [] s loads stores); [done|apply Hinv|]. eapply prim_same; [apply Hinv|done|done].
  - by rewrite length_fmap.
  - apply all_jobs_fmap. intros t. by rewrite tl_touch.
Qed.

(** The keys found ready are among those asked for. *)
Lemma ready_keys_ok m keys :
  untracked m → ∃ ks, ready_keys m keys = Ok (ks, m) ∧ ks `sublist_of` keys ∧
    ∀ k, k ∈ ks → ∃ b, view m k = Some b ∧ is_ready b = true.
Proof.
  intros Hu. induction keys as [|k keys (ks & E & Hs & Hr)]; cbn [ready_keys].
  - exists []. split_and!; [done..|]. by intros k ?%elem_of_nil.
  - destruct (untracked_lookup m k Hu) as [r Er]. rewrite Er. cbn [mbind result_bind]. rewrite E. cbn [mbind result_bind].
    case_bool_decide as Hhit; eexists; (split; [done|]); [|by split; [constructor|]].
    split; [by constructor|]. intros k' [->|Hk']%elem_of_cons; [|by apply Hr]. unfold off_lookup, count_lookup in Er.
    unfold untracked in Hu. rewrite Hu in Er. cbn [mbind result_bind] in Er. unfold view. destruct (cp_get (off_policy m) k) as [b|].
    + exists b. split; [done|]. destruct (is_ready b) eqn:Eb; [done|]. injection Er as <-. congruence.
    + injection Er as <-. congruence.
Qed.

Lemma iter_bound ts n : (∀ i, i ∈ ts → (i < n)%nat) → zlen (set_iter ts) ≤ Z.of_nat n.
Proof.
  intros Hlt. unfold zlen. apply inj_le. rewrite <-(length_seq n 0). apply submseteq_length, NoDup_submseteq.
  - rewrite Hset_iter. apply NoDup_elements.
  - intros i. rewrite Hset_iter, elem_of_elements, elem_of_seq. intros ?%Hlt. lia.
Qed.

Lemma existing_ok s loads stores keys req ts :
  tm_inv [] s loads stores → (∀ i, i ∈ ts → (i < length (secondary_tiers s))%nat) →
  room s loads (zlen keys * Z.of_nat (length (secondary_tiers s))) →
  ∃ s', _cascade_existing_blocks_to_request_level_tiers set_iter s keys req ts = Ok s' ∧ tm_inv [] s' loads stores.
Proof.
  intros Hinv Hts Hroom. unfold _cascade_existing_blocks_to_request_level_tiers.
  destruct (ready_keys_ok (primary_tier s) keys (tv_untracked _ _ _ _ Hinv)) as (ks & -> & Hs & Hr). cbn [mbind result_bind].
  assert (set_primary (primary_tier s) s = s) as -> by (by destruct s).
  assert (Hlen : zlen ks ≤ zlen keys) by (unfold zlen; apply sublist_length in Hs; lia).
  pose proof (iter_bound ts _ Hts) as Hit. pose proof (zlen_nonneg ks). pose proof (zlen_nonneg (set_iter ts)).
  destruct ks as [|k ks]; [by exists s|]. apply cascades_ok; [done| |done|].
  - intros x. specialize (Hroom x). nia.
  - intros i. rewrite Hset_iter, elem_of_elements. apply Hts.
Qed.

Definition new_stores (r : option PrepareStoreOutput) : list OffloadKey :=
  match r with Some out => keys_to_store out | None => [] end.

Lemma tm_store_ok s loads stores keys req :
  tm_inv [] s loads stores → NoDup keys → room s loads (zlen keys * Z.of_nat (length (secondary_tiers s))) →
  ∃ r s', tm_prepare_store set_iter s keys req = Ok (r, s') ∧ tm_inv [] s' loads (new_stores r ++ stores).
Proof.
  intros Hinv Hnd Hroom. unfold tm_prepare_store. destruct (maybe_process_ok s loads stores Hinv) as (s1 & -> & Hp).
  cbn [mbind result_bind]. pose proof Hp as (Hinv1 & L1 & _). pose proof (room_polled _ _ _ _ _ Hp Hroom) as Hroom1.
  destruct (prim_store (primary_tier s1) _ _ keys (tv_prim _ _ _ _ Hinv1) Hnd) as (r & m & E & Hr).
  pose proof (untracked_store _ _ _ _ (tv_untracked _ _ _ _ Hinv1) E) as Hu. rewrite E. cbn [mbind result_bind].
  destruct r as [out|]; [|do 2 eexists; split; [done|]; by apply (tm_set_primary [] s1 loads stores)].
  destruct Hr as (Hm & _ & _). assert (Hinv2 : tm_inv [] (set_primary m s1) loads (keys_to_store out ++ stores)).
  { apply (tm_set_primary [] s1 loads stores); [done|done|]. eapply prim_ext; [exact Hm|done|]. unfold writes_of. by rewrite <-(assoc_L (++)). }
  cbn [request_level_tiers set_primary]. destruct (request_level_tiers s1 !! req) as [ts|] eqn:El; [|by do 2 eexists].
  set (present := filter (λ k, k ∉ keys_to_store out) keys). assert (Hlen : zlen present ≤ zlen keys).
  { unfold zlen, present. pose proof (length_filter (λ k, k ∉ keys_to_store out) keys). lia. }
  destruct (existing_ok (set_primary m s1) loads (keys_to_store out ++ stores) present req ts Hinv2) as (s' & Es & Hinv').
  - intros i. apply (tv_levels _ _ _ _ Hinv1 _ _ _ El).
  - intros k. specialize (Hroom1 k). cbn [secondary_tiers set_primary]. rewrite L1. unfold reads_of in *. cbn [transfer_jobs set_primary]. nia.
  - destruct present as [|k present']; [by do 2 eexists|]. rewrite Es. cbn [mbind result_bind]. by do 2 eexists.
Qed.

Lemma tm_stored_ok s loads stores stores' keys req success :
  tm_inv [] s loads stores → stores ≡ₚ keys ++ stores' → room s loads (zlen keys * Z.of_nat (length (secondary_tiers s))) →
  ∃ s', tm_complete_store s keys req success = Ok s' ∧ tm_inv [] s' loads stores'.
Proof.
  intros Hinv Hp Hroom. unfold tm_complete_store.
  destruct (prim_stored (primary_tier s) (reads_of s loads) (writes_of s stores') keys success) as (m & E & Hm & Hrdy & _).
  { eapply prim_ext; [apply Hinv|done|]. unfold writes_of. rewrite Hp. by rewrite <-(assoc_L (++)). }
  pose proof (untracked_stored _ _ _ _ (tv_untracked _ _ _ _ Hinv) E) as Hu. rewrite E. cbn [mbind result_bind].
  pose proof (tm_set_primary [] s loads stores loads stores' m Hinv Hu Hm) as Hinv1. destruct success; [|by eexists]. cbn [negb].
  apply cascades_ok; [done| |by apply Hrdy|].
  - intros k. specialize (Hroom k). cbn [secondary_tiers set_primary] in *. unfold zlen at 2. by rewrite length_seq.
  - intros i. rewrite elem_of_seq. lia.
Qed.

Lemma ask_policies_ok req idxs s loads stores :
  tm_inv [] s loads stores → (∀ i, i ∈ idxs → (i < length (secondary_tiers s))%nat) →
  ∃ s', mfold (ask_policy req) s idxs = Ok s' ∧ tm_inv [] s' loads stores.
Proof.
  revert s. induction idxs as [|i idxs IH]; intros s Hinv Hi; cbn [mfold]; [by exists s|].
  destruct (lookup_lt_is_Some_2 (secondary_tiers s) i) as [t Ht]; [apply Hi; by left|].
  assert (ask_policy req s i = match secondary_tiers s !! i with None => Raise IndexError | Some t => _ end) as -> by done.
  rewrite Ht. pose proof (tl_new t req) as Hj. destruct (tier_on_new_request t req) as [p t']. cbn [snd] in Hj.
  pose proof (tm_set_tier _ _ _ _ i t t' Hinv Ht Hj) as Hinv1. cbn [mbind result_bind].
  assert (Hlen : ∀ j, j ∈ i :: idxs → (j < length (<[i:=t']> (secondary_tiers s)))%nat) by (intros j; rewrite length_insert; apply Hi).
  case_decide; apply IH; try done; [|intros j Hj'; apply Hlen; by right..].
  destruct Hinv1 as [H1 H2 H3 H4 H5 H6 H7]. split; try done. intros r ts j. cbn [request_level_tiers set_levels set_tiers secondary_tiers].
  cbn [request_level_tiers set_tiers] in H7. destruct (decide (r = req)) as [->|Hne]; [|rewrite lookup_insert_ne by done; apply H7].
  rewrite lookup_insert_eq. intros [= <-] [->%elem_of_singleton|Hj']%elem_of_union; [apply Hlen; by left|].
  destruct (request_level_tiers s !! req) as [ts|] eqn:E; [by apply (H7 req ts j)|by apply elem_of_empty in Hj'].
Qed.

Lemma tm_new_ok s loads stores req :
  tm_inv [] s loads stores → ∃ r s', tm_on_new_request s req = Ok (r, s') ∧ tm_inv [] s' loads stores.
Proof.
  intros Hinv. unfold tm_on_new_request.
  destruct (ask_policies_ok req (seq 0 (length (secondary_tiers s))) s loads stores Hinv) as (s' & -> & Hinv').
  - intros i. rewrite elem_of_seq. lia.
  - cbn [mbind result_bind]. by do 2 eexists.
Qed.

Lemma tm_done_ok s loads stores req : tm_inv [] s loads stores → tm_inv [] (tm_on_request_finished s req) loads stores.
Proof.
  intros Hinv. unfold tm_on_request_finished.
  assert (Hinv1 : tm_inv [] (set_tiers ((λ t, tier_on_request_finished t req) <$> secondary_tiers s) s) loads stores).
  { apply tm_set_tiers; [done|by rewrite length_fmap|]. apply all_jobs_fmap. intros t. by rewrite tl_gone. }
  destruct Hinv1 as [H1 H2 H3 H4 H5 H6 H7]. split; try done. intros r ts i. cbn [request_level_tiers set_levels].
  intros [_ Hr]%lookup_delete_Some. by apply (H7 r).
Qed.

Lemma tm_end_ok s loads stores :
  tm_inv [] s loads stores → ∃ s', tm_on_schedule_end s = Ok s' ∧ tm_inv [] s' loads stores.
Proof.
  intros Hinv. unfold tm_on_schedule_end. destruct (maybe_process_ok s loads stores Hinv) as (s1 & -> & Hinv1 & _).
  cbn [mbind result_bind]. destruct (flush_ok (set_processed false s1) loads stores) as (s2 & -> & Hinv2); [by destruct Hinv1|].
  cbn [mbind result_bind]. eexists. split; [done|]. apply tm_set_tiers; [done|by rewrite length_fmap|]. apply all_jobs_fmap.
  intros t. by rewrite tl_end.
Qed.

Lemma tm_take_ok s loads stores : tm_inv [] s loads stores → tm_inv [] (tm_take_events s).2 loads stores.
Proof.
  intros [H1 H2 H3 H4 H5 H6 H7]. unfold tm_take_events, take_events. cbn [snd fst]. split; try done. eapply prim_same; [exact H1| |done].
  eapply inv_same; [apply H1|done..].
Qed.

Lemma tm_reset_ok s loads stores :
  tm_inv [] s loads stores → ∃ s', tm_reset_cache s = Ok s' ∧ tm_inv [] s' [] [] ∧ transfer_jobs s' = [].
Proof.
  intros Hinv. unfold tm_reset_cache. set (s0 := set_tiers (drain_jobs <$> secondary_tiers s) s).
  assert (Hinv0 : tm_inv [] s0 loads stores).
  { apply tm_set_tiers; [done|by rewrite length_fmap|]. apply all_jobs_fmap. intros t. apply tl_drain. }
  destruct (process_ok s0 loads stores Hinv0) as (s1 & -> & (Hinv1 & L1 & _) & Ht). cbn [mbind result_bind]. eexists. split; [done|].
  assert (Hnone : all_jobs (secondary_tiers s1) = []).
  { apply no_jobs, Forall_lookup. intros i t1 Ht1. assert (is_Some (secondary_tiers s0 !! i)) as [t0 Ht0].
    { apply lookup_lt_is_Some_2. rewrite <-L1. by eapply lookup_lt_Some. }
    rewrite (Ht i t0 Ht0) in Ht1. injection Ht1 as <-. unfold s0 in Ht0. cbn [set_tiers secondary_tiers] in Ht0.
    rewrite list_lookup_fmap in Ht0. apply fmap_Some in Ht0 as (t & _ & ->). apply tl_drain. }
  destruct Hinv1 as [H1 H2 H3 H4 H5 H6 H7]. rewrite Hnone in H5. cbn [app] in H5. apply Permutation_nil_r, fmap_nil_inv in H5.
  split; [|exact H5]. split; cbn [set_processed set_levels set_primary set_pending primary_tier transfer_jobs pending_loads
    secondary_tiers request_level_tiers job_id_counter]; rewrite ?H5, ?Hnone; try done.
  - eapply prim_ext; [apply prim_reset, H1| |].
    + intros k. unfold reads_of. cbn [set_processed set_levels set_primary set_pending transfer_jobs]. by rewrite H5.
    + unfold writes_of. cbn [set_processed set_levels set_primary set_pending transfer_jobs pending_loads]. by rewrite H5.
  - apply NoDup_nil_2.
  - by intros id ?%elem_of_nil.
  - split; [apply NoDup_nil_2|by constructor].
Qed.

(** ** Runs *)

Fixpoint remove_one (k : OffloadKey) (l : list OffloadKey) : list OffloadKey :=
  match l with
  | [] => []
  | k' :: l => if decide (k = k') then l else k' :: remove_one k l
  end.

Fixpoint take_out (keys l : list OffloadKey) : list OffloadKey :=
  match keys with
  | [] => l
  | k :: keys => take_out keys (remove_one k l)
  end.

Lemma remove_one_perm k l : k ∈ l → l ≡ₚ k :: remove_one k l.
Proof.
  induction l as [|k' l IH]; [by intros ?%elem_of_nil|]. intros Hk. cbn [remove_one]. case_decide as E; [by subst|].
  apply elem_of_cons in Hk as [?|Hk]; [done|]. rewrite (IH Hk) at 1. apply perm_swap.
Qed.

Lemma take_out_perm keys l : keys ⊆+ l → l ≡ₚ keys ++ take_out keys l.
Proof.
  revert l. induction keys as [|k keys IH]; intros l Hs; [done|]. cbn [take_out app].
  apply submseteq_cons_l in Hs as (l' & Hl & Hs). assert (Hk : k ∈ l) by (rewrite Hl; by left).
  pose proof (remove_one_perm k l Hk) as Hp. rewrite Hp at 1. apply perm_skip, IH. rewrite Hl in Hp at 1.
  apply Permutation_cons_inv in Hp. by rewrite <-Hp.
Qed.

Inductive tier_op :=
  | TLookup (k : OffloadKey) (req : string)
  | TLoad (keys : list OffloadKey)
  | TLoaded (keys : list OffloadKey)
  | TTouch (keys : list OffloadKey) (req : string)
  | TStore (keys : list OffloadKey) (req : string)
  | TStored (keys : list OffloadKey) (req : string) (success : bool)
  | TNew (req : string)
  | TDone (req : string)
  | TEnd
  | TTake
  | TReset.

(** The manager, and the keys of the loads and stores that the scheduler runs. *)
Record client := mkClient { cl_manager : TM; cl_loads : list OffloadKey; cl_stores : list OffloadKey }.

(** A reset also drops the transfers of the scheduler. *)
Definition tier_step (c : client) (op : tier_op) : result client :=
  let '(mkClient s loads stores) := c in
  match op with
  | TLookup k req => '(_, s) ← tm_lookup s k req; Ok (mkClient s loads stores)
  | TLoad keys => '(_, s) ← tm_prepare_load s keys; Ok (mkClient s (keys ++ loads) stores)
  | TLoaded keys => s ← tm_complete_load s keys; Ok (mkClient s (take_out keys loads) stores)
  | TTouch keys req => Ok (mkClient (tm_touch s keys req) loads stores)
  | TStore keys req => '(r, s) ← tm_prepare_store set_iter s keys req; Ok (mkClient s loads (new_stores r ++ stores))
  | TStored keys req success => s ← tm_complete_store s keys req success; Ok (mkClient s loads (take_out keys stores))
  | TNew req => '(_, s) ← tm_on_new_request s req; Ok (mkClient s loads stores)
  | TDone req => Ok (mkClient (tm_on_request_finished s req) loads stores)
  | TEnd => s ← tm_on_schedule_end s; Ok (mkClient s loads stores)
  | TTake => Ok (mkClient (tm_take_events s).2 loads stores)
  | TReset => s ← tm_reset_cache s; Ok (mkClient s [] [])
  end.

(** What the scheduler respects: it loads blocks that are ready, ends transfers
    that it runs, names a key once per store, and starts no more transfers than a
    counter of 32 bits can hold. *)
Definition op_valid (c : client) (op : tier_op) : Prop :=
  let '(mkClient s loads stores) := c in
  match op with
  | TLoad keys => (∀ k, k ∈ keys → ready_in s k) ∧ room s loads (zlen keys)
  | TLoaded keys => keys ⊆+ loads
  | TStore keys _ => NoDup keys ∧ room s loads (zlen keys * Z.of_nat (length (secondary_tiers s)))
  | TStored keys _ _ => keys ⊆+ stores ∧ room s loads (zlen keys * Z.of_nat (length (secondary_tiers s)))
  | _ => True
  end.

Inductive tier_reach (n : Z) (events : bool) (tiers : list T) : client → Prop :=
  | tier_start : tier_reach n events tiers (mkClient (init_tiering (init_offload n events 0 64000) tiers events) [] [])
  | tier_next c op c' : tier_reach n events tiers c → op_valid c op → tier_step c op = Ok c' → tier_reach n events tiers c'.

Definition client_ok (c : client) : Prop := tm_inv [] (cl_manager c) (cl_loads c) (cl_stores c).

Lemma tier_step_ok c op : client_ok c → op_valid c op → ∃ c', tier_step c op = Ok c' ∧ client_ok c'.
Proof.
  destruct c as [s loads stores]. unfold client_ok. cbn [cl_manager cl_loads cl_stores]. intros Hinv.
  destruct op as [k req|keys|keys|keys req|keys req|keys req success|req|req| | |]; cbn [op_valid tier_step]; intros Hv.
  - destruct (tm_lookup_ok s loads stores k req Hinv) as (r & s' & -> & ?). by eexists.
  - destruct Hv as [Hr Hroom]. destruct (tm_load_ok s loads stores keys Hinv Hr Hroom) as (ids & s' & -> & ?). by eexists.
  - destruct (tm_loaded_ok s loads _ stores keys Hinv (take_out_perm keys loads Hv)) as (s' & -> & ?). by eexists.
  - eexists. split; [done|]. by apply tm_touch_ok.
  - destruct Hv as [Hnd Hroom]. destruct (tm_store_ok s loads stores keys req Hinv Hnd Hroom) as (r & s' & -> & ?). by eexists.
  - destruct Hv as [Hs Hroom]. destruct (tm_stored_ok s loads stores _ keys req success Hinv (take_out_perm keys stores Hs) Hroom)
      as (s' & -> & ?). by eexists.
  - destruct (tm_new_ok s loads stores req Hinv) as (r & s' & -> & ?). by eexists.
  - eexists. split; [done|]. by apply tm_done_ok.
  - destruct (tm_end_ok s loads stores Hinv) as (s' & -> & ?). by eexists.
  - eexists. split; [done|]. by apply tm_take_ok.
  - destruct (tm_reset_ok s loads stores Hinv) as (s' & -> & ? & _). by eexists.
Qed.

Lemma tier_reach_ok n events tiers c :
  0 ≤ n ≤ 2 ^ 63 → all_jobs tiers = [] → tier_reach n events tiers c → client_ok c.
Proof.
  intros Hn Ht. induction 1 as [|c op c' _ IH Hv Hs].
  - pose proof (off_reach_inv n events 0 64000 _ Hn (off_start (P := P) n events 0 64000)) as Hinv.
    assert (Hview : ∀ k, view (init_offload (P := P) n events 0 64000) k = None).
    { intros k. unfold view. cbn [init_offload off_policy]. destruct (cp_init_law (P := P) n ltac:(lia)) as [Hok He]. by rewrite cp_get_law, He. }
    split; cbn [cl_manager cl_loads cl_stores init_tiering primary_tier transfer_jobs pending_loads secondary_tiers request_level_tiers];
      rewrite ?Ht; try done.
    + split; try done.
      * intros k b. by rewrite Hview.
      * intros k b. by rewrite Hview.
      * by intros k ?%elem_of_nil.
      * apply NoDup_nil_2.
    + apply NoDup_nil_2.
    + by intros id ?%elem_of_nil.
    + split; [apply NoDup_nil_2|by constructor].
  - destruct (tier_step_ok c op IH Hv) as (c2 & E & Hok). rewrite Hs in E. by injection E as ->.
Qed.

(** C16: Whatever the secondary tiers answer and in whatever order they finish the
    jobs they were given, no call of the scheduler fails: every call that loads
    ready blocks and ends transfers that run returns, and no assertion about
    jobs, reference counts or block numbers is violated. *)
Theorem tiering_never_fails n events tiers c op :
  0 ≤ n ≤ 2 ^ 63 → all_jobs tiers = [] → tier_reach n events tiers c → op_valid c op → ∃ c', tier_step c op = Ok c'.
Proof.
  intros Hn Ht Hr Hv. destruct (tier_step_ok c op (tier_reach_ok _ _ _ _ Hn Ht Hr) Hv) as (c' & E & _). by exists c'.
Qed.

(** C17: In every state the reference count of a ready block of the primary tier is
    the number of transfers that read it: loads of the scheduler and jobs passing
    it on to secondary tiers; a block that is not ready is written by exactly one
    store or promotion; and the jobs of the tiers are exactly those registered. *)
Theorem tiering_refs_exact n events tiers c :
  0 ≤ n ≤ 2 ^ 63 → all_jobs tiers = [] → tier_reach n events tiers c →
  let s := cl_manager c in
  (∀ k b, view (primary_tier s) k = Some b →
     if is_ready b then bs_ref_cnt b = key_count k (cl_loads c) + job_reads (transfer_jobs s) k
     else key_count k (cl_stores c ++ pend_keys (pending_loads s) ++ promo_keys (transfer_jobs s)) = 1) ∧
  (∀ k, k ∈ cl_loads c → ready_in s k) ∧
  (transfer_jobs s).*1 ≡ₚ all_jobs (secondary_tiers s).
Proof.
  intros Hn Ht Hr s. pose proof (tier_reach_ok _ _ _ _ Hn Ht Hr) as [[H1 H2 H3 H4 H5 H6 H7] _ _ _ Hj _ _]. fold s in H1, H2, H3, H4, H5, H6, Hj.
  split_and!; [| |exact Hj].
  - intros k b Hk. destruct (is_ready b) eqn:Eb; [by apply H2|]. apply key_count_once; [exact H6|by eapply H3].
  - intros k Hk. apply H4. unfold reads_of. pose proof (job_reads_nonneg (transfer_jobs s) k). pose proof (key_count_pos k _ Hk). lia.
Qed.
End tiering.

(** ** An example *)

(** One block in the primary tier and one secondary tier.  "a" is stored and passed
    on, "b" takes its place, then "a" is asked for again: it is found in the
    secondary tier, brought back at the end of the step and loaded. *)
Definition demo_tier_ops : list tier_op :=
  [TNew "r"; TStore [[97]] "r"; TStored [[97]] "r" true; TEnd; TStore [[98]] "r"; TStored [[98]] "r" true; TEnd;
   TTake; TLookup [97] "r"; TEnd; TLookup [97] "r"; TLoad [[97]]; TLookup [98] "r"].

Definition total_reads {P T} (s : TieringManager P T) (loads : list OffloadKey) : Z :=
  zlen loads + foldr (λ j n, zlen (job_keys j.2) + n) 0 (transfer_jobs s).

Lemma total_reads_room {P T} (s : TieringManager P T) loads n : total_reads s loads + n < 2 ^ 31 → room s loads n.
Proof.
  intros H k. unfold reads_of. pose proof (key_count_bounds k loads) as Hb. enough (job_reads (transfer_jobs s) k ≤
    foldr (λ j n, zlen (job_keys j.2) + n) 0 (transfer_jobs s)) by (unfold total_reads in H; lia).
  clear. induction (transfer_jobs s) as [|j jobs IH]; cbn [job_reads foldr]; [done|].
  pose proof (key_count_bounds k (job_keys j.2)). destruct (is_promotion j.2); lia.
Qed.

Definition op_valid_b {P T} `{!CachePolicy P} `{!PolicyLaws P} (c : client (P := P) (T := T)) (op : tier_op) : bool :=
  let '(mkClient s loads stores) := c in
  match op with
  | TLoad keys => forallb (λ k, match view (primary_tier s) k with Some b => is_ready b | None => false end) keys &&
      (total_reads s loads + zlen keys <? 2 ^ 31)
  | TLoaded keys => bool_decide (keys ⊆+ loads)
  | TStore keys _ => bool_decide (NoDup keys) && (total_reads s loads + zlen keys * Z.of_nat (length (secondary_tiers s)) <? 2 ^ 31)
  | TStored keys _ _ => bool_decide (keys ⊆+ stores) && (total_reads s loads + zlen keys * Z.of_nat (length (secondary_tiers s)) <? 2 ^ 31)
  | _ => true
  end.

Lemma op_valid_b_ok {P T} `{!CachePolicy P} `{!PolicyLaws P} (c : client (P := P) (T := T)) op : op_valid_b c op = true → op_valid c op.
Proof.
  destruct c as [s loads stores], op; cbn [op_valid op_valid_b]; try done;
    rewrite ?andb_true_iff, ?bool_decide_eq_true, ?Z.ltb_lt; try done; intros [H1 H2]; (split; [try done|by apply total_reads_room]).
  intros k Hk. pose proof (proj1 (forallb_forall _ _) H1 k (proj1 (list_elem_of_In _ _) Hk)) as Hr. cbv beta in Hr. unfold ready_in.
  destruct (view (primary_tier s) k) as [b|]; [by exists b|done].
Qed.

Definition checked_step {P T} `{!CachePolicy P} `{!PolicyLaws P} `{!SecondaryTier T} (c : client (P := P) (T := T)) (op : tier_op)
    : result (client (P := P) (T := T)) :=
  if op_valid_b c op then tier_step elements c op else Raise AssertionError.

Definition demo_start : client (P := LRUCachePolicy) (T := ExampleTier) :=
  mkClient (init_tiering (init_offload 1 true 0 64000) [mkExample ∅ []] true) [] [].

Definition demo_tiers : client (P := LRUCachePolicy) (T := ExampleTier) :=
  match mfold checked_step demo_start demo_tier_ops with Ok c => c | Raise _ => demo_start end.

Lemma demo_no_jobs : all_jobs [mkExample ∅ []] = [].
Proof. reflexivity. Qed.

Lemma demo_tiers_run : mfold checked_step demo_start demo_tier_ops = Ok demo_tiers.
Proof. vm_compute. reflexivity. Qed.

Lemma demo_tiers_reach : tier_reach elements 1 true [mkExample ∅ []] demo_tiers.
Proof.
  refine (mfold_inv (tier_reach elements 1 true [mkExample ∅ []]) _ _ _ _ _ _ demo_tiers_run).
  - intros c op c' _ Hc H. unfold checked_step in H. destruct (op_valid_b c op) eqn:E; [|done].
    eapply tier_next; [exact Hc|by apply op_valid_b_ok|exact H].
  - apply tier_start.
Qed.

(** The block of "a" was brought back and is read once; "b" was found again, but
    there is no room for it while "a" is read. *)
Lemma tiering_refs_exact_witness :
  cl_loads demo_tiers = [[97]] ∧ view (primary_tier (cl_manager demo_tiers)) [97] = Some (mkStatus 1 0) ∧
  1 = key_count [97] (cl_loads demo_tiers) + job_reads (transfer_jobs (cl_manager demo_tiers)) [97].
Proof.
  assert (Hv : view (primary_tier (cl_manager demo_tiers)) [97] = Some (mkStatus 1 0)) by (vm_compute; reflexivity).
  split; [vm_compute; reflexivity|]. split; [exact Hv|].
  exact (proj1 (tiering_refs_exact elements (λ s, Permutation_refl _) 1 true [mkExample ∅ []] demo_tiers ltac:(lia) demo_no_jobs
    demo_tiers_reach) [97] (mkStatus 1 0) Hv).
Defined.

Lemma demo_loaded_valid : op_valid demo_tiers (TLoaded [[97]]).
Proof. apply op_valid_b_ok. vm_compute. reflexivity. Qed.

Lemma tiering_never_fails_witness : ∃ c', tier_step elements demo_tiers (TLoaded [[97]]) = Ok c' ∧ cl_loads c' = [].
Proof.
  destruct (tiering_never_fails elements (λ s, Permutation_refl _) 1 true [mkExample ∅ []] demo_tiers (TLoaded [[97]]) ltac:(lia)
    demo_no_jobs demo_tiers_reach demo_loaded_valid) as [c' E].
  exists c'. split; [exact E|]. vm_compute in E. injection E as <-. reflexivity.
Defined.
