(* ===== verification/Rejection.v ===== *)
(** * Verification of draft tokens
    The rejection sampler of [sample/rejection_sampler.py] and the index arrays it
    works on ([spec_decode/metadata.py] and the model runner): the kernels on the
    flat buffers of the device, the sampling of a whole batch, and the reading of
    its output.  Probabilities are exact fractions instead of floating-point
    numbers.  What comes from the tensor library (arg-max and softmax of a row of
    logits, random numbers) is a parameter. *)

From Stdlib Require Import QArith Qminmax.
From S2P Require Import Prelude OrderedDict.

#[local] Open Scope Z_scope.

Definition PLACEHOLDER_TOKEN_ID : Z := -1.
Definition GREEDY_TEMPERATURE : Q := 0.
Definition MAX_SPEC_LEN : Z := 128.

(** ** Device memory *)

(** An access outside its buffer is an error, as is one through a null pointer. *)
Definition tl_load {A} (buf : list A) (i : Z) : result A :=
  if i <? 0 then Raise IndexError else py_index buf i.

Definition tl_store {A} (buf : list A) (i : Z) (x : A) : result (list A) :=
  if (0 <=? i) && (i <? zlen buf) then Ok (<[Z.to_nat i := x]> buf) else Raise IndexError.

Definition ptr_load {A} (buf : option (list A)) (i : Z) : result A :=
  match buf with Some buf => tl_load buf i | None => Raise AttributeError end.

(** A mask of [tl.load]. *)
Definition masked_load {A} (buf : list A) (i : Z) (mask : bool) (other : A) : result A :=
  if mask then tl_load buf i else Ok other.

(** Where the tokens of a request start, from the cumulative counts. *)
Definition start_idx (cu : list Z) (req_idx : Z) : result Z :=
  if req_idx =? 0 then Ok 0 else tl_load cu (req_idx - 1).

(** Where row [i] of a tensor with [vocab_size] columns starts: a product of two
    32-bit integers, which wraps around; column offsets are added to the pointer
    in 64 bits. *)
Definition row_start (i vocab_size : Z) : Z := c_int 32 (i * vocab_size).

(** ** Greedy requests *)

Definition Qlt_b (x y : Q) : bool := negb (Qle_bool y x).

(** One round of the loop over the draft tokens; [syn] holds the uniform numbers and
    the acceptance rates in synthetic mode. *)
Definition greedy_pos (draft_token_ids target_argmax : list Z) (syn : option (option (list Q) * option (list Q)))
    (start row : Z) (st : bool * list Z) (pos : Z) : result (bool * list Z) :=
  let '(rejected, out) := st in
  if (rejected : bool) then Ok (rejected, out)
  else
    draft_token_id ← tl_load draft_token_ids (start + pos);
    target_argmax_id ← tl_load target_argmax (start + pos);
    let target_argmax_id := c_int 32 target_argmax_id in
    '(token_id, rejected) ← match syn with
      | Some (uniform_probs, rates) =>
          uniform_prob ← ptr_load uniform_probs (start + pos);
          rate ← ptr_load rates pos;
          let accepted := Qlt_b uniform_prob rate in
          Ok (if accepted then draft_token_id else target_argmax_id, negb accepted)
      | None => Ok (target_argmax_id, negb (draft_token_id =? target_argmax_id))
      end;
    out ← tl_store out (row + pos) token_id;
    Ok (rejected, out).

Definition rejection_greedy_sample_kernel (cu draft_token_ids target_argmax bonus_token_ids : list Z)
    (is_greedy : option (list bool)) (max_spec_len : Z) (syn : option (option (list Q) * option (list Q)))
    (out : list Z) (req_idx : Z) : result (list Z) :=
  greedy ← match is_greedy with None => Ok true | Some l => tl_load l req_idx end;
  if negb greedy then Ok out
  else
    start ← start_idx cu req_idx;
    end_idx ← tl_load cu req_idx;
    let num_draft_tokens := end_idx - start in
    let row := req_idx * (max_spec_len + 1) in
    '(rejected, out) ← mfold (greedy_pos draft_token_ids target_argmax syn start row) (false, out) (py_range 0 num_draft_tokens);
    if (rejected : bool) then Ok out
    else
      bonus_token_id ← tl_load bonus_token_ids req_idx;
      tl_store out (row + num_draft_tokens) bonus_token_id.

(** ** Requests that sample *)

(** The test on a draft token with probability [p] under the target model and [q]
    under the draft model. *)
Definition accepts (u p q : Q) : bool := Qlt_b 0 q && Qle_bool u (p / q).

(** The loads around the test; [draft_probs] and [target_probs] are flat. *)
Definition accept_draft (draft_probs : option (list Q)) (target_probs uniform_probs : list Q) (rates : option (option (list Q)))
    (vocab_size start pos draft_token_id : Z) : result bool :=
  uniform_prob ← tl_load uniform_probs (start + pos);
  match rates with
  | Some rates => rate ← ptr_load rates pos; Ok (Qlt_b uniform_prob rate)
  | None =>
      draft_prob ← match draft_probs with
        | None => Ok 1%Q
        | Some l => tl_load l (row_start (start + pos) vocab_size + draft_token_id)
        end;
      target_prob ← tl_load target_probs (row_start (start + pos) vocab_size + draft_token_id);
      Ok (accepts uniform_prob target_prob draft_prob)
  end.

Definition random_pos (draft_token_ids : list Z) (draft_probs : option (list Q)) (target_probs uniform_probs : list Q)
    (recovered_token_ids : list Z) (rates : option (option (list Q))) (vocab_size start row : Z)
    (st : bool * list Z) (pos : Z) : result (bool * list Z) :=
  let '(rejected, out) := st in
  if (rejected : bool) then Ok (rejected, out)
  else
    draft_token_id ← tl_load draft_token_ids (start + pos);
    accepted ← accept_draft draft_probs target_probs uniform_probs rates vocab_size start pos draft_token_id;
    '(rejected, token_id) ← (if (accepted : bool) then Ok (false, draft_token_id)
      else token_id ← tl_load recovered_token_ids (start + pos); Ok (true, token_id));
    out ← tl_store out (row + pos) token_id;
    Ok (rejected, out).

Definition rejection_random_sample_kernel (cu draft_token_ids : list Z) (draft_probs : option (list Q))
    (target_probs : list Q) (bonus_token_ids recovered_token_ids : list Z) (uniform_probs : list Q)
    (is_greedy : option (list bool)) (max_spec_len vocab_size : Z) (rates : option (option (list Q)))
    (out : list Z) (req_idx : Z) : result (list Z) :=
  greedy ← ptr_load is_greedy req_idx;
  if (greedy : bool) then Ok out
  else
    start ← start_idx cu req_idx;
    end_idx ← tl_load cu req_idx;
    let num_draft_tokens := end_idx - start in
    let row := req_idx * (max_spec_len + 1) in
    '(rejected, out) ← mfold (random_pos draft_token_ids draft_probs target_probs uniform_probs recovered_token_ids rates
        vocab_size start row) (false, out) (py_range 0 num_draft_tokens);
    if (rejected : bool) then Ok out
    else
      bonus_token_id ← tl_load bonus_token_ids req_idx;
      tl_store out (row + num_draft_tokens) bonus_token_id.

(** ** Recovered tokens *)

(** Scores with [None] for minus infinity. *)
Definition score_lt (x y : option Q) : bool :=
  match x, y with
  | _, None => false
  | None, Some _ => true
  | Some x, Some y => Qlt_b x y
  end.

(** [tl.max(..., return_indices=True)]: the leftmost maximum. *)
Fixpoint tl_max (l : list (option Q)) : option Q * Z :=
  match l with
  | [] => (None, 0)
  | x :: l => let '(m, i) := tl_max l in if score_lt x m then (m, i + 1) else (x, 0)
  end.

Definition residual_prob (target_prob draft_prob : Q) : Q := Qmax (target_prob - draft_prob) 0.

(** The score of one entry of the vocabulary. *)
Definition token_score (draft_token_ids : list Z) (draft_probs : option (list Q)) (target_probs inv_q : list Q)
    (vocab_size req_idx token_idx vocab_offset : Z) : result (option Q) :=
  let vocab_mask := vocab_offset <? vocab_size in
  prob ← match draft_probs with
    | None =>
        draft_token_id ← tl_load draft_token_ids token_idx;
        masked_load target_probs (row_start token_idx vocab_size + vocab_offset) (vocab_mask && negb (vocab_offset =? draft_token_id)) 0%Q
    | Some draft_probs =>
        draft_prob ← masked_load draft_probs (row_start token_idx vocab_size + vocab_offset) vocab_mask 0%Q;
        target_prob ← masked_load target_probs (row_start token_idx vocab_size + vocab_offset) vocab_mask 0%Q;
        Ok (residual_prob target_prob draft_prob)
    end;
  inv ← masked_load inv_q (row_start req_idx vocab_size + vocab_offset) vocab_mask 0%Q;
  Ok (if vocab_mask then Some (prob * inv)%Q else None).

Definition tile_step (score : Z → result (option Q)) (BLOCK_SIZE : Z) (st : option Q * Z) (v : Z) : result (option Q * Z) :=
  let '(max_val, recovered_id) := st in
  scores ← mmap (λ o, score (v + o)) (py_range 0 BLOCK_SIZE);
  let '(local_max, local_id) := tl_max scores in
  Ok (if score_lt max_val local_max then (local_max, v + local_id) else (max_val, recovered_id)).

(** [range(0, vocab_size, BLOCK_SIZE)] *)
Definition tiles (vocab_size BLOCK_SIZE : Z) : list Z :=
  (λ i, i * BLOCK_SIZE) <$> py_range 0 ((vocab_size + BLOCK_SIZE - 1) / BLOCK_SIZE).

Definition sample_recovered_tokens_kernel (cu draft_token_ids : list Z) (draft_probs : option (list Q)) (target_probs inv_q : list Q)
    (vocab_size BLOCK_SIZE : Z) (out : list Z) (prog : Z * Z) : result (list Z) :=
  let '(req_idx, pos) := prog in
  start ← start_idx cu req_idx;
  end_idx ← tl_load cu req_idx;
  if end_idx - start <=? pos then Ok out
  else
    let token_idx := start + pos in
    '(_, recovered_id) ← mfold (tile_step (token_score draft_token_ids draft_probs target_probs inv_q vocab_size req_idx token_idx)
        BLOCK_SIZE) (None, 0) (tiles vocab_size BLOCK_SIZE);
    tl_store out token_idx (Z.min recovered_id (vocab_size - 1)).

(** ** Per-request values for every token *)

Definition expand_kernel {A} (input : list A) (replace : A → A) (cu : list Z) (MAX_NUM_TOKENS : Z) (out : list A) (req_idx : Z)
    : result (list A) :=
  start ← start_idx cu req_idx;
  end_idx ← tl_load cu req_idx;
  src_val ← tl_load input req_idx;
  mfold (λ out offset, if offset <? end_idx - start then tl_store out (start + offset) (replace src_val) else Ok out)
    out (py_range 0 MAX_NUM_TOKENS).

(** [empty] is the uninitialised result. *)
Definition expand_batch_to_tokens (empty x : list Q) (cu_num_tokens : list Z) (replace_from replace_to : Q) : result (list Q) :=
  _ ← py_assert (zlen cu_num_tokens =? zlen x);
  mfold (expand_kernel x (λ v, if Qeq_bool v replace_from then replace_to else v) cu_num_tokens MAX_SPEC_LEN)
    empty (py_range 0 (zlen x)).

(** ** The sampling of a batch *)

(** [G] is the type of random generators, [L] that of logits. *)
Section sampling.
Context {G L : Type}.
Context (uniform_ exponential_ : G → nat → list Q * G).   (* the next [n] numbers of a generator *)
Context (argmax : list L → Z) (softmax : list L → list Q).

Record SamplingMetadata := mkSampling {
  all_greedy : bool;
  all_random : bool;
  temperature : list Q;
  generators : list (Z * G);
}.

Definition seed_slice (st : list Q * Z * list (Z * G)) (req : Z * Z) : list Q * Z * list (Z * G) :=
  let '(uniform_probs, start, gens) := st in
  let '(req_idx, n) := req in
  if n =? 0 then (uniform_probs, start, gens)
  else
    let end_idx := start + n in
    match od_get gens req_idx with
    | None => (uniform_probs, end_idx, gens)
    | Some g =>
        let '(xs, g) := uniform_ g (length (py_slice uniform_probs start end_idx)) in
        (take (Z.to_nat start) uniform_probs ++ xs ++ drop (Z.to_nat end_idx) uniform_probs, end_idx, od_set gens req_idx g)
    end.

(** [enumerate(l)] *)
Definition enumerate {A} (l : list A) : list (Z * A) := zip (py_range 0 (zlen l)) l.

(** [rand] is what the default generator returns. *)
Definition generate_uniform_probs (rand : list Q) (num_draft_tokens : list Z) (gens : list (Z * G)) : list Q * list (Z * G) :=
  let '(probs, _, gens) := foldl seed_slice (rand, 0, gens) (enumerate num_draft_tokens) in (probs, gens).

Definition seed_row (num_draft_tokens : list Z) (vocab_size : Z) (st : list (list Q) * list (Z * G)) (p : Z * G)
    : result (list (list Q) * list (Z * G)) :=
  let '(q, gens) := st in
  let '(i, g) := p in
  n ← tl_load num_draft_tokens i;
  if 0 <? n then
    let '(xs, g) := exponential_ g (Z.to_nat vocab_size) in
    q ← tl_store q i xs;
    Ok (q, od_set gens i g)
  else Ok (q, gens).

(** [expo] is what the default generator returns and [empty] the uninitialised result. *)
Definition sample_recovered_tokens (expo : list (list Q)) (empty : list Z) (max_spec_len : Z) (num_draft_tokens cu draft_token_ids : list Z)
    (draft_probs : option (list Q)) (target_probs : list Q) (vocab_size BLOCK_SIZE : Z) (gens : list (Z * G))
    : result (list Z * list (Z * G)) :=
  '(q, gens) ← mfold (seed_row num_draft_tokens vocab_size) (expo, gens) gens;
  let inv_q := Qinv <$> concat q in
  out ← mfold (sample_recovered_tokens_kernel cu draft_token_ids draft_probs target_probs inv_q vocab_size BLOCK_SIZE) empty
    (i ← py_range 0 (zlen num_draft_tokens); pos ← py_range 0 max_spec_len; [(i, pos)]);
  Ok (out, gens).

(** What a launch draws from the default generator, and memory as it was found. *)
Record Launch := mkLaunch { la_rand : list Q; la_expo : list (list Q); la_empty : list Z }.

Definition rejection_sample (la : Launch) (draft_token_ids num_draft_tokens : list Z) (max_spec_len : Z) (cu : list Z)
    (draft_probs : option (list (list Q))) (target_logits : list (list L)) (vocab_size : Z) (bonus_token_ids : list Z)
    (sm : SamplingMetadata) (synthetic_mode : bool) (rates : option (list Q)) : result (list Z * list (Z * G)) :=
  _ ← py_assert (bool_decide (length target_logits = length draft_token_ids) &&
        forallb (λ row, zlen row =? vocab_size) target_logits);
  let batch_size := zlen num_draft_tokens in
  let out := replicate (Z.to_nat (batch_size * (max_spec_len + 1))) PLACEHOLDER_TOKEN_ID in
  let is_greedy := if all_greedy sm then None else Some ((λ t, Qeq_bool t GREEDY_TEMPERATURE) <$> temperature sm) in
  let '(uniform_probs, gens) :=
    if synthetic_mode || negb (all_greedy sm) then
      let '(u, gens) := generate_uniform_probs (la_rand la) num_draft_tokens (generators sm) in (Some u, gens)
    else (None, generators sm) in
  out ← (if all_random sm then Ok out
         else
           mfold (rejection_greedy_sample_kernel cu draft_token_ids (argmax <$> target_logits) bonus_token_ids is_greedy max_spec_len
             (if synthetic_mode then Some (uniform_probs, rates) else None)) out (py_range 0 batch_size));
  if negb (all_random sm) && all_greedy sm then Ok (out, gens)
  else
    let draft_probs_ptr := (λ rows, concat rows) <$> draft_probs in
    let target_probs := concat (softmax <$> target_logits) in
    '(recovered_token_ids, gens) ← sample_recovered_tokens (la_expo la) (la_empty la) max_spec_len num_draft_tokens cu draft_token_ids
        draft_probs_ptr target_probs vocab_size 8192 gens;
    match uniform_probs with
    | None => Raise AssertionError
    | Some uniform_probs =>
        out ← mfold (rejection_random_sample_kernel cu draft_token_ids draft_probs_ptr target_probs bonus_token_ids
          recovered_token_ids uniform_probs is_greedy max_spec_len vocab_size
          (if synthetic_mode then Some rates else None)) out (py_range 0 batch_size);
        Ok (out, gens)
    end.
End sampling.

(** ** Reading the output *)

(** The rows of a flat buffer. *)
Definition rows_of {A} (width : Z) (n : Z) (buf : list A) : list (list A) :=
  (λ i, py_slice buf (i * width) ((i + 1) * width)) <$> py_range 0 n.

Definition token_valid (vocab_size t : Z) : bool := negb (t =? PLACEHOLDER_TOKEN_ID) && (t <? vocab_size).

(** [np.cumsum] of 32-bit integers *)
Fixpoint cumsum_from (acc : Z) (l : list Z) : list Z :=
  match l with
  | [] => []
  | x :: l => let acc := c_int 32 (acc + x) in acc :: cumsum_from acc l
  end.
Definition np_cumsum (l : list Z) : list Z := cumsum_from 0 l.

(** [row[mask]] *)
Fixpoint select_mask (row : list Z) (mask : list bool) : list Z :=
  match row, mask with
  | x :: row, b :: mask => if b then x :: select_mask row mask else select_mask row mask
  | _, _ => []
  end.

Definition count_true (mask : list bool) : Z := foldr (λ b n, if (b : bool) then n + 1 else n) 0 mask.

Definition discard_row (mask : list (list bool)) (i : Z) : result (list (list bool)) :=
  row ← tl_load mask i; tl_store mask i ((λ _, false) <$> row).

(** The valid tokens of each row, none for the rows to discard; with log
    probabilities also where the entries of each row start. *)
Definition parse_output (output_token_ids : list (list Z)) (vocab_size : Z) (discard_req_indices : list Z) (logprobs : bool)
    : result (list (list Z) * option (list Z)) :=
  let valid_mask : list (list bool) := (λ row : list Z, token_valid vocab_size <$> row) <$> output_token_ids in
  let cu := if logprobs then Some (0 :: np_cumsum (count_true <$> valid_mask)) else None in
  valid_mask ← mfold discard_row valid_mask discard_req_indices;
  Ok (zip_with select_mask output_token_ids valid_mask, cu).

(** ** Index arrays *)

Record SpecDecodeMetadata := mkSpecMeta {
  draft_token_ids : list Z;
  num_draft_tokens : list Z;
  cu_num_draft_tokens : list Z;
  cu_num_sampled_tokens : list Z;
  target_logits_indices : list Z;
  bonus_logits_indices : list Z;
  logits_indices : list Z;
}.

Definition max_spec_len (md : SpecDecodeMetadata) : result Z := py_max (num_draft_tokens md).

Definition np_repeat (l counts : list Z) : list Z := concat (zip_with (λ x n, replicate (Z.to_nat n) x) l counts).

(** Elementwise operations on arrays of one length. *)
Definition np_zip (f : Z → Z → Z) (a b : list Z) : result (list Z) :=
  if decide (length a = length b) then Ok (zip_with f a b) else Raise ValueError.

Definition _get_cumsum_and_arange (arange_np : list Z) (num_tokens arange_out : list Z) : result (list Z * list Z) :=
  let cu_num_tokens := np_cumsum num_tokens in
  total_num_tokens ← py_index_back cu_num_tokens 1;
  offsets ← np_zip Z.sub cu_num_tokens num_tokens;
  let cumsums_offsets := np_repeat offsets num_tokens in
  xs ← np_zip Z.sub (take (Z.to_nat total_num_tokens) arange_np) cumsums_offsets;
  _ ← (if decide (length xs = length (take (Z.to_nat total_num_tokens) arange_out)) then Ok tt else Raise ValueError);
  Ok (cu_num_tokens, xs ++ drop (Z.to_nat total_num_tokens) arange_out).

(** Indexing a tensor with a tensor; a negative index counts from the end. *)
Definition gather {A} (t : list A) (idx : list Z) : result (list A) :=
  mmap (λ i, if i <? 0 then py_index_back t (- i) else py_index t i) idx.

Definition _calc_spec_decode_metadata (arange_np scratch input_ids : list Z) (num_draft_tokens cu_num_scheduled_tokens : list Z)
    : result (SpecDecodeMetadata * list Z) :=
  let num_sampled_tokens := (λ n, n + 1) <$> num_draft_tokens in
  '(cu_num_sampled_tokens, scratch) ← _get_cumsum_and_arange arange_np num_sampled_tokens scratch;
  firsts ← np_zip Z.sub cu_num_scheduled_tokens num_sampled_tokens;
  total ← py_index_back cu_num_sampled_tokens 1;
  logits_indices ← np_zip Z.add (np_repeat firsts num_sampled_tokens) (take (Z.to_nat total) scratch);
  let bonus_logits_indices := (λ c, c - 1) <$> cu_num_sampled_tokens in
  '(cu_num_draft_tokens, scratch) ← _get_cumsum_and_arange arange_np num_draft_tokens scratch;
  rows ← np_zip Z.sub cu_num_sampled_tokens num_sampled_tokens;
  total ← py_index_back cu_num_draft_tokens 1;
  target_logits_indices ← np_zip Z.add (np_repeat rows num_draft_tokens) (take (Z.to_nat total) scratch);
  ids ← gather input_ids logits_indices;
  draft_token_ids ← gather ids ((λ i, i + 1) <$> target_logits_indices);
  Ok (mkSpecMeta draft_token_ids num_draft_tokens cu_num_draft_tokens cu_num_sampled_tokens target_logits_indices
    bonus_logits_indices logits_indices, scratch).

(** The rows of logits from which the tokens of the output were sampled. *)
Definition accepted_logit_indices (cu_num_sampled_tokens : list Z) (width num_logits : Z) : list Z :=
  starts ← 0 :: removelast cu_num_sampled_tokens;
  (λ o, Z.min (starts + o) (num_logits - 1)) <$> py_range 0 width.

(** The outputs each draft token is seen with. *)
Definition _combine_outputs_with_spec_tokens (output_token_ids : list (list Z)) (spec_token_ids : option (list (list Z)))
    : list (list Z) :=
  match spec_token_ids with
  | None => output_token_ids
  | Some spec_token_ids =>
      foldl (λ res p, let '(out, spec) := p in
        match spec with
        | [] => res
        | _ => foldl (λ res t, res ++ [List.last res [] ++ [t]]) (res ++ [out]) (removelast spec)
        end) [] (zip output_token_ids spec_token_ids)
  end.

(** Rates of acceptance given that the position before was accepted. *)
Definition unconditional_to_conditional_rates (rates : list Q) : list Q :=
  zip_with (λ p q, if Qlt_b 0 q then (p / q)%Q else 0%Q) rates (1%Q :: removelast rates).

(** The arrays of the comment in [_calc_spec_decode_metadata]. *)
Example calc_spec_decode_metadata_comment :
  _calc_spec_decode_metadata (py_range 0 300) (py_range 0 300) (py_range 1000 1300) [3; 0; 2; 0; 1] [4; 104; 107; 207; 209] =
  Ok (mkSpecMeta [1001; 1002; 1003; 1105; 1106; 1208] [3; 0; 2; 0; 1] [3; 3; 5; 5; 6] [4; 5; 8; 9; 11]
        [0; 1; 2; 5; 6; 9] [3; 4; 7; 8; 10] [0; 1; 2; 3; 103; 104; 105; 106; 206; 207; 208],
      [0; 1; 2; 0; 1; 0; 1; 2; 0; 0; 1] ++ py_range 11 300).
Proof. vm_compute. reflexivity. Qed.
