(* ===== verification/RejectionFacts.v ===== *)
(** * Verification of draft tokens: what the sampler returns
    The kernels never leave their buffers, the programs of a launch may run in any
    order, and each request gets the tokens a direct definition gives it. *)

From Stdlib Require Import QArith Qminmax Lqa.
From S2P Require Import Prelude OrderedDict Rejection.

#[local] Open Scope Z_scope.

(** ** Buffers *)

Lemma tl_load_lookup {A} (buf : list A) i x : 0 ≤ i → buf !! Z.to_nat i = Some x → tl_load buf i = Ok x.
Proof. intros Hi Hx. unfold tl_load, py_index. destruct (Z.ltb_spec i 0); [lia|]. by rewrite Hx. Qed.

Lemma tl_store_ok {A} (buf : list A) i x : 0 ≤ i < zlen buf → tl_store buf i x = Ok (<[Z.to_nat i := x]> buf).
Proof. intros Hi. unfold tl_store. by rewrite (proj2 (Z.leb_le _ _)), (proj2 (Z.ltb_lt _ _)) by lia. Qed.

(** [ts] written over a buffer from position [i] on. *)
Definition write {A} (buf : list A) (i : nat) (ts : list A) : list A := take i buf ++ ts ++ drop (i + length ts) buf.

Lemma write_length {A} (buf : list A) i ts : (i + length ts ≤ length buf)%nat → length (write buf i ts) = length buf.
Proof. intros H. unfold write. rewrite !length_app, length_take, length_drop. lia. Qed.

Lemma write_nil {A} (buf : list A) i : write buf i [] = buf.
Proof. unfold write. cbn. rewrite Nat.add_0_r. apply take_drop. Qed.

Lemma write_snoc {A} (buf : list A) i ts t :
  (i + length ts < length buf)%nat → <[(i + length ts)%nat := t]> (write buf i ts) = write buf i (ts ++ [t]).
Proof.
  intros H. unfold write. assert (Hi : length (take i buf) = i) by (rewrite length_take; lia).
  rewrite insert_app_r_alt by lia. rewrite Hi. replace (i + length ts - i)%nat with (length ts) by lia.
  rewrite insert_app_r_alt by lia. rewrite Nat.sub_diag, length_app. cbn [length].
  destruct (drop (i + length ts) buf) as [|x l] eqn:E.
  { apply (f_equal length) in E. rewrite length_drop in E. cbn in E. lia. }
  replace (i + (length ts + 1))%nat with (i + length ts + 1)%nat by lia. rewrite <-drop_drop, E. cbn. by rewrite <-!(assoc_L (++)).
Qed.

(** Rows of one width. *)
Section rows.
Context {A : Type} (w : nat).
Implicit Types rows : list (list A).

Lemma concat_rows_length rows : Forall (λ r, length r = w) rows → length (concat rows) = (length rows * w)%nat.
Proof. induction 1 as [|r rows Hr _ IH]; [done|]. cbn [concat length]. rewrite length_app, Hr, IH. lia. Qed.

Lemma concat_rows_take rows i : Forall (λ r, length r = w) rows → take (i * w) (concat rows) = concat (take i rows).
Proof.
  intros H. revert i. induction H as [|r rows Hr _ IH]; intros [|i]; [done|cbn [concat]; by rewrite !take_nil|done|].
  cbn [concat take Nat.mul]. rewrite take_app_ge by lia. rewrite Hr. replace (w + i * w - w)%nat with (i * w)%nat by lia. by rewrite IH.
Qed.

Lemma concat_rows_drop rows i : Forall (λ r, length r = w) rows → drop (i * w) (concat rows) = concat (drop i rows).
Proof.
  intros H. revert i. induction H as [|r rows Hr _ IH]; intros [|i]; [done|cbn [concat]; by rewrite !drop_nil|done|].
  cbn [concat drop Nat.mul]. rewrite drop_app_ge by lia. rewrite Hr. replace (w + i * w - w)%nat with (i * w)%nat by lia. by rewrite IH.
Qed.

Lemma concat_rows_lookup rows i j r :
  Forall (λ r, length r = w) rows → rows !! i = Some r → (j < w)%nat → concat rows !! (i * w + j)%nat = r !! j.
Proof.
  intros H Hi Hj. assert (Hr : length r = w) by exact (proj1 (Forall_lookup _ _) H i r Hi).
  rewrite <-lookup_drop, concat_rows_drop by done. rewrite (drop_S _ _ _ Hi). cbn [concat]. rewrite lookup_app_l; [done|lia].
Qed.

Lemma write_row rows i r ts :
  Forall (λ r, length r = w) rows → rows !! i = Some r → (length ts ≤ w)%nat →
  write (concat rows) (i * w) ts = concat (<[i := ts ++ drop (length ts) r]> rows).
Proof.
  intros H Hi Hts. assert (Hr : length r = w) by exact (proj1 (Forall_lookup _ _) H i r Hi).
  unfold write. rewrite <-drop_drop, concat_rows_take, concat_rows_drop by done.
  rewrite (drop_S _ _ _ Hi), insert_take_drop by (by eapply lookup_lt_Some). rewrite concat_app. cbn [concat].
  rewrite drop_app_le by lia. by rewrite <-(assoc_L (++)).
Qed.
End rows.

(** ** One request *)

(** The decisions on the draft tokens of a request: the token to emit, and whether
    the draft is rejected; and what is emitted. *)
Fixpoint emit (ds : list (Z * bool)) (bonus : Z) : list Z :=
  match ds with
  | [] => [bonus]
  | (t, rejected) :: ds => t :: if rejected then [] else emit ds bonus
  end.

Fixpoint emit_drafts (ds : list (Z * bool)) : list Z :=
  match ds with
  | [] => []
  | (t, rejected) :: ds => t :: if rejected then [] else emit_drafts ds
  end.

Definition any_rejected (ds : list (Z * bool)) : bool := existsb snd ds.

Lemma emit_split ds bonus : emit ds bonus = emit_drafts ds ++ if any_rejected ds then [] else [bonus].
Proof. induction ds as [|[t [|]] ds IH]; [done..|]. cbn. by rewrite IH. Qed.

Lemma emit_drafts_length ds : (length (emit_drafts ds) ≤ length ds)%nat.
Proof. induction ds as [|[t [|]] ds IH]; cbn; lia. Qed.

Lemma emit_drafts_all ds : any_rejected ds = false → length (emit_drafts ds) = length ds.
Proof. induction ds as [|[t [|]] ds IH]; [done..|]. cbn. intros. f_equal. by apply IH. Qed.

Lemma emit_length ds bonus : (1 ≤ length (emit ds bonus) ≤ length ds + 1)%nat.
Proof. induction ds as [|[t [|]] ds IH]; cbn; lia. Qed.

(** A round of either loop: decide, then store. *)
Definition pos_step (dec : Z → result (Z * bool)) (row : Z) (st : bool * list Z) (pos : Z) : result (bool * list Z) :=
  let '(rejected, out) := st in
  if (rejected : bool) then Ok (rejected, out)
  else '(t, rejected) ← dec pos; out ← tl_store out (row + pos) t; Ok (rejected, out).

Lemma pos_steps_rejected dec row out l : mfold (pos_step dec row) (true, out) l = Ok (true, out).
Proof. by induction l. Qed.

Lemma pos_steps dec (row : nat) out done ds :
  (∀ i d, ds !! i = Some d → dec (Z.of_nat (length done + i)) = Ok d) → (row + length done + length ds ≤ length out)%nat →
  mfold (pos_step dec (Z.of_nat row)) (false, write out row done) (py_range (zlen done) (zlen done + zlen ds)) =
    Ok (any_rejected ds, write out row (done ++ emit_drafts ds)).
Proof.
  revert done. induction ds as [|[t r] ds IH]; intros done Hdec Hlen.
  - rewrite py_range_nil by (rewrite zlen_nil; lia). cbn. by rewrite app_nil_r.
  - cbn [length] in Hlen. rewrite zlen_cons. pose proof (zlen_nonneg ds). rewrite py_range_cons by lia. cbn [mfold pos_step].
    assert (dec (zlen done) = Ok (t, r)) as -> by (unfold zlen; rewrite <-(Hdec 0%nat (t, r)); [f_equal; lia|done]).
    cbn [mbind result_bind]. rewrite tl_store_ok by (unfold zlen; rewrite write_length; lia). cbn [mbind result_bind].
    replace (Z.to_nat (Z.of_nat row + zlen done)) with (row + length done)%nat by (unfold zlen; lia).
    rewrite write_snoc by lia. destruct r; cbn [emit_drafts any_rejected existsb snd orb]; [apply pos_steps_rejected|].
    replace (zlen done + 1) with (zlen (done ++ [t])) by (by rewrite zlen_app).
    replace (zlen done + (zlen ds + 1)) with (zlen (done ++ [t]) + zlen ds) by (rewrite zlen_app; unfold zlen; cbn; lia).
    rewrite IH.
    + by rewrite <-(assoc_L (++)).
    + intros i d Hi. rewrite length_app. cbn [length]. rewrite <-(Hdec (S i) d Hi). f_equal. lia.
    + rewrite length_app. cbn. lia.
Qed.

(** The program of a request writes what it emits at the start of its row. *)
Lemma request_program dec (row : nat) out ds bonus load_bonus :
  (∀ i d, ds !! i = Some d → dec (Z.of_nat i) = Ok d) → (row + length ds < length out)%nat → load_bonus = Ok bonus →
  ('(rejected, out) ← mfold (pos_step dec (Z.of_nat row)) (false, out) (py_range 0 (zlen ds));
   if (rejected : bool) then Ok out else b ← load_bonus; tl_store out (Z.of_nat row + zlen ds) b) =
    Ok (write out row (emit ds bonus)).
Proof.
  intros Hdec Hlen ->. pose proof (pos_steps dec row out [] ds Hdec ltac:(cbn; lia)) as E. rewrite write_nil in E. cbn [app] in E.
  rewrite zlen_nil in E. replace (0 + zlen ds) with (zlen ds) in E by lia. rewrite E. cbn [mbind result_bind].
  rewrite emit_split. pose proof (emit_drafts_length ds). destruct (any_rejected ds) eqn:Er; [by rewrite app_nil_r|].
  cbn [mbind result_bind]. rewrite tl_store_ok by (unfold zlen; rewrite write_length; lia).
  replace (Z.to_nat (Z.of_nat row + zlen ds)) with (row + length (emit_drafts ds))%nat by (rewrite emit_drafts_all by done; unfold zlen; lia).
  rewrite write_snoc; [done|lia].
Qed.

(** ** Launches *)

Definition fill (ts : option (list Z)) (row : list Z) : list Z :=
  match ts with Some ts => ts ++ drop (length ts) row | None => row end.

(** Programs that write at most at the start of their own row give the same buffer
    in whatever order they run. *)
Lemma launch_rows (k : list Z → Z → result (list Z)) w e rows order :
  Forall (λ r, length r = w) rows → NoDup order →
  (∀ i, i ∈ order → (i < length rows)%nat ∧ (∀ ts, e i = Some ts → (length ts ≤ w)%nat) ∧
     ∀ out, length out = (length rows * w)%nat → k out (Z.of_nat i) = Ok (match e i with Some ts => write out (i * w) ts | None => out end)) →
  ∃ rows', mfold k (concat rows) (Z.of_nat <$> order) = Ok (concat rows') ∧ length rows' = length rows ∧
    Forall (λ r, length r = w) rows' ∧
    ∀ i r, rows !! i = Some r → rows' !! i = Some (if decide (i ∈ order) then fill (e i) r else r).
Proof.
  revert rows. induction order as [|i order IH]; intros rows Hw Hnd Hk.
  - exists rows. split_and!; [done..|]. intros i r Hr. by rewrite decide_False by apply not_elem_of_nil.
  - apply NoDup_cons in Hnd as [Hi Hnd]. destruct (Hk i ltac:(by left)) as (Hlt & Hlen & Hki).
    destruct (lookup_lt_is_Some_2 _ _ Hlt) as [ri Hri]. assert (Hriw : length ri = w) by exact (proj1 (Forall_lookup _ _) Hw i ri Hri).
    set (rows1 := <[i := fill (e i) ri]> rows).
    assert (E1 : k (concat rows) (Z.of_nat i) = Ok (concat rows1)).
    { rewrite Hki by (by apply concat_rows_length). unfold rows1, fill. destruct (e i) as [ts|] eqn:Ee.
      - f_equal. apply write_row; [done|done|by apply Hlen].
      - by rewrite list_insert_id. }
    assert (Hfill : length (fill (e i) ri) = w).
    { unfold fill. destruct (e i) as [ts|]; [|done]. specialize (Hlen ts eq_refl). rewrite length_app, length_drop. lia. }
    destruct (IH rows1) as (rows' & E' & L' & W' & H').
    + by apply Forall_insert.
    + done.
    + intros j Hj. unfold rows1. rewrite length_insert. apply Hk. by right.
    + exists rows'. rewrite fmap_cons. cbn [mfold]. rewrite E1. cbn [mbind result_bind]. unfold rows1 in L', H'. rewrite length_insert in L'.
      split_and!; [done..|]. intros j r Hj. destruct (decide (j = i)) as [->|Hne].
      * assert (r = ri) as -> by congruence. rewrite (H' i (fill (e i) ri)); [|by apply list_lookup_insert_eq].
        rewrite decide_False by done. by rewrite decide_True by left.
      * rewrite (H' j r) by (by rewrite list_lookup_insert_ne).
        destruct (decide (j ∈ order)); [by rewrite decide_True by (by right)|by rewrite decide_False by (rewrite elem_of_cons; tauto)].
Qed.

Lemma py_range_seq n : py_range 0 (Z.of_nat n) = Z.of_nat <$> seq 0 n.
Proof. unfold py_range. replace (Z.to_nat (Z.of_nat n - 0)) with n by lia. apply list_fmap_ext. intros i x _. lia. Qed.

(** ** Ragged arrays *)

Section ragged.
Context {A : Type}.
Implicit Types xs : list (list A).

Definition start_of xs (i : nat) : nat := length (concat (take i xs)).
Definition cu_of xs : list Z := (λ i, Z.of_nat (start_of xs (S i))) <$> seq 0 (length xs).

Lemma start_S xs i x : xs !! i = Some x → start_of xs (S i) = (start_of xs i + length x)%nat.
Proof. intros Hi. unfold start_of. rewrite (take_S_r _ _ _ Hi), concat_app, length_app. cbn. by rewrite app_nil_r. Qed.

Lemma start_total xs i : (length xs ≤ i)%nat → start_of xs i = length (concat xs).
Proof. intros. unfold start_of. by rewrite take_ge. Qed.

Lemma ragged_split xs i x : xs !! i = Some x → concat xs = concat (take i xs) ++ x ++ concat (drop (S i) xs).
Proof. intros Hi. rewrite <-(take_drop i xs) at 1. rewrite concat_app, (drop_S _ _ _ Hi). done. Qed.

Lemma ragged_lookup xs i x j : xs !! i = Some x → (j < length x)%nat → concat xs !! (start_of xs i + j)%nat = x !! j.
Proof.
  intros Hi Hj. rewrite (ragged_split xs i x Hi). unfold start_of. rewrite lookup_app_r by lia.
  rewrite lookup_app_l by lia. f_equal. lia.
Qed.

Lemma start_le xs i x : xs !! i = Some x → (start_of xs i + length x ≤ length (concat xs))%nat.
Proof. intros Hi. rewrite (ragged_split xs i x Hi). unfold start_of. rewrite !length_app. lia. Qed.

Lemma cu_load xs i : (i < length xs)%nat → tl_load (cu_of xs) (Z.of_nat i) = Ok (Z.of_nat (start_of xs (S i))).
Proof.
  intros Hi. apply tl_load_lookup; [lia|]. unfold cu_of. rewrite Nat2Z.id, list_lookup_fmap, lookup_seq_lt by done. done.
Qed.

Lemma cu_start xs i : (i < length xs)%nat → start_idx (cu_of xs) (Z.of_nat i) = Ok (Z.of_nat (start_of xs i)).
Proof.
  intros Hi. unfold start_idx. destruct (Z.eqb_spec (Z.of_nat i) 0) as [E|E].
  - assert (i = 0%nat) as -> by lia. done.
  - replace (Z.of_nat i - 1) with (Z.of_nat (i - 1)) by lia. rewrite cu_load by lia. by replace (S (i - 1)) with i by lia.
Qed.
End ragged.

(** Two ragged arrays of one shape. *)
Definition same_shape {A B} (xs : list (list A)) (ys : list (list B)) : Prop := Forall2 (λ x y, length x = length y) xs ys.

Lemma shape_start {A B} (xs : list (list A)) (ys : list (list B)) i : same_shape xs ys → start_of xs i = start_of ys i.
Proof.
  intros H. unfold start_of. revert i. induction H as [|x y xs ys Hxy _ IH]; intros [|i]; [done..|].
  cbn [take concat]. rewrite !length_app, Hxy. f_equal. apply IH.
Qed.

Lemma shape_cu {A B} (xs : list (list A)) (ys : list (list B)) : same_shape xs ys → cu_of xs = cu_of ys.
Proof.
  intros H. unfold cu_of. rewrite (Forall2_length _ _ _ H). apply list_fmap_ext. intros j i _. by rewrite (shape_start xs ys _ H).
Qed.

Lemma shape_length {A B} (xs : list (list A)) (ys : list (list B)) : same_shape xs ys → length (concat xs) = length (concat ys).
Proof. induction 1 as [|x y xs ys Hxy _ IH]; [done|]. cbn [concat]. rewrite !length_app. lia. Qed.

#[export] Instance Q_inhabited : Inhabited Q := populate 0%Q.

Lemma ragged_load {A} `{!Inhabited A} (xs : list (list A)) i x j :
  xs !! i = Some x → (j < length x)%nat → tl_load (concat xs) (Z.of_nat (start_of xs i) + Z.of_nat j) = Ok (x !!! j).
Proof.
  intros Hi Hj. apply tl_load_lookup; [lia|]. replace (Z.to_nat _) with (start_of xs i + j)%nat by lia.
  rewrite (ragged_lookup xs i x j Hi Hj). by apply list_lookup_lookup_total_lt.
Qed.

Lemma mfold_ext {S A} (f g : S → A → result S) s l : (∀ s a, a ∈ l → f s a = g s a) → mfold f s l = mfold g s l.
Proof.
  revert s. induction l as [|a l IH]; intros s H; [done|]. cbn [mfold]. rewrite H by left. destruct (g s a); [|done].
  cbn [mbind result_bind]. apply IH. intros s' a' Ha. apply H. by right.
Qed.

(** ** Greedy requests *)

(** [coin]: a uniform number and the rate of acceptance, in synthetic mode. *)
Definition greedy_decision (coin : option (Q * Q)) (draft target : Z) : Z * bool :=
  match coin with
  | None => (target, negb (draft =? target))
  | Some (u, rate) => if Qlt_b u rate then (draft, false) else (target, true)
  end.

Definition coin_at (syn : option (list Q * list Q)) (j : nat) : option (Q * Q) := (λ s, (s.1 !!! j, s.2 !!! j)) <$> syn.

Definition greedy_ds (syn : option (list Q * list Q)) (drafts targets : list Z) : list (Z * bool) :=
  (λ j, greedy_decision (coin_at syn j) (drafts !!! j) (targets !!! j)) <$> seq 0 (length drafts).

Lemma seq_lookup_dec {B} (f : nat → B) n i d : (f <$> seq 0 n) !! i = Some d → d = f i ∧ (i < n)%nat.
Proof. rewrite list_lookup_fmap, fmap_Some. intros (k & [-> Hk]%lookup_seq & ->). cbn. by split. Qed.

(** What a launch reads for the synthetic mode, and what a request sees of it. *)
Definition syn_ptrs (syn : option (list (list Q) * list Q)) : option (option (list Q) * option (list Q)) :=
  (λ s, (Some (concat s.1), Some s.2)) <$> syn.
Definition syn_of (syn : option (list (list Q) * list Q)) (i : nat) : option (list Q * list Q) := (λ s, (s.1 !!! i, s.2)) <$> syn.
Definition syn_ok {A} (drafts : list (list A)) (m : nat) (syn : option (list (list Q) * list Q)) : Prop :=
  match syn with Some (us, rates) => same_shape drafts us ∧ (m ≤ length rates)%nat | None => True end.

Lemma syn_loads {A} (drafts : list (list A)) m syn i x j :
  syn_ok drafts m syn → drafts !! i = Some x → (j < length x)%nat → (length x ≤ m)%nat →
  match syn with
  | Some (us, rates) => ptr_load (Some (concat us)) (Z.of_nat (start_of drafts i) + Z.of_nat j) = Ok (us !!! i !!! j) ∧
      ptr_load (Some rates) (Z.of_nat j) = Ok (rates !!! j)
  | None => True
  end.
Proof.
  intros Hok Hi Hj Hm. destruct syn as [[us rates]|]; [|done]. destruct Hok as [Hs Hr]. cbn [ptr_load].
  destruct (Forall2_lookup_l _ _ _ _ _ Hs Hi) as (u & Hu & Hlen). split.
  - rewrite (shape_start drafts us i Hs). rewrite (ragged_load us i u j Hu) by lia. by rewrite (list_lookup_total_correct us i u Hu).
  - apply tl_load_lookup; [lia|]. rewrite Nat2Z.id. apply list_lookup_lookup_total_lt. lia.
Qed.

Lemma greedy_program (drafts targets : list (list Z)) bonus (isg : option (list bool)) (m : nat) syn out i d a b g :
  same_shape drafts targets → syn_ok drafts m syn → drafts !! i = Some d → targets !! i = Some a → bonus !! i = Some b →
  Forall (λ t, 0 ≤ t < 2 ^ 31) a → (length d ≤ m)%nat → length out = (length drafts * (m + 1))%nat →
  match isg with None => g = true | Some l => l !! i = Some g end →
  rejection_greedy_sample_kernel (cu_of drafts) (concat drafts) (concat targets) bonus isg (Z.of_nat m) (syn_ptrs syn) out (Z.of_nat i) =
    Ok (if (g : bool) then write out (i * (m + 1)) (emit (greedy_ds (syn_of syn i) d a) b) else out).
Proof.
  intros Hs Hsyn Hd Ha Hb Hint Hm Hout Hg. assert (Hi : (i < length drafts)%nat) by (by eapply lookup_lt_Some).
  assert (Hda : length d = length a). { destruct (Forall2_lookup_l _ _ _ _ _ Hs Hd) as (a' & Ha' & ?). congruence. }
  unfold rejection_greedy_sample_kernel.
  assert (match isg with Some l => tl_load l (Z.of_nat i) | None => Ok true end = Ok g) as ->.
  { destruct isg as [l|]; [|by subst]. apply tl_load_lookup; [lia|]. by rewrite Nat2Z.id. }
  cbn [mbind result_bind]. destruct g; [|done]. cbn [negb]. rewrite cu_start, cu_load by done. cbn [mbind result_bind].
  set (ds := greedy_ds (syn_of syn i) d a). assert (Hlen : length ds = length d) by (unfold ds, greedy_ds; by rewrite length_fmap, length_seq).
  replace (Z.of_nat (start_of drafts (S i)) - Z.of_nat (start_of drafts i)) with (zlen ds)
    by (rewrite (start_S _ _ _ Hd); unfold zlen; rewrite Hlen; lia).
  replace (Z.of_nat i * (Z.of_nat m + 1)) with (Z.of_nat (i * (m + 1))) by lia.
  set (dec := λ pos, d' ← tl_load (concat drafts) (Z.of_nat (start_of drafts i) + pos);
    a' ← tl_load (concat targets) (Z.of_nat (start_of drafts i) + pos);
    match syn_ptrs syn with
    | Some (us, rates) => u ← ptr_load us (Z.of_nat (start_of drafts i) + pos); r ← ptr_load rates pos;
        let accepted := Qlt_b u r in Ok (if accepted then d' else c_int 32 a', negb accepted)
    | None => Ok (c_int 32 a', negb (d' =? c_int 32 a'))
    end).
  rewrite (mfold_ext _ (pos_step dec (Z.of_nat (i * (m + 1))))).
  2:{ intros [[|] o] pos _; [done|]. unfold greedy_pos, pos_step, dec. destruct (tl_load (concat drafts) _); [|done]. cbn [mbind result_bind].
    destruct (tl_load (concat targets) _); [|done]. cbn [mbind result_bind]. destruct (syn_ptrs syn) as [[us rates]|]; [|done].
    destruct (ptr_load us _); [|done]. cbn [mbind result_bind]. by destruct (ptr_load rates _). }
  apply request_program.
  - intros j dj [-> Hj]%seq_lookup_dec. unfold dec. rewrite (ragged_load drafts i d j Hd Hj). cbn [mbind result_bind].
    rewrite (shape_start drafts targets i Hs), (ragged_load targets i a j Ha) by lia. cbn [mbind result_bind].
    rewrite <-(shape_start drafts targets i Hs).
    rewrite c_int_id; [|done|]; last first.
    { assert (Haj : a !! j = Some (a !!! j)) by (apply list_lookup_lookup_total_lt; lia).
      pose proof (proj1 (Forall_lookup _ _) Hint j _ Haj) as Hr. cbv beta in Hr. change (2 ^ (32 - 1)) with (2 ^ 31). lia. }
    pose proof (syn_loads drafts m syn i d j Hsyn Hd Hj Hm) as Hl. destruct syn as [[us rates]|]; [|done].
    cbn [syn_ptrs fmap option_fmap option_map fst snd]. destruct Hl as [-> ->]. cbn [mbind result_bind syn_of coin_at fmap option_fmap option_map fst snd
      greedy_decision]. by destruct (Qlt_b _ _).
  - rewrite Hout, Hlen. nia.
  - apply tl_load_lookup; [lia|]. by rewrite Nat2Z.id.
Qed.

(** ** Requests that sample *)

(** The probabilities of a request: a row for each position. *)
Definition prob_at (rows : list (list Q)) (j : nat) (t : Z) : Q := rows !!! j !!! Z.to_nat t.

Definition random_decision (rates : option (list Q)) (probs : list (list Q)) (draft_probs : option (list (list Q))) (us : list Q)
    (j : nat) (draft recovered : Z) : Z * bool :=
  let accepted := match rates with
    | Some rates => Qlt_b (us !!! j) (rates !!! j)
    | None => accepts (us !!! j) (prob_at probs j draft) (match draft_probs with None => 1%Q | Some rows => prob_at rows j draft end)
    end in
  if accepted then (draft, false) else (recovered, true).

Definition random_ds (rates : option (list Q)) (probs : list (list Q)) (draft_probs : option (list (list Q))) (us : list Q)
    (drafts recovered : list Z) : list (Z * bool) :=
  (λ j, random_decision rates probs draft_probs us j (drafts !!! j) (recovered !!! j)) <$> seq 0 (length drafts).

(** Rows of [V] entries for every position of a batch. *)
Definition prob_rows (V : nat) (drafts : list (list Z)) (rows : list (list (list Q))) : Prop :=
  same_shape drafts rows ∧ Forall (Forall (λ r, length r = V)) rows.

(** The last row of a tensor with a row for each draft token, and of one with a row
    for each request, starts below 2^31. *)
Definition int32_rows (V : nat) (drafts : list (list Z)) : Prop :=
  (zlen (concat drafts) - 1) * Z.of_nat V < 2 ^ 31 ∧ (zlen drafts - 1) * Z.of_nat V < 2 ^ 31.

Lemma row_start_ok i V n : 0 ≤ i < n → 0 ≤ V → (n - 1) * V < 2 ^ 31 → row_start i V = i * V.
Proof. intros Hi HV Hn. unfold row_start. apply c_int_id; [lia|]. change (2 ^ (32 - 1)) with (2 ^ 31). nia. Qed.

Lemma token_row V drafts i d j :
  int32_rows V drafts → drafts !! i = Some d → (j < length d)%nat →
  row_start (Z.of_nat (start_of drafts i) + Z.of_nat j) (Z.of_nat V) = (Z.of_nat (start_of drafts i) + Z.of_nat j) * Z.of_nat V.
Proof.
  intros [Hn _] Hd Hj. pose proof (start_le drafts i d Hd). apply (row_start_ok _ _ (zlen (concat drafts))); [unfold zlen; lia|lia|done].
Qed.

Lemma prob_load V drafts rows i d r j t :
  int32_rows V drafts → prob_rows V drafts rows → drafts !! i = Some d → rows !! i = Some r → (j < length d)%nat → 0 ≤ t < Z.of_nat V →
  tl_load (concat (concat rows)) (row_start (Z.of_nat (start_of drafts i) + Z.of_nat j) (Z.of_nat V) + t) = Ok (prob_at r j t).
Proof.
  intros H32 [Hs Hw] Hd Hr Hj Ht. rewrite (token_row V drafts i d j H32 Hd Hj). assert (Hlen : length d = length r).
  { destruct (Forall2_lookup_l _ _ _ _ _ Hs Hd) as (r' & Hr' & ?). congruence. }
  assert (Hall : Forall (λ r, length r = V) (concat rows)).
  { clear -Hw. induction Hw as [|x l Hx _ IH]; cbn [concat]; [constructor|]. by apply Forall_app. }
  destruct (lookup_lt_is_Some_2 r j ltac:(lia)) as [row Hrow].
  assert (Hrl : length row = V).
  { pose proof (proj1 (Forall_lookup _ _) Hw i r Hr) as Hf. exact (proj1 (Forall_lookup _ _) Hf j row Hrow). }
  assert (Hflat : concat rows !! (start_of rows i + j)%nat = Some row) by (by rewrite (ragged_lookup rows i r j Hr) by lia).
  apply tl_load_lookup; [nia|]. rewrite (shape_start drafts rows i Hs).
  replace (Z.to_nat _) with ((start_of rows i + j) * V + Z.to_nat t)%nat by nia.
  rewrite (concat_rows_lookup V _ _ _ _ Hall Hflat) by lia. unfold prob_at. rewrite (list_lookup_total_correct r j row Hrow).
  apply list_lookup_lookup_total_lt. lia.
Qed.

Definition probs_ok (V : nat) (drafts : list (list Z)) (probs : list (list (list Q))) (draft_probs : option (list (list (list Q)))) : Prop :=
  prob_rows V drafts probs ∧ ∀ rows, draft_probs = Some rows → prob_rows V drafts rows.

(** What the kernel for sampling requests reads of a batch. *)
Record random_ok (V m : nat) (drafts : list (list Z)) (probs : list (list (list Q))) (draft_probs : option (list (list (list Q))))
    (us : list (list Q)) (recs : list (list Z)) (rates : option (list Q)) : Prop := {
  ro_probs : probs_ok V drafts probs draft_probs;
  ro_int32 : int32_rows V drafts;
  ro_us : same_shape drafts us;
  ro_recs : same_shape drafts recs;
  ro_tokens : Forall (Forall (λ t, 0 ≤ t < Z.of_nat V)) drafts;
  ro_rates : ∀ l, rates = Some l → (m ≤ length l)%nat;
}.

Definition flat_drafts (draft_probs : option (list (list (list Q)))) : option (list Q) := (λ rows, concat (concat rows)) <$> draft_probs.

Lemma accept_draft_ok V m drafts probs draft_probs us recs rates i d j :
  random_ok V m drafts probs draft_probs us recs rates → drafts !! i = Some d → (j < length d)%nat → (length d ≤ m)%nat →
  accept_draft (flat_drafts draft_probs) (concat (concat probs)) (concat us) (Some <$> rates) (Z.of_nat V)
    (Z.of_nat (start_of drafts i)) (Z.of_nat j) (d !!! j) =
  Ok (match rates with
      | Some rates => Qlt_b (us !!! i !!! j) (rates !!! j)
      | None => accepts (us !!! i !!! j) (prob_at (probs !!! i) j (d !!! j))
          (match (λ rows, rows !!! i) <$> draft_probs with None => 1%Q | Some rows => prob_at rows j (d !!! j) end)
      end).
Proof.
  intros [[Hp Hd] H32 Hu _ Ht Hr] Hi Hj Hm. unfold accept_draft.
  destruct (Forall2_lookup_l _ _ _ _ _ Hu Hi) as (u & Hui & Hlu).
  assert (tl_load (concat us) (Z.of_nat (start_of drafts i) + Z.of_nat j) = Ok (us !!! i !!! j)) as ->.
  { rewrite (shape_start drafts us i Hu), (ragged_load us i u j Hui) by lia. by rewrite (list_lookup_total_correct us i u Hui). }
  cbn [mbind result_bind]. destruct rates as [rates|]; cbn [fmap option_fmap option_map].
  - cbn [ptr_load]. rewrite (tl_load_lookup rates _ (rates !!! j)); [done|lia|]. rewrite Nat2Z.id.
    apply list_lookup_lookup_total_lt. specialize (Hr rates eq_refl). lia.
  - assert (Htok : 0 ≤ d !!! j < Z.of_nat V).
    { pose proof (proj1 (Forall_lookup _ _) Ht i d Hi) as Hf.
      exact (proj1 (Forall_lookup _ _) Hf j _ (list_lookup_lookup_total_lt d j Hj)). }
    destruct (Forall2_lookup_l _ _ _ _ _ (proj1 Hp) Hi) as (p & Hpi & _).
    assert (match flat_drafts draft_probs with
      | None => Ok 1%Q
      | Some l => tl_load l (row_start (Z.of_nat (start_of drafts i) + Z.of_nat j) (Z.of_nat V) + d !!! j)
      end = Ok (match (λ rows, rows !!! i) <$> draft_probs with None => 1%Q | Some rows => prob_at rows j (d !!! j) end)) as ->.
    { destruct draft_probs as [rows|]; [|done]. cbn [flat_drafts fmap option_fmap option_map]. specialize (Hd rows eq_refl).
      destruct (Forall2_lookup_l _ _ _ _ _ (proj1 Hd) Hi) as (r & Hri & _).
      rewrite (prob_load V drafts rows i d r j (d !!! j) H32 Hd Hi Hri Hj Htok). by rewrite (list_lookup_total_correct rows i r Hri). }
    cbn [mbind result_bind]. rewrite (prob_load V drafts probs i d p j (d !!! j) H32 Hp Hi Hpi Hj Htok). cbn [mbind result_bind].
    by rewrite (list_lookup_total_correct probs i p Hpi).
Qed.

Lemma random_program V m drafts probs draft_probs us recs rates bonus (isg : list bool) out i d b g :
  random_ok V m drafts probs draft_probs us recs rates → drafts !! i = Some d → bonus !! i = Some b → isg !! i = Some g →
  (length d ≤ m)%nat → length out = (length drafts * (m + 1))%nat →
  rejection_random_sample_kernel (cu_of drafts) (concat drafts) (flat_drafts draft_probs) (concat (concat probs)) bonus (concat recs)
    (concat us) (Some isg) (Z.of_nat m) (Z.of_nat V) (Some <$> rates) out (Z.of_nat i) =
    Ok (if (g : bool) then out
        else write out (i * (m + 1)) (emit (random_ds rates (probs !!! i) ((λ rows, rows !!! i) <$> draft_probs) (us !!! i) d (recs !!! i)) b)).
Proof.
  intros Hok Hd Hb Hg Hm Hout. assert (Hi : (i < length drafts)%nat) by (by eapply lookup_lt_Some).
  destruct (Forall2_lookup_l _ _ _ _ _ (ro_recs _ _ _ _ _ _ _ _ Hok) Hd) as (rc & Hrc & Hlr).
  unfold rejection_random_sample_kernel. cbn [ptr_load].
  rewrite (tl_load_lookup isg _ g) by (rewrite ?Nat2Z.id; try done; lia). cbn [mbind result_bind]. destruct g; [done|].
  rewrite cu_start, cu_load by done. cbn [mbind result_bind].
  set (ds := random_ds rates (probs !!! i) ((λ rows, rows !!! i) <$> draft_probs) (us !!! i) d (recs !!! i)).
  assert (Hlen : length ds = length d) by (unfold ds, random_ds; by rewrite length_fmap, length_seq).
  replace (Z.of_nat (start_of drafts (S i)) - Z.of_nat (start_of drafts i)) with (zlen ds)
    by (rewrite (start_S _ _ _ Hd); unfold zlen; rewrite Hlen; lia).
  replace (Z.of_nat i * (Z.of_nat m + 1)) with (Z.of_nat (i * (m + 1))) by lia.
  set (dec := λ pos, d' ← tl_load (concat drafts) (Z.of_nat (start_of drafts i) + pos);
    acc ← accept_draft (flat_drafts draft_probs) (concat (concat probs)) (concat us) (Some <$> rates) (Z.of_nat V)
      (Z.of_nat (start_of drafts i)) pos d';
    if (acc : bool) then Ok (d', false) else t ← tl_load (concat recs) (Z.of_nat (start_of drafts i) + pos); Ok (t, true)).
  rewrite (mfold_ext _ (pos_step dec (Z.of_nat (i * (m + 1))))).
  2:{ intros [[|] o] pos _; [done|]. unfold random_pos, pos_step, dec. destruct (tl_load (concat drafts) _); [|done]. cbn [mbind result_bind].
    destruct (accept_draft _ _ _ _ _ _ _ _) as [[|]|]; [done| |done]. cbn [mbind result_bind]. by destruct (tl_load (concat recs) _). }
  apply request_program.
  - intros j dj [-> Hj]%seq_lookup_dec. unfold dec. rewrite (ragged_load drafts i d j Hd Hj). cbn [mbind result_bind].
    rewrite (accept_draft_ok V m drafts probs draft_probs us recs rates i d j Hok Hd Hj Hm). cbn [mbind result_bind].
    unfold random_decision. destruct (match rates with Some _ => _ | None => _ end); [done|].
    rewrite (shape_start drafts recs i (ro_recs _ _ _ _ _ _ _ _ Hok)), (ragged_load recs i rc j Hrc) by lia. cbn [mbind result_bind].
    by rewrite (list_lookup_total_correct recs i rc Hrc).
  - rewrite Hout, Hlen. nia.
  - apply tl_load_lookup; [lia|]. by rewrite Nat2Z.id.
Qed.

(** ** Recovered tokens *)

Lemma Qlt_b_true x y : Qlt_b x y = true ↔ (x < y)%Q.
Proof.
  unfold Qlt_b. rewrite negb_true_iff. split; intros H.
  - apply Qnot_le_lt. intros Hle%Qle_bool_iff. congruence.
  - apply not_true_is_false. intros Hle%Qle_bool_iff. by apply Qlt_not_le in H.
Qed.

Lemma Qlt_b_false x y : Qlt_b x y = false ↔ (y <= x)%Q.
Proof.
  destruct (Qlt_b x y) eqn:E.
  - apply Qlt_b_true in E. split; [done|]. intros H. by apply Qlt_not_le in E.
  - split; [|done]. intros _. apply Qnot_lt_le. intros H%Qlt_b_true. congruence.
Qed.

Lemma score_lt_trans x y z : score_lt x y = true → score_lt y z = true → score_lt x z = true.
Proof.
  destruct x as [x|], y as [y|], z as [z|]; cbn; try done. rewrite !Qlt_b_true. apply Qlt_trans.
Qed.

Lemma score_lt_neg x y z : score_lt x y = false → score_lt y z = false → score_lt x z = false.
Proof.
  destruct x as [x|], y as [y|], z as [z|]; cbn; try done. rewrite !Qlt_b_false. intros H1 H2. by eapply Qle_trans.
Qed.

Lemma tl_max_none l : (tl_max l).1 = None → (tl_max l).2 = 0.
Proof.
  destruct l as [|x l]; [done|]. cbn [tl_max]. destruct (tl_max l) as [m i]. destruct (score_lt x m) eqn:E; [|done].
  cbn. intros ->. by destruct x.
Qed.

(** The maximum of a list from those of its halves. *)
Lemma tl_max_app l1 l2 :
  tl_max (l1 ++ l2) = if score_lt (tl_max l1).1 (tl_max l2).1 then ((tl_max l2).1, zlen l1 + (tl_max l2).2) else tl_max l1.
Proof.
  induction l1 as [|x l1 IH].
  - cbn [app tl_max fst]. pose proof (tl_max_none l2). destruct (tl_max l2) as [[m|] i]; cbn in *; [f_equal; lia|]. by rewrite H.
  - cbn [app tl_max]. rewrite IH, zlen_cons. destruct (tl_max l1) as [m1 i1], (tl_max l2) as [m2 i2]. cbn [fst snd] in *.
    destruct (score_lt m1 m2) eqn:E12, (score_lt x m1) eqn:E1; cbn [fst snd].
    + rewrite E12, (score_lt_trans _ _ _ E1 E12). f_equal. lia.
    + destruct (score_lt x m2); [f_equal; lia|done].
    + by rewrite E12.
    + by rewrite (score_lt_neg _ _ _ E1 E12).
Qed.

Lemma tl_max_pad l n : tl_max (l ++ replicate n None) = tl_max l.
Proof.
  rewrite tl_max_app. assert (Hn : (tl_max (replicate n None)).1 = None).
  { induction n as [|n IH]; [done|]. cbn [replicate tl_max]. destruct (tl_max (replicate n None)) as [m i]. cbn in *. by subst. }
  rewrite Hn. by destruct (tl_max l) as [[m|] i].
Qed.

(** The position of the first of the largest scores. *)
Lemma tl_max_spec (f : nat → Q) n : (0 < n)%nat → ∃ i, tl_max ((λ v, Some (f v)) <$> seq 0 n) = (Some (f i), Z.of_nat i) ∧ (i < n)%nat ∧
  (∀ j, (j < n)%nat → (f j <= f i)%Q) ∧ ∀ j, (j < i)%nat → (f j < f i)%Q.
Proof.
  intros Hn. induction n as [|n IH]; [lia|]. destruct n as [|n].
  - exists 0%nat. split_and!; [done|lia| |intros; lia]. intros j Hj. assert (j = 0%nat) as -> by lia. apply Qle_refl.
  - destruct IH as (i & E & Hi & Hmax & Hfirst); [lia|]. rewrite seq_S, fmap_app, tl_max_app, E.
    cbn [fmap list_fmap tl_max score_lt fst snd plus]. unfold zlen. rewrite length_fmap, length_seq, Z.add_0_r.
    destruct (Qlt_b (f i) (f (S n))) eqn:El.
    + apply Qlt_b_true in El. exists (S n). split_and!; [done|lia| |].
      * intros j Hj. destruct (decide (j = S n)) as [->|]; [apply Qle_refl|]. eapply Qle_trans; [apply Hmax; lia|]. by apply Qlt_le_weak.
      * intros j Hj. eapply Qle_lt_trans; [apply Hmax; lia|done].
    + apply Qlt_b_false in El. exists i. split_and!; [done|lia| |done]. intros j Hj. destruct (decide (j = S n)) as [->|]; [done|].
      apply Hmax. lia.
Qed.

Lemma mmap_seq {B} (g : Z → result B) (f : nat → B) a n :
  (∀ v, (a ≤ v < a + n)%nat → g (Z.of_nat v) = Ok (f v)) →
  mmap (λ o, g (Z.of_nat a + o)) (py_range 0 (Z.of_nat n)) = Ok (f <$> seq a n).
Proof.
  intros Hg. rewrite py_range_seq, mmap_fmap. apply mmap_Ok.
  assert (seq a n = Nat.add a <$> seq 0 n) as -> by (rewrite fmap_add_seq; f_equal; lia). rewrite <-list_fmap_compose.
  apply Forall2_fmap_r, Forall_Forall2_diag, Forall_forall. intros v [_ Hv]%elem_of_seq. cbn.
  replace (Z.of_nat a + Z.of_nat v) with (Z.of_nat (a + v)) by lia. apply Hg. lia.
Qed.

Lemma tile_fold g f (B : nat) k n :
  (∀ v, (v < (k + n) * B)%nat → g (Z.of_nat v) = Ok (f v)) →
  mfold (tile_step g (Z.of_nat B)) (tl_max (f <$> seq 0 (k * B))) ((λ i, i * Z.of_nat B) <$> (Z.of_nat <$> seq k n)) =
    Ok (tl_max (f <$> seq 0 ((k + n) * B))).
Proof.
  revert k. induction n as [|n IH]; intros k Hg; cbn [seq fmap list_fmap mfold]; [by rewrite Nat.add_0_r|].
  replace (Z.of_nat k * Z.of_nat B) with (Z.of_nat (k * B)) by lia. unfold tile_step at 2.
  rewrite (mmap_seq g f (k * B) B) by (intros v Hv; apply Hg; nia).
  assert (E : tl_max (f <$> seq 0 (S k * B)) =
    (let '(lm, li) := tl_max (f <$> seq (k * B) B) in
     let '(mv, ri) := tl_max (f <$> seq 0 (k * B)) in if score_lt mv lm then (lm, Z.of_nat (k * B) + li) else (mv, ri))).
  { replace (S k * B)%nat with (k * B + B)%nat by lia. rewrite seq_app, fmap_app, tl_max_app. unfold zlen. rewrite length_fmap, length_seq.
    cbn [plus]. by destruct (tl_max (f <$> seq (k * B) B)), (tl_max (f <$> seq 0 (k * B))). }
  destruct (tl_max (f <$> seq 0 (k * B))) as [mv ri]. cbn [mbind result_bind]. destruct (tl_max (f <$> seq (k * B) B)) as [lm li].
  rewrite <-E. replace (k + S n)%nat with (S k + n)%nat by lia. apply IH. intros v Hv. apply Hg. lia.
Qed.

(** The tiled search finds the first of the largest scores of the vocabulary. *)
Lemma tiled_max g (f : nat → Q) V B :
  (0 < V)%nat → (0 < B)%nat →
  (∀ v, g (Z.of_nat v) = Ok (if (Z.of_nat v <? Z.of_nat V) then Some (f v) else None)) →
  mfold (tile_step g (Z.of_nat B)) (None, 0) (tiles (Z.of_nat V) (Z.of_nat B)) = Ok (tl_max ((λ v, Some (f v)) <$> seq 0 V)).
Proof.
  intros HV HB Hg. unfold tiles. set (h := λ v, if Z.of_nat v <? Z.of_nat V then Some (f v) else None).
  set (n := Z.to_nat ((Z.of_nat V + Z.of_nat B - 1) / Z.of_nat B)).
  assert (Hn : (Z.of_nat V + Z.of_nat B - 1) / Z.of_nat B = Z.of_nat n) by (unfold n; rewrite Z2Nat.id; [done|]; apply Z.div_pos; lia).
  assert (Hcov : (V ≤ n * B)%nat).
  { pose proof (Z.div_mod (Z.of_nat V + Z.of_nat B - 1) (Z.of_nat B) ltac:(lia)) as Hdm. rewrite Hn in Hdm.
    pose proof (Z.mod_pos_bound (Z.of_nat V + Z.of_nat B - 1) (Z.of_nat B) ltac:(lia)). nia. }
  rewrite Hn, py_range_seq. pose proof (tile_fold g h B 0 n ltac:(intros; apply Hg)) as E. cbn [Nat.mul seq fmap list_fmap tl_max] in E.
  rewrite E. cbn [plus]. f_equal. clear E.
  replace (n * B)%nat with (V + (n * B - V))%nat by lia. rewrite seq_app, fmap_app.
  assert (h <$> seq (0 + V) (n * B - V) = replicate (n * B - V) None) as ->.
  { apply list_eq. intros i. rewrite list_lookup_fmap.
    destruct (decide (i < n * B - V)%nat) as [Hi|Hi].
    - rewrite lookup_seq_lt, lookup_replicate_2 by done. cbn. unfold h. destruct (Z.ltb_spec (Z.of_nat (V + i)) (Z.of_nat V)); [lia|done].
    - rewrite lookup_seq_ge by lia. cbn. symmetry. apply lookup_ge_None. rewrite length_replicate. lia. }
  rewrite tl_max_pad. f_equal. apply list_fmap_ext. intros i v [-> Hi]%lookup_seq. unfold h. cbn [plus].
  destruct (Z.ltb_spec (Z.of_nat i) (Z.of_nat V)); [done|lia].
Qed.

(** What is left of the target distribution after the draft, unnormalised; without
    draft probabilities the draft is certain. *)
Definition residual (probs : list (list Q)) (draft_probs : option (list (list Q))) (draft : Z) (j v : nat) : Q :=
  match draft_probs with
  | None => if Z.of_nat v =? draft then 0%Q else prob_at probs j (Z.of_nat v)
  | Some rows => residual_prob (prob_at probs j (Z.of_nat v)) (prob_at rows j (Z.of_nat v))
  end.

Definition recover (V : nat) (probs : list (list Q)) (draft_probs : option (list (list Q))) (inv_q : list Q) (draft : Z) (j : nat) : Z :=
  (tl_max ((λ v, Some (residual probs draft_probs draft j v * inv_q !!! v)%Q) <$> seq 0 V)).2.

Lemma token_score_ok V drafts probs draft_probs (inv : list (list Q)) i d j v :
  int32_rows V drafts → probs_ok V drafts probs draft_probs → drafts !! i = Some d → (j < length d)%nat →
  Forall (λ r, length r = V) inv → (i < length inv)%nat →
  token_score (concat drafts) (flat_drafts draft_probs) (concat (concat probs)) (concat inv) (Z.of_nat V) (Z.of_nat i)
    (Z.of_nat (start_of drafts i) + Z.of_nat j) (Z.of_nat v) =
  Ok (if Z.of_nat v <? Z.of_nat V
      then Some (residual (probs !!! i) ((λ rows, rows !!! i) <$> draft_probs) (d !!! j) j v * inv !!! i !!! v)%Q else None).
Proof.
  intros H32 [Hp Hd] Hi Hj Hinv Hil. unfold token_score. destruct (Forall2_lookup_l _ _ _ _ _ (proj1 Hp) Hi) as (p & Hpi & _).
  destruct (lookup_lt_is_Some_2 inv i Hil) as [q Hq]. pose proof (proj1 (Forall_lookup _ _) Hinv i q Hq) as Hql. cbv beta in Hql.
  destruct (Z.ltb_spec (Z.of_nat v) (Z.of_nat V)) as [Hv|Hv]; cbn [masked_load].
  - assert (Hinvl : tl_load (concat inv) (row_start (Z.of_nat i) (Z.of_nat V) + Z.of_nat v) = Ok (inv !!! i !!! v)).
    { rewrite (row_start_ok _ _ (zlen drafts)) by (apply lookup_lt_Some in Hi; unfold zlen; lia || apply H32). apply tl_load_lookup; [lia|]. replace (Z.to_nat _) with (i * V + v)%nat by lia.
      rewrite (concat_rows_lookup V inv i v q Hinv Hq) by lia. rewrite (list_lookup_total_correct inv i q Hq).
      apply list_lookup_lookup_total_lt. lia. }
    rewrite Hinvl. pose proof (prob_load V drafts probs i d p j (Z.of_nat v) H32 Hp Hi Hpi Hj ltac:(lia)) as Hpl.
    rewrite (list_lookup_total_correct probs i p Hpi). destruct draft_probs as [rows|]; cbn [flat_drafts fmap option_fmap option_map residual].
    + specialize (Hd rows eq_refl). destruct (Forall2_lookup_l _ _ _ _ _ (proj1 Hd) Hi) as (r & Hri & _).
      rewrite (prob_load V drafts rows i d r j (Z.of_nat v) H32 Hd Hi Hri Hj ltac:(lia)), Hpl. cbn [mbind result_bind].
      by rewrite (list_lookup_total_correct rows i r Hri).
    + rewrite (ragged_load drafts i d j Hi Hj). cbn [mbind result_bind andb]. destruct (Z.of_nat v =? d !!! j); cbn [negb masked_load]; [done|].
      by rewrite Hpl.
  - destruct draft_probs as [rows|]; cbn [flat_drafts fmap option_fmap option_map]; [done|].
    rewrite (ragged_load drafts i d j Hi Hj). done.
Qed.

Lemma recover_range V probs draft_probs inv draft j :
  (0 < V)%nat → 0 ≤ recover V probs draft_probs inv draft j < Z.of_nat V.
Proof.
  intros HV. unfold recover. destruct (tl_max_spec (λ v, residual probs draft_probs draft j v * inv !!! v)%Q V HV) as (i & E & Hi & _).
  rewrite E. cbn. lia.
Qed.

Definition recovered_rows (V : nat) (drafts : list (list Z)) (probs : list (list (list Q))) (draft_probs : option (list (list (list Q))))
    (inv : list (list Q)) : list (list Z) :=
  imap (λ i d, (λ j, recover V (probs !!! i) ((λ rows, rows !!! i) <$> draft_probs) (inv !!! i) (d !!! j) j) <$> seq 0 (length d)) drafts.

Lemma recovered_rows_lookup V drafts probs draft_probs inv i d :
  drafts !! i = Some d → recovered_rows V drafts probs draft_probs inv !! i =
    Some ((λ j, recover V (probs !!! i) ((λ rows, rows !!! i) <$> draft_probs) (inv !!! i) (d !!! j) j) <$> seq 0 (length d)).
Proof. intros Hd. unfold recovered_rows. by rewrite list_lookup_imap, Hd. Qed.

Lemma recovered_shape V drafts probs draft_probs inv : same_shape drafts (recovered_rows V drafts probs draft_probs inv).
Proof.
  unfold same_shape, recovered_rows. apply Forall2_same_length_lookup. split; [by rewrite length_imap|]. intros i x y Hx Hy.
  rewrite list_lookup_imap, Hx in Hy. injection Hy as <-. by rewrite length_fmap, length_seq.
Qed.

(** A program of the grid stores the recovered token of its position, or nothing. *)
Lemma recovered_program V drafts probs draft_probs inv (B : nat) out i d j :
  int32_rows V drafts → probs_ok V drafts probs draft_probs → drafts !! i = Some d → (0 < V)%nat → (0 < B)%nat →
  Forall (λ r, length r = V) inv → (i < length inv)%nat → length out = length (concat drafts) →
  sample_recovered_tokens_kernel (cu_of drafts) (concat drafts) (flat_drafts draft_probs) (concat (concat probs)) (concat inv)
    (Z.of_nat V) (Z.of_nat B) out (Z.of_nat i, Z.of_nat j) =
  Ok (if decide (j < length d)%nat
      then <[(start_of drafts i + j)%nat := recover V (probs !!! i) ((λ rows, rows !!! i) <$> draft_probs) (inv !!! i) (d !!! j) j]> out
      else out).
Proof.
  intros H32 Hok Hd HV HB Hinv Hil Hout. assert (Hi : (i < length drafts)%nat) by (by eapply lookup_lt_Some).
  unfold sample_recovered_tokens_kernel. rewrite cu_start, cu_load by done. cbn [mbind result_bind]. rewrite (start_S _ _ _ Hd).
  destruct (Z.leb_spec (Z.of_nat (start_of drafts i + length d) - Z.of_nat (start_of drafts i)) (Z.of_nat j)) as [Hj|Hj].
  { by rewrite decide_False by lia. }
  rewrite decide_True by lia. assert (Hjd : (j < length d)%nat) by lia.
  rewrite (tiled_max _ (λ v, residual (probs !!! i) ((λ rows, rows !!! i) <$> draft_probs) (d !!! j) j v * inv !!! i !!! v)%Q V B HV HB).
  2:{ intros v. by apply (token_score_ok V drafts probs draft_probs). }
  cbn [mbind result_bind]. pose proof (recover_range V (probs !!! i) ((λ rows, rows !!! i) <$> draft_probs) (inv !!! i) (d !!! j) j HV) as Hr.
  unfold recover in *. destruct (tl_max _) as [mv ri]. cbn [snd] in *. rewrite Z.min_l by lia.
  pose proof (start_le drafts i d Hd). rewrite tl_store_ok by (unfold zlen; lia). do 2 f_equal. lia.
Qed.

(** Programs that store, at the places they choose, the values of one array. *)
Lemma launch_values {A B} (k : list A → B → result (list A)) (tgt : B → option nat) (vals out : list A) progs :
  length out = length vals →
  (∀ p out, p ∈ progs → length out = length vals →
     ∃ x, k out p = Ok (match tgt p with Some i => <[i := x]> out | None => out end) ∧ ∀ i, tgt p = Some i → vals !! i = Some x) →
  ∃ out', mfold k out progs = Ok out' ∧ length out' = length vals ∧
    ∀ i, (out !! i = vals !! i ∨ ∃ p, p ∈ progs ∧ tgt p = Some i) → out' !! i = vals !! i.
Proof.
  intros Hlen Hk. revert out Hlen. induction progs as [|p progs IH]; intros out Hlen.
  - exists out. split_and!; [done..|]. intros i [?|(p & Hp%elem_of_nil & _)]; done.
  - destruct (Hk p out ltac:(by left) Hlen) as (x & E & Hx). cbn [mfold]. rewrite E. cbn [mbind result_bind].
    set (out1 := match tgt p with Some i => <[i:=x]> out | None => out end).
    assert (Hlen1 : length out1 = length vals) by (unfold out1; destruct (tgt p); rewrite ?length_insert; done).
    destruct (IH (λ q o Hq, Hk q o ltac:(by right)) out1 Hlen1) as (out' & E' & L' & H'). exists out'. split_and!; [done..|].
    intros i Hi. apply H'. destruct (tgt p) as [n|] eqn:Et; unfold out1.
    + destruct (decide (n = i)) as [->|Hne].
      * left. specialize (Hx i eq_refl). rewrite Hx. apply list_lookup_insert_eq. rewrite Hlen. by eapply lookup_lt_Some.
      * rewrite list_lookup_insert_ne by done. destruct Hi as [?|(q & [->|Hq]%elem_of_cons & Htq)]; [by left|congruence|right; by exists q].
    + destruct Hi as [?|(q & [->|Hq]%elem_of_cons & Htq)]; [by left|congruence|right; by exists q].
Qed.

Lemma ragged_index {A} (xs : list (list A)) n :
  (n < length (concat xs))%nat → ∃ i x j, xs !! i = Some x ∧ (j < length x)%nat ∧ n = (start_of xs i + j)%nat.
Proof.
  revert n. induction xs as [|x xs IH]; intros n Hn; cbn [concat length] in Hn; [lia|]. rewrite length_app in Hn.
  destruct (decide (n < length x)%nat) as [Hlt|Hge]; [by exists 0%nat, x, n|].
  destruct (IH (n - length x)%nat ltac:(lia)) as (i & y & j & Hi & Hj & E). exists (S i), y, j. split_and!; [done..|].
  unfold start_of in *. cbn [take concat]. rewrite length_app. lia.
Qed.

(** ** Random numbers *)

Section sampling.
Context {G L : Type}.
Context (uniform_ exponential_ : G → nat → list Q * G).
Context (argmax : list L → Z) (softmax : list L → list Q).
Context (uniform_length : ∀ g n, length (uniform_ g n).1 = n) (exponential_length : ∀ g n, length (exponential_ g n).1 = n).

(** Every request with a generator of its own draws its numbers from it. *)
Definition seeded (gens : list (Z * G)) (k : nat) (rands : list (list Q)) : list (list Q) :=
  imap (λ i r, match od_get gens (Z.of_nat (k + i)) with Some g => (uniform_ g (length r)).1 | None => r end) rands.

Lemma seeded_shape gens k rands : same_shape rands (seeded gens k rands).
Proof.
  unfold same_shape, seeded. apply Forall2_same_length_lookup. split; [by rewrite length_imap|]. intros i x y Hx Hy.
  rewrite list_lookup_imap, Hx in Hy. injection Hy as <-. destruct (od_get gens _); [by rewrite uniform_length|done].
Qed.

Lemma seeded_cons gens k r rands :
  seeded gens k (r :: rands) = (match od_get gens (Z.of_nat k) with Some g => (uniform_ g (length r)).1 | None => r end) :: seeded gens (S k) rands.
Proof.
  unfold seeded. cbn [imap]. rewrite Nat.add_0_r. f_equal. apply imap_ext. intros i x _. cbn. by replace (k + S i)%nat with (S (k + i)) by lia.
Qed.

Lemma enumerate_from (k : nat) (ns : list Z) :
  zip (py_range (Z.of_nat k) (Z.of_nat k + zlen ns)) ns = imap (λ i n, (Z.of_nat (k + i), n)) ns.
Proof.
  revert k. induction ns as [|n ns IH]; intros k; [by destruct (py_range _ _)|]. rewrite zlen_cons. pose proof (zlen_nonneg ns).
  rewrite py_range_cons by lia. cbn [zip zip_with imap]. rewrite Nat.add_0_r. f_equal.
  replace (Z.of_nat k + 1) with (Z.of_nat (S k)) by lia. replace (Z.of_nat k + (zlen ns + 1)) with (Z.of_nat (S k) + zlen ns) by lia.
  rewrite IH. apply imap_ext. intros i x _. cbn. by replace (k + S i)%nat with (S (k + i)) by lia.
Qed.

(** A generator after [n] uniform numbers were drawn, none of them for a request
    without draft tokens. *)
Definition advanced (n : nat) (g : G) : G := match n with O => g | S _ => (uniform_ g n).2 end.

Lemma seeded_ext gens gens' k rands :
  (∀ i, (k ≤ i)%nat → od_get gens' (Z.of_nat i) = od_get gens (Z.of_nat i)) → seeded gens' k rands = seeded gens k rands.
Proof. intros H. unfold seeded. apply imap_ext. intros i r _. cbn. by rewrite H by lia. Qed.

Lemma seed_loop k (pre : list Q) rands gens :
  ∃ start gens', foldl (seed_slice uniform_) (pre ++ concat rands, zlen pre, gens) (imap (λ i n, (Z.of_nat (k + i), n)) (zlen <$> rands)) =
      (pre ++ concat (seeded gens k rands), start, gens') ∧ gens'.*1 = gens.*1 ∧
    ∀ i g, od_get gens (Z.of_nat i) = Some g → od_get gens' (Z.of_nat i) =
      Some (if decide (k ≤ i)%nat then advanced (length (default [] (rands !! (i - k)%nat))) g else g).
Proof.
  revert k pre gens. induction rands as [|r rands IH]; intros k pre gens.
  - exists (zlen pre), gens. split_and!; [done..|]. intros i g Hg. rewrite Hg. by destruct (decide _); rewrite ?lookup_nil.
  - rewrite fmap_cons. cbn [imap foldl concat]. rewrite Nat.add_0_r.
    assert (Hshift : imap ((λ i n, (Z.of_nat (k + i), n)) ∘ S) (zlen <$> rands) = imap (λ i n, (Z.of_nat (S k + i), n)) (zlen <$> rands)).
    { apply imap_ext. intros i x _. cbn. by replace (k + S i)%nat with (S (k + i)) by lia. }
    rewrite Hshift. clear Hshift. rewrite seeded_cons. cbn [concat].
    set (r' := match od_get gens (Z.of_nat k) with Some g => (uniform_ g (length r)).1 | None => r end).
    assert (Hr' : length r' = length r) by (unfold r'; destruct (od_get gens (Z.of_nat k)); [by rewrite uniform_length|done]).
    assert (Hlook : ∀ i, (S k ≤ i)%nat → (r :: rands) !! (i - k)%nat = rands !! (i - S k)%nat).
    { intros i Hi. by replace (i - k)%nat with (S (i - S k)) by lia. }
    set (gens1 := match od_get gens (Z.of_nat k) with Some g => match r with [] => gens | _ => od_set gens (Z.of_nat k) (advanced (length r) g) end
      | None => gens end).
    assert (Hstep : seed_slice uniform_ (pre ++ r ++ concat rands, zlen pre, gens) (Z.of_nat k, zlen r) =
      (pre ++ r' ++ concat rands, zlen (pre ++ r'), gens1)).
    { unfold seed_slice. destruct (Z.eqb_spec (zlen r) 0) as [E|E].
      - assert (r = []) as -> by (destruct r; [done|unfold zlen in E; cbn in E; lia]). assert (r' = []) as -> by (by destruct r').
        rewrite app_nil_r. unfold gens1. by destruct (od_get gens (Z.of_nat k)).
      - rewrite zlen_app. replace (zlen r') with (zlen r) by (unfold zlen; lia). unfold gens1, r'.
        destruct (od_get gens (Z.of_nat k)) as [g|] eqn:Eg; [|done].
        assert (py_slice (pre ++ r ++ concat rands) (zlen pre) (zlen pre + zlen r) = r) as ->.
        { unfold py_slice, zlen. rewrite Nat2Z.id, drop_app_length. replace (_ - _)%nat with (length r) by lia. apply take_app_length. }
        destruct r as [|x r0]; [done|]. cbn [advanced length]. destruct (uniform_ g (S (length r0))) as [xs g'] eqn:Eu. cbn [fst snd].
        do 2 f_equal. replace (Z.to_nat (zlen pre)) with (length pre) by (unfold zlen; lia). rewrite take_app_length. f_equal. f_equal.
        replace (Z.to_nat (zlen pre + zlen (x :: r0))) with (length pre + length (x :: r0))%nat by (unfold zlen; lia).
        rewrite <-drop_drop, drop_app_length. by rewrite drop_app_length. }
    rewrite Hstep, (assoc_L (++)). destruct (IH (S k) (pre ++ r') gens1) as (start & gens' & E & Hkeys & Hget).
    assert (Hother : ∀ i, i ≠ k → od_get gens1 (Z.of_nat i) = od_get gens (Z.of_nat i)).
    { intros i Hi. unfold gens1. destruct (od_get gens (Z.of_nat k)); [|done]. destruct r; [done|]. rewrite od_get_set, decide_False; [done|lia]. }
    exists start, gens'. rewrite E. split_and!.
    + rewrite <-!(assoc_L (++)). by rewrite (seeded_ext gens gens1) by (intros; apply Hother; lia).
    + rewrite Hkeys. unfold gens1. destruct (od_get gens (Z.of_nat k)) as [g|] eqn:Eg; [|done]. destruct r; [done|].
      rewrite od_set_keys, decide_True; [done|]. destruct (decide (Z.of_nat k ∈ gens.*1)) as [|Hn]; [done|].
      apply od_get_None in Hn. congruence.
    + intros i g Hg. destruct (decide (i = k)) as [->|Hne].
      * rewrite decide_True by lia. replace (k - k)%nat with 0%nat by lia. cbn [lookup list_lookup default].
        assert (Eg : od_get gens1 (Z.of_nat k) = Some (advanced (length r) g)).
        { unfold gens1. rewrite Hg. destruct r as [|x r0]; [done|]. by rewrite od_get_set, decide_True. }
        rewrite (Hget k _ Eg), decide_False by lia. done.
      * rewrite <-(Hother i Hne) in Hg. rewrite (Hget i g Hg). destruct (decide (S k ≤ i)%nat) as [H1|H1].
        -- rewrite decide_True by lia. by rewrite Hlook.
        -- by rewrite decide_False by lia.
Qed.

Lemma uniform_probs_ok rands gens :
  ∃ gens', generate_uniform_probs uniform_ (concat rands) (zlen <$> rands) gens = (concat (seeded gens 0 rands), gens') ∧
    gens'.*1 = gens.*1 ∧
    ∀ i g, od_get gens (Z.of_nat i) = Some g → od_get gens' (Z.of_nat i) = Some (advanced (length (default [] (rands !! i))) g).
Proof.
  unfold generate_uniform_probs, enumerate. pose proof (enumerate_from 0 (zlen <$> rands)) as En.
  change (Z.of_nat 0) with 0 in En. rewrite Z.add_0_l in En. rewrite En.
  destruct (seed_loop 0 [] rands gens) as (start & gens' & E & Hk & Hg). cbn [app] in E. rewrite zlen_nil in E. rewrite E.
  exists gens'. split_and!; [done..|]. intros i g Hi. rewrite (Hg i g Hi), decide_True by lia. by rewrite Nat.sub_0_r.
Qed.

(** The exponential numbers of every request. *)
Definition seeded_rows (V : nat) (drafts : list (list Z)) (gens : list (Z * G)) (expo : list (list Q)) : list (list Q) :=
  imap (λ i r, match od_get gens (Z.of_nat i), drafts !!! i with Some g, _ :: _ => (exponential_ g V).1 | _, _ => r end) expo.

Definition gens_ok (drafts : list (list Z)) (gens : list (Z * G)) : Prop :=
  NoDup gens.*1 ∧ ∀ i, i ∈ gens.*1 → 0 ≤ i < zlen drafts.

Lemma seed_rows_loop V drafts l gens expo :
  NoDup l.*1 → (∀ i, i ∈ l.*1 → 0 ≤ i < zlen drafts) → length expo = length drafts →
  ∃ gens', mfold (seed_row exponential_ (zlen <$> drafts) (Z.of_nat V)) (expo, gens) l = Ok (seeded_rows V drafts l expo, gens').
Proof.
  revert gens expo. induction l as [|[i g] l IH]; intros gens expo Hnd Hi Hlen.
  - exists gens. cbn [mfold]. do 2 f_equal. unfold seeded_rows. apply list_eq. intros k. rewrite list_lookup_imap. by destruct (expo !! k).
  - rewrite fmap_cons in Hnd, Hi. apply NoDup_cons in Hnd as [Hni Hnd]. cbn [fst] in Hni, Hi.
    destruct (Hi i ltac:(by left)) as [Hi0 Hi1]. unfold zlen in Hi1. destruct (lookup_lt_is_Some_2 drafts (Z.to_nat i) ltac:(lia)) as [d Hd].
    set (expo1 := match d with [] => expo | _ => <[Z.to_nat i := (exponential_ g V).1]> expo end).
    assert (∃ gens1, seed_row exponential_ (zlen <$> drafts) (Z.of_nat V) (expo, gens) (i, g) = Ok (expo1, gens1)) as [gens1 E1].
    { unfold seed_row. rewrite (tl_load_lookup _ i (zlen d)) by (try done; by rewrite list_lookup_fmap, Hd). cbn [mbind result_bind].
      unfold expo1. destruct d as [|x d]; [by eexists|]. rewrite zlen_cons. pose proof (zlen_nonneg d).
      destruct (Z.ltb_spec 0 (zlen d + 1)); [|lia]. rewrite Nat2Z.id. destruct (exponential_ g V) as [xs g'].
      rewrite tl_store_ok by (unfold zlen; lia). by eexists. }
    cbn [mfold]. rewrite E1. cbn [mbind result_bind].
    destruct (IH gens1 expo1 Hnd) as [gens' E'].
    { intros j Hj. apply Hi. by right. }
    { unfold expo1. destruct d; rewrite ?length_insert; done. }
    exists gens'. rewrite E'. do 2 f_equal. unfold seeded_rows. apply list_eq. intros k. rewrite !list_lookup_imap. cbn [od_get].
    destruct (decide (Z.of_nat k = i)) as [<-|Hne].
    + rewrite Nat2Z.id in *. apply od_get_None in Hni. rewrite Hni. rewrite (list_lookup_total_correct drafts k d Hd). unfold expo1.
      destruct d as [|x d]; [by destruct (expo !! k)|]. rewrite Nat2Z.id, list_lookup_insert_eq by lia.
      destruct (lookup_lt_is_Some_2 expo k ltac:(lia)) as [e He]. by rewrite He.
    + assert (expo1 !! k = expo !! k) as ->; [|done]. unfold expo1. destruct d; [done|]. apply list_lookup_insert_ne. lia.
Qed.

Lemma seeded_rows_width V drafts gens expo :
  Forall (λ r, length r = V) expo → Forall (λ r, length r = V) (seeded_rows V drafts gens expo).
Proof.
  intros H. apply Forall_lookup. intros i r. unfold seeded_rows. rewrite list_lookup_imap. destruct (expo !! i) as [e|] eqn:E; [|done].
  cbn. intros [= <-]. pose proof (proj1 (Forall_lookup _ _) H i e E) as He. cbv beta in He.
  destruct (od_get gens _); [|done]. destruct (drafts !!! i); [done|]. by rewrite exponential_length.
Qed.

Definition inverses (rows : list (list Q)) : list (list Q) := (λ r : list Q, Qinv <$> r) <$> rows.

Lemma inverses_concat rows : Qinv <$> concat rows = concat (inverses rows).
Proof. unfold inverses. induction rows as [|r l IH]; [done|]. cbn [concat]. rewrite fmap_app, fmap_cons. cbn [concat]. by rewrite IH. Qed.

(** Every position gets the first of the largest scores, whatever memory held. *)
Lemma recovered_tokens_ok V m drafts probs draft_probs expo empty gens (B : nat) :
  int32_rows V drafts → probs_ok V drafts probs draft_probs → (0 < V)%nat → (0 < B)%nat → Forall (λ d, (length d ≤ m)%nat) drafts →
  gens_ok drafts gens → length expo = length drafts → Forall (λ r, length r = V) expo → length empty = length (concat drafts) →
  ∃ gens', sample_recovered_tokens exponential_ expo empty (Z.of_nat m) (zlen <$> drafts) (cu_of drafts) (concat drafts)
      (flat_drafts draft_probs) (concat (concat probs)) (Z.of_nat V) (Z.of_nat B) gens =
    Ok (concat (recovered_rows V drafts probs draft_probs (inverses (seeded_rows V drafts gens expo))), gens').
Proof.
  intros H32 Hok HV HB Hm [Hg1 Hg2] Hexp Hw Hemp. unfold sample_recovered_tokens.
  destruct (seed_rows_loop V drafts gens gens expo Hg1 Hg2 Hexp) as [gens' Eg]. rewrite Eg. cbn [mbind result_bind].
  set (inv := inverses (seeded_rows V drafts gens expo)). assert (Einv : Qinv <$> concat (seeded_rows V drafts gens expo) = concat inv).
  { apply inverses_concat. }
  assert (Hinv : Forall (λ r, length r = V) inv).
  { unfold inv, inverses. apply Forall_fmap. eapply Forall_impl; [apply (seeded_rows_width V drafts gens expo Hw)|]. intros r Hr. cbn. by rewrite length_fmap. }
  assert (Hil : length inv = length drafts) by (unfold inv, inverses, seeded_rows; by rewrite length_fmap, length_imap).
  rewrite Einv. set (vals := recovered_rows V drafts probs draft_probs inv). pose proof (recovered_shape V drafts probs draft_probs inv) as Hshape.
  assert (Hvl : length (concat drafts) = length (concat vals)) by (by apply shape_length).
  destruct (launch_values (sample_recovered_tokens_kernel (cu_of drafts) (concat drafts) (flat_drafts draft_probs) (concat (concat probs))
      (concat inv) (Z.of_nat V) (Z.of_nat B))
    (λ p, if decide (Z.to_nat p.2 < length (drafts !!! Z.to_nat p.1))%nat then Some (start_of drafts (Z.to_nat p.1) + Z.to_nat p.2)%nat else None)
    (concat vals) empty (i ← py_range 0 (zlen (zlen <$> drafts)); pos ← py_range 0 (Z.of_nat m); [(i, pos)])) as (out & E & Hol & Hlook).
  - lia.
  - intros [i j] o Hp Ho. apply list_elem_of_bind in Hp as (i' & Hp & Hi). apply list_elem_of_bind in Hp as (j' & Hp & Hj).
    apply list_elem_of_singleton in Hp. injection Hp as -> ->. apply elem_of_py_range in Hi, Hj. rewrite zlen_fmap in Hi. unfold zlen in Hi.
    destruct (lookup_lt_is_Some_2 drafts (Z.to_nat i') ltac:(lia)) as [d Hd]. cbn [fst snd]. rewrite (list_lookup_total_correct _ _ _ Hd).
    pose proof (recovered_program V drafts probs draft_probs inv B o (Z.to_nat i') d (Z.to_nat j') H32 Hok Hd HV HB Hinv
      ltac:(lia) ltac:(lia)) as Ek. rewrite !Z2Nat.id in Ek by lia. rewrite Ek. clear Ek. eexists. split; [by destruct (decide _)|].
    intros n Hn. destruct (decide _) as [Hjd|]; [|done]. injection Hn as <-.
    rewrite (shape_start drafts vals _ Hshape).
    pose proof (recovered_rows_lookup V drafts probs draft_probs inv _ d Hd) as Hv. fold vals in Hv.
    rewrite (ragged_lookup vals _ _ _ Hv) by (by rewrite length_fmap, length_seq). by rewrite list_lookup_fmap, lookup_seq_lt by exact Hjd.
  - rewrite E. cbn [mbind result_bind]. exists gens'. do 2 f_equal. apply list_eq. intros n.
    destruct (decide (n < length (concat vals))%nat) as [Hn|Hn]; [|by rewrite !lookup_ge_None_2 by lia].
    apply Hlook. right. rewrite <-Hvl in Hn. destruct (ragged_index drafts n Hn) as (i & d & j & Hd & Hj & ->).
    pose proof (proj1 (Forall_lookup _ _) Hm i d Hd) as Hdm. cbv beta in Hdm. exists (Z.of_nat i, Z.of_nat j). split.
    + apply list_elem_of_bind. exists (Z.of_nat i). split.
      * apply list_elem_of_bind. exists (Z.of_nat j). split; [by left|]. apply elem_of_py_range. lia.
      * apply elem_of_py_range. rewrite zlen_fmap. apply lookup_lt_Some in Hd. unfold zlen. lia.
    + cbn [fst snd]. rewrite !Nat2Z.id, (list_lookup_total_correct _ _ _ Hd). by rewrite decide_True.
Qed.

(** ** A batch *)

(** The inputs of a launch: per request the draft tokens, the rows of logits, the rows
    of draft probabilities if there are any, the bonus token and random numbers. *)
Record batch_input := mkBatch {
  bi_drafts : list (list Z);
  bi_logits : list (list (list L));
  bi_draft_probs : option (list (list (list Q)));
  bi_bonus : list Z;
  bi_max : nat;
  bi_vocab : nat;
  bi_rand : list (list Q);
  bi_expo : list (list Q);
  bi_empty : list Z;
}.
Implicit Types (b : batch_input) (sm : @SamplingMetadata G).

Definition sample_batch b sm (synthetic : bool) (rates : option (list Q)) : result (list Z * list (Z * G)) :=
  rejection_sample uniform_ exponential_ argmax softmax (mkLaunch (concat (bi_rand b)) (bi_expo b) (bi_empty b)) (concat (bi_drafts b))
    (zlen <$> bi_drafts b) (Z.of_nat (bi_max b)) (cu_of (bi_drafts b)) ((λ rows, concat rows) <$> bi_draft_probs b) (concat (bi_logits b))
    (Z.of_nat (bi_vocab b)) (bi_bonus b) sm synthetic rates.

(** Shapes agree, tokens are in the vocabulary, the flags describe the temperatures. *)
Record batch_ok b sm (synthetic : bool) (rates : option (list Q)) : Prop := {
  bo_logits : same_shape (bi_drafts b) (bi_logits b);
  bo_width : Forall (Forall (λ r, length r = bi_vocab b)) (bi_logits b);
  bo_draft_probs : ∀ rows, bi_draft_probs b = Some rows → prob_rows (bi_vocab b) (bi_drafts b) rows;
  bo_bonus : length (bi_bonus b) = length (bi_drafts b) ∧ Forall (λ t, 0 ≤ t < Z.of_nat (bi_vocab b)) (bi_bonus b);
  bo_max : Forall (λ d, (length d ≤ bi_max b)%nat) (bi_drafts b);
  bo_tokens : Forall (Forall (λ t, 0 ≤ t < Z.of_nat (bi_vocab b))) (bi_drafts b);
  bo_vocab : 0 < Z.of_nat (bi_vocab b) ≤ 2 ^ 31;
  bo_rand : same_shape (bi_drafts b) (bi_rand b);
  bo_expo : length (bi_expo b) = length (bi_drafts b) ∧ Forall (λ r, length r = bi_vocab b) (bi_expo b);
  bo_empty : length (bi_empty b) = length (concat (bi_drafts b));
  bo_argmax : ∀ row, length row = bi_vocab b → 0 ≤ argmax row < Z.of_nat (bi_vocab b);
  bo_softmax : ∀ row, length row = bi_vocab b → length (softmax row) = bi_vocab b;
  bo_greedy : all_greedy sm = false → length (temperature sm) = length (bi_drafts b);
  bo_random : all_random sm = true → all_greedy sm = false ∧ Forall (λ t, Qeq_bool t GREEDY_TEMPERATURE = false) (temperature sm);
  bo_gens : gens_ok (bi_drafts b) (generators sm);
  (** the kernels for requests that sample address rows of the vocabulary in 32 bits *)
  bo_int32 : all_greedy sm = true ∨ int32_rows (bi_vocab b) (bi_drafts b);
  bo_rates : synthetic = true → ∃ l, rates = Some l ∧ (bi_max b ≤ length l)%nat;
}.

Definition greedy_at sm (i : nat) : bool := if all_greedy sm then true else Qeq_bool (temperature sm !!! i) GREEDY_TEMPERATURE.

Definition batch_us b sm : list (list Q) := seeded (generators sm) 0 (bi_rand b).
Definition batch_argmax b : list (list Z) := (λ rows : list (list L), argmax <$> rows) <$> bi_logits b.
Definition batch_probs b : list (list (list Q)) := (λ rows : list (list L), softmax <$> rows) <$> bi_logits b.

(** The generators after the uniform numbers. *)
Definition batch_gens b sm : list (Z * G) :=
  (generate_uniform_probs uniform_ (concat (bi_rand b)) (zlen <$> bi_drafts b) (generators sm)).2.

Definition batch_recovered b sm : list (list Z) :=
  recovered_rows (bi_vocab b) (bi_drafts b) (batch_probs b) (bi_draft_probs b)
    (inverses (seeded_rows (bi_vocab b) (bi_drafts b) (batch_gens b sm) (bi_expo b))).

(** The decisions on the draft tokens of request [i], and what it gets. *)
Definition request_ds b sm (rates : option (list Q)) (i : nat) : list (Z * bool) :=
  if greedy_at sm i
  then greedy_ds ((λ l, (batch_us b sm !!! i, l)) <$> rates) (bi_drafts b !!! i) (batch_argmax b !!! i)
  else random_ds rates (batch_probs b !!! i) ((λ rows, rows !!! i) <$> bi_draft_probs b) (batch_us b sm !!! i)
         (bi_drafts b !!! i) (batch_recovered b sm !!! i).

Definition request_output b sm rates (i : nat) : list Z := emit (request_ds b sm rates i) (bi_bonus b !!! i).

Lemma fmap_concat {A B} (f : A → B) (ls : list (list A)) : f <$> concat ls = concat ((λ l : list A, f <$> l) <$> ls).
Proof. induction ls as [|l ls IH]; [done|]. cbn [concat]. rewrite fmap_app, fmap_cons. cbn [concat]. by rewrite IH. Qed.

Lemma shape_fmap {A B C} (f : B → C) (xs : list (list A)) (ys : list (list B)) :
  same_shape xs ys → same_shape xs ((λ l : list B, f <$> l) <$> ys).
Proof. intros H. apply Forall2_fmap_r. eapply Forall2_impl; [exact H|]. intros x y Hxy. cbn. by rewrite length_fmap. Qed.

Lemma shape_trans {A B C} (xs : list (list A)) (ys : list (list B)) (zs : list (list C)) :
  same_shape xs ys → same_shape ys zs → same_shape xs zs.
Proof.
  intros H1. revert zs. induction H1 as [|x y xs ys Hxy _ IH]; intros zs H2; inversion H2 as [|y' z ys' zs' Hyz Hr]; subst; constructor.
  - congruence.
  - by apply IH.
Qed.

Lemma batch_random_ok b sm syn rates :
  batch_ok b sm syn rates → all_greedy sm = false →
  random_ok (bi_vocab b) (bi_max b) (bi_drafts b) (batch_probs b) (bi_draft_probs b) (batch_us b sm) (batch_recovered b sm)
    (if syn then rates else None).
Proof.
  intros Hb Hag. split.
  - split; [|apply Hb]. split; [apply shape_fmap, Hb|]. unfold batch_probs. apply Forall_fmap. eapply Forall_impl; [apply Hb|]. intros rows Hr. cbn.
    apply Forall_fmap. eapply Forall_impl; [exact Hr|]. intros r. cbn. apply (bo_softmax _ _ _ _ Hb).
  - destruct (bo_int32 _ _ _ _ Hb); [congruence|done].
  - eapply shape_trans; [apply (bo_rand _ _ _ _ Hb)|apply seeded_shape].
  - apply recovered_shape.
  - apply Hb.
  - intros l. destruct syn; [|done]. intros ->. destruct (bo_rates _ _ _ _ Hb eq_refl) as (l' & [= <-] & ?). done.
Qed.

Lemma batch_gens_ok b sm syn rates : batch_ok b sm syn rates →
  generate_uniform_probs uniform_ (concat (bi_rand b)) (zlen <$> bi_drafts b) (generators sm) = (concat (batch_us b sm), batch_gens b sm) ∧
  gens_ok (bi_drafts b) (batch_gens b sm).
Proof.
  intros Hb. assert (Hn : zlen <$> bi_drafts b = zlen <$> bi_rand b).
  { pose proof (bo_rand _ _ _ _ Hb) as Hs. clear -Hs. induction Hs as [|x y xs ys Hxy _ IH]; [done|]. rewrite !fmap_cons, IH. f_equal.
    unfold zlen. lia. }
  unfold batch_gens, batch_us. rewrite Hn. destruct (uniform_probs_ok (bi_rand b) (generators sm)) as (g & E & Hk & _). rewrite E.
  split; [done|]. unfold gens_ok. cbn [snd]. rewrite Hk. apply Hb.
Qed.

Lemma greedy_flags b sm syn rates i : batch_ok b sm syn rates → (i < length (bi_drafts b))%nat →
  match (if all_greedy sm then None else Some ((λ t, Qeq_bool t GREEDY_TEMPERATURE) <$> temperature sm)) with
  | None => greedy_at sm i = true
  | Some l => l !! i = Some (greedy_at sm i)
  end.
Proof.
  intros Hb Hi. unfold greedy_at. destruct (all_greedy sm) eqn:Eg; [done|]. pose proof (bo_greedy _ _ _ _ Hb Eg).
  rewrite list_lookup_fmap, (list_lookup_lookup_total_lt (temperature sm) i) by lia. done.
Qed.

(** The rows a batch fills: of greedy requests, of the others, of all. *)
Definition row_for b sm rates (sel : bool → bool) (i : nat) : option (list Z) :=
  if sel (greedy_at sm i) then Some (request_output b sm rates i) else None.

Lemma request_ds_length b sm rates i : length (request_ds b sm rates i) = length (bi_drafts b !!! i).
Proof. unfold request_ds, greedy_ds, random_ds. destruct (greedy_at sm i); by rewrite length_fmap, length_seq. Qed.

Lemma request_output_width b sm syn rates i rates' :
  batch_ok b sm syn rates → (i < length (bi_drafts b))%nat → (length (request_output b sm rates' i) ≤ bi_max b + 1)%nat.
Proof.
  intros Hb Hi. unfold request_output. pose proof (emit_length (request_ds b sm rates' i) (bi_bonus b !!! i)) as He.
  rewrite request_ds_length in He. pose proof (list_lookup_lookup_total_lt _ _ Hi) as Hd.
  pose proof (proj1 (Forall_lookup _ _) (bo_max _ _ _ _ Hb) i _ Hd) as Hm. cbv beta in Hm. lia.
Qed.

(** The launch for greedy requests. *)
Lemma greedy_launch b sm (syn : bool) rates rows :
  batch_ok b sm syn rates → Forall (λ r, length r = (bi_max b + 1)%nat) rows → length rows = length (bi_drafts b) →
  ∃ rows', mfold (rejection_greedy_sample_kernel (cu_of (bi_drafts b)) (concat (bi_drafts b)) (argmax <$> concat (bi_logits b)) (bi_bonus b)
      (if all_greedy sm then None else Some ((λ t, Qeq_bool t GREEDY_TEMPERATURE) <$> temperature sm)) (Z.of_nat (bi_max b))
      (if syn then Some (Some (concat (batch_us b sm)), rates) else None)) (concat rows) (Z.of_nat <$> seq 0 (length (bi_drafts b))) =
      Ok (concat rows') ∧ length rows' = length rows ∧ Forall (λ r, length r = (bi_max b + 1)%nat) rows' ∧
    ∀ i r, rows !! i = Some r → rows' !! i = Some (fill (row_for b sm (if syn then rates else None) id i) r).
Proof.
  intros Hb Hw Hl. rewrite fmap_concat. fold (batch_argmax b).
  set (synl := if syn then (λ l, (batch_us b sm, l)) <$> rates else None).
  assert (Esyn : (if syn then Some (Some (concat (batch_us b sm)), rates) else None) = syn_ptrs synl).
  { unfold synl. destruct syn; [|done]. by destruct (bo_rates _ _ _ _ Hb eq_refl) as (l & -> & _). }
  assert (Hsyn : syn_ok (bi_drafts b) (bi_max b) synl).
  { unfold synl, syn_ok. destruct syn; [|done]. destruct (bo_rates _ _ _ _ Hb eq_refl) as (l & -> & Hlen). cbn. split; [|done].
    eapply shape_trans; [apply (bo_rand _ _ _ _ Hb)|apply seeded_shape]. }
  rewrite Esyn. destruct (launch_rows (rejection_greedy_sample_kernel (cu_of (bi_drafts b)) (concat (bi_drafts b)) (concat (batch_argmax b))
    (bi_bonus b) (if all_greedy sm then None else Some ((λ t, Qeq_bool t GREEDY_TEMPERATURE) <$> temperature sm)) (Z.of_nat (bi_max b))
    (syn_ptrs synl)) (bi_max b + 1) (row_for b sm (if syn then rates else None) id) rows (seq 0 (length (bi_drafts b))) Hw) as (rows' & E & L' & W' & H').
  - apply NoDup_seq.
  - intros i Hi%elem_of_seq. assert (Hi' : (i < length (bi_drafts b))%nat) by lia. split; [lia|]. split.
    { intros ts. unfold row_for. destruct (id _); [|done]. intros [= <-]. by apply (request_output_width b sm syn rates). }
    intros out Hout. rewrite Hl in Hout. pose proof (list_lookup_lookup_total_lt _ _ Hi') as Hd.
    assert (Hsa : same_shape (bi_drafts b) (batch_argmax b)) by apply shape_fmap, Hb.
    assert (Ha : batch_argmax b !! i = Some (batch_argmax b !!! i)).
    { apply list_lookup_lookup_total_lt. by rewrite <-(Forall2_length _ _ _ Hsa). }
    assert (Hbo : bi_bonus b !! i = Some (bi_bonus b !!! i)).
    { apply list_lookup_lookup_total_lt. by rewrite (proj1 (bo_bonus _ _ _ _ Hb)). }
    rewrite (greedy_program (bi_drafts b) (batch_argmax b) (bi_bonus b) _ (bi_max b) synl out i _ _ _ (greedy_at sm i) Hsa Hsyn Hd Ha Hbo).
    + unfold row_for, request_output, request_ds. cbn [id]. destruct (greedy_at sm i); [|done]. do 4 f_equal.
      unfold synl, syn_of. destruct syn; [|done]. by destruct (bo_rates _ _ _ _ Hb eq_refl) as (l & -> & _).
    + apply Forall_lookup. intros j t Ht. unfold batch_argmax in Ha. rewrite list_lookup_fmap in Ha. apply fmap_Some in Ha as (lrows & Hlr & E).
      fold (batch_argmax b) in E. rewrite E in Ht. rewrite list_lookup_fmap in Ht. apply fmap_Some in Ht as (row & Hrow & ->).
      pose proof (proj1 (Forall_lookup _ _) (bo_width _ _ _ _ Hb) i lrows Hlr) as Hf.
      pose proof (bo_argmax _ _ _ _ Hb row (proj1 (Forall_lookup _ _) Hf j row Hrow)). pose proof (bo_vocab _ _ _ _ Hb). lia.
    + pose proof (proj1 (Forall_lookup _ _) (bo_max _ _ _ _ Hb) i _ Hd). done.
    + done.
    + by apply (greedy_flags b sm syn rates).
  - exists rows'. split_and!; [exact E|done|done|]. intros i r Hr. rewrite (H' i r Hr), decide_True; [done|]. apply elem_of_seq.
    apply lookup_lt_Some in Hr. lia.
Qed.

(** The launch for requests that sample. *)
Lemma random_launch b sm (syn : bool) rates rows :
  batch_ok b sm syn rates → all_greedy sm = false → Forall (λ r, length r = (bi_max b + 1)%nat) rows → length rows = length (bi_drafts b) →
  ∃ rows', mfold (rejection_random_sample_kernel (cu_of (bi_drafts b)) (concat (bi_drafts b)) (flat_drafts (bi_draft_probs b))
      (concat (concat (batch_probs b))) (bi_bonus b) (concat (batch_recovered b sm)) (concat (batch_us b sm))
      (Some ((λ t, Qeq_bool t GREEDY_TEMPERATURE) <$> temperature sm)) (Z.of_nat (bi_max b)) (Z.of_nat (bi_vocab b))
      (Some <$> (if syn then rates else None))) (concat rows) (Z.of_nat <$> seq 0 (length (bi_drafts b))) =
      Ok (concat rows') ∧ length rows' = length rows ∧ Forall (λ r, length r = (bi_max b + 1)%nat) rows' ∧
    ∀ i r, rows !! i = Some r → rows' !! i = Some (fill (row_for b sm (if syn then rates else None) negb i) r).
Proof.
  intros Hb Hag Hw Hl. destruct (launch_rows (rejection_random_sample_kernel (cu_of (bi_drafts b)) (concat (bi_drafts b))
      (flat_drafts (bi_draft_probs b)) (concat (concat (batch_probs b))) (bi_bonus b) (concat (batch_recovered b sm)) (concat (batch_us b sm))
      (Some ((λ t, Qeq_bool t GREEDY_TEMPERATURE) <$> temperature sm)) (Z.of_nat (bi_max b)) (Z.of_nat (bi_vocab b))
      (Some <$> (if syn then rates else None))) (bi_max b + 1) (row_for b sm (if syn then rates else None) negb) rows
      (seq 0 (length (bi_drafts b))) Hw) as (rows' & E & L' & W' & H').
  - apply NoDup_seq.
  - intros i Hi%elem_of_seq. assert (Hi' : (i < length (bi_drafts b))%nat) by lia. split; [lia|]. split.
    { intros ts. unfold row_for. destruct (negb _); [|done]. intros [= <-]. by apply (request_output_width b sm syn rates). }
    intros out Hout. rewrite Hl in Hout. pose proof (list_lookup_lookup_total_lt _ _ Hi') as Hd.
    assert (Hbo : bi_bonus b !! i = Some (bi_bonus b !!! i)).
    { apply list_lookup_lookup_total_lt. by rewrite (proj1 (bo_bonus _ _ _ _ Hb)). }
    pose proof (greedy_flags b sm syn rates i Hb Hi') as Hg. rewrite Hag in Hg.
    rewrite (random_program _ _ _ _ _ _ _ _ _ _ _ _ _ _ _ (batch_random_ok b sm syn rates Hb Hag) Hd Hbo Hg).
    + unfold row_for, request_output, request_ds. by destruct (greedy_at sm i).
    + exact (proj1 (Forall_lookup _ _) (bo_max _ _ _ _ Hb) i _ Hd).
    + done.
  - exists rows'. split_and!; [exact E|done|done|]. intros i r Hr. rewrite (H' i r Hr), decide_True; [done|]. apply elem_of_seq.
    apply lookup_lt_Some in Hr. lia.
Qed.

(** ** The whole batch *)

Definition batch_rows b sm rates : list (list Z) :=
  (λ i, fill (Some (request_output b sm rates i)) (replicate (bi_max b + 1) PLACEHOLDER_TOKEN_ID)) <$> seq 0 (length (bi_drafts b)).

Lemma placeholder_rows n w : replicate (Z.to_nat (Z.of_nat n * (Z.of_nat w + 1))) PLACEHOLDER_TOKEN_ID =
  concat (replicate n (replicate (w + 1) PLACEHOLDER_TOKEN_ID)).
Proof.
  replace (Z.to_nat _) with (n * (w + 1))%nat by lia. induction n as [|n IH]; [done|]. cbn [Nat.mul replicate concat].
  by rewrite replicate_add, IH.
Qed.

Lemma rows_eq b sm rates rows :
  length rows = length (bi_drafts b) →
  (∀ i, (i < length (bi_drafts b))%nat →
     rows !! i = Some (fill (Some (request_output b sm rates i)) (replicate (bi_max b + 1) PLACEHOLDER_TOKEN_ID))) →
  rows = batch_rows b sm rates.
Proof.
  intros Hl H. apply list_eq. intros i. unfold batch_rows. rewrite list_lookup_fmap.
  destruct (decide (i < length (bi_drafts b))%nat) as [Hi|Hi].
  - by rewrite (H i Hi), lookup_seq_lt by done.
  - by rewrite lookup_ge_None_2, lookup_seq_ge by lia.
Qed.

Lemma sample_batch_rows b sm (syn : bool) rates :
  batch_ok b sm syn rates → ∃ gens, sample_batch b sm syn rates = Ok (concat (batch_rows b sm (if syn then rates else None)), gens).
Proof.
  intros Hb. unfold sample_batch, rejection_sample. cbn [la_rand la_expo la_empty].
  assert (Hassert : bool_decide (length (concat (bi_logits b)) = length (concat (bi_drafts b))) &&
    forallb (λ row, zlen row =? Z.of_nat (bi_vocab b)) (concat (bi_logits b)) = true).
  { apply andb_true_iff. split.
    - apply bool_decide_eq_true. symmetry. apply shape_length, Hb.
    - apply forallb_forall. intros row Hrow%list_elem_of_In. apply Z.eqb_eq. unfold zlen. f_equal.
      apply list_elem_of_lookup in Hrow as [n Hn]. destruct (ragged_index (bi_logits b) n ltac:(by eapply lookup_lt_Some)) as (i & rows & j & Hi & Hj & ->).
      rewrite (ragged_lookup _ _ _ _ Hi Hj) in Hn. pose proof (proj1 (Forall_lookup _ _) (bo_width _ _ _ _ Hb) i rows Hi) as Hf.
      exact (proj1 (Forall_lookup _ _) Hf j row Hn). }
  rewrite Hassert. cbn [py_assert mbind result_bind]. cbv zeta. rewrite zlen_fmap.
  change (zlen (bi_drafts b)) with (Z.of_nat (length (bi_drafts b))). rewrite placeholder_rows, py_range_seq.
  set (rows0 := replicate (length (bi_drafts b)) (replicate (bi_max b + 1) PLACEHOLDER_TOKEN_ID)).
  assert (Hw0 : Forall (λ r, length r = (bi_max b + 1)%nat) rows0) by (apply Forall_replicate; by rewrite length_replicate).
  assert (Hl0 : length rows0 = length (bi_drafts b)) by (unfold rows0; by rewrite length_replicate).
  assert (Hr0 : ∀ i, (i < length (bi_drafts b))%nat → rows0 !! i = Some (replicate (bi_max b + 1) PLACEHOLDER_TOKEN_ID)).
  { intros i Hi. unfold rows0. by rewrite lookup_replicate_2. }
  destruct (batch_gens_ok b sm syn rates Hb) as [Eg Hg]. set (rr := if syn then rates else None).
  set (flags := if all_greedy sm then None else _).
  (* the uniform numbers, where they are drawn *)
  set (draw := if syn || negb (all_greedy sm) then _ else _).
  assert (Hdraw : (syn || negb (all_greedy sm) = true → draw = (Some (concat (batch_us b sm)), batch_gens b sm)) ∧
    (if syn then Some (draw.1, rates) else None) = if syn then Some (Some (concat (batch_us b sm)), rates) else None).
  { unfold draw. rewrite Eg. split; [by intros ->|]. by destruct syn. }
  destruct Hdraw as [Hdraw1 Hdraw2]. destruct draw as [up gens1]. cbn [fst] in Hdraw2. rewrite Hdraw2. clear Hdraw2.
  (* after the launch for greedy requests *)
  assert (∃ rows1, (if all_random sm then Ok (concat rows0) else
      mfold (rejection_greedy_sample_kernel (cu_of (bi_drafts b)) (concat (bi_drafts b)) (argmax <$> concat (bi_logits b)) (bi_bonus b) flags
        (Z.of_nat (bi_max b)) (if syn then Some (Some (concat (batch_us b sm)), rates) else None)) (concat rows0)
        (Z.of_nat <$> seq 0 (length (bi_drafts b)))) = Ok (concat rows1) ∧ length rows1 = length (bi_drafts b) ∧
      Forall (λ r, length r = (bi_max b + 1)%nat) rows1 ∧
      ∀ i, (i < length (bi_drafts b))%nat → rows1 !! i = Some (fill (row_for b sm rr id i) (replicate (bi_max b + 1) PLACEHOLDER_TOKEN_ID)))
    as (rows1 & -> & Hl1 & Hw1 & Hr1).
  { destruct (all_random sm) eqn:Er.
    - exists rows0. split_and!; [done..|]. intros i Hi. rewrite (Hr0 i Hi). do 2 f_equal. destruct (bo_random _ _ _ _ Hb Er) as [Hag Hf].
      unfold row_for, greedy_at. rewrite Hag. assert (Qeq_bool (temperature sm !!! i) GREEDY_TEMPERATURE = false) as ->; [|done].
      apply (proj1 (Forall_lookup _ _) Hf i). apply list_lookup_lookup_total_lt. by rewrite (bo_greedy _ _ _ _ Hb Hag).
    - destruct (greedy_launch b sm syn rates rows0 Hb Hw0 Hl0) as (rows1 & E & L1 & W1 & R1). exists rows1. split_and!; [exact E|congruence|done|].
      intros i Hi. by apply R1, Hr0. }
  cbn [mbind result_bind]. destruct (all_greedy sm) eqn:Eag.
  - assert (all_random sm = false) as ->. { destruct (all_random sm) eqn:Er; [|done]. destruct (bo_random _ _ _ _ Hb Er). congruence. }
    cbn [negb andb]. eexists. rewrite (rows_eq b sm rr rows1 Hl1); [done|]. intros i Hi. rewrite (Hr1 i Hi). unfold row_for, greedy_at.
    by rewrite Eag.
  - rewrite andb_false_r. rewrite orb_true_r in Hdraw1. injection (Hdraw1 eq_refl) as -> ->.
    assert (((λ rows : list (list Q), concat rows) <$> ((λ rows : list (list (list Q)), concat rows) <$> bi_draft_probs b)) =
      flat_drafts (bi_draft_probs b)) as -> by (by destruct (bi_draft_probs b)).
    rewrite fmap_concat. fold (batch_probs b).
    destruct (recovered_tokens_ok _ (bi_max b) _ _ _ (bi_expo b) (bi_empty b) (batch_gens b sm) (Z.to_nat 8192)
      (ro_int32 _ _ _ _ _ _ _ _ (batch_random_ok b sm syn rates Hb Eag))
      (ro_probs _ _ _ _ _ _ _ _ (batch_random_ok b sm syn rates Hb Eag))) as [gens2 E2]; [pose proof (bo_vocab _ _ _ _ Hb); lia|lia|apply Hb|done|apply Hb|apply Hb|apply Hb|].
    change (Z.of_nat (Z.to_nat 8192)) with 8192 in E2. rewrite E2. cbn [mbind result_bind]. fold (batch_recovered b sm).
    destruct (random_launch b sm syn rates rows1 Hb Eag Hw1 Hl1) as (rows2 & E3 & L2 & _ & R2).
    assert ((if syn then Some rates else None) = Some <$> (if syn then rates else None)) as ->.
    { destruct syn; [|done]. by destruct (bo_rates _ _ _ _ Hb eq_refl) as (l & -> & _). }
    unfold flags. rewrite E3. cbn [mbind result_bind]. eexists. rewrite (rows_eq b sm rr rows2); [done|congruence|].
    intros i Hi. rewrite (R2 i _ (Hr1 i Hi)). unfold row_for. by destruct (greedy_at sm i).
Qed.
End sampling.
