(* ===== verification/RejectionTheorems.v ===== *)
(** * Verification of draft tokens: the theorems
    What is read back from the sampler, that greedy verification is lossless, that
    sampling keeps the distribution of the target model, and that the index
    arrays select the intended rows. *)

From Stdlib Require Import QArith Qminmax Lqa.
From S2P Require Import Prelude OrderedDict Rejection RejectionFacts.

#[local] Open Scope Z_scope.

(** ** Reading the output *)

Lemma rows_of_concat {A} (w : nat) (rows : list (list A)) :
  Forall (λ r, length r = w) rows → rows_of (Z.of_nat w) (zlen rows) (concat rows) = rows.
Proof.
  intros Hw. unfold rows_of, zlen. rewrite py_range_seq. apply list_eq. intros i. rewrite !list_lookup_fmap.
  destruct (decide (i < length rows)%nat) as [Hi|Hi]; [|rewrite lookup_seq_ge, lookup_ge_None_2 by lia; done].
  rewrite lookup_seq_lt by done. cbn. destruct (lookup_lt_is_Some_2 rows i Hi) as [r Hr]. rewrite Hr. f_equal.
  pose proof (proj1 (Forall_lookup _ _) Hw i r Hr) as Hrw. cbv beta in Hrw. unfold py_slice.
  replace (Z.to_nat (Z.of_nat i * Z.of_nat w)) with (i * w)%nat by lia.
  replace (Z.to_nat ((Z.of_nat i + 1) * Z.of_nat w)) with (i * w + w)%nat by lia.
  rewrite concat_rows_drop by done. rewrite (drop_S _ _ _ Hr). cbn [concat]. replace (i * w + w - i * w)%nat with (length r) by lia.
  apply take_app_length.
Qed.

Definition valid_tokens (V : Z) (ts : list Z) : Prop := Forall (λ t, 0 ≤ t < V) ts.

Lemma token_valid_in V t : 0 ≤ t < V → token_valid V t = true.
Proof.
  intros Ht. unfold token_valid, PLACEHOLDER_TOKEN_ID. destruct (Z.eqb_spec t (-1)); [lia|]. by destruct (Z.ltb_spec t V); [|lia].
Qed.

Lemma select_all ts (V : Z) rest :
  valid_tokens V ts → (∀ t, t ∈ rest → t = PLACEHOLDER_TOKEN_ID) → select_mask (ts ++ rest) (token_valid V <$> ts ++ rest) = ts.
Proof.
  intros Hts Hrest. induction Hts as [|t ts Ht _ IH]; cbn [app].
  - induction rest as [|t rest IH]; [done|]. rewrite fmap_cons. cbn [select_mask]. rewrite (Hrest t ltac:(by left)).
    cbn. apply IH. intros x Hx. apply Hrest. by right.
  - rewrite fmap_cons. cbn [select_mask]. rewrite token_valid_in by done. by rewrite IH.
Qed.

Lemma select_none row (mask : list bool) : select_mask row ((λ _, false) <$> mask) = [].
Proof. revert mask. induction row as [|x row IH]; intros [|b mask]; [done..|]. rewrite fmap_cons. cbn. apply IH. Qed.

Lemma discard_rows mask l :
  (∀ i, i ∈ l → 0 ≤ i < zlen mask) →
  ∃ mask', mfold discard_row mask l = Ok mask' ∧ length mask' = length mask ∧
    ∀ i r, mask !! i = Some r → mask' !! i = Some (if decide (Z.of_nat i ∈ l) then (λ _, false) <$> r else r).
Proof.
  revert mask. induction l as [|i l IH]; intros mask Hl.
  - exists mask. split_and!; [done..|]. intros i r Hr. by rewrite decide_False by apply not_elem_of_nil.
  - pose proof (Hl i ltac:(by left)) as Hi. unfold zlen in Hi. destruct (lookup_lt_is_Some_2 mask (Z.to_nat i) ltac:(lia)) as [r Hr].
    cbn [mfold]. assert (discard_row mask i = Ok (<[Z.to_nat i := (λ _, false) <$> r]> mask)) as ->.
    { unfold discard_row. rewrite (tl_load_lookup mask i r) by (done || lia). cbn [mbind result_bind]. apply tl_store_ok. unfold zlen. lia. }
    cbn [mbind result_bind]. destruct (IH (<[Z.to_nat i := (λ _, false) <$> r]> mask)) as (mask' & E & L & H).
    { intros j Hj. unfold zlen. rewrite length_insert. apply Hl. by right. }
    rewrite length_insert in L. exists mask'. split_and!; [done..|]. intros k rk Hk. destruct (decide (Z.to_nat i = k)) as [Eik|Hne].
    + subst k. assert (rk = r) as -> by congruence. rewrite (H _ ((λ _, false) <$> r)) by (apply list_lookup_insert_eq; lia).
      rewrite (decide_True (P := Z.of_nat (Z.to_nat i) ∈ i :: l)) by (rewrite Z2Nat.id by lia; by left).
      f_equal. case_decide; [|done]. rewrite <-list_fmap_compose. by apply list_fmap_ext.
    + rewrite (H k rk) by (by rewrite list_lookup_insert_ne).
      assert (Z.of_nat k ∈ i :: l ↔ Z.of_nat k ∈ l) as Hiff by (rewrite elem_of_cons; split; [intros [?|?]; [lia|done]|by right]).
      f_equal. destruct (decide (Z.of_nat k ∈ l)) as [Hin|Hni]; [by rewrite decide_True by tauto|by rewrite decide_False by tauto].
Qed.

(** Rows of valid tokens followed by placeholders. *)
Lemma parse_rows (V : Z) (outs : list (list Z)) (rows : list (list Z)) discard logprobs :
  Forall2 (λ ts row, valid_tokens V ts ∧ ∃ rest, row = ts ++ rest ∧ ∀ t, t ∈ rest → t = PLACEHOLDER_TOKEN_ID) outs rows →
  (∀ i, i ∈ discard → 0 ≤ i < zlen outs) →
  ∃ cu, parse_output rows V discard logprobs =
    Ok (imap (λ i ts, if decide (Z.of_nat i ∈ discard) then [] else ts) outs, cu).
Proof.
  intros Hrows Hd. pose proof (Forall2_length _ _ _ Hrows) as Hlen. unfold parse_output.
  destruct (discard_rows ((λ row : list Z, token_valid V <$> row) <$> rows) discard) as (mask & E & L & H).
  { intros i Hi%Hd. unfold zlen in *. rewrite length_fmap. lia. }
  rewrite E. cbn [mbind result_bind]. eexists. do 2 f_equal. rewrite length_fmap in L. apply list_eq. intros i. rewrite list_lookup_imap.
  destruct (decide (i < length outs)%nat) as [Hi|Hi].
  - destruct (lookup_lt_is_Some_2 outs i Hi) as [ts Hts]. destruct (Forall2_lookup_l _ _ _ _ _ Hrows Hts) as (row & Hrow & Hv & rest & -> & Hrest).
    rewrite Hts, lookup_zip_with, Hrow, (H i (token_valid V <$> ts ++ rest)) by (by rewrite list_lookup_fmap, Hrow). cbn. f_equal.
    case_decide; [apply select_none|by apply select_all].
  - rewrite (lookup_ge_None_2 outs) by lia. cbn. apply lookup_ge_None. rewrite length_zip_with. lia.
Qed.

(** ** What a batch returns *)

Section batch.
Context {G L : Type}.
Context (uniform_ exponential_ : G → nat → list Q * G).
Context (argmax : list L → Z) (softmax : list L → list Q).
Context (uniform_length : ∀ g n, length (uniform_ g n).1 = n) (exponential_length : ∀ g n, length (exponential_ g n).1 = n).
Implicit Types (b : @batch_input L) (sm : @SamplingMetadata G).
Abbreviation outputs := (request_output uniform_ exponential_ argmax softmax).
Abbreviation decisions := (request_ds uniform_ exponential_ argmax softmax).

Lemma emit_Forall (R : Z → Prop) ds bonus : Forall (λ d, R d.1) ds → R bonus → Forall R (emit ds bonus).
Proof. intros Hds Hb. induction Hds as [|[t [|]] ds Ht _ IH]; cbn; repeat constructor; done. Qed.

Lemma argmax_valid b sm syn rates i (Hb : batch_ok argmax softmax b sm syn rates) :
  (i < length (bi_drafts b))%nat → valid_tokens (Z.of_nat (bi_vocab b)) (batch_argmax argmax b !!! i) ∧
    length (batch_argmax argmax b !!! i) = length (bi_drafts b !!! i).
Proof.
  intros Hi. pose proof (list_lookup_lookup_total_lt _ _ Hi) as Hd.
  destruct (Forall2_lookup_l _ _ _ _ _ (bo_logits _ _ _ _ _ _ Hb) Hd) as (rows & Hrows & Hlen).
  assert (E : batch_argmax argmax b !! i = Some (argmax <$> rows)) by (unfold batch_argmax; by rewrite list_lookup_fmap, Hrows).
  rewrite (list_lookup_total_correct _ _ _ E). split; [|by rewrite length_fmap]. apply Forall_fmap.
  eapply Forall_impl; [exact (proj1 (Forall_lookup _ _) (bo_width _ _ _ _ _ _ Hb) i rows Hrows)|]. intros row. apply (bo_argmax _ _ _ _ _ _ Hb).
Qed.

Lemma drafts_valid b sm syn rates i (Hb : batch_ok argmax softmax b sm syn rates) :
  (i < length (bi_drafts b))%nat → valid_tokens (Z.of_nat (bi_vocab b)) (bi_drafts b !!! i).
Proof. intros Hi. exact (proj1 (Forall_lookup _ _) (bo_tokens _ _ _ _ _ _ Hb) i _ (list_lookup_lookup_total_lt _ _ Hi)). Qed.

Lemma valid_at V ts j : valid_tokens V ts → (j < length ts)%nat → 0 ≤ ts !!! j < V.
Proof. intros Hv Hj. exact (proj1 (Forall_lookup _ _) Hv j _ (list_lookup_lookup_total_lt _ _ Hj)). Qed.

Lemma output_valid b sm syn rates rr i (Hb : batch_ok argmax softmax b sm syn rates) :
  (i < length (bi_drafts b))%nat → valid_tokens (Z.of_nat (bi_vocab b)) (outputs b sm rr i).
Proof.
  intros Hi. pose proof (drafts_valid b sm syn rates i Hb Hi) as Hd. pose proof (argmax_valid b sm syn rates i Hb Hi) as [Ha Hal].
  unfold request_output. apply emit_Forall; last first.
  { apply (valid_at _ _ _ (proj2 (bo_bonus _ _ _ _ _ _ Hb))). by rewrite (proj1 (bo_bonus _ _ _ _ _ _ Hb)). }
  unfold request_ds. apply Forall_lookup. intros j t. destruct (greedy_at sm i).
  - unfold greedy_ds. intros [-> Hj]%seq_lookup_dec. pose proof (valid_at _ _ j Hd Hj). pose proof (valid_at _ _ j Ha ltac:(lia)).
    unfold greedy_decision. destruct (coin_at _ _) as [[u r]|]; [destruct (Qlt_b u r)|]; done.
  - unfold random_ds. intros [-> Hj]%seq_lookup_dec. unfold random_decision. destruct (match rr with Some _ => _ | None => _ end).
    + by apply valid_at.
    + cbn [fst]. pose proof (list_lookup_lookup_total_lt _ _ Hi) as Hdi. unfold batch_recovered.
      rewrite (list_lookup_total_correct _ _ _ (recovered_rows_lookup _ _ _ _ _ _ _ Hdi)).
      erewrite list_lookup_total_correct by (rewrite list_lookup_fmap, lookup_seq_lt by exact Hj; done).
      apply recover_range. pose proof (bo_vocab _ _ _ _ _ _ Hb). lia.
Qed.

(** The rows of the output buffer: what each request gets, then placeholders. *)
Lemma batch_buffer b sm (syn : bool) rates :
  batch_ok argmax softmax b sm syn rates →
  ∃ rows gens, sample_batch uniform_ exponential_ argmax softmax b sm syn rates = Ok (concat rows, gens) ∧
    rows_of (Z.of_nat (bi_max b) + 1) (zlen (bi_drafts b)) (concat rows) = rows ∧
    Forall2 (λ ts row, valid_tokens (Z.of_nat (bi_vocab b)) ts ∧ ∃ rest, row = ts ++ rest ∧ ∀ t, t ∈ rest → t = PLACEHOLDER_TOKEN_ID)
      (imap (λ i _, outputs b sm (if syn then rates else None) i) (bi_drafts b)) rows.
Proof.
  intros Hb. destruct (sample_batch_rows uniform_ exponential_ argmax softmax uniform_length exponential_length b sm syn rates Hb) as [gens E].
  set (rr := if syn then rates else None) in *. set (rows := batch_rows uniform_ exponential_ argmax softmax b sm rr) in *.
  assert (Hl : length rows = length (bi_drafts b)) by (unfold rows, batch_rows; by rewrite length_fmap, length_seq).
  exists rows, gens. split; [exact E|]. split.
  - replace (Z.of_nat (bi_max b) + 1) with (Z.of_nat (bi_max b + 1)) by lia. replace (zlen (bi_drafts b)) with (zlen rows) by (unfold zlen; lia).
    apply rows_of_concat, Forall_lookup. intros i r [-> Hi]%seq_lookup_dec. cbn [fill]. rewrite length_app, length_drop, length_replicate.
    pose proof (request_output_width uniform_ exponential_ argmax softmax b sm syn rates i rr Hb Hi). lia.
  - apply Forall2_same_length_lookup. rewrite length_imap. split; [done|]. intros i ts row. rewrite list_lookup_imap.
    destruct (bi_drafts b !! i) as [d|] eqn:Edr; [|done]. intros [= <-] [-> Hi]%seq_lookup_dec. split; [by apply (output_valid b sm syn rates)|].
    cbn [fill]. eexists. split; [done|]. intros t Ht.
    apply list_elem_of_lookup in Ht as [k Hk]. rewrite lookup_drop in Hk. by apply lookup_replicate in Hk as [-> _].
Qed.

(** What request [i] returns when the requests [discard] are to be discarded. *)
Definition returned b sm rates (discard : list Z) (i : nat) : list Z :=
  if decide (Z.of_nat i ∈ discard) then [] else outputs b sm rates i.

(** C11: verifying the draft tokens of a batch whose shapes agree and whose tokens are
    in the vocabulary never leaves a buffer and returns, for every request, exactly: its drafts up to the first one rejected, then the
    token of the target for a greedy request and the recovered one for a request
    that samples, or the bonus token when all are accepted; requests to discard
    return nothing.  Unless all requests are greedy, the last row of the
    probabilities (one per draft token) and of the random numbers (one per
    request) must start below 2^31 entries, because the kernels compute the start
    of a row in 32 bits. *)
Theorem rejection_sample_correct b sm (syn : bool) rates discard logprobs :
  batch_ok argmax softmax b sm syn rates → (∀ i, i ∈ discard → 0 ≤ i < zlen (bi_drafts b)) →
  ∃ out gens cu, sample_batch uniform_ exponential_ argmax softmax b sm syn rates = Ok (out, gens) ∧
    parse_output (rows_of (Z.of_nat (bi_max b) + 1) (zlen (bi_drafts b)) out) (Z.of_nat (bi_vocab b)) discard logprobs =
      Ok (imap (λ i _, returned b sm (if syn then rates else None) discard i) (bi_drafts b), cu).
Proof.
  intros Hb Hd. destruct (batch_buffer b sm syn rates Hb) as (rows & gens & E & Hrows & Hf).
  destruct (parse_rows _ _ _ discard logprobs Hf) as [cu Ep]; [intros i; unfold zlen; rewrite length_imap; apply Hd|].
  exists (concat rows), gens, cu. split; [exact E|]. rewrite Hrows, Ep. do 2 f_equal. apply list_eq. intros i. rewrite !list_lookup_imap.
  by destruct (bi_drafts b !! i).
Qed.

(** ** Greedy verification is lossless *)

(** [n] steps of decoding with the next-token function of the target model. *)
Fixpoint greedy_decode (next : list Z → Z) (ctx : list Z) (n : nat) : list Z :=
  match n with
  | O => []
  | S n => next ctx :: greedy_decode next (ctx ++ [next ctx]) n
  end.

Lemma greedy_ds_cons x d y a : greedy_ds None (x :: d) (y :: a) = greedy_decision None x y :: greedy_ds None d a.
Proof. unfold greedy_ds. cbn [length seq fmap list_fmap]. rewrite <-(fmap_S_seq 0), <-list_fmap_compose. done. Qed.

Lemma greedy_lossless next ctx d a bonus :
  length a = length d → (∀ j, (j < length d)%nat → a !!! j = next (ctx ++ take j d)) → bonus = next (ctx ++ d) →
  let o := emit (greedy_ds None d a) bonus in
  o = greedy_decode next ctx (length o) ∧ take (length o - 1) o = take (length o - 1) d.
Proof.
  revert ctx a. induction d as [|x d IH]; intros ctx a Hl Ha ->; [by cbn; rewrite app_nil_r|].
  destruct a as [|y a]; [done|]. rewrite greedy_ds_cons. cbn [greedy_decision emit].
  pose proof (Ha 0%nat ltac:(cbn; lia)) as Hy. cbn in Hy. rewrite app_nil_r in Hy.
  destruct (Z.eqb_spec x y) as [->|Hne]; cbn [negb length greedy_decode]; [|rewrite <-Hy; done].
  destruct (IH (ctx ++ [y]) a) as [E1 E2].
  - cbn in Hl. lia.
  - intros j Hj. rewrite <-(assoc_L (++)). apply (Ha (S j)). cbn. lia.
  - by rewrite <-(assoc_L (++)).
  - pose proof (emit_length (greedy_ds None d a) (next (ctx ++ y :: d))) as Hlo.
    set (o := emit (greedy_ds None d a) (next (ctx ++ y :: d))) in *. rewrite <-Hy. split; [f_equal; exact E1|].
    rewrite Nat.sub_succ, Nat.sub_0_r. destruct (length o) as [|n]; [lia|]. cbn [take]. f_equal.
    rewrite Nat.sub_succ, Nat.sub_0_r in E2. exact E2.
Qed.

(** C10: Greedy speculative decoding is lossless: when the logits of each draft position
    and the bonus token are those of the target model in the context of the
    tokens before, what a greedy request gets is exactly what decoding the target
    model token by token gives; at least one token, and all but the last are
    draft tokens.  (In a batch that also samples, the kernels for the other
    requests must be able to address their rows in 32 bits.) *)
Theorem greedy_speculation_lossless b sm discard logprobs next (ctx : nat → list Z) :
  batch_ok argmax softmax b sm false None → (∀ i, i ∈ discard → 0 ≤ i < zlen (bi_drafts b)) →
  (∀ i j, (i < length (bi_drafts b))%nat → (j < length (bi_drafts b !!! i))%nat →
     batch_argmax argmax b !!! i !!! j = next (ctx i ++ take j (bi_drafts b !!! i))) →
  (∀ i, (i < length (bi_drafts b))%nat → bi_bonus b !!! i = next (ctx i ++ bi_drafts b !!! i)) →
  ∃ out gens outs cu, sample_batch uniform_ exponential_ argmax softmax b sm false None = Ok (out, gens) ∧
    parse_output (rows_of (Z.of_nat (bi_max b) + 1) (zlen (bi_drafts b)) out) (Z.of_nat (bi_vocab b)) discard logprobs = Ok (outs, cu) ∧
    length outs = length (bi_drafts b) ∧
    ∀ i o, outs !! i = Some o → Z.of_nat i ∉ discard → greedy_at sm i = true →
      (0 < length o)%nat ∧ o = greedy_decode next (ctx i) (length o) ∧ take (length o - 1) o = take (length o - 1) (bi_drafts b !!! i).
Proof.
  intros Hb Hd Ha Hbonus. destruct (batch_buffer b sm false None Hb) as (rows & gens & E & Hrows & Hf).
  destruct (parse_rows _ _ _ discard logprobs Hf) as [cu Ep]; [intros i; unfold zlen; rewrite length_imap; apply Hd|].
  do 4 eexists. split; [exact E|]. rewrite Hrows. split; [exact Ep|]. split; [by rewrite !length_imap|]. intros i o Ho Hni Hg.
  rewrite !list_lookup_imap in Ho. destruct (bi_drafts b !! i) as [d|] eqn:Ed; [|done]. cbn in Ho. rewrite decide_False in Ho by done.
  injection Ho as <-. assert (Hi : (i < length (bi_drafts b))%nat) by (by eapply lookup_lt_Some).
  unfold request_output, request_ds. rewrite Hg. cbn [fmap option_fmap option_map].
  pose proof (argmax_valid b sm false None i Hb Hi) as [_ Hal]. pose proof (greedy_lossless next (ctx i) (bi_drafts b !!! i)
    (batch_argmax argmax b !!! i) (bi_bonus b !!! i) Hal (λ j Hj, Ha i j Hi Hj) (Hbonus i Hi)) as Hl. cbv zeta in Hl.
  split; [|exact Hl]. pose proof (emit_length (greedy_ds None (bi_drafts b !!! i) (batch_argmax argmax b !!! i)) (bi_bonus b !!! i)). lia.
Qed.
End batch.

(** ** Recovered tokens *)

Section recovered.
Context {G : Type}.
Context (exponential_ : G → nat → list Q * G).
Context (exponential_length : ∀ g n, length (exponential_ g n).1 = n).

Lemma inverses_at rows i v r :
  rows !! i = Some r → (v < length r)%nat → inverses rows !!! i !!! v = (/ (rows !!! i !!! v))%Q.
Proof.
  intros Hi Hv. rewrite (list_lookup_total_correct rows i r Hi). unfold inverses.
  assert (E : ((λ r : list Q, Qinv <$> r) <$> rows) !! i = Some (Qinv <$> r)) by (by rewrite list_lookup_fmap, Hi).
  rewrite (list_lookup_total_correct _ _ _ E). apply list_lookup_total_correct.
  by rewrite list_lookup_fmap, (list_lookup_lookup_total_lt r v Hv).
Qed.

Lemma score_positive (f q : nat → Q) V r :
  (∀ v, (v < V)%nat → (0 < q v)%Q) → (r < V)%nat → (∀ v, (v < V)%nat → (f v / q v <= f r / q r)%Q) →
  (∃ v, (v < V)%nat ∧ (0 < f v)%Q) → (0 < f r)%Q.
Proof.
  intros Hq Hr Hmax (v & Hv & Hf). apply Qnot_le_lt. intros Hle.
  assert (H1 : (0 < f v / q v)%Q) by (apply Qlt_shift_div_l; [by apply Hq|]; lra).
  assert (H2 : (f r / q r <= 0)%Q) by (apply Qle_shift_div_r; [by apply Hq|]; lra).
  specialize (Hmax v Hv). lra.
Qed.

(** [r] is the first index below [n] where [score] is largest. *)
Definition first_best (score : nat → Q) (n r : nat) : Prop :=
  (r < n)%nat ∧ (∀ v, (v < n)%nat → (score v <= score r)%Q) ∧ ∀ v, (v < r)%nat → (score v < score r)%Q.

(** C18: Whatever memory held before, every draft position gets as recovered token the
    first entry of the vocabulary where the target probability in excess of the
    draft, divided by an exponential number of the request, is largest, although
    the vocabulary is searched tile by tile; it is in the vocabulary, and has
    positive excess whenever some entry has.  The rows must be addressable in 32
    bits: the last row of the probabilities and of the random numbers starts below
    2^31 entries. *)
Theorem recovered_tokens_exact V m drafts probs draft_probs expo empty gens (B : nat) :
  int32_rows V drafts → probs_ok V drafts probs draft_probs → (0 < V)%nat → (0 < B)%nat → Forall (λ d, (length d ≤ m)%nat) drafts →
  gens_ok drafts gens → length expo = length drafts → Forall (λ r, length r = V) expo → length empty = length (concat drafts) →
  ∃ recs gens', sample_recovered_tokens exponential_ expo empty (Z.of_nat m) (zlen <$> drafts) (cu_of drafts) (concat drafts)
      (flat_drafts draft_probs) (concat (concat probs)) (Z.of_nat V) (Z.of_nat B) gens = Ok (concat recs, gens') ∧ same_shape drafts recs ∧
    ∀ i j d rec, drafts !! i = Some d → recs !! i = Some rec → (j < length d)%nat →
      let f := residual (probs !!! i) ((λ rows, rows !!! i) <$> draft_probs) (d !!! j) j in
      let q := λ v, seeded_rows exponential_ V drafts gens expo !!! i !!! v in
      ∃ r, rec !!! j = Z.of_nat r ∧ first_best (λ v, f v / q v)%Q V r ∧
        ((∀ v, (v < V)%nat → (0 < q v)%Q) → (∃ v, (v < V)%nat ∧ (0 < f v)%Q) → (0 < f r)%Q).
Proof.
  intros H32 Hp HV HB Hm Hg He Hw Hemp.
  destruct (recovered_tokens_ok exponential_ exponential_length V m drafts probs draft_probs expo empty gens B H32 Hp HV HB Hm Hg He Hw Hemp) as [gens' E].
  eexists _, gens'. split; [exact E|]. split; [apply recovered_shape|]. intros i j d rec Hd Hrec Hj f q.
  rewrite (recovered_rows_lookup _ _ _ _ _ _ _ Hd) in Hrec. injection Hrec as <-.
  erewrite list_lookup_total_correct by (rewrite list_lookup_fmap, lookup_seq_lt by exact Hj; done). cbn [plus].
  set (sr := seeded_rows exponential_ V drafts gens expo) in *. assert (Hsl : length sr = length drafts) by (unfold sr, seeded_rows; by rewrite length_imap).
  destruct (lookup_lt_is_Some_2 sr i) as [row Hrow]; [rewrite Hsl; by eapply lookup_lt_Some|].
  pose proof (proj1 (Forall_lookup _ _) (seeded_rows_width exponential_ exponential_length V drafts gens expo Hw) i row Hrow) as Hrw. cbv beta in Hrw.
  unfold recover. assert (Hext : (λ v, Some (f v * inverses sr !!! i !!! v)%Q) <$> seq 0 V = (λ v, Some (f v / q v)%Q) <$> seq 0 V).
  { apply list_fmap_ext. intros k v [-> Hv]%lookup_seq. cbn [plus]. rewrite (inverses_at sr i k row Hrow) by lia. done. }
  fold f. rewrite Hext. destruct (tl_max_spec (λ v, f v / q v)%Q V HV) as (r & -> & Hr & Hmax & Hfirst).
  exists r. split; [done|]. split; [by split_and!|]. intros Hq Hpos. by apply (score_positive f q V r).
Qed.
End recovered.

(** ** Sampling keeps the target distribution *)

Definition Qsum (f : nat → Q) (n : nat) : Q := foldr (λ v s, (f v + s)%Q) 0%Q (seq 0 n).

Lemma Qsum_S f n : (Qsum f (S n) == Qsum f n + f n)%Q.
Proof.
  unfold Qsum. rewrite seq_S, foldr_app. cbn [foldr plus].
  assert (Hacc : ∀ l a, (foldr (λ v s, (f v + s)%Q) a l == foldr (λ v s, (f v + s)%Q) 0%Q l + a)%Q).
  { intros l a. induction l as [|x l IH]; cbn [foldr]; [ring|]. rewrite IH. ring. }
  rewrite Hacc. ring.
Qed.

Lemma Qsum_ext f g n : (∀ v, (v < n)%nat → (f v == g v)%Q) → (Qsum f n == Qsum g n)%Q.
Proof.
  induction n as [|n IH]; intros H; [done|]. rewrite !Qsum_S, IH by (intros; apply H; lia). by rewrite (H n) by lia.
Qed.

Lemma Qsum_add f g n : (Qsum (λ v, f v + g v) n == Qsum f n + Qsum g n)%Q.
Proof. induction n as [|n IH]; [done|]. rewrite !Qsum_S, IH. ring. Qed.

Lemma Qsum_scale f c n : (Qsum (λ v, f v * c) n == Qsum f n * c)%Q.
Proof. induction n as [|n IH]; [unfold Qsum; cbn; ring|]. rewrite !Qsum_S, IH. ring. Qed.

Lemma Qsum_nonneg f n : (∀ v, (v < n)%nat → (0 <= f v)%Q) → (0 <= Qsum f n)%Q.
Proof.
  induction n as [|n IH]; intros H; [apply Qle_refl|]. rewrite Qsum_S. pose proof (H n ltac:(lia)).
  pose proof (IH ltac:(intros; apply H; lia)). lra.
Qed.

Lemma Qsum_zero f n : (∀ v, (v < n)%nat → (0 <= f v)%Q) → (Qsum f n == 0)%Q → ∀ v, (v < n)%nat → (f v == 0)%Q.
Proof.
  induction n as [|n IH]; intros Hf Hs v Hv; [lia|]. rewrite Qsum_S in Hs. pose proof (Hf n ltac:(lia)).
  pose proof (Qsum_nonneg f n ltac:(intros; apply Hf; lia)). destruct (decide (v = n)) as [->|]; [lra|].
  apply IH; [intros; apply Hf; lia|lra|lia].
Qed.

(** The sum of a function that is zero but at one place. *)
Lemma Qsum_single (f : nat → Q) x n : (x < n)%nat → (Qsum (λ v, if decide (v = x) then f v else 0) n == f x)%Q.
Proof.
  intros Hx. assert (Hlt : ∀ k, (k ≤ x)%nat → (Qsum (λ v, if decide (v = x) then f v else 0) k == 0)%Q).
  { induction k as [|k IH]; intros Hk; [done|]. rewrite Qsum_S, IH by lia. rewrite decide_False by lia. ring. }
  induction n as [|n IH]; [lia|]. rewrite Qsum_S. destruct (decide (n = x)) as [->|Hne].
  - rewrite Hlt by lia. ring.
  - rewrite IH by lia. ring.
Qed.

(** The probability that a draft token passes the test with a uniform number. *)
Definition accept_rate (p q : Q) : Q := if Qlt_b 0 q then Qmin 1 (p / q) else 0%Q.

(** The test passes for the uniform numbers up to this rate. *)
Lemma accepts_rate u p q : (0 <= u < 1)%Q → accepts u p q = true ↔ (0 < q)%Q ∧ (u <= accept_rate p q)%Q.
Proof.
  intros Hu. unfold accepts, accept_rate. rewrite andb_true_iff, Qlt_b_true, Qle_bool_iff. split.
  - intros [Hq H]. rewrite (proj2 (Qlt_b_true _ _) Hq). split; [done|]. apply Q.min_glb; [lra|done].
  - intros [Hq H]. rewrite (proj2 (Qlt_b_true _ _) Hq) in H. split; [done|]. eapply Qle_trans; [exact H|apply Q.le_min_r].
Qed.

Lemma rate_min p q : (0 <= p)%Q → (0 <= q)%Q → (q * accept_rate p q == Qmin q p)%Q.
Proof.
  intros Hp Hq. unfold accept_rate. destruct (Qlt_b 0 q) eqn:E.
  - apply Qlt_b_true in E. assert (Hpq : (p == p / q * q)%Q) by (field; lra). destruct (Q.min_spec 1 (p / q)) as [[H ->]|[H ->]].
    + assert (H1 : (1 * q <= p / q * q)%Q) by (apply Qmult_le_compat_r; lra). rewrite <-Hpq in H1. rewrite Q.min_l by lra. ring.
    + assert (H1 : (p / q * q <= 1 * q)%Q) by (apply Qmult_le_compat_r; lra). rewrite <-Hpq in H1. rewrite Q.min_r by lra. field. lra.
  - apply Qlt_b_false in E. rewrite Q.min_l by lra. lra.
Qed.

Lemma residual_min p q : (residual_prob p q == p - Qmin q p)%Q.
Proof.
  unfold residual_prob. destruct (Q.min_spec q p) as [[H ->]|[H ->]].
  - rewrite Q.max_l; lra.
  - rewrite Q.max_r; lra.
Qed.

(** What is left over, weighted, adds up to the excess of the target. *)
Lemma mixture_total (q p : nat → Q) V x :
  (∀ v, (v < V)%nat → (0 <= p v)%Q ∧ (0 <= q v)%Q) → (Qsum p V == 1)%Q → (Qsum q V == 1)%Q → (x < V)%nat →
  let res v := residual_prob (p v) (q v) in
  (Qsum (λ d, q d * ((if decide (d = x) then accept_rate (p d) (q d) else 0) + (1 - accept_rate (p d) (q d)) * (res x / Qsum res V))) V == p x)%Q.
Proof.
  intros Hpq Hp Hq Hx res. set (mn := λ v, Qmin (q v) (p v)). set (c := (res x / Qsum res V)%Q).
  assert (Hres : ∀ v, (res v == p v + mn v * (-(1)))%Q) by (intros v; unfold res, mn; rewrite residual_min; ring).
  assert (HR : (Qsum res V == 1 - Qsum mn V)%Q).
  { rewrite (Qsum_ext res (λ v, p v + mn v * (-(1))))%Q by (intros; apply Hres). rewrite Qsum_add, Qsum_scale, Hp. ring. }
  assert (Hsum : (Qsum (λ d, q d * ((if decide (d = x) then accept_rate (p d) (q d) else 0) + (1 - accept_rate (p d) (q d)) * c)) V ==
    Qsum (λ d, (if decide (d = x) then mn d else 0) + (q d + mn d * (-(1))) * c) V)%Q).
  { apply Qsum_ext. intros v Hv. destruct (Hpq v Hv) as [H1 H2]. pose proof (rate_min (p v) (q v) H1 H2) as Hr. fold (mn v) in Hr.
    destruct (decide (v = x)).
    - rewrite <-Hr. ring.
    - rewrite <-Hr. ring. }
  rewrite Hsum, Qsum_add, Qsum_scale, Qsum_add, Qsum_scale, Hq, (Qsum_single mn x V Hx).
  assert (HRc : (1 + Qsum mn V * -(1) == Qsum res V)%Q) by (rewrite HR; ring). rewrite HRc. unfold c.
  assert (Hpx : (p x == mn x + res x)%Q) by (rewrite Hres; ring).
  destruct (Qeq_dec (Qsum res V) 0) as [E|E].
  - assert (Hrx : (res x == 0)%Q).
    { apply (Qsum_zero res V); [|done|done]. intros v _. unfold res, residual_prob. apply Q.le_max_r. }
    rewrite Hpx, Hrx, E. ring.
  - rewrite Hpx. field. exact E.
Qed.

Lemma certain_total (p : nat → Q) V d x :
  (∀ v, (v < V)%nat → (0 <= p v)%Q) → (Qsum p V == 1)%Q → (d < V)%nat → (x < V)%nat →
  let res v := if decide (v = d) then 0%Q else p v in
  ((if decide (d = x) then accept_rate (p d) 1 else 0) + (1 - accept_rate (p d) 1) * (res x / Qsum res V) == p x)%Q.
Proof.
  intros Hp Hs Hd Hx res.
  assert (Hsplit : (Qsum res V == 1 - p d)%Q).
  { assert (H : (Qsum (λ v, res v + (if decide (v = d) then p v else 0)) V == Qsum p V)%Q).
    { apply Qsum_ext. intros v _. unfold res. destruct (decide (v = d)); ring. }
    rewrite Qsum_add, (Qsum_single p d V Hd), Hs in H. lra. }
  assert (Hres : ∀ v, (v < V)%nat → (0 <= res v)%Q).
  { intros v Hv. unfold res. destruct (decide (v = d)); [lra|by apply Hp]. }
  pose proof (Qsum_nonneg res V Hres) as Hnn. pose proof (Hp d Hd) as Hpd.
  assert (Ha : (accept_rate (p d) 1 == p d)%Q).
  { unfold accept_rate. rewrite (proj2 (Qlt_b_true 0 1)) by lra. rewrite Q.min_r; [field|].
    assert (Hf : (p d / 1 == p d)%Q) by field. rewrite Hf. lra. }
  rewrite Ha. destruct (Qeq_dec (Qsum res V) 0) as [E|E].
  - pose proof (Qsum_zero res V Hres E x Hx) as Hrx. rewrite Hrx. destruct (decide (d = x)) as [<-|Hne].
    + rewrite Ha. unfold Qdiv. ring.
    + unfold res in Hrx. rewrite decide_False in Hrx by done. rewrite Hrx. unfold Qdiv. ring.
  - rewrite <-Hsplit. destruct (decide (d = x)) as [<-|Hne].
    + rewrite Ha. assert (Hrd : res d = 0%Q) by (unfold res; by rewrite decide_True). rewrite Hrd. field. exact E.
    + assert (Hrd : res x = p x) by (unfold res; by rewrite decide_False). rewrite Hrd. field. exact E.
Qed.

(** C12: Speculative sampling returns tokens of the target distribution.  A draft token
    is accepted for the uniform numbers up to its acceptance rate; when a rejected
    one is replaced by a token drawn with probability proportional to the
    residual, the token at a position has exactly the probability that the target
    model gives it, whether the draft was drawn from the draft distribution or,
    without draft probabilities, was certain. *)
Theorem sampling_keeps_distribution V (probs : list (list Q)) (rows : list (list Q)) j :
  let p v := prob_at probs j (Z.of_nat v) in
  let q v := prob_at rows j (Z.of_nat v) in
  (∀ v, (v < V)%nat → (0 <= p v)%Q ∧ (0 <= q v)%Q) → (Qsum p V == 1)%Q → (Qsum q V == 1)%Q →
  (∀ u d, (0 <= u < 1)%Q → (accepts u (p d) (q d) = true ↔ (0 < q d)%Q ∧ (u <= accept_rate (p d) (q d))%Q)) ∧
  (∀ x, (x < V)%nat →
     (Qsum (λ d, q d * ((if decide (d = x) then accept_rate (p d) (q d) else 0) +
        (1 - accept_rate (p d) (q d)) * (residual probs (Some rows) (Z.of_nat d) j x / Qsum (residual probs (Some rows) (Z.of_nat d) j) V))) V
      == p x)%Q) ∧
  (∀ x d, (x < V)%nat → (d < V)%nat →
     ((if decide (d = x) then accept_rate (p d) 1 else 0) +
        (1 - accept_rate (p d) 1) * (residual probs None (Z.of_nat d) j x / Qsum (residual probs None (Z.of_nat d) j) V) == p x)%Q).
Proof.
  intros p q Hpq Hp Hq. split; [intros u d Hu; by apply accepts_rate|]. split.
  - intros x Hx. exact (mixture_total q p V x Hpq Hp Hq Hx).
  - intros x d Hx Hd. assert (Hr : ∀ v, residual probs None (Z.of_nat d) j v = if decide (v = d) then 0%Q else p v).
    { intros v. unfold residual. destruct (Z.eqb_spec (Z.of_nat v) (Z.of_nat d)), (decide (v = d)); try done; lia. }
    rewrite Hr, (Qsum_ext _ (λ v, if decide (v = d) then 0%Q else p v) V) by (intros v _; by rewrite Hr).
    apply (certain_total p V d x); [|done..]. intros v Hv. by apply Hpq.
Qed.

(** ** Per-request values, outputs before each draft, acceptance rates *)

Section expand.
Context (x : list Q) (counts : list (list unit)) (rep : Q → Q).
Context (Hl : length counts = length x) (Hm : Forall (λ c, zlen c ≤ MAX_SPEC_LEN) counts).

Definition expanded : list (list Q) := zip_with (λ c v, replicate (length c) (rep v)) counts x.

Lemma expanded_shape : same_shape counts expanded.
Proof using Hl.
  clear Hm. unfold expanded. revert x Hl. induction counts as [|c l IH]; intros [|v y] Hy; [constructor|done|done|].
  cbn [zip_with]. constructor; [by rewrite length_replicate|]. apply IH. cbn in Hy. lia.
Qed.

(** A program of the launch stores the tokens of its request. *)
Lemma expand_program i c v out :
  counts !! i = Some c → x !! i = Some v → length out = length (concat expanded) →
  ∃ out', expand_kernel x rep (cu_of counts) MAX_SPEC_LEN out (Z.of_nat i) = Ok out' ∧ length out' = length (concat expanded) ∧
    ∀ n, (out !! n = concat expanded !! n ∨ ∃ j, (j < length c)%nat ∧ n = (start_of counts i + j)%nat) → out' !! n = concat expanded !! n.
Proof using Hl Hm.
  intros Hc Hv Hout. assert (Hi : (i < length counts)%nat) by (by eapply lookup_lt_Some). pose proof expanded_shape as Hshape.
  unfold expand_kernel. rewrite cu_start, cu_load by done. cbn [mbind result_bind].
  rewrite (tl_load_lookup x (Z.of_nat i) v) by (rewrite ?Nat2Z.id; done || lia). cbn [mbind result_bind].
  pose proof (start_S counts i c Hc) as Hst. pose proof (start_le counts i c Hc) as Hsle. rewrite (shape_length _ _ Hshape) in Hsle.
  assert (Hval : expanded !! i = Some (replicate (length c) (rep v))) by (unfold expanded; by rewrite lookup_zip_with, Hc, Hv).
  destruct (launch_values (λ out offset, if offset <? Z.of_nat (start_of counts (S i)) - Z.of_nat (start_of counts i)
      then tl_store out (Z.of_nat (start_of counts i) + offset) (rep v) else Ok out)
    (λ o, if o <? zlen c then Some (start_of counts i + Z.to_nat o)%nat else None) (concat expanded) out (py_range 0 MAX_SPEC_LEN) Hout) as (out' & E & L & H).
  - intros o buf Ho Hb. apply elem_of_py_range in Ho. exists (rep v).
    replace (Z.of_nat (start_of counts (S i)) - Z.of_nat (start_of counts i)) with (zlen c) by (rewrite Hst; unfold zlen; lia).
    destruct (Z.ltb_spec o (zlen c)) as [Hoc|Hoc]; [|by split]. unfold zlen in Hoc. split.
    + rewrite tl_store_ok by (unfold zlen; lia). do 2 f_equal. lia.
    + intros n [= <-]. rewrite (shape_start counts expanded i Hshape), (ragged_lookup expanded i _ (Z.to_nat o) Hval) by (rewrite length_replicate; lia).
      apply lookup_replicate_2. lia.
  - exists out'. split_and!; [exact E|done|]. intros n [Hn|(j & Hj & ->)]; apply H; [by left|right].
    pose proof (proj1 (Forall_lookup _ _) Hm i c Hc) as Hcm. cbv beta in Hcm. unfold zlen in Hcm. exists (Z.of_nat j). split.
    + apply elem_of_py_range. lia.
    + unfold zlen. destruct (Z.ltb_spec (Z.of_nat j) (Z.of_nat (length c))); [|lia]. by rewrite Nat2Z.id.
Qed.

Lemma expand_launch order out :
  (∀ i, i ∈ order → (i < length x)%nat) → length out = length (concat expanded) →
  ∃ out', mfold (expand_kernel x rep (cu_of counts) MAX_SPEC_LEN) out (Z.of_nat <$> order) = Ok out' ∧ length out' = length (concat expanded) ∧
    ∀ n, (out !! n = concat expanded !! n ∨ ∃ i c j, i ∈ order ∧ counts !! i = Some c ∧ (j < length c)%nat ∧ n = (start_of counts i + j)%nat) →
      out' !! n = concat expanded !! n.
Proof using Hl Hm.
  revert out. induction order as [|i order IH]; intros out Ho Hout.
  - exists out. split_and!; [done..|]. intros n [?|(i & c & j & Hi%elem_of_nil & _)]; done.
  - destruct (lookup_lt_is_Some_2 x i) as [v Hv]; [apply Ho; by left|]. destruct (lookup_lt_is_Some_2 counts i) as [c Hc].
    { rewrite Hl. apply Ho. by left. }
    destruct (expand_program i c v out Hc Hv Hout) as (o1 & E1 & L1 & H1).
    destruct (IH o1) as (o2 & E2 & L2 & H2); [intros k Hk; apply Ho; by right|done|].
    exists o2. rewrite fmap_cons. cbn [mfold]. rewrite E1. cbn [mbind result_bind]. split_and!; [done..|]. intros n Hn. apply H2.
    destruct Hn as [Hn|(k & ck & j & [->|Hk]%elem_of_cons & Hck & Hj & ->)].
    + left. apply H1. by left.
    + left. apply H1. right. exists j. split; [congruence|done].
    + right. by exists k, ck, j.
Qed.
End expand.

(** Every token gets the value of its request, replaced where asked. *)
Theorem expand_exact (x : list Q) (counts : list (list unit)) empty from to :
  length counts = length x → length empty = length (concat counts) → Forall (λ c, zlen c ≤ MAX_SPEC_LEN) counts →
  expand_batch_to_tokens empty x (cu_of counts) from to =
    Ok (concat (zip_with (λ c v, replicate (length c) (if Qeq_bool v from then to else v)) counts x)).
Proof.
  intros Hl He Hm. unfold expand_batch_to_tokens.
  assert (zlen (cu_of counts) =? zlen x = true) as -> by (apply Z.eqb_eq; unfold zlen, cu_of; rewrite length_fmap, length_seq; lia).
  cbn [py_assert mbind result_bind]. set (rep := λ v, if Qeq_bool v from then to else v).
  change (zip_with _ counts x) with (expanded x counts rep).
  pose proof (expanded_shape x counts rep Hl) as Hshape. unfold zlen. rewrite py_range_seq.
  destruct (expand_launch x counts rep Hl Hm (seq 0 (length x)) empty) as (out & E & L & H).
  - intros i. rewrite elem_of_seq. lia.
  - by rewrite He, (shape_length _ _ Hshape).
  - rewrite E. f_equal. apply list_eq. intros n.
    destruct (decide (n < length (concat (expanded x counts rep)))%nat) as [Hn|Hn]; [|by rewrite !lookup_ge_None_2 by lia].
    apply H. right. rewrite <-(shape_length _ _ Hshape) in Hn. destruct (ragged_index counts n Hn) as (i & c & j & Hc & Hj & ->).
    exists i, c, j. split_and!; [|done..]. apply elem_of_seq. apply lookup_lt_Some in Hc. lia.
Qed.

(** One request: the output, then with one more draft token each time. *)
Lemma combine_spec_tokens (spec : list Z) pre out :
  foldl (λ res t, res ++ [List.last res [] ++ [t]]) (pre ++ [out]) spec = pre ++ ((λ j, out ++ take j spec) <$> seq 0 (S (length spec))).
Proof.
  revert pre out. induction spec as [|t spec IH]; intros pre out; [cbn; by rewrite app_nil_r|].
  cbn [foldl]. rewrite last_last, IH, <-(assoc_L (++)). f_equal. cbn [length]. change (seq 0 (S (S (length spec)))) with (0%nat :: seq 1 (S (length spec))).
  rewrite fmap_cons. cbn [take app]. rewrite app_nil_r. f_equal. rewrite <-(fmap_S_seq 0), <-list_fmap_compose.
  apply list_fmap_ext. intros i j _. cbn [compose take]. by rewrite <-(assoc_L (++)).
Qed.

(** Draft token [j] of a request is seen with the output followed by the first [j]
    draft tokens. *)
Theorem combined_outputs_exact outs specs :
  _combine_outputs_with_spec_tokens outs (Some specs) =
    concat (zip_with (λ out spec, (λ j, out ++ take j spec) <$> seq 0 (length spec)) outs specs).
Proof.
  cbn [_combine_outputs_with_spec_tokens]. set (f := λ res p, _).
  assert (H : ∀ l res, foldl f res l = res ++ concat ((λ p, (λ j, p.1 ++ take j p.2) <$> seq 0 (length p.2)) <$> l)).
  { induction l as [|[out spec] l IH]; intros res; [cbn; by rewrite app_nil_r|]. cbn [foldl]. rewrite IH, fmap_cons. cbn [fst snd concat].
    rewrite (assoc_L (++)). f_equal. unfold f. destruct spec as [|t spec _] using rev_ind; [cbn; by rewrite app_nil_r|].
    rewrite removelast_last, length_app, Nat.add_1_r. transitivity (foldl (λ res t, res ++ [List.last res [] ++ [t]]) (res ++ [out]) spec).
    { by destruct (spec ++ [t]) eqn:E; [destruct spec|]. }
    rewrite combine_spec_tokens. f_equal. apply list_fmap_ext. intros i j [-> Hj]%lookup_seq. cbn [plus]. by rewrite take_app_le by lia. }
  rewrite H. cbn [app]. f_equal. clear. revert specs. induction outs as [|o outs IH]; intros [|s specs]; [done..|]. cbn. by rewrite IH.
Qed.

(** Accepting position after position at the conditional rates reaches each one with
    the rate that was configured for it. *)
Definition reach_rate (rates : list Q) (k : nat) : Q :=
  foldr Qmult 1%Q (take (S k) (unconditional_to_conditional_rates rates)).

Lemma conditional_from q rates k p :
  (0 <= q)%Q → Forall (λ r, (0 <= r)%Q) rates → (∀ i a b, (q :: rates) !! i = Some a → (q :: rates) !! S i = Some b → (b <= a)%Q) →
  rates !! k = Some p →
  (q * foldr Qmult 1 (take (S k) (zip_with (λ p q, if Qlt_b 0 q then (p / q)%Q else 0%Q) rates (q :: removelast rates))) == p)%Q.
Proof.
  revert q k. induction rates as [|r rates IH]; intros q k Hq Hr Hdec Hk; [done|]. apply Forall_cons in Hr as [Hr0 Hr].
  pose proof (Hdec 0%nat q r eq_refl eq_refl) as Hrq. set (c := if Qlt_b 0 q then (r / q)%Q else 0%Q).
  assert (Hc : (q * c == r)%Q).
  { unfold c. destruct (Qlt_b 0 q) eqn:E; [apply Qlt_b_true in E; field; lra|]. apply Qlt_b_false in E. lra. }
  destruct k as [|k].
  - cbn in Hk. injection Hk as <-. cbn [zip_with take foldr]. rewrite take_0. cbn [foldr]. fold c. transitivity (q * c)%Q; [ring|exact Hc].
  - destruct rates as [|r' rates]; [done|]. change (removelast (r :: r' :: rates)) with (r :: removelast (r' :: rates)).
    cbn [zip_with]. rewrite firstn_cons. cbn [foldr]. fold c. rewrite Qmult_assoc, Hc. apply IH; [done|done| |done]. intros i a b Ha Hb. by apply (Hdec (S i)).
Qed.

Theorem conditional_rates_telescope rates k p :
  Forall (λ r, (0 <= r <= 1)%Q) rates → (∀ i a b, rates !! i = Some a → rates !! S i = Some b → (b <= a)%Q) →
  rates !! k = Some p → (reach_rate rates k == p)%Q.
Proof.
  intros Hr Hdec Hk. unfold reach_rate, unconditional_to_conditional_rates.
  rewrite <-(conditional_from 1 rates k p); [ring|lra| | |done].
  - eapply Forall_impl; [exact Hr|]. by intros r [H _].
  - intros [|i] a b Ha Hb; [|by apply (Hdec i)]. injection Ha as <-. cbn in Hb.
    exact (proj2 (proj1 (Forall_lookup _ _) Hr 0%nat b Hb)).
Qed.

(** ** Examples *)

Definition demo_uniform (g : nat) (n : nat) : list Q * nat := (replicate n (1 # 4)%Q, S g).
Definition demo_exponential (g : nat) (n : nat) : list Q * nat := (replicate n 2%Q, S g).
Definition demo_argmax (row : list Q) : Z := (tl_max (Some <$> row)).2.
Definition demo_softmax (row : list Q) : list Q := (λ x, (x / foldr Qplus 0 row)%Q) <$> row.

Lemma demo_uniform_length g n : length (demo_uniform g n).1 = n.
Proof. apply length_replicate. Qed.

Lemma demo_exponential_length g n : length (demo_exponential g n).1 = n.
Proof. apply length_replicate. Qed.

Lemma demo_argmax_range V row : (0 < V)%nat → length row = V → 0 ≤ demo_argmax row < Z.of_nat V.
Proof.
  intros HV Hl. unfold demo_argmax. assert (Some <$> row = (λ v, Some (row !!! v)) <$> seq 0 V) as ->.
  { apply list_eq. intros i. rewrite !list_lookup_fmap. destruct (decide (i < V)%nat) as [Hi|Hi].
    - rewrite lookup_seq_lt by done. rewrite (list_lookup_lookup_total_lt row i) by lia. done.
    - rewrite lookup_seq_ge, lookup_ge_None_2 by lia. done. }
  destruct (tl_max_spec (λ v, row !!! v) V HV) as (r & -> & Hr & _). cbn. lia.
Qed.

(** Three requests: a greedy one whose second draft is wrong, one that samples with a
    generator of its own and whose draft is accepted, and one without drafts. *)
Definition demo_batch : @batch_input Q :=
  mkBatch [[0; 1]; [2]; []] [[[5; 1; 1]; [1; 1; 4]]; [[1; 1; 2]]; []]%Q
    (Some [[[1; 0; 0]; [0; 1; 0]]; [[0; 0; 1]]; []])%Q [1; 0; 2] 2 3 [[1 # 2; 1 # 2]; [9 # 10]; []]%Q
    [[1; 1; 1]; [1; 1; 1]; [1; 1; 1]]%Q [7; 7; 7].

Definition demo_sampling : @SamplingMetadata nat := mkSampling false false [0; 1; 1]%Q [(1, 7%nat)].

Lemma demo_drafts_ok : batch_ok demo_argmax demo_softmax demo_batch demo_sampling false None.
Proof.
  split; cbn [demo_batch demo_sampling bi_drafts bi_logits bi_draft_probs bi_bonus bi_max bi_vocab bi_rand bi_expo bi_empty all_greedy all_random
    temperature generators]; try done.
  - repeat constructor.
  - repeat constructor.
  - intros rows [= <-]. split; repeat constructor.
  - split; [done|]. repeat constructor; lia.
  - repeat constructor; cbn; lia.
  - repeat constructor; lia.
  - repeat constructor.
  - split; [done|]. repeat constructor.
  - intros row Hr. by apply demo_argmax_range; [lia|].
  - intros row Hr. unfold demo_softmax. by rewrite length_fmap.
  - split; [apply NoDup_singleton|]. intros i ->%list_elem_of_singleton. split; [done|vm_compute; reflexivity].
  - right. split; vm_compute; reflexivity.
Qed.

Lemma demo_no_discard : ∀ i, i ∈ @nil Z → 0 ≤ i < zlen (bi_drafts demo_batch).
Proof. by intros i ?%elem_of_nil. Qed.

Lemma rejection_sample_correct_witness :
  ∃ out gens cu, sample_batch demo_uniform demo_exponential demo_argmax demo_softmax demo_batch demo_sampling false None = Ok (out, gens) ∧
    parse_output (rows_of 3 3 out) 3 [] false = Ok ([[0; 2]; [2; 0]; [2]], cu).
Proof.
  destruct (rejection_sample_correct demo_uniform demo_exponential demo_argmax demo_softmax demo_uniform_length demo_exponential_length
    demo_batch demo_sampling false None [] false demo_drafts_ok demo_no_discard) as (out & gens & cu & E1 & E2).
  exists out, gens, cu. split; [exact E1|]. refine (eq_trans E2 _). vm_compute. reflexivity.
Defined.

(** The next token of a model that counts modulo three. *)
Definition demo_next (ctx : list Z) : Z := zlen ctx mod 3.

Definition demo_greedy : @batch_input Q :=
  mkBatch [[1; 2; 1]] [[[0; 1; 0]; [0; 0; 1]; [1; 0; 0]]]%Q None [1] 3 3 [[0; 0; 0]]%Q [[1; 1; 1]]%Q [0; 0; 0].

Definition demo_greedy_sampling : @SamplingMetadata nat := mkSampling true false [] [].

Lemma demo_greedy_ok : batch_ok demo_argmax demo_softmax demo_greedy demo_greedy_sampling false None.
Proof.
  split; cbn [demo_greedy demo_greedy_sampling bi_drafts bi_logits bi_draft_probs bi_bonus bi_max bi_vocab bi_rand bi_expo bi_empty all_greedy
    all_random temperature generators]; try done.
  - repeat constructor.
  - repeat constructor.
  - split; [done|]. repeat constructor; lia.
  - repeat constructor; cbn; lia.
  - repeat constructor; lia.
  - repeat constructor.
  - split; [done|]. repeat constructor.
  - intros row Hr. by apply demo_argmax_range; [lia|].
  - intros row Hr. unfold demo_softmax. by rewrite length_fmap.
  - split; [apply NoDup_nil_2|]. by intros i ?%elem_of_nil.
  - by left.
Qed.

(** The third draft is wrong: three tokens come out. *)
Lemma greedy_speculation_lossless_witness :
  ∃ out gens o cu, sample_batch demo_uniform demo_exponential demo_argmax demo_softmax demo_greedy demo_greedy_sampling false None = Ok (out, gens) ∧
    parse_output (rows_of 4 1 out) 3 [] false = Ok ([o], cu) ∧ o = greedy_decode demo_next [5] 3.
Proof.
  destruct (greedy_speculation_lossless demo_uniform demo_exponential demo_argmax demo_softmax demo_uniform_length demo_exponential_length
    demo_greedy demo_greedy_sampling [] false demo_next (λ _, [5]) demo_greedy_ok) as (out & gens & outs & cu & E1 & E2 & E3 & E4).
  - by intros i ?%elem_of_nil.
  - intros [|i] j Hi Hj; [|cbn in Hi; lia]. do 3 (destruct j as [|j]; [vm_compute; reflexivity|]). cbn in Hj. lia.
  - intros [|i] Hi; [vm_compute; reflexivity|cbn in Hi; lia].
  - destruct outs as [|o [|]]; [discriminate E3| |discriminate E3]. exists out, gens, o, cu. split; [exact E1|]. split; [exact E2|].
    destruct (E4 0%nat o eq_refl) as (_ & Ho & _); [apply not_elem_of_nil|reflexivity|].
    assert (Hlen : length o = 3%nat); [|rewrite Hlen in Ho; exact Ho].
    assert (Ep : ∃ cu', Ok ([o], cu) = Ok ([[1; 2; 0]], cu')).
    { rewrite <-E2. vm_compute in E1. injection E1 as <- _. eexists. vm_compute. reflexivity. }
    destruct Ep as [cu' Ep]. injection Ep as -> _. reflexivity.
Defined.

Lemma recovered_tokens_exact_witness :
  ∃ recs gens', sample_recovered_tokens demo_exponential [[2; 1; 4]]%Q [9; 9] 2 [2] [2] [0; 1] None [1 # 2; 1 # 4; 1 # 4; 0; 1; 0]%Q 3 2 [] =
    Ok (concat recs, gens') ∧ same_shape [[0; 1]] recs.
Proof.
  destruct (recovered_tokens_exact demo_exponential demo_exponential_length 3 2 [[0; 1]] [[[1 # 2; 1 # 4; 1 # 4]; [0; 1; 0]]]%Q None
    [[2; 1; 4]]%Q [9; 9] [] 2) as (recs & gens' & E & Hs & _).
  - split; vm_compute; reflexivity.
  - split; [split; repeat constructor|done].
  - lia.
  - lia.
  - repeat constructor.
  - split; [apply NoDup_nil_2|]. by intros i ?%elem_of_nil.
  - reflexivity.
  - repeat constructor.
  - reflexivity.
  - exists recs, gens'. split; [exact E|exact Hs].
Defined.

(** Target (1/2, 1/4, 1/4) and draft (0, 3/4, 1/4): the residual is all on the first token. *)
Lemma sampling_keeps_distribution_witness :
  (Qsum (λ d, prob_at [[0; 3 # 4; 1 # 4]]%Q 0 (Z.of_nat d) *
     ((if decide (d = 0%nat) then accept_rate (prob_at [[1 # 2; 1 # 4; 1 # 4]]%Q 0 (Z.of_nat d)) (prob_at [[0; 3 # 4; 1 # 4]]%Q 0 (Z.of_nat d)) else 0) +
        (1 - accept_rate (prob_at [[1 # 2; 1 # 4; 1 # 4]]%Q 0 (Z.of_nat d)) (prob_at [[0; 3 # 4; 1 # 4]]%Q 0 (Z.of_nat d))) *
          (residual [[1 # 2; 1 # 4; 1 # 4]]%Q (Some [[0; 3 # 4; 1 # 4]]%Q) (Z.of_nat d) 0 0 /
             Qsum (residual [[1 # 2; 1 # 4; 1 # 4]]%Q (Some [[0; 3 # 4; 1 # 4]]%Q) (Z.of_nat d) 0) 3))) 3 == 1 # 2)%Q.
Proof.
  refine (proj1 (proj2 (sampling_keeps_distribution 3 [[1 # 2; 1 # 4; 1 # 4]]%Q [[0; 3 # 4; 1 # 4]]%Q 0 _ _ _)) 0%nat _).
  - intros v Hv. do 3 (destruct v as [|v]; [split; vm_compute; discriminate|]). lia.
  - vm_compute. reflexivity.
  - vm_compute. reflexivity.
  - lia.
Defined.

(** With a vocabulary of 2^18 entries the row of the draft token with index 8192
    is looked for 2^31 entries before the tensor: the bound above is needed. *)
Lemma row_index_wraps : row_start 8192 (2 ^ 18) = - 2 ^ 31 ∧ ∀ l : list Q, ∀ t, t < 2 ^ 31 →
  tl_load l (row_start 8192 (2 ^ 18) + t) = Raise IndexError.
Proof.
  assert (E : row_start 8192 (2 ^ 18) = - 2 ^ 31) by reflexivity. split; [exact E|]. intros l t Ht. rewrite E.
  unfold tl_load. by destruct (Z.ltb_spec (- 2 ^ 31 + t) 0); [|lia].
Qed.
