(* ===== verification/SpecMetadata.v ===== *)
(** * Index arrays of speculative decoding
    The arrays of [_calc_spec_decode_metadata] select, out of all tokens of a step, the
    ones whose logits are needed, and among those the rows that verify draft
    tokens and the ones for bonus tokens. *)

From S2P Require Import Prelude OrderedDict Rejection RejectionFacts.

#[local] Open Scope Z_scope.

(** ** Cumulative sums and ranges *)

Fixpoint csums (a : Z) (ns : list nat) : list Z :=
  match ns with [] => [] | n :: ns => (a + Z.of_nat n) :: csums (a + Z.of_nat n) ns end.

Fixpoint offsets (a : Z) (ns : list nat) : list Z :=
  match ns with [] => [] | n :: ns => a :: offsets (a + Z.of_nat n) ns end.

Definition total (ns : list nat) : Z := Z.of_nat (sum_list ns).

Definition zs_of (ns : list nat) : list Z := Z.of_nat <$> ns.

Lemma total_cons n ns : total (n :: ns) = Z.of_nat n + total ns.
Proof. unfold total. cbn. lia. Qed.

Lemma total_nonneg ns : 0 ≤ total ns.
Proof. unfold total. lia. Qed.

Lemma cumsum_csums a ns : 0 ≤ a → a + total ns < 2 ^ 31 → cumsum_from a (zs_of ns) = csums a ns.
Proof.
  revert a. induction ns as [|n ns IH]; intros a Ha Ht; [done|]. rewrite total_cons in Ht. pose proof (total_nonneg ns).
  unfold zs_of. rewrite fmap_cons. cbn [cumsum_from csums]. rewrite c_int_id by (change (2 ^ (32 - 1)) with (2 ^ 31); lia).
  f_equal. apply IH; lia.
Qed.

Lemma csums_length a ns : length (csums a ns) = length ns.
Proof. revert a. induction ns as [|n ns IH]; intros a; [done|]. cbn. by rewrite IH. Qed.

Lemma csums_last a ns : ns ≠ [] → py_index_back (csums a ns) 1 = Ok (a + total ns).
Proof.
  intros Hne. unfold py_index_back, py_index, zlen. rewrite csums_length.
  destruct (Z.leb_spec 1 (Z.of_nat (length ns))) as [_|H]; [|destruct ns; [done|cbn in H; lia]].
  assert (csums a ns !! Z.to_nat (Z.of_nat (length ns) - 1) = Some (a + total ns)) as ->; [|done]. revert a Hne.
  induction ns as [|n ns IH]; intros a Hne; [done|]. rewrite total_cons. destruct ns as [|n' ns].
  - change (Z.to_nat (Z.of_nat (length [n]) - 1)) with 0%nat. change (total []) with 0. cbn [csums lookup list_lookup]. f_equal. lia.
  - replace (Z.to_nat (Z.of_nat (length (n :: n' :: ns)) - 1)) with (S (Z.to_nat (Z.of_nat (length (n' :: ns)) - 1))) by (cbn; lia).
    cbn [csums lookup list_lookup]. cbn [csums lookup list_lookup] in IH. rewrite IH by done. f_equal. lia.
Qed.

Lemma np_zip_ok f a b : length a = length b → np_zip f a b = Ok (zip_with f a b).
Proof. intros H. unfold np_zip. by rewrite decide_True. Qed.

Lemma csums_offsets a ns : np_zip Z.sub (csums a ns) (zs_of ns) = Ok (offsets a ns).
Proof.
  rewrite np_zip_ok by (unfold zs_of; by rewrite csums_length, length_fmap). f_equal. revert a.
  induction ns as [|n ns IH]; intros a; [done|]. unfold zs_of in *. rewrite fmap_cons. cbn [csums offsets zip_with]. f_equal; [lia|apply IH].
Qed.

(** Ranges of given lengths from given starts, joined. *)
Definition ranges (fs : list Z) (ns : list nat) : list Z := concat (zip_with (λ f n, py_range f (f + Z.of_nat n)) fs ns).

Lemma py_range_length a n : length (py_range a (a + Z.of_nat n)) = n.
Proof. unfold py_range. rewrite length_fmap, length_seq. lia. Qed.

Lemma py_range_join a n c : py_range a (a + Z.of_nat n) ++ py_range (a + Z.of_nat n) (a + Z.of_nat n + Z.of_nat c) =
  py_range a (a + Z.of_nat n + Z.of_nat c).
Proof.
  unfold py_range. replace (Z.to_nat (a + Z.of_nat n - a)) with n by lia.
  replace (Z.to_nat (a + Z.of_nat n + Z.of_nat c - (a + Z.of_nat n))) with c by lia.
  replace (Z.to_nat (a + Z.of_nat n + Z.of_nat c - a)) with (n + c)%nat by lia. rewrite seq_app, fmap_app. f_equal.
  cbn [plus]. rewrite <-(Nat.add_0_r n), <-fmap_add_seq, <-list_fmap_compose. apply list_fmap_ext. intros i x _. cbn. lia.
Qed.

Lemma ranges_offsets a ns : ranges (offsets a ns) ns = py_range a (a + total ns).
Proof.
  unfold ranges. revert a. induction ns as [|n ns IH]; intros a; [symmetry; apply py_range_nil; unfold total; cbn; lia|].
  cbn [offsets zip_with concat]. rewrite IH, total_cons. unfold total. rewrite py_range_join. f_equal. lia.
Qed.

Lemma ranges_length fs ns : length fs = length ns → length (ranges fs ns) = sum_list ns.
Proof.
  unfold ranges. revert ns. induction fs as [|f fs IH]; intros [|n ns] H; [done..|]. cbn [zip_with concat sum_list].
  rewrite length_app, py_range_length. rewrite IH by (cbn in H; lia). done.
Qed.

Lemma repeat_length fs ns : length fs = length ns → length (np_repeat fs (zs_of ns)) = sum_list ns.
Proof.
  unfold np_repeat, zs_of. revert ns. induction fs as [|f fs IH]; intros [|n ns] H; [done..|]. rewrite fmap_cons. cbn [zip_with concat sum_list].
  rewrite length_app, length_replicate, Nat2Z.id. rewrite IH by (cbn in H; lia). done.
Qed.

Lemma offsets_length a ns : length (offsets a ns) = length ns.
Proof. revert a. induction ns as [|n ns IH]; intros a; [done|]. cbn. by rewrite IH. Qed.

Lemma range_shift (f : Z → Z → Z) c a a' n :
  (∀ k, f c (a + k) = a' + k) → zip_with f (replicate n c) (py_range a (a + Z.of_nat n)) = py_range a' (a' + Z.of_nat n).
Proof.
  intros Hf. unfold py_range. replace (Z.to_nat (a + Z.of_nat n - a)) with n by lia. replace (Z.to_nat (a' + Z.of_nat n - a')) with n by lia.
  apply list_eq. intros i. rewrite lookup_zip_with, !list_lookup_fmap. destruct (decide (i < n)%nat) as [Hi|Hi].
  - rewrite lookup_replicate_2, lookup_seq_lt by done. cbn. by rewrite Hf.
  - rewrite lookup_seq_ge by lia. cbn. destruct (replicate n c !! i); done.
Qed.

(** Starts repeated for each entry, combined with ranges from other starts. *)
Lemma repeat_ranges (f : Z → Z → Z) cs fs fs' ns :
  length cs = length ns → length fs = length ns → length fs' = length ns →
  (∀ i c a a', cs !! i = Some c → fs !! i = Some a → fs' !! i = Some a' → ∀ k, f c (a + k) = a' + k) →
  zip_with f (np_repeat cs (zs_of ns)) (ranges fs ns) = ranges fs' ns.
Proof.
  unfold np_repeat, zs_of, ranges. revert cs fs fs'.
  induction ns as [|n ns IH]; intros [|c cs] [|a fs] [|a' fs'] H1 H2 H3 Hf; try done. rewrite fmap_cons. cbn [zip_with concat].
  rewrite Nat2Z.id, zip_with_app by (by rewrite length_replicate, py_range_length). f_equal.
  - apply range_shift. exact (Hf 0%nat c a a' eq_refl eq_refl eq_refl).
  - apply IH; [cbn in *; lia..|]. intros i. exact (Hf (S i)).
Qed.

(** The batched arange: [0..n) for every count, joined. *)
Definition zeros (ns : list nat) : list Z := replicate (length ns) 0.

Lemma zip_with_flip_sub l l' : zip_with Z.sub l l' = zip_with (λ x y, y - x) l' l.
Proof. revert l'. induction l as [|x l IH]; intros [|y l']; [done..|]. cbn. by rewrite IH. Qed.

Lemma arange_ok size ns out :
  ns ≠ [] → total ns < 2 ^ 31 → total ns ≤ Z.of_nat size → length out = size →
  _get_cumsum_and_arange (py_range 0 (Z.of_nat size)) (zs_of ns) out =
    Ok (csums 0 ns, ranges (zeros ns) ns ++ drop (Z.to_nat (total ns)) out).
Proof.
  intros Hne Ht Hs Hout. unfold _get_cumsum_and_arange, np_cumsum. rewrite cumsum_csums by lia.
  rewrite csums_last by done. cbn [mbind result_bind]. rewrite csums_offsets. cbn [mbind result_bind]. rewrite Z.add_0_l.
  assert (Htake : take (Z.to_nat (total ns)) (py_range 0 (Z.of_nat size)) = py_range 0 (0 + total ns)).
  { rewrite Z.add_0_l. unfold total. rewrite Nat2Z.id. pose proof (py_range_join 0 (sum_list ns) (size - sum_list ns)) as E.
    unfold total in Hs. replace (0 + Z.of_nat (sum_list ns) + Z.of_nat (size - sum_list ns)) with (Z.of_nat size) in E by lia.
    rewrite <-E, Z.add_0_l. rewrite take_app_le by (rewrite <-(Z.add_0_l (Z.of_nat (sum_list ns))), py_range_length; lia).
    rewrite take_ge; [done|]. rewrite <-(Z.add_0_l (Z.of_nat (sum_list ns))), py_range_length. lia. }
  rewrite Htake, <-ranges_offsets. rewrite np_zip_ok by (rewrite ranges_length, repeat_length by apply offsets_length; done).
  cbn [mbind result_bind]. rewrite zip_with_flip_sub.
  assert (zip_with (λ x y, y - x) (np_repeat (offsets 0 ns) (zs_of ns)) (ranges (offsets 0 ns) ns) = ranges (zeros ns) ns) as ->.
  { apply repeat_ranges; [apply offsets_length..|unfold zeros; apply length_replicate|]. intros i c a a' Hc Ha Ha' k.
    unfold zeros in Ha'. apply lookup_replicate in Ha' as [-> _]. assert (c = a) as -> by congruence. lia. }
  rewrite decide_True; [done|]. rewrite ranges_length by (unfold zeros; by rewrite length_replicate). rewrite length_take, Hout.
  unfold total in *. lia.
Qed.

(** ** Selecting *)

Lemma gather_range {A} (t : list A) f n :
  0 ≤ f → f + Z.of_nat n ≤ zlen t → gather t (py_range f (f + Z.of_nat n)) = Ok (take n (drop (Z.to_nat f) t)).
Proof.
  intros Hf. revert f Hf. induction n as [|n IH]; intros f Hf Hn; [by rewrite py_range_nil by lia|].
  rewrite py_range_cons by lia. unfold gather. cbn [mmap]. destruct (Z.ltb_spec f 0); [lia|]. unfold py_index.
  unfold zlen in Hn. destruct (lookup_lt_is_Some_2 t (Z.to_nat f) ltac:(lia)) as [x Hx]. rewrite Hx. cbn [mbind result_bind].
  replace (f + Z.of_nat (S n)) with (f + 1 + Z.of_nat n) by lia. unfold gather in IH. rewrite IH by (unfold zlen; lia). cbn [mbind result_bind].
  rewrite (drop_S _ _ _ Hx). cbn [take]. by replace (S (Z.to_nat f)) with (Z.to_nat (f + 1)) by lia.
Qed.

Lemma gather_app {A} (t : list A) l l' r r' : gather t l = Ok r → gather t l' = Ok r' → gather t (l ++ l') = Ok (r ++ r').
Proof.
  unfold gather. intros H1 H2. apply mmap_Ok in H1, H2. apply mmap_Ok. by apply Forall2_app.
Qed.

Lemma gather_ranges {A} (t : list A) fs ns :
  Forall2 (λ f n, 0 ≤ f ∧ f + Z.of_nat n ≤ zlen t) fs ns →
  gather t (ranges fs ns) = Ok (concat (zip_with (λ f n, take n (drop (Z.to_nat f) t)) fs ns)).
Proof.
  induction 1 as [|f n fs ns [H1 H2] _ IH]; [done|]. unfold ranges in *. cbn [zip_with concat].
  apply gather_app; [by apply gather_range|exact IH].
Qed.

Lemma csums_lookup a ns i : (i < length ns)%nat → csums a ns !! i = Some (a + total (take (S i) ns)).
Proof.
  revert a i. induction ns as [|n ns IH]; intros a i Hi; [cbn in Hi; lia|]. cbn [csums]. destruct i as [|i].
  - cbn [lookup list_lookup take]. rewrite total_cons. change (total (take 0 ns)) with 0. f_equal. lia.
  - cbn [lookup list_lookup take]. cbn [lookup list_lookup] in IH. rewrite IH by (cbn in Hi; lia). rewrite total_cons. f_equal. cbn [take]. lia.
Qed.

Lemma offsets_lookup a ns i : (i < length ns)%nat → offsets a ns !! i = Some (a + total (take i ns)).
Proof.
  revert a i. induction ns as [|n ns IH]; intros a i Hi; [cbn in Hi; lia|]. cbn [offsets]. destruct i as [|i].
  - cbn [lookup list_lookup take]. change (total []) with 0. f_equal. lia.
  - cbn [lookup list_lookup take]. cbn [lookup list_lookup] in IH. rewrite IH by (cbn in Hi; lia). rewrite total_cons. f_equal. lia.
Qed.

Lemma total_start {A} (xs : list (list A)) i : total (take i (length <$> xs)) = Z.of_nat (start_of xs i).
Proof.
  unfold total, start_of. f_equal. rewrite <-fmap_take. induction (take i xs) as [|x l IH]; [done|]. rewrite fmap_cons. cbn. by rewrite length_app, IH.
Qed.

Lemma csums_cu {A} (xs : list (list A)) : csums 0 (length <$> xs) = cu_of xs.
Proof.
  apply list_eq. intros i. unfold cu_of. rewrite list_lookup_fmap. destruct (decide (i < length xs)%nat) as [Hi|Hi].
  - rewrite csums_lookup by (by rewrite length_fmap). rewrite total_start, lookup_seq_lt by done. done.
  - rewrite lookup_seq_ge by lia. apply lookup_ge_None. rewrite csums_length, length_fmap. lia.
Qed.

(** Ranges within the parts of a ragged array. *)
Lemma gather_parts {A} (xs : list (list A)) pad fs ns (sel : list (list A)) :
  length fs = length xs → length ns = length xs → length sel = length xs →
  (∀ i x f n s, xs !! i = Some x → fs !! i = Some f → ns !! i = Some n → sel !! i = Some s →
     ∃ o, f = Z.of_nat (start_of xs i + o) ∧ (o + n ≤ length x)%nat ∧ s = take n (drop o x)) →
  gather (concat xs ++ pad) (ranges fs ns) = Ok (concat sel).
Proof.
  intros H1 H2 H3 H. rewrite gather_ranges.
  - do 2 f_equal. apply list_eq. intros i. destruct (decide (i < length xs)%nat) as [Hi|Hi].
    + destruct (lookup_lt_is_Some_2 xs i Hi) as [x Hx]. destruct (lookup_lt_is_Some_2 fs i ltac:(lia)) as [f Hf].
      destruct (lookup_lt_is_Some_2 ns i ltac:(lia)) as [n Hn]. destruct (lookup_lt_is_Some_2 sel i ltac:(lia)) as [s Hs].
      destruct (H i x f n s Hx Hf Hn Hs) as (o & -> & Ho & ->). rewrite lookup_zip_with, Hf, Hn, Hs. cbn. f_equal.
      rewrite Nat2Z.id, (ragged_split xs i x Hx), <-(assoc_L (++)), <-drop_drop. unfold start_of. rewrite drop_app_length.
      rewrite <-(assoc_L (++)), drop_app_le by lia. rewrite take_app_le; [done|]. rewrite length_drop. lia.
    + rewrite !lookup_ge_None_2; [done|lia|rewrite length_zip_with; lia].
  - apply Forall2_same_length_lookup. split; [lia|]. intros i f n Hf Hn.
    assert (Hi : (i < length xs)%nat) by (rewrite <-H1; by eapply lookup_lt_Some).
    destruct (lookup_lt_is_Some_2 xs i Hi) as [x Hx]. destruct (lookup_lt_is_Some_2 sel i ltac:(lia)) as [s Hs].
    destruct (H i x f n s Hx Hf Hn Hs) as (o & -> & Ho & _). pose proof (start_le xs i x Hx). rewrite zlen_app. pose proof (zlen_nonneg pad).
    unfold zlen at 1. lia.
Qed.

Lemma ranges_plus fs ns c : (λ i, i + c) <$> ranges fs ns = ranges ((λ f, f + c) <$> fs) ns.
Proof.
  unfold ranges. revert ns. induction fs as [|f fs IH]; intros [|n ns]; [done..|]. rewrite fmap_cons. cbn [zip_with concat]. rewrite fmap_app, IH.
  f_equal. unfold py_range. replace (Z.to_nat (f + c + Z.of_nat n - (f + c))) with (Z.to_nat (f + Z.of_nat n - f)) by lia.
  rewrite <-list_fmap_compose. apply list_fmap_ext. intros i x _. cbn. lia.
Qed.

(** ** The arrays of a step *)

(** [xs] holds the scheduled tokens of every request, [ns] the numbers of draft tokens
    at their ends; logits are needed for the last [n + 1] tokens of each. *)
Definition sampled_tokens (ns : list nat) (xs : list (list Z)) : list (list Z) := zip_with (λ n x, drop (length x - S n) x) ns xs.

Lemma sampled_lengths ns xs : Forall2 (λ n x, (n < length x)%nat) ns xs → length <$> sampled_tokens ns xs = S <$> ns.
Proof.
  unfold sampled_tokens. induction 1 as [|n x ns xs Hn _ IH]; [done|]. cbn [zip_with]. rewrite !fmap_cons, IH, length_drop. f_equal. lia.
Qed.

Lemma calc_arrays size scratch ns xs pad firsts :
  ns ≠ [] → total (S <$> ns) < 2 ^ 31 → total (S <$> ns) ≤ Z.of_nat size → length scratch = size → length xs = length ns →
  firsts = zip_with Z.sub (cu_of xs) (zs_of (S <$> ns)) →
  ∃ scratch', _calc_spec_decode_metadata (py_range 0 (Z.of_nat size)) scratch (concat xs ++ pad) (zs_of ns) (cu_of xs) =
    (ids ← gather (concat xs ++ pad) (ranges firsts (S <$> ns));
     drafts ← gather ids (ranges ((λ f, f + 1) <$> offsets 0 (S <$> ns)) ns);
     Ok (mkSpecMeta drafts (zs_of ns) (csums 0 ns) (csums 0 (S <$> ns)) (ranges (offsets 0 (S <$> ns)) ns)
           ((λ c, c - 1) <$> csums 0 (S <$> ns)) (ranges firsts (S <$> ns)), scratch')).
Proof.
  intros Hne Ht Hs Hl Hx ->. set (ks := S <$> ns) in *. assert (Hks : (λ n, n + 1) <$> zs_of ns = zs_of ks).
  { unfold zs_of, ks. rewrite <-!list_fmap_compose. apply list_fmap_ext. intros i n _. cbn. lia. }
  assert (Hkne : ks ≠ []) by (unfold ks; by destruct ns). assert (Hkl : length ks = length ns) by (unfold ks; apply length_fmap).
  assert (Hnt : total ns ≤ total ks).
  { unfold ks. clear. induction ns as [|n ns IH]; [done|]. rewrite fmap_cons, !total_cons. lia. }
  unfold _calc_spec_decode_metadata. rewrite Hks, (arange_ok size ks scratch Hkne Ht Hs Hl). cbn [mbind result_bind].
  assert (Hz : ∀ l, length (zeros l) = length l) by (intros l; unfold zeros; apply length_replicate).
  rewrite (np_zip_ok Z.sub (cu_of xs)) by (unfold cu_of, zs_of; rewrite !length_fmap, length_seq; lia). cbn [mbind result_bind].
  rewrite csums_last by done. cbn [mbind result_bind]. rewrite Z.add_0_l.
  assert (Htk : ∀ l rest, take (Z.to_nat (total l)) (ranges (zeros l) l ++ rest) = ranges (zeros l) l).
  { intros l rest. rewrite take_app_le by (rewrite ranges_length by apply Hz; unfold total; lia).
    apply take_ge. rewrite ranges_length by apply Hz. unfold total. lia. }
  rewrite Htk. set (firsts := zip_with Z.sub (cu_of xs) (zs_of ks)).
  assert (Hfl : length firsts = length ks) by (unfold firsts, cu_of, zs_of; rewrite length_zip_with, !length_fmap, length_seq; lia).
  assert (Hadd : ∀ fs l, length fs = length l → np_zip Z.add (np_repeat fs (zs_of l)) (ranges (zeros l) l) = Ok (ranges fs l)).
  { intros fs l Hfs. rewrite np_zip_ok by (rewrite repeat_length, ranges_length by (rewrite ?Hz; done); done). f_equal.
    apply repeat_ranges; [done|apply Hz|done|]. intros i c a a' Hc Ha Ha' k. unfold zeros in Ha. apply lookup_replicate in Ha as [-> _].
    assert (c = a') as -> by congruence. lia. }
  rewrite Hadd by done. cbn [mbind result_bind].
  rewrite (arange_ok size ns); [|done|lia|lia|].
  2:{ rewrite length_app, length_drop, ranges_length by apply Hz. unfold total in *. lia. }
  cbn [mbind result_bind]. rewrite csums_offsets. cbn [mbind result_bind]. rewrite csums_last by done. cbn [mbind result_bind].
  rewrite Z.add_0_l, Htk. rewrite Hadd by (rewrite offsets_length; lia). cbn [mbind result_bind]. rewrite ranges_plus.
  eexists. destruct (gather (concat xs ++ pad) (ranges firsts ks)); [|done]. cbn [mbind result_bind].
  by destruct (gather a (ranges ((λ f, f + 1) <$> offsets 0 ks) ns)).
Qed.

(** C19: With the index arrays of a step, the logits are those of the last tokens of each
    request, one more than it has draft tokens; the draft tokens are those at its
    end; and among the rows of logits the target indices select all rows of each
    request but the last, the bonus indices the last ones, in order. *)
Theorem spec_metadata_exact size scratch ns (xs : list (list Z)) pad :
  ns ≠ [] → Forall2 (λ n x, (n < length x)%nat) ns xs → total (S <$> ns) ≤ Z.of_nat size → Z.of_nat size < 2 ^ 31 →
  length scratch = size →
  let samples := sampled_tokens ns xs in
  ∃ md scratch', _calc_spec_decode_metadata (py_range 0 (Z.of_nat size)) scratch (concat xs ++ pad) (zs_of ns) (cu_of xs) = Ok (md, scratch') ∧
    num_draft_tokens md = zs_of ns ∧ cu_num_draft_tokens md = cu_of (drop 1 <$> samples) ∧ cu_num_sampled_tokens md = cu_of samples ∧
    draft_token_ids md = concat (drop 1 <$> samples) ∧ gather (concat xs ++ pad) (logits_indices md) = Ok (concat samples) ∧
    ∀ (A : Type) (rows : list (list A)), same_shape samples rows →
      gather (concat rows) (target_logits_indices md) = Ok (concat ((λ r, take (length r - 1) r) <$> rows)) ∧
      gather (concat rows) (bonus_logits_indices md) = Ok (concat ((λ r, drop (length r - 1) r) <$> rows)).
Proof.
  intros Hne Hf Ht Hs Hl samples. pose proof (Forall2_length _ _ _ Hf) as Hlen.
  set (firsts := zip_with Z.sub (cu_of xs) (zs_of (S <$> ns))).
  destruct (calc_arrays size scratch ns xs pad firsts Hne ltac:(lia) Ht Hl ltac:(lia) eq_refl) as [scratch' E].
  pose proof (sampled_lengths ns xs Hf) as Hsl. fold samples in Hsl.
  assert (Hsn : length samples = length ns) by (unfold samples, sampled_tokens; rewrite length_zip_with; lia).
  assert (Hfl : length firsts = length xs) by (unfold firsts, cu_of, zs_of; rewrite length_zip_with, !length_fmap, length_seq; lia).
  assert (Hsample : ∀ i s, samples !! i = Some s → ∃ n, ns !! i = Some n ∧ length s = S n).
  { intros i s Hi. assert (Hx : (length <$> samples) !! i = Some (length s)) by (by rewrite list_lookup_fmap, Hi). rewrite Hsl, list_lookup_fmap in Hx.
    apply fmap_Some in Hx as (n & Hn & ?). by exists n. }
  assert (Eids : gather (concat xs ++ pad) (ranges firsts (S <$> ns)) = Ok (concat samples)).
  { apply gather_parts; [done|rewrite length_fmap; lia|lia|]. intros i x f k s Hx Hfi Hk Hsi.
    destruct (Hsample i s Hsi) as (n & Hn & _). rewrite list_lookup_fmap, Hn in Hk. injection Hk as <-.
    destruct (Forall2_lookup_l _ _ _ _ _ Hf Hn) as (x' & Hx' & Hnx). assert (x' = x) as -> by congruence.
    exists (length x - S n)%nat. unfold firsts, cu_of, zs_of in Hfi. rewrite lookup_zip_with, !list_lookup_fmap, Hn in Hfi.
    rewrite lookup_seq_lt in Hfi by (by eapply lookup_lt_Some). cbn [fmap option_fmap option_map mbind option_bind plus] in Hfi. injection Hfi as <-.
    rewrite (start_S xs i x Hx). unfold samples, sampled_tokens in Hsi. rewrite lookup_zip_with, Hn, Hx in Hsi. cbn in Hsi. injection Hsi as <-.
    split_and!; [lia|lia|]. symmetry. apply take_ge. rewrite length_drop. lia. }
  assert (Hoff : ∀ (A : Type) (rows : list (list A)) i, same_shape samples rows → (i < length ns)%nat →
    offsets 0 (S <$> ns) !! i = Some (Z.of_nat (start_of rows i))).
  { intros A rows i Hr Hi. rewrite offsets_lookup by (by rewrite length_fmap). rewrite <-Hsl, total_start.
    by rewrite (shape_start samples rows i Hr). }
  assert (Eds : gather (concat samples) (ranges ((λ f, f + 1) <$> offsets 0 (S <$> ns)) ns) = Ok (concat (drop 1 <$> samples))).
  { rewrite <-(app_nil_r (concat samples)). apply gather_parts; rewrite ?length_fmap, ?offsets_length, ?length_fmap; try lia.
    intros i s f n d Hsi Hfi Hn Hd. rewrite list_lookup_fmap, (Hoff Z samples i) in Hfi; [|by apply Forall_Forall2_diag, Forall_true|by eapply lookup_lt_Some].
    injection Hfi as <-. rewrite list_lookup_fmap, Hsi in Hd. injection Hd as <-. destruct (Hsample i s Hsi) as (n' & Hn' & Hls).
    assert (n' = n) as -> by congruence. exists 1%nat. split_and!; [lia|lia|]. symmetry. apply take_ge. rewrite length_drop. lia. }
  do 2 eexists. split; [rewrite E, Eids; cbn [mbind result_bind]; rewrite Eds; cbn [mbind result_bind]; done|].
  cbn [num_draft_tokens cu_num_draft_tokens cu_num_sampled_tokens draft_token_ids logits_indices target_logits_indices bonus_logits_indices].
  split_and!; [done| | |done|done|].
  - rewrite <-csums_cu. f_equal. apply list_eq. intros i. rewrite !list_lookup_fmap. destruct (samples !! i) as [s|] eqn:Es.
    + destruct (Hsample i s Es) as (n & Hn & Hls). rewrite Hn. cbn. rewrite length_drop, Hls. f_equal. lia.
    + cbn. apply lookup_ge_None. apply lookup_ge_None in Es. lia.
  - by rewrite <-csums_cu, Hsl.
  - intros A rows Hr. pose proof (Forall2_length _ _ _ Hr) as Hrl.
    assert (Hrow : ∀ i r, rows !! i = Some r → ∃ n, ns !! i = Some n ∧ length r = S n).
    { intros i r Hi. destruct (Forall2_lookup_r _ _ _ _ _ Hr Hi) as (s & Hsi & Hlr). destruct (Hsample i s Hsi) as (n & Hn & ?). exists n. split; [done|lia]. }
    split; rewrite <-(app_nil_r (concat rows)).
    + apply gather_parts; rewrite ?length_fmap, ?offsets_length, ?length_fmap; try lia. intros i r f n d Hri Hfi Hn Hd.
      rewrite (Hoff A rows i Hr) in Hfi by (by eapply lookup_lt_Some). injection Hfi as <-. rewrite list_lookup_fmap, Hri in Hd. injection Hd as <-.
      destruct (Hrow i r Hri) as (n' & Hn' & Hlr). assert (n' = n) as -> by congruence. exists 0%nat. rewrite drop_0. split_and!; [lia|lia|]. f_equal. lia.
    + assert (Hb : (λ c, c - 1) <$> csums 0 (S <$> ns) = ranges ((λ c, c - 1) <$> csums 0 (S <$> ns)) (replicate (length ns) 1%nat)).
      { unfold ranges. clear. generalize 0 as a. induction ns as [|n ns IH]; intros a; [done|]. rewrite fmap_cons. cbn [csums length replicate].
        rewrite fmap_cons. cbn [zip_with concat]. rewrite <-IH. f_equal. rewrite py_range_cons by lia. by rewrite py_range_nil by lia. }
      rewrite Hb. apply gather_parts; rewrite ?length_fmap, ?csums_length, ?length_fmap, ?length_replicate; try lia. intros i r f n d Hri Hfi Hn Hd.
      assert (Hi : (i < length ns)%nat) by (rewrite <-Hsn, Hrl; by eapply lookup_lt_Some).
      rewrite list_lookup_fmap, csums_lookup in Hfi by (by rewrite length_fmap). injection Hfi as <-.
      apply lookup_replicate in Hn as [-> _]. rewrite list_lookup_fmap, Hri in Hd. injection Hd as <-.
      destruct (Hrow i r Hri) as (n' & Hn' & Hlr). exists (length r - 1)%nat. rewrite <-Hsl, total_start, (shape_start samples rows _ Hr), (start_S rows i r Hri).
      split_and!; [lia|lia|]. symmetry. apply take_ge. rewrite length_drop. lia.
Qed.

(** ** Log probabilities *)

Lemma starts_lookup {A} (xs : list (list A)) i :
  (i < length xs)%nat → (0 :: removelast (cu_of xs)) !! i = Some (Z.of_nat (start_of xs i)).
Proof.
  intros Hi. destruct i as [|i]; [done|]. change ((0 :: ?l) !! S i) with (l !! i). unfold cu_of. destruct (length xs) as [|n] eqn:E; [lia|].
  rewrite seq_S, fmap_app. cbn [fmap list_fmap]. rewrite removelast_last.
  rewrite list_lookup_fmap, lookup_seq_lt by lia. done.
Qed.

(** The row of logits looked up for the [j]-th token of a request is its [j]-th one: the
    clamp only concerns positions without a token. *)
Theorem accepted_rows_exact {A} (xs : list (list A)) w i x j :
  xs !! i = Some x → (j < length x)%nat → (length x ≤ w)%nat →
  accepted_logit_indices (cu_of xs) (Z.of_nat w) (zlen (concat xs)) !! (i * w + j)%nat = Some (Z.of_nat (start_of xs i + j)).
Proof.
  intros Hi Hj Hw. unfold accepted_logit_indices. pose proof (starts_lookup xs i ltac:(by eapply lookup_lt_Some)) as Hs.
  set (f := λ starts, (λ o, Z.min (starts + o) (zlen (concat xs) - 1)) <$> py_range 0 (Z.of_nat w)).
  assert (Eb : ∀ l, l ≫= f = concat (f <$> l)) by (induction l as [|s l IH]; [done|]; rewrite fmap_cons; cbn; by rewrite IH).
  rewrite Eb. assert (Hr : (f <$> 0 :: removelast (cu_of xs)) !! i = Some (f (Z.of_nat (start_of xs i)))) by (by rewrite list_lookup_fmap, Hs).
  rewrite (concat_rows_lookup w _ i j (f (Z.of_nat (start_of xs i)))).
  - unfold f. rewrite py_range_seq, !list_lookup_fmap, lookup_seq_lt by lia. cbn. pose proof (start_le xs i x Hi). unfold zlen. f_equal. lia.
  - apply Forall_fmap, Forall_true. intros s. unfold f. cbn. rewrite py_range_seq, !length_fmap. apply length_seq.
  - exact Hr.
  - lia.
Qed.

(** Two requests, the first with two draft tokens. *)
Lemma spec_metadata_exact_witness :
  ∃ md scratch', _calc_spec_decode_metadata (py_range 0 (Z.of_nat 8)) (replicate 8 0) ([[4; 5; 6; 7]; [8; 9]] ≫= id) [2; 0] [4; 6] = Ok (md, scratch') ∧
    draft_token_ids md = [6; 7] ∧ gather (concat [[10; 11; 12]; [13]]) (target_logits_indices md) = Ok [10; 11].
Proof.
  destruct (spec_metadata_exact 8 (replicate 8 0) [2; 0]%nat [[4; 5; 6; 7]; [8; 9]] []) as (md & scratch' & E & _ & _ & _ & Hd & _ & Hg).
  - discriminate.
  - repeat constructor.
  - vm_compute. discriminate.
  - vm_compute. reflexivity.
  - reflexivity.
  - exists md, scratch'. split; [exact E|]. split; [exact Hd|].
    exact (proj1 (Hg Z [[10; 11; 12]; [13]] ltac:(repeat constructor))).
Defined.
