(* ===== verification/BlockTable.v ===== *)
(** * Block tables of the worker
    The tables of [worker/block_table.py]: which blocks of the cache hold the tokens
    of the request at each batch index, and the kernel that computes, for every
    token of a step, the slot of the cache it is written to. *)

From S2P Require Import Prelude MathUtils Rejection.

#[local] Open Scope Z_scope.

(** ** Assignments to array slices *)

(** [row[a:b] = vals]: the slice is clipped, and must have the length of the values
    unless there is exactly one, which fills the slice. *)
Definition np_assign {A} (row : list A) (a b : nat) (vals : list A) : result (list A) :=
  let a' := Nat.min a (length row) in
  let b' := Nat.max a' (Nat.min b (length row)) in
  if (length vals =? b' - a')%nat then Ok (take a' row ++ vals ++ drop b' row)
  else match vals with
    | [x] => Ok (take a' row ++ replicate (b' - a') x ++ drop b' row)
    | _ => Raise ValueError
    end.

(** [row[a:b] = x] *)
Definition np_fill {A} (row : list A) (a b : nat) (x : A) : list A :=
  let a' := Nat.min a (length row) in
  let b' := Nat.max a' (Nat.min b (length row)) in
  take a' row ++ replicate (b' - a') x ++ drop b' row.

Definition np_get {A} (l : list A) (i : nat) : result A :=
  match l !! i with Some x => Ok x | None => Raise IndexError end.

(** ** One table *)

Record BlockTable := mkBlockTable {
  bt_block_size : Z;
  blocks_per_kv_block : Z;
  use_hybrid_blocks : bool;
  bt_max_num_batched_tokens : Z;
  bt_max_num_blocks_per_req : nat;
  bt_rows : list (list Z);
  num_blocks_per_row : list nat;
  bt_gpu : list (list Z);
  slot_mapping : list Z;
  pcp_world_size : Z;
  pcp_rank : Z;
  dcp_world_size : Z;
  dcp_rank : Z;
  cp_kv_cache_interleave_size : Z;
}.

Definition set_rows (t : BlockTable) (rows : list (list Z)) (counts : list nat) : BlockTable :=
  mkBlockTable (bt_block_size t) (blocks_per_kv_block t) (use_hybrid_blocks t) (bt_max_num_batched_tokens t) (bt_max_num_blocks_per_req t) rows counts (bt_gpu t)
    (slot_mapping t) (pcp_world_size t) (pcp_rank t) (dcp_world_size t) (dcp_rank t) (cp_kv_cache_interleave_size t).

Definition set_gpu (t : BlockTable) (gpu : list (list Z)) (slots : list Z) : BlockTable :=
  mkBlockTable (bt_block_size t) (blocks_per_kv_block t) (use_hybrid_blocks t) (bt_max_num_batched_tokens t) (bt_max_num_blocks_per_req t) (bt_rows t)
    (num_blocks_per_row t) gpu slots (pcp_world_size t) (pcp_rank t) (dcp_world_size t) (dcp_rank t) (cp_kv_cache_interleave_size t).

(** Ranks and sizes of the parallel groups that split the context. *)
Record cp_groups := mkCp { cp_pcp_size : Z; cp_pcp_rank : Z; cp_dcp_size : Z; cp_dcp_rank : Z }.

Definition new_block_table (cp : cp_groups) (block_size : Z) (max_num_reqs : nat) (max_num_blocks_per_req max_num_batched_tokens
    kernel_block_size interleave : Z) : result BlockTable :=
  '(size, per, hybrid) ←
    (if kernel_block_size =? block_size then Ok (block_size, 1, false)
     else if kernel_block_size =? 0 then Raise ZeroDivisionError
     else if negb (block_size mod kernel_block_size =? 0) then Raise ValueError
     else Ok (kernel_block_size, block_size / kernel_block_size, true));
  let width := Z.to_nat (max_num_blocks_per_req * per) in
  Ok (mkBlockTable size per hybrid max_num_batched_tokens width (replicate max_num_reqs (replicate width 0)) (replicate max_num_reqs 0%nat)
    (replicate max_num_reqs (replicate width 0)) (replicate (Z.to_nat max_num_batched_tokens) 0)
    (cp_pcp_size cp) (cp_pcp_rank cp) (cp_dcp_size cp) (cp_dcp_rank cp) interleave).

Definition map_to_kernel_blocks (kv_manager_block_ids : list Z) (blocks_per_kv_block : Z) (kernel_block_arange : list Z) : list Z :=
  if blocks_per_kv_block =? 1 then kv_manager_block_ids
  else kv_manager_block_ids ≫= λ b, (λ k, b * blocks_per_kv_block + k) <$> kernel_block_arange.

(** The conversion of ids stored into a row of 32-bit integers: the 64-bit integers
    of an array wrap around, Python integers out of range are refused. *)
Definition to_int32 (from_array : bool) (ids : list Z) : result (list Z) :=
  if from_array then Ok (c_int 32 <$> ids)
  else if forallb (λ x, (- 2 ^ 31 <=? x) && (x <? 2 ^ 31)) ids then Ok ids else Raise OverflowError.

Definition append_row (t : BlockTable) (block_ids : list Z) (row_idx : nat) : result BlockTable :=
  match block_ids with
  | [] => Ok t
  | _ :: _ =>
      let block_ids :=
        if use_hybrid_blocks t then map_to_kernel_blocks block_ids (blocks_per_kv_block t) (py_range 0 (blocks_per_kv_block t))
        else block_ids in
      let num_blocks := length block_ids in
      start ← np_get (num_blocks_per_row t) row_idx;
      row ← np_get (bt_rows t) row_idx;
      block_ids ← to_int32 (use_hybrid_blocks t) block_ids;
      row ← np_assign row start (start + num_blocks) block_ids;
      Ok (set_rows t (<[row_idx := row]> (bt_rows t)) (<[row_idx := (start + num_blocks)%nat]> (num_blocks_per_row t)))
  end.

Definition add_row (t : BlockTable) (block_ids : list Z) (row_idx : nat) : result BlockTable :=
  _ ← np_get (num_blocks_per_row t) row_idx;
  append_row (set_rows t (bt_rows t) (<[row_idx := 0%nat]> (num_blocks_per_row t))) block_ids row_idx.

Definition clear_row (t : BlockTable) (row_idx : nat) : result BlockTable :=
  num_blocks ← np_get (num_blocks_per_row t) row_idx;
  row ← np_get (bt_rows t) row_idx;
  let rows := if (0 <? num_blocks)%nat then <[row_idx := np_fill row 0 num_blocks 0]> (bt_rows t) else bt_rows t in
  Ok (set_rows t rows (<[row_idx := 0%nat]> (num_blocks_per_row t))).

Definition move_row (t : BlockTable) (src tgt : nat) : result BlockTable :=
  num_blocks ← np_get (num_blocks_per_row t) src;
  src_row ← np_get (bt_rows t) src;
  tgt_row ← np_get (bt_rows t) tgt;
  row ← np_assign tgt_row 0 num_blocks (take num_blocks src_row);
  Ok (set_rows t (<[tgt := row]> (bt_rows t)) (<[tgt := num_blocks]> (num_blocks_per_row t))).

Definition swap_at {A} (l : list A) (i j : nat) : result (list A) :=
  x ← np_get l i;
  y ← np_get l j;
  Ok (<[j := x]> (<[i := y]> l)).

Definition swap_row (t : BlockTable) (src tgt : nat) : result BlockTable :=
  counts ← swap_at (num_blocks_per_row t) src tgt;
  rows ← swap_at (bt_rows t) src tgt;
  Ok (set_rows t rows counts).

Definition commit_block_table (t : BlockTable) (num_reqs : nat) : BlockTable :=
  set_gpu t (take num_reqs (bt_rows t) ++ drop num_reqs (bt_gpu t)) (slot_mapping t).

Definition clear_table (t : BlockTable) : BlockTable :=
  let zero := (λ row : list Z, replicate (length row) 0) in
  set_gpu (set_rows t (zero <$> bt_rows t) (num_blocks_per_row t)) (zero <$> bt_gpu t) (slot_mapping t).

(** ** The slot-mapping kernel *)

Definition PAD_SLOT_ID : Z := -1.

(** [range(a, b, step)] *)
Definition py_range_step (a b step : Z) : list Z := (λ k, a + k * step) <$> py_range 0 (cdiv (b - a) step).

(** One lane of a round of the loop: loads without a mask happen in every lane.
    [row_offset] is a 32-bit integer on the device and an entry of the table, so it
    is exact for the tables of less than 2^31 entries that the device can hold. *)
Definition slot_lane (query_positions block_table : list Z) (row_offset block_size world rank interleave end_idx : Z)
    (slots : list Z) (offset : Z) : result (list Z) :=
  let mask := offset <? end_idx in
  pos ← masked_load query_positions offset mask 0;
  let virtual_block_size := block_size * world in
  let block_indices := Z.quot pos virtual_block_size in
  block_numbers ← tl_load block_table (row_offset + block_indices);
  let virtual_block_offsets := pos - block_indices * virtual_block_size in
  let is_local := Z.rem (Z.quot virtual_block_offsets interleave) world =? rank in
  let local_block_offsets :=
    Z.quot virtual_block_offsets (world * interleave) * interleave + Z.rem virtual_block_offsets interleave in
  let slot_ids := if is_local then block_numbers * block_size + local_block_offsets else PAD_SLOT_ID in
  if mask then tl_store slots offset slot_ids else Ok slots.

(** One program of the grid, with [BLOCK] lanes. *)
Definition _compute_slot_mapping_kernel (num_tokens max_num_tokens : Z) (query_start_loc positions block_table : list Z)
    (stride block_size world rank interleave BLOCK num_programs : Z) (slots : list Z) (req_idx : Z) : result (list Z) :=
  if req_idx =? num_programs - 1 then
    mfold (λ slots i, mfold (λ slots offset, if offset <? max_num_tokens then tl_store slots offset PAD_SLOT_ID else Ok slots)
      slots (py_range i (i + BLOCK))) slots (py_range_step num_tokens max_num_tokens BLOCK)
  else
    start_idx ← tl_load query_start_loc req_idx;
    end_idx ← tl_load query_start_loc (req_idx + 1);
    mfold (λ slots i,
        mfold (slot_lane positions block_table (req_idx * stride) block_size world rank interleave end_idx)
          slots (py_range i (i + BLOCK)))
      slots (py_range_step start_idx end_idx BLOCK).

Definition compute_slot_mapping (t : BlockTable) (num_reqs : Z) (query_start_loc positions : list Z) (BLOCK : Z) : result BlockTable :=
  let world := pcp_world_size t * dcp_world_size t in
  let rank := pcp_rank t * dcp_world_size t + dcp_rank t in
  let stride := zlen (default [] (head (bt_gpu t))) in
  slots ← mfold (_compute_slot_mapping_kernel (zlen positions) (bt_max_num_batched_tokens t) query_start_loc positions (mjoin (bt_gpu t))
      stride (bt_block_size t) world rank (cp_kv_cache_interleave_size t) BLOCK (num_reqs + 1))
    (slot_mapping t) (py_range 0 (num_reqs + 1));
  Ok (set_gpu t (bt_gpu t) slots).

(** ** The tables of all cache groups *)

Definition MultiGroupBlockTable := list BlockTable.

Fixpoint zip3 {A B C} (l1 : list A) (l2 : list B) (l3 : list C) : list (A * B * C) :=
  match l1, l2, l3 with
  | x :: l1, y :: l2, z :: l3 => (x, y, z) :: zip3 l1 l2 l3
  | _, _, _ => []
  end.

Definition new_multi_group (cp : cp_groups) (max_num_reqs : nat) (max_model_len max_num_batched_tokens : Z)
    (block_sizes kernel_block_sizes : list Z) (max_num_blocks : option (list Z)) (interleave : Z) : result MultiGroupBlockTable :=
  if negb (length kernel_block_sizes =? length block_sizes)%nat then Raise ValueError
  else
    let max_num_blocks := match max_num_blocks with
      | None => (λ bs, cdiv max_model_len (bs * (cp_pcp_size cp * cp_dcp_size cp))) <$> block_sizes
      | Some l => l
      end in
    if negb (length max_num_blocks =? length block_sizes)%nat then Raise ValueError
    else if existsb (λ bs, bs =? 0) block_sizes then Raise ZeroDivisionError
    else
      let max_num_blocks :=
        zip_with (λ n bs, if bs <=? 128 then cdiv n (128 / bs) * (128 / bs) else n) max_num_blocks block_sizes in
      mmap (λ '(bs, kbs, n), new_block_table cp bs max_num_reqs n max_num_batched_tokens kbs interleave)
        (zip3 block_sizes kernel_block_sizes max_num_blocks).

(** [for i, block_table in enumerate(self.block_tables): f(block_table, block_ids[i])] *)
Fixpoint each_group {A} (f : BlockTable → A → result BlockTable) (ts : MultiGroupBlockTable) (l : list A) : result MultiGroupBlockTable :=
  match ts, l with
  | [], _ => Ok []
  | t :: ts, x :: l => t ← f t x; ts ← each_group f ts l; Ok (t :: ts)
  | _ :: _, [] => Raise IndexError
  end.

Definition mg_append_row (ts : MultiGroupBlockTable) (block_ids : list (list Z)) (row_idx : nat) : result MultiGroupBlockTable :=
  each_group (λ t ids, append_row t ids row_idx) ts block_ids.

Definition mg_add_row (ts : MultiGroupBlockTable) (block_ids : list (list Z)) (row_idx : nat) : result MultiGroupBlockTable :=
  each_group (λ t ids, add_row t ids row_idx) ts block_ids.

Definition mg_clear_row (ts : MultiGroupBlockTable) (row_idx : nat) : result MultiGroupBlockTable :=
  mmap (λ t, clear_row t row_idx) ts.

Definition mg_move_row (ts : MultiGroupBlockTable) (src tgt : nat) : result MultiGroupBlockTable :=
  mmap (λ t, move_row t src tgt) ts.

Definition mg_swap_row (ts : MultiGroupBlockTable) (src tgt : nat) : result MultiGroupBlockTable :=
  mmap (λ t, swap_row t src tgt) ts.

Definition mg_compute_slot_mapping (ts : MultiGroupBlockTable) (num_reqs : Z) (query_start_loc positions : list Z) (BLOCK : Z) :
    result MultiGroupBlockTable :=
  mmap (λ t, compute_slot_mapping t num_reqs query_start_loc positions BLOCK) ts.

Definition mg_commit_block_table (ts : MultiGroupBlockTable) (num_reqs : nat) : MultiGroupBlockTable :=
  (λ t, commit_block_table t num_reqs) <$> ts.

Definition mg_clear (ts : MultiGroupBlockTable) : MultiGroupBlockTable := clear_table <$> ts.
