(* ===== verification/BlockTableFacts.v ===== *)
(** * Block tables hold the blocks of each request
    Every row of a table is the list of (kernel) blocks of the request at its index
    through all operations; and the slot of a token is the one its position has in
    the blocks of its request, whatever the split into kernel blocks and context
    ranks. *)

From S2P Require Import Prelude MathUtils Rejection BlockTable.

#[local] Open Scope Z_scope.

(** ** Slices *)

Lemma np_assign_ok {A} (row : list A) a vals :
  (a + length vals ≤ length row)%nat → np_assign row a (a + length vals) vals = Ok (take a row ++ vals ++ drop (a + length vals) row).
Proof.
  intros H. unfold np_assign. replace (Nat.min a (length row)) with a by lia.
  replace (Nat.max a (Nat.min (a + length vals) (length row))) with (a + length vals)%nat by lia.
  by rewrite (proj2 (Nat.eqb_eq _ _)) by lia.
Qed.

Lemma np_fill_ok {A} (row : list A) a n x :
  (a + n ≤ length row)%nat → np_fill row a (a + n) x = take a row ++ replicate n x ++ drop (a + n) row.
Proof.
  intros H. unfold np_fill. replace (Nat.min a (length row)) with a by lia.
  replace (Nat.max a (Nat.min (a + n) (length row))) with (a + n)%nat by lia. by replace (a + n - a)%nat with n by lia.
Qed.

(** The slice [row[a:a+n] = vals] replaced. *)
Definition splice {A} (row : list A) (a : nat) (vals : list A) : list A := take a row ++ vals ++ drop (a + length vals) row.

Lemma splice_length {A} (row : list A) a vals : (a + length vals ≤ length row)%nat → length (splice row a vals) = length row.
Proof. intros H. unfold splice. rewrite !length_app, length_take, length_drop. lia. Qed.

Lemma splice_take {A} (row : list A) a vals : (a ≤ length row)%nat → take (a + length vals) (splice row a vals) = take a row ++ vals.
Proof.
  intros H. unfold splice. rewrite (assoc_L (++)). rewrite take_app_le; [|rewrite length_app, length_take; lia].
  apply take_ge. rewrite length_app, length_take. lia.
Qed.

Lemma np_get_ok {A} (l : list A) i x : np_get l i = Ok x ↔ l !! i = Some x.
Proof. unfold np_get. destruct (l !! i); naive_solver. Qed.

(** ** One table *)

Record bt_ok (R : nat) (t : BlockTable) : Prop := mkBtOk {
  bto_rows : length (bt_rows t) = R;
  bto_counts : length (num_blocks_per_row t) = R;
  bto_width : Forall (λ r, length r = bt_max_num_blocks_per_req t) (bt_rows t);
  bto_fit : Forall (λ n, (n ≤ bt_max_num_blocks_per_req t)%nat) (num_blocks_per_row t);
}.

(** The blocks of row [i]. *)
Definition row_blocks (t : BlockTable) (i : nat) : option (list Z) :=
  match bt_rows t !! i, num_blocks_per_row t !! i with Some r, Some n => Some (take n r) | _, _ => None end.

(** What operations on rows leave alone. *)
Definition bt_conf (t : BlockTable) :=
  (bt_block_size t, blocks_per_kv_block t, use_hybrid_blocks t, bt_max_num_blocks_per_req t,
   (bt_max_num_batched_tokens t, bt_gpu t, slot_mapping t),
   (pcp_world_size t, pcp_rank t, dcp_world_size t, dcp_rank t, cp_kv_cache_interleave_size t)).

Definition same_shape_bt (t t' : BlockTable) : Prop := bt_conf t' = bt_conf t.

Definition kernel_ids (t : BlockTable) (ids : list Z) : list Z :=
  if use_hybrid_blocks t then map_to_kernel_blocks ids (blocks_per_kv_block t) (py_range 0 (blocks_per_kv_block t)) else ids.

Lemma kernel_ids_conf t t' ids : same_shape_bt t t' → kernel_ids t' ids = kernel_ids t ids.
Proof. unfold same_shape_bt, bt_conf, kernel_ids. intros H. injection H as _ -> -> _ _ _ _ _ _ _ _ _. done. Qed.

(** The blocks fit a row: there is room, and the ids of the kernel blocks are 32-bit
    integers. *)
Definition row_fits (t : BlockTable) (room : nat) (ids : list Z) : Prop :=
  (length (kernel_ids t ids) ≤ room)%nat ∧ Forall (λ x, - 2 ^ 31 ≤ x < 2 ^ 31) (kernel_ids t ids).

#[export] Instance row_fits_dec t room ids : Decision (row_fits t room ids).
Proof. unfold row_fits. apply _. Defined.

Lemma to_int32_id h ids : Forall (λ x, - 2 ^ 31 ≤ x < 2 ^ 31) ids → to_int32 h ids = Ok ids.
Proof.
  intros H. unfold to_int32. destruct h.
  - f_equal. induction H as [|x ids Hx _ IH]; [done|]. rewrite fmap_cons, IH. f_equal. by apply c_int_id.
  - assert (forallb (λ x, (- 2 ^ 31 <=? x) && (x <? 2 ^ 31)) ids = true) as ->; [|done].
    apply forallb_forall. intros x Hx%list_elem_of_In. apply (proj1 (Forall_forall _ _) H) in Hx.
    apply andb_true_iff. by rewrite Z.leb_le, Z.ltb_lt.
Qed.

Section table.
Context (R : nat).
Implicit Types (t : BlockTable).

Lemma bt_lookup t i : bt_ok R t → (i < R)%nat → ∃ r n, bt_rows t !! i = Some r ∧ num_blocks_per_row t !! i = Some n ∧
  length r = bt_max_num_blocks_per_req t ∧ (n ≤ bt_max_num_blocks_per_req t)%nat ∧ row_blocks t i = Some (take n r).
Proof.
  intros [Hr Hc Hw Hf] Hi. destruct (lookup_lt_is_Some_2 (bt_rows t) i) as [r E1]; [lia|].
  destruct (lookup_lt_is_Some_2 (num_blocks_per_row t) i) as [n E2]; [lia|]. exists r, n. split_and!; [done|done| | |].
  - by apply (proj1 (Forall_lookup _ _) Hw i).
  - by apply (proj1 (Forall_lookup _ _) Hf i).
  - unfold row_blocks. by rewrite E1, E2.
Qed.

(** Writing a row and its count. *)
Lemma bt_write t i r n : bt_ok R t → (i < R)%nat → length r = bt_max_num_blocks_per_req t → (n ≤ bt_max_num_blocks_per_req t)%nat →
  let t' := set_rows t (<[i := r]> (bt_rows t)) (<[i := n]> (num_blocks_per_row t)) in
  bt_ok R t' ∧ same_shape_bt t t' ∧ ∀ j, row_blocks t' j = if decide (j = i) then Some (take n r) else row_blocks t j.
Proof.
  intros [Hr Hc Hw Hf] Hi Hlen Hn t'. split_and!; [split; cbn|done..|].
  - by rewrite length_insert.
  - by rewrite length_insert.
  - apply Forall_insert; done.
  - apply Forall_insert; done.
  - intros j. unfold row_blocks. cbn. case_decide; [subst|].
    + by rewrite !list_lookup_insert_eq by lia.
    + by rewrite !list_lookup_insert_ne by done.
Qed.

Lemma kernel_ids_nil t : kernel_ids t [] = [].
Proof. unfold kernel_ids, map_to_kernel_blocks. destruct (use_hybrid_blocks t); [|done]. by destruct (_ =? 1). Qed.

Lemma append_row_ok t ids i old : bt_ok R t → row_blocks t i = Some old → (i < R)%nat →
  row_fits t (bt_max_num_blocks_per_req t - length old) ids →
  ∃ t', append_row t ids i = Ok t' ∧ bt_ok R t' ∧ same_shape_bt t t' ∧
    ∀ j, row_blocks t' j = if decide (j = i) then Some (old ++ kernel_ids t ids) else row_blocks t j.
Proof.
  intros H Hold Hi [Hfit H32]. destruct (bt_lookup t i H Hi) as (r & n & E1 & E2 & Hl & Hn & Eb). rewrite Hold in Eb. injection Eb as ->.
  rewrite length_take in Hfit. replace (n `min` length r)%nat with n in Hfit by lia.
  destruct (decide (ids = [])) as [->|Hne].
  - exists t. split; [done|]. split; [done|]. split; [done|]. intros j. case_decide; [|done]. subst. by rewrite kernel_ids_nil, app_nil_r.
  - assert (Ha : append_row t ids i = (
      start ← np_get (num_blocks_per_row t) i;
      row ← np_get (bt_rows t) i;
      ids' ← to_int32 (use_hybrid_blocks t) (kernel_ids t ids);
      row ← np_assign row start (start + length (kernel_ids t ids)) ids';
      Ok (set_rows t (<[i := row]> (bt_rows t)) (<[i := (start + length (kernel_ids t ids))%nat]> (num_blocks_per_row t))))) by (by destruct ids).
    rewrite Ha. unfold np_get. rewrite E1, E2. cbn [mbind result_bind]. rewrite to_int32_id by done.
    cbn [mbind result_bind]. rewrite np_assign_ok by lia. cbn [mbind result_bind].
    fold (splice r n (kernel_ids t ids)).
    destruct (bt_write t i (splice r n (kernel_ids t ids)) (n + length (kernel_ids t ids)) H Hi) as (H1 & H2 & H3); [rewrite splice_length; lia|lia|].
    eexists. split; [done|]. split; [done|]. split; [done|]. intros j. rewrite H3. by rewrite splice_take by lia.
Qed.

Lemma add_row_ok t ids i : bt_ok R t → (i < R)%nat → row_fits t (bt_max_num_blocks_per_req t) ids →
  ∃ t', add_row t ids i = Ok t' ∧ bt_ok R t' ∧ same_shape_bt t t' ∧
    ∀ j, row_blocks t' j = if decide (j = i) then Some (kernel_ids t ids) else row_blocks t j.
Proof.
  intros H Hi Hfit. destruct (bt_lookup t i H Hi) as (r & n & E1 & E2 & Hl & Hn & Eb). unfold add_row, np_get. rewrite E2. cbn [mbind result_bind].
  destruct (bt_write t i r 0 H Hi Hl) as (H1 & H2 & H3); [lia|].
  rewrite list_insert_id in H1, H2, H3 by done. set (t0 := set_rows t (bt_rows t) (<[i := 0%nat]> (num_blocks_per_row t))) in *.
  destruct (append_row_ok t0 ids i [] H1) as (t' & E & H1' & H2' & H3'); [by rewrite H3, decide_True|done|cbn [length]; by rewrite Nat.sub_0_r|].
  exists t'. split; [done|]. split; [done|]. split; [unfold same_shape_bt in *; congruence|].
  intros j. rewrite H3', H3. by case_decide.
Qed.

Lemma clear_row_ok t i : bt_ok R t → (i < R)%nat →
  ∃ t', clear_row t i = Ok t' ∧ bt_ok R t' ∧ same_shape_bt t t' ∧ ∀ j, row_blocks t' j = if decide (j = i) then Some [] else row_blocks t j.
Proof.
  intros H Hi. destruct (bt_lookup t i H Hi) as (r & n & E1 & E2 & Hl & Hn & Eb). unfold clear_row, np_get. rewrite E2, E1. cbn [mbind result_bind].
  set (r' := if (0 <? n)%nat then np_fill r 0 n 0 else r).
  assert (Hr' : length r' = bt_max_num_blocks_per_req t).
  { unfold r'. destruct (0 <? n)%nat; [|done]. rewrite (np_fill_ok r 0 n) by lia. rewrite !length_app, length_take, length_replicate, length_drop. lia. }
  assert (Er : (if (0 <? n)%nat then <[i := np_fill r 0 n 0]> (bt_rows t) else bt_rows t) = <[i := r']> (bt_rows t)).
  { unfold r'. destruct (0 <? n)%nat; [done|]. by rewrite list_insert_id. }
  rewrite Er. destruct (bt_write t i r' 0 H Hi Hr') as (H1 & H2 & H3); [lia|]. eexists. done.
Qed.

Lemma move_row_ok t src tgt b : bt_ok R t → (src < R)%nat → (tgt < R)%nat → row_blocks t src = Some b →
  ∃ t', move_row t src tgt = Ok t' ∧ bt_ok R t' ∧ same_shape_bt t t' ∧ ∀ j, row_blocks t' j = if decide (j = tgt) then Some b else row_blocks t j.
Proof.
  intros H Hs Ht Hb. destruct (bt_lookup t src H Hs) as (r & n & E1 & E2 & Hl & Hn & Eb). rewrite Hb in Eb. injection Eb as ->.
  destruct (bt_lookup t tgt H Ht) as (r' & n' & E1' & E2' & Hl' & Hn' & Eb').
  unfold move_row, np_get. rewrite E2, E1, E1'. cbn [mbind result_bind].
  pose proof (np_assign_ok r' 0 (take n r)) as Ha. rewrite !Nat.add_0_l, length_take in Ha. replace (n `min` length r)%nat with n in Ha by lia.
  rewrite Ha by lia. cbn [mbind result_bind take app].
  destruct (bt_write t tgt (take n r ++ drop n r') n H Ht) as (H1 & H2 & H3); [rewrite length_app, length_take, length_drop; lia|lia|].
  eexists. split; [done|]. split; [done|]. split; [done|]. intros j. rewrite H3. case_decide; [|done]. f_equal.
  rewrite take_app_le by (rewrite length_take; lia). rewrite take_take. f_equal. lia.
Qed.

Lemma swap_at_ok {A} (l : list A) i j : (i < length l)%nat → (j < length l)%nat →
  ∃ l', swap_at l i j = Ok l' ∧ length l' = length l ∧ ∀ k, l' !! k = if decide (k = j) then l !! i else if decide (k = i) then l !! j else l !! k.
Proof.
  intros Hi Hj. destruct (lookup_lt_is_Some_2 l i Hi) as [x Hx], (lookup_lt_is_Some_2 l j Hj) as [y Hy].
  unfold swap_at, np_get. rewrite Hx, Hy. cbn [mbind result_bind]. eexists. split; [done|]. split; [by rewrite !length_insert|].
  intros k. case_decide; [subst; by rewrite list_lookup_insert_eq by (rewrite length_insert; lia)|].
  rewrite list_lookup_insert_ne by done. case_decide; [subst; by rewrite list_lookup_insert_eq|]. by rewrite list_lookup_insert_ne.
Qed.

Lemma swap_row_ok t i j : bt_ok R t → (i < R)%nat → (j < R)%nat →
  ∃ t', swap_row t i j = Ok t' ∧ bt_ok R t' ∧ same_shape_bt t t' ∧
    ∀ k, row_blocks t' k = if decide (k = j) then row_blocks t i else if decide (k = i) then row_blocks t j else row_blocks t k.
Proof.
  intros [Hr Hc Hw Hf] Hi Hj. unfold swap_row.
  destruct (swap_at_ok (num_blocks_per_row t) i j) as (cs & -> & Hlc & Hkc); [lia..|].
  destruct (swap_at_ok (bt_rows t) i j) as (rs & -> & Hlr & Hkr); [lia..|]. cbn [mbind result_bind].
  eexists. split; [done|]. split_and!; [split; cbn; [lia|lia| |]|done..|].
  - apply Forall_lookup. intros k x. rewrite Hkr. intros Hx. repeat case_decide; by apply (proj1 (Forall_lookup _ _) Hw) in Hx.
  - apply Forall_lookup. intros k x. rewrite Hkc. intros Hx. repeat case_decide; by apply (proj1 (Forall_lookup _ _) Hf) in Hx.
  - intros k. unfold row_blocks. cbn. rewrite Hkr, Hkc. by repeat case_decide.
Qed.
End table.

(** Appending blocks appends their kernel blocks. *)
Lemma kernel_ids_app t a b : kernel_ids t (a ++ b) = kernel_ids t a ++ kernel_ids t b.
Proof.
  unfold kernel_ids, map_to_kernel_blocks. destruct (use_hybrid_blocks t); [|done]. destruct (_ =? 1); [done|]. apply bind_app.
Qed.

(** ** The tables of all groups *)

Section groups.
Context (R : nat).
Implicit Types (ts : MultiGroupBlockTable).

(** Row [i] of every table; the kernel blocks of a request in every table. *)
Definition mg_rows ts (i : nat) : list (option (list Z)) := (λ t, row_blocks t i) <$> ts.
Definition mg_want ts (ids : list (list Z)) : list (option (list Z)) := zip_with (λ t b, Some (kernel_ids t b)) ts ids.

Definition mg_ok ts : Prop := Forall (bt_ok R) ts.
Definition mg_shape ts ts' : Prop := Forall2 same_shape_bt ts ts'.
Definition mg_fits ts (ids : list (list Z)) : Prop :=
  Forall2 (λ t b, row_fits t (bt_max_num_blocks_per_req t) b) ts ids.

Lemma mg_shape_refl ts : mg_shape ts ts.
Proof. unfold mg_shape. induction ts; by constructor. Qed.

Lemma mg_shape_trans ts1 ts2 ts3 : mg_shape ts1 ts2 → mg_shape ts2 ts3 → mg_shape ts1 ts3.
Proof.
  intros H1. revert ts3. induction H1 as [|t1 t2 ts1 ts2 H _ IH]; intros ts3 H2; inversion H2; subst; constructor; [|by apply IH].
  unfold same_shape_bt in *. congruence.
Qed.

Lemma mg_want_shape ts ts' ids : mg_shape ts ts' → mg_want ts' ids = mg_want ts ids.
Proof.
  unfold mg_want. intros H. revert ids. induction H as [|t t' ts ts' Ht _ IH]; intros [|b ids]; try done. cbn. rewrite IH. by rewrite (kernel_ids_conf t t').
Qed.

Lemma mg_fits_shape ts ts' ids : mg_shape ts ts' → mg_fits ts ids → mg_fits ts' ids.
Proof.
  intros H. revert ids. induction H as [|t t' ts ts' Ht _ IH]; intros ids Hf; inversion Hf; subst; constructor; [|by apply IH].
  unfold row_fits. rewrite (kernel_ids_conf t t') by done. unfold same_shape_bt, bt_conf in Ht. injection Ht as _ _ _ -> _ _ _ _ _ _ _ _. done.
Qed.

(** An operation on the rows of every table. *)
Lemma mg_map (f : BlockTable → result BlockTable) (g : (nat → option (list Z)) → nat → option (list Z)) ts :
  (∀ t, bt_ok R t → ∃ t', f t = Ok t' ∧ bt_ok R t' ∧ same_shape_bt t t' ∧ ∀ j, row_blocks t' j = g (row_blocks t) j) → mg_ok ts →
  ∃ ts', mmap f ts = Ok ts' ∧ mg_ok ts' ∧ mg_shape ts ts' ∧ ∀ j, mg_rows ts' j = (λ t, g (row_blocks t) j) <$> ts.
Proof.
  intros Hf. induction 1 as [|t ts Ht _ (ts' & E & Hok & Hsh & Hr)]; [by exists []; split_and!; [|constructor|constructor|]|].
  destruct (Hf t Ht) as (t' & E1 & H1 & H2 & H3). cbn [mmap]. rewrite E1, E. cbn. exists (t' :: ts').
  split_and!; [done|by constructor|by constructor|]. intros j. unfold mg_rows in *. cbn. by rewrite H3, Hr.
Qed.

Lemma mg_clear_row_ok ts i : mg_ok ts → (i < R)%nat →
  ∃ ts', mg_clear_row ts i = Ok ts' ∧ mg_ok ts' ∧ mg_shape ts ts' ∧ ∀ j, j ≠ i → mg_rows ts' j = mg_rows ts j.
Proof.
  intros Hok Hi. destruct (mg_map (λ t, clear_row t i) (λ rb j, if decide (j = i) then Some [] else rb j) ts) as (ts' & E & H1 & H2 & H3).
  { intros t Ht. by apply clear_row_ok. }
  { done. }
  exists ts'. split_and!; [done|done|done|]. intros j Hj. rewrite H3. apply list_fmap_ext. intros. by rewrite decide_False.
Qed.

Lemma mg_move_row_ok ts src tgt : mg_ok ts → (src < R)%nat → (tgt < R)%nat →
  ∃ ts', mg_move_row ts src tgt = Ok ts' ∧ mg_ok ts' ∧ mg_shape ts ts' ∧
    ∀ j, mg_rows ts' j = if decide (j = tgt) then mg_rows ts src else mg_rows ts j.
Proof.
  intros Hok Hs Ht. destruct (mg_map (λ t, move_row t src tgt) (λ rb j, if decide (j = tgt) then rb src else rb j) ts) as (ts' & E & H1 & H2 & H3).
  { intros t Hb. destruct (bt_lookup R t src Hb Hs) as (r & n & _ & _ & _ & _ & Er).
    destruct (move_row_ok R t src tgt (take n r) Hb Hs Ht Er) as (t' & ? & ? & ? & Hk). exists t'. split_and!; [done..|].
    intros j. rewrite Hk. case_decide; [done|]. done. }
  { done. }
  exists ts'. split_and!; [done|done|done|]. intros j. rewrite H3. by case_decide.
Qed.

Lemma mg_swap_row_ok ts i j : mg_ok ts → (i < R)%nat → (j < R)%nat →
  ∃ ts', mg_swap_row ts i j = Ok ts' ∧ mg_ok ts' ∧ mg_shape ts ts' ∧
    ∀ k, mg_rows ts' k = if decide (k = j) then mg_rows ts i else if decide (k = i) then mg_rows ts j else mg_rows ts k.
Proof.
  intros Hok Hi Hj. destruct (mg_map (λ t, swap_row t i j)
    (λ rb k, if decide (k = j) then rb i else if decide (k = i) then rb j else rb k) ts) as (ts' & E & H1 & H2 & H3).
  { intros t Ht. by apply swap_row_ok. }
  { done. }
  exists ts'. split_and!; [done|done|done|]. intros k. rewrite H3. by repeat case_decide.
Qed.

(** An operation that puts the blocks of a request into row [i] of every table. *)
Lemma mg_add_row_ok ts ids i : mg_ok ts → (i < R)%nat → mg_fits ts ids →
  ∃ ts', mg_add_row ts ids i = Ok ts' ∧ mg_ok ts' ∧ mg_shape ts ts' ∧
    ∀ j, mg_rows ts' j = if decide (j = i) then mg_want ts ids else mg_rows ts j.
Proof.
  intros Hok Hi Hf. unfold mg_add_row. induction Hf as [|t b ts ids Hb _ IH]; [by exists []; split_and!; [|constructor|constructor|intros j; case_decide]|].
  apply Forall_cons in Hok as [Ht Hok]. destruct (IH Hok) as (ts' & E & H1 & H2 & H3).
  destruct (add_row_ok R t b i Ht Hi Hb) as (t' & E' & H1' & H2' & H3'). cbn [each_group]. rewrite E', E. cbn.
  exists (t' :: ts'). split_and!; [done|by constructor|by constructor|]. intros j. unfold mg_rows, mg_want in *. cbn. rewrite H3', H3. by case_decide.
Qed.

Lemma mg_append_row_ok ts ids new i : mg_ok ts → (i < R)%nat → mg_rows ts i = mg_want ts ids → length ids = length ts →
  mg_fits ts (zip_with app ids new) → length new = length ts →
  ∃ ts', mg_append_row ts new i = Ok ts' ∧ mg_ok ts' ∧ mg_shape ts ts' ∧
    ∀ j, mg_rows ts' j = if decide (j = i) then mg_want ts (zip_with app ids new) else mg_rows ts j.
Proof.
  intros Hok Hi Hr Hl Hf Hl'. unfold mg_append_row. revert ids new Hr Hl Hf Hl'.
  induction Hok as [|t ts Ht Hok IH]; intros [|b ids] [|c new] Hr Hl Hf Hl'; try done.
  { exists []; split_and!; [done|constructor|constructor|intros j; by case_decide]. }
  unfold mg_rows, mg_want in *. cbn in Hr. injection Hr as Hr0 Hr. apply Forall2_cons in Hf as [Hfb Hf].
  destruct (IH ids new Hr (eq_add_S _ _ Hl) Hf (eq_add_S _ _ Hl')) as (ts' & E & H1 & H2 & H3).
  unfold row_fits in Hfb. rewrite kernel_ids_app, length_app, Forall_app in Hfb. destruct Hfb as [Hfb [_ Hf32]].
  destruct (append_row_ok R t c i _ Ht Hr0 Hi) as (t' & E' & H1' & H2' & H3'); [split; [lia|done]|].
  cbn [each_group]. rewrite E', E. cbn. exists (t' :: ts'). split_and!; [done|by constructor|by constructor|].
  intros j. cbn. rewrite H3', H3. case_decide; [|done]. f_equal. f_equal. by rewrite kernel_ids_app.
Qed.
End groups.
