(* ===== verification/SlotMapping.v ===== *)
(** * Slots of the tokens of a step
    The slot-mapping kernel writes, for every token, the slot its position has in the
    blocks of its request, and the padding value elsewhere; the slots of different
    positions are different, and splitting blocks for the attention kernels does
    not move them, when the runs of tokens a rank takes divide the blocks. *)

From S2P Require Import Prelude MathUtils Rejection BlockTable BlockTableFacts.

#[local] Open Scope Z_scope.

(** ** Loops that store *)

Lemma py_range_snoc a (n : nat) : py_range a (a + Z.of_nat (S n)) = py_range a (a + Z.of_nat n) ++ [a + Z.of_nat n].
Proof.
  unfold py_range. replace (Z.to_nat (a + Z.of_nat (S n) - a)) with (S n) by lia. replace (Z.to_nat (a + Z.of_nat n - a)) with n by lia.
  by rewrite seq_S, fmap_app.
Qed.

(** Storing over a range, from a body that stores [val] at each offset. *)
Lemma store_range (f : list Z → Z → result (list Z)) (val : Z → Z) a (n : nat) slots :
  (∀ slots o, a ≤ o < a + Z.of_nat n → f slots o = tl_store slots o (val o)) → 0 ≤ a → a + Z.of_nat n ≤ zlen slots →
  ∃ slots', mfold f slots (py_range a (a + Z.of_nat n)) = Ok slots' ∧ length slots' = length slots ∧
    ∀ k : nat, slots' !! k = if decide (a ≤ Z.of_nat k < a + Z.of_nat n) then Some (val (Z.of_nat k)) else slots !! k.
Proof.
  intros Hf Ha Hl. unfold zlen in Hl. induction n as [|n IH].
  - rewrite py_range_nil by lia. exists slots. split_and!; [done|done|]. intros k. by rewrite decide_False by lia.
  - destruct IH as (s1 & E & Hl1 & Hk); [intros; apply Hf; lia|lia|]. rewrite py_range_snoc, mfold_app, E. cbn [mbind result_bind mfold].
    rewrite Hf by lia. unfold tl_store, zlen. rewrite (proj2 (Z.leb_le _ _)), (proj2 (Z.ltb_lt _ _)) by lia. cbn [andb mbind result_bind].
    eexists. split; [done|]. split; [by rewrite length_insert|]. intros k. destruct (decide (k = Z.to_nat (a + Z.of_nat n))) as [->|Hne].
    + rewrite list_lookup_insert_eq by lia. rewrite decide_True by lia. by rewrite Z2Nat.id by lia.
    + rewrite list_lookup_insert_ne by done. rewrite Hk. destruct (decide _), (decide _); done || lia.
Qed.

Lemma skip_range {S} (f : S → Z → result S) s l : (∀ s o, o ∈ l → f s o = Ok s) → mfold f s l = Ok s.
Proof.
  induction l as [|o l IH]; intros H; [done|]. cbn. rewrite H by left. cbn. apply IH. intros. apply H. by right.
Qed.

(** Rounds of [B] lanes run through consecutive offsets. *)
Lemma mfold_rounds {S} (f : S → Z → result S) a B (n : nat) s : 0 < B →
  mfold (λ s i, mfold f s (py_range i (i + B))) s ((λ k, a + k * B) <$> py_range 0 (Z.of_nat n)) =
  mfold f s (py_range a (a + Z.of_nat n * B)).
Proof.
  intros HB. revert s. induction n as [|n IH]; intros s.
  { rewrite (py_range_nil 0), (py_range_nil a) by lia. done. }
  pose proof (py_range_snoc 0 n) as E. rewrite !Z.add_0_l in E. rewrite E, fmap_app, mfold_app, IH.
  rewrite (py_range_app a (a + Z.of_nat n * B) (a + Z.of_nat (Datatypes.S n) * B)) by lia. rewrite mfold_app. destruct (mfold f s _) as [s'|e]; [|done]. cbn.
  replace (a + Z.of_nat (Datatypes.S n) * B) with (a + Z.of_nat n * B + B) by lia.
  by destruct (mfold f s' _).
Qed.

(** A grid of rounds whose lanes store below [e] and do nothing from there on. *)
Lemma rounds_store (f : list Z → Z → result (list Z)) (val : Z → Z) a e B slots : 0 < B → 0 ≤ a → a ≤ e → e ≤ zlen slots →
  (∀ slots o, a ≤ o < e → f slots o = tl_store slots o (val o)) → (∀ slots o, e ≤ o → f slots o = Ok slots) →
  ∃ slots', mfold (λ s i, mfold f s (py_range i (i + B))) slots (py_range_step a e B) = Ok slots' ∧ length slots' = length slots ∧
    ∀ k : nat, slots' !! k = if decide (a ≤ Z.of_nat k < e) then Some (val (Z.of_nat k)) else slots !! k.
Proof.
  intros HB Ha He Hl Hin Hout. pose proof (cdiv_bounds (e - a) B HB) as Hc.
  assert (Hn : 0 ≤ cdiv (e - a) B) by nia. unfold py_range_step. replace (cdiv (e - a) B) with (Z.of_nat (Z.to_nat (cdiv (e - a) B))) in * by lia.
  set (n := Z.to_nat (cdiv (e - a) B)) in *. clearbody n. rewrite mfold_rounds by done.
  rewrite (py_range_app a e) by nia. rewrite mfold_app.
  destruct (store_range f val a (Z.to_nat (e - a)) slots) as (s' & E & Hls & Hk); [intros; apply Hin; lia|done|lia|].
  replace (a + Z.of_nat (Z.to_nat (e - a))) with e in * by lia. exists s'. rewrite E. cbn [mbind result_bind]. split; [|done].
  apply skip_range. intros s o [? _]%elem_of_py_range. by apply Hout.
Qed.

(** ** The slot of a position *)

(** Slot of position [pos] of a request with these blocks, on one rank out of [world]
    that take turns at the positions in runs of [interleave]. *)
Definition slot_id (bs world rank interleave : Z) (blocks : list Z) (pos : Z) : Z :=
  let v := pos mod (bs * world) in
  if (v / interleave) mod world =? rank then
    blocks !!! Z.to_nat (pos / (bs * world)) * bs + (v / (world * interleave) * interleave + v mod interleave)
  else PAD_SLOT_ID.

Section slots.
Context (bs world rank interleave : Z).
Context (Hbs : 0 < bs) (Hworld : 0 < world) (Hint : 0 < interleave).

Lemma slot_lane_ok positions table (row : list Z) (i : nat) off end_idx slots :
  (∀ k, (k < length row)%nat → table !! (i * length row + k)%nat = row !! k) → row ≠ [] →
  0 ≤ off → (off < end_idx → ∃ pos, positions !! Z.to_nat off = Some pos ∧ 0 ≤ pos ∧ pos / (bs * world) < zlen row) →
  slot_lane positions table (Z.of_nat i * zlen row) bs world rank interleave end_idx slots off =
  if off <? end_idx then tl_store slots off (slot_id bs world rank interleave row (positions !!! Z.to_nat off)) else Ok slots.
Proof.
  intros Htab Hrow Ho Hpos. unfold slot_lane, masked_load, zlen in *.
  assert (Hload : ∀ q, 0 ≤ q < Z.of_nat (length row) → tl_load table (Z.of_nat i * Z.of_nat (length row) + q) = Ok (row !!! Z.to_nat q)).
  { intros q Hq. unfold tl_load, py_index. rewrite (proj2 (Z.ltb_ge _ _)) by lia.
    replace (Z.to_nat (Z.of_nat i * Z.of_nat (length row) + q)) with (i * length row + Z.to_nat q)%nat by lia.
    rewrite Htab by lia. by rewrite list_lookup_lookup_total_lt by lia. }
  assert (Hlen : (0 < length row)%nat) by (destruct row; [done|cbn; lia]).
  destruct (off <? end_idx) eqn:Eo.
  - apply Z.ltb_lt in Eo. destruct (Hpos Eo) as (pos & Ep & Hp0 & Hp1). 
    assert (El : tl_load positions off = Ok pos) by (unfold tl_load, py_index; rewrite (proj2 (Z.ltb_ge _ _)), Ep by lia; done).
    rewrite El. cbn [mbind result_bind]. rewrite (list_lookup_total_correct _ _ _ Ep).
    assert (Hv : 0 < bs * world) by nia. assert (Hw : 0 < world * interleave) by nia.
    rewrite (Z.quot_div_nonneg pos (bs * world)) by lia. rewrite Hload by (pose proof (Z.div_pos pos (bs * world)); lia). cbn [mbind result_bind].
    unfold slot_id. replace (pos - pos / (bs * world) * (bs * world)) with (pos mod (bs * world)) by (rewrite Z.mod_eq; lia).
    pose proof (Z.mod_pos_bound pos (bs * world) Hv) as Hm. set (v := pos mod (bs * world)) in *.
    rewrite (Z.quot_div_nonneg v interleave), (Z.quot_div_nonneg v (world * interleave)) by lia.
    rewrite (Z.rem_mod_nonneg v interleave) by lia. rewrite Z.rem_mod_nonneg by (try lia; apply Z.div_pos; lia). done.
  - cbn [mbind result_bind]. rewrite Z.quot_0_l by nia. rewrite Hload by lia. done.
Qed.
End slots.

(** ** The whole grid *)

Lemma mjoin_lookup {A} (m : list (list A)) (S i k : nat) r : Forall (λ r, length r = S) m → m !! i = Some r → (k < S)%nat →
  mjoin m !! (i * S + k)%nat = r !! k.
Proof.
  intros Hm. revert i. induction Hm as [|x m Hx _ IH]; intros i Hi Hk; [done|]. change (mjoin (x :: m)) with (x ++ mjoin m).
  destruct i as [|i]; cbn in Hi.
  - injection Hi as ->. rewrite lookup_app_l by lia. done.
  - rewrite lookup_app_r by lia. rewrite <-(IH i) by done. f_equal. lia.
Qed.

(** Cumulative token counts, as [query_start_loc] holds them. *)
Definition query_start_loc_of (ns : list nat) : list Z := (λ i, Z.of_nat (offset_of ns i)) <$> seq 0 (length ns + 1).

Lemma qsl_load ns (i : nat) : (i ≤ length ns)%nat → tl_load (query_start_loc_of ns) (Z.of_nat i) = Ok (Z.of_nat (offset_of ns i)).
Proof.
  intros Hi. unfold tl_load, py_index, query_start_loc_of. rewrite (proj2 (Z.ltb_ge _ _)) by lia. rewrite Nat2Z.id.
  rewrite list_lookup_fmap, lookup_seq_lt by lia. done.
Qed.

(** A step for which slots can be computed: the tokens fit the buffer, and every
    position lies in the table of its request. *)
Record step_ok (t : BlockTable) (ns : list nat) (positions : list Z) : Prop := mkStepOk {
  so_bs : 0 < bt_block_size t;
  so_world : 0 < pcp_world_size t * dcp_world_size t;
  so_interleave : 0 < cp_kv_cache_interleave_size t;
  so_rows : (length ns ≤ length (bt_gpu t))%nat;
  so_width : Forall (λ r, length r = bt_max_num_blocks_per_req t) (bt_gpu t);
  so_positions : length positions = sum_list ns;
  so_fit : (sum_list ns ≤ length (slot_mapping t))%nat;
  so_max : bt_max_num_batched_tokens t = zlen (slot_mapping t);
  so_in : Forall (λ p, 0 ≤ p ∧ p / (bt_block_size t * (pcp_world_size t * dcp_world_size t)) < Z.of_nat (bt_max_num_blocks_per_req t)) positions;
}.

(** The slot the table gives to a position of the request at index [i]. *)
Definition slot_at (t : BlockTable) (i : nat) (pos : Z) : Z :=
  slot_id (bt_block_size t) (pcp_world_size t * dcp_world_size t) (pcp_rank t * dcp_world_size t + dcp_rank t)
    (cp_kv_cache_interleave_size t) (bt_gpu t !!! i) pos.

Section grid.
Context (t : BlockTable) (ns : list nat) (positions : list Z) (B : Z) (Hok : step_ok t ns positions) (HB : 0 < B).

#[local] Notation program := (_compute_slot_mapping_kernel (zlen positions) (bt_max_num_batched_tokens t) (query_start_loc_of ns) positions
  (mjoin (bt_gpu t)) (zlen (default [] (head (bt_gpu t)))) (bt_block_size t) (pcp_world_size t * dcp_world_size t)
  (pcp_rank t * dcp_world_size t + dcp_rank t) (cp_kv_cache_interleave_size t) B (zlen ns + 1)).

Lemma program_ok slots i n : length slots = length (slot_mapping t) → ns !! i = Some n →
  ∃ slots', program slots (Z.of_nat i) = Ok slots' ∧ length slots' = length slots ∧
    ∀ k : nat, slots' !! k = if decide (offset_of ns i ≤ k < offset_of ns i + n)%nat then Some (slot_at t i (positions !!! k)) else slots !! k.
Proof.
  intros Hl Hn. destruct Hok as [Hbs Hw Hint Hrows Hwidth Hpl Hfit Hmax Hin]. pose proof (lookup_lt_Some _ _ _ Hn) as Hi.
  pose proof (offset_of_total ns i n Hn) as Htot. pose proof (offset_of_S ns i n Hn) as HS.
  destruct (lookup_lt_is_Some_2 (bt_gpu t) i) as [row Hrow]; [lia|].
  pose proof (proj1 (Forall_lookup _ _) Hwidth i row Hrow) as Hrl. cbv beta in Hrl.
  assert (Hstride : zlen (default [] (head (bt_gpu t))) = zlen row).
  { destruct (bt_gpu t) as [|r0 rs]; [done|]. apply Forall_cons in Hwidth as [Hr0 _]. cbn. unfold zlen. by rewrite Hr0, Hrl. }
  unfold _compute_slot_mapping_kernel. rewrite (proj2 (Z.eqb_neq _ _)) by (unfold zlen; lia). rewrite qsl_load by lia. cbn [mbind result_bind].
  replace (Z.of_nat i + 1) with (Z.of_nat (S i)) by lia. rewrite qsl_load by lia. cbn [mbind result_bind]. rewrite HS, Hstride.
  assert (Hlane : (0 < n)%nat → ∀ slots o, Z.of_nat (offset_of ns i) ≤ o →
    slot_lane positions (mjoin (bt_gpu t)) (Z.of_nat i * zlen row) (bt_block_size t) (pcp_world_size t * dcp_world_size t)
      (pcp_rank t * dcp_world_size t + dcp_rank t) (cp_kv_cache_interleave_size t) (Z.of_nat (offset_of ns i + n)) slots o =
    if o <? Z.of_nat (offset_of ns i + n) then tl_store slots o (slot_at t i (positions !!! Z.to_nat o)) else Ok slots).
  { intros Hn0 sl o Ho. assert (Hin' : ∀ o, (o < sum_list ns)%nat → ∃ p, positions !! o = Some p ∧ 0 ≤ p ∧
      p / (bt_block_size t * (pcp_world_size t * dcp_world_size t)) < zlen row).
    { intros o' Ho'. destruct (lookup_lt_is_Some_2 positions o') as [p Hp]; [lia|]. exists p. split; [done|]. unfold zlen. rewrite Hrl.
      by apply (proj1 (Forall_lookup _ _) Hin o' p Hp). }
    rewrite slot_lane_ok; [|done..|intros k Hk; rewrite Hrl in *; by apply mjoin_lookup| |lia|].
    - unfold slot_at. by rewrite (list_lookup_total_correct _ _ _ Hrow).
    - destruct row; [|done]. destruct (Hin' (offset_of ns i)) as (p & _ & Hp & Hb); [lia|]. change (zlen []) with 0 in Hb.
      pose proof (Z.div_pos p (bt_block_size t * (pcp_world_size t * dcp_world_size t))). nia.
    - intros Hlt. apply Hin'. lia. }
  destruct (decide (n = 0%nat)) as [->|Hn0].
  - rewrite Nat.add_0_r. unfold py_range_step. rewrite Z.sub_diag. change (cdiv 0 B) with (- (0 / - B)). rewrite Z.div_0_l by lia.
    exists slots. split; [done|]. split; [done|]. intros k. by rewrite decide_False by lia.
  - destruct (rounds_store (slot_lane positions (mjoin (bt_gpu t)) (Z.of_nat i * zlen row) (bt_block_size t) (pcp_world_size t * dcp_world_size t)
        (pcp_rank t * dcp_world_size t + dcp_rank t) (cp_kv_cache_interleave_size t) (Z.of_nat (offset_of ns i + n)))
      (λ o, slot_at t i (positions !!! Z.to_nat o)) (Z.of_nat (offset_of ns i)) (Z.of_nat (offset_of ns i + n)) B slots) as (s' & E & Hls & Hk).
    + done.
    + lia.
    + lia.
    + unfold zlen. lia.
    + intros sl o Ho. rewrite Hlane by lia. by rewrite (proj2 (Z.ltb_lt _ _)) by lia.
    + intros sl o Ho. rewrite Hlane by lia. by rewrite (proj2 (Z.ltb_ge _ _)) by lia.
    + exists s'. split; [exact E|]. split; [done|]. intros k. rewrite Hk, Nat2Z.id. destruct (decide _), (decide _); done || lia.
Qed.

Lemma pad_ok slots : length slots = length (slot_mapping t) →
  ∃ slots', program slots (zlen ns) = Ok slots' ∧ length slots' = length slots ∧
    ∀ k : nat, slots' !! k = if decide (sum_list ns ≤ k < length slots)%nat then Some PAD_SLOT_ID else slots !! k.
Proof.
  intros Hl. destruct Hok as [Hbs Hw Hint Hrows Hwidth Hpl Hfit Hmax Hin].
  unfold _compute_slot_mapping_kernel. rewrite (proj2 (Z.eqb_eq _ _)) by lia. rewrite Hmax. unfold zlen. rewrite Hpl.
  destruct (rounds_store (λ slots o, if o <? Z.of_nat (length (slot_mapping t)) then tl_store slots o PAD_SLOT_ID else Ok slots)
    (λ _, PAD_SLOT_ID) (Z.of_nat (sum_list ns)) (Z.of_nat (length (slot_mapping t))) B slots) as (s' & E & Hls & Hk).
  - done.
  - lia.
  - lia.
  - unfold zlen. lia.
  - intros sl o Ho. by rewrite (proj2 (Z.ltb_lt _ _)) by lia.
  - intros sl o Ho. by rewrite (proj2 (Z.ltb_ge _ _)) by lia.
  - exists s'. split; [exact E|]. split; [done|]. intros k. rewrite Hk. destruct (decide _), (decide _); done || lia.
Qed.

Lemma programs_ok (m : nat) slots : (m ≤ length ns)%nat → length slots = length (slot_mapping t) →
  ∃ slots', mfold program slots (py_range 0 (Z.of_nat m)) = Ok slots' ∧ length slots' = length slots ∧
    ∀ i n j, ns !! i = Some n → (i < m)%nat → (j < n)%nat →
      slots' !! (offset_of ns i + j)%nat = Some (slot_at t i (positions !!! (offset_of ns i + j)%nat)).
Proof.
  intros Hm Hl. induction m as [|m IH]; [exists slots; split_and!; [done|done|intros; lia]|].
  destruct IH as (s1 & E1 & Hl1 & Hk1); [lia|]. pose proof (py_range_snoc 0 m) as Er. rewrite !Z.add_0_l in Er.
  rewrite Er, mfold_app, E1. cbn [mbind result_bind mfold]. destruct (lookup_lt_is_Some_2 ns m) as [nm Hnm]; [lia|].
  destruct (program_ok s1 m nm) as (s2 & E2 & Hl2 & Hk2); [lia|done|]. rewrite E2. cbn [mbind result_bind].
  exists s2. split; [done|]. split; [lia|]. intros i n j Hi Him Hj. rewrite Hk2. case_decide as Hd.
  - destruct (offset_of_unique ns i m j (offset_of ns i + j - offset_of ns m) n nm) as [-> _]; [done|done|done|lia|lia|done].
  - apply (Hk1 i n j Hi); [|done]. destruct (decide (i = m)) as [->|]; [|lia]. rewrite Hnm in Hi. injection Hi as ->. lia.
Qed.

Lemma grid_ok : ∃ t', compute_slot_mapping t (zlen ns) (query_start_loc_of ns) positions B = Ok t' ∧
  (∀ i n j, ns !! i = Some n → (j < n)%nat →
    slot_mapping t' !! (offset_of ns i + j)%nat = Some (slot_at t i (positions !!! (offset_of ns i + j)%nat))) ∧
  (∀ k, (sum_list ns ≤ k < length (slot_mapping t))%nat → slot_mapping t' !! k = Some PAD_SLOT_ID).
Proof.
  unfold compute_slot_mapping. destruct (programs_ok (length ns) (slot_mapping t)) as (s1 & E1 & Hl1 & Hk1); [lia|done|].
  fold (zlen ns) in E1. pose proof (zlen_nonneg ns). rewrite (py_range_app 0 (zlen ns) (zlen ns + 1)) by lia. rewrite mfold_app.
  rewrite E1. cbn [mbind result_bind]. rewrite (py_range_cons (zlen ns)), (py_range_nil (zlen ns + 1)) by lia.
  cbn [mfold]. destruct (pad_ok s1) as (s2 & E2 & Hl2 & Hk2); [done|]. rewrite E2. cbn [mbind result_bind].
  eexists. split; [done|]. cbn. split.
  - intros i n j Hi Hj. rewrite Hk2. pose proof (offset_of_total ns i n Hi). rewrite decide_False by lia.
    apply (Hk1 i n j Hi); [by eapply lookup_lt_Some|done].
  - intros k Hk. rewrite Hk2. by rewrite decide_True by lia.
Qed.
End grid.

(** ** Slots of different positions *)

Section layout.
Context (bs world interleave : Z).
Context (Hbs : 0 < bs) (Hworld : 0 < world) (Hint : 0 < interleave) (Hdiv : (interleave | bs)).

(** Turn and offset of a position within its block. *)
Definition turn (pos : Z) : Z := (pos mod (bs * world) / interleave) mod world.
Definition local_offset (pos : Z) : Z :=
  pos mod (bs * world) / (world * interleave) * interleave + pos mod (bs * world) mod interleave.

Lemma turn_range pos : 0 ≤ turn pos < world.
Proof. apply Z.mod_pos_bound. lia. Qed.

Lemma local_range pos : 0 ≤ local_offset pos < bs.
Proof.
  unfold local_offset. destruct Hdiv as [m Hm]. assert (0 < m) by nia. assert (Hv : 0 < bs * world) by nia.
  pose proof (Z.mod_pos_bound pos (bs * world) Hv) as Hr. set (v := pos mod (bs * world)) in *.
  pose proof (Z.mod_pos_bound v interleave Hint). assert (0 < world * interleave) by nia.
  assert (0 ≤ v / (world * interleave)) by (apply Z.div_pos; lia).
  assert (v / (world * interleave) < m); [|nia]. apply Z.div_lt_upper_bound; nia.
Qed.

(** Turn and offset determine the place in the block. *)
Lemma place_unique pos pos' : turn pos = turn pos' → local_offset pos = local_offset pos' → pos mod (bs * world) = pos' mod (bs * world).
Proof.
  unfold turn, local_offset. set (v := pos mod (bs * world)). set (v' := pos' mod (bs * world)). intros Ht Hl.
  rewrite (Z.mul_comm world interleave), <-!Z.div_div in Hl by lia.
  pose proof (Z.div_mod v interleave ltac:(lia)). pose proof (Z.div_mod v' interleave ltac:(lia)).
  pose proof (Z.div_mod (v / interleave) world ltac:(lia)). pose proof (Z.div_mod (v' / interleave) world ltac:(lia)).
  pose proof (Z.mod_pos_bound v interleave Hint). pose proof (Z.mod_pos_bound v' interleave Hint).
  assert (v / interleave / world = v' / interleave / world) by nia.
  assert (v mod interleave = v' mod interleave) by nia. nia.
Qed.

Lemma slot_id_local rank blocks pos : slot_id bs world rank interleave blocks pos =
  if turn pos =? rank then blocks !!! Z.to_nat (pos / (bs * world)) * bs + local_offset pos else PAD_SLOT_ID.
Proof. done. Qed.
End layout.

(** C20: The kernel gives every token of a step the slot of its position in the blocks of
    its request, and pads the rest of the buffer, whatever the number of lanes. *)
Theorem slot_mapping_exact t ns positions B : step_ok t ns positions → 0 < B →
  ∃ t', compute_slot_mapping t (zlen ns) (query_start_loc_of ns) positions B = Ok t' ∧
    (∀ i n j, ns !! i = Some n → (j < n)%nat →
      slot_mapping t' !! (offset_of ns i + j)%nat = Some (slot_at t i (positions !!! (offset_of ns i + j)%nat))) ∧
    (∀ k, (sum_list ns ≤ k < length (slot_mapping t))%nat → slot_mapping t' !! k = Some PAD_SLOT_ID).
Proof. intros. by apply grid_ok. Qed.

(** Every position has a slot on the rank whose turn it is, and on no other; no other
    position has the same slot there. *)
Lemma slots_distinct bs world interleave blocks pos pos' :
  0 < bs → 0 < world → 0 < interleave → (interleave | bs) → NoDup blocks → Forall (λ b, 0 ≤ b) blocks →
  0 ≤ pos → 0 ≤ pos' → pos / (bs * world) < zlen blocks → pos' / (bs * world) < zlen blocks →
  let rank := turn bs world interleave pos in
  (∀ r, 0 ≤ r < world → slot_id bs world r interleave blocks pos ≠ PAD_SLOT_ID ↔ r = rank) ∧
  (slot_id bs world rank interleave blocks pos = slot_id bs world rank interleave blocks pos' → pos = pos').
Proof.
  intros Hbs Hw Hi Hd Hnd Hnn Hp Hp' Hlt Hlt' rank. unfold rank. clear rank.
  assert (Hb : ∀ p, 0 ≤ p → p / (bs * world) < zlen blocks → blocks !! Z.to_nat (p / (bs * world)) = Some (blocks !!! Z.to_nat (p / (bs * world))) ∧
    0 ≤ blocks !!! Z.to_nat (p / (bs * world))).
  { intros p Hp0 Hl. unfold zlen in Hl. pose proof (Z.div_pos p (bs * world)). assert (E := list_lookup_lookup_total_lt blocks (Z.to_nat (p / (bs * world)))).
    rewrite E by nia. split; [done|]. by apply (proj1 (Forall_lookup _ _) Hnn _ _ (E ltac:(nia))). }
  destruct (Hb pos Hp Hlt) as [E1 H1], (Hb pos' Hp' Hlt') as [E2 H2].
  pose proof (local_range bs world interleave Hbs Hw Hi Hd pos) as L1. pose proof (local_range bs world interleave Hbs Hw Hi Hd pos') as L2.
  rewrite !slot_id_local, Z.eqb_refl. split.
  - intros r Hr. rewrite slot_id_local. destruct (_ =? r) eqn:Er; [apply Z.eqb_eq in Er|apply Z.eqb_neq in Er]; unfold PAD_SLOT_ID.
    + split; [done|]. intros _. nia.
    + split; [done|]. congruence.
  - destruct (_ =? turn bs world interleave pos) eqn:Et; [apply Z.eqb_eq in Et|intros E; unfold PAD_SLOT_ID in E; nia]. intros E.
    assert (Eb : blocks !!! Z.to_nat (pos / (bs * world)) = blocks !!! Z.to_nat (pos' / (bs * world))) by nia.
    assert (El : local_offset bs world interleave pos = local_offset bs world interleave pos') by nia.
    rewrite Eb in E1. pose proof (NoDup_lookup _ _ _ _ Hnd E1 E2) as En.
    pose proof (place_unique bs world interleave Hw Hi pos pos' (eq_sym Et) El) as Ev.
    pose proof (Z.div_pos pos (bs * world)). pose proof (Z.div_pos pos' (bs * world)).
    rewrite (Z.div_mod pos (bs * world)), (Z.div_mod pos' (bs * world)) by nia. rewrite Ev. f_equal. f_equal. lia.
Qed.

(** *** Ranks *)

(** The table of another rank. *)
Definition set_rank (t : BlockTable) (pcp dcp : Z) : BlockTable :=
  mkBlockTable (bt_block_size t) (blocks_per_kv_block t) (use_hybrid_blocks t) (bt_max_num_batched_tokens t) (bt_max_num_blocks_per_req t) (bt_rows t)
    (num_blocks_per_row t) (bt_gpu t) (slot_mapping t) (pcp_world_size t) pcp (dcp_world_size t) dcp (cp_kv_cache_interleave_size t).

Lemma set_rank_ok t ns positions pcp dcp : step_ok t ns positions → step_ok (set_rank t pcp dcp) ns positions.
Proof. by intros []. Qed.

Lemma slot_id_take bs world rank interleave blocks m pos : 0 < bs * world → 0 ≤ pos → pos / (bs * world) < zlen (take m blocks) →
  slot_id bs world rank interleave blocks pos = slot_id bs world rank interleave (take m blocks) pos.
Proof.
  intros Hb Hp Hlt. unfold slot_id. destruct (_ =? rank); [|done]. f_equal. f_equal. unfold zlen in Hlt. rewrite length_take in Hlt.
  pose proof (Z.div_pos pos (bs * world) Hp Hb). by rewrite lookup_total_take, decide_True by lia.
Qed.

(** Which prefill rank and which decode rank. *)
Lemma rank_split world pcp dcp r : world = pcp * dcp → 0 < dcp → 0 ≤ r < world →
  (0 ≤ r / dcp < pcp ∧ 0 ≤ r mod dcp < dcp) ∧
  ∀ p d, 0 ≤ d < dcp → p * dcp + d = r ↔ p = r / dcp ∧ d = r mod dcp.
Proof.
  intros -> Hd Hr. split; [split|].
  - split; [apply Z.div_pos; lia|apply Z.div_lt_upper_bound; lia].
  - apply Z.mod_pos_bound. lia.
  - intros p d Hdr. split.
    + intros <-. rewrite Z.div_add_l, Z.div_small by lia. split; [lia|]. by rewrite Z.add_comm, Z.mod_add, Z.mod_small by lia.
    + intros [-> ->]. rewrite Z.mul_comm. symmetry. apply Z.div_mod. lia.
Qed.

(** C21: With the context of a request split among ranks, the kernels of all ranks together
    give every token exactly one slot: one rank stores it, all the others skip it, and
    on the rank that stores it no token at another position of the request has the
    same slot.  The blocks of the request must be distinct, and the runs of tokens
    the ranks take in turn must divide the block of the attention kernels. *)
Theorem context_slots_distinct t ns positions B i n m :
  step_ok t ns positions → 0 < B → 0 < pcp_world_size t → 0 < dcp_world_size t → (cp_kv_cache_interleave_size t | bt_block_size t) →
  ns !! i = Some n → NoDup (take m (bt_gpu t !!! i)) → Forall (λ b, 0 ≤ b) (take m (bt_gpu t !!! i)) →
  (∀ j, (j < n)%nat → positions !!! (offset_of ns i + j)%nat / (bt_block_size t * (pcp_world_size t * dcp_world_size t)) < zlen (take m (bt_gpu t !!! i))) →
  ∀ j, (j < n)%nat → ∃ pcp dcp, (0 ≤ pcp < pcp_world_size t ∧ 0 ≤ dcp < dcp_world_size t) ∧
    ∀ pcp' dcp', 0 ≤ pcp' < pcp_world_size t → 0 ≤ dcp' < dcp_world_size t →
      ∃ t', compute_slot_mapping (set_rank t pcp' dcp') (zlen ns) (query_start_loc_of ns) positions B = Ok t' ∧
        (slot_mapping t' !! (offset_of ns i + j)%nat ≠ Some PAD_SLOT_ID ↔ pcp' = pcp ∧ dcp' = dcp) ∧
        (∀ j', (j' < n)%nat → pcp' = pcp → dcp' = dcp → slot_mapping t' !! (offset_of ns i + j)%nat = slot_mapping t' !! (offset_of ns i + j')%nat →
          positions !!! (offset_of ns i + j)%nat = positions !!! (offset_of ns i + j')%nat).
Proof.
  intros Hok HB Hpcp Hdcp Hdiv Hn Hnd Hnn Hin j Hj. pose proof Hok as [Hbs Hw Hint _ _ Hpl _ _ Hpos]. set (blocks := bt_gpu t !!! i) in *.
  set (bs := bt_block_size t) in *. set (world := pcp_world_size t * dcp_world_size t) in *. set (il := cp_kv_cache_interleave_size t) in *.
  set (pos := λ j, positions !!! (offset_of ns i + j)%nat) in *.
  assert (Hp0 : ∀ j, (j < n)%nat → 0 ≤ pos j).
  { intros k Hk. pose proof (offset_of_total ns i n Hn). refine (proj1 (proj1 (Forall_lookup _ _) Hpos (offset_of ns i + k)%nat (pos k) _)).
    apply list_lookup_lookup_total_lt. lia. }
  destruct (rank_split world (pcp_world_size t) (dcp_world_size t) (turn bs world il (pos j))) as [Hr Hsplit]; [done|done|by apply turn_range|].
  exists (turn bs world il (pos j) / dcp_world_size t), (turn bs world il (pos j) mod dcp_world_size t). split; [done|]. intros pcp' dcp' Hp' Hd'.
  destruct (grid_ok (set_rank t pcp' dcp') ns positions B (set_rank_ok _ _ _ _ _ Hok) HB) as (t' & E & Hsl & _). exists t'. split; [done|].
  assert (Hslot : ∀ j, (j < n)%nat → slot_mapping t' !! (offset_of ns i + j)%nat = Some (slot_id bs world (pcp' * dcp_world_size t + dcp') il (take m blocks) (pos j))).
  { intros k Hk. rewrite (Hsl i n k Hn Hk). f_equal. apply slot_id_take; [unfold bs; nia|by apply Hp0|by apply Hin]. }
  assert (Hrange : 0 ≤ pcp' * dcp_world_size t + dcp' < world) by (unfold world; nia). rewrite Hslot by done. split.
  - destruct (slots_distinct bs world il (take m blocks) (pos j) (pos j)) as [H1 _]; try done; [by apply Hp0|by apply Hp0|by apply Hin|by apply Hin|].
    rewrite <-Hsplit by done. rewrite <-(H1 _ Hrange). split; congruence.
  - intros j' Hj' -> ->. rewrite Hslot by done. intros [= E']. apply (slots_distinct bs world il (take m blocks) (pos j) (pos j')); try done; try (by apply Hp0); try (by apply Hin).
    by rewrite (proj2 (Hsplit _ _ (proj2 Hr)) (conj eq_refl eq_refl)) in E'.
Qed.

(** ** Splitting blocks for the attention kernels *)

Lemma bind_mjoin {A B} (f : A → list B) l : l ≫= f = mjoin (f <$> l).
Proof. induction l as [|x l IH]; [done|]. rewrite bind_cons, fmap_cons, IH. done. Qed.

(** The [k]-th kernel block of the [i]-th block. *)
Lemma kernel_ids_lookup t ids (i k : nat) b : 1 ≤ blocks_per_kv_block t → (use_hybrid_blocks t = false → blocks_per_kv_block t = 1) →
  ids !! i = Some b → Z.of_nat k < blocks_per_kv_block t →
  kernel_ids t ids !! (i * Z.to_nat (blocks_per_kv_block t) + k)%nat = Some (b * blocks_per_kv_block t + Z.of_nat k).
Proof.
  intros Hp Hh Hi Hk. unfold kernel_ids, map_to_kernel_blocks.
  assert (Hone : blocks_per_kv_block t = 1 → ids !! (i * Z.to_nat (blocks_per_kv_block t) + k)%nat = Some (b * blocks_per_kv_block t + Z.of_nat k)).
  { intros E. rewrite E in *. assert (k = 0%nat) as -> by lia. change (Z.to_nat 1) with 1%nat. rewrite Nat.mul_1_r, Nat.add_0_r, Hi. f_equal. lia. }
  destruct (use_hybrid_blocks t); [|by auto]. destruct (_ =? 1) eqn:E1; [apply Z.eqb_eq in E1; by auto|].
  rewrite bind_mjoin. set (per := blocks_per_kv_block t) in *.
  rewrite (mjoin_lookup _ (Z.to_nat per) i k ((λ k, b * per + k) <$> py_range 0 per)); [| | |lia].
  - unfold py_range. rewrite <-list_fmap_compose, list_lookup_fmap, lookup_seq_lt by lia. done.
  - apply Forall_fmap, Forall_true. intros x. cbn. rewrite length_fmap. unfold py_range. rewrite length_fmap, length_seq. lia.
  - by rewrite list_lookup_fmap, Hi.
Qed.

(** On one rank the runs do not matter. *)
Lemma slot_id_alone bs rank il blocks pos : 0 < bs → 0 < il →
  slot_id bs 1 rank il blocks pos = if 0 =? rank then blocks !!! Z.to_nat (pos / bs) * bs + pos mod bs else PAD_SLOT_ID.
Proof.
  intros Hbs Hil. unfold slot_id. rewrite Z.mod_1_r, !Z.mul_1_r, Z.mul_1_l. destruct (0 =? rank); [|done]. do 2 f_equal.
  rewrite Z.mul_comm. symmetry. apply Z.div_mod. lia.
Qed.

(** Place of a position in a block made of [per] blocks of [kbs] tokens per rank. *)
Lemma split_place kbs per world il pos : 0 < kbs → 1 ≤ per → 0 < world → 0 < il → (il | kbs) →
  let q := (pos / (kbs * world)) mod per in
  turn (kbs * per) world il pos = turn kbs world il pos ∧
  local_offset (kbs * per) world il pos = q * kbs + local_offset kbs world il pos.
Proof.
  intros Hk Hp Hw Hi [m ->] q. assert (0 < m) by nia. unfold turn, local_offset.
  assert (E : pos mod (m * il * per * world) = pos mod (m * il * world) + q * m * world * il).
  { replace (m * il * per * world) with (m * il * world * per) by lia. rewrite Z.rem_mul_r by nia. unfold q. lia. }
  rewrite E. set (v := pos mod (m * il * world)). clearbody v. clear E. rewrite Z.div_add, !Z.mod_add by lia.
  replace (v + q * m * world * il) with (v + q * m * (world * il)) by lia. rewrite !Z.div_add by nia.
  split; [done|lia].
Qed.

(** Splitting blocks keeps the slots on every rank. *)
Lemma slot_id_split kbs per world rank il ids kids pos :
  0 < kbs → 1 ≤ per → 0 < world → 0 < il → world = 1 ∨ (il | kbs) → 0 ≤ pos → pos / (kbs * per * world) < zlen ids →
  (∀ (i k : nat) b, ids !! i = Some b → Z.of_nat k < per → kids !! (i * Z.to_nat per + k)%nat = Some (b * per + Z.of_nat k)) →
  slot_id kbs world rank il kids pos = slot_id (kbs * per) world rank il ids pos.
Proof.
  intros Hk Hp Hw Hi Hd Hpos Hlt Hkids. assert (slot_id kbs world rank il kids pos = slot_id kbs world rank (if decide (world = 1) then 1 else il) kids pos ∧
    slot_id (kbs * per) world rank il ids pos = slot_id (kbs * per) world rank (if decide (world = 1) then 1 else il) ids pos) as [-> ->].
  { case_decide; [|done]. subst world. by rewrite !slot_id_alone by nia. }
  set (il' := if decide (world = 1) then 1 else il). assert (0 < il' ∧ (il' | kbs)) as [Hi' Hd'].
  { unfold il'. case_decide; [split; [lia|]; by exists kbs; lia|]. by destruct Hd. }
  clearbody il'. destruct (split_place kbs per world il' pos Hk Hp Hw Hi' Hd') as [Ht Hl]. rewrite !slot_id_local, Ht, Hl.
  destruct (_ =? rank); [|done]. assert (0 < kbs * world) by nia. unfold zlen in Hlt.
  set (n := pos / (kbs * world)) in *. assert (En : pos / (kbs * per * world) = n / per).
  { replace (kbs * per * world) with (kbs * world * per) by lia. unfold n. by rewrite Z.div_div by lia. }
  rewrite En in *. assert (0 ≤ n) by (apply Z.div_pos; lia). pose proof (Z.div_pos n per ltac:(lia) ltac:(lia)).
  pose proof (Z.mod_pos_bound n per ltac:(lia)). pose proof (Z.div_mod n per ltac:(lia)) as Hn.
  pose proof (Hkids _ (Z.to_nat (n mod per)) _ (list_lookup_lookup_total_lt ids (Z.to_nat (n / per)) ltac:(lia)) ltac:(lia)) as E.
  replace (Z.to_nat (n / per) * Z.to_nat per + Z.to_nat (n mod per))%nat with (Z.to_nat n) in E by nia.
  rewrite (list_lookup_total_correct _ _ _ E), Z2Nat.id by lia. lia.
Qed.

(** C24: Splitting every block of the cache into the smaller blocks of the attention
    kernels does not move any token: after the blocks of a request are put into its
    row and copied to the device, the slot of a position on any rank is its place in
    the unsplit blocks, provided the context is not split among ranks or the runs of
    tokens a rank takes divide the block of the kernels; and the ids of the kernel
    blocks are 32-bit integers. *)
Theorem split_blocks_keep_slots R t ids i num_reqs pos :
  bt_ok R t → (i < R)%nat → (i < num_reqs)%nat → 0 < bt_block_size t → 1 ≤ blocks_per_kv_block t →
  (use_hybrid_blocks t = false → blocks_per_kv_block t = 1) → 0 < cp_kv_cache_interleave_size t →
  let world := pcp_world_size t * dcp_world_size t in let rank := pcp_rank t * dcp_world_size t + dcp_rank t in
  0 < world → world = 1 ∨ (cp_kv_cache_interleave_size t | bt_block_size t) →
  row_fits t (bt_max_num_blocks_per_req t) ids → 0 ≤ pos →
  let B := bt_block_size t * blocks_per_kv_block t in
  pos / (B * world) < zlen ids →
  ∃ t', add_row t ids i = Ok t' ∧
    slot_at (commit_block_table t' num_reqs) i pos = slot_id B world rank (cp_kv_cache_interleave_size t) ids pos ∧
    (world = 1 → rank = 0 → slot_at (commit_block_table t' num_reqs) i pos = ids !!! Z.to_nat (pos / B) * B + pos mod B).
Proof.
  intros Hok Hi Hc Hbs Hper Hhyb Hint world rank Hw Hdiv Hfit Hpos B Hlt.
  destruct (add_row_ok R t ids i Hok Hi Hfit) as (t' & E & Hok' & Hsh & Hrow). exists t'. split; [done|].
  assert (Hs : slot_at (commit_block_table t' num_reqs) i pos = slot_id B world rank (cp_kv_cache_interleave_size t) ids pos).
  { unfold same_shape_bt, bt_conf in Hsh. injection Hsh as E1 E2 E3 E4 E5 E6 E7 E8 E9 E10 E11 E12.
    unfold slot_at, commit_block_table. cbn. rewrite E1, E8, E9, E10, E11, E12. fold world rank.
    destruct (bt_lookup R t' i Hok' Hi) as (r & n & Er & En & Hrl & Hn & Erb). rewrite Hrow, decide_True in Erb by done. injection Erb as Erb.
    rewrite (list_lookup_total_correct (take num_reqs (bt_rows t') ++ drop num_reqs (bt_gpu t')) i r).
    2:{ rewrite lookup_app_l by (rewrite length_take, (bto_rows _ _ Hok'); lia). by rewrite lookup_take_lt. }
    apply slot_id_split; try done. intros k j b Hb Hj. pose proof (kernel_ids_lookup t ids k j b Hper Hhyb Hb Hj) as Hk.
    rewrite Erb in Hk. by apply lookup_take_Some in Hk as [Hk _]. }
  split; [exact Hs|]. intros Hw1 Hr0. rewrite Hs, Hw1, Hr0, slot_id_alone by (unfold B; nia). done.
Qed.

(** ** Examples *)

(** Two requests with blocks of two tokens, on one of two ranks. *)
Definition ex_table (dcp_size : Z) : BlockTable :=
  mkBlockTable 2 1 false 6 2 [[3; 5]; [7; 0]] [2; 1]%nat [[3; 5]; [7; 0]] (replicate 6 0) 1 0 dcp_size 0 1.

Lemma ex_step_ok dcp_size : 0 < dcp_size → step_ok (ex_table dcp_size) [2; 1]%nat [0; 3; 1].
Proof.
  intros H. split; cbn; try lia; [by repeat constructor|done|]. repeat apply Forall_cons_2; try apply Forall_nil_2; split; try lia; apply Z.div_lt_upper_bound; nia.
Qed.

Lemma slot_mapping_exact_witness : ∃ t', compute_slot_mapping (ex_table 1) 2 (query_start_loc_of [2; 1]%nat) [0; 3; 1] 4 = Ok t' ∧
  slot_mapping t' !! 1%nat = Some 11 ∧ slot_mapping t' !! 2%nat = Some 15 ∧ slot_mapping t' !! 3%nat = Some PAD_SLOT_ID.
Proof.
  destruct (slot_mapping_exact (ex_table 1) [2; 1]%nat [0; 3; 1] 4 (ex_step_ok 1 ltac:(lia)) ltac:(lia)) as (t' & E & Hs & Hp). exists t'. split_and!.
  - exact E.
  - exact (Hs 0%nat 2%nat 1%nat eq_refl ltac:(lia)).
  - exact (Hs 1%nat 1%nat 0%nat eq_refl ltac:(lia)).
  - apply (Hp 3%nat). cbn. lia.
Defined.

Lemma context_slots_distinct_witness : ∃ t' t'', compute_slot_mapping (set_rank (ex_table 2) 0 0) 2 (query_start_loc_of [2; 1]%nat) [0; 3; 1] 4 = Ok t' ∧
  compute_slot_mapping (set_rank (ex_table 2) 0 1) 2 (query_start_loc_of [2; 1]%nat) [0; 3; 1] 4 = Ok t'' ∧
  slot_mapping t' !! 1%nat = Some PAD_SLOT_ID ∧ slot_mapping t'' !! 1%nat ≠ Some PAD_SLOT_ID.
Proof.
  destruct (context_slots_distinct (ex_table 2) [2; 1]%nat [0; 3; 1] 4 0%nat 2%nat 2%nat (ex_step_ok 2 ltac:(lia)) ltac:(lia) ltac:(cbn; lia) ltac:(cbn; lia))
    with (j := 1%nat) as (pcp & dcp & [Hp Hd] & Hall).
  - by exists 2.
  - done.
  - apply (bool_decide_unpack _). by vm_compute.
  - repeat constructor; lia.
  - intros [|[|j]] Hj; [by vm_compute|by vm_compute|lia].
  - lia.
  - destruct (Hall 0 0) as (t' & E' & H' & _); [cbn; lia|cbn; lia|]. destruct (Hall 0 1) as (t'' & E'' & H'' & _); [cbn; lia|cbn; lia|]. exists t', t''.
    assert (Hc : (t' ← compute_slot_mapping (set_rank (ex_table 2) 0 0) 2 (query_start_loc_of [2; 1]%nat) [0; 3; 1] 4; Ok (slot_mapping t' !! 1%nat)) = Ok (Some PAD_SLOT_ID)) by (by vm_compute).
    change (zlen [2; 1]%nat) with 2 in E', E''. rewrite E' in Hc. injection Hc as Hc. split_and!; [done|done|done|].
    apply H''. split; [cbn in Hp; lia|]. destruct (decide (dcp = 0)) as [->|]; [|cbn in Hd; lia]. destruct (proj2 H'); [cbn in Hp; lia|done].
Defined.

(** Blocks of four tokens split in two, on the second of two ranks that take turns at
    single tokens. *)
Definition ex_split : BlockTable := mkBlockTable 2 2 true 6 4 [[0; 0; 0; 0]] [0]%nat [[0; 0; 0; 0]] [] 1 0 2 1 1.

Lemma split_blocks_keep_slots_witness : ∃ t', add_row ex_split [3; 5] 0 = Ok t' ∧
  slot_at (commit_block_table t' 1) 0 13 = 5 * 4 + 2 ∧ slot_at (commit_block_table t' 1) 0 12 = PAD_SLOT_ID.
Proof.
  assert (H : ∀ pos, 0 ≤ pos → pos / 8 < 2 → ∃ t', add_row ex_split [3; 5] 0 = Ok t' ∧
    slot_at (commit_block_table t' 1) 0 pos = slot_id 4 2 1 1 [3; 5] pos).
  { intros pos H1 H2. destruct (split_blocks_keep_slots 1%nat ex_split [3; 5] 0%nat 1%nat pos) as (t' & E & Hs & _); try done; try (cbn; lia).
    - split; [done|done|by repeat constructor|repeat constructor; cbn; lia].
    - right. by exists 2.
    - apply (bool_decide_unpack _). by vm_compute.
    - by exists t'. }
  destruct (H 13) as (t' & E & H1); [lia|by vm_compute|]. destruct (H 12) as (t'' & E' & H2); [lia|by vm_compute|].
  rewrite E in E'. injection E' as <-. exists t'. split; [exact E|]. by rewrite H1, H2.
Defined.

(** The condition on the runs is needed: with blocks of 128 tokens, kernel blocks of
    64 and runs of 128 on the first of two ranks, positions 64 and 128 of a request
    get the same slot. *)
Lemma long_runs_collide :
  (t ← new_block_table (mkCp 1 0 2 0) 128 1 2 8 64 128; t ← add_row t [3; 5] 0;
   Ok (slot_at (commit_block_table t 1) 0 64, slot_at (commit_block_table t 1) 0 128)) = Ok (448, 448).
Proof. by vm_compute. Qed.
