(* ===== verification/BatchUpdate.v ===== *)
(** * Batch updates and logits processors
    The builder that records how the persistent batch of a worker changes during a
    step ([sample/logits_processor/state.py]), and the logits processors of
    [builtin.py] that replay the record on the state they keep by batch index.
    Floating-point numbers are exact fractions; [f32] is the rounding of a store in
    a 32-bit array, a parameter.  A list of output tokens is a reference into a
    store, since the processors hold the list the request itself extends. *)

From Stdlib Require Import QArith.
From S2P Require Import Prelude OrderedDict.

#[local] Open Scope Z_scope.

(** ** Sampling parameters *)

Record SamplingParams := mkSP {
  temperature : Q;
  seed : option Z;
  top_p : Q;
  top_k : Z;
  min_p : Q;
  frequency_penalty : Q;
  presence_penalty : Q;
  repetition_penalty : Q;
  min_tokens : Z;
  all_stop_token_ids : list Z;
  logit_bias : option (list (Z * Q));
  logprobs : option Z;
  logprob_token_ids : option (list Z);
  allowed_token_ids : option (list Z);
  bad_words_token_ids : option (list (list Z));
}.

Inductive SamplingType := GREEDY | RANDOM | RANDOM_SEED.

#[export] Instance sampling_type_dec : EqDecision SamplingType.
Proof. solve_decision. Defined.

Definition _SAMPLING_EPS : Q := 1 # 100000.

Definition sampling_type (sp : SamplingParams) : SamplingType :=
  if negb (Qle_bool _SAMPLING_EPS (temperature sp)) then GREEDY
  else if seed sp then RANDOM_SEED else RANDOM.

(** ** The record of a step *)

Definition loc := positive.
Definition heap := gmap loc (list Z).

(** The list a reference stands for. *)
Definition deref (h : heap) (l : loc) : list Z := default [] (h !! l).

Inductive MoveDirectionality := UNIDIRECTIONAL | SWAP.

#[export] Instance move_dir_dec : EqDecision MoveDirectionality.
Proof. solve_decision. Defined.

(** Index, parameters, prompt tokens and output tokens of a request that was added. *)
Record AddedRequest := mkAdded {
  ad_index : nat;
  ad_params : SamplingParams;
  ad_prompt : option (list Z);
  ad_output : loc;
}.

Definition MovedRequest : Type := nat * nat * MoveDirectionality.

Record BatchUpdate := mkUpdate {
  batch_size : nat;
  bu_removed : list nat;
  bu_added : list AddedRequest;
  bu_moved : list MovedRequest;
}.

Record BatchUpdateBuilder := mkBuilder {
  _removed : list nat;
  added : list AddedRequest;
  moved : list MovedRequest;
  _is_removed_sorted : bool;
  batch_changed : bool;
}.

Definition new_builder : BatchUpdateBuilder := mkBuilder [] [] [] false false.

(** [l.sort(reverse=True)] *)
Fixpoint insert_desc (x : nat) (l : list nat) : list nat :=
  match l with
  | [] => [x]
  | y :: l => if (y <=? x)%nat then x :: y :: l else y :: insert_desc x l
  end.
Definition sort_desc (l : list nat) : list nat := foldr insert_desc [] l.

Definition _ensure_removed_sorted (u : BatchUpdateBuilder) : BatchUpdateBuilder :=
  if _is_removed_sorted u then u
  else mkBuilder (sort_desc (_removed u)) (added u) (moved u) true (batch_changed u).

(** The property [removed]: the list, and the builder after sorting. *)
Definition removed (u : BatchUpdateBuilder) : list nat * BatchUpdateBuilder :=
  let u := _ensure_removed_sorted u in (_removed u, u).

Definition removed_append (u : BatchUpdateBuilder) (index : nat) : result BatchUpdateBuilder :=
  if _is_removed_sorted u then Raise RuntimeError
  else Ok (mkBuilder (_removed u ++ [index]) (added u) (moved u) (_is_removed_sorted u) true).

Definition has_removed (u : BatchUpdateBuilder) : bool := negb (bool_decide (_removed u = [])).

Definition peek_removed (u : BatchUpdateBuilder) : option nat * BatchUpdateBuilder :=
  if has_removed u then let u := _ensure_removed_sorted u in (last (_removed u), u) else (None, u).

Definition set_removed (u : BatchUpdateBuilder) (l : list nat) : BatchUpdateBuilder :=
  mkBuilder l (added u) (moved u) (_is_removed_sorted u) (batch_changed u).

Definition pop_removed (u : BatchUpdateBuilder) : option nat * BatchUpdateBuilder :=
  if has_removed u then
    let u := _ensure_removed_sorted u in
    (last (_removed u), set_removed u (take (length (_removed u) - 1) (_removed u)))
  else (None, u).

Definition reset (u : BatchUpdateBuilder) : bool * BatchUpdateBuilder := (batch_changed u, new_builder).

Definition get_and_reset (u : BatchUpdateBuilder) (size : nat) : option BatchUpdate * BatchUpdateBuilder :=
  match _removed u, moved u, added u with
  | [], [], [] => (None, mkBuilder [] [] [] false false)
  | _, _, _ => (Some (mkUpdate size (_removed u) (added u) (moved u)), new_builder)
  end.

Definition add_added (u : BatchUpdateBuilder) (a : AddedRequest) : BatchUpdateBuilder :=
  mkBuilder (_removed u) (added u ++ [a]) (moved u) (_is_removed_sorted u) (batch_changed u).

Definition add_moved (u : BatchUpdateBuilder) (m : MovedRequest) : BatchUpdateBuilder :=
  mkBuilder (_removed u) (added u) (moved u ++ [m]) (_is_removed_sorted u) (batch_changed u).

Definition set_batch_changed (u : BatchUpdateBuilder) : BatchUpdateBuilder :=
  mkBuilder (_removed u) (added u) (moved u) (_is_removed_sorted u) true.

(** ** Sparse state by batch index *)

Section dict_updates.
Context {T : Type}.
(** Whether Python takes an entry as true, and what a new request gets. *)
Context (truthy : T → bool).
Context (new_state : SamplingParams → option (list Z) → loc → option T).

Definition dict_added (st : list (nat * T) * bool) (a : AddedRequest) : list (nat * T) * bool :=
  let '(req_entries, updated) := st in
  match new_state (ad_params a) (ad_prompt a) (ad_output a) with
  | Some state => (od_set req_entries (ad_index a) state, true)
  | None =>
      match od_get req_entries (ad_index a) with
      | Some _ => (od_del req_entries (ad_index a), true)
      | None => (req_entries, updated)
      end
  end.

Definition dict_removed (st : list (nat * T) * bool) (index : nat) : list (nat * T) * bool :=
  let '(req_entries, updated) := st in
  match od_get req_entries index with
  | Some e => (od_del req_entries index, if truthy e then true else updated)
  | None => (req_entries, updated)
  end.

Definition dict_moved (st : list (nat * T) * bool) (m : MovedRequest) : list (nat * T) * bool :=
  let '(req_entries, updated) := st in
  let '(a_index, b_index, direct) := m in
  let a_entry := od_get req_entries a_index in
  let req_entries := od_del req_entries a_index in
  let b_entry := od_get req_entries b_index in
  let req_entries := od_del req_entries b_index in
  let '(req_entries, updated) :=
    match a_entry with Some e => (od_set req_entries b_index e, true) | None => (req_entries, updated) end in
  match b_entry with
  | Some e => (if decide (direct = SWAP) then od_set req_entries a_index e else req_entries, true)
  | None => (req_entries, updated)
  end.

Definition process_dict_updates (req_entries : list (nat * T)) (batch_update : option BatchUpdate) : list (nat * T) * bool :=
  match batch_update with
  | None => (req_entries, false)
  | Some u =>
      let '(req_entries, updated) := foldl dict_added (req_entries, false) (bu_added u) in
      match req_entries with
      | [] => (req_entries, updated)
      | _ :: _ => foldl dict_moved (foldl dict_removed (req_entries, updated) (bu_removed u)) (bu_moved u)
      end
  end.
End dict_updates.

(** ** Logit bias *)

(** The biases by batch index, and the flat arrays of rows, tokens and biases on the
    device. *)
Record LogitBiasLogitsProcessor := mkLogitBias {
  biases : list (nat * list (Z * Q));
  lb_rows : list nat;
  lb_tokens : list Z;
  bias_tensor : list Q;
}.

Definition lb_new_state (params : SamplingParams) (_ : option (list Z)) (_ : loc) : option (list (Z * Q)) :=
  match logit_bias params with Some (p :: lb) => Some (p :: lb) | _ => None end.

Definition nonempty {A} (l : list A) : bool := match l with [] => false | _ => true end.

Section processors.
Context (f32 : Q → Q).

Definition lb_update_state (p : LogitBiasLogitsProcessor) (batch_update : option BatchUpdate) : LogitBiasLogitsProcessor :=
  let '(biases, needs_update) := process_dict_updates nonempty lb_new_state (biases p) batch_update in
  if (needs_update : bool) then
    mkLogitBias biases
      (mjoin ((λ e : nat * list (Z * Q), replicate (length e.2) e.1) <$> biases))
      (mjoin ((λ e : nat * list (Z * Q), e.2.*1) <$> biases))
      (mjoin ((λ e : nat * list (Z * Q), f32 <$> e.2.*2) <$> biases))
  else mkLogitBias biases (lb_rows p) (lb_tokens p) (bias_tensor p).

(** Logits: [None] is minus infinity.  A negative index counts from the end of a row. *)
Definition column (n t : Z) : Z := if t <? 0 then t + n else t.

Definition get_at {A} (m : list (list A)) (rt : nat * Z) : result A :=
  match m !! rt.1 with
  | Some row =>
      let c := column (zlen row) rt.2 in
      if (0 <=? c) && (c <? zlen row) then py_index row c else Raise IndexError
  | None => Raise IndexError
  end.

Definition put_at {A} (m : list (list A)) (rt : nat * Z) (x : A) : result (list (list A)) :=
  match m !! rt.1 with
  | Some row =>
      let c := column (zlen row) rt.2 in
      if (0 <=? c) && (c <? zlen row) then Ok (<[rt.1 := <[Z.to_nat c := x]> row]> m) else Raise IndexError
  | None => Raise IndexError
  end.

(** [logits[rows, tokens] += biases]: every entry is read before any is written. *)
Definition lb_apply (p : LogitBiasLogitsProcessor) (logits : list (list (option Q))) : result (list (list (option Q))) :=
  match biases p with
  | [] => Ok logits
  | _ :: _ =>
      let slice := zip (lb_rows p) (lb_tokens p) in
      old ← mmap (get_at logits) slice;
      mfold (λ m e, put_at m e.1 e.2) logits
        (zip slice (zip_with (λ (x : option Q) b, (λ x, f32 (x + b)%Q) <$> x) old (bias_tensor p)))
  end.

(** ** Minimum number of tokens *)

(** Minimum, output tokens and stop tokens by batch index; the flat arrays of rows and
    tokens on the device. *)
Record MinTokensLogitsProcessor := mkMinTokens {
  min_toks : list (nat * (Z * loc * list Z));
  mt_rows : list nat;
  mt_tokens : list Z;
}.

Definition mt_add_request (h : heap) (params : SamplingParams) (_ : option (list Z)) (output_tok_ids : loc) :
    option (Z * loc * list Z) :=
  if (min_tokens params =? 0) || (min_tokens params <=? zlen (deref h output_tok_ids)) then None
  else Some (min_tokens params, output_tok_ids, all_stop_token_ids params).

Definition mt_reached (h : heap) (e : nat * (Z * loc * list Z)) : bool :=
  let '(_, (min_toks, out_tok_ids, _)) := e in min_toks <=? zlen (deref h out_tok_ids).

Definition mt_update_state (h : heap) (p : MinTokensLogitsProcessor) (batch_update : option BatchUpdate) : MinTokensLogitsProcessor :=
  let '(min_toks, needs_update) := process_dict_updates (λ _, true) (mt_add_request h) (min_toks p) batch_update in
  let to_remove := (filter (λ e, mt_reached h e = true) min_toks).*1 in
  let '(min_toks, needs_update) :=
    match to_remove with [] => (min_toks, needs_update) | _ => (foldl od_del min_toks to_remove, true) end in
  if (needs_update : bool) then
    mkMinTokens min_toks
      (mjoin ((λ e : nat * (Z * loc * list Z), replicate (length e.2.2) e.1) <$> min_toks))
      (mjoin ((λ e : nat * (Z * loc * list Z), e.2.2) <$> min_toks))
  else mkMinTokens min_toks (mt_rows p) (mt_tokens p).

(** [logits.index_put_(slice, -inf)] *)
Definition put_neg_inf (logits : list (list (option Q))) (slice : list (nat * Z)) : result (list (list (option Q))) :=
  mfold (λ m e, put_at m e None) logits slice.

Definition mt_apply (p : MinTokensLogitsProcessor) (logits : list (list (option Q))) : result (list (list (option Q))) :=
  match min_toks p with
  | [] => Ok logits
  | _ :: _ => put_neg_inf logits (zip (mt_rows p) (mt_tokens p))
  end.

(** [np.cumsum] with a leading zero: where the rows of each request start. *)
Fixpoint row_starts (a : Z) (l : list Z) : list Z :=
  match l with [] => [a] | x :: l => a :: row_starts (a + x) l end.

(** The rows and stop tokens to mask for one request. *)
Definition mt_entry (h : heap) (num_draft_tokens : list Z) (e : nat * (Z * loc * list Z)) : result (list (nat * Z)) :=
  let '(req_idx, (min_tok, out_tok_ids, stop_toks)) := e in
  let remaining := min_tok - zlen (deref h out_tok_ids) in
  num_draft ← py_index num_draft_tokens (Z.of_nat req_idx);
  let n_mask := Z.min (Z.max remaining 0) num_draft in
  if 0 <? n_mask then
    offset ← py_index (row_starts 0 num_draft_tokens) (Z.of_nat req_idx);
    let row_indices := Z.to_nat <$> py_range offset (offset + n_mask) in
    let rows := mjoin ((λ r, replicate (length stop_toks) r) <$> row_indices) in
    let toks := mjoin (replicate (Z.to_nat n_mask) stop_toks) in
    Ok (zip rows toks)
  else Ok [].

Definition mt_apply_with_spec_decode (h : heap) (p : MinTokensLogitsProcessor) (logits : list (list (option Q)))
    (num_draft_tokens : list Z) : result (list (list (option Q))) :=
  let entries := filter (λ e : nat * (Z * loc * list Z), nonempty e.2.2 = true) (min_toks p) in
  slices ← mmap (mt_entry h num_draft_tokens) entries;
  put_neg_inf logits (mjoin slices).

(** ** Min-p *)

(** The device tensor is the host array itself when the device is the CPU; [view] is
    the length of the slice in use. *)
Record MinPLogitsProcessor := mkMinP {
  min_p_count : Z;
  min_p_cpu : list Q;
  use_double_tensor : bool;
  min_p_device : list Q;
  view : nat;
}.

Definition minp_init (max_num_reqs : nat) (double : bool) (empty : list Q) : MinPLogitsProcessor :=
  mkMinP 0 (replicate max_num_reqs 0%Q) double empty 0.

(** The slice [self.min_p]. *)
Definition min_p_slice (p : MinPLogitsProcessor) : list Q :=
  take (view p) (if use_double_tensor p then min_p_device p else min_p_cpu p).

Definition q_true (x : Q) : bool := negb (Qeq_bool x 0).

Definition get_min_p_by_index (p : MinPLogitsProcessor) (index : nat) : result Q :=
  match min_p_cpu p !! index with Some x => Ok x | None => Raise IndexError end.

(** [(count, array, needs_update)] through the loops of [update_state] *)
Definition minp_added (st : Z * list Q * bool) (a : AddedRequest) : result (Z * list Q * bool) :=
  let '(count, cpu, needs_update) := st in
  let min_p := min_p (ad_params a) in
  match cpu !! ad_index a with
  | None => Raise IndexError
  | Some before =>
      if negb (Qeq_bool before (f32 min_p)) then
        let cpu := <[ad_index a := f32 min_p]> cpu in
        let count :=
          if q_true min_p && negb (q_true before) then count + 1
          else if negb (q_true min_p) && q_true before then count - 1 else count in
        Ok (count, cpu, true)
      else Ok (count, cpu, needs_update)
  end.

Definition minp_removed (st : Z * list Q) (index : nat) : result (Z * list Q) :=
  let '(count, cpu) := st in
  match cpu !! index with
  | None => Raise IndexError
  | Some x => Ok (if q_true x then (count - 1, <[index := 0%Q]> cpu) else (count, cpu))
  end.

Definition minp_moved (st : Z * list Q * bool) (m : MovedRequest) : result (Z * list Q * bool) :=
  let '(count, cpu, needs_update) := st in
  let '(adx, bdx, direct) := m in
  match cpu !! adx, cpu !! bdx with
  | Some min_p_a, Some min_p_b =>
      let '(cpu, needs_update) :=
        if negb (Qeq_bool min_p_a min_p_b) then
          let cpu := <[bdx := min_p_a]> cpu in
          (if decide (direct = SWAP) then <[adx := min_p_b]> cpu else cpu, true)
        else (cpu, needs_update) in
      if decide (direct = UNIDIRECTIONAL) then
        let cpu := if q_true min_p_a then <[adx := 0%Q]> cpu else cpu in
        Ok (if q_true min_p_b then count - 1 else count, cpu, needs_update)
      else Ok (count, cpu, needs_update)
  | _, _ => Raise IndexError
  end.

Definition minp_update_state (p : MinPLogitsProcessor) (batch_update : option BatchUpdate) : result MinPLogitsProcessor :=
  match batch_update with
  | None => Ok p
  | Some u =>
      '(count, cpu, needs_update) ← mfold minp_added (min_p_count p, min_p_cpu p, false) (bu_added u);
      '(count, cpu, needs_update) ←
        (if count =? 0 then Ok (count, cpu, needs_update)
         else
           '(count, cpu) ← mfold minp_removed (count, cpu) (bu_removed u);
           mfold minp_moved (count, cpu, needs_update || nonempty (bu_removed u)) (bu_moved u));
      let size := batch_size u in
      if negb (count =? 0) && ((needs_update : bool) || negb (view p =? size)%nat) then
        let dev := min_p_device p in
        Ok (mkMinP count cpu (use_double_tensor p)
          (if use_double_tensor p then take size cpu ++ drop size dev else dev) size)
      else Ok (mkMinP count cpu (use_double_tensor p) (min_p_device p) (view p))
  end.
(** Softmax of a row of logits, from the tensor library. *)
Context (softmax : list (option Q) → list Q).

Definition q_max (x y : Q) : Q := if Qle_bool x y then y else x.

Definition minp_row (x : Q) (row : list (option Q)) : result (list (option Q)) :=
  let probability_values := softmax row in
  match probability_values with
  | [] => Raise IndexError
  | p0 :: ps =>
      let adjusted_min_p := f32 (foldl q_max p0 ps * x)%Q in
      Ok (zip_with (λ (l : option Q) p, if negb (Qle_bool adjusted_min_p p) then None else l) row probability_values)
  end.

(** A slice of one entry is used for all rows. *)
Definition minp_apply (p : MinPLogitsProcessor) (logits : list (list (option Q))) : result (list (list (option Q))) :=
  if min_p_count p =? 0 then Ok logits
  else
    let s := min_p_slice p in
    if (length s =? length logits)%nat then mmap (λ e, minp_row e.1 e.2) (zip s logits)
    else match s with
      | [x] => mmap (minp_row x) logits
      | _ => Raise RuntimeError
      end.

(** ** All processors of a batch *)

Inductive LogitsProcessor :=
  | ProcMinP (p : MinPLogitsProcessor)
  | ProcLogitBias (p : LogitBiasLogitsProcessor)
  | ProcMinTokens (p : MinTokensLogitsProcessor).

Definition is_argmax_invariant (p : LogitsProcessor) : bool :=
  match p with ProcMinP _ => true | ProcLogitBias _ | ProcMinTokens _ => false end.

Record LogitsProcessors := mkProcs {
  argmax_invariant : list LogitsProcessor;
  non_argmax_invariant : list LogitsProcessor;
}.

Definition logits_processors (l : list LogitsProcessor) : LogitsProcessors :=
  mkProcs (filter (λ p, is_argmax_invariant p = true) l) (filter (λ p, is_argmax_invariant p = false) l).

(** The processors of a model, without custom ones: none for pooling models, only the
    minimum number of tokens with speculative decoding. *)
Definition build_logitsprocs (max_num_seqs : nat) (double : bool) (empty : list Q) (speculative is_pooling_model : bool) : LogitsProcessors :=
  let min_tokens := ProcMinTokens (mkMinTokens [] [] []) in
  if is_pooling_model then logits_processors []
  else if speculative then logits_processors [min_tokens]
  else logits_processors [min_tokens; ProcLogitBias (mkLogitBias [] [] [] []); ProcMinP (minp_init max_num_seqs double empty)].

Definition update_state (h : heap) (batch_update : option BatchUpdate) (p : LogitsProcessor) : result LogitsProcessor :=
  match p with
  | ProcMinP p => p ← minp_update_state p batch_update; Ok (ProcMinP p)
  | ProcLogitBias p => Ok (ProcLogitBias (lb_update_state p batch_update))
  | ProcMinTokens p => Ok (ProcMinTokens (mt_update_state h p batch_update))
  end.

(** [for logit_proc in self.logitsprocs.all: logit_proc.update_state(batch_update)] *)
Definition update_processors (h : heap) (batch_update : option BatchUpdate) (ps : LogitsProcessors) : result LogitsProcessors :=
  l1 ← mmap (update_state h batch_update) (argmax_invariant ps);
  l2 ← mmap (update_state h batch_update) (non_argmax_invariant ps);
  Ok (mkProcs l1 l2).
End processors.
