(* ===== verification/BatchUpdateFacts.v ===== *)
(** * What logits processors keep in step with the batch
    A batch is seen as slots: what request, if any, sits at each index.  Replaying a
    batch update on the sparse dictionaries and on the min-p array is the same as
    performing it on the slots. *)

From Stdlib Require Import QArith.
From S2P Require Import Prelude OrderedDict BatchUpdate.

#[local] Open Scope Z_scope.

(** ** Updates of slots *)

Definition slots (A : Type) := nat → option A.

Definition upd {A} (s : slots A) (i : nat) (x : option A) : slots A := λ j, if decide (j = i) then x else s j.

Section slots.
Context {A : Type}.
Implicit Types (s : slots A) (u : BatchUpdate).

Definition sl_move s (m : MovedRequest) : slots A :=
  let '(a, b, d) := m in
  upd (upd s b (s a)) a (match d with SWAP => s b | UNIDIRECTIONAL => None end).

Definition sl_removes s (l : list nat) : slots A := foldl (λ s i, upd s i None) s l.
Definition sl_moves s (l : list MovedRequest) : slots A := foldl sl_move s l.

Definition sl_adds (new : AddedRequest → option A) s (l : list AddedRequest) : slots A :=
  foldl (λ s a, upd s (ad_index a) (new a)) s l.

(** What a batch update does to the slots. *)
Definition apply_update (new : AddedRequest → option A) s u : slots A :=
  sl_moves (sl_removes (sl_adds new s (bu_added u)) (bu_removed u)) (bu_moved u).

Definition no_self_move (m : MovedRequest) : Prop := m.1.1 ≠ m.1.2.

Lemma upd_eq s i x : upd s i x i = x.
Proof. unfold upd. by rewrite decide_True. Qed.

Lemma upd_ne s i j x : j ≠ i → upd s i x j = s j.
Proof. intros. unfold upd. by rewrite decide_False. Qed.

(** Slots are compared index by index. *)
Definition sl_eq (s1 s2 : slots A) : Prop := ∀ i, s1 i = s2 i.

#[export] Instance sl_eq_equiv : Equivalence sl_eq.
Proof. split; [by intros s i|by intros s1 s2 H i|]. intros s1 s2 s3 H1 H2 i. by rewrite H1. Qed.

#[export] Instance upd_proper : Proper (sl_eq ==> eq ==> eq ==> sl_eq) upd.
Proof. intros s1 s2 H i ? <- x ? <- j. unfold upd. by case_decide. Qed.

#[export] Instance sl_move_proper : Proper (sl_eq ==> eq ==> sl_eq) sl_move.
Proof.
  intros s1 s2 H [[a b] d] ? <-. unfold sl_move. rewrite (H a). destruct d; [|rewrite (H b)]; by repeat apply upd_proper.
Qed.

#[export] Instance sl_moves_proper : Proper (sl_eq ==> eq ==> sl_eq) sl_moves.
Proof.
  intros s1 s2 H l ? <-. unfold sl_moves. revert s1 s2 H. induction l as [|m l IH]; intros s1 s2 H; [done|].
  apply IH. by apply sl_move_proper.
Qed.

#[export] Instance sl_removes_proper : Proper (sl_eq ==> eq ==> sl_eq) sl_removes.
Proof.
  intros s1 s2 H l ? <-. unfold sl_removes. revert s1 s2 H. induction l as [|i l IH]; intros s1 s2 H; [done|].
  apply IH. by apply upd_proper.
Qed.

Lemma sl_removes_spec s l i : sl_removes s l i = if decide (i ∈ l) then None else s i.
Proof.
  unfold sl_removes. revert s. induction l as [|j l IH]; intros s; [done|]. cbn. rewrite IH. unfold upd.
  destruct (decide (i ∈ l)) as [Hl|Hl]; [by rewrite decide_True by by right|].
  destruct (decide (i = j)) as [->|Hne]; [by rewrite decide_True by left|].
  rewrite decide_False; [done|]. by intros [?|?]%elem_of_cons.
Qed.

(** A change at an index no move touches goes through the moves. *)
Lemma sl_move_upd s m e x : e ≠ m.1.1 → e ≠ m.1.2 → sl_eq (sl_move (upd s e x) m) (upd (sl_move s m) e x).
Proof.
  destruct m as [[a b] d]. cbn. intros Ha Hb i. unfold upd. rewrite !(decide_False (P := a = e)), !(decide_False (P := b = e)) by done.
  repeat case_decide; by subst.
Qed.

Lemma sl_moves_upd s l e x :
  Forall (λ m : MovedRequest, e ≠ m.1.1 ∧ e ≠ m.1.2) l → sl_eq (sl_moves (upd s e x) l) (upd (sl_moves s l) e x).
Proof.
  unfold sl_moves. revert s. induction l as [|m l IH]; intros s Hl; [done|]. apply Forall_cons in Hl as [[Ha Hb] Hl].
  cbn. rewrite <-IH by done. by apply sl_moves_proper; [apply sl_move_upd|].
Qed.

(** Moves only permute or drop what is there. *)
Lemma sl_move_None s m : (∀ i, s i = None) → ∀ i, sl_move s m i = None.
Proof. intros H i. destruct m as [[a b] d]. unfold sl_move, upd. destruct d; repeat case_decide; rewrite ?H; done. Qed.

Lemma sl_moves_None s l : (∀ i, s i = None) → ∀ i, sl_moves s l i = None.
Proof.
  unfold sl_moves. revert s. induction l as [|m l IH]; intros s H; [done|]. cbn. apply IH. by apply sl_move_None.
Qed.

Lemma sl_removes_None s l : (∀ i, s i = None) → ∀ i, sl_removes s l i = None.
Proof. intros H i. rewrite sl_removes_spec, H. by case_decide. Qed.
End slots.

(** Updating slots commutes with computing something from each request. *)
Section naturality.
Context {A B : Type} (f : A → option B).

Definition sl_map (s : slots A) : slots B := λ i, s i ≫= f.

Lemma sl_map_upd s i x : sl_eq (sl_map (upd s i x)) (upd (sl_map s) i (x ≫= f)).
Proof. intros j. unfold sl_map, upd. by case_decide. Qed.

Lemma sl_map_move s m : sl_eq (sl_map (sl_move s m)) (sl_move (sl_map s) m).
Proof. intros j. destruct m as [[a b] d]. unfold sl_move, sl_map, upd. destruct d; by repeat case_decide. Qed.

Lemma sl_map_moves s l : sl_eq (sl_map (sl_moves s l)) (sl_moves (sl_map s) l).
Proof.
  unfold sl_moves. revert s. induction l as [|m l IH]; intros s; [done|]. cbn. rewrite IH.
  apply (sl_moves_proper (sl_map (sl_move s m)) _ (sl_map_move s m) l l eq_refl).
Qed.

Lemma sl_map_adds new s l : sl_eq (sl_map (sl_adds new s l)) (sl_adds (λ a, new a ≫= f) (sl_map s) l).
Proof.
  unfold sl_adds. revert s. induction l as [|a l IH]; intros s; [done|]. cbn. rewrite IH.
  assert (Hext : ∀ (l : list AddedRequest) s1 s2, sl_eq s1 s2 →
    sl_eq (foldl (λ s a, upd s (ad_index a) (new a ≫= f)) s1 l) (foldl (λ s a, upd s (ad_index a) (new a ≫= f)) s2 l)).
  { clear. induction l as [|a l IH]; intros s1 s2 H; [done|]. cbn. apply IH. by apply upd_proper. }
  apply Hext, sl_map_upd.
Qed.

Lemma sl_map_removes s l : sl_eq (sl_map (sl_removes s l)) (sl_removes (sl_map s) l).
Proof. intros i. unfold sl_map. rewrite !sl_removes_spec. by case_decide. Qed.

Lemma apply_update_natural new s u :
  sl_eq (sl_map (apply_update new s u)) (apply_update (λ a, new a ≫= f) (sl_map s) u).
Proof.
  unfold apply_update. rewrite sl_map_moves. apply sl_moves_proper; [|done].
  rewrite sl_map_removes. apply sl_removes_proper; [|done]. apply sl_map_adds.
Qed.
End naturality.

(** ** Sparse dictionaries *)

Section dict_facts.
Context {T : Type} (truthy : T → bool) (new_state : SamplingParams → option (list Z) → loc → option T).
Implicit Types (d : list (nat * T)) (g : slots T).

Definition new_of (a : AddedRequest) : option T := new_state (ad_params a) (ad_prompt a) (ad_output a).

(** A dictionary holds the entries of the slots. *)
Definition dict_tracks d g : Prop := NoDup d.*1 ∧ ∀ i, od_get d i = g i.

Lemma dict_tracks_del d g i : dict_tracks d g → dict_tracks (od_del d i) (upd g i None).
Proof.
  intros [Hd Hg]. split; [by apply od_del_nodup|]. intros j. rewrite od_get_del by done. unfold upd. by rewrite Hg.
Qed.

Lemma dict_tracks_set d g i x : dict_tracks d g → dict_tracks (od_set d i x) (upd g i (Some x)).
Proof.
  intros [Hd Hg]. split; [by apply od_set_nodup|]. intros j. rewrite od_get_set. unfold upd. by rewrite Hg.
Qed.

Lemma dict_tracks_proper d g1 g2 : sl_eq g1 g2 → dict_tracks d g1 → dict_tracks d g2.
Proof. intros H [Hd Hg]. split; [done|]. intros i. by rewrite <-H. Qed.

Lemma dict_added_tracks d b g a : dict_tracks d g → dict_tracks (dict_added new_state (d, b) a).1 (upd g (ad_index a) (new_of a)).
Proof.
  intros H. unfold dict_added. fold (new_of a). destruct (new_of a) as [x|]; [by apply dict_tracks_set|].
  destruct (od_get d (ad_index a)) as [y|] eqn:E; [by apply dict_tracks_del|]. eapply dict_tracks_proper; [|exact H].
  intros i. unfold upd. case_decide; [|done]. subst. by rewrite <-(proj2 H), E.
Qed.

Lemma dict_removed_tracks d b g i : dict_tracks d g → dict_tracks (dict_removed truthy (d, b) i).1 (upd g i None).
Proof.
  intros H. unfold dict_removed. destruct (od_get d i) as [y|] eqn:E; [by apply dict_tracks_del|].
  eapply dict_tracks_proper; [|exact H]. intros j. unfold upd. case_decide; [|done]. subst. by rewrite <-(proj2 H), E.
Qed.

Lemma dict_moved_tracks d b g m : no_self_move m → dict_tracks d g → dict_tracks (dict_moved (d, b) m).1 (sl_move g m).
Proof.
  destruct m as [[i j] dir]. unfold no_self_move. cbn [fst snd]. intros Hne H. unfold dict_moved.
  pose proof (dict_tracks_del _ _ i H) as H1. pose proof (dict_tracks_del _ _ j H1) as H2.
  rewrite (proj2 H), (proj2 H1). rewrite (upd_ne g i j None) by done.
  destruct (g i) as [x|] eqn:Ei, (g j) as [y|] eqn:Ej, dir; cbn [fst];
    repeat (rewrite decide_True by done || rewrite decide_False by done); cbn [fst];
    (eapply dict_tracks_proper; [|by repeat apply dict_tracks_set]);
    intros k; unfold sl_move, upd; repeat case_decide; subst; congruence.
Qed.

Lemma dict_loop {X} (f : list (nat * T) * bool → X → list (nat * T) * bool) (h : slots T → X → slots T) (P : X → Prop) l :
  Forall P l → (∀ d b g x, P x → dict_tracks d g → dict_tracks (f (d, b) x).1 (h g x)) →
  ∀ d b g, dict_tracks d g → dict_tracks (foldl f (d, b) l).1 (foldl h g l).
Proof.
  intros Hl Hf. induction Hl as [|x l Hx Hl IH]; intros d b g H; [done|]. cbn.
  specialize (Hf d b g x Hx H). destruct (f (d, b) x) as [d' b']. by apply IH.
Qed.

Lemma process_dict_tracks d g (u : BatchUpdate) :
  Forall no_self_move (bu_moved u) → dict_tracks d g →
  dict_tracks (process_dict_updates truthy new_state d (Some u)).1 (apply_update new_of g u).
Proof.
  intros Hm H. unfold process_dict_updates, apply_update.
  pose proof (dict_loop (dict_added new_state) (λ g a, upd g (ad_index a) (new_of a)) (λ _, True) (bu_added u)
    (Forall_true _ _ (λ _, I)) (λ d b g a _, dict_added_tracks d b g a) d false g H) as H1.
  change (foldl (λ g a, upd g (ad_index a) (new_of a)) g (bu_added u)) with (sl_adds new_of g (bu_added u)) in H1.
  destruct (foldl (dict_added new_state) (d, false) (bu_added u)) as [d1 b1]. cbn [fst] in H1. destruct d1 as [|e d1].
  - cbn [fst]. eapply dict_tracks_proper; [|exact H1].
    assert (Hn : ∀ i, sl_adds new_of g (bu_added u) i = None) by (intros i; by rewrite <-(proj2 H1)).
    intros i. rewrite Hn. symmetry. by apply sl_moves_None, sl_removes_None.
  - set (d1' := e :: d1) in *. clearbody d1'.
    pose proof (dict_loop (dict_removed truthy) (λ g i, upd g i None) (λ _, True) (bu_removed u)
      (Forall_true _ _ (λ _, I)) (λ d b g i _, dict_removed_tracks d b g i) d1' b1 _ H1) as H2.
    destruct (foldl (dict_removed truthy) (d1', b1) (bu_removed u)) as [d2 b2].
    exact (dict_loop dict_moved sl_move no_self_move (bu_moved u) Hm dict_moved_tracks d2 b2 _ H2).
Qed.

(** ** When the dictionary reports no change it did not change *)

Definition entries_true d : Prop := Forall (λ e, truthy e.2 = true) d.

Lemma entries_true_get d i x : entries_true d → od_get d i = Some x → truthy x = true.
Proof.
  unfold entries_true. induction d as [|[k v] d IH]; [done|]. intros [Hv Hd]%Forall_cons. cbn. case_decide; [by intros [= <-]|by apply IH].
Qed.

Lemma entries_true_set d i x : entries_true d → truthy x = true → entries_true (od_set d i x).
Proof.
  unfold entries_true. intros Hd Hx. induction d as [|[k v] d IH]; cbn; [by constructor|].
  apply Forall_cons in Hd as [Hv Hd]. case_decide; constructor; auto.
Qed.

Lemma entries_true_del d i : entries_true d → entries_true (od_del d i).
Proof.
  unfold entries_true. rewrite !Forall_forall. intros H e He. apply H. by apply list_elem_of_filter in He as [_ ?].
Qed.

Context (new_true : ∀ p l o x, new_state p l o = Some x → truthy x = true).

(** A round keeps every entry true, and changes nothing unless it says so. *)
Definition honest {X} (f : list (nat * T) * bool → X → list (nat * T) * bool) : Prop :=
  ∀ d b x, entries_true d → entries_true (f (d, b) x).1 ∧ ((f (d, b) x).2 = false → b = false ∧ (f (d, b) x).1 = d).

Lemma honest_loop {X} (f : list (nat * T) * bool → X → list (nat * T) * bool) : honest f →
  ∀ l d b, entries_true d → entries_true (foldl f (d, b) l).1 ∧
    ((foldl f (d, b) l).2 = false → b = false ∧ (foldl f (d, b) l).1 = d).
Proof.
  intros Hf l. induction l as [|x l IH]; intros d b Hd; [done|]. cbn. destruct (Hf d b x Hd) as [H1 H2].
  destruct (f (d, b) x) as [d' b']. cbn [fst snd] in *. destruct (IH d' b' H1) as [H3 H4]. split; [done|].
  intros [-> E]%H4. rewrite E. by apply H2.
Qed.

Lemma honest_added : honest (dict_added new_state).
Proof.
  intros d b a Hd. unfold dict_added. destruct (new_state _ _ _) as [x|] eqn:E; cbn [fst snd].
  - split; [|done]. apply entries_true_set; [done|by eapply new_true].
  - destruct (od_get d (ad_index a)); cbn [fst snd]; [|done]. split; [by apply entries_true_del|done].
Qed.

Lemma honest_removed : honest (dict_removed truthy).
Proof.
  intros d b i Hd. unfold dict_removed. destruct (od_get d i) as [x|] eqn:E; cbn [fst snd]; [|done].
  rewrite (entries_true_get d i x Hd E). split; [by apply entries_true_del|done].
Qed.

Lemma honest_moved : honest (dict_moved (T := T)).
Proof.
  intros d b [[i j] dir] Hd. unfold dict_moved. pose proof (entries_true_del d i Hd) as H1. pose proof (entries_true_del _ j H1) as H2.
  destruct (od_get d i) as [x|] eqn:Ei; [pose proof (entries_true_get d i x Hd Ei) as Hx|];
    (destruct (od_get (od_del d i) j) as [y|] eqn:Ej; [pose proof (entries_true_get _ j y H1 Ej) as Hy|]); cbn [fst snd];
    (split; [repeat case_decide; repeat apply entries_true_set; done|]); try done.
  intros ->. split; [done|]. rewrite (od_del_absent d i) in * by by apply od_get_None. apply od_del_absent. by apply od_get_None.
Qed.

Lemma process_dict_honest d u : entries_true d →
  entries_true (process_dict_updates truthy new_state d u).1 ∧
  ((process_dict_updates truthy new_state d u).2 = false → (process_dict_updates truthy new_state d u).1 = d).
Proof.
  intros Hd. destruct u as [u|]; [|done]. unfold process_dict_updates.
  destruct (honest_loop _ honest_added (bu_added u) d false Hd) as [H1 E1].
  destruct (foldl (dict_added new_state) (d, false) (bu_added u)) as [d1 b1]. cbn [fst snd] in *.
  destruct d1 as [|e d1]; [split; [done|]; intros H; by apply E1|]. set (d1' := e :: d1) in *. clearbody d1'.
  destruct (honest_loop _ honest_removed (bu_removed u) d1' b1 H1) as [H2 E2].
  destruct (foldl (dict_removed truthy) (d1', b1) (bu_removed u)) as [d2 b2]. cbn [fst snd] in *.
  destruct (honest_loop _ honest_moved (bu_moved u) d2 b2 H2) as [H3 E3]. split; [done|].
  intros H. destruct (E3 H) as [-> ->]. destruct E2 as [-> ->]; [done|]. by apply E1.
Qed.
End dict_facts.
