(* ===== verification/LogitsFacts.v ===== *)
(** * Logits processors do what the requests at each index ask for
    Invariants of the logits processors against the slots of the batch, and what
    applying them does to each cell of the logits. *)

From Stdlib Require Import QArith.
From S2P Require Import Prelude OrderedDict BatchUpdate BatchUpdateFacts.

#[local] Open Scope Z_scope.

(** ** Cells of a matrix *)

Definition cell {A} (m : list (list A)) (i t : nat) : option A := m !! i ≫= λ r, r !! t.

Definition width {A} (V : nat) (m : list (list A)) : Prop := Forall (λ r, length r = V) m.

(** A row and a token of it. *)
Definition in_range (n V : nat) (rt : nat * Z) : Prop := (rt.1 < n)%nat ∧ 0 ≤ rt.2 < Z.of_nat V.

Section cells.
Context {A : Type} (V : nat).
Implicit Types (m : list (list A)).

Lemma put_at_spec m rt x : width V m → in_range (length m) V rt →
  ∃ m', put_at m rt x = Ok m' ∧ width V m' ∧ length m' = length m ∧
    ∀ i t, cell m' i t = if decide (i = rt.1 ∧ t = Z.to_nat rt.2) then Some x else cell m i t.
Proof.
  intros Hw [Hr Ht]. destruct (lookup_lt_is_Some_2 m rt.1 Hr) as [row Hrow].
  pose proof (proj1 (Forall_lookup _ _) Hw _ _ Hrow) as Hl. cbv beta in Hl. unfold put_at, column, zlen. rewrite Hrow, Hl.
  rewrite (proj2 (Z.ltb_ge _ _)) by lia. cbv zeta. rewrite (proj2 (Z.leb_le _ _)), (proj2 (Z.ltb_lt _ _)) by lia. cbn [andb].
  eexists. split; [done|]. split_and!.
  - unfold width. rewrite Forall_lookup. intros i r. rewrite list_lookup_insert_Some.
    intros [(_ & <- & _)|[_ Hi]]; [by rewrite length_insert|by apply (proj1 (Forall_lookup _ _) Hw i)].
  - by rewrite length_insert.
  - intros i t. unfold cell. destruct (decide (i = rt.1)) as [->|Hne].
    + rewrite list_lookup_insert_eq by done. cbn. rewrite Hrow. cbn. destruct (decide (t = Z.to_nat rt.2)) as [->|Hnt].
      * rewrite list_lookup_insert_eq by lia. by rewrite decide_True.
      * rewrite list_lookup_insert_ne by done. rewrite decide_False by naive_solver. done.
    + rewrite list_lookup_insert_ne by done. by rewrite decide_False by naive_solver.
Qed.

Lemma get_at_spec m rt : width V m → in_range (length m) V rt →
  ∃ x, get_at m rt = Ok x ∧ cell m rt.1 (Z.to_nat rt.2) = Some x.
Proof.
  intros Hw [Hr Ht]. destruct (lookup_lt_is_Some_2 m rt.1 Hr) as [row Hrow].
  pose proof (proj1 (Forall_lookup _ _) Hw _ _ Hrow) as Hl. cbv beta in Hl. unfold get_at, column, zlen, cell, py_index. rewrite Hrow, Hl.
  rewrite (proj2 (Z.ltb_ge _ _)) by lia. cbv zeta. rewrite (proj2 (Z.leb_le _ _)), (proj2 (Z.ltb_lt _ _)) by lia. cbn.
  destruct (lookup_lt_is_Some_2 row (Z.to_nat rt.2)) as [x Hx]; [lia|]. exists x. by rewrite Hx.
Qed.

(** Writing many cells: the others stay, and a cell written with one value has it. *)
Lemma put_all_spec (es : list (nat * Z * A)) m : width V m → Forall (λ e, in_range (length m) V e.1) es →
  ∃ m', mfold (λ m e, put_at m e.1 e.2) m es = Ok m' ∧ width V m' ∧ length m' = length m ∧
    (∀ i t, (i, Z.of_nat t) ∉ es.*1 → cell m' i t = cell m i t) ∧
    (∀ i t x, (i, Z.of_nat t) ∈ es.*1 → (∀ y, ((i, Z.of_nat t), y) ∈ es → y = x) → cell m' i t = Some x).
Proof.
  revert m. induction es as [|[rt x] es IH]; intros m Hw He.
  - exists m. split_and!; [done..|]. intros i t x Ht. by apply elem_of_nil in Ht.
  - apply Forall_cons in He as [Hrt He]. cbn [fst] in Hrt. destruct (put_at_spec m rt x Hw Hrt) as (m1 & E1 & Hw1 & Hl1 & Hc1).
    cbn [mfold fst snd]. rewrite E1. cbn [mbind result_bind]. rewrite <-Hl1 in He. destruct (IH m1 Hw1 He) as (m' & E & Hw' & Hl' & Hout & Hin).
    destruct rt as [r c]. destruct Hrt as [_ Hc]. cbn [fst snd] in *.
    exists m'. split_and!; [done|done|lia| |].
    + intros i t Hn. rewrite fmap_cons, elem_of_cons in Hn. rewrite Hout, Hc1 by tauto. rewrite decide_False; [done|].
      intros [-> ->]. apply Hn. left. cbn. by rewrite Z2Nat.id by lia.
    + intros i t y Hi Hy. destruct (decide ((i, Z.of_nat t) ∈ es.*1)) as [Hes|Hes].
      * apply Hin; [done|]. intros z Hz. apply Hy. by right.
      * rewrite Hout by done. rewrite Hc1. rewrite fmap_cons, elem_of_cons in Hi. destruct Hi as [Hi|]; [|done]. cbn in Hi.
        injection Hi as <- <-. rewrite decide_True by (rewrite Nat2Z.id; done). f_equal. apply Hy. left.
Qed.
End cells.

Lemma mjoin_cons {A} (l : list A) ls : mjoin (l :: ls) = l ++ mjoin ls.
Proof. done. Qed.

(** ** Logit bias *)

Section logit_bias.
Context (f32 : Q → Q).
Implicit Types (p : LogitBiasLogitsProcessor) (d : list (nat * list (Z * Q))).

(** Every row, token and bias of the dictionary. *)
Definition triples d : list (nat * (Z * Q)) := d ≫= λ e, (λ tb, (e.1, tb)) <$> e.2.

Lemma triples_rows d : mjoin ((λ e : nat * list (Z * Q), replicate (length e.2) e.1) <$> d) = (triples d).*1.
Proof.
  unfold triples. induction d as [|[i lb] d IH]; [done|]. rewrite fmap_cons, mjoin_cons, IH, bind_cons, fmap_app. f_equal.
  rewrite <-list_fmap_compose. cbn [fst snd]. clear. induction lb as [|x lb IH]; [done|]. cbn. by rewrite IH.
Qed.

Lemma triples_map {B} (f : Z * Q → B) d :
  mjoin ((λ e : nat * list (Z * Q), f <$> e.2) <$> d) = (λ q, f q.2) <$> triples d.
Proof.
  unfold triples. induction d as [|[i lb] d IH]; [done|]. rewrite fmap_cons, mjoin_cons, IH, bind_cons, fmap_app. f_equal.
  rewrite <-list_fmap_compose. by apply list_fmap_ext.
Qed.

Lemma elem_of_triples d i tb : NoDup d.*1 → (i, tb) ∈ triples d ↔ ∃ lb, od_get d i = Some lb ∧ tb ∈ lb.
Proof.
  intros Hd. unfold triples. rewrite list_elem_of_bind. split.
  - intros ([j lb] & Hin & He). apply list_elem_of_fmap in Hin as (tb' & [= -> ->] & Hin). exists lb. by rewrite od_get_elem.
  - intros (lb & Hg & Hin). exists (i, lb). rewrite od_get_elem in Hg by done. split; [|done]. apply list_elem_of_fmap. by exists tb.
Qed.

(** The dictionary holds the biases of the slots, and the device arrays the triples. *)
Record lb_inv p (g : slots (list (Z * Q))) : Prop := mkLbInv {
  lbi_tracks : dict_tracks (biases p) g;
  lbi_true : entries_true nonempty (biases p);
  lbi_rows : lb_rows p = (triples (biases p)).*1;
  lbi_tokens : lb_tokens p = (λ q, q.2.1) <$> triples (biases p);
  lbi_tensor : bias_tensor p = (λ q, f32 q.2.2) <$> triples (biases p);
}.

Lemma lb_new_true sp l o x : lb_new_state sp l o = Some x → nonempty x = true.
Proof. unfold lb_new_state. destruct (logit_bias sp) as [[|]|]; try done. by intros [= <-]. Qed.

Lemma lb_sync p d (b : bool) : (b = false → d = biases p) → lb_rows p = (triples (biases p)).*1 →
  lb_tokens p = (λ q, q.2.1) <$> triples (biases p) → bias_tensor p = (λ q, f32 q.2.2) <$> triples (biases p) →
  ∀ g, dict_tracks d g → entries_true nonempty d →
  lb_inv (if b then mkLogitBias d (mjoin ((λ e : nat * list (Z * Q), replicate (length e.2) e.1) <$> d))
      (mjoin ((λ e : nat * list (Z * Q), e.2.*1) <$> d)) (mjoin ((λ e : nat * list (Z * Q), f32 <$> e.2.*2) <$> d))
    else mkLogitBias d (lb_rows p) (lb_tokens p) (bias_tensor p)) g.
Proof.
  intros Hb Hr Ht Hq g Hg He. destruct b.
  - split; [done|done| | |]; cbn.
    + apply triples_rows.
    + apply triples_map.
    + rewrite <-(triples_map (λ tb, f32 tb.2)). f_equal. apply list_fmap_ext. intros ? [i lb] _. cbn. by rewrite <-list_fmap_compose.
  - rewrite Hb by done. rewrite Hb in Hg, He by done. by split.
Qed.

Lemma lb_update p g u : lb_inv p g → Forall no_self_move (bu_moved u) →
  lb_inv (lb_update_state f32 p (Some u)) (apply_update (new_of lb_new_state) g u).
Proof.
  intros [Hg He Hr Ht Hq] Hm. unfold lb_update_state.
  destruct (process_dict_honest nonempty lb_new_state lb_new_true (biases p) (Some u) He) as [He' Hsame].
  pose proof (process_dict_tracks nonempty lb_new_state (biases p) g u Hm Hg) as Hg'.
  destruct (process_dict_updates nonempty lb_new_state (biases p) (Some u)) as [d b]. cbn [fst snd] in *. by apply lb_sync.
Qed.

Lemma lb_update_None p : lb_update_state f32 p None = p.
Proof. by destruct p. Qed.

(** The biased logit of a cell. *)
Definition biased (g : slots (list (Z * Q))) (logits : list (list (option Q))) (i t : nat) : option (option Q) :=
  match g i ≫= (λ lb, od_get lb (Z.of_nat t)) with
  | Some b => (λ x : option Q, (λ x, f32 (x + f32 b)%Q) <$> x) <$> cell logits i t
  | None => cell logits i t
  end.

(** Biases that can be applied to a batch of [n] rows of [V] logits. *)
Definition biases_ok (n V : nat) (g : slots (list (Z * Q))) : Prop :=
  ∀ i lb, g i = Some lb → (i < n)%nat ∧ NoDup lb.*1 ∧ Forall (λ tb, 0 ≤ tb.1 < Z.of_nat V) lb.

Lemma mmap_get V (logits : list (list (option Q))) slice : width V logits → Forall (in_range (length logits) V) slice →
  mmap (get_at logits) slice = Ok ((λ rt : nat * Z, default None (cell logits rt.1 (Z.to_nat rt.2))) <$> slice).
Proof.
  intros Hw Hs. apply mmap_Ok, Forall2_fmap_r. induction Hs as [|rt slice Hrt _ IH]; constructor; [|done].
  destruct (get_at_spec V logits rt Hw Hrt) as (x & E1 & E2). unfold compose. by rewrite E1, E2.
Qed.

(** C23: Applying logit biases adds to every logit, rounded once, the bias its own request
    asks for that token, and leaves all other logits of the batch alone. *)
Theorem logit_bias_exact V p g logits : lb_inv p g → width V logits → biases_ok (length logits) V g →
  ∃ out, lb_apply f32 p logits = Ok out ∧ length out = length logits ∧ ∀ i t, cell out i t = biased g logits i t.
Proof.
  intros [[Hd Hg] He Hr Ht Hq] Hw Hb.
  assert (Hin : Forall (λ q : nat * (Z * Q), in_range (length logits) V (q.1, q.2.1)) (triples (biases p))).
  { apply Forall_forall. intros [i [t b]] Hi. apply elem_of_triples in Hi as (lb & Hlb & Hi); [|done]. rewrite Hg in Hlb.
    destruct (Hb i lb Hlb) as (Hn & _ & Hf). split; [done|]. cbn. by apply (proj1 (Forall_forall _ _) Hf (t, b)). }
  assert (Happ : lb_apply f32 p logits = (
      old ← mmap (get_at logits) (zip (lb_rows p) (lb_tokens p));
      mfold (λ m e, put_at m e.1 e.2) logits
        (zip (zip (lb_rows p) (lb_tokens p)) (zip_with (λ (x : option Q) b, (λ x, f32 (x + b)%Q) <$> x) old (bias_tensor p))))).
  { unfold lb_apply. destruct (biases p) as [|e d] eqn:E; [|done]. rewrite Hr, Ht, Hq. done. }
  rewrite Happ, Hr, Ht, Hq. set (T := triples (biases p)) in *.
  assert (Ez : zip T.*1 ((λ q : nat * (Z * Q), q.2.1) <$> T) = (λ q : nat * (Z * Q), (q.1, q.2.1)) <$> T).
  { rewrite zip_with_fmap_l, zip_with_fmap_r. clear. induction T as [|q T IH]; [done|]. cbn. by rewrite IH. }
  rewrite Ez. rewrite (mmap_get V) by (try done; by apply Forall_fmap). cbn [mbind result_bind].
  set (val := λ q : nat * (Z * Q), (λ x, f32 (x + f32 q.2.2)%Q) <$> default None (cell logits q.1 (Z.to_nat q.2.1))).
  assert (Ee : zip ((λ q : nat * (Z * Q), (q.1, q.2.1)) <$> T) (zip_with (λ (x : option Q) b, (λ x, f32 (x + b)%Q) <$> x)
      ((λ rt : nat * Z, default None (cell logits rt.1 (Z.to_nat rt.2))) <$> ((λ q : nat * (Z * Q), (q.1, q.2.1)) <$> T))
      ((λ q : nat * (Z * Q), f32 q.2.2) <$> T)) = (λ q, ((q.1, q.2.1), val q)) <$> T).
  { clear. induction T as [|q T IH]; [done|]. cbn in *. by rewrite IH. }
  rewrite Ee. destruct (put_all_spec V ((λ q, ((q.1, q.2.1), val q)) <$> T) logits Hw) as (out & E & _ & Hl & Hout & Hset).
  { apply Forall_fmap. exact Hin. }
  exists out. split; [exact E|]. split; [done|]. intros i t. unfold biased.
  assert (Hk : (i, Z.of_nat t) ∈ ((λ q : nat * (Z * Q), ((q.1, q.2.1), val q)) <$> T).*1 ↔ ∃ b, (i, (Z.of_nat t, b)) ∈ T).
  { rewrite <-list_fmap_compose, list_elem_of_fmap. split.
    - intros ([j [t' b]] & [= -> ->] & Hq'). by exists b.
    - intros [b Hq']. by exists (i, (Z.of_nat t, b)). }
  destruct (g i) as [lb|] eqn:Eg; cbn [mbind option_bind].
  - destruct (Hb i lb Eg) as (Hn & Hnd & Hf). destruct (od_get lb (Z.of_nat t)) as [b|] eqn:Eb.
    + assert (Hq' : (i, (Z.of_nat t, b)) ∈ T). { apply elem_of_triples; [done|]. exists lb. rewrite Hg. split; [done|]. by apply od_get_elem. }
      destruct (get_at_spec V logits (i, Z.of_nat t)) as (x & _ & Hx); [done|by apply (proj1 (Forall_forall _ _) Hin _ Hq')|].
      cbn in Hx. rewrite Nat2Z.id in Hx. rewrite Hx. cbn. apply Hset; [apply Hk; by exists b|].
      intros y Hy. apply list_elem_of_fmap in Hy as ([j [t' b']] & [= <- <- ->] & Hy).
      apply elem_of_triples in Hy as (lb' & Hlb' & Hy); [|done]. rewrite Hg, Eg in Hlb'. injection Hlb' as <-.
      apply od_get_elem in Hy; [|done]. rewrite Eb in Hy. injection Hy as <-. unfold val. cbn. by rewrite Nat2Z.id, Hx.
    + apply Hout. rewrite Hk. intros [b Hq']. apply elem_of_triples in Hq' as (lb' & Hlb' & Hy); [|done].
      rewrite Hg, Eg in Hlb'. injection Hlb' as <-. apply od_get_elem in Hy; [|done]. congruence.
  - apply Hout. rewrite Hk. intros [b Hq']. apply elem_of_triples in Hq' as (lb' & Hlb' & _); [|done]. congruence.
Qed.
End logit_bias.

(** ** Minimum number of tokens *)

(** What the batch records of a request that was added. *)
Definition slot : Type := SamplingParams * option (list Z) * loc.
Definition slot_of (a : AddedRequest) : slot := (ad_params a, ad_prompt a, ad_output a).

Section min_tokens.
Implicit Types (p : MinTokensLogitsProcessor) (d : list (nat * (Z * loc * list Z))) (h : heap) (s : slots slot).

(** The entry of a request that still has to produce tokens. *)
Definition mt_want h (r : slot) : option (Z * loc * list Z) := let '(sp, pr, o) := r in mt_add_request h sp pr o.

Definition mt_pairs d : list (nat * Z) := d ≫= λ e, (λ t, (e.1, t)) <$> e.2.2.

Lemma mt_pairs_zip d :
  zip (mjoin ((λ e : nat * (Z * loc * list Z), replicate (length e.2.2) e.1) <$> d))
    (mjoin ((λ e : nat * (Z * loc * list Z), e.2.2) <$> d)) = mt_pairs d.
Proof.
  unfold mt_pairs. induction d as [|[i [ml st]] d IH]; [done|]. rewrite !fmap_cons, !mjoin_cons, bind_cons. cbn [fst snd].
  rewrite zip_with_app by (by rewrite length_replicate). f_equal; [|done].
  clear. induction st as [|t st IH]; [done|]. cbn. by rewrite IH.
Qed.

Lemma elem_of_mt_pairs d i t : NoDup d.*1 → (i, t) ∈ mt_pairs d ↔ ∃ e, od_get d i = Some e ∧ t ∈ e.2.
Proof.
  intros Hd. unfold mt_pairs. rewrite list_elem_of_bind. split.
  - intros ([j e] & Hin & He). apply list_elem_of_fmap in Hin as (t' & [= -> ->] & Hin). exists e. by rewrite od_get_elem.
  - intros (e & Hg & Hin). exists (i, e). rewrite od_get_elem in Hg by done. split; [|done]. apply list_elem_of_fmap. by exists t.
Qed.

(** The dictionary holds the requests of the slots below their minimum. *)
Record mt_inv h p s : Prop := mkMtInv {
  mti_tracks : dict_tracks (min_toks p) (sl_map (mt_want h) s);
  mti_slice : zip (mt_rows p) (mt_tokens p) = mt_pairs (min_toks p);
}.

(** Between the stores no request falls below its minimum again. *)
Definition mt_grow h h' s : Prop := ∀ i r, s i = Some r → mt_want h r = None → mt_want h' r = None.

Definition mt_keep h (e : Z * loc * list Z) : option (Z * loc * list Z) :=
  let '(m, o, _) := e in if m <=? zlen (deref h o) then None else Some e.

Lemma mt_want_keep h r : mt_want h r ≫= mt_keep h = mt_want h r.
Proof.
  destruct r as [[sp pr] o]. unfold mt_want, mt_add_request.
  destruct (min_tokens sp =? 0); cbn; [done|]. destruct (min_tokens sp <=? _) eqn:E; cbn; [done|]. by rewrite E.
Qed.

Lemma mt_want_later h h' r : (mt_want h r = None → mt_want h' r = None) → mt_want h r ≫= mt_keep h' = mt_want h' r.
Proof.
  destruct r as [[sp pr] o]. unfold mt_want, mt_add_request.
  destruct (min_tokens sp =? 0); cbn; [done|]. destruct (min_tokens sp <=? _) eqn:E; cbn.
  - intros ->; done.
  - intros _. by destruct (min_tokens sp <=? zlen (deref h' o)).
Qed.

Lemma od_dels_get {T} (l : list nat) (d : list (nat * T)) : NoDup d.*1 →
  NoDup (foldl od_del d l).*1 ∧ ∀ i, od_get (foldl od_del d l) i = if decide (i ∈ l) then None else od_get d i.
Proof.
  revert d. induction l as [|k l IH]; intros d Hd; [done|]. cbn. destruct (IH (od_del d k)) as [H1 H2]; [by apply od_del_nodup|].
  split; [done|]. intros i. rewrite H2, od_get_del by done. destruct (decide (i ∈ l)) as [Hl|Hl]; [by rewrite decide_True by by right|].
  destruct (decide (i = k)) as [->|Hk]; [by rewrite decide_True by left|]. rewrite decide_False; [done|]. by intros [?|?]%elem_of_cons.
Qed.

(** Dropping what reached its minimum. *)
Lemma mt_drop h d g : dict_tracks d g →
  dict_tracks (foldl od_del d (filter (λ e, mt_reached h e = true) d).*1) (sl_map (mt_keep h) g).
Proof.
  intros [Hd Hg]. destruct (od_dels_get (filter (λ e, mt_reached h e = true) d).*1 d Hd) as [H1 H2]. split; [done|].
  intros i. rewrite H2. unfold sl_map. rewrite <-Hg. destruct (decide (i ∈ _)) as [Hin|Hin].
  - apply list_elem_of_fmap in Hin as ([j [[m o] st]] & -> & [Hr Hin]%list_elem_of_filter). apply od_get_elem in Hin; [|done].
    cbn [fst]. rewrite Hin. cbn. unfold mt_reached in Hr. by rewrite Hr.
  - destruct (od_get d i) as [[[m o] st]|] eqn:E; [|done]. cbn. destruct (m <=? _) eqn:Er; [|done]. destruct Hin.
    apply list_elem_of_fmap. exists (i, (m, o, st)). split; [done|]. apply list_elem_of_filter. split; [exact Er|]. by apply od_get_elem.
Qed.

Lemma mt_finish h p d (b : bool) g : zip (mt_rows p) (mt_tokens p) = mt_pairs (min_toks p) → (b = false → d = min_toks p) →
  dict_tracks d g →
  let p' := (let '(min_toks, needs_update) :=
      match (filter (λ e, mt_reached h e = true) d).*1 with
      | [] => (d, b) | _ => (foldl od_del d (filter (λ e, mt_reached h e = true) d).*1, true) end in
    if (needs_update : bool) then
      mkMinTokens min_toks (mjoin ((λ e : nat * (Z * loc * list Z), replicate (length e.2.2) e.1) <$> min_toks))
        (mjoin ((λ e : nat * (Z * loc * list Z), e.2.2) <$> min_toks))
    else mkMinTokens min_toks (mt_rows p) (mt_tokens p)) in
  dict_tracks (min_toks p') (sl_map (mt_keep h) g) ∧ zip (mt_rows p') (mt_tokens p') = mt_pairs (min_toks p').
Proof.
  intros Hz Hb Hd. pose proof (mt_drop h d g Hd) as Hdrop.
  destruct (filter (λ e, mt_reached h e = true) d).*1 as [|k l]; cbn [foldl] in Hdrop.
  - destruct b; cbn; (split; [done|]); [apply mt_pairs_zip|]. by rewrite Hb.
  - cbn. split; [done|]. apply mt_pairs_zip.
Qed.

Lemma mt_update h h' p s u : mt_inv h p s → Forall no_self_move (bu_moved u) → mt_grow h h' s →
  mt_inv h' (mt_update_state h' p (Some u)) (apply_update (λ a, Some (slot_of a)) s u).
Proof.
  intros [Hg Hz] Hm Hgrow. unfold mt_update_state.
  pose proof (process_dict_tracks (λ _, true) (mt_add_request h') (min_toks p) _ u Hm Hg) as Hg'.
  assert (Ht : entries_true (λ _ : Z * loc * list Z, true) (min_toks p)) by (by apply Forall_true).
  destruct (process_dict_honest (λ _, true) (mt_add_request h') (λ _ _ _ _ _, eq_refl) (min_toks p) (Some u) Ht) as [_ Hsame].
  destruct (process_dict_updates (λ _, true) (mt_add_request h') (min_toks p) (Some u)) as [d b]. cbn [fst snd] in *.
  destruct (mt_finish h' p d b _ Hz Hsame Hg') as [H1 H2]. split; [|exact H2]. eapply dict_tracks_proper; [|exact H1].
  rewrite apply_update_natural. rewrite (apply_update_natural (mt_want h')). unfold apply_update, sl_moves.
  apply sl_moves_proper; [|done]. apply sl_removes_proper; [|done].
  assert (Hs : sl_eq (sl_map (mt_keep h') (sl_map (mt_want h) s)) (sl_map (mt_want h') s)).
  { intros i. unfold sl_map. destruct (s i) as [r|] eqn:E; [|done]. cbn. apply mt_want_later. by apply (Hgrow i). }
  assert (Hn : ∀ a, new_of (mt_add_request h') a ≫= mt_keep h' = Some (slot_of a) ≫= mt_want h') by (intros a; apply (mt_want_keep h' (slot_of a))).
  unfold sl_adds. revert Hs. generalize (sl_map (mt_keep h') (sl_map (mt_want h) s)) (sl_map (mt_want h') s).
  induction (bu_added u) as [|a l IH]; intros g1 g2 Hs; [done|]. cbn [foldl]. apply IH. rewrite (Hn a). by apply upd_proper.
Qed.

Lemma mt_update_None h h' p s : mt_inv h p s → mt_grow h h' s → mt_inv h' (mt_update_state h' p None) s.
Proof.
  intros [Hg Hz] Hgrow. unfold mt_update_state. cbn [process_dict_updates].
  destruct (mt_finish h' p (min_toks p) false _ Hz (λ _, eq_refl) Hg) as [H1 H2]. split; [|exact H2].
  eapply dict_tracks_proper; [|exact H1].
  intros i. unfold sl_map. destruct (s i) as [r|] eqn:E; [|done]. cbn. apply mt_want_later. by apply (Hgrow i).
Qed.

(** Stop tokens that can be masked in a batch of [n] rows of [V] logits. *)
Definition stops_ok (n V : nat) s : Prop :=
  ∀ i sp pr o, s i = Some (sp, pr, o) → (i < n)%nat ∧ Forall (λ t, 0 ≤ t < Z.of_nat V) (all_stop_token_ids sp).

(** Whether the logit of token [t] at index [i] is to be masked. *)
Definition masked h s (i t : nat) : bool :=
  match s i ≫= mt_want h with Some (_, st) => bool_decide (Z.of_nat t ∈ st) | None => false end.

Lemma neg_inf_spec V (logits : list (list (option Q))) slice : width V logits → Forall (in_range (length logits) V) slice →
  ∃ out, put_neg_inf logits slice = Ok out ∧ length out = length logits ∧
    ∀ i t, cell out i t = if decide ((i, Z.of_nat t) ∈ slice) then Some None else cell logits i t.
Proof.
  intros Hw Hs. unfold put_neg_inf. destruct (put_all_spec V ((λ rt, (rt, @None Q)) <$> slice) logits Hw) as (out & E & _ & Hl & Hout & Hin).
  { apply Forall_fmap. exact Hs. }
  assert (Ek : ((λ rt : nat * Z, (rt, @None Q)) <$> slice).*1 = slice).
  { rewrite <-list_fmap_compose. apply list_fmap_id. }
  rewrite Ek in Hout, Hin. exists out. split.
  - rewrite <-E. clear. revert logits. induction slice as [|rt slice IH]; intros logits; [done|]. cbn. destruct (put_at logits rt None); [|done]. cbn. apply IH.
  - split; [done|]. intros i t. case_decide as Hit; [|by apply Hout]. apply Hin; [done|].
    intros y Hy. by apply list_elem_of_fmap in Hy as (? & [= _ ->] & _).
Qed.

Lemma mt_apply_spec h V p s (logits : list (list (option Q))) : mt_inv h p s → width V logits → stops_ok (length logits) V s →
  ∃ out, mt_apply p logits = Ok out ∧ length out = length logits ∧
    ∀ i t, cell out i t = if masked h s i t then Some None else cell logits i t.
Proof.
  intros [[Hd Hg] Hz] Hw Hs.
  assert (Ha : mt_apply p logits = put_neg_inf logits (mt_pairs (min_toks p))).
  { unfold mt_apply. rewrite Hz. by destruct (min_toks p). }
  assert (Hp : ∀ i t, (i, t) ∈ mt_pairs (min_toks p) ↔ ∃ e, sl_map (mt_want h) s i = Some e ∧ t ∈ e.2).
  { intros i t. rewrite elem_of_mt_pairs by done. by setoid_rewrite Hg. }
  destruct (neg_inf_spec V logits (mt_pairs (min_toks p)) Hw) as (out & E & Hl & Hc).
  { apply Forall_forall. intros [i t] (e & He & Ht)%Hp. unfold sl_map in He. destruct (s i) as [[[sp pr] o]|] eqn:Es; [|done].
    destruct (Hs i sp pr o Es) as [Hn Hf]. split; [done|]. cbn in He. unfold mt_add_request in He.
    destruct ((min_tokens sp =? 0) || _); [done|]. injection He as <-. by apply (proj1 (Forall_forall _ _) Hf). }
  rewrite Ha. exists out. split; [done|]. split; [done|]. intros i t. rewrite Hc. unfold masked.
  destruct (decide _) as [Hin|Hin]; rewrite Hp in Hin.
  - destruct Hin as (e & He & Ht). unfold sl_map in He. rewrite He. destruct e as [mo st]. by rewrite bool_decide_true.
  - unfold sl_map in Hin. destruct (s i ≫= mt_want h) as [[mo st]|] eqn:E'; [|done]. rewrite bool_decide_false; [done|].
    intros Ht. apply Hin. by exists (mo, st).
Qed.

(** *** With draft tokens: several rows per request *)

Lemma row_starts_lookup (ns : list nat) a i : (i ≤ length ns)%nat →
  row_starts a (Z.of_nat <$> ns) !! i = Some (a + Z.of_nat (offset_of ns i)).
Proof.
  revert a i. induction ns as [|n ns IH]; intros a [|i] Hi; cbn [length] in Hi; [cbn; f_equal; lia|lia|cbn; f_equal; lia|].
  rewrite fmap_cons. cbn [row_starts lookup list_lookup]. rewrite IH by lia. unfold offset_of. cbn. f_equal. lia.
Qed.

Lemma repeat_tile (rs : list nat) (st : list Z) :
  zip (mjoin ((λ r, replicate (length st) r) <$> rs)) (mjoin (replicate (length rs) st)) = rs ≫= λ r, (λ t, (r, t)) <$> st.
Proof.
  induction rs as [|r rs IH]; [done|]. cbn [length replicate]. rewrite fmap_cons, !mjoin_cons, bind_cons.
  rewrite zip_with_app by (by rewrite length_replicate). rewrite <-IH. f_equal.
  clear. induction st as [|t st IH]; [done|]. cbn. by rewrite IH.
Qed.

(** How many leading rows of a request are masked. *)
Definition n_mask h (e : Z * loc * list Z) (n : nat) : nat :=
  let '(m, o, _) := e in Nat.min (Z.to_nat (m - zlen (deref h o))) n.

Lemma mt_entry_spec h (ns : list nat) i e n : ns !! i = Some n →
  ∃ slice, mt_entry h (Z.of_nat <$> ns) (i, e) = Ok slice ∧
    ∀ r t, (r, t) ∈ slice ↔ t ∈ e.2 ∧ ∃ k, r = (offset_of ns i + k)%nat ∧ (k < n_mask h e n)%nat.
Proof.
  intros Hn. destruct e as [[m o] st]. unfold mt_entry, n_mask, py_index. rewrite !Nat2Z.id, list_lookup_fmap, Hn. cbn [fmap option_fmap option_map mbind result_bind].
  assert (Hi : (i < length ns)%nat) by (by eapply lookup_lt_Some). rewrite row_starts_lookup by lia.
  set (q := Nat.min (Z.to_nat (m - zlen (deref h o))) n). replace (Z.min (Z.max (m - zlen (deref h o)) 0) (Z.of_nat n)) with (Z.of_nat q) by lia.
  destruct (0 <? Z.of_nat q) eqn:Eq; cbn [mbind result_bind].
  - eexists. split; [done|]. intros r t. rewrite Z.add_0_l.
    assert (Er : Z.to_nat <$> py_range (Z.of_nat (offset_of ns i)) (Z.of_nat (offset_of ns i) + Z.of_nat q) = seq (offset_of ns i) q).
    { unfold py_range. replace (Z.to_nat (Z.of_nat (offset_of ns i) + Z.of_nat q - Z.of_nat (offset_of ns i))) with q by lia.
      rewrite <-list_fmap_compose. transitivity (Nat.add (offset_of ns i) <$> seq 0 q); [|by rewrite fmap_add_seq, Nat.add_0_r]. apply list_fmap_ext. intros ? x _. cbn. lia. }
    rewrite Er, Nat2Z.id. pose proof (repeat_tile (seq (offset_of ns i) q) st) as Et. rewrite length_seq in Et. rewrite Et, list_elem_of_bind. split.
    + intros (r' & Hr & Hs). apply list_elem_of_fmap in Hr as (t' & [= -> ->] & Ht). split; [done|].
      apply elem_of_seq in Hs. exists (r' - offset_of ns i)%nat. lia.
    + intros [Ht (k & -> & Hk)]. exists (offset_of ns i + k)%nat. split; [apply list_elem_of_fmap; by exists t|]. apply elem_of_seq. lia.
  - eexists. split; [done|]. intros r t. apply Z.ltb_ge in Eq. split; [by intros ?%elem_of_nil|]. intros [_ (k & _ & Hk)]. lia.
Qed.

(** Whether the logit of token [t] for the [k]-th draft position of request [i] is masked. *)
Definition masked_at h s (i k t : nat) : bool :=
  match s i ≫= mt_want h with
  | Some (m, o, st) => bool_decide (Z.of_nat t ∈ st) && (zlen (deref h o) + Z.of_nat k <? m)
  | None => false
  end.

Lemma mt_spec_slices h (ns : list nat) (es : list (nat * (Z * loc * list Z))) : Forall (λ e, (e.1 < length ns)%nat) es →
  ∃ slices, mmap (mt_entry h (Z.of_nat <$> ns)) es = Ok slices ∧
    ∀ r t, (r, t) ∈ mjoin slices ↔ ∃ i e n k, (i, e) ∈ es ∧ ns !! i = Some n ∧ t ∈ e.2 ∧ r = (offset_of ns i + k)%nat ∧ (k < n_mask h e n)%nat.
Proof.
  induction 1 as [|[i e] es Hi _ (slices & E & IH)].
  - exists []. split; [done|]. intros r t. split; [by intros ?%elem_of_nil|]. by intros (i & e & n & k & ?%elem_of_nil & _).
  - destruct (lookup_lt_is_Some_2 ns i Hi) as [n Hn]. destruct (mt_entry_spec h ns i e n Hn) as (slice & Es & Hs).
    exists (slice :: slices). cbn [mmap]. rewrite Es, E. split; [done|]. intros r t. rewrite mjoin_cons, elem_of_app, Hs, IH. split.
    + intros [[Ht (k & -> & Hk)]|(i' & e' & n' & k & He & Hr)]; [exists i, e, n, k; split; [left|done]|exists i', e', n', k; split; [by right|done]].
    + intros (i' & e' & n' & k & [[= -> ->]|He]%elem_of_cons & Hn' & Ht & -> & Hk).
      * left. rewrite Hn in Hn'. injection Hn' as <-. split; [done|]. by exists k.
      * right. by exists i', e', n', k.
Qed.

(** C22: With draft tokens every request has several rows of logits; the stop tokens of a
    request are masked at exactly the rows whose position, counting the tokens before
    it, is below its minimum number of tokens, and no other logit changes. *)
Theorem min_tokens_masked_exactly h V p s (logits : list (list (option Q))) (ns : list nat) :
  mt_inv h p s → width V logits → stops_ok (length ns) V s → length logits = sum_list ns →
  ∃ out, mt_apply_with_spec_decode h p logits (Z.of_nat <$> ns) = Ok out ∧ length out = length logits ∧
    ∀ i n k t, ns !! i = Some n → (k < n)%nat →
      cell out (offset_of ns i + k) t = if masked_at h s i k t then Some None else cell logits (offset_of ns i + k) t.
Proof.
  intros [[Hd Hg] Hz] Hw Hs Hl.
  assert (He : ∀ i e, (i, e) ∈ filter (λ e : nat * (Z * loc * list Z), nonempty e.2.2 = true) (min_toks p) ↔
    e.2 ≠ [] ∧ s i ≫= mt_want h = Some e).
  { intros i e. rewrite list_elem_of_filter, <-od_get_elem, Hg by done. cbn. unfold sl_map. destruct (e.2); naive_solver. }
  assert (Hok : ∀ i e, s i ≫= mt_want h = Some e → (i < length ns)%nat ∧ Forall (λ t, 0 ≤ t < Z.of_nat V) e.2).
  { intros i e Hi. destruct (s i) as [[[sp pr] o]|] eqn:Es; [|done]. destruct (Hs i sp pr o Es) as [Hn Hf]. split; [done|].
    cbn in Hi. unfold mt_add_request in Hi. destruct ((min_tokens sp =? 0) || _); [done|]. by injection Hi as <-. }
  unfold mt_apply_with_spec_decode. edestruct (mt_spec_slices h ns) as (slices & E & Hsl); [|rewrite E; cbn [mbind result_bind]].
  { apply Forall_forall. intros [i e] [_ Hi]%He. by apply (Hok i e). }
  destruct (neg_inf_spec V logits (mjoin slices) Hw) as (out & Eo & Hlo & Hc).
  { apply Forall_forall. intros [r t] (i & e & n & k & [_ Hi]%He & Hn & Ht & -> & Hk)%Hsl. destruct (Hok i e Hi) as [_ Hf]. split.
    - pose proof (offset_of_total ns i n Hn). cbn. unfold n_mask in Hk. destruct e as [[m o] st]. lia.
    - by apply (proj1 (Forall_forall _ _) Hf). }
  exists out. split; [exact Eo|]. split; [done|]. intros i n k t Hn Hk. rewrite Hc. unfold masked_at.
  destruct (decide _) as [Hin|Hin]; rewrite Hsl in Hin.
  - destruct Hin as (i' & [[m o] st] & n' & k' & [_ Hi]%He & Hn' & Ht & Er & Hk'). cbn in Ht, Hk'.
    destruct (offset_of_unique ns i i' k k' n n') as [<- <-]; [done|done|done|lia|done|]. rewrite Hi.
    rewrite bool_decide_true by done. by rewrite (proj2 (Z.ltb_lt _ _)) by lia.
  - destruct (s i ≫= mt_want h) as [[[m o] st]|] eqn:Ei; [|done]. case_bool_decide as Ht; [|done]. cbn [andb].
    destruct (_ <? m) eqn:Em; [|done]. destruct Hin. apply Z.ltb_lt in Em. exists i, (m, o, st), n, k. split_and!; [|done|done|done|].
    + apply He. split; [|done]. cbn. intros ->. by apply elem_of_nil in Ht.
    + cbn. lia.
Qed.
End min_tokens.

(** ** Examples *)

Lemma logit_bias_exact_witness : ∃ out, lb_apply (λ x, x) (mkLogitBias [(0%nat, [(1, 2%Q)])] [0%nat] [1] [2%Q]) [[Some 1%Q; Some 1%Q]; [Some 1%Q; None]] = Ok out ∧
  cell out 0 1 = Some (Some (1 + 2)%Q) ∧ cell out 1 1 = Some None.
Proof.
  destruct (logit_bias_exact (λ x, x) 2%nat (mkLogitBias [(0%nat, [(1, 2%Q)])] [0%nat] [1] [2%Q]) (λ i, if decide (i = 0%nat) then Some [(1, 2%Q)] else None)
    [[Some 1%Q; Some 1%Q]; [Some 1%Q; None]]) as (out & E & _ & Hc).
  - split; try done; [split; [apply NoDup_singleton|]|by repeat constructor]. by intros [|i].
  - by repeat constructor.
  - intros i lb. case_decide as Hi; [|done]. intros [= <-]. subst. split_and!; [cbn; lia|apply NoDup_singleton|]. repeat constructor; cbn; lia.
  - exists out. by rewrite !Hc.
Defined.

Lemma min_tokens_masked_exactly_witness :
  let h : heap := {[1%positive := [5]]} in
  ∃ out, mt_apply_with_spec_decode h (mkMinTokens [(1%nat, (2, 1%positive, [1]))] [1%nat] [1]) [[Some 1%Q; Some 1%Q]; [Some 1%Q; Some 1%Q]; [Some 1%Q; Some 1%Q]] [1; 2] = Ok out ∧
    cell out 0 1 = Some (Some 1%Q) ∧ cell out 1 1 = Some None ∧ cell out 2 1 = Some (Some 1%Q).
Proof.
  intros h. set (sp := mkSP 1 None 1 (-1) 0 0 0 1 2 [1] None None None None None).
  destruct (min_tokens_masked_exactly h 2%nat (mkMinTokens [(1%nat, (2, 1%positive, [1]))] [1%nat] [1])
    (λ i, if decide (i = 1%nat) then Some (sp, None, 1%positive) else None)
    [[Some 1%Q; Some 1%Q]; [Some 1%Q; Some 1%Q]; [Some 1%Q; Some 1%Q]] [1; 2]%nat) as (out & E & _ & Hc).
  - split; [split; [apply NoDup_singleton|by intros [|[|i]]]|done].
  - by repeat constructor.
  - intros i sp' pr o. case_decide as Hi; [|done]. intros [= <- <- <-]. subst. split; [cbn; lia|]. repeat constructor; cbn; lia.
  - done.
  - exists out. split; [done|]. split_and!.
    + exact (Hc 0%nat 1%nat 0%nat 1%nat eq_refl ltac:(lia)).
    + exact (Hc 1%nat 2%nat 0%nat 1%nat eq_refl ltac:(lia)).
    + exact (Hc 1%nat 2%nat 1%nat 1%nat eq_refl ltac:(lia)).
Defined.
