(* ===== verification/MinPFacts.v ===== *)
(** * The min-p array keeps in step with the batch
    The array of the min-p processor holds the parameter of the request at each
    index as a 32-bit float, its counter is at least the number of entries that are
    not zero (more when a parameter was rounded to zero), and the slice on the
    device holds the entries of the current batch. *)

From Stdlib Require Import QArith.
From S2P Require Import Prelude OrderedDict BatchUpdate BatchUpdateFacts LogitsFacts.

#[local] Open Scope Z_scope.

(** ** What updates do not touch *)

Section from.
Context {A : Type}.
Implicit Types (s : slots A).

Lemma sl_move_from s m i r : sl_move s m i = Some r → ∃ j, s j = Some r.
Proof. destruct m as [[a b] d]. unfold sl_move, upd. destruct d; repeat case_decide; by eauto. Qed.

Lemma sl_moves_from s l i r : sl_moves s l i = Some r → ∃ j, s j = Some r.
Proof.
  unfold sl_moves. revert s i. induction l as [|m l IH]; intros s i H; [by exists i|]. cbn in H.
  apply IH in H as [j H]. by apply sl_move_from in H.
Qed.

Lemma sl_removes_from s l i r : sl_removes s l i = Some r → s i = Some r.
Proof. rewrite sl_removes_spec. by case_decide. Qed.

Definition move_in (N : nat) (m : MovedRequest) : Prop := (m.1.1 < N)%nat ∧ (m.1.2 < N)%nat.

Lemma sl_moves_outside N s l : Forall (move_in N) l → (∀ i, (N ≤ i)%nat → s i = None) → ∀ i, (N ≤ i)%nat → sl_moves s l i = None.
Proof.
  unfold sl_moves. revert s. induction l as [|m l IH]; intros s Hl Hs; [done|]. apply Forall_cons in Hl as [[Ha Hb] Hl]. cbn.
  apply IH; [done|]. intros i Hi. destruct m as [[a b] d]. cbn in *. unfold upd. rewrite !decide_False by lia. by apply Hs.
Qed.
End from.

Section min_p.
Context (f32 : Q → Q).
(** Rounding takes zero to zero (and, when they are small enough, other numbers). *)
Context (f32_zero : ∀ x, (x == 0)%Q → (f32 x == 0)%Q).
Context (N : nat).

Definition b2z (b : bool) : Z := if b then 1 else 0.

(** Number of entries that are not zero. *)
Definition nz (l : list Q) : Z := foldr (λ x n, b2z (q_true x) + n) 0 l.

Lemma nz_cons x l : nz (x :: l) = b2z (q_true x) + nz l.
Proof. done. Qed.

Lemma nz_insert l i x y : l !! i = Some y → nz (<[i := x]> l) = nz l - b2z (q_true y) + b2z (q_true x).
Proof.
  revert i. induction l as [|z l IH]; intros [|i] H; [done|done| |].
  - injection H as ->. change (<[0%nat := x]> (y :: l)) with (x :: l). rewrite !nz_cons. lia.
  - change (<[S i := x]> (z :: l)) with (z :: <[i := x]> l). rewrite !nz_cons, (IH i H). lia.
Qed.

Lemma nz_nonneg l : 0 ≤ nz l.
Proof. induction l as [|x l IH]; [done|]. rewrite nz_cons. unfold b2z. destruct (q_true x); lia. Qed.

Lemma nz_zero l i x : nz l = 0 → l !! i = Some x → (x == 0)%Q.
Proof.
  intros H Hx. pose proof (nz_insert l i 0%Q x Hx) as Hi. pose proof (nz_nonneg (<[i := 0%Q]> l)). change (q_true 0) with false in Hi.
  unfold b2z, q_true in Hi. destruct (Qeq_bool x 0) eqn:E; [by apply Qeq_bool_eq|]. cbn in Hi. lia.
Qed.

Lemma q_true_eq x y : (x == y)%Q → q_true x = q_true y.
Proof. intros H. unfold q_true. by rewrite H. Qed.

Lemma q_true_f32 x : q_true (f32 x) = true → q_true x = true.
Proof.
  unfold q_true. rewrite !negb_true_iff. intros H. destruct (Qeq_bool x 0) eqn:E; [|done].
  apply Qeq_bool_eq, f32_zero, Qeq_eq_bool in E. congruence.
Qed.

Lemma q_true_false x : q_true x = false → (x == 0)%Q.
Proof. unfold q_true. intros H%negb_false_iff. by apply Qeq_bool_eq. Qed.

(** The min-p of a slot; an empty slot has none. *)
Definition minp_at (s : slots slot) (i : nat) : Q := match s i with Some (sp, _, _) => f32 (min_p sp) | None => 0 end.

(** The array agrees with the slots, and the counter covers the array. *)
Record mp_ok (count : Z) (cpu : list Q) (s : slots slot) : Prop := mkMpOk {
  mp_count : nz cpu ≤ count;
  mp_len : length cpu = N;
  mp_val : ∀ i x, cpu !! i = Some x → (x == minp_at s i)%Q;
  mp_out : ∀ i, (N ≤ i)%nat → s i = None;
}.

Lemma mp_lookup count cpu s i : mp_ok count cpu s → (i < N)%nat → ∃ x, cpu !! i = Some x ∧ (x == minp_at s i)%Q.
Proof.
  intros H Hi. destruct (lookup_lt_is_Some_2 cpu i) as [x Hx]; [rewrite (mp_len _ _ _ H); lia|].
  exists x. split; [done|]. by apply (mp_val _ _ _ H).
Qed.

Lemma mp_mono count count' cpu s : count ≤ count' → mp_ok count cpu s → mp_ok count' cpu s.
Proof. intros Hle [Hc Hl Hv Ho]. split; [lia|done..]. Qed.

(** Writing an entry and changing its slot. *)
Lemma mp_set count cpu s i x y r : mp_ok count cpu s → cpu !! i = Some y →
  (x == match r with Some (sp, _, _) => f32 (min_p sp) | None => 0 end)%Q →
  mp_ok (count - b2z (q_true y) + b2z (q_true x)) (<[i := x]> cpu) (upd s i r).
Proof.
  intros [Hc Hl Hv Ho] Hy Hx. split.
  - rewrite (nz_insert cpu i x y Hy). lia.
  - by rewrite length_insert.
  - intros j z. rewrite list_lookup_insert_Some. unfold minp_at, upd. intros [(<- & <- & _)|[Hne Hz]].
    + by rewrite decide_True.
    + rewrite decide_False by done. by apply Hv.
  - intros j Hj. apply lookup_lt_Some in Hy. rewrite upd_ne by lia. by apply Ho.
Qed.

(** Leaving an entry that already has the value of the new slot. *)
Lemma mp_same count cpu s i y r : mp_ok count cpu s → cpu !! i = Some y →
  (y == match r with Some (sp, _, _) => f32 (min_p sp) | None => 0 end)%Q → mp_ok count cpu (upd s i r).
Proof.
  intros [Hc Hl Hv Ho] Hy Hx. split; [done|done| |].
  - intros j z Hz. unfold minp_at, upd. case_decide; [subst; rewrite Hy in Hz; by injection Hz as <-|]. by apply Hv.
  - intros j Hj. apply lookup_lt_Some in Hy. rewrite upd_ne by lia. by apply Ho.
Qed.

Lemma mp_proper count cpu s1 s2 : sl_eq s1 s2 → mp_ok count cpu s1 → mp_ok count cpu s2.
Proof.
  intros H [Hc Hl Hv Ho]. split; [done|done| |].
  - intros i x Hx. unfold minp_at. rewrite <-H. by apply Hv.
  - intros i Hi. rewrite <-H. by apply Ho.
Qed.

Lemma minp_added_ok count cpu nu s a : mp_ok count cpu s → (ad_index a < N)%nat →
  ∃ count' cpu' nu', minp_added f32 (count, cpu, nu) a = Ok (count', cpu', nu') ∧
    mp_ok count' cpu' (upd s (ad_index a) (Some (slot_of a))) ∧ (nu' = false → nu = false ∧ count' = count ∧ cpu' = cpu).
Proof.
  intros H Hi. destruct (mp_lookup _ _ _ _ H Hi) as (y & Hy & Ey). unfold minp_added. rewrite Hy.
  destruct (Qeq_bool y (f32 (min_p (ad_params a)))) eqn:E; cbn [negb].
  - do 3 eexists. split; [done|]. split; [|done]. apply (mp_same _ _ _ _ y); [done|done|]. by apply Qeq_bool_eq.
  - do 3 eexists. split; [done|]. split; [|done].
    pose proof (mp_set count cpu s (ad_index a) (f32 (min_p (ad_params a))) y (Some (slot_of a)) H Hy (Qeq_refl _)) as H1.
    refine (mp_mono _ _ _ _ _ H1). pose proof (q_true_f32 (min_p (ad_params a))) as Ht.
    destruct (q_true (f32 _)), (q_true (min_p (ad_params a))), (q_true y); cbn [b2z andb negb]; try lia; by discriminate Ht.
Qed.

Lemma minp_removed_ok count cpu s i : mp_ok count cpu s → (i < N)%nat →
  ∃ count' cpu', minp_removed (count, cpu) i = Ok (count', cpu') ∧ mp_ok count' cpu' (upd s i None).
Proof.
  intros H Hi. destruct (mp_lookup _ _ _ _ H Hi) as (y & Hy & Ey). unfold minp_removed. rewrite Hy.
  destruct (q_true y) eqn:E; do 2 eexists; (split; [done|]).
  - pose proof (mp_set count cpu s i 0%Q y None H Hy (Qeq_refl _)) as H1. rewrite E in H1. cbn [b2z] in H1.
    change (q_true 0) with false in H1. cbn [b2z] in H1. by replace (count - 1) with (count - 1 + 0) by lia.
  - apply (mp_same _ _ _ _ y); [done|done|]. by apply q_true_false.
Qed.

(** A move of the batch: in range, between two indices, down from beyond [size]. *)
Definition move_ok (size : nat) (m : MovedRequest) : Prop :=
  move_in N m ∧ no_self_move m ∧ (m.2 = UNIDIRECTIONAL → (size ≤ m.1.1)%nat).

Lemma minp_moved_ok size count cpu nu s m : mp_ok count cpu s → move_ok size m →
  ∃ count' cpu' nu', minp_moved (count, cpu, nu) m = Ok (count', cpu', nu') ∧ mp_ok count' cpu' (sl_move s m) ∧
    (nu' = false → nu = false ∧ take size cpu' = take size cpu).
Proof.
  destruct m as [[a b] d]. intros H ([Ha Hb] & Hne & Hsz). cbn [fst snd] in *. unfold no_self_move in Hne. cbn in Hne.
  destruct (mp_lookup _ _ _ _ H Ha) as (x & Hx & Ex), (mp_lookup _ _ _ _ H Hb) as (y & Hy & Ey).
  unfold minp_moved. rewrite Hx, Hy. unfold sl_move.
  assert (Ea : (x == match s a with Some (sp, _, _) => f32 (min_p sp) | None => 0 end)%Q) by exact Ex.
  assert (Eb : (y == match s b with Some (sp, _, _) => f32 (min_p sp) | None => 0 end)%Q) by exact Ey.
  destruct (Qeq_bool x y) eqn:Exy; cbn [negb].
  - apply Qeq_bool_eq in Exy. assert (H1 : mp_ok count cpu (upd s b (s a))) by (apply (mp_same _ _ _ _ y); [done|done|by rewrite <-Exy]).
    destruct d; cbn.
    + destruct (q_true x) eqn:Tx; rewrite <-(q_true_eq x y Exy), Tx; do 3 eexists; (split; [done|]).
      * pose proof (mp_set count cpu _ a 0%Q x None H1 Hx (Qeq_refl _)) as H2. rewrite Tx in H2. change (q_true 0) with false in H2. cbn [b2z] in H2.
        replace (count - 1) with (count - 1 + 0) by lia. split; [done|]. intros ->. split; [done|]. apply take_insert_ge. by apply Hsz.
      * split; [|done]. apply (mp_same _ _ _ _ x); [done|done|]. by apply q_true_false.
    + do 3 eexists. split; [done|]. split; [|done]. apply (mp_same _ _ _ _ x); [done|done|]. by rewrite Exy.
  - pose proof (mp_set count cpu s b x y (s a) H Hy Ea) as H1.
    assert (Hx1 : <[b := x]> cpu !! a = Some x) by (by rewrite list_lookup_insert_ne).
    destruct d; cbn.
    + destruct (q_true x) eqn:Tx; do 3 eexists; (split; [done|]); (split; [|done]).
      * pose proof (mp_set _ _ _ a 0%Q x None H1 Hx1 (Qeq_refl _)) as H2. rewrite Tx in H2. change (q_true 0) with false in H2. cbn [b2z] in H2.
        match goal with |- mp_ok ?c _ _ => match type of H2 with mp_ok ?d _ _ => replace c with d end end; [done|].
        destruct (q_true y); cbn [b2z]; lia.
      * cbn [b2z] in H1. match goal with |- mp_ok ?c _ _ => match type of H1 with mp_ok ?d _ _ => replace c with d end end.
        -- apply (mp_same _ _ _ _ x); [done|done|]. by apply q_true_false.
        -- destruct (q_true y); cbn [b2z]; lia.
    + do 3 eexists. split; [done|]. split; [|done]. pose proof (mp_set _ _ _ a y x (s b) H1 Hx1 Eb) as H2.
      match goal with |- mp_ok ?c _ _ => match type of H2 with mp_ok ?d _ _ => replace c with d by lia end end. done.
Qed.

(** ** The loops *)

Lemma minp_adds_ok l : Forall (λ a, (ad_index a < N)%nat) l → ∀ count cpu nu s, mp_ok count cpu s →
  ∃ count' cpu' nu', mfold (minp_added f32) (count, cpu, nu) l = Ok (count', cpu', nu') ∧
    mp_ok count' cpu' (sl_adds (λ a, Some (slot_of a)) s l) ∧ (nu' = false → nu = false ∧ count' = count ∧ cpu' = cpu).
Proof.
  induction 1 as [|a l Ha _ IH]; intros count cpu nu s H; [by do 3 eexists|]. cbn [mfold].
  destruct (minp_added_ok count cpu nu s a H Ha) as (c1 & p1 & n1 & -> & H1 & Q1). cbn [mbind result_bind].
  destruct (IH c1 p1 n1 _ H1) as (c2 & p2 & n2 & -> & H2 & Q2). do 3 eexists. split; [done|]. split; [exact H2|].
  intros E. destruct (Q2 E) as (E1 & -> & ->). by apply Q1.
Qed.

Lemma minp_removes_ok l : Forall (λ i, (i < N)%nat) l → ∀ count cpu s, mp_ok count cpu s →
  ∃ count' cpu', mfold minp_removed (count, cpu) l = Ok (count', cpu') ∧ mp_ok count' cpu' (sl_removes s l).
Proof.
  induction 1 as [|i l Hi _ IH]; intros count cpu s H; [by do 2 eexists|]. cbn [mfold].
  destruct (minp_removed_ok count cpu s i H Hi) as (c1 & p1 & -> & H1). cbn [mbind result_bind]. by apply IH.
Qed.

Lemma minp_moves_ok size l : Forall (move_ok size) l → ∀ count cpu nu s, mp_ok count cpu s →
  ∃ count' cpu' nu', mfold minp_moved (count, cpu, nu) l = Ok (count', cpu', nu') ∧
    mp_ok count' cpu' (sl_moves s l) ∧ (nu' = false → nu = false ∧ take size cpu' = take size cpu).
Proof.
  induction 1 as [|m l Hm _ IH]; intros count cpu nu s H; [by do 3 eexists|]. cbn [mfold].
  destruct (minp_moved_ok size count cpu nu s m H Hm) as (c1 & p1 & n1 & -> & H1 & Q1). cbn [mbind result_bind].
  destruct (IH c1 p1 n1 _ H1) as (c2 & p2 & n2 & -> & H2 & Q2). do 3 eexists. split; [done|]. split; [exact H2|].
  intros E. destruct (Q2 E) as [E1 ->]. by apply Q1.
Qed.

(** ** The update *)

(** A batch update a step produces, for a batch of at most [N] requests. *)
Record update_ok (u : BatchUpdate) : Prop := mkUpdateOk {
  uo_size : (batch_size u ≤ N)%nat;
  uo_removed : Forall (λ i, (i < N)%nat) (bu_removed u);
  uo_added : Forall (λ a, (ad_index a < N)%nat) (bu_added u);
  uo_moved : Forall (move_ok (batch_size u)) (bu_moved u);
}.

Record minp_inv (size : nat) (p : MinPLogitsProcessor) (s : slots slot) : Prop := mkMinPInv {
  mi_ok : mp_ok (min_p_count p) (min_p_cpu p) s;
  mi_slice : min_p_count p ≠ 0 → view p = size ∧ min_p_slice p = take size (min_p_cpu p);
}.

(** Without any min-p, removing and moving changes nothing. *)
Lemma mp_idle cpu s removed moved : mp_ok 0 cpu s → Forall (move_in N) moved → mp_ok 0 cpu (sl_moves (sl_removes s removed) moved).
Proof.
  intros [Hc Hl Hv Ho] Hm. assert (nz cpu = 0) by (pose proof (nz_nonneg cpu); lia). split; [done|done| |].
  - intros i x Hx. rewrite (nz_zero cpu i x) by done. unfold minp_at. destruct (sl_moves _ _ i) as [r|] eqn:E; [|done].
    apply sl_moves_from in E as [j E]. apply sl_removes_from in E.
    destruct (decide (j < N)%nat) as [Hj|Hj]; [|rewrite Ho in E by lia; done].
    destruct (lookup_lt_is_Some_2 cpu j) as [y Hy]; [lia|]. specialize (Hv j y Hy). rewrite (nz_zero cpu j y) in Hv by done.
    unfold minp_at in Hv. by rewrite E in Hv.
  - apply sl_moves_outside; [done|]. intros i Hi. rewrite sl_removes_spec. case_decide; [done|]. by apply Ho.
Qed.

Lemma minp_update size p s u : minp_inv size p s → update_ok u →
  ∃ p', minp_update_state f32 p (Some u) = Ok p' ∧ minp_inv (batch_size u) p' (apply_update (λ a, Some (slot_of a)) s u).
Proof.
  intros [Hok Hsl] [Hsize Hrem Hadd Hmov]. unfold minp_update_state, apply_update.
  destruct (minp_adds_ok _ Hadd _ _ false _ Hok) as (c1 & p1 & n1 & E1 & H1 & Q1). rewrite E1. clear E1. cbn [mbind result_bind].
  assert (Hloop : ∃ c2 p2 n2, (if c1 =? 0 then Ok (c1, p1, n1)
      else '(count, cpu) ← mfold minp_removed (c1, p1) (bu_removed u);
        mfold minp_moved (count, cpu, n1 || nonempty (bu_removed u)) (bu_moved u)) = Ok (c2, p2, n2) ∧
    mp_ok c2 p2 (sl_moves (sl_removes (sl_adds (λ a, Some (slot_of a)) s (bu_added u)) (bu_removed u)) (bu_moved u)) ∧
    (c2 ≠ 0 → n2 = false → n1 = false ∧ c1 ≠ 0 ∧ take (batch_size u) p2 = take (batch_size u) p1)).
  { destruct (c1 =? 0) eqn:Ec.
    - apply Z.eqb_eq in Ec. subst c1. do 3 eexists. split; [done|]. split; [|done]. apply mp_idle; [done|].
      eapply Forall_impl; [exact Hmov|]. by intros m [? _].
    - apply Z.eqb_neq in Ec. destruct (minp_removes_ok _ Hrem _ _ _ H1) as (c2 & p2 & E2 & H2). rewrite E2. cbn [mbind result_bind].
      destruct (minp_moves_ok _ _ Hmov _ _ (n1 || nonempty (bu_removed u)) _ H2) as (c3 & p3 & n3 & -> & H3 & Q3).
      do 3 eexists. split; [done|]. split; [exact H3|]. intros _ E. destruct (Q3 E) as [[-> Hr]%orb_false_iff ->]. split; [done|]. split; [done|].
      destruct (bu_removed u); [|done]. cbn in E2. by injection E2 as -> ->. }
  destruct Hloop as (c2 & p2 & n2 & -> & H2 & Q2). cbn [mbind result_bind].
  pose proof (mp_len _ _ _ H2) as Hlen.
  destruct (c2 =? 0) eqn:Ec; cbn [negb andb].
  - apply Z.eqb_eq in Ec. eexists. split; [done|]. split; [exact H2|]. by cbn.
  - apply Z.eqb_neq in Ec. destruct (n2 || negb (view p =? batch_size u)%nat) eqn:En; eexists; (split; [done|]); (split; [exact H2|]); intros _; cbn [view].
    + split; [done|]. unfold min_p_slice. cbn. destruct (use_double_tensor p); [|done].
      rewrite take_app_le by (rewrite length_take; lia). rewrite take_take. f_equal. lia.
    + apply orb_false_iff in En as [-> Hv%negb_false_iff%Nat.eqb_eq]. destruct (Q2 Ec eq_refl) as (En1 & Hc1 & Et). split; [done|].
      destruct (Q1 En1) as (_ & -> & ->). destruct (Hsl Hc1) as [Hv' Hs]. unfold min_p_slice in *. cbn.
      destruct (use_double_tensor p); [|by rewrite Hv]. rewrite Hs, Et. f_equal. congruence.
Qed.
End min_p.
