(* ===== verification/InputBatch.v ===== *)
(** * The persistent batch of a worker
    [worker/gpu_input_batch.py]: the requests a worker runs sit at indices of arrays
    that survive from step to step.  Requests are removed and added in place, holes
    are filled by moving the last requests down, indices are swapped, and the
    sampling metadata and the logits processors are brought up to date.  Arrays of
    the host and of the device are lists; generators, pooling states and embeddings
    are handles the batch never looks into.  The metadata share the lists and
    dictionaries of the batch; they are read between a refresh and the next change, so
    the model copies them.  The holder of thinking budgets is absent, as it is without
    a reasoning configuration. *)

From Stdlib Require Import QArith.
From S2P Require Import Prelude OrderedDict BlockTable BatchUpdate.

#[local] Open Scope Z_scope.

(** ** Requests *)

Definition Generator := positive.
Definition PoolingStates := positive.
Definition Embeds := list (list Q).

Record PoolingParams := mkPooling { requires_token_ids : bool; task : option string }.
Record LoRARequest := mkLora { lora_int_id : Z; lora_name : string }.

Record CachedRequestState := mkCached {
  cr_req_id : string;
  cr_prompt_token_ids : option (list Z);
  cr_sampling_params : option SamplingParams;
  cr_generator : option Generator;
  cr_block_ids : list (list Z);
  cr_num_computed_tokens : Z;
  cr_output_token_ids : loc;
  cr_lora_request : option LoRARequest;
  cr_prompt_embeds : option Embeds;
  cr_prompt_is_token_ids : option (list bool);
  cr_prev_num_draft_len : Z;
  cr_pooling_params : option PoolingParams;
  cr_pooling_states : option PoolingStates;
  cr_num_prompt_tokens : nat;
}.

Definition length_from_prompt_token_ids_or_embeds (prompt_token_ids : option (list Z)) (prompt_embeds : option Embeds) : result nat :=
  match prompt_token_ids, prompt_embeds with
  | None, None => Raise ValueError
  | None, Some e => Ok (length e)
  | Some l, Some e => if (length e =? length l)%nat then Ok (length l) else Raise ValueError
  | Some l, None => Ok (length l)
  end.

(** [__post_init__]: the prompt length, and fresh states for a pooling request. *)
Definition post_init (r : CachedRequestState) (fresh : PoolingStates) : result CachedRequestState :=
  n ← length_from_prompt_token_ids_or_embeds (cr_prompt_token_ids r) (cr_prompt_embeds r);
  Ok (mkCached (cr_req_id r) (cr_prompt_token_ids r) (cr_sampling_params r) (cr_generator r) (cr_block_ids r) (cr_num_computed_tokens r)
    (cr_output_token_ids r) (cr_lora_request r) (cr_prompt_embeds r) (cr_prompt_is_token_ids r) (cr_prev_num_draft_len r)
    (cr_pooling_params r) (match cr_pooling_params r with Some _ => Some fresh | None => cr_pooling_states r end) n).

Definition num_tokens (h : heap) (r : CachedRequestState) : nat := cr_num_prompt_tokens r + length (deref h (cr_output_token_ids r)).

Definition get_token_id (h : heap) (r : CachedRequestState) (idx : nat) : result Z :=
  let outputs := deref h (cr_output_token_ids r) in
  if (idx <? cr_num_prompt_tokens r)%nat then
    match cr_prompt_token_ids r with
    | None => Raise ValueError
    | Some l => np_get l idx
    end
  else if (idx - cr_num_prompt_tokens r <? length outputs)%nat then np_get outputs (idx - cr_num_prompt_tokens r)
  else Ok (-1).

Definition set_prev_num_draft_len (r : CachedRequestState) (n : Z) : CachedRequestState :=
  mkCached (cr_req_id r) (cr_prompt_token_ids r) (cr_sampling_params r) (cr_generator r) (cr_block_ids r) (cr_num_computed_tokens r)
    (cr_output_token_ids r) (cr_lora_request r) (cr_prompt_embeds r) (cr_prompt_is_token_ids r) n
    (cr_pooling_params r) (cr_pooling_states r) (cr_num_prompt_tokens r).

(** ** State *)

Record batch_conf := mkConf {
  max_num_reqs : nat;
  vocab_size : Z;
  is_pooling_model : bool;
  logitsprocs_need_output_token_ids : bool;
}.

(** Per-index data of all models. *)
Record row_data := mkRows {
  spec_token_ids : list (list Z);
  token_ids_cpu : list (list Z);
  is_token_ids : list (list bool);
  req_prompt_embeds : gmap nat Embeds;
  num_tokens_no_spec : list nat;
  num_prompt_tokens : list nat;
  num_computed_tokens_cpu : list Z;
  block_table : MultiGroupBlockTable;
  request_lora_mapping : list Z;
}.

(** Per-index data of models that generate. *)
Record sampling_data := mkSampData {
  temperature_cpu : list Q;
  top_p_cpu : list Q;
  top_k_cpu : list Z;
  frequency_penalties_cpu : list Q;
  presence_penalties_cpu : list Q;
  repetition_penalties_cpu : list Q;
  num_accepted_tokens_cpu : list Z;
  generators : gmap nat Generator;
  bad_words_by_index : gmap nat (list (list Z));
  allowed_token_ids_mask_cpu : option (list (list bool));
}.

(** Sets and dictionaries by request id. *)
Record request_sets := mkSets {
  greedy_reqs : gset string;
  random_reqs : gset string;
  top_p_reqs : gset string;
  top_k_reqs : gset string;
  frequency_penalties_reqs : gset string;
  presence_penalties_reqs : gset string;
  repetition_penalties_reqs : gset string;
  has_allowed_token_ids : gset string;
  num_logprobs : gmap string Z;
  logprob_ids_by_req : gmap string (list Z);
}.

Record lora_data := mkLoraData {
  lora_id_to_request_ids : gmap Z (gset string);
  lora_id_to_lora_request : gmap Z LoRARequest;
}.

Record pooling_data := mkPoolData {
  pooling_params : gmap string PoolingParams;
  pooling_states : gmap string PoolingStates;
  logits_processing_needs_token_ids : list bool;
}.

(** Buffers of the device that the metadata shows slices of. *)
Record device_data := mkDevice {
  dv_temperature : list Q;
  dv_top_p : list Q;
  dv_top_k : list Z;
  dv_frequency_penalties : list Q;
  dv_presence_penalties : list Q;
  dv_repetition_penalties : list Q;
  dv_allowed_token_ids_mask : option (list (list bool));
}.

Record SamplingMetadata := mkMetadata {
  md_temperature : option (list Q);
  md_all_greedy : bool;
  md_all_random : bool;
  md_top_p : option (list Q);
  md_top_k : option (list Z);
  md_generators : gmap nat Generator;
  md_max_num_logprobs : option Z;
  md_logprob_token_ids : option (gmap nat (list Z));
  md_prompt_token_ids : option (list (list Z));
  md_frequency_penalties : list Q;
  md_presence_penalties : list Q;
  md_repetition_penalties : list Q;
  md_output_token_ids : list (option loc);
  md_no_penalties : bool;
  md_allowed_token_ids_mask : option (list (list bool));
  md_bad_words_token_ids : gmap nat (list (list Z));
}.

Record InputBatch := mkIB {
  conf : batch_conf;
  _req_ids : list (option string);
  req_output_token_ids : list (option loc);
  req_id_to_index : gmap string nat;
  rows : row_data;
  samp : sampling_data;
  sets : request_sets;
  loras : lora_data;
  pool : pooling_data;
  dev : device_data;
  prev_req_id_to_index : option (gmap string nat);
  batch_update_builder : BatchUpdateBuilder;
  logitsprocs : LogitsProcessors;
  sampling_metadata : SamplingMetadata;
}.

Definition num_reqs (b : InputBatch) : nat := size (req_id_to_index b).

Definition all_greedy (s : request_sets) : bool := (size (random_reqs s) =? 0)%nat.
Definition all_random (s : request_sets) : bool := (size (greedy_reqs s) =? 0)%nat.
Definition no_top_p (s : request_sets) : bool := (size (top_p_reqs s) =? 0)%nat.
Definition no_top_k (s : request_sets) : bool := (size (top_k_reqs s) =? 0)%nat.
Definition no_penalties (s : request_sets) : bool :=
  (size (presence_penalties_reqs s) =? 0)%nat && (size (frequency_penalties_reqs s) =? 0)%nat && (size (repetition_penalties_reqs s) =? 0)%nat.
Definition no_allowed_token_ids (s : request_sets) : bool := (size (has_allowed_token_ids s) =? 0)%nat.

Definition max_num_logprobs (s : request_sets) : option Z :=
  match (map_to_list (num_logprobs s)).*2 with [] => None | x :: l => Some (foldr Z.max x l) end.

(** ** Array cells *)

Definition np_set {A} (l : list A) (i : nat) (x : A) : result (list A) :=
  if (i <? length l)%nat then Ok (<[i := x]> l) else Raise IndexError.

(** [l[tgt] = l[src]] *)
Definition move_at {A} (l : list A) (src tgt : nat) : result (list A) := x ← np_get l src; np_set l tgt x.

(** [m[i, a:b] = vals] *)
Definition np_assign_row {A} (m : list (list A)) (i a b : nat) (vals : list A) : result (list (list A)) :=
  row ← np_get m i;
  row ← np_assign row a b vals;
  Ok (<[i := row]> m).

Definition np_fill_row {A} (m : list (list A)) (i a b : nat) (x : A) : result (list (list A)) :=
  row ← np_get m i;
  Ok (<[i := np_fill row a b x]> m).

(** [d[tgt] = d.pop(src)] if [src] is a key. *)
Definition move_key {A} (d : gmap nat A) (src tgt : nat) : gmap nat A :=
  match d !! src with Some x => <[tgt := x]> (delete src d) | None => d end.

Definition swap_dict_values {A} (d : gmap nat A) (key1 key2 : nat) : gmap nat A :=
  let v1 := d !! key1 in
  let v2 := d !! key2 in
  let d := match v1 with Some x => <[key2 := x]> d | None => delete key2 d end in
  match v2 with Some x => <[key1 := x]> d | None => delete key1 d end.

(** ** Setters *)

Definition set_builder (b : InputBatch) (u : BatchUpdateBuilder) : InputBatch :=
  mkIB (conf b) (_req_ids b) (req_output_token_ids b) (req_id_to_index b) (rows b) (samp b) (sets b) (loras b) (pool b) (dev b)
    (prev_req_id_to_index b) u (logitsprocs b) (sampling_metadata b).

Definition set_slots (b : InputBatch) (ids : list (option string)) (outs : list (option loc)) (index : gmap string nat) : InputBatch :=
  mkIB (conf b) ids outs index (rows b) (samp b) (sets b) (loras b) (pool b) (dev b)
    (prev_req_id_to_index b) (batch_update_builder b) (logitsprocs b) (sampling_metadata b).

Definition set_row_data (b : InputBatch) (r : row_data) : InputBatch :=
  mkIB (conf b) (_req_ids b) (req_output_token_ids b) (req_id_to_index b) r (samp b) (sets b) (loras b) (pool b) (dev b)
    (prev_req_id_to_index b) (batch_update_builder b) (logitsprocs b) (sampling_metadata b).

Definition set_samp (b : InputBatch) (s : sampling_data) : InputBatch :=
  mkIB (conf b) (_req_ids b) (req_output_token_ids b) (req_id_to_index b) (rows b) s (sets b) (loras b) (pool b) (dev b)
    (prev_req_id_to_index b) (batch_update_builder b) (logitsprocs b) (sampling_metadata b).

Definition set_by_id (b : InputBatch) (s : request_sets) (l : lora_data) (p : pooling_data) (d : device_data)
    (prev : option (gmap string nat)) : InputBatch :=
  mkIB (conf b) (_req_ids b) (req_output_token_ids b) (req_id_to_index b) (rows b) (samp b) s l p d
    prev (batch_update_builder b) (logitsprocs b) (sampling_metadata b).

Definition set_metadata (b : InputBatch) (d : device_data) (ps : LogitsProcessors) (md : SamplingMetadata) : InputBatch :=
  mkIB (conf b) (_req_ids b) (req_output_token_ids b) (req_id_to_index b) (rows b) (samp b) (sets b) (loras b) (pool b) d
    (prev_req_id_to_index b) (batch_update_builder b) ps md.

Section batch.
Context (f32 : Q → Q).

(** ** Adding a request *)

Definition _register_add_request (b : InputBatch) (request : CachedRequestState) : result (nat * InputBatch) :=
  let '(popped, u) := pop_removed (batch_update_builder b) in
  let new_req_index := match popped with Some i => i | None => num_reqs b end in
  _ ← py_assert (new_req_index <? max_num_reqs (conf b))%nat;
  let u := set_batch_changed u in
  let u := match cr_sampling_params request with
    | Some sp => add_added u (mkAdded new_req_index sp (cr_prompt_token_ids request) (cr_output_token_ids request))
    | None => u
    end in
  Ok (new_req_index, set_builder b u).

(** Tokens, counts and blocks of the new request. *)
Definition rows_add (h : heap) (d : row_data) (spec : list (list Z)) (i : nat) (r : CachedRequestState) : result row_data :=
  n ← length_from_prompt_token_ids_or_embeds (cr_prompt_token_ids r) (cr_prompt_embeds r);
  npt ← np_set (num_prompt_tokens d) i n;
  let outputs := deref h (cr_output_token_ids r) in
  let end_idx := (n + length outputs)%nat in
  '(toks, is_toks) ← match cr_prompt_token_ids r with
    | Some prompt =>
        toks ← np_assign_row (token_ids_cpu d) i 0 n prompt;
        is_toks ← match cr_prompt_is_token_ids r with
          | Some l => np_assign_row (is_token_ids d) i 0 n l
          | None => np_fill_row (is_token_ids d) i 0 n true
          end;
        Ok (toks, is_toks)
    | None => is_toks ← np_fill_row (is_token_ids d) i 0 n false; Ok (token_ids_cpu d, is_toks)
    end;
  let embeds := match cr_prompt_embeds r with Some e => <[i := e]> (req_prompt_embeds d) | None => req_prompt_embeds d end in
  toks ← np_assign_row toks i n end_idx outputs;
  is_toks ← np_fill_row is_toks i n end_idx true;
  nts ← np_set (num_tokens_no_spec d) i (num_tokens h r);
  nct ← np_set (num_computed_tokens_cpu d) i (cr_num_computed_tokens r);
  bt ← mg_add_row (block_table d) (cr_block_ids r) i;
  lm ← np_set (request_lora_mapping d) i (match cr_lora_request r with Some l => lora_int_id l | None => 0 end);
  Ok (mkRows spec toks is_toks embeds nts npt nct bt lm).

(** [mask[allowed] = False] on a row of [True] *)
Definition allow (mask : list bool) (t : Z) : result (list bool) :=
  let c := column (zlen mask) t in
  if (0 <=? c) && (c <? zlen mask) then Ok (<[Z.to_nat c := false]> mask) else Raise IndexError.

Definition truthy_list {A} (l : option (list A)) : option (list A) := match l with Some (x :: l) => Some (x :: l) | _ => None end.

(** The row of the mask, after the tensor is allocated when it is first needed. *)
Definition mask_add (c : batch_conf) (mask : option (list (list bool))) (i : nat) (sp : SamplingParams) : result (option (list (list bool))) :=
  match truthy_list (allowed_token_ids sp) with
  | None => Ok mask
  | Some allowed =>
      let m := default (replicate (max_num_reqs c) (replicate (Z.to_nat (vocab_size c)) false)) mask in
      row ← mfold allow (replicate (Z.to_nat (vocab_size c)) true) allowed;
      m ← np_set m i row;
      Ok (Some m)
  end.

Definition effective_top_k (c : batch_conf) (sp : SamplingParams) : Z :=
  if (0 <? top_k sp) && (top_k sp <? vocab_size c) then top_k sp else vocab_size c.

Definition samp_add (c : batch_conf) (d : sampling_data) (i : nat) (r : CachedRequestState) (sp : SamplingParams) : result sampling_data :=
  temp ← np_set (temperature_cpu d) i (if decide (sampling_type sp = GREEDY) then 0%Q else f32 (temperature sp));
  tp ← np_set (top_p_cpu d) i (f32 (top_p sp));
  tk ← np_set (top_k_cpu d) i (effective_top_k c sp);
  fp ← np_set (frequency_penalties_cpu d) i (f32 (frequency_penalty sp));
  pp ← np_set (presence_penalties_cpu d) i (f32 (presence_penalty sp));
  rp ← np_set (repetition_penalties_cpu d) i (f32 (repetition_penalty sp));
  let gens := match cr_generator r with Some g => <[i := g]> (generators d) | None => generators d end in
  mask ← mask_add c (allowed_token_ids_mask_cpu d) i sp;
  let bad := match truthy_list (bad_words_token_ids sp) with Some l => <[i := l]> (bad_words_by_index d) | None => bad_words_by_index d end in
  Ok (mkSampData temp tp tk fp pp rp (num_accepted_tokens_cpu d) gens bad mask).

Definition add_if (p : bool) (id : string) (s : gset string) : gset string := if p then {[id]} ∪ s else s.

Definition sets_add (c : batch_conf) (s : request_sets) (id : string) (sp : SamplingParams) : request_sets :=
  let greedy := bool_decide (sampling_type sp = GREEDY) in
  mkSets (add_if greedy id (greedy_reqs s)) (add_if (negb greedy) id (random_reqs s))
    (add_if (negb (Qle_bool 1 (top_p sp))) id (top_p_reqs s))
    (add_if ((0 <? top_k sp) && (top_k sp <? vocab_size c)) id (top_k_reqs s))
    (add_if (q_true (frequency_penalty sp)) id (frequency_penalties_reqs s))
    (add_if (q_true (presence_penalty sp)) id (presence_penalties_reqs s))
    (add_if (negb (Qeq_bool (repetition_penalty sp) 1)) id (repetition_penalties_reqs s))
    (add_if (bool_decide (truthy_list (allowed_token_ids sp) ≠ None)) id (has_allowed_token_ids s))
    (match logprobs sp with Some n => <[id := if n =? -1 then vocab_size c else n]> (num_logprobs s) | None => num_logprobs s end)
    (match logprob_token_ids sp with Some l => <[id := l]> (logprob_ids_by_req s) | None => logprob_ids_by_req s end).

Definition lora_add (d : lora_data) (id : string) (r : CachedRequestState) : lora_data :=
  match cr_lora_request r with
  | Some l =>
      let i := lora_int_id l in
      mkLoraData (<[i := {[id]} ∪ default ∅ (lora_id_to_request_ids d !! i)]> (lora_id_to_request_ids d))
        (<[i := l]> (lora_id_to_lora_request d))
  | None => d
  end.

(** The device mask is allocated together with the one of the host. *)
Definition dev_add (c : batch_conf) (host : option (list (list bool))) (d : device_data) (sp : SamplingParams) : device_data :=
  match truthy_list (allowed_token_ids sp), host with
  | Some _, None => mkDevice (dv_temperature d) (dv_top_p d) (dv_top_k d) (dv_frequency_penalties d) (dv_presence_penalties d)
      (dv_repetition_penalties d) (Some (replicate (max_num_reqs c) (replicate (Z.to_nat (vocab_size c)) false)))
  | _, _ => d
  end.

(** What is specific to sampling or to pooling. *)
Definition params_add (b : InputBatch) (i : nat) (r : CachedRequestState) :
    result (sampling_data * request_sets * pooling_data * device_data) :=
  let id := cr_req_id r in
  match cr_sampling_params r, cr_pooling_params r with
  | Some sp, _ =>
      d ← samp_add (conf b) (samp b) i r sp;
      Ok (d, sets_add (conf b) (sets b) id sp, pool b, dev_add (conf b) (allowed_token_ids_mask_cpu (samp b)) (dev b) sp)
  | None, Some pp =>
      match cr_pooling_states r with
      | None => Raise AssertionError
      | Some st =>
          flags ← np_set (logits_processing_needs_token_ids (pool b)) i (requires_token_ids pp);
          Ok (samp b, sets b, mkPoolData (<[id := pp]> (pooling_params (pool b))) (<[id := st]> (pooling_states (pool b))) flags, dev b)
      end
  | None, None => Raise NotImplementedError
  end.

(** The slot of the new request: an entry is appended when the index is the length. *)
Definition slot_add (b : InputBatch) (i : nat) (r : CachedRequestState) :
    result (list (option string) * list (option loc) * list (list Z)) :=
  if (i =? length (_req_ids b))%nat then
    Ok (_req_ids b ++ [Some (cr_req_id r)], req_output_token_ids b ++ [Some (cr_output_token_ids r)], spec_token_ids (rows b) ++ [[]])
  else
    ids ← np_set (_req_ids b) i (Some (cr_req_id r));
    outs ← np_set (req_output_token_ids b) i (Some (cr_output_token_ids r));
    spec ← np_set (spec_token_ids (rows b)) i [];
    Ok (ids, outs, spec).

Definition set_num_accepted (d : sampling_data) (l : list Z) : sampling_data :=
  mkSampData (temperature_cpu d) (top_p_cpu d) (top_k_cpu d) (frequency_penalties_cpu d) (presence_penalties_cpu d)
    (repetition_penalties_cpu d) l (generators d) (bad_words_by_index d) (allowed_token_ids_mask_cpu d).

Definition add_request (h : heap) (b : InputBatch) (request : CachedRequestState) : result (nat * InputBatch) :=
  '(req_index, b) ← _register_add_request b request;
  let req_id := cr_req_id request in
  '(ids, outs, spec) ← slot_add b req_index request;
  rows ← rows_add h (rows b) spec req_index request;
  '(samp, sets, pool, dev) ← params_add b req_index request;
  nat ← np_set (num_accepted_tokens_cpu samp) req_index 1;
  let b := set_slots b ids outs (<[req_id := req_index]> (req_id_to_index b)) in
  let b := set_samp (set_row_data b rows) (set_num_accepted samp nat) in
  Ok (req_index, set_by_id b sets (lora_add (loras b) req_id request) pool dev (prev_req_id_to_index b)).

(** ** Draft tokens of a request *)

Definition update_req_spec_token_ids (b : InputBatch) (request : CachedRequestState) (scheduled : gmap string (list Z)) :
    result (InputBatch * CachedRequestState) :=
  match req_id_to_index b !! cr_req_id request with
  | None => Raise KeyError
  | Some i =>
      let d := rows b in
      cleared ← np_set (spec_token_ids d) i [];
      let ids := default [] (scheduled !! cr_req_id request) in
      let request := set_prev_num_draft_len request (zlen ids) in
      match ids with
      | [] =>
          Ok (set_row_data b (mkRows cleared (token_ids_cpu d) (is_token_ids d) (req_prompt_embeds d) (num_tokens_no_spec d)
            (num_prompt_tokens d) (num_computed_tokens_cpu d) (block_table d) (request_lora_mapping d)), request)
      | _ :: _ =>
          start ← np_get (num_tokens_no_spec d) i;
          toks ← np_assign_row (token_ids_cpu d) i start (start + length ids) ids;
          is_toks ← np_fill_row (is_token_ids d) i start (start + length ids) true;
          Ok (set_row_data b (mkRows (<[i := ids]> cleared) toks is_toks (req_prompt_embeds d) (num_tokens_no_spec d)
            (num_prompt_tokens d) (num_computed_tokens_cpu d) (block_table d) (request_lora_mapping d)), request)
      end
  end.

(** ** Removing a request *)

Definition sets_remove (s : request_sets) (id : string) : request_sets :=
  mkSets (greedy_reqs s ∖ {[id]}) (random_reqs s ∖ {[id]}) (top_p_reqs s ∖ {[id]}) (top_k_reqs s ∖ {[id]})
    (frequency_penalties_reqs s ∖ {[id]}) (presence_penalties_reqs s ∖ {[id]}) (repetition_penalties_reqs s ∖ {[id]})
    (has_allowed_token_ids s ∖ {[id]}) (delete id (num_logprobs s)) (delete id (logprob_ids_by_req s)).

Definition lora_remove (d : lora_data) (id : string) (lora_id : Z) : result lora_data :=
  if lora_id =? 0 then Ok d
  else match lora_id_to_request_ids d !! lora_id with
    | None => Raise KeyError
    | Some ids =>
        let ids := ids ∖ {[id]} in
        if decide (ids = ∅) then
          match lora_id_to_lora_request d !! lora_id with
          | None => Raise KeyError
          | Some _ => Ok (mkLoraData (delete lora_id (lora_id_to_request_ids d)) (delete lora_id (lora_id_to_lora_request d)))
          end
        else Ok (mkLoraData (<[lora_id := ids]> (lora_id_to_request_ids d)) (lora_id_to_lora_request d))
    end.

Definition rows_remove (d : row_data) (i : nat) : result row_data :=
  spec ← np_set (spec_token_ids d) i [];
  bt ← mg_clear_row (block_table d) i;
  lm ← np_set (request_lora_mapping d) i 0;
  Ok (mkRows spec (token_ids_cpu d) (is_token_ids d) (req_prompt_embeds d) (num_tokens_no_spec d) (num_prompt_tokens d)
    (num_computed_tokens_cpu d) bt lm).

Definition samp_remove (d : sampling_data) (i : nat) : result sampling_data :=
  mask ← match allowed_token_ids_mask_cpu d with
    | None => Ok None
    | Some m => row ← np_get m i; Ok (Some (<[i := replicate (length row) false]> m))
    end;
  Ok (mkSampData (temperature_cpu d) (top_p_cpu d) (top_k_cpu d) (frequency_penalties_cpu d) (presence_penalties_cpu d)
    (repetition_penalties_cpu d) (num_accepted_tokens_cpu d) (delete i (generators d)) (delete i (bad_words_by_index d)) mask).

Definition remove_request (b : InputBatch) (req_id : string) : result (option nat * InputBatch) :=
  match req_id_to_index b !! req_id with
  | None => Ok (None, b)
  | Some i =>
      u ← removed_append (batch_update_builder b) i;
      ids ← np_set (_req_ids b) i None;
      outs ← np_set (req_output_token_ids b) i None;
      lora_id ← np_get (request_lora_mapping (rows b)) i;
      lora ← lora_remove (loras b) req_id lora_id;
      rows ← rows_remove (rows b) i;
      let b := set_row_data (set_slots (set_builder b u) ids outs (delete req_id (req_id_to_index b))) rows in
      if is_pooling_model (conf b) then
        let p := mkPoolData (delete req_id (pooling_params (pool b))) (delete req_id (pooling_states (pool b)))
          (logits_processing_needs_token_ids (pool b)) in
        Ok (Some i, set_by_id b (sets b) lora p (dev b) (prev_req_id_to_index b))
      else
        d ← samp_remove (samp b) i;
        Ok (Some i, set_by_id (set_samp b d) (sets_remove (sets b) req_id) lora (pool b) (dev b)
          (delete req_id <$> prev_req_id_to_index b))
  end.

(** ** Swapping two requests *)

Definition _get_active_token_count (d : row_data) (i : nat) : result nat :=
  n ← np_get (num_tokens_no_spec d) i;
  l ← np_get (spec_token_ids d) i;
  Ok (n + length l)%nat.

(** [m[i1, :n], m[i2, :n] = m[i2, :n], m[i1, :n]] *)
Definition swap_prefix {A} (m : list (list A)) (i1 i2 n : nat) : result (list (list A)) :=
  r1 ← np_get m i1;
  r2 ← np_get m i2;
  m ← np_assign_row m i1 0 n (take n r2);
  np_assign_row m i2 0 n (take n r1).

Definition rows_swap (d : row_data) (i1 i2 : nat) : result row_data :=
  a1 ← _get_active_token_count d i1;
  a2 ← _get_active_token_count d i2;
  let n := Nat.max a1 a2 in
  spec ← swap_at (spec_token_ids d) i1 i2;
  nts ← swap_at (num_tokens_no_spec d) i1 i2;
  npt ← swap_at (num_prompt_tokens d) i1 i2;
  nct ← swap_at (num_computed_tokens_cpu d) i1 i2;
  toks ← swap_prefix (token_ids_cpu d) i1 i2 n;
  is_toks ← swap_prefix (is_token_ids d) i1 i2 n;
  bt ← mg_swap_row (block_table d) i1 i2;
  lm ← swap_at (request_lora_mapping d) i1 i2;
  Ok (mkRows spec toks is_toks (swap_dict_values (req_prompt_embeds d) i1 i2) nts npt nct bt lm).

(** [m[i1], m[i2] = m[i2], m[i1]] on the rows of a tensor: the right-hand side are views,
    so the second assignment reads what the first one wrote. *)
Definition swap_mask (m : list (list bool)) (i1 i2 : nat) : result (list (list bool)) :=
  r2 ← np_get m i2;
  m ← np_set m i1 r2;
  view1 ← np_get m i1;
  np_set m i2 view1.

Definition samp_swap (d : sampling_data) (i1 i2 : nat) : result sampling_data :=
  temp ← swap_at (temperature_cpu d) i1 i2;
  tp ← swap_at (top_p_cpu d) i1 i2;
  tk ← swap_at (top_k_cpu d) i1 i2;
  fp ← swap_at (frequency_penalties_cpu d) i1 i2;
  pp ← swap_at (presence_penalties_cpu d) i1 i2;
  rp ← swap_at (repetition_penalties_cpu d) i1 i2;
  na ← swap_at (num_accepted_tokens_cpu d) i1 i2;
  mask ← match allowed_token_ids_mask_cpu d with
    | None => Ok None
    | Some m => m ← swap_mask m i1 i2; Ok (Some m)
    end;
  Ok (mkSampData temp tp tk fp pp rp na (swap_dict_values (generators d) i1 i2) (swap_dict_values (bad_words_by_index d) i1 i2) mask).

Definition swap_states (b : InputBatch) (i1 i2 : nat) : result InputBatch :=
  old_id_i1 ← np_get (_req_ids b) i1;
  old_id_i2 ← np_get (_req_ids b) i2;
  rows ← rows_swap (rows b) i1 i2;
  ids ← swap_at (_req_ids b) i1 i2;
  outs ← swap_at (req_output_token_ids b) i1 i2;
  match old_id_i1, old_id_i2 with
  | Some id1, Some id2 =>
      match req_id_to_index b !! id1, req_id_to_index b !! id2 with
      | Some j1, Some j2 =>
          let index := <[id2 := j1]> (<[id1 := j2]> (req_id_to_index b)) in
          let b := set_row_data (set_slots b ids outs index) rows in
          if is_pooling_model (conf b) then Ok b
          else
            d ← samp_swap (samp b) i1 i2;
            Ok (set_samp (set_builder b (add_moved (batch_update_builder b) (i1, i2, SWAP))) d)
      | _, _ => Raise KeyError
      end
  | _, _ => Raise AssertionError
  end.

(** ** Filling holes *)

(** The largest index up to [last] that is not in [removed]; [None] stands for -1. *)
Fixpoint scan_last (removed : list nat) (last : nat) : option nat :=
  if decide (last ∈ removed) then match last with O => None | S l => scan_last removed l end else Some last.

Definition rows_move (d : row_data) (src tgt : nat) : result row_data :=
  num_tokens ← _get_active_token_count d src;
  src_spec ← np_get (spec_token_ids d) src;
  spec ← np_set (spec_token_ids d) tgt src_spec;
  spec ← np_set spec src [];
  src_toks ← np_get (token_ids_cpu d) src;
  toks ← np_assign_row (token_ids_cpu d) tgt 0 num_tokens (take num_tokens src_toks);
  src_is ← np_get (is_token_ids d) src;
  is_toks ← np_assign_row (is_token_ids d) tgt 0 num_tokens (take num_tokens src_is);
  nts ← move_at (num_tokens_no_spec d) src tgt;
  npt ← move_at (num_prompt_tokens d) src tgt;
  nct ← move_at (num_computed_tokens_cpu d) src tgt;
  bt ← mg_move_row (block_table d) src tgt;
  lm ← move_at (request_lora_mapping d) src tgt;
  Ok (mkRows spec toks is_toks (move_key (req_prompt_embeds d) src tgt) nts npt nct bt lm).

Definition samp_move (d : sampling_data) (src tgt : nat) : result sampling_data :=
  temp ← move_at (temperature_cpu d) src tgt;
  tp ← move_at (top_p_cpu d) src tgt;
  tk ← move_at (top_k_cpu d) src tgt;
  fp ← move_at (frequency_penalties_cpu d) src tgt;
  pp ← move_at (presence_penalties_cpu d) src tgt;
  rp ← move_at (repetition_penalties_cpu d) src tgt;
  na ← move_at (num_accepted_tokens_cpu d) src tgt;
  mask ← match allowed_token_ids_mask_cpu d with
    | None => Ok None
    | Some m => m ← move_at m src tgt; Ok (Some m)
    end;
  Ok (mkSampData temp tp tk fp pp rp na (move_key (generators d) src tgt) (move_key (bad_words_by_index d) src tgt) mask).

(** One move of [condense], from [last] to [empty]. *)
Definition condense_move (b : InputBatch) (last empty : nat) : result InputBatch :=
  let '(_, u) := pop_removed (batch_update_builder b) in
  id ← np_get (_req_ids b) last;
  out ← np_get (req_output_token_ids b) last;
  match id with
  | None => Raise AssertionError
  | Some req_id =>
      ids ← np_set (_req_ids b) empty (Some req_id);
      ids ← np_set ids last None;
      outs ← np_set (req_output_token_ids b) empty out;
      outs ← np_set outs last None;
      rows ← rows_move (rows b) last empty;
      let b := set_row_data (set_slots (set_builder b u) ids outs (<[req_id := empty]> (req_id_to_index b))) rows in
      if is_pooling_model (conf b) then Ok b
      else
        d ← samp_move (samp b) last empty;
        Ok (set_samp (set_builder b (add_moved u (last, empty, UNIDIRECTIONAL))) d)
  end.

(** The outer loop; every round takes one index off [removed]. *)
Fixpoint condense_loop (fuel : nat) (b : InputBatch) (last_req_index : nat) : result InputBatch :=
  match fuel with
  | O => Raise OutOfFuel
  | S fuel =>
      match _removed (batch_update_builder b) with
      | [] => Ok b
      | (_ :: _) as empty_req_indices =>
          match scan_last empty_req_indices last_req_index with
          | None => Ok b
          | Some last =>
              let '(peeked, u) := peek_removed (batch_update_builder b) in
              let b := set_builder b u in
              match peeked with
              | None => Raise AssertionError
              | Some empty_index =>
                  if (last <=? empty_index)%nat then Ok b
                  else b ← condense_move b last empty_index; condense_loop fuel b (last - 1)
              end
          end
      end
  end.

(** [del l[n:]] for the lists by index. *)
Definition trim (b : InputBatch) (n : nat) : InputBatch :=
  let d := rows b in
  set_row_data (set_slots b (take n (_req_ids b)) (take n (req_output_token_ids b)) (req_id_to_index b))
    (mkRows (take n (spec_token_ids d)) (token_ids_cpu d) (is_token_ids d) (req_prompt_embeds d) (num_tokens_no_spec d)
      (num_prompt_tokens d) (num_computed_tokens_cpu d) (block_table d) (request_lora_mapping d)).

Definition condense (b : InputBatch) : result InputBatch :=
  let num_reqs := num_reqs b in
  let '(empty_req_indices, u) := removed (batch_update_builder b) in
  let b := set_builder b u in
  match empty_req_indices with
  | [] => Ok b
  | _ :: _ =>
      if (num_reqs =? 0)%nat then Ok (trim b 0)
      else
        b ← condense_loop (S (length empty_req_indices)) b (num_reqs + length empty_req_indices - 1);
        Ok (trim b num_reqs)
  end.

(** ** Sampling metadata *)

(** [to[:n].copy_(from[:n])] *)
Definition copy_slice {A} (from_ to : list A) (n : nat) : list A := take n from_ ++ drop n to.

Definition _make_prompt_token_ids_cpu_tensor (b : InputBatch) : result (list (list Z)) :=
  let n := num_reqs b in
  let lens := take n (num_prompt_tokens (rows b)) in
  max_prompt_len ← py_max (Z.of_nat <$> lens);
  let w := Z.to_nat max_prompt_len in
  let toks := take w <$> take n (token_ids_cpu (rows b)) in
  Ok (zip_with (λ row len, take len row ++ replicate (length row - len) (vocab_size (conf b))) toks lens).

(** Row of each request with its own tokens to report: [d[index[id]] = tokens] *)
Definition logprobs_by_index (b : InputBatch) : gmap nat (list Z) :=
  map_fold (λ id toks m, match req_id_to_index b !! id with Some i => <[i := toks]> m | None => m end) ∅ (logprob_ids_by_req (sets b)).

Definition _make_sampling_metadata (b : InputBatch) : result (device_data * SamplingMetadata) :=
  let n := num_reqs b in
  let s := sets b in
  let c := samp b in
  let d := dev b in
  let temp := if negb (all_greedy s) then copy_slice (temperature_cpu c) (dv_temperature d) n else dv_temperature d in
  let tp := if negb (no_top_p s) then copy_slice (top_p_cpu c) (dv_top_p d) n else dv_top_p d in
  let tk := if negb (no_top_k s) then copy_slice (top_k_cpu c) (dv_top_k d) n else dv_top_k d in
  let fp := if negb (no_penalties s) then copy_slice (frequency_penalties_cpu c) (dv_frequency_penalties d) n else dv_frequency_penalties d in
  let pp := if negb (no_penalties s) then copy_slice (presence_penalties_cpu c) (dv_presence_penalties d) n else dv_presence_penalties d in
  let rp := if negb (no_penalties s) then copy_slice (repetition_penalties_cpu c) (dv_repetition_penalties d) n else dv_repetition_penalties d in
  let needs_prompt_token_ids :=
    negb (no_penalties s) || existsb (λ x, x) (take n (logits_processing_needs_token_ids (pool b))) in
  prompt ← (if (needs_prompt_token_ids : bool) then p ← _make_prompt_token_ids_cpu_tensor b; Ok (Some p) else Ok None);
  let needs_output_token_ids :=
    negb (no_penalties s) || negb (bool_decide (bad_words_by_index c = ∅)) || logitsprocs_need_output_token_ids (conf b) in
  mask ← (if no_allowed_token_ids s then Ok (dv_allowed_token_ids_mask d, None)
    else match dv_allowed_token_ids_mask d, allowed_token_ids_mask_cpu c with
      | Some dm, Some hm => let dm := copy_slice hm dm n in Ok (Some dm, Some (take n dm))
      | _, _ => Raise AssertionError
      end);
  Ok (mkDevice temp tp tk fp pp rp mask.1,
    mkMetadata (if negb (all_greedy s) then Some (take n temp) else None) (all_greedy s) (all_random s)
      (if no_top_p s then None else Some (take n tp)) (if no_top_k s then None else Some (take n tk)) (generators c)
      (max_num_logprobs s) (if bool_decide (logprob_ids_by_req s = ∅) then None else Some (logprobs_by_index b)) prompt
      (take n fp) (take n pp) (take n rp) (if needs_output_token_ids then req_output_token_ids b else [])
      (no_penalties s) mask.2 (bad_words_by_index c)).

(** A batch without requests.  The buffers of sampling parameters, on the host and on
    the device, are allocated without being initialised. *)
Definition empty_batch (c : batch_conf) (max_model_len : nat) (tables : MultiGroupBlockTable) (procs : LogitsProcessors)
    (host device : device_data) (md : SamplingMetadata) : InputBatch :=
  let n := max_num_reqs c in
  mkIB c [] [] ∅
    (mkRows (replicate n []) (replicate n (replicate max_model_len 0)) (replicate n (replicate max_model_len false)) ∅ (replicate n 0%nat)
      (replicate n 0%nat) (replicate n 0) tables (replicate n 0))
    (mkSampData (dv_temperature host) (dv_top_p host) (dv_top_k host) (dv_frequency_penalties host) (dv_presence_penalties host)
      (dv_repetition_penalties host) (replicate n 1) ∅ ∅ None)
    (mkSets ∅ ∅ ∅ ∅ ∅ ∅ ∅ ∅ ∅ ∅) (mkLoraData ∅ ∅) (mkPoolData ∅ ∅ (replicate n false))
    (mkDevice (dv_temperature device) (dv_top_p device) (dv_top_k device) (dv_frequency_penalties device) (dv_presence_penalties device)
      (dv_repetition_penalties device) None)
    None new_builder procs md.

Definition no_metadata : SamplingMetadata :=
  mkMetadata None true true None None ∅ None None None [] [] [] [] true None ∅.

Definition init_batch (cp : cp_groups) (c : batch_conf) (max_model_len : nat) (max_num_batched_tokens : Z) (block_sizes kernel_block_sizes : list Z)
    (max_num_blocks_per_req : option (list Z)) (interleave : Z) (procs : LogitsProcessors) (host device : device_data) : result InputBatch :=
  tables ← new_multi_group cp (max_num_reqs c) (Z.of_nat max_model_len) max_num_batched_tokens block_sizes kernel_block_sizes max_num_blocks_per_req interleave;
  let b := empty_batch c max_model_len tables procs host device no_metadata in
  '(d, md) ← _make_sampling_metadata b;
  Ok (set_metadata b d procs md).

Definition refresh_metadata (h : heap) (b : InputBatch) : result InputBatch :=
  if is_pooling_model (conf b) then
    let '(changed, u) := reset (batch_update_builder b) in
    let b := set_builder b u in
    if (changed : bool) then
      '(d, md) ← _make_sampling_metadata b;
      Ok (set_metadata b d (logitsprocs b) md)
    else Ok b
  else
    let '(batch_update, u) := get_and_reset (batch_update_builder b) (num_reqs b) in
    let b := set_builder b u in
    ps ← update_processors f32 h batch_update (logitsprocs b);
    match batch_update with
    | Some _ =>
        '(d, md) ← _make_sampling_metadata b;
        Ok (set_metadata b d ps md)
    | None => Ok (set_metadata b (dev b) ps (sampling_metadata b))
    end.

(** ** Pooling *)

Definition get_pooling_params (b : InputBatch) : result (list PoolingParams) :=
  _ ← py_assert (length (_req_ids b) =? size (pooling_params (pool b)))%nat;
  mmap (λ id : option string, match id ≫= λ id, pooling_params (pool b) !! id with Some p => Ok p | None => Raise KeyError end) (_req_ids b).

Definition get_pooling_states (b : InputBatch) : result (list PoolingStates) :=
  _ ← py_assert (length (_req_ids b) =? size (pooling_states (pool b)))%nat;
  mmap (λ id : option string, match id ≫= λ id, pooling_states (pool b) !! id with Some p => Ok p | None => Raise KeyError end) (_req_ids b).

Record PoolingMetadata := mkPoolMd {
  pm_prompt_lens : list nat;
  pm_prompt_token_ids : option (list (list Z));
  pm_prompt_token_ids_cpu : option (list (list Z));
  pm_pooling_params : list PoolingParams;
  pm_pooling_states : list PoolingStates;
}.

(** [PoolingMetadata.__post_init__] requires a task for every request. *)
Definition get_pooling_metadata (b : InputBatch) : result PoolingMetadata :=
  params ← get_pooling_params b;
  states ← get_pooling_states b;
  cpu ← (if existsb requires_token_ids params then p ← _make_prompt_token_ids_cpu_tensor b; Ok (Some p) else Ok None);
  if forallb (λ p, bool_decide (task p ≠ None)) params then
    Ok (mkPoolMd (take (num_reqs b) (num_prompt_tokens (rows b))) (md_prompt_token_ids (sampling_metadata b)) cpu params states)
  else Raise ValueError.

(** [_get_prompt_token_ids]: the tokens of each request, from either tensor. *)
Definition _get_prompt_token_ids (md : PoolingMetadata) (prompt_token_ids : option (list (list Z))) : result (list (list Z)) :=
  match prompt_token_ids with
  | None => Raise ValueError
  | Some m => mmap (λ e : nat * nat, row ← np_get m e.1; Ok (take e.2 row)) (imap pair (pm_prompt_lens md))
  end.

(** ** LoRA inputs *)

Definition np_repeat {A} (l : list A) (counts : list nat) : list A := mjoin (zip_with (λ x n, replicate n x) l counts).

Definition make_lora_inputs (b : InputBatch) (num_scheduled_tokens num_sampled_tokens : list nat) :
    result (list Z * list Z * list LoRARequest) :=
  let req_lora_mapping := take (num_reqs b) (request_lora_mapping (rows b)) in
  if (length req_lora_mapping =? length num_sampled_tokens)%nat && (length req_lora_mapping =? length num_scheduled_tokens)%nat then
    Ok (np_repeat req_lora_mapping num_sampled_tokens, np_repeat req_lora_mapping num_scheduled_tokens,
      (map_to_list (lora_id_to_lora_request (loras b))).*2)
  else Raise ValueError.

(** ** Tokens sampled asynchronously *)

(** Index after the last token that is not the placeholder -1. *)
Fixpoint first_placeholder (l : list Z) : nat :=
  match l with
  | [] => O
  | x :: l => match first_placeholder l with O => if x =? -1 then O else 1%nat | S n => S (S n) end
  end.

(** Number of sampled ids: up to the first -1 if the last one is -1. *)
Definition num_sampled_ids (new_ids : list Z) : nat :=
  match list.last new_ids with
  | Some x => if x =? -1 then (match list_find (eq (-1)) new_ids with Some (i, _) => i | None => length new_ids end) else length new_ids
  | None => O
  end.

(** The list of one request, after placeholders are replaced by its sampled ids. *)
Definition repair_outputs (outputs new_ids : list Z) : list Z :=
  match list.last outputs with
  | Some x =>
      if x =? -1 then
        match new_ids with
        | [] => outputs
        | _ :: _ =>
            let first := first_placeholder outputs in
            take first outputs ++ take (Nat.min (num_sampled_ids new_ids) (length outputs - first)) new_ids
        end
      else outputs
  | None => outputs
  end.

Definition async_output (b : InputBatch) (prev : gmap string nat) (sampled : list (list Z)) (h : heap) (e : nat * option string) : result heap :=
  let '(index, id) := e in
  match id ≫= λ id, prev !! id with
  | None => Ok h
  | Some prev_index =>
      out ← np_get (md_output_token_ids (sampling_metadata b)) index;
      match out with
      | None => Ok h
      | Some l =>
          let outputs := deref h l in
          match list.last outputs with
          | Some x => if x =? -1 then new_ids ← np_get sampled prev_index; Ok (<[l := repair_outputs outputs new_ids]> h) else Ok h
          | None => Ok h
          end
      end
  end.

(** The store after the outputs of the previous step have arrived. *)
Definition update_async_output_token_ids (h : heap) (b : InputBatch) (sampled_token_ids_cpu : option (list (list Z))) : result heap :=
  match sampled_token_ids_cpu, md_output_token_ids (sampling_metadata b) with
  | None, _ | _, [] => Ok h
  | Some sampled, _ :: _ =>
      match prev_req_id_to_index b with
      | None => Raise AssertionError
      | Some prev => mfold (async_output b prev sampled) h (imap pair (_req_ids b))
      end
  end.
End batch.
