(* ===== verification/InputBatchRows.v ===== *)
(** * Rows of the persistent batch
    What the data of an index is, and that moving and swapping indices carries it
    along unchanged. *)

From Stdlib Require Import QArith.
From S2P Require Import Prelude OrderedDict BlockTable BlockTableFacts BatchUpdate InputBatch.

#[local] Open Scope Z_scope.

(** ** Cells *)

Lemma np_set_ok {A} (l : list A) i x : (i < length l)%nat →
  ∃ l', np_set l i x = Ok l' ∧ length l' = length l ∧ ∀ j, l' !! j = if decide (j = i) then Some x else l !! j.
Proof.
  intros Hi. unfold np_set. rewrite (proj2 (Nat.ltb_lt _ _)) by done. eexists. split; [done|]. split; [by rewrite length_insert|].
  intros j. case_decide; [subst; by rewrite list_lookup_insert_eq|by rewrite list_lookup_insert_ne].
Qed.

Lemma move_at_ok {A} (l : list A) src tgt : (src < length l)%nat → (tgt < length l)%nat →
  ∃ l', move_at l src tgt = Ok l' ∧ length l' = length l ∧ ∀ j, l' !! j = if decide (j = tgt) then l !! src else l !! j.
Proof.
  intros Hs Ht. destruct (lookup_lt_is_Some_2 l src Hs) as [x Hx]. unfold move_at, np_get. rewrite Hx. cbn [mbind result_bind].
  by apply np_set_ok.
Qed.

Lemma np_get_lt {A} (l : list A) i : (i < length l)%nat → ∃ x, np_get l i = Ok x ∧ l !! i = Some x.
Proof. intros Hi. destruct (lookup_lt_is_Some_2 l i Hi) as [x Hx]. exists x. split; [by apply np_get_ok|done]. Qed.

(** Assigning a prefix of another row: the prefix is that of the other row. *)
Lemma assign_prefix_ok {A} (m : list (list A)) W i r n : (i < length m)%nat → Forall (λ r, length r = W) m → length r = W →
  ∃ m', np_assign_row m i 0 n (take n r) = Ok m' ∧ length m' = length m ∧ Forall (λ r, length r = W) m' ∧
    (∀ k, (k ≤ n)%nat → take k <$> m' !! i = Some (take k r)) ∧ ∀ j, j ≠ i → m' !! j = m !! j.
Proof.
  intros Hi Hw Hr. destruct (np_get_lt m i Hi) as (row & E & Hrow). unfold np_assign_row. rewrite E. cbn [mbind result_bind].
  pose proof (proj1 (Forall_lookup _ _) Hw i row Hrow) as Hl. cbv beta in Hl.
  assert (Ea : np_assign row 0 n (take n r) = Ok (take n r ++ drop (length (take n r)) row)).
  { unfold np_assign. rewrite length_take, Hl, Hr. rewrite Nat.min_0_l, Nat.max_0_l, Nat.sub_0_r, Nat.eqb_refl. done. }
  rewrite Ea. cbn [mbind result_bind]. eexists. split; [done|]. split; [by rewrite length_insert|]. split; [|split].
  - apply Forall_insert; [done|]. rewrite length_app, length_drop, length_take. lia.
  - intros k Hk. rewrite list_lookup_insert_eq by done. cbn. f_equal. destruct (decide (k ≤ length r)%nat) as [Hkr|Hkr].
    + rewrite take_app_le by (rewrite length_take; lia). rewrite take_take. f_equal. lia.
    + rewrite (take_ge r n) by lia. rewrite (take_ge r k) by lia. rewrite drop_ge by lia. rewrite app_nil_r. apply take_ge. lia.
  - intros j Hj. by rewrite list_lookup_insert_ne.
Qed.

Lemma swap_prefix_ok {A} (m : list (list A)) W i1 i2 n r1 r2 : i1 ≠ i2 → Forall (λ r, length r = W) m →
  m !! i1 = Some r1 → m !! i2 = Some r2 →
  ∃ m', swap_prefix m i1 i2 n = Ok m' ∧ length m' = length m ∧ Forall (λ r, length r = W) m' ∧
    (∀ k, (k ≤ n)%nat → take k <$> m' !! i1 = Some (take k r2)) ∧ (∀ k, (k ≤ n)%nat → take k <$> m' !! i2 = Some (take k r1)) ∧
    ∀ j, j ≠ i1 → j ≠ i2 → m' !! j = m !! j.
Proof.
  intros Hne Hw H1 H2. pose proof (proj1 (Forall_lookup _ _) Hw i1 r1 H1) as L1. pose proof (proj1 (Forall_lookup _ _) Hw i2 r2 H2) as L2.
  cbv beta in L1, L2. pose proof (lookup_lt_Some _ _ _ H1). pose proof (lookup_lt_Some _ _ _ H2).
  unfold swap_prefix, np_get. rewrite H1, H2. cbn [mbind result_bind].
  destruct (assign_prefix_ok m W i1 r2 n) as (m1 & -> & Hl1 & Hw1 & Hp1 & Ho1); [done|done|done|]. cbn [mbind result_bind].
  destruct (assign_prefix_ok m1 W i2 r1 n) as (m2 & -> & Hl2 & Hw2 & Hp2 & Ho2); [lia|done|done|].
  exists m2. split_and!; [done|lia|done| |done|].
  - intros k Hk. rewrite Ho2 by done. by apply Hp1.
  - intros j Hj1 Hj2. rewrite Ho2, Ho1 by done. done.
Qed.

Lemma move_key_lookup {A} (d : gmap nat A) src tgt j : src ≠ tgt → d !! tgt = None →
  move_key d src tgt !! j = if decide (j = tgt) then d !! src else if decide (j = src) then None else d !! j.
Proof.
  intros Hne Ht. unfold move_key. destruct (d !! src) as [x|] eqn:E.
  - case_decide; [subst; by rewrite lookup_insert_eq|]. rewrite lookup_insert_ne by done.
    case_decide; [subst; by rewrite lookup_delete_eq|]. by rewrite lookup_delete_ne.
  - case_decide; [by subst|]. case_decide; [by subst|done].
Qed.

Lemma swap_dict_lookup {A} (d : gmap nat A) i1 i2 j : i1 ≠ i2 →
  swap_dict_values d i1 i2 !! j = if decide (j = i2) then d !! i1 else if decide (j = i1) then d !! i2 else d !! j.
Proof.
  intros Hne. unfold swap_dict_values.
  destruct (d !! i1) as [x|] eqn:E1, (d !! i2) as [y|] eqn:E2; repeat case_decide; subst; try done;
    repeat first [rewrite lookup_insert_eq|rewrite lookup_insert_ne by done|rewrite lookup_delete_eq|rewrite lookup_delete_ne by done]; done.
Qed.

(** ** Data of all models *)

Section rows.
(** Number of rows, and length of the rows of tokens. *)
Context (N W : nat).
Implicit Types (d : row_data).

Record rows_ok d : Prop := mkRowsOk {
  ro_toks : length (token_ids_cpu d) = N;
  ro_toks_width : Forall (λ r, length r = W) (token_ids_cpu d);
  ro_is : length (is_token_ids d) = N;
  ro_is_width : Forall (λ r, length r = W) (is_token_ids d);
  ro_nts : length (num_tokens_no_spec d) = N;
  ro_npt : length (num_prompt_tokens d) = N;
  ro_nct : length (num_computed_tokens_cpu d) = N;
  ro_bt : mg_ok N (block_table d);
  ro_lm : length (request_lora_mapping d) = N;
}.

(** Number of tokens of an index, draft tokens included. *)
Definition active d (i : nat) : nat := default 0%nat (num_tokens_no_spec d !! i) + length (default [] (spec_token_ids d !! i)).

(** What an index holds: draft tokens, counts, adapter, blocks, and its active tokens. *)
Definition row_view d (i : nat) :=
  (spec_token_ids d !! i, num_tokens_no_spec d !! i, num_prompt_tokens d !! i, num_computed_tokens_cpu d !! i,
   request_lora_mapping d !! i, mg_rows (block_table d) i,
   take (active d i) <$> token_ids_cpu d !! i, take (active d i) <$> is_token_ids d !! i).

Ltac rows_simpl := unfold row_view, active;
  cbn [spec_token_ids token_ids_cpu is_token_ids req_prompt_embeds num_tokens_no_spec num_prompt_tokens num_computed_tokens_cpu
    block_table request_lora_mapping].

Lemma active_ok d i : rows_ok d → (i < N)%nat → (i < length (spec_token_ids d))%nat → _get_active_token_count d i = Ok (active d i).
Proof.
  intros H Hi Hs. unfold _get_active_token_count, active. destruct (np_get_lt (num_tokens_no_spec d) i) as (n & -> & ->); [rewrite (ro_nts _ H); lia|].
  cbn [mbind result_bind]. destruct (np_get_lt (spec_token_ids d) i Hs) as (l & -> & ->). done.
Qed.

Lemma rows_move_ok d src tgt : rows_ok d → src ≠ tgt → (src < N)%nat → (tgt < N)%nat →
  (src < length (spec_token_ids d))%nat → (tgt < length (spec_token_ids d))%nat →
  ∃ d', rows_move d src tgt = Ok d' ∧ rows_ok d' ∧ mg_shape (block_table d) (block_table d') ∧
    row_view d' tgt = row_view d src ∧ (∀ j, j ≠ src → j ≠ tgt → row_view d' j = row_view d j) ∧
    (∀ j, spec_token_ids d' !! j = if decide (j = src) then Some [] else if decide (j = tgt) then spec_token_ids d !! src else spec_token_ids d !! j) ∧
    length (spec_token_ids d') = length (spec_token_ids d) ∧
    (∀ j, request_lora_mapping d' !! j = if decide (j = tgt) then request_lora_mapping d !! src else request_lora_mapping d !! j) ∧
    req_prompt_embeds d' = move_key (req_prompt_embeds d) src tgt.
Proof.
  intros H Hne Hs Ht Hss Hst. pose proof H as [H1 H2 H3 H4 H5 H6 H7 H8 H9]. unfold rows_move. rewrite active_ok by done. cbn [mbind result_bind].
  destruct (np_get_lt (spec_token_ids d) src Hss) as (sp & -> & Esp). cbn [mbind result_bind].
  destruct (np_set_ok (spec_token_ids d) tgt sp Hst) as (s1 & -> & Ls1 & Ks1). cbn [mbind result_bind].
  destruct (np_set_ok s1 src []) as (s2 & -> & Ls2 & Ks2); [lia|]. cbn [mbind result_bind].
  destruct (np_get_lt (token_ids_cpu d) src) as (rt & -> & Ert); [lia|]. cbn [mbind result_bind].
  pose proof (proj1 (Forall_lookup _ _) H2 _ _ Ert) as Wrt. cbv beta in Wrt.
  destruct (assign_prefix_ok (token_ids_cpu d) W tgt rt (active d src)) as (tk & -> & Ltk & Wtk & Ptk & Otk); [lia|done|done|]. cbn [mbind result_bind].
  destruct (np_get_lt (is_token_ids d) src) as (ri & -> & Eri); [lia|]. cbn [mbind result_bind].
  pose proof (proj1 (Forall_lookup _ _) H4 _ _ Eri) as Wri. cbv beta in Wri.
  destruct (assign_prefix_ok (is_token_ids d) W tgt ri (active d src)) as (ik & -> & Lik & Wik & Pik & Oik); [lia|done|done|]. cbn [mbind result_bind].
  destruct (move_at_ok (num_tokens_no_spec d) src tgt) as (nts & -> & Lnts & Knts); [lia..|]. cbn [mbind result_bind].
  destruct (move_at_ok (num_prompt_tokens d) src tgt) as (npt & -> & Lnpt & Knpt); [lia..|]. cbn [mbind result_bind].
  destruct (move_at_ok (num_computed_tokens_cpu d) src tgt) as (nct & -> & Lnct & Knct); [lia..|]. cbn [mbind result_bind].
  destruct (mg_move_row_ok N (block_table d) src tgt) as (bt & -> & Obt & Sbt & Kbt); [done..|]. cbn [mbind result_bind].
  destruct (move_at_ok (request_lora_mapping d) src tgt) as (lm & -> & Llm & Klm); [lia..|]. cbn [mbind result_bind].
  eexists. split; [done|]. split; [split; cbn; done || lia|]. split; [done|]. 
  assert (Hspec : ∀ j, s2 !! j = if decide (j = src) then Some [] else if decide (j = tgt) then spec_token_ids d !! src else spec_token_ids d !! j).
  { intros j. rewrite Ks2, Ks1, Esp. done. }
  split_and!; [| |exact Hspec|cbn; lia|exact Klm|done].
  - rows_simpl. rewrite Hspec, Knts, Knpt, Knct, Klm, Kbt, !(decide_False (P := tgt = src)), !(decide_True (P := tgt = tgt)) by done.
    fold (active d src). rewrite Ptk, Pik by lia. by rewrite Ert, Eri.
  - intros j Hj1 Hj2. rows_simpl. rewrite Hspec, Knts, Knpt, Knct, Klm, Kbt, !(decide_False (P := j = tgt)), !(decide_False (P := j = src)) by done.
    by rewrite Otk, Oik.
Qed.

Lemma rows_swap_ok d i1 i2 : rows_ok d → i1 ≠ i2 → (i1 < N)%nat → (i2 < N)%nat →
  (i1 < length (spec_token_ids d))%nat → (i2 < length (spec_token_ids d))%nat →
  ∃ d', rows_swap d i1 i2 = Ok d' ∧ rows_ok d' ∧ mg_shape (block_table d) (block_table d') ∧
    row_view d' i1 = row_view d i2 ∧ row_view d' i2 = row_view d i1 ∧ (∀ j, j ≠ i1 → j ≠ i2 → row_view d' j = row_view d j) ∧
    (∀ j, spec_token_ids d' !! j = if decide (j = i2) then spec_token_ids d !! i1 else if decide (j = i1) then spec_token_ids d !! i2 else spec_token_ids d !! j) ∧
    length (spec_token_ids d') = length (spec_token_ids d) ∧
    (∀ j, request_lora_mapping d' !! j = if decide (j = i2) then request_lora_mapping d !! i1 else if decide (j = i1) then request_lora_mapping d !! i2
      else request_lora_mapping d !! j) ∧
    req_prompt_embeds d' = swap_dict_values (req_prompt_embeds d) i1 i2.
Proof.
  intros H Hne Hi1 Hi2 Hs1 Hs2. pose proof H as [H1 H2 H3 H4 H5 H6 H7 H8 H9]. unfold rows_swap. rewrite !active_ok by done. cbn [mbind result_bind].
  destruct (swap_at_ok (spec_token_ids d) i1 i2 Hs1 Hs2) as (sp & -> & Lsp & Ksp). cbn [mbind result_bind].
  destruct (swap_at_ok (num_tokens_no_spec d) i1 i2) as (nts & -> & Lnts & Knts); [lia..|]. cbn [mbind result_bind].
  destruct (swap_at_ok (num_prompt_tokens d) i1 i2) as (npt & -> & Lnpt & Knpt); [lia..|]. cbn [mbind result_bind].
  destruct (swap_at_ok (num_computed_tokens_cpu d) i1 i2) as (nct & -> & Lnct & Knct); [lia..|]. cbn [mbind result_bind].
  destruct (lookup_lt_is_Some_2 (token_ids_cpu d) i1) as [t1 Et1]; [lia|]. destruct (lookup_lt_is_Some_2 (token_ids_cpu d) i2) as [t2 Et2]; [lia|].
  destruct (swap_prefix_ok (token_ids_cpu d) W i1 i2 (Nat.max (active d i1) (active d i2)) t1 t2) as (tk & -> & Ltk & Wtk & P1 & P2 & Otk); [done..|]. cbn [mbind result_bind].
  destruct (lookup_lt_is_Some_2 (is_token_ids d) i1) as [k1 Ek1]; [lia|]. destruct (lookup_lt_is_Some_2 (is_token_ids d) i2) as [k2 Ek2]; [lia|].
  destruct (swap_prefix_ok (is_token_ids d) W i1 i2 (Nat.max (active d i1) (active d i2)) k1 k2) as (ik & -> & Lik & Wik & Q1 & Q2 & Oik); [done..|]. cbn [mbind result_bind].
  destruct (mg_swap_row_ok N (block_table d) i1 i2) as (bt & -> & Obt & Sbt & Kbt); [done..|]. cbn [mbind result_bind].
  destruct (swap_at_ok (request_lora_mapping d) i1 i2) as (lm & -> & Llm & Klm); [lia..|]. cbn [mbind result_bind].
  eexists. split; [done|]. split; [split; cbn; done || lia|]. split; [done|].
  split_and!; [| | |exact Ksp|cbn; lia|exact Klm|done].
  - rows_simpl. rewrite Ksp, Knts, Knpt, Knct, Klm, Kbt, !(decide_False (P := i1 = i2)), !(decide_True (P := i1 = i1)) by done.
    fold (active d i2). rewrite P1, Q1 by lia. by rewrite Et2, Ek2.
  - rows_simpl. rewrite Ksp, Knts, Knpt, Knct, Klm, Kbt, !(decide_True (P := i2 = i2)) by done.
    fold (active d i1). rewrite P2, Q2 by lia. by rewrite Et1, Ek1.
  - intros j Hj1 Hj2. rows_simpl. rewrite Ksp, Knts, Knpt, Knct, Klm, Kbt, !(decide_False (P := j = i1)), !(decide_False (P := j = i2)) by done.
    by rewrite Otk, Oik.
Qed.

Lemma rows_remove_ok d i : rows_ok d → (i < N)%nat → (i < length (spec_token_ids d))%nat →
  ∃ d', rows_remove d i = Ok d' ∧ rows_ok d' ∧ mg_shape (block_table d) (block_table d') ∧
    (∀ j, j ≠ i → row_view d' j = row_view d j) ∧
    (∀ j, spec_token_ids d' !! j = if decide (j = i) then Some [] else spec_token_ids d !! j) ∧
    length (spec_token_ids d') = length (spec_token_ids d) ∧
    (∀ j, j ≠ i → request_lora_mapping d' !! j = request_lora_mapping d !! j) ∧ req_prompt_embeds d' = req_prompt_embeds d.
Proof.
  intros H Hi Hs. pose proof H as [H1 H2 H3 H4 H5 H6 H7 H8 H9]. unfold rows_remove.
  destruct (np_set_ok (spec_token_ids d) i [] Hs) as (sp & -> & Lsp & Ksp). cbn [mbind result_bind].
  destruct (mg_clear_row_ok N (block_table d) i) as (bt & -> & Obt & Sbt & Kbt); [done..|]. cbn [mbind result_bind].
  destruct (np_set_ok (request_lora_mapping d) i 0) as (lm & -> & Llm & Klm); [lia|]. cbn [mbind result_bind].
  eexists. split; [done|]. split; [split; cbn; done || lia|]. split; [done|].
  split_and!; [|exact Ksp|cbn; lia| |done].
  - intros j Hj. rows_simpl. by rewrite Ksp, Klm, Kbt, !decide_False by done.
  - intros j Hj. cbn. by rewrite Klm, decide_False.
Qed.

(** *** Adding a request *)

Lemma assign_row_ok {A} (m : list (list A)) i a vals row : m !! i = Some row → Forall (λ r, length r = W) m → (a + length vals ≤ W)%nat →
  ∃ m', np_assign_row m i a (a + length vals) vals = Ok m' ∧ length m' = length m ∧ Forall (λ r, length r = W) m' ∧
    m' !! i = Some (splice row a vals) ∧ ∀ j, j ≠ i → m' !! j = m !! j.
Proof.
  intros Hi Hw Hf. pose proof (proj1 (Forall_lookup _ _) Hw _ _ Hi) as Hl. cbv beta in Hl. unfold np_assign_row, np_get. rewrite Hi. cbn [mbind result_bind].
  rewrite np_assign_ok by lia. cbn [mbind result_bind]. fold (splice row a vals). eexists. split; [done|]. split; [by rewrite length_insert|].
  split; [apply Forall_insert; [done|]; rewrite splice_length; lia|]. split; [apply list_lookup_insert_eq; by eapply lookup_lt_Some|].
  intros j Hj. by rewrite list_lookup_insert_ne.
Qed.

Lemma fill_row_ok {A} (m : list (list A)) i a n x row : m !! i = Some row → Forall (λ r, length r = W) m → (a + n ≤ W)%nat →
  ∃ m', np_fill_row m i a (a + n) x = Ok m' ∧ length m' = length m ∧ Forall (λ r, length r = W) m' ∧
    m' !! i = Some (splice row a (replicate n x)) ∧ ∀ j, j ≠ i → m' !! j = m !! j.
Proof.
  intros Hi Hw Hf. pose proof (proj1 (Forall_lookup _ _) Hw _ _ Hi) as Hl. cbv beta in Hl. unfold np_fill_row, np_get. rewrite Hi. cbn [mbind result_bind].
  rewrite np_fill_ok by lia. eexists. split; [done|]. split; [by rewrite length_insert|].
  assert (Hs : take a row ++ replicate n x ++ drop (a + n) row = splice row a (replicate n x)) by (unfold splice; by rewrite length_replicate).
  rewrite Hs. split; [apply Forall_insert; [done|]; rewrite splice_length; rewrite ?length_replicate; lia|].
  split; [apply list_lookup_insert_eq; by eapply lookup_lt_Some|]. intros j Hj. by rewrite list_lookup_insert_ne.
Qed.

(** A request that can be put into the batch. *)
Record request_ok (h : heap) (ts : MultiGroupBlockTable) (r : CachedRequestState) : Prop := mkReqOk {
  rq_len : length_from_prompt_token_ids_or_embeds (cr_prompt_token_ids r) (cr_prompt_embeds r) = Ok (cr_num_prompt_tokens r);
  rq_fit : (num_tokens h r ≤ W)%nat;
  rq_is : ∀ l, cr_prompt_is_token_ids r = Some l → length l = cr_num_prompt_tokens r;
  rq_blocks : mg_fits ts (cr_block_ids r);
  rq_lora : ∀ l, cr_lora_request r = Some l → lora_int_id l ≠ 0;
}.

(** Which tokens of a new request are token ids. *)
Definition fresh_is_token_ids (h : heap) (r : CachedRequestState) : list bool :=
  match cr_prompt_token_ids r with
  | Some _ => default (replicate (cr_num_prompt_tokens r) true) (cr_prompt_is_token_ids r)
  | None => replicate (cr_num_prompt_tokens r) false
  end ++ replicate (length (deref h (cr_output_token_ids r))) true.

(** Index [i] holds a new request: no draft tokens, its counts, adapter and blocks, and
    its prompt followed by its output tokens. *)
Definition row_fresh (h : heap) (r : CachedRequestState) d (i : nat) : Prop :=
  spec_token_ids d !! i = Some [] ∧ num_tokens_no_spec d !! i = Some (num_tokens h r) ∧ num_prompt_tokens d !! i = Some (cr_num_prompt_tokens r) ∧
  num_computed_tokens_cpu d !! i = Some (cr_num_computed_tokens r) ∧
  request_lora_mapping d !! i = Some (match cr_lora_request r with Some l => lora_int_id l | None => 0 end) ∧
  mg_rows (block_table d) i = mg_want (block_table d) (cr_block_ids r) ∧
  (∃ pre, length pre = cr_num_prompt_tokens r ∧ (∀ p, cr_prompt_token_ids r = Some p → pre = p) ∧
    take (num_tokens h r) <$> token_ids_cpu d !! i = Some (pre ++ deref h (cr_output_token_ids r))) ∧
  take (num_tokens h r) <$> is_token_ids d !! i = Some (fresh_is_token_ids h r).

Lemma prompt_length r p n : length_from_prompt_token_ids_or_embeds (Some p) (cr_prompt_embeds r) = Ok n → length p = n.
Proof. cbn. destruct (cr_prompt_embeds r); [destruct (_ =? _)%nat|]; naive_solver. Qed.

(** The tokens of the prompt, and which of them are token ids. *)
Lemma prompt_rows_ok h d i r : rows_ok d → request_ok h (block_table d) r → (i < N)%nat →
  let n := cr_num_prompt_tokens r in
  ∃ tk ik trow irow,
    match cr_prompt_token_ids r with
    | Some prompt =>
        toks ← np_assign_row (token_ids_cpu d) i 0 n prompt;
        is_toks ← match cr_prompt_is_token_ids r with
          | Some l => np_assign_row (is_token_ids d) i 0 n l
          | None => np_fill_row (is_token_ids d) i 0 n true
          end;
        Ok (toks, is_toks)
    | None => is_toks ← np_fill_row (is_token_ids d) i 0 n false; Ok (token_ids_cpu d, is_toks)
    end = Ok (tk, ik) ∧ length tk = N ∧ length ik = N ∧ Forall (λ r, length r = W) tk ∧ Forall (λ r, length r = W) ik ∧
    tk !! i = Some trow ∧ ik !! i = Some irow ∧ (∀ p, cr_prompt_token_ids r = Some p → take n trow = p) ∧
    take n irow = match cr_prompt_token_ids r with Some _ => default (replicate n true) (cr_prompt_is_token_ids r) | None => replicate n false end ∧
    ∀ j, j ≠ i → tk !! j = token_ids_cpu d !! j ∧ ik !! j = is_token_ids d !! j.
Proof.
  intros H [Hlen Hfit His _ _] Hi n. pose proof H as [H1 H2 H3 H4 _ _ _ _ _]. unfold num_tokens in Hfit.
  destruct (lookup_lt_is_Some_2 (token_ids_cpu d) i) as [trow Et]; [lia|]. destruct (lookup_lt_is_Some_2 (is_token_ids d) i) as [irow Ei]; [lia|].
  assert (Htk : ∀ (vals : list bool), length vals = n → take n (splice irow 0 vals) = vals).
  { intros vals Hv. pose proof (splice_take irow 0 vals) as Hs. rewrite Nat.add_0_l, Hv in Hs. rewrite Hs by lia. done. }
  destruct (cr_prompt_token_ids r) as [p|] eqn:Ep.
  - apply prompt_length in Hlen. fold n in Hlen.
    pose proof (assign_row_ok (token_ids_cpu d) i 0 p trow Et H2) as Ha. rewrite Nat.add_0_l, Hlen in Ha.
    destruct Ha as (tk & -> & Lt & Wt & Kt & Ot); [lia|]. cbn [mbind result_bind].
    assert (His' : ∃ ik irow', match cr_prompt_is_token_ids r with
        | Some l => np_assign_row (is_token_ids d) i 0 n l | None => np_fill_row (is_token_ids d) i 0 n true end = Ok ik ∧
      length ik = N ∧ Forall (λ r, length r = W) ik ∧ ik !! i = Some irow' ∧
      take n irow' = default (replicate n true) (cr_prompt_is_token_ids r) ∧ ∀ j, j ≠ i → ik !! j = is_token_ids d !! j).
    { destruct (cr_prompt_is_token_ids r) as [l|] eqn:El.
      - pose proof (His l eq_refl) as Hll. fold n in Hll. pose proof (assign_row_ok (is_token_ids d) i 0 l irow Ei H4) as Hb.
        rewrite Nat.add_0_l, Hll in Hb. destruct Hb as (ik & -> & Li & Wi & Ki & Oi); [lia|]. do 2 eexists. split; [done|]. split; [lia|].
        split; [done|]. split; [exact Ki|]. split; [by apply Htk|done].
      - pose proof (fill_row_ok (is_token_ids d) i 0 n true irow Ei H4) as Hb. rewrite Nat.add_0_l in Hb.
        destruct Hb as (ik & -> & Li & Wi & Ki & Oi); [lia|]. do 2 eexists. split; [done|]. split; [lia|]. split; [done|]. split; [exact Ki|].
        split; [apply (Htk (replicate n true)), length_replicate|done]. }
    destruct His' as (ik & irow' & -> & Li & Wi & Ki & Ti & Oi). cbn [mbind result_bind]. exists tk, ik, (splice trow 0 p), irow'.
    split_and!; [done|lia|done|done|done|done|done| |done|by intros; split; auto].
    intros p' [= <-]. pose proof (splice_take trow 0 p) as Hs. rewrite Nat.add_0_l, Hlen in Hs. rewrite Hs by lia. done.
  - pose proof (fill_row_ok (is_token_ids d) i 0 n false irow Ei H4) as Hb. rewrite Nat.add_0_l in Hb.
    destruct Hb as (ik & -> & Li & Wi & Ki & Oi); [lia|]. cbn [mbind result_bind]. do 4 eexists. split; [done|]. split; [done|]. split; [lia|].
    split; [done|]. split; [done|]. split; [exact Et|]. split; [exact Ki|]. split; [done|]. split; [apply (Htk (replicate n false)), length_replicate|].
    intros j Hj. split; [done|by apply Oi].
Qed.

Lemma rows_add_ok h d spec i r : rows_ok d → request_ok h (block_table d) r → (i < N)%nat →
  spec !! i = Some [] →
  ∃ d', rows_add h d spec i r = Ok d' ∧ rows_ok d' ∧ mg_shape (block_table d) (block_table d') ∧ row_fresh h r d' i ∧
    (∀ j, j ≠ i → spec !! j = spec_token_ids d !! j → row_view d' j = row_view d j) ∧ spec_token_ids d' = spec ∧
    (∀ j, j ≠ i → request_lora_mapping d' !! j = request_lora_mapping d !! j) ∧
    (∀ j, j ≠ i → req_prompt_embeds d' !! j = req_prompt_embeds d !! j) ∧
    (∀ e, cr_prompt_embeds r = Some e → req_prompt_embeds d' !! i = Some e).
Proof.
  intros H Hr Hi Hspec. pose proof H as [H1 H2 H3 H4 H5 H6 H7 H8 H9]. pose proof Hr as [Hlen Hfit _ Hblk _]. unfold rows_add.
  rewrite Hlen. cbn [mbind result_bind]. set (n := cr_num_prompt_tokens r) in *.
  destruct (np_set_ok (num_prompt_tokens d) i n) as (npt & -> & Lnpt & Knpt); [lia|]. cbn [mbind result_bind].
  destruct (prompt_rows_ok h d i r H Hr Hi) as (tk & ik & trow & irow & Epr & Lt & Li & Wt & Wi & Et & Ei & Tt & Ti & Oo).
  fold n in Epr, Tt, Ti. rewrite Epr. cbn [mbind result_bind].
  set (outs := deref h (cr_output_token_ids r)) in *. unfold num_tokens in Hfit. fold n in Hfit. fold outs in Hfit.
  destruct (assign_row_ok tk i n outs trow Et Wt) as (tk2 & -> & Lt2 & Wt2 & Kt2 & Ot2); [lia|]. cbn [mbind result_bind].
  destruct (fill_row_ok ik i n (length outs) true irow Ei Wi) as (ik2 & -> & Li2 & Wi2 & Ki2 & Oi2); [lia|]. cbn [mbind result_bind].
  destruct (np_set_ok (num_tokens_no_spec d) i (num_tokens h r)) as (nts & -> & Lnts & Knts); [lia|]. cbn [mbind result_bind].
  destruct (np_set_ok (num_computed_tokens_cpu d) i (cr_num_computed_tokens r)) as (nct & -> & Lnct & Knct); [lia|]. cbn [mbind result_bind].
  destruct (mg_add_row_ok N (block_table d) (cr_block_ids r) i) as (bt & -> & Obt & Sbt & Kbt); [done..|]. cbn [mbind result_bind].
  destruct (np_set_ok (request_lora_mapping d) i (match cr_lora_request r with Some l => lora_int_id l | None => 0 end)) as (lm & -> & Llm & Klm); [lia|].
  cbn [mbind result_bind]. eexists. split; [done|]. split; [split; cbn; done || lia|]. split; [done|].
  pose proof (proj1 (Forall_lookup _ _) Wt _ _ Et) as Wtr. pose proof (proj1 (Forall_lookup _ _) Wi _ _ Ei) as Wir. cbv beta in Wtr, Wir.
  split_and!; [| |done| | |].
  - unfold row_fresh. cbn [spec_token_ids token_ids_cpu is_token_ids req_prompt_embeds num_tokens_no_spec num_prompt_tokens num_computed_tokens_cpu
      block_table request_lora_mapping]. rewrite Knts, Knpt, Knct, Klm, Kbt, !(decide_True (P := i = i)) by done.
    split_and!; [done..|by rewrite (mg_want_shape _ _ _ Sbt)| |].
    + exists (take n trow). split; [rewrite length_take; unfold n in *; lia|]. split; [exact Tt|]. rewrite Kt2. cbn [fmap option_fmap option_map]. f_equal.
      unfold num_tokens. fold n outs. by apply splice_take; lia.
    + rewrite Ki2. cbn [fmap option_fmap option_map]. f_equal. unfold num_tokens, fresh_is_token_ids. fold n outs.
      pose proof (splice_take irow n (replicate (length outs) true)) as Hs. rewrite length_replicate in Hs. rewrite Hs by lia. by rewrite Ti.
  - intros j Hj Hsj. rows_simpl. rewrite Hsj, Knts, Knpt, Knct, Klm, Kbt, !(decide_False (P := j = i)) by done.
    rewrite Ot2, Oi2 by done. destruct (Oo j Hj) as [-> ->]. done.
  - intros j Hj. cbn. by rewrite Klm, decide_False.
  - intros j Hj. cbn. destruct (cr_prompt_embeds r); [by rewrite lookup_insert_ne|done].
  - intros e ->. cbn. by rewrite lookup_insert_eq.
Qed.
End rows.

(** ** Data of models that generate *)

Section samp.
Context (f32 : Q → Q) (N : nat).
Implicit Types (d : sampling_data).

Record samp_ok (c : batch_conf) d : Prop := mkSampOk {
  sa_temp : length (temperature_cpu d) = N;
  sa_top_p : length (top_p_cpu d) = N;
  sa_top_k : length (top_k_cpu d) = N;
  sa_fp : length (frequency_penalties_cpu d) = N;
  sa_pp : length (presence_penalties_cpu d) = N;
  sa_rp : length (repetition_penalties_cpu d) = N;
  sa_na : length (num_accepted_tokens_cpu d) = N;
  sa_mask : ∀ m, allowed_token_ids_mask_cpu d = Some m → length m = N;
}.

(** The sampling parameters of an index. *)
Definition samp_view d (i : nat) :=
  (temperature_cpu d !! i, top_p_cpu d !! i, top_k_cpu d !! i, frequency_penalties_cpu d !! i, presence_penalties_cpu d !! i,
   repetition_penalties_cpu d !! i, num_accepted_tokens_cpu d !! i, generators d !! i, bad_words_by_index d !! i).

(** The parameters of a new request. *)
Definition samp_fresh (c : batch_conf) (r : CachedRequestState) (sp : SamplingParams) :=
  (Some (if decide (sampling_type sp = GREEDY) then 0%Q else f32 (temperature sp)), Some (f32 (top_p sp)), Some (effective_top_k c sp),
   Some (f32 (frequency_penalty sp)), Some (f32 (presence_penalty sp)), Some (f32 (repetition_penalty sp)), Some 1,
   cr_generator r, truthy_list (bad_words_token_ids sp)).

(** No generator and no bad words are recorded at an index. *)
Definition samp_vacant d (i : nat) : Prop := generators d !! i = None ∧ bad_words_by_index d !! i = None.

Ltac samp_simpl := unfold samp_view, samp_vacant;
  cbn [temperature_cpu top_p_cpu top_k_cpu frequency_penalties_cpu presence_penalties_cpu repetition_penalties_cpu num_accepted_tokens_cpu
    generators bad_words_by_index allowed_token_ids_mask_cpu].

Lemma samp_move_ok c d src tgt : samp_ok c d → src ≠ tgt → (src < N)%nat → (tgt < N)%nat → samp_vacant d tgt →
  ∃ d', samp_move d src tgt = Ok d' ∧ samp_ok c d' ∧ samp_view d' tgt = samp_view d src ∧
    (∀ j, j ≠ src → j ≠ tgt → samp_view d' j = samp_view d j) ∧ samp_vacant d' src ∧
    (∀ j, j ≠ src → j ≠ tgt → samp_vacant d j → samp_vacant d' j).
Proof.
  intros [H1 H2 H3 H4 H5 H6 H7 H8] Hne Hs Ht [Hg Hb]. unfold samp_move.
  destruct (move_at_ok (temperature_cpu d) src tgt) as (c1 & -> & L1 & K1); [lia..|]. cbn [mbind result_bind].
  destruct (move_at_ok (top_p_cpu d) src tgt) as (c2 & -> & L2 & K2); [lia..|]. cbn [mbind result_bind].
  destruct (move_at_ok (top_k_cpu d) src tgt) as (c3 & -> & L3 & K3); [lia..|]. cbn [mbind result_bind].
  destruct (move_at_ok (frequency_penalties_cpu d) src tgt) as (c4 & -> & L4 & K4); [lia..|]. cbn [mbind result_bind].
  destruct (move_at_ok (presence_penalties_cpu d) src tgt) as (c5 & -> & L5 & K5); [lia..|]. cbn [mbind result_bind].
  destruct (move_at_ok (repetition_penalties_cpu d) src tgt) as (c6 & -> & L6 & K6); [lia..|]. cbn [mbind result_bind].
  destruct (move_at_ok (num_accepted_tokens_cpu d) src tgt) as (c7 & -> & L7 & K7); [lia..|]. cbn [mbind result_bind].
  assert (Hm : ∃ m', match allowed_token_ids_mask_cpu d with None => Ok None | Some m => m ← move_at m src tgt; Ok (Some m) end = Ok m' ∧
    ∀ m, m' = Some m → length m = N).
  { destruct (allowed_token_ids_mask_cpu d) as [m|]; [|by exists None]. specialize (H8 m eq_refl).
    destruct (move_at_ok m src tgt) as (m' & -> & L & _); [lia..|]. cbn [mbind result_bind]. exists (Some m'). split; [done|]. intros ? [= <-]. lia. }
  destruct Hm as (m' & -> & Lm). cbn [mbind result_bind]. eexists. split; [done|]. split; [split; cbn; done || lia|]. split_and!.
  - samp_simpl. rewrite K1, K2, K3, K4, K5, K6, K7, !(decide_True (P := tgt = tgt)) by done.
    by rewrite !move_key_lookup, !(decide_True (P := tgt = tgt)).
  - intros j Hj1 Hj2. samp_simpl. rewrite K1, K2, K3, K4, K5, K6, K7, !(decide_False (P := j = tgt)) by done.
    by rewrite !move_key_lookup, !(decide_False (P := j = tgt)), !(decide_False (P := j = src)).
  - samp_simpl. rewrite !move_key_lookup by done. by rewrite !(decide_False (P := src = tgt)), !(decide_True (P := src = src)).
  - intros j Hj1 Hj2. samp_simpl. by rewrite !move_key_lookup, !(decide_False (P := j = tgt)), !(decide_False (P := j = src)).
Qed.

Lemma samp_swap_ok c d i1 i2 : samp_ok c d → i1 ≠ i2 → (i1 < N)%nat → (i2 < N)%nat →
  ∃ d', samp_swap d i1 i2 = Ok d' ∧ samp_ok c d' ∧ samp_view d' i1 = samp_view d i2 ∧ samp_view d' i2 = samp_view d i1 ∧
    (∀ j, j ≠ i1 → j ≠ i2 → samp_view d' j = samp_view d j) ∧ (∀ j, j ≠ i1 → j ≠ i2 → samp_vacant d j → samp_vacant d' j).
Proof.
  intros [H1 H2 H3 H4 H5 H6 H7 H8] Hne Hi1 Hi2. unfold samp_swap.
  destruct (swap_at_ok (temperature_cpu d) i1 i2) as (c1 & -> & L1 & K1); [lia..|]. cbn [mbind result_bind].
  destruct (swap_at_ok (top_p_cpu d) i1 i2) as (c2 & -> & L2 & K2); [lia..|]. cbn [mbind result_bind].
  destruct (swap_at_ok (top_k_cpu d) i1 i2) as (c3 & -> & L3 & K3); [lia..|]. cbn [mbind result_bind].
  destruct (swap_at_ok (frequency_penalties_cpu d) i1 i2) as (c4 & -> & L4 & K4); [lia..|]. cbn [mbind result_bind].
  destruct (swap_at_ok (presence_penalties_cpu d) i1 i2) as (c5 & -> & L5 & K5); [lia..|]. cbn [mbind result_bind].
  destruct (swap_at_ok (repetition_penalties_cpu d) i1 i2) as (c6 & -> & L6 & K6); [lia..|]. cbn [mbind result_bind].
  destruct (swap_at_ok (num_accepted_tokens_cpu d) i1 i2) as (c7 & -> & L7 & K7); [lia..|]. cbn [mbind result_bind].
  assert (Hm : ∃ m', match allowed_token_ids_mask_cpu d with None => Ok None | Some m => m ← swap_mask m i1 i2; Ok (Some m) end = Ok m' ∧
    ∀ m, m' = Some m → length m = N).
  { destruct (allowed_token_ids_mask_cpu d) as [m|]; [|by exists None]. specialize (H8 m eq_refl). unfold swap_mask.
    destruct (np_get_lt m i2) as (r2 & -> & _); [lia|]. cbn [mbind result_bind].
    destruct (np_set_ok m i1 r2) as (m1 & -> & L & _); [lia|]. cbn [mbind result_bind].
    destruct (np_get_lt m1 i1) as (r1 & -> & _); [lia|]. cbn [mbind result_bind].
    destruct (np_set_ok m1 i2 r1) as (m2 & -> & L' & _); [lia|]. cbn [mbind result_bind]. exists (Some m2). split; [done|]. intros ? [= <-]. lia. }
  destruct Hm as (m' & -> & Lm). cbn [mbind result_bind]. eexists. split; [done|]. split; [split; cbn; done || lia|]. split_and!.
  - samp_simpl. rewrite K1, K2, K3, K4, K5, K6, K7, !swap_dict_lookup by done. by rewrite !(decide_False (P := i1 = i2)), !(decide_True (P := i1 = i1)).
  - samp_simpl. rewrite K1, K2, K3, K4, K5, K6, K7, !swap_dict_lookup by done. by rewrite !(decide_True (P := i2 = i2)).
  - intros j Hj1 Hj2. samp_simpl. rewrite K1, K2, K3, K4, K5, K6, K7, !swap_dict_lookup by done.
    by rewrite !(decide_False (P := j = i1)), !(decide_False (P := j = i2)).
  - intros j Hj1 Hj2. samp_simpl. rewrite !swap_dict_lookup by done. by rewrite !(decide_False (P := j = i1)), !(decide_False (P := j = i2)).
Qed.

Lemma samp_remove_ok c d i : samp_ok c d → (i < N)%nat →
  ∃ d', samp_remove d i = Ok d' ∧ samp_ok c d' ∧ (∀ j, j ≠ i → samp_view d' j = samp_view d j) ∧ samp_vacant d' i ∧
    (∀ j, samp_vacant d j → samp_vacant d' j).
Proof.
  intros [H1 H2 H3 H4 H5 H6 H7 H8] Hi. unfold samp_remove.
  assert (Hm : ∃ m', match allowed_token_ids_mask_cpu d with
      | None => Ok None | Some m => row ← np_get m i; Ok (Some (<[i := replicate (length row) false]> m)) end = Ok m' ∧ ∀ m, m' = Some m → length m = N).
  { destruct (allowed_token_ids_mask_cpu d) as [m|]; [|by exists None]. specialize (H8 m eq_refl).
    destruct (np_get_lt m i) as (row & -> & _); [lia|]. cbn [mbind result_bind]. eexists. split; [done|]. intros ? [= <-]. by rewrite length_insert. }
  destruct Hm as (m' & -> & Lm). cbn [mbind result_bind]. eexists. split; [done|]. split; [split; cbn; done || lia|]. split_and!.
  - intros j Hj. samp_simpl. by rewrite !lookup_delete_ne.
  - samp_simpl. by rewrite !lookup_delete_eq.
  - intros j [Hg Hb]. samp_simpl. split; apply lookup_delete_None; by right.
Qed.

(** Tokens of a request that can be masked. *)
Definition allowed_ok (V : Z) (sp : SamplingParams) : Prop := ∀ l, allowed_token_ids sp = Some l → Forall (λ t, 0 ≤ t < V) l.

Lemma allow_ok (mask : list bool) l : Forall (λ t, 0 ≤ t < zlen mask) l → ∃ m', mfold allow mask l = Ok m' ∧ length m' = length mask.
Proof.
  revert mask. induction l as [|t l IH]; intros mask Hl; [by exists mask|]. apply Forall_cons in Hl as [Ht Hl]. cbn [mfold].
  assert (Ea : allow mask t = Ok (<[Z.to_nat t := false]> mask)).
  { unfold allow, column. rewrite (proj2 (Z.ltb_ge _ _)) by lia. cbv zeta. by rewrite (proj2 (Z.leb_le _ _)), (proj2 (Z.ltb_lt _ _)) by lia. }
  rewrite Ea.
  cbn [mbind result_bind]. destruct (IH (<[Z.to_nat t := false]> mask)) as (m' & -> & L).
  - unfold zlen in *. by rewrite length_insert.
  - exists m'. split; [done|]. by rewrite L, length_insert.
Qed.

Lemma samp_add_ok c d i r sp : samp_ok c d → max_num_reqs c = N → 0 ≤ vocab_size c → (i < N)%nat → samp_vacant d i → allowed_ok (vocab_size c) sp →
  ∃ d' na, samp_add f32 c d i r sp = Ok d' ∧ np_set (num_accepted_tokens_cpu d') i 1 = Ok na ∧
    let d' := set_num_accepted d' na in
    samp_ok c d' ∧ samp_view d' i = samp_fresh c r sp ∧ (∀ j, j ≠ i → samp_view d' j = samp_view d j) ∧
    (∀ j, j ≠ i → samp_vacant d j → samp_vacant d' j).
Proof.
  intros [H1 H2 H3 H4 H5 H6 H7 H8] HN HV Hi [Hg Hb] Ha. unfold samp_add.
  destruct (np_set_ok (temperature_cpu d) i (if decide (sampling_type sp = GREEDY) then 0%Q else f32 (temperature sp))) as (c1 & -> & L1 & K1); [lia|]. cbn [mbind result_bind].
  destruct (np_set_ok (top_p_cpu d) i (f32 (top_p sp))) as (c2 & -> & L2 & K2); [lia|]. cbn [mbind result_bind].
  destruct (np_set_ok (top_k_cpu d) i (effective_top_k c sp)) as (c3 & -> & L3 & K3); [lia|]. cbn [mbind result_bind].
  destruct (np_set_ok (frequency_penalties_cpu d) i (f32 (frequency_penalty sp))) as (c4 & -> & L4 & K4); [lia|]. cbn [mbind result_bind].
  destruct (np_set_ok (presence_penalties_cpu d) i (f32 (presence_penalty sp))) as (c5 & -> & L5 & K5); [lia|]. cbn [mbind result_bind].
  destruct (np_set_ok (repetition_penalties_cpu d) i (f32 (repetition_penalty sp))) as (c6 & -> & L6 & K6); [lia|]. cbn [mbind result_bind].
  assert (Hm : ∃ m', mask_add c (allowed_token_ids_mask_cpu d) i sp = Ok m' ∧ ∀ m, m' = Some m → length m = N).
  { unfold mask_add. destruct (truthy_list (allowed_token_ids sp)) as [l|] eqn:El; [|by eexists].
    assert (Hl : Forall (λ t, 0 ≤ t < vocab_size c) l).
    { unfold truthy_list in El. destruct (allowed_token_ids sp) as [[|x l']|] eqn:E; try done. injection El as <-. by apply Ha. }
    destruct (allow_ok (replicate (Z.to_nat (vocab_size c)) true) l) as (row & -> & _).
    { eapply Forall_impl; [exact Hl|]. intros t Ht. cbv beta in *. unfold zlen. rewrite length_replicate. lia. }
    cbn [mbind result_bind]. set (m0 := default _ (allowed_token_ids_mask_cpu d)).
    assert (Lm0 : length m0 = N). { unfold m0. destruct (allowed_token_ids_mask_cpu d) as [m|]; [by apply H8|]. cbn. by rewrite length_replicate. }
    destruct (np_set_ok m0 i row) as (m' & -> & L & _); [lia|]. cbn [mbind result_bind]. eexists. split; [done|]. intros ? [= <-]. lia. }
  destruct Hm as (m' & -> & Lm). cbn [mbind result_bind]. eexists. destruct (np_set_ok (num_accepted_tokens_cpu d) i 1) as (na & Ena & L7 & K7); [lia|].
  exists na. split; [done|]. split; [exact Ena|]. cbv zeta. split; [split; cbn; done || lia|]. unfold set_num_accepted. split_and!.
  - samp_simpl. unfold samp_fresh. rewrite K1, K2, K3, K4, K5, K6, K7, !(decide_True (P := i = i)) by done.
    destruct (cr_generator r), (truthy_list (bad_words_token_ids sp)); rewrite ?lookup_insert_eq, ?Hg, ?Hb; done.
  - intros j Hj. samp_simpl. rewrite K1, K2, K3, K4, K5, K6, K7, !(decide_False (P := j = i)) by done.
    destruct (cr_generator r), (truthy_list (bad_words_token_ids sp)); by rewrite ?lookup_insert_ne.
  - intros j Hj. samp_simpl. destruct (cr_generator r), (truthy_list (bad_words_token_ids sp)); by rewrite ?lookup_insert_ne.
Qed.
End samp.
