(* ===== verification/InputBatchFacts.v ===== *)
(** * Invariant of the persistent batch
    The slots, the index of request ids, the sets by request id and the record of the
    step agree with the requests the batch holds, and every operation keeps the
    data of the requests it does not concern. *)

From Stdlib Require Import QArith Sorted.
From S2P Require Import Prelude OrderedDict BlockTable BlockTableFacts BatchUpdate BatchUpdateFacts LogitsFacts MinPFacts InputBatch InputBatchRows.

#[local] Open Scope Z_scope.

(** ** The list of removed indices *)

Definition desc : list nat → Prop := StronglySorted ge.

Lemma insert_desc_perm x l : insert_desc x l ≡ₚ x :: l.
Proof. induction l as [|y l IH]; cbn; [done|]. destruct (y <=? x)%nat; [done|]. rewrite IH. apply Permutation_swap. Qed.

Lemma insert_desc_sorted x l : desc l → desc (insert_desc x l).
Proof.
  induction 1 as [|y l Hl IH Hy]; cbn; [by repeat constructor|]. destruct (y <=? x)%nat eqn:E.
  - apply Nat.leb_le in E. constructor; [by constructor|]. constructor; [lia|]. eapply List.Forall_impl; [|exact Hy]. cbn. intros. lia.
  - apply Nat.leb_gt in E. constructor; [done|]. rewrite List.Forall_forall in *. intros z Hz.
    apply list_elem_of_In in Hz. rewrite insert_desc_perm, elem_of_cons in Hz. destruct Hz as [->|Hz]; [lia|]. apply Hy. by apply list_elem_of_In.
Qed.

Lemma sort_desc_perm l : sort_desc l ≡ₚ l.
Proof. induction l as [|x l IH]; [done|]. cbn. rewrite insert_desc_perm. by constructor. Qed.

Lemma sort_desc_sorted l : desc (sort_desc l).
Proof. induction l as [|x l IH]; [constructor|]. by apply insert_desc_sorted. Qed.

(** A list marked as sorted is sorted. *)
Definition builder_ok (u : BatchUpdateBuilder) : Prop := _is_removed_sorted u = true → desc (_removed u).

Lemma ensure_sorted_ok u : builder_ok u → let u' := _ensure_removed_sorted u in
  _removed u' ≡ₚ _removed u ∧ desc (_removed u') ∧ _is_removed_sorted u' = true ∧ added u' = added u ∧ moved u' = moved u.
Proof.
  unfold builder_ok, _ensure_removed_sorted. destruct (_is_removed_sorted u) eqn:E; cbn; intros H; [by rewrite E; auto|].
  split_and!; [apply sort_desc_perm|apply sort_desc_sorted|done..].
Qed.

Lemma ensure_idem u : _is_removed_sorted u = true → _ensure_removed_sorted u = u.
Proof. unfold _ensure_removed_sorted. by intros ->. Qed.

Lemma desc_snoc l x : desc (l ++ [x]) → desc l ∧ Forall (λ y, x ≤ y)%nat l.
Proof.
  induction l as [|y l IH]; cbn; intros H; [by split; constructor|]. inversion H as [|? ? Hs Hy]; subst. destruct (IH Hs) as [H1 H2].
  rewrite List.Forall_app in Hy. destruct Hy as [Hy Hx]. split; [by constructor|]. constructor; [|done]. by inversion Hx.
Qed.

(** Popping takes the least index off. *)
Lemma pop_removed_ok u : builder_ok u →
  match pop_removed u with
  | (None, u') => _removed u = [] ∧ u' = u
  | (Some e, u') => _removed u ≡ₚ e :: _removed u' ∧ Forall (λ y, e ≤ y)%nat (_removed u') ∧ desc (_removed u') ∧ _is_removed_sorted u' = true ∧
      added u' = added u ∧ moved u' = moved u
  end.
Proof.
  intros H. unfold pop_removed, has_removed. destruct (bool_decide_reflect (_removed u = [])) as [E|E]; cbn [negb]; [done|].
  destruct (ensure_sorted_ok u H) as (Hp & Hd & Hf & Ha & Hm). set (u1 := _ensure_removed_sorted u) in *.
  destruct (_removed u1) as [|x l _] eqn:El using rev_ind; [by apply Permutation_nil_l in Hp|].
  rewrite last_snoc, length_app. cbn [length]. replace (length l + 1 - 1)%nat with (length l) by lia. rewrite take_app_length.
  destruct (desc_snoc l x Hd) as [H1 H2]. cbn [set_removed _removed _is_removed_sorted added moved].
  split_and!; [|done..]. rewrite <-Hp. by rewrite (comm (++)).
Qed.

Lemma peek_pop u : builder_ok u → (peek_removed u).1 = (pop_removed u).1 ∧ builder_ok (peek_removed u).2 ∧
  _removed (peek_removed u).2 ≡ₚ _removed u ∧ added (peek_removed u).2 = added u ∧ moved (peek_removed u).2 = moved u ∧
  pop_removed (peek_removed u).2 = pop_removed u.
Proof.
  intros H. unfold peek_removed, pop_removed, has_removed. destruct (bool_decide_reflect (_removed u = [])) as [E|E]; cbn [negb fst snd].
  - split_and!; try done. by rewrite bool_decide_true.
  - destruct (ensure_sorted_ok u H) as (Hp & Hd & Hf & Ha & Hm). split_and!; [done|by intros _|done..|].
    rewrite bool_decide_false; [|intros E'; rewrite E' in Hp; by apply Permutation_nil_l in Hp]. cbn [negb].
    by rewrite (ensure_idem _ Hf).
Qed.

(** ** How many slots are taken *)

Lemma omap_none (l : list (option string)) : Forall (λ x, x = None) l → omap id l = [].
Proof. induction 1 as [|x l -> _ IH]; [done|]. cbn. done. Qed.

Lemma omap_length_le (l : list (option string)) : (length (omap id l) ≤ length l)%nat.
Proof. induction l as [|[x|] l IH]; cbn; [done|lia|lia]. Qed.

Lemma omap_hole (l : list (option string)) e : l !! e = Some None → (length (omap id l) < length l)%nat.
Proof.
  revert e. induction l as [|x l IH]; intros [|e] H; try done.
  - injection H as ->. cbn. pose proof (omap_length_le l). lia.
  - cbn in H. specialize (IH e H). destruct x; cbn; lia.
Qed.

Lemma omap_full (l : list (option string)) : Forall (λ x, x ≠ None) l → length (omap id l) = length l.
Proof. induction 1 as [|[x|] l Hx _ IH]; [done| |done]. cbn. by rewrite IH. Qed.

(** The index holds as many ids as there are slots taken. *)
Lemma index_size (m : gmap string nat) (ids : list (option string)) :
  (∀ id i, m !! id = Some i ↔ ids !! i = Some (Some id)) → size m = length (omap id ids).
Proof.
  intros H. assert (Hnd : NoDup (omap (@id (option string)) ids)).
  { revert m H. induction ids as [|x ids IH] using rev_ind; intros m H; [constructor|].
    rewrite omap_app. destruct x as [x|]; cbn.
    - apply NoDup_app. split_and!.
      + apply (IH (delete x m)). intros id i. rewrite lookup_delete_Some, H. split.
        * intros [Hne Hi]. apply lookup_snoc_Some in Hi as [[_ Hi]|[_ [= ->]]]; done.
        * intros Hi. split; [|by apply lookup_app_l_Some]. intros ->.
          assert (m !! id = Some i) as E1 by (apply H; by apply lookup_app_l_Some).
          assert (m !! id = Some (length ids)) as E2 by (apply H, lookup_snoc_Some; by right).
          rewrite E1 in E2. injection E2 as ->. apply lookup_lt_Some in Hi. lia.
      + intros y Hy Hy'. apply list_elem_of_singleton in Hy' as ->. apply list_elem_of_omap in Hy as (o & Ho & Eo). change (id o) with o in Eo. subst o.
        apply list_elem_of_lookup in Ho as [i Hi].
        assert (m !! x = Some i) as E1 by (apply H; by apply lookup_app_l_Some).
        assert (m !! x = Some (length ids)) as E2 by (apply H, lookup_snoc_Some; by right).
        rewrite E1 in E2. injection E2 as ->. apply lookup_lt_Some in Hi. lia.
      + apply NoDup_singleton.
    - rewrite app_nil_r. apply (IH m). intros id i. rewrite H, lookup_snoc_Some. split; [intros [[_ ?]|[_ ?]]; done|].
      intros Hi. left. split; [by eapply lookup_lt_Some|done]. }
  rewrite <-(size_list_to_set (C := gset string) (omap (@id (option string)) ids)) by done. rewrite <-(size_dom (D := gset string) m). f_equal.
  apply leibniz_equiv. intros x. rewrite elem_of_dom, elem_of_list_to_set, list_elem_of_omap. split.
  - intros [i Hi%H]. exists (Some x). split; [by eapply list_elem_of_lookup_2|done].
  - intros (o & Ho & Eo). change (id o) with o in Eo. subst o. apply list_elem_of_lookup in Ho as [i Hi]. exists i. by apply H.
Qed.

(** ** Sets and dictionaries by request id *)

Section by_id.
Implicit Types (R : gmap string CachedRequestState).

(** A set holds the ids of the requests whose parameters satisfy [P]. *)
Definition set_is (P : SamplingParams → bool) R (X : gset string) : Prop :=
  ∀ id, id ∈ X ↔ ∃ r sp, R !! id = Some r ∧ cr_sampling_params r = Some sp ∧ P sp = true.

Definition dict_is {A} (f : SamplingParams → option A) R (m : gmap string A) : Prop := ∀ id, m !! id = (R !! id ≫= cr_sampling_params) ≫= f.

Lemma set_is_add P R X id r sp : set_is P R X → R !! id = None → cr_sampling_params r = Some sp → set_is P (<[id := r]> R) (add_if (P sp) id X).
Proof.
  intros HX Hid Hsp x. assert (Hx : x ∈ add_if (P sp) id X ↔ x ∈ X ∨ x = id ∧ P sp = true) by (unfold add_if; destruct (P sp); set_solver).
  rewrite Hx, (HX x). destruct (decide (x = id)) as [->|Hne].
  - rewrite lookup_insert_eq, Hid. naive_solver.
  - rewrite lookup_insert_ne by done. naive_solver.
Qed.

Lemma set_is_remove P R X id : set_is P R X → set_is P (delete id R) (X ∖ {[id]}).
Proof.
  intros HX x. rewrite elem_of_difference, elem_of_singleton, (HX x). setoid_rewrite lookup_delete_Some. naive_solver.
Qed.

Lemma dict_is_add {A} (f : SamplingParams → option A) R m id r sp : dict_is f R m → R !! id = None → cr_sampling_params r = Some sp →
  dict_is f (<[id := r]> R) (match f sp with Some a => <[id := a]> m | None => m end).
Proof.
  intros Hm Hid Hsp x. destruct (decide (x = id)) as [->|Hne].
  - rewrite lookup_insert_eq. cbn. rewrite Hsp. cbn. specialize (Hm id). rewrite Hid in Hm. cbn in Hm.
    destruct (f sp); [by rewrite lookup_insert_eq|done].
  - rewrite lookup_insert_ne by done. rewrite <-Hm. destruct (f sp); [by rewrite lookup_insert_ne|done].
Qed.

Lemma dict_is_remove {A} (f : SamplingParams → option A) R m id : dict_is f R m → dict_is f (delete id R) (delete id m).
Proof.
  intros Hm x. destruct (decide (x = id)) as [->|Hne]; [by rewrite !lookup_delete_eq|]. by rewrite !lookup_delete_ne.
Qed.

Definition is_greedy (sp : SamplingParams) : bool := bool_decide (sampling_type sp = GREEDY).

Definition logprobs_of (c : batch_conf) (sp : SamplingParams) : option Z := (λ n, if n =? -1 then vocab_size c else n) <$> logprobs sp.

Record sets_ok (c : batch_conf) R (s : request_sets) : Prop := mkSetsOk {
  so_greedy : set_is is_greedy R (greedy_reqs s);
  so_random : set_is (λ sp, negb (is_greedy sp)) R (random_reqs s);
  so_top_p : set_is (λ sp, negb (Qle_bool 1 (top_p sp))) R (top_p_reqs s);
  so_top_k : set_is (λ sp, (0 <? top_k sp) && (top_k sp <? vocab_size c)) R (top_k_reqs s);
  so_fp : set_is (λ sp, q_true (frequency_penalty sp)) R (frequency_penalties_reqs s);
  so_pp : set_is (λ sp, q_true (presence_penalty sp)) R (presence_penalties_reqs s);
  so_rp : set_is (λ sp, negb (Qeq_bool (repetition_penalty sp) 1)) R (repetition_penalties_reqs s);
  so_allowed : set_is (λ sp, bool_decide (truthy_list (allowed_token_ids sp) ≠ None)) R (has_allowed_token_ids s);
  so_logprobs : dict_is (logprobs_of c) R (num_logprobs s);
  so_logprob_ids : dict_is logprob_token_ids R (logprob_ids_by_req s);
}.

Lemma sets_add_ok c R s id r sp : sets_ok c R s → R !! id = None → cr_sampling_params r = Some sp → sets_ok c (<[id := r]> R) (sets_add c s id sp).
Proof.
  intros [H1 H2 H3 H4 H5 H6 H7 H8 H9 H10] Hid Hsp. pose proof (λ P X H, set_is_add P R X id r sp H Hid Hsp) as Ha.
  split; [exact (Ha _ _ H1)|exact (Ha _ _ H2)|exact (Ha _ _ H3)|exact (Ha _ _ H4)|exact (Ha _ _ H5)|exact (Ha _ _ H6)|exact (Ha _ _ H7)|exact (Ha _ _ H8)| |].
  - pose proof (dict_is_add (logprobs_of c) R _ id r sp H9 Hid Hsp) as Hd.
    assert (El : logprobs_of c sp = (λ n, if n =? -1 then vocab_size c else n) <$> logprobs sp) by done.
    rewrite El in Hd. cbn. by destruct (logprobs sp).
  - exact (dict_is_add logprob_token_ids R _ id r sp H10 Hid Hsp).
Qed.

Lemma sets_remove_ok c R s id : sets_ok c R s → sets_ok c (delete id R) (sets_remove s id).
Proof.
  intros [H1 H2 H3 H4 H5 H6 H7 H8 H9 H10]. split; cbn; try (by apply set_is_remove); by apply dict_is_remove.
Qed.

(** *** Adapters *)

Definition lora_of (r : CachedRequestState) : option Z := lora_int_id <$> cr_lora_request r.
Definition lora_id_of (r : CachedRequestState) : Z := match cr_lora_request r with Some l => lora_int_id l | None => 0 end.

(** Every adapter in use is known, with the requests that use it. *)
Record loras_ok R (d : lora_data) : Prop := mkLorasOk {
  lo_ids : ∀ lid ids, lora_id_to_request_ids d !! lid = Some ids → ids ≠ ∅ ∧ ∀ id, id ∈ ids ↔ ∃ r, R !! id = Some r ∧ lora_of r = Some lid;
  lo_used : ∀ id r lid, R !! id = Some r → lora_of r = Some lid → is_Some (lora_id_to_request_ids d !! lid);
  lo_known : ∀ lid, is_Some (lora_id_to_request_ids d !! lid) ↔ is_Some (lora_id_to_lora_request d !! lid);
}.

Lemma lora_add_ok R d id r : loras_ok R d → R !! id = None → loras_ok (<[id := r]> R) (lora_add d id r).
Proof.
  intros [H1 H2 H3] Hid. unfold lora_add. destruct (cr_lora_request r) as [l|] eqn:El.
  - assert (Hl : lora_of r = Some (lora_int_id l)) by (unfold lora_of; by rewrite El). split; cbn.
    + intros lid ids. rewrite lookup_insert_Some. intros [[<- <-]|[Hne Hi]].
      * split; [set_solver|]. intros x. rewrite elem_of_union, elem_of_singleton. destruct (decide (x = id)) as [->|Hx].
        -- rewrite lookup_insert_eq. naive_solver.
        -- rewrite lookup_insert_ne by done. split.
           ++ intros [?|Hin]; [done|]. destruct (lora_id_to_request_ids d !! lora_int_id l) as [s|] eqn:E; [|set_solver]. by apply (H1 _ _ E).
           ++ intros (r' & Hr' & Hl'). right. destruct (H2 x r' _ Hr' Hl') as [s E]. rewrite E. apply (H1 _ _ E). by exists r'.
      * destruct (H1 lid ids Hi) as [Hn Hids]. split; [done|]. intros x. rewrite Hids. destruct (decide (x = id)) as [->|Hx].
        -- rewrite lookup_insert_eq, Hid. naive_solver.
        -- by rewrite lookup_insert_ne.
    + intros x r' lid Hr' Hl'. destruct (decide (lid = lora_int_id l)) as [->|Hne]; [rewrite lookup_insert_eq; by eexists|].
      rewrite lookup_insert_ne by done. apply lookup_insert_Some in Hr' as [[<- <-]|[_ Hr']]; [naive_solver|]. by eapply H2.
    + intros lid. destruct (decide (lid = lora_int_id l)) as [->|Hne]; [rewrite !lookup_insert_eq; split; by eexists|].
      by rewrite !lookup_insert_ne.
  - assert (Hl : lora_of r = None) by (unfold lora_of; by rewrite El). split; [|intros x r' lid Hr' Hl'|done].
    + intros lid ids Hi. destruct (H1 lid ids Hi) as [Hn Hids]. split; [done|]. intros x. rewrite Hids.
      destruct (decide (x = id)) as [->|Hx]; [rewrite lookup_insert_eq, Hid; naive_solver|by rewrite lookup_insert_ne].
    + apply lookup_insert_Some in Hr' as [[<- <-]|[_ Hr']]; [naive_solver|]. by eapply H2.
Qed.

Lemma lora_remove_ok R d id r : loras_ok R d → R !! id = Some r → (∀ l, cr_lora_request r = Some l → lora_int_id l ≠ 0) →
  ∃ d', lora_remove d id (lora_id_of r) = Ok d' ∧ loras_ok (delete id R) d'.
Proof.
  intros [H1 H2 H3] Hid Hnz. unfold lora_remove, lora_id_of. destruct (cr_lora_request r) as [l|] eqn:El.
  - rewrite (proj2 (Z.eqb_neq _ _)) by by apply Hnz. assert (Hl : lora_of r = Some (lora_int_id l)) by (unfold lora_of; by rewrite El).
    set (lid := lora_int_id l) in *. destruct (H2 id r lid Hid Hl) as [ids E]. rewrite E. destruct (H1 lid ids E) as [_ Hids].
    assert (Hrest : ∀ x, x ∈ ids ∖ {[id]} ↔ ∃ r', delete id R !! x = Some r' ∧ lora_of r' = Some lid).
    { intros x. rewrite elem_of_difference, elem_of_singleton, Hids. setoid_rewrite lookup_delete_Some. naive_solver. }
    assert (Hother : ∀ l' ids', l' ≠ lid → lora_id_to_request_ids d !! l' = Some ids' →
      ids' ≠ ∅ ∧ ∀ x, x ∈ ids' ↔ ∃ r', delete id R !! x = Some r' ∧ lora_of r' = Some l').
    { intros l' ids' Hne E'. destruct (H1 l' ids' E') as [Hn Hx]. split; [done|]. intros x. rewrite Hx. setoid_rewrite lookup_delete_Some. naive_solver. }
    case_decide as Hemp.
    + destruct (proj1 (H3 lid) (ltac:(by eexists))) as [lr Elr]. rewrite Elr. eexists. split; [done|]. split; cbn.
      * intros l' ids' [Hne E']%lookup_delete_Some. by apply Hother.
      * intros x r' l' Hr' Hl'. destruct (decide (l' = lid)) as [->|Hne]; [set_solver|]. rewrite lookup_delete_ne by done.
        apply lookup_delete_Some in Hr' as [_ Hr']. by eapply H2.
      * intros l'. destruct (decide (l' = lid)) as [->|Hne]; [by rewrite !lookup_delete_eq|]. by rewrite !lookup_delete_ne.
    + eexists. split; [done|]. split; cbn.
      * intros l' ids'. rewrite lookup_insert_Some. intros [[<- <-]|[Hne E']]; [done|]. by apply Hother.
      * intros x r' l' Hr' Hl'. destruct (decide (l' = lid)) as [->|Hne]; [rewrite lookup_insert_eq; by eexists|].
        rewrite lookup_insert_ne by done. apply lookup_delete_Some in Hr' as [_ Hr']. by eapply H2.
      * intros l'. rewrite <-H3. destruct (decide (l' = lid)) as [->|Hne]; [rewrite lookup_insert_eq, E; split; by eexists|]. by rewrite lookup_insert_ne.
  - cbn. exists d. split; [done|]. assert (Hl : lora_of r = None) by (unfold lora_of; by rewrite El). split; [|intros x r' lid Hr' Hl'|done].
    + intros lid ids Hi. destruct (H1 lid ids Hi) as [Hn Hids]. split; [done|]. intros x. rewrite Hids. setoid_rewrite lookup_delete_Some. naive_solver.
    + apply lookup_delete_Some in Hr' as [_ Hr']. by eapply H2.
Qed.
End by_id.
