(* ===== verification/InputBatchOps.v ===== *)
(** * Operations of the persistent batch
    Removing, adding, condensing and swapping preserve the invariant, carry the data
    of the other requests along, and record in the builder exactly the change of
    the slots. *)

From Stdlib Require Import QArith Sorted.
From S2P Require Import Prelude OrderedDict BlockTable BlockTableFacts BatchUpdate BatchUpdateFacts LogitsFacts MinPFacts InputBatch InputBatchRows InputBatchFacts.

#[local] Open Scope Z_scope.

(** Fields of an updated batch. *)
Ltac batch_simpl := unfold set_by_id, set_samp, set_row_data, set_slots, set_builder;
  cbn [conf rows samp req_id_to_index _req_ids req_output_token_ids sets loras pool dev prev_req_id_to_index batch_update_builder logitsprocs
    sampling_metadata].

(** ** The invariant *)

Section ops.
(** Rounding of floating-point numbers, number of rows, and length of the rows of tokens. *)
Context (f32 : Q → Q) (N W : nat).
Implicit Types (b : InputBatch) (R : gmap string CachedRequestState) (s : slots slot).

(** The batch of a model that generates holds exactly the requests [R]. *)
Record batch_inv b R : Prop := mkBatchInv {
  bi_max : max_num_reqs (conf b) = N;
  bi_vocab : 0 ≤ vocab_size (conf b);
  bi_generates : is_pooling_model (conf b) = false;
  bi_rows : rows_ok N W (rows b);
  bi_samp : samp_ok N (conf b) (samp b);
  bi_index : ∀ id i, req_id_to_index b !! id = Some i ↔ _req_ids b !! i = Some (Some id);
  bi_dom : ∀ id, is_Some (req_id_to_index b !! id) ↔ is_Some (R !! id);
  bi_req : ∀ id r, R !! id = Some r → cr_req_id r = id ∧ is_Some (cr_sampling_params r) ∧ (∀ l, cr_lora_request r = Some l → lora_int_id l ≠ 0);
  bi_len : (length (_req_ids b) ≤ N)%nat;
  bi_outs_len : length (req_output_token_ids b) = length (_req_ids b);
  bi_outs : ∀ i id r, _req_ids b !! i = Some (Some id) → R !! id = Some r → req_output_token_ids b !! i = Some (Some (cr_output_token_ids r));
  bi_spec_len : (length (_req_ids b) ≤ length (spec_token_ids (rows b)))%nat;
  bi_vacant : ∀ i, (∀ id, _req_ids b !! i ≠ Some (Some id)) → default [] (spec_token_ids (rows b) !! i) = [] ∧ samp_vacant (samp b) i;
  bi_lora_row : ∀ i id r, _req_ids b !! i = Some (Some id) → R !! id = Some r → request_lora_mapping (rows b) !! i = Some (lora_id_of r);
  bi_sets : sets_ok (conf b) R (sets b);
  bi_loras : loras_ok R (loras b);
  bi_builder : builder_ok (batch_update_builder b);
  bi_added : Forall (λ a, (ad_index a < N)%nat) (added (batch_update_builder b));
}.

(** What a request contributes to its slot. *)
Definition req_slot (r : CachedRequestState) : option slot :=
  (λ sp, (sp, cr_prompt_token_ids r, cr_output_token_ids r)) <$> cr_sampling_params r.

(** The slots of the batch. *)
Definition cur b R : slots slot := λ i, match _req_ids b !! i with Some (Some id) => R !! id ≫= req_slot | _ => None end.

(** The changes recorded so far, as an update. *)
Definition pending (u : BatchUpdateBuilder) : BatchUpdate := mkUpdate 0 (_removed u) (added u) (moved u).

(** Replaying the recorded changes on the slots of the last step gives the slots. *)
Definition tracks b R s : Prop := sl_eq (apply_update (λ a, Some (slot_of a)) s (pending (batch_update_builder b))) (cur b R).

(** While requests are removed and added: nothing moved, and the holes are known. *)
Record adding b : Prop := mkAdding {
  ad_moved : moved (batch_update_builder b) = [];
  ad_nodup : NoDup (_removed (batch_update_builder b));
  ad_holes : ∀ i, i ∈ _removed (batch_update_builder b) ↔ _req_ids b !! i = Some None;
}.

(** The data of a request, wherever it is, is the same in both batches: tokens, counts,
    blocks, adapter, sampling parameters and prompt embeddings.  Its row of the
    allowed-token mask is not included, because swapping does not keep it. *)
Definition kept b b' (id : string) : Prop :=
  ∃ i i', req_id_to_index b !! id = Some i ∧ req_id_to_index b' !! id = Some i' ∧
    row_view (rows b') i' = row_view (rows b) i ∧ samp_view (samp b') i' = samp_view (samp b) i ∧
    ∀ e, req_prompt_embeds (rows b) !! i = Some e → req_prompt_embeds (rows b') !! i' = Some e.

Lemma kept_refl b R id : batch_inv b R → is_Some (R !! id) → kept b b id.
Proof. intros H [i Hi]%(bi_dom _ _ H). by exists i, i. Qed.

Lemma kept_trans b1 b2 b3 id : kept b1 b2 id → kept b2 b3 id → kept b1 b3 id.
Proof.
  intros (i & j & Hi & Hj & E1 & E2 & E3) (j' & k & Hj' & Hk & E4 & E5 & E6). rewrite Hj in Hj'. injection Hj' as <-.
  exists i, k. split_and!; [done|done|congruence|congruence|]. intros e He. by apply E6, E3.
Qed.

(** The block tables keep their geometry. *)
Definition same_tables b b' : Prop := mg_shape (block_table (rows b)) (block_table (rows b')).

Lemma taken b R id r : batch_inv b R → R !! id = Some r → ∃ i, req_id_to_index b !! id = Some i ∧ _req_ids b !! i = Some (Some id) ∧ (i < N)%nat ∧
  (i < length (_req_ids b))%nat ∧ (i < length (spec_token_ids (rows b)))%nat.
Proof.
  intros H Hr. destruct (proj2 (bi_dom _ _ H id)) as [i Hi]; [by eexists|]. pose proof (proj1 (bi_index _ _ H id i) Hi) as Hs.
  pose proof (lookup_lt_Some _ _ _ Hs). pose proof (bi_len _ _ H). pose proof (bi_spec_len _ _ H). exists i. split_and!; [done|done|lia..].
Qed.

Lemma slot_unique b R i id id' : batch_inv b R → _req_ids b !! i = Some (Some id) → _req_ids b !! i = Some (Some id') → id = id'.
Proof. congruence. Qed.

(** What is recorded, as long as nothing moved. *)
Lemma pending_adding u s j : moved u = [] →
  apply_update (λ a, Some (slot_of a)) s (pending u) j = if decide (j ∈ _removed u) then None else sl_adds (λ a, Some (slot_of a)) s (added u) j.
Proof. intros Hm. unfold apply_update, pending. cbn [bu_moved bu_removed bu_added]. rewrite Hm. unfold sl_moves. cbn [foldl]. apply sl_removes_spec. Qed.

(** ** Removing *)

Lemma remove_absent b R id : batch_inv b R → R !! id = None → remove_request b id = Ok (None, b).
Proof.
  intros H Hid. unfold remove_request. destruct (req_id_to_index b !! id) as [i|] eqn:E; [|done].
  destruct (proj1 (bi_dom _ _ H id)) as [r Hr]; [by eexists|]. congruence.
Qed.

Lemma remove_ok b R id r s : batch_inv b R → adding b → tracks b R s → _is_removed_sorted (batch_update_builder b) = false → R !! id = Some r →
  ∃ i b', remove_request b id = Ok (Some i, b') ∧ batch_inv b' (delete id R) ∧ adding b' ∧ tracks b' (delete id R) s ∧
    _is_removed_sorted (batch_update_builder b') = false ∧ same_tables b b' ∧
    (∀ id', id' ≠ id → is_Some (R !! id') → kept b b' id').
Proof.
  intros H [Hmv Hnd Hh] Ht Hflag Hr. destruct (taken b R id r H Hr) as (i & Ei & Es & HiN & Hil & Hisp). exists i.
  unfold remove_request. rewrite Ei. unfold removed_append. rewrite Hflag. cbn [mbind result_bind].
  destruct (np_set_ok (_req_ids b) i None Hil) as (ids & -> & Lids & Kids). cbn [mbind result_bind].
  destruct (np_set_ok (req_output_token_ids b) i None) as (outs & -> & Louts & Kouts); [rewrite (bi_outs_len _ _ H); lia|]. cbn [mbind result_bind].
  assert (Elm : np_get (request_lora_mapping (rows b)) i = Ok (lora_id_of r)) by (apply np_get_ok; by apply (bi_lora_row _ _ H i id)).
  rewrite Elm. cbn [mbind result_bind].
  destruct (lora_remove_ok R (loras b) id r (bi_loras _ _ H) Hr) as (lo & -> & Hlo); [by apply (bi_req _ _ H id r Hr)|]. cbn [mbind result_bind].
  destruct (rows_remove_ok N W (rows b) i (bi_rows _ _ H) HiN Hisp) as (rw & -> & Hrw & Hsh & Vrw & Srw & Lsrw & LMrw & Erw). cbn [mbind result_bind].
  cbn [set_row_data set_slots set_builder conf]. rewrite (bi_generates _ _ H).
  destruct (samp_remove_ok N (conf b) (samp b) i (bi_samp _ _ H) HiN) as (sa & Esa & Hsa & Vsa & Vaci & Vac). 
  match goal with |- context [samp_remove ?x i] => change x with (samp b) end. rewrite Esa. cbn [mbind result_bind].
  batch_simpl. eexists. split; [done|].
  assert (Hids : ∀ j id', ids !! j = Some (Some id') ↔ _req_ids b !! j = Some (Some id') ∧ id' ≠ id).
  { intros j id'. rewrite Kids. case_decide as Hj; [subst; split; [done|]; intros [E ?]; congruence|]. split; [|tauto]. intros E. split; [done|].
    intros ->. apply (bi_index _ _ H) in E. congruence. }
  split_and!.
  - split; batch_simpl.
    + apply (bi_max _ _ H).
    + apply (bi_vocab _ _ H).
    + apply (bi_generates _ _ H).
    + done.
    + done.
    + intros id' j. rewrite lookup_delete_Some, (bi_index _ _ H), Hids. naive_solver.
    + intros id'. destruct (decide (id' = id)) as [->|Hne].
      * rewrite !lookup_delete_eq. split; by intros [? ?].
      * rewrite !lookup_delete_ne by done. apply (bi_dom _ _ H).
    + intros id' r' [_ Hr']%lookup_delete_Some. by apply (bi_req _ _ H).
    + rewrite Lids. apply (bi_len _ _ H).
    + rewrite Lids, Louts. apply (bi_outs_len _ _ H).
    + intros j id' r' [Hj Hne]%Hids [_ Hr']%lookup_delete_Some. rewrite Kouts, decide_False by congruence. by apply (bi_outs _ _ H j id').
    + rewrite Lids, Lsrw. apply (bi_spec_len _ _ H).
    + intros j Hj. rewrite Srw. case_decide as Hji; [subst; done|]. destruct (bi_vacant _ _ H j) as [? ?]; [|split; [done|by apply Vac]].
      intros id' E. apply (Hj id'). rewrite Kids. by rewrite decide_False.
    + intros j id' r' [Hj Hne]%Hids [_ Hr']%lookup_delete_Some. rewrite LMrw by congruence. by apply (bi_lora_row _ _ H j id').
    + by apply sets_remove_ok, (bi_sets _ _ H).
    + done.
    + intros E. cbn in E. congruence.
    + apply (bi_added _ _ H).
  - split; cbn.
    + done.
    + apply NoDup_app. split_and!; [done| |apply NoDup_singleton]. intros x Hx ->%list_elem_of_singleton. apply Hh in Hx. congruence.
    + intros j. rewrite elem_of_app, list_elem_of_singleton, Kids, Hh. case_decide; naive_solver.
  - intros j. specialize (Ht j). rewrite pending_adding in Ht by done. batch_simpl. rewrite pending_adding by done. cbn [_removed added].
    unfold cur in *. cbn [_req_ids]. destruct (decide (j = i)) as [->|Hji].
    + rewrite decide_True by (apply elem_of_app; right; by left). by rewrite Kids, decide_True.
    + rewrite Kids, (decide_False (P := j = i)) by done.
      assert (Hcur : match _req_ids b !! j with Some (Some id') => delete id R !! id' ≫= req_slot | _ => None end =
        match _req_ids b !! j with Some (Some id') => R !! id' ≫= req_slot | _ => None end).
      { destruct (_req_ids b !! j) as [[id'|]|] eqn:E; [|done..]. rewrite lookup_delete_ne; [done|]. intros <-. apply (bi_index _ _ H) in E. congruence. }
      rewrite Hcur, <-Ht. destruct (decide (j ∈ _removed (batch_update_builder b))) as [Hin|Hin].
      * by rewrite decide_True by (apply elem_of_app; by left).
      * rewrite decide_False; [done|]. by intros [?|?%list_elem_of_singleton]%elem_of_app.
  - done.
  - done.
  - intros id' Hne [r' Hr']. destruct (taken b R id' r' H Hr') as (j & Ej & Esj & _).
    assert (Hji : j ≠ i) by congruence. exists j, j. batch_simpl. rewrite lookup_delete_ne by done. split_and!; [done|done|by apply Vrw|by apply Vsa|].
    intros e He. by rewrite Erw.
Qed.

(** ** Adding *)

Lemma num_reqs_size b R : batch_inv b R → num_reqs b = size R.
Proof.
  intros H. unfold num_reqs. rewrite <-!(size_dom (D := gset string)). f_equal. apply leibniz_equiv. intros id. rewrite !elem_of_dom. apply (bi_dom _ _ H).
Qed.

Lemma num_reqs_taken b R : batch_inv b R → num_reqs b = length (omap id (_req_ids b)).
Proof. intros H. apply index_size. apply (bi_index _ _ H). Qed.

(** The index a new request gets: the least hole, or the end. *)
Lemma register_ok b R r sp : batch_inv b R → adding b → cr_sampling_params r = Some sp → (size R < N)%nat →
  ∃ i u, _register_add_request b r = Ok (i, set_builder b u) ∧ (i < N)%nat ∧
    (i < length (_req_ids b) ∧ _req_ids b !! i = Some None ∨ i = length (_req_ids b))%nat ∧
    (∀ j, j ∈ _removed (batch_update_builder b) ↔ j ∈ _removed u ∨ j = i ∧ i ≠ length (_req_ids b)) ∧ i ∉ _removed u ∧ NoDup (_removed u) ∧ builder_ok u ∧ moved u = [] ∧
    added u = added (batch_update_builder b) ++ [mkAdded i sp (cr_prompt_token_ids r) (cr_output_token_ids r)].
Proof.
  intros H [Hm Hnd Hh] Hsp Hroom. unfold _register_add_request. pose proof (pop_removed_ok _ (bi_builder _ _ H)) as Hp.
  destruct (pop_removed (batch_update_builder b)) as [[e|] u].
  - destruct Hp as (Hp & _ & Hd & Hf & Ha & Hm'). assert (He : _req_ids b !! e = Some None) by (apply Hh; rewrite Hp; by left).
    pose proof (lookup_lt_Some _ _ _ He) as Hlt. pose proof (bi_len _ _ H). rewrite (bi_max _ _ H), (proj2 (Nat.ltb_lt _ _)) by lia. cbn [py_assert mbind result_bind].
    rewrite Hsp. rewrite Hp, NoDup_cons in Hnd. do 2 eexists. split; [done|]. cbn. split_and!; [lia|by left| |naive_solver|naive_solver|by intros _|congruence|by rewrite Ha].
    intros j. rewrite Hp, elem_of_cons. split; [|naive_solver]. intros [->|?]; [right; split; [done|lia]|by left].
  - destruct Hp as [He ->]. assert (Hfull : length (_req_ids b) = num_reqs b).
    { rewrite (num_reqs_taken _ _ H). symmetry. apply omap_full. apply Forall_forall. intros x Hx ->. apply list_elem_of_lookup in Hx as [j Hj].
      apply Hh in Hj. rewrite He in Hj. by apply elem_of_nil in Hj. }
    rewrite (bi_max _ _ H). pose proof (num_reqs_size _ _ H) as Hsz. rewrite (proj2 (Nat.ltb_lt _ _)) by lia. cbn [py_assert mbind result_bind]. rewrite Hsp.
    do 2 eexists. split; [done|]. cbn. rewrite He. split_and!; [lia|right; lia| |by apply not_elem_of_nil|by constructor| |congruence|done].
    + intros j. split; [by intros ?%elem_of_nil|]. intros [?%elem_of_nil|[-> ?]]; [done|lia].
    + intros Ef. cbn in Ef. cbn. rewrite He. constructor.
Qed.

(** The slot lists with the new request in them. *)
Lemma slot_add_ok b R r i : batch_inv b R → (i < length (_req_ids b) ∧ _req_ids b !! i = Some None ∨ i = length (_req_ids b))%nat → (i < N)%nat →
  ∃ ids outs spec, slot_add b i r = Ok (ids, outs, spec) ∧ (length ids ≤ N)%nat ∧ length outs = length ids ∧ (length ids ≤ length spec)%nat ∧
    (∀ j, ids !! j = if decide (j = i) then Some (Some (cr_req_id r)) else _req_ids b !! j) ∧
    (∀ j, outs !! j = if decide (j = i) then Some (Some (cr_output_token_ids r)) else req_output_token_ids b !! j) ∧
    spec !! i = Some [] ∧ (∀ j, (j < length (_req_ids b))%nat → j ≠ i → spec !! j = spec_token_ids (rows b) !! j) ∧
    (∀ j, j ≠ i → default [] (spec_token_ids (rows b) !! j) = [] → default [] (spec !! j) = []).
Proof.
  intros H Hi HiN. pose proof (bi_len _ _ H) as HlN. pose proof (bi_outs_len _ _ H) as Hlo. pose proof (bi_spec_len _ _ H) as Hls. unfold slot_add.
  destruct Hi as [[Hlt Hhole]| ->].
  - rewrite (proj2 (Nat.eqb_neq _ _)) by lia. destruct (np_set_ok (_req_ids b) i (Some (cr_req_id r)) Hlt) as (ids & -> & L1 & K1). cbn [mbind result_bind].
    destruct (np_set_ok (req_output_token_ids b) i (Some (cr_output_token_ids r))) as (outs & -> & L2 & K2); [lia|]. cbn [mbind result_bind].
    destruct (np_set_ok (spec_token_ids (rows b)) i []) as (spec & -> & L3 & K3); [lia|]. cbn [mbind result_bind].
    exists ids, outs, spec. split_and!; [done|lia|lia|lia|done|done|by rewrite K3, decide_True| |].
    + intros j _ Hj. by rewrite K3, decide_False.
    + intros j Hj. by rewrite K3, decide_False.
  - rewrite Nat.eqb_refl. do 3 eexists. split; [done|]. rewrite !length_app. cbn [length]. split_and!; [lia|lia|lia| | | | |].
    + intros j. case_decide as Hj; [subst; by rewrite lookup_app_r, Nat.sub_diag by lia|]. destruct (decide (j < length (_req_ids b))%nat).
      * by rewrite lookup_app_l.
      * rewrite !lookup_ge_None_2; [done|lia|rewrite length_app; cbn; lia].
    + intros j. case_decide as Hj; [subst; rewrite <-Hlo; by rewrite lookup_app_r, Nat.sub_diag by lia|]. destruct (decide (j < length (_req_ids b))%nat).
      * by rewrite lookup_app_l by lia.
      * rewrite !lookup_ge_None_2; [done|lia|rewrite length_app; cbn; lia].
    + destruct (decide (length (_req_ids b) = length (spec_token_ids (rows b)))) as [->|Hne]; [by rewrite lookup_app_r, Nat.sub_diag by lia|].
      rewrite lookup_app_l by lia. destruct (bi_vacant _ _ H (length (_req_ids b))) as [Hd _]; [intros id E; apply lookup_lt_Some in E; lia|].
      destruct (lookup_lt_is_Some_2 (spec_token_ids (rows b)) (length (_req_ids b))) as [x Hx]; [lia|]. rewrite Hx in *. cbn in Hd. by subst.
    + intros j Hj _. by rewrite lookup_app_l by lia.
    + intros j Hj Hd. destruct (decide (j < length (spec_token_ids (rows b)))%nat); [by rewrite lookup_app_l by lia|].
      destruct (decide (j = length (spec_token_ids (rows b)))) as [->|]; [by rewrite lookup_app_r, Nat.sub_diag by lia|].
      rewrite lookup_ge_None_2; [done|rewrite length_app; cbn; lia].
Qed.

Lemma add_ok h b R r sp s : batch_inv b R → adding b → tracks b R s → R !! cr_req_id r = None → cr_sampling_params r = Some sp →
  request_ok W h (block_table (rows b)) r → allowed_ok (vocab_size (conf b)) sp → (size R < N)%nat →
  ∃ i b', add_request f32 h b r = Ok (i, b') ∧ batch_inv b' (<[cr_req_id r := r]> R) ∧ adding b' ∧ tracks b' (<[cr_req_id r := r]> R) s ∧
    same_tables b b' ∧ conf b' = conf b ∧ (∀ id', is_Some (R !! id') → kept b b' id') ∧ req_id_to_index b' !! cr_req_id r = Some i ∧
    row_fresh h r (rows b') i ∧ samp_view (samp b') i = samp_fresh f32 (conf b) r sp ∧
    (∀ e, cr_prompt_embeds r = Some e → req_prompt_embeds (rows b') !! i = Some e).
Proof.
  intros H Had Ht Hid Hsp Hrq Hal Hroom. destruct (register_ok b R r sp H Had Hsp Hroom) as (i & u & Er & HiN & Hcase & Hrem & Hni & Hnd & Hbu & Hmv & Hadd).
  exists i. unfold add_request. rewrite Er. cbn [mbind result_bind]. clear Er.
  destruct (slot_add_ok b R r i H Hcase HiN) as (ids & outs & spec & Es & Lids & Louts & Lspec & Kids & Kouts & Si & Sj & Sd).
  change (slot_add (set_builder b u) i r) with (slot_add b i r). rewrite Es. cbn [mbind result_bind]. clear Es.
  destruct (rows_add_ok N W h (rows b) spec i r (bi_rows _ _ H) Hrq HiN Si) as (rw & Erw & Hrw & Hsh & Hfresh & Vrw & Srw & LMrw & Eo & Ei).
  change (rows (set_builder b u)) with (rows b). rewrite Erw. cbn [mbind result_bind]. clear Erw.
  assert (Hvi : ∀ id', _req_ids b !! i ≠ Some (Some id')).
  { intros id' E. destruct Hcase as [[_ E']| ->]; [congruence|]. apply lookup_lt_Some in E. lia. }
  destruct (samp_add_ok f32 N (conf b) (samp b) i r sp (bi_samp _ _ H) (bi_max _ _ H) (bi_vocab _ _ H) HiN) as (sa & na & Esa & Ena & Hsa & Fsa & Vsa & Vac);
    [by apply (bi_vacant _ _ H)|done|].
  unfold params_add. rewrite Hsp. change (samp (set_builder b u)) with (samp b). change (conf (set_builder b u)) with (conf b). rewrite Esa. cbn [mbind result_bind].
  rewrite Ena. cbn [mbind result_bind]. batch_simpl. eexists. split; [done|]. clear Esa Ena.
  assert (Hids : ∀ j id', ids !! j = Some (Some id') ↔ j = i ∧ id' = cr_req_id r ∨ j ≠ i ∧ _req_ids b !! j = Some (Some id')).
  { intros j id'. rewrite Kids. case_decide; naive_solver. }
  assert (Hne : ∀ j id', _req_ids b !! j = Some (Some id') → j ≠ i ∧ id' ≠ cr_req_id r ∧ (j < length (_req_ids b))%nat).
  { intros j id' E. split; [intros ->; by apply (Hvi id')|]. split; [|by eapply lookup_lt_Some]. intros ->. apply (bi_index _ _ H) in E.
    destruct (proj1 (bi_dom _ _ H (cr_req_id r))) as [? ?]; [by eexists|]. congruence. }
  split_and!.
  - split; batch_simpl.
    + apply (bi_max _ _ H).
    + apply (bi_vocab _ _ H).
    + apply (bi_generates _ _ H).
    + done.
    + done.
    + intros id' j. rewrite lookup_insert_Some, Hids, (bi_index _ _ H). split.
      * intros [[<- <-]|[? E]]; [by left|]. right. by destruct (Hne j id' E).
      * intros [[-> ->]|[? E]]; [by left|]. right. destruct (Hne j id' E) as (? & ? & ?). done.
    + intros id'. destruct (decide (id' = cr_req_id r)) as [->|Hx]; [rewrite !lookup_insert_eq; split; by eexists|].
      rewrite !lookup_insert_ne by done. apply (bi_dom _ _ H).
    + intros id' r'. rewrite lookup_insert_Some. intros [[<- <-]|[_ Hr']]; [|by apply (bi_req _ _ H)].
      split; [done|]. split; [by eexists|]. apply (rq_lora _ _ _ _ Hrq).
    + done.
    + done.
    + intros j id' r' [[-> ->]|[Hj E]]%Hids Hr'; rewrite Kouts.
      * rewrite lookup_insert_eq in Hr'. injection Hr' as <-. by rewrite decide_True.
      * destruct (Hne j id' E) as (_ & Hx & _). rewrite lookup_insert_ne in Hr' by done. rewrite decide_False by done. by apply (bi_outs _ _ H j id').
    + by rewrite Srw.
    + intros j Hj. rewrite Srw. destruct (decide (j = i)) as [->|Hji]; [destruct (Hj (cr_req_id r)); by rewrite Kids, decide_True|].
      destruct (bi_vacant _ _ H j) as [Hd Hv]; [intros id' E; apply (Hj id'); by rewrite Kids, decide_False|]. split; [by apply Sd|by apply Vac].
    + intros j id' r' [[-> ->]|[Hj E]]%Hids Hr'.
      * rewrite lookup_insert_eq in Hr'. injection Hr' as <-. apply Hfresh.
      * destruct (Hne j id' E) as (_ & Hx & _). rewrite lookup_insert_ne in Hr' by done. rewrite LMrw by done. by apply (bi_lora_row _ _ H j id').
    + by apply sets_add_ok; [apply (bi_sets _ _ H)|..].
    + by apply lora_add_ok; [apply (bi_loras _ _ H)|].
    + done.
    + rewrite Hadd. apply Forall_app. split; [apply (bi_added _ _ H)|]. by constructor.
  - split; batch_simpl; [done|done|]. intros j. rewrite Kids. pose proof (Hrem j) as Hj. rewrite (ad_holes _ Had j) in Hj.
    case_decide as Hji; [subst; split; [done|done]|]. rewrite Hj. split; [by left|]. intros [?|[? _]]; done.
  - intros j. specialize (Ht j). rewrite pending_adding in Ht by apply (ad_moved _ Had). batch_simpl. rewrite pending_adding by done. rewrite Hadd.
    unfold sl_adds. rewrite foldl_app. cbn [foldl ad_index]. unfold cur in *. cbn [_req_ids]. rewrite Kids. destruct (decide (j = i)) as [->|Hji].
    + rewrite decide_False by done. rewrite upd_eq, lookup_insert_eq. cbn. unfold req_slot. by rewrite Hsp.
    + rewrite upd_ne by done. fold (sl_adds (λ a, Some (slot_of a)) s (added (batch_update_builder b))).
      assert (Hcur : match _req_ids b !! j with Some (Some id') => <[cr_req_id r := r]> R !! id' ≫= req_slot | _ => None end =
        match _req_ids b !! j with Some (Some id') => R !! id' ≫= req_slot | _ => None end).
      { destruct (_req_ids b !! j) as [[id'|]|] eqn:E; [|done..]. destruct (Hne j id' E) as (_ & ? & _). by rewrite lookup_insert_ne. }
      rewrite Hcur, <-Ht. destruct (decide (j ∈ _removed u)) as [Hin|Hin].
      * by rewrite decide_True by (apply Hrem; by left).
      * rewrite decide_False; [done|]. intros [?|[? _]]%Hrem; done.
  - done.
  - done.
  - intros id' [r' Hr']. destruct (taken b R id' r' H Hr') as (j & Ej & Esj & _). destruct (Hne j id' Esj) as (Hji & Hx & Hlt). exists j, j. batch_simpl.
    rewrite lookup_insert_ne by done. split_and!; [done|done|apply Vrw; [done|by apply Sj]|by apply Vsa|]. intros e He. by rewrite Eo.
  - batch_simpl. by rewrite lookup_insert_eq.
  - done.
  - done.
  - done.
Qed.
End ops.
