(* ===== verification/InputBatchCondense.v ===== *)
(** * Filling holes and swapping indices
    Condensing moves the last requests of the batch into its holes, and swapping
    exchanges two indices: the batch becomes, and stays, dense. *)

From Stdlib Require Import QArith Sorted.
From S2P Require Import Prelude OrderedDict BlockTable BlockTableFacts BatchUpdate BatchUpdateFacts LogitsFacts MinPFacts InputBatch InputBatchRows InputBatchFacts InputBatchOps.

#[local] Open Scope Z_scope.

Section condense.
Context (N W : nat).
Implicit Types (b : InputBatch) (R : gmap string CachedRequestState) (s : slots slot).

(** Changing the order of the recorded removals. *)
Lemma inv_builder b R u : batch_inv N W b R → builder_ok u → added u = added (batch_update_builder b) → batch_inv N W (set_builder b u) R.
Proof. intros [] Hu Ha. split; batch_simpl; try done. by rewrite Ha. Qed.

Lemma tracks_builder b R s u : _removed u ≡ₚ _removed (batch_update_builder b) → added u = added (batch_update_builder b) →
  moved u = moved (batch_update_builder b) → tracks b R s → tracks (set_builder b u) R s.
Proof.
  intros Hp Ha Hm Ht. unfold tracks in *. change (cur (set_builder b u) R) with (cur b R). etransitivity; [|exact Ht].
  unfold apply_update. batch_simpl. cbn [pending bu_removed bu_added bu_moved]. rewrite Ha, Hm. apply sl_moves_proper; [|done].
  intros i. rewrite !sl_removes_spec. destruct (decide (i ∈ _removed u)) as [Hi|Hi]; rewrite Hp in Hi; [by rewrite decide_True|by rewrite decide_False].
Qed.

(** ** The state of the loop *)

(** Above [last] everything is vacated, up to [last] the holes are the removed indices,
    and the moves so far came from beyond the batch. *)
Record condensing b (last : nat) : Prop := mkCondensing {
  cd_nodup : NoDup (_removed (batch_update_builder b));
  cd_in : ∀ i, i ∈ _removed (batch_update_builder b) → (i < length (_req_ids b))%nat;
  cd_moved : Forall (λ m : MovedRequest, move_ok N (num_reqs b) m ∧ m.1.1 ∉ _removed (batch_update_builder b) ∧ m.1.2 ∉ _removed (batch_update_builder b))
    (moved (batch_update_builder b));
  cd_above : ∀ i, (last < i)%nat → (i < length (_req_ids b))%nat → _req_ids b !! i = Some None;
  cd_below : ∀ i, (i ≤ last)%nat → i ∈ _removed (batch_update_builder b) ↔ _req_ids b !! i = Some None;
  cd_last : (last < length (_req_ids b))%nat;
}.

(** The requests taken are those up to [last]. *)
Lemma taken_upto b R last : batch_inv N W b R → condensing b last → num_reqs b = length (omap id (take (S last) (_req_ids b))).
Proof.
  intros H Hc. rewrite (num_reqs_taken _ _ _ _ H). rewrite <-(take_drop (S last) (_req_ids b)) at 1. rewrite omap_app, length_app.
  rewrite (omap_none (drop (S last) (_req_ids b))); [cbn; lia|]. apply Forall_lookup. intros i x Hx. rewrite lookup_drop in Hx.
  pose proof (lookup_lt_Some _ _ _ Hx). rewrite (cd_above _ _ Hc) in Hx by lia. by injection Hx.
Qed.

Lemma taken_below b R last e : batch_inv N W b R → condensing b last → (e < last)%nat → _req_ids b !! e = Some None → (num_reqs b ≤ last)%nat.
Proof.
  intros H Hc He Ee. rewrite (taken_upto b R last H Hc). pose proof (omap_hole (take (S last) (_req_ids b)) e) as Ho.
  rewrite lookup_take_lt in Ho by lia. specialize (Ho Ee). rewrite length_take in Ho. lia.
Qed.

Lemma no_holes b R last : batch_inv N W b R → condensing b last → (∀ i, (i ≤ last)%nat → i ∉ _removed (batch_update_builder b)) → num_reqs b = S last.
Proof.
  intros H Hc Hn. rewrite (taken_upto b R last H Hc). pose proof (cd_last _ _ Hc). rewrite omap_full; [rewrite length_take; lia|].
  apply Forall_lookup. intros i x Hx ->. pose proof (lookup_lt_Some _ _ _ Hx) as Hl. rewrite length_take in Hl.
  rewrite lookup_take_lt in Hx by lia. apply (Hn i); [lia|]. apply (cd_below _ _ Hc); [lia|done].
Qed.

Lemma scan_last_spec removed l :
  match scan_last removed l with
  | Some last => (last ≤ l)%nat ∧ last ∉ removed ∧ ∀ i, (last < i ≤ l)%nat → i ∈ removed
  | None => ∀ i, (i ≤ l)%nat → i ∈ removed
  end.
Proof.
  induction l as [|l IH]; cbn; case_decide as Hd.
  - intros i Hi. by replace i with 0%nat by lia.
  - split_and!; [lia|done|lia].
  - destruct (scan_last removed l) as [last|].
    + destruct IH as (H1 & H2 & H3). split_and!; [lia|done|]. intros i Hi. destruct (decide (i = S l)) as [->|]; [done|]. apply H3. lia.
    + intros i Hi. destruct (decide (i = S l)) as [->|]; [done|]. apply IH. lia.
  - split_and!; [lia|done|lia].
Qed.

Lemma condensing_lower b last last' : condensing b last → (last' ≤ last)%nat → (∀ i, (last' < i ≤ last)%nat → i ∈ _removed (batch_update_builder b)) →
  condensing b last'.
Proof.
  intros [H1 H2 H3 H4 H5 H6] Hl Hr. split; [done|done|done| | |lia].
  - intros i Hi Hlen. destruct (decide (i ≤ last)%nat) as [Hil|Hil]; [|apply H4; lia]. apply H5; [done|]. apply Hr. lia.
  - intros i Hi. apply H5. lia.
Qed.

(** ** One move *)

Lemma condense_move_ok b R s last e u : batch_inv N W b R → tracks b R s → condensing b last → pop_removed (batch_update_builder b) = (Some e, u) →
  (e < last)%nat → last ∉ _removed (batch_update_builder b) →
  ∃ b', condense_move b last e = Ok b' ∧ batch_inv N W b' R ∧ tracks b' R s ∧ condensing b' (last - 1) ∧
    _removed (batch_update_builder b) ≡ₚ e :: _removed (batch_update_builder b') ∧ num_reqs b' = num_reqs b ∧ same_tables b b' ∧
    (∀ id, is_Some (R !! id) → kept b b' id).
Proof.
  intros H Ht Hc Hpop Hlt Hlast. pose proof (pop_removed_ok _ (bi_builder _ _ _ _ H)) as Hp. rewrite Hpop in Hp. destruct Hp as (Hp & Hmin & Hd & Hf & Ha & Hm).
  assert (Hein : e ∈ _removed (batch_update_builder b)) by (rewrite Hp; by left).
  assert (Hnd : e ∉ _removed u ∧ NoDup (_removed u)) by (apply NoDup_cons; rewrite <-Hp; apply (cd_nodup _ _ Hc)).
  pose proof (proj1 (cd_below _ _ Hc e ltac:(lia)) Hein) as Ee. pose proof (cd_last _ _ Hc) as Hll. pose proof (bi_len _ _ _ _ H) as HlN.
  pose proof (bi_outs_len _ _ _ _ H) as Hlo. pose proof (bi_spec_len _ _ _ _ H) as Hls.
  destruct (lookup_lt_is_Some_2 (_req_ids b) last Hll) as [[id|] El]; [|destruct Hlast; by apply (cd_below _ _ Hc)].
  destruct (proj1 (bi_dom _ _ _ _ H id)) as [r Hr]; [exists last; by apply (bi_index _ _ _ _ H)|].
  pose proof (taken_below b R last e H Hc Hlt Ee) as Hn.
  unfold condense_move. rewrite Hpop. rewrite (proj2 (np_get_ok (_req_ids b) last _) El). cbn [mbind result_bind].
  rewrite (proj2 (np_get_ok _ _ _) (bi_outs _ _ _ _ H last id r El Hr)). cbn [mbind result_bind].
  destruct (np_set_ok (_req_ids b) e (Some id)) as (ids1 & -> & L1 & K1); [lia|]. cbn [mbind result_bind].
  destruct (np_set_ok ids1 last None) as (ids & -> & L2 & K2); [lia|]. cbn [mbind result_bind].
  destruct (np_set_ok (req_output_token_ids b) e (Some (cr_output_token_ids r))) as (outs1 & -> & M1 & J1); [lia|]. cbn [mbind result_bind].
  destruct (np_set_ok outs1 last None) as (outs & -> & M2 & J2); [lia|]. cbn [mbind result_bind].
  destruct (rows_move_ok N W (rows b) last e (bi_rows _ _ _ _ H)) as (rw & -> & Hrw & Hsh & Vt & Vo & Srw & Lrw & LMrw & Erw); [lia..|]. cbn [mbind result_bind].
  cbn zeta. match goal with |- context [is_pooling_model ?x] => change x with (conf b) end. rewrite (bi_generates _ _ _ _ H).
  assert (Hve : ∀ id', _req_ids b !! e ≠ Some (Some id')) by congruence.
  destruct (samp_move_ok N (conf b) (samp b) last e (bi_samp _ _ _ _ H)) as (sa & Esa & Hsa & Wt & Wo & Vl & Vac); [lia|lia|lia|by apply (bi_vacant _ _ _ _ H)|].
  match goal with |- context [samp_move ?x last e] => change x with (samp b) end. rewrite Esa. cbn [mbind result_bind]. clear Esa.
  batch_simpl. eexists. split; [done|].
  assert (Kids : ∀ j, ids !! j = if decide (j = last) then Some None else if decide (j = e) then Some (Some id) else _req_ids b !! j).
  { intros j. rewrite K2, K1. done. }
  assert (Kouts : ∀ j, outs !! j = if decide (j = last) then Some None else if decide (j = e) then Some (Some (cr_output_token_ids r)) else req_output_token_ids b !! j).
  { intros j. rewrite J2, J1. done. }
  assert (Huniq : ∀ j, _req_ids b !! j = Some (Some id) → j = last).
  { intros j Ej. apply (bi_index _ _ _ _ H) in Ej. apply (bi_index _ _ _ _ H) in El. congruence. }
  assert (Hids : ∀ j id', ids !! j = Some (Some id') ↔ j = e ∧ id' = id ∨ j ≠ last ∧ j ≠ e ∧ id' ≠ id ∧ _req_ids b !! j = Some (Some id')).
  { intros j id'. rewrite Kids. case_decide as Hj; [subst; split; [done|]; intros [[-> _]|[? _]]; [lia|done]|].
    case_decide as Hj'; [subst; split; [intros [= ->]; by left|]; intros [[_ ->]|(_ & ? & _)]; done|]. split; [|naive_solver].
    intros E. right. split_and!; [done|done| |done]. intros ->. by apply Hj, Huniq. }
  assert (Hsize : size (<[id := e]> (req_id_to_index b)) = num_reqs b).
  { unfold num_reqs. apply map_size_insert_Some. exists last. by apply (bi_index _ _ _ _ H). }
  split_and!.
  - split; batch_simpl.
    + apply (bi_max _ _ _ _ H).
    + apply (bi_vocab _ _ _ _ H).
    + apply (bi_generates _ _ _ _ H).
    + done.
    + done.
    + intros id' j. rewrite lookup_insert_Some, Hids, (bi_index _ _ _ _ H). split.
      * intros [[<- <-]|[Hne E]]; [by left|]. right. split_and!; [|naive_solver|done|done]. intros ->. congruence.
      * intros [[-> ->]|(_ & _ & Hne & E)]; [by left|]. right. done.
    + intros id'. destruct (decide (id' = id)) as [->|Hne]; [rewrite lookup_insert_eq, Hr; split; by eexists|].
      rewrite lookup_insert_ne by done. apply (bi_dom _ _ _ _ H).
    + apply (bi_req _ _ _ _ H).
    + lia.
    + lia.
    + intros j id' r' [[-> ->]|(H1 & H2 & H3 & E)]%Hids Hr'; rewrite Kouts.
      * rewrite decide_False, decide_True by lia. congruence.
      * rewrite !decide_False by done. by apply (bi_outs _ _ _ _ H j id').
    + lia.
    + intros j Hj. rewrite Srw. case_decide as Hjl; [subst; done|]. case_decide as Hje.
      * subst. destruct (Hj id). by rewrite Kids, decide_False, decide_True by done.
      * destruct (bi_vacant _ _ _ _ H j) as [? ?]; [|split; [done|by apply Vac]]. intros id' E. apply (Hj id'). by rewrite Kids, !decide_False.
    + intros j id' r' [[-> ->]|(H1 & H2 & H3 & E)]%Hids Hr'; rewrite LMrw.
      * rewrite decide_True by done. by apply (bi_lora_row _ _ _ _ H last id).
      * rewrite decide_False by done. by apply (bi_lora_row _ _ _ _ H j id').
    + apply (bi_sets _ _ _ _ H).
    + apply (bi_loras _ _ _ _ H).
    + by intros _.
    + cbn. rewrite Ha. apply (bi_added _ _ _ _ H).
  - assert (Hun : Forall (λ m : MovedRequest, e ≠ m.1.1 ∧ e ≠ m.1.2) (moved (batch_update_builder b))).
    { eapply Forall_impl; [apply (cd_moved _ _ Hc)|]. cbv beta. intros m (_ & Hm1 & Hm2). split; intros E; rewrite E in Hein; done. }
    unfold tracks in *. batch_simpl. unfold apply_update, pending in *. cbn [bu_removed bu_added bu_moved _removed added moved add_moved] in *.
    rewrite Ha, Hm. unfold sl_moves. rewrite foldl_app. cbn [foldl]. fold (sl_moves (sl_removes (sl_adds (λ a, Some (slot_of a)) s (added (batch_update_builder b))) (_removed u)) (moved (batch_update_builder b))).
    set (A := sl_adds (λ a, Some (slot_of a)) s (added (batch_update_builder b))) in *.
    assert (E1 : sl_eq (sl_removes A (_removed u)) (upd (sl_removes A (_removed (batch_update_builder b))) e (A e))).
    { intros j. unfold upd. rewrite !sl_removes_spec. destruct (decide (j = e)) as [->|Hj]; [by rewrite decide_False by tauto|].
      destruct (decide (j ∈ _removed u)) as [Hin|Hin]; [by rewrite decide_True by (rewrite Hp; by right)|].
      rewrite decide_False; [done|]. rewrite Hp. by intros [?|?]%elem_of_cons. }
    intros j. rewrite (sl_move_proper _ _ (sl_moves_proper _ _ E1 _ _ eq_refl) _ _ eq_refl j).
    rewrite (sl_move_proper _ _ (sl_moves_upd _ _ _ (A e) Hun) _ _ eq_refl j). specialize (Ht j) as Htj. pose proof (Ht last) as Htl. unfold sl_move, upd, cur in *.
    cbn [_req_ids]. rewrite Kids. destruct (decide (j = last)) as [->|Hjl]; [done|]. rewrite (decide_False (P := last = e)) by lia.
    destruct (decide (j = e)) as [->|Hje]; [by rewrite Htl, El|]. exact Htj.
  - split; batch_simpl; cbn [_removed moved add_moved].
    + tauto.
    + intros j Hj. rewrite L2, L1. apply (cd_in _ _ Hc). rewrite Hp. by right.
    + unfold num_reqs at 1. cbn [req_id_to_index]. rewrite Hsize. rewrite Hm. apply Forall_app. split.
      * eapply Forall_impl; [apply (cd_moved _ _ Hc)|]. cbv beta. intros m (Hm0 & Hm1 & Hm2). split; [done|].
        split; intros E; [apply Hm1|apply Hm2]; rewrite Hp; by right.
      * constructor; [|constructor]. cbn. split; [|split; [|tauto]].
        -- split; [split; cbn; lia|]. split; [unfold no_self_move; cbn; lia|]. by intros _.
        -- intros E. apply Hlast. rewrite Hp. by right.
    + intros j Hj1 Hj2. rewrite Kids. case_decide; [done|]. rewrite decide_False by lia. apply (cd_above _ _ Hc); lia.
    + intros j Hj. rewrite Kids, decide_False by lia. pose proof (cd_below _ _ Hc j ltac:(lia)) as Hb. rewrite Hp, elem_of_cons in Hb.
      case_decide as Hje; [subst; split; [tauto|done]|]. rewrite <-Hb. naive_solver.
    + lia.
  - done.
  - unfold num_reqs at 1. batch_simpl. done.
  - done.
  - intros id' [r' Hr']. destruct (taken N W b R id' r' H Hr') as (j & Ej & Esj & _). destruct (decide (id' = id)) as [->|Hne].
    + exists last, e. batch_simpl. rewrite lookup_insert_eq. apply (bi_index _ _ _ _ H) in El. split_and!; [done|done|done|done|].
      intros x Hx. rewrite Erw. unfold move_key. rewrite Hx. by rewrite lookup_insert_eq.
    + assert (j ≠ last) by congruence. assert (j ≠ e) by congruence. exists j, j. batch_simpl. rewrite lookup_insert_ne by done.
      split_and!; [done|done|by apply Vo|by apply Wo|]. intros x Hx. rewrite Erw. unfold move_key.
      destruct (req_prompt_embeds (rows b) !! last); [|done]. by rewrite lookup_insert_ne, lookup_delete_ne.
Qed.

(** ** The loop *)

(** The first [num_reqs] slots are taken, the others are vacant, and what is recorded
    is an update for a batch of that size. *)
Record settled b : Prop := mkSettled {
  se_taken : ∀ i, (i < num_reqs b)%nat → ∃ id, _req_ids b !! i = Some (Some id);
  se_vacant : ∀ i, (num_reqs b ≤ i)%nat → ∀ id, _req_ids b !! i ≠ Some (Some id);
  se_removed : ∀ i, i ∈ _removed (batch_update_builder b) → (i < N)%nat;
  se_moved : Forall (move_ok N (num_reqs b)) (moved (batch_update_builder b));
}.

Lemma settle b R last : batch_inv N W b R → condensing b last → (∀ i, (i ≤ last)%nat → i ∉ _removed (batch_update_builder b)) → settled b.
Proof.
  intros H Hc Hn. pose proof (no_holes b R last H Hc Hn) as Hnum. pose proof (cd_last _ _ Hc). pose proof (bi_len _ _ _ _ H). split.
  - intros i Hi. destruct (lookup_lt_is_Some_2 (_req_ids b) i) as [[id|] E]; [lia|by exists id|]. exfalso. apply (Hn i); [lia|].
    apply (cd_below _ _ Hc); [lia|done].
  - intros i Hi id E. pose proof (lookup_lt_Some _ _ _ E). rewrite (cd_above _ _ Hc) in E by lia. done.
  - intros i Hi. pose proof (cd_in _ _ Hc i Hi). lia.
  - eapply Forall_impl; [apply (cd_moved _ _ Hc)|]. by intros m [? _].
Qed.

Lemma condense_loop_ok fuel b R s last : batch_inv N W b R → tracks b R s → condensing b last → (0 < num_reqs b)%nat →
  (length (_removed (batch_update_builder b)) < fuel)%nat →
  ∃ b', condense_loop fuel b last = Ok b' ∧ batch_inv N W b' R ∧ tracks b' R s ∧ settled b' ∧ num_reqs b' = num_reqs b ∧ same_tables b b' ∧
    (∀ id, is_Some (R !! id) → kept b b' id).
Proof.
  revert b last. induction fuel as [|fuel IH]; intros b last H Ht Hc Hn Hfuel; [lia|]. cbn [condense_loop].
  destruct (_removed (batch_update_builder b)) as [|x l] eqn:Er.
  - exists b. split; [done|]. split; [done|]. split; [done|]. split; [apply (settle b R last H Hc); rewrite Er; intros; apply not_elem_of_nil|].
    split; [done|]. split; [apply mg_shape_refl|]. intros. by eapply kept_refl.
  - cbn match. rewrite <-Er in *. pose proof (scan_last_spec (_removed (batch_update_builder b)) last) as Hscan.
    destruct (scan_last (_removed (batch_update_builder b)) last) as [l'|]; last first.
    { exfalso. rewrite (taken_upto b R last H Hc) in Hn. rewrite omap_none in Hn; [cbn in Hn; lia|]. apply Forall_lookup. intros i y Hy.
      pose proof (lookup_lt_Some _ _ _ Hy) as Hl. rewrite length_take in Hl. rewrite lookup_take_lt in Hy by lia.
      assert (E : _req_ids b !! i = Some None) by (apply (cd_below _ _ Hc); [lia|]; apply Hscan; lia). congruence. }
    destruct Hscan as (Hl & Hnl & Hbetween). pose proof (condensing_lower b last l' Hc Hl Hbetween) as Hc'. clear Hc Hbetween Hl.
    pose proof (bi_builder _ _ _ _ H) as Hbu. destruct (peek_pop _ Hbu) as (Epk & Hbu' & Hperm & Hadd & Hmov & Hpop).
    destruct (peek_removed (batch_update_builder b)) as [pk u]. cbn [fst snd] in *.
    set (b1 := set_builder b u). assert (H1 : batch_inv N W b1 R) by (by apply inv_builder).
    assert (Ht1 : tracks b1 R s) by (by apply tracks_builder).
    assert (Hc1 : condensing b1 l').
    { destruct Hc' as [C1 C2 C3 C4 C5 C6]. split; unfold b1; batch_simpl; [by rewrite Hperm| | |done| |done].
      - intros i. rewrite Hperm. apply C2.
      - rewrite Hmov. change (num_reqs _) with (num_reqs b). eapply Forall_impl; [exact C3|]. cbv beta. intros m. by rewrite Hperm.
      - intros i. rewrite Hperm. apply C5. }
    pose proof (pop_removed_ok _ Hbu) as Hp. destruct (pop_removed (batch_update_builder b)) as [[e|] u2] eqn:Epop; cbn [fst] in Epk; subst pk;
      [|destruct Hp as [Hp _]; rewrite Hp in Er; done].
    destruct Hp as (Hp & Hmin & _). destruct (l' <=? e)%nat eqn:Ele.
    + apply Nat.leb_le in Ele. exists b1. split; [done|]. split; [done|]. split; [done|]. split.
      * apply (settle b1 R l' H1 Hc1). intros i Hi Hin. unfold b1 in Hin. cbn in Hin. rewrite Hperm in Hin.
        assert (e ≤ i)%nat by (rewrite Hp in Hin; apply elem_of_cons in Hin as [->|Hin]; [lia|by apply (proj1 (Forall_forall _ _) Hmin)]).
        assert (i = l') by lia. subst. done.
      * split; [done|]. split; [apply mg_shape_refl|]. intros id Hid. destruct (kept_refl N W b R id H Hid) as (j & j' & ?). by exists j, j'.
    + apply Nat.leb_gt in Ele. destruct (condense_move_ok b1 R s l' e u2 H1 Ht1 Hc1) as (b2 & E2 & H2 & Ht2 & Hc2 & Hp2 & Hn2 & Hs2 & Hk2).
      { unfold b1. batch_simpl. done. }
      { done. }
      { unfold b1. batch_simpl. by rewrite Hperm. }
      rewrite E2. cbn [mbind result_bind]. unfold b1 in Hp2. cbn [batch_update_builder set_builder] in Hp2. rewrite Hperm in Hp2.
      destruct (IH b2 (l' - 1)%nat H2 Ht2 Hc2) as (b3 & E3 & H3 & Ht3 & Hse3 & Hn3 & Hs3 & Hk3).
      { rewrite Hn2. done. }
      { apply Permutation_length in Hp2. cbn in Hp2. lia. }
      exists b3. split; [done|]. split; [done|]. split; [done|]. split; [done|]. split; [by rewrite Hn3, Hn2|].
      split; [by eapply mg_shape_trans|]. intros id Hid. eapply kept_trans; [by apply Hk2|by apply Hk3].
Qed.

(** ** Trimming *)

(** Every slot is taken. *)
Record dense b : Prop := mkDense {
  de_len : length (_req_ids b) = num_reqs b;
  de_taken : ∀ i, (i < num_reqs b)%nat → ∃ id, _req_ids b !! i = Some (Some id);
  de_removed : ∀ i, i ∈ _removed (batch_update_builder b) → (i < N)%nat;
  de_moved : Forall (move_ok N (num_reqs b)) (moved (batch_update_builder b));
}.

Lemma trim_ok b R s : batch_inv N W b R → tracks b R s → settled b →
  let b' := trim b (num_reqs b) in
  batch_inv N W b' R ∧ tracks b' R s ∧ dense b' ∧ same_tables b b' ∧ (∀ id, is_Some (R !! id) → kept b b' id).
Proof.
  intros H Ht [S1 S2 S3 S4] b'. set (n := num_reqs b) in *.
  assert (Hids : ∀ j id, take n (_req_ids b) !! j = Some (Some id) ↔ _req_ids b !! j = Some (Some id)).
  { intros j id. rewrite lookup_take_Some. split; [tauto|]. intros E. split; [done|]. destruct (decide (j < n)%nat); [done|].
    destruct (S2 j ltac:(lia) id E). }
  assert (Hlen : (n ≤ length (_req_ids b))%nat).
  { destruct n as [|m] eqn:En; [lia|]. destruct (S1 m) as [id E]; [lia|]. apply lookup_lt_Some in E. lia. }
  pose proof (bi_outs_len _ _ _ _ H) as Hlo. pose proof (bi_spec_len _ _ _ _ H) as Hls. pose proof (bi_len _ _ _ _ H).
  assert (Hlt : ∀ j id, _req_ids b !! j = Some (Some id) → (j < n)%nat).
  { intros j id E. destruct (decide (j < n)%nat); [done|]. destruct (S2 j ltac:(lia) id E). }
  split_and!.
  - split; unfold b', trim; batch_simpl; cbn [spec_token_ids request_lora_mapping].
    + apply (bi_max _ _ _ _ H).
    + apply (bi_vocab _ _ _ _ H).
    + apply (bi_generates _ _ _ _ H).
    + destruct (bi_rows _ _ _ _ H). by split.
    + apply (bi_samp _ _ _ _ H).
    + intros id j. by rewrite Hids, (bi_index _ _ _ _ H).
    + apply (bi_dom _ _ _ _ H).
    + apply (bi_req _ _ _ _ H).
    + rewrite length_take. lia.
    + rewrite !length_take. lia.
    + intros j id r E Hr. apply Hids in E. rewrite lookup_take_lt by by eapply Hlt. by apply (bi_outs _ _ _ _ H j id).
    + rewrite !length_take. lia.
    + intros j Hj. destruct (bi_vacant _ _ _ _ H j) as [Hd Hv]; [intros id E; by apply (Hj id), Hids|]. split; [|done].
      destruct (decide (j < n)%nat); [by rewrite lookup_take_lt|]. by rewrite lookup_take_ge by lia.
    + intros j id r E Hr. apply Hids in E. by apply (bi_lora_row _ _ _ _ H j id).
    + apply (bi_sets _ _ _ _ H).
    + apply (bi_loras _ _ _ _ H).
    + apply (bi_builder _ _ _ _ H).
    + apply (bi_added _ _ _ _ H).
  - intros j. unfold tracks in Ht. etransitivity; [exact (Ht j)|]. unfold cur, b', trim. batch_simpl.
    destruct (_req_ids b !! j) as [[id|]|] eqn:E.
    + by rewrite (proj2 (Hids j id) E).
    + destruct (take n (_req_ids b) !! j) as [[id|]|] eqn:E'; [|done..]. apply Hids in E'. congruence.
    + destruct (take n (_req_ids b) !! j) as [[id|]|] eqn:E'; [|done..]. apply Hids in E'. congruence.
  - split; unfold b', trim; batch_simpl.
    + rewrite length_take. change (num_reqs _) with n. lia.
    + change (num_reqs _) with n. intros i Hi. destruct (S1 i Hi) as [id E]. exists id. by apply Hids.
    + done.
    + done.
  - apply mg_shape_refl.
  - intros id [r Hr]. destruct (taken N W b R id r H Hr) as (j & Ej & Esj & _). exists j, j. unfold b', trim. batch_simpl. split_and!; [done|done| |done|done].
    unfold row_view, active. cbn [spec_token_ids token_ids_cpu is_token_ids num_tokens_no_spec num_prompt_tokens num_computed_tokens_cpu block_table request_lora_mapping].
    by rewrite lookup_take_lt by by eapply Hlt.
Qed.

(** ** Condensing *)

(** Slots taken and holes add up to all slots. *)
Lemma holes_length (ids : list (option string)) (r : list nat) : (∀ i, i ∈ r ↔ ids !! i = Some None) → NoDup r →
  (length (omap id ids) + length r)%nat = length ids.
Proof.
  revert r. induction ids as [|o ids IH] using rev_ind; intros r Hr Hnd.
  - destruct r as [|i r]; [done|]. pose proof (proj1 (Hr i) ltac:(by left)) as E. by rewrite lookup_nil in E.
  - rewrite omap_app, !length_app. cbn [length]. destruct o as [o|]; cbn.
    + rewrite <-(IH r); [lia| |done]. intros i. rewrite Hr, lookup_snoc_Some. split; [intros [[_ ?]|[_ ?]]; done|]. intros E. left. split; [by eapply lookup_lt_Some|done].
    + assert (Hin : length ids ∈ r) by (apply Hr, lookup_snoc_Some; by right). apply list_elem_of_split in Hin as (r1 & r2 & ->).
      apply NoDup_mid in Hnd as [Hni Hnd]. rewrite <-(IH (r1 ++ r2)); [rewrite !length_app; cbn; lia| |done].
      intros i. destruct (decide (i = length ids)) as [->|Hi]; [split; [done|]; intros E; apply lookup_lt_Some in E; lia|].
      specialize (Hr i). rewrite lookup_snoc_Some, elem_of_app, elem_of_cons in Hr. rewrite elem_of_app.
      split; [intros E; destruct (proj1 Hr ltac:(tauto)) as [[_ ?]|[? _]]; [done|done]|].
      intros E. destruct (proj2 Hr) as [?|[?|?]]; [left; split; [by eapply lookup_lt_Some|done]|by left|done|by right].
Qed.

Lemma condense_ok b R s : batch_inv N W b R → adding b → tracks b R s →
  ∃ b', condense b = Ok b' ∧ batch_inv N W b' R ∧ tracks b' R s ∧ dense b' ∧ same_tables b b' ∧ (∀ id, is_Some (R !! id) → kept b b' id).
Proof.
  intros H [Hm Hnd Hh] Ht. unfold condense, removed. destruct (ensure_sorted_ok _ (bi_builder _ _ _ _ H)) as (Hp & Hd & Hf & Ha & Hmv).
  set (u := _ensure_removed_sorted (batch_update_builder b)) in *. set (b1 := set_builder b u).
  assert (H1 : batch_inv N W b1 R) by (apply inv_builder; [done|by intros _|done]). assert (Ht1 : tracks b1 R s) by (by apply tracks_builder).
  assert (Hk1 : ∀ id, is_Some (R !! id) → kept b b1 id) by (intros id Hid; destruct (kept_refl N W b R id H Hid) as (j & j' & ?); by exists j, j').
  assert (Hn1 : num_reqs b1 = num_reqs b) by done. pose proof (bi_len _ _ _ _ H) as HlN.
  assert (Hh1 : ∀ i, i ∈ _removed u ↔ _req_ids b1 !! i = Some None) by (intros i; by rewrite Hp, Hh).
  assert (Hrem : ∀ i, i ∈ _removed u → (i < length (_req_ids b1))%nat) by (intros i Hi%Hh1; by eapply lookup_lt_Some).
  destruct (_removed u) as [|x l] eqn:Er.
  - assert (Hfull : length (_req_ids b) = num_reqs b).
    { rewrite (num_reqs_taken _ _ _ _ H). symmetry. apply omap_full. apply Forall_lookup. intros i y Hy ->. apply Hh1 in Hy. by apply elem_of_nil in Hy. }
    exists b1. split; [done|]. split; [done|]. split; [done|]. split; [|by split; [apply mg_shape_refl|]]. split.
    + done.
    + intros i Hi. destruct (lookup_lt_is_Some_2 (_req_ids b1) i) as [[id|] E]; [change (length (_req_ids b1)) with (length (_req_ids b)); rewrite Hfull; lia|by exists id|].
      apply Hh1 in E. by apply elem_of_nil in E.
    + unfold b1. batch_simpl. rewrite Er. intros i Hi. by apply elem_of_nil in Hi.
    + unfold b1. batch_simpl. rewrite Hmv, Hm. constructor.
  - cbn match. rewrite <-Er in *. destruct (num_reqs b =? 0)%nat eqn:En.
    + apply Nat.eqb_eq in En. assert (Hse : settled b1).
      { split.
        - intros i Hi. rewrite Hn1 in Hi. lia.
        - intros i _ x0 E. assert (Hin : x0 ∈ omap id (_req_ids b)).
          { apply list_elem_of_omap. exists (Some x0). split; [by eapply list_elem_of_lookup_2|done]. }
          rewrite (num_reqs_taken _ _ _ _ H) in En. apply nil_length_inv in En. rewrite En in Hin. by apply elem_of_nil in Hin.
        - intros i Hi. specialize (Hrem i Hi). change (_req_ids b1) with (_req_ids b) in Hrem. lia.
        - unfold b1. batch_simpl. rewrite Hmv, Hm. constructor. }
      destruct (trim_ok b1 R s H1 Ht1 Hse) as (T1 & T2 & T3 & T4 & T5). rewrite Hn1, En in *. eexists. split; [done|].
      split_and!; [done|done|done|done|]. intros id Hid. eapply kept_trans; [by apply Hk1|by apply T5].
    + apply Nat.eqb_neq in En. pose proof (num_reqs_taken _ _ _ _ H) as Htk.
      assert (Hlen : (num_reqs b + length (_removed u))%nat = length (_req_ids b)).
      { rewrite Htk. apply holes_length; [done|by rewrite Hp]. }
      assert (Hc : condensing b1 (num_reqs b + length (_removed u) - 1)).
      { rewrite Hlen. split.
        - unfold b1. batch_simpl. by rewrite Hp.
        - exact Hrem.
        - unfold b1. batch_simpl. rewrite Hmv, Hm. constructor.
        - intros i Hi1 Hi2. change (_req_ids b1) with (_req_ids b) in Hi2. lia.
        - intros i _. apply Hh1.
        - change (_req_ids b1) with (_req_ids b). lia. }
      destruct (condense_loop_ok (S (length (_removed u))) b1 R s _ H1 Ht1 Hc) as (b2 & E2 & H2 & Ht2 & Hse & Hn2 & Hs2 & Hk2).
      { rewrite Hn1. lia. }
      { unfold b1. batch_simpl. lia. }
      rewrite E2. cbn [mbind result_bind]. destruct (trim_ok b2 R s H2 Ht2 Hse) as (T1 & T2 & T3 & T4 & T5). rewrite Hn2, Hn1 in *.
      eexists. split; [done|]. split_and!; [done|done|done|by eapply mg_shape_trans|].
      intros id Hid. eapply kept_trans; [by apply Hk1|]. eapply kept_trans; [by apply Hk2|by apply T5].
Qed.
End condense.

(** ** Transposing two indices *)

Definition tr (i1 i2 j : nat) : nat := if decide (j = i2) then i1 else if decide (j = i1) then i2 else j.

Lemma tr_tr i1 i2 j : tr i1 i2 (tr i1 i2 j) = j.
Proof. unfold tr. repeat case_decide; congruence. Qed.

Lemma tr_lt n i1 i2 j : (i1 < n)%nat → (i2 < n)%nat → (j < n)%nat ↔ (tr i1 i2 j < n)%nat.
Proof. unfold tr. repeat case_decide; subst; lia. Qed.

(** A list with two entries exchanged. *)
Lemma swap_at_tr {A} (l : list A) i1 i2 : (i1 < length l)%nat → (i2 < length l)%nat →
  ∃ l', swap_at l i1 i2 = Ok l' ∧ length l' = length l ∧ ∀ k, l' !! k = l !! tr i1 i2 k.
Proof.
  intros H1 H2. destruct (swap_at_ok l i1 i2 H1 H2) as (l' & E & L & K). exists l'. split_and!; [done|done|].
  intros k. rewrite K. unfold tr. by repeat case_decide.
Qed.

Lemma tr_view {A} (f g : nat → A) i1 i2 : f i1 = g i2 → f i2 = g i1 → (∀ j, j ≠ i1 → j ≠ i2 → f j = g j) → ∀ j, f j = g (tr i1 i2 j).
Proof. intros H1 H2 H j. unfold tr. repeat case_decide; subst; auto. Qed.

Section swap.
Context (N W : nat).
Implicit Types (b : InputBatch) (R : gmap string CachedRequestState) (s : slots slot).

Lemma sl_swap {A} (g : slots A) i1 i2 j : sl_move g (i1, i2, SWAP) j = g (tr i1 i2 j).
Proof. unfold sl_move, upd, tr. repeat case_decide; subst; congruence. Qed.

(** A batch whose indices are exchanged, the rest of it as before. *)
Lemma swap_ok b R s i1 i2 : batch_inv N W b R → tracks b R s → dense N b → i1 ≠ i2 → (i1 < num_reqs b)%nat → (i2 < num_reqs b)%nat →
  ∃ b', swap_states b i1 i2 = Ok b' ∧ batch_inv N W b' R ∧ tracks b' R s ∧ dense N b' ∧ same_tables b b' ∧
    (∀ j, _req_ids b' !! j = _req_ids b !! tr i1 i2 j) ∧ (∀ j, row_view (rows b') j = row_view (rows b) (tr i1 i2 j)) ∧
    (∀ id, is_Some (R !! id) → kept b b' id).
Proof.
  intros H Ht Hd Hne Hi1 Hi2. pose proof (de_len _ _ Hd) as Hlen. pose proof (bi_len _ _ _ _ H) as HlN.
  pose proof (bi_outs_len _ _ _ _ H) as Hlo. pose proof (bi_spec_len _ _ _ _ H) as Hls.
  destruct (de_taken _ _ Hd i1 Hi1) as [id1 E1], (de_taken _ _ Hd i2 Hi2) as [id2 E2].
  pose proof (proj2 (bi_index _ _ _ _ H id1 i1) E1) as X1. pose proof (proj2 (bi_index _ _ _ _ H id2 i2) E2) as X2.
  assert (Hid : id1 ≠ id2) by congruence.
  unfold swap_states. rewrite (proj2 (np_get_ok _ _ _) E1). cbn [mbind result_bind]. rewrite (proj2 (np_get_ok _ _ _) E2). cbn [mbind result_bind].
  destruct (rows_swap_ok N W (rows b) i1 i2 (bi_rows _ _ _ _ H)) as (rw & -> & Hrw & Hsh & V1 & V2 & V3 & Srw & Lrw & LMrw & Erw); [done|lia..|]. cbn [mbind result_bind].
  destruct (swap_at_tr (_req_ids b) i1 i2) as (ids & -> & L1 & K1); [lia..|]. cbn [mbind result_bind].
  destruct (swap_at_tr (req_output_token_ids b) i1 i2) as (outs & -> & L2 & K2); [lia..|]. cbn [mbind result_bind].
  rewrite X1, X2. cbn zeta. match goal with |- context [is_pooling_model ?x] => change x with (conf b) end. rewrite (bi_generates _ _ _ _ H).
  destruct (samp_swap_ok N (conf b) (samp b) i1 i2 (bi_samp _ _ _ _ H)) as (sa & Esa & Hsa & W1 & W2 & W3 & Vac); [done|lia..|].
  match goal with |- context [samp_swap ?x i1 i2] => change x with (samp b) end. rewrite Esa. cbn [mbind result_bind]. clear Esa.
  pose proof (tr_view _ _ i1 i2 V1 V2 V3) as V. pose proof (tr_view _ _ i1 i2 W1 W2 W3) as Wv.
  assert (Hidx : ∀ id j, <[id2 := i1]> (<[id1 := i2]> (req_id_to_index b)) !! id = Some j ↔ req_id_to_index b !! id = Some (tr i1 i2 j)).
  { intros id j. destruct (decide (id = id2)) as [->|H2]; [|destruct (decide (id = id1)) as [->|H1]].
    - rewrite lookup_insert_eq, X2. unfold tr. split; [intros [= <-]|]; repeat case_decide; congruence.
    - rewrite lookup_insert_ne, lookup_insert_eq, X1 by done. unfold tr. split; [intros [= <-]|]; repeat case_decide; congruence.
    - rewrite !lookup_insert_ne by done. unfold tr. repeat case_decide; subst; [| |done]; split; intros E; exfalso.
      + apply (bi_index _ _ _ _ H) in E. congruence.
      + apply (bi_index _ _ _ _ H) in E. congruence.
      + apply (bi_index _ _ _ _ H) in E. congruence.
      + apply (bi_index _ _ _ _ H) in E. congruence. }
  assert (Hsize : size (<[id2 := i1]> (<[id1 := i2]> (req_id_to_index b))) = num_reqs b).
  { unfold num_reqs. rewrite map_size_insert_Some by (rewrite lookup_insert_ne by done; by eexists). apply map_size_insert_Some. by eexists. }
  eexists. split; [done|]. split_and!.
  - split; batch_simpl.
    + apply (bi_max _ _ _ _ H).
    + apply (bi_vocab _ _ _ _ H).
    + apply (bi_generates _ _ _ _ H).
    + done.
    + done.
    + intros id j. rewrite Hidx, K1. apply (bi_index _ _ _ _ H).
    + intros id. rewrite <-(bi_dom _ _ _ _ H id). split; intros [j Hj].
      * apply Hidx in Hj. by eexists.
      * exists (tr i1 i2 j). apply Hidx. by rewrite tr_tr.
    + apply (bi_req _ _ _ _ H).
    + lia.
    + lia.
    + intros j id r E Hr. rewrite K1 in E. rewrite K2. by apply (bi_outs _ _ _ _ H _ id).
    + lia.
    + intros j Hj. assert (Hout : (num_reqs b ≤ j)%nat).
      { destruct (decide (j < num_reqs b)%nat) as [Hlt|]; [|lia]. apply (tr_lt _ i1 i2) in Hlt; [|done..].
        destruct (de_taken _ _ Hd _ Hlt) as [id E]. destruct (Hj id). by rewrite K1. }
      assert (j ≠ i1 ∧ j ≠ i2) as [Hj1 Hj2] by lia. destruct (bi_vacant _ _ _ _ H j) as [Hs Hv].
      { intros id E. apply (Hj id). rewrite K1. unfold tr. by rewrite !decide_False. }
      split; [|by apply Vac]. by rewrite Srw, !decide_False.
    + intros j id r E Hr. rewrite K1 in E. rewrite LMrw. pose proof (bi_lora_row _ _ _ _ H _ id r E Hr) as El. unfold tr in El. by repeat case_decide.
    + apply (bi_sets _ _ _ _ H).
    + apply (bi_loras _ _ _ _ H).
    + apply (bi_builder _ _ _ _ H).
    + apply (bi_added _ _ _ _ H).
  - unfold tracks in *. batch_simpl. unfold apply_update, pending in *. cbn [bu_removed bu_added bu_moved _removed added moved add_moved] in *.
    unfold sl_moves in *. rewrite foldl_app. cbn [foldl]. intros j. rewrite sl_swap, (Ht (tr i1 i2 j)). unfold cur. cbn [_req_ids]. by rewrite K1.
  - destruct Hd as [D1 D2 D3 D4]. split; batch_simpl; cbn [_removed moved add_moved]; unfold num_reqs; cbn [req_id_to_index]; rewrite ?Hsize.
    + lia.
    + intros i Hi. apply (tr_lt _ i1 i2) in Hi; [|done..]. destruct (D2 _ Hi) as [id E]. exists id. by rewrite K1.
    + done.
    + apply Forall_app. split; [done|]. constructor; [|constructor]. split; [split; cbn; lia|]. by split.
  - done.
  - done.
  - done.
  - intros id [r Hr]. destruct (taken N W b R id r H Hr) as (j & Ej & _). exists j, (tr i1 i2 j). batch_simpl. rewrite Hidx, V, Wv, tr_tr.
    split_and!; [done..|]. intros x Hx. rewrite Erw, swap_dict_lookup by done. unfold tr. repeat case_decide; subst; congruence.
Qed.
End swap.
