(* ===== verification/InputBatchMetadata.v ===== *)
(** * Sampling metadata of the persistent batch
    The metadata the sampler gets, computed from sets of request ids and slices of
    arrays, gives every request of the batch exactly the parameters it was added with. *)

From Stdlib Require Import QArith.
From S2P Require Import Prelude OrderedDict BlockTable BlockTableFacts BatchUpdate BatchUpdateFacts LogitsFacts MinPFacts InputBatch InputBatchRows InputBatchFacts InputBatchOps InputBatchCondense.

#[local] Open Scope Z_scope.

(** ** Slices and folds *)

Lemma copy_slice_lookup {A} (host dev : list A) n i : (i < n)%nat → (n ≤ length host)%nat → take n (copy_slice host dev n) !! i = host !! i.
Proof.
  intros Hi Hn. unfold copy_slice. rewrite take_app_le by (rewrite length_take; lia). rewrite take_take, Nat.min_id. by rewrite lookup_take_lt.
Qed.

Lemma existsb_false_take l n : Forall (λ x, x = false) l → existsb (λ x, x) (take n l) = false.
Proof. intros H. revert n. induction H as [|x l -> _ IH]; intros [|n]; [done..|]. cbn. apply IH. Qed.

Section metadata.
Context (f32 : Q → Q) (N W : nat).
Implicit Types (b : InputBatch) (R : gmap string CachedRequestState).

(** ** What an index holds of its request *)

(** The sampling parameters of an index, and those of a request. *)
Definition samp_params (d : sampling_data) (i : nat) :=
  (temperature_cpu d !! i, top_p_cpu d !! i, top_k_cpu d !! i, frequency_penalties_cpu d !! i, presence_penalties_cpu d !! i,
   repetition_penalties_cpu d !! i, generators d !! i, bad_words_by_index d !! i).

Definition req_params (c : batch_conf) (r : CachedRequestState) (sp : SamplingParams) :=
  (Some (if decide (sampling_type sp = GREEDY) then 0%Q else f32 (temperature sp)), Some (f32 (top_p sp)), Some (effective_top_k c sp),
   Some (f32 (frequency_penalty sp)), Some (f32 (presence_penalty sp)), Some (f32 (repetition_penalty sp)),
   cr_generator r, truthy_list (bad_words_token_ids sp)).

(** The row begins with the prompt. *)
Definition prompt_at (d : row_data) (i : nat) (r : CachedRequestState) : Prop :=
  num_prompt_tokens d !! i = Some (cr_num_prompt_tokens r) ∧
  ∃ k row, num_tokens_no_spec d !! i = Some k ∧ (cr_num_prompt_tokens r ≤ k)%nat ∧ token_ids_cpu d !! i = Some row ∧
    ∀ p, cr_prompt_token_ids r = Some p → take (cr_num_prompt_tokens r) row = p.

Definition holds b R : Prop := ∀ id r sp i, R !! id = Some r → cr_sampling_params r = Some sp → req_id_to_index b !! id = Some i →
  samp_params (samp b) i = req_params (conf b) r sp ∧ prompt_at (rows b) i r.

Lemma params_view d d' i i' : samp_view d' i' = samp_view d i → samp_params d' i' = samp_params d i.
Proof. unfold samp_view, samp_params. intros [=]. congruence. Qed.

Lemma prompt_view d d' i i' r : row_view d' i' = row_view d i → prompt_at d i r → prompt_at d' i' r.
Proof.
  unfold row_view. intros [= E1 E2 E3 E4 E5 E6 E7 E8] (Hn & k & row & Hk & Hle & Hr & Hp). rewrite <-E3 in Hn. rewrite <-E2 in Hk. split; [done|].
  assert (Ea : active d' i' = active d i) by (unfold active; by rewrite E1, E2). rewrite Ea, Hr in E7.
  destruct (token_ids_cpu d' !! i') as [row'|]; [|done]. cbn in E7. injection E7 as E7. exists k, row'. split_and!; [done|done|done|].
  intros p Ep. rewrite <-(Hp p Ep). assert (Hact : (cr_num_prompt_tokens r ≤ active d i)%nat).
  { unfold active. rewrite <-E2, Hk. cbn. lia. }
  rewrite <-(Nat.min_l _ _ Hact), <-!take_take. by rewrite E7.
Qed.

(** What is carried along stays with its request. *)
Lemma holds_kept b b' R R' : holds b R → conf b' = conf b → (∀ id r, R' !! id = Some r → R !! id = Some r ∧ kept b b' id) → holds b' R'.
Proof.
  intros H Hc Hk id r sp i' Hr Hsp Hi'. destruct (Hk id r Hr) as [Hr0 (i & j & Hi & Hj & Ev & Es & _)]. rewrite Hj in Hi'. injection Hi' as <-.
  destruct (H id r sp i Hr0 Hsp Hi) as [H1 H2]. rewrite Hc. split; [rewrite <-H1; by apply params_view|by eapply prompt_view].
Qed.

Lemma holds_fresh h b r sp i : row_fresh h r (rows b) i → samp_view (samp b) i = samp_fresh f32 (conf b) r sp →
  samp_params (samp b) i = req_params (conf b) r sp ∧ prompt_at (rows b) i r.
Proof.
  intros (_ & F2 & F3 & _ & _ & _ & (pre & Lp & Ep & F7) & _) Es. split.
  - unfold samp_view, samp_fresh in Es. unfold samp_params, req_params. congruence.
  - split; [done|]. destruct (token_ids_cpu (rows b) !! i) as [row|]; [|done]. injection F7 as F7. exists (num_tokens h r), row.
    split_and!; [done|unfold num_tokens; lia|done|]. intros p Hp. rewrite <-(Ep p Hp), <-Lp.
    assert (Hle : (length pre ≤ num_tokens h r)%nat) by (unfold num_tokens; lia).
    rewrite <-(Nat.min_l _ _ Hle), <-take_take, F7, Lp, <-Lp. by rewrite take_app_length.
Qed.

(** ** Buffers of the device *)

(** Masks are allocated when a request needs them, and no index asks for prompt tokens
    as pooling requests do. *)
Record buffers_ok b R : Prop := mkBuffersOk {
  bf_mask : is_Some (allowed_token_ids_mask_cpu (samp b)) → is_Some (dv_allowed_token_ids_mask (dev b));
  bf_alloc : ∀ id r sp, R !! id = Some r → cr_sampling_params r = Some sp → truthy_list (allowed_token_ids sp) ≠ None →
    is_Some (allowed_token_ids_mask_cpu (samp b));
  bf_flags : Forall (λ x, x = false) (logits_processing_needs_token_ids (pool b));
}.

(** ** The metadata *)

(** What the sampler reads for index [i] is what the request asks for. *)
Record row_metadata (c : batch_conf) (md : SamplingMetadata) (i : nat) (r : CachedRequestState) (sp : SamplingParams) : Prop := mkRowMd {
  rm_temperature : match md_temperature md with
    | Some l => l !! i = Some (if decide (sampling_type sp = GREEDY) then 0%Q else f32 (temperature sp))
    | None => sampling_type sp = GREEDY end;
  rm_top_p : match md_top_p md with Some l => l !! i = Some (f32 (top_p sp)) | None => (1 <= top_p sp)%Q end;
  rm_top_k : match md_top_k md with Some l => l !! i = Some (effective_top_k c sp) | None => effective_top_k c sp = vocab_size c end;
  rm_penalties : if md_no_penalties md
    then (frequency_penalty sp == 0)%Q ∧ (presence_penalty sp == 0)%Q ∧ (repetition_penalty sp == 1)%Q
    else md_frequency_penalties md !! i = Some (f32 (frequency_penalty sp)) ∧ md_presence_penalties md !! i = Some (f32 (presence_penalty sp)) ∧
      md_repetition_penalties md !! i = Some (f32 (repetition_penalty sp)) ∧ md_output_token_ids md !! i = Some (Some (cr_output_token_ids r)) ∧
      ∃ m row, md_prompt_token_ids md = Some m ∧ m !! i = Some row ∧
        (∀ p, cr_prompt_token_ids r = Some p → take (cr_num_prompt_tokens r) row = p) ∧ Forall (λ t, t = vocab_size c) (drop (cr_num_prompt_tokens r) row);
  rm_generator : md_generators md !! i = cr_generator r;
  rm_bad_words : md_bad_words_token_ids md !! i = truthy_list (bad_words_token_ids sp);
  rm_bad_words_out : truthy_list (bad_words_token_ids sp) ≠ None → md_output_token_ids md !! i = Some (Some (cr_output_token_ids r));
  rm_logprobs : ∀ n, logprobs_of c sp = Some n → ∃ m, md_max_num_logprobs md = Some m ∧ n ≤ m;
  rm_logprob_ids : (md_logprob_token_ids md ≫= (.!! i)) = logprob_token_ids sp;
  rm_allowed : truthy_list (allowed_token_ids sp) ≠ None → is_Some (md_allowed_token_ids_mask md);
}.

Record metadata_ok b R (md : SamplingMetadata) : Prop := mkMetadataOk {
  mo_greedy : md_all_greedy md = true ↔ ∀ id r sp, R !! id = Some r → cr_sampling_params r = Some sp → sampling_type sp = GREEDY;
  mo_random : md_all_random md = true ↔ ∀ id r sp, R !! id = Some r → cr_sampling_params r = Some sp → sampling_type sp ≠ GREEDY;
  mo_row : ∀ i id r sp, _req_ids b !! i = Some (Some id) → R !! id = Some r → cr_sampling_params r = Some sp → row_metadata (conf b) md i r sp;
}.

(** A set that is empty when no request is in it. *)
Lemma set_is_empty P R X : set_is P R X →
  (size X =? 0)%nat = true ↔ ∀ id r sp, R !! id = Some r → cr_sampling_params r = Some sp → P sp = false.
Proof.
  intros H. rewrite Nat.eqb_eq, size_empty_iff. split.
  - intros He id r sp Hr Hsp. destruct (P sp) eqn:E; [|done]. assert (id ∈ X) by (apply H; by exists r, sp). set_solver.
  - intros Hn id. rewrite (H id). split; [|set_solver]. intros (r & sp & Hr & Hsp & E). by rewrite (Hn id r sp) in E.
Qed.

Lemma set_is_nonempty P R X : set_is P R X → (size X =? 0)%nat = false → ∃ id r, R !! id = Some r.
Proof.
  intros H He. apply Nat.eqb_neq in He. destruct (set_choose_or_empty X) as [[id Hid]|E].
  - apply H in Hid as (r & sp & Hr & _). by exists id, r.
  - destruct He. by apply size_empty_iff.
Qed.

(** The tokens to report, by index. *)
Lemma logprobs_by_index_ok b R i id : batch_inv N W b R → _req_ids b !! i = Some (Some id) →
  logprobs_by_index b !! i = logprob_ids_by_req (sets b) !! id.
Proof.
  intros H. unfold logprobs_by_index. revert i id.
  apply (map_fold_weak_ind (λ r m, ∀ i id, _req_ids b !! i = Some (Some id) → r !! i = m !! id)); [done|].
  intros x l m r Hx IH i id Ei. destruct (decide (x = id)) as [->|Hne].
  - rewrite (proj2 (bi_index _ _ _ _ H id i) Ei), !lookup_insert_eq. done.
  - rewrite (lookup_insert_ne m) by done. destruct (req_id_to_index b !! x) as [j|] eqn:Ej; [|by apply IH].
    apply (bi_index _ _ _ _ H) in Ej. rewrite lookup_insert_ne by congruence. by apply IH.
Qed.

(** The prompts as a tensor, padded with the size of the vocabulary. *)
Lemma prompt_tensor_ok b R id0 r0 : batch_inv N W b R → dense N b → R !! id0 = Some r0 →
  ∃ m, _make_prompt_token_ids_cpu_tensor b = Ok m ∧ ∀ i r, (i < num_reqs b)%nat → prompt_at (rows b) i r →
    ∃ row, m !! i = Some row ∧ (∀ p, cr_prompt_token_ids r = Some p → take (cr_num_prompt_tokens r) row = p) ∧
      Forall (λ t, t = vocab_size (conf b)) (drop (cr_num_prompt_tokens r) row).
Proof.
  intros H Hd Hr0. destruct (taken N W b R id0 r0 H Hr0) as (i0 & _ & _ & _ & Hi0 & _). rewrite (de_len _ _ Hd) in Hi0.
  pose proof (bi_rows _ _ _ _ H) as Hro. pose proof (bi_len _ _ _ _ H) as HlN. rewrite (de_len _ _ Hd) in HlN.
  unfold _make_prompt_token_ids_cpu_tensor. set (n := num_reqs b) in *. set (lens := take n (num_prompt_tokens (rows b))).
  destruct (py_max_total (Z.of_nat <$> lens)) as [mx Emx].
  { intros E%(f_equal length). unfold lens in E. rewrite length_fmap, length_take, (ro_npt _ _ _ Hro) in E. cbn in E. lia. }
  rewrite Emx. cbn [mbind result_bind]. apply py_max_Ok in Emx as [_ Hmx]. eexists. split; [done|].
  intros i r Hi (Hn & k & row & Hk & Hle & Erow & Hp). rewrite lookup_zip_with, list_lookup_fmap, lookup_take_lt, Erow by done. cbn.
  unfold lens. rewrite lookup_take_lt, Hn by done. cbn. eexists. split; [done|]. set (len := cr_num_prompt_tokens r) in *.
  assert (Hlen : (len ≤ Z.to_nat mx)%nat).
  { assert (Z.of_nat len ≤ mx); [|lia]. apply Hmx, list_elem_of_fmap. exists len. split; [done|]. apply list_elem_of_lookup. exists i. unfold lens. by rewrite lookup_take_lt. }
  assert (Ht : take len (take (Z.to_nat mx) row) = take len row) by (rewrite take_take; f_equal; lia). rewrite Ht. split.
  - intros p Ep. rewrite <-(Hp p Ep). rewrite take_app, take_take, Nat.min_id, !length_take.
    destruct (decide (len ≤ length row)%nat) as [Hl|Hl]; [rewrite (Nat.min_l len) by lia; by rewrite Nat.sub_diag, app_nil_r|].
    replace (Nat.min (Z.to_nat mx) (length row) - len)%nat with 0%nat by lia. cbn. by rewrite take_nil, app_nil_r.
  - rewrite drop_app, drop_ge by (rewrite length_take; lia). apply Forall_drop, Forall_replicate. done.
Qed.

Lemma no_penalties_ok b R : batch_inv N W b R → no_penalties (sets b) = true ↔ ∀ id r sp, R !! id = Some r → cr_sampling_params r = Some sp →
  (frequency_penalty sp == 0)%Q ∧ (presence_penalty sp == 0)%Q ∧ (repetition_penalty sp == 1)%Q.
Proof.
  intros H. destruct (bi_sets _ _ _ _ H). unfold no_penalties. rewrite !andb_true_iff, (set_is_empty _ _ _ so_pp), (set_is_empty _ _ _ so_fp), (set_is_empty _ _ _ so_rp).
  unfold q_true. split.
  - intros [[H1 H2] H3] id r sp Hr Hsp. specialize (H1 id r sp Hr Hsp). specialize (H2 id r sp Hr Hsp). specialize (H3 id r sp Hr Hsp).
    rewrite negb_false_iff in H1, H2, H3. by rewrite !Qeq_bool_iff in *.
  - intros Hp. split; [split|]; intros id r sp Hr Hsp; destruct (Hp id r sp Hr Hsp) as (H1 & H2 & H3); by apply negb_false_iff, Qeq_bool_iff.
Qed.

Lemma max_num_logprobs_ok s id n : num_logprobs s !! id = Some n → ∃ m, max_num_logprobs s = Some m ∧ n ≤ m.
Proof.
  intros H. unfold max_num_logprobs. assert (Hin : n ∈ (map_to_list (num_logprobs s)).*2).
  { apply list_elem_of_fmap. exists (id, n). split; [done|]. by apply elem_of_map_to_list. }
  destruct ((map_to_list (num_logprobs s)).*2) as [|x l] eqn:E; [by apply elem_of_nil in Hin|]. eexists. split; [done|].
  apply (proj2 (proj1 (py_max_Ok (x :: l) _) eq_refl)). done.
Qed.

(** The optional prompts: present when some request has penalties. *)
Lemma metadata_prompts b R : batch_inv N W b R → dense N b → buffers_ok b R →
  ∃ prompt, (if negb (no_penalties (sets b)) || existsb (λ x, x) (take (num_reqs b) (logits_processing_needs_token_ids (pool b)))
      then p ← _make_prompt_token_ids_cpu_tensor b; Ok (Some p) else Ok None) = Ok prompt ∧
    (no_penalties (sets b) = false → ∃ m, prompt = Some m ∧ ∀ i r, (i < num_reqs b)%nat → prompt_at (rows b) i r →
      ∃ row, m !! i = Some row ∧ (∀ p, cr_prompt_token_ids r = Some p → take (cr_num_prompt_tokens r) row = p) ∧
        Forall (λ t, t = vocab_size (conf b)) (drop (cr_num_prompt_tokens r) row)).
Proof.
  intros H Hd Hb. rewrite (existsb_false_take _ _ (bf_flags _ _ Hb)), orb_false_r. destruct (no_penalties (sets b)) eqn:E; cbn [negb]; [by exists None|].
  assert (Hne : ∃ id r, R !! id = Some r).
  { destruct (bi_sets _ _ _ _ H). unfold no_penalties in E. rewrite !andb_false_iff in E. destruct E as [[E|E]|E]; (eapply set_is_nonempty; [|exact E]; done). }
  destruct Hne as (id & r & Hr). destruct (prompt_tensor_ok b R id r H Hd Hr) as (m & -> & Hm). cbn [mbind result_bind].
  exists (Some m). split; [done|]. intros _. by exists m.
Qed.

(** The optional mask: present when some request restricts its tokens. *)
Lemma metadata_mask b R : batch_inv N W b R → buffers_ok b R →
  ∃ mask, (if no_allowed_token_ids (sets b) then Ok (dv_allowed_token_ids_mask (dev b), None)
    else match dv_allowed_token_ids_mask (dev b), allowed_token_ids_mask_cpu (samp b) with
      | Some dm, Some hm => Ok (Some (copy_slice hm dm (num_reqs b)), Some (take (num_reqs b) (copy_slice hm dm (num_reqs b))))
      | _, _ => Raise AssertionError
      end) = Ok mask ∧ (is_Some (dv_allowed_token_ids_mask (dev b)) → is_Some mask.1) ∧
    (∀ id r sp, R !! id = Some r → cr_sampling_params r = Some sp → truthy_list (allowed_token_ids sp) ≠ None → is_Some mask.2).
Proof.
  intros H Hb. pose proof (so_allowed _ _ _ (bi_sets _ _ _ _ H)) as Ha. destruct (no_allowed_token_ids (sets b)) eqn:E.
  - eexists. split; [done|]. split; [done|]. intros id r sp Hr Hsp Hal. unfold no_allowed_token_ids in E.
    pose proof (proj1 (set_is_empty _ _ _ Ha) E id r sp Hr Hsp) as Hf. by rewrite bool_decide_eq_false in Hf.
  - assert (Hex : ∃ id r sp, R !! id = Some r ∧ cr_sampling_params r = Some sp ∧ truthy_list (allowed_token_ids sp) ≠ None).
    { unfold no_allowed_token_ids in E. apply Nat.eqb_neq in E. destruct (set_choose_or_empty (has_allowed_token_ids (sets b))) as [[id Hid]|He].
      - apply Ha in Hid as (r & sp & Hr & Hsp & Hb'). rewrite bool_decide_eq_true in Hb'. by exists id, r, sp.
      - destruct E. by apply size_empty_iff. }
    destruct Hex as (id & r & sp & Hr & Hsp & Hal). destruct (bf_alloc _ _ Hb id r sp Hr Hsp Hal) as [hm Eh].
    destruct (bf_mask _ _ Hb) as [dm Ed]; [by eexists|]. rewrite Ed, Eh. eexists. split; [done|]. split; [by eexists|]. intros. by eexists.
Qed.

Lemma make_metadata_ok b R : batch_inv N W b R → dense N b → holds b R → buffers_ok b R →
  ∃ d md, _make_sampling_metadata b = Ok (d, md) ∧ metadata_ok b R md ∧
    (is_Some (dv_allowed_token_ids_mask (dev b)) → is_Some (dv_allowed_token_ids_mask d)).
Proof.
  intros H Hd Hh Hb. unfold _make_sampling_metadata. destruct (metadata_prompts b R H Hd Hb) as (prompt & -> & Hprompt). cbn [mbind result_bind].
  destruct (metadata_mask b R H Hb) as (mask & -> & Hm1 & Hm2). cbn [mbind result_bind]. do 2 eexists. split; [done|]. split; [|done].
  pose proof (bi_sets _ _ _ _ H) as Hs. pose proof (bi_samp _ _ _ _ H) as Hsa. pose proof (bi_len _ _ _ _ H) as HlN. rewrite (de_len _ _ Hd) in HlN.
  split; cbn [md_all_greedy md_all_random].
  - unfold all_greedy. rewrite (set_is_empty _ _ _ (so_random _ _ _ Hs)). unfold is_greedy.
    split; intros Hg id r sp Hr Hsp; specialize (Hg id r sp Hr Hsp); rewrite negb_false_iff, bool_decide_eq_true in *; done.
  - unfold all_random. rewrite (set_is_empty _ _ _ (so_greedy _ _ _ Hs)). unfold is_greedy.
    split; intros Hg id r sp Hr Hsp; specialize (Hg id r sp Hr Hsp); rewrite bool_decide_eq_false in *; done.
  - intros i id r sp Ei Hr Hsp. assert (Hi : (i < num_reqs b)%nat) by (rewrite <-(de_len _ _ Hd); by eapply lookup_lt_Some).
    destruct (Hh id r sp i Hr Hsp) as [Hp Hpr]; [by apply (bi_index _ _ _ _ H)|]. unfold samp_params, req_params in Hp. injection Hp as P1 P2 P3 P4 P5 P6 P7 P8.
    pose proof (bi_outs _ _ _ _ H i id r Ei Hr) as Hout.
    split; cbn [md_temperature md_top_p md_top_k md_no_penalties md_frequency_penalties md_presence_penalties md_repetition_penalties md_output_token_ids
      md_prompt_token_ids md_generators md_bad_words_token_ids md_max_num_logprobs md_logprob_token_ids md_allowed_token_ids_mask].
    + destruct (all_greedy (sets b)) eqn:E; cbn [negb]; [|rewrite copy_slice_lookup; [done|done|rewrite (sa_temp _ _ _ Hsa); lia]].
      pose proof (proj1 (set_is_empty _ _ _ (so_random _ _ _ Hs)) E id r sp Hr Hsp) as Hg. cbv beta in Hg. unfold is_greedy in Hg. by rewrite negb_false_iff, bool_decide_eq_true in Hg.
    + destruct (no_top_p (sets b)) eqn:E; cbn [negb]; [|rewrite copy_slice_lookup; [done|done|rewrite (sa_top_p _ _ _ Hsa); lia]].
      pose proof (proj1 (set_is_empty _ _ _ (so_top_p _ _ _ Hs)) E id r sp Hr Hsp) as Hg. cbv beta in Hg. by rewrite negb_false_iff, Qle_bool_iff in Hg.
    + destruct (no_top_k (sets b)) eqn:E; cbn [negb]; [|rewrite copy_slice_lookup; [done|done|rewrite (sa_top_k _ _ _ Hsa); lia]].
      pose proof (proj1 (set_is_empty _ _ _ (so_top_k _ _ _ Hs)) E id r sp Hr Hsp) as Hg. cbv beta in Hg. unfold effective_top_k. by rewrite Hg.
    + destruct (no_penalties (sets b)) eqn:E; cbn [negb orb]; [by apply (proj1 (no_penalties_ok b R H) E id r sp)|].
      rewrite !copy_slice_lookup; [|done|rewrite ?(sa_rp _ _ _ Hsa), ?(sa_pp _ _ _ Hsa), ?(sa_fp _ _ _ Hsa); lia..].
      split_and!; [done..|]. destruct (Hprompt eq_refl) as (m & -> & Hm). destruct (Hm i r Hi Hpr) as (row & Erow & Hrow & Hpad). exists m, row.
      done.
    + done.
    + done.
    + intros Hbad. assert (Hne : bool_decide (bad_words_by_index (samp b) = ∅) = false).
      { apply bool_decide_eq_false. intros E. rewrite E, lookup_empty in P8. congruence. }
      rewrite Hne. cbn [negb]. by rewrite orb_true_r.
    + intros n En. apply (max_num_logprobs_ok _ id). rewrite (so_logprobs _ _ _ Hs id), Hr. cbn. rewrite Hsp. done.
    + pose proof (so_logprob_ids _ _ _ Hs id) as El. rewrite Hr in El. cbn in El. rewrite Hsp in El. cbn in El. rewrite <-El.
      case_bool_decide as Hempty; cbn; [by rewrite Hempty, lookup_empty|]. by rewrite (logprobs_by_index_ok b R i id H Ei).
    + by apply (Hm2 id r sp).
Qed.
End metadata.
