(* ===== verification/InputBatchFrames.v ===== *)
(** * What operations of the batch leave alone
    Removing, adding, condensing and swapping do not touch the configuration, the
    logits processors and the metadata, and they leave a trace in the record of the
    step. *)

From Stdlib Require Import QArith.
From S2P Require Import Prelude OrderedDict BlockTable BlockTableFacts BatchUpdate BatchUpdateFacts LogitsFacts MinPFacts InputBatch InputBatchRows InputBatchFacts InputBatchOps InputBatchCondense InputBatchMetadata.

#[local] Open Scope Z_scope.

Section frames.
Context (f32 : Q → Q).
Implicit Types (b : InputBatch) (R : gmap string CachedRequestState).

(** Something is recorded. *)
Definition touched (u : BatchUpdateBuilder) : Prop := ¬ (_removed u = [] ∧ added u = [] ∧ moved u = []).

Record frame b b' : Prop := mkFrame {
  fr_conf : conf b' = conf b;
  fr_procs : logitsprocs b' = logitsprocs b;
  fr_metadata : sampling_metadata b' = sampling_metadata b;
  fr_pool : pool b' = pool b;
  fr_dev : dev b' = dev b;
  fr_mask : is_Some (allowed_token_ids_mask_cpu (samp b')) ↔ is_Some (allowed_token_ids_mask_cpu (samp b));
  fr_touched : touched (batch_update_builder b) → touched (batch_update_builder b');
}.

Lemma frame_refl b : frame b b.
Proof. by split. Qed.

Lemma frame_trans b1 b2 b3 : frame b1 b2 → frame b2 b3 → frame b1 b3.
Proof. intros [] []. split; first [congruence|tauto|etransitivity; eassumption]. Qed.

Lemma frame_builder b u : (touched (batch_update_builder b) → touched u) → frame b (set_builder b u).
Proof. intros H. by split. Qed.

(** Changing slots, rows, sampling data and recorded changes only. *)
Lemma frame_data b ids outs index rw d u :
  (is_Some (allowed_token_ids_mask_cpu d) ↔ is_Some (allowed_token_ids_mask_cpu (samp b))) →
  (touched (batch_update_builder b) → touched u) →
  frame b (set_samp (set_builder (set_row_data (set_slots b ids outs index) rw) u) d).
Proof. intros Hm Hu. by split. Qed.

Lemma ensure_touched u : touched u → touched (_ensure_removed_sorted u).
Proof.
  unfold touched, _ensure_removed_sorted. destruct (_is_removed_sorted u); [done|]. cbn. intros H (E & Ea & Em). apply H. split; [|done].
  apply Permutation_nil. rewrite <-E. by rewrite sort_desc_perm.
Qed.

Lemma moved_touched u m : touched (add_moved u m).
Proof. intros (_ & _ & E). cbn in E. by destruct (moved u). Qed.

(** ** Removing *)

Lemma remove_frame b id o b' : remove_request b id = Ok (o, b') → is_pooling_model (conf b) = false →
  frame b b' ∧ (is_Some o → touched (batch_update_builder b')) ∧ (o = None → b' = b).
Proof.
  intros H Hg. unfold remove_request in H. destruct (req_id_to_index b !! id) as [i|]; [|injection H as <- <-; split; [apply frame_refl|]; split; [by intros []|done]].
  bind_inv H as u Eu. bind_inv H as ids E1. bind_inv H as outs E2. bind_inv H as l E3. bind_inv H as lo E4. bind_inv H as rw E5. cbn zeta in H.
  match type of H with context [is_pooling_model ?x] => change x with (conf b) in H end. rewrite Hg in H. bind_inv H as d Ed. injection H as <- <-.
  unfold removed_append in Eu. destruct (_is_removed_sorted _); [done|]. injection Eu as <-.
  assert (Ht : touched (mkBuilder (_removed (batch_update_builder b) ++ [i]) (added (batch_update_builder b)) (moved (batch_update_builder b)) false true)).
  { intros (E & _). cbn in E. by destruct (_removed (batch_update_builder b)). }
  split; [|split; [by intros _|done]]. split; try done. batch_simpl.
  match type of Ed with samp_remove ?x i = _ => change x with (samp b) in Ed end. unfold samp_remove in Ed. bind_inv Ed as m Em. injection Ed as <-. cbn.
  destruct (allowed_token_ids_mask_cpu (samp b)); [bind_inv Em as row Er; injection Em as <-; split; by eexists|injection Em as <-; done].
Qed.

(** ** Adding *)

Record grown b b' (sp : SamplingParams) : Prop := mkGrown {
  gr_procs : logitsprocs b' = logitsprocs b;
  gr_metadata : sampling_metadata b' = sampling_metadata b;
  gr_pool : pool b' = pool b;
  gr_mask : is_Some (allowed_token_ids_mask_cpu (samp b')) ↔ is_Some (allowed_token_ids_mask_cpu (samp b)) ∨ truthy_list (allowed_token_ids sp) ≠ None;
  gr_dev : is_Some (allowed_token_ids_mask_cpu (samp b')) → is_Some (dv_allowed_token_ids_mask (dev b)) ∨ is_Some (allowed_token_ids_mask_cpu (samp b)) ∨
    is_Some (dv_allowed_token_ids_mask (dev b'));
  gr_dev_old : is_Some (dv_allowed_token_ids_mask (dev b)) → is_Some (dv_allowed_token_ids_mask (dev b'));
  gr_touched : touched (batch_update_builder b');
}.

Lemma add_grown h b r sp i b' : add_request f32 h b r = Ok (i, b') → cr_sampling_params r = Some sp → grown b b' sp.
Proof.
  intros H Hsp. unfold add_request in H. bind_inv H as [j b1] Er. unfold _register_add_request in Er.
  destruct (pop_removed (batch_update_builder b)) as [popped u] eqn:Ep. bind_inv Er as v Ea. rewrite Hsp in Er. injection Er as <- <-.
  bind_inv H as [[ids outs] spec] Es. bind_inv H as rw Erw. bind_inv H as [[[sa se] po] de] Epa. bind_inv H as na Ena. injection H as <- <-.
  unfold params_add in Epa. rewrite Hsp in Epa. bind_inv Epa as d Ed. injection Epa as <- <- <- <-.
  unfold samp_add in Ed. do 6 (let x := fresh in let E := fresh in bind_inv Ed as x E). bind_inv Ed as m Em. injection Ed as <-.
  unfold mask_add in Em. split; batch_simpl; try done.
  - cbn. destruct (truthy_list (allowed_token_ids sp)) eqn:Et; [|injection Em as <-; cbn; naive_solver].
    bind_inv Em as row E1. bind_inv Em as m' E2. injection Em as <-. split; [by right|]. by eexists.
  - unfold dev_add. cbn. destruct (truthy_list (allowed_token_ids sp)) eqn:Et; [|injection Em as <-; cbn; tauto].
    destruct (allowed_token_ids_mask_cpu (samp b)); cbn; intros _; [by right; left; eexists|by right; right; eexists].
  - unfold dev_add. cbn. destruct (truthy_list (allowed_token_ids sp)); [|done]. destruct (allowed_token_ids_mask_cpu (samp b)); [done|]. by eexists.
  - intros (_ & E & _). cbn in E. by destruct (added u).
Qed.

(** ** Condensing *)

Lemma condense_move_frame b last e b' : condense_move b last e = Ok b' → is_pooling_model (conf b) = false → frame b b'.
Proof.
  intros H Hg. unfold condense_move in H. destruct (pop_removed (batch_update_builder b)) as [popped u]. bind_inv H as id E1. bind_inv H as out E2.
  destruct id as [id|]; [|done]. bind_inv H as ids1 E3. bind_inv H as ids2 E4. bind_inv H as outs1 E5. bind_inv H as outs2 E6. bind_inv H as rw E7. cbn zeta in H.
  match type of H with context [is_pooling_model ?x] => change x with (conf b) in H end. rewrite Hg in H. bind_inv H as d Ed. injection H as <-.
  match type of Ed with samp_move ?x _ _ = _ => change x with (samp b) in Ed end.
  apply (frame_data b ids2 outs2 (<[id := e]> (req_id_to_index b)) rw d (add_moved u (last, e, UNIDIRECTIONAL))); [|by intros _; apply moved_touched].
  unfold samp_move in Ed. do 7 (let x := fresh in let E := fresh in bind_inv Ed as x E). bind_inv Ed as m Em. injection Ed as <-. cbn.
  destruct (allowed_token_ids_mask_cpu (samp b)); [bind_inv Em as row Er; injection Em as <-; split; by eexists|injection Em as <-; done].
Qed.

Lemma condense_loop_frame fuel b last b' : condense_loop fuel b last = Ok b' → is_pooling_model (conf b) = false → frame b b'.
Proof.
  revert b last. induction fuel as [|fuel IH]; intros b last H Hg; [done|]. cbn [condense_loop] in H.
  destruct (_removed (batch_update_builder b)) as [|x l] eqn:Er; [injection H as <-; apply frame_refl|].
  destruct (scan_last (x :: l) last) as [l'|]; [|injection H as <-; apply frame_refl].
  unfold peek_removed in H. destruct (has_removed _); cbn zeta iota in H; [|done].
  assert (Hf : frame b (set_builder b (_ensure_removed_sorted (batch_update_builder b)))) by (apply frame_builder, ensure_touched).
  destruct (list.last _) as [e|]; [|done]. case_inv H as E; [by injection H as <-|]. bind_inv H as b2 E2.
  eapply frame_trans; [exact Hf|]. apply condense_move_frame in E2 as Hf2; [|done]. eapply frame_trans; [exact Hf2|]. apply (IH b2 (l' - 1)%nat H).
  by rewrite (fr_conf _ _ Hf2).
Qed.

Lemma condense_frame b b' : condense b = Ok b' → is_pooling_model (conf b) = false → frame b b'.
Proof.
  intros H Hg. unfold condense, removed in H.
  assert (Hf : frame b (set_builder b (_ensure_removed_sorted (batch_update_builder b)))) by (apply frame_builder, ensure_touched).
  destruct (_removed (_ensure_removed_sorted _)) as [|x l]; [by injection H as <-|]. case_inv H as E; [injection H as <-; by destruct Hf|].
  bind_inv H as b2 E2. injection H as <-. apply condense_loop_frame in E2; [|done]. destruct (frame_trans _ _ _ Hf E2). by split.
Qed.

(** ** Swapping *)

Lemma swap_frame b i1 i2 b' : swap_states b i1 i2 = Ok b' → is_pooling_model (conf b) = false → frame b b' ∧ touched (batch_update_builder b').
Proof.
  intros H Hg. unfold swap_states in H. bind_inv H as o1 E1. bind_inv H as o2 E2. bind_inv H as rw E3. bind_inv H as ids E4. bind_inv H as outs E5.
  destruct o1 as [id1|], o2 as [id2|]; try done. destruct (req_id_to_index b !! id1) as [j1|], (req_id_to_index b !! id2) as [j2|]; try done. cbn zeta in H.
  match type of H with context [is_pooling_model ?x] => change x with (conf b) in H end. rewrite Hg in H. bind_inv H as d Ed. injection H as <-.
  match type of Ed with samp_swap ?x _ _ = _ => change x with (samp b) in Ed end. split; [|apply moved_touched].
  apply (frame_data b ids outs (<[id2 := j1]> (<[id1 := j2]> (req_id_to_index b))) rw d (add_moved (batch_update_builder b) (i1, i2, SWAP))); [|by intros _; apply moved_touched].
  unfold samp_swap in Ed. do 7 (let x := fresh in let E := fresh in bind_inv Ed as x E). bind_inv Ed as m Em. injection Ed as <-. cbn.
  destruct (allowed_token_ids_mask_cpu (samp b)); [bind_inv Em as row Er; injection Em as <-; split; by eexists|injection Em as <-; done].
Qed.

(** ** Buffers *)

Lemma buffers_frame b b' R R' : frame b b' → (∀ id r, R' !! id = Some r → R !! id = Some r) → buffers_ok b R → buffers_ok b' R'.
Proof.
  intros [] Hsub [B1 B2 B3]. split; rewrite ?fr_dev0, ?fr_pool0; [tauto| |done]. intros id r sp Hr Hsp Hal. apply fr_mask0. by apply (B2 id r sp); [apply Hsub|..].
Qed.

Lemma buffers_grown b b' R r sp : grown b b' sp → R !! cr_req_id r = None → cr_sampling_params r = Some sp → buffers_ok b R →
  buffers_ok b' (<[cr_req_id r := r]> R).
Proof.
  intros [G1 G2 G3 G4 G5 G6 G7] Hid Hsp [B1 B2 B3]. split; [|intros id r' sp' Hr Hsp' Hal; apply G4|by rewrite G3].
  - intros Hs. destruct (G5 Hs) as [?|[?|?]]; [by apply G6|by apply G6, B1|done].
  - apply lookup_insert_Some in Hr as [[<- <-]|[_ Hr]]; [right; congruence|]. left. by apply (B2 id r' sp').
Qed.
End frames.
