(* ===== verification/InputBatchStep.v ===== *)
(** * A step of the persistent batch
    The calls a scheduling step makes: requests are removed, others added, holes
    filled, indices swapped, and metadata and logits processors refreshed. *)

From Stdlib Require Import QArith.
From S2P Require Import Prelude MathUtils OrderedDict BlockTable BlockTableFacts BatchUpdate BatchUpdateFacts LogitsFacts MinPFacts InputBatch InputBatchRows InputBatchFacts InputBatchOps InputBatchCondense InputBatchMetadata InputBatchFrames.

#[local] Open Scope Z_scope.

Section step.
Context (f32 : Q → Q).
(** Rounding takes zero to zero (and, when they are small enough, other numbers). *)
Context (f32_zero : ∀ x, (x == 0)%Q → (f32 x == 0)%Q).
Context (N W : nat).
Implicit Types (b : InputBatch) (R : gmap string CachedRequestState) (s : slots slot) (h : heap).

(** ** Logits processors *)

Definition bias_of (r : slot) : option (list (Z * Q)) := let '(sp, pr, o) := r in lb_new_state sp pr o.

(** A processor is in step with the slots of a batch of [size] requests. *)
Definition proc_inv h (size : nat) s (p : LogitsProcessor) : Prop :=
  match p with
  | ProcMinP p => minp_inv f32 N size p s
  | ProcLogitBias p => lb_inv f32 p (sl_map bias_of s)
  | ProcMinTokens p => mt_inv h p s
  end.

Definition procs_inv h (size : nat) s (ps : LogitsProcessors) : Prop :=
  Forall (proc_inv h size s) (argmax_invariant ps) ∧ Forall (proc_inv h size s) (non_argmax_invariant ps).

Lemma proc_inv_proper h size s1 s2 p : sl_eq s1 s2 → proc_inv h size s1 p → proc_inv h size s2 p.
Proof.
  intros Hs. destruct p as [p|p|p]; cbn.
  - intros [H1 H2]. split; [by eapply mp_proper|done].
  - intros [H1 H2 H3 H4 H5]. split; try done. eapply dict_tracks_proper; [|exact H1]. intros i. unfold sl_map. by rewrite (Hs i).
  - intros [H1 H2]. split; [|done]. eapply dict_tracks_proper; [|exact H1]. intros i. unfold sl_map. by rewrite (Hs i).
Qed.

Lemma update_state_ok h h' size s u p : proc_inv h size s p → update_ok N u → mt_grow h h' s →
  ∃ p', update_state f32 h' (Some u) p = Ok p' ∧ proc_inv h' (batch_size u) (apply_update (λ a, Some (slot_of a)) s u) p'.
Proof.
  intros Hp Hu Hg. assert (Hns : Forall no_self_move (bu_moved u)) by (eapply Forall_impl; [apply (uo_moved _ _ Hu)|]; by intros m (_ & ? & _)).
  destruct p as [p|p|p]; cbn [proc_inv update_state] in *.
  - destruct (minp_update f32 f32_zero N size p s u Hp Hu) as (p' & -> & Hp'). cbn [mbind result_bind]. by eexists.
  - eexists. split; [done|]. pose proof (lb_update f32 p _ u Hp Hns) as [H1 H2 H3 H4 H5]. split; try done. eapply dict_tracks_proper; [|exact H1].
    intros i. symmetry. etransitivity; [apply (apply_update_natural bias_of (λ a, Some (slot_of a)) s u)|]. done.
  - eexists. split; [done|]. by eapply mt_update.
Qed.

Lemma update_state_None h h' size s p : proc_inv h size s p → mt_grow h h' s →
  ∃ p', update_state f32 h' None p = Ok p' ∧ proc_inv h' size s p'.
Proof.
  intros Hp Hg. destruct p as [p|p|p]; cbn [proc_inv update_state] in *; [cbn; by eexists| |eexists; split; [done|]; by eapply mt_update_None].
  eexists. split; [done|]. by rewrite lb_update_None.
Qed.

Lemma update_procs_ok h h' size size' s s' u ps : procs_inv h size s ps →
  (∀ p, proc_inv h size s p → ∃ p', update_state f32 h' u p = Ok p' ∧ proc_inv h' size' s' p') →
  ∃ ps', update_processors f32 h' u ps = Ok ps' ∧ procs_inv h' size' s' ps'.
Proof.
  intros [H1 H2] Hf. assert (Hm : ∀ l, Forall (proc_inv h size s) l → ∃ l', mmap (update_state f32 h' u) l = Ok l' ∧ Forall (proc_inv h' size' s') l').
  { induction 1 as [|p l Hp _ (l' & E & Hl)]; [by exists []|]. destruct (Hf p Hp) as (p' & E' & Hp'). exists (p' :: l'). cbn. rewrite E'. cbn. rewrite E. by split; [|constructor]. }
  destruct (Hm _ H1) as (l1 & E1 & Hl1), (Hm _ H2) as (l2 & E2 & Hl2). unfold update_processors. rewrite E1. cbn. rewrite E2. cbn. by eexists.
Qed.

(** ** A batch between steps *)

Record ready h b R : Prop := mkReady {
  rd_inv : batch_inv N W b R;
  rd_dense : dense N b;
  rd_quiet : ¬ touched (batch_update_builder b) ∧ _is_removed_sorted (batch_update_builder b) = false;
  rd_holds : holds f32 b R;
  rd_buffers : buffers_ok b R;
  rd_procs : procs_inv h (num_reqs b) (cur b R) (logitsprocs b);
  rd_metadata : metadata_ok f32 b R (sampling_metadata b);
}.

(** Nothing recorded, nothing changed. *)
Lemma quiet u : ¬ touched u → _removed u = [] ∧ added u = [] ∧ moved u = [].
Proof. unfold touched. destruct u as [[|? ?] [|? ?] [|? ?]]; cbn; intros H; [done|exfalso; apply H; by intros (? & ? & ?)..]. Qed.

Lemma pending_quiet u s : ¬ touched u → sl_eq (apply_update (λ a, Some (slot_of a)) s (pending u)) s.
Proof. intros (E1 & E2 & E3)%quiet. unfold apply_update, pending. cbn [bu_removed bu_added bu_moved]. by rewrite E1, E2, E3. Qed.

Lemma ready_adding h b R : ready h b R → adding b ∧ tracks b R (cur b R).
Proof.
  intros [Hi Hd [Hq _] _ _ _ _]. split; [|by apply pending_quiet]. pose proof (de_len _ _ Hd) as Hl. pose proof (de_taken _ _ Hd) as Ht.
  destruct (quiet _ Hq) as (E1 & _ & E2). split; [done|rewrite E1; constructor|]. intros i. rewrite E1. split; [by intros ?%elem_of_nil|]. intros E.
  pose proof (lookup_lt_Some _ _ _ E) as Hlt. rewrite Hl in Hlt. destruct (Ht i Hlt) as [id Ei]. congruence.
Qed.

(** ** The loops *)

Definition removes b (ids : list string) : result InputBatch := mfold (λ b id, r ← remove_request b id; Ok r.2) b ids.
Definition adds h b (rs : list CachedRequestState) : result InputBatch := mfold (λ b r, x ← add_request f32 h b r; Ok x.2) b rs.
Definition swaps b (l : list (nat * nat)) : result InputBatch := mfold (λ b ij, swap_states b ij.1 ij.2) b l.

(** The requests after removals and additions. *)
Definition without R (ids : list string) : gmap string CachedRequestState := foldl (λ R id, delete id R) R ids.
Definition with_added R (rs : list CachedRequestState) : gmap string CachedRequestState := foldl (λ R r, <[cr_req_id r := r]> R) R rs.

Lemma without_Some ids R id r : without R ids !! id = Some r ↔ R !! id = Some r ∧ id ∉ ids.
Proof.
  revert R. induction ids as [|x ids IH]; intros R; cbn; [set_solver|]. unfold without in IH. rewrite IH, lookup_delete_Some, not_elem_of_cons. naive_solver.
Qed.

Lemma removes_ok ids b R s : batch_inv N W b R → adding b → tracks b R s → _is_removed_sorted (batch_update_builder b) = false →
  ∃ b', removes b ids = Ok b' ∧ batch_inv N W b' (without R ids) ∧ adding b' ∧ tracks b' (without R ids) s ∧
    frame b b' ∧ same_tables b b' ∧ (∀ id, is_Some (without R ids !! id) → kept b b' id) ∧
    (¬ touched (batch_update_builder b') → b' = b ∧ without R ids = R).
Proof.
  revert b R. induction ids as [|id ids IH]; intros b R H Had Ht Hs; unfold removes; cbn [mfold].
  - exists b. split_and!; [done..|apply frame_refl|apply mg_shape_refl| |done]. intros id Hid. by eapply kept_refl.
  - destruct (R !! id) as [r|] eqn:Hr.
    + destruct (remove_ok N W b R id r s H Had Ht Hs Hr) as (i & b1 & E1 & H1 & Had1 & Ht1 & Hs1 & Hsh1 & Hk1). rewrite E1. cbn [mbind result_bind snd].
      apply remove_frame in E1 as (Hf1 & Hto & _); [|apply (bi_generates _ _ _ _ H)].
      destruct (IH b1 (delete id R) H1 Had1 Ht1 Hs1) as (b2 & E2 & H2 & Had2 & Ht2 & Hf2 & Hsh2 & Hk2 & Hq2). exists b2.
      split_and!; [done..|by eapply frame_trans|by eapply mg_shape_trans| |].
      * intros id' Hid'. eapply kept_trans; [|by apply Hk2]. destruct Hid' as [r' Hr']. unfold without in Hr'. cbn in Hr'. apply without_Some in Hr' as [Hr' _].
        apply lookup_delete_Some in Hr' as [Hne Hr']. apply Hk1; [done|by eexists].
      * intros Hq. destruct Hq. apply (fr_touched _ _ Hf2), Hto. by eexists.
    + rewrite (remove_absent N W b R id H Hr). cbn [mbind result_bind snd]. unfold without. cbn. rewrite (delete_id R id) by done. by apply IH.
Qed.

(** Requests that can be added one after the other. *)
Record addable h b R (rs : list CachedRequestState) : Prop := mkAddable {
  aa_ids : NoDup (cr_req_id <$> rs);
  aa_new : Forall (λ r, R !! cr_req_id r = None) rs;
  aa_ok : Forall (λ r, request_ok W h (block_table (rows b)) r ∧ ∃ sp, cr_sampling_params r = Some sp ∧ allowed_ok (vocab_size (conf b)) sp) rs;
  aa_room : (size R + length rs ≤ N)%nat;
}.

(** The row and the parameters of a request as it was given. *)
Definition as_given h b (r : CachedRequestState) : Prop :=
  ∃ i sp, req_id_to_index b !! cr_req_id r = Some i ∧ cr_sampling_params r = Some sp ∧ row_fresh h r (rows b) i ∧
    samp_view (samp b) i = samp_fresh f32 (conf b) r sp ∧ ∀ e, cr_prompt_embeds r = Some e → req_prompt_embeds (rows b) !! i = Some e.

Lemma row_fresh_view h r d d' i i' : mg_shape (block_table d) (block_table d') → row_view d' i' = row_view d i → row_fresh h r d i → row_fresh h r d' i'.
Proof.
  unfold row_view, row_fresh. intros Hsh [= E1 E2 E3 E4 E5 E6 E7 E8] (F1 & F2 & F3 & F4 & F5 & F6 & F7 & F8).
  assert (Ha : active d i = num_tokens h r) by (unfold active; rewrite F1, F2; cbn; lia).
  assert (Ha' : active d' i' = num_tokens h r) by (unfold active; rewrite E1, E2, F1, F2; cbn; lia).
  rewrite Ha, Ha' in E7, E8. rewrite E1, E2, E3, E4, E5, E6, E7, E8, (mg_want_shape _ _ _ Hsh). done.
Qed.

Lemma as_given_kept h b b' r : conf b' = conf b → same_tables b b' → kept b b' (cr_req_id r) → as_given h b r → as_given h b' r.
Proof.
  intros Hc Hsh (i & i' & Hi & Hi' & Ev & Es & Ee) (j & sp & Hj & Hsp & Hf & Hs & He). rewrite Hi in Hj. injection Hj as <-. exists i', sp. rewrite Hc, Es.
  split_and!; [done|done|by eapply row_fresh_view|done|]. intros e Hep. by apply Ee, He.
Qed.

Lemma adds_ok h rs b R s : batch_inv N W b R → adding b → tracks b R s → holds f32 b R → buffers_ok b R → addable h b R rs →
  ∃ b', adds h b rs = Ok b' ∧ batch_inv N W b' (with_added R rs) ∧ adding b' ∧ tracks b' (with_added R rs) s ∧
    holds f32 b' (with_added R rs) ∧ buffers_ok b' (with_added R rs) ∧
    conf b' = conf b ∧ logitsprocs b' = logitsprocs b ∧ sampling_metadata b' = sampling_metadata b ∧
    same_tables b b' ∧ (∀ id, is_Some (R !! id) → kept b b' id) ∧ Forall (as_given h b') rs ∧
    (touched (batch_update_builder b) → touched (batch_update_builder b')) ∧ (rs ≠ [] → touched (batch_update_builder b')).
Proof.
  revert b R. induction rs as [|r rs IH]; intros b R H Had Ht Hh Hb [A1 A2 A3 A4]; unfold adds; cbn [mfold].
  - exists b. split_and!; [done..|apply mg_shape_refl| |constructor|done|done]. intros id Hid. by eapply kept_refl.
  - cbn [fmap list_fmap] in A1. apply NoDup_cons in A1 as [Hni A1]. apply Forall_cons in A2 as [Hid A2]. apply Forall_cons in A3 as [(Hok & sp & Hsp & Hal) A3]. cbn in A4.
    destruct (add_ok f32 N W h b R r sp s H Had Ht Hid Hsp Hok Hal) as (i & b1 & E1 & H1 & Had1 & Ht1 & Hsh1 & Hc1 & Hk1 & Hi1 & Hf1 & Hs1 & He1); [lia|].
    rewrite E1. cbn [mbind result_bind snd]. pose proof (add_grown f32 h b r sp i b1 E1 Hsp) as Hg.
    assert (Hh1 : holds f32 b1 (<[cr_req_id r := r]> R)).
    { intros id' r' sp' i' Hr' Hsp' Hi'. apply lookup_insert_Some in Hr' as [[<- <-]|[Hne Hr']].
      - rewrite Hi1 in Hi'. injection Hi' as <-. rewrite Hsp in Hsp'. injection Hsp' as <-. apply (holds_fresh f32 h); [done|]. by rewrite Hc1.
      - apply (holds_kept f32 b b1 R R Hh Hc1) with (id := id'); [|done..]. intros x rx Hx. split; [done|]. apply Hk1. by eexists. }
    destruct (IH b1 (<[cr_req_id r := r]> R) H1 Had1 Ht1 Hh1) as (b2 & E2 & H2 & Had2 & Ht2 & Hh2 & Hb2 & Hc2 & Hp2 & Hm2 & Hsh2 & Hk2 & Hgi2 & Hto2 & Hne2).
    { by eapply buffers_grown. }
    { split; [done| | |rewrite map_size_insert_None by done; lia].
      - apply Forall_forall. intros r' Hr'. rewrite lookup_insert_ne; [by apply (proj1 (Forall_forall _ _) A2)|]. intros E. apply Hni. rewrite E. by apply list_elem_of_fmap_2.
      - eapply Forall_impl; [exact A3|]. intros r' ([] & sp' & ? & ?). rewrite Hc1. split; [|by exists sp']. split; try done. by eapply mg_fits_shape. }
    exists b2. split_and!; [done|done|done|done|done|done|congruence|by rewrite Hp2, (gr_procs _ _ _ Hg)|by rewrite Hm2, (gr_metadata _ _ _ Hg)|by eapply mg_shape_trans| | | |].
    + intros id' Hid'. eapply kept_trans; [by apply Hk1|]. apply Hk2. destruct (decide (id' = cr_req_id r)) as [->|Hne]; [rewrite lookup_insert_eq; by eexists|].
      by rewrite lookup_insert_ne.
    + constructor; [|done]. apply (as_given_kept h b1); [done|done|apply Hk2; rewrite lookup_insert_eq; by eexists|]. exists i, sp. rewrite Hc1. done.
    + intros _. apply Hto2, (gr_touched _ _ _ Hg).
    + intros _. apply Hto2, (gr_touched _ _ _ Hg).
Qed.

Lemma swaps_ok l b R s : batch_inv N W b R → tracks b R s → dense N b →
  Forall (λ ij : nat * nat, ij.1 ≠ ij.2 ∧ (ij.1 < num_reqs b)%nat ∧ (ij.2 < num_reqs b)%nat) l →
  ∃ b', swaps b l = Ok b' ∧ batch_inv N W b' R ∧ tracks b' R s ∧ dense N b' ∧ frame b b' ∧ same_tables b b' ∧
    (∀ id, is_Some (R !! id) → kept b b' id) ∧ (l ≠ [] → touched (batch_update_builder b')).
Proof.
  revert b. induction l as [|[i1 i2] l IH]; intros b H Ht Hd Hl; unfold swaps; cbn [mfold].
  - exists b. split_and!; [done..|apply frame_refl|apply mg_shape_refl| |done]. intros id Hid. by eapply kept_refl.
  - apply Forall_cons in Hl as [(Hne & Hi1 & Hi2) Hl]. cbn [fst snd] in *.
    destruct (swap_ok N W b R s i1 i2 H Ht Hd Hne Hi1 Hi2) as (b1 & E1 & H1 & Ht1 & Hd1 & Hsh1 & _ & _ & Hk1). rewrite E1. cbn [mbind result_bind].
    apply swap_frame in E1 as [Hf1 Hto1]; [|apply (bi_generates _ _ _ _ H)].
    assert (Hn : num_reqs b1 = num_reqs b) by (by rewrite (num_reqs_size _ _ _ _ H1), (num_reqs_size _ _ _ _ H)).
    destruct (IH b1 H1 Ht1 Hd1) as (b2 & E2 & H2 & Ht2 & Hd2 & Hf2 & Hsh2 & Hk2 & _); [by rewrite Hn|]. exists b2.
    split_and!; [done..|by eapply frame_trans|by eapply mg_shape_trans| |].
    + intros id Hid. eapply kept_trans; [by apply Hk1|by apply Hk2].
    + intros _. by apply (fr_touched _ _ Hf2).
Qed.

(** ** Refreshing *)

(** Where everything is, and what it is. *)
Definition same_data b b' : Prop :=
  conf b' = conf b ∧ req_id_to_index b' = req_id_to_index b ∧ _req_ids b' = _req_ids b ∧ rows b' = rows b ∧ samp b' = samp b.

Lemma ready_refreshed h b R s u d ps md : batch_inv N W b R → dense N b → holds f32 b R → buffers_ok b R → sl_eq s (cur b R) →
  ¬ touched u → _is_removed_sorted u = false → procs_inv h (num_reqs b) s ps → metadata_ok f32 b R md →
  (is_Some (dv_allowed_token_ids_mask (dev b)) → is_Some (dv_allowed_token_ids_mask d)) →
  let b' := set_metadata (set_builder b u) d ps md in ready h b' R ∧ same_data b b'.
Proof.
  intros [] [] Hh [B1 B2 B3] Hs Hu Hso [Hp1 Hp2] [] Hd b'. split; [|done]. destruct (quiet u Hu) as (E1 & E2 & E3). split; unfold b', set_metadata; batch_simpl.
  - split; cbn; try done. + intros E. congruence. + rewrite E2. constructor.
  - split; cbn; [done|done|rewrite E1; by intros i ?%elem_of_nil|rewrite E3; constructor].
  - done.
  - done.
  - split; cbn; [intros Hm; by apply Hd, B1|done|done].
  - split; [eapply Forall_impl; [exact Hp1|]|eapply Forall_impl; [exact Hp2|]]; intros p Hp; by eapply proc_inv_proper.
  - by split.
Qed.

Lemma refresh_ok h h' b R s size0 : batch_inv N W b R → tracks b R s → dense N b → holds f32 b R → buffers_ok b R →
  procs_inv h size0 s (logitsprocs b) → mt_grow h h' s →
  (¬ touched (batch_update_builder b) → metadata_ok f32 b R (sampling_metadata b) ∧ size0 = num_reqs b) →
  ∃ b', refresh_metadata f32 h' b = Ok b' ∧ ready h' b' R ∧ same_data b b'.
Proof.
  intros H Ht Hd Hh Hb Hp Hg Hq. unfold refresh_metadata. rewrite (bi_generates _ _ _ _ H). set (u := batch_update_builder b) in *.
  assert (Hcase : (¬ touched u ∧ get_and_reset u (num_reqs b) = (None, mkBuilder [] [] [] false false)) ∨
    get_and_reset u (num_reqs b) = (Some (mkUpdate (num_reqs b) (_removed u) (added u) (moved u)), new_builder)).
  { unfold get_and_reset, touched. destruct u as [[|? ?] [|? ?] [|? ?] so ch]; cbn; [left; tauto|by right..]. }
  destruct Hcase as [[Hnt ->]| ->].
  - destruct (Hq Hnt) as [Hmd ->]. destruct (update_procs_ok h h' _ (num_reqs b) s s None (logitsprocs b) Hp) as (ps & E & Hps).
    { intros p Hpi. by eapply update_state_None. }
    cbn [set_builder logitsprocs]. rewrite E. cbn [mbind result_bind]. eexists. split; [done|].
    apply (ready_refreshed h' b R s); try done; [|by intros []]. etransitivity; [symmetry; exact (pending_quiet u s Hnt)|exact Ht].
  - destruct (update_procs_ok h h' size0 (num_reqs b) s (cur b R) (Some (mkUpdate (num_reqs b) (_removed u) (added u) (moved u))) (logitsprocs b) Hp) as (ps & E & Hps).
    { intros p Hpi. destruct (update_state_ok h h' size0 s (mkUpdate (num_reqs b) (_removed u) (added u) (moved u)) p Hpi) as (p' & Ep & Hp'); [|done|].
      - split; cbn; [rewrite <-(de_len _ _ Hd); apply (bi_len _ _ _ _ H)|apply Forall_forall, (de_removed _ _ Hd)|apply (bi_added _ _ _ _ H)|apply (de_moved _ _ Hd)].
      - exists p'. split; [done|]. eapply proc_inv_proper; [exact Ht|exact Hp']. }
    cbn [set_builder logitsprocs]. rewrite E. cbn [mbind result_bind].
    destruct (make_metadata_ok f32 N W b R H Hd Hh Hb) as (d & md & E2 & Hmd & Hdv).
    change (_make_sampling_metadata (set_builder b new_builder)) with (_make_sampling_metadata b). rewrite E2. cbn [mbind result_bind].
    eexists. split; [done|]. apply (ready_refreshed h' b R (cur b R)); try done. by intros [].
Qed.

(** ** The first batch *)

Lemma new_tables_ok cp maxlen maxtok bs kbs blocks inter ts : new_multi_group cp N maxlen maxtok bs kbs blocks inter = Ok ts → mg_ok N ts.
Proof.
  unfold new_multi_group. destruct (negb _); [done|]. destruct (negb _); [done|]. destruct (existsb _ _); [done|]. generalize (zip3 bs kbs (zip_with (λ n bs, if bs <=? 128 then cdiv n (128 / bs) * (128 / bs) else n)
    (match blocks with Some l => l | None => (λ bs, cdiv maxlen (bs * (cp_pcp_size cp * cp_dcp_size cp))) <$> bs end) bs)). intros l.
  revert ts. induction l as [|[[x y] z] l IH]; intros ts H; cbn in H; [injection H as <-; constructor|].
  bind_inv H as t Et. bind_inv H as ts' Ets. injection H as <-. constructor; [|by apply IH].
  unfold new_block_table in Et. bind_inv Et as [[size per] hy] E. injection Et as <-. split; cbn; rewrite ?length_replicate; [done..| |].
  - apply Forall_replicate. by rewrite length_replicate.
  - apply Forall_replicate. lia.
Qed.

Lemma nz_zeros n : nz (replicate n 0%Q) = 0.
Proof. induction n as [|n IH]; [done|]. cbn [replicate]. by rewrite nz_cons, IH. Qed.

Lemma built_procs_ok h double empty speculative s : (∀ i, s i = None) → procs_inv h 0 s (build_logitsprocs N double empty speculative false).
Proof.
  intros Hs. assert (Ht : ∀ {A} (f : slot → option A), dict_tracks [] (sl_map f s)).
  { intros A f. split; [constructor|]. intros i. unfold sl_map. by rewrite Hs. }
  assert (Hm : proc_inv h 0 s (ProcMinTokens (mkMinTokens [] [] []))) by (by split).
  assert (Hl : proc_inv h 0 s (ProcLogitBias (mkLogitBias [] [] [] []))) by (split; try done; constructor).
  assert (Hp : proc_inv h 0 s (ProcMinP (minp_init N double empty))).
  { split; [|by intros ?]. split; cbn [minp_init min_p_count min_p_cpu]; [by rewrite nz_zeros|apply length_replicate| |by intros i _].
    intros i x Hx. apply lookup_replicate in Hx as [-> _]. unfold minp_at. by rewrite Hs. }
  unfold build_logitsprocs. destruct speculative; split; cbn; repeat case_decide; try done; repeat first [apply Forall_nil_2|apply Forall_cons_2]; done.
Qed.

(** Buffers of the right length. *)
Definition buffers_sized (d : device_data) : Prop :=
  length (dv_temperature d) = N ∧ length (dv_top_p d) = N ∧ length (dv_top_k d) = N ∧ length (dv_frequency_penalties d) = N ∧
  length (dv_presence_penalties d) = N ∧ length (dv_repetition_penalties d) = N.

Lemma fresh_batch_ready h cp c maxtok bs kbs blocks inter double empty speculative host device b :
  max_num_reqs c = N → 0 ≤ vocab_size c → is_pooling_model c = false → buffers_sized host →
  init_batch cp c W maxtok bs kbs blocks inter (build_logitsprocs N double empty speculative false) host device = Ok b → ready h b ∅.
Proof.
  intros HN HV Hg (L1 & L2 & L3 & L4 & L5 & L6) H. unfold init_batch in H. bind_inv H as ts Ets. rewrite HN in Ets. apply new_tables_ok in Ets. cbn zeta in H.
  set (procs := build_logitsprocs N double empty speculative false) in *. set (b0 := empty_batch c W ts procs host device no_metadata) in *.
  assert (Hi : batch_inv N W b0 ∅).
  { split; cbn; try done; try lia; rewrite ?HN.
    - split; cbn; rewrite ?HN, ?length_replicate; try done; apply Forall_replicate; by rewrite length_replicate.
    - split; cbn; rewrite ?HN, ?length_replicate; done.
    - intros id. rewrite !lookup_empty. by split; intros [].
    - intros i _. split; [|done]. destruct (replicate N [] !! i) eqn:E; [|done]. by apply lookup_replicate in E as [-> _].
    - split; cbn; try (intros id; rewrite lookup_empty; set_solver); intros id; by rewrite lookup_empty.
    - split; cbn; [intros lid ids; by rewrite lookup_empty|intros id r lid; by rewrite lookup_empty|intros lid; rewrite !lookup_empty; by split; intros []]. }
  assert (Hd : dense N b0) by (split; cbn; [done|intros i Hi'; unfold num_reqs in Hi'; cbn in Hi'; rewrite map_size_empty in Hi'; lia|by intros i ?%elem_of_nil|constructor]).
  assert (Hh : holds f32 b0 ∅) by (intros id r sp i Hr; by rewrite lookup_empty in Hr).
  assert (Hb : buffers_ok b0 ∅) by (split; cbn; [by intros []|intros id r sp Hr; by rewrite lookup_empty in Hr|by apply Forall_replicate]).
  destruct (make_metadata_ok f32 N W b0 ∅ Hi Hd Hh Hb) as (d & md & E & Hmd & Hdv). rewrite E in H. injection H as <-.
  apply (ready_refreshed h b0 ∅ (cur b0 ∅) new_builder d procs md); try done; [by intros []|]. by apply built_procs_ok.
Qed.

(** ** The step *)

Definition batch_step h b (ids : list string) (rs : list CachedRequestState) (l : list (nat * nat)) : result InputBatch :=
  b ← removes b ids;
  b ← adds h b rs;
  b ← condense b;
  b ← swaps b l;
  refresh_metadata f32 h b.

(** No output list gets shorter. *)
Definition outputs_grow h h' R : Prop := ∀ id r, R !! id = Some r →
  (length (deref h (cr_output_token_ids r)) ≤ length (deref h' (cr_output_token_ids r)))%nat.

Lemma outputs_grow_mt h h' b R : outputs_grow h h' R → mt_grow h h' (cur b R).
Proof.
  intros Hg i [[sp pr] o] Hs. unfold cur in Hs. destruct (_req_ids b !! i) as [[id|]|]; [|done..]. destruct (R !! id) as [r|] eqn:Hr; [|done].
  cbn in Hs. unfold req_slot in Hs. destruct (cr_sampling_params r); [|done]. cbn in Hs. injection Hs as -> <- <-. specialize (Hg id r Hr).
  unfold mt_want, mt_add_request. destruct (_ =? 0); [done|]. cbn [orb]. unfold zlen. case_match eqn:E1; [|done]. intros _. rewrite (proj2 (Z.leb_le _ _)); [done|].
  apply Z.leb_le in E1. lia.
Qed.

(** Carrying a batch over operations that keep everything. *)
Lemma carried b b' R : frame b b' → (∀ id, is_Some (R !! id) → kept b b' id) → holds f32 b R → buffers_ok b R → holds f32 b' R ∧ buffers_ok b' R.
Proof.
  intros Hf Hk Hh Hb. split; [|by eapply buffers_frame]. apply (holds_kept f32 b b' R R Hh (fr_conf _ _ Hf)). intros id r Hr. split; [done|]. apply Hk. by eexists.
Qed.

Lemma same_data_kept b b' R id : batch_inv N W b R → same_data b b' → is_Some (R !! id) → kept b b' id.
Proof.
  intros H (_ & E1 & _ & E3 & E4) Hid. destruct (kept_refl N W b R id H Hid) as (i & i' & Hi). exists i, i'. by rewrite E1, E3, E4.
Qed.

(** Without holes, condensing changes nothing. *)
Lemma condense_quiet b : _removed (batch_update_builder b) = [] → condense b = Ok (set_builder b (_ensure_removed_sorted (batch_update_builder b))).
Proof.
  intros E. unfold condense, removed. assert (E' : _removed (_ensure_removed_sorted (batch_update_builder b)) = []).
  { unfold _ensure_removed_sorted. destruct (_is_removed_sorted _); [done|]. cbn. by rewrite E. }
  by rewrite E'.
Qed.

(** A step that records nothing leaves the slots alone. *)
Lemma step_quiet b b1 b2 b3 b4 R ids rs l : removes b ids = Ok b1 → (¬ touched (batch_update_builder b1) → b1 = b ∧ without R ids = R) →
  (rs = [] → b2 = b1) → (rs ≠ [] → touched (batch_update_builder b2)) → (touched (batch_update_builder b1) → touched (batch_update_builder b2)) →
  condense b2 = Ok b3 → frame b2 b3 → swaps b3 l = Ok b4 → frame b3 b4 → (l ≠ [] → touched (batch_update_builder b4)) →
  ¬ touched (batch_update_builder b4) → _req_ids b4 = _req_ids b ∧ num_reqs b4 = num_reqs b ∧ with_added (without R ids) rs = R.
Proof.
  intros E1 Q1 Ers Trs T12 E3 F3 E4 F4 Tl Hq. destruct l as [|ij l]; [|by destruct Hq; apply Tl]. injection E4 as <-.
  assert (Hq2 : ¬ touched (batch_update_builder b2)) by (intros ?; by apply Hq, (fr_touched _ _ F3)).
  destruct rs as [|r rs]; [|by destruct Hq2; apply Trs]. rewrite Ers in * by done. destruct (Q1 Hq2) as [-> ->].
  rewrite condense_quiet in E3 by apply (quiet _ Hq2). by injection E3 as <-.
Qed.

(** C8: A step of the persistent batch of a generating model, whatever requests leave and
    join and however the rest is reordered, always returns, provided no output list got
    shorter since the last step and the requests that join are new and fit in the batch.  The batch then holds exactly the requests that stayed or
    joined, on adjacent indices; the tokens, counts, blocks, adapters and sampling
    parameters of a request that stayed are what they were, wherever it was moved, and
    those of a new one as given; every logits processor has for each index the state of
    the request that is there now; and the sampling metadata give each index the
    parameters of its request, so that the same holds for the next step.  The rows of the
    allowed-token mask are not part of the claim: swapping and condensing get them wrong
    ([swap_loses_mask], [condense_leaves_mask]). *)
Theorem batch_step_exact h0 h b R ids rs l : ready h0 b R → outputs_grow h0 h R → addable h b (without R ids) rs →
  let R' := with_added (without R ids) rs in
  Forall (λ ij : nat * nat, ij.1 ≠ ij.2 ∧ (ij.1 < size R')%nat ∧ (ij.2 < size R')%nat) l →
  ∃ b', batch_step h b ids rs l = Ok b' ∧ ready h b' R' ∧ (∀ id, is_Some (without R ids !! id) → kept b b' id) ∧ Forall (as_given h b') rs.
Proof.
  intros Hr Hgrow Hadd R' Hl. destruct (ready_adding h0 b R Hr) as [Had Ht]. destruct Hr as [H Hd [Hq Hso] Hh Hb Hp Hmd].
  destruct (removes_ok ids b R (cur b R) H Had Ht Hso) as (b1 & E1 & H1 & Had1 & Ht1 & F1 & S1 & K1 & Q1).
  assert (Hsub : ∀ id r, without R ids !! id = Some r → R !! id = Some r) by (intros id r Hid; by apply without_Some in Hid as [? _]).
  assert (Hh1 : holds f32 b1 (without R ids)).
  { apply (holds_kept f32 b b1 R); [done|apply (fr_conf _ _ F1)|]. intros id r Hid. split; [by apply Hsub|]. apply K1. by eexists. }
  assert (Hb1 : buffers_ok b1 (without R ids)) by (by eapply buffers_frame).
  destruct (adds_ok h rs b1 (without R ids) (cur b R) H1 Had1 Ht1 Hh1 Hb1) as
    (b2 & E2 & H2 & Had2 & Ht2 & Hh2 & Hb2 & C2 & P2 & M2 & S2 & K2 & G2 & T2 & T2').
  { destruct Hadd as [A1 A2 A3 A4]. split; [done..| |done]. eapply Forall_impl; [exact A3|]. intros r ([] & sp & ? & ?). rewrite (fr_conf _ _ F1).
    split; [|by exists sp]. split; try done. by eapply mg_fits_shape. }
  fold R' in H2, Ht2, Hh2, Hb2. destruct (condense_ok N W b2 R' (cur b R) H2 Had2 Ht2) as (b3 & E3 & H3 & Ht3 & Hd3 & S3 & K3).
  pose proof (condense_frame _ _ E3 (bi_generates _ _ _ _ H2)) as F3. destruct (carried b2 b3 R' F3 K3 Hh2 Hb2) as [Hh3 Hb3].
  destruct (swaps_ok l b3 R' (cur b R) H3 Ht3 Hd3) as (b4 & E4 & H4 & Ht4 & Hd4 & F4 & S4 & K4 & T4); [by rewrite (num_reqs_size _ _ _ _ H3)|].
  destruct (carried b3 b4 R' F4 K4 Hh3 Hb3) as [Hh4 Hb4].
  assert (Ep : logitsprocs b4 = logitsprocs b) by (by rewrite (fr_procs _ _ F4), (fr_procs _ _ F3), P2, (fr_procs _ _ F1)).
  assert (Em : sampling_metadata b4 = sampling_metadata b) by (by rewrite (fr_metadata _ _ F4), (fr_metadata _ _ F3), M2, (fr_metadata _ _ F1)).
  assert (Ec : conf b4 = conf b) by (by rewrite (fr_conf _ _ F4), (fr_conf _ _ F3), C2, (fr_conf _ _ F1)).
  destruct (refresh_ok h0 h b4 R' (cur b R) (num_reqs b) H4 Ht4 Hd4 Hh4 Hb4) as (b5 & E5 & Hr5 & D5).
  { by rewrite Ep. }
  { by apply outputs_grow_mt. }
  { intros Hq4. destruct (step_quiet b b1 b2 b3 b4 R ids rs l) as (Ei & En & ER); try done; [by intros ->; injection E2 as <-|].
    fold R' in ER. rewrite ER, Em, En. destruct Hmd. split; [|done]. split; [done..|]. by rewrite Ei, Ec. }
  exists b5. split; [unfold batch_step; rewrite E1; cbn [mbind result_bind]; rewrite E2; cbn [mbind result_bind]; rewrite E3; cbn [mbind result_bind]; by rewrite E4|].
  assert (K25 : ∀ id, is_Some (R' !! id) → kept b2 b5 id).
  { intros id Hid. eapply kept_trans; [by apply K3|]. eapply kept_trans; [by apply K4|]. by eapply same_data_kept. }
  assert (HR' : ∀ id, is_Some (req_id_to_index b2 !! id) → is_Some (R' !! id)) by (intros id; apply (bi_dom _ _ _ _ H2)).
  split_and!; [done| |].
  - intros id Hid. eapply kept_trans; [by apply K1|]. eapply kept_trans; [by apply K2|]. apply K25, HR'. destruct (K2 id Hid) as (i & i' & _ & Hi' & _). by eexists.
  - eapply Forall_impl; [exact G2|]. intros r Hg. apply (as_given_kept h b2); [| | |done].
    + destruct D5 as [-> _]. by rewrite (fr_conf _ _ F4), (fr_conf _ _ F3).
    + eapply mg_shape_trans; [exact S3|]. destruct D5 as (_ & _ & _ & E & _). unfold same_tables. rewrite E. exact S4.
    + apply K25, HR'. destruct Hg as (i & sp & Hi & _). by eexists.
Qed.
End step.

(** ** An example *)

Definition ex_params (t : Q) (k : Z) : SamplingParams := mkSP t None 1 k (1 # 10) 0 (1 # 2) 1 2 [3] (Some [(5, 1%Q)]) None None None None.
Definition ex_request (id : string) (prompt : list Z) (block : Z) (computed : Z) (out : loc) (sp : SamplingParams) : CachedRequestState :=
  mkCached id (Some prompt) (Some sp) None [[block]] computed out None None None 0 None None (length prompt).

Definition ex_conf : batch_conf := mkConf 2 10 false false.
Definition ex_buffers : device_data := mkDevice [0; 0]%Q [0; 0]%Q [0; 0] [0; 0]%Q [0; 0]%Q [0; 0]%Q None.
Definition ex_batch : result InputBatch :=
  init_batch (mkCp 1 0 1 0) ex_conf 8 16 [4] [4] None 1 (build_logitsprocs 2 true [0; 0]%Q false false) ex_buffers ex_buffers.

Definition ex_r1 := ex_request "a" [1; 2; 3] 7 0 1%positive (ex_params 0 (-1)).
Definition ex_r2 := ex_request "b" [4; 5] 9 2 2%positive (ex_params 1 5).

(** A rounding that takes small numbers to zero. *)
Definition ex_f32 (x : Q) : Q := if Qle_bool x (1 # 2 ^ 150) then 0 else x.

Lemma ex_f32_zero x : (x == 0)%Q → (ex_f32 x == 0)%Q.
Proof. intros H. unfold ex_f32. rewrite H. done. Qed.

Lemma ex_ready b : ex_batch = Ok b → ready ex_f32 2%nat 8%nat ∅ b ∅.
Proof. intros E. eapply (fresh_batch_ready ex_f32 ex_f32_zero 2%nat 8%nat); [| | | |exact E]; done. Qed.

Lemma ex_addable b : ex_batch = Ok b → addable 2%nat 8%nat ∅ b ∅ [ex_r1; ex_r2].
Proof.
  intros E. assert (Hbt : block_table (rows b) = match ex_batch with Ok b => block_table (rows b) | _ => [] end) by (by rewrite E).
  assert (Hc : conf b = match ex_batch with Ok b => conf b | _ => ex_conf end) by (by rewrite E).
  split; cbn [fmap list_fmap]; [apply (bool_decide_unpack _); by vm_compute|by repeat constructor| |by vm_compute; lia].
  rewrite Hbt, Hc. repeat apply Forall_cons_2; [| |apply Forall_nil_2]; (split; [split; [done|vm_compute; lia|done| |done]|eexists; split; [done|]; by intros l]);
    unfold mg_fits; apply (bool_decide_unpack _); by vm_compute.
Qed.

(** Two requests join an empty batch and change places. *)
Lemma batch_step_exact_witness : ∃ b b', ex_batch = Ok b ∧ batch_step ex_f32 ∅ b [] [ex_r1; ex_r2] [(0%nat, 1%nat)] = Ok b' ∧
  ready ex_f32 2%nat 8%nat ∅ b' (with_added ∅ [ex_r1; ex_r2]) ∧ _req_ids b' = [Some "b"; Some "a"]%string ∧ md_top_k (sampling_metadata b') = Some [5; 10].
Proof.
  assert (Hcomp : (b ← ex_batch; b' ← batch_step ex_f32 ∅ b [] [ex_r1; ex_r2] [(0%nat, 1%nat)];
    Ok (_req_ids b', md_top_k (sampling_metadata b'))) = Ok ([Some "b"; Some "a"]%string, Some [5; 10])) by (by vm_compute).
  destruct ex_batch as [b|] eqn:E; [|done]. cbn [mbind result_bind] in Hcomp.
  destruct (batch_step_exact ex_f32 ex_f32_zero 2%nat 8%nat ∅ ∅ b ∅ [] [ex_r1; ex_r2] [(0%nat, 1%nat)] (ex_ready b E)) as (b' & E' & Hr & _).
  - intros id r Hr. by rewrite lookup_empty in Hr.
  - by apply ex_addable.
  - apply Forall_cons_2; [|apply Forall_nil_2]. by vm_compute; split_and!; lia.
  - exists b, b'. rewrite E' in Hcomp. cbn [mbind result_bind] in Hcomp. by injection Hcomp.
Defined.
