(* ===== verification/InputReorder.v ===== *)
(** * Reordering the batch for the attention backend
    [reorder_batch_to_split_decodes_and_prefills] of [attention/backends/utils.py]: the
    requests of the batch are put in the order decode, short extend, long extend,
    prefill, by swapping only those that sit in a region they do not belong to, along
    the cycles of the permutation.  Chasing the cycles ends, brings every request that
    was out of place to its target index, and leaves the batch sorted by region. *)

From Stdlib Require Import QArith Sorted.
From stdpp Require Import sorting.
From S2P Require Import Prelude OrderedDict BlockTable BlockTableFacts BatchUpdate BatchUpdateFacts LogitsFacts MinPFacts InputBatch InputBatchRows InputBatchFacts InputBatchOps InputBatchCondense InputBatchMetadata InputBatchFrames InputBatchStep.

#[local] Open Scope Z_scope.


(** The region of a request; later assignments to the array win. *)
Definition req_region (decode_threshold num_scheduled num_computed : Z) (num_prompt : nat) : nat :=
  let has_context := 0 <? num_computed in
  let is_below_threshold := num_scheduled <=? decode_threshold in
  let done_prefilling := Z.of_nat num_prompt <=? num_computed in
  let is_pure_prefill := negb has_context in
  let is_long_extend := has_context && negb is_below_threshold in
  let is_short_extend := has_context && is_below_threshold && negb done_prefilling in
  if is_pure_prefill then 3 else if is_long_extend then 2 else if is_short_extend then 1 else 0.

Definition req_regions (b : InputBatch) (num_scheduled_tokens : gmap string Z) (decode_threshold : Z) : result (list nat) :=
  scheduled ← mmap (λ id : option string,
    match id ≫= λ id, num_scheduled_tokens !! id with Some n => Ok n | None => Raise KeyError end) (_req_ids b);
  let n := length (_req_ids b) in
  let computed := take n (num_computed_tokens_cpu (rows b)) in
  let prompts := take n (num_prompt_tokens (rows b)) in
  if (length computed =? n)%nat && (length prompts =? n)%nat then
    Ok ((λ '(s, c, p), req_region decode_threshold s c p) <$> zip3 scheduled computed prompts)
  else Raise ValueError.

Definition count_region (k : nat) (l : list nat) : nat := length (filter (λ x, x = k) l).

(** [np.repeat([0, 1, 2, 3], counts)] *)
Definition target_regions (l : list nat) : list nat :=
  replicate (count_region 0 l) 0%nat ++ replicate (count_region 1 l) 1%nat ++ replicate (count_region 2 l) 2%nat ++ replicate (count_region 3 l) 3%nat.

(** [np.where(a != b)[0]] *)
Definition where_differ (a b : list nat) : list nat := filter (λ i, a !! i ≠ b !! i) (seq 0 (length a)).

(** [np.argsort(keys, kind="stable")] *)
Fixpoint insert_by (x : nat * nat) (l : list (nat * nat)) : list (nat * nat) :=
  match l with
  | [] => [x]
  | y :: l => if (x.1 <=? y.1)%nat then x :: y :: l else y :: insert_by x l
  end.
Definition argsort (keys : list nat) : list nat := (foldr insert_by [] (imap (λ i k, (k, i)) keys)).*2.

(** Following a cycle from [src]. *)
Fixpoint chase (fuel : nat) (b : InputBatch) (src_dest_map : gmap nat nat) (src dst : nat) : result (InputBatch * gmap nat nat) :=
  match fuel with
  | O => Raise OutOfFuel
  | S fuel =>
      if (src =? dst)%nat then Ok (b, src_dest_map)
      else
        b ← swap_states b src dst;
        let next_dst := default dst (src_dest_map !! dst) in
        chase fuel b (<[dst := dst]> src_dest_map) src next_dst
  end.

Definition follow (fuel : nat) (st : InputBatch * gmap nat nat) (src : nat) : result (InputBatch * gmap nat nat) :=
  match st.2 !! src with
  | None => Raise KeyError
  | Some dst => chase fuel st.1 st.2 src dst
  end.

(** The batch, and whether it was modified. *)
Definition reorder_batch_to_split_decodes_and_prefills (b : InputBatch) (num_scheduled_tokens : gmap string Z) (decode_threshold : Z) :
    result (bool * InputBatch) :=
  regions ← req_regions b num_scheduled_tokens decode_threshold;
  let target := target_regions regions in
  let orig_indices := where_differ regions target in
  match orig_indices with
  | [] => Ok (false, b)
  | _ :: _ =>
      let sorted_order := argsort ((λ i, regions !!! i) <$> orig_indices) in
      let src_indices := (λ i, orig_indices !!! i) <$> sorted_order in
      let src_dest_map : gmap nat nat := list_to_map (zip src_indices orig_indices) in
      '(b, _) ← mfold (follow (S (length src_indices))) (b, src_dest_map) src_indices;
      Ok (true, b)
  end.


(** ** Sorting *)

Lemma sort_by_perm l : foldr insert_by [] l ≡ₚ l.
Proof.
  assert (Hi : ∀ x l, insert_by x l ≡ₚ x :: l).
  { intros x. induction l0 as [|y l0 IH]; cbn; [done|]. destruct (_ <=? _)%nat; [done|]. rewrite IH. constructor. }
  induction l as [|x l IH]; cbn; [done|]. by rewrite Hi, IH.
Qed.

Lemma sort_by_sorted l : StronglySorted le (foldr insert_by [] l).*1.
Proof.
  assert (Hi : ∀ x l, StronglySorted le l.*1 → StronglySorted le (insert_by x l).*1).
  { intros x l0. assert (Hp : (insert_by x l0).*1 ≡ₚ x.1 :: l0.*1).
    { induction l0 as [|y l0 IH]; cbn; [done|]. destruct (_ <=? _)%nat; [done|]. cbn. rewrite IH. constructor. }
    clear Hp. induction l0 as [|y l0 IH]; cbn; [repeat constructor|]. intros Hs. inversion Hs as [|? ? Hs' Hf]; subst. destruct (Nat.leb_spec x.1 y.1) as [Hle|Hgt].
    - cbn. constructor; [done|]. constructor; [done|]. eapply Forall_impl; [exact Hf|]. intros. lia.
    - cbn. constructor; [by apply IH|]. clear IH Hs Hs'. induction l0 as [|z l0 IH2]; cbn; [repeat constructor; lia|].
      inversion Hf; subst. destruct (_ <=? _)%nat; cbn; repeat constructor; try done; try lia. by apply IH2. }
  induction l as [|x l IH]; cbn; [constructor|]. by apply Hi.
Qed.

Lemma argsort_perm keys : argsort keys ≡ₚ seq 0 (length keys).
Proof.
  unfold argsort. rewrite sort_by_perm. assert (H : ∀ k, (imap (λ i x, (x, (k + i)%nat)) keys).*2 = seq k (length keys)).
  { induction keys as [|x keys IH]; intros k; cbn; [done|]. rewrite Nat.add_0_r. f_equal. rewrite <-(IH (S k)). f_equal. apply imap_ext. intros i y _. cbn. f_equal. lia. }
  pose proof (H 0%nat) as H0. cbn [Nat.add] in H0. by rewrite H0.
Qed.

Lemma argsort_sorted keys : StronglySorted le ((λ i, keys !!! i) <$> argsort keys).
Proof.
  unfold argsort. rewrite <-list_fmap_compose. erewrite list_fmap_ext; [apply (sort_by_sorted (imap (λ i k, (k, i)) keys))|].
  intros i [k j] Hx. cbn. apply list_elem_of_lookup_2 in Hx. rewrite sort_by_perm in Hx. apply elem_of_lookup_imap in Hx as (i' & y & [= -> ->] & Hy).
  by apply list_lookup_total_correct.
Qed.

(** ** Regions *)

Lemma region_le thr s c p : (req_region thr s c p ≤ 3)%nat.
Proof. unfold req_region. repeat case_match; lia. Qed.

Lemma count_region_cons k x l : count_region k (x :: l) = if decide (x = k) then S (count_region k l) else count_region k l.
Proof. unfold count_region. rewrite filter_cons. by case_decide. Qed.

Lemma target_perm l : Forall (λ x, (x ≤ 3)%nat) l → target_regions l ≡ₚ l.
Proof.
  unfold target_regions. induction 1 as [|x l Hx _ IH]; [done|]. rewrite !count_region_cons.
  assert (x = 0 ∨ x = 1 ∨ x = 2 ∨ x = 3)%nat as [->|[->|[->| ->]]] by lia; repeat (case_decide; [try lia|try lia]); cbn [replicate app];
    rewrite <-?Permutation_middle; by rewrite IH.
Qed.

Lemma replicate_sorted n x l : StronglySorted le l → Forall (λ y, (x ≤ y)%nat) l → StronglySorted le (replicate n x ++ l).
Proof.
  intros Hs Hf. induction n as [|n IH]; cbn; [done|]. constructor; [done|]. apply Forall_app. split; [by apply Forall_replicate|done].
Qed.

Lemma target_sorted l : StronglySorted le (target_regions l).
Proof.
  unfold target_regions. repeat (apply replicate_sorted; [|repeat (apply Forall_app; split); apply Forall_replicate; lia]).
  rewrite <-(app_nil_r (replicate (count_region 3 l) 3%nat)). apply replicate_sorted; constructor.
Qed.

Lemma sorted_lookup_le (l : list nat) i j : StronglySorted le l → (i < j)%nat → (j < length l)%nat → (l !!! i ≤ l !!! j)%nat.
Proof.
  intros Hs Hij Hj. rewrite <-(take_drop j l) in Hs. apply (StronglySorted_app_1_elem_of le) with (x1 := l !!! i) (x2 := l !!! j) in Hs; [done| |].
  - apply list_elem_of_lookup. exists i. rewrite lookup_take_lt by done. apply list_lookup_lookup_total_lt. lia.
  - apply list_elem_of_lookup. exists 0%nat. rewrite lookup_drop, Nat.add_0_r. by apply list_lookup_lookup_total_lt.
Qed.

Lemma filter_seq_sorted (P : nat → Prop) `{∀ i, Decision (P i)} a n : StronglySorted lt (filter P (seq a n)).
Proof.
  revert a. induction n as [|n IH]; intros a; cbn [seq]; [constructor|]. rewrite filter_cons. case_decide; [|apply IH].
  constructor; [apply IH|]. apply Forall_forall. intros i [_ Hi]%list_elem_of_filter. apply elem_of_seq in Hi. lia.
Qed.

(** ** The permutation *)

Section perm.
Context (regs : list nat) (Hle : Forall (λ x, (x ≤ 3)%nat) regs).
Notation target := (target_regions regs).
Notation orig := (where_differ regs target).
Notation src := ((λ i, orig !!! i) <$> argsort ((λ i, regs !!! i) <$> orig)).

Lemma target_length : length target = length regs.
Proof using Hle. apply Permutation_length. by apply target_perm. Qed.

Lemma orig_nodup : NoDup orig.
Proof. apply NoDup_filter, NoDup_seq. Qed.

Lemma orig_lt i : i ∈ orig → (i < length regs)%nat.
Proof. intros [_ Hi]%list_elem_of_filter. apply elem_of_seq in Hi. lia. Qed.

Lemma src_perm : src ≡ₚ orig.
Proof.
  rewrite argsort_perm, length_fmap. generalize orig. intros l. clear. induction l as [|x l IH] using rev_ind; [done|].
  rewrite length_app, seq_app, fmap_app. cbn. rewrite (list_lookup_total_middle l [] x) by done.
  erewrite list_fmap_ext; [by rewrite IH|]. intros i y Hy. apply lookup_seq in Hy as [-> Hy]. by rewrite lookup_total_app_l by lia.
Qed.

(** The regions out of place are the targets out of place. *)
Lemma differ_perm : (λ i, regs !!! i) <$> orig ≡ₚ (λ i, target !!! i) <$> orig.
Proof using Hle.
  pose proof (target_perm regs Hle) as Hp. assert (Hs : ∀ l : list nat, l = (λ i, l !!! i) <$> seq 0 (length l)).
  { clear. intros l. apply list_eq. intros i. rewrite list_lookup_fmap. destruct (decide (i < length l)%nat) as [Hi|Hi].
    - rewrite lookup_seq_lt by done. cbn. by apply list_lookup_lookup_total_lt.
    - rewrite lookup_ge_None_2, lookup_seq_ge by lia. done. }
  rewrite (Hs regs) in Hp at 2. rewrite (Hs target), target_length in Hp.
  rewrite <-(filter_app_complement (λ i, regs !! i ≠ target !! i) (seq 0 (length regs))), !fmap_app in Hp.
  assert (He : (λ i, target !!! i) <$> filter (λ i, ¬ regs !! i ≠ target !! i) (seq 0 (length regs)) =
    (λ i, regs !!! i) <$> filter (λ i, ¬ regs !! i ≠ target !! i) (seq 0 (length regs))).
  { apply list_fmap_ext. intros j i Hi%list_elem_of_lookup_2. apply list_elem_of_filter in Hi as [Hi _]. rewrite !list_lookup_total_alt.
    destruct (decide (regs !! i = target !! i)) as [E|E]; [by rewrite E|done]. }
  rewrite He in Hp. symmetry. by apply Permutation_app_inv_r in Hp.
Qed.

(** The [k]-th source belongs to the region of the [k]-th index. *)
Lemma src_region : (λ i, regs !!! i) <$> src = (λ i, target !!! i) <$> orig.
Proof using Hle.
  apply (StronglySorted_unique le).
  - rewrite <-list_fmap_compose. erewrite list_fmap_ext; [apply (argsort_sorted ((λ i, regs !!! i) <$> orig))|].
    intros j i Hi%list_elem_of_lookup_2. rewrite argsort_perm, length_fmap in Hi. apply elem_of_seq in Hi. cbn. symmetry. apply (list_lookup_total_fmap (λ i, regs !!! i) orig i). lia.
  - assert (Hsub : ∀ l : list nat, StronglySorted lt l → Forall (λ i, (i < length target)%nat) l → StronglySorted le ((λ i, target !!! i) <$> l)).
    { induction 1 as [|x l Hl IH Hx]; intros Hf; cbn; [constructor|]. inversion Hf as [|? ? Hx' Hf']; subst. constructor; [by apply IH|].
      apply Forall_fmap, Forall_forall. intros y Hy. cbn. pose proof (proj1 (Forall_forall _ _) Hx y Hy). pose proof (proj1 (Forall_forall _ _) Hf' y Hy).
      apply sorted_lookup_le; [apply target_sorted|done|done]. }
    apply Hsub; [apply filter_seq_sorted|]. apply Forall_forall. intros i Hi. rewrite target_length. by apply orig_lt.
  - rewrite src_perm. apply differ_perm.
Qed.
End perm.

(** ** Following cycles *)

Section chase.
Context (N W : nat) (R : gmap string CachedRequestState) (s : slots slot) (b0 : InputBatch).
Implicit Types (b : InputBatch) (m : gmap nat nat) (p : nat → nat) (D V : gset nat).

(** The batch [b] holds at every index [j] what [b0] held at [p j]. *)
Record arranged p b : Prop := mkArranged {
  ar_inv : batch_inv N W b R;
  ar_tracks : tracks b R s;
  ar_dense : dense N b;
  ar_frame : frame b0 b;
  ar_tables : same_tables b0 b;
  ar_kept : ∀ id, is_Some (R !! id) → kept b0 b id;
  ar_ids : ∀ j, _req_ids b !! j = _req_ids b0 !! p j;
  ar_rows : ∀ j, row_view (rows b) j = row_view (rows b0) (p j);
}.

Lemma arranged_swap p b i1 i2 : arranged p b → i1 ≠ i2 → (i1 < size R)%nat → (i2 < size R)%nat →
  ∃ b', swap_states b i1 i2 = Ok b' ∧ arranged (λ j, p (tr i1 i2 j)) b'.
Proof.
  intros [Hi Ht Hd Hf Hs Hk Hids Hrows] Hne H1 H2. rewrite <-(num_reqs_size _ _ _ _ Hi) in H1, H2.
  destruct (swap_ok N W b R s i1 i2 Hi Ht Hd Hne H1 H2) as (b' & E & Hi' & Ht' & Hd' & Hs' & Hids' & Hrows' & Hk'). exists b'. split; [done|].
  apply swap_frame in E as [Hf' _]; [|apply (bi_generates _ _ _ _ Hi)]. split; [done|done|done|by eapply frame_trans|by eapply mg_shape_trans| | |].
  - intros id Hid. eapply kept_trans; [by apply Hk|by apply Hk'].
  - intros j. by rewrite Hids', Hids.
  - intros j. by rewrite Hrows', Hrows.
Qed.

(** The destinations form a permutation of indices of the batch. *)
Context (σ : gmap nat nat).
Context (σ_lt : ∀ k v, σ !! k = Some v → (k < size R)%nat ∧ is_Some (σ !! v)).
Context (σ_inj : ∀ k k' v, σ !! k = Some v → σ !! k' = Some v → k = k').

(** The cycles through [D] are done, the others untouched. *)
Record between D m p : Prop := mkBetween {
  bw_done : ∀ j, j ∈ D → p j ∈ D ∧ σ !! p j = Some j;
  bw_rest : ∀ j, j ∉ D → p j = j;
  bw_map : ∀ k, k ∉ D → m !! k = σ !! k;
  bw_inj : ∀ j j', p j = p j' → j = j';
}.

(** On the cycle of [a]: the indices [V] have their request, and the one at [a] belongs
    to [d]. *)
Record chasing D a V m p (d : nat) : Prop := mkChasing {
  ch_start : a ∉ D ∧ a ∉ V ∧ V ## D ∧ is_Some (σ !! a);
  ch_done : ∀ j, j ∈ D → p j ∈ D ∧ σ !! p j = Some j;
  ch_seen : ∀ j, j ∈ V → (p j ∈ V ∨ p j = a) ∧ σ !! p j = Some j ∧ m !! j = Some j;
  ch_here : (p a ∈ V ∨ p a = a) ∧ σ !! p a = Some d;
  ch_rest : ∀ j, j ∉ V → j ≠ a → j ∉ D → p j = j;
  ch_map : ∀ k, k ∉ V → k ∉ D → m !! k = σ !! k;
  ch_inj : ∀ j j', p j = p j' → j = j';
}.

Lemma chasing_fresh D a V m p d : chasing D a V m p d → d ∉ V ∧ d ∉ D.
Proof.
  intros [(H1 & H2 & H3 & H4) Hd Hs [Hh Hhd] Hr Hm Hi]. split.
  - intros Hin. destruct (Hs d Hin) as (_ & E & _). pose proof (Hi _ _ (σ_inj _ _ _ Hhd E)) as ->. done.
  - intros Hin. destruct (Hd d Hin) as [Hp E]. pose proof (σ_inj _ _ _ Hhd E) as Ep. rewrite Ep in Hh. destruct Hh as [Hh|Hh]; [set_solver|]. rewrite Hh in Hp. done.
Qed.

(** One swap of the cycle. *)
Lemma chasing_next D a V m p d : chasing D a V m p d → a ≠ d →
  chasing D a ({[d]} ∪ V) (<[d := d]> m) (λ j, p (tr a d j)) (default d (m !! d)).
Proof.
  intros Hc Had. destruct (chasing_fresh _ _ _ _ _ _ Hc) as [HdV HdD]. destruct Hc as [(H1 & H2 & H3 & H4) Hd Hs [Hh Hhd] Hr Hm Hi].
  assert (Hpd : p d = d) by (apply Hr; [done|congruence|done]). destruct (proj2 (σ_lt _ _ Hhd)) as [d' Ed].
  rewrite (Hm d HdV HdD), Ed. cbn [default].
  assert (Ta : tr a d a = d) by (unfold tr; by rewrite decide_False, decide_True by done). assert (Td : tr a d d = a) by (unfold tr; by rewrite decide_True).
  assert (To : ∀ j, j ≠ a → j ≠ d → tr a d j = j) by (intros j ? ?; unfold tr; by rewrite !decide_False).
  split.
  - split_and!; [done|set_solver|set_solver|done].
  - intros j Hj. assert (j ≠ a) by (by intros ->). assert (j ≠ d) by (by intros ->). rewrite To by done. by apply Hd.
  - intros j [Hj%elem_of_singleton|Hj]%elem_of_union.
    + subst. rewrite Td, lookup_insert_eq. split_and!; [|done|done]. destruct Hh as [?| ->]; [left; set_solver|by right].
    + assert (j ≠ a) by (by intros ->). assert (j ≠ d) by (by intros ->). rewrite To, lookup_insert_ne by done. destruct (Hs j Hj) as ([Hp|Hp] & ? & ?).
      * split_and!; [left; set_solver|done|done].
      * split_and!; [by right|done|done].
  - rewrite Ta, Hpd. split; [left; set_solver|done].
  - intros j Hj Hja HjD. assert (j ∉ V ∧ j ≠ d) as [? ?] by set_solver. rewrite To by done. by apply Hr.
  - intros k Hk HkD. assert (k ∉ V ∧ k ≠ d) as [? ?] by set_solver. rewrite lookup_insert_ne by done. by apply Hm.
  - intros j j' E%Hi. by rewrite <-(tr_tr a d j), E, tr_tr.
Qed.

(** When the cycle closes. *)
Lemma chasing_end D a V m p : chasing D a V m p a → between ({[a]} ∪ V ∪ D) m p.
Proof.
  intros [(H1 & H2 & H3 & H4) Hd Hs [Hh Hhd] Hr Hm Hi]. split; [| | |done].
  - intros j [[Hj%elem_of_singleton|Hj]%elem_of_union|Hj]%elem_of_union.
    + subst. split; [|done]. destruct Hh as [?| ->]; set_solver.
    + destruct (Hs j Hj) as ([?|Hp] & ? & _); split; try done; [set_solver|rewrite Hp; set_solver].
    + destruct (Hd j Hj). split; [set_solver|done].
  - intros j Hj. apply Hr; set_solver.
  - intros k Hk. apply Hm; set_solver.
Qed.

Lemma chasing_subset D a V m p d : chasing D a V m p d → V ⊆ dom σ.
Proof. intros Hc j Hj. destruct (ch_seen _ _ _ _ _ _ Hc j Hj) as (_ & E & _). apply elem_of_dom. by apply (σ_lt (p j)). Qed.

Lemma chase_ok fuel b D a V m p d : (size (dom σ ∖ V) < fuel)%nat → arranged p b → chasing D a V m p d →
  ∃ b' m' p' V', chase fuel b m a d = Ok (b', m') ∧ arranged p' b' ∧ chasing D a V' m' p' a ∧ (∀ k, k ∈ D → m' !! k = m !! k).
Proof.
  revert b V m p d. induction fuel as [|fuel IH]; intros b V m p d Hfuel Hb Hc; [lia|]. cbn [chase]. destruct (Nat.eqb_spec a d) as [<-|Hne].
  - exists b, m, p, V. done.
  - destruct (chasing_fresh _ _ _ _ _ _ Hc) as [HdV HdD]. pose proof (ch_start _ _ _ _ _ _ Hc) as (HaD & _ & _ & [va Hva]). pose proof (proj2 (ch_here _ _ _ _ _ _ Hc)) as Hpd.
    destruct (proj2 (σ_lt _ _ Hpd)) as [vd Hvd].
    destruct (arranged_swap p b a d Hb Hne (proj1 (σ_lt _ _ Hva)) (proj1 (σ_lt _ _ Hvd))) as (b1 & E1 & Hb1). rewrite E1. cbn [mbind result_bind].
    destruct (IH b1 ({[d]} ∪ V) (<[d := d]> m) (λ j, p (tr a d j)) (default d (m !! d))) as (b' & m' & p' & V' & E & H1 & H2 & H3).
    + assert (d ∈ dom σ) by (apply elem_of_dom; by eexists). assert (Hss : dom σ ∖ ({[d]} ∪ V) ⊂ dom σ ∖ V) by set_solver. apply subset_size in Hss. lia.
    + done.
    + by apply chasing_next.
    + exists b', m', p', V'. split_and!; [done..|]. intros k Hk. rewrite H3, lookup_insert_ne by (done || (by intros ->)). done.
Qed.

(** All sources one after the other. *)
Lemma follow_ok ks fuel b D m p : (size (dom σ) < fuel)%nat → NoDup ks → arranged p b → between D m p → (∀ k, k ∈ ks → is_Some (σ !! k)) →
  (∀ k, k ∈ D → k ∈ ks → m !! k = Some k) →
  ∃ b' m' p' D', mfold (follow fuel) (b, m) ks = Ok (b', m') ∧ arranged p' b' ∧ between D' m' p' ∧ (∀ k, k ∈ ks ∨ k ∈ D → k ∈ D').
Proof.
  intros Hfuel. revert b D m p. induction ks as [|a ks IH]; intros b D m p Hnd Hb Hw Hks Hself; cbn [mfold].
  - exists b, m, p, D. split_and!; [done..|]. intros k [Hk|Hk]; [by apply elem_of_nil in Hk|done].
  - apply NoDup_cons in Hnd as [Ha Hnd]. destruct (decide (a ∈ D)) as [HaD|HaD].
    + assert (E0 : follow fuel (b, m) a = Ok (b, m)).
      { unfold follow. cbn [fst snd]. rewrite (Hself a HaD) by by left. destruct fuel as [|fuel]; [lia|]. cbn [chase]. by rewrite Nat.eqb_refl. }
      rewrite E0. cbn [mbind result_bind].
      destruct (IH b D m p Hnd Hb Hw) as (b' & m' & p' & D' & E & H1 & H2 & H3); [intros; apply Hks; by right|intros; apply Hself; [done|by right]|].
      exists b', m', p', D'. split_and!; [done..|]. intros k [[->|Hk]%elem_of_cons|Hk]; apply H3; tauto.
    + destruct (Hks a) as [d Ed]; [by left|]. destruct Hw as [W1 W2 W3 W4].
      destruct (chase_ok fuel b D a ∅ m p d) as (b1 & m1 & p1 & V1 & E1 & Hb1 & Hc1 & Hm1); [by rewrite difference_empty_L|done| |].
      { split; [split_and!; [done|set_solver|set_solver|by eexists]|done|set_solver|rewrite (W2 a HaD); split; [by right|done]|by intros j _ _; apply W2|by intros k _; apply W3|done]. }
      assert (E0 : follow fuel (b, m) a = Ok (b1, m1)) by (unfold follow; cbn [fst snd]; by rewrite (W3 a HaD), Ed).
      rewrite E0. cbn [mbind result_bind]. pose proof (chasing_end _ _ _ _ _ Hc1) as Hw1.
      destruct (IH b1 ({[a]} ∪ V1 ∪ D) m1 p1 Hnd Hb1 Hw1) as (b' & m' & p' & D' & E & H1 & H2 & H3); [intros; apply Hks; by right| |].
      { intros k [[Hk%elem_of_singleton|Hk]%elem_of_union|Hk]%elem_of_union Hin; [subst; done|by apply (ch_seen _ _ _ _ _ _ Hc1)|].
        rewrite (Hm1 k Hk). apply Hself; [done|by right]. }
      exists b', m', p', D'. split_and!; [done..|]. intros k [[->|Hk]%elem_of_cons|Hk]; apply H3; set_solver.
Qed.
End chase.

(** ** The regions of a batch *)

Section regions.
Context (N W : nat) (sched : gmap string Z) (thr : Z).
Implicit Types (b : InputBatch) (R : gmap string CachedRequestState) (s : slots slot).

Definition region_at b (j : nat) : option nat :=
  id ← mjoin (_req_ids b !! j); n ← sched !! id; c ← num_computed_tokens_cpu (rows b) !! j; q ← num_prompt_tokens (rows b) !! j;
  Some (req_region thr n c q).

Lemma zip3_lookup {A B C} (l1 : list A) (l2 : list B) (l3 : list C) i :
  zip3 l1 l2 l3 !! i = (x ← l1 !! i; y ← l2 !! i; z ← l3 !! i; Some (x, y, z)).
Proof.
  revert l2 l3 i. induction l1 as [|x l1 IH]; intros [|y l2] [|z l3] [|i]; cbn; try done; try (by destruct (l1 !! i)); try (by destruct (l1 !! i), (l2 !! i)).
Qed.

Lemma req_regions_ok b R : batch_inv N W b R → dense N b → (∀ id, is_Some (R !! id) → is_Some (sched !! id)) →
  ∃ regs, req_regions b sched thr = Ok regs ∧ length regs = size R ∧ Forall (λ x, (x ≤ 3)%nat) regs ∧ ∀ j, regs !! j = region_at b j.
Proof.
  intros H Hd Hs. pose proof (bi_rows _ _ _ _ H) as Hro. pose proof (bi_len _ _ _ _ H) as HlN. rewrite <-(num_reqs_size _ _ _ _ H), <-(de_len _ _ Hd).
  assert (Hids : ∀ j x, _req_ids b !! j = Some x → ∃ id n, x = Some id ∧ sched !! id = Some n).
  { intros j x Hx. pose proof (lookup_lt_Some _ _ _ Hx) as Hj. rewrite (de_len _ _ Hd) in Hj. destruct (de_taken _ _ Hd j Hj) as [id E]. rewrite Hx in E. injection E as ->.
    destruct (Hs id) as [n En]; [apply (bi_dom _ _ _ _ H); exists j; by apply (bi_index _ _ _ _ H)|]. by exists id, n. }
  assert (Hm : ∃ ns, mmap (λ id : option string, match id ≫= λ id, sched !! id with Some n => Ok n | None => Raise KeyError end) (_req_ids b) = Ok ns ∧
    length ns = length (_req_ids b) ∧ ∀ j, ns !! j = id ← mjoin (_req_ids b !! j); sched !! id).
  { clear -Hids. induction (_req_ids b) as [|x ids IH]; cbn [mmap]; [by exists []|]. destruct (Hids 0%nat x eq_refl) as (id & n & -> & En). cbn [mbind option_bind].
    rewrite En. destruct IH as (ns & E & L & K); [intros j; apply (Hids (S j))|]. cbn [mbind result_bind]. rewrite E. cbn. exists (n :: ns).
    split_and!; [done|cbn; by rewrite L|]. intros [|j]; [by cbn; rewrite En|apply K]. }
  destruct Hm as (ns & E & L & K). unfold req_regions. rewrite E. cbn [mbind result_bind].
  rewrite !length_take, (ro_nct _ _ _ Hro), (ro_npt _ _ _ Hro), Nat.min_l, Nat.eqb_refl by lia. cbn [andb]. eexists. split; [done|].
  assert (Hreg : ∀ j, ((λ '(s, c, p), req_region thr s c p) <$> zip3 ns (take (length (_req_ids b)) (num_computed_tokens_cpu (rows b)))
    (take (length (_req_ids b)) (num_prompt_tokens (rows b)))) !! j = region_at b j).
  { intros j. rewrite list_lookup_fmap, zip3_lookup, K. unfold region_at. destruct (_req_ids b !! j) as [x|] eqn:Ej; [|done].
    rewrite !lookup_take_lt by (by eapply lookup_lt_Some). destruct (Hids j x Ej) as (id & n & -> & En). cbn. rewrite En. cbn.
    by destruct (num_computed_tokens_cpu (rows b) !! j), (num_prompt_tokens (rows b) !! j). }
  split_and!; [| |exact Hreg].
  - apply Nat.le_antisymm; apply Nat.nlt_ge; intros Hlt.
    + apply lookup_lt_is_Some_2 in Hlt as [x Hx]. rewrite Hreg in Hx. unfold region_at in Hx. by rewrite (lookup_ge_None_2 (_req_ids b)) in Hx by lia.
    + set (l := _ <$> _) in *. pose proof (lookup_ge_None_2 l (length l) ltac:(lia)) as Hx. rewrite Hreg in Hx. unfold region_at in Hx.
      destruct (lookup_lt_is_Some_2 (_req_ids b) (length l) Hlt) as [x Ex]. rewrite Ex in Hx. destruct (Hids _ x Ex) as (id & n & -> & En). cbn in Hx. rewrite En in Hx.
      destruct (lookup_lt_is_Some_2 (num_computed_tokens_cpu (rows b)) (length l)) as [c Ec]; [rewrite (ro_nct _ _ _ Hro); lia|]. cbn in Hx. rewrite Ec in Hx.
      destruct (lookup_lt_is_Some_2 (num_prompt_tokens (rows b)) (length l)) as [q Eq]; [rewrite (ro_npt _ _ _ Hro); lia|]. cbn in Hx. rewrite Eq in Hx. done.
  - apply Forall_fmap, Forall_true. intros [[x y] z]. apply region_le.
Qed.

Lemma region_at_view b b' j j' : _req_ids b' !! j' = _req_ids b !! j → row_view (rows b') j' = row_view (rows b) j → region_at b' j' = region_at b j.
Proof. unfold row_view, region_at. intros E [= _ _ E2 E3 _ _ _ _]. by rewrite E, E2, E3. Qed.

(** The map of destinations is a permutation that respects the targets. *)
Lemma destinations_ok (regs : list nat) : Forall (λ x, (x ≤ 3)%nat) regs →
  let orig := where_differ regs (target_regions regs) in
  let src := (λ i, orig !!! i) <$> argsort ((λ i, regs !!! i) <$> orig) in
  let σ : gmap nat nat := list_to_map (zip src orig) in
  (∀ k v, σ !! k = Some v → k ∈ orig ∧ v ∈ orig ∧ regs !! k = target_regions regs !! v) ∧
  (∀ k, k ∈ orig → is_Some (σ !! k)) ∧ (∀ k k' v, σ !! k = Some v → σ !! k' = Some v → k = k') ∧ NoDup src ∧ (∀ k, k ∈ src ↔ k ∈ orig).
Proof.
  intros Hle orig src σ. pose proof (src_perm regs) as Hp. fold orig src in Hp. pose proof (orig_nodup regs) as Hnd. fold orig in Hnd.
  assert (Hnds : NoDup src) by (by rewrite Hp). assert (Hl : length src = length orig) by (by rewrite Hp).
  assert (Hσ : ∀ k v, σ !! k = Some v ↔ ∃ t, src !! t = Some k ∧ orig !! t = Some v).
  { intros k v. unfold σ. rewrite <-elem_of_list_to_map by (rewrite fst_zip by lia; done). rewrite list_elem_of_lookup. split; intros [t Ht]; exists t.
    - by apply lookup_zip_Some in Ht. - by apply lookup_zip_Some. }
  split_and!; [| | |done|intros k; by rewrite Hp].
  - intros k v (t & Hk & Hv)%Hσ. pose proof (list_elem_of_lookup_2 _ _ _ Hk) as Hin. rewrite Hp in Hin. pose proof (list_elem_of_lookup_2 _ _ _ Hv) as Hin'. split_and!; [done|done|].
    pose proof (f_equal (λ l : list nat, l !! t) (src_region regs Hle)) as E. cbv beta in E. fold orig src in E. rewrite !list_lookup_fmap, Hk, Hv in E. injection E as E.
    rewrite !list_lookup_lookup_total_lt; [by f_equal|rewrite target_length by done; by apply orig_lt|by apply orig_lt].
  - intros k Hk. rewrite <-Hp in Hk. apply list_elem_of_lookup in Hk as [t Ht]. destruct (lookup_lt_is_Some_2 orig t) as [v Hv]; [rewrite <-Hl; by eapply lookup_lt_Some|].
    exists v. apply Hσ. by exists t.
  - intros k k' v (t & Hk & Hv)%Hσ (t' & Hk' & Hv')%Hσ. pose proof (NoDup_lookup _ _ _ _ Hnd Hv Hv') as <-. congruence.
Qed.

(** Following all cycles gives the target regions. *)
Lemma reorder_loop b R s regs : batch_inv N W b R → tracks b R s → dense N b → (∀ id, is_Some (R !! id) → is_Some (sched !! id)) →
  length regs = size R → Forall (λ x, (x ≤ 3)%nat) regs → (∀ j, regs !! j = region_at b j) →
  let orig := where_differ regs (target_regions regs) in
  let src := (λ i, orig !!! i) <$> argsort ((λ i, regs !!! i) <$> orig) in
  ∃ b' m' p, mfold (follow (S (length src))) (b, list_to_map (zip src orig)) src = Ok (b', m') ∧ arranged N W R s b p b' ∧
    (∀ j, region_at b' j = target_regions regs !! j) ∧ (∀ j, regs !! j = target_regions regs !! j → p j = j).
Proof.
  intros H Ht Hd Hs Hlen Hle Hreg orig src. destruct (destinations_ok regs Hle) as (D1 & D2 & D3 & D4 & D5). fold orig src in D1, D2, D3, D4, D5.
  set (σ := list_to_map (zip src orig) : gmap nat nat) in *. assert (Hl : length src = length orig) by (apply Permutation_length, src_perm).
  assert (Hdom : ∀ k, k ∈ dom σ ↔ k ∈ orig) by (intros k; rewrite elem_of_dom; split; [intros [v Hv]; by apply (D1 k v)|apply D2]).
  destruct (follow_ok N W R s b σ) with (ks := src) (fuel := S (length src)) (b := b) (D := ∅ : gset nat) (m := σ) (p := λ j : nat, j)
    as (b' & m' & p & D & E & Har & Hbw & Hall).
  - intros k v Hv. destruct (D1 k v Hv) as (Hk & Hv' & _). split; [rewrite <-Hlen; by apply orig_lt|by apply D2].
  - done.
  - apply Nat.lt_succ_r. rewrite Hl, <-(size_list_to_set (C := gset nat) orig) by apply orig_nodup. apply subseteq_size. intros k Hk. by apply elem_of_list_to_set, Hdom.
  - done.
  - split; [done..|apply frame_refl|apply mg_shape_refl| |done|done]. intros id Hid. by eapply kept_refl.
  - split; [set_solver|done|done|done].
  - intros k Hk. by apply D2, D5.
  - set_solver.
  - exists b', m', p. assert (HD : ∀ j, j ∉ orig → p j = j).
    { intros j Hj. destruct (decide (j ∈ D)) as [Hin|Hin]; [|by apply (bw_rest _ _ _ _ Hbw)]. destruct (bw_done _ _ _ _ Hbw j Hin) as [_ Hp].
      destruct Hj. by apply (D1 (p j) j). }
    assert (Hdiff : ∀ j, j ∉ orig → regs !! j = target_regions regs !! j).
    { intros j Hj. destruct (decide (regs !! j = target_regions regs !! j)) as [|Hne]; [done|]. destruct Hj. apply list_elem_of_filter. split; [done|].
      apply elem_of_seq. destruct (decide (j < length regs)%nat); [lia|]. destruct Hne. rewrite !lookup_ge_None_2; [done|rewrite target_length by done; lia|lia]. }
    split_and!; [done|done| |].
    + intros j. rewrite (region_at_view b b' (p j) j); [|apply (ar_ids _ _ _ _ _ _ _ Har)|apply (ar_rows _ _ _ _ _ _ _ Har)]. rewrite <-Hreg.
      destruct (decide (j ∈ orig)) as [Hj|Hj]; [|rewrite HD by done; by apply Hdiff].
      destruct (bw_done _ _ _ _ Hbw j) as [_ Hp]; [apply Hall; left; by apply D5|]. by apply (D1 (p j) j).
    + intros j Hj. apply HD. by intros [Hne _]%list_elem_of_filter.
Qed.

(** C9: Reordering the batch for the attention backend always ends, without leaving the
    batch.  Afterwards the requests are sorted by region, decodes first, then short
    extends, long extends and prefills; the regions are the same as before, only
    requests that were out of place have moved, each with its tokens, counts, blocks,
    adapter and sampling parameters (but not its row of the allowed-token mask, which
    swapping loses), and the moves are recorded for the logits processors. *)
Theorem reorder_splits_batch b R s : batch_inv N W b R → tracks b R s → dense N b → (∀ id, is_Some (R !! id) → is_Some (sched !! id)) →
  ∃ changed b' regs regs', reorder_batch_to_split_decodes_and_prefills b sched thr = Ok (changed, b') ∧
    req_regions b sched thr = Ok regs ∧ req_regions b' sched thr = Ok regs' ∧ StronglySorted le regs' ∧ regs' ≡ₚ regs ∧
    (∀ j, regs !! j = regs' !! j → _req_ids b' !! j = _req_ids b !! j) ∧ (∀ id, is_Some (R !! id) → kept b b' id) ∧
    batch_inv N W b' R ∧ tracks b' R s ∧ dense N b' ∧ (changed = false → b' = b).
Proof.
  intros H Ht Hd Hs. destruct (req_regions_ok b R H Hd Hs) as (regs & E & Hlen & Hle & Hreg).
  unfold reorder_batch_to_split_decodes_and_prefills. rewrite E. cbn [mbind result_bind]. cbn zeta. set (target := target_regions regs).
  destruct (where_differ regs target) as [|x l] eqn:Eo.
  - assert (Heq : regs = target).
    { apply list_eq. intros i. destruct (decide (regs !! i = target !! i)) as [|Hne]; [done|]. exfalso. apply (not_elem_of_nil i). rewrite <-Eo.
      apply list_elem_of_filter. split; [done|]. apply elem_of_seq. destruct (decide (i < length regs)%nat); [lia|]. destruct Hne. unfold target.
      rewrite !lookup_ge_None_2; [done|rewrite target_length by done; lia|lia]. }
    exists false, b, regs, regs. split_and!; try done; [rewrite Heq; apply target_sorted|]. intros id Hid. by eapply kept_refl.
  - rewrite <-Eo. clear x l Eo. destruct (reorder_loop b R s regs H Ht Hd Hs Hlen Hle Hreg) as (b' & m' & p & El & Har & Hr' & Hp). fold target in El, Hr', Hp.
    rewrite El. cbn [mbind result_bind]. destruct (req_regions_ok b' R) as (regs' & E' & _ & _ & Hreg'); [apply (ar_inv _ _ _ _ _ _ _ Har)|apply (ar_dense _ _ _ _ _ _ _ Har)|done|].
    assert (regs' = target) as -> by (apply list_eq; intros j; by rewrite Hreg', Hr').
    exists true, b', regs, target. destruct Har. split_and!; try done; [apply target_sorted|by apply target_perm|].
    intros j Hj. rewrite ar_ids0. by rewrite Hp.
Qed.
End regions.

(** A prefill before a decode: the two change places. *)
Lemma reorder_splits_batch_witness : ∃ b0 b1 b b', ex_batch = Ok b0 ∧ adds ex_f32 ∅ b0 [ex_r1; ex_r2] = Ok b1 ∧ condense b1 = Ok b ∧
  reorder_batch_to_split_decodes_and_prefills b (list_to_map [("a"%string, 3); ("b"%string, 1)]) 1 = Ok (true, b') ∧
  _req_ids b = [Some "a"; Some "b"]%string ∧ _req_ids b' = [Some "b"; Some "a"]%string.
Proof.
  assert (Hcomp : (b0 ← ex_batch; b1 ← adds ex_f32 ∅ b0 [ex_r1; ex_r2]; b ← condense b1;
    '(c, b') ← reorder_batch_to_split_decodes_and_prefills b (list_to_map [("a"%string, 3); ("b"%string, 1)]) 1;
    Ok (c, _req_ids b, _req_ids b')) = Ok (true, [Some "a"; Some "b"]%string, [Some "b"; Some "a"]%string)) by (by vm_compute).
  destruct ex_batch as [b0|] eqn:E0; [|done]. cbn [mbind result_bind] in Hcomp. pose proof (ex_ready b0 E0) as Hr.
  destruct (ready_adding ex_f32 2%nat 8%nat ∅ b0 ∅ Hr) as [Had Ht].
  destruct (adds_ok ex_f32 2%nat 8%nat ∅ [ex_r1; ex_r2] b0 ∅ (cur b0 ∅)) as (b1 & E1 & H1 & Had1 & Ht1 & _);
    [apply (rd_inv _ _ _ _ _ _ Hr)|done|done|apply (rd_holds _ _ _ _ _ _ Hr)|apply (rd_buffers _ _ _ _ _ _ Hr)|by apply ex_addable|].
  rewrite E1 in Hcomp. cbn [mbind result_bind] in Hcomp. destruct (condense_ok 2%nat 8%nat b1 _ _ H1 Had1 Ht1) as (b & E2 & H2 & Ht2 & Hd2 & _).
  rewrite E2 in Hcomp. cbn [mbind result_bind] in Hcomp.
  destruct (reorder_splits_batch 2%nat 8%nat (list_to_map [("a"%string, 3); ("b"%string, 1)]) 1 b _ _ H2 Ht2 Hd2) as (c & b' & regs & regs' & E3 & _).
  { intros id [r Hid]. unfold with_added in Hid. cbn [foldl] in Hid. apply lookup_insert_Some in Hid as [[<- _]|[_ Hid]]; [by eexists|].
    apply lookup_insert_Some in Hid as [[<- _]|[_ Hid]]; [by eexists|]. by rewrite lookup_empty in Hid. }
  rewrite E3 in Hcomp. cbn [mbind result_bind] in Hcomp. injection Hcomp as -> Hids Hids'. by exists b0, b1, b, b'.
Defined.
