(* ===== verification/BatchFindings.v ===== *)
(** * What the persistent batch gets wrong
    Short runs of the batch in which a request ends up with data that is not its own,
    or a count of requests is wrong. *)

From Stdlib Require Import QArith.
From S2P Require Import Prelude OrderedDict BlockTable BatchUpdate InputBatch InputBatchStep.

#[local] Open Scope Z_scope.

Definition params_allowing (allowed : option (list Z)) : SamplingParams := mkSP 1 None 1 (-1) 0 0 0 1 0 [] None None None allowed None.
Definition request_allowing (id : string) (out : loc) (allowed : option (list Z)) : CachedRequestState :=
  ex_request id [1; 2; 3] 7 0 out (params_allowing allowed).

Definition small_conf (pooling : bool) : batch_conf := mkConf 2 4 pooling false.
Definition small_batch (pooling : bool) : result InputBatch :=
  init_batch (mkCp 1 0 1 0) (small_conf pooling) 8 16 [4] [4] None 1 (build_logitsprocs 2 true [0; 0]%Q false pooling) ex_buffers ex_buffers.

Definition step := batch_step (λ x, x) ∅.
Definition mask_of (b : InputBatch) := md_allowed_token_ids_mask (sampling_metadata b).

(** Swapping assigns rows of a tensor to each other; the right-hand sides are views, so
    both requests end up with the mask of the second: request [a], which may only
    produce token 1, is masked like [b], which may only produce token 2. *)
Lemma swap_loses_mask :
  (b ← small_batch false; b ← step b [] [request_allowing "a" 1%positive (Some [1]); request_allowing "b" 2%positive (Some [2])] [];
   b' ← step b [] [] [(0%nat, 1%nat)];
   Ok (mask_of b, _req_ids b', mask_of b')) =
  Ok (Some [[true; false; true; true]; [true; true; false; true]], [Some "b"; Some "a"]%string,
      Some [[true; true; false; true]; [true; true; false; true]]).
Proof. by vm_compute. Qed.

(** Condensing copies the mask of a request down without clearing the row it leaves:
    request [c], which is added there and may produce any token, gets the mask of [b]. *)
Lemma condense_leaves_mask :
  (b ← small_batch false; b ← step b [] [request_allowing "a" 1%positive None; request_allowing "b" 2%positive (Some [1])] [];
   b ← step b ["a"%string] [] [];
   b ← step b [] [request_allowing "c" 3%positive None] [];
   Ok (_req_ids b, mask_of b)) =
  Ok ([Some "b"; Some "c"]%string, Some [[true; false; true; true]; [true; false; true; true]]).
Proof. by vm_compute. Qed.

Definition pooling_request (id : string) (needs_tokens : bool) : CachedRequestState :=
  mkCached id (Some [1; 2]) None None [[7]] 0 1%positive None None None 0 (Some (mkPooling needs_tokens (Some "embed"%string))) (Some 1%positive) 2.

(** The flag that asks for prompt tokens stays at its index when the request moves: after
    [a] has left, the tokens [b] requires are not there. *)
Lemma pooling_flag_not_moved :
  (b ← small_batch true; b ← step b [] [pooling_request "a" false; pooling_request "b" true] [];
   md ← get_pooling_metadata b;
   t ← _get_prompt_token_ids md (pm_prompt_token_ids md);
   b ← step b ["a"%string] [] [];
   md' ← get_pooling_metadata b;
   Ok (t, requires_token_ids <$> pm_pooling_params md', _get_prompt_token_ids md' (pm_prompt_token_ids md'))) =
  Ok ([[1; 2]; [1; 2]], [true], Raise ValueError).
Proof. by vm_compute. Qed.

(** Prompt embeddings are not removed with their request. *)
Lemma embeds_stay :
  (b ← small_batch false;
   b ← step b [] [mkCached "a" None (Some (params_allowing None)) None [[7]] 0 1%positive None (Some [[1%Q]]) None 0 None None 1] [];
   b ← step b ["a"%string] [request_allowing "b" 2%positive None] [];
   Ok (_req_ids b, req_prompt_embeds (rows b) !! 0%nat)) = Ok ([Some "b"%string], Some [[1%Q]]).
Proof. by vm_compute. Qed.

(** A request that reached its minimum number of tokens while placeholders were counted
    is forgotten for good: when they are withdrawn, its stop tokens are not masked. *)
Lemma min_tokens_not_restored :
  let sp := mkSP 1 None 1 (-1) 0 0 0 1 2 [3] None None None None None in
  let added := mkUpdate 1 [] [mkAdded 0 sp (Some [1]) 1%positive] [] in
  let h (l : list Z) : heap := {[1%positive := l]} in
  let p0 := mt_update_state (h [5]) (mkMinTokens [] [] []) (Some added) in
  let p1 := mt_update_state (h [5; -1]) p0 None in
  let p2 := mt_update_state (h [5]) p1 None in
  min_toks p0 = [(0%nat, (2, 1%positive, [3]))] ∧ min_toks p2 = [] ∧ mt_add_request (h [5]) sp (Some [1]) 1%positive = Some (2, 1%positive, [3]).
Proof. by vm_compute. Qed.

Definition params_min_p (p : Q) : SamplingParams := mkSP 1 None 1 (-1) p 0 0 1 0 [] None None None None None.

(** The counter of the min-p processor and its array. *)
Definition min_p_state (b : InputBatch) : list (Z * list Q) :=
  omap (λ p, match p with ProcMinP p => Some (min_p_count p, min_p_cpu p) | _ => None end) (argmax_invariant (logitsprocs b)).

(** The counter looks at the parameter before it is rounded to 32 bits and later at the
    rounded entry.  Request [b] replaces [a] with a parameter that is rounded to zero: the
    counter stays at one, also after [b] has left. *)
Lemma min_p_count_drifts :
  (b ← small_batch false;
   b ← batch_step ex_f32 ∅ b [] [ex_request "a" [1; 2] 7 0 1%positive (params_min_p (1 # 2))] [];
   b1 ← batch_step ex_f32 ∅ b ["a"%string] [ex_request "b" [1; 2] 7 0 2%positive (params_min_p (1 # 2 ^ 160))] [];
   b2 ← batch_step ex_f32 ∅ b1 ["b"%string] [] [];
   Ok (min_p_state b1, num_reqs b2, min_p_state b2)) =
  Ok ([(1, [0; 0]%Q)], 0%nat, [(1, [0; 0]%Q)]).
Proof. by vm_compute. Qed.
