(* ===== verification/SchedFindings.v ===== *)
(** * The scheduler: runs that show a defect

    Concrete runs of the model in which the code does not do what it means to:
    streaming sessions that lose their place, their history or their limits, a
    heap whose keys change, and an encoder cache that grows beyond its size. *)

From Stdlib Require Import QArith.
From S2P Require Import Prelude OrderedDict KVBlock Request BlockPool KVSpecs Coordinator KVManager EncoderCache RequestQueue SchedUtils SchedState Schedule SchedUpdate Engine SchedTheorems EngineReach.

#[local] Open Scope Z_scope.

(** ** A preempted session is lost *)

(** A resumable request of four tokens that may generate one, and its next chunk
    of input. *)
Definition demo_session (tokens : list Z) (max_new : Z) : Request :=
  mkRequest "a" 1 0 0 1 (Some (mkSampling (Some max_new) 0 None [] None None)) None None false WAITING None max_new
    (Some tokens) None ∅ (zlen tokens) [] tokens 0 0 0 0 [] 0 None [] false 0 [] false true false.

Definition demo_async_config : SchedulerConfig :=
  mkSchedConfig FCFS 4 16 64 1 0 true false false 0 false 0 0 None None false false 2 false false false false
    false true 1.

Definition demo_idle (cfg : SchedulerConfig) (e : enc_manager) (k : KVCacheManager) : Scheduler :=
  mkScheduler cfg [] ∅ (create_request_queue (policy cfg)) (create_request_queue (policy cfg)) [] ∅ None ∅ 0 e k
    0 false 0 0 [] UNPAUSED ∅.

Definition demo_add (s : Scheduler) (r : Request) : result Scheduler := sched_add_request None elements s r.

(** The asynchronous scheduler plans a second step, which preempts the session,
    before the output of the first one arrives. *)
Definition demo_lost : result Scheduler :=
  k ← demo_kv;
  let s := demo_idle demo_async_config (MMCache (init_encoder_cache 0)) k in
  s ← demo_add s (demo_job "b" 2 0 6);
  s ← demo_add s (demo_session [1; 2; 3; 4] 1);
  s ← demo_add s (demo_session [5] 1);
  '(o1, s) ← schedule demo_hash elements (λ _, true) false s;
  '(o2, s) ← schedule demo_hash elements (λ _, true) false s;
  '(_, s) ← update_from_output demo_hash None elements (λ _, false) (λ _ _, true) s o1
              (mkRunnerOutput {["b" := 0%nat; "a" := 1%nat]} [[7]; [8]] None);
  Ok s.

(** The session stops while it is preempted and its next input is pending: it is
    queued again as a waiting request, and then removed from the waiting queue
    together with the stopped preempted requests.  It stays in the request table
    with status [WAITING], in no queue: it is never scheduled again.  Its token
    list has lost the prompt, which its prompt length still counts. *)
Theorem preempted_session_lost :
  ∃ s r, demo_lost = Ok s ∧ od_get (requests s) "a"%string = Some r ∧ status r = WAITING ∧
    running s = ["b"%string] ∧ queue_len (waiting s) = 0 ∧ queue_len (skipped_waiting s) = 0 ∧
    all_token_ids r = [5] ∧ prompt_token_ids r = Some [1; 2; 3; 4; 5] ∧ num_prompt_tokens r = 5.
Proof.
  assert (match demo_lost with
          | Ok s => match od_get (requests s) "a"%string with
                    | Some r => status r = WAITING ∧
                        running s = ["b"%string] ∧ queue_len (waiting s) = 0 ∧ queue_len (skipped_waiting s) = 0 ∧
                        all_token_ids r = [5] ∧ prompt_token_ids r = Some [1; 2; 3; 4; 5] ∧ num_prompt_tokens r = 5
                    | None => False
                    end
          | Raise _ => False
          end) as H by (vm_compute; repeat split).
  destruct demo_lost as [s|]; [|destruct H]. destruct (od_get (requests s) _) as [r|] eqn:E; [|destruct H].
  exists s, r. split; [reflexivity|]. split; [exact E|exact H].
Qed.

(** ** An update does not change the token limit *)

(** The limit a streaming update carries is never used: the session keeps that of
    its first chunk. *)
Theorem session_limit_ignored session update r :
  session_request None session update = Ok r → max_tokens r = max_tokens session.
Proof.
  unfold session_request. destruct (prompt_token_ids session); [|done]. intros H. bind_inv H as r1 E.
  injection H as <-. simpl. unfold update_block_hashes in E. by injection E as <-.
Qed.

(** ** The order of a priority queue is not kept *)

Definition demo_waiting_session (id : string) (addr : Z) : Request :=
  mkRequest id addr 0 0 addr (Some (mkSampling (Some 16) 0 None [] None None)) None None false
    WAITING_FOR_STREAMING_REQ None 16 (Some [1]) None ∅ 1 [] [1] 0 0 0 0 [] 1 None [] false 0 [] false true false.

(** Two sessions wait for input, the first one arrived earlier. *)
Definition demo_sessions (k : KVCacheManager) : Scheduler :=
  mkScheduler (demo_sched_config PRIORITY)
    [("a"%string, demo_waiting_session "a" 1); ("b"%string, demo_waiting_session "b" 2)]
    {["a"%string := []; "b"%string := []]} (APriority (mkPriority []))
    (APriority (mkPriority [demo_waiting_session "a" 1; demo_waiting_session "b" 2])) [] ∅ None ∅ 2
    (MMCache (init_encoder_cache 0)) k 0 false 0 0 [] UNPAUSED ∅.

(** The next chunk of the first one, which arrives later. *)
Definition demo_chunk : Request :=
  mkRequest "a" 3 0 0 9 (Some (mkSampling (Some 16) 0 None [] None None)) None None false WAITING None 16
    (Some [5]) None ∅ 1 [] [5] 0 0 0 0 [] 0 None [] false 0 [] false true false.

(** The update assigns a new arrival time to a request that is in the heap of
    skipped requests: the front of the queue is then not its smallest element. *)
Theorem session_update_breaks_order :
  ∃ k s x y, demo_kv = Ok k ∧ demo_add (demo_sessions k) demo_chunk = Ok s ∧
    peek_request (skipped_waiting s) = Ok x ∧ queue_len (skipped_waiting s) = 2 ∧
    od_get (requests s) "b"%string = Some y ∧ request_lt y x = true.
Proof.
  pose proof demo_kv_groups as Hk. destruct demo_kv as [k|]; [|destruct Hk]. exists k.
  eexists _, _, _. split; [reflexivity|]. split; [reflexivity|]. split; [reflexivity|].
  split; [reflexivity|]. split; reflexivity.
Qed.

(** ** The encoder cache of encoder-decoder models *)

(** One encoder input of three embeddings, and a request past its first token. *)
Definition demo_audio : Request :=
  mkRequest "a" 1 0 0 1 None None None false RUNNING None 16 (Some [1]) None ∅ 1 [2] [1; 2] 0 0 0 0 [] 1 None
    [demo_image "X" 0 3] false 0 [] false false false.

Definition demo_encdec_config : SchedulerConfig :=
  mkSchedConfig FCFS 4 16 64 1 0 true false true 8 false 0 0 None None false false 2 false false false false
    false false 1.

(** Every step frees the input again: the counter of free slots passes the size
    of the cache, so that the admission test no longer bounds anything. *)
Theorem encoder_decoder_slots_grow :
  ∃ k e s, demo_kv = Ok k ∧ ed_allocate (init_encoder_decoder 4) demo_audio 0 = Ok e ∧
    ed_num_free_slots e = 1 ∧
    mfold (λ s _, _free_encoder_inputs elements s demo_audio)
      (demo_idle demo_encdec_config (EncDecCache e) k) (seq 0 3) = Ok s ∧
    encoder_cache_manager s = EncDecCache (mkEncDec 4 10 ["X"%string] []).
Proof.
  pose proof demo_kv_groups as Hk. destruct demo_kv as [k|]; [|destruct Hk]. exists k.
  eexists _, _. split; [reflexivity|]. split; [reflexivity|]. split; [reflexivity|]. split; reflexivity.
Qed.

(** ** A minimum that exceeds the model length *)

(** The model takes six tokens; the request has four and must generate eight. *)
Definition demo_short_config : SchedulerConfig :=
  mkSchedConfig FCFS 4 6 6 1 0 true false false 0 false 0 0 None None false false 2 false false false false
    false false 1.
Definition demo_min_tokens : Request :=
  mkRequest "a" 1 0 0 1 (Some (mkSampling (Some 8) 8 None [] None None)) None None false WAITING None 8
    (Some [1; 2; 3; 4]) None ∅ 4 [] [1; 2; 3; 4] 0 0 0 0 [] 0 None [] false 0 [] false false false.

Fixpoint demo_steps (n : nat) (s : Scheduler) : result Scheduler :=
  match n with
  | O => Ok s
  | S n => '(_, _, s) ← demo_engine_step s; demo_steps n s
  end.

Definition demo_min_run (n : nat) : result Scheduler :=
  k ← demo_kv;
  s ← demo_add (demo_idle demo_short_config (MMCache (init_encoder_cache 0)) k) demo_min_tokens;
  demo_steps n s.

(** The stop test returns early while fewer than [min_tokens] tokens are generated,
    before it compares the length with [max_model_len], and nothing limits
    [min_tokens] by it.  After two steps the request has as many tokens as the
    model takes and none is left to schedule: it stays in the running list, with
    its blocks, and no further step changes it. *)
Theorem min_tokens_stuck :
  ∃ s2 s9 r, demo_min_run 2 = Ok s2 ∧ demo_min_run 9 = Ok s9 ∧ requests s9 = requests s2 ∧
    running s9 = ["a"%string] ∧ has_requests s9 = true ∧ od_get (requests s9) "a"%string = Some r ∧
    status r = RUNNING ∧ num_tokens r = sc_max_model_len demo_short_config ∧
    (∀ budget, 0 ≤ budget → running_new_tokens demo_short_config r budget = 0).
Proof.
  assert (match demo_min_run 2, demo_min_run 9 with
          | Ok s2, Ok s9 => requests s9 = requests s2 ∧ running s9 = ["a"%string] ∧ has_requests s9 = true ∧
              match od_get (requests s9) "a"%string with
              | Some r => status r = RUNNING ∧ num_tokens r = 6 ∧ num_tokens_with_spec r = 6 ∧
                  num_computed_tokens r = 5 ∧ num_output_placeholders r = 0
              | None => False
              end
          | _, _ => False
          end) as H by (vm_compute; done).
  destruct (demo_min_run 2) as [s2|]; [|destruct H]. destruct (demo_min_run 9) as [s9|]; [|destruct H].
  destruct H as (H1 & H2 & H3 & H). destruct (od_get (requests s9) "a"%string) as [r|] eqn:Hr; [|destruct H].
  destruct H as (H4 & H5 & H6 & H7 & H8). exists s2, s9, r. split_and!; try done.
  intros b Hb. unfold running_new_tokens. rewrite H6, H7, H8. simpl. lia.
Qed.
