(* ===== verification/PlanFindings.v ===== *)
(** * Planning the KV cache: runs that show a defect

    Concrete inputs on which the plan does not do what it means to: the memory
    check forgets the null block, layers of different sizes are merged, a
    conversion drops the quantisation mode, pages cannot be unified with the
    documented error, and a pipeline stage underestimates what it needs. *)

From Stdlib Require Import QArith.
From S2P Require Import Prelude OrderedDict Request KVSpecs KVMerge KVPlan PlanSearch PlanCapacity KVManager EncoderCache RequestQueue SchedState Engine SchedTheorems SchedFindings.

#[local] Open Scope Z_scope.

(** ** The null block *)

(** One layer, a model of eight tokens in blocks of two, and memory for exactly
    the four blocks that a request of the maximum length takes. *)
Definition tight_vllm : VllmConfig :=
  mkVllm (mkSpecConfig 8 1 1 16 0 MambaNone) 8 None false false false 2 None false false.

Definition tight_plan : result (VllmConfig * list WorkerConfig) :=
  get_kv_cache_configs tight_vllm [[("l"%string, demo_group)]] [256].

(** The engine with this plan and a prompt of seven tokens. *)
Definition tight_run (n : nat) : result Scheduler :=
  '(v, cfgs) ← tight_plan;
  cfg ← generate_scheduler_kv_cache_config cfgs;
  k ← init_kv_cache_manager cfg 8 2 2 None false false false false 1 1 0%Q None false;
  let config := mkSchedConfig FCFS 4 16 8 1 0 true false false 0 false 0 0 None None false false 2 false false
                  false false false false 1 in
  s ← demo_add (demo_idle config (MMCache (init_encoder_cache 0)) k) (demo_job "a" 1 0 7);
  demo_steps n s.

(** The memory check passes, with the number of blocks equal to what a request
    takes; but the block pool keeps one block as the null block, so that a request
    of the maximum length never gets its slots: it waits forever. *)
Theorem null_block_not_counted :
  ∃ cfg s1 s9, tight_plan = Ok (tight_vllm, [cfg]) ∧
    wc_num_blocks cfg = 4 ∧ request_blocks (spec_cfg tight_vllm) (wc_groups cfg) = Ok 4 ∧
    tight_run 1 = Ok s1 ∧ tight_run 9 = Ok s9 ∧ running s9 = [] ∧ has_requests s9 = true ∧
    requests s9 = requests s1.
Proof.
  assert (match tight_run 1, tight_run 9 with
          | Ok s1, Ok s9 => running s9 = [] ∧ has_requests s9 = true ∧ requests s9 = requests s1
          | _, _ => False
          end) as H by (vm_compute; done).
  destruct (tight_run 1) as [s1|]; [|destruct H]. destruct (tight_run 9) as [s9|]; [|destruct H].
  eexists _, s1, s9. split; [reflexivity|]. split; [reflexivity|]. split; [reflexivity|].
  split; [done|]. split; [done|]. exact H.
Qed.

(** ** Merging layers of different sizes *)

Definition wide_layer (head_size_v : Z) : KVCacheSpec :=
  FullAttentionSpec (mkAttn 16 1 64 (mkDtype "bfloat16" 2) QNone None false) (mkFull head_size_v None None false).

Definition latent_layer (head_size : Z) : KVCacheSpec :=
  MLAAttentionSpec (mkAttn 16 1 head_size (mkDtype "bfloat16" 2) QNone None false) (mkFull head_size None None false)
    (mkMLA None None 1 None).

(** [FullAttentionSpec.merge] compares the fields of [AttentionSpec], which do not
    include [head_size_v], and [MLAAttentionSpec.merge] does not compare the head
    size: layers with larger pages are accepted into a group that has the page
    size of its first layer. *)
Theorem merge_ignores_sizes :
  merge [wide_layer 64; wide_layer 128] = Ok (wide_layer 64) ∧
  page_size_bytes (wide_layer 64) = Ok 4096 ∧ page_size_bytes (wide_layer 128) = Ok 6144 ∧
  merge [latent_layer 64; latent_layer 128] = Ok (latent_layer 64) ∧
  page_size_bytes (latent_layer 64) = Ok 2048 ∧ page_size_bytes (latent_layer 128) = Ok 4096.
Proof. split_and!; reflexivity. Qed.

(** ** A conversion that drops the quantisation mode *)

Definition quantised : AttentionFields := mkAttn 16 1 64 (mkDtype "int8" 1) INT8_PER_TOKEN_HEAD None false.

Definition quantised_layers : spec_dict :=
  [("full"%string, FullAttentionSpec quantised (mkFull 64 None None false));
   ("local"%string, ChunkedLocalAttentionSpec quantised 32)].

(** Without the hybrid manager, a chunked-local layer becomes a full-attention
    layer without its quantisation mode: the scales of its tokens are no longer
    counted in its page. *)
Theorem conversion_drops_quantisation :
  ∃ d s s', unify_hybrid_kv_cache_specs quantised_layers = Ok d ∧
    od_get quantised_layers "local"%string = Some s ∧ od_get d "local"%string = Some s' ∧
    page_size_bytes s = Ok 2176 ∧ page_size_bytes s' = Ok 2048.
Proof. eexists _, _, _. split_and!; reflexivity. Qed.

(** ** An undocumented error *)

Definition mamba_layers : spec_dict :=
  [("attn"%string, demo_full);
   ("mamba"%string, MambaSpec (mkMamba 16 [[64]] [mkDtype "bfloat16" 2] None "mamba2" MambaNone 0))].

(** A smaller Mamba page that divides the largest one is "unified" by scaling its
    block size, which its page does not depend on: the documented
    [NotImplementedError] is an [AssertionError]. *)
Theorem mamba_page_not_unified :
  mmap page_size_bytes mamba_layers.*2 = Ok [256; 128] ∧
  unify_kv_cache_spec_page_size mamba_layers = Raise AssertionError.
Proof. split; reflexivity. Qed.

(** ** A pipeline stage without the largest page *)

Definition stage_latent (head_size : Z) : KVCacheSpec :=
  MLAAttentionSpec (mkAttn 64 1 head_size (mkDtype "bfloat16" 2) QNone None false) (mkFull head_size None None false)
    (mkMLA None None 1 (Some "deepseek_v4"%string)).
Definition stage_window : KVCacheSpec :=
  SlidingWindowMLASpec (mkAttn 32 1 32 (mkDtype "bfloat16" 2) QNone None false) 128
    (mkMLA None None 1 (Some "deepseek_v4"%string)).

(** The second stage has a full-attention layer with the smaller page only. *)
Definition stages : list spec_dict :=
  [[("big.0", stage_latent 16); ("small.0", stage_latent 8); ("w.0", stage_window); ("w.1", stage_window)];
   [("small.1", stage_latent 8); ("w.2", stage_window); ("w.3", stage_window)]]%string.

Definition stages_vllm : VllmConfig :=
  mkVllm (mkSpecConfig 1024 1 1 64 0 MambaNone) 1024 None false false false 64 None false false.

(** The pages a request of the maximum length takes of every group. *)
Definition stage_pages (c : SpecConfig) (gs : list WorkerGroup) : result (list Z) :=
  mmap (max_memory_usage_pages c) (omap uniform_of_group gs).

(** The memory check takes the page sizes of a layer tuple from the full-attention
    group of the stage, but the window layers were padded to the page sizes of
    the whole model.  With 30720 bytes on the second stage the check passes, and
    leaves ten blocks for a request that takes thirty. *)
Theorem stage_underestimated :
  ∃ cfg0 cfg1, get_kv_cache_configs stages_vllm stages [100000; 30720] = Ok (stages_vllm, [cfg0; cfg1]) ∧
    stage_pages (spec_cfg stages_vllm) (wc_groups cfg1) = Ok [16; 7; 7] ∧
    _max_memory_usage_bytes_from_groups (spec_cfg stages_vllm) (wc_groups cfg1) = Ok 30720 ∧
    wc_num_blocks cfg0 = 10 ∧ wc_num_blocks cfg1 = 10.
Proof. eexists _, _. split; [vm_compute; reflexivity|]. split_and!; reflexivity. Qed.
